(* ===== verification/_CoqProject ===== *)
-Q . S2P
Prelude.v
JsNumber.v
JsString.v
JsValue.v
Regex.v
Captures.v
ParseUri.v
Uri.v
Base64.v
BufferInt.v
Binary64.v
BufferFloat.v
BufferText.v
BufferOps.v
ParamEncoding.v
Operation.v
OperationForm.v
CookieJar.v
Helpers.v
Auth.v
OperationInit.v
OperationBuild.v
SpecConverter.v
Names.v
UrlRef.v
Resolver.v
Fetch.v
FetchProtocol.v
Heap.v
ResolveScan.v
ResolveFinish.v
Emitter.v
Superagent.v
AuthViews.v
Client.v
Http.v
SuperagentClient.v
SuperagentRun.v
ClientBuild.v
EventLoop.v
Promises.v
Combinators.v
AllAnswered.v
SchemaMarkup.v
Samples.v
OperationView.v
UiViews.v
Docs.v
Lang.v
YamlTypes.v
YamlText.v
YamlDump.v
YamlLoad.v
YamlHoare.v
YamlLoadEnds.v
YamlRound.v
YamlApi.v
Decimal.v
ToFixed.v
ShimDate.v
ShimArray.v
ShimString.v
Lodash.v
LodashPath.v
LodashClone.v
LodashEqual.v
LodashSearch.v
LodashBind.v
