(* ===== verification/Prelude.v ===== *)
(** * The browser client of the Moonbox grid: a verified model

    The Moonbox repository is a Scala system (catalyst, catalog, the grid and
    its applications) whose grid serves a REST interface.  Its JavaScript is
    the page for that interface: [src/grid/src/main/resources/swagger-ui-dist],
    where one bundle, [swagger-ui.js], holds the client library (lib/), the
    views of the page, and the packages they use; [lang/] has the translations,
    and [src/docs/js/main.js] the script of the documentation.  This
    development models that program: unless another file is named, the sources
    below are modules of the bundle.

    ** How the program works, and where it is modelled

    A page makes a [SwaggerClient] with the address of a document.  The client
    requests the document, converts it when it is of version 1.x, resolves its
    references, and builds one [Operation] per path and method, in groups by
    tag.  The views show the operations, make forms of their parameters, and
    send requests with the authorizations the user gave; the answers are shown.

    - The language.  [Prelude] has exceptions ([res]), state with exceptions
      ([ST]), the interface of codecs, the tactics and the generic lemmas.
      [JsNumber] has 32-bit integers as the operators see them, [JsString]
      strings (lists of 16-bit units) and their methods, [JsValue] values,
      property access and the order of [for .. in], [Heap] objects with
      identity, [Regex] and [Captures] regular expressions (derivatives, and
      backtracking with groups), [Uri] [encodeURIComponent].
    - lib/client.  [ClientBuild]: the constructor, [initialize], [build] and its
      callbacks as a step relation, [buildFromSpec], [help] and the setters;
      [ParseUri]: the address of the document; [Client]: ids and groups of
      operations; [Names]: the loop that makes a name unique, shared with the
      resolver; [Helpers]: lib/helpers.
    - lib/spec-converter.  [SpecConverter]: documents of version 1.x to 2.0, and
      the requests for their declarations.
    - lib/resolver.  [Resolver]: references, lookups and the composition of
      [allOf] on one document as a tree; [UrlRef]: joining references of
      documents; [ResolveScan] and [ResolveFinish]: the scan of a document and
      putting the references in, on objects with identity, and the rounds of
      [resolve]; [Fetch]: what is picked to be fetched; [FetchProtocol]: locks,
      cache and answers in any order.
    - lib/types/operation, lib/types/model, lib/schema-markup.  [OperationInit]
      and [OperationBuild]: the constructor; [ParamEncoding] and [Operation]:
      from the arguments of a call to the request and its curl text;
      [SchemaMarkup] and [Samples]: samples and signatures of schemas, and the
      copies of these functions in the views.
    - lib/auth, lib/http.  [Auth]: authorizations applied to a request, with the
      cookies of [CookieJar] and [btoa]; [Http]: the choice of the HTTP client,
      the callbacks, headers and bodies.
    - The views.  [AuthViews]: authorization forms and OAuth logins;
      [OperationForm]: from the form to the call; [OperationView]: what an
      operation and its answer show; [UiViews]: the other views; [Docs]: the
      open sections, and the code tabs of src/docs/js/main.js; [Lang]: the
      translator and the language files.
    - The packages in the bundle.  [Base64], [BufferInt], [Binary64],
      [BufferFloat], [BufferText], [BufferOps]: base64-js, buffer and ieee754,
      with doubles of the Standard Library; [EventLoop]: the process shim;
      [Promises]: the promises of Q and their queue of tasks, as a step
      relation, [Combinators]: what Q builds of them, and [AllAnswered]: its
      functions keep to the rules, and arrays of promises are answered; [Emitter], [Superagent], [SuperagentRun]: superagent, from the
      calls on a request to what the browser is handed, its answer and the
      life of a request, and [SuperagentClient]: superagent under the client's
      calls of [Http]; [YamlTypes], [YamlText], [YamlDump], [YamlLoad],
      [YamlHoare], [YamlLoadEnds], [YamlRound], [YamlApi]: js-yaml;
      [Decimal] and [ToFixed], [ShimDate], [ShimArray], [ShimString]: what
      es5-shim puts in place of the methods of numbers, dates, arrays and
      strings; [Lodash] and [LodashSearch]: lodash's tests of values, loops over
      collections and searches, [LodashPath]: property paths, [LodashClone]:
      [cloneDeep] and [LodashEqual]: [isEqual] and the predicates of [matches],
      both on objects with identity, [LodashBind]: [bind] and its wrappers.

    State is a record per component; an operation is a function on it, with
    the exceptions it may throw as values ([res]), or a program of [ST] where
    the changes before an exception stay.  What is driven by events (timers,
    answers of the network) is a step relation.  Objects that are changed
    while others refer to them live in a heap: js-yaml's nodes, the objects of
    the resolver, the shared memory of buffers.

    ** What is shown

    - Round trips: the address of a request and its arguments
      ([Operation.urlify_query]), base64, text encodings, integers and doubles
      in buffers, dates and their ISO text, Basic authorization, the login
      address, [parseUri], form bodies, reference lookup, YAML scalars.
    - Safety and invariants: masked passwords do not reach the address,
      exactly the authorizations that are named are applied, tags are converted once, the
      jar's contract, a client is built once, the scan overwrites no
      definition, a response shown as text is text, a form that is submitted is
      not refused, the callback of a request is called once, a promise settles
      once and answers every [then] once, [cloneDeep] copies every object once
      and changes none.
    - Functional behaviour and errors: copying and comparing buffers, responses
      and scopes of converted documents, the split of the responses, the links
      after [finish], required parameters, bounds of every read and write, the
      order of an emission, what reaches the browser, the caret under a YAML
      error, the digits of [toFixed], calls of bound functions, reading along a
      property path.
    - Termination and liveness: the resolver's composition, samples, the YAML
      dumper and the YAML parser on every input, [split] at a regular
      expression, the call of [finish] and the converter's callback once
      everything is answered, and so the promise of [all].
    - Refinement and equivalence: the process shim is a first-in first-out
      queue, [splice] on array-like objects is [splice] on lists, the loop that
      picks what to fetch is a filter (when it does not hang), comparing buffers
      is the lexicographic order, the predicates of [matches] compare trees, the
      binary search finds what the linear search finds.

    The comment of a theorem names its conditions.  Where the code does not do
    what it means to, which is where many of these conditions come from, an
    Example beside the model shows the behaviour on a concrete input.

    ** Bounds and fuel

    Recursion that does not follow a value structurally has fuel that is
    computed from the input: the nesting or size of a value ([vdepth],
    [vsize]), the length of a text, the number of taken names; a lemma
    ([..._not_fuel], [..._enough], [..._ends]) shows that it is not used up.
    [Throw Unsupported] is the mark of exhausted fuel and of the few inputs
    outside the model.  On a heap, a recursion deeper than the number of cells
    is in a cycle, which overflows the stack in the program: that is
    [RangeError].  The loop that picks references really can run for ever
    ([Fetch.relative_self_hangs]), so its fuel stays a parameter.  Integers of
    the Buffer module are wrapped at their width; other numbers of documents
    are unbounded integers or carry their text.

    ** What is not modelled

    The DOM, jQuery and the templates (the views are modelled up to the data
    they give to a template, and texts they insert themselves); the
    XMLHttpRequest behind superagent, beyond the order of its events; of
    es5-shim the tests of the environment (every method is modelled as the
    replacement) and the methods of functions and objects; of lodash the chains
    of wrapped values, typed arrays and host objects; the other packages of the
    bundle, whose documented behaviour the definitions use; of Q
    thenables of other libraries, long stack traces and the tracking of
    unhandled rejections;
    JSON text, the clock, [Date.parse] outside [ShimDate], object URLs, the
    logarithm of [Math] and [Array.sort] with an inconsistent comparison, which
    are parameters; log messages.  The Scala and
    Java parts of the repository are another program. *)

From Stdlib Require Export ZArith Lia Setoid Morphisms.
From stdpp Require Export base tactics numbers option.
From stdpp Require Export list.

#[global] Open Scope Z_scope.

Create HintDb js discriminated.

(** ** Exceptions

    JavaScript code either returns a value or throws.  [res] is that
    choice, with the exceptions the modelled code throws or lets escape. *)

Inductive jserror :=
| TypeError
| RangeError
| URIError
| SyntaxError
| ErrorMsg
| Unsupported.

Inductive res (A : Type) :=
| Ok (a : A)
| Throw (e : jserror).
Arguments Ok {A} a.
Arguments Throw {A} e.

#[export] Instance res_ret : MRet res := fun A a => Ok a.
#[export] Instance res_bind : MBind res := fun A B f m =>
  match m with Ok a => f a | Throw e => Throw e end.
#[export] Instance res_fmap : FMap res := fun A B f m =>
  match m with Ok a => Ok (f a) | Throw e => Throw e end.

#[export] Instance jserror_eq_dec : EqDecision jserror.
Proof. solve_decision. Defined.
#[export] Instance res_eq_dec {A} `{EqDecision A} : EqDecision (res A).
Proof. solve_decision. Defined.

Definition is_ok {A} (r : res A) : bool := match r with Ok _ => true | Throw _ => false end.

(** Throw unless a condition holds (the shape of every guard of the code). *)
Definition guard_or (b : bool) (e : jserror) : res unit := if b then Ok tt else Throw e.

(** Run a fallible function over a list, left to right, stopping at the
    first exception. *)
Fixpoint mapM_res {A B} (f : A -> res B) (l : list A) : res (list B) :=
  match l with
  | [] => Ok []
  | x :: l' => y ← f x; ys ← mapM_res f l'; Ok (y :: ys)
  end.

Fixpoint foldM_res {A S} (f : S -> A -> res S) (s : S) (l : list A) : res S :=
  match l with
  | [] => Ok s
  | x :: l' => s' ← f s x; foldM_res f s' l'
  end.

(** ** State and exceptions

    Code that changes an object step by step and may throw in between: the
    changes made before the exception stay. *)

Definition ST (S A : Type) : Type := S -> S * res A.
#[export] Instance st_ret {S} : MRet (ST S) := fun A a s => (s, Ok a).
#[export] Instance st_bind {S} : MBind (ST S) := fun A B f m s =>
  match m s with
  | (s', Ok a) => f a s'
  | (s', Throw e) => (s', Throw e)
  end.
Definition lift {S A} (r : res A) : ST S A := fun s => (s, r).
Definition gets {S A} (f : S -> A) : ST S A := fun s => (s, Ok (f s)).
Definition modify {S} (f : S -> S) : ST S unit := fun s => (f s, Ok tt).

(** A loop over a list. *)
Fixpoint iterM {S A} (f : A -> ST S unit) (l : list A) : ST S unit :=
  match l with
  | [] => fun s => (s, Ok tt)
  | x :: l' => fun s => match f x s with
                        | (s', Ok _) => iterM f l' s'
                        | (s', Throw e) => (s', Throw e)
                        end
  end.

(** An invariant of the state that a computation keeps, thrown out of or not. *)
Definition keeps {S A} (P : S -> Prop) (m : ST S A) : Prop := forall s, P s -> P (m s).1.

Lemma keeps_bind {S A B} (P : S -> Prop) (m : ST S A) (f : A -> ST S B) :
  keeps P m -> (forall a, keeps P (f a)) -> keeps P (m ≫= f).
Proof.
  intros Hm Hf s Hs. specialize (Hm s Hs). unfold mbind, st_bind.
  destruct (m s) as [s' [a|e]]; [by apply Hf|done].
Qed.
Lemma keeps_lift {S A} (P : S -> Prop) (r : res A) : keeps P (lift r : ST S A).
Proof. by intros s. Qed.
Lemma keeps_gets {S A} (P : S -> Prop) (f : S -> A) : keeps P (gets f).
Proof. by intros s. Qed.
Lemma keeps_ret {S A} (P : S -> Prop) (a : A) : keeps P (mret a : ST S A).
Proof. by intros s. Qed.
Lemma keeps_iter {S A} (P : S -> Prop) (f : A -> ST S unit) l :
  (forall x, x ∈ l -> keeps P (f x)) -> keeps P (iterM f l).
Proof.
  induction l as [|x l IH]; intros Hf s Hs; cbn; [done|].
  pose proof (Hf x ltac:(by left) s Hs) as H. destruct (f x s) as [s' [?|?]]; [|done].
  apply IH; [|done]. intros y Hy. apply Hf. by right.
Qed.
Lemma st_bind_ok {S A B} (m : ST S A) (f : A -> ST S B) s s' b :
  (m ≫= f) s = (s', Ok b) <-> exists a s1, m s = (s1, Ok a) /\ f a s1 = (s', Ok b).
Proof.
  unfold mbind, st_bind. destruct (m s) as [s1 [a|e]].
  - split; [by eauto|]. intros (a' & s2 & [= <- <-] & H). done.
  - split; [done|]. by intros (a' & s2 & ? & _).
Qed.
#[export] Hint Resolve keeps_lift keeps_gets keeps_ret : js.

(** ** Encoders with a decoder

    The interface every codec of the development promises: on well-formed
    input, encoding succeeds and decoding gives the input back. *)

Class Codec (A B : Type) := {
  codec_wf : A -> Prop;
  codec_enc : A -> res B;
  codec_dec : B -> res A;
  codec_law : forall a, codec_wf a -> exists b, codec_enc a = Ok b /\ codec_dec b = Ok a
}.

Lemma codec_inj {A B} `{Codec A B} (x y : A) :
  codec_wf x -> codec_wf y -> codec_enc x = codec_enc y -> x = y.
Proof.
  intros Hx Hy E. destruct (codec_law x Hx) as (b & Ex & Dx).
  destruct (codec_law y Hy) as (b' & Ey & Dy). congruence.
Qed.

(** ** Tactics *)

(** Destruct the scrutinee of a [match] or [if] of the goal or a hypothesis. *)
Ltac break_match :=
  match goal with
  | |- context [match ?x with _ => _ end] => destruct x eqn:?
  | H : context [match ?x with _ => _ end] |- _ => destruct x eqn:?
  end.

Ltac res_simpl :=
  cbn [mbind res_bind mret res_ret fmap res_fmap] in *; simplify_eq.

(** Boolean tests on integers and lists as propositions. *)
Ltac btrue :=
  repeat match goal with
  | H : (_ && _) = true |- _ => apply andb_true_iff in H; destruct H
  | H : (_ || _) = false |- _ => apply orb_false_iff in H; destruct H
  | H : negb _ = true |- _ => apply negb_true_iff in H
  | H : negb _ = false |- _ => apply negb_false_iff in H
  | H : (_ =? _) = true |- _ => apply Z.eqb_eq in H
  | H : (_ =? _) = false |- _ => apply Z.eqb_neq in H
  | H : (_ <? _) = true |- _ => apply Z.ltb_lt in H
  | H : (_ <? _) = false |- _ => apply Z.ltb_ge in H
  | H : (_ <=? _) = true |- _ => apply Z.leb_le in H
  | H : (_ <=? _) = false |- _ => apply Z.leb_gt in H
  end.

(** ** Generic lemmas on the error monad *)

Lemma bind_ok {A B} (m : res A) (f : A -> res B) b :
  (m ≫= f) = Ok b <-> exists a, m = Ok a /\ f a = Ok b.
Proof.
  destruct m; cbn; [|by split; [|intros (a & ? & ?)]].
  split; [by eauto|]. intros (a' & ? & ?). by simplify_eq.
Qed.

Lemma mapM_res_ok {A B} (f : A -> res B) l l' :
  mapM_res f l = Ok l' <-> Forall2 (fun x y => f x = Ok y) l l'.
Proof.
  split.
  - revert l'. induction l as [|x l IH]; intros l' H; cbn in H.
    + simplify_eq. constructor.
    + destruct (f x) as [y|e] eqn:E; [|by res_simpl].
      destruct (mapM_res f l) as [ys|e] eqn:E2; res_simpl.
      constructor; auto.
  - induction 1 as [|x y l l' E _ IH]; cbn; [done|]. by rewrite E; cbn; rewrite IH.
Qed.

Lemma mapM_res_total {A B} (f : A -> res B) (g : A -> B) l :
  (forall x, x ∈ l -> f x = Ok (g x)) -> mapM_res f l = Ok (g <$> l).
Proof.
  induction l as [|x l IH]; intros H; cbn; [done|].
  rewrite H by constructor. cbn. rewrite IH; [done|].
  intros y Hy. apply H. by constructor.
Qed.

Lemma foldM_res_app {A S} (f : S -> A -> res S) l1 l2 s :
  foldM_res f s (l1 ++ l2) = (s' ← foldM_res f s l1; foldM_res f s' l2).
Proof.
  revert s. induction l1 as [|x l1 IH]; intros s; cbn; [done|].
  destruct (f s x); cbn; auto.
Qed.

(** Results other than running out of fuel. *)
Definition not_fuel {A} (r : res A) : Prop := r <> Throw Unsupported.

Lemma not_fuel_bind {A B} (m : res A) (f : A -> res B) :
  not_fuel m -> (forall a, m = Ok a -> not_fuel (f a)) -> not_fuel (m ≫= f).
Proof. destruct m; cbn; [intros _ H; by apply H|intros H _]. intros E. apply H. by injection E as ->. Qed.
Lemma not_fuel_ok {A} (a : A) : not_fuel (Ok a).
Proof. done. Qed.
#[export] Hint Resolve not_fuel_ok : js.

(** An invariant preserved by every step of a fallible fold holds at the end. *)
Lemma foldM_res_inv {A S} (P : S -> Prop) (f : S -> A -> res S) l s s' :
  (forall s x s', x ∈ l -> P s -> f s x = Ok s' -> P s') ->
  P s -> foldM_res f s l = Ok s' -> P s'.
Proof.
  revert s. induction l as [|x l IH]; intros s Hf Hs E; cbn in E; [by simplify_eq|].
  destruct (f s x) as [s1|] eqn:Es; res_simpl.
  apply (IH s1); [|by apply (Hf s x); [constructor|..]|done].
  intros s2 y s3 Hy. apply Hf. by constructor.
Qed.

Lemma foldl_inv {A S} (P : S -> Prop) (f : S -> A -> S) l s :
  (forall s x, x ∈ l -> P s -> P (f s x)) -> P s -> P (foldl f s l).
Proof.
  revert s. induction l as [|x l IH]; intros s Hf Hs; cbn; [done|].
  apply IH; [|by apply Hf; [constructor|]].
  intros s' y Hy. apply Hf. by constructor.
Qed.

(** ** Generic lemmas on lists *)

Lemma Forall_forallb {A} (p : A -> bool) l : forallb p l = true <-> Forall (fun x => p x = true) l.
Proof.
  induction l as [|x l IH]; cbn.
  - split; [constructor|done].
  - split.
    + intros [Hx Hl]%andb_true_iff. constructor; [done|by apply IH].
    + intros Hf. apply andb_true_iff. inversion Hf; subst. by split; [|apply IH].
Qed.

Lemma list_eqb_decide {A} `{EqDecision A} (x y : A) : bool_decide (x = y) = true <-> x = y.
Proof. apply bool_decide_eq_true. Qed.

Lemma fst_in_lookup {A B} `{EqDecision A} (l : list (A * B)) k :
  k ∈ l.*1 <-> exists v, (k, v) ∈ l.
Proof.
  rewrite list_elem_of_fmap. split.
  - intros ([k' v] & -> & Hin). by exists v.
  - intros (v & Hin). by exists (k, v).
Qed.
