(* ===== verification/JsNumber.v ===== *)
(** * Integers as JavaScript's operators see them

    The bit operators of JavaScript convert their operands to 32-bit
    integers.  Numbers are [Z] here; every operator of the code that wraps
    is written with its wrap-around.  The second half relates the shifts and
    masks the code uses to quotients and remainders, and defines the
    reference little-endian byte expansion [le_bytes] / [le_value] that the
    readers and writers of [BufferInt] are compared with. *)

From S2P Require Import Prelude.

(** ToInt32, ToUint32 and ToUint8 of the language. *)
Definition to_uint32 (z : Z) : Z := z mod 2 ^ 32.
Definition to_int32 (z : Z) : Z :=
  let m := z mod 2 ^ 32 in if m <? 2 ^ 31 then m else m - 2 ^ 32.
Definition to_uint8 (z : Z) : Z := z mod 2 ^ 8.

Definition js_and (a b : Z) : Z := to_int32 (Z.land (to_int32 a) (to_int32 b)).
Definition js_or (a b : Z) : Z := to_int32 (Z.lor (to_int32 a) (to_int32 b)).
Definition js_shl (a n : Z) : Z := to_int32 (Z.shiftl (to_int32 a) (n mod 32)).
Definition js_sar (a n : Z) : Z := to_int32 (Z.shiftr (to_int32 a) (n mod 32)).
Definition js_shr (a n : Z) : Z := Z.shiftr (to_uint32 a) (n mod 32).

Definition is_byte (z : Z) : Prop := 0 <= z < 256.
Definition is_unit (z : Z) : Prop := 0 <= z < 65536.
Definition is_int32 (z : Z) : Prop := - 2 ^ 31 <= z < 2 ^ 31.

(** Reference byte expansion: [le_bytes n v] is the [n] low bytes of [v],
    least significant first, and [le_value] is the number such a list
    denotes. *)
Fixpoint le_bytes (n : nat) (v : Z) : list Z :=
  match n with O => [] | S n' => v mod 256 :: le_bytes n' (v / 256) end.
Fixpoint le_value (bs : list Z) : Z :=
  match bs with [] => 0 | b :: bs' => b + 256 * le_value bs' end.

(** Two's complement reading of an unsigned [bits]-bit number. *)
Definition signed_of (bits : Z) (u : Z) : Z := if u <? 2 ^ (bits - 1) then u else u - 2 ^ bits.

(** Digits of a non-negative number in a radix, most significant first. *)
Fixpoint radix_digits (fuel : nat) (r n : Z) : list Z :=
  match fuel with
  | O => []
  | S f => if n <? r then [n] else radix_digits f r (n / r) ++ [n mod r]
  end.

(** ** Ranges *)

Lemma to_uint32_range z : 0 <= to_uint32 z < 2 ^ 32.
Proof. apply Z.mod_pos_bound. lia. Qed.
Lemma to_int32_range z : is_int32 (to_int32 z).
Proof.
  unfold is_int32, to_int32. pose proof (Z.mod_pos_bound z (2 ^ 32) ltac:(lia)).
  destruct (Z.ltb_spec (z mod 2 ^ 32) (2 ^ 31)); lia.
Qed.
Lemma to_uint8_range z : is_byte (to_uint8 z).
Proof. unfold is_byte, to_uint8. change 256 with (2 ^ 8). apply Z.mod_pos_bound. lia. Qed.

Lemma to_int32_id z : is_int32 z -> to_int32 z = z.
Proof.
  unfold is_int32, to_int32. intros H. destruct (decide (0 <= z)).
  - rewrite Z.mod_small by lia. destruct (Z.ltb_spec z (2 ^ 31)); lia.
  - replace (z mod 2 ^ 32) with (z + 2 ^ 32).
    + destruct (Z.ltb_spec (z + 2 ^ 32) (2 ^ 31)); lia.
    + symmetry. rewrite <- (Z.mod_add z 1) by lia. apply Z.mod_small. lia.
Qed.
Lemma to_uint32_id z : 0 <= z < 2 ^ 32 -> to_uint32 z = z.
Proof. intros. apply Z.mod_small. lia. Qed.
Lemma to_uint8_id z : is_byte z -> to_uint8 z = z.
Proof. intros H. apply Z.mod_small. unfold is_byte in H. lia. Qed.

Lemma to_int32_cong z : exists k, to_int32 z = z + k * 2 ^ 32.
Proof.
  unfold to_int32. pose proof (Z.div_mod z (2 ^ 32) ltac:(lia)).
  destruct (Z.ltb_spec (z mod 2 ^ 32) (2 ^ 31)).
  - exists (- (z / 2 ^ 32)). lia.
  - exists (- (z / 2 ^ 32) - 1). lia.
Qed.

Lemma to_int32_mod z m : 0 < m -> (m | 2 ^ 32) -> to_int32 z mod m = z mod m.
Proof.
  intros Hm [c Hc]. destruct (to_int32_cong z) as [k ->].
  rewrite Hc. rewrite Z.mul_assoc. apply Z.mod_add. lia.
Qed.

(** ** Masks and shifts as arithmetic *)

Lemma land_ones_mod z n : 0 <= n -> Z.land z (2 ^ n - 1) = z mod 2 ^ n.
Proof. intros. rewrite <- Z.land_ones by lia. f_equal. rewrite Z.ones_equiv. lia. Qed.

Lemma land_255 z : Z.land z 255 = z mod 256.
Proof. exact (land_ones_mod z 8 ltac:(lia)). Qed.
Lemma land_63 z : Z.land z 63 = z mod 64.
Proof. exact (land_ones_mod z 6 ltac:(lia)). Qed.

Lemma js_and_mask v n : 0 <= n <= 31 -> js_and v (2 ^ n - 1) = v mod 2 ^ n.
Proof.
  intros Hn. assert (Hp : 0 < 2 ^ n <= 2 ^ 31) by (split; [lia | apply Z.pow_le_mono_r; lia]).
  unfold js_and. rewrite (to_int32_id (2 ^ n - 1)) by (unfold is_int32; lia).
  rewrite land_ones_mod by lia.
  rewrite to_int32_mod; [|lia|exists (2 ^ (32 - n)); rewrite <- Z.pow_add_r by lia; f_equal; lia].
  apply to_int32_id. unfold is_int32. pose proof (Z.mod_pos_bound v (2 ^ n)). lia.
Qed.
Lemma js_and_255 v : js_and v 255 = v mod 256.
Proof. exact (js_and_mask v 8 ltac:(lia)). Qed.
Lemma js_and_63 v : js_and v 63 = v mod 64.
Proof. exact (js_and_mask v 6 ltac:(lia)). Qed.

(** A mask in the middle of a word selects a field. *)
Lemma land_field v k n :
  0 <= k -> 0 <= n -> Z.land v ((2 ^ n - 1) * 2 ^ k) = (v / 2 ^ k) mod 2 ^ n * 2 ^ k.
Proof.
  intros Hk Hn. rewrite <- land_ones_mod by lia. apply Z.bits_inj'. intros i Hi.
  rewrite Z.land_spec. destruct (decide (i < k)).
  - rewrite !Z.mul_pow2_bits_low by lia. apply andb_false_r.
  - rewrite !Z.mul_pow2_bits by lia. rewrite Z.land_spec, Z.div_pow2_bits by lia.
    do 2 f_equal. lia.
Qed.
Lemma js_and_field v k n :
  0 <= k -> 0 <= n -> k + n <= 31 -> is_int32 v ->
  js_and v ((2 ^ n - 1) * 2 ^ k) = (v / 2 ^ k) mod 2 ^ n * 2 ^ k.
Proof.
  intros Hk Hn Hkn Hv. unfold js_and. rewrite (to_int32_id v) by done.
  assert (Hm : 0 <= (2 ^ n - 1) * 2 ^ k < 2 ^ 31).
  { pose proof (Z.pow_le_mono_r 2 (k + n) 31 ltac:(lia) Hkn). rewrite Z.pow_add_r in * by lia. nia. }
  rewrite (to_int32_id ((2 ^ n - 1) * 2 ^ k)) by (unfold is_int32; lia).
  rewrite land_field by lia. apply to_int32_id. unfold is_int32.
  pose proof (Z.mod_pos_bound (v / 2 ^ k) (2 ^ n) ltac:(lia)).
  assert ((v / 2 ^ k) mod 2 ^ n * 2 ^ k <= (2 ^ n - 1) * 2 ^ k) by (apply Z.mul_le_mono_nonneg_r; lia).
  assert (0 <= (v / 2 ^ k) mod 2 ^ n * 2 ^ k) by (apply Z.mul_nonneg_nonneg; lia). lia.
Qed.

Lemma js_shr_div v n : 0 <= v < 2 ^ 32 -> 0 <= n < 32 -> js_shr v n = v / 2 ^ n.
Proof.
  intros Hv Hn. unfold js_shr. rewrite to_uint32_id by lia.
  rewrite Z.mod_small by lia. apply Z.shiftr_div_pow2. lia.
Qed.
Lemma js_sar_div v n : is_int32 v -> 0 <= n < 32 -> js_sar v n = v / 2 ^ n.
Proof.
  unfold is_int32. intros Hv Hn. unfold js_sar. rewrite (to_int32_id v) by done.
  rewrite (Z.mod_small n) by lia. rewrite Z.shiftr_div_pow2 by lia.
  apply to_int32_id. unfold is_int32.
  assert (1 <= 2 ^ n) by lia. split.
  - apply Z.div_le_lower_bound; nia.
  - apply Z.div_lt_upper_bound; nia.
Qed.
Lemma js_shl_mul v n :
  0 <= n < 32 -> is_int32 v -> is_int32 (v * 2 ^ n) -> js_shl v n = v * 2 ^ n.
Proof.
  intros Hn Hv Hr. unfold js_shl. rewrite (to_int32_id v) by done.
  rewrite (Z.mod_small n) by lia. rewrite Z.shiftl_mul_pow2 by lia. by apply to_int32_id.
Qed.

(** Disjoint bits: the or of a multiple of [2^n] and a number below [2^n] is
    their sum. *)
Lemma lor_disjoint a b n : 0 <= n -> 0 <= b < 2 ^ n -> Z.lor (a * 2 ^ n) b = a * 2 ^ n + b.
Proof.
  intros Hn Hb. assert (H : Z.land (a * 2 ^ n) b = 0).
  { apply Z.bits_inj'. intros i Hi. rewrite Z.land_spec, Z.bits_0.
    destruct (decide (i < n)).
    - rewrite Z.mul_pow2_bits_low by lia. done.
    - rewrite <- (Z.mod_small b (2 ^ n)) by lia.
      rewrite Z.mod_pow2_bits_high by lia. apply andb_false_r. }
  rewrite <- Z.add_lor_land, H. lia.
Qed.

Lemma js_or_disjoint a b n :
  0 <= n -> 0 <= b < 2 ^ n -> is_int32 (a * 2 ^ n) -> is_int32 b -> is_int32 (a * 2 ^ n + b) ->
  js_or (a * 2 ^ n) b = a * 2 ^ n + b.
Proof.
  intros. unfold js_or. rewrite !(to_int32_id (a * 2 ^ n)), (to_int32_id b) by done.
  rewrite lor_disjoint by lia. by apply to_int32_id.
Qed.

Lemma js_or_comm a b : js_or a b = js_or b a.
Proof. unfold js_or. by rewrite Z.lor_comm. Qed.

(** ** The reference byte expansion *)

Lemma length_le_bytes n v : length (le_bytes n v) = n.
Proof. revert v. induction n; intros; cbn; auto. Qed.

Lemma le_bytes_byte n v : Forall is_byte (le_bytes n v).
Proof.
  revert v. induction n; intros v; cbn [le_bytes]; constructor; auto.
  apply Z.mod_pos_bound. lia.
Qed.

Lemma le_value_bytes n v : le_value (le_bytes n v) = v mod 256 ^ Z.of_nat n.
Proof.
  revert v. induction n as [|n IH]; intros v.
  - cbn. by rewrite Z.mod_1_r.
  - cbn [le_bytes le_value]. rewrite IH, Nat2Z.inj_succ, Z.pow_succ_r by lia.
    rewrite (Z.rem_mul_r v 256) by lia. lia.
Qed.

Lemma le_value_range bs : Forall is_byte bs -> 0 <= le_value bs < 256 ^ Z.of_nat (length bs).
Proof.
  unfold is_byte. induction 1 as [|b bs Hb _ IH]; cbn [le_value length].
  - cbn. lia.
  - rewrite Nat2Z.inj_succ, Z.pow_succ_r by lia. lia.
Qed.

Lemma le_bytes_value bs : Forall is_byte bs -> le_bytes (length bs) (le_value bs) = bs.
Proof.
  unfold is_byte. induction 1 as [|b bs Hb _ IH]; cbn [le_value length le_bytes]; [done|].
  rewrite (Z.mul_comm 256), Z.mod_add, Z.div_add by lia.
  rewrite Z.mod_small, (Z.div_small b) by lia. by rewrite Z.add_0_l, IH.
Qed.

Lemma le_value_app bs1 bs2 :
  le_value (bs1 ++ bs2) = le_value bs1 + 256 ^ Z.of_nat (length bs1) * le_value bs2.
Proof.
  induction bs1 as [|b bs IH]; cbn [le_value length app].
  - rewrite Z.pow_0_r. lia.
  - rewrite IH, Nat2Z.inj_succ, Z.pow_succ_r by lia. lia.
Qed.

Lemma le_bytes_mod n v m : le_bytes n (v + m * 256 ^ Z.of_nat n) = le_bytes n v.
Proof.
  revert v. induction n as [|n IH]; intros v; [done|].
  cbn [le_bytes]. rewrite Nat2Z.inj_succ, Z.pow_succ_r by lia.
  replace (v + m * (256 * 256 ^ Z.of_nat n)) with (v + (m * 256 ^ Z.of_nat n) * 256) by lia.
  rewrite Z.mod_add, Z.div_add by lia. by rewrite IH.
Qed.

Lemma signed_of_mod bits v :
  0 < bits -> - 2 ^ (bits - 1) <= v < 2 ^ (bits - 1) -> signed_of bits (v mod 2 ^ bits) = v.
Proof.
  intros Hb Hv. assert (E : 2 ^ bits = 2 * 2 ^ (bits - 1)).
  { rewrite <- Z.pow_succ_r by lia. f_equal. lia. }
  unfold signed_of. destruct (decide (0 <= v)).
  - rewrite Z.mod_small by lia. destruct (Z.ltb_spec v (2 ^ (bits - 1))); lia.
  - replace (v mod 2 ^ bits) with (v + 2 ^ bits).
    + destruct (Z.ltb_spec (v + 2 ^ bits) (2 ^ (bits - 1))); lia.
    + rewrite <- (Z.mod_add v 1) by lia. rewrite Z.mul_1_l. symmetry. apply Z.mod_small. lia.
Qed.

#[export] Hint Resolve to_int32_range to_uint32_range to_uint8_range le_bytes_byte : js.

(** The or of numbers with no common bit, without the shape of the first. *)
Lemma js_or_add a b n :
  0 <= n <= 31 -> 0 <= b < 2 ^ n -> 0 <= a -> a mod 2 ^ n = 0 -> a + b < 2 ^ 31 -> js_or a b = a + b.
Proof.
  intros Hn Hb Ha Hd Hr. pose proof (Z.div_mod a (2 ^ n) ltac:(lia)) as E.
  replace a with (a / 2 ^ n * 2 ^ n) by lia.
  apply js_or_disjoint; unfold is_int32; lia.
Qed.
