(* ===== verification/JsString.v ===== *)
(** * JavaScript strings

    A string is the list of its UTF-16 code units ([Z], 0 to 65535 when
    well formed).  The operations are those of [String.prototype] the code
    uses with string (not regular-expression) patterns.  [toLowerCase] maps
    the ASCII letters only, which is where the code's keywords live. *)

From Stdlib Require Import String Ascii.
From S2P Require Import Prelude JsNumber.
Export String.StringSyntax.

Abbreviation jsstr := (list Z).

(** A literal: [js "abc"]. *)
Definition js (s : string) : jsstr :=
  (fun c => Z.of_N (N_of_ascii c)) <$> list_ascii_of_string s.
Arguments js s%_string : simpl never.

Definition chr (s : string) : Z := List.nth 0 (js s) 0.
Arguments chr s%_string : simpl never.

Definition wf_str (s : jsstr) : Prop := Forall is_unit s.

(** ** Searching *)

Fixpoint prefixb (p s : jsstr) : bool :=
  match p, s with
  | [], _ => true
  | x :: p', y :: s' => (x =? y) && prefixb p' s'
  | _ :: _, [] => false
  end.

Fixpoint find_str (p s : jsstr) : option nat :=
  if prefixb p s then Some O
  else match s with [] => None | _ :: s' => S <$> find_str p s' end.

(** [s.indexOf(p)], [s.indexOf(p) !== -1], [s.indexOf(p) === 0]. *)
Definition indexOf (s p : jsstr) : Z :=
  match find_str p s with Some n => Z.of_nat n | None => -1 end.
Definition includes (s p : jsstr) : bool := negb (indexOf s p =? -1).
Definition startsWith (s p : jsstr) : bool := indexOf s p =? 0.

(** [s.lastIndexOf(p)]. *)
Fixpoint lastIndexOf_from (s p : jsstr) (i : Z) (best : Z) : Z :=
  let best' := if prefixb p s then i else best in
  match s with [] => best' | _ :: s' => lastIndexOf_from s' p (i + 1) best' end.
Definition lastIndexOf (s p : jsstr) : Z := lastIndexOf_from s p 0 (-1).

Definition zlength (s : jsstr) : Z := Z.of_nat (length s).

(** [s.indexOf(p, start)]: the first occurrence at or after [start]. *)
Definition indexOf_from (s p : jsstr) (start : Z) : Z :=
  let st := Z.to_nat (Z.min (Z.max start 0) (zlength s)) in
  match find_str p (drop st s) with Some n => Z.of_nat (st + n) | None => -1 end.

(** [String.prototype.endsWith] as the code's own polyfill writes it. *)
Definition endsWith (s suffix : jsstr) : bool :=
  negb (indexOf_from s suffix (zlength s - zlength suffix) =? -1).

(** ** Slicing *)

Definition clamp (lo hi x : Z) : Z := Z.max lo (Z.min hi x).

(** [s.substring(a, b)]: clamps both ends and swaps them when reversed. *)
Definition substring (s : jsstr) (a b : Z) : jsstr :=
  let a' := clamp 0 (zlength s) a in
  let b' := clamp 0 (zlength s) b in
  let lo := Z.min a' b' in let hi := Z.max a' b' in
  take (Z.to_nat (hi - lo)) (drop (Z.to_nat lo) s).
Definition substring_from (s : jsstr) (a : Z) : jsstr := substring s a (zlength s).

(** [slice(a, b)] of strings and arrays: negative ends count from the end. *)
Definition rel_index (len x : Z) : Z := if x <? 0 then Z.max (len + x) 0 else Z.min x len.
Definition slice_list {A} (l : list A) (a b : Z) : list A :=
  let len := Z.of_nat (length l) in
  let lo := rel_index len a in let hi := rel_index len b in
  take (Z.to_nat (hi - lo)) (drop (Z.to_nat lo) l).
Definition slice_from {A} (l : list A) (a : Z) : list A := slice_list l a (Z.of_nat (length l)).

Definition charAt (s : jsstr) (i : Z) : jsstr :=
  if i <? 0 then [] else match s !! Z.to_nat i with Some c => [c] | None => [] end.

(** ** Splitting and joining *)

(** [s.split(sep)] for a non-empty separator: [skip] units of the current
    separator remain to be dropped, [cur] is the field so far, reversed. *)
Fixpoint split_go (sep s : jsstr) (skip : nat) (cur : jsstr) : list jsstr :=
  match s with
  | [] => [rev cur]
  | c :: s' =>
      match skip with
      | S k => split_go sep s' k cur
      | O => if prefixb sep s
             then rev cur :: split_go sep s' (length sep - 1) []
             else split_go sep s' O (c :: cur)
      end
  end.
Definition split (s sep : jsstr) : list jsstr := split_go sep s O [].

(** [l.join(sep)]. *)
Fixpoint join (sep : jsstr) (l : list jsstr) : jsstr :=
  match l with
  | [] => []
  | [x] => x
  | x :: l' => x ++ sep ++ join sep l'
  end.

(** ** Case, white space, replacement *)

Definition lower_unit (c : Z) : Z := if (65 <=? c) && (c <=? 90) then c + 32 else c.
Definition upper_unit (c : Z) : Z := if (97 <=? c) && (c <=? 122) then c - 32 else c.
Definition toLowerCase (s : jsstr) : jsstr := lower_unit <$> s.
Definition toUpperCase (s : jsstr) : jsstr := upper_unit <$> s.

Definition is_space (c : Z) : bool :=
  ((9 <=? c) && (c <=? 13)) || (c =? 32) || (c =? 160) || (c =? 5760) ||
  ((8192 <=? c) && (c <=? 8202)) || (c =? 8232) || (c =? 8233) || (c =? 8239) ||
  (c =? 8287) || (c =? 12288) || (c =? 65279).

Fixpoint trim_left (s : jsstr) : jsstr :=
  match s with [] => [] | c :: s' => if is_space c then trim_left s' else s end.
Definition trim (s : jsstr) : jsstr := rev (trim_left (rev (trim_left s))).

(** [s.replace(p, r)] with a string pattern: the first occurrence, and
    (for the replacements the code uses) a replacement without [$]. *)
Definition replace_first (s p r : jsstr) : jsstr :=
  match find_str p s with
  | Some n => take n s ++ r ++ drop (n + length p) s
  | None => s
  end.

(** [s.replace(/p/g, r)] for a literal pattern [p]: every occurrence. *)
Definition replace_all (s p r : jsstr) : jsstr := join r (split s p).

(** ** Numbers as text *)

Definition digit_unit (d : Z) : Z := if d <? 10 then 48 + d else 87 + d.
Definition nat_fuel (n : Z) : nat := S (Z.to_nat (Z.log2 n)).
Definition radix_string (r n : Z) : jsstr :=
  if n <? 0 then chr "-" :: (digit_unit <$> radix_digits (nat_fuel (- n)) r (- n))
  else digit_unit <$> radix_digits (nat_fuel n) r n.
(** [String(n)] for an integer (the code's integers stay below [10^21]). *)
Definition Z_to_str (n : Z) : jsstr := radix_string 10 n.

(** ** Prefixes and occurrences *)

Lemma prefixb_spec p s : prefixb p s = true <-> exists t, s = p ++ t.
Proof.
  revert s. induction p as [|x p IH]; intros s; cbn.
  - split; [by exists s|done].
  - destruct s as [|y s]; [split; [done|intros (t & E); done]|].
    destruct (Z.eqb_spec x y) as [->|Hne]; cbn.
    + rewrite IH. split; intros (t & E); exists t; [by rewrite E|by injection E].
    + split; [done|]. intros (t & E). injection E. congruence.
Qed.

Lemma prefixb_app p t : prefixb p (p ++ t) = true.
Proof. apply prefixb_spec. by exists t. Qed.

Lemma find_str_0 p s : find_str p s = Some O <-> prefixb p s = true.
Proof.
  destruct s as [|c s]; cbn; destruct (prefixb p _); split; try done.
  by destruct (find_str p s).
Qed.

Lemma startsWith_prefixb s p : startsWith s p = prefixb p s.
Proof.
  unfold startsWith, indexOf. pose proof (find_str_0 p s) as H0.
  destruct (find_str p s) as [n|].
  - destruct n; [cbn; symmetry; by apply H0|].
    destruct (prefixb p s); [exfalso; destruct H0 as [_ H0]; specialize (H0 eq_refl); done|].
    apply Z.eqb_neq. lia.
  - destruct (prefixb p s); [destruct H0 as [_ H0]; specialize (H0 eq_refl); done|done].
Qed.

Lemma startsWith_app p t : startsWith (p ++ t) p = true.
Proof. rewrite startsWith_prefixb. apply prefixb_app. Qed.

(** What [find_str] returns is the first position where the pattern occurs. *)
Lemma find_str_some p s n :
  find_str p s = Some n ->
  s = take n s ++ p ++ drop (n + length p) s /\
  forall m, (m < n)%nat -> prefixb p (drop m s) = false.
Proof.
  revert n. induction s as [|c s IH]; intros n H.
  - cbn in H. destruct p; cbn in H; simplify_eq. split; [done|intros; lia].
  - cbn [find_str] in H. destruct (prefixb p (c :: s)) eqn:E.
    + simplify_eq. split; [|intros; lia].
      apply prefixb_spec in E as (t & E). rewrite E. cbn.
      by rewrite drop_app_length.
    + destruct (find_str p s) as [k|]; [|done]. cbn in H. simplify_eq.
      destruct (IH k eq_refl) as [IH1 IH2]. split.
      * cbn. by f_equal.
      * intros [|m] Hm; cbn; [done|]. apply IH2. lia.
Qed.

Lemma find_str_none p s : find_str p s = None -> forall m, prefixb p (drop m s) = false.
Proof.
  induction s as [|c s IH]; intros H m; cbn [find_str] in H.
  - destruct (prefixb p []) eqn:E; [done|]. by rewrite drop_nil.
  - destruct (prefixb p (c :: s)) eqn:E; [done|].
    destruct (find_str p s); [done|]. destruct m; cbn; auto.
Qed.

Lemma find_char_none c s : find_str [c] s = None <-> c ∉ s.
Proof.
  induction s as [|d s IH]; cbn.
  - split; [intros _; apply not_elem_of_nil|done].
  - rewrite not_elem_of_cons. destruct (Z.eqb_spec c d) as [->|Hne]; cbn.
    + split; [done|]. intros [? _]. done.
    + destruct (find_str [c] s) as [n|]; cbn; split; try done.
      * intros [_ Hn]. by apply IH in Hn.
      * intros _. split; [congruence|]. by apply IH.
Qed.

Lemma includes_char c s : includes s [c] = bool_decide (c ∈ s).
Proof.
  unfold includes, indexOf. pose proof (find_char_none c s) as H.
  destruct (find_str [c] s) as [n|].
  - symmetry. replace (Z.of_nat n =? -1) with false by (symmetry; apply Z.eqb_neq; lia).
    apply bool_decide_eq_true. destruct (decide (c ∈ s)) as [|Hn]; [done|].
    apply H in Hn. done.
  - symmetry. cbn. apply bool_decide_eq_false. by apply H.
Qed.

(** ** Splitting on a single unit *)

Lemma join_cons sep x l : l <> [] -> join sep (x :: l) = x ++ sep ++ join sep l.
Proof. destruct l; done. Qed.

Lemma split_go_nonempty sep s k cur : split_go sep s k cur <> [].
Proof.
  revert k cur. induction s as [|c s IH]; intros k cur; cbn; [done|].
  destruct k; [|done]. destruct (prefixb sep (c :: s)); done.
Qed.

Lemma split_nonempty s sep : split s sep <> [].
Proof. apply split_go_nonempty. Qed.

Lemma split_go_char sep c s cur :
  sep = [c] -> join sep (split_go sep s O cur) = rev cur ++ s.
Proof.
  intros ->. revert cur. induction s as [|d s IH]; intros cur; cbn.
  - by rewrite app_nil_r.
  - destruct (Z.eqb_spec c d) as [->|Hne]; cbn [andb].
    + rewrite join_cons by apply split_go_nonempty. rewrite IH. done.
    + rewrite IH. cbn. by rewrite <- app_assoc.
Qed.

(** Joining the fields with the separator gives the string back. *)
Lemma join_split c s : join [c] (split s [c]) = s.
Proof. unfold split. by rewrite (split_go_char [c] c). Qed.

Lemma split_go_fields c s cur :
  c ∉ cur -> Forall (fun f => c ∉ f) (split_go [c] s O cur).
Proof.
  revert cur. induction s as [|d s IH]; intros cur Hc; cbn.
  - constructor; [|constructor]. by rewrite list_elem_of_In, <- in_rev, <- list_elem_of_In.
  - destruct (Z.eqb_spec c d) as [->|Hne]; cbn [andb].
    + constructor; [|apply IH, not_elem_of_nil].
      by rewrite list_elem_of_In, <- in_rev, <- list_elem_of_In.
    + apply IH. apply not_elem_of_cons. done.
Qed.

(** No field contains the separator. *)
Lemma split_fields c s : Forall (fun f => c ∉ f) (split s [c]).
Proof. apply split_go_fields, not_elem_of_nil. Qed.

Lemma split_go_app c f s cur :
  c ∉ f -> split_go [c] (f ++ c :: s) O cur = (rev cur ++ f) :: split_go [c] s O [].
Proof.
  revert cur. induction f as [|d f IH]; intros cur Hf; cbn.
  - rewrite Z.eqb_refl. cbn. by rewrite app_nil_r.
  - apply not_elem_of_cons in Hf as [Hne Hf].
    destruct (Z.eqb_spec c d) as [->|_]; [done|]. cbn [andb].
    rewrite IH by done. cbn. by rewrite <- app_assoc.
Qed.

Lemma split_go_last c f cur : c ∉ f -> split_go [c] f O cur = [rev cur ++ f].
Proof.
  revert cur. induction f as [|d f IH]; intros cur Hf; cbn.
  - by rewrite app_nil_r.
  - apply not_elem_of_cons in Hf as [Hne Hf].
    destruct (Z.eqb_spec c d) as [->|_]; [done|]. cbn [andb].
    rewrite IH by done. cbn. by rewrite <- app_assoc.
Qed.

(** Splitting a join of fields that do not contain the separator gives the
    fields back. *)
Lemma split_join c l : l <> [] -> Forall (fun f => c ∉ f) l -> split (join [c] l) [c] = l.
Proof.
  unfold split. induction l as [|f l IH]; intros Hl Hf; [done|].
  apply Forall_cons in Hf as [Hf1 Hf2]. destruct l as [|g l].
  - cbn. by rewrite split_go_last.
  - rewrite join_cons by done. cbn [app]. rewrite split_go_app by done.
    cbn [rev app]. f_equal. by apply IH.
Qed.

Lemma split_char_app c f s :
  c ∉ f -> split (f ++ c :: s) [c] = f :: split s [c].
Proof. intros. unfold split. by rewrite split_go_app. Qed.

Lemma split_no_char c s : c ∉ s -> split s [c] = [s].
Proof. intros. unfold split. by rewrite split_go_last. Qed.

(** ** Case folding *)

Lemma lower_unit_idem c : lower_unit (lower_unit c) = lower_unit c.
Proof.
  unfold lower_unit. destruct ((65 <=? c) && (c <=? 90)) eqn:E; [|by rewrite E].
  apply andb_true_iff in E as [E1%Z.leb_le E2%Z.leb_le].
  replace (c + 32 <=? 90) with false by (symmetry; apply Z.leb_gt; lia).
  by rewrite andb_false_r.
Qed.
Lemma toLowerCase_idem s : toLowerCase (toLowerCase s) = toLowerCase s.
Proof.
  unfold toLowerCase. rewrite <- list_fmap_compose. apply list_fmap_ext.
  intros. cbn. apply lower_unit_idem.
Qed.

(** ** Substrings at a known cut *)

Lemma substring_drop s n : (n <= length s)%nat -> substring_from s (Z.of_nat n) = drop n s.
Proof.
  intros Hn. unfold substring_from, substring, clamp, zlength. set (L := Z.of_nat (length s)). cbv zeta.
  replace (Z.max 0 (Z.min L (Z.of_nat n))) with (Z.of_nat n) by lia.
  replace (Z.max 0 (Z.min L L)) with L by lia.
  replace (Z.min (Z.of_nat n) L) with (Z.of_nat n) by lia. replace (Z.max (Z.of_nat n) L) with L by lia.
  rewrite Nat2Z.id. apply take_ge. rewrite length_drop. lia.
Qed.

Lemma substring_from_app p s : substring_from (p ++ s) (zlength p) = s.
Proof. unfold zlength. rewrite substring_drop by (rewrite length_app; lia). apply drop_app_length. Qed.

Lemma substring_take s n : (n <= length s)%nat -> substring s 0 (Z.of_nat n) = take n s.
Proof.
  intros Hn. unfold substring, clamp, zlength. set (L := Z.of_nat (length s)). cbv zeta.
  replace (Z.max 0 (Z.min L 0)) with 0 by lia.
  replace (Z.max 0 (Z.min L (Z.of_nat n))) with (Z.of_nat n) by lia.
  replace (Z.min 0 (Z.of_nat n)) with 0 by lia. replace (Z.max 0 (Z.of_nat n)) with (Z.of_nat n) by lia.
  by rewrite Z.sub_0_r, Nat2Z.id.
Qed.

(** The first occurrence of a unit splits the string. *)
Lemma substring_mid p s q a b :
  a = zlength p -> b = zlength p + zlength s -> substring (p ++ s ++ q) a b = s.
Proof.
  intros -> ->. unfold substring, clamp, zlength. rewrite !length_app. cbv zeta.
  match goal with |- take (Z.to_nat ?x) (drop (Z.to_nat ?y) _) = _ =>
    replace x with (Z.of_nat (length s)) by lia; replace y with (Z.of_nat (length p)) by lia end.
  rewrite !Nat2Z.id, drop_app_length. apply take_app_length.
Qed.

Lemma startsWith_spec s p : startsWith s p = true <-> exists t, s = p ++ t.
Proof. rewrite startsWith_prefixb. apply prefixb_spec. Qed.

Lemma find_char_some c s n : find_str [c] s = Some n -> s = take n s ++ c :: drop (S n) s /\ c ∉ take n s.
Proof.
  revert n. induction s as [|d s IH]; intros n H; cbn in H; [done|].
  destruct (Z.eqb_spec c d) as [->|Hne]; cbn [andb] in H.
  - simplify_eq. split; [done|]. apply not_elem_of_nil.
  - destruct (find_str [c] s) as [m|]; cbn in H; simplify_eq. destruct (IH m eq_refl) as [E Hn].
    cbn [take drop app]. split; [by rewrite <- E|]. by apply not_elem_of_cons.
Qed.

Lemma find_char_app c s t : c ∉ s -> find_str [c] (s ++ c :: t) = Some (length s).
Proof.
  induction s as [|d s IH]; intros H; cbn.
  - by rewrite Z.eqb_refl.
  - apply not_elem_of_cons in H as [Hne H]. destruct (Z.eqb_spec c d); [done|]. cbn [andb]. by rewrite IH.
Qed.

(** A literal does not have a unit. *)
Lemma not_in_lit c (l : jsstr) : forallb (fun x => negb (x =? c)) l = true -> c ∉ l.
Proof.
  intros H%Forall_forallb Hin. rewrite Forall_forall in H. apply H in Hin.
  by rewrite Z.eqb_refl in Hin.
Qed.

(** Slices of strings and lists from and up to a position. *)
Lemma slice_drop {A} (l : list A) n : (n <= length l)%nat -> slice_from l (Z.of_nat n) = drop n l.
Proof.
  intros Hn. unfold slice_from, slice_list, rel_index. cbv zeta.
  destruct (Z.ltb_spec (Z.of_nat n) 0); [lia|]. destruct (Z.ltb_spec (Z.of_nat (length l)) 0); [lia|].
  rewrite !Z.min_l by lia. rewrite Nat2Z.id. apply take_ge. rewrite length_drop. lia.
Qed.
Lemma slice_take {A} (l : list A) n : slice_list l 0 (Z.of_nat n) = take n l.
Proof.
  unfold slice_list, rel_index. cbv zeta. destruct (Z.ltb_spec (Z.of_nat n) 0); [lia|]. cbn [Z.ltb Z.compare].
  rewrite (Z.min_l 0) by lia. change (drop (Z.to_nat 0) l) with l. rewrite Z.sub_0_r.
  destruct (decide (n <= length l)%nat).
  - rewrite Z.min_l, Nat2Z.id by lia. done.
  - rewrite Z.min_r, Nat2Z.id by lia. rewrite !take_ge by lia. done.
Qed.
Lemma slice_app {A} (p s : list A) z : z = Z.of_nat (length p) -> slice_from (p ++ s) z = s.
Proof. intros ->. rewrite slice_drop by (rewrite length_app; lia). apply drop_app_length. Qed.
