(* ===== verification/JsValue.v ===== *)
(** * JavaScript values

    The values the client manipulates: parsed JSON and YAML documents and
    the arguments of calls.  An object is its own properties in creation
    order; [for_in] gives the order in which [for (k in o)] visits them
    (array-index keys ascending, then the rest in creation order).  Inherited
    properties are not modelled: a property that an object does not have reads
    as [undefined].  A number is an integer, a non-integer carried with its
    text, or NaN; host objects (a File, a function) carry a tag. *)

From Stdlib Require Import String.
From S2P Require Import Prelude JsNumber JsString.
#[local] Set Warnings "-register-all".

Inductive jsnum :=
| NInt (z : Z)
| NFrac (text : jsstr)
| NNaN.

Inductive jsval :=
| VUndef
| VNull
| VBool (b : bool)
| VNum (n : jsnum)
| VStr (s : jsstr)
| VArr (l : list jsval)
| VObj (o : list (jsstr * jsval))
| VHost (tag : jsstr) (name : jsstr).

Abbreviation obj := (list (jsstr * jsval)).

Definition vstr (s : String.string) : jsval := VStr (js s).
Arguments vstr s%_string.
Definition vint (z : Z) : jsval := VNum (NInt z).

(** ** Tests *)

Definition is_undef (v : jsval) : bool := match v with VUndef => true | _ => false end.
Definition is_nullish (v : jsval) : bool := match v with VUndef | VNull => true | _ => false end.
Definition is_array (v : jsval) : bool := match v with VArr _ => true | _ => false end.
Definition is_string (v : jsval) : bool := match v with VStr _ => true | _ => false end.
(** [_.isObject]: objects, arrays and functions. *)
Definition is_object (v : jsval) : bool :=
  match v with VArr _ | VObj _ | VHost _ _ => true | _ => false end.
(** [_.isPlainObject]. *)
Definition is_plain (v : jsval) : bool := match v with VObj _ => true | _ => false end.
(** [typeof v === 'object']: null and arrays too. *)
Definition typeof_object (v : jsval) : bool :=
  match v with VNull | VArr _ | VObj _ | VHost _ _ => true | _ => false end.

Definition truthy (v : jsval) : bool :=
  match v with
  | VUndef | VNull => false
  | VBool b => b
  | VNum (NInt z) => negb (z =? 0)
  | VNum (NFrac _) => true
  | VNum NNaN => false
  | VStr s => match s with [] => false | _ => true end
  | VArr _ | VObj _ | VHost _ _ => true
  end.

(** [a || b] and [a && b]. *)
Definition js_orv (a b : jsval) : jsval := if truthy a then a else b.

(** [v === 's'], [v === n], [v === true]. *)
Definition eq_str (v : jsval) (s : jsstr) : bool :=
  match v with VStr t => bool_decide (t = s) | _ => false end.
Definition eq_int (v : jsval) (n : Z) : bool :=
  match v with VNum (NInt z) => z =? n | _ => false end.
Definition eq_true (v : jsval) : bool := match v with VBool true => true | _ => false end.

(** [a === b] where at most one side is an object that the other side could
    alias: two distinct objects are never equal. *)
Definition strict_eq (a b : jsval) : bool :=
  match a, b with
  | VUndef, VUndef | VNull, VNull => true
  | VBool x, VBool y => Bool.eqb x y
  | VNum (NInt x), VNum (NInt y) => x =? y
  | VNum (NFrac x), VNum (NFrac y) => bool_decide (x = y)
  | VStr x, VStr y => bool_decide (x = y)
  | _, _ => false
  end.

(** ** Conversion to string *)

Definition num_to_str (n : jsnum) : jsstr :=
  match n with NInt z => Z_to_str z | NFrac t => t | NNaN => js "NaN" end.

Fixpoint to_str (v : jsval) : jsstr :=
  match v with
  | VUndef => js "undefined"
  | VNull => js "null"
  | VBool true => js "true"
  | VBool false => js "false"
  | VNum n => num_to_str n
  | VStr s => s
  | VArr l =>
      join (js ",") (List.map (fun x => if is_nullish x then [] else to_str x) l)
  | VObj _ => js "[object Object]"
  | VHost tag _ => js "[object " ++ tag ++ js "]"
  end.

(** ** Properties *)

Fixpoint assoc {A} (k : jsstr) (o : list (jsstr * A)) : option A :=
  match o with
  | [] => None
  | (k', v) :: o' => if bool_decide (k' = k) then Some v else assoc k o'
  end.

(** [o[k]] of an object. *)
Definition get (o : obj) (k : jsstr) : jsval := default VUndef (assoc k o).

(** [o[k] = v]: replaces in place or adds at the end. *)
Fixpoint put {A} (k : jsstr) (v : A) (o : list (jsstr * A)) : list (jsstr * A) :=
  match o with
  | [] => [(k, v)]
  | (k', v') :: o' => if bool_decide (k' = k) then (k', v) :: o' else (k', v') :: put k v o'
  end.

(** [delete o[k]]. *)
Definition remove {A} (k : jsstr) (o : list (jsstr * A)) : list (jsstr * A) :=
  filter (fun kv => kv.1 <> k) o.

Definition has_key {A} (k : jsstr) (o : list (jsstr * A)) : bool :=
  match assoc k o with Some _ => true | None => false end.

(** [v.k] for any value: reading a property of [undefined] or [null] throws;
    strings, numbers and booleans have none of the properties the client
    reads, and an array's own named properties are not modelled. *)
Definition prop (v : jsval) (k : jsstr) : res jsval :=
  match v with
  | VUndef | VNull => Throw TypeError
  | VObj o => Ok (get o k)
  | _ => Ok VUndef
  end.

(** The own properties of a value that the code has tested to be an object. *)
Definition as_obj (v : jsval) : obj := match v with VObj o => o | _ => [] end.
Definition as_arr (v : jsval) : list jsval := match v with VArr l => l | _ => [] end.

(** A method that only strings have ([v.indexOf], [v.toLowerCase]): any other
    value of the documents has no such method and the call throws. *)
Definition as_str (v : jsval) : res jsstr :=
  match v with VStr s => Ok s | _ => Throw TypeError end.

(** ** Enumeration order *)

(** The value of a canonical array index ("0", "17", not "007"). *)
Fixpoint dec_value (acc : Z) (s : jsstr) : option Z :=
  match s with
  | [] => Some acc
  | c :: s' => if (48 <=? c) && (c <=? 57) then dec_value (acc * 10 + (c - 48)) s' else None
  end.
Definition array_index (k : jsstr) : option Z :=
  match k with
  | [] => None
  | [48] => Some 0
  | 48 :: _ => None
  | _ => match dec_value 0 k with
         | Some n => if n <? 4294967295 then Some n else None
         | None => None
         end
  end.

Fixpoint insert_index {A} (n : Z) (kv : A) (l : list (Z * A)) : list (Z * A) :=
  match l with
  | [] => [(n, kv)]
  | (m, kv') :: l' => if n <=? m then (n, kv) :: l else (m, kv') :: insert_index n kv l'
  end.

(** The properties in [for .. in] order. *)
Definition for_in {A} (o : list (jsstr * A)) : list (jsstr * A) :=
  let idx := foldr (fun kv acc => match array_index kv.1 with
                                  | Some n => insert_index n kv acc
                                  | None => acc end) [] o in
  idx.*2 ++ filter (fun kv => array_index kv.1 = None) o.

(** [for (k in v)] with [v[k]], for any value: nothing throws, and what has
    no enumerable properties has no turns. *)
Definition indexed {A} (l : list A) : list (jsstr * A) := imap (fun i x => (Z_to_str (Z.of_nat i), x)) l.
Definition for_in_val (v : jsval) : list (jsstr * jsval) :=
  match v with
  | VObj o => for_in o
  | VArr l => indexed l
  | VStr s => indexed ((fun c => VStr [c]) <$> s)
  | _ => []
  end.

(** [if (v.k) target.k2 = v.k], the shape of most copying of the client. *)
Definition copy_truthy (v : jsval) (k k2 : jsstr) (target : obj) : res obj :=
  x ← prop v k; Ok (if truthy x then put k2 x target else target).

(** ** Induction *)

Section jsval_ind.
Variable P : jsval -> Prop.
Hypothesis Hundef : P VUndef.
Hypothesis Hnull : P VNull.
Hypothesis Hbool : forall b, P (VBool b).
Hypothesis Hnum : forall n, P (VNum n).
Hypothesis Hstr : forall s, P (VStr s).
Hypothesis Harr : forall l, Forall P l -> P (VArr l).
Hypothesis Hobj : forall o, Forall (fun kv => P kv.2) o -> P (VObj o).
Hypothesis Hhost : forall t n, P (VHost t n).

Fixpoint jsval_nested_ind (v : jsval) : P v :=
  match v with
  | VUndef => Hundef
  | VNull => Hnull
  | VBool b => Hbool b
  | VNum n => Hnum n
  | VStr s => Hstr s
  | VArr l =>
      Harr l ((fix go (l : list jsval) : Forall P l :=
                 match l with
                 | [] => @Forall_nil_2 _ _
                 | x :: l' => @Forall_cons_2 _ _ _ _ (jsval_nested_ind x) (go l')
                 end) l)
  | VObj o =>
      Hobj o ((fix go (o : obj) : Forall (fun kv => P kv.2) o :=
                 match o with
                 | [] => @Forall_nil_2 _ _
                 | kv :: o' => @Forall_cons_2 _ _ _ _ (jsval_nested_ind kv.2) (go o')
                 end) o)
  | VHost t n => Hhost t n
  end.
End jsval_ind.

(** Nesting depth, the fuel of the functions that walk a value. *)
Fixpoint vdepth (v : jsval) : nat :=
  match v with
  | VArr l => S (foldr (fun x n => Nat.max (vdepth x) n) O l)
  | VObj o => S (foldr (fun kv n => Nat.max (vdepth kv.2) n) O o)
  | _ => O
  end.

(** Size: nodes and string units. *)
Fixpoint vsize (v : jsval) : nat :=
  match v with
  | VStr s => S (length s)
  | VArr l => S (foldr (fun x n => vsize x + n)%nat O l)
  | VObj o => S (foldr (fun kv n => vsize kv.2 + n)%nat O o)
  | _ => 1%nat
  end.

Lemma vsize_prop v k r : prop v k = Ok r -> truthy r = true -> (vsize r < vsize v)%nat.
Proof.
  destruct v as [| | | | | |o|]; try (by cbn; intros [= <-]).
  cbn [prop]. intros [= <-] Ht. cbn [vsize]. unfold get in *.
  destruct (assoc k o) as [x|] eqn:E; [|done]. cbn [default] in *. clear Ht.
  induction o as [|[k' v'] o IH]; [done|]. cbn [assoc foldr snd] in *.
  case_bool_decide; simplify_eq; [cbn; lia|]. specialize (IH E). cbn in *. lia.
Qed.

(** ** Decidable equality *)

#[export] Instance jsnum_eq_dec : EqDecision jsnum.
Proof. solve_decision. Defined.

Fixpoint jsval_eqb (a b : jsval) : bool :=
  match a, b with
  | VUndef, VUndef | VNull, VNull => true
  | VBool x, VBool y => Bool.eqb x y
  | VNum x, VNum y => bool_decide (x = y)
  | VStr x, VStr y => bool_decide (x = y)
  | VArr l, VArr m =>
      (fix go l m := match l, m with
                     | [], [] => true
                     | x :: l', y :: m' => jsval_eqb x y && go l' m'
                     | _, _ => false end) l m
  | VObj o, VObj p =>
      (fix go o p := match o, p with
                     | [], [] => true
                     | (k, x) :: o', (k', y) :: p' =>
                         bool_decide (k = k') && jsval_eqb x y && go o' p'
                     | _, _ => false end) o p
  | VHost t n, VHost t' n' => bool_decide (t = t') && bool_decide (n = n')
  | _, _ => false
  end.

Lemma jsval_eqb_spec a : forall b, jsval_eqb a b = true <-> a = b.
Proof.
  induction a as [| |x|x|x|l IH|o IH|t n] using jsval_nested_ind; intros []; cbn;
    try (split; [done|congruence]); try (split; congruence).
  - split; [intros ->%Bool.eqb_prop|intros [= ->]; apply Bool.eqb_reflx]; done.
  - rewrite bool_decide_eq_true. split; congruence.
  - rewrite bool_decide_eq_true. split; congruence.
  - rename l0 into m. revert m. induction IH as [|x l Hx _ IHl]; intros [|y m];
      try (split; congruence).
    split.
    + intros [E1 E2]%andb_true_iff. apply Hx in E1 as ->.
      apply IHl in E2 as [= ->]. done.
    + intros [= -> ->]. apply andb_true_iff. split; [by apply Hx|by apply IHl].
  - rename o0 into p. revert p. induction IH as [|[k x] o Hx _ IHl]; intros [|[k' y] p];
      try (split; congruence).
    split.
    + intros [[E0%bool_decide_eq_true E1]%andb_true_iff E2]%andb_true_iff.
      apply Hx in E1. cbn in E1. apply IHl in E2 as [= ->]. congruence.
    + intros [= -> -> ->]. rewrite !andb_true_iff, bool_decide_eq_true.
      repeat split; [by apply Hx|by apply IHl].
  - rewrite andb_true_iff, !bool_decide_eq_true. split; [intros [-> ->]; done|by intros [= -> ->]].
Qed.

#[export] Instance jsval_eq_dec : EqDecision jsval.
Proof.
  intros a b. destruct (jsval_eqb a b) eqn:E.
  - left. by apply jsval_eqb_spec.
  - right. intros H%jsval_eqb_spec. congruence.
Defined.

(** ** Laws of property access *)

Section assoc_laws.
Context {A : Type}.
Implicit Types (o : list (jsstr * A)) (k : jsstr).

Lemma assoc_put_eq k v o : assoc k (put k v o) = Some v.
Proof.
  induction o as [|[k' v'] o IH]; cbn.
  - by rewrite bool_decide_eq_true_2.
  - destruct (decide (k' = k)) as [->|Hne].
    + rewrite !bool_decide_eq_true_2 by done. cbn. by rewrite bool_decide_eq_true_2.
    + rewrite !bool_decide_eq_false_2 by done. cbn. by rewrite bool_decide_eq_false_2.
Qed.

Lemma assoc_put_ne k k' v o : k <> k' -> assoc k' (put k v o) = assoc k' o.
Proof.
  intros Hne. induction o as [|[k2 v2] o IH]; cbn.
  - by rewrite bool_decide_eq_false_2.
  - destruct (decide (k2 = k)) as [->|Hk].
    + rewrite (bool_decide_eq_true_2 (k = k)) by done. cbn.
      by rewrite bool_decide_eq_false_2.
    + rewrite (bool_decide_eq_false_2 (k2 = k)) by done. cbn. by rewrite IH.
Qed.

Lemma assoc_remove_eq k o : assoc k (remove k o) = None.
Proof.
  unfold remove. induction o as [|[k' v] o IH]; [done|].
  destruct (decide (k' = k)) as [->|Hne].
  - rewrite filter_cons_False by (cbn; tauto). done.
  - rewrite filter_cons_True by done. cbn. by rewrite bool_decide_eq_false_2.
Qed.

Lemma assoc_remove_ne k k' o : k <> k' -> assoc k' (remove k o) = assoc k' o.
Proof.
  intros Hne. unfold remove. induction o as [|[k2 v] o IH]; [done|].
  destruct (decide (k2 = k)) as [->|Hk].
  - rewrite filter_cons_False by (cbn; tauto). cbn. by rewrite bool_decide_eq_false_2.
  - rewrite filter_cons_True by done. cbn. by rewrite IH.
Qed.

Lemma assoc_some_in k v o : assoc k o = Some v -> (k, v) ∈ o.
Proof.
  induction o as [|[k' v'] o IH]; cbn; [done|].
  case_bool_decide; intros; simplify_eq; [constructor|]. constructor. auto.
Qed.

Lemma assoc_none k o : assoc k o = None <-> k ∉ o.*1.
Proof.
  induction o as [|[k' v'] o IH]; cbn.
  - split; [intros _; apply not_elem_of_nil|done].
  - rewrite not_elem_of_cons. case_bool_decide as Hk.
    + subst. split; [done|]. intros [? _]. done.
    + rewrite IH. split; [|tauto]. intros ?. split; [congruence|done].
Qed.

Lemma assoc_in_nodup k v o : NoDup o.*1 -> (k, v) ∈ o -> assoc k o = Some v.
Proof.
  induction o as [|[k' v'] o IH]; cbn; intros Hnd Hin; [by apply not_elem_of_nil in Hin|].
  apply NoDup_cons in Hnd as [Hk Hnd]. apply elem_of_cons in Hin as [[= -> ->]|Hin].
  - by rewrite bool_decide_eq_true_2.
  - rewrite bool_decide_eq_false_2; [by apply IH|].
    intros ->. apply Hk, fst_in_lookup. eauto.
Qed.

(** Setting a key adds it to the keys, in place when it was there. *)
Lemma keys_put k v o : (put k v o).*1 = if bool_decide (k ∈ o.*1) then o.*1 else o.*1 ++ [k].
Proof.
  induction o as [|[k' v'] o IH]; cbn.
  - by rewrite bool_decide_eq_false_2 by apply not_elem_of_nil.
  - destruct (decide (k' = k)) as [->|Hk].
    + rewrite (bool_decide_eq_true_2 (k = k)) by done. cbn.
      by rewrite bool_decide_eq_true_2 by (apply elem_of_cons; by left).
    + rewrite (bool_decide_eq_false_2 (k' = k)) by done. cbn. rewrite IH.
      destruct (decide (k ∈ o.*1)) as [Hin|Hin].
      * rewrite !bool_decide_eq_true_2; [done| |done]. apply elem_of_cons. by right.
      * rewrite !bool_decide_eq_false_2; [done| |done].
        rewrite not_elem_of_cons. split; congruence.
Qed.

Lemma put_nodup k v o : NoDup o.*1 -> NoDup (put k v o).*1.
Proof.
  intros H. rewrite keys_put. case_bool_decide as Hin; [done|].
  apply NoDup_app. split; [done|]. split; [|apply NoDup_singleton].
  intros x Hx ->%list_elem_of_singleton. done.
Qed.

Lemma remove_nodup k o : NoDup o.*1 -> NoDup (remove k o).*1.
Proof.
  unfold remove. induction o as [|[k' v] o IH]; [done|]. intros Hnd.
  cbn in Hnd. apply NoDup_cons in Hnd as [Hk Hnd].
  destruct (decide (k' = k)) as [->|Hne].
  - rewrite filter_cons_False by (cbn; tauto). auto.
  - rewrite filter_cons_True by done. cbn. apply NoDup_cons. split; [|auto].
    intros Hin. apply Hk. rewrite fst_in_lookup in Hin |- *.
    destruct Hin as (v' & Hin). apply list_elem_of_filter in Hin as [_ Hin]. eauto.
Qed.
End assoc_laws.

Lemma get_put_eq k v o : get (put k v o) k = v.
Proof. unfold get. by rewrite assoc_put_eq. Qed.
Lemma get_put_ne k k' v o : k <> k' -> get (put k v o) k' = get o k'.
Proof. intros. unfold get. by rewrite assoc_put_ne. Qed.
Lemma get_remove_eq k o : get (remove k o) k = VUndef.
Proof. unfold get. by rewrite assoc_remove_eq. Qed.
Lemma get_remove_ne k k' o : k <> k' -> get (remove k o) k' = get o k'.
Proof. intros. unfold get. by rewrite assoc_remove_ne. Qed.

Create Rewrite HintDb js_props.
#[export] Hint Rewrite @get_put_eq @get_remove_eq : js_props.
#[export] Hint Rewrite @get_put_ne @get_remove_ne using (vm_compute; congruence) : js_props.

(** ** Enumeration visits every property once *)

Lemma insert_index_perm {A} n (kv : A) l : (insert_index n kv l).*2 ≡ₚ kv :: l.*2.
Proof.
  induction l as [|[m kv'] l IH]; cbn; [done|].
  destruct (n <=? m); cbn; [done|]. rewrite IH. apply Permutation_swap.
Qed.

Lemma for_in_perm {A} (o : list (jsstr * A)) : for_in o ≡ₚ o.
Proof.
  unfold for_in. induction o as [|[k v] o IH]; [done|]. cbn [foldr].
  destruct (array_index (k, v).1) as [n|] eqn:E.
  - rewrite filter_cons_False by (rewrite E; done).
    rewrite insert_index_perm. cbn. by rewrite IH.
  - rewrite filter_cons_True by done. rewrite <- Permutation_middle. by rewrite IH.
Qed.

Lemma for_in_elem {A} (o : list (jsstr * A)) kv : kv ∈ for_in o <-> kv ∈ o.
Proof. by rewrite for_in_perm. Qed.

(** Objects without array-index keys are enumerated in creation order. *)
Lemma for_in_named {A} (o : list (jsstr * A)) :
  Forall (fun kv => array_index kv.1 = None) o -> for_in o = o.
Proof.
  unfold for_in. intros H.
  assert (E : foldr (fun kv acc => match array_index kv.1 with
                     | Some n => insert_index n kv acc | None => acc end) [] o = []).
  { induction H as [|[k v] o Hk _ IH]; [done|]. cbn [foldr]. by rewrite Hk. }
  rewrite E. cbn. induction H as [|[k v] o Hk _ IH]; [done|].
  rewrite filter_cons_True by done. f_equal. apply IH. cbn [foldr] in E. by rewrite Hk in E.
Qed.

(** ** Property access never runs out of fuel *)

Lemma prop_not_fuel v k : not_fuel (prop v k).
Proof. by destruct v. Qed.
Lemma as_str_not_fuel v : not_fuel (as_str v).
Proof. by destruct v. Qed.
#[export] Hint Resolve prop_not_fuel as_str_not_fuel : js.

(** Step through a computation that reads properties. *)
Ltac fuel_step :=
  match goal with
  | |- not_fuel (Ok _) => apply not_fuel_ok
  | |- not_fuel (mbind _ _) => apply not_fuel_bind; [auto with js|intros ? ?]
  | |- not_fuel (if ?b then _ else _) => destruct b eqn:?
  end.

Lemma js_orv_cases a b : (js_orv a b = a /\ truthy a = true) \/ (js_orv a b = b /\ truthy a = false).
Proof. unfold js_orv. destruct (truthy a); auto. Qed.

(** ** The text of an integer reads back *)

Lemma dec_value_app l1 l2 a : dec_value a (l1 ++ l2) = (v ← dec_value a l1; dec_value v l2).
Proof.
  revert a. induction l1 as [|c l1 IH]; intros a; cbn; [done|]. by destruct ((48 <=? c) && (c <=? 57)).
Qed.

Lemma dec_value_digits f n :
  0 <= n < 2 ^ Z.of_nat f -> dec_value 0 (digit_unit <$> radix_digits f 10 n) = Some n.
Proof.
  revert n. induction f as [|f IH]; intros n Hn; [change (2 ^ Z.of_nat 0) with 1 in Hn; cbn; f_equal; lia|]. cbn [radix_digits].
  assert (Hd : forall a d, 0 <= d < 10 -> dec_value a [digit_unit d] = Some (a * 10 + d)).
  { intros a d H. unfold digit_unit. rewrite (proj2 (Z.ltb_lt d 10)) by lia. cbn -[Z.add Z.mul Z.sub Z.leb].
    destruct (Z.leb_spec 48 (48 + d)); [|lia]. destruct (Z.leb_spec (48 + d) 57); [|lia]. cbn [andb]. f_equal. lia. }
  destruct (Z.ltb_spec n 10).
  - change (digit_unit <$> [n]) with [digit_unit n]. rewrite Hd by lia. f_equal.
  - rewrite fmap_app, dec_value_app, IH.
    + change (digit_unit <$> [n mod 10]) with [digit_unit (n mod 10)]. cbn [mbind option_bind].
      rewrite Hd by (apply Z.mod_pos_bound; lia). f_equal. pose proof (Z.div_mod n 10). lia.
    + split; [apply Z.div_pos; lia|]. rewrite Nat2Z.inj_succ, Z.pow_succ_r in Hn by lia.
      apply Z.div_lt_upper_bound; lia.
Qed.

Lemma dec_value_to_str n : 0 <= n -> dec_value 0 (Z_to_str n) = Some n.
Proof.
  intros Hn. unfold Z_to_str, radix_string. rewrite (proj2 (Z.ltb_ge n 0)) by lia.
  apply dec_value_digits. split; [done|]. unfold nat_fuel. rewrite Nat2Z.inj_succ, Z2Nat.id by apply Z.log2_nonneg.
  destruct (decide (n = 0)) as [->|]; [done|]. by apply Z.log2_spec; lia.
Qed.

Lemma indexed_last {A} (l : list A) x : last (indexed (l ++ [x])) = Some (Z_to_str (Z.of_nat (length l)), x).
Proof. unfold indexed. rewrite imap_app. cbn. rewrite last_snoc. by rewrite Nat.add_0_r. Qed.
