(* ===== verification/Regex.v ===== *)
(** * Regular expressions

    The regular expressions the code tests texts with, as values: an
    expression is matched by derivatives, and the matcher is the language of
    the expression. *)

From Stdlib Require Import String.
From S2P Require Import Prelude JsNumber JsString.

Inductive re :=
| Void
| Eps
| Class_ (p : Z -> bool)
| Seq (a b : re)
| Alt (a b : re)
| Star (a : re).

(** ** Notation for the usual forms *)

Definition in_ranges (l : list (Z * Z)) (c : Z) : bool := existsb (fun r => (r.1 <=? c) && (c <=? r.2)) l.
Definition range (a b : String.string) : Z * Z := (chr a, chr b).
Definition one_of (s : jsstr) (c : Z) : bool := bool_decide (c ∈ s).
Definition Lit (s : jsstr) : re := foldr (fun c r => Seq (Class_ (fun d => d =? c)) r) Eps s.
Definition Opt (a : re) : re := Alt a Eps.
Definition Plus (a : re) : re := Seq a (Star a).
Definition seqs (l : list re) : re := foldr Seq Eps l.
Definition alts (l : list re) : re := foldr Alt Void l.

(** ** The matcher *)

Fixpoint nullable (r : re) : bool :=
  match r with
  | Void | Class_ _ => false
  | Eps | Star _ => true
  | Seq a b => nullable a && nullable b
  | Alt a b => nullable a || nullable b
  end.

Fixpoint deriv (c : Z) (r : re) : re :=
  match r with
  | Void | Eps => Void
  | Class_ p => if p c then Eps else Void
  | Seq a b => if nullable a then Alt (Seq (deriv c a) b) (deriv c b) else Seq (deriv c a) b
  | Alt a b => Alt (deriv c a) (deriv c b)
  | Star a => Seq (deriv c a) (Star a)
  end.

(** A whole text, as [/^...$/] with [test]. *)
Fixpoint matches (r : re) (s : jsstr) : bool :=
  match s with [] => nullable r | c :: s' => matches (deriv c r) s' end.

(** A prefix of a text, as [/^.../], and anywhere, as [/.../]. *)
Fixpoint matches_prefix (r : re) (s : jsstr) : bool :=
  nullable r || match s with [] => false | c :: s' => matches_prefix (deriv c r) s' end.
Fixpoint occurs (r : re) (s : jsstr) : bool :=
  matches_prefix r s || match s with [] => false | _ :: s' => occurs r s' end.

(** ** The language *)

Inductive lang : re -> jsstr -> Prop :=
| lang_eps : lang Eps []
| lang_class p c : p c = true -> lang (Class_ p) [c]
| lang_seq a b s t : lang a s -> lang b t -> lang (Seq a b) (s ++ t)
| lang_alt_l a b s : lang a s -> lang (Alt a b) s
| lang_alt_r a b s : lang b s -> lang (Alt a b) s
| lang_star_nil a : lang (Star a) []
| lang_star_app a s t : lang a s -> lang (Star a) t -> lang (Star a) (s ++ t).
#[export] Hint Constructors lang : js.

Lemma nullable_lang r : nullable r = true <-> lang r [].
Proof.
  induction r as [| |p|a IHa b IHb|a IHa b IHb|a IHa]; cbn; (split; [intros H|intros H]); try done; auto with js.
  - inversion H.
  - inversion H.
  - apply andb_true_iff in H as [H1 H2]. apply (lang_seq a b [] []); [by apply IHa|by apply IHb].
  - inversion H as [| |? ? s t H1 H2 Es Et| | | |]; subst. apply app_nil in Et as [-> ->]. apply andb_true_iff.
    split; [by apply IHa|by apply IHb].
  - apply orb_true_iff in H as [H|H]; [apply lang_alt_l; by apply IHa|apply lang_alt_r; by apply IHb].
  - apply orb_true_iff. inversion H; subst; [left; by apply IHa|right; by apply IHb].
Qed.

Lemma star_head a c s : lang (Star a) (c :: s) -> exists s1 s2, s = s1 ++ s2 /\ lang a (c :: s1) /\ lang (Star a) s2.
Proof.
  intros H. remember (Star a) as r eqn:Er. remember (c :: s) as w eqn:Ew. revert Ew.
  induction H as [| | | | | |b s1 s2 H1 _ H2 IH2]; intros Ew; try done. injection Er as ->.
  destruct s1 as [|d s1]; [by apply IH2|]. injection Ew as -> <-. by exists s1, s2.
Qed.

Lemma deriv_lang c r : forall s, lang (deriv c r) s <-> lang r (c :: s).
Proof.
  induction r as [| |p|a IHa b IHb|a IHa b IHb|a IHa]; intros s; cbn [deriv].
  - split; intros H; inversion H.
  - split; intros H; inversion H.
  - split.
    + destruct (p c) eqn:E; intros H; inversion H; subst. by apply lang_class.
    + intros H. inversion H; subst. rewrite H2. apply lang_eps.
  - assert (Hl : lang (Seq (deriv c a) b) s <-> exists s1 s2, s = s1 ++ s2 /\ lang a (c :: s1) /\ lang b s2).
    { split.
      - intros H. inversion H; subst. eexists _, _. split; [done|]. split; [by apply IHa|done].
      - intros (s1 & s2 & -> & H1 & H2). apply lang_seq; [by apply IHa|done]. }
    assert (Hr : lang (Seq a b) (c :: s) <-> (exists s1 s2, s = s1 ++ s2 /\ lang a (c :: s1) /\ lang b s2) \/
                                             (nullable a = true /\ lang b (c :: s))).
    { split.
      - intros H. inversion H as [| |? ? u t H1 H2 Es Et| | | |]; subst. destruct u as [|d u].
        + right. cbn in Et. subst t. split; [by apply nullable_lang|done].
        + left. injection Et as -> <-. by eexists _, _.
      - intros [(s1 & s2 & -> & H1 & H2)|[H1 H2]].
        + by apply (lang_seq a b (c :: s1) s2).
        + apply (lang_seq a b [] (c :: s)); [by apply nullable_lang|done]. }
    rewrite Hr, <- Hl. destruct (nullable a).
    + split.
      * intros H. inversion H; subst; [by left|right; split; [done|by apply IHb]].
      * intros [H|[_ H]]; [by apply lang_alt_l|apply lang_alt_r; by apply IHb].
    + split; [by left|]. by intros [H|[? _]].
  - split; intros H; inversion H; subst; [apply lang_alt_l|apply lang_alt_r|apply lang_alt_l|apply lang_alt_r]; firstorder.
  - split.
    + intros H. inversion H; subst. apply (lang_star_app a (c :: s0) t); [by apply IHa|done].
    + intros (s1 & s2 & -> & H1 & H2)%star_head. apply lang_seq; [by apply IHa|done].
Qed.

(** The matcher decides the language. *)
Lemma matches_lang r s : matches r s = true <-> lang r s.
Proof.
  revert r. induction s as [|c s IH]; intros r; cbn [matches]; [apply nullable_lang|]. rewrite IH. apply deriv_lang.
Qed.
Lemma matches_prefix_lang r s : matches_prefix r s = true <-> exists p t, s = p ++ t /\ lang r p.
Proof.
  revert r. induction s as [|c s IH]; intros r; cbn [matches_prefix].
  - rewrite orb_false_r, nullable_lang. split; [by exists [], []|]. by intros (p & t & [-> ->]%eq_sym%app_nil & H).
  - rewrite orb_true_iff, nullable_lang, IH. split.
    + intros [H|(p & t & -> & H)]; [by exists [], (c :: s)|]. exists (c :: p), t. split; [done|by apply deriv_lang].
    + intros ([|d p] & t & E & H); [by left|right]. injection E as -> ->. exists p, t. split; [done|by apply deriv_lang].
Qed.
