(* ===== verification/Captures.v ===== *)
(** * Regular expressions with capture groups

    [RegExp.prototype.exec] on the expressions whose groups the code reads:
    a backtracking matcher, greedy like the language's, with the texts of the
    groups.  Every match it finds is in the language of the expression. *)

From Stdlib Require Import String.
From S2P Require Import Prelude JsNumber JsString Regex.

Inductive cre :=
| CClass (p : Z -> bool)
| CSeq (a b : cre)
| CAlt (a b : cre)
| COpt (a : cre)
| CStar (a : cre)
| CGroup (i : nat) (a : cre)
| CEps.

(** The usual forms. *)
Definition cseqs (l : list cre) : cre := foldr CSeq CEps l.
Definition CLit (s : jsstr) : cre := cseqs ((fun c => CClass (fun d => d =? c)) <$> s).
Definition CPlus (a : cre) : cre := CSeq a (CStar a).
(** [[^...]] and [.]. *)
Definition none_of (s : jsstr) (c : Z) : bool := negb (bool_decide (c ∈ s)).
Definition dot : Z -> bool := none_of [10; 13; 8232; 8233].

(** The groups that took part in the match, the last text of each first. *)
Abbreviation caps := (list (nat * jsstr)).

(** Matching at the beginning of a text; [k] is the rest of the expression.  An
    iteration that consumes nothing is refused. *)
Fixpoint cmatch {R} (r : cre) (s : jsstr) (c : caps) (k : jsstr -> caps -> option R) : option R :=
  match r with
  | CEps => k s c
  | CClass p => match s with x :: s' => if p x then k s' c else None | [] => None end
  | CSeq a b => cmatch a s c (fun s' c' => cmatch b s' c' k)
  | CAlt a b => match cmatch a s c k with Some x => Some x | None => cmatch b s c k end
  | COpt a =>
      match cmatch a s c (fun s' c' => if bool_decide (length s' = length s) then None else k s' c') with
      | Some x => Some x
      | None => k s c
      end
  | CStar a =>
      (fix rounds (n : nat) (s : jsstr) (c : caps) : option R :=
         match n with
         | O => k s c
         | S n' =>
             match cmatch a s c (fun s' c' => if bool_decide (length s' = length s) then None else rounds n' s' c') with
             | Some x => Some x
             | None => k s c
             end
         end) (length s) s c
  | CGroup i a => cmatch a s c (fun s' c' => k s' ((i, take (length s - length s') s) :: c'))
  end.

(** [/^.../.exec(s)]. *)
Definition exec (r : cre) (s : jsstr) : option caps := cmatch r s [] (fun _ c => Some c).
(** [parts[i]]: the text of a group, when it took part. *)
Fixpoint part (i : nat) (c : caps) : option jsstr :=
  match c with [] => None | (j, t) :: c' => if Nat.eqb j i then Some t else part i c' end.

(** ** The language *)

Fixpoint forget (r : cre) : re :=
  match r with
  | CEps => Eps
  | CClass p => Class_ p
  | CSeq a b => Seq (forget a) (forget b)
  | CAlt a b => Alt (forget a) (forget b)
  | COpt a => Opt (forget a)
  | CStar a => Star (forget a)
  | CGroup _ a => forget a
  end.

(** The groups of an expression. *)
Fixpoint groups (r : cre) : list nat :=
  match r with
  | CEps | CClass _ => []
  | CSeq a b | CAlt a b => groups a ++ groups b
  | COpt a | CStar a => groups a
  | CGroup i a => i :: groups a
  end.
Definition within (r : cre) (d : caps) : Prop := Forall (fun e => e.1 ∈ groups r) d.

Lemma within_incl a b d : (forall i, i ∈ groups a -> i ∈ groups b) -> within a d -> within b d.
Proof. intros H Hd. apply (Forall_impl _ _ _ Hd). intros e. apply H. Qed.
Lemma within_app a d d' : within a d -> within a d' -> within a (d ++ d').
Proof. intros ??. by apply Forall_app. Qed.

(** What is matched is a text of the language, the rest of the expression
    goes on after it, and only groups of the expression are set. *)
Lemma cmatch_lang {R} r : forall s c (k : jsstr -> caps -> option R) x, cmatch r s c k = Some x ->
  exists p t d, s = p ++ t /\ lang (forget r) p /\ k t (d ++ c) = Some x /\ within r d.
Proof.
  induction r as [p|a IHa b IHb|a IHa b IHb|a IHa|a IHa|i a IHa|]; intros s c k x H; cbn [cmatch forget] in *.
  - destruct s as [|y s]; [done|]. destruct (p y) eqn:E; [|done]. exists [y], s, [].
    split; [done|]. split; [by apply lang_class|]. split; [done|constructor].
  - apply IHa in H as (p & t & d & -> & Hp & H & Hd). apply IHb in H as (q & u & d2 & -> & Hq & H & Hd2).
    exists (p ++ q), u, (d2 ++ d). rewrite <- !app_assoc. split; [done|]. split; [by apply lang_seq|]. split; [done|].
    apply within_app; [apply (within_incl b)|apply (within_incl a)]; try done; intros j Hj; cbn; apply elem_of_app; auto.
  - destruct (cmatch a s c k) as [y|] eqn:E.
    + injection H as ->. apply IHa in E as (p & t & d & -> & Hp & H & Hd). exists p, t, d. repeat split; auto with js.
      apply (within_incl a); [intros j Hj; cbn; apply elem_of_app; auto|done].
    + apply IHb in H as (p & t & d & -> & Hp & H & Hd). exists p, t, d. repeat split; auto with js.
      apply (within_incl b); [intros j Hj; cbn; apply elem_of_app; auto|done].
  - destruct (cmatch a s c _) as [y|] eqn:E.
    + injection H as ->. apply IHa in E as (p & t & d & -> & Hp & H & Hd). exists p, t, d.
      case_bool_decide; [done|]. unfold Opt. repeat split; auto with js.
    + exists [], s, []. unfold Opt. repeat split; auto with js. constructor.
  - set (n := length s) in H. clearbody n. revert s c H. induction n as [|n IHn]; intros s c H.
    + exists [], s, []. repeat split; auto with js. constructor.
    + destruct (cmatch a s c _) as [y|] eqn:E.
      * injection H as ->. apply IHa in E as (p & t & d & -> & Hp & H & Hd). case_bool_decide; [done|].
        apply IHn in H as (q & u & d2 & -> & Hq & H & Hd2). exists (p ++ q), u, (d2 ++ d).
        rewrite <- !app_assoc. repeat split; auto with js. by apply within_app.
      * exists [], s, []. repeat split; auto with js. constructor.
  - apply IHa in H as (p & t & d & -> & Hp & H & Hd). exists p, t, ((i, take (length (p ++ t) - length t) (p ++ t)) :: d).
    repeat split; try done. constructor; [by left|]. apply (within_incl a); [by right|done].
  - exists [], s, []. repeat split; auto with js. constructor.
Qed.

(** ** Expressions that always match *)

Definition finds {R} (o : option R) (Q : R -> Prop) : Prop := exists x, o = Some x /\ Q x.

(** Nothing of the expression is mandatory. *)
Fixpoint optional (r : cre) : bool :=
  match r with
  | CEps | COpt _ | CStar _ => true
  | CClass _ => false
  | CSeq a b => optional a && optional b
  | CAlt a _ | CGroup _ a => optional a
  end.

Lemma optional_matches {R} r : optional r = true -> forall s c (k : jsstr -> caps -> option R),
  (forall t d, (length t <= length s)%nat -> within r d -> exists x, k t (d ++ c) = Some x) -> exists x, cmatch r s c k = Some x.
Proof.
  induction r as [p|a IHa b IHb|a IHa b IHb|a IHa|a IHa|i a IHa|]; intros Ho s c k Hk; cbn [cmatch optional] in *; try done.
  - apply andb_true_iff in Ho as [Ha Hb]. apply IHa; [done|]. intros t d Ht Hd. apply IHb; [done|].
    intros u d2 Hu Hd2. rewrite app_assoc. apply Hk; [lia|].
    apply within_app; [apply (within_incl b)|apply (within_incl a)]; try done; intros j Hj; cbn; apply elem_of_app; auto.
  - destruct (IHa Ho s c k) as [x ->]; [|by exists x]. intros t d Ht Hd. apply Hk; [done|].
    apply (within_incl a); [intros j Hj; cbn; apply elem_of_app; auto|done].
  - destruct (cmatch a s c _) as [x|]; [by exists x|]. by apply (Hk s []); [|constructor].
  - set (n := length s). destruct n as [|n]; [by apply (Hk s []); [|constructor]|].
    destruct (cmatch a s c _) as [x|]; [by exists x|]. by apply (Hk s []); [|constructor].
  - apply IHa; [done|]. intros t d Ht Hd. apply (Hk t (_ :: d)); [done|]. constructor; [by left|].
    apply (within_incl a); [by right|done].
  - by apply (Hk s []); [|constructor].
Qed.
Lemma finds_optional {R} r s c (k : jsstr -> caps -> option R) Q : optional r = true ->
  (forall t d, (length t <= length s)%nat -> within r d -> finds (k t (d ++ c)) Q) -> finds (cmatch r s c k) Q.
Proof.
  intros Ho HQ. destruct (optional_matches r Ho s c k) as [x Hx].
  { intros t d Ht Hd. destruct (HQ t d Ht Hd) as (x & Hx & _). by exists x. }
  exists x. split; [done|]. apply cmatch_lang in Hx as (p & t & d & -> & _ & Hx & Hd).
  destruct (HQ t d) as (y & Hy & HQy); [rewrite length_app; lia|done|]. congruence.
Qed.
Lemma finds_seq {R} a b s c (k : jsstr -> caps -> option R) Q :
  finds (cmatch a s c (fun s' c' => cmatch b s' c' k)) Q -> finds (cmatch (CSeq a b) s c k) Q.
Proof. done. Qed.
Lemma finds_group {R} i a s c (k : jsstr -> caps -> option R) Q :
  finds (cmatch a s c (fun s' c' => k s' ((i, take (length s - length s') s) :: c'))) Q -> finds (cmatch (CGroup i a) s c k) Q.
Proof. done. Qed.

(** ** Greedy runs *)

(** A run of a class takes every unit it can when the rest then matches. *)
Lemma finds_star {R} p (f g : jsstr) c (k : jsstr -> caps -> option R) Q :
  Forall (fun u => p u = true) f -> match g with u :: _ => p u = false | [] => True end ->
  finds (k g c) Q -> finds (cmatch (CStar (CClass p)) (f ++ g) c k) Q.
Proof.
  intros Hf Hg (x & Hk & HQ). exists x. split; [|done]. clear HQ. cbn [cmatch]. remember (length (f ++ g)) as n eqn:Hn. revert n Hn.
  induction Hf as [|u f Hu Hf IH]; intros n Hn.
  - destruct g as [|v g]; cbn in Hn; subst n; [done|]. cbn [app length]. by rewrite Hg.
  - cbn in Hn. destruct n as [|n]; [done|]. cbn [app length]. rewrite Hu.
    rewrite bool_decide_eq_false_2 by lia. injection Hn as Hn. by rewrite (IH n Hn).
Qed.
Lemma finds_plus {R} p (f g : jsstr) c (k : jsstr -> caps -> option R) Q : f <> [] ->
  Forall (fun u => p u = true) f -> match g with u :: _ => p u = false | [] => True end ->
  finds (k g c) Q -> finds (cmatch (CPlus (CClass p)) (f ++ g) c k) Q.
Proof.
  intros Hne Hf Hg Hk. destruct f as [|u f]; [done|]. apply Forall_cons in Hf as [Hu Hf].
  unfold CPlus. cbn [cmatch app]. rewrite Hu. by apply (finds_star p f g).
Qed.
Lemma lit_skip {R} l s c (k : jsstr -> caps -> option R) : cmatch (CLit l) (l ++ s) c k = k s c.
Proof.
  unfold CLit, cseqs. revert s. induction l as [|u l IH]; intros s; [done|].
  cbn [app fmap list_fmap foldr cmatch]. rewrite Z.eqb_refl. apply IH.
Qed.
Lemma finds_opt {R} a s c (k : jsstr -> caps -> option R) Q :
  finds (cmatch a s c (fun s' c' => if bool_decide (length s' = length s) then None else k s' c')) Q ->
  finds (cmatch (COpt a) s c k) Q.
Proof. intros (x & E & HQ). exists x. split; [|done]. cbn [cmatch]. by rewrite E. Qed.
Lemma finds_alt {R} a b s c (k : jsstr -> caps -> option R) Q :
  finds (cmatch a s c k) Q -> finds (cmatch (CAlt a b) s c k) Q.
Proof. intros (x & E & HQ). exists x. split; [|done]. cbn [cmatch]. by rewrite E. Qed.
Lemma finds_skip {R} a s c (k : jsstr -> caps -> option R) Q :
  (forall p t, s = p ++ t -> ~ lang (forget a) p) -> finds (k s c) Q -> finds (cmatch (COpt a) s c k) Q.
Proof.
  intros Hn Hk. cbn [cmatch]. destruct (cmatch a s c _) as [x|] eqn:E; [|done].
  apply cmatch_lang in E as (p & t & d & Es & Hp & _). by destruct (Hn p t Es).
Qed.

(** The text of a group that is set in no later part. *)
Lemma part_within r i d c : within r d -> i ∉ groups r -> part i (d ++ c) = part i c.
Proof.
  intros Hd Hi. induction Hd as [|[j t] d Hj Hd IH]; [done|]. cbn [app part].
  destruct (Nat.eqb_spec j i) as [->|]; [by destruct Hi|done].
Qed.
Lemma take_before {A} (f g : list A) : take (length (f ++ g) - length g) (f ++ g) = f.
Proof. rewrite length_app. replace (length f + length g - length g)%nat with (length f) by lia. by rewrite take_app_length. Qed.
