(* ===== verification/ParseUri.v ===== *)
(** * The address of the document

    [SwaggerClient.prototype.parseUri] of swagger-ui.js: the scheme, host and
    port of the address the document was read from, by its regular expression
    with seventeen groups. *)

From Stdlib Require Import String.
From S2P Require Import Prelude JsNumber JsString Regex Captures.

(** ** The expression *)

Definition but (s : String.string) : cre := CClass (none_of (js s)).
Arguments but s%_string.
Definition lit (s : String.string) : cre := CLit (js s).
Arguments lit s%_string.
Definition uri_digit : Z -> bool := in_ranges [range "0" "9"].

(** [(([^:@\/#\?]+)(?:\:([^:@\/#\?]+))?)@)?] *)
Definition userinfo : cre :=
  CSeq (CGroup 7 (CSeq (CGroup 8 (CPlus (but ":@/#?"))) (COpt (CSeq (lit ":") (CGroup 9 (CPlus (but ":@/#?")))))))
       (lit "@").
Definition host_re : cre :=
  CGroup 11 (CAlt (CPlus (but ":/#?][")) (CSeq (lit "[") (CSeq (CPlus (but "/]@#?")) (lit "]")))).
Definition port_re : cre := COpt (CSeq (lit ":") (CGroup 12 (CPlus (CClass uri_digit)))).
Definition authority_re : cre :=
  CSeq (COpt userinfo) (COpt (CGroup 10 (CSeq host_re port_re))).
(** The scheme, and the slashes with what follows. *)
Definition scheme_re : cre := COpt (CGroup 4 (CSeq (CPlus (but ":/#?")) (lit ":"))).
Definition net_re : cre := COpt (CSeq (CGroup 5 (lit "//")) (COpt (CGroup 6 authority_re))).
Definition path_re : cre :=
  CGroup 13 (CSeq (CGroup 14 (CSeq (COpt (lit "/")) (CStar (CSeq (CPlus (but "/?#")) (CPlus (lit "/"))))))
                  (CGroup 15 (CStar (but "?#")))).
Definition query_re : cre := COpt (CGroup 16 (CSeq (lit "?") (CPlus (but "#")))).
Definition hash_re : cre := COpt (CGroup 17 (CSeq (lit "#") (CStar (CClass dot)))).
Definition urlParseRE : cre :=
  CSeq (CGroup 1 (CSeq (COpt (CGroup 2 (CSeq (COpt (CGroup 3 (CSeq scheme_re net_re))) path_re))) query_re)) hash_re.

(** ** [parseUri] *)

Record location := Location {
  l_scheme : option jsstr;
  l_host : option jsstr;
  l_port : option jsstr;
  l_path : option jsstr
}.
#[export] Instance location_eq_dec : EqDecision location.
Proof. solve_decision. Defined.

Definition parseUri (uri : jsstr) : res location :=
  match exec urlParseRE uri with
  | None => Throw TypeError
  | Some parts =>
      Ok (Location (match part 4 parts with Some ((_ :: _) as s) => Some (replace_first s (js ":") []) | _ => None end)
            (part 11 parts) (part 12 parts) (part 15 parts))
  end.

(** Without a scheme, what comes before the first colon is taken for one. *)
Example bare_host : parseUri (js "localhost:9099/api/swagger.json") =
  Ok (Location (Some (js "localhost")) None None (Some (js "swagger.json"))).
Proof. vm_compute. reflexivity. Qed.
(** [path] is the last segment only. *)
Example last_segment : parseUri (js "http://u:p@example.com:81/v2/pets/api.json?x=1#y") =
  Ok (Location (Some (js "http")) (Some (js "example.com")) (Some (js "81")) (Some (js "api.json"))).
Proof. vm_compute. reflexivity. Qed.
Example address_literal : parseUri (js "https://[::1]:8443") =
  Ok (Location (Some (js "https")) (Some (js "[::1]")) (Some (js "8443")) (Some [])).
Proof. vm_compute. reflexivity. Qed.

(** ** What it finds *)

Definition scheme_ok (s : jsstr) : Prop := s <> [] /\ Forall (fun c => none_of (js ":/#?") c = true) s.
Definition host_ok (s : jsstr) : Prop := s <> [] /\ Forall (fun c => none_of (js ":/#?][@") c = true) s.
Definition port_ok (s : jsstr) : Prop := s <> [] /\ Forall (fun c => uri_digit c = true) s.
(** The path, the query or the fragment. *)
Definition tail_ok (s : jsstr) : Prop := match s with [] => True | c :: _ => c ∈ js "/?#" end.

Definition port_text (port : option jsstr) : jsstr := match port with Some p => js ":" ++ p | None => [] end.

Lemma none_of_incl a b c : (forall x, x ∈ b -> x ∈ a) -> none_of a c = true -> none_of b c = true.
Proof.
  unfold none_of. rewrite !negb_true_iff, !bool_decide_eq_false. auto.
Qed.
Ltac chars :=
  intros ?; repeat match goal with |- context [js ?s] => let v := eval vm_compute in (js s) in change (js s) with v end;
  rewrite ?elem_of_cons; tauto.

Lemma lang_run p s : lang (Plus (Class_ p)) s -> Forall (fun c => p c = true) s.
Proof.
  assert (H : forall t, lang (Star (Class_ p)) t -> Forall (fun c => p c = true) t).
  { intros t H. remember (Star (Class_ p)) as r eqn:Er.
    induction H as [| | | | | |b s1 s2 H1 _ H2 IH2]; try done. injection Er as ->.
    inversion H1; subst. constructor; [done|by apply IH2]. }
  intros Hs. unfold Plus in Hs. inversion Hs as [| |? ? u t H1 H2| | | |]; subst. inversion H1; subst.
  constructor; [done|by apply H].
Qed.

(** A user needs an [@] before the path. *)
Lemma lang_userinfo p : lang (forget userinfo) p -> exists q, p = q ++ [64] /\ Forall (fun c => c ∉ js "/?#") q.
Proof.
  assert (Hrun : forall t, lang (Plus (Class_ (none_of (js ":@/#?")))) t -> Forall (fun c => c ∉ js "/?#") t).
  { intros t Ht%lang_run. apply (Forall_impl _ _ _ Ht). intros c Hc. apply (none_of_incl _ (js "/?#")) in Hc; [|chars].
    by apply negb_true_iff, bool_decide_eq_false in Hc. }
  assert (Hlit : forall x t, lang (Lit [x]) t -> t = [x]).
  { intros x t Ht. inversion Ht as [| |? ? u v H1 H2| | | |]; subst. inversion H1 as [|? ? E| | | | |]; subst.
    apply Z.eqb_eq in E as ->. by inversion H2. }
  change (forget userinfo) with
    (Seq (Seq (Plus (Class_ (none_of (js ":@/#?")))) (Opt (Seq (Lit [58]) (Plus (Class_ (none_of (js ":@/#?"))))))) (Lit [64])).
  intros H. inversion H as [| |? ? u v H1 H2| | | |]; subst. apply Hlit in H2 as ->. exists u. split; [done|].
  inversion H1 as [| |? ? f g Hf Hg| | | |]; subst. apply Forall_app. split; [by apply Hrun|].
  unfold Opt in Hg. inversion Hg as [| | |? ? ? Hg'|? ? ? Hg'| |]; subst.
  - inversion Hg' as [| |? ? c w Hc Hw| | | |]; subst. apply Hlit in Hc as ->. constructor; [by apply (bool_decide_eq_false _)|by apply Hrun].
  - inversion Hg'; subst. constructor.
Qed.

Lemma no_user host port tail p t : host_ok host -> (forall p, port = Some p -> port_ok p) -> tail_ok tail ->
  host ++ port_text port ++ tail = p ++ t -> ~ lang (forget userinfo) p.
Proof.
  intros [_ Hh] Hp Ht E (q & -> & Hq)%lang_userinfo.
  assert (Hn : 64 ∉ host ++ port_text port).
  { rewrite not_elem_of_app. split.
    - intros Hin. rewrite Forall_forall in Hh. by apply Hh in Hin.
    - destruct port as [n|]; [|by apply not_elem_of_nil]. destruct (Hp n eq_refl) as [_ Hd]. cbn [port_text].
      rewrite not_elem_of_app. split; [by apply (bool_decide_eq_false _)|].
      intros Hin. rewrite Forall_forall in Hd. by apply Hd in Hin. }
  rewrite <- app_assoc, app_assoc in E. apply app_eq_app in E as (l & [[E1 E2]|[E1 E2]]).
  - destruct l as [|x l]; [|injection E2 as <- _; apply Hn; rewrite E1; apply elem_of_app; right; by left].
    cbn in E2. rewrite <- E2 in Ht. by apply (bool_decide_eq_true _) in Ht.
  - destruct tail as [|y tail]; [by destruct l|]. destruct l as [|z l].
    + cbn in E2. injection E2 as -> _. by apply (bool_decide_eq_true _) in Ht.
    + injection E2 as -> _. rewrite E1, Forall_app, Forall_cons in Hq. destruct Hq as (_ & Hz & _). by destruct Hz.
Qed.

#[local] Ltac lengths := rewrite ?length_app;
  repeat match goal with |- context [length (js ?s)] => let v := eval vm_compute in (length (js s)) in change (length (js s)) with v end;
  lia.
#[local] Ltac longer := rewrite bool_decide_eq_false_2 by lengths.

(** Where the port ends: nothing is wanted any more, and no later group is the
    scheme, the host or the port. *)
Definition found (s h : jsstr) (port : option jsstr) (x : caps) : Prop :=
  part 4 x = Some (s ++ js ":") /\ part 11 x = Some h /\ part 12 x = port.

Lemma found_within r d c s h port : within r d -> 4%nat ∉ groups r -> 11%nat ∉ groups r -> 12%nat ∉ groups r ->
  found s h port c -> found s h port (d ++ c).
Proof. intros Hd H4 H11 H12. unfold found. by rewrite !(part_within r). Qed.

(** The path, the query and the fragment, after a nonempty beginning. *)
Lemma finds_rest s h port (s0 s1 s2 tail : jsstr) c : (length tail < length s0)%nat -> found s h port c ->
  finds (cmatch path_re tail c (fun s' c' =>
    if bool_decide (length s' = length s0) then None
    else cmatch query_re s' ((2%nat, take (length s1 - length s') s1) :: c')
      (fun t c2 => cmatch hash_re t ((1%nat, take (length s2 - length t) s2) :: c2) (fun _ c3 => Some c3)))) (found s h port).
Proof.
  intros Hl Hc. apply finds_optional; [done|]. intros t d Ht Hd. rewrite bool_decide_eq_false_2 by lia.
  apply (found_within path_re d) in Hc; [|done|by apply (bool_decide_eq_false _)..].
  apply finds_optional; [done|]. intros t2 d2 Ht2 Hd2. apply finds_optional; [done|]. intros t3 d3 Ht3 Hd3. eexists. split; [done|].
  apply (found_within hash_re); [done|by apply (bool_decide_eq_false _)..|]. change (found s h port (d2 ++ (2%nat, take (length s1 - length t) s1) :: d ++ c)).
  apply (found_within query_re); [done|by apply (bool_decide_eq_false _)..|]. done.
Qed.

Lemma lang_colon r p : lang (Seq (forget (lit ":")) r) p -> exists q, p = 58 :: q.
Proof.
  intros H. inversion H as [| |? ? u v Hu _| | | |]; subst. change (forget (lit ":")) with (Lit [58]) in Hu.
  inversion Hu as [| |? ? a b Ha Hb| | | |]; subst. inversion Ha as [|? c E| | | | |]; subst. apply Z.eqb_eq in E as ->.
  inversion Hb; subst. by exists v.
Qed.
Lemma finds_lit {R} l s c (k : jsstr -> caps -> option R) Q :
  finds (k s c) Q -> finds (cmatch (lit l) (js l ++ s) c k) Q.
Proof. unfold lit. by rewrite lit_skip. Qed.
Lemma tail_stops l tail : tail_ok tail -> (forall x, x ∈ js "/?#" -> x ∈ l) ->
  match tail with u :: _ => none_of l u = false | [] => True end.
Proof.
  destruct tail as [|u tail]; [done|]. intros Hu Hl. unfold none_of. rewrite bool_decide_eq_true_2; [done|by apply Hl].
Qed.

(** The scheme, the host and the port of an absolute address are found,
    whatever the path, the query and the fragment after them are. *)
Theorem parseUri_address scheme host port tail :
  scheme_ok scheme -> host_ok host -> (forall p, port = Some p -> port_ok p) -> tail_ok tail ->
  exists path, parseUri (scheme ++ js "://" ++ host ++ port_text port ++ tail) = Ok (Location (Some scheme) (Some host) port path).
Proof.
  intros [Hs0 Hs] [Hh0 Hh] Hp Ht. assert (Hl : (0 < length host)%nat) by (by destruct host; [|cbn; lia]).
  assert (H : finds (exec urlParseRE (scheme ++ js ":" ++ js "//" ++ host ++ port_text port ++ tail)) (found scheme host port)).
  { unfold exec, urlParseRE. apply finds_seq, finds_group, finds_seq, finds_opt, finds_group, finds_seq, finds_opt, finds_group, finds_seq.
    apply finds_opt, finds_group, finds_seq, finds_plus; [done..|]. apply finds_lit. longer.
    apply finds_opt, finds_seq, finds_group, finds_lit, finds_opt, finds_group, finds_seq.
    apply finds_skip; [intros p t E; by apply (no_user host port tail p t)|].
    apply finds_opt, finds_group, finds_seq, finds_group, finds_alt.
    apply finds_plus; [done|..].
    { apply (Forall_impl _ _ _ Hh). intros c. apply none_of_incl. chars. }
    { destruct port as [n|]; [done|]. apply (tail_stops (js ":/#?][")); [done|chars]. }
    rewrite take_before. destruct port as [n|].
    - destruct (Hp n eq_refl) as [Hn0 Hn]. cbn [port_text]. rewrite <- app_assoc.
      apply finds_opt, finds_seq, finds_lit, finds_group, finds_plus; [done..| |].
      { destruct tail as [|u tail]; [done|]. by repeat (apply elem_of_cons in Ht as [->|Ht]; [done|]); apply not_elem_of_nil in Ht. }
      do 4 longer. apply finds_rest; [lengths|].
      repeat split; cbn [part Nat.eqb]; rewrite ?(app_assoc scheme); by rewrite take_before.
    - cbn [port_text app]. apply finds_skip.
      { intros p t -> (q & ->)%lang_colon. cbn in Ht. by apply (bool_decide_eq_true _) in Ht. }
      do 3 longer. apply finds_rest; [lengths|].
      repeat split; cbn [part Nat.eqb]; rewrite ?(app_assoc scheme); by rewrite take_before. }
  destruct H as (x & Hx & H4 & H11 & H12). exists (part 15 x). unfold parseUri.
  change (js "://") with (js ":" ++ js "//"). rewrite <- app_assoc, Hx, H4, H11, H12.
  assert (Hne : exists u s, scheme ++ js ":" = u :: s) by (destruct scheme as [|u s]; [done|]; by eexists u, _).
  destruct Hne as (u & s & Es). rewrite Es, <- Es. do 3 f_equal. clear u s Es H4 Hx.
  change (js ":") with [58]. unfold replace_first. rewrite (find_char_app 58 scheme []).
  - by rewrite (take_app_length scheme), (drop_ge (scheme ++ [58])), app_nil_r by (rewrite length_app; cbn; lia).
  - intros Hin. rewrite Forall_forall in Hs. by apply Hs in Hin.
Qed.
Lemma parseUri_address_witness :
  exists path, parseUri (js "https://grid.example:8443/rest/swagger.json?x=a:b@c") =
    Ok (Location (Some (js "https")) (Some (js "grid.example")) (Some (js "8443")) path).
Proof.
  apply (parseUri_address (js "https") (js "grid.example") (Some (js "8443")) (js "/rest/swagger.json?x=a:b@c")).
  - split; [done|]. apply (bool_decide_unpack _). vm_compute. exact I.
  - split; [done|]. apply (bool_decide_unpack _). vm_compute. exact I.
  - intros p [= <-]. split; [done|]. apply (bool_decide_unpack _). vm_compute. exact I.
  - by apply (bool_decide_eq_true _).
Defined.
