(* ===== verification/Uri.v ===== *)
(** * encodeURIComponent

    The language's [encodeURIComponent] (UTF-16 to UTF-8 to percent
    escapes), its inverse on well-formed escapes, and the facts the client
    relies on: the encoded text contains none of the delimiters of a URL, and
    decoding gives the argument back. *)

From Stdlib Require Import String.
From S2P Require Import Prelude JsNumber JsString.

(** The marks [encodeURIComponent] leaves alone: letters, digits and
    [- _ . ! ~ * ' ( )]. *)
Definition uri_unreserved (c : Z) : bool :=
  ((65 <=? c) && (c <=? 90)) || ((97 <=? c) && (c <=? 122)) || ((48 <=? c) && (c <=? 57)) ||
  bool_decide (c ∈ js "-_.!~*'()").

Definition is_lead (c : Z) : bool := (55296 <=? c) && (c <=? 56319).
Definition is_trail (c : Z) : bool := (56320 <=? c) && (c <=? 57343).

(** UTF-8 bytes of a code point below 0x110000. *)
Definition utf8_bytes (cp : Z) : list Z :=
  if cp <? 128 then [cp]
  else if cp <? 2048 then [192 + cp / 64; 128 + cp mod 64]
  else if cp <? 65536 then [224 + cp / 4096; 128 + cp / 64 mod 64; 128 + cp mod 64]
  else [240 + cp / 262144; 128 + cp / 4096 mod 64; 128 + cp / 64 mod 64; 128 + cp mod 64].

Definition hex_upper (d : Z) : Z := if d <? 10 then 48 + d else 55 + d.
Definition pct (b : Z) : jsstr := [chr "%"; hex_upper (b / 16); hex_upper (b mod 16)].
Definition pct_bytes (bs : list Z) : jsstr := List.flat_map pct bs.

Fixpoint encodeURIComponent (s : jsstr) : res jsstr :=
  match s with
  | [] => Ok []
  | c :: s1 =>
      if uri_unreserved c then r ← encodeURIComponent s1; Ok (c :: r)
      else if is_trail c then Throw URIError
      else if is_lead c then
        match s1 with
        | d :: s2 =>
            if is_trail d then
              r ← encodeURIComponent s2;
              Ok (pct_bytes (utf8_bytes (65536 + (c - 55296) * 1024 + (d - 56320))) ++ r)
            else Throw URIError
        | [] => Throw URIError
        end
      else r ← encodeURIComponent s1; Ok (pct_bytes (utf8_bytes c) ++ r)
  end.

(** Well-formed UTF-16: every surrogate is half of a pair. *)
Fixpoint wf_utf16 (s : jsstr) : bool :=
  match s with
  | [] => true
  | c :: s1 =>
      if is_lead c then match s1 with d :: s2 => is_trail d && wf_utf16 s2 | [] => false end
      else negb (is_trail c) && (0 <=? c) && (c <? 65536) && wf_utf16 s1
  end.

(** ** Decoding *)

Definition unhex (c : Z) : option Z :=
  if (48 <=? c) && (c <=? 57) then Some (c - 48)
  else if (65 <=? c) && (c <=? 70) then Some (c - 55)
  else if (97 <=? c) && (c <=? 102) then Some (c - 87)
  else None.

(** The bytes a text of unreserved units and escapes stands for. *)
Fixpoint unescape (s : jsstr) : option (list Z) :=
  match s with
  | [] => Some []
  | c :: s1 =>
      if c =? 37 then
        match s1 with
        | h :: l :: s2 =>
            match unhex h, unhex l with
            | Some a, Some b => cons (a * 16 + b) <$> unescape s2
            | _, _ => None
            end
        | _ => None
        end
      else cons c <$> unescape s1
  end.

Definition is_cont (b : Z) : bool := (128 <=? b) && (b <? 192).

(** UTF-16 units of a code point. *)
Definition utf16_units (cp : Z) : list Z :=
  if cp <? 65536 then [cp]
  else [55296 + (cp - 65536) / 1024; 56320 + (cp - 65536) mod 1024].

(** Decoding UTF-8 the strict way. *)
Fixpoint utf8_decode (fuel : nat) (bs : list Z) : option jsstr :=
  match fuel, bs with
  | _, [] => Some []
  | O, _ => None
  | S f, b :: bs1 =>
      if b <? 128 then cons b <$> utf8_decode f bs1
      else if b <? 192 then None
      else if b <? 224 then
        match bs1 with
        | c1 :: bs2 => if is_cont c1
                       then app (utf16_units ((b - 192) * 64 + (c1 - 128))) <$> utf8_decode f bs2
                       else None
        | _ => None
        end
      else if b <? 240 then
        match bs1 with
        | c1 :: c2 :: bs2 =>
            if is_cont c1 && is_cont c2
            then app (utf16_units ((b - 224) * 4096 + (c1 - 128) * 64 + (c2 - 128)))
                   <$> utf8_decode f bs2
            else None
        | _ => None
        end
      else
        match bs1 with
        | c1 :: c2 :: c3 :: bs2 =>
            if is_cont c1 && is_cont c2 && is_cont c3
            then app (utf16_units ((b - 240) * 262144 + (c1 - 128) * 4096 + (c2 - 128) * 64
                                   + (c3 - 128)))
                   <$> utf8_decode f bs2
            else None
        | _ => None
        end
  end.

Definition decodeURIComponent (s : jsstr) : res jsstr :=
  match unescape s with
  | Some bs => match utf8_decode (length bs) bs with Some r => Ok r | None => Throw URIError end
  | None => Throw URIError
  end.

(** ** Code points and surrogate pairs *)

Definition cp_ok (cp : Z) : Prop := 0 <= cp < 1114112.

Lemma utf8_bytes_range cp : cp_ok cp -> Forall is_byte (utf8_bytes cp).
Proof.
  unfold cp_ok, utf8_bytes, is_byte. intros H.
  repeat case_match; btrue; repeat constructor;
    repeat match goal with
    | |- context [?a mod 64] => pose proof (Z.mod_pos_bound a 64 ltac:(lia)); generalize dependent (a mod 64); intros
    end; try (apply Z.add_nonneg_nonneg; [lia|apply Z.div_pos; lia]); try lia;
    match goal with |- ?k + ?a / ?d < 256 =>
      assert (a / d < 256 - k) by (apply Z.div_lt_upper_bound; lia); lia end.
Qed.

Lemma is_cont_mod x : is_cont (128 + x mod 64) = true.
Proof.
  unfold is_cont. pose proof (Z.mod_pos_bound x 64 ltac:(lia)).
  apply andb_true_iff. split; [apply Z.leb_le|apply Z.ltb_lt]; lia.
Qed.

Lemma utf8_decode_cp cp f rest :
  cp_ok cp -> utf8_decode (S f) (utf8_bytes cp ++ rest) = app (utf16_units cp) <$> utf8_decode f rest.
Proof.
  unfold cp_ok, utf8_bytes. intros H.
  assert (E2 : 64 * (cp / 64) + cp mod 64 = cp) by (symmetry; apply Z.div_mod; lia).
  assert (E3 : 4096 * (cp / 4096) + cp / 64 mod 64 * 64 + cp mod 64 = cp).
  { replace (cp / 4096) with (cp / 64 / 64) by (by rewrite Z.div_div by lia).
    pose proof (Z.div_mod (cp / 64) 64 ltac:(lia)). lia. }
  assert (E4 : 262144 * (cp / 262144) + cp / 4096 mod 64 * 4096 + cp / 64 mod 64 * 64 + cp mod 64 = cp).
  { replace (cp / 262144) with (cp / 4096 / 64) by (by rewrite Z.div_div by lia).
    pose proof (Z.div_mod (cp / 4096) 64 ltac:(lia)). lia. }
  destruct (Z.ltb_spec cp 128); [|destruct (Z.ltb_spec cp 2048); [|destruct (Z.ltb_spec cp 65536)]];
    cbn [app utf8_decode].
  - rewrite (proj2 (Z.ltb_lt cp 128)) by lia. unfold utf16_units.
    rewrite (proj2 (Z.ltb_lt cp 65536)) by lia. by destruct (utf8_decode f rest).
  - assert (2 <= cp / 64 < 32) by (split; [apply Z.div_le_lower_bound|apply Z.div_lt_upper_bound]; lia).
    rewrite (proj2 (Z.ltb_ge (192 + cp / 64) 128)) by lia.
    rewrite (proj2 (Z.ltb_ge (192 + cp / 64) 192)) by lia.
    rewrite (proj2 (Z.ltb_lt (192 + cp / 64) 224)) by lia.
    rewrite is_cont_mod. repeat f_equal. lia.
  - assert (0 <= cp / 4096 < 16) by (split; [apply Z.div_le_lower_bound|apply Z.div_lt_upper_bound]; lia).
    rewrite (proj2 (Z.ltb_ge (224 + cp / 4096) 128)) by lia.
    rewrite (proj2 (Z.ltb_ge (224 + cp / 4096) 192)) by lia.
    rewrite (proj2 (Z.ltb_ge (224 + cp / 4096) 224)) by lia.
    rewrite (proj2 (Z.ltb_lt (224 + cp / 4096) 240)) by lia.
    rewrite !is_cont_mod. cbn [andb]. repeat f_equal. lia.
  - assert (0 <= cp / 262144 < 5) by (split; [apply Z.div_le_lower_bound|apply Z.div_lt_upper_bound]; lia).
    rewrite (proj2 (Z.ltb_ge (240 + cp / 262144) 128)) by lia.
    rewrite (proj2 (Z.ltb_ge (240 + cp / 262144) 192)) by lia.
    rewrite (proj2 (Z.ltb_ge (240 + cp / 262144) 224)) by lia.
    rewrite (proj2 (Z.ltb_ge (240 + cp / 262144) 240)) by lia.
    rewrite !is_cont_mod. cbn [andb]. repeat f_equal. lia.
Qed.

(** ** Percent escapes *)

Lemma hex_upper_unhex d : 0 <= d < 16 -> unhex (hex_upper d) = Some d.
Proof.
  intros. assert (Hd : d ∈ seqZ 0 16) by (apply elem_of_seqZ; lia).
  revert d Hd H. apply (Forall_forall (fun d => 0 <= d < 16 -> unhex (hex_upper d) = Some d)).
  vm_compute seqZ. repeat constructor; intros; reflexivity.
Qed.

Lemma unescape_pct b s : is_byte b -> unescape (pct b ++ s) = cons b <$> unescape s.
Proof.
  unfold is_byte. intros Hb. unfold pct. cbn [app unescape].
  change (chr "%" =? 37) with true. cbn match.
  assert (0 <= b / 16 < 16) by (split; [apply Z.div_pos|apply Z.div_lt_upper_bound]; lia).
  rewrite !hex_upper_unhex by (try apply Z.mod_pos_bound; lia).
  pose proof (Z.div_mod b 16 ltac:(lia)). do 2 f_equal. lia.
Qed.

Lemma unescape_pct_bytes bs s :
  Forall is_byte bs -> unescape (pct_bytes bs ++ s) = app bs <$> unescape s.
Proof.
  induction 1 as [|b bs Hb _ IH].
  - cbn. by destruct (unescape s).
  - change (pct_bytes (b :: bs)) with (pct b ++ pct_bytes bs).
    rewrite <- app_assoc, unescape_pct by done. rewrite IH. by destruct (unescape s).
Qed.

Lemma unreserved_ascii c : uri_unreserved c = true -> 33 <= c < 127 /\ c <> 37.
Proof.
  unfold uri_unreserved. intros [[[H|H]%orb_true_iff|H]%orb_true_iff|H]%orb_true_iff.
  1-3: btrue; lia.
  apply bool_decide_eq_true in H. revert c H.
  apply (Forall_forall (fun c => 33 <= c < 127 /\ c <> 37)). vm_compute. repeat constructor; congruence.
Qed.

(** ** Encoding succeeds exactly on well-formed UTF-16, and decodes back *)

Lemma encode_units_ind (P : jsstr -> Prop) :
  P [] -> (forall c s, P s -> P (c :: s)) -> (forall c d s, P s -> P (c :: d :: s)) ->
  forall s, P s /\ forall c, P (c :: s).
Proof.
  intros H0 H1 H2 s. induction s as [|c s [IH1 IH2]]; split; auto.
Qed.

Lemma lead_not_unreserved c : is_lead c = true -> uri_unreserved c = false /\ is_trail c = false.
Proof.
  unfold is_lead. intros H. btrue. split.
  - destruct (uri_unreserved c) eqn:E; [|done]. apply unreserved_ascii in E. lia.
  - unfold is_trail. destruct (Z.leb_spec 56320 c); [lia|done].
Qed.

Lemma utf16_units_pair c d :
  is_lead c = true -> is_trail d = true ->
  let cp := 65536 + (c - 55296) * 1024 + (d - 56320) in cp_ok cp /\ utf16_units cp = [c; d].
Proof.
  unfold is_lead, is_trail. intros. btrue. cbn zeta. unfold cp_ok, utf16_units. split; [lia|].
  rewrite (proj2 (Z.ltb_ge _ _)) by lia.
  replace (65536 + (c - 55296) * 1024 + (d - 56320) - 65536) with ((d - 56320) + (c - 55296) * 1024) by lia.
  rewrite Z.div_add, Z.mod_add, Z.div_small, Z.mod_small by lia. f_equal; [lia|]. f_equal. lia.
Qed.

(** Encoded text is the escapes of some UTF-8 bytes that decode to the text. *)
Definition encodes_to (s : jsstr) : Prop :=
  wf_utf16 s = true ->
  exists r bs, encodeURIComponent s = Ok r /\ unescape r = Some bs /\
    (exists n, (n <= length bs)%nat /\ forall f, (n <= f)%nat -> utf8_decode f bs = Some s).

Lemma encodes_to_unit c s : is_lead c = false -> encodes_to s -> encodes_to (c :: s).
Proof.
  intros Hlead IH Hwf. cbn [wf_utf16] in Hwf. rewrite Hlead in Hwf. btrue.
  destruct IH as (r & bs & Er & Eu & n & Hn & Ed); [done|].
  cbn [encodeURIComponent]. destruct (uri_unreserved c) eqn:Eun.
  - apply unreserved_ascii in Eun as [Hc Hc']. exists (c :: r), (c :: bs).
    rewrite Er. cbn. rewrite (proj2 (Z.eqb_neq c 37)) by done. rewrite Eu. cbn.
    repeat split. exists (S n). split; [lia|]. intros [|f] Hf; [lia|]. cbn.
    rewrite (proj2 (Z.ltb_lt c 128)) by lia. by rewrite Ed by lia.
  - replace (is_trail c) with false by done. rewrite Hlead, Er. cbn [mbind res_bind].
    assert (Hcp : cp_ok c) by (unfold cp_ok; lia).
    exists (pct_bytes (utf8_bytes c) ++ r), (utf8_bytes c ++ bs). split; [done|]. split.
    + rewrite unescape_pct_bytes by (by apply utf8_bytes_range). by rewrite Eu.
    + exists (S n). assert (1 <= length (utf8_bytes c))%nat.
      { unfold utf8_bytes. repeat case_match; cbn; lia. }
      split; [rewrite length_app; lia|].
      intros [|f] Hf; [lia|]. rewrite utf8_decode_cp, Ed by (done || lia).
      unfold utf16_units. by rewrite (proj2 (Z.ltb_lt c 65536)) by lia.
Qed.

Lemma encodes_to_pair c d s : is_lead c = true -> encodes_to s -> encodes_to (c :: d :: s).
Proof.
  intros Hlead IH Hwf. cbn [wf_utf16] in Hwf. rewrite Hlead in Hwf. apply andb_true_iff in Hwf as [Hd Hwf].
  destruct IH as (r & bs & Er & Eu & n & Hn & Ed); [done|].
  destruct (lead_not_unreserved c Hlead) as [Hu Ht].
  destruct (utf16_units_pair c d Hlead Hd) as [Hcp Hunits]. cbn zeta in *.
  set (cp := 65536 + (c - 55296) * 1024 + (d - 56320)) in *.
  cbn [encodeURIComponent]. rewrite Hu, Ht, Hlead, Hd, Er. cbn [mbind res_bind].
  exists (pct_bytes (utf8_bytes cp) ++ r), (utf8_bytes cp ++ bs). split; [done|]. split.
  - rewrite unescape_pct_bytes by (by apply utf8_bytes_range). by rewrite Eu.
  - exists (S n). assert (1 <= length (utf8_bytes cp))%nat.
    { unfold utf8_bytes. repeat case_match; cbn; lia. }
    split; [rewrite length_app; lia|].
    intros [|f] Hf; [lia|]. rewrite utf8_decode_cp, Ed by (done || lia). by rewrite Hunits.
Qed.

Lemma encodes_to_all s : encodes_to s.
Proof.
  assert (H : forall n s, (length s <= n)%nat -> encodes_to s).
  { induction n as [|n IH]; intros [|c t] Hlen; cbn in Hlen; try lia.
    - intros _. exists [], []. repeat split. exists O. split; [lia|]. by intros [].
    - intros _. exists [], []. repeat split. exists O. split; [lia|]. by intros [].
    - destruct (is_lead c) eqn:E.
      + destruct t as [|d t]; [intros Hwf; cbn in Hwf; rewrite E in Hwf; done|].
        apply encodes_to_pair; [done|]. apply IH. cbn in Hlen. lia.
      + apply encodes_to_unit; [done|]. apply IH. lia. }
  by apply (H (length s)).
Qed.

Lemma encodeURIComponent_roundtrip s :
  wf_utf16 s = true -> exists r, encodeURIComponent s = Ok r /\ decodeURIComponent r = Ok s.
Proof.
  intros H. destruct (encodes_to_all s H) as (r & bs & Er & Eu & n & Hn & Ed).
  exists r. split; [done|]. unfold decodeURIComponent. by rewrite Eu, Ed.
Qed.

#[export] Instance uri_codec : Codec jsstr jsstr := {|
  codec_wf s := wf_utf16 s = true;
  codec_enc := encodeURIComponent;
  codec_dec := decodeURIComponent;
  codec_law := encodeURIComponent_roundtrip
|}.

(** ** What encoded text is made of *)

Definition uri_unit (c : Z) : bool := uri_unreserved c || (c =? 37).

Lemma hex_upper_unreserved d : 0 <= d < 16 -> uri_unreserved (hex_upper d) = true.
Proof.
  intros. assert (Hd : d ∈ seqZ 0 16) by (apply elem_of_seqZ; lia).
  revert d Hd H. apply (Forall_forall (fun d => 0 <= d < 16 -> uri_unreserved (hex_upper d) = true)).
  vm_compute seqZ. repeat constructor; intros; vm_compute; reflexivity.
Qed.

Lemma pct_bytes_units bs : Forall is_byte bs -> Forall (fun c => uri_unit c = true) (pct_bytes bs).
Proof.
  induction 1 as [|b bs Hb _ IH]; [constructor|]. unfold is_byte in Hb.
  assert (0 <= b / 16 < 16) by (split; [apply Z.div_pos|apply Z.div_lt_upper_bound]; lia).
  assert (0 <= b mod 16 < 16) by (apply Z.mod_pos_bound; lia).
  change (pct_bytes (b :: bs)) with (pct b ++ pct_bytes bs). apply Forall_app. split; [|done].
  unfold pct, uri_unit. rewrite !Forall_cons, !hex_upper_unreserved by done. by repeat split.
Qed.

Lemma encodeURIComponent_units s r :
  encodeURIComponent s = Ok r -> Forall is_unit s -> Forall (fun c => uri_unit c = true) r.
Proof.
  assert (H : forall n s r, (length s <= n)%nat -> encodeURIComponent s = Ok r -> Forall is_unit s ->
              Forall (fun c => uri_unit c = true) r).
  { clear s r. induction n as [|n IH]; intros [|c s] r Hlen E Hs; cbn in Hlen; try lia;
      try (cbn in E; simplify_eq; constructor).
    apply Forall_cons in Hs as [Hc Hs]. cbn [encodeURIComponent] in E.
    destruct (uri_unreserved c) eqn:Eu.
    { destruct (encodeURIComponent s) as [r1|] eqn:E1; res_simpl.
      constructor; [unfold uri_unit; by rewrite Eu|]. apply (IH s); [lia|done|done]. }
    destruct (is_trail c) eqn:Et; [done|]. destruct (is_lead c) eqn:El.
    - destruct s as [|d s]; [done|]. destruct (is_trail d) eqn:Ed; [|done].
      destruct (encodeURIComponent s) as [r1|] eqn:E1; res_simpl.
      apply Forall_app. apply Forall_cons in Hs as [_ Hs]. split; [|apply (IH s); [cbn in *; lia|done|done]].
      apply pct_bytes_units, utf8_bytes_range.
      by destruct (utf16_units_pair c d El Ed).
    - destruct (encodeURIComponent s) as [r1|] eqn:E1; res_simpl.
      apply Forall_app. split; [|apply (IH s); [lia|done|done]].
      apply pct_bytes_units, utf8_bytes_range. unfold cp_ok. unfold is_unit in Hc. lia. }
  intros E Hs. by apply (H (length s) s r).
Qed.

(** No delimiter of a URL, no space, quote or [$] survives encoding. *)
Lemma uri_unit_not_in c r :
  uri_unit c = false -> Forall (fun c => uri_unit c = true) r -> c ∉ r.
Proof. intros Hc Hr Hin. rewrite Forall_forall in Hr. specialize (Hr c Hin). congruence. Qed.

Lemma wf_utf16_units s : wf_utf16 s = true -> Forall is_unit s.
Proof.
  assert (H : forall n s, (length s <= n)%nat -> wf_utf16 s = true -> Forall is_unit s).
  { clear s. induction n as [|n IH]; intros [|c s] Hlen Hwf; cbn in Hlen; try lia; try constructor.
    all: cbn [wf_utf16] in Hwf; destruct (is_lead c) eqn:E.
    - unfold is_lead in E. btrue. unfold is_unit. lia.
    - btrue. unfold is_unit. lia.
    - destruct s as [|d s]; [done|]. apply andb_true_iff in Hwf as [Hd Hwf].
      constructor; [unfold is_trail in Hd; btrue; unfold is_unit; lia|]. apply IH; [cbn in *; lia|done].
    - btrue. apply IH; [lia|done]. }
  by apply (H (length s)).
Qed.
