(* ===== verification/Base64.v ===== *)
(** * base64-js

    The module of the bundle that turns bytes into base64 text and back
    (swagger-ui.js, the [base64-js] module).  A call of [decode] on a unit
    outside the alphabet gives [undefined] or a number outside 0..63 exactly
    as the comparisons of the source do; the bit operators read [undefined]
    as 0. *)

From Stdlib Require Import String.
From S2P Require Import Prelude JsNumber JsString.

(** ** The alphabet *)

Definition lookup : jsstr := js "ABCDEFGHIJKLMNOPQRSTUVWXYZabcdefghijklmnopqrstuvwxyz0123456789+/".

Definition PLUS := chr "+".
Definition SLASH := chr "/".
Definition NUMBER := chr "0".
Definition LOWER := chr "a".
Definition UPPER := chr "A".
Definition PLUS_URL_SAFE := chr "-".
Definition SLASH_URL_SAFE := chr "_".

(** [decode(elt)]: [elt] is [charAt] of some position, empty out of range. *)
Definition decode (elt : jsstr) : option Z :=
  match elt with
  | [] => None
  | code :: _ =>
      if (code =? PLUS) || (code =? PLUS_URL_SAFE) then Some 62
      else if (code =? SLASH) || (code =? SLASH_URL_SAFE) then Some 63
      else if code <? NUMBER then Some (-1)
      else if code <? NUMBER + 10 then Some (code - NUMBER + 26 + 26)
      else if code <? UPPER + 26 then Some (code - UPPER)
      else if code <? LOWER + 26 then Some (code - LOWER + 26)
      else None
  end.

Definition num (v : option Z) : Z := default 0 v.

(** ** Text to bytes *)

(** One turn of the loop: four characters starting at [i]. *)
Definition quad (b64 : jsstr) (i : Z) : list Z :=
  let d k := num (decode (charAt b64 (i + k))) in
  let tmp := js_or (js_or (js_or (js_shl (d 0) 18) (js_shl (d 1) 12)) (js_shl (d 2) 6)) (d 3) in
  [js_sar (js_and tmp 16711680) 16; js_sar (js_and tmp 65280) 8; js_and tmp 255].

(** The loop [for (i = 0; i < l; i += 4)], [n] turns from position [i]. *)
Fixpoint quads (b64 : jsstr) (i : Z) (n : nat) : list Z :=
  match n with O => [] | S n' => quad b64 i ++ quads b64 (i + 4) n' end.

Definition placeHolders (b64 : jsstr) : Z :=
  let len := zlength b64 in
  if bool_decide (charAt b64 (len - 2) = js "=") then 2
  else if bool_decide (charAt b64 (len - 1) = js "=") then 1 else 0.

Definition b64ToByteArray (b64 : jsstr) : res (list Z) :=
  let len := zlength b64 in
  _ ← guard_or (negb (0 <? len mod 4)) ErrorMsg;
  let ph := placeHolders b64 in
  let l := if 0 <? ph then len - 4 else len in
  let body := quads b64 0 (Z.to_nat (l / 4)) in
  let d k := num (decode (charAt b64 (l + k))) in
  if ph =? 2 then
    let tmp := js_or (js_shl (d 0) 2) (js_sar (d 1) 4) in
    Ok (body ++ [js_and tmp 255])
  else if ph =? 1 then
    let tmp := js_or (js_or (js_shl (d 0) 10) (js_shl (d 1) 4)) (js_sar (d 2) 2) in
    Ok (body ++ [js_and (js_sar tmp 8) 255; js_and tmp 255])
  else Ok body.

(** ** Bytes to text *)

Definition encode (n : Z) : jsstr := charAt lookup n.

Definition tripletToBase64 (n : Z) : jsstr :=
  encode (js_and (js_sar n 18) 63) ++ encode (js_and (js_sar n 12) 63) ++
  encode (js_and (js_sar n 6) 63) ++ encode (js_and n 63).

(** The loop over the complete triples. *)
Fixpoint triplets (bs : list Z) : jsstr :=
  match bs with
  | a :: b :: c :: bs' => tripletToBase64 (js_shl a 16 + js_shl b 8 + c) ++ triplets bs'
  | _ => []
  end.

Definition uint8ToBase64 (uint8 : list Z) : jsstr :=
  let n := length uint8 in
  let extraBytes := (n mod 3)%nat in
  let output := triplets (take (n - extraBytes) uint8) in
  let byte k := List.nth (n - k) uint8 0 in
  match extraBytes with
  | 1%nat =>
      let temp := byte 1%nat in
      output ++ encode (js_sar temp 2) ++ encode (js_and (js_shl temp 4) 63) ++ js "=="
  | 2%nat =>
      let temp := js_shl (byte 2%nat) 8 + byte 1%nat in
      output ++ encode (js_sar temp 10) ++ encode (js_and (js_sar temp 4) 63) ++
      encode (js_and (js_shl temp 2) 63) ++ js "="
  | _ => output
  end.

(** ** The alphabet is decoded to its positions *)

Definition sextet (d : Z) : Z := List.nth (Z.to_nat d) lookup 0.

Lemma sextets_ok :
  forallb (fun d => bool_decide (encode d = [sextet d]) && bool_decide (decode [sextet d] = Some d)
                    && negb (sextet d =? 61)) (seqZ 0 64) = true.
Proof. vm_compute. reflexivity. Qed.

Lemma sextet_spec d :
  0 <= d < 64 -> encode d = [sextet d] /\ decode [sextet d] = Some d /\ sextet d <> 61.
Proof.
  intros Hd. pose proof sextets_ok as H. rewrite forallb_forall in H.
  specialize (H d). rewrite <- list_elem_of_In, elem_of_seqZ in H.
  specialize (H ltac:(lia)). rewrite !andb_true_iff, !bool_decide_eq_true in H.
  destruct H as [[H1 H2] H3]. btrue. done.
Qed.

(** ** Four sextets and three bytes *)

Lemma charAt_app_at (p s : jsstr) i :
  i = zlength p -> charAt (p ++ s) i = charAt s 0.
Proof.
  intros ->. unfold charAt, zlength. rewrite (proj2 (Z.ltb_ge _ _)) by lia. cbn match.
  rewrite Nat2Z.id, lookup_app_r, Nat.sub_diag by lia. by destruct s.
Qed.

Lemma charAt_cons (c : Z) s k : 0 < k -> charAt (c :: s) k = charAt s (k - 1).
Proof.
  intros. unfold charAt. rewrite !(proj2 (Z.ltb_ge _ _)) by lia.
  replace (Z.to_nat k) with (S (Z.to_nat (k - 1))) by lia. done.
Qed.

(** What the loop body computes from four decoded sextets. *)
Lemma quad_value d0 d1 d2 d3 :
  0 <= d0 < 64 -> 0 <= d1 < 64 -> 0 <= d2 < 64 -> 0 <= d3 < 64 ->
  let tmp := js_or (js_or (js_or (js_shl d0 18) (js_shl d1 12)) (js_shl d2 6)) d3 in
  [js_sar (js_and tmp 16711680) 16; js_sar (js_and tmp 65280) 8; js_and tmp 255] =
  [d0 * 4 + d1 / 16; d1 mod 16 * 16 + d2 / 4; d2 mod 4 * 64 + d3].
Proof.
  intros H0 H1 H2 H3 tmp.
  assert (Ht : tmp = d0 * 262144 + d1 * 4096 + d2 * 64 + d3).
  { subst tmp. rewrite !js_shl_mul by (unfold is_int32; lia).
    rewrite js_or_disjoint by (unfold is_int32; lia).
    replace (d0 * 2 ^ 18 + d1 * 2 ^ 12) with ((d0 * 64 + d1) * 2 ^ 12) by lia.
    rewrite js_or_disjoint by (unfold is_int32; lia).
    replace ((d0 * 64 + d1) * 2 ^ 12 + d2 * 2 ^ 6) with ((d0 * 4096 + d1 * 64 + d2) * 2 ^ 6) by lia.
    rewrite js_or_disjoint by (unfold is_int32; lia). lia. }
  clearbody tmp. subst tmp.
  set (t := d0 * 262144 + d1 * 4096 + d2 * 64 + d3).
  assert (Hr : 0 <= t < 2 ^ 24) by (unfold t; lia).
  change 16711680 with ((2 ^ 8 - 1) * 2 ^ 16). change 65280 with ((2 ^ 8 - 1) * 2 ^ 8).
  rewrite js_and_255, !js_and_field by (unfold is_int32; lia).
  rewrite !js_sar_div
    by (unfold is_int32; try (pose proof (Z.mod_pos_bound (t / 2 ^ 16) (2 ^ 8));
                              pose proof (Z.mod_pos_bound (t / 2 ^ 8) (2 ^ 8))); lia).
  rewrite !Z.div_mul by lia. unfold t. repeat f_equal; Z.div_mod_to_equations; lia.
Qed.

Lemma triplet_sextets a b c :
  is_byte a -> is_byte b -> is_byte c ->
  tripletToBase64 (js_shl a 16 + js_shl b 8 + c) =
  [sextet (a / 4); sextet (a mod 4 * 16 + b / 16); sextet (b mod 16 * 4 + c / 64); sextet (c mod 64)].
Proof.
  unfold is_byte. intros Ha Hb Hc. unfold tripletToBase64.
  rewrite !js_shl_mul by (unfold is_int32; lia).
  rewrite !js_and_63, !js_sar_div by (unfold is_int32; lia).
  replace ((a * 2 ^ 16 + b * 2 ^ 8 + c) / 2 ^ 18 mod 64) with (a / 4) by (Z.div_mod_to_equations; lia).
  replace ((a * 2 ^ 16 + b * 2 ^ 8 + c) / 2 ^ 12 mod 64) with (a mod 4 * 16 + b / 16)
    by (Z.div_mod_to_equations; lia).
  replace ((a * 2 ^ 16 + b * 2 ^ 8 + c) / 2 ^ 6 mod 64) with (b mod 16 * 4 + c / 64)
    by (Z.div_mod_to_equations; lia).
  replace ((a * 2 ^ 16 + b * 2 ^ 8 + c) mod 64) with (c mod 64) by (Z.div_mod_to_equations; lia).
  rewrite !(fun d H => proj1 (sextet_spec d H)) by (Z.div_mod_to_equations; lia). done.
Qed.

(** ** Both directions proceed four characters / three bytes at a time *)

Lemma list_ind3 {A} (P : list A -> Prop) :
  P [] -> (forall a, P [a]) -> (forall a b, P [a; b]) ->
  (forall a b c l, P l -> P (a :: b :: c :: l)) -> forall l, P l.
Proof.
  intros H0 H1 H2 H3. fix IH 1. intros [|a [|b [|c l]]]; [apply H0|apply H1|apply H2|].
  apply H3, IH.
Qed.

Lemma uint8ToBase64_cons3 a b c bs :
  uint8ToBase64 (a :: b :: c :: bs) =
  tripletToBase64 (js_shl a 16 + js_shl b 8 + c) ++ uint8ToBase64 bs.
Proof.
  unfold uint8ToBase64. cbn [length].
  replace (S (S (S (length bs))) mod 3)%nat with (length bs mod 3)%nat
    by (replace (S (S (S (length bs)))) with (length bs + 1 * 3)%nat by lia; by rewrite Nat.Div0.mod_add).
  pose proof (Nat.mod_upper_bound (length bs) 3 ltac:(lia)).
  pose proof (Nat.Div0.mod_le (length bs) 3).
  replace (S (S (S (length bs))) - length bs mod 3)%nat
    with (S (S (S (length bs - length bs mod 3)))) by lia.
  cbn [take triplets].
  destruct (length bs mod 3)%nat as [|[|[|?]]] eqn:E; [done| | |lia].
  - replace (S (S (S (length bs))) - 1)%nat with (S (S (S (length bs - 1)))) by lia.
    cbn [List.nth]. by rewrite <- app_assoc.
  - replace (S (S (S (length bs))) - 2)%nat with (S (S (S (length bs - 2)))) by lia.
    replace (S (S (S (length bs))) - 1)%nat with (S (S (S (length bs - 1)))) by lia.
    cbn [List.nth]. by rewrite <- app_assoc.
Qed.

Lemma charAt_app_shift (p s : jsstr) k : 0 <= k -> charAt (p ++ s) (zlength p + k) = charAt s k.
Proof.
  intros. unfold charAt, zlength.
  destruct (Z.ltb_spec (Z.of_nat (length p) + k) 0), (Z.ltb_spec k 0); [lia..|].
  rewrite lookup_app_r by lia.
  by replace (Z.to_nat (Z.of_nat (length p) + k) - length p)%nat with (Z.to_nat k) by lia.
Qed.

Lemma quad_app p s i : 0 <= i -> quad (p ++ s) (zlength p + i) = quad s i.
Proof.
  intros. unfold quad. rewrite <- !Z.add_assoc, !charAt_app_shift by lia. done.
Qed.

Lemma quads_app p s n i : 0 <= i -> quads (p ++ s) (zlength p + i) n = quads s i n.
Proof.
  revert i. induction n as [|n IH]; intros i Hi; cbn [quads]; [done|].
  rewrite quad_app by done. rewrite <- Z.add_assoc, IH by lia. done.
Qed.

Lemma quads_cons4 s1 s2 s3 s4 t n :
  quads (s1 :: s2 :: s3 :: s4 :: t) 0 (S n) = quad [s1; s2; s3; s4] 0 ++ quads t 0 n.
Proof.
  cbn [quads]. f_equal.
  apply (quads_app [s1; s2; s3; s4] t n 0). lia.
Qed.

Lemma zlength_cons4 s1 s2 s3 s4 t : zlength (s1 :: s2 :: s3 :: s4 :: t) = 4 + zlength t.
Proof. unfold zlength. cbn [length]. lia. Qed.

Lemma placeHolders_cons4 s1 s2 s3 s4 t :
  zlength t mod 4 = 0 -> (t = [] -> s3 <> 61 /\ s4 <> 61) ->
  placeHolders (s1 :: s2 :: s3 :: s4 :: t) = placeHolders t.
Proof.
  intros Ht Hs. destruct t as [|c t'].
  - destruct (Hs eq_refl) as [H3 H4]. unfold placeHolders. cbn.
    rewrite !bool_decide_eq_false_2; [done|intros [=]; done..].
  - set (t := c :: t') in *. unfold placeHolders. rewrite zlength_cons4.
    assert (4 <= zlength t).
    { assert (0 < zlength t) by (unfold zlength, t; cbn; lia). Z.div_mod_to_equations. lia. }
    replace (4 + zlength t - 2) with (zlength [s1; s2; s3; s4] + (zlength t - 2))
      by (change (zlength [s1; s2; s3; s4]) with 4; lia).
    replace (4 + zlength t - 1) with (zlength [s1; s2; s3; s4] + (zlength t - 1))
      by (change (zlength [s1; s2; s3; s4]) with 4; lia).
    change (s1 :: s2 :: s3 :: s4 :: t) with ([s1; s2; s3; s4] ++ t).
    by rewrite !charAt_app_shift by lia.
Qed.

Lemma placeHolders_range s : 0 <= placeHolders s <= 2.
Proof. unfold placeHolders. repeat case_match; lia. Qed.

Lemma placeHolders_len t : zlength t mod 4 = 0 -> 0 < placeHolders t -> 4 <= zlength t.
Proof.
  intros Ht Hp. destruct t as [|c t]; [by vm_compute in Hp|].
  assert (0 < zlength (c :: t)) by (unfold zlength; cbn; lia). Z.div_mod_to_equations. lia.
Qed.

(** A group of four leading characters decodes to three leading bytes. *)
Lemma b64ToByteArray_cons4 s1 s2 s3 s4 t :
  zlength t mod 4 = 0 -> (t = [] -> s3 <> 61 /\ s4 <> 61) ->
  b64ToByteArray (s1 :: s2 :: s3 :: s4 :: t) =
  (r ← b64ToByteArray t; Ok (quad [s1; s2; s3; s4] 0 ++ r)).
Proof.
  intros Ht Hs. unfold b64ToByteArray. rewrite placeHolders_cons4, zlength_cons4 by done.
  replace ((4 + zlength t) mod 4) with 0 by (Z.div_mod_to_equations; lia).
  rewrite Ht. change (negb (0 <? 0)) with true. cbn [guard_or mbind res_bind].
  pose proof (placeHolders_range t).
  set (l := if 0 <? placeHolders t then zlength t - 4 else zlength t).
  replace (if 0 <? placeHolders t then 4 + zlength t - 4 else 4 + zlength t) with (4 + l)
    by (subst l; destruct (0 <? placeHolders t); lia).
  assert (Hl : 0 <= l).
  { subst l. pose proof (placeHolders_len t Ht). unfold zlength in *.
    destruct (Z.ltb_spec 0 (placeHolders t)); lia. }
  replace ((4 + l) / 4) with (1 + l / 4) by (Z.div_mod_to_equations; lia).
  replace (Z.to_nat (1 + l / 4)) with (S (Z.to_nat (l / 4)))
    by (pose proof (Z.div_pos l 4); lia).
  rewrite quads_cons4. change (s1 :: s2 :: s3 :: s4 :: t) with ([s1; s2; s3; s4] ++ t).
  replace (4 + l) with (zlength [s1; s2; s3; s4] + l) by done.
  destruct (placeHolders t =? 2); [|destruct (placeHolders t =? 1)]; cbn [mbind res_bind].
  - rewrite <- !Z.add_assoc, !charAt_app_shift by lia. by rewrite <- app_assoc.
  - rewrite <- !Z.add_assoc, !charAt_app_shift by lia. by rewrite <- app_assoc.
  - done.
Qed.

(** ** Groups of encoded characters *)

Lemma quad_four s1 s2 s3 s4 d0 d1 d2 d3 :
  decode [s1] = Some d0 -> decode [s2] = Some d1 -> decode [s3] = Some d2 -> decode [s4] = Some d3 ->
  0 <= d0 < 64 -> 0 <= d1 < 64 -> 0 <= d2 < 64 -> 0 <= d3 < 64 ->
  quad [s1; s2; s3; s4] 0 = [d0 * 4 + d1 / 16; d1 mod 16 * 16 + d2 / 4; d2 mod 4 * 64 + d3].
Proof.
  intros E0 E1 E2 E3 H0 H1 H2 H3. rewrite <- quad_value by done. unfold quad.
  replace (charAt [s1; s2; s3; s4] (0 + 0)) with [s1] by done.
  replace (charAt [s1; s2; s3; s4] (0 + 1)) with [s2] by done.
  replace (charAt [s1; s2; s3; s4] (0 + 2)) with [s3] by done.
  replace (charAt [s1; s2; s3; s4] (0 + 3)) with [s4] by done.
  by rewrite E0, E1, E2, E3.
Qed.

Lemma padded_two s1 s2 d0 d1 :
  decode [s1] = Some d0 -> decode [s2] = Some d1 -> 0 <= d0 < 64 -> 0 <= d1 < 64 ->
  b64ToByteArray [s1; s2; 61; 61] = Ok [d0 * 4 + d1 / 16].
Proof.
  intros E0 E1 H0 H1. unfold b64ToByteArray.
  change (placeHolders [s1; s2; 61; 61]) with 2.
  change (zlength [s1; s2; 61; 61]) with 4. cbn [guard_or mbind res_bind].
  change (quads _ 0 _) with (@nil Z).
  replace (charAt [s1; s2; 61; 61] ((if 0 <? 2 then 4 - 4 else 4) + 0)) with [s1] by done.
  replace (charAt [s1; s2; 61; 61] ((if 0 <? 2 then 4 - 4 else 4) + 1)) with [s2] by done.
  rewrite E0, E1. cbn. rewrite js_shl_mul, js_sar_div by (unfold is_int32; lia).
  assert (0 <= d1 / 2 ^ 4 < 2 ^ 2) by (Z.div_mod_to_equations; lia).
  rewrite js_or_disjoint by (unfold is_int32; lia).
  rewrite js_and_255, Z.mod_small by lia. done.
Qed.

Lemma padded_one s1 s2 s3 d0 d1 d2 :
  decode [s1] = Some d0 -> decode [s2] = Some d1 -> decode [s3] = Some d2 -> s3 <> 61 ->
  0 <= d0 < 64 -> 0 <= d1 < 64 -> 0 <= d2 < 64 ->
  b64ToByteArray [s1; s2; s3; 61] = Ok [d0 * 4 + d1 / 16; d1 mod 16 * 16 + d2 / 4].
Proof.
  intros E0 E1 E2 N3 H0 H1 H2. unfold b64ToByteArray.
  replace (placeHolders [s1; s2; s3; 61]) with 1.
  2: { unfold placeHolders. change (charAt _ (_ - 2)) with [s3]. change (charAt _ (_ - 1)) with [61].
       rewrite bool_decide_eq_false_2 by (intros [=]; done). done. }
  change (zlength [s1; s2; s3; 61]) with 4. cbn [guard_or mbind res_bind].
  change (quads _ 0 _) with (@nil Z).
  replace (charAt [s1; s2; s3; 61] ((if 0 <? 1 then 4 - 4 else 4) + 0)) with [s1] by done.
  replace (charAt [s1; s2; s3; 61] ((if 0 <? 1 then 4 - 4 else 4) + 1)) with [s2] by done.
  replace (charAt [s1; s2; s3; 61] ((if 0 <? 1 then 4 - 4 else 4) + 2)) with [s3] by done.
  rewrite E0, E1, E2. cbn. rewrite !js_shl_mul, (js_sar_div d2) by (unfold is_int32; lia).
  rewrite js_or_disjoint by (unfold is_int32; lia).
  assert (0 <= d2 / 2 ^ 2 < 2 ^ 4) by (Z.div_mod_to_equations; lia).
  replace (d0 * 2 ^ 10 + d1 * 2 ^ 4) with ((d0 * 64 + d1) * 2 ^ 4) by lia.
  rewrite js_or_disjoint by (unfold is_int32; lia).
  rewrite js_sar_div, !js_and_255 by (unfold is_int32; lia).
  change (2 ^ 8) with 256. change (2 ^ 4) with 16. change (2 ^ 2) with 4.
  replace (((d0 * 64 + d1) * 16 + d2 / 4) / 256) with (d0 * 4 + d1 / 16) by (Z.div_mod_to_equations; lia).
  rewrite Z.mod_small by (Z.div_mod_to_equations; lia).
  replace (((d0 * 64 + d1) * 16 + d2 / 4) mod 256) with (d1 mod 16 * 16 + d2 / 4)
    by (Z.div_mod_to_equations; lia).
  done.
Qed.

(** ** Decoding gives back the encoded bytes *)

Lemma triplet_of_bytes a b c :
  is_byte a -> is_byte b -> is_byte c -> exists s1 s2 s3 s4,
    tripletToBase64 (js_shl a 16 + js_shl b 8 + c) = [s1; s2; s3; s4] /\
    s3 <> 61 /\ s4 <> 61 /\ quad [s1; s2; s3; s4] 0 = [a; b; c].
Proof.
  intros Ha Hb Hc. rewrite triplet_sextets by done. unfold is_byte in *.
  destruct (sextet_spec (a / 4) ltac:(Z.div_mod_to_equations; lia)) as (_ & D0 & _).
  destruct (sextet_spec (a mod 4 * 16 + b / 16) ltac:(Z.div_mod_to_equations; lia)) as (_ & D1 & _).
  destruct (sextet_spec (b mod 16 * 4 + c / 64) ltac:(Z.div_mod_to_equations; lia)) as (_ & D2 & N2).
  destruct (sextet_spec (c mod 64) ltac:(Z.div_mod_to_equations; lia)) as (_ & D3 & N3).
  do 4 eexists. split; [done|]. split; [done|]. split; [done|].
  rewrite (quad_four _ _ _ _ _ _ _ _ D0 D1 D2 D3) by (Z.div_mod_to_equations; lia).
  repeat f_equal; Z.div_mod_to_equations; lia.
Qed.

Lemma uint8ToBase64_tail1 a :
  uint8ToBase64 [a] = encode (js_sar a 2) ++ encode (js_and (js_shl a 4) 63) ++ js "==".
Proof.
  unfold uint8ToBase64. cbv zeta. change (length [a]) with 1%nat. change (1 mod 3)%nat with 1%nat.
  cbv iota. change (triplets (take (1 - 1) [a])) with (@nil Z).
  change (List.nth (1 - 1) [a] 0) with a. by rewrite app_nil_l.
Qed.

Lemma uint8ToBase64_tail2 a b :
  uint8ToBase64 [a; b] =
  encode (js_sar (js_shl a 8 + b) 10) ++ encode (js_and (js_sar (js_shl a 8 + b) 4) 63) ++
  encode (js_and (js_shl (js_shl a 8 + b) 2) 63) ++ js "=".
Proof.
  unfold uint8ToBase64. cbv zeta. change (length [a; b]) with 2%nat. change (2 mod 3)%nat with 2%nat.
  cbv iota. change (triplets (take (2 - 2) [a; b])) with (@nil Z).
  change (List.nth (2 - 2) [a; b] 0) with a. change (List.nth (2 - 1) [a; b] 0) with b.
  by rewrite app_nil_l.
Qed.

Lemma uint8ToBase64_1 a :
  is_byte a -> uint8ToBase64 [a] = [sextet (a / 4); sextet (a mod 4 * 16); 61; 61].
Proof.
  unfold is_byte. intros Ha. rewrite uint8ToBase64_tail1.
  rewrite js_sar_div, js_shl_mul, js_and_63 by (unfold is_int32; lia).
  replace (a * 2 ^ 4 mod 64) with (a mod 4 * 16) by (Z.div_mod_to_equations; lia).
  change (2 ^ 2) with 4.
  rewrite !(fun d H => proj1 (sextet_spec d H)) by (Z.div_mod_to_equations; lia). done.
Qed.

Lemma uint8ToBase64_2 a b :
  is_byte a -> is_byte b -> uint8ToBase64 [a; b] =
  [sextet (a / 4); sextet (a mod 4 * 16 + b / 16); sextet (b mod 16 * 4); 61].
Proof.
  unfold is_byte. intros Ha Hb. rewrite uint8ToBase64_tail2.
  rewrite !js_shl_mul by (unfold is_int32; lia).
  rewrite !js_sar_div, !js_and_63 by (unfold is_int32; lia).
  replace ((a * 2 ^ 8 + b) / 2 ^ 10) with (a / 4) by (Z.div_mod_to_equations; lia).
  replace ((a * 2 ^ 8 + b) / 2 ^ 4 mod 64) with (a mod 4 * 16 + b / 16) by (Z.div_mod_to_equations; lia).
  replace ((a * 2 ^ 8 + b) * 2 ^ 2 mod 64) with (b mod 16 * 4) by (Z.div_mod_to_equations; lia).
  rewrite !(fun d H => proj1 (sextet_spec d H)) by (Z.div_mod_to_equations; lia). done.
Qed.

Lemma base64_roundtrip_len bs :
  Forall is_byte bs ->
  b64ToByteArray (uint8ToBase64 bs) = Ok bs /\ zlength (uint8ToBase64 bs) mod 4 = 0 /\
  (uint8ToBase64 bs = [] -> bs = []).
Proof.
  induction bs as [|a|a b|a b c bs IH] using list_ind3; intros Hbs.
  - by vm_compute.
  - apply Forall_cons in Hbs as [Ha _]. rewrite uint8ToBase64_1 by done.
    split; [|split; done]. unfold is_byte in Ha.
    destruct (sextet_spec (a / 4) ltac:(Z.div_mod_to_equations; lia)) as (_ & D0 & _).
    destruct (sextet_spec (a mod 4 * 16) ltac:(Z.div_mod_to_equations; lia)) as (_ & D1 & _).
    rewrite (padded_two _ _ _ _ D0 D1) by (Z.div_mod_to_equations; lia).
    repeat f_equal. Z.div_mod_to_equations; lia.
  - apply Forall_cons in Hbs as [Ha [Hb _]%Forall_cons]. rewrite uint8ToBase64_2 by done.
    split; [|split; done]. unfold is_byte in *.
    destruct (sextet_spec (a / 4) ltac:(Z.div_mod_to_equations; lia)) as (_ & D0 & _).
    destruct (sextet_spec (a mod 4 * 16 + b / 16) ltac:(Z.div_mod_to_equations; lia)) as (_ & D1 & _).
    destruct (sextet_spec (b mod 16 * 4) ltac:(Z.div_mod_to_equations; lia)) as (_ & D2 & N2).
    rewrite (padded_one _ _ _ _ _ _ D0 D1 D2 N2) by (Z.div_mod_to_equations; lia).
    repeat f_equal; Z.div_mod_to_equations; lia.
  - apply Forall_cons in Hbs as [Ha [Hb [Hc Hbs]%Forall_cons]%Forall_cons].
    destruct (IH Hbs) as (IH1 & IH2 & IH3).
    rewrite uint8ToBase64_cons3.
    destruct (triplet_of_bytes a b c) as (s1 & s2 & s3 & s4 & -> & N3 & N4 & Eq); [done..|].
    cbn [app]. rewrite b64ToByteArray_cons4 by done. rewrite IH1, Eq. cbn [mbind res_bind].
    split; [done|]. rewrite zlength_cons4. split; [Z.div_mod_to_equations; lia|done].
Qed.

(** The law of the codec: any byte array survives the trip through text. *)
Lemma base64_law bs :
  Forall is_byte bs -> exists t, Ok (uint8ToBase64 bs) = Ok t /\ b64ToByteArray t = Ok bs.
Proof. intros H. eexists. split; [done|]. by apply base64_roundtrip_len. Qed.

#[export] Instance base64_codec : Codec (list Z) jsstr := {|
  codec_wf := Forall is_byte;
  codec_enc bs := Ok (uint8ToBase64 bs);
  codec_dec := b64ToByteArray;
  codec_law := base64_law
|}.

(** ** Decoded bytes are bytes, whatever the text *)

Lemma js_and_255_byte v : is_byte (js_and v 255).
Proof. rewrite js_and_255. apply Z.mod_pos_bound. lia. Qed.

Lemma js_sar_field v k :
  0 <= k -> k + 8 <= 31 -> is_int32 v -> is_byte (js_sar (js_and v ((2 ^ 8 - 1) * 2 ^ k)) k).
Proof.
  intros Hk Hk8 Hv. rewrite js_and_field by (lia || done).
  pose proof (Z.mod_pos_bound (v / 2 ^ k) (2 ^ 8) ltac:(lia)).
  assert (0 < 2 ^ k) by lia.
  assert (2 ^ k * 2 ^ 8 <= 2 ^ 31) by (rewrite <- Z.pow_add_r by lia; apply Z.pow_le_mono_r; lia).
  assert ((v / 2 ^ k) mod 2 ^ 8 * 2 ^ k <= (2 ^ 8 - 1) * 2 ^ k) by (apply Z.mul_le_mono_nonneg_r; lia).
  assert (0 <= (v / 2 ^ k) mod 2 ^ 8 * 2 ^ k) by (apply Z.mul_nonneg_nonneg; lia).
  rewrite js_sar_div by (unfold is_int32; lia). rewrite Z.div_mul by lia. unfold is_byte. lia.
Qed.

Lemma js_or_int32 a b : is_int32 (js_or a b).
Proof. apply to_int32_range. Qed.

Lemma quads_bytes s i n : Forall is_byte (quads s i n).
Proof.
  revert i. induction n as [|n IH]; intros i; [constructor|].
  apply Forall_app. split; [|apply IH]. unfold quad. rewrite !Forall_cons. split; [|split; [|split]].
  - apply (js_sar_field _ 16); [lia..|apply js_or_int32].
  - apply (js_sar_field _ 8); [lia..|apply js_or_int32].
  - apply js_and_255_byte.
  - constructor.
Qed.

Lemma b64ToByteArray_bytes s bs : b64ToByteArray s = Ok bs -> Forall is_byte bs.
Proof.
  unfold b64ToByteArray. intros (? & _ & E)%bind_ok. cbv zeta in E.
  repeat case_match; simplify_eq; try apply Forall_app; try split; try apply quads_bytes;
    repeat (apply Forall_cons; split; [apply js_and_255_byte|]); try constructor.
Qed.

(** C9. Encoding any byte array to base64 text and decoding the text gives
    the array back; the text's length is a multiple of 4. *)
Theorem base64_roundtrip bs :
  Forall is_byte bs ->
  b64ToByteArray (uint8ToBase64 bs) = Ok bs /\ zlength (uint8ToBase64 bs) mod 4 = 0.
Proof. intros H. by destruct (base64_roundtrip_len bs H) as (? & ? & _). Qed.

Lemma base64_roundtrip_witness :
  b64ToByteArray (uint8ToBase64 [0; 255; 16; 127]) = Ok [0; 255; 16; 127] /\
  zlength (uint8ToBase64 [0; 255; 16; 127]) mod 4 = 0.
Proof. apply (base64_roundtrip [0; 255; 16; 127]). repeat constructor; done. Defined.
