(* ===== verification/BufferInt.v ===== *)
(** * The Buffer module: integers

    Reading and writing integers of 1 to 6 bytes (swagger-ui.js, the
    [buffer] module).  A buffer is its list of bytes.  [typed] is the
    module's [Buffer.TYPED_ARRAY_SUPPORT] flag: with it a store keeps the low
    8 bits, without it the stored number is kept as it is.  A store outside the
    array is ignored.  A read outside the array is [undefined], which the
    arithmetic operators turn into NaN and the bit operators into 0; [None]
    stands for both.  Offsets, lengths and values are integers, and the sums
    of the readers stay below [2^53] for at most 6 bytes. *)

From S2P Require Import Prelude JsNumber JsString.

Abbreviation bytes := (list Z).

(** ** Element access *)

Definition at_ (b : bytes) (i : Z) : option Z := if i <? 0 then None else b !! Z.to_nat i.
(** An element as the operand of a bit operator. *)
Definition bit (v : option Z) : Z := default 0 v.
(** An element as the operand of [+] and [*]. *)
Definition addn (a b : option Z) : option Z := x ← a; y ← b; Some (x + y).
Definition muln (a : option Z) (k : Z) : option Z := (fun x => x * k) <$> a.

(** ** Reading *)

Definition checkOffset (offset ext length : Z) : res unit :=
  _ ← guard_or (negb (offset <? 0)) RangeError;
  guard_or (negb (length <? offset + ext)) RangeError.

Definition assert_read (noAssert : bool) (b : bytes) (offset ext : Z) : res unit :=
  if noAssert then Ok tt else checkOffset offset ext (zlength b).

(** [while (++i < byteLength && (mul *= 0x100)) val += this[offset + i] * mul],
    [n] turns left. *)
Fixpoint sum_up (n : nat) (b : bytes) (offset i mul : Z) (val : option Z) : Z * option Z :=
  match n with
  | O => (mul, val)
  | S n' => let i' := i + 1 in let mul' := mul * 256 in
            sum_up n' b offset i' mul' (addn val (muln (at_ b (offset + i')) mul'))
  end.

Definition readUIntLE (b : bytes) (offset byteLength : Z) (noAssert : bool) : res (option Z) :=
  let offset := to_int32 offset in
  let byteLength := to_int32 byteLength in
  _ ← assert_read noAssert b offset byteLength;
  Ok (sum_up (Z.to_nat (byteLength - 1)) b offset 0 1 (at_ b offset)).2.

(** [while (byteLength > 0 && (mul *= 0x100)) val += this[offset + --byteLength] * mul]. *)
Fixpoint sum_down (n : nat) (b : bytes) (offset byteLength mul : Z) (val : option Z) : Z * option Z :=
  match n with
  | O => (mul, val)
  | S n' => let l' := byteLength - 1 in let mul' := mul * 256 in
            sum_down n' b offset l' mul' (addn val (muln (at_ b (offset + l')) mul'))
  end.

Definition readUIntBE (b : bytes) (offset byteLength : Z) (noAssert : bool) : res (option Z) :=
  let offset := to_int32 offset in
  let byteLength := to_int32 byteLength in
  _ ← assert_read noAssert b offset byteLength;
  let l := byteLength - 1 in
  Ok (sum_down (Z.to_nat l) b offset l 1 (at_ b (offset + l))).2.

Definition readUInt8 (b : bytes) (offset : Z) (noAssert : bool) : res (option Z) :=
  _ ← assert_read noAssert b offset 1;
  Ok (at_ b offset).

Definition readUInt16LE (b : bytes) (offset : Z) (noAssert : bool) : res (option Z) :=
  _ ← assert_read noAssert b offset 2;
  Ok (Some (js_or (bit (at_ b offset)) (js_shl (bit (at_ b (offset + 1))) 8))).

Definition readUInt16BE (b : bytes) (offset : Z) (noAssert : bool) : res (option Z) :=
  _ ← assert_read noAssert b offset 2;
  Ok (Some (js_or (js_shl (bit (at_ b offset)) 8) (bit (at_ b (offset + 1))))).

Definition readUInt32LE (b : bytes) (offset : Z) (noAssert : bool) : res (option Z) :=
  _ ← assert_read noAssert b offset 4;
  Ok (addn (Some (js_or (js_or (bit (at_ b offset)) (js_shl (bit (at_ b (offset + 1))) 8))
                        (js_shl (bit (at_ b (offset + 2))) 16)))
           (muln (at_ b (offset + 3)) 16777216)).

Definition readUInt32BE (b : bytes) (offset : Z) (noAssert : bool) : res (option Z) :=
  _ ← assert_read noAssert b offset 4;
  Ok (addn (muln (at_ b offset) 16777216)
           (Some (js_or (js_or (js_shl (bit (at_ b (offset + 1))) 16)
                               (js_shl (bit (at_ b (offset + 2))) 8))
                        (bit (at_ b (offset + 3)))))).

(** The sign correction shared by [readIntLE] and [readIntBE]. *)
Definition sign_fix (byteLength : Z) (mv : Z * option Z) : option Z :=
  let mul := mv.1 * 128 in
  (fun val => if mul <=? val then val - 2 ^ (8 * byteLength) else val) <$> mv.2.

Definition readIntLE (b : bytes) (offset byteLength : Z) (noAssert : bool) : res (option Z) :=
  let offset := to_int32 offset in
  let byteLength := to_int32 byteLength in
  _ ← assert_read noAssert b offset byteLength;
  Ok (sign_fix byteLength (sum_up (Z.to_nat (byteLength - 1)) b offset 0 1 (at_ b offset))).

Definition readIntBE (b : bytes) (offset byteLength : Z) (noAssert : bool) : res (option Z) :=
  let offset := to_int32 offset in
  let byteLength := to_int32 byteLength in
  _ ← assert_read noAssert b offset byteLength;
  let i := byteLength - 1 in
  Ok (sign_fix byteLength (sum_down (Z.to_nat i) b offset i 1 (at_ b (offset + i)))).

Definition readInt8 (b : bytes) (offset : Z) (noAssert : bool) : res (option Z) :=
  _ ← assert_read noAssert b offset 1;
  let v := at_ b offset in
  if js_and (bit v) 128 =? 0 then Ok v
  else Ok ((fun x => (255 - x + 1) * -1) <$> v).

Definition sign16 (val : Z) : Z :=
  if js_and val 32768 =? 0 then val else js_or val 4294901760.

Definition readInt16LE (b : bytes) (offset : Z) (noAssert : bool) : res (option Z) :=
  _ ← assert_read noAssert b offset 2;
  Ok (Some (sign16 (js_or (bit (at_ b offset)) (js_shl (bit (at_ b (offset + 1))) 8)))).

Definition readInt16BE (b : bytes) (offset : Z) (noAssert : bool) : res (option Z) :=
  _ ← assert_read noAssert b offset 2;
  Ok (Some (sign16 (js_or (bit (at_ b (offset + 1))) (js_shl (bit (at_ b offset)) 8)))).

Definition readInt32LE (b : bytes) (offset : Z) (noAssert : bool) : res (option Z) :=
  _ ← assert_read noAssert b offset 4;
  Ok (Some (js_or (js_or (js_or (bit (at_ b offset)) (js_shl (bit (at_ b (offset + 1))) 8))
                         (js_shl (bit (at_ b (offset + 2))) 16))
                  (js_shl (bit (at_ b (offset + 3))) 24))).

Definition readInt32BE (b : bytes) (offset : Z) (noAssert : bool) : res (option Z) :=
  _ ← assert_read noAssert b offset 4;
  Ok (Some (js_or (js_or (js_or (js_shl (bit (at_ b offset)) 24) (js_shl (bit (at_ b (offset + 1))) 16))
                         (js_shl (bit (at_ b (offset + 2))) 8))
                  (bit (at_ b (offset + 3))))).

(** ** Writing *)

Section Writers.
Variable typed : bool.

(** [this[i] = v]. *)
Definition set_ (b : bytes) (i v : Z) : bytes :=
  if i <? 0 then b else <[Z.to_nat i := if typed then to_uint8 v else v]> b.

Definition checkInt (b : bytes) (value offset ext max min : Z) : res unit :=
  _ ← guard_or (negb ((max <? value) || (value <? min))) RangeError;
  guard_or (negb (zlength b <? offset + ext)) RangeError.

Definition assert_write (noAssert : bool) (b : bytes) (value offset ext max min : Z) : res unit :=
  if noAssert then Ok tt else checkInt b value offset ext max min.

(** [while (++i < byteLength && (mul *= 0x100)) this[offset + i] = (value / mul) & 0xFF]. *)
Fixpoint store_up (n : nat) (b : bytes) (byte_of : Z -> Z) (offset i mul : Z) : bytes :=
  match n with
  | O => b
  | S n' => let i' := i + 1 in let mul' := mul * 256 in
            store_up n' (set_ b (offset + i') (byte_of mul')) byte_of offset i' mul'
  end.

(** [while (--i >= 0 && (mul *= 0x100)) this[offset + i] = ...]. *)
Fixpoint store_down (n : nat) (b : bytes) (byte_of : Z -> Z) (offset i mul : Z) : bytes :=
  match n with
  | O => b
  | S n' => let i' := i - 1 in let mul' := mul * 256 in
            store_down n' (set_ b (offset + i') (byte_of mul')) byte_of offset i' mul'
  end.

Definition uint_byte (value mul : Z) : Z := js_and (Z.quot value mul) 255.
Definition int_byte (value mul : Z) : Z :=
  let sub := if value <? 0 then 1 else 0 in
  js_and (js_sar (Z.quot value mul) 0 - sub) 255.

Definition writeUIntLE (b : bytes) (value offset byteLength : Z) (noAssert : bool) : res (bytes * Z) :=
  let offset := to_int32 offset in
  let byteLength := to_int32 byteLength in
  _ ← assert_write noAssert b value offset byteLength (2 ^ (8 * byteLength)) 0;
  let b := set_ b offset (js_and value 255) in
  Ok (store_up (Z.to_nat (byteLength - 1)) b (uint_byte value) offset 0 1, offset + byteLength).

Definition writeUIntBE (b : bytes) (value offset byteLength : Z) (noAssert : bool) : res (bytes * Z) :=
  let offset := to_int32 offset in
  let byteLength := to_int32 byteLength in
  _ ← assert_write noAssert b value offset byteLength (2 ^ (8 * byteLength)) 0;
  let i := byteLength - 1 in
  let b := set_ b (offset + i) (js_and value 255) in
  Ok (store_down (Z.to_nat i) b (uint_byte value) offset i 1, offset + byteLength).

Definition writeIntLE (b : bytes) (value offset byteLength : Z) (noAssert : bool) : res (bytes * Z) :=
  let offset := to_int32 offset in
  let limit := 2 ^ (8 * byteLength - 1) in
  _ ← assert_write noAssert b value offset byteLength (limit - 1) (- limit);
  let b := set_ b offset (js_and value 255) in
  Ok (store_up (Z.to_nat (byteLength - 1)) b (int_byte value) offset 0 1, offset + byteLength).

Definition writeIntBE (b : bytes) (value offset byteLength : Z) (noAssert : bool) : res (bytes * Z) :=
  let offset := to_int32 offset in
  let limit := 2 ^ (8 * byteLength - 1) in
  _ ← assert_write noAssert b value offset byteLength (limit - 1) (- limit);
  let i := byteLength - 1 in
  let b := set_ b (offset + i) (js_and value 255) in
  Ok (store_down (Z.to_nat i) b (int_byte value) offset i 1, offset + byteLength).

Definition writeUInt8 (b : bytes) (value offset : Z) (noAssert : bool) : res (bytes * Z) :=
  let offset := to_int32 offset in
  _ ← assert_write noAssert b value offset 1 255 0;
  Ok (set_ b offset value, offset + 1).

Definition writeInt8 (b : bytes) (value offset : Z) (noAssert : bool) : res (bytes * Z) :=
  let offset := to_int32 offset in
  _ ← assert_write noAssert b value offset 1 127 (-128);
  let value := if value <? 0 then 255 + value + 1 else value in
  Ok (set_ b offset value, offset + 1).

(** The stores of the fallback without typed arrays: [j] bytes from the
    [i]-th on, at most up to the end of the buffer. *)
Fixpoint object_stores (j : nat) (i : Z) (b : bytes) (offset : Z) (byte_at : Z -> Z) : bytes :=
  match j with
  | O => b
  | S j' => object_stores j' (i + 1) (set_ b (offset + i) (byte_at i)) offset byte_at
  end.

Definition objectWriteUInt16 (b : bytes) (value offset : Z) (littleEndian : bool) : bytes :=
  let value := if value <? 0 then 65535 + value + 1 else value in
  object_stores (Z.to_nat (Z.min (zlength b - offset) 2)) 0 b offset
    (fun i => let k := if littleEndian then i else 1 - i in
              js_shr (js_and value (js_shl 255 (8 * k))) (k * 8)).

Definition objectWriteUInt32 (b : bytes) (value offset : Z) (littleEndian : bool) : bytes :=
  let value := if value <? 0 then 4294967295 + value + 1 else value in
  object_stores (Z.to_nat (Z.min (zlength b - offset) 4)) 0 b offset
    (fun i => js_and (js_shr value ((if littleEndian then i else 3 - i) * 8)) 255).

(** The typed-array stores of the fixed-width writers. *)
Definition typed16LE (b : bytes) (value offset : Z) : bytes :=
  set_ (set_ b offset value) (offset + 1) (js_shr value 8).
Definition typed16BE (b : bytes) (value offset : Z) : bytes :=
  set_ (set_ b offset (js_shr value 8)) (offset + 1) value.
Definition typed32LE (b : bytes) (value offset : Z) : bytes :=
  set_ (set_ (set_ (set_ b (offset + 3) (js_shr value 24)) (offset + 2) (js_shr value 16))
             (offset + 1) (js_shr value 8)) offset value.
Definition typed32BE (b : bytes) (value offset : Z) : bytes :=
  set_ (set_ (set_ (set_ b offset (js_shr value 24)) (offset + 1) (js_shr value 16))
             (offset + 2) (js_shr value 8)) (offset + 3) value.
Definition typed32LE_up (b : bytes) (value offset : Z) : bytes :=
  set_ (set_ (set_ (set_ b offset value) (offset + 1) (js_shr value 8))
             (offset + 2) (js_shr value 16)) (offset + 3) (js_shr value 24).

Definition writeUInt16LE (b : bytes) (value offset : Z) (noAssert : bool) : res (bytes * Z) :=
  let offset := to_int32 offset in
  _ ← assert_write noAssert b value offset 2 65535 0;
  Ok (if typed then typed16LE b value offset else objectWriteUInt16 b value offset true, offset + 2).

Definition writeUInt16BE (b : bytes) (value offset : Z) (noAssert : bool) : res (bytes * Z) :=
  let offset := to_int32 offset in
  _ ← assert_write noAssert b value offset 2 65535 0;
  Ok (if typed then typed16BE b value offset else objectWriteUInt16 b value offset false, offset + 2).

Definition writeUInt32LE (b : bytes) (value offset : Z) (noAssert : bool) : res (bytes * Z) :=
  let offset := to_int32 offset in
  _ ← assert_write noAssert b value offset 4 4294967295 0;
  Ok (if typed then typed32LE b value offset else objectWriteUInt32 b value offset true, offset + 4).

Definition writeUInt32BE (b : bytes) (value offset : Z) (noAssert : bool) : res (bytes * Z) :=
  let offset := to_int32 offset in
  _ ← assert_write noAssert b value offset 4 4294967295 0;
  Ok (if typed then typed32BE b value offset else objectWriteUInt32 b value offset false, offset + 4).

Definition writeInt16LE (b : bytes) (value offset : Z) (noAssert : bool) : res (bytes * Z) :=
  let offset := to_int32 offset in
  _ ← assert_write noAssert b value offset 2 32767 (-32768);
  Ok (if typed then typed16LE b value offset else objectWriteUInt16 b value offset true, offset + 2).

Definition writeInt16BE (b : bytes) (value offset : Z) (noAssert : bool) : res (bytes * Z) :=
  let offset := to_int32 offset in
  _ ← assert_write noAssert b value offset 2 32767 (-32768);
  Ok (if typed then typed16BE b value offset else objectWriteUInt16 b value offset false, offset + 2).

Definition writeInt32LE (b : bytes) (value offset : Z) (noAssert : bool) : res (bytes * Z) :=
  let offset := to_int32 offset in
  _ ← assert_write noAssert b value offset 4 2147483647 (-2147483648);
  Ok (if typed then typed32LE_up b value offset else objectWriteUInt32 b value offset true, offset + 4).

Definition writeInt32BE (b : bytes) (value offset : Z) (noAssert : bool) : res (bytes * Z) :=
  let offset := to_int32 offset in
  _ ← assert_write noAssert b value offset 4 2147483647 (-2147483648);
  let value := if value <? 0 then 4294967295 + value + 1 else value in
  Ok (if typed then typed32BE b value offset else objectWriteUInt32 b value offset false, offset + 4).
End Writers.

(** ** The accessors as one family

    Every reader has a writer; [accessor] names the pairs, with their
    width, the values they hold and their byte order. *)

Inductive accessor :=
| AUInt8 | AInt8
| AUInt16 (le : bool) | AInt16 (le : bool)
| AUInt32 (le : bool) | AInt32 (le : bool)
| AUInt (le : bool) (n : nat) | AInt (le : bool) (n : nat).

Definition acc_size (a : accessor) : nat :=
  match a with
  | AUInt8 | AInt8 => 1
  | AUInt16 _ | AInt16 _ => 2
  | AUInt32 _ | AInt32 _ => 4
  | AUInt _ n | AInt _ n => n
  end.
Definition acc_signed (a : accessor) : bool :=
  match a with AInt8 | AInt16 _ | AInt32 _ | AInt _ _ => true | _ => false end.
Definition acc_le (a : accessor) : bool :=
  match a with
  | AUInt8 | AInt8 => true
  | AUInt16 le | AInt16 le | AUInt32 le | AInt32 le | AUInt le _ | AInt le _ => le
  end.
(** The variable-width pairs are for 1 to 6 bytes. *)
Definition acc_ok (a : accessor) : Prop :=
  match a with AUInt _ n | AInt _ n => (1 <= n <= 6)%nat | _ => True end.
Definition acc_bits (a : accessor) : Z := 8 * Z.of_nat (acc_size a).
(** The values an accessor can hold. *)
Definition acc_range (a : accessor) (v : Z) : Prop :=
  if acc_signed a then - 2 ^ (acc_bits a - 1) <= v < 2 ^ (acc_bits a - 1)
  else 0 <= v < 2 ^ acc_bits a.
(** What the variable-width signed writers get right (see
    [writeIntLE_borrow]): a negative value of two or more bytes must not be
    a multiple of 256.  Of such a value they store the bytes of the multiple
    before it. *)
Definition acc_exact (a : accessor) (v : Z) : Prop :=
  match a with AInt _ n => 0 <= v \/ v mod 256 <> 0 \/ n = 1%nat | _ => True end.
Definition acc_stored (a : accessor) (v : Z) : Z :=
  match a with
  | AInt _ n => if (v <? 0) && (v mod 256 =? 0) && negb (n =? 1)%nat then v - 256 else v
  | _ => v
  end.

Definition acc_read (a : accessor) (b : bytes) (offset : Z) (noAssert : bool) : res (option Z) :=
  match a with
  | AUInt8 => readUInt8 b offset noAssert
  | AInt8 => readInt8 b offset noAssert
  | AUInt16 le => (if le then readUInt16LE else readUInt16BE) b offset noAssert
  | AInt16 le => (if le then readInt16LE else readInt16BE) b offset noAssert
  | AUInt32 le => (if le then readUInt32LE else readUInt32BE) b offset noAssert
  | AInt32 le => (if le then readInt32LE else readInt32BE) b offset noAssert
  | AUInt le n => (if le then readUIntLE else readUIntBE) b offset (Z.of_nat n) noAssert
  | AInt le n => (if le then readIntLE else readIntBE) b offset (Z.of_nat n) noAssert
  end.

Definition acc_write (typed : bool) (a : accessor) (b : bytes) (v offset : Z) (noAssert : bool) :
    res (bytes * Z) :=
  match a with
  | AUInt8 => writeUInt8 typed b v offset noAssert
  | AInt8 => writeInt8 typed b v offset noAssert
  | AUInt16 le => (if le then writeUInt16LE else writeUInt16BE) typed b v offset noAssert
  | AInt16 le => (if le then writeInt16LE else writeInt16BE) typed b v offset noAssert
  | AUInt32 le => (if le then writeUInt32LE else writeUInt32BE) typed b v offset noAssert
  | AInt32 le => (if le then writeInt32LE else writeInt32BE) typed b v offset noAssert
  | AUInt le n => (if le then writeUIntLE else writeUIntBE) typed b v offset (Z.of_nat n) noAssert
  | AInt le n => (if le then writeIntLE else writeIntBE) typed b v offset (Z.of_nat n) noAssert
  end.

(** Reference: the bytes of [v] in an accessor's order, and the value of such bytes. *)
Definition acc_bytes (a : accessor) (v : Z) : bytes :=
  let bs := le_bytes (acc_size a) v in if acc_le a then bs else rev bs.
Definition acc_value (a : accessor) (bs : bytes) : Z :=
  let u := le_value (if acc_le a then bs else rev bs) in
  if acc_signed a then signed_of (acc_bits a) u else u.

(** [b] with the bytes from [off] on replaced by [bs]. *)
Definition splice (b : bytes) (off : Z) (bs : bytes) : bytes :=
  take (Z.to_nat off) b ++ bs ++ drop (Z.to_nat off + length bs) b.

Definition region (b : bytes) (off : Z) (n : nat) : bytes := take n (drop (Z.to_nat off) b).

(** ** Regions *)

Lemma zlength_app (p q : bytes) : zlength (p ++ q) = zlength p + zlength q.
Proof. unfold zlength. rewrite length_app. lia. Qed.

Lemma region_split b off n :
  0 <= off -> off + Z.of_nat n <= zlength b ->
  exists pre post, b = pre ++ region b off n ++ post /\ zlength pre = off /\ length (region b off n) = n.
Proof.
  unfold zlength, region. intros H0 H1.
  exists (take (Z.to_nat off) b), (drop n (drop (Z.to_nat off) b)).
  rewrite !take_drop. split; [done|]. rewrite length_take, length_take, length_drop. lia.
Qed.

Lemma region_app pre seg post off n :
  zlength pre = off -> length seg = n -> region (pre ++ seg ++ post) off n = seg.
Proof.
  unfold zlength, region. intros <- <-. rewrite Nat2Z.id, drop_app_length. apply take_app_length.
Qed.

Lemma splice_app pre seg post off bs :
  zlength pre = off -> length seg = length bs ->
  splice (pre ++ seg ++ post) off bs = pre ++ bs ++ post.
Proof.
  unfold zlength, splice. intros <- H. rewrite Nat2Z.id, take_app_length. do 2 f_equal.
  rewrite <- H, <- drop_drop, drop_app_length. apply drop_app_length.
Qed.

Lemma at_app pre seg post off k :
  zlength pre = off -> 0 <= k < Z.of_nat (length seg) ->
  at_ (pre ++ seg ++ post) (off + k) = seg !! Z.to_nat k.
Proof.
  unfold zlength, at_. intros <- Hk. destruct (Z.ltb_spec (Z.of_nat (length pre) + k) 0); [lia|].
  rewrite lookup_app_r by lia. rewrite lookup_app_l by lia. f_equal. lia.
Qed.

Lemma set_app typed pre seg post off k v :
  zlength pre = off -> 0 <= k < Z.of_nat (length seg) ->
  set_ typed (pre ++ seg ++ post) (off + k) v =
  pre ++ <[Z.to_nat k := if typed then to_uint8 v else v]> seg ++ post.
Proof.
  unfold zlength, set_. intros <- Hk. destruct (Z.ltb_spec (Z.of_nat (length pre) + k) 0); [lia|].
  rewrite insert_app_r_alt by lia. rewrite insert_app_l by lia. repeat f_equal. lia.
Qed.

Lemma to_uint8_byte (typed : bool) v : is_byte v -> (if typed then to_uint8 v else v) = v.
Proof. destruct typed; [apply to_uint8_id|done]. Qed.

(** ** The loops compute the reference value *)

Lemma sum_up_value pre done rest post off i mul v :
  zlength pre = off -> Z.of_nat (length done) = i + 1 ->
  sum_up (length rest) (pre ++ (done ++ rest) ++ post) off i mul (Some v) =
  (mul * 256 ^ Z.of_nat (length rest), Some (v + mul * 256 * le_value rest)).
Proof.
  intros Hoff. revert done i mul v. induction rest as [|x rest IH]; intros done i mul v Hi.
  - cbn [length sum_up le_value]. f_equal; [|f_equal]; lia.
  - cbn [length sum_up le_value]. rewrite (at_app pre (done ++ x :: rest)) by (rewrite ?length_app; cbn; lia).
    rewrite lookup_app_r by lia. replace (Z.to_nat (i + 1) - length done)%nat with O by lia.
    cbn [lookup list_lookup muln addn fmap option_fmap option_map mbind option_bind].
    replace (done ++ x :: rest) with ((done ++ [x]) ++ rest) by (by rewrite <- app_assoc).
    rewrite IH by (rewrite length_app; cbn; lia).
    rewrite Nat2Z.inj_succ, Z.pow_succ_r by lia. f_equal; [|f_equal]; lia.
Qed.

Lemma sum_down_value pre rest done post off mul v :
  zlength pre = off ->
  sum_down (length rest) (pre ++ (rest ++ done) ++ post) off (Z.of_nat (length rest)) mul (Some v) =
  (mul * 256 ^ Z.of_nat (length rest), Some (v + mul * 256 * le_value (rev rest))).
Proof.
  intros Hoff. revert done mul v. induction rest as [|x rest IH] using rev_ind; intros done mul v.
  - cbn [length sum_down le_value rev]. f_equal; [|f_equal]; lia.
  - rewrite length_app, Nat.add_comm. cbn [length Nat.add sum_down].
    rewrite (at_app pre ((rest ++ [x]) ++ done)) by (rewrite ?length_app; cbn; lia).
    rewrite <- (app_assoc rest). rewrite lookup_app_r by lia.
    replace (Z.to_nat (Z.of_nat (S (length rest)) - 1) - length rest)%nat with O by lia.
    cbn [lookup list_lookup muln addn fmap option_fmap option_map mbind option_bind app].
    replace (Z.of_nat (S (length rest)) - 1) with (Z.of_nat (length rest)) by lia.
    rewrite IH, rev_app_distr. cbn [rev app le_value].
    rewrite Nat2Z.inj_succ, Z.pow_succ_r by lia. f_equal; [|f_equal]; lia.
Qed.

(** ** Fixed-width readers *)

Lemma assert_read_ok b off n :
  0 <= off -> off + n <= zlength b -> assert_read false b off n = Ok tt.
Proof.
  intros. unfold assert_read, checkOffset, guard_or.
  destruct (Z.ltb_spec off 0); [lia|]. cbn. destruct (Z.ltb_spec (zlength b) (off + n)); [lia|done].
Qed.

Lemma is_int32_nat (n : nat) : (n <= 6)%nat -> to_int32 (Z.of_nat n) = Z.of_nat n.
Proof. intros. apply to_int32_id. unfold is_int32. lia. Qed.

Lemma or16 x y : is_byte x -> is_byte y -> js_or x (js_shl y 8) = x + 256 * y.
Proof.
  unfold is_byte. intros. rewrite js_shl_mul, js_or_comm, js_or_disjoint by (unfold is_int32; lia). lia.
Qed.

Lemma or24 x y z :
  is_byte x -> is_byte y -> is_byte z ->
  js_or (js_or x (js_shl y 8)) (js_shl z 16) = x + 256 * (y + 256 * z).
Proof.
  unfold is_byte. intros. rewrite or16 by done.
  rewrite js_shl_mul, js_or_comm, js_or_disjoint by (unfold is_int32; lia). lia.
Qed.

Lemma or24_be x y z :
  is_byte x -> is_byte y -> is_byte z ->
  js_or (js_or (js_shl z 16) (js_shl y 8)) x = x + 256 * (y + 256 * z).
Proof.
  unfold is_byte. intros. rewrite !js_shl_mul by (unfold is_int32; lia).
  rewrite (js_or_disjoint z) by (unfold is_int32; lia).
  replace (z * 2 ^ 16 + y * 2 ^ 8) with ((z * 256 + y) * 2 ^ 8) by lia.
  rewrite js_or_disjoint by (unfold is_int32; lia). lia.
Qed.

(** Adding the top byte of a signed 32-bit number with [<< 24] and [|]. *)
Lemma shl24 w : is_byte w -> js_shl w 24 = signed_of 8 w * 2 ^ 24.
Proof.
  unfold is_byte. intros Hw. unfold js_shl. rewrite (to_int32_id w) by (unfold is_int32; lia).
  change (24 mod 32) with 24. rewrite Z.shiftl_mul_pow2 by lia.
  unfold signed_of. change (8 - 1) with 7. destruct (Z.ltb_spec w (2 ^ 7)).
  - apply to_int32_id. unfold is_int32. lia.
  - unfold to_int32. rewrite Z.mod_small by lia. destruct (Z.ltb_spec (w * 2 ^ 24) (2 ^ 31)); lia.
Qed.

Lemma or32 x w :
  0 <= x < 2 ^ 24 -> is_byte w -> js_or x (js_shl w 24) = signed_of 32 (x + 2 ^ 24 * w).
Proof.
  intros Hx Hw. rewrite shl24, js_or_comm by done. unfold is_byte in Hw.
  assert (Hs : -128 <= signed_of 8 w < 128)
    by (unfold signed_of; change (8 - 1) with 7; destruct (Z.ltb_spec w (2 ^ 7)); lia).
  rewrite js_or_disjoint by (unfold is_int32; lia).
  unfold signed_of. change (8 - 1) with 7. change (32 - 1) with 31.
  destruct (Z.ltb_spec w (2 ^ 7)), (Z.ltb_spec (x + 2 ^ 24 * w) (2 ^ 31)); lia.
Qed.

Lemma or32_be w z y x :
  is_byte w -> is_byte z -> is_byte y -> is_byte x ->
  js_or (js_or (js_or (js_shl w 24) (js_shl z 16)) (js_shl y 8)) x =
  signed_of 32 (x + 256 * (y + 256 * (z + 256 * w))).
Proof.
  intros Hw Hz Hy Hx. rewrite shl24 by done. unfold is_byte in *.
  assert (Hs : -128 <= signed_of 8 w < 128)
    by (unfold signed_of; change (8 - 1) with 7; destruct (Z.ltb_spec w (2 ^ 7)); lia).
  rewrite !js_shl_mul by (unfold is_int32; lia).
  rewrite js_or_disjoint by (unfold is_int32; lia).
  replace (signed_of 8 w * 2 ^ 24 + z * 2 ^ 16) with ((signed_of 8 w * 2 ^ 8 + z) * 2 ^ 16) by lia.
  rewrite js_or_disjoint by (unfold is_int32; lia).
  replace ((signed_of 8 w * 2 ^ 8 + z) * 2 ^ 16 + y * 2 ^ 8)
    with (((signed_of 8 w * 2 ^ 8 + z) * 2 ^ 8 + y) * 2 ^ 8) by lia.
  rewrite js_or_disjoint by (unfold is_int32; lia).
  unfold signed_of in *. change (8 - 1) with 7 in *. change (32 - 1) with 31.
  destruct (Z.ltb_spec w (2 ^ 7)), (Z.ltb_spec (x + 256 * (y + 256 * (z + 256 * w))) (2 ^ 31)); lia.
Qed.

Lemma sign16_value u : 0 <= u < 2 ^ 16 -> sign16 u = signed_of 16 u.
Proof.
  intros Hu. unfold sign16, signed_of. change 32768 with ((2 ^ 1 - 1) * 2 ^ 15).
  rewrite js_and_field by (unfold is_int32; lia). change (16 - 1) with 15.
  destruct (Z.ltb_spec u (2 ^ 15)).
  - rewrite Z.div_small by lia. done.
  - replace (u / 2 ^ 15) with 1 by (Z.div_mod_to_equations; lia). cbn match.
    change (1 mod 2 ^ 1 * 2 ^ 15 =? 0) with false. cbn match.
    unfold js_or. change (to_int32 4294901760) with (-1 * 2 ^ 16).
    rewrite (to_int32_id u), Z.lor_comm, lor_disjoint by (unfold is_int32; lia).
    rewrite to_int32_id by (unfold is_int32; lia). lia.
Qed.

(** A region of known size, as its bytes. *)
Ltac region_bytes H :=
  repeat match type of H with
  | length ?l = S _ => let x := fresh "x" in
                       destruct l as [|x l]; [discriminate H|]; cbn [length] in H; apply Nat.succ_inj in H
  | length ?l = O => apply nil_length_inv in H; subst l
  end.

Lemma at_0 pre seg post off :
  zlength pre = off -> (0 < length seg)%nat -> at_ (pre ++ seg ++ post) off = seg !! O.
Proof. intros Hp Hl. rewrite <- (Z.add_0_r off), (at_app pre seg) by (done || lia). done. Qed.

Ltac read_bytes :=
  repeat first
    [ rewrite at_app by (done || (cbn [length]; lia))
    | rewrite at_0 by (done || (cbn [length]; lia)) ];
  change (Z.to_nat 1) with 1%nat; change (Z.to_nat 2) with 2%nat; change (Z.to_nat 3) with 3%nat;
  cbn [lookup list_lookup bit default from_option id].

Lemma acc_read_fixed a pre seg post off :
  match a with AUInt _ _ | AInt _ _ => False | _ => True end ->
  Forall is_byte seg -> zlength pre = off -> length seg = acc_size a ->
  acc_read a (pre ++ seg ++ post) off false = Ok (Some (acc_value a seg)).
Proof.
  intros Ha Hb Hp Hl.
  assert (Hok : forall n, Z.of_nat (length seg) = n -> assert_read false (pre ++ seg ++ post) off n = Ok tt).
  { intros n <-. apply assert_read_ok; subst off; unfold zlength; rewrite ?length_app; lia. }
  destruct a as [| |le|le|le|le|le n|le n]; try done; cbn [acc_size] in Hl; region_bytes Hl;
    rewrite ?Forall_cons in Hb; destruct_and? Hb.
  - cbn [acc_read]. unfold readUInt8. rewrite Hok by done. cbn [mbind res_bind]. read_bytes.
    unfold acc_value. cbn. do 2 f_equal. lia.
  - cbn [acc_read]. unfold readInt8. rewrite Hok by done. cbn [mbind res_bind]. read_bytes.
    unfold acc_value, acc_bits, signed_of. cbn [acc_signed acc_le acc_size le_value].
    change (8 * Z.of_nat 1) with 8. change (8 - 1) with 7. change 128 with ((2 ^ 1 - 1) * 2 ^ 7).
    unfold is_byte in *. rewrite js_and_field by (unfold is_int32; lia).
    destruct (Z.ltb_spec (x + 256 * 0) (2 ^ 7)).
    + rewrite Z.div_small by lia. cbn. do 2 f_equal. lia.
    + replace (x / 2 ^ 7) with 1 by (Z.div_mod_to_equations; lia). cbn. do 2 f_equal. lia.
  - destruct le; cbn [acc_read]; unfold readUInt16LE, readUInt16BE; rewrite Hok by done;
      cbn [mbind res_bind]; read_bytes; unfold acc_value; cbn [acc_signed acc_le le_value rev app];
      [|rewrite js_or_comm]; rewrite or16 by done; do 2 f_equal; lia.
  - destruct le; cbn [acc_read]; unfold readInt16LE, readInt16BE; rewrite Hok by done;
      cbn [mbind res_bind]; read_bytes; unfold acc_value, acc_bits;
      cbn [acc_signed acc_le acc_size le_value rev app];
      rewrite or16 by done; rewrite sign16_value by (unfold is_byte in *; lia);
      repeat f_equal; lia.
  - destruct le; cbn [acc_read]; unfold readUInt32LE, readUInt32BE; rewrite Hok by done;
      cbn [mbind res_bind]; read_bytes; unfold acc_value; cbn [acc_signed acc_le le_value rev app];
      rewrite ?or24, ?or24_be by done;
      cbn [addn muln fmap option_fmap option_map mbind option_bind]; do 2 f_equal; lia.
  - destruct le; cbn [acc_read]; unfold readInt32LE, readInt32BE; rewrite Hok by done;
      cbn [mbind res_bind]; read_bytes; unfold acc_value, acc_bits;
      cbn [acc_signed acc_le acc_size le_value rev app].
    + rewrite or24 by done. unfold is_byte in *. rewrite or32 by (done || lia).
      do 3 f_equal. lia.
    + rewrite or32_be by done. do 3 f_equal. lia.
Qed.

(** ** Variable-width readers *)

Lemma sign_fix_value n u :
  (1 <= n)%nat -> 0 <= u < 256 ^ Z.of_nat n ->
  sign_fix (Z.of_nat n) (256 ^ Z.of_nat (n - 1), Some u) = Some (signed_of (8 * Z.of_nat n) u).
Proof.
  intros Hn Hu. unfold sign_fix, signed_of. cbn [fst snd fmap option_fmap option_map].
  assert (E : 256 ^ Z.of_nat (n - 1) * 128 = 2 ^ (8 * Z.of_nat n - 1)).
  { change 256 with (2 ^ 8). change 128 with (2 ^ 7). rewrite <- Z.pow_mul_r, <- Z.pow_add_r by lia.
    f_equal. lia. }
  rewrite E. f_equal.
  destruct (Z.leb_spec (2 ^ (8 * Z.of_nat n - 1)) u), (Z.ltb_spec u (2 ^ (8 * Z.of_nat n - 1))); lia.
Qed.

Lemma acc_read_up_region pre seg post off :
  Forall is_byte seg -> zlength pre = off -> seg <> [] ->
  sum_up (Z.to_nat (Z.of_nat (length seg) - 1)) (pre ++ seg ++ post) off 0 1 (at_ (pre ++ seg ++ post) off) =
  (256 ^ Z.of_nat (length seg - 1), Some (le_value seg)).
Proof.
  intros Hb Hp Hne. destruct seg as [|x seg]; [done|]. rewrite at_0 by (done || (cbn; lia)).
  cbn [lookup list_lookup length].
  replace (Z.to_nat (Z.of_nat (S (length seg)) - 1)) with (length seg) by lia.
  change (x :: seg) with ([x] ++ seg). rewrite (sum_up_value pre [x] seg) by (done || (cbn; lia)).
  cbn [app le_value]. rewrite Z.mul_1_l. f_equal. f_equal. lia.
Qed.

Lemma acc_read_down_region pre seg post off :
  Forall is_byte seg -> zlength pre = off -> seg <> [] ->
  let l := Z.of_nat (length seg) - 1 in
  sum_down (Z.to_nat l) (pre ++ seg ++ post) off l 1 (at_ (pre ++ seg ++ post) (off + l)) =
  (256 ^ Z.of_nat (length seg - 1), Some (le_value (rev seg))).
Proof.
  intros Hb Hp Hne. destruct seg as [|x seg _] using rev_ind; [done|]. cbv zeta.
  rewrite length_app. cbn [length].
  replace (Z.of_nat (length seg + 1) - 1) with (Z.of_nat (length seg)) by lia.
  rewrite Nat2Z.id, Nat.add_sub.
  rewrite (at_app pre (seg ++ [x])) by (rewrite ?length_app; cbn; lia).
  rewrite Nat2Z.id, lookup_app_r, Nat.sub_diag by lia. cbn [lookup list_lookup].
  rewrite (sum_down_value pre seg [x]) by done. rewrite rev_app_distr. cbn [rev app le_value].
  rewrite Z.mul_1_l. f_equal; f_equal; lia.
Qed.

Lemma acc_read_region a pre seg post off :
  acc_ok a -> Forall is_byte seg -> zlength pre = off -> off < 2 ^ 31 -> length seg = acc_size a ->
  acc_read a (pre ++ seg ++ post) off false = Ok (Some (acc_value a seg)).
Proof.
  intros Ha Hb Hp Hoff Hl.
  destruct a as [| |le|le|le|le|le n|le n]; try (by apply acc_read_fixed).
  - cbn [acc_ok acc_size] in *. assert (Hne : seg <> []) by (intros ->; cbn in Hl; lia).
    assert (Hn : zlength pre + Z.of_nat n <= zlength (pre ++ seg ++ post))
      by (unfold zlength; rewrite !length_app; lia).
    assert (Hpos : 0 <= off) by (subst off; unfold zlength; lia).
    destruct le; cbn [acc_read]; unfold readUIntLE, readUIntBE;
      rewrite is_int32_nat, (to_int32_id off), assert_read_ok by (unfold is_int32; lia);
      cbn [mbind res_bind]; rewrite <- Hl;
      rewrite ?acc_read_up_region, ?acc_read_down_region by done; done.
  - cbn [acc_ok acc_size] in *. assert (Hne : seg <> []) by (intros ->; cbn in Hl; lia).
    assert (Hn : zlength pre + Z.of_nat n <= zlength (pre ++ seg ++ post))
      by (unfold zlength; rewrite !length_app; lia).
    assert (Hpos : 0 <= off) by (subst off; unfold zlength; lia).
    destruct le; cbn [acc_read]; unfold readIntLE, readIntBE;
      rewrite is_int32_nat, (to_int32_id off), assert_read_ok by (unfold is_int32; lia);
      cbn [mbind res_bind]; rewrite <- Hl;
      [rewrite acc_read_up_region by done|rewrite acc_read_down_region by done];
      (rewrite sign_fix_value;
        [|lia|first [ by apply le_value_range
                    | rewrite <- length_rev; apply le_value_range; by apply Forall_rev ]]);
      unfold acc_value, acc_bits; cbn [acc_signed acc_le acc_size]; by rewrite Hl.
Qed.

(** ** Writers *)

Lemma assert_write_ok b v off n max min :
  off + n <= zlength b -> min <= v <= max -> assert_write false b v off n max min = Ok tt.
Proof.
  intros. unfold assert_write, checkInt, guard_or.
  destruct (Z.ltb_spec max v); [lia|]. destruct (Z.ltb_spec v min); [lia|]. cbn.
  destruct (Z.ltb_spec (zlength b) (off + n)); [lia|done].
Qed.

Section WriterLemmas.
Variable typed : bool.

(** The bytes a store loop produces, first to last stored. *)
Fixpoint stored (n : nat) (byte_of : Z -> Z) (mul : Z) : bytes :=
  match n with O => [] | S n' => (if typed then to_uint8 (byte_of (mul * 256)) else byte_of (mul * 256)) :: stored n' byte_of (mul * 256) end.

Lemma length_stored n f mul : length (stored n f mul) = n.
Proof. revert mul. induction n; intros; cbn; auto. Qed.

Lemma insert_mid (pfx : bytes) x rest v :
  <[length pfx := v]> (pfx ++ x :: rest) = (pfx ++ [v]) ++ rest.
Proof. rewrite insert_app_r_alt by lia. by rewrite Nat.sub_diag, <- app_assoc. Qed.

Lemma store_up_value pre pfx rest post off f i mul :
  zlength pre = off -> Z.of_nat (length pfx) = i + 1 ->
  store_up typed (length rest) (pre ++ (pfx ++ rest) ++ post) f off i mul =
  pre ++ (pfx ++ stored (length rest) f mul) ++ post.
Proof.
  intros Hoff. revert pfx i mul. induction rest as [|x rest IH]; intros pfx i mul Hi; [done|].
  cbn [length store_up stored].
  rewrite (set_app typed pre (pfx ++ x :: rest)) by (rewrite ?length_app; cbn; lia).
  replace (Z.to_nat (i + 1)) with (length pfx) by lia. rewrite insert_mid.
  rewrite IH by (rewrite length_app; cbn; lia). by rewrite <- (app_assoc pfx).
Qed.

Lemma store_down_value pre rest pfx post off f mul :
  zlength pre = off ->
  store_down typed (length rest) (pre ++ (rest ++ pfx) ++ post) f off (Z.of_nat (length rest)) mul =
  pre ++ (rev (stored (length rest) f mul) ++ pfx) ++ post.
Proof.
  intros Hoff. revert pfx mul. induction rest as [|x rest IH] using rev_ind; intros pfx mul; [done|].
  rewrite length_app, Nat.add_comm. cbn [length Nat.add store_down stored].
  rewrite (set_app typed pre ((rest ++ [x]) ++ pfx)) by (rewrite ?length_app; cbn; lia).
  replace (Z.of_nat (S (length rest)) - 1) with (Z.of_nat (length rest)) by lia.
  rewrite Nat2Z.id, <- (app_assoc rest). cbn [app]. rewrite insert_mid, <- (app_assoc rest).
  rewrite IH. cbn [rev app]. by rewrite <- !app_assoc.
Qed.

Lemma stored_le_bytes n f v mul :
  0 < mul ->
  (forall k, (k < n)%nat -> f (mul * 256 ^ Z.of_nat (S k)) = (v / (mul * 256 ^ Z.of_nat (S k))) mod 256) ->
  stored n f mul = le_bytes n (v / (mul * 256)).
Proof.
  revert mul. induction n as [|n IH]; intros mul Hmul Hf; [done|]. cbn [stored le_bytes].
  pose proof (Hf O ltac:(lia)) as H0. change (Z.of_nat 1) with 1 in H0. rewrite Z.pow_1_r in H0.
  rewrite H0, to_uint8_byte by (apply Z.mod_pos_bound; lia). f_equal.
  rewrite IH by (try lia; intros k Hk; replace (mul * 256 * 256 ^ Z.of_nat (S k))
    with (mul * 256 ^ Z.of_nat (S (S k))) by (rewrite (Nat2Z.inj_succ (S k)), Z.pow_succ_r by lia; lia);
    apply Hf; lia).
  rewrite Z.div_div by lia. done.
Qed.
End WriterLemmas.

Lemma uint_byte_value v m : 0 <= v -> 0 < m -> uint_byte v m = (v / m) mod 256.
Proof. intros. unfold uint_byte. by rewrite js_and_255, Z.quot_div_nonneg by lia. Qed.

(** The signed loop's byte: right unless the borrow is taken from a byte
    whose lower bytes are all zero. *)
Lemma int_byte_value v m :
  0 < m -> (256 | m) -> 0 <= v \/ v mod 256 <> 0 -> int_byte v m = (v / m) mod 256.
Proof.
  intros Hm [c Hc] Hv. unfold int_byte.
  assert (Hs : forall q, js_sar q 0 = to_int32 q).
  { intros q. unfold js_sar. change (0 mod 32) with 0. rewrite Z.shiftr_0_r.
    apply to_int32_id, to_int32_range. }
  rewrite Hs, js_and_255. destruct (Z.ltb_spec v 0).
  - destruct Hv as [|Hv]; [lia|]. assert (Hmod : v mod m <> 0).
    { intros E. apply Hv. apply Z.mod_divide in E as [d E]; [|lia].
      rewrite E, Hc, Z.mul_assoc. apply Z.mod_mul. lia. }
    replace (Z.quot v m) with (v / m + 1).
    + rewrite Zminus_mod, to_int32_mod by (try lia; exists (2 ^ 24); done).
      rewrite <- Zminus_mod. f_equal. lia.
    + pose proof (Z.quot_opp_l v m ltac:(lia)) as Hq.
      rewrite (Z.quot_div_nonneg (- v)) in Hq by lia. rewrite Z.div_opp_l_nz in Hq by lia. lia.
  - rewrite Z.sub_0_r, to_int32_mod by (try lia; exists (2 ^ 24); done).
    by rewrite Z.quot_div_nonneg by lia.
Qed.

(** Then it is the byte of the multiple of 256 before. *)
Lemma int_byte_borrowed v m : 0 < m -> (256 | m) -> v < 0 -> v mod 256 = 0 -> int_byte v m = ((v - 256) / m) mod 256.
Proof.
  intros Hm [c Hc] Hv H0. unfold int_byte. rewrite (proj2 (Z.ltb_lt v 0)) by done.
  apply Z.mod_divide in H0 as [u Hu]; [|done]. assert (0 < c) by lia.
  assert (Hq : Z.quot v m - 1 = (v - 256) / m).
  { subst. rewrite Z.quot_mul_cancel_r by lia. replace (u * 256 - 256) with ((u - 1) * 256) by lia.
    rewrite Z.div_mul_cancel_r by lia. pose proof (Z.quot_opp_l u c ltac:(lia)) as Hq. rewrite (Z.quot_div_nonneg (- u)) in Hq by lia.
    pose proof (Z.div_mod (- u) c ltac:(lia)). pose proof (Z.mod_pos_bound (- u) c ltac:(lia)).
    apply (Z.div_unique_pos _ _ _ (c - (- u) mod c - 1)); nia. }
  rewrite <- Hq. unfold js_sar. change (0 mod 32) with 0. rewrite Z.shiftr_0_r, js_and_255.
  rewrite to_int32_id by apply to_int32_range. rewrite Zminus_mod, to_int32_mod by (try lia; exists (2 ^ 24); done). by rewrite <- Zminus_mod.
Qed.

(** ** Fixed-width writers *)

Lemma shr_byte v k :
  0 <= k <= 24 -> to_uint8 (js_shr v k) = (v / 2 ^ k) mod 256.
Proof.
  intros Hk. unfold js_shr, to_uint32, to_uint8. rewrite (Z.mod_small k) by lia.
  rewrite Z.shiftr_div_pow2 by lia. pose proof (Z.div_mod v (2 ^ 32) ltac:(lia)) as E.
  set (c := v / 2 ^ 32) in *. set (u := v mod 2 ^ 32) in *. rewrite E.
  replace (2 ^ 32 * c + u) with (u + (c * 2 ^ (24 - k) * 2 ^ 8) * 2 ^ k).
  - rewrite Z.div_add by lia. change (2 ^ 8) with 256. by rewrite Z.mod_add by lia.
  - rewrite <- !Z.mul_assoc, <- !Z.pow_add_r by lia. replace (24 - k + (8 + k)) with 32 by lia. lia.
Qed.

Lemma le_bytes_shift n v k : le_bytes (S n) (v / 2 ^ k) = (v / 2 ^ k) mod 256 :: le_bytes n (v / 2 ^ k / 256).
Proof. done. Qed.

Lemma le_bytes_4 v :
  le_bytes 4 v = [v mod 256; (v / 2 ^ 8) mod 256; (v / 2 ^ 16) mod 256; (v / 2 ^ 24) mod 256].
Proof.
  cbn [le_bytes]. rewrite !Z.div_div by lia. done.
Qed.

Lemma set_0 typed pre seg post off v :
  zlength pre = off -> (0 < length seg)%nat ->
  set_ typed (pre ++ seg ++ post) off v =
  pre ++ <[O := if typed then to_uint8 v else v]> seg ++ post.
Proof. intros Hp Hl. rewrite <- (Z.add_0_r off), (set_app typed pre seg) by (done || lia). done. Qed.

Ltac write_bytes :=
  repeat first
    [ rewrite set_app by (done || (rewrite ?length_insert; cbn [length]; lia))
    | rewrite set_0 by (done || (rewrite ?length_insert; cbn [length]; lia)) ];
  change (Z.to_nat 0) with 0%nat;
  change (Z.to_nat 1) with 1%nat; change (Z.to_nat 2) with 2%nat; change (Z.to_nat 3) with 3%nat;
  cbn [insert list_insert].

Lemma object16 pre x y post off v le :
  zlength pre = off -> - 2 ^ 15 <= v < 2 ^ 16 ->
  objectWriteUInt16 false (pre ++ [x; y] ++ post) v off le =
  pre ++ (if le then le_bytes 2 v else rev (le_bytes 2 v)) ++ post.
Proof.
  intros Hp Hv. unfold objectWriteUInt16.
  set (v' := if v <? 0 then 65535 + v + 1 else v).
  assert (Hv' : v' = v mod 2 ^ 16).
  { subst v'. destruct (Z.ltb_spec v 0); [|by rewrite Z.mod_small by lia].
    rewrite <- (Z.mod_add v 1), Z.mod_small by lia. lia. }
  clearbody v'. pose proof (Z.mod_pos_bound v (2 ^ 16) ltac:(lia)).
  replace (Z.to_nat _) with 2%nat by (unfold zlength in *; rewrite !length_app; cbn [length]; lia).
  assert (Hlo : forall k, (k = 0 \/ k = 1) -> js_shr (js_and v' (js_shl 255 (8 * k))) (k * 8) =
                          (v / 2 ^ (8 * k)) mod 256).
  { intros k Hk. rewrite js_shl_mul by (unfold is_int32; destruct Hk; subst k; lia).
    change 255 with (2 ^ 8 - 1). rewrite js_and_field by (unfold is_int32; lia).
    assert (0 <= v' / 2 ^ (8 * k) mod 2 ^ 8 < 2 ^ 8) by (apply Z.mod_pos_bound; lia).
    replace (k * 8) with (8 * k) by lia.
    rewrite js_shr_div by (destruct Hk; subst k; lia). rewrite Z.div_mul by lia.
    rewrite Hv'. destruct Hk; subst k; [change (2 ^ (8 * 0)) with 1|change (2 ^ (8 * 1)) with 256];
      change (2 ^ 8) with 256; change (2 ^ 16) with 65536; Z.div_mod_to_equations; lia. }
  cbn [object_stores]. rewrite Z.add_0_r.
  destruct le; rewrite !Hlo by lia; write_bytes; cbn [le_bytes rev app];
    change (2 ^ (8 * 0)) with 1; rewrite ?Z.div_1_r; done.
Qed.

Lemma object32 pre x0 x1 x2 x3 post off v le :
  zlength pre = off -> - 2 ^ 31 <= v < 2 ^ 32 ->
  objectWriteUInt32 false (pre ++ [x0; x1; x2; x3] ++ post) v off le =
  pre ++ (if le then le_bytes 4 v else rev (le_bytes 4 v)) ++ post.
Proof.
  intros Hp Hv. unfold objectWriteUInt32.
  set (v' := if v <? 0 then 4294967295 + v + 1 else v).
  assert (Hv' : to_uint32 v' = to_uint32 v).
  { subst v'. unfold to_uint32. destruct (Z.ltb_spec v 0); [|done].
    rewrite <- (Z.mod_add v 1) by lia. f_equal. lia. }
  clearbody v'.
  replace (Z.to_nat _) with 4%nat by (unfold zlength in *; rewrite !length_app; cbn [length]; lia).
  assert (Hb : forall k, 0 <= k <= 3 -> js_and (js_shr v' (k * 8)) 255 = (v / 2 ^ (k * 8)) mod 256).
  { intros k Hk. rewrite js_and_255, <- shr_byte by lia. unfold to_uint8, js_shr. by rewrite Hv'. }
  cbn [object_stores]. rewrite Z.add_0_r, le_bytes_4. cbn [Z.add Pos.add Pos.succ].
  destruct le; rewrite !Hb by lia; write_bytes; cbn [rev app];
    change (2 ^ (0 * 8)) with 1; rewrite ?Z.div_1_r; done.
Qed.

Lemma acc_write_fixed typed a pre seg post off v :
  match a with AUInt _ _ | AInt _ _ => False | _ => True end ->
  acc_range a v -> zlength pre = off -> off < 2 ^ 31 -> length seg = acc_size a ->
  acc_write typed a (pre ++ seg ++ post) v off false =
  Ok (pre ++ acc_bytes a v ++ post, off + Z.of_nat (acc_size a)).
Proof.
  intros Ha Hv Hp Hoff Hl.
  assert (Hlen : off + Z.of_nat (acc_size a) <= zlength (pre ++ seg ++ post))
    by (unfold zlength in *; rewrite !length_app; lia).
  assert (Hint : to_int32 off = off) by (apply to_int32_id; unfold is_int32, zlength in *; lia).
  destruct a as [| |le|le|le|le|le n|le n]; try done; unfold acc_range, acc_bits in Hv;
    cbn [acc_size acc_signed Z.of_nat Pos.of_succ_nat Pos.succ] in *; region_bytes Hl; cbn in Hv.
  - cbn [acc_write]. unfold writeUInt8. rewrite Hint, assert_write_ok by lia. cbn [mbind res_bind].
    write_bytes. rewrite to_uint8_byte by (unfold is_byte; lia).
    unfold acc_bytes. cbn. by rewrite Z.mod_small by lia.
  - cbn [acc_write]. unfold writeInt8. rewrite Hint, assert_write_ok by lia. cbn [mbind res_bind].
    write_bytes. unfold acc_bytes. cbn [acc_le acc_size le_bytes].
    rewrite to_uint8_byte by (unfold is_byte; destruct (Z.ltb_spec v 0); lia).
    destruct (Z.ltb_spec v 0); [|by rewrite Z.mod_small by lia].
    rewrite <- (Z.mod_add v 1 256), Z.mod_small by lia. by replace (255 + v + 1) with (v + 1 * 256) by lia.
  - destruct le; cbn [acc_write]; unfold writeUInt16LE, writeUInt16BE;
      rewrite Hint, assert_write_ok by lia; cbn [mbind res_bind]; unfold acc_bytes; cbn [acc_le acc_size];
      (destruct typed; [unfold typed16LE, typed16BE; write_bytes; by rewrite shr_byte by lia
                       |by rewrite object16 by (done || lia)]).
  - destruct le; cbn [acc_write]; unfold writeInt16LE, writeInt16BE;
      rewrite Hint, assert_write_ok by lia; cbn [mbind res_bind]; unfold acc_bytes; cbn [acc_le acc_size];
      (destruct typed; [unfold typed16LE, typed16BE; write_bytes; by rewrite shr_byte by lia
                       |by rewrite object16 by (done || lia)]).
  - destruct le; cbn [acc_write]; unfold writeUInt32LE, writeUInt32BE;
      rewrite Hint, assert_write_ok by lia; cbn [mbind res_bind]; unfold acc_bytes; cbn [acc_le acc_size];
      (destruct typed; [unfold typed32LE, typed32BE; write_bytes; by rewrite !shr_byte, le_bytes_4 by lia
                       |by rewrite object32 by (done || lia)]).
  - destruct le; cbn [acc_write]; unfold writeInt32LE, writeInt32BE;
      rewrite Hint, assert_write_ok by lia; cbn [mbind res_bind]; unfold acc_bytes; cbn [acc_le acc_size].
    + destruct typed; [unfold typed32LE_up; write_bytes; by rewrite !shr_byte, le_bytes_4 by lia
                      |by rewrite object32 by (done || lia)].
    + set (v' := if v <? 0 then 4294967295 + v + 1 else v).
      assert (Hv' : 0 <= v' < 2 ^ 32 /\ le_bytes 4 v' = le_bytes 4 v).
      { subst v'. destruct (Z.ltb_spec v 0); [|split; [lia|done]]. split; [lia|].
        rewrite <- (le_bytes_mod 4 v 1). f_equal. change (256 ^ Z.of_nat 4) with 4294967296. lia. }
      destruct Hv' as [Hr Hb]. clearbody v'. rewrite <- Hb.
      destruct typed; [unfold typed32BE; write_bytes; by rewrite !shr_byte, le_bytes_4 by lia
                      |by rewrite object32 by (done || lia)].
Qed.

(** ** Variable-width writers *)

Lemma store_up_region typed pre seg post off v f :
  zlength pre = off -> seg <> [] ->
  stored typed (length seg - 1) f 1 = le_bytes (length seg - 1) (v / 256) ->
  store_up typed (Z.to_nat (Z.of_nat (length seg) - 1))
    (set_ typed (pre ++ seg ++ post) off (js_and v 255)) f off 0 1 =
  pre ++ le_bytes (length seg) v ++ post.
Proof.
  intros Hp Hne Hf. destruct seg as [|x seg]; [done|]. cbn [length] in *.
  rewrite set_0 by (done || (cbn; lia)). cbn [insert list_insert].
  replace (Z.to_nat (Z.of_nat (S (length seg)) - 1)) with (length seg) by lia.
  rewrite Nat.sub_succ, Nat.sub_0_r in Hf.
  change (?y :: seg) with ([y] ++ seg). rewrite store_up_value by (done || (cbn; lia)).
  rewrite Hf, js_and_255, to_uint8_byte by (apply Z.mod_pos_bound; lia). done.
Qed.

Lemma store_down_region typed pre seg post off v f :
  zlength pre = off -> seg <> [] ->
  stored typed (length seg - 1) f 1 = le_bytes (length seg - 1) (v / 256) ->
  let i := Z.of_nat (length seg) - 1 in
  store_down typed (Z.to_nat i) (set_ typed (pre ++ seg ++ post) (off + i) (js_and v 255)) f off i 1 =
  pre ++ rev (le_bytes (length seg) v) ++ post.
Proof.
  intros Hp Hne Hf. destruct seg as [|x seg _] using rev_ind; [done|]. cbv zeta.
  rewrite length_app in *. cbn [length] in *. rewrite Nat.add_sub in Hf.
  replace (Z.of_nat (length seg + 1) - 1) with (Z.of_nat (length seg)) by lia.
  rewrite (set_app typed pre (seg ++ [x])) by (rewrite ?length_app; cbn; lia).
  rewrite Nat2Z.id, insert_mid, app_nil_r, store_down_value by done.
  rewrite Hf, Nat.add_comm. cbn [Nat.add le_bytes rev].
  by rewrite js_and_255, to_uint8_byte by (apply Z.mod_pos_bound; lia).
Qed.

Lemma acc_stored_exact a v : acc_exact a v -> acc_stored a v = v.
Proof.
  destruct a as [| | | | | | |le n]; try done. cbn. intros H.
  destruct (Z.ltb_spec v 0), (Z.eqb_spec (v mod 256) 0), (Nat.eqb_spec n 1); try done. destruct H as [|[|]]; [lia|done|done].
Qed.

Lemma acc_stored_inexact a v : acc_ok a -> ~ acc_exact a v -> acc_stored a v = v - 256.
Proof.
  destruct a as [| | | | | | |le n]; try (intros _ []; done). cbn. intros Hn H.
  destruct (Z.ltb_spec v 0); [|destruct H; by left]. destruct (Z.eqb_spec (v mod 256) 0); [|destruct H; auto].
  destruct (Nat.eqb_spec n 1); [destruct H; auto|done].
Qed.

(** The bytes of the loop of the signed writers. *)
Lemma stored_int typed le n v : (1 <= n)%nat ->
  stored typed (n - 1) (int_byte v) 1 = le_bytes (n - 1) (acc_stored (AInt le n) v / 256) /\
  v mod 256 = acc_stored (AInt le n) v mod 256.
Proof.
  intros Hn. cbn [acc_stored].
  assert (Hdiv : forall k, (256 | 1 * 256 ^ Z.of_nat (S k))).
  { intros k. rewrite Nat2Z.inj_succ, Z.pow_succ_r, Z.mul_1_l by lia. by exists (256 ^ Z.of_nat k); lia. }
  destruct (Z.ltb_spec v 0) as [Hv|Hv]; [destruct (Z.eqb_spec (v mod 256) 0) as [H0|H0]; [destruct (Nat.eqb_spec n 1) as [->|H1]|]|];
    cbn [andb negb]; try done; try (split; [|done]).
  - split.
    + rewrite (stored_le_bytes _ _ _ (v - 256)); [done|lia|]. intros k Hk. by apply int_byte_borrowed; [lia|..].
    + rewrite <- (Z.mod_add v (-1) 256) by lia. f_equal; lia.
  - rewrite (stored_le_bytes _ _ _ v); [done|lia|]. intros k Hk. apply int_byte_value; auto; lia.
  - rewrite (stored_le_bytes _ _ _ v); [done|lia|]. intros k Hk. apply int_byte_value; auto; lia.
Qed.

Lemma acc_write_region typed a pre seg post off v :
  acc_ok a -> acc_range a v -> zlength pre = off -> off < 2 ^ 31 -> length seg = acc_size a ->
  acc_write typed a (pre ++ seg ++ post) v off false =
  Ok (pre ++ acc_bytes a (acc_stored a v) ++ post, off + Z.of_nat (acc_size a)).
Proof.
  intros Ha Hv Hp Hoff Hl.
  destruct a as [| |le|le|le|le|le n|le n]; try (by apply acc_write_fixed).
  all: cbn [acc_ok acc_size] in *; unfold acc_range, acc_bits in Hv; cbn [acc_signed acc_size] in Hv.
  all: assert (Hne : seg <> []) by (intros ->; cbn in Hl; lia).
  all: assert (Hlen : off + Z.of_nat n <= zlength (pre ++ seg ++ post))
    by (unfold zlength in *; rewrite !length_app; lia).
  all: assert (Hint : to_int32 off = off) by (apply to_int32_id; unfold is_int32, zlength in *; lia).
  - assert (Hst : stored typed (length seg - 1) (uint_byte v) 1 = le_bytes (length seg - 1) (v / 256)).
    { rewrite (stored_le_bytes _ _ _ v) by (lia || (intros; apply uint_byte_value; lia)). done. }
    destruct le; cbn [acc_write acc_stored]; unfold writeUIntLE, writeUIntBE;
      rewrite Hint, is_int32_nat, assert_write_ok by lia; cbn [mbind res_bind]; rewrite <- Hl;
      unfold acc_bytes; cbn [acc_le acc_size];
      [rewrite (store_up_region _ _ _ _ _ v) by done|rewrite (store_down_region _ _ _ _ _ v) by done];
      by rewrite Hl.
  - destruct (stored_int typed le n v ltac:(lia)) as [Hst Hmod]. set (w := acc_stored (AInt le n) v) in *. clearbody w.
    rewrite <- Hl in Hst. assert (Hand : js_and v 255 = js_and w 255) by by rewrite !js_and_255.
    destruct le; cbn [acc_write]; unfold writeIntLE, writeIntBE;
      rewrite Hint, assert_write_ok, Hand by lia; cbn [mbind res_bind]; rewrite <- Hl;
      unfold acc_bytes; cbn [acc_le acc_size];
      [rewrite (store_up_region _ _ _ _ _ w) by done|rewrite (store_down_region _ _ _ _ _ w) by done];
      by rewrite Hl.
Qed.

(** ** Reading back the reference bytes *)

Lemma length_acc_bytes a v : length (acc_bytes a v) = acc_size a.
Proof. unfold acc_bytes. destruct (acc_le a); rewrite ?length_rev; apply length_le_bytes. Qed.

Lemma acc_bytes_byte a v : Forall is_byte (acc_bytes a v).
Proof. unfold acc_bytes. destruct (acc_le a); [|apply Forall_rev]; apply le_bytes_byte. Qed.

Lemma acc_value_signed a v :
  acc_value a (acc_bytes a v) = (if acc_signed a then signed_of (acc_bits a) else id) (v mod 2 ^ acc_bits a).
Proof.
  unfold acc_value, acc_bytes.
  assert (E : le_value (if acc_le a then if acc_le a then le_bytes (acc_size a) v
                else rev (le_bytes (acc_size a) v)
              else rev (if acc_le a then le_bytes (acc_size a) v else rev (le_bytes (acc_size a) v)))
              = v mod 2 ^ acc_bits a).
  { destruct (acc_le a); rewrite ?rev_involutive; rewrite le_value_bytes; unfold acc_bits;
      change 256 with (2 ^ 8); rewrite <- Z.pow_mul_r by lia; done. }
  rewrite E. by destruct (acc_signed a).
Qed.

Lemma acc_value_bytes a v : acc_ok a -> acc_range a v -> acc_value a (acc_bytes a v) = v.
Proof.
  intros Ha Hv. rewrite acc_value_signed. unfold acc_range in Hv. destruct (acc_signed a).
  - apply signed_of_mod; [|done]. unfold acc_bits. destruct a; cbn in *; lia.
  - by apply Z.mod_small.
Qed.

Lemma signed_of_same n u : 0 < n -> signed_of n u mod 2 ^ n = u mod 2 ^ n.
Proof.
  intros Hn. unfold signed_of. destruct (_ <? _); [done|]. rewrite <- (Z.mod_add (u - 2 ^ n) 1) by lia. f_equal. lia.
Qed.

(** The value read back is the one that was written just when it is one that
    the writer gets right. *)
Lemma acc_value_stored a v : acc_ok a -> acc_range a v -> acc_value a (acc_bytes a (acc_stored a v)) = v <-> acc_exact a v.
Proof.
  intros Ha Hv. split; [|intros Hx; by rewrite acc_stored_exact, acc_value_bytes].
  intros E. destruct a as [| |le|le|le|le|le n|le n]; try done. cbn [acc_ok] in Ha.
  destruct (decide (n = 1%nat)) as [->|Hn]; [by right; right|]. destruct (decide (0 <= v \/ v mod 256 <> 0)) as [Hd|Hx]; [unfold acc_exact; tauto|exfalso].
  rewrite acc_stored_inexact in E by (done || (unfold acc_exact; tauto)). rewrite acc_value_signed in E. cbn [acc_signed] in E.
  assert (Hb : acc_bits (AInt le n) = 16 + 8 * (Z.of_nat n - 2)) by (unfold acc_bits; cbn; lia).
  assert (E2 : (v - 256) mod 2 ^ acc_bits (AInt le n) = v mod 2 ^ acc_bits (AInt le n)).
  { rewrite <- E at 2. rewrite signed_of_same by (rewrite Hb; lia). by rewrite Z.mod_mod by lia. }
  rewrite Hb, Z.pow_add_r in E2 by lia. set (k := 2 ^ (8 * (Z.of_nat n - 2))) in *. assert (0 < k) by (apply Z.pow_pos_nonneg; lia).
  change (2 ^ 16) with 65536 in E2. pose proof (Z.div_mod (v - 256) (65536 * k) ltac:(lia)). pose proof (Z.div_mod v (65536 * k) ltac:(lia)). nia.
Qed.

(** ** Properties *)

(** Every asserted integer reader of the Buffer module, at any offset
    inside the buffer, returns the number its byte order and signedness give
    to the bytes of the region it covers. *)
Theorem read_value a b off :
  acc_ok a -> Forall is_byte b -> 0 <= off < 2 ^ 31 -> off + Z.of_nat (acc_size a) <= zlength b ->
  acc_read a b off false = Ok (Some (acc_value a (region b off (acc_size a)))).
Proof.
  intros Ha Hb Hoff Hlen.
  destruct (region_split b off (acc_size a)) as (pre & post & E & Hp & Hl); [lia..|].
  rewrite E at 1. rewrite acc_read_region; try done; [|lia].
  rewrite E in Hb. apply Forall_app in Hb as [_ Hb]. by apply Forall_app in Hb as [Hb _].
Qed.

Lemma read_value_witness :
  acc_read (AInt16 false) [0; 255; 254; 7] 1 false = Ok (Some (-2)).
Proof. exact (read_value (AInt16 false) [0; 255; 254; 7] 1 I ltac:(repeat constructor; done) ltac:(done) ltac:(done)). Defined.

(** C7. An asserted write of a value in the range of the accessor stores
    bytes in the region and leaves every other byte of the buffer alone.  They
    are the bytes of the value, which the reader of the same accessor then
    gives back, but for the negative multiples of 256 in the signed writers of
    two or more bytes: of those the bytes of the multiple before are stored,
    and the value is not given back. *)
Theorem write_read typed a b v off :
  acc_ok a -> acc_range a v ->
  0 <= off < 2 ^ 31 -> off + Z.of_nat (acc_size a) <= zlength b -> Forall is_byte b ->
  exists b', acc_write typed a b v off false = Ok (b', off + Z.of_nat (acc_size a)) /\
    b' = splice b off (acc_bytes a (acc_stored a v)) /\ length b' = length b /\ Forall is_byte b' /\
    (acc_read a b' off false = Ok (Some v) <-> acc_exact a v).
Proof.
  intros Ha Hv Hoff Hlen Hb.
  destruct (region_split b off (acc_size a)) as (pre & post & E & Hp & Hl); [lia..|].
  exists (pre ++ acc_bytes a (acc_stored a v) ++ post). rewrite E at 1 2 3. rewrite E in Hb.
  apply Forall_app in Hb as [Hb1 [_ Hb2]%Forall_app].
  split; [apply acc_write_region; (done || lia)|].
  split; [symmetry; apply splice_app; [done|by rewrite length_acc_bytes]|].
  split; [rewrite !length_app, length_acc_bytes; lia|].
  split; [rewrite !Forall_app; auto using acc_bytes_byte|].
  rewrite acc_read_region by (try done; try lia; auto using acc_bytes_byte, length_acc_bytes).
  rewrite <- acc_value_stored by done. split; [congruence|by intros ->].
Qed.

Lemma write_read_witness :
  exists b', acc_write true (AInt true 3) [9; 9; 9; 9; 9] (-70000) 1 false = Ok (b', 4) /\
    b' = [9; 144; 238; 254; 9] /\ length b' = 5%nat /\ Forall is_byte b' /\
    (acc_read (AInt true 3) b' 1 false = Ok (Some (-70000)) <-> acc_exact (AInt true 3) (-70000)).
Proof.
  exact (write_read true (AInt true 3) [9; 9; 9; 9; 9] (-70000) 1 ltac:(cbn; lia) ltac:(by vm_compute)
    ltac:(done) ltac:(done) ltac:(repeat constructor; done)).
Defined.

Lemma assert_read_spec b off n :
  assert_read false b off n = if (off <? 0) || (zlength b <? off + n) then Throw RangeError else Ok tt.
Proof.
  unfold assert_read, checkOffset, guard_or.
  by destruct (off <? 0); [|destruct (zlength b <? off + n)].
Qed.

(** C8. An asserted reader throws a RangeError exactly when its region is not
    inside the buffer. *)
Theorem read_throws a b off :
  acc_ok a -> is_int32 off ->
  acc_read a b off false = Throw RangeError <->
  off < 0 \/ zlength b < off + Z.of_nat (acc_size a).
Proof.
  intros Ha Hoff.
  assert (E : exists v, acc_read a b off false =
    (_ ← assert_read false b off (Z.of_nat (acc_size a)); Ok v)).
  { destruct a as [| |[]|[]|[]|[]|[] n|[] n];
      cbn [acc_read acc_size Z.of_nat Pos.of_succ_nat Pos.succ];
      unfold readUIntLE, readUIntBE, readIntLE, readIntBE;
      rewrite ?(to_int32_id _ Hoff), ?is_int32_nat by (cbn in Ha; lia);
      try (eexists; reflexivity).
    unfold readInt8. cbv zeta. destruct (_ =? 0); eexists; reflexivity. }
  destruct E as [w ->]. rewrite assert_read_spec.
  destruct (Z.ltb_spec off 0), (Z.ltb_spec (zlength b) (off + Z.of_nat (acc_size a))); cbn;
    split; intros; (done || lia || by destruct H1).
Qed.

Lemma read_throws_witness :
  acc_read (AUInt32 true) [1; 2; 3; 4; 5] 2 false = Throw RangeError <-> 2 < 0 \/ 5 < 2 + 4.
Proof. exact (read_throws (AUInt32 true) [1; 2; 3; 4; 5] 2 I ltac:(by vm_compute)). Defined.

Lemma stored_byte typed n v mul : Forall is_byte (stored typed n (int_byte v) mul).
Proof.
  revert mul. induction n as [|n IH]; intros mul; cbn [stored]; [done|]. constructor; [|done].
  assert (H : is_byte (int_byte v (mul * 256))).
  { unfold int_byte. rewrite js_and_255. apply Z.mod_pos_bound. lia. }
  by rewrite to_uint8_byte.
Qed.

(** The borrow out of a zero first byte. *)
Lemma int_byte_borrow v :
  v < 0 -> v mod 256 = 0 -> int_byte v 256 = (v / 256 - 1) mod 256.
Proof.
  intros Hv H0. unfold int_byte. destruct (Z.ltb_spec v 0); [|lia].
  assert (Hq : Z.quot v 256 = v / 256) by (rewrite Z.quot_div_exact by (try lia; by apply Z.mod_divide); done).
  rewrite Hq, js_and_255. unfold js_sar. change (0 mod 32) with 0. rewrite Z.shiftr_0_r.
  rewrite to_int32_id by apply to_int32_range.
  rewrite Zminus_mod, to_int32_mod by (try lia; exists (2 ^ 24); done). by rewrite <- Zminus_mod.
Qed.

(** The bytes a read value has are the bytes it was read from. *)
Lemma le_bytes_signed n bs :
  length bs = n -> Forall is_byte bs -> le_bytes n (acc_value (AInt true n) bs) = bs.
Proof.
  intros <- Hb. unfold acc_value, acc_bits, signed_of. cbn [acc_signed acc_le acc_size].
  destruct (_ <? _); [by apply le_bytes_value|].
  replace (2 ^ (8 * Z.of_nat (length bs))) with (256 ^ Z.of_nat (length bs))
    by (change 256 with (2 ^ 8); by rewrite <- Z.pow_mul_r by lia).
  replace (_ - _) with (le_value bs + -1 * 256 ^ Z.of_nat (length bs)) by lia.
  by rewrite le_bytes_mod, le_bytes_value.
Qed.

(** The variable-width signed writer subtracts a borrow from the second
    byte of every negative value, whether the first byte is zero or not: for
    a negative multiple of 256 that the accessor can hold, the write succeeds
    and the stored second byte is one less than the value's, so the reader
    does not give the value back. *)
Theorem writeIntLE_borrow typed b v off n :
  (2 <= n <= 6)%nat -> acc_range (AInt true n) v -> v < 0 -> v mod 256 = 0 ->
  0 <= off < 2 ^ 31 -> off + Z.of_nat n <= zlength b ->
  exists b', writeIntLE typed b v off (Z.of_nat n) false = Ok (b', off + Z.of_nat n) /\
    at_ b' (off + 1) = Some ((v / 256 - 1) mod 256) /\
    readIntLE b' off (Z.of_nat n) false <> Ok (Some v).
Proof.
  intros Hn Hv Hneg H0 Hoff Hlen.
  destruct (region_split b off n) as (pre & post & E & Hp & Hl); [lia..|].
  set (seg := region b off n) in *. destruct seg as [|x seg]; [cbn in Hl; lia|]. cbn [length] in Hl.
  set (bs := v mod 256 :: stored typed (length seg) (int_byte v) 1).
  assert (Hw : writeIntLE typed b v off (Z.of_nat n) false = Ok (pre ++ bs ++ post, off + Z.of_nat n)).
  { unfold writeIntLE. rewrite (to_int32_id off) by (unfold is_int32; lia).
    unfold acc_range, acc_bits in Hv. cbn [acc_signed acc_size] in Hv.
    rewrite assert_write_ok by lia. cbn [mbind res_bind]. rewrite E, set_0 by (done || (cbn; lia)).
    cbn [insert list_insert]. rewrite js_and_255, to_uint8_byte by (apply Z.mod_pos_bound; lia).
    change (?y :: seg) with ([y] ++ seg).
    replace (Z.to_nat (Z.of_nat n - 1)) with (length seg) by lia.
    by rewrite store_up_value by (done || (cbn; lia)). }
  assert (Hbs : length bs = n /\ Forall is_byte bs).
  { split; [subst bs; cbn; rewrite length_stored; lia|]. constructor; [apply Z.mod_pos_bound; lia|].
    apply stored_byte. }
  destruct Hbs as [Hbl Hbb].
  assert (H1 : bs !! 1%nat = Some ((v / 256 - 1) mod 256)).
  { subst bs. destruct seg as [|y seg]; [cbn in Hl; lia|]. cbn [length stored].
    change (1 * 256) with 256. rewrite int_byte_borrow, to_uint8_byte by (done || (apply Z.mod_pos_bound; lia)).
    done. }
  exists (pre ++ bs ++ post). split; [done|]. split.
  - rewrite at_app by (done || (rewrite Hbl; lia)). exact H1.
  - change (readIntLE ?b off (Z.of_nat n) false) with (acc_read (AInt true n) b off false).
    rewrite (acc_read_region (AInt true n) pre bs post off) by (assumption || (cbn [acc_ok]; lia)).
    intros [= Hr].
    pose proof (le_bytes_signed n bs Hbl Hbb) as Hc. rewrite Hr in Hc. rewrite <- Hc in H1.
    destruct n as [|[|n]]; [lia..|]. cbn [le_bytes] in H1. injection H1 as H1.
    clear -H1. revert H1. generalize (v / 256). intros u H1.
    Z.div_mod_to_equations. lia.
Qed.

Lemma writeIntLE_borrow_witness :
  exists b', writeIntLE true [0; 0] (-256) 0 2 false = Ok (b', 2) /\
    at_ b' 1 = Some 254 /\ readIntLE b' 0 2 false <> Ok (Some (-256)).
Proof.
  exact (writeIntLE_borrow true [0; 0] (-256) 0 2 ltac:(lia) ltac:(by vm_compute) ltac:(done)
    ltac:(done) ltac:(done) ltac:(done)).
Defined.

(** ** Bounds of the writers *)

(** The largest value the check of a writer lets through: the variable-width
    unsigned writers pass a maximum that is one too large. *)
Definition acc_max (a : accessor) : Z :=
  match a with AUInt _ _ => 2 ^ acc_bits a | _ => if acc_signed a then 2 ^ (acc_bits a - 1) - 1 else 2 ^ acc_bits a - 1 end.
Definition acc_min (a : accessor) : Z := if acc_signed a then - 2 ^ (acc_bits a - 1) else 0.

(** The value that does not fit and is not refused. *)
Definition one_too_many (a : accessor) (v : Z) : Prop :=
  match a with AUInt _ _ => v = 2 ^ acc_bits a | _ => False end.

Lemma acc_refused a v : acc_max a < v \/ v < acc_min a <-> ~ acc_range a v /\ ~ one_too_many a v.
Proof. unfold acc_max, acc_min, acc_range, one_too_many. destruct a; cbn [acc_signed]; lia. Qed.

Lemma and_255_byte v : is_byte (js_and v 255).
Proof. rewrite js_and_255. apply Z.mod_pos_bound. lia. Qed.
Lemma field_byte v k : k = 0 \/ k = 1 -> is_byte (js_shr (js_and v (js_shl 255 (8 * k))) (k * 8)).
Proof.
  intros Hk. assert (E : js_and v (js_shl 255 (8 * k)) = js_and (to_int32 v) (js_shl 255 (8 * k))).
  { unfold js_and. by rewrite (to_int32_id (to_int32 v)) by apply to_int32_range. }
  rewrite E, js_shl_mul by (unfold is_int32; destruct Hk; subst k; lia). change 255 with (2 ^ 8 - 1).
  rewrite js_and_field by (lia || apply to_int32_range).
  pose proof (Z.mod_pos_bound (to_int32 v / 2 ^ (8 * k)) (2 ^ 8) ltac:(lia)). replace (k * 8) with (8 * k) by lia.
  rewrite js_shr_div, Z.div_mul by (destruct Hk; subst k; lia). exact H.
Qed.
#[local] Hint Resolve and_255_byte field_byte : core.

(** The buffer keeps its length, and, where [ok], its elements are bytes. *)
Definition same_shape (ok : Prop) (b b' : bytes) : Prop := length b' = length b /\ (ok -> Forall is_byte b -> Forall is_byte b').
Section Shape.
Variable typed : bool.
Variable ok : Prop.
Lemma shape_refl b : same_shape ok b b.
Proof. by split. Qed.
Lemma shape_set b0 b i v : same_shape ok b0 b -> (ok -> typed = true \/ is_byte v) -> same_shape ok b0 (set_ typed b i v).
Proof.
  intros [Hl Hb] Hv. unfold set_. destruct (i <? 0); [by split|]. split; [by rewrite length_insert|]. intros Hok H. apply Forall_insert; [auto|].
  destruct typed; [apply Z.mod_pos_bound; lia|]. by destruct (Hv Hok).
Qed.
Lemma shape_typed b0 b i v : same_shape ok b0 b -> same_shape ok b0 (set_ true b i v).
Proof using. clear typed. intros [Hl Hb]. unfold set_. destruct (i <? 0); [by split|]. split; [by rewrite length_insert|]. intros Hok H. apply Forall_insert; [auto|]. apply Z.mod_pos_bound. lia. Qed.
Lemma shape_up n f off : (forall m, is_byte (f m)) -> forall b0 b i mul, same_shape ok b0 b -> same_shape ok b0 (store_up typed n b f off i mul).
Proof. intros Hf. induction n as [|n IH]; intros b0 b i mul H; cbn; [done|]. apply IH. apply shape_set; auto. Qed.
Lemma shape_down n f off : (forall m, is_byte (f m)) -> forall b0 b i mul, same_shape ok b0 b -> same_shape ok b0 (store_down typed n b f off i mul).
Proof. intros Hf. induction n as [|n IH]; intros b0 b i mul H; cbn; [done|]. apply IH. apply shape_set; auto. Qed.
Lemma shape_object n f off : forall b0 b i, (forall k, i <= k < i + Z.of_nat n -> is_byte (f k)) ->
  same_shape ok b0 b -> same_shape ok b0 (object_stores typed n i b off f).
Proof.
  induction n as [|n IH]; intros b0 b i Hf H; cbn [object_stores]; [done|]. apply IH; [intros k Hk; apply Hf; lia|].
  apply shape_set; [done|]. intros _. right. apply Hf. lia.
Qed.
Lemma shape_object16 b v off le : same_shape ok b (objectWriteUInt16 typed b v off le).
Proof. apply shape_object; [|apply shape_refl]. intros k Hk. apply field_byte. destruct le; lia. Qed.
Lemma shape_object32 b v off le : same_shape ok b (objectWriteUInt32 typed b v off le).
Proof. apply shape_object; [|apply shape_refl]. intros k Hk. apply and_255_byte. Qed.
End Shape.
#[local] Hint Resolve shape_refl shape_typed shape_object16 shape_object32 : core.

(** Every writer checks, and then stores: bytes, but for the one-byte writers
    without typed arrays, which store what they are given. *)
Lemma acc_write_checked typed a b v off noAssert : acc_ok a -> is_int32 off ->
  exists b', same_shape (typed = true \/ acc_min a <= v <= acc_max a) b b' /\ acc_write typed a b v off noAssert =
    (_ ← assert_write noAssert b v off (Z.of_nat (acc_size a)) (acc_max a) (acc_min a); Ok (b', off + Z.of_nat (acc_size a))).
Proof.
  intros Ha Hoff.
  destruct a as [| |[]|[]|[]|[]|[] n|[] n]; cbn [acc_write acc_size Z.of_nat Pos.of_succ_nat Pos.succ];
    unfold writeUInt8, writeInt8, writeUInt16LE, writeUInt16BE, writeInt16LE, writeInt16BE, writeUInt32LE, writeUInt32BE,
      writeInt32LE, writeInt32BE, writeUIntLE, writeUIntBE, writeIntLE, writeIntBE, typed16LE, typed16BE, typed32LE, typed32BE, typed32LE_up;
    rewrite ?(to_int32_id _ Hoff), ?is_int32_nat by (cbn in Ha; lia); (eexists; split; [|reflexivity]).
  1: change (acc_min AUInt8) with 0; change (acc_max AUInt8) with 255; apply shape_set; [auto|]; intros [|]; [by left|right; unfold is_byte; lia].
  1: change (acc_min AInt8) with (-128); change (acc_max AInt8) with 127; apply shape_set; [auto|]; intros [|]; [by left|right];
    unfold is_byte; destruct (Z.ltb_spec v 0); lia.
  all: try (apply shape_up || apply shape_down; [intros; apply and_255_byte|]; apply shape_set; auto).
  all: destruct typed; auto 8.
Qed.

(** C12. An asserted writer throws a RangeError exactly when the value is
    neither in the range of the accessor nor, for the variable-width unsigned
    writers, [2 ^ bits], or when the region ends after the buffer (a negative
    offset is let through).  No write, asserted or not, with typed arrays or
    without, changes the length of the buffer; and an asserted write, or any
    write to a typed array, leaves nothing but bytes in it. *)
Theorem write_bounds typed a b v off : acc_ok a -> is_int32 off ->
  (acc_write typed a b v off false = Throw RangeError <->
   ~ acc_range a v /\ ~ one_too_many a v \/ zlength b < off + Z.of_nat (acc_size a)) /\
  (forall noAssert b' n, acc_write typed a b v off noAssert = Ok (b', n) ->
   n = off + Z.of_nat (acc_size a) /\ length b' = length b /\
   (typed = true \/ noAssert = false -> Forall is_byte b -> Forall is_byte b')).
Proof.
  intros Ha Hoff. rewrite <- acc_refused. split.
  - destruct (acc_write_checked typed a b v off false Ha Hoff) as (b' & _ & ->). unfold assert_write, checkInt, guard_or.
    destruct (Z.ltb_spec (acc_max a) v), (Z.ltb_spec v (acc_min a)), (Z.ltb_spec (zlength b) (off + Z.of_nat (acc_size a))); cbn;
      split; intros; (done || lia).
  - intros na b' n. destruct (acc_write_checked typed a b v off na Ha Hoff) as (b2 & [Hl Hb] & ->).
    destruct (assert_write _ _ _ _ _ _ _) as [u|] eqn:E; cbn; [|done]. intros [= <- <-]. split; [done|]. split; [done|].
    intros [Ht|Hna]; apply Hb; [by left|right]. subst na. unfold assert_write, checkInt, guard_or in E.
    destruct (Z.ltb_spec (acc_max a) v), (Z.ltb_spec v (acc_min a)); (done || lia).
Qed.

Lemma write_bounds_witness :
  (acc_write true (AUInt16 false) [1; 2; 3] 65536 0 false = Throw RangeError <->
   ~ acc_range (AUInt16 false) 65536 /\ ~ one_too_many (AUInt16 false) 65536 \/ zlength [1; 2; 3] < 0 + Z.of_nat (acc_size (AUInt16 false))) /\
  (forall noAssert b' n, acc_write true (AUInt16 false) [1; 2; 3] 65536 0 noAssert = Ok (b', n) ->
   n = 0 + Z.of_nat (acc_size (AUInt16 false)) /\ length b' = 3%nat /\
   (true = true \/ noAssert = false -> Forall is_byte [1; 2; 3] -> Forall is_byte b')).
Proof. exact (write_bounds true (AUInt16 false) [1; 2; 3] 65536 0 I ltac:(by vm_compute)). Defined.

(** One past the largest value; no byte in a buffer that is no typed array; and
    a negative offset, which stores nothing. *)
Example checkInt_too_wide : writeUIntBE true [9; 9] (2 ^ 8) 0 1 false = Ok ([0; 9], 1).
Proof. reflexivity. Qed.
Example unchecked_object : writeUInt8 false [9; 9] 300 0 true = Ok ([300; 9], 1).
Proof. reflexivity. Qed.
Example negative_offset : writeUInt8 true [9; 9] 7 (-1) false = Ok ([9; 9], 0).
Proof. reflexivity. Qed.
