(* ===== verification/Binary64.v ===== *)
(** * Doubles

    A number of JavaScript as the double it is: the binary64 format of the
    Standard Library's specification of floating-point arithmetic, with the
    products, sums and comparisons of the language, and [Math.pow(2, k)].  A
    product with a power of two whose result is again a double is exact; these
    are the lemmas that the reading and writing of doubles needs. *)

From Stdlib Require Import Floats.SpecFloat.
From S2P Require Import Prelude.

Abbreviation double := spec_float.
Definition dmul : double -> double -> double := SFmul 53 1024.
Definition dadd : double -> double -> double := SFadd 53 1024.
Definition dsub : double -> double -> double := SFsub 53 1024.
Definition ddiv : double -> double -> double := SFdiv 53 1024.
Definition valid (x : double) : Prop := valid_binary 53 1024 x = true.

(** The double nearest to [m * 2 ^ e], and [Math.pow(2, k)]. *)
Definition dyadic (m e : Z) : double := binary_normalize 53 1024 m e false.
Definition pow2 (k : Z) : double := dyadic 1 k.
Definition of_int (n : Z) : double := dyadic n 0.
Definition infinity : double := S754_infinity false.

(** The integer part, as the bit operators see it (NaN and the infinities are
    0). *)
Definition truncate (x : double) : Z :=
  match x with
  | S754_finite s m e =>
      let n := if 0 <=? e then Z.pos m * 2 ^ e else Z.pos m / 2 ^ (- e) in if s then - n else n
  | _ => 0
  end.

(** [floor(log2 x)] of a finite number. *)
Definition bits (m : positive) : Z := Z.pos (digits2_pos m).
Definition magnitude (m : positive) (e : Z) : Z := bits m + e - 1.

(** ** Binary digits *)

Lemma bits_bounds m : 2 ^ (bits m - 1) <= Z.pos m < 2 ^ bits m.
Proof.
  unfold bits. induction m as [m IH|m IH|]; cbn [digits2_pos]; [| |done].
  all: rewrite Pos2Z.inj_succ, Z.pow_succ_r by lia.
  all: replace (Z.succ (Z.pos (digits2_pos m)) - 1) with (Z.succ (Z.pos (digits2_pos m) - 1)) by lia.
  all: rewrite Z.pow_succ_r by lia; lia.
Qed.
Lemma bits_unique m d : 0 < d -> 2 ^ (d - 1) <= Z.pos m < 2 ^ d -> bits m = d.
Proof.
  intros Hd Hm. pose proof (bits_bounds m) as Hb. assert (0 < bits m) by (unfold bits; lia).
  destruct (Z.lt_trichotomy (bits m) d) as [H1|[H1|H1]]; [|done|].
  - assert (2 ^ bits m <= 2 ^ (d - 1)) by (apply Z.pow_le_mono_r; lia). lia.
  - assert (2 ^ d <= 2 ^ (bits m - 1)) by (apply Z.pow_le_mono_r; lia). lia.
Qed.
Lemma bits_shift m n k : 0 <= k -> Z.pos n = Z.pos m * 2 ^ k -> bits n = bits m + k.
Proof.
  intros Hk E. pose proof (bits_bounds m). apply bits_unique; [unfold bits in *; lia|]. rewrite E.
  assert (0 < bits m) by (unfold bits; lia).
  replace (bits m + k - 1) with ((bits m - 1) + k) by lia. rewrite !Z.pow_add_r by lia.
  assert (0 < 2 ^ k) by lia. nia.
Qed.

(** ** Shifting out zeros *)

Lemma shr_1_even m : shr_1 (Build_shr_record (2 * m) false false) = Build_shr_record m false false.
Proof. by destruct m as [|m|m]. Qed.
Lemma iter_pos_iter {A} (f : A -> A) p : forall x, SpecFloat.iter_pos f p x = Pos.iter f x p.
Proof.
  induction p as [p IH|p IH|]; intros x; cbn [SpecFloat.iter_pos Pos.iter].
  - rewrite !IH. by rewrite !Pos.iter_swap.
  - by rewrite !IH.
  - done.
Qed.
Lemma shr_zeros m e n : 0 <= n ->
  shr (Build_shr_record (m * 2 ^ n) false false) e n = (Build_shr_record m false false, e + n).
Proof.
  intros Hn. destruct n as [|p|]; [by rewrite Z.mul_1_r, Z.add_0_r| |lia]. unfold shr. f_equal. rewrite iter_pos_iter.
  induction p as [|p IH] using Pos.peano_ind.
  - cbn [Pos.iter]. change (2 ^ 1) with 2. by rewrite Z.mul_comm, shr_1_even.
  - rewrite Pos.iter_succ_r. rewrite Pos2Z.inj_succ, Z.pow_succ_r by lia.
    replace (m * (2 * 2 ^ Z.pos p)) with (2 * (m * 2 ^ Z.pos p)) by lia. by rewrite shr_1_even, IH.
Qed.

(** ** Exact results *)

Definition canonical (m : positive) (e : Z) : Prop := fexp 53 1024 (bits m + e) = e /\ e <= 971.
Lemma valid_canonical s m e : valid (S754_finite s m e) <-> canonical m e.
Proof.
  unfold valid, canonical, valid_binary, bounded, canonical_mantissa. rewrite andb_true_iff, Z.eqb_eq, Z.leb_le. done.
Qed.
Lemma canonical_range m e : canonical m e -> 1 <= bits m <= 53 /\ -1074 <= e <= 971 /\ (bits m = 53 \/ e = -1074).
Proof. unfold canonical, fexp, emin. assert (0 < bits m) by (unfold bits; lia). lia. Qed.

(** Rounding leaves a number alone that is a double with zeros at its end. *)
Lemma round_exact s (n m : positive) e k : canonical m (e + k) -> 0 <= k -> Z.pos n = Z.pos m * 2 ^ k ->
  binary_round_aux 53 1024 s (Z.pos n) e loc_Exact = S754_finite s m (e + k).
Proof.
  intros [Hc He] Hk E. unfold binary_round_aux, shr_fexp, shr_record_of_loc. cbn [Zdigits2].
  fold (bits n). rewrite (bits_shift m n k Hk E). replace (bits m + k + e) with (bits m + (e + k)) by lia. rewrite Hc.
  replace (e + k - e) with k by lia. rewrite E, shr_zeros by done. cbn [shr_m loc_of_shr_record round_nearest_even Zdigits2].
  fold (bits m). rewrite Hc, Z.sub_diag. cbn [shr shr_m]. destruct (Z.leb_spec (e + k) (1024 - 53)); [done|lia].
Qed.

Lemma shift_pos m k : 0 <= k -> exists n : positive, Z.pos n = Z.pos m * 2 ^ k.
Proof. intros Hk. exists (Z.to_pos (Z.pos m * 2 ^ k)). rewrite Z2Pos.id; [done|]. assert (0 < 2 ^ k) by lia. nia. Qed.

Lemma pos_iter_xO m d : Z.pos (Pos.iter xO m d) = Z.pos m * 2 ^ Z.pos d.
Proof.
  induction d as [|d IH] using Pos.peano_ind.
  - cbn. lia.
  - rewrite Pos.iter_succ, Pos2Z.inj_xO, IH, Pos2Z.inj_succ, Z.pow_succ_r by lia. lia.
Qed.

(** A number of at most 53 bits, written with its low bits zero. *)
Lemma dyadic_exact (n m : positive) e k : canonical m (e - k) -> 0 <= k -> Z.pos m = Z.pos n * 2 ^ k ->
  dyadic (Z.pos n) e = S754_finite false m (e - k).
Proof.
  intros Hc Hk E. unfold dyadic, binary_normalize, binary_round, shl_align. fold (bits n).
  assert (Hb : bits n + e = bits m + (e - k)) by (rewrite (bits_shift n m k Hk E); lia). rewrite Hb. destruct Hc as [Hc He]. rewrite Hc.
  replace (e - k - e) with (- k) by lia. destruct k as [|k|]; [change (- 0) with 0|change (- Z.pos k) with (Z.neg k)|lia]; cbv beta iota zeta.
  - assert (n = m) as -> by lia. rewrite (round_exact false m m e 0); [by rewrite Z.add_0_r, Z.sub_0_r| |done|lia].
    unfold canonical in *. rewrite Z.sub_0_r in *. rewrite Z.add_0_r. split; [done|lia].
  - assert (Pos.iter xO n k = m) as -> by (apply Pos2Z.inj; by rewrite pos_iter_xO).
    rewrite (round_exact false m m (e - Z.pos k) 0); [f_equal; lia| |done|lia].
    unfold canonical in *. rewrite Z.add_0_r. split; [done|lia].
Qed.

(** ** Powers of two *)

#[export] Instance double_eq_dec : EqDecision double.
Proof. solve_decision. Defined.

Lemma by_range (P : Z -> bool) a n k : forallb P (seqZ a n) = true -> a <= k < a + n -> P k = true.
Proof. intros H Hk. rewrite forallb_forall in H. apply H, list_elem_of_In, elem_of_seqZ. lia. Qed.

Ltac by_range_check P a n :=
  match goal with k : Z |- _ =>
    let H := fresh in assert (H : P k = true) by (apply (by_range P a n); [by vm_compute|lia]);
    by apply bool_decide_eq_true_1 in H end.

Definition TOP : positive := 4503599627370496.
Lemma bits_TOP : bits TOP = 53.
Proof. done. Qed.
Lemma pow2_normal k : -1022 <= k <= 1023 -> pow2 k = S754_finite false TOP (k - 52).
Proof.
  intros Hk. by_range_check (fun k => bool_decide (pow2 k = S754_finite false TOP (k - 52))) ((-1022)) 2046.
Qed.
Lemma pow2_low k : -1074 <= k < -1022 -> pow2 k = S754_finite false (Z.to_pos (2 ^ (k + 1074))) (-1074).
Proof.
  intros Hk. by_range_check (fun k => bool_decide (pow2 k = S754_finite false (Z.to_pos (2 ^ (k + 1074))) (-1074))) ((-1074)) 52.
Qed.
Lemma pow2_infinite k : 1024 <= k <= 1100 -> pow2 k = infinity.
Proof.
  intros Hk. by_range_check (fun k => bool_decide (pow2 k = infinity)) (1024) 77.
Qed.
Lemma pow2_twice k : -1074 <= k <= 1099 -> dmul (pow2 k) (pow2 1) = pow2 (k + 1).
Proof.
  intros Hk. by_range_check (fun k => bool_decide (dmul (pow2 k) (pow2 1) = pow2 (k + 1))) ((-1074)) 2174.
Qed.
Lemma pow2_half k : -1073 <= k <= 1023 -> dmul (pow2 k) (pow2 (-1)) = pow2 (k - 1).
Proof.
  intros Hk. by_range_check (fun k => bool_decide (dmul (pow2 k) (pow2 (-1)) = pow2 (k - 1))) ((-1073)) 2097.
Qed.

(** ** Products with powers of two

    A mantissa with all of its 53 bits. *)
Definition wide (m : positive) : positive := Z.to_pos (Z.pos m * 2 ^ (53 - bits m)).
Lemma wide_value m : bits m <= 53 -> Z.pos (wide m) = Z.pos m * 2 ^ (53 - bits m).
Proof. intros H. unfold wide. apply Z2Pos.id. assert (0 < 2 ^ (53 - bits m)) by lia. nia. Qed.
Lemma wide_bits m : bits m <= 53 -> bits (wide m) = 53.
Proof. intros H. rewrite (bits_shift m (wide m) (53 - bits m)); [lia|lia|by apply wide_value]. Qed.
Lemma wide_full m : bits m = 53 -> wide m = m.
Proof. intros H. apply Pos2Z.inj. rewrite wide_value, H by lia. by rewrite Z.mul_1_r. Qed.
Lemma wide_canonical m e : bits m <= 53 -> -1074 <= e <= 971 -> canonical (wide m) e.
Proof. intros H He. unfold canonical, fexp, emin. rewrite wide_bits by done. lia. Qed.

Lemma dmul_pow2 s m e k : bits m <= 53 -> -1022 <= k <= 1023 -> -1074 <= bits m + e + k - 53 <= 971 ->
  dmul (S754_finite s m e) (pow2 k) = S754_finite s (wide m) (bits m + e + k - 53).
Proof.
  intros Hm Hk He. rewrite pow2_normal by done. unfold dmul, SFmul. rewrite xorb_false_r.
  assert (0 < bits m) by (unfold bits; lia).
  replace (bits m + e + k - 53) with (e + (k - 52) + (bits m - 1)) by lia. apply round_exact.
  - apply wide_canonical; [done|lia].
  - lia.
  - rewrite Pos2Z.inj_mul, wide_value by done. rewrite <- Z.mul_assoc, <- Z.pow_add_r by lia. do 2 f_equal.
    replace (53 - bits m + (bits m - 1)) with 52 by lia. done.
Qed.
Lemma dmul_pow2_low s m e k : bits m = 53 -> -1074 <= k < -1022 -> -1074 <= e + k <= 971 ->
  dmul (S754_finite s m e) (pow2 k) = S754_finite s m (e + k).
Proof.
  intros Hm Hk He. rewrite pow2_low by done. unfold dmul, SFmul. rewrite xorb_false_r.
  replace (e + k) with (e + -1074 + (k + 1074)) by lia. apply round_exact.
  - unfold canonical, fexp, emin. rewrite Hm. lia.
  - lia.
  - rewrite Pos2Z.inj_mul, Z2Pos.id; [done|]. lia.
Qed.
(** Into the smallest doubles: the zeros of the mantissa give way. *)
Lemma dmul_pow2_min s m : bits m <= 52 -> dmul (S754_finite s (wide m) (bits m - 53)) (pow2 (-1074)) = S754_finite s m (-1074).
Proof.
  intros Hm. assert (0 < bits m) by (unfold bits; lia). rewrite pow2_low by lia. unfold dmul, SFmul. rewrite xorb_false_r.
  change (Z.to_pos (2 ^ (-1074 + 1074))) with 1%positive. rewrite Pos.mul_1_r.
  replace (-1074) with (bits m - 53 + -1074 + (53 - bits m)) at 2 by lia. apply round_exact.
  - unfold canonical, fexp, emin. lia.
  - lia.
  - by apply wide_value; lia.
Qed.

Lemma dmul_zero s k : -1022 <= k <= 1023 -> dmul (S754_zero s) (pow2 k) = S754_zero s.
Proof. intros Hk. rewrite pow2_normal by done. unfold dmul, SFmul. by rewrite xorb_false_r. Qed.

(** ** Integers *)

Lemma of_int_pos n : bits n <= 53 -> of_int (Z.pos n) = S754_finite false (wide n) (bits n - 53).
Proof.
  intros Hn. assert (0 < bits n) by (unfold bits; lia). unfold of_int.
  replace (bits n - 53) with (0 - (53 - bits n)) by lia. apply dyadic_exact; [apply wide_canonical; lia|lia|by apply wide_value].
Qed.
Lemma bits_small n : 0 < n < 2 ^ 53 -> bits (Z.to_pos n) <= 53.
Proof.
  intros Hn. pose proof (bits_bounds (Z.to_pos n)) as H. rewrite Z2Pos.id in H by lia.
  destruct (decide (bits (Z.to_pos n) <= 53)); [done|].
  assert (2 ^ 53 <= 2 ^ (bits (Z.to_pos n) - 1)) by (apply Z.pow_le_mono_r; lia). lia.
Qed.

(** [n / 256 ^ i] for an integer of at most 53 bits: exact, and its integer
    part is that of the quotient. *)
Definition div256 (x : double) : double := dmul x (pow2 (-8)).
Lemma div256_iter i : forall n e, bits n <= 53 -> -900 <= e <= 0 -> 8 * Z.of_nat i <= 100 ->
  Nat.iter i div256 (S754_finite false (wide n) (bits n - 53 + e)) = S754_finite false (wide n) (bits n - 53 + e - 8 * Z.of_nat i).
Proof.
  induction i as [|i IH]; intros n e Hn He Hi; [by rewrite Z.sub_0_r|]. rewrite Nat.iter_succ, IH by lia.
  assert (0 < bits n) by (unfold bits; lia). unfold div256.
  rewrite dmul_pow2 by (rewrite ?wide_bits by done; lia). rewrite wide_bits by done. rewrite (wide_full (wide n)) by by apply wide_bits.
  f_equal. lia.
Qed.
Lemma truncate_div256 i n : 0 <= n < 2 ^ 53 -> 8 * Z.of_nat i <= 100 ->
  truncate (Nat.iter i div256 (of_int n)) = n / 2 ^ (8 * Z.of_nat i).
Proof.
  intros Hn Hi. destruct (decide (n = 0)) as [->|Hn0].
  { rewrite Z.div_0_l by lia. assert (E : Nat.iter i div256 (of_int 0) = S754_zero false); [|by rewrite E].
    clear. induction i as [|i IH]; [done|]. rewrite Nat.iter_succ, IH. by apply dmul_zero. }
  pose proof (bits_small n ltac:(lia)) as Hb. rewrite <- (Z2Pos.id n) by lia. set (p := Z.to_pos n) in *.
  assert (0 < bits p) by (unfold bits; lia).
  rewrite of_int_pos by done. replace (bits p - 53) with (bits p - 53 + 0) by lia. rewrite div256_iter by lia.
  cbn [truncate]. rewrite wide_value by done. set (k := 8 * Z.of_nat i). destruct (Z.leb_spec 0 (bits p - 53 + 0 - k)).
  - assert (bits p = 53 /\ k = 0) as [Eb Ek] by lia. rewrite Eb, Ek. cbn. rewrite Z.mul_1_r, Z.div_1_r. lia.
  - replace (- (bits p - 53 + 0 - k)) with (k + (53 - bits p)) by lia. rewrite Z.pow_add_r by lia.
    apply Z.div_mul_cancel_r; lia.
Qed.
Lemma truncate_of_int n : 0 <= n < 2 ^ 53 -> truncate (of_int n) = n.
Proof. intros H. pose proof (truncate_div256 O n H ltac:(lia)) as E. cbn in E. by rewrite E, Z.div_1_r. Qed.

(** ** Quotients by powers of two, and comparisons with them *)

Lemma div_eucl_multiple a b : b <> 0 -> Z.div_eucl (a * b) b = (a, 0).
Proof.
  intros Hb. rewrite (surjective_pairing (Z.div_eucl _ _)). change ((Z.div_eucl (a * b) b).1) with (a * b / b).
  change ((Z.div_eucl (a * b) b).2) with ((a * b) mod b). by rewrite Z.div_mul, Z.mod_mul.
Qed.
Lemma ddiv_pow2 s m e k : bits m <= 53 -> -1022 <= k <= 1023 -> -1000 <= bits m + e - k - 54 -> bits m + e - k - 53 <= 971 ->
  ddiv (S754_finite s m e) (pow2 k) = S754_finite s (wide m) (bits m + e - k - 53).
Proof.
  intros Hm Hk Hlo Hhi. assert (0 < bits m) by (unfold bits; lia). rewrite pow2_normal by done.
  unfold ddiv, SFdiv, SFdiv_core_binary. cbn [Zdigits2]. fold (bits m). change (digits2_pos TOP) with 53%positive.
  assert (He : Z.min (fexp 53 1024 (bits m + e - (53 + (k - 52)))) (e - (k - 52)) = bits m + e - k - 54) by (unfold fexp, emin; lia).
  rewrite He. replace (e - (k - 52) - (bits m + e - k - 54)) with (106 - bits m) by lia.
  assert (Hs : match 106 - bits m with Z0 => Z.pos m | Z.pos _ => Z.shiftl (Z.pos m) (106 - bits m) | Z.neg _ => 0 end
               = Z.pos (wide m) * 2 * Z.pos TOP).
  { assert (Hn : 0 < 106 - bits m) by lia. destruct (106 - bits m) as [|p|p] eqn:E; [lia| |lia]. rewrite Z.shiftl_mul_pow2 by lia.
    rewrite wide_value by done. change (Z.pos TOP) with (2 ^ 52). rewrite <- E, <- !Z.mul_assoc. f_equal.
    change (2 * 2 ^ 52) with (2 ^ 53). rewrite <- Z.pow_add_r by lia. f_equal. lia. }
  rewrite Hs. assert (Hq : Z.div_eucl (Z.pos (wide m) * 2 * Z.pos TOP) (Z.pos TOP) = (Z.pos (wide m) * 2, 0)).
  { apply div_eucl_multiple. lia. }
  rewrite Hq. rewrite xorb_false_r. change (new_location (Z.pos TOP) 0) with loc_Exact.
  replace (bits m + e - k - 53) with (bits m + e - k - 54 + 1) by lia.
  change (Z.pos (wide m) * 2) with (Z.pos (wide m * 2)). apply round_exact; [|lia|lia].
  apply wide_canonical; [done|lia].
Qed.

(** A double with all of its bits is at least [2 ^ k] when its magnitude is. *)
Lemma pow2_le k m e : bits m = 53 -> -1022 <= k <= 1023 -> SFleb (pow2 k) (S754_finite false m e) = (k <=? e + 52).
Proof.
  intros Hm Hk. rewrite pow2_normal by done. unfold SFleb, SFcompare.
  pose proof (bits_bounds m) as Hb. rewrite Hm in Hb. change (2 ^ (53 - 1)) with (Z.pos TOP) in Hb.
  destruct (Z.compare_spec (k - 52) e) as [E|E|E]; destruct (Z.leb_spec k (e + 52)); try lia; try reflexivity.
  change (Pos.compare_cont Eq TOP m) with (Pos.compare TOP m). destruct (Pos.compare_spec TOP m) as [Ht|Ht|Ht]; [reflexivity..|].
  exfalso. destruct Hb as [Hb _]. revert Hb. revert Ht. generalize TOP. intros t. lia.
Qed.
(** What is not greater has no greater exponent. *)
Lemma not_greater m e m' e' : SFleb (S754_finite false m e) (S754_finite false m' e') = false -> e' <= e.
Proof. unfold SFleb, SFcompare. destruct (Z.compare_spec e e'); [lia|done|lia]. Qed.
Lemma greater m e m' e' : SFltb (S754_finite false m e) (S754_finite false m' e') = true -> e <= e'.
Proof. unfold SFltb, SFcompare. destruct (Z.compare_spec e e'); [lia|lia|done]. Qed.
Lemma greater_not m e m' e' : SFltb (S754_finite false m e) (S754_finite false m' e') = false -> e' <= e.
Proof. unfold SFltb, SFcompare. destruct (Z.compare_spec e e'); [lia|done|lia]. Qed.
