(* ===== verification/BufferFloat.v ===== *)
(** * The Buffer module: floats

    The ieee754 module of swagger-ui.js and the methods of [Buffer] that
    read and write floats (23 bits of mantissa, 4 bytes) and doubles (52
    bits, 8 bytes).  Numbers are doubles ([Binary64]); the integers of the
    reader stay below 2^53 and are [Z], where [None] is the NaN that an element
    outside of the buffer leads to.  Dividing by a power of two is multiplying
    by its inverse, a double too: the same real number is rounded.

    [Math.floor(Math.log(value) / Math.LN2)] depends on the accuracy of the
    environment's logarithm: it is a parameter [log2], [None] for the
    logarithm of zero. *)

From Stdlib Require Import Floats.SpecFloat.
From S2P Require Import Prelude JsNumber JsString BufferInt Binary64.

Definition one : double := of_int 1.
Definition two : double := of_int 2.

(** ** Reading *)

(** [for (; nBits > 0; v = v * 256 + buffer[offset + i], i += d, nBits -= 8) {}],
    [n] turns. *)
Fixpoint read_bytes (n : nat) (buffer : bytes) (offset i d : Z) (v : option Z) : option Z * Z :=
  match n with
  | O => (v, i)
  | S n => read_bytes n buffer offset (i + d) d (addn (muln v 256) (at_ buffer (offset + i)))
  end.
(** The turns of such a loop, and [nBits] after it. *)
Definition turns (nBits : Z) : nat := Z.to_nat ((nBits + 7) / 8).
Definition bits_left (nBits : Z) : Z := nBits - 8 * Z.of_nat (turns nBits).

Definition float_value (s : Z) (m : option Z) (e mLen : Z) : double :=
  match m with
  | Some m => dmul (dmul (if s =? 0 then one else of_int (-1)) (of_int m)) (pow2 (e - mLen))
  | None => S754_nan
  end.
Definition read (buffer : bytes) (offset : Z) (isLE : bool) (mLen nBytes : Z) : double :=
  let eLen := nBytes * 8 - mLen - 1 in
  let eMax := js_shl 1 eLen - 1 in
  let eBias := js_sar eMax 1 in
  let i := if isLE then nBytes - 1 else 0 in
  let d := if isLE then -1 else 1 in
  let s := bit (at_ buffer (offset + i)) in
  let i := i + d in
  let e := js_and s (js_shl 1 7 - 1) in
  let s := js_sar s 7 in
  let nBits := -7 + eLen in
  let '(e, i) := read_bytes (turns nBits) buffer offset i d (Some e) in
  let nBits := bits_left nBits in
  let m := js_and (bit e) (js_shl 1 (- nBits) - 1) in
  let e := js_sar (bit e) (- nBits) in
  let nBits := nBits + mLen in
  let '(m, i) := read_bytes (turns nBits) buffer offset i d (Some m) in
  if e =? 0 then float_value s m (1 - eBias) mLen
  else if e =? eMax then
    (if match m with Some m => m =? 0 | None => true end then dmul (if s =? 0 then one else of_int (-1)) infinity else S754_nan)
  else float_value s ((fun m => m + 2 ^ mLen) <$> m) (e - eBias) mLen.

(** ** Writing *)

Section writer.
Context (log2 : double -> option Z) (typed : bool).

Definition negative (value : double) : bool :=
  match value with S754_zero s | S754_infinity s | S754_finite s _ _ => s | S754_nan => false end.
Definition power (e : option Z) : double := match e with Some e => pow2 (- e) | None => infinity end.
Definition shift (k : Z) (e : option Z) : option Z := (fun e => e + k) <$> e.
Definition at_least (b : Z) (e : option Z) : bool := match e with Some e => b <=? e | None => false end.

(** The mantissa and the biased exponent of a finite number that is not
    negative. *)
Definition split_value (value : double) (mLen eMax eBias : Z) : double * Z :=
  let rt := if mLen =? 23 then dsub (pow2 (-24)) (pow2 (-77)) else S754_zero false in
  let e := log2 value in
  let c := power e in
  let '(e, c) := if SFltb (dmul value c) one then (shift (-1) e, dmul c two) else (e, c) in
  let value := if at_least (1 - eBias) e then dadd value (ddiv rt c) else dadd value (dmul rt (pow2 (1 - eBias))) in
  let '(e, c) := if SFleb two (dmul value c) then (shift 1 e, dmul c (pow2 (-1))) else (e, c) in
  if at_least (eMax - eBias) e then (S754_zero false, eMax)
  else match e with
       | Some e' => if 1 - eBias <=? e' then (dmul (dsub (dmul value c) one) (pow2 mLen), e' + eBias)
                    else (dmul (dmul value (pow2 (eBias - 1))) (pow2 mLen), 0)
       | None => (dmul (dmul value (pow2 (eBias - 1))) (pow2 mLen), 0)
       end.

(** The loops that store the bytes of the mantissa and of the exponent. *)
Fixpoint store_mantissa (n : nat) (buffer : bytes) (offset i d : Z) (m : double) : bytes * Z * double :=
  match n with
  | O => (buffer, i, m)
  | S n => store_mantissa n (set_ typed buffer (offset + i) (js_and (truncate m) 255)) offset (i + d) d (div256 m)
  end.
Fixpoint store_exponent (n : nat) (buffer : bytes) (offset i d : Z) (e : Z) : bytes * Z :=
  match n with
  | O => (buffer, i)
  | S n => store_exponent n (set_ typed buffer (offset + i) (js_and e 255)) offset (i + d) d (Z.quot e 256)
  end.

Definition write (buffer : bytes) (value : double) (offset : Z) (isLE : bool) (mLen nBytes : Z) : bytes :=
  let eLen := nBytes * 8 - mLen - 1 in
  let eMax := js_shl 1 eLen - 1 in
  let eBias := js_sar eMax 1 in
  let i := if isLE then 0 else nBytes - 1 in
  let d := if isLE then 1 else -1 in
  let s := if negative value then 1 else 0 in
  let value := SFabs value in
  let '(m, e) := match value with
                 | S754_nan => (one, eMax)
                 | S754_infinity _ => (S754_zero false, eMax)
                 | _ => split_value value mLen eMax eBias
                 end in
  let '(buffer, i, m) := store_mantissa (Z.to_nat (mLen / 8)) buffer offset i d m in
  let mLen := mLen mod 8 in
  let e := js_or (js_shl e mLen) (truncate m) in
  let '(buffer, i) := store_exponent (turns (eLen + mLen)) buffer offset i d e in
  set_ typed buffer (offset + i - d) (js_or (bit (at_ buffer (offset + i - d))) (s * 128)).

(** ** The methods of Buffer *)

(** The largest float and double. *)
Definition FLOAT_MAX : double := dyadic (2 ^ 24 - 1) 104.
Definition DOUBLE_MAX : double := dyadic (2 ^ 53 - 1) 971.
Definition checkIEEE754 (buf : bytes) (value : double) (offset ext : Z) (max : double) : res unit :=
  _ ← guard_or (negb (SFltb max value || SFltb value (SFopp max))) RangeError;
  _ ← guard_or (negb (zlength buf <? offset + ext)) RangeError;
  guard_or (negb (offset <? 0)) RangeError.

Definition write_ieee754 (mLen nBytes : Z) (max : double) (buf : bytes) (value : double) (offset : Z) (littleEndian noAssert : bool) :
    res (bytes * Z) :=
  _ ← (if noAssert then Ok tt else checkIEEE754 buf value offset nBytes max);
  Ok (write buf value offset littleEndian mLen nBytes, offset + nBytes).
Definition writeFloat := write_ieee754 23 4 FLOAT_MAX.
Definition writeDouble := write_ieee754 52 8 DOUBLE_MAX.
Definition writeFloatLE b v o n := writeFloat b v o true n.
Definition writeFloatBE b v o n := writeFloat b v o false n.
Definition writeDoubleLE b v o n := writeDouble b v o true n.
Definition writeDoubleBE b v o n := writeDouble b v o false n.
End writer.

Definition readFloatLE (b : bytes) (offset : Z) (noAssert : bool) : res double :=
  _ ← assert_read noAssert b offset 4; Ok (read b offset true 23 4).
Definition readFloatBE (b : bytes) (offset : Z) (noAssert : bool) : res double :=
  _ ← assert_read noAssert b offset 4; Ok (read b offset false 23 4).
Definition readDoubleLE (b : bytes) (offset : Z) (noAssert : bool) : res double :=
  _ ← assert_read noAssert b offset 8; Ok (read b offset true 52 8).
Definition readDoubleBE (b : bytes) (offset : Z) (noAssert : bool) : res double :=
  _ ← assert_read noAssert b offset 8; Ok (read b offset false 52 8).

(** A logarithm that is exact. *)
Definition exact_log2 (x : double) : option Z :=
  match x with S754_finite _ m e => Some (magnitude m e) | _ => None end.
Example write_float :
  write exact_log2 true [0; 0; 0; 0] (dyadic 3 (-1)) 0 false 23 4 = [63; 192; 0; 0] /\
  write exact_log2 true [0; 0; 0; 0] (SFopp (dyadic 1 (-149))) 0 true 23 4 = [1; 0; 0; 128] /\
  write exact_log2 true [0; 0; 0; 0; 0; 0; 0; 0] (SFopp (dyadic 314 (-3))) 0 false 52 8 = [192; 67; 160; 0; 0; 0; 0; 0].
Proof. by vm_compute. Qed.
Example read_float :
  read [63; 192; 0; 0] 0 false 23 4 = dyadic 3 (-1) /\ read [1; 0; 0; 128] 0 true 23 4 = SFopp (dyadic 1 (-149)) /\
  read [192; 67; 160; 0; 0; 0; 0; 0] 0 false 52 8 = SFopp (dyadic 314 (-3)).
Proof. by vm_compute. Qed.

(** ** The format

    A double as the 64 bits of the interchange format of IEEE 754: the sign,
    11 bits of the exponent and 52 of the mantissa. *)
Definition bits_of (s : bool) (E M : Z) : Z := (if s then 2 ^ 63 else 0) + E * 2 ^ 52 + M.
Definition number (s : bool) (n e : Z) : double := if n =? 0 then S754_zero s else S754_finite s (Z.to_pos n) e.
Definition decode (u : Z) : double :=
  let s := u / 2 ^ 63 =? 1 in
  let E := u / 2 ^ 52 mod 2048 in
  let M := u mod 2 ^ 52 in
  if E =? 0 then number s M (-1074)
  else if E =? 2047 then if M =? 0 then S754_infinity s else S754_nan
  else number s (M + 2 ^ 52) (E - 1075).
(** The fields of a number; NaN is written with mantissa 1. *)
Definition fields (v : double) : Z * Z :=
  match v with
  | S754_zero _ => (0, 0)
  | S754_infinity _ => (2047, 0)
  | S754_nan => (2047, 1)
  | S754_finite _ m e => if bits m =? 53 then (e + 1075, Z.pos m - 2 ^ 52) else (0, Z.pos m)
  end.
Definition encode (v : double) : Z := bits_of (negative v) (fields v).1 (fields v).2.

Lemma bits_of_fields s E M : 0 <= E < 2048 -> 0 <= M < 2 ^ 52 -> let u := bits_of s E M in
  (u / 2 ^ 63 =? 1) = s /\ u / 2 ^ 52 mod 2048 = E /\ u mod 2 ^ 52 = M.
Proof.
  intros HE HM u. unfold u, bits_of.
  assert (E1 : ((if s then 2 ^ 63 else 0) + E * 2 ^ 52 + M) / 2 ^ 63 = if s then 1 else 0).
  { symmetry. apply Z.div_unique with (E * 2 ^ 52 + M); [left; lia|]. destruct s; lia. }
  assert (E2 : ((if s then 2 ^ 63 else 0) + E * 2 ^ 52 + M) / 2 ^ 52 = (if s then 2048 else 0) + E).
  { symmetry. apply Z.div_unique with M; [by left|]. destruct s; lia. }
  assert (E3 : ((if s then 2 ^ 63 else 0) + E * 2 ^ 52 + M) mod 2 ^ 52 = M).
  { symmetry. apply Z.mod_unique with ((if s then 2048 else 0) + E); [by left|]. destruct s; lia. }
  rewrite E1, E2, E3. split; [by destruct s|]. split; [|done].
  symmetry. apply Z.mod_unique with (if s then 1 else 0); [by left|]. destruct s; lia.
Qed.

Lemma fields_range v : valid v -> 0 <= (fields v).1 < 2048 /\ 0 <= (fields v).2 < 2 ^ 52.
Proof.
  destruct v as [s|s| |s m e]; cbn [fields fst snd]; [lia|lia|lia|]. intros H%valid_canonical. apply canonical_range in H as (Hb & He & Hc).
  pose proof (bits_bounds m) as Hm. destruct (Z.eqb_spec (bits m) 53) as [E|E]; cbn [fst snd].
  - rewrite E in Hm. change (2 ^ 53) with (2 * 2 ^ 52) in Hm. change (53 - 1) with 52 in Hm. lia.
  - assert (2 ^ bits m <= 2 ^ 52) by (apply Z.pow_le_mono_r; lia). lia.
Qed.
Lemma decode_encode v : valid v -> decode (encode v) = v.
Proof.
  intros Hv. destruct (fields_range v Hv) as [HE HM]. unfold decode, encode.
  destruct (bits_of_fields (negative v) _ _ HE HM) as (E1 & E2 & E3). cbv zeta. rewrite E1, E2, E3. clear E1 E2 E3.
  destruct v as [s|s| |s m e]; [done|done|done|]. apply valid_canonical, canonical_range in Hv as (Hb & He & Hc).
  cbn [fields negative] in *. pose proof (bits_bounds m) as Hm. destruct (Z.eqb_spec (bits m) 53) as [E|E]; cbn [fst snd] in *.
  - destruct (Z.eqb_spec (e + 1075) 0); [lia|]. destruct (Z.eqb_spec (e + 1075) 2047); [lia|].
    unfold number. destruct (Z.eqb_spec (Z.pos m - 2 ^ 52 + 2 ^ 52) 0); [lia|]. f_equal; [|lia].
    replace (Z.pos m - 2 ^ 52 + 2 ^ 52) with (Z.pos m) by lia. done.
  - cbn [Z.eqb]. unfold number. destruct (Z.eqb_spec (Z.pos m) 0); [lia|]. f_equal. lia.
Qed.

(** ** Reading a double is decoding *)

Definition double_of (a7 a6 a5 a4 a3 a2 a1 a0 : option Z) : double :=
  let s := bit a7 in
  let e := bit (addn (muln (Some (js_and s 127)) 256) a6) in
  let m := addn (muln (addn (muln (addn (muln (addn (muln (addn (muln (addn (muln (Some (js_and e 15)) 256) a5) 256) a4) 256) a3) 256) a2)
                256) a1) 256) a0 in
  let E := js_sar e 4 in
  if E =? 0 then float_value (js_sar s 7) m (-1022) 52
  else if E =? 2047 then
    (if match m with Some m => m =? 0 | None => true end then dmul (if js_sar s 7 =? 0 then one else of_int (-1)) infinity else S754_nan)
  else float_value (js_sar s 7) ((fun m => m + 2 ^ 52) <$> m) (E - 1023) 52.
Lemma read_52 b off (isLE : bool) : let a k := at_ b (off + if isLE then k else 7 - k) in
  read b off isLE 52 8 = double_of (a 7) (a 6) (a 5) (a 4) (a 3) (a 2) (a 1) (a 0).
Proof. by destruct isLE. Qed.

Definition sign_of (s : bool) : double := if s then of_int (-1) else one.
Lemma dmul_sign s m e : bits m = 53 -> -1074 <= e <= 971 -> dmul (sign_of s) (S754_finite false m e) = S754_finite s m e.
Proof.
  intros Hm He. assert (E : sign_of s = S754_finite s TOP (-52)) by by destruct s. rewrite E. unfold dmul, SFmul.
  rewrite xorb_false_r. replace e with (-52 + e + 52) at 2 by lia. apply round_exact; [|lia|].
  - unfold canonical, fexp, emin. rewrite Hm. lia.
  - by rewrite Pos2Z.inj_mul, Z.mul_comm.
Qed.

Lemma float_value_low (s : bool) M : 0 <= M < 2 ^ 52 ->
  float_value (if s then 1 else 0) (Some M) (-1022) 52 = number s M (-1074).
Proof.
  intros HM. unfold float_value, number. replace (if _ =? 0 then one else of_int (-1)) with (sign_of s) by by destruct s.
  change (-1022 - 52) with (-1074). destruct (Z.eqb_spec M 0) as [->|H0]; [by destruct s|].
  pose proof (bits_small M ltac:(lia)) as Hb. pose proof (bits_bounds (Z.to_pos M)) as Hm. rewrite Z2Pos.id in Hm by lia.
  assert (bits (Z.to_pos M) <= 52).
  { destruct (decide (bits (Z.to_pos M) = 53)) as [E|]; [|lia]. rewrite E in Hm. change (53 - 1) with 52 in Hm. lia. }
  assert (0 < bits (Z.to_pos M)) by (unfold bits; lia).
  rewrite <- (Z2Pos.id M) at 1 by lia. rewrite of_int_pos by done. rewrite dmul_sign by (rewrite ?wide_bits by done; lia).
  by apply dmul_pow2_min.
Qed.
Lemma float_value_normal (s : bool) n E : 2 ^ 52 <= n < 2 ^ 53 -> 1 <= E < 2047 ->
  float_value (if s then 1 else 0) (Some n) (E - 1023) 52 = number s n (E - 1075).
Proof.
  intros Hn HE. unfold float_value, number. replace (if _ =? 0 then one else of_int (-1)) with (sign_of s) by by destruct s.
  destruct (Z.eqb_spec n 0); [lia|]. assert (Hb : bits (Z.to_pos n) = 53).
  { apply bits_unique; [lia|]. rewrite Z2Pos.id by lia. done. }
  rewrite <- (Z2Pos.id n) at 1 by lia. rewrite of_int_pos by lia. rewrite wide_full, Hb by done.
  rewrite dmul_sign by (done || lia). replace (E - 1023 - 52) with (E - 1075) by lia.
  destruct (decide (-1022 <= E - 1075)).
  - rewrite dmul_pow2 by lia. rewrite wide_full by done. f_equal. lia.
  - rewrite dmul_pow2_low by (done || lia). done.
Qed.

Lemma double_of_bytes b0 b1 b2 b3 b4 b5 b6 b7 : Forall is_byte [b0; b1; b2; b3; b4; b5; b6; b7] ->
  double_of (Some b7) (Some b6) (Some b5) (Some b4) (Some b3) (Some b2) (Some b1) (Some b0) =
    decode (le_value [b0; b1; b2; b3; b4; b5; b6; b7]).
Proof.
  rewrite !Forall_cons. unfold is_byte. intros (H0 & H1 & H2 & H3 & H4 & H5 & H6 & H7 & _).
  unfold double_of. cbn [bit default muln addn fmap option_fmap option_map mbind option_bind]. unfold id. cbv zeta.
  pose proof (js_and_mask b7 7 ltac:(lia)) as E1. change (2 ^ 7 - 1) with 127 in E1. rewrite E1. clear E1.
  set (e := b7 mod 2 ^ 7 * 256 + b6). assert (He : 0 <= e < 32768).
  { unfold e. pose proof (Z.mod_pos_bound b7 (2 ^ 7) ltac:(lia)). lia. }
  pose proof (js_and_mask e 4 ltac:(lia)) as E2. change (2 ^ 4 - 1) with 15 in E2. rewrite E2. clear E2.
  rewrite !js_sar_div by (unfold is_int32; lia).
  set (E := e / 2 ^ 4). set (M := (((((e mod 2 ^ 4 * 256 + b5) * 256 + b4) * 256 + b3) * 256 + b2) * 256 + b1) * 256 + b0).
  assert (HE : 0 <= E < 2048). { unfold E. Z.div_mod_to_equations. lia. }
  assert (HM : 0 <= M < 2 ^ 52). { unfold M. pose proof (Z.mod_pos_bound e (2 ^ 4) ltac:(lia)). lia. }
  set (s := b7 / 2 ^ 7 =? 1). assert (Hs : b7 / 2 ^ 7 = if s then 1 else 0).
  { unfold s. destruct (Z.eqb_spec (b7 / 2 ^ 7) 1); [done|]. Z.div_mod_to_equations. lia. }
  assert (Hu : le_value [b0; b1; b2; b3; b4; b5; b6; b7] = bits_of s E M).
  { unfold bits_of. cbn [le_value]. pose proof (Z.div_mod b7 (2 ^ 7) ltac:(lia)). pose proof (Z.div_mod e (2 ^ 4) ltac:(lia)).
    fold E in H8. unfold M, e in *. destruct s; lia. }
  rewrite Hu, Hs. unfold decode. destruct (bits_of_fields s E M HE HM) as (-> & -> & ->). cbv zeta.
  destruct (Z.eqb_spec E 0) as [E0|E0]; [by apply float_value_low|].
  destruct (Z.eqb_spec E 2047) as [E1|E1]; [by destruct s, (M =? 0)|]. apply float_value_normal; lia.
Qed.

(** ** Splitting a double

    The logarithm of the environment may be off by one. *)
Definition close_log2 (log2 : double -> option Z) : Prop :=
  log2 (S754_zero false) = None /\
  (forall m e, canonical m e -> exists z, log2 (S754_finite false m e) = Some z /\ Z.abs (z - magnitude m e) <= 1).

Lemma dadd_zero x c : (exists m e, x = S754_finite false m e) -> (c = infinity \/ exists m e, c = S754_finite false m e) ->
  dadd x (ddiv (S754_zero false) c) = x.
Proof. by intros (m & e & ->) [->|(m' & e' & ->)]. Qed.
Lemma dmul_infinity m e : dmul (S754_finite false m e) infinity = infinity.
Proof. done. Qed.

(** Comparing a number with all of its bits with 1 and 2. *)
Lemma full_top m : bits m = 53 -> (TOP <= m)%positive.
Proof. intros Hm. pose proof (bits_bounds m) as Hb. rewrite Hm in Hb. unfold TOP. lia. Qed.
Lemma wide_less m e : bits m = 53 -> SFltb (S754_finite false m e) one = (e <? -52).
Proof.
  intros Hm%full_top. change one with (S754_finite false TOP (-52)). generalize dependent TOP. intros t Ht.
  assert (Hc : Pos.compare_cont Eq m t <> Lt) by by apply Pos.compare_ge_iff.
  unfold SFltb, SFcompare. destruct (Z.ltb_spec e (-52)), (Z.compare_spec e (-52)); try lia; try done.
  by destruct (Pos.compare_cont Eq m t).
Qed.
Lemma wide_two m e : bits m = 53 -> SFleb two (S754_finite false m e) = (-51 <=? e).
Proof.
  intros Hm%full_top. change two with (S754_finite false TOP (-51)). generalize dependent TOP. intros t Ht.
  assert (Hc : Pos.compare_cont Eq t m <> Gt) by exact Ht.
  unfold SFleb, SFcompare. destruct (Z.leb_spec (-51) e), (Z.compare_spec (-51) e); try lia; try done.
  by destruct (Pos.compare_cont Eq t m).
Qed.

Lemma pow2_shape k : -1074 <= k <= 1100 -> pow2 k = infinity \/ exists m e, pow2 k = S754_finite false m e.
Proof.
  intros Hk. destruct (decide (1024 <= k)); [left; apply pow2_infinite; lia|right].
  destruct (decide (-1022 <= k)); [rewrite pow2_normal by lia; eauto|rewrite pow2_low by lia; eauto].
Qed.

(** [value * 2 ^ (- e)] for an exponent close to the magnitude. *)
Lemma scaled m e z : canonical m e -> Z.abs (z - magnitude m e) <= 2 -> -1023 <= z <= 1074 ->
  (z <= 1022 \/ bits m = 53) ->
  dmul (S754_finite false m e) (pow2 (- z)) = S754_finite false (wide m) (magnitude m e - z - 52).
Proof.
  intros Hc Hz Hr Hm. apply canonical_range in Hc as (Hb & He & Hd). unfold magnitude in *.
  destruct (decide (-1022 <= - z)).
  - rewrite dmul_pow2 by lia. f_equal. lia.
  - rewrite dmul_pow2_low by lia. rewrite wide_full by lia. f_equal. lia.
Qed.

(** The two corrections of the exponent, and what is made of the result. *)
Definition first_fix (x : double) (e : option Z) (c : double) : option Z * double :=
  if SFltb (dmul x c) one then (shift (-1) e, dmul c two) else (e, c).
Definition second_fix (x : double) (e : option Z) (c : double) : option Z * double :=
  if SFleb two (dmul x c) then (shift 1 e, dmul c (pow2 (-1))) else (e, c).
Definition parts (x : double) (e : option Z) (c : double) : double * Z :=
  match e with
  | Some e => if 1024 <=? e then (S754_zero false, 2047)
              else if -1022 <=? e then (dmul (dsub (dmul x c) one) (pow2 52), e + 1023)
              else (dmul (dmul x (pow2 1022)) (pow2 52), 0)
  | None => (dmul (dmul x (pow2 1022)) (pow2 52), 0)
  end.
Lemma split_52 log2 m e e1 c1 : first_fix (S754_finite false m e) (log2 (S754_finite false m e)) (power (log2 (S754_finite false m e))) = (e1, c1) ->
  (c1 = infinity \/ exists m e, c1 = S754_finite false m e) ->
  split_value log2 (S754_finite false m e) 52 2047 1023 =
    let '(e2, c2) := second_fix (S754_finite false m e) e1 c1 in parts (S754_finite false m e) e2 c2.
Proof.
  intros E1 Hc. unfold split_value. cbv zeta. unfold first_fix in E1. rewrite E1.
  change (52 =? 23) with false. cbv iota.
  assert (E : (if at_least (1 - 1023) e1 then dadd (S754_finite false m e) (ddiv (S754_zero false) c1)
               else dadd (S754_finite false m e) (dmul (S754_zero false) (pow2 (1 - 1023)))) = S754_finite false m e).
  { destruct (at_least _ _); [|done]. apply dadd_zero; eauto. }
  rewrite E. unfold second_fix. destruct (if SFleb two _ then _ else _) as [[e2|] c2]; [|done].
  unfold parts, at_least. change (2047 - 1023) with 1024. change (1 - 1023) with (-1022). done.
Qed.

Lemma dsub_aligned m t e : dsub (S754_finite false m e) (S754_finite false t e) = dyadic (Z.pos m - Z.pos t) e.
Proof. unfold dsub, SFsub, shl_align. by rewrite Z.min_id, Z.sub_diag. Qed.
Lemma mantissa_above_one m : bits m = 53 -> dmul (dsub (S754_finite false m (-52)) one) (pow2 52) = of_int (Z.pos m - 2 ^ 52).
Proof.
  intros Hm. pose proof (bits_bounds m) as Hb. rewrite Hm in Hb. change (2 ^ (53 - 1)) with (2 ^ 52) in Hb. change (2 ^ 53) with (2 * 2 ^ 52) in Hb.
  change one with (S754_finite false TOP (-52)). rewrite dsub_aligned. change (Z.pos TOP) with (2 ^ 52).
  destruct (decide (Z.pos m = 2 ^ 52)) as [->|Hne]; [by vm_compute|].
  pose proof (bits_small (Z.pos m - 2 ^ 52) ltac:(lia)) as Hn. rewrite <- (Z2Pos.id (Z.pos m - 2 ^ 52)) by lia.
  set (n := Z.to_pos (Z.pos m - 2 ^ 52)) in *. assert (0 < bits n) by (unfold bits; lia).
  rewrite (dyadic_exact n (wide n) (-52) (53 - bits n)); [|apply wide_canonical; lia|lia|by apply wide_value].
  rewrite of_int_pos, dmul_pow2 by (rewrite ?wide_bits by done; lia). rewrite wide_bits, (wide_full (wide n)) by (try apply wide_bits; done).
  f_equal. lia.
Qed.

Section split.
Context (log2 : double -> option Z) (Hlog : close_log2 log2).

Lemma split_normal m e : canonical m e -> bits m = 53 ->
  split_value log2 (S754_finite false m e) 52 2047 1023 = (of_int (Z.pos m - 2 ^ 52), e + 1075).
Proof.
  intros Hc Hm. destruct Hlog as [_ Hl]. destruct (Hl m e Hc) as (z & Ez & Hz).
  assert (Hr := canonical_range m e Hc). assert (HL : magnitude m e = e + 52) by (unfold magnitude; lia).
  assert (Hs : forall y, Z.abs (y - magnitude m e) <= 1 -> -1023 <= y <= 1024 ->
    dmul (S754_finite false m e) (pow2 (- y)) = S754_finite false m (e - y)).
  { intros y Hy Hy'. rewrite scaled by (done || lia). rewrite wide_full by done. f_equal. lia. }
  set (z' := if e + 52 <? z then z - 1 else z).
  assert (E1 : first_fix (S754_finite false m e) (log2 (S754_finite false m e)) (power (log2 (S754_finite false m e))) =
               (Some z', pow2 (- z'))).
  { rewrite Ez. unfold first_fix. cbn [power]. rewrite Hs, wide_less by (done || lia). unfold z'.
    destruct (Z.ltb_spec (e - z) (-52)), (Z.ltb_spec (e + 52) z); try lia; [|done].
    cbn [shift fmap option_fmap option_map]. change two with (pow2 1). rewrite pow2_twice by lia. f_equal; f_equal; lia. }
  assert (Hz' : e + 51 <= z' <= e + 52) by (unfold z'; destruct (Z.ltb_spec (e + 52) z); lia).
  rewrite (split_52 _ _ _ _ _ E1) by (apply pow2_shape; lia).
  assert (E2 : second_fix (S754_finite false m e) (Some z') (pow2 (- z')) = (Some (e + 52), pow2 (- (e + 52)))).
  { unfold second_fix. rewrite Hs, wide_two by (done || lia). destruct (Z.leb_spec (-51) (e - z')).
    - cbn [shift fmap option_fmap option_map]. rewrite pow2_half by lia. f_equal; f_equal; lia.
    - f_equal; f_equal; lia. }
  rewrite E2. unfold parts. destruct (Z.leb_spec 1024 (e + 52)); [lia|]. destruct (Z.leb_spec (-1022) (e + 52)); [|lia].
  rewrite Hs by lia. replace (e - (e + 52)) with (-52) by lia. rewrite mantissa_above_one by done. f_equal. lia.
Qed.

Lemma split_low m : bits m <= 52 -> split_value log2 (S754_finite false m (-1074)) 52 2047 1023 = (of_int (Z.pos m), 0).
Proof.
  intros Hm. assert (0 < bits m) by (unfold bits; lia). assert (Hc : canonical m (-1074)) by (unfold canonical, fexp, emin; lia).
  destruct Hlog as [_ Hl]. destruct (Hl m (-1074) Hc) as (z & Ez & Hz). set (x := S754_finite false m (-1074)) in *.
  assert (HL : magnitude m (-1074) = bits m - 1075) by (unfold magnitude; lia).
  assert (Hs : forall y, Z.abs (y - magnitude m (-1074)) <= 1 -> -1023 <= y <= 1022 ->
    dmul x (pow2 (- y)) = S754_finite false (wide m) (bits m - 1127 - y)).
  { intros y Hy Hy'. unfold x. rewrite scaled by (done || lia). f_equal. lia. }
  assert (Hend : forall e c, e <= -1023 -> parts x (Some e) c = (of_int (Z.pos m), 0)).
  { intros e c He. unfold parts. destruct (Z.leb_spec 1024 e); [lia|]. destruct (Z.leb_spec (-1022) e); [lia|]. f_equal.
    unfold x. rewrite dmul_pow2 by lia. rewrite dmul_pow2 by (rewrite ?wide_bits by lia; lia).
    rewrite wide_bits, (wide_full (wide m)), of_int_pos by (try apply wide_bits; lia). f_equal. lia. }
  assert (Hinf : forall e, e <= -1024 -> (let '(e2, c2) := second_fix x (Some e) infinity in parts x e2 c2) = (of_int (Z.pos m), 0)).
  { intros e He. unfold second_fix, x. rewrite dmul_infinity. change (SFleb two infinity) with true. cbv iota.
    apply Hend. lia. }
  destruct (decide (z <= -1024)) as [Hlow|Hhigh].
  { unfold x; rewrite (split_52 _ _ _ (Some z) infinity); [by apply Hinf| |by left].
    fold x. rewrite Ez. unfold first_fix. cbn [power]. rewrite pow2_infinite by lia. unfold x. by rewrite dmul_infinity. }
  assert (Hw : bits (wide m) = 53) by (apply wide_bits; lia).
  destruct (decide (bits m - 1075 < z)) as [Hlt|Hge].
  - unfold x; rewrite (split_52 _ _ _ (Some (z - 1)) (pow2 (- (z - 1)))); [| |apply pow2_shape; lia].
    + fold x. destruct (decide (z = -1023)) as [->|].
      * change (pow2 (- (-1023 - 1))) with infinity. apply Hinf. lia.
      * unfold second_fix. rewrite Hs, wide_two by (done || lia). destruct (Z.leb_spec (-51) (bits m - 1127 - (z - 1))); [lia|].
        apply Hend. lia.
    + fold x. rewrite Ez. unfold first_fix. cbn [power]. rewrite Hs, wide_less by (done || lia).
      destruct (Z.ltb_spec (bits m - 1127 - z) (-52)); [|lia]. cbn [shift fmap option_fmap option_map].
      change two with (pow2 1). rewrite pow2_twice by lia. f_equal; f_equal; lia.
  - assert (z = -1023) as -> by lia. unfold x; rewrite (split_52 _ _ _ (Some (-1023)) (pow2 1023)); [| |by apply (pow2_shape 1023)].
    + fold x. unfold second_fix. change (pow2 1023) with (pow2 (- (-1023))). rewrite Hs, wide_two by (done || lia).
      destruct (Z.leb_spec (-51) (bits m - 1127 - -1023)); [lia|]. by apply Hend.
    + fold x. rewrite Ez. unfold first_fix. cbn [power]. rewrite Hs, wide_less by (done || lia).
      destruct (Z.ltb_spec (bits m - 1127 - -1023) (-52)); [lia|]. done.
Qed.

Lemma split_zero : split_value log2 (S754_zero false) 52 2047 1023 = (of_int 0, 0).
Proof. destruct Hlog as [H _]. unfold split_value. rewrite H. by vm_compute. Qed.
End split.

(** ** Writing a double is encoding *)

Definition stored_double (typed : bool) (b : bytes) (off : Z) (isLE : bool) (m : double) (E s : Z) : bytes :=
  let p k := off + if isLE then k else 7 - k in
  let byte i := js_and (truncate (Nat.iter i div256 m)) 255 in
  let b := set_ typed (set_ typed (set_ typed b (p 0) (byte 0%nat)) (p 1) (byte 1%nat)) (p 2) (byte 2%nat) in
  let b := set_ typed (set_ typed (set_ typed b (p 3) (byte 3%nat)) (p 4) (byte 4%nat)) (p 5) (byte 5%nat) in
  let e := js_or (js_shl E 4) (truncate (Nat.iter 6 div256 m)) in
  let b := set_ typed (set_ typed b (p 6) (js_and e 255)) (p 7) (js_and (Z.quot e 256) 255) in
  let last := off + (if isLE then 8 else -1) - (if isLE then 1 else -1) in
  set_ typed b last (js_or (bit (at_ b last)) (s * 128)).

Lemma write_52 log2 typed b v off isLE m E :
  (match SFabs v with
   | S754_nan => (one, 2047)
   | S754_infinity _ => (S754_zero false, 2047)
   | _ => split_value log2 (SFabs v) 52 2047 1023
   end) = (m, E) ->
  write log2 typed b v off isLE 52 8 = stored_double typed b off isLE m E (if negative v then 1 else 0).
Proof.
  intros H. unfold write. change (js_shl 1 (8 * 8 - 52 - 1) - 1) with 2047. change (js_sar 2047 1) with 1023. cbv zeta. rewrite H.
  by destruct isLE.
Qed.

Section stores.
Context (typed : bool) (pre post : bytes) (off : Z) (Hoff : zlength pre = off).
Lemma set_8 seg k v : length seg = 8%nat -> 0 <= k < 8 -> is_byte v ->
  set_ typed (pre ++ seg ++ post) (off + k) v = pre ++ <[Z.to_nat k := v]> seg ++ post.
Proof.
  intros Hs Hk Hv. rewrite set_app by (done || lia). do 2 f_equal. f_equal. destruct typed; [by apply to_uint8_id|done].
Qed.

(** The bytes stored, the least significant first. *)
Definition double_bytes (s : bool) (E M : Z) : bytes :=
  let byte i := M / 2 ^ (8 * i) mod 256 in
  let e := E * 16 + M / 2 ^ 48 in
  [byte 0; byte 1; byte 2; byte 3; byte 4; byte 5; e mod 256; e / 256 + if s then 128 else 0].
Lemma double_bytes_value s E M : 0 <= E < 2048 -> 0 <= M < 2 ^ 52 ->
  Forall is_byte (double_bytes s E M) /\ le_value (double_bytes s E M) = bits_of s E M.
Proof.
  intros HE HM. unfold double_bytes. cbv zeta.
  change (8 * 0) with 0. change (8 * 1) with 8. change (8 * 2) with 16. change (8 * 3) with 24. change (8 * 4) with 32. change (8 * 5) with 40.
  rewrite Z.pow_0_r, Z.div_1_r. set (q1 := M / 2 ^ 8).
  assert (E2 : M / 2 ^ 16 = q1 / 2 ^ 8) by (unfold q1; rewrite Z.div_div by lia; done). rewrite E2. set (q2 := q1 / 2 ^ 8) in *.
  assert (E3 : M / 2 ^ 24 = q2 / 2 ^ 8) by (rewrite <- E2, Z.div_div by lia; done). rewrite E3. set (q3 := q2 / 2 ^ 8) in *.
  assert (E4 : M / 2 ^ 32 = q3 / 2 ^ 8) by (rewrite <- E3, Z.div_div by lia; done). rewrite E4. set (q4 := q3 / 2 ^ 8) in *.
  assert (E5 : M / 2 ^ 40 = q4 / 2 ^ 8) by (rewrite <- E4, Z.div_div by lia; done). rewrite E5. set (q5 := q4 / 2 ^ 8) in *.
  assert (E6 : M / 2 ^ 48 = q5 / 2 ^ 8) by (rewrite <- E5, Z.div_div by lia; done). rewrite E6. set (q6 := q5 / 2 ^ 8) in *.
  pose proof (Z.div_mod M (2 ^ 8) ltac:(lia)) as D1. pose proof (Z.div_mod q1 (2 ^ 8) ltac:(lia)) as D2.
  pose proof (Z.div_mod q2 (2 ^ 8) ltac:(lia)) as D3. pose proof (Z.div_mod q3 (2 ^ 8) ltac:(lia)) as D4.
  pose proof (Z.div_mod q4 (2 ^ 8) ltac:(lia)) as D5. pose proof (Z.div_mod q5 (2 ^ 8) ltac:(lia)) as D6.
  fold q1 in D1. fold q2 in D2. fold q3 in D3. fold q4 in D4. fold q5 in D5. fold q6 in D6.
  pose proof (Z.mod_pos_bound M 256 ltac:(lia)). pose proof (Z.mod_pos_bound q1 256 ltac:(lia)).
  pose proof (Z.mod_pos_bound q2 256 ltac:(lia)). pose proof (Z.mod_pos_bound q3 256 ltac:(lia)).
  pose proof (Z.mod_pos_bound q4 256 ltac:(lia)). pose proof (Z.mod_pos_bound q5 256 ltac:(lia)).
  change (2 ^ 8) with 256 in *. assert (0 <= q6 < 16) by (change (2 ^ 52) with 4503599627370496 in *; lia).
  pose proof (Z.div_mod (E * 16 + q6) 256 ltac:(lia)) as D7. pose proof (Z.mod_pos_bound (E * 16 + q6) 256 ltac:(lia)).
  assert (0 <= (E * 16 + q6) / 256 < 128) by lia.
  split.
  - unfold is_byte. repeat constructor; try lia; destruct s; lia.
  - unfold bits_of. cbn [le_value]. change (2 ^ 52) with 4503599627370496 in *. change (2 ^ 63) with 9223372036854775808.
    destruct s; lia.
Qed.

Lemma stored_bytes (seg : bytes) isLE (s : bool) E M : length seg = 8%nat -> 0 <= E < 2048 -> 0 <= M < 2 ^ 52 ->
  stored_double typed (pre ++ seg ++ post) off isLE (of_int M) E (if s then 1 else 0) =
    pre ++ (if isLE then double_bytes s E M else rev (double_bytes s E M)) ++ post.
Proof.
  intros Hs HE HM. destruct (double_bytes_value s E M HE HM) as [Hb _]. unfold double_bytes in *. cbv zeta in *.
  rewrite !Forall_cons in Hb. destruct Hb as (B0 & B1 & B2 & B3 & B4 & B5 & B6 & B7 & _).
  unfold stored_double. cbv zeta. rewrite !truncate_div256 by lia. rewrite !js_and_255.
  change (8 * Z.of_nat 0) with (8 * 0). change (8 * Z.of_nat 1) with (8 * 1). change (8 * Z.of_nat 2) with (8 * 2).
  change (8 * Z.of_nat 3) with (8 * 3). change (8 * Z.of_nat 4) with (8 * 4). change (8 * Z.of_nat 5) with (8 * 5).
  change (8 * Z.of_nat 6) with 48. assert (Hq : 0 <= M / 2 ^ 48 < 2 ^ 4).
  { split; [apply Z.div_pos; lia|apply Z.div_lt_upper_bound; lia]. }
  assert (He : js_or (js_shl E 4) (M / 2 ^ 48) = E * 16 + M / 2 ^ 48).
  { rewrite js_shl_mul by (unfold is_int32; lia). change (2 ^ 4) with 16 in *. apply (js_or_disjoint E (M / 2 ^ 48) 4); unfold is_int32; lia. }
  rewrite He. set (e := E * 16 + M / 2 ^ 48) in *.
  assert (He' : 0 <= e < 32768) by (unfold e; lia). rewrite (Z.quot_div_nonneg e 256) by lia.
  assert (Hh : 0 <= e / 256 < 128) by (split; [apply Z.div_pos; lia|apply Z.div_lt_upper_bound; lia]).
  rewrite (Z.mod_small (e / 256) 256) by lia.
  assert (Hl : off + (if isLE then 8 else -1) - (if isLE then 1 else -1) = off + if isLE then 7 else 7 - 7) by (destruct isLE; lia).
  rewrite Hl. destruct seg as [|x0 [|x1 [|x2 [|x3 [|x4 [|x5 [|x6 [|x7 [|]]]]]]]]]; try discriminate Hs.
  assert (Hlast : js_or (e / 256) ((if s then 1 else 0) * 128) = e / 256 + if s then 128 else 0).
  { destruct s; [|unfold js_or; rewrite Z.mul_0_l, Z.lor_0_r, !to_int32_id; unfold is_int32; try lia; rewrite to_int32_id; unfold is_int32; lia].
    change (1 * 128) with (1 * 2 ^ 7). rewrite js_or_comm, (js_or_disjoint 1 (e / 256) 7); unfold is_int32; lia. }
  assert (Hb7 : is_byte (e / 256)) by (unfold is_byte; lia).
  assert (Hat : forall sg k x, length sg = 8%nat -> 0 <= k < 8 -> sg !! Z.to_nat k = Some x -> bit (at_ (pre ++ sg ++ post) (off + k)) = x).
  { intros sg k x H1 H2 H3. rewrite (at_app pre sg post) by (done || lia). by rewrite H3. }
  destruct isLE; repeat (rewrite set_8 by (first [done | lia]));
    (rewrite (Hat _ _ (e / 256)) by (first [done | lia]); rewrite Hlast, set_8 by (first [done | lia]); reflexivity).
Qed.
End stores.

Lemma parts_of_value log2 v : close_log2 log2 -> valid v ->
  match SFabs v with
  | S754_nan => (one, 2047)
  | S754_infinity _ => (S754_zero false, 2047)
  | _ => split_value log2 (SFabs v) 52 2047 1023
  end = (of_int (fields v).2, (fields v).1).
Proof.
  intros Hl Hv. destruct v as [s|s| |s m e]; [by apply split_zero|done|done|].
  apply valid_canonical in Hv. pose proof (canonical_range m e Hv) as (Hb & He & Hd). cbn [SFabs fields].
  destruct (Z.eqb_spec (bits m) 53) as [E|E]; cbn [fst snd].
  - by rewrite split_normal.
  - assert (e = -1074) as -> by lia. apply split_low; [done|lia].
Qed.

(** A double in memory, the most significant byte first or last. *)
Definition in_order {A} (isLE : bool) (l : list A) : list A := if isLE then l else rev l.

Lemma write_encodes log2 typed pre seg post off isLE v : close_log2 log2 -> valid v -> zlength pre = off -> length seg = 8%nat ->
  write log2 typed (pre ++ seg ++ post) v off isLE 52 8 = pre ++ in_order isLE (le_bytes 8 (encode v)) ++ post.
Proof.
  intros Hl Hv Ho Hs. destruct (fields_range v Hv) as [HE HM].
  rewrite (write_52 _ _ _ _ _ _ _ _ (parts_of_value log2 v Hl Hv)), stored_bytes by done.
  destruct (double_bytes_value (negative v) _ _ HE HM) as [Hb Hu]. fold (encode v) in Hu.
  rewrite <- Hu. change 8%nat with (length (double_bytes (negative v) (fields v).1 (fields v).2)).
  rewrite le_bytes_value by done. by destruct isLE.
Qed.

Lemma read_decodes pre seg post off isLE : zlength pre = off -> length seg = 8%nat -> Forall is_byte seg ->
  read (pre ++ in_order isLE seg ++ post) off isLE 52 8 = decode (le_value seg).
Proof.
  intros Ho Hs Hb. rewrite read_52. destruct seg as [|x0 [|x1 [|x2 [|x3 [|x4 [|x5 [|x6 [|x7 [|]]]]]]]]]; try discriminate Hs.
  rewrite <- (double_of_bytes x0 x1 x2 x3 x4 x5 x6 x7 Hb).
  assert (Hat : forall sg k, length sg = 8%nat -> 0 <= k < 8 -> at_ (pre ++ sg ++ post) (off + k) = sg !! Z.to_nat k).
  { intros sg k H1 H2. apply at_app; [done|lia]. }
  destruct isLE; cbn [in_order]; by rewrite !Hat by (first [done | lia]).
Qed.

(** C13. A double written at an offset of a buffer is its 64 bits in the
    format of IEEE 754, its bytes in the order asked for, the rest of the buffer
    as it was; and reading there gives the double again, whatever the accuracy
    of the logarithm, as long as it is within one of the exponent. *)
Theorem double_roundtrip log2 typed pre seg post off isLE v :
  close_log2 log2 -> valid v -> zlength pre = off -> length seg = 8%nat ->
  let b := write log2 typed (pre ++ seg ++ post) v off isLE 52 8 in
  b = pre ++ in_order isLE (le_bytes 8 (encode v)) ++ post /\ read b off isLE 52 8 = v.
Proof.
  intros Hl Hv Ho Hs b. unfold b. rewrite write_encodes by done. split; [done|].
  rewrite read_decodes; [|done|by apply length_le_bytes|by apply le_bytes_byte].
  rewrite le_value_bytes, Z.mod_small; [by apply decode_encode|]. destruct (fields_range v Hv). unfold encode, bits_of.
  change (256 ^ Z.of_nat 8) with (2 * 2 ^ 63). destruct (negative v); lia.
Qed.
Lemma double_roundtrip_witness :
  let v := SFopp (dyadic 5 (-1074)) in
  let b := write exact_log2 false ([7] ++ [0; 0; 0; 0; 0; 0; 0; 0] ++ [9]) v 1 true 52 8 in
  b = [7] ++ in_order true (le_bytes 8 (encode v)) ++ [9] /\ read b 1 true 52 8 = v.
Proof.
  apply (double_roundtrip exact_log2 false [7] [0; 0; 0; 0; 0; 0; 0; 0] [9] 1 true); [|done|done|done].
  split; [done|]. intros m e _. exists (magnitude m e). split; [done|]. by rewrite Z.sub_diag.
Defined.

(** A float halfway between two others is rounded up, where IEEE 754 (and a
    typed array) rounds it to the even one. *)
Example float_ties_up :
  write exact_log2 true [0; 0; 0; 0] (dyadic (2 ^ 24 + 1) (-24)) 0 false 23 4 = [63; 128; 0; 1] /\
  read [63; 128; 0; 1] 0 false 23 4 = dyadic (2 ^ 23 + 1) (-23).
Proof. by vm_compute. Qed.
(** What a method refuses. *)
Example infinity_refused :
  writeDouble exact_log2 true [0; 0; 0; 0; 0; 0; 0; 0] infinity 0 true false = Throw RangeError /\
  is_ok (writeDouble exact_log2 true [0; 0; 0; 0; 0; 0; 0; 0] S754_nan 0 true false) = true /\
  writeFloat exact_log2 true [0; 0; 0; 0] (dyadic 1 0) 1 true false = Throw RangeError.
Proof. by vm_compute. Qed.
