(* ===== verification/BufferText.v ===== *)
(** * The Buffer module: text

    The string encodings of swagger-ui.js's [buffer] module: text to bytes,
    bytes to text, [write], [toString], [byteLength] and the construction of a
    buffer from a string.  [units] limits are [None] for Infinity.  The bytes of
    a buffer that [write] throws half way through keep what was stored, so
    [write] returns the buffer beside its result. *)

From Stdlib Require Import String.
From S2P Require Import Prelude JsNumber JsString Uri Base64 BufferInt.

(** ** Encodings *)

Inductive encoding := Hex | Utf8 | Ascii | Binary | EBase64 | Ucs2.

#[export] Instance encoding_eq_dec : EqDecision encoding.
Proof. solve_decision. Defined.

Definition str_in (s : jsstr) (l : list jsstr) : bool := bool_decide (s ∈ l).

(** The [switch (encoding)] of [write] and [slowToString]. *)
Definition encoding_case (e : jsstr) : option encoding :=
  if str_in e [js "hex"] then Some Hex
  else if str_in e [js "utf8"; js "utf-8"] then Some Utf8
  else if str_in e [js "ascii"] then Some Ascii
  else if str_in e [js "binary"] then Some Binary
  else if str_in e [js "base64"] then Some EBase64
  else if str_in e [js "ucs2"; js "ucs-2"; js "utf16le"; js "utf-16le"] then Some Ucs2
  else None.

(** The loop around the switch: a second turn with the name in lower case. *)
Definition find_encoding (e : jsstr) : option encoding :=
  match encoding_case e with
  | Some x => Some x
  | None => encoding_case (toLowerCase e)
  end.

Definition isEncoding (e : jsstr) : bool :=
  str_in (toLowerCase e)
    [js "hex"; js "utf8"; js "utf-8"; js "ascii"; js "binary"; js "base64"; js "raw"; js "ucs2"; js "ucs-2";
     js "utf16le"; js "utf-16le"].

(** ** Text to bytes *)

(** [units -= n]. *)
Definition spend (units : option Z) (n : Z) : option Z := (fun u => u - n) <$> units.
Definition below0 (units : option Z) : bool := match units with Some u => u <? 0 | None => false end.

(** [if ((units -= 3) > -1) bytes.push(0xEF, 0xBF, 0xBD)]. *)
Definition replacement (units : option Z) : option Z * bytes :=
  let units := spend units 3 in
  (units, if below0 units then [] else [239; 191; 189]).

(** The bytes of a code point; [None] breaks the loop. *)
Definition utf8_encode (units : option Z) (codePoint : Z) : res (option (option Z * bytes)) :=
  let emit n bs := let units := spend units n in Ok (if below0 units then None else Some (units, bs)) in
  if codePoint <? 128 then emit 1 [codePoint]
  else if codePoint <? 2048 then
    emit 2 [js_or (js_sar codePoint 6) 192; js_or (js_and codePoint 63) 128]
  else if codePoint <? 65536 then
    emit 3 [js_or (js_sar codePoint 12) 224; js_or (js_and (js_sar codePoint 6) 63) 128;
            js_or (js_and codePoint 63) 128]
  else if codePoint <? 1114112 then
    emit 4 [js_or (js_sar codePoint 18) 240; js_or (js_and (js_sar codePoint 12) 63) 128;
            js_or (js_and (js_sar codePoint 6) 63) 128; js_or (js_and codePoint 63) 128]
  else Throw ErrorMsg.

Fixpoint utf8_loop (s : jsstr) (units : option Z) (leadSurrogate : option Z) : res bytes :=
  match s with
  | [] => Ok []
  | codePoint :: s' =>
      let encode units pre cp :=
        e ← utf8_encode units cp;
        match e with
        | None => Ok pre
        | Some (units, bs) => r ← utf8_loop s' units None; Ok (pre ++ bs ++ r)
        end in
      let '(units3, rep) := replacement units in
      if (55295 <? codePoint) && (codePoint <? 57344) then
        match leadSurrogate with
        | None =>
            if 56319 <? codePoint then r ← utf8_loop s' units3 None; Ok (rep ++ r)
            else match s' with
                 | [] => Ok rep
                 | _ => utf8_loop s' units (Some codePoint)
                 end
        | Some lead =>
            if codePoint <? 56320 then r ← utf8_loop s' units3 (Some codePoint); Ok (rep ++ r)
            else encode units [] (js_or (js_or (js_shl (lead - 55296) 10) (codePoint - 56320)) 65536)
        end
      else match leadSurrogate with
           | Some _ => encode units3 rep codePoint
           | None => encode units [] codePoint
           end
  end.

(** [units = units || Infinity]: 0 is no limit. *)
Definition utf8ToBytes (s : jsstr) (units : option Z) : res bytes :=
  let units := match units with Some 0 => None | _ => units end in
  utf8_loop s units None.

Definition asciiToBytes (str : jsstr) : bytes := (fun c => js_and c 255) <$> str.

Fixpoint utf16leToBytes (str : jsstr) (units : Z) : bytes :=
  match str with
  | [] => []
  | c :: str' =>
      let units := units - 2 in
      if units <? 0 then []
      else (c mod 256) :: js_sar c 8 :: utf16leToBytes str' units
  end.

(** A unit of the base64 alphabets, the complement of [INVALID_BASE64_RE]. *)
Definition base64_unit (c : Z) : bool :=
  (c =? chr "+") || (c =? chr "/") || ((48 <=? c) && (c <=? 57)) || ((65 <=? c) && (c <=? 90)) ||
  ((97 <=? c) && (c <=? 122)) || (c =? chr "-") || (c =? chr "_").

(** [while (str.length % 4 !== 0) str = str + '=']: three turns are enough. *)
Fixpoint pad_loop (n : nat) (str : jsstr) : jsstr :=
  match n with
  | O => str
  | S n' => if zlength str mod 4 =? 0 then str else pad_loop n' (str ++ js "=")
  end.

Definition base64clean (str : jsstr) : jsstr :=
  let str := List.filter base64_unit (trim str) in
  if zlength str <? 2 then [] else pad_loop 3 str.

Definition base64ToBytes (str : jsstr) : res bytes := b64ToByteArray (base64clean str).

(** ** Bytes to text *)

Definition toHex (n : Z) : jsstr :=
  if n <? 16 then js "0" ++ radix_string 16 n else radix_string 16 n.

Definition norm_range (len start end_ : Z) : Z * Z :=
  (if start <? 0 then 0 else start, if (end_ <=? 0) || (len <? end_) then len else end_).

(** The elements [buf[start]] to [buf[end - 1]]. *)
Definition sub (buf : bytes) (start end_ : Z) : bytes :=
  take (Z.to_nat (end_ - start)) (drop (Z.to_nat start) buf).

Definition hexSlice (buf : bytes) (start end_ : Z) : jsstr :=
  let '(start, end_) := norm_range (zlength buf) start end_ in
  List.flat_map toHex (sub buf start end_).

Definition asciiSlice (buf : bytes) (start end_ : Z) : jsstr :=
  (fun b => js_and b 127) <$> sub buf start (Z.min (zlength buf) end_).

Definition binarySlice (buf : bytes) (start end_ : Z) : jsstr := sub buf start (Z.min (zlength buf) end_).

(** [String.fromCharCode(bytes[i] + bytes[i + 1] * 256)]; a missing second
    byte makes the code NaN, which gives the unit 0. *)
Fixpoint utf16_units_of (bs : bytes) : jsstr :=
  match bs with
  | [] => []
  | [_] => [0]
  | lo :: hi :: bs' => (lo + hi * 256) mod 65536 :: utf16_units_of bs'
  end.
Definition utf16leSlice (buf : bytes) (start end_ : Z) : jsstr := utf16_units_of (sub buf start end_).

Definition base64Slice (buf : bytes) (start end_ : Z) : jsstr := uint8ToBase64 (sub buf start end_).

Definition bytesPerSequence (firstByte : Z) : nat :=
  if 239 <? firstByte then 4 else if 223 <? firstByte then 3 else if 191 <? firstByte then 2 else 1.

Definition continuation (b : Z) : bool := js_and b 192 =? 128.

(** The code point of the sequence at the head of [l], the bytes up to [end];
    [None] when there is no complete, valid and shortest sequence. *)
Definition utf8_code_point (l : bytes) : option Z :=
  match l with
  | [] => None
  | firstByte :: l' =>
      match bytesPerSequence firstByte, l' with
      | 1%nat, _ => if firstByte <? 128 then Some firstByte else None
      | 2%nat, secondByte :: _ =>
          if continuation secondByte then
            let t := js_or (js_shl (js_and firstByte 31) 6) (js_and secondByte 63) in
            if 127 <? t then Some t else None
          else None
      | 3%nat, secondByte :: thirdByte :: _ =>
          if continuation secondByte && continuation thirdByte then
            let t := js_or (js_or (js_shl (js_and firstByte 15) 12) (js_shl (js_and secondByte 63) 6))
                           (js_and thirdByte 63) in
            if (2047 <? t) && ((t <? 55296) || (57343 <? t)) then Some t else None
          else None
      | 4%nat, secondByte :: thirdByte :: fourthByte :: _ =>
          if continuation secondByte && continuation thirdByte && continuation fourthByte then
            let t := js_or (js_or (js_or (js_shl (js_and firstByte 15) 18) (js_shl (js_and secondByte 63) 12))
                                  (js_shl (js_and thirdByte 63) 6)) (js_and fourthByte 63) in
            if (65535 <? t) && (t <? 1114112) then Some t else None
          else None
      | _, _ => None
      end
  end.

(** What one turn of [utf8Slice] pushes, and how far it moves. *)
Definition utf8_turn (l : bytes) : jsstr * nat :=
  match utf8_code_point l with
  | None => ([65533], 1%nat)
  | Some codePoint =>
      let n := match l with b :: _ => bytesPerSequence b | [] => 1%nat end in
      if 65535 <? codePoint then
        let codePoint := codePoint - 65536 in
        ([js_or (js_and (js_shr codePoint 10) 1023) 55296; js_or 56320 (js_and codePoint 1023)], n)
      else ([codePoint], n)
  end.

(** [while (i < end)]: every turn moves at least one byte. *)
Fixpoint utf8_slice_loop (fuel : nat) (l : bytes) : jsstr :=
  match fuel, l with
  | O, _ | _, [] => []
  | S f, _ => let '(us, n) := utf8_turn l in us ++ utf8_slice_loop f (drop n l)
  end.

(** [decodeCodePointsArray]: the code points in chunks of [0x1000]. *)
Definition MAX_ARGUMENTS_LENGTH : nat := 4096.
Fixpoint decode_chunks (fuel : nat) (codePoints : jsstr) : jsstr :=
  match fuel, codePoints with
  | O, _ | _, [] => []
  | S f, _ => take MAX_ARGUMENTS_LENGTH codePoints ++ decode_chunks f (drop MAX_ARGUMENTS_LENGTH codePoints)
  end.
Definition decodeCodePointsArray (codePoints : jsstr) : jsstr :=
  if (length codePoints <=? MAX_ARGUMENTS_LENGTH)%nat then codePoints
  else decode_chunks (length codePoints) codePoints.

Definition utf8Slice (buf : bytes) (start end_ : Z) : jsstr :=
  let l := sub buf start (Z.min (zlength buf) end_) in
  decodeCodePointsArray (utf8_slice_loop (length l) l).

(** ** toString *)

(** [end === undefined || end === Infinity] is [None]. *)
Definition slowToString (buf : bytes) (encoding : jsstr) (start : Z) (end_ : option Z) : res jsstr :=
  let start := to_int32 start in
  let end_ := match end_ with None => zlength buf | Some e => to_int32 e end in
  let encoding := if bool_decide (encoding = []) then js "utf8" else encoding in
  let start := if start <? 0 then 0 else start in
  let end_ := if zlength buf <? end_ then zlength buf else end_ in
  if end_ <=? start then Ok []
  else match find_encoding encoding with
       | Some Hex => Ok (hexSlice buf start end_)
       | Some Utf8 => Ok (utf8Slice buf start end_)
       | Some Ascii => Ok (asciiSlice buf start end_)
       | Some Binary => Ok (binarySlice buf start end_)
       | Some EBase64 => Ok (base64Slice buf start end_)
       | Some Ucs2 => Ok (utf16leSlice buf start end_)
       | None => Throw TypeError
       end.

(** [buf.toString(...arguments)]: [None] is the call without arguments. *)
Definition toString (buf : bytes) (args : option (jsstr * Z * option Z)) : res jsstr :=
  if zlength buf =? 0 then Ok []
  else match args with
       | None => Ok (utf8Slice buf 0 (zlength buf))
       | Some (encoding, start, end_) => slowToString buf encoding start end_
       end.

(** ** byteLength *)

Definition byteLength (s : jsstr) (encoding : jsstr) : res Z :=
  let len := zlength s in
  let utf8 := bs ← utf8ToBytes s None; Ok (zlength bs) in
  let cases e k :=
    if str_in e [js "ascii"; js "binary"; js "raw"; js "raws"] then Ok len
    else if str_in e [js "utf8"; js "utf-8"] then utf8
    else if str_in e [js "ucs2"; js "ucs-2"; js "utf16le"; js "utf-16le"] then Ok (len * 2)
    else if str_in e [js "hex"] then Ok (js_shr len 1)
    else if str_in e [js "base64"] then bs ← base64ToBytes s; Ok (zlength bs)
    else k in
  if len =? 0 then Ok 0
  else cases encoding (cases (toLowerCase encoding) utf8).

(** ** Writing text *)

Section Write.
Variable typed : bool.

Fixpoint blit_loop (src dst : bytes) (offset i length : Z) : bytes * Z :=
  match src with
  | [] => (dst, i)
  | b :: src' =>
      if length <=? i then (dst, i)
      else if zlength dst <=? i + offset then (dst, i)
      else blit_loop src' (set_ typed dst (i + offset) b) offset (i + 1) length
  end.
Definition blitBuffer (src dst : bytes) (offset length : Z) : bytes * Z := blit_loop src dst offset 0 length.

Fixpoint hex_prefix (acc : option Z) (s : jsstr) : option Z :=
  match s with
  | c :: s' => match unhex c with
               | Some d => hex_prefix (Some (default 0 acc * 16 + d)) s'
               | None => acc
               end
  | [] => acc
  end.
(** [parseInt(s, 16)]: white space, a sign, [0x], then the digits up to the
    first that is none; [None] is NaN. *)
Definition parseInt16 (s : jsstr) : option Z :=
  let s := trim_left s in
  let '(neg, s) := match s with
                   | c :: s' => if c =? chr "-" then (true, s') else if c =? chr "+" then (false, s') else (false, s)
                   | [] => (false, s) end in
  let s := match s with
           | c :: d :: s' => if (c =? 48) && ((d =? chr "x") || (d =? chr "X")) then s' else s
           | _ => s end in
  (fun n => if neg then - n else n) <$> hex_prefix None s.

(** [string.substr(i * 2, 2)] for [i] from the head on, [length] turns; the
    buffer so far, and the count or the exception. *)
Fixpoint hex_loop (n : nat) (string : jsstr) (buf : bytes) (offset i : Z) : bytes * res Z :=
  match n with
  | O => (buf, Ok i)
  | S n' =>
      match parseInt16 (take 2 string) with
      | None => (buf, Throw ErrorMsg)
      | Some parsed => hex_loop n' (drop 2 string) (set_ typed buf (offset + i) parsed) offset (i + 1)
      end
  end.

Definition hexWrite (buf : bytes) (string : jsstr) (offset length : Z) : bytes * res Z :=
  let remaining := zlength buf - offset in
  let length := if length =? 0 then remaining else if remaining <? length then remaining else length in
  let strLen := zlength string in
  if negb (strLen mod 2 =? 0) then (buf, Throw ErrorMsg)
  else
    let length := if strLen / 2 <? length then strLen / 2 else length in
    hex_loop (Z.to_nat length) string buf offset 0.

Definition blit_res (src : res bytes) (buf : bytes) (offset length : Z) : bytes * res Z :=
  match src with
  | Throw e => (buf, Throw e)
  | Ok src => let '(buf, i) := blitBuffer src buf offset length in (buf, Ok i)
  end.

Definition utf8Write (buf : bytes) (string : jsstr) (offset length : Z) : bytes * res Z :=
  blit_res (utf8ToBytes string (Some (zlength buf - offset))) buf offset length.
Definition asciiWrite (buf : bytes) (string : jsstr) (offset length : Z) : bytes * res Z :=
  blit_res (Ok (asciiToBytes string)) buf offset length.
Definition binaryWrite (buf : bytes) (string : jsstr) (offset length : Z) : bytes * res Z :=
  asciiWrite buf string offset length.
Definition base64Write (buf : bytes) (string : jsstr) (offset length : Z) : bytes * res Z :=
  blit_res (base64ToBytes string) buf offset length.
Definition ucs2Write (buf : bytes) (string : jsstr) (offset length : Z) : bytes * res Z :=
  blit_res (Ok (utf16leToBytes string (zlength buf - offset))) buf offset length.

(** The four ways to call [write]. *)
Inductive write_args :=
| WString
| WEncoding (encoding : jsstr)
| WAt (offset : Z) (length : option Z) (encoding : option jsstr)
| WLegacy (encoding : jsstr) (offset : Z) (length : option Z).

(** Offset, length and encoding after the argument juggling. *)
Definition write_norm (buf : bytes) (args : write_args) : Z * option Z * jsstr :=
  match args with
  | WString => (0, Some (zlength buf), js "utf8")
  | WEncoding e => (0, Some (zlength buf), e)
  | WAt offset (Some l) e => (to_int32 offset, Some (to_int32 l), default (js "utf8") e)
  | WAt offset None e => (to_int32 offset, None, default [] e)
  | WLegacy e offset l => (to_int32 offset, l, e)
  end.

Definition write (buf : bytes) (string : jsstr) (args : write_args) : bytes * res Z :=
  let '(offset, length, encoding) := write_norm buf args in
  let remaining := zlength buf - offset in
  let length := match length with
                | None => remaining
                | Some l => if remaining <? l then remaining else l
                end in
  if ((0 <? zlength string) && ((length <? 0) || (offset <? 0))) || (zlength buf <? offset)
  then (buf, Throw RangeError)
  else
    let encoding := if bool_decide (encoding = []) then js "utf8" else encoding in
    match find_encoding encoding with
    | Some Hex => hexWrite buf string offset length
    | Some Utf8 => utf8Write buf string offset length
    | Some Ascii => asciiWrite buf string offset length
    | Some Binary => binaryWrite buf string offset length
    | Some EBase64 => base64Write buf string offset length
    | Some Ucs2 => ucs2Write buf string offset length
    | None => (buf, Throw TypeError)
    end.

(** [new Buffer(string, encoding)]; every byte allocated is written before
    it can be read. *)
Definition fromString (string encoding : jsstr) : res bytes :=
  let encoding := if bool_decide (encoding = []) then js "utf8" else encoding in
  length ← byteLength string encoding;
  let that := replicate (Z.to_nat (to_int32 length)) 0 in
  match write that string (WEncoding encoding) with
  | (_, Throw e) => Throw e
  | (that, Ok _) => Ok that
  end.
End Write.

(** The text of a JavaScript string as bytes, as [btoa] sends it: each unit's
    low byte, in base64. *)
Definition btoa (typed : bool) (str : jsstr) : res jsstr :=
  buffer ← fromString typed str (js "binary");
  toString buffer (Some (js "base64", 0, None)).

(** ** UTF-8: the bit operations are the arithmetic of the format *)

Lemma head_bits x k n : 0 <= n <= 8 -> 0 <= x < 2 ^ n -> 0 <= k < 256 -> k mod 2 ^ n = 0 -> js_or x k = k + x.
Proof.
  intros. pose proof (Z.pow_le_mono_r 2 n 8 ltac:(lia) ltac:(lia)).
  rewrite js_or_comm. apply (js_or_add k x n); lia.
Qed.

Lemma tail_bits v : js_or (js_and v 63) 128 = 128 + v mod 64.
Proof.
  rewrite js_and_63. apply (head_bits _ _ 6); [lia| |lia|done]. apply Z.mod_pos_bound. lia.
Qed.

Lemma small_div cp k m : 0 <= cp < m * k -> 0 < k -> 0 <= cp / k < m.
Proof. intros. split; [apply Z.div_pos; lia|apply Z.div_lt_upper_bound; lia]. Qed.

Lemma utf8_encode_bytes units cp :
  cp_ok cp -> below0 (spend units (zlength (utf8_bytes cp))) = false ->
  utf8_encode units cp = Ok (Some (spend units (zlength (utf8_bytes cp)), utf8_bytes cp)).
Proof.
  unfold cp_ok, utf8_encode, utf8_bytes, zlength. intros Hcp Hu. cbv zeta.
  assert (Hi : is_int32 cp) by (unfold is_int32; lia).
  destruct (Z.ltb_spec cp 128); [change (Z.of_nat (length [cp])) with 1 in *; by rewrite Hu|].
  destruct (Z.ltb_spec cp 2048); [|destruct (Z.ltb_spec cp 65536)];
    rewrite ?(proj2 (Z.ltb_lt cp 1114112)) by lia.
  all: match goal with |- context [Z.of_nat ?n] => let v := eval vm_compute in (Z.of_nat n) in change (Z.of_nat n) with v in * end.
  all: rewrite Hu, !tail_bits, !js_sar_div by (done || lia).
  - pose proof (small_div cp (2 ^ 6) 32 ltac:(lia) ltac:(lia)).
    rewrite (head_bits _ 192 5) by (lia || done). done.
  - pose proof (small_div cp (2 ^ 12) 16 ltac:(lia) ltac:(lia)).
    rewrite (head_bits _ 224 4) by (lia || done). done.
  - pose proof (small_div cp (2 ^ 18) 8 ltac:(lia) ltac:(lia)).
    rewrite (head_bits _ 240 3) by (lia || done). done.
Qed.

(** What [utf8ToBytes] keeps of well-formed UTF-16: of a pair whose code
    point minus 0x10000 has bit 16 set that bit is lost (see [utf8_plane2]). *)
Definition safe_lead (c : Z) : bool := (c - 55296) / 64 mod 2 =? 0.
Definition kept_lead (c : Z) : Z := if safe_lead c then c else c - 64.
Fixpoint utf8_kept (s : jsstr) : jsstr :=
  match s with
  | [] => []
  | c :: s1 =>
      if is_lead c then match s1 with d :: s2 => kept_lead c :: d :: utf8_kept s2 | [] => [c] end
      else c :: utf8_kept s1
  end.

(** The text that it keeps as it is. *)
Fixpoint utf8_safe (s : jsstr) : bool :=
  match s with
  | [] => true
  | c :: s1 => if is_lead c then match s1 with d :: s2 => safe_lead c && utf8_safe s2 | [] => true end else utf8_safe s1
  end.

Lemma kept_lead_lead c : is_lead c = true -> is_lead (kept_lead c) = true.
Proof.
  unfold kept_lead, safe_lead, is_lead. intros H. btrue. destruct (Z.eqb_spec ((c - 55296) / 64 mod 2) 0) as [E|E].
  - rewrite (proj2 (Z.leb_le _ _)), (proj2 (Z.leb_le _ _)) by lia. done.
  - assert (c - 55296 >= 64) by (Z.div_mod_to_equations; lia). rewrite (proj2 (Z.leb_le _ _)), (proj2 (Z.leb_le _ _)) by lia. done.
Qed.

Lemma wf_pairs_ind (P : jsstr -> Prop) : P [] ->
  (forall c d s, is_lead c = true -> is_trail d = true -> wf_utf16 s = true -> P s -> P (c :: d :: s)) ->
  (forall c s, is_lead c = false -> is_trail c = false -> 0 <= c < 65536 -> wf_utf16 s = true -> P s -> P (c :: s)) ->
  forall s, wf_utf16 s = true -> P s.
Proof.
  intros H0 H2 H1 s. remember (length s) as n eqn:En. assert (Hn : (length s <= n)%nat) by lia. clear En. revert s Hn.
  induction n as [|n IH]; intros [|c s] Hn Hs; try done; cbn in Hn; [lia|]. cbn [wf_utf16] in Hs. destruct (is_lead c) eqn:El.
  - destruct s as [|d s]; [done|]. apply andb_true_iff in Hs as [Hd Hs]. apply H2; try done. apply IH; [cbn in Hn; lia|done].
  - apply andb_true_iff in Hs as [[[Ht H]%andb_true_iff Hc]%andb_true_iff Hs]. apply negb_true_iff in Ht. btrue. apply H1; try done. apply IH; [lia|done].
Qed.

Lemma wf_kept s : wf_utf16 s = true -> wf_utf16 (utf8_kept s) = true.
Proof.
  revert s. apply wf_pairs_ind; [done| |].
  - intros c d s Hc Hd _ IH. cbn [utf8_kept]. rewrite Hc. cbn [wf_utf16]. by rewrite kept_lead_lead, Hd, IH.
  - intros c s Hc Ht H _ IH. cbn [utf8_kept]. rewrite Hc. cbn [wf_utf16]. rewrite Hc, Ht, IH. cbn. btrue. lia.
Qed.

Lemma kept_safe s : wf_utf16 s = true -> utf8_kept s = s <-> utf8_safe s = true.
Proof.
  revert s. apply wf_pairs_ind; [done| |].
  - intros c d s Hc Hd _ IH. cbn [utf8_kept utf8_safe]. rewrite Hc. unfold kept_lead. destruct (safe_lead c); cbn [andb].
    + rewrite <- IH. split; [by intros [= ?]|by intros ->].
    + split; [intros [= ?]; lia|done].
  - intros c s Hc Ht H _ IH. cbn [utf8_kept utf8_safe]. rewrite Hc, <- IH. split; [by intros [= ?]|by intros ->].
Qed.

(** The reference bytes of well-formed UTF-16. *)
Fixpoint utf8_ref (s : jsstr) : bytes :=
  match s with
  | [] => []
  | c :: s1 =>
      if is_lead c then
        match s1 with
        | d :: s2 => utf8_bytes (65536 + (c - 55296) * 1024 + (d - 56320)) ++ utf8_ref s2
        | [] => []
        end
      else utf8_bytes c ++ utf8_ref s1
  end.

Lemma surrogate_bits c d :
  is_lead c = true -> is_trail d = true ->
  js_or (js_shl (c - 55296) 10) (d - 56320) = (c - 55296) * 1024 + (d - 56320).
Proof.
  unfold is_lead, is_trail. intros. btrue.
  rewrite js_shl_mul by (unfold is_int32; lia). apply (js_or_add _ _ 10); [lia|lia|lia| |lia].
  apply Z.mod_mul. lia.
Qed.

Lemma pair_bits c d :
  is_lead c = true -> is_trail d = true ->
  js_or (js_or (js_shl (c - 55296) 10) (d - 56320)) 65536 = 65536 + (kept_lead c - 55296) * 1024 + (d - 56320).
Proof.
  intros Hc Hd. rewrite surrogate_bits by done. unfold is_lead, is_trail, kept_lead, safe_lead in *. btrue.
  set (x := (c - 55296) * 1024 + (d - 56320)).
  assert (Hx : x / 65536 = (c - 55296) / 64).
  { subst x. replace 65536 with (1024 * 64) by lia. rewrite <- Z.div_div by lia.
    rewrite Z.add_comm, Z.div_add, (Z.div_small (d - 56320)) by lia. by rewrite Z.add_0_l. }
  assert (Hr : 0 <= x < 2 ^ 20) by (subst x; lia).
  pose proof (land_field x 16 1 ltac:(lia) ltac:(lia)) as El. change ((2 ^ 1 - 1) * 2 ^ 16) with 65536 in El.
  change (2 ^ 16) with 65536 in El. change (2 ^ 1) with 2 in El. rewrite Hx in El.
  pose proof (Z.add_lor_land x 65536) as E. rewrite El in E.
  unfold js_or. rewrite (to_int32_id x), (to_int32_id 65536) by (unfold is_int32; lia).
  pose proof (Z.mod_pos_bound ((c - 55296) / 64) 2 ltac:(lia)). destruct (Z.eqb_spec ((c - 55296) / 64 mod 2) 0) as [Hz|Hz].
  - replace (Z.lor x 65536) with (x + 65536) by lia. rewrite to_int32_id by (unfold is_int32; lia). subst x; lia.
  - replace (Z.lor x 65536) with x by lia. rewrite to_int32_id by (unfold is_int32; lia). subst x; lia.
Qed.

Lemma utf8_bytes_length cp : (1 <= length (utf8_bytes cp))%nat.
Proof. unfold utf8_bytes. repeat case_match; cbn; lia. Qed.

Lemma lead_trail_cp c d :
  is_lead c = true -> is_trail d = true -> cp_ok (65536 + (c - 55296) * 1024 + (d - 56320)).
Proof. intros Hc Hd. by destruct (utf16_units_pair c d Hc Hd). Qed.

Lemma wf_strong_ind (P : jsstr -> Prop) :
  P [] -> (forall c s, P s -> P (c :: s)) ->
  (forall c d s, P s -> P (c :: d :: s)) -> forall s, P s.
Proof. intros. by apply encode_units_ind. Qed.

(** A limit that the reference bytes do not exceed. *)
Definition enough (units : option Z) (n : Z) : Prop := match units with Some u => n <= u | None => True end.

Lemma enough_spend units n m :
  enough units (n + m) -> 0 <= m -> below0 (spend units n) = false /\ enough (spend units n) m.
Proof. destruct units as [u|]; cbn; [|done]. intros. split; [apply Z.ltb_ge|]; lia. Qed.

(** Encoding text that fits the limit gives the reference bytes of what is
    kept of it. *)
Lemma utf8_loop_ref s : wf_utf16 s = true ->
  forall units, enough units (zlength (utf8_ref (utf8_kept s))) -> utf8_loop s units None = Ok (utf8_ref (utf8_kept s)).
Proof.
  revert s. refine (wf_pairs_ind _ _ _ _); [done| |].
  - intros c d s Hc Hd Hs IH units He. cbn [utf8_kept] in *. rewrite Hc in *. pose proof (kept_lead_lead c Hc) as Hk.
    cbn [utf8_ref] in *. rewrite Hk in *. rewrite zlength_app in He. apply enough_spend in He as [Hb He]; [|unfold zlength; lia].
    cbn [utf8_loop]. cbv zeta.
    pose proof Hc as Hc'. pose proof Hd as Hd'. unfold is_lead in Hc'. unfold is_trail in Hd'. btrue.
    rewrite (proj2 (Z.ltb_lt 55295 c)), (proj2 (Z.ltb_lt c 57344)), (proj2 (Z.ltb_ge 56319 c)) by lia.
    rewrite (proj2 (Z.ltb_lt 55295 d)), (proj2 (Z.ltb_lt d 57344)), (proj2 (Z.ltb_ge d 56320)) by lia.
    cbn [andb]. rewrite pair_bits by done.
    rewrite utf8_encode_bytes by (done || by apply lead_trail_cp). cbn [mbind res_bind]. by rewrite IH.
  - intros c s Hc Ht H Hs IH units He. cbn [utf8_kept] in *. rewrite Hc in *. cbn [utf8_ref] in *. rewrite Hc in *.
    rewrite zlength_app in He. apply enough_spend in He as [Hb He]; [|unfold zlength; lia].
    cbn [utf8_loop]. cbv zeta. replace ((55295 <? c) && (c <? 57344)) with false.
    + rewrite utf8_encode_bytes by (done || (unfold cp_ok; lia)). cbn [mbind res_bind]. by rewrite IH.
    + symmetry. apply andb_false_iff. unfold is_lead, is_trail in *. apply andb_false_iff in Ht, Hc. rewrite !Z.leb_gt in *. rewrite !Z.ltb_ge. lia.
Qed.

Lemma utf8_ref_bytes s : wf_utf16 s = true -> Forall is_byte (utf8_ref s).
Proof.
  revert s. apply wf_pairs_ind; [constructor| |].
  - intros c d s Hc Hd _ IH. cbn [utf8_ref]. rewrite Hc. apply Forall_app. split; [by apply utf8_bytes_range, lead_trail_cp|done].
  - intros c s Hc Ht H _ IH. cbn [utf8_ref]. rewrite Hc. apply Forall_app. split; [apply utf8_bytes_range; unfold cp_ok; lia|done].
Qed.

(** ** Decoding UTF-8 *)

Lemma cont_bits x : 0 <= x < 64 -> continuation (128 + x) = true /\ js_and (128 + x) 63 = x.
Proof.
  intros Hx. split.
  - unfold continuation. apply Z.eqb_eq.
    change 192 with ((2 ^ 2 - 1) * 2 ^ 6). rewrite js_and_field by (unfold is_int32; lia).
    replace ((128 + x) / 2 ^ 6) with 2; [done|]. apply (Z.div_unique _ _ _ x); lia.
  - rewrite js_and_63. symmetry. apply (Z.mod_unique _ _ 2 x); lia.
Qed.

Lemma low_mask b k x n : 0 <= n <= 8 -> 0 <= x < 2 ^ n -> b = k * 2 ^ n + x -> js_and b (2 ^ n - 1) = x.
Proof. intros Hn Hx ->. rewrite js_and_mask by lia. rewrite Z.add_comm, Z.mod_add by lia. by apply Z.mod_small. Qed.

Lemma or_fields a n b :
  0 <= n <= 31 -> 0 <= a -> 0 <= b < 2 ^ n -> a * 2 ^ n + b < 2 ^ 31 -> js_or (a * 2 ^ n) b = a * 2 ^ n + b.
Proof. intros. apply (js_or_add _ _ n); try lia. apply Z.mod_mul. lia. Qed.

Lemma shl_field a n : 0 <= n < 31 -> 0 <= a -> a * 2 ^ n < 2 ^ 31 -> js_shl a n = a * 2 ^ n.
Proof.
  intros Hn Ha Hr. assert (0 < 2 ^ n) by lia. apply js_shl_mul; unfold is_int32; nia.
Qed.

(** The number the 1, 2, 3 or 4 bytes of a code point decode to. *)
Lemma utf8_code_point_bytes cp rest :
  cp_ok cp -> ~ (55296 <= cp <= 57343) ->
  utf8_code_point (utf8_bytes cp ++ rest) = Some cp /\
  match utf8_bytes cp with b :: _ => bytesPerSequence b | [] => 1%nat end = length (utf8_bytes cp).
Proof.
  unfold cp_ok, utf8_bytes. intros Hcp Hsur.
  pose proof (Z.mod_pos_bound cp 64 ltac:(lia)) as M1.
  pose proof (Z.mod_pos_bound (cp / 64) 64 ltac:(lia)) as M2.
  pose proof (Z.mod_pos_bound (cp / 4096) 64 ltac:(lia)) as M3.
  pose proof (Z.div_mod cp 64 ltac:(lia)) as D1.
  pose proof (Z.div_mod (cp / 64) 64 ltac:(lia)) as D2. rewrite Z.div_div in D2 by lia. change (64 * 64) with 4096 in D2.
  pose proof (Z.div_mod (cp / 4096) 64 ltac:(lia)) as D3. rewrite Z.div_div in D3 by lia.
  change (4096 * 64) with 262144 in D3.
  destruct (Z.ltb_spec cp 128); [|destruct (Z.ltb_spec cp 2048); [|destruct (Z.ltb_spec cp 65536)]];
    cbn [app utf8_code_point length]; unfold bytesPerSequence.
  - rewrite !(proj2 (Z.ltb_ge _ _)) by lia. by rewrite (proj2 (Z.ltb_lt cp 128)) by lia.
  - set (a := cp / 64) in *. set (b := cp mod 64) in *.
    rewrite (proj2 (Z.ltb_ge 239 _)), (proj2 (Z.ltb_ge 223 _)), (proj2 (Z.ltb_lt 191 _)) by lia.
    destruct (cont_bits b M1) as [-> ->]. rewrite (low_mask _ 6 a 5) by lia.
    rewrite shl_field, or_fields by lia. change (2 ^ 6) with 64. cbv zeta.
    rewrite (proj2 (Z.ltb_lt 127 _)) by lia. split; [f_equal; lia|done].
  - set (a := cp / 4096) in *. set (b := cp / 64 mod 64) in *. set (c := cp mod 64) in *.
    rewrite (proj2 (Z.ltb_ge 239 _)), (proj2 (Z.ltb_lt 223 _)) by lia.
    destruct (cont_bits b M2) as [-> ->]. destruct (cont_bits c M1) as [-> ->]. cbn [andb].
    rewrite (low_mask _ 14 a 4) by lia. rewrite !shl_field by lia.
    rewrite (js_or_add (a * 2 ^ 12) (b * 2 ^ 6) 12) by (lia || (apply Z.mod_mul; lia)).
    replace (a * 2 ^ 12 + b * 2 ^ 6) with ((a * 64 + b) * 2 ^ 6) by lia.
    rewrite or_fields by lia. replace ((a * 64 + b) * 2 ^ 6 + c) with cp by lia. cbv zeta.
    rewrite (proj2 (Z.ltb_lt 2047 cp)) by lia.
    replace ((cp <? 55296) || (57343 <? cp)) with true; [done|].
    symmetry. apply orb_true_iff. rewrite !Z.ltb_lt. lia.
  - set (a := cp / 262144) in *. set (b := cp / 4096 mod 64) in *. set (c := cp / 64 mod 64) in *.
    set (d := cp mod 64) in *.
    rewrite (proj2 (Z.ltb_lt 239 _)) by lia.
    destruct (cont_bits b M3) as [-> ->]. destruct (cont_bits c M2) as [-> ->].
    destruct (cont_bits d M1) as [-> ->]. cbn [andb].
    rewrite (low_mask _ 15 a 4) by lia. rewrite !shl_field by lia.
    rewrite (js_or_add (a * 2 ^ 18) (b * 2 ^ 12) 18) by (lia || (apply Z.mod_mul; lia)).
    replace (a * 2 ^ 18 + b * 2 ^ 12) with ((a * 64 + b) * 2 ^ 12) by lia.
    rewrite (js_or_add ((a * 64 + b) * 2 ^ 12) (c * 2 ^ 6) 12) by (lia || (apply Z.mod_mul; lia)).
    replace ((a * 64 + b) * 2 ^ 12 + c * 2 ^ 6) with (((a * 64 + b) * 64 + c) * 2 ^ 6) by lia.
    rewrite or_fields by lia. replace (((a * 64 + b) * 64 + c) * 2 ^ 6 + d) with cp by lia. cbv zeta.
    rewrite (proj2 (Z.ltb_lt 65535 cp)), (proj2 (Z.ltb_lt cp 1114112)) by lia. done.
Qed.

Lemma utf8_turn_bytes cp rest :
  cp_ok cp -> ~ (55296 <= cp <= 57343) ->
  utf8_turn (utf8_bytes cp ++ rest) = (utf16_units cp, length (utf8_bytes cp)).
Proof.
  intros Hcp Hsur. destruct (utf8_code_point_bytes cp rest Hcp Hsur) as [E1 E2].
  unfold utf8_turn. rewrite E1. pose proof (utf8_bytes_length cp).
  destruct (utf8_bytes cp) as [|b bs] eqn:Eb; [cbn in *; lia|]. cbn [app]. rewrite E2.
  unfold cp_ok in Hcp. unfold utf16_units.
  destruct (Z.ltb_spec 65535 cp); destruct (Z.ltb_spec cp 65536); try lia; [|done].
  pose proof (Z.mod_pos_bound (cp - 65536) 1024 ltac:(lia)).
  pose proof (small_div (cp - 65536) 1024 1024 ltac:(lia) ltac:(lia)).
  assert (Hm : forall v, js_and v 1023 = v mod 1024) by (intros; apply (js_and_mask v 10); lia).
  rewrite js_shr_div by lia. rewrite !Hm. change (2 ^ 10) with 1024.
  rewrite (Z.mod_small ((cp - 65536) / 1024)) by lia.
  rewrite js_or_comm, (js_or_add 55296 _ 10), (js_or_add 56320 _ 10) by (lia || done). done.
Qed.

Lemma utf8_slice_bytes cp rest f :
  cp_ok cp -> ~ (55296 <= cp <= 57343) ->
  utf8_slice_loop (S f) (utf8_bytes cp ++ rest) = utf16_units cp ++ utf8_slice_loop f rest.
Proof.
  intros Hcp Hsur. pose proof (utf8_bytes_length cp). cbn [utf8_slice_loop].
  destruct (utf8_bytes cp ++ rest) as [|b l] eqn:E.
  - destruct (utf8_bytes cp); [cbn in *; lia|done].
  - rewrite <- E, utf8_turn_bytes by done. by rewrite drop_app_length.
Qed.

Lemma utf8_slice_fuel f l : (length l <= f)%nat -> utf8_slice_loop f l = utf8_slice_loop (length l) l.
Proof.
  revert l. induction f as [f IH] using lt_wf_ind. intros l Hf.
  destruct l as [|b l]; [by destruct f|]. destruct f as [|f]; [cbn in Hf; lia|].
  cbn [utf8_slice_loop length]. destruct (utf8_turn (b :: l)) as [us n] eqn:E. f_equal.
  assert (Hn : (1 <= n)%nat).
  { unfold utf8_turn, bytesPerSequence in E. repeat case_match; simplify_eq; lia. }
  cbn in Hf. assert (length (drop n (b :: l)) <= length l)%nat by (rewrite length_drop; cbn; lia).
  rewrite (IH f) by lia. symmetry. apply (IH (length l)); lia.
Qed.

Lemma decode_chunks_id f l : (length l <= f)%nat -> decode_chunks f l = l.
Proof.
  revert l. induction f as [|f IH]; intros l Hf; [destruct l; [done|cbn in Hf; lia]|].
  destruct l as [|c l]; [done|]. cbn [decode_chunks]. rewrite IH; [apply take_drop|].
  rewrite length_drop. unfold MAX_ARGUMENTS_LENGTH. cbn [length] in *. lia.
Qed.

Lemma decodeCodePointsArray_id l : decodeCodePointsArray l = l.
Proof. unfold decodeCodePointsArray. case_match; [done|]. by apply decode_chunks_id. Qed.

(** Decoding the reference bytes gives the text back. *)
Lemma utf8_slice_ref s : wf_utf16 s = true -> utf8_slice_loop (length (utf8_ref s)) (utf8_ref s) = s.
Proof.
  intros Hs. assert (H : forall f, (length (utf8_ref s) <= f)%nat -> utf8_slice_loop f (utf8_ref s) = s); [|by apply H].
  revert s Hs. refine (wf_pairs_ind _ _ _ _); [by intros []| |].
  - intros c d s Hc Hd _ IH f Hf. cbn [utf8_ref] in *. rewrite Hc in *.
    destruct (utf16_units_pair c d Hc Hd) as [Hcp Hu]. cbv zeta in *.
    pose proof (utf8_bytes_length (65536 + (c - 55296) * 1024 + (d - 56320))). rewrite length_app in Hf. destruct f as [|f]; [lia|].
    rewrite utf8_slice_bytes, Hu; [|done|].
    + rewrite IH by lia. done.
    + unfold is_lead, is_trail in *. btrue. lia.
  - intros c s Hc Ht Hr _ IH f Hf. cbn [utf8_ref] in *. rewrite Hc in *. pose proof (utf8_bytes_length c).
    rewrite length_app in Hf. destruct f as [|f]; [lia|]. rewrite utf8_slice_bytes; [|unfold cp_ok; lia|].
    + unfold utf16_units. rewrite (proj2 (Z.ltb_lt c 65536)) by lia. cbn [app]. by rewrite IH by lia.
    + unfold is_lead, is_trail in *. apply andb_false_iff in Ht, Hc. rewrite !Z.leb_gt in *. lia.
Qed.

(** ** The other encodings, whole buffers *)

Lemma sub_all b : sub b 0 (zlength b) = b.
Proof. unfold sub, zlength. cbn [Z.to_nat drop]. rewrite Z.sub_0_r, Nat2Z.id. by apply take_ge. Qed.

Lemma byte_table (p : Z -> bool) b : forallb p (seqZ 0 256) = true -> is_byte b -> p b = true.
Proof.
  intros H%Forall_forallb Hb. rewrite Forall_forall in H. apply H, elem_of_seqZ. unfold is_byte in Hb. lia.
Qed.

Lemma toHex_spec b : is_byte b -> length (toHex b) = 2%nat /\ parseInt16 (toHex b) = Some b.
Proof.
  intros Hb. assert (E : ((length (toHex b) =? 2)%nat && (default (-1) (parseInt16 (toHex b)) =? b)) = true).
  { revert Hb. apply (byte_table (fun b => (length (toHex b) =? 2)%nat
      && (default (-1) (parseInt16 (toHex b)) =? b))). by vm_compute. }
  apply andb_true_iff in E as [E1%Nat.eqb_eq E2%Z.eqb_eq]. split; [done|].
  unfold is_byte in Hb. destruct (parseInt16 (toHex b)); cbn in E2; [congruence|lia].
Qed.

Lemma toHex_length bs : Forall is_byte bs -> length (List.flat_map toHex bs) = (2 * length bs)%nat.
Proof.
  induction 1 as [|b bs Hb _ IH]; [done|]. cbn [List.flat_map length]. rewrite length_app, IH.
  destruct (toHex_spec b Hb) as [-> _]. lia.
Qed.

Lemma toHex_zlength bs : Forall is_byte bs -> zlength (List.flat_map toHex bs) = zlength bs * 2.
Proof. intros. unfold zlength. rewrite toHex_length by done. lia. Qed.

Definition utf16_bytes (s : jsstr) : bytes := List.flat_map (fun c => [c mod 256; js_sar c 8]) s.

Lemma unit_high c : is_unit c -> js_sar c 8 = c / 256 /\ 0 <= c / 256 < 256.
Proof.
  unfold is_unit. intros. rewrite js_sar_div by (unfold is_int32; lia).
  split; [done|]. by apply (small_div c 256 256); lia.
Qed.

Lemma utf16leToBytes_all s units :
  2 * zlength s <= units -> utf16leToBytes s units = utf16_bytes s.
Proof.
  revert units. induction s as [|c s IH]; intros units Hu; [done|]. cbn [utf16leToBytes utf16_bytes List.flat_map].
  assert (zlength (c :: s) = zlength s + 1) by (unfold zlength; cbn [length]; lia).
  assert (0 <= zlength s) by (unfold zlength; lia).
  rewrite (proj2 (Z.ltb_ge _ _)) by lia. cbn [app]. by rewrite IH by lia.
Qed.

Lemma utf16_units_bytes s : Forall is_unit s -> utf16_units_of (utf16_bytes s) = s.
Proof.
  induction 1 as [|c s Hc _ IH]; [done|]. cbn [utf16_bytes List.flat_map app utf16_units_of].
  fold (utf16_bytes s). rewrite IH. f_equal. destruct (unit_high c Hc) as [-> _]. unfold is_unit in Hc.
  rewrite Z.mod_small; pose proof (Z.div_mod c 256 ltac:(lia)); lia.
Qed.

Lemma utf16_bytes_bytes s : Forall is_unit s -> Forall is_byte (utf16_bytes s).
Proof.
  induction 1 as [|c s Hc _ IH]; [constructor|]. cbn [utf16_bytes List.flat_map app].
  destruct (unit_high c Hc) as [-> ?]. constructor; [apply Z.mod_pos_bound; lia|]. by constructor.
Qed.

Lemma length_utf16_bytes s : zlength (utf16_bytes s) = 2 * zlength s.
Proof.
  unfold zlength. induction s as [|c s IH]; [done|]. cbn [utf16_bytes List.flat_map app length] in *.
  fold (utf16_bytes s) in *. lia.
Qed.

(** *** Base64 text survives [base64clean] *)

Lemma sextet_unit d : 0 <= d < 64 -> base64_unit (sextet d) = true.
Proof.
  intros Hd. assert (H : forallb (fun d => base64_unit (sextet d)) (seqZ 0 64) = true) by by vm_compute.
  apply Forall_forallb in H. rewrite Forall_forall in H. apply H, elem_of_seqZ. lia.
Qed.

(** Base64 text is alphabet units and at most two equals signs. *)
Definition base64_shape (t : jsstr) : Prop :=
  exists body k, t = body ++ replicate k 61 /\ Forall (fun c => base64_unit c = true) body /\
    (k <= 2)%nat /\ (zlength body + Z.of_nat k) mod 4 = 0 /\ (body = [] /\ k = O \/ 2 <= zlength body).

Lemma shape_quad s1 s2 s3 s4 t :
  base64_unit s1 = true -> base64_unit s2 = true -> base64_unit s3 = true -> base64_unit s4 = true ->
  base64_shape t -> base64_shape (s1 :: s2 :: s3 :: s4 :: t).
Proof.
  intros ? ? ? ? (body & k & -> & Hb & Hk & Hm & _).
  exists (s1 :: s2 :: s3 :: s4 :: body), k. unfold zlength in *. cbn [length].
  repeat split; [repeat constructor; done|done| |right; lia].
  replace (Z.of_nat (S (S (S (S (length body))))) + Z.of_nat k) with (Z.of_nat (length body) + Z.of_nat k + 1 * 4) by lia.
  by rewrite Z.mod_add.
Qed.

Lemma uint8ToBase64_shape bs : Forall is_byte bs -> base64_shape (uint8ToBase64 bs).
Proof.
  induction bs as [|a|a b|a b c bs IH] using list_ind3; intros Hbs.
  - exists [], O. repeat split; try done; [lia|by left].
  - apply Forall_cons in Hbs as [Ha _]. rewrite uint8ToBase64_1 by done. unfold is_byte in Ha.
    exists [sextet (a / 4); sextet (a mod 4 * 16)], 2%nat.
    repeat split; [repeat constructor; apply sextet_unit; Z.div_mod_to_equations; lia|done|by right].
  - apply Forall_cons in Hbs as [Ha [Hb _]%Forall_cons]. rewrite uint8ToBase64_2 by done. unfold is_byte in *.
    exists [sextet (a / 4); sextet (a mod 4 * 16 + b / 16); sextet (b mod 16 * 4)], 1%nat.
    repeat split; [repeat constructor; apply sextet_unit; Z.div_mod_to_equations; lia|lia|by right].
  - apply Forall_cons in Hbs as [Ha [Hb [Hc Hbs]%Forall_cons]%Forall_cons].
    rewrite uint8ToBase64_cons3, triplet_sextets by done. unfold is_byte in *. cbn [app].
    apply shape_quad; [apply sextet_unit; Z.div_mod_to_equations; lia..|by apply IH].
Qed.

Lemma base64_unit_not_space c : base64_unit c = true \/ c = 61 -> is_space c = false.
Proof.
  intros H. assert (Hc : 43 <= c <= 122).
  { destruct H as [H| ->]; [|lia]. unfold base64_unit in H.
    change (chr "+") with 43 in H. change (chr "/") with 47 in H. change (chr "-") with 45 in H.
    change (chr "_") with 95 in H. rewrite !orb_true_iff, !andb_true_iff, !Z.eqb_eq, !Z.leb_le in H. lia. }
  unfold is_space. rewrite !orb_false_iff, !andb_false_iff, !Z.eqb_neq, !Z.leb_gt. lia.
Qed.

Lemma trim_left_id s : Forall (fun c => is_space c = false) s -> trim_left s = s.
Proof. destruct 1 as [|c s Hc _]; [done|]. cbn. by rewrite Hc. Qed.

Lemma trim_id s : Forall (fun c => is_space c = false) s -> trim s = s.
Proof.
  intros H. unfold trim. rewrite (trim_left_id s H).
  rewrite trim_left_id by by apply Forall_rev. apply rev_involutive.
Qed.

Lemma pad_loop_replicate n k s :
  (k <= n)%nat -> (k <= 3)%nat -> (zlength s + Z.of_nat k) mod 4 = 0 -> pad_loop n s = s ++ replicate k 61.
Proof.
  revert k s. induction n as [|n IH]; intros k s Hk Hk3 Hm; cbn [pad_loop].
  - replace k with O by lia. by rewrite app_nil_r.
  - destruct k as [|k].
    + rewrite Z.add_0_r in Hm. rewrite Hm. by rewrite app_nil_r.
    + destruct (Z.eqb_spec (zlength s mod 4) 0) as [E|_].
      { exfalso. rewrite Nat2Z.inj_succ in Hm. Z.div_mod_to_equations. lia. }
      change (js "=") with [61]. rewrite (IH k); [|lia|lia|].
      * rewrite <- app_assoc. done.
      * rewrite zlength_app. change (zlength [61]) with 1.
        replace (zlength s + 1 + Z.of_nat k) with (zlength s + Z.of_nat (S k)) by lia. done.
Qed.

Lemma base64clean_shape t : base64_shape t -> base64clean t = t.
Proof.
  intros (body & k & -> & Hb & Hk & Hm & Hlen). unfold base64clean. rewrite trim_id.
  - assert (E : List.filter base64_unit (body ++ replicate k 61) = body).
    { rewrite List.filter_app. assert (E1 : List.filter base64_unit (replicate k 61) = []).
      { clear. induction k; [done|]. cbn [replicate List.filter]. by change (base64_unit 61) with false. }
      rewrite E1, app_nil_r. clear -Hb. induction Hb as [|c s Hc _ IH]; [done|]. cbn. by rewrite Hc, IH. }
    rewrite E. destruct Hlen as [[-> ->]|Hlen]; [done|].
    rewrite (proj2 (Z.ltb_ge _ _)) by lia. apply pad_loop_replicate; lia.
  - apply Forall_app. split; [apply (Forall_impl _ _ _ Hb); intros; apply base64_unit_not_space; by left|].
    apply Forall_replicate. by apply base64_unit_not_space; right.
Qed.

Lemma base64ToBytes_text bs : Forall is_byte bs -> base64ToBytes (uint8ToBase64 bs) = Ok bs.
Proof.
  intros H. unfold base64ToBytes. rewrite base64clean_shape by by apply uint8ToBase64_shape.
  by apply base64_roundtrip_len.
Qed.

(** ** Filling a fresh buffer *)

Section Fill.
Variable typed : bool.

Lemma set_next pre x rest b :
  is_byte b -> set_ typed (pre ++ x :: rest) (zlength pre) b = (pre ++ [b]) ++ rest.
Proof.
  intros Hb. change (x :: rest) with ([x] ++ rest). rewrite set_0 by (done || (cbn; lia)).
  rewrite to_uint8_byte by done. by rewrite <- app_assoc.
Qed.

Lemma blit_loop_all src : forall pre rest len,
  Forall is_byte src -> length rest = length src -> zlength pre + zlength src <= len ->
  blit_loop typed src (pre ++ rest) 0 (zlength pre) len = (pre ++ src, zlength pre + zlength src).
Proof.
  induction src as [|b src IH]; intros pre rest len Hb Hr Hl; cbn [blit_loop].
  - destruct rest; [|done]. rewrite app_nil_r. f_equal. unfold zlength. cbn. lia.
  - destruct rest as [|x rest]; [done|]. apply Forall_cons in Hb as [Hb Hbs].
    assert (E : zlength (b :: src) = 1 + zlength src) by (unfold zlength; cbn [length]; lia).
    assert (0 <= zlength src) by (unfold zlength; lia).
    rewrite (proj2 (Z.leb_gt _ _)) by lia. rewrite Z.add_0_r.
    rewrite (proj2 (Z.leb_gt _ _)) by (rewrite zlength_app; unfold zlength; cbn [length]; lia).
    rewrite set_next by done.
    assert (E2 : zlength (pre ++ [b]) = zlength pre + 1) by (rewrite zlength_app; done).
    rewrite <- E2, IH by (done || (cbn in Hr; lia)). rewrite <- app_assoc, E2. f_equal. lia.
Qed.

Lemma hex_loop_all bs : forall pre rest,
  Forall is_byte bs -> length rest = length bs ->
  hex_loop typed (length bs) (List.flat_map toHex bs) (pre ++ rest) 0 (zlength pre) =
  (pre ++ bs, Ok (zlength pre + zlength bs)).
Proof.
  induction bs as [|b bs IH]; intros pre rest Hb Hr; cbn [hex_loop length List.flat_map].
  - destruct rest; [|done]. rewrite app_nil_r. do 2 f_equal. unfold zlength. cbn. lia.
  - destruct rest as [|x rest]; [done|]. apply Forall_cons in Hb as [Hb Hbs].
    destruct (toHex_spec b Hb) as [Hlen Hparse].
    rewrite <- Hlen, take_app_length, drop_app_length, Hparse, Z.add_0_l, set_next by done.
    assert (E2 : zlength (pre ++ [b]) = zlength pre + 1) by (rewrite zlength_app; done).
    rewrite <- E2, IH by (done || (cbn in Hr; lia)). rewrite <- app_assoc, E2. do 2 f_equal.
    unfold zlength. cbn [length]. lia.
Qed.

(** The whole of a buffer of exactly the right length is written. *)
Lemma blit_res_all bs :
  Forall is_byte bs ->
  blit_res typed (Ok bs) (replicate (length bs) 0) 0 (zlength bs) = (bs, Ok (zlength bs)).
Proof.
  intros Hb. unfold blit_res, blitBuffer.
  pose proof (blit_loop_all bs [] (replicate (length bs) 0) (zlength bs) Hb) as E.
  cbn [app] in E. change (zlength []) with 0 in E. rewrite E; [done| |lia]. by rewrite length_replicate.
Qed.
End Fill.

(** ** Encoding names *)

Lemma str_in_true e l : str_in e l = true <-> e ∈ l.
Proof. apply bool_decide_eq_true. Qed.
Lemma str_in_false e l : str_in e l = false <-> e ∉ l.
Proof. apply bool_decide_eq_false. Qed.

(** The literals of the switch. *)
Definition encoding_names : list jsstr :=
  [js "hex"; js "utf8"; js "utf-8"; js "ascii"; js "binary"; js "base64"; js "ucs2"; js "ucs-2";
   js "utf16le"; js "utf-16le"].

(** Membership in lists of literals, as propositional reasoning. *)
Ltac names :=
  unfold encoding_names in *;
  repeat match goal with
  | Hs : str_in _ _ = true |- _ => apply str_in_true in Hs
  | Hs : str_in _ _ = false |- _ => apply str_in_false in Hs
  end; rewrite ?elem_of_cons, ?elem_of_nil in *; tauto.

Lemma encoding_case_some e x : encoding_case e = Some x -> e ∈ encoding_names.
Proof. unfold encoding_case. intros H. repeat case_match; try done; clear H; names. Qed.

Lemma encoding_case_none e : encoding_case e = None -> e ∉ encoding_names.
Proof. unfold encoding_case. intros H Hin. repeat case_match; try done. clear H. names. Qed.

Lemma byteLength_literal s e x :
  s <> [] -> encoding_case e = Some x ->
  byteLength s e = match x with
                   | Ascii | Binary => Ok (zlength s)
                   | Utf8 => bs ← utf8ToBytes s None; Ok (zlength bs)
                   | Ucs2 => Ok (zlength s * 2)
                   | Hex => Ok (js_shr (zlength s) 1)
                   | EBase64 => bs ← base64ToBytes s; Ok (zlength bs)
                   end.
Proof.
  intros Hs Hx. pose proof (encoding_case_some e x Hx) as Hin. unfold byteLength.
  destruct (Z.eqb_spec (zlength s) 0) as [E|_]; [by destruct s|].
  unfold encoding_names in Hin. rewrite !elem_of_cons in Hin.
  destruct_or! Hin; try (by apply not_elem_of_nil in Hin); subst e; vm_compute in Hx; simplify_eq; reflexivity.
Qed.

(** The loop of [byteLength] skips a name that only its lower case makes known. *)
Lemma byteLength_lower s e x :
  s <> [] -> encoding_case e = None -> encoding_case (toLowerCase e) = Some x ->
  byteLength s e = byteLength s (toLowerCase e).
Proof.
  intros Hs Hn Hx. unfold byteLength. rewrite toLowerCase_idem.
  destruct (zlength s =? 0); [done|].
  assert (H : forall r, r ∈ [js "raw"; js "raws"] -> e <> r).
  { intros r Hr ->. rewrite !elem_of_cons in Hr. destruct_or! Hr; subst; try done. by apply not_elem_of_nil in Hr. }
  apply encoding_case_none in Hn.
  assert (F : forall l, (forall y, y ∈ l -> y ∈ encoding_names \/ y ∈ [js "raw"; js "raws"]) -> str_in e l = false).
  { intros l Hl. apply str_in_false. intros Hin. destruct (Hl e Hin) as [?|Hr]; [done|]. by apply (H e Hr). }
  rewrite !F by (intros y Hy; names).
  apply encoding_case_some in Hx. unfold encoding_names in Hx. rewrite !elem_of_cons in Hx.
  destruct_or! Hx; try (by apply not_elem_of_nil in Hx); rewrite Hx; reflexivity.
Qed.

Lemma byteLength_encoding s e x :
  s <> [] -> find_encoding e = Some x ->
  byteLength s e = match x with
                   | Ascii | Binary => Ok (zlength s)
                   | Utf8 => bs ← utf8ToBytes s None; Ok (zlength bs)
                   | Ucs2 => Ok (zlength s * 2)
                   | Hex => Ok (js_shr (zlength s) 1)
                   | EBase64 => bs ← base64ToBytes s; Ok (zlength bs)
                   end.
Proof.
  unfold find_encoding. intros Hs. destruct (encoding_case e) as [y|] eqn:E; intros Hx.
  - simplify_eq. by apply byteLength_literal.
  - rewrite (byteLength_lower s e x) by done. by apply byteLength_literal.
Qed.

(** ** Text through a buffer *)

(** [s] is a text of the bytes [bs] in an encoding: lower-case hex digits,
    well-formed UTF-16, ASCII below 128. *)
Definition text_of (e : encoding) (s : jsstr) (bs : bytes) : Prop :=
  match e with
  | Hex => s = List.flat_map toHex bs
  | Utf8 => wf_utf16 s = true /\ bs = utf8_ref (utf8_kept s)
  | Ascii => bs = s /\ Forall (fun c => 0 <= c < 128) s
  | Binary => bs = s
  | EBase64 => s = uint8ToBase64 bs
  | Ucs2 => Forall is_unit s /\ bs = utf16_bytes s
  end.

(** The text the buffer keeps: but for UTF-8, the text. *)
Definition kept_text (e : encoding) (s : jsstr) : jsstr := match e with Utf8 => utf8_kept s | _ => s end.

Lemma text_of_nil e bs : Forall is_byte bs -> text_of e [] bs -> bs = [].
Proof.
  intros Hb. destruct e; cbn; try tauto.
  - intros H. pose proof (toHex_length bs Hb) as E. rewrite <- H in E. destruct bs; [done|cbn in E; lia].
  - intros H. destruct (base64_roundtrip_len bs Hb) as (_ & _ & E). by apply E.
Qed.

Lemma asciiToBytes_id s : Forall is_byte s -> asciiToBytes s = s.
Proof.
  intros H. unfold asciiToBytes. induction H as [|c s Hc _ IH]; [done|]. cbn [fmap list_fmap] in *.
  rewrite IH, js_and_255, Z.mod_small by (unfold is_byte in Hc; lia). done.
Qed.

Lemma utf8_none_ref s : wf_utf16 s = true -> utf8ToBytes s None = Ok (utf8_ref (utf8_kept s)).
Proof. intros. by apply utf8_loop_ref. Qed.

Lemma byteLength_text s name e bs :
  find_encoding name = Some e -> Forall is_byte bs -> text_of e s bs -> 2 * zlength bs < 2 ^ 32 ->
  byteLength s name = Ok (zlength bs).
Proof.
  intros Hn Hb Ht Hl. destruct (decide (s = [])) as [->|Hs].
  { by rewrite (text_of_nil e bs Hb Ht). }
  rewrite (byteLength_encoding s name e) by done. destruct e; cbn [text_of] in Ht.
  - subst s. rewrite toHex_zlength by done. assert (0 <= zlength bs) by (unfold zlength; lia).
    rewrite js_shr_div by lia. f_equal. change (2 ^ 1) with 2. by apply Z.div_mul.
  - destruct Ht as [Hsafe ->]. by rewrite utf8_none_ref.
  - by destruct Ht as [-> _].
  - by subst.
  - subst s. by rewrite base64ToBytes_text.
  - destruct Ht as [_ ->]. rewrite length_utf16_bytes. f_equal. lia.
Qed.

Lemma toString_text name e s bs :
  find_encoding name = Some e -> Forall is_byte bs -> text_of e s bs -> zlength bs < 2 ^ 31 ->
  toString bs (Some (name, 0, None)) = Ok (kept_text e s).
Proof.
  intros Hn Hb Ht Hl. unfold toString. destruct (Z.eqb_spec (zlength bs) 0) as [E|Hne].
  { assert (bs = []) as -> by by destruct bs. f_equal. destruct e; cbn in Ht; try (by destruct s).
    - destruct Ht as [Hwf H]. cbn [kept_text]. rewrite <- (utf8_slice_ref _ (wf_kept s Hwf)), <- H. done.
    - by destruct Ht.
    - destruct Ht as [_ H]. by destruct s. }
  unfold slowToString. change (to_int32 0) with 0. cbv zeta.
  assert (Hname : name <> []) by (intros ->; vm_compute in Hn; done).
  rewrite bool_decide_eq_false_2 by done. change (0 <? 0) with false. cbv iota.
  rewrite (proj2 (Z.ltb_ge (zlength bs) (zlength bs))) by lia. cbv iota.
  assert (0 <= zlength bs) by (unfold zlength; lia).
  rewrite (proj2 (Z.leb_gt (zlength bs) 0)), Hn by lia. destruct e; cbn [text_of] in Ht; f_equal.
  - unfold hexSlice, norm_range. change (0 <? 0) with false. cbv iota.
    rewrite (proj2 (Z.leb_gt (zlength bs) 0)), (proj2 (Z.ltb_ge (zlength bs) (zlength bs))) by lia.
    cbn [orb]. subst s. by rewrite sub_all.
  - destruct Ht as [Hsafe ->]. unfold utf8Slice. rewrite Z.min_id, sub_all, decodeCodePointsArray_id.
    by apply utf8_slice_ref, wf_kept.
  - destruct Ht as [-> Ha]. unfold asciiSlice. rewrite Z.min_id, sub_all.
    clear -Ha. induction Ha as [|c s Hc _ IH]; [done|]. cbn [fmap list_fmap]. rewrite IH.
    change 127 with (2 ^ 7 - 1). rewrite js_and_mask, Z.mod_small by lia. done.
  - subst. unfold binarySlice. by rewrite Z.min_id, sub_all.
  - subst s. unfold base64Slice. by rewrite sub_all.
  - destruct Ht as [Hu ->]. unfold utf16leSlice. rewrite sub_all. by apply utf16_units_bytes.
Qed.

Lemma write_text typed name e s bs :
  find_encoding name = Some e -> Forall is_byte bs -> text_of e s bs ->
  write typed (replicate (length bs) 0) s (WEncoding name) = (bs, Ok (zlength bs)).
Proof.
  intros Hn Hb Ht. unfold write, write_norm. set (buf := replicate (length bs) 0).
  assert (Hl : zlength buf = zlength bs) by (unfold buf, zlength; by rewrite length_replicate).
  assert (0 <= zlength bs) by (unfold zlength; lia).
  rewrite Z.sub_0_r, (proj2 (Z.ltb_ge (zlength buf) (zlength buf))) by lia. cbv zeta iota.
  rewrite (proj2 (Z.ltb_ge (zlength buf) 0)), (proj2 (Z.ltb_ge 0 0)) by lia. rewrite andb_false_r. cbn [orb].
  assert (Hname : name <> []) by (intros ->; vm_compute in Hn; done).
  rewrite bool_decide_eq_false_2, Hn by done.
  destruct e; cbn [text_of] in Ht.
  - subst s. unfold hexWrite. cbv zeta. rewrite Z.sub_0_r.
    assert (E : (if zlength buf =? 0 then zlength buf
                 else if zlength buf <? zlength buf then zlength buf else zlength buf) = zlength bs)
      by (rewrite Hl; by repeat case_match).
    rewrite E, toHex_zlength, Z.mod_mul, Z.div_mul by (done || lia). change (negb (0 =? 0)) with false. cbv iota.
    rewrite (proj2 (Z.ltb_ge (zlength bs) (zlength bs))) by lia. unfold zlength at 1. rewrite Nat2Z.id.
    pose proof (hex_loop_all typed bs [] buf Hb) as Hh. cbn [app] in Hh. change (zlength []) with 0 in Hh.
    rewrite Z.add_0_l in Hh. apply Hh. by unfold buf; rewrite length_replicate.
  - destruct Ht as [Hsafe ->]. unfold utf8Write. rewrite Z.sub_0_r, Hl.
    set (t := utf8_ref (utf8_kept s)). assert (E : utf8ToBytes s (Some (zlength t)) = Ok t).
    { unfold utf8ToBytes. apply utf8_loop_ref; [done|]. fold t. by destruct (zlength t); cbn. }
    rewrite E. by apply blit_res_all.
  - destruct Ht as [-> _]. unfold asciiWrite. rewrite asciiToBytes_id, Hl by done. by apply blit_res_all.
  - subst. unfold binaryWrite, asciiWrite. rewrite asciiToBytes_id, Hl by done. by apply blit_res_all.
  - subst s. unfold base64Write. rewrite base64ToBytes_text, Hl by done. by apply blit_res_all.
  - destruct Ht as [Hu ->]. unfold ucs2Write. rewrite Z.sub_0_r, Hl.
    rewrite utf16leToBytes_all by (rewrite length_utf16_bytes; lia). by apply blit_res_all.
Qed.

Lemma fromString_text typed name e s bs :
  find_encoding name = Some e -> Forall is_byte bs -> text_of e s bs -> zlength bs < 2 ^ 31 ->
  fromString typed s name = Ok bs.
Proof.
  intros Hn Hb Ht Hl. unfold fromString. rewrite bool_decide_eq_false_2 by (intros ->; vm_compute in Hn; done).
  rewrite (byteLength_text s name e bs) by (done || lia). cbn [mbind res_bind].
  rewrite to_int32_id by (unfold is_int32, zlength in *; lia).
  unfold zlength at 1. rewrite Nat2Z.id. by rewrite (write_text typed name e).
Qed.

(** What [btoa] does with a string of bytes. *)
Lemma text_roundtrip_binary typed s :
  Forall is_byte s -> zlength s < 2 ^ 31 ->
  fromString typed s (js "binary") = Ok s /\
  toString s (Some (js "base64", 0, None)) = Ok (uint8ToBase64 s).
Proof.
  intros Hb Hl. split.
  - by apply (fromString_text typed (js "binary") Binary).
  - by apply (toString_text (js "base64") EBase64).
Qed.

(** C11. For every name of an encoding, the buffer made from a text of some
    bytes is exactly those bytes, [byteLength] is their number, and printing
    the buffer in the encoding gives the text back, but for UTF-8: there any
    well-formed UTF-16 is encoded, but a pair of surrogates whose code point
    minus 0x10000 has bit 16 set as the one without that bit, which is what is
    printed; so the text comes back just when it has no such pair. *)
Theorem text_roundtrip typed name e s bs :
  find_encoding name = Some e -> Forall is_byte bs -> text_of e s bs -> zlength bs < 2 ^ 31 ->
  fromString typed s name = Ok bs /\ byteLength s name = Ok (zlength bs) /\
  toString bs (Some (name, 0, None)) = Ok (kept_text e s) /\
  (kept_text e s = s <-> (e = Utf8 -> utf8_safe s = true)).
Proof.
  intros Hn Hb Ht Hl. split; [by apply (fromString_text typed name e)|]. split; [|split].
  - apply (byteLength_text s name e); (done || lia).
  - by apply (toString_text name e).
  - destruct e; try done. destruct Ht as [Hwf _]. cbn [kept_text]. rewrite kept_safe by done. split; [by intros ? _|auto].
Qed.

Lemma text_roundtrip_witness :
  fromString true [104; 233; 8364; 55357; 56832] (js "UTF-8") =
    Ok [104; 195; 169; 226; 130; 172; 240; 159; 152; 128] /\
  byteLength [104; 233; 8364; 55357; 56832] (js "UTF-8") = Ok 10 /\
  toString [104; 195; 169; 226; 130; 172; 240; 159; 152; 128] (Some (js "UTF-8", 0, None)) =
    Ok [104; 233; 8364; 55357; 56832] /\
  (kept_text Utf8 [104; 233; 8364; 55357; 56832] = [104; 233; 8364; 55357; 56832] <->
   (Utf8 = Utf8 -> utf8_safe [104; 233; 8364; 55357; 56832] = true)).
Proof.
  refine (text_roundtrip true (js "UTF-8") Utf8 [104; 233; 8364; 55357; 56832]
    [104; 195; 169; 226; 130; 172; 240; 159; 152; 128] ltac:(by vm_compute) ltac:(repeat constructor; done)
    ltac:(by vm_compute) ltac:(done)).
Defined.

(** Half of the supplementary planes are encoded wrongly: when bit 16 of
    the code point minus 0x10000 is set (planes 2, 4, ..., 16), the [or] of
    the surrogate formula loses it, and the pair is encoded as the code point
    0x10000 below it. *)
Theorem utf8_plane2 c d :
  is_lead c = true -> is_trail d = true -> safe_lead c = false ->
  let cp := 65536 + (c - 55296) * 1024 + (d - 56320) in
  131072 <= cp /\ utf8ToBytes [c; d] None = Ok (utf8_bytes (cp - 65536)).
Proof.
  intros Hc Hd Hs. cbv zeta. rewrite utf8_none_ref by (cbn; by rewrite Hc, Hd).
  pose proof (kept_lead_lead c Hc) as Hk. cbn [utf8_kept]. rewrite Hc. cbn [utf8_ref]. rewrite Hk. cbn [utf8_kept utf8_ref]. rewrite app_nil_r.
  unfold kept_lead in *. rewrite Hs in *. unfold is_lead, is_trail in *. btrue. split; [lia|]. do 2 f_equal. lia.
Qed.

Lemma utf8_plane2_witness :
  131072 <= 131072 /\ utf8ToBytes [55360; 56320] None = Ok [240; 144; 128; 128].
Proof. exact (utf8_plane2 55360 56320 ltac:(by vm_compute) ltac:(by vm_compute) ltac:(by vm_compute)). Defined.

(** [Buffer.isEncoding] accepts exactly the encodings [toString] and
    [write] know, and ["raw"], in any letter case; with a name they do not know,
    [toString] of a non-empty range and [write] throw a TypeError, and
    [write] leaves the buffer as it was. *)
Theorem encoding_errors e :
  (isEncoding e = true <-> is_Some (find_encoding e) \/ toLowerCase e = js "raw") /\
  (forall buf, buf <> [] -> zlength buf < 2 ^ 31 -> find_encoding e = None -> e <> [] ->
     toString buf (Some (e, 0, None)) = Throw TypeError) /\
  (forall typed buf s, find_encoding e = None -> e <> [] ->
     write typed buf s (WEncoding e) = (buf, Throw TypeError)).
Proof.
  split; [|split].
  - unfold isEncoding, find_encoding. rewrite str_in_true. split.
    + intros H. destruct (encoding_case e) as [x|] eqn:E1; [by left; eauto|].
      destruct (encoding_case (toLowerCase e)) as [x|] eqn:E2; [by left; eauto|].
      apply encoding_case_none in E2. right. names.
    + assert (H : forall l x, encoding_case l = Some x -> toLowerCase l = l).
      { intros l x Hl%encoding_case_some. unfold encoding_names in Hl. rewrite !elem_of_cons in Hl.
        destruct_or! Hl; try (by apply not_elem_of_nil in Hl); subst l; by vm_compute. }
      intros [[x Hx]|Hraw]; [|rewrite Hraw; names].
      destruct (encoding_case e) as [y|] eqn:E1.
      * rewrite (H _ _ E1). apply encoding_case_some in E1. names.
      * apply encoding_case_some in Hx. names.
  - intros buf Hb Hl He Hne. unfold toString, slowToString.
    assert (Hz : 0 < zlength buf) by (destruct buf; [done|unfold zlength; cbn [length]; lia]).
    rewrite (proj2 (Z.eqb_neq (zlength buf) 0)) by lia. change (to_int32 0) with 0. cbv zeta.
    rewrite bool_decide_eq_false_2 by done. change (0 <? 0) with false. cbv iota.
    rewrite (proj2 (Z.ltb_ge (zlength buf) (zlength buf))) by lia. cbv iota.
    by rewrite (proj2 (Z.leb_gt (zlength buf) 0)), He by lia.
  - intros typed buf s He Hne. unfold write, write_norm. rewrite Z.sub_0_r.
    assert (0 <= zlength buf) by (unfold zlength; lia).
    rewrite (proj2 (Z.ltb_ge (zlength buf) (zlength buf))) by lia. cbv zeta iota.
    rewrite (proj2 (Z.ltb_ge (zlength buf) 0)), (proj2 (Z.ltb_ge 0 0)) by lia. rewrite andb_false_r. cbn [orb].
    by rewrite bool_decide_eq_false_2, He.
Qed.
