(* ===== verification/BufferOps.v ===== *)
(** * The Buffer module: whole-buffer operations

    Construction, comparison, concatenation, slices, copies, fills and
    searches (swagger-ui.js, the [buffer] module).  Buffers alias: with typed
    arrays a slice is a window on its parent's memory.  A [view] is a buffer
    object: its identity, its array in the [heap] and its window.  Without
    typed arrays every buffer has an array of its own. *)

From Stdlib Require Import String.
From S2P Require Import Prelude JsNumber JsString BufferInt BufferText.

Abbreviation heap := (list bytes).

Record view := View {
  v_id : nat;
  v_arr : nat;
  v_off : nat;
  v_len : nat
}.

Definition vlen (v : view) : Z := Z.of_nat (v_len v).

(** The elements of a buffer. *)
Definition contents (h : heap) (v : view) : bytes := take (v_len v) (drop (v_off v) (default [] (h !! v_arr v))).

(** [b[i]] and [b[i] = x]. *)
Definition vget (h : heap) (v : view) (i : Z) : option Z :=
  if (0 <=? i) && (i <? vlen v) then default [] (h !! v_arr v) !! (v_off v + Z.to_nat i)%nat else None.
Definition vset (typed : bool) (h : heap) (v : view) (i x : Z) : heap :=
  if (0 <=? i) && (i <? vlen v)
  then alter (fun a => <[(v_off v + Z.to_nat i)%nat := if typed then to_uint8 x else x]> a) (v_arr v) h
  else h.

(** A state of the module: the memory and the number of objects so far. *)
Record store := Store { st_heap : heap; st_next : nat }.

(** A fresh buffer with the given elements. *)
Definition fresh (s : store) (b : bytes) : store * view :=
  (Store (st_heap s ++ [b]) (S (st_next s)), View (st_next s) (length (st_heap s)) 0 (length b)).

Section Ops.
Variable typed : bool.

(** ** Construction *)

Definition kMaxLength : Z := if typed then 2147483647 else 1073741823.

Definition checked (length : Z) : res Z :=
  if kMaxLength <=? length then Throw RangeError else Ok (to_int32 length).

Definition fromNumber (s : store) (length : Z) : res (store * view) :=
  n ← if length <? 0 then Ok 0 else checked length;
  Ok (fresh s (replicate (Z.to_nat n) 0)).

(** [that[i] = array[i] & 255] for every [i]. *)
Definition fromArray (s : store) (array : list Z) : res (store * view) :=
  _ ← checked (zlength array);
  Ok (fresh s ((fun x => js_and x 255) <$> array)).
Definition fromTypedArray := fromArray.
Definition fromArrayLike := fromArray.

(** [{ type, data }]: the data when it is a Buffer's JSON form. *)
Definition fromJsonObject (s : store) (type_is_Buffer : bool) (data : option (list Z)) : res (store * view) :=
  match data with
  | Some array => if type_is_Buffer then fromArray s array else Ok (fresh s [])
  | None => Ok (fresh s [])
  end.

(** ** Copy *)

Fixpoint copy_up (n : nat) (h : heap) (src target : view) (targetStart start i : Z) : heap :=
  match n with
  | O => h
  | S n' =>
      copy_up n' (vset typed h target (i + targetStart) (default 0 (vget h src (i + start))))
        src target targetStart start (i + 1)
  end.
(** [for (i = len - 1; i >= 0; i--)], [n] turns. *)
Fixpoint copy_down (n : nat) (h : heap) (src target : view) (targetStart start : Z) : heap :=
  match n with
  | O => h
  | S n' =>
      let i := Z.of_nat n' in
      copy_down n' (vset typed h target (i + targetStart) (default 0 (vget h src (i + start))))
        src target targetStart start
  end.
(** [target._set(values, targetStart)]: all values are read first. *)
Fixpoint set_all (h : heap) (target : view) (targetStart : Z) (values : bytes) : heap :=
  match values with
  | [] => h
  | x :: values' => set_all (vset typed h target targetStart x) target (targetStart + 1) values'
  end.

Definition copy (h : heap) (this target : view) (targetStart start end_ : option Z) : res (heap * Z) :=
  let start := default 0 start in
  let end_ := default (vlen this) end_ in
  let targetStart := match targetStart with
                     | Some t => if vlen target <=? t then vlen target else t
                     | None => 0 end in
  let end_ := if (0 <? end_) && (end_ <? start) then start else end_ in
  if end_ =? start then Ok (h, 0)
  else if (vlen target =? 0) || (vlen this =? 0) then Ok (h, 0)
  else
    _ ← guard_or (negb (targetStart <? 0)) RangeError;
    _ ← guard_or (negb ((start <? 0) || (vlen this <=? start))) RangeError;
    _ ← guard_or (negb (end_ <? 0)) RangeError;
    let end_ := if vlen this <? end_ then vlen this else end_ in
    let end_ := if vlen target - targetStart <? end_ - start then vlen target - targetStart + start else end_ in
    let len := end_ - start in
    let n := Z.to_nat len in
    Ok (if (v_id this =? v_id target)%nat && (start <? targetStart) && (targetStart <? end_)
        then copy_down n h this target targetStart start
        else if (len <? 1000) || negb typed
        then copy_up n h this target targetStart start 0
        else set_all h target targetStart (take n (drop (Z.to_nat start) (contents h this))), len).

Definition fromBuffer (s : store) (buffer : view) : res (store * view) :=
  length ← checked (vlen buffer);
  let '(s, that) := fresh s (replicate (Z.to_nat length) 0) in
  '(h, _) ← copy (st_heap s) buffer that (Some 0) (Some 0) (Some length);
  Ok (Store h (st_next s), that).

(** ** Slice *)

Definition slice (s : store) (this : view) (start : Z) (end_ : option Z) : res (store * view) :=
  let len := vlen this in
  let start := to_int32 start in
  let end_ := match end_ with None => len | Some e => to_int32 e end in
  let start := if start <? 0 then (if start + len <? 0 then 0 else start + len)
               else if len <? start then len else start in
  let end_ := if end_ <? 0 then (if end_ + len <? 0 then 0 else end_ + len)
              else if len <? end_ then len else end_ in
  let end_ := if end_ <? start then start else end_ in
  if typed then
    Ok (Store (st_heap s) (S (st_next s)),
        View (st_next s) (v_arr this) (v_off this + Z.to_nat start) (Z.to_nat (end_ - start)))
  else
    '(s, newBuf) ← fromNumber s (end_ - start);
    Ok (Store (copy_up (Z.to_nat (end_ - start)) (st_heap s) this newBuf 0 start 0) (st_next s), newBuf).

(** ** Concatenation *)

Fixpoint concat_loop (h : heap) (list : list view) (buf : view) (pos : Z) : res heap :=
  match list with
  | [] => Ok h
  | item :: list' =>
      '(h, _) ← copy h item buf (Some pos) None None;
      concat_loop h list' buf (pos + vlen item)
  end.

Definition concat (s : store) (list : list view) (length : option Z) : res (store * view) :=
  match list with
  | [] => fromNumber s 0
  | _ =>
      let length := match length with
                    | None => foldl (fun n b => n + vlen b) 0 list
                    | Some n => n end in
      '(s, buf) ← fromNumber s length;
      h ← concat_loop (st_heap s) list buf 0;
      Ok (Store h (st_next s), buf)
  end.

(** ** Fill *)

Fixpoint fill_loop (n : nat) (h : heap) (this : view) (i : Z) (value_at : Z -> Z) : heap :=
  match n with
  | O => h
  | S n' => fill_loop n' (vset typed h this i (value_at i)) this (i + 1) value_at
  end.

(** What [fill] is given: a number, or text. *)
Inductive fill_value := FNum (n : Z) | FStr (s : jsstr).

Definition fill (h : heap) (this : view) (value : fill_value) (start end_ : Z) : res heap :=
  let value := match value with FStr [] => FNum 0 | _ => value end in
  let end_ := if end_ =? 0 then vlen this else end_ in
  _ ← guard_or (negb (end_ <? start)) RangeError;
  if end_ =? start then Ok h
  else if vlen this =? 0 then Ok h
  else
    _ ← guard_or (negb ((start <? 0) || (vlen this <=? start))) RangeError;
    _ ← guard_or (negb ((end_ <? 0) || (vlen this <? end_))) RangeError;
    match value with
    | FNum n => Ok (fill_loop (Z.to_nat (end_ - start)) h this start (fun _ => n))
    | FStr str =>
        bytes ← utf8ToBytes str None;
        Ok (fill_loop (Z.to_nat (end_ - start)) h this start
              (fun i => List.nth (Z.to_nat (i mod zlength bytes)) bytes 0))
    end.
End Ops.

(** ** Comparison *)

(** The loop to the first difference; [x] and [y] are the lengths, which are
    compared when there is none. *)
Fixpoint compare_loop (a b : bytes) (x y : Z) : Z * Z :=
  match a, b with
  | ai :: a', bi :: b' => if ai =? bi then compare_loop a' b' x y else (ai, bi)
  | _, _ => (x, y)
  end.

Definition compare (h : heap) (a b : view) : Z :=
  if (v_id a =? v_id b)%nat then 0
  else
    let '(x, y) := compare_loop (contents h a) (contents h b) (vlen a) (vlen b) in
    if x <? y then -1 else if y <? x then 1 else 0.

Definition equals (h : heap) (this b : view) : bool :=
  if (v_id this =? v_id b)%nat then true else compare h this b =? 0.

(** ** Search *)

(** The loop of [arrayIndexOf] on [arr] from [i]. *)
Fixpoint array_index_loop (n : nat) (arr val : bytes) (byteOffset i foundIndex : Z) : Z :=
  match n with
  | O => -1
  | S n' =>
      if zlength arr <=? byteOffset + i then -1
      else if bool_decide (at_ arr (byteOffset + i) = at_ val (if foundIndex =? -1 then 0 else i - foundIndex)) then
        let foundIndex := if foundIndex =? -1 then i else foundIndex in
        if i - foundIndex + 1 =? zlength val then byteOffset + foundIndex
        else array_index_loop n' arr val byteOffset (i + 1) foundIndex
      else array_index_loop n' arr val byteOffset (i + 1) (-1)
  end.
Definition arrayIndexOf (arr val : bytes) (byteOffset : Z) : Z :=
  array_index_loop (length arr) arr val byteOffset 0 (-1).

Inductive search := SString (s : jsstr) | SBuffer (b : bytes) | SNumber (n : Z).

Definition Buffer_indexOf (this : bytes) (val : search) (byteOffset : Z) : res Z :=
  let byteOffset := if 2147483647 <? byteOffset then 2147483647
                    else if byteOffset <? -2147483648 then -2147483648 else byteOffset in
  let byteOffset := to_int32 byteOffset in
  if zlength this =? 0 then Ok (-1)
  else if zlength this <=? byteOffset then Ok (-1)
  else
    let byteOffset := if byteOffset <? 0 then Z.max (zlength this + byteOffset) 0 else byteOffset in
    match val with
    | SString s =>
        if bool_decide (s = []) then Ok (-1)
        else text ← toString this None; Ok (indexOf_from text s byteOffset)
    | SBuffer b => Ok (arrayIndexOf this b byteOffset)
    | SNumber n => Ok (arrayIndexOf this [n] byteOffset)
    end.

(** ** Printing *)

Definition INSPECT_MAX_BYTES : Z := 50.

(** [hex.match(/.{2}/g)]: the hex text of each byte, two by two. *)
Fixpoint pairs_of (s : jsstr) : list jsstr :=
  match s with c :: d :: s' => [c; d] :: pairs_of s' | _ => [] end.

Definition inspect (this : bytes) : res jsstr :=
  str ← if 0 <? zlength this then
          hex ← toString this (Some (js "hex", 0, Some INSPECT_MAX_BYTES));
          Ok (join (js " ") (pairs_of hex) ++
              (if INSPECT_MAX_BYTES <? zlength this then js " ... " else []))
        else Ok [];
  Ok (js "<Buffer " ++ str ++ js ">").

(** The data of [toJSON]; [toArrayBuffer] copies the same elements. *)
Definition toJSON (this : bytes) : jsstr * bytes := (js "Buffer", this).

(** ** Memory cells *)

(** A cell of the memory, by array and position. *)
Definition cell (h : heap) (a p : nat) : option Z := default [] (h !! a) !! p.

Definition heap_ok (h : heap) : Prop := Forall (Forall is_byte) h.
Definition wf_view (h : heap) (v : view) : Prop :=
  (v_off v + v_len v <= length (default [] (h !! v_arr v)))%nat.

Lemma vget_cell h v i : 0 <= i < vlen v -> vget h v i = cell h (v_arr v) (v_off v + Z.to_nat i).
Proof.
  intros Hi. unfold vget. by rewrite (proj2 (Z.leb_le 0 i)), (proj2 (Z.ltb_lt i (vlen v))) by lia.
Qed.

Lemma cell_byte h a p x : heap_ok h -> cell h a p = Some x -> is_byte x.
Proof.
  unfold heap_ok, cell. intros Hh Hc. destruct (h !! a) as [l|] eqn:E; [|done]. cbn in Hc.
  rewrite Forall_forall in Hh. specialize (Hh l (list_elem_of_lookup_2 _ _ _ E)).
  rewrite Forall_forall in Hh. by apply Hh, (list_elem_of_lookup_2 _ p).
Qed.

Lemma cell_some h v i : wf_view h v -> 0 <= i < vlen v -> is_Some (cell h (v_arr v) (v_off v + Z.to_nat i)).
Proof. unfold wf_view, cell, vlen. intros Hw Hi. apply lookup_lt_is_Some. lia. Qed.

Lemma cell_vset typed h v i x a p :
  wf_view h v -> 0 <= i < vlen v -> is_byte x ->
  cell (vset typed h v i x) a p =
  if bool_decide (a = v_arr v /\ p = (v_off v + Z.to_nat i)%nat) then Some x else cell h a p.
Proof.
  intros Hw Hi Hx. unfold vset. rewrite (proj2 (Z.leb_le 0 i)), (proj2 (Z.ltb_lt i (vlen v))) by lia.
  cbn [andb]. rewrite to_uint8_byte by done. unfold cell. unfold wf_view, vlen in *.
  destruct (decide (a = v_arr v)) as [->|Ha].
  - rewrite list_lookup_alter_eq. destruct (h !! v_arr v) as [l|] eqn:E; cbn in *; [|lia].
    destruct (decide (p = (v_off v + Z.to_nat i)%nat)) as [->|Hp].
    + rewrite list_lookup_insert_eq by lia. by rewrite bool_decide_eq_true_2.
    + rewrite list_lookup_insert_ne by done. rewrite bool_decide_eq_false_2; [done|tauto].
  - rewrite list_lookup_alter_ne by done. rewrite bool_decide_eq_false_2; [done|tauto].
Qed.

Lemma vset_length typed h v i x a :
  length (default [] (vset typed h v i x !! a)) = length (default [] (h !! a)).
Proof.
  unfold vset. destruct (_ && _); [|done]. destruct (decide (a = v_arr v)) as [->|Ha].
  - rewrite list_lookup_alter_eq. destruct (h !! v_arr v); [|done]. cbn. apply length_insert.
  - by rewrite list_lookup_alter_ne.
Qed.

Lemma vset_wf typed h v i x w : wf_view (vset typed h v i x) w <-> wf_view h w.
Proof. unfold wf_view. by rewrite vset_length. Qed.

Lemma vset_ok typed h v i x : heap_ok h -> is_byte x -> heap_ok (vset typed h v i x).
Proof.
  unfold heap_ok, vset. intros Hh Hx. destruct (_ && _); [|done]. apply Forall_alter; [done|].
  intros l _ Hl. apply Forall_insert; [done|]. by rewrite to_uint8_byte.
Qed.

Lemma vget_byte h v i : heap_ok h -> is_byte (default 0 (vget h v i)).
Proof.
  intros Hh. unfold vget. destruct (_ && _); [|cbn; unfold is_byte; lia].
  destruct (default [] (h !! v_arr v) !! _) as [x|] eqn:E; cbn; [|unfold is_byte; lia].
  by apply (cell_byte h (v_arr v) (v_off v + Z.to_nat i) x).
Qed.

(** What a block copy of [n] elements should do to a cell: position [tp] of
    array [ta] on receives what was at [sp] of array [sa] on. *)
Definition moved (h : heap) (sa ta sp tp n : nat) (a p : nat) : option Z :=
  if bool_decide (a = ta /\ (tp <= p < tp + n)%nat) then cell h sa (sp + (p - tp)) else cell h a p.

(** The ascending loop moves the block when no cell is overwritten before it
    is read. *)
Lemma copy_up_moved typed src target tS st n : forall h i,
  heap_ok h -> wf_view h src -> wf_view h target ->
  0 <= i -> 0 <= st -> 0 <= tS -> st + i + Z.of_nat n <= vlen src -> tS + i + Z.of_nat n <= vlen target ->
  (v_arr src <> v_arr target \/ Z.of_nat (v_off target) + tS <= Z.of_nat (v_off src) + st \/
   Z.of_nat (v_off src) + st + i + Z.of_nat n <= Z.of_nat (v_off target) + tS + i) ->
  forall a p,
  cell (copy_up typed n h src target tS st i) a p =
  moved h (v_arr src) (v_arr target) (v_off src + Z.to_nat (st + i)) (v_off target + Z.to_nat (tS + i)) n a p.
Proof.
  induction n as [|n IH]; intros h i Hh Hs Ht Hi Hst HtS H1 H2 Hov a p; cbn [copy_up].
  - unfold moved. rewrite bool_decide_eq_false_2; [done|lia].
  - rewrite Nat2Z.inj_succ in *.
    set (x := default 0 (vget h src (i + st))).
    assert (Hx : is_byte x) by by apply vget_byte.
    destruct (cell_some h src (i + st) Hs ltac:(lia)) as [y Hy].
    assert (Exy : x = y) by (unfold x; rewrite vget_cell, Hy by lia; done).
    rewrite IH; rewrite ?vset_wf; try done; try lia; [|by apply vset_ok].
    unfold moved. destruct (decide (a = v_arr target)) as [->|Ha].
    + destruct (decide (p = (v_off target + Z.to_nat (tS + i))%nat)) as [->|Hp].
      * rewrite bool_decide_eq_false_2 by lia. rewrite bool_decide_eq_true_2 by lia.
        rewrite cell_vset by (done || lia). rewrite bool_decide_eq_true_2 by lia.
        rewrite Nat.sub_diag, Nat.add_0_r. rewrite Exy, <- Hy. f_equal. lia.
      * destruct (decide (v_off target + Z.to_nat (tS + (i + 1)) <= p < v_off target + Z.to_nat (tS + (i + 1)) + n)%nat).
        -- rewrite bool_decide_eq_true_2 by done. rewrite bool_decide_eq_true_2 by lia.
           rewrite cell_vset by (done || lia). rewrite bool_decide_eq_false_2 by lia. f_equal. lia.
        -- rewrite bool_decide_eq_false_2 by tauto. rewrite bool_decide_eq_false_2 by lia.
           rewrite cell_vset by (done || lia). by rewrite bool_decide_eq_false_2 by lia.
    + rewrite bool_decide_eq_false_2 by tauto. rewrite bool_decide_eq_false_2 by tauto.
      rewrite cell_vset by (done || lia). by rewrite bool_decide_eq_false_2 by tauto.
Qed.

(** The descending loop moves the block when the target is not below the
    source in the same array. *)
Lemma copy_down_moved typed src target tS st n : forall h,
  heap_ok h -> wf_view h src -> wf_view h target ->
  0 <= st -> 0 <= tS -> st + Z.of_nat n <= vlen src -> tS + Z.of_nat n <= vlen target ->
  (v_arr src <> v_arr target \/ Z.of_nat (v_off src) + st <= Z.of_nat (v_off target) + tS) ->
  forall a p,
  cell (copy_down typed n h src target tS st) a p =
  moved h (v_arr src) (v_arr target) (v_off src + Z.to_nat st) (v_off target + Z.to_nat tS) n a p.
Proof.
  induction n as [|n IH]; intros h Hh Hs Ht Hst HtS H1 H2 Hov a p; cbn [copy_down].
  - unfold moved. rewrite bool_decide_eq_false_2; [done|lia].
  - rewrite Nat2Z.inj_succ in *. set (x := default 0 (vget h src (Z.of_nat n + st))).
    assert (Hx : is_byte x) by by apply vget_byte.
    destruct (cell_some h src (Z.of_nat n + st) Hs ltac:(lia)) as [y Hy].
    assert (Exy : x = y) by (unfold x; rewrite vget_cell, Hy by lia; done).
    rewrite IH; rewrite ?vset_wf; try done; try lia; [|by apply vset_ok].
    unfold moved. destruct (decide (a = v_arr target)) as [->|Ha].
    + destruct (decide (p = (v_off target + Z.to_nat (Z.of_nat n + tS))%nat)) as [->|Hp].
      * rewrite bool_decide_eq_false_2 by lia. rewrite bool_decide_eq_true_2 by lia.
        rewrite cell_vset by (done || lia). rewrite bool_decide_eq_true_2 by lia. rewrite Exy, <- Hy. f_equal. lia.
      * destruct (decide (v_off target + Z.to_nat tS <= p < v_off target + Z.to_nat tS + n)%nat).
        -- rewrite bool_decide_eq_true_2 by done. rewrite bool_decide_eq_true_2 by lia.
           rewrite cell_vset by (done || lia). by rewrite bool_decide_eq_false_2 by lia.
        -- rewrite bool_decide_eq_false_2 by tauto. rewrite bool_decide_eq_false_2 by lia.
           rewrite cell_vset by (done || lia). by rewrite bool_decide_eq_false_2 by lia.
    + rewrite bool_decide_eq_false_2 by tauto. rewrite bool_decide_eq_false_2 by tauto.
      rewrite cell_vset by (done || lia). by rewrite bool_decide_eq_false_2 by tauto.
Qed.

Lemma set_all_cells typed target values : forall h tS,
  Forall is_byte values -> wf_view h target -> 0 <= tS -> tS + zlength values <= vlen target ->
  forall a p,
  cell (set_all typed h target tS values) a p =
  if bool_decide (a = v_arr target /\
                  (v_off target + Z.to_nat tS <= p < v_off target + Z.to_nat tS + length values)%nat)
  then values !! (p - (v_off target + Z.to_nat tS))%nat else cell h a p.
Proof.
  induction values as [|x values IH]; intros h tS Hv Ht HtS Hl a p; cbn [set_all length].
  - by rewrite bool_decide_eq_false_2 by lia.
  - apply Forall_cons in Hv as [Hx Hv]. unfold zlength in *. cbn [length] in Hl.
    rewrite IH by (rewrite ?vset_wf; done || lia). rewrite cell_vset by (done || lia).
    destruct (decide (a = v_arr target)) as [->|Ha].
    + destruct (decide (p = (v_off target + Z.to_nat tS)%nat)) as [->|Hp].
      * rewrite bool_decide_eq_false_2, !bool_decide_eq_true_2 by lia. by rewrite Nat.sub_diag.
      * rewrite (bool_decide_eq_false_2 (_ /\ p = _)) by tauto.
        destruct (decide (v_off target + Z.to_nat (tS + 1) <= p < v_off target + Z.to_nat (tS + 1) + length values)%nat).
        -- rewrite !bool_decide_eq_true_2 by lia.
           replace (p - (v_off target + Z.to_nat tS))%nat
             with (S (p - (v_off target + Z.to_nat (tS + 1)))) by lia. done.
        -- by rewrite !bool_decide_eq_false_2 by lia.
    + by rewrite !bool_decide_eq_false_2 by tauto.
Qed.

Lemma contents_lookup h v k : (k < v_len v)%nat -> contents h v !! k = cell h (v_arr v) (v_off v + k).
Proof. intros. unfold contents, cell. by rewrite lookup_take_lt, lookup_drop. Qed.

Lemma contents_length h v : wf_view h v -> length (contents h v) = v_len v.
Proof. unfold wf_view, contents. intros. rewrite length_take, length_drop. lia. Qed.

Lemma cell_forall h a l n m : heap_ok h -> l = take n (drop m (default [] (h !! a))) -> Forall is_byte l.
Proof.
  intros Hh ->. apply Forall_take, Forall_drop. destruct (h !! a) as [b|] eqn:E; [|constructor].
  unfold heap_ok in Hh. rewrite Forall_forall in Hh. by apply Hh, (list_elem_of_lookup_2 _ a).
Qed.

(** The two windows of a copy do not clobber each other: other arrays, or
    the same buffer object, or the target not above the source by less than
    the length. *)
Definition copy_safe (this target : view) (targetStart start n : Z) : Prop :=
  v_arr this <> v_arr target \/ this = target \/
  Z.of_nat (v_off target) + targetStart <= Z.of_nat (v_off this) + start \/
  Z.of_nat (v_off this) + start + n <= Z.of_nat (v_off target) + targetStart.

(** [copy] is a block move: with a range inside the source it succeeds,
    returns how many elements fit in the target, and moves exactly those,
    leaving every other cell of memory as it was, also when source and target
    are the same buffer and overlap.  Two different objects on overlapping
    memory need [copy_safe] (see [copy_overlap_wrong]). *)
Theorem copy_moves typed h this target tS st en :
  heap_ok h -> wf_view h this -> wf_view h target ->
  (v_id this = v_id target -> this = target) ->
  0 <= tS <= vlen target -> 0 <= st -> st < en -> en <= vlen this ->
  let n := Z.min (en - st) (vlen target - tS) in
  copy_safe this target tS st n ->
  exists h', copy typed h this target (Some tS) (Some st) (Some en) = Ok (h', n) /\
    forall a p, cell h' a p =
      moved h (v_arr this) (v_arr target) (v_off this + Z.to_nat st) (v_off target + Z.to_nat tS) (Z.to_nat n) a p.
Proof.
  intros Hh Hs Ht Hid HtS Hst Hen Hlen n Hsafe.
  assert (Hn : 0 <= n /\ n <= en - st /\ n <= vlen target - tS) by (subst n; lia).
  unfold copy. cbn [default]. unfold id.
  replace (if vlen target <=? tS then vlen target else tS) with tS by (case_match eqn:E; btrue; lia).
  rewrite (proj2 (Z.ltb_ge en st)) by lia. rewrite andb_false_r, (proj2 (Z.eqb_neq en st)) by lia.
  destruct ((vlen target =? 0) || (vlen this =? 0)) eqn:E0.
  { assert (Hz : n = 0) by (apply orb_true_iff in E0; rewrite !Z.eqb_eq in E0; lia).
    exists h. split; [by rewrite Hz|]. intros a p. unfold moved. rewrite Hz.
    by rewrite bool_decide_eq_false_2 by lia. }
  rewrite (proj2 (Z.ltb_ge tS 0)), (proj2 (Z.ltb_ge st 0)), (proj2 (Z.leb_gt (vlen this) st)),
    (proj2 (Z.ltb_ge en 0)), (proj2 (Z.ltb_ge (vlen this) en)) by lia.
  cbn [guard_or negb orb mbind res_bind].
  replace ((if vlen target - tS <? en - st then vlen target - tS + st else en) - st) with n
    by (subst n; case_match eqn:E; btrue; lia).
  eexists. split; [reflexivity|]. intros a p.
  set (en' := if vlen target - tS <? en - st then vlen target - tS + st else en).
  assert (Hen' : en' = st + n) by (subst en' n; case_match eqn:E; btrue; lia). rewrite Hen'.
  destruct ((v_id this =? v_id target)%nat && (st <? tS) && (tS <? st + n)) eqn:Edown.
  - rewrite !andb_true_iff, Nat.eqb_eq, !Z.ltb_lt in Edown. destruct Edown as [[Eid H1] H2].
    apply Hid in Eid as <-. apply copy_down_moved; (done || lia).
  - assert (Hcl : v_arr this <> v_arr target \/
      Z.of_nat (v_off target) + tS <= Z.of_nat (v_off this) + st \/
      Z.of_nat (v_off this) + st + n <= Z.of_nat (v_off target) + tS).
    { destruct Hsafe as [?|[<-|[?|?]]]; auto. rewrite Nat.eqb_refl in Edown. cbn [andb] in Edown.
      apply andb_false_iff in Edown. rewrite !Z.ltb_ge in Edown. lia. }
    destruct ((n <? 1000) || negb typed).
    + rewrite copy_up_moved by (done || lia). by rewrite !Z.add_0_r.
    + set (values := take (Z.to_nat n) (drop (Z.to_nat st) (contents h this))).
      assert (Hvl : length values = Z.to_nat n).
      { subst values. rewrite length_take, length_drop, contents_length by done. unfold vlen in *. lia. }
      assert (Hvb : Forall is_byte values).
      { apply Forall_take, Forall_drop. by apply (cell_forall h (v_arr this) _ (v_len this) (v_off this)). }
      rewrite set_all_cells by (done || (unfold zlength; lia)). rewrite Hvl. unfold moved.
      case_bool_decide as Hr; [|done]. subst values.
      rewrite lookup_take_lt, lookup_drop, contents_lookup by (unfold vlen in *; lia). f_equal. lia.
Qed.

Lemma copy_moves_witness :
  exists h', copy true [[1; 2; 3; 4; 5]] (View 0 0 0 5) (View 0 0 0 5) (Some 1) (Some 0) (Some 4) = Ok (h', 4) /\
    forall a p, cell h' a p = moved [[1; 2; 3; 4; 5]] 0 0 0 1 4 a p.
Proof.
  refine (copy_moves true [[1; 2; 3; 4; 5]] (View 0 0 0 5) (View 0 0 0 5) 1 0 4 _ _ _ _ _ _ _ _ _).
  - repeat constructor; done.
  - by vm_compute; lia.
  - by vm_compute; lia.
  - done.
  - done.
  - done.
  - done.
  - done.
  - right. by left.
Defined.

(** Two slices of one array that overlap: the ascending loop reads what it
    has just written. *)
Example copy_overlap_wrong :
  copy true [[1; 2; 3; 4]] (View 1 0 0 3) (View 2 0 1 3) (Some 0) (Some 0) (Some 3) = Ok ([[1; 1; 1; 1]], 3).
Proof. by vm_compute. Qed.

(** ** Concatenation *)

Lemma contents_ext h v l :
  length l = v_len v -> (forall k, (k < v_len v)%nat -> cell h (v_arr v) (v_off v + k) = l !! k) -> contents h v = l.
Proof.
  intros Hl Hk. apply list_eq. intros k. destruct (decide (k < v_len v)%nat) as [Hlt|Hge].
  - by rewrite contents_lookup, Hk.
  - unfold contents. rewrite lookup_take_ge, (lookup_ge_None_2 l) by lia. done.
Qed.

(** Copies keep the memory well formed. *)
Definition keeps (h h' : heap) : Prop := heap_ok h' /\ forall w, wf_view h' w <-> wf_view h w.

Lemma keeps_refl h : heap_ok h -> keeps h h.
Proof. by split. Qed.
Lemma keeps_trans h1 h2 h3 : keeps h1 h2 -> keeps h2 h3 -> keeps h1 h3.
Proof. intros [_ H1] [H2 H3]. split; [done|]. intros w. by rewrite H3, H1. Qed.
Lemma keeps_vset typed h v i x : heap_ok h -> is_byte x -> keeps h (vset typed h v i x).
Proof. intros. split; [by apply vset_ok|]. intros w. apply vset_wf. Qed.

Lemma copy_up_keeps typed src target tS st n : forall h i,
  heap_ok h -> keeps h (copy_up typed n h src target tS st i).
Proof.
  induction n as [|n IH]; intros h i Hh; cbn [copy_up]; [by apply keeps_refl|].
  pose proof (keeps_vset typed h target (i + tS) _ Hh (vget_byte h src (i + st) Hh)) as K.
  apply (keeps_trans _ _ _ K), IH, K.
Qed.

Lemma copy_down_keeps typed src target tS st n : forall h,
  heap_ok h -> keeps h (copy_down typed n h src target tS st).
Proof.
  induction n as [|n IH]; intros h Hh; cbn [copy_down]; [by apply keeps_refl|].
  pose proof (keeps_vset typed h target (Z.of_nat n + tS) _ Hh (vget_byte h src (Z.of_nat n + st) Hh)) as K.
  apply (keeps_trans _ _ _ K), IH, K.
Qed.

Lemma set_all_keeps typed target values : forall h tS,
  heap_ok h -> Forall is_byte values -> keeps h (set_all typed h target tS values).
Proof.
  induction values as [|x values IH]; intros h tS Hh Hv; cbn [set_all]; [by apply keeps_refl|].
  apply Forall_cons in Hv as [Hx Hv].
  pose proof (keeps_vset typed h target tS x Hh Hx) as K. apply (keeps_trans _ _ _ K), IH; [apply K|done].
Qed.

Lemma copy_keeps typed h this target tS st en h' n :
  heap_ok h -> copy typed h this target tS st en = Ok (h', n) -> keeps h h'.
Proof.
  intros Hh. unfold copy. cbv zeta.
  do 2 (match goal with |- (if ?c then Ok (h, 0) else _) = _ -> _ => destruct c end;
    [by intros; simplify_eq; apply keeps_refl|]).
  intros (? & _ & (? & _ & (? & _ & E)%bind_ok)%bind_ok)%bind_ok. injection E as <- _.
  repeat case_match; auto using copy_up_keeps, copy_down_keeps.
  all: apply set_all_keeps; [done|]; apply Forall_take, Forall_drop;
    by apply (cell_forall h (v_arr this) _ (v_len this) (v_off this)).
Qed.

(** One turn of the loop: [item] lands after the [acc] written so far. *)
Lemma concat_step typed h item buf acc :
  let L := v_len buf in
  heap_ok h -> wf_view h item -> wf_view h buf -> v_arr item <> v_arr buf -> v_id item <> v_id buf ->
  v_off buf = O -> contents h buf = take L (acc ++ replicate L 0) ->
  exists h' n, copy typed h item buf (Some (zlength acc)) None None = Ok (h', n) /\ keeps h h' /\
    (forall a p, a <> v_arr buf -> cell h' a p = cell h a p) /\
    contents h' buf = take L ((acc ++ contents h item) ++ replicate L 0).
Proof.
  intros L Hh Hi Hb Harr Hid Hoff Hc.
  assert (Hil : length (contents h item) = v_len item) by by apply contents_length.
  set (tS := Z.min (zlength acc) (vlen buf)).
  assert (HtS : 0 <= tS <= vlen buf) by (unfold tS, vlen, zlength; lia).
  assert (E : copy typed h item buf (Some (zlength acc)) None None =
              copy typed h item buf (Some tS) (Some 0) (Some (vlen item))).
  { unfold copy. cbn [default]. unfold id. replace (if vlen buf <=? tS then vlen buf else tS)
      with (if vlen buf <=? zlength acc then vlen buf else zlength acc); [done|].
    unfold tS. repeat case_match; btrue; lia. }
  rewrite E. destruct (decide (v_len item = O)) as [Hz|Hz].
  { exists h, 0. split; [|split; [by apply keeps_refl|split; [done|]]].
    - unfold copy. cbn [default]. unfold id, vlen. by rewrite Hz.
    - rewrite Hz in Hil. destruct (contents h item); [|done]. by rewrite app_nil_r. }
  destruct (copy_moves typed h item buf tS 0 (vlen item)) as (h' & E' & Hm);
    [done|done|done|done|done|lia|unfold vlen; lia|lia|by left|].
  exists h'; eexists. split; [exact E'|]. split; [by apply (copy_keeps _ _ _ _ _ _ _ _ _ Hh E')|]. split.
  { intros a p Ha. rewrite Hm. unfold moved. by rewrite bool_decide_eq_false_2 by tauto. }
  apply contents_ext.
  { rewrite length_take, !length_app, length_replicate. unfold L. lia. }
  intros k Hk. rewrite Hm, Hoff, !Nat.add_0_l. unfold moved. rewrite lookup_take_lt by done.
  assert (Hold : cell h (v_arr buf) k = (acc ++ replicate L 0) !! k).
  { rewrite <- (lookup_take_lt _ L k) by done. rewrite <- Hc, contents_lookup by done. by rewrite Hoff. }
  unfold tS, vlen, zlength in *. fold L in Hk |- *.
  destruct (decide (k < length acc)%nat) as [Ha|Ha].
  - rewrite bool_decide_eq_false_2 by lia. rewrite Hold. rewrite <- app_assoc. by rewrite !lookup_app_l.
  - rewrite <- app_assoc, lookup_app_r by lia. destruct (decide (k - length acc < v_len item)%nat) as [Hit|Hit].
    + rewrite bool_decide_eq_true_2 by lia. rewrite lookup_app_l by lia. rewrite contents_lookup by lia.
      f_equal. lia.
    + rewrite bool_decide_eq_false_2 by lia. rewrite Hold, !lookup_app_r by lia.
      by rewrite !lookup_replicate_2 by lia.
Qed.

Lemma concat_loop_spec typed buf list : forall h acc,
  let L := v_len buf in
  heap_ok h -> wf_view h buf -> v_off buf = O ->
  Forall (fun item => wf_view h item /\ v_arr item <> v_arr buf /\ v_id item <> v_id buf) list ->
  contents h buf = take L (acc ++ replicate L 0) ->
  exists h', concat_loop typed h list buf (zlength acc) = Ok h' /\ keeps h h' /\
    (forall a p, a <> v_arr buf -> cell h' a p = cell h a p) /\
    contents h' buf = take L ((acc ++ List.concat (contents h <$> list)) ++ replicate L 0).
Proof.
  induction list as [|item list IH]; intros h acc L Hh Hb Hoff Hl Hc; cbn [concat_loop].
  - exists h. rewrite app_nil_r. split; [done|]. split; [by apply keeps_refl|done].
  - apply Forall_cons in Hl as [(Hi & Harr & Hid) Hl].
    destruct (concat_step typed h item buf acc) as (h1 & n & E & K & Hsame & Hc1); try done.
    rewrite E. cbn [mbind res_bind].
    assert (Hz : zlength acc + vlen item = zlength (acc ++ contents h item)).
    { rewrite zlength_app. f_equal. unfold vlen, zlength. by rewrite contents_length. }
    rewrite Hz. destruct (IH h1 (acc ++ contents h item)) as (h' & E2 & K2 & Hsame2 & Hc2); try done.
    + apply K.
    + by apply K.
    + apply (Forall_impl _ _ _ Hl). intros v (Hv & ? & ?). split; [by apply K|done].
    + exists h'. split; [done|]. split; [by apply (keeps_trans _ h1)|]. split.
      { intros a p Ha. by rewrite Hsame2, Hsame. }
      rewrite Hc2. cbn [fmap list_fmap List.concat]. rewrite <- (app_assoc acc). do 5 f_equal.
      apply list_fmap_ext. intros i v Hv. rewrite Forall_lookup in Hl. destruct (Hl _ _ Hv) as (Hwv & Hav & _).
      apply contents_ext; [by rewrite contents_length|]. intros k Hk.
      rewrite Hsame by done. by rewrite contents_lookup.
Qed.

(** [Buffer.concat] makes a fresh buffer that holds the elements of all
    the buffers in order, cut or filled with zeros to the given length, and
    changes no other memory. *)
Theorem concat_contents typed s list length_ :
  heap_ok (st_heap s) -> list <> [] ->
  Forall (fun v => wf_view (st_heap s) v /\ (v_arr v < length (st_heap s))%nat /\ (v_id v < st_next s)%nat) list ->
  let n := match length_ with Some n => n | None => foldl (fun n b => n + vlen b) 0 list end in
  0 <= n < kMaxLength typed ->
  exists s' buf, concat typed s list length_ = Ok (s', buf) /\
    v_arr buf = length (st_heap s) /\ vlen buf = n /\
    contents (st_heap s') buf =
      take (Z.to_nat n) (List.concat (contents (st_heap s) <$> list) ++ replicate (Z.to_nat n) 0) /\
    forall a p, (a < length (st_heap s))%nat -> cell (st_heap s') a p = cell (st_heap s) a p.
Proof.
  intros Hh Hne Hl n Hn. set (N := Z.to_nat n).
  set (h0 := st_heap s ++ [replicate N 0]).
  set (buf := View (st_next s) (length (st_heap s)) 0 N).
  assert (Hcell : forall a p, (a < length (st_heap s))%nat -> cell h0 a p = cell (st_heap s) a p).
  { intros a p Ha. unfold cell, h0. by rewrite lookup_app_l. }
  assert (Hbuf : default [] (h0 !! length (st_heap s)) = replicate N 0).
  { unfold h0. rewrite lookup_app_r by lia. by rewrite Nat.sub_diag. }
  assert (Hc0 : contents h0 buf = take (v_len buf) ([] ++ replicate (v_len buf) 0)).
  { unfold contents, buf. cbn [v_len v_off v_arr app]. by rewrite Hbuf, drop_0. }
  destruct (concat_loop_spec typed buf list h0 []) as (h' & E & _ & Hsame & Hc).
  - unfold heap_ok, h0. apply Forall_app. split; [done|]. constructor; [|constructor].
    apply Forall_replicate. unfold is_byte. lia.
  - unfold wf_view, buf. cbn [v_len v_off v_arr]. rewrite Hbuf, length_replicate. lia.
  - done.
  - apply (Forall_impl _ _ _ Hl). intros v (Hw & Ha & Hi). unfold buf. cbn [v_id v_arr].
    split; [|split; lia]. unfold wf_view in *. unfold h0. by rewrite lookup_app_l.
  - exact Hc0.
  - exists (Store h' (S (st_next s))), buf. split.
    + unfold concat. destruct list as [|v list]; [done|]. fold n. unfold fromNumber, checked.
      rewrite (proj2 (Z.ltb_ge n 0)), (proj2 (Z.leb_gt (kMaxLength typed) n)) by lia. cbn [mbind res_bind].
      rewrite to_int32_id by (unfold is_int32, kMaxLength in *; destruct typed; lia).
      unfold fresh. rewrite length_replicate. fold N. cbn [st_heap st_next].
      fold h0. fold buf. change 0 with (zlength []) at 1. rewrite E. done.
    + split; [done|]. split; [unfold vlen, buf, N; cbn [v_len]; lia|]. split.
      * cbn [st_heap]. rewrite Hc. cbn [app v_len buf]. do 3 f_equal. apply list_fmap_ext. intros i v Hv.
        rewrite Forall_lookup in Hl. destruct (Hl _ _ Hv) as (_ & Ha & _).
        unfold contents, h0. by rewrite lookup_app_l.
      * intros a p Ha. cbn [st_heap]. rewrite Hsame by (unfold buf; cbn [v_arr]; lia). by apply Hcell.
Qed.

Lemma concat_contents_witness :
  exists s' buf, concat true (Store [[1; 2; 3]; [4; 5]] 2) [View 0 0 1 2; View 1 1 0 2] (Some 5) = Ok (s', buf) /\
    v_arr buf = 2%nat /\ vlen buf = 5 /\ contents (st_heap s') buf = [2; 3; 4; 5; 0] /\
    forall a p, (a < 2)%nat -> cell (st_heap s') a p = cell [[1; 2; 3]; [4; 5]] a p.
Proof.
  refine (concat_contents true (Store [[1; 2; 3]; [4; 5]] 2) [View 0 0 1 2; View 1 1 0 2] (Some 5) _ _ _ _).
  - repeat constructor; done.
  - done.
  - repeat constructor; vm_compute; lia.
  - done.
Defined.

(** ** Comparison *)

(** The lexicographic order of byte sequences. *)
Fixpoint lex (a b : bytes) : comparison :=
  match a, b with
  | [], [] => Eq
  | [], _ => Lt
  | _, [] => Gt
  | x :: a', y :: b' => match x ?= y with Eq => lex a' b' | c => c end
  end.

Definition sign_of (c : comparison) : Z := match c with Lt => -1 | Eq => 0 | Gt => 1 end.

Lemma lex_eq a : forall b, lex a b = Eq <-> a = b.
Proof.
  induction a as [|x a IH]; intros [|y b]; cbn; try done.
  destruct (Z.compare_spec x y) as [->|H|H]; [|split; [done|intros [=]; lia]..].
  rewrite IH. split; [by intros ->|by intros [=]].
Qed.

Lemma lex_antisym a : forall b, lex b a = CompOpp (lex a b).
Proof.
  induction a as [|x a IH]; intros [|y b]; cbn; try done.
  rewrite (Z.compare_antisym x y), IH. by destruct (x ?= y).
Qed.

Lemma compare_loop_lex a : forall b n m,
  n - m = zlength a - zlength b ->
  (let '(x, y) := compare_loop a b n m in if x <? y then -1 else if y <? x then 1 else 0) = sign_of (lex a b).
Proof.
  induction a as [|x a IH]; intros [|y b] n m Hnm; unfold zlength in *; cbn [compare_loop lex length] in *.
  - by rewrite !(proj2 (Z.ltb_ge _ _)) by lia.
  - by rewrite (proj2 (Z.ltb_lt n m)) by lia.
  - by rewrite (proj2 (Z.ltb_ge n m)), (proj2 (Z.ltb_lt m n)) by lia.
  - destruct (Z.eqb_spec x y) as [->|Hne].
    + rewrite Z.compare_refl. apply IH. lia.
    + destruct (Z.compare_spec x y) as [H|H|H]; [done|..].
      * by rewrite (proj2 (Z.ltb_lt x y)) by lia.
      * by rewrite (proj2 (Z.ltb_ge x y)), (proj2 (Z.ltb_lt y x)) by lia.
Qed.

Lemma compare_lex h a b :
  wf_view h a -> wf_view h b -> (v_id a = v_id b -> a = b) ->
  compare h a b = sign_of (lex (contents h a) (contents h b)).
Proof.
  intros Ha Hb Hid. unfold compare. destruct (Nat.eqb_spec (v_id a) (v_id b)) as [E|_].
  - apply Hid in E as <-. by rewrite (proj2 (lex_eq _ _)).
  - apply compare_loop_lex. unfold vlen, zlength. by rewrite !contents_length.
Qed.

(** [Buffer.compare] is the lexicographic order of the bytes: -1, 0 or
    1, opposite when the arguments are swapped, and [equals] holds exactly when
    the bytes are the same. *)
Theorem compare_order h a b :
  wf_view h a -> wf_view h b -> (v_id a = v_id b -> a = b) ->
  compare h a b = sign_of (lex (contents h a) (contents h b)) /\
  compare h b a = - compare h a b /\
  (equals h a b = true <-> contents h a = contents h b).
Proof.
  intros Ha Hb Hid. assert (Hab : compare h a b = sign_of (lex (contents h a) (contents h b))) by by apply compare_lex.
  assert (Hba : compare h b a = sign_of (lex (contents h b) (contents h a))).
  { apply compare_lex; [done|done|]. intros E. symmetry. by apply Hid. }
  split; [done|]. split.
  - rewrite Hab, Hba, lex_antisym. by destruct (lex _ _).
  - unfold equals. destruct (Nat.eqb_spec (v_id a) (v_id b)) as [E|_].
    + by apply Hid in E as <-.
    + rewrite Hab, Z.eqb_eq, <- lex_eq. by destruct (lex _ _).
Qed.

Lemma compare_order_witness :
  compare [[1; 2; 3; 1; 2; 4]] (View 0 0 0 3) (View 1 0 3 3) = -1 /\
  compare [[1; 2; 3; 1; 2; 4]] (View 1 0 3 3) (View 0 0 0 3) = 1 /\
  (equals [[1; 2; 3; 1; 2; 4]] (View 0 0 0 3) (View 1 0 3 3) = true <-> [1; 2; 3] = [1; 2; 4]).
Proof.
  refine (compare_order [[1; 2; 3; 1; 2; 4]] (View 0 0 0 3) (View 1 0 3 3) _ _ _);
    [vm_compute; lia|vm_compute; lia|done].
Defined.

(** ** Search *)

Lemma at_lookup b i : 0 <= i -> at_ b i = b !! Z.to_nat i.
Proof. intros. unfold at_. by rewrite (proj2 (Z.ltb_ge i 0)) by lia. Qed.

(** The loop's result is an occurrence. *)
Lemma array_index_sound arr val bo : 0 <= bo -> forall n i f r,
  0 <= i -> (f = -1 \/ 0 <= f < i /\ i - f < zlength val /\
             forall j, 0 <= j < i - f -> at_ arr (bo + f + j) = at_ val j) ->
  array_index_loop n arr val bo i f = r -> r <> -1 ->
  bo <= r /\ r + zlength val <= zlength arr /\ forall j, 0 <= j < zlength val -> at_ arr (r + j) = at_ val j.
Proof.
  intros Hbo. induction n as [|n IH]; intros i f r Hi Hf E Hr; cbn [array_index_loop] in E; [congruence|].
  destruct (Z.leb_spec (zlength arr) (bo + i)) as [|Hlt]; [congruence|].
  case_bool_decide as Heq.
  - set (f' := if f =? -1 then i else f) in *.
    assert (Hf' : 0 <= f' <= i /\ forall j, 0 <= j <= i - f' -> at_ arr (bo + f' + j) = at_ val j).
    { subst f'. destruct (Z.eqb_spec f (-1)) as [->|Hne].
      - split; [lia|]. intros j Hj. replace j with 0 by lia. by rewrite Z.add_0_r.
      - destruct Hf as [?|(Hfi & Hfv & Hj)]; [done|]. split; [lia|]. intros j Hj2.
        destruct (decide (j = i - f)) as [->|]; [|apply Hj; lia].
        replace (bo + f + (i - f)) with (bo + i) by lia. done. }
    destruct Hf' as [Hf1 Hf2]. destruct (Z.eqb_spec (i - f' + 1) (zlength val)) as [Hlen|Hlen].
    + subst r. split; [lia|]. split; [lia|]. intros j Hj. apply Hf2. lia.
    + apply (IH (i + 1) f' r); [lia| |done|done]. right. split; [lia|]. split; [|intros; apply Hf2; lia].
      assert (Hv : is_Some (at_ val (i - f'))).
      { rewrite <- (Hf2 (i - f')) by lia. rewrite at_lookup by lia. apply lookup_lt_is_Some.
        unfold zlength in *. lia. }
      rewrite at_lookup, lookup_lt_is_Some in Hv by lia. unfold zlength in *. lia.
  - apply (IH (i + 1) (-1) r); [lia|by left|done|done].
Qed.

(** An index that [indexOf] of bytes returns is an occurrence, at or
    after the offset.  (The converse fails: see [indexOf_misses].) *)
Theorem indexOf_sound b v off k :
  Buffer_indexOf b (SBuffer v) off = Ok k -> k <> -1 ->
  0 <= k /\ (0 <= off < 2 ^ 31 -> off <= k) /\ k + zlength v <= zlength b /\ region b k (length v) = v.
Proof.
  unfold Buffer_indexOf. cbv zeta.
  set (o := if 2147483647 <? off then 2147483647 else if off <? -2147483648 then -2147483648 else off).
  destruct (zlength b =? 0); [congruence|].
  destruct (Z.leb_spec (zlength b) (to_int32 o)); [congruence|]. intros [= E] Hk.
  set (bo := if to_int32 o <? 0 then Z.max (zlength b + to_int32 o) 0 else to_int32 o) in E.
  assert (Hbo : 0 <= bo /\ (0 <= off < 2 ^ 31 -> bo = off)).
  { split; [subst bo; case_match eqn:E1; btrue; lia|]. intros Ho.
    assert (o = off) as Eo by (subst o; repeat case_match; btrue; lia).
    subst bo. rewrite Eo, to_int32_id by (unfold is_int32; lia).
    by rewrite (proj2 (Z.ltb_ge off 0)) by lia. }
  destruct (array_index_sound b v bo (proj1 Hbo) (length b) 0 (-1) k ltac:(lia) ltac:(by left) E Hk)
    as (H1 & H2 & H3).
  split; [lia|]. split; [intros Ho; rewrite <- (proj2 Hbo Ho); lia|]. split; [done|].
  unfold region. apply list_eq. intros j. destruct (decide (j < length v)%nat) as [Hj|Hj].
  - rewrite lookup_take_lt, lookup_drop by done.
    specialize (H3 (Z.of_nat j) ltac:(unfold zlength; lia)). rewrite !at_lookup in H3 by lia.
    rewrite Nat2Z.id in H3. rewrite <- H3. f_equal. lia.
  - by rewrite lookup_take_ge, (lookup_ge_None_2 v) by lia.
Qed.

Lemma indexOf_sound_witness :
  0 <= 2 /\ (0 <= 1 < 2 ^ 31 -> 1 <= 2) /\ 2 + 2 <= 5 /\ region [1; 2; 3; 4; 5] 2 2 = [3; 4].
Proof. exact (indexOf_sound [1; 2; 3; 4; 5] [3; 4] 1 2 ltac:(by vm_compute) ltac:(done)). Defined.

(** "aab" is in "aaab" at 1, but the search does not go back. *)
Example indexOf_misses : Buffer_indexOf (js "aaab") (SBuffer (js "aab")) 0 = Ok (-1).
Proof. by vm_compute. Qed.
