(* ===== verification/ParamEncoding.v ===== *)
(** * Encoding parameters

    The encoders of [lib/types/operation] (swagger-ui.js): keys, values and
    collections in queries, paths and form bodies, with the password mask.  A
    value is turned into text before it is encoded, as [encodeURIComponent]
    does; text that is not well-formed UTF-16 throws a URIError. *)

From Stdlib Require Import String.
From S2P Require Import Prelude JsNumber JsString JsValue Uri.

(** [encodeURIComponent(v)] of any value. *)
Definition encode_value (v : jsval) : res jsstr := encodeURIComponent (to_str v).

Definition STARS := js "******".

(** [mask(value, format)]. *)
Definition mask (value format : jsval) : jsval :=
  if eq_str format (js "password") then VStr STARS else value.
Definition mask_str (value : jsstr) (format : jsval) : jsstr :=
  if eq_str format (js "password") then STARS else value.

Definition encodeQueryKey (arg : jsstr) : res jsstr :=
  e ← encodeURIComponent arg;
  Ok (replace_first (replace_first (replace_first e (js "%5B") (js "[")) (js "%5D") (js "]")) (js "%24") (js "$")).

Definition encodeQueryParam (arg maskPasswords : jsval) : res jsstr :=
  if truthy maskPasswords then Ok STARS
  else if is_nullish arg then Ok []
  else encode_value arg.

(** The mask is passed to [encodeURIComponent], which ignores it. *)
Definition encodePathParam (pathParam maskPasswords : jsval) : res jsstr := encode_value pathParam.

Definition path_separator (type : jsval) : jsstr :=
  if eq_str type (js "ssv") then js "%20"
  else if eq_str type (js "tsv") then js "%09"
  else if eq_str type (js "pipes") then js "|"
  else js ",".

Definition encodePathCollection (type : jsval) (name : jsstr) (value : list jsval) (maskPasswords : jsval) :
    res jsstr :=
  es ← mapM_res (fun v => encodeQueryParam v maskPasswords) value;
  Ok (join (path_separator type) es).

(** The elements as [key=value] parts. *)
Definition keyed (name : jsstr) (suffix : jsstr) (v maskPasswords : jsval) : res jsstr :=
  k ← encodeQueryKey name;
  e ← encodeQueryParam v VUndef;
  Ok (k ++ suffix ++ mask_str e maskPasswords).

Definition encodeQueryCollection (type : jsval) (name : jsstr) (value : list jsval) (maskPasswords : jsval) :
    res jsstr :=
  let type := js_orv type (vstr "default") in
  if eq_str type (js "default") || eq_str type (js "multi") then
    parts ← mapM_res (fun v => keyed name (js "=") v maskPasswords) value;
    Ok (join (js "&") parts)
  else if eq_str type (js "brackets") then
    parts ← mapM_res (fun v => keyed name (js "[]=") v maskPasswords) value;
    Ok (join (js "&") parts)
  else
    let separator :=
      if eq_str type (js "csv") then js ","
      else if eq_str type (js "ssv") then js "%20"
      else if eq_str type (js "tsv") then js "%09"
      else if eq_str type (js "pipes") then js "|"
      else [] in
    if bool_decide (separator = []) then Ok []
    else match value with
         | [] => Ok []
         | _ =>
             k ← encodeQueryKey name;
             es ← mapM_res (fun v => encodeQueryParam v VUndef) value;
             Ok (k ++ js "=" ++ join separator es)
         end.

(** ** Keys decode to the argument *)

(** The text of a value that is present. *)
Definition value_text (v : jsval) : jsstr := if is_nullish v then [] else to_str v.

Lemma encode_ok s : wf_utf16 s = true -> exists r, encodeURIComponent s = Ok r.
Proof. intros H. destruct (encodeURIComponent_roundtrip s H) as (r & E & _). by exists r. Qed.

Lemma encode_clean s r c :
  wf_utf16 s = true -> encodeURIComponent s = Ok r -> uri_unit c = false -> c ∉ r.
Proof.
  intros Hs E Hc. eapply uri_unit_not_in; [done|]. apply (encodeURIComponent_units s); [done|].
  by apply wf_utf16_units.
Qed.

Lemma unescape_app a : forall b x, unescape a = Some x -> unescape (a ++ b) = app x <$> unescape b.
Proof.
  assert (H : forall n a b x, (length a <= n)%nat -> unescape a = Some x -> unescape (a ++ b) = app x <$> unescape b).
  { clear a. induction n as [|n IH]; intros a b x Hn E.
    - destruct a; [|cbn in Hn; lia]. cbn in E. simplify_eq. cbn. by destruct (unescape b).
    - destruct a as [|c a]; [cbn in E; simplify_eq; cbn; by destruct (unescape b)|].
      cbn [unescape app] in *. destruct (c =? 37).
      + destruct a as [|h [|l a]]; try done. cbn [app]. destruct (unhex h), (unhex l); try done.
        destruct (unescape a) as [y|] eqn:Ey; cbn in E; [|done]. simplify_eq.
        rewrite (IH a b y) by (done || (cbn in Hn; lia)). by destruct (unescape b).
      + destruct (unescape a) as [y|] eqn:Ey; cbn in E; [|done]. simplify_eq.
        rewrite (IH a b y) by (done || (cbn in Hn; lia)). by destruct (unescape b). }
  intros b x. by apply (H (length a)).
Qed.

(** A prefix of encoded text either ends between escapes or is cut inside one;
    the escapes the key encoder puts back start with the percent sign, which
    only starts escapes. *)
Lemma unescape_split a : forall b x,
  unescape (a ++ 37 :: b) = Some x -> exists y z, unescape a = Some y /\ unescape (37 :: b) = Some z /\ x = y ++ z.
Proof.
  assert (H : forall n a b x, (length a <= n)%nat -> unescape (a ++ 37 :: b) = Some x ->
    exists y z, unescape a = Some y /\ unescape (37 :: b) = Some z /\ x = y ++ z).
  { clear a. induction n as [|n IH]; intros a b x Hn E.
    - destruct a; [|cbn in Hn; lia]. by exists [], x.
    - destruct a as [|c a]; [by exists [], x|]. cbn [app] in E. cbn [unescape] in E |- *.
      destruct (c =? 37) eqn:Ec.
      + destruct a as [|h [|l a]]; cbn [app] in E.
        * destruct b as [|l b]; [done|]. change (unhex 37) with (@None Z) in E. done.
        * change (unhex 37) with (@None Z) in E. by destruct (unhex h).
        * destruct (unhex h), (unhex l); try done.
          destruct (unescape (a ++ 37 :: b)) as [x1|] eqn:E1; cbn in E; [|done]. simplify_eq.
          destruct (IH a b x1) as (y & w & -> & Ez & ->); [cbn in Hn; lia|done|].
          eexists _, w. split; [reflexivity|]. by split.
      + destruct (unescape (a ++ 37 :: b)) as [x1|] eqn:E1; cbn in E; [|done]. simplify_eq.
        destruct (IH a b x1) as (y & z & -> & Ez & ->); [cbn in Hn; lia|done|].
        eexists _, z. split; [reflexivity|]. by split. }
  intros b x. by apply (H (length a)).
Qed.

(** Putting one escape back leaves the bytes of the text alone. *)
Lemma replace_escape_bytes e h l c x :
  (exists a b, unhex h = Some a /\ unhex l = Some b /\ a * 16 + b = c) -> c <> 37 ->
  unescape e = Some x -> unescape (replace_first e [37; h; l] [c]) = Some x.
Proof.
  intros (a & b & Ha & Hb & Hc) Hne E. unfold replace_first.
  destruct (find_str [37; h; l] e) as [n|] eqn:En; [|done].
  apply find_str_some in En as [Ee _]. set (t := drop (n + length [37; h; l]) e) in *.
  cbn [app] in Ee. rewrite Ee in E. apply unescape_split in E as (y & z & Ey & Ez & ->).
  assert (Et : exists w, unescape t = Some w /\ z = c :: w).
  { cbn [unescape] in Ez. change (37 =? 37) with true in Ez. cbn match in Ez. rewrite Ha, Hb in Ez.
    destruct (unescape t) as [w|]; cbn in Ez; [|done]. simplify_eq. by exists w. }
  destruct Et as (w & Ew & ->). rewrite (unescape_app (take n e) _ y Ey). cbn [app unescape].
  destruct (Z.eqb_spec c 37); [done|]. by rewrite Ew.
Qed.

Lemma encodeQueryKey_decodes k r :
  wf_utf16 k = true -> encodeQueryKey k = Ok r -> decodeURIComponent r = Ok k.
Proof.
  intros Hk E. unfold encodeQueryKey in E. apply bind_ok in E as (e & Ee & [= <-]).
  destruct (encodeURIComponent_roundtrip k Hk) as (e' & Ee' & Hd).
  rewrite Ee in Ee'. injection Ee' as <-.
  unfold decodeURIComponent in *. destruct (unescape e) as [bs|] eqn:Eb; [|done].
  change (js "%5B") with [37; 53; 66]. change (js "[") with [91]. change (js "%5D") with [37; 53; 68].
  change (js "]") with [93]. change (js "%24") with [37; 50; 52]. change (js "$") with [36].
  rewrite (replace_escape_bytes _ 50 52 36 bs); [done|by exists 2, 4|done|].
  apply replace_escape_bytes; [by exists 5, 13|done|]. apply replace_escape_bytes; [by exists 5, 11|done|exact Eb].
Qed.

Lemma not_in_replace_first c s p r : c ∉ s -> c ∉ r -> c ∉ replace_first s p r.
Proof.
  intros Hs Hr. unfold replace_first. destruct (find_str p s) as [n|]; [|done].
  rewrite !elem_of_app. intros [H|[H|H]].
  - apply Hs. apply elem_of_take in H as (i & H & _). by apply (list_elem_of_lookup_2 _ i).
  - done.
  - apply Hs. apply list_elem_of_lookup in H as [i H]. rewrite lookup_drop in H. by eapply list_elem_of_lookup_2.
Qed.

(** ** Query strings *)

(** How a server reads a query: parts at the ampersands, each cut at its first
    equals sign and decoded. *)
Definition decode_part (part : jsstr) : res (jsstr * jsstr) :=
  match find_str [61] part with
  | Some n => k ← decodeURIComponent (take n part); v ← decodeURIComponent (drop (S n) part); Ok (k, v)
  | None => k ← decodeURIComponent part; Ok (k, [])
  end.
Definition decode_query (q : jsstr) : res (list (jsstr * jsstr)) :=
  if bool_decide (q = []) then Ok [] else mapM_res decode_part (split q [38]).

(** [key=value] with both sides encoded. *)
Definition encode_pair (k : jsstr) (v : jsval) : res jsstr :=
  ek ← encodeQueryKey k; ev ← encodeQueryParam v VUndef; Ok (ek ++ js "=" ++ ev).

Lemma encodeQueryKey_ok k : wf_utf16 k = true -> exists r, encodeQueryKey k = Ok r.
Proof. intros H. destruct (encode_ok k H) as [r E]. unfold encodeQueryKey. rewrite E. eexists. reflexivity. Qed.

Lemma encodeQueryKey_clean k r c :
  wf_utf16 k = true -> encodeQueryKey k = Ok r -> uri_unit c = false -> c <> 91 -> c <> 93 -> c <> 36 -> c ∉ r.
Proof.
  intros Hk E Hc H1 H2 H3. unfold encodeQueryKey in E. apply bind_ok in E as (e & Ee & [= <-]).
  pose proof (encode_clean k e c Hk Ee Hc) as He.
  change (js "[") with [91]. change (js "]") with [93]. change (js "$") with [36].
  repeat apply not_in_replace_first; try done; rewrite list_elem_of_singleton; congruence.
Qed.

Lemma encodeQueryParam_spec v :
  wf_utf16 (value_text v) = true ->
  exists r, encodeQueryParam v VUndef = Ok r /\ decodeURIComponent r = Ok (value_text v) /\
    forall c, uri_unit c = false -> c ∉ r.
Proof.
  unfold encodeQueryParam, value_text, encode_value. cbn [truthy]. intros H. destruct (is_nullish v).
  - exists []. split; [done|]. split; [done|]. intros. apply not_elem_of_nil.
  - destruct (encodeURIComponent_roundtrip _ H) as (r & E & D). exists r. split; [done|]. split; [done|].
    intros c Hc. by apply (encode_clean (to_str v)).
Qed.

Lemma encode_pair_spec k v :
  wf_utf16 k = true -> wf_utf16 (value_text v) = true ->
  exists r, encode_pair k v = Ok r /\ decode_part r = Ok (k, value_text v) /\ r <> [] /\
    38 ∉ r /\ 35 ∉ r /\ 63 ∉ r.
Proof.
  intros Hk Hv. destruct (encodeQueryKey_ok k Hk) as [ek Ek].
  destruct (encodeQueryParam_spec v Hv) as (ev & Ev & Dv & Cv).
  assert (Ck : forall c, uri_unit c = false -> c <> 91 -> c <> 93 -> c <> 36 -> c ∉ ek)
    by (intros; by apply (encodeQueryKey_clean k)).
  unfold encode_pair. rewrite Ek, Ev. cbn [mbind res_bind]. change (js "=") with [61]. cbn [app].
  eexists. split; [reflexivity|]. split; [|split; [by destruct ek|]].
  - unfold decode_part. rewrite find_char_app by (by apply Ck).
    rewrite take_app_length. rewrite (encodeQueryKey_decodes k ek Hk Ek). cbn [mbind res_bind].
    change (ek ++ 61 :: ev) with (ek ++ [61] ++ ev). rewrite app_assoc.
    replace (S (length ek)) with (length (ek ++ [61])) by (rewrite length_app; cbn; lia).
    rewrite drop_app_length, Dv. done.
  - rewrite !elem_of_app, !elem_of_cons. repeat split; intros [H|[H|H]]; try done; revert H;
      first [by apply Ck | by apply Cv].
Qed.

(** ** Parts that decode *)

Lemma utf8_decode_more bs : forall f g x, utf8_decode f bs = Some x -> (f <= g)%nat -> utf8_decode g bs = Some x.
Proof.
  assert (H : forall f bs g x, utf8_decode f bs = Some x -> (f <= g)%nat -> utf8_decode g bs = Some x); [|eauto].
  induction f as [|f IH]; intros [|b l] [|g] x E Hg; cbn in E; try done; try lia. cbn [utf8_decode].
  repeat case_match; try done; apply fmap_Some in E as (y & E & ->); by rewrite (IH _ g y E) by lia.
Qed.

Lemma utf8_decode_app f : forall bs cs g x y,
  utf8_decode f bs = Some x -> utf8_decode g cs = Some y -> utf8_decode (f + g) (bs ++ cs) = Some (x ++ y).
Proof.
  induction f as [|f IH]; intros [|b l] cs g x y E Hy; cbn in E; try done.
  - by injection E as <-.
  - injection E as <-. apply (utf8_decode_more cs g); [done|lia].
  - assert (Hgo : forall u m, app u <$> utf8_decode f m = Some x -> app u <$> utf8_decode (f + g) (m ++ cs) = Some (x ++ y)).
    { intros u m (z & E' & ->)%fmap_Some. rewrite (IH _ cs g z y E' Hy). cbn. by rewrite (assoc_L (++)). }
    cbn [Nat.add utf8_decode app]. destruct (b <? 128); [by apply (Hgo [b])|]. destruct (b <? 192); [done|].
    destruct (b <? 224); [|destruct (b <? 240)].
    + destruct l as [|c1 l]; [done|]. cbn [app]. destruct (is_cont c1); [by apply Hgo|done].
    + destruct l as [|c1 [|c2 l]]; [done..|]. cbn [app]. destruct (is_cont c1 && is_cont c2); [by apply Hgo|done].
    + destruct l as [|c1 [|c2 [|c3 l]]]; [done..|]. cbn [app]. destruct (is_cont c1 && is_cont c2 && is_cont c3); [by apply Hgo|done].
Qed.

(** Text that decodes can be put together from pieces. *)
Lemma decode_app a b x y :
  decodeURIComponent a = Ok x -> decodeURIComponent b = Ok y -> decodeURIComponent (a ++ b) = Ok (x ++ y).
Proof.
  unfold decodeURIComponent. intros Ha Hb. destruct (unescape a) as [p|] eqn:Ea; [|done]. destruct (unescape b) as [q|] eqn:Eb; [|done].
  destruct (utf8_decode (length p) p) as [x'|] eqn:Ep; [|done]. destruct (utf8_decode (length q) q) as [y'|] eqn:Eq; [|done].
  simplify_eq. rewrite (unescape_app a b p Ea), Eb. cbn. by rewrite length_app, (utf8_decode_app _ p q _ x y).
Qed.

Lemma decode_join sep dsep es ts : decodeURIComponent sep = Ok dsep ->
  Forall2 (fun e t => decodeURIComponent e = Ok t) es ts -> decodeURIComponent (join sep es) = Ok (join dsep ts).
Proof.
  intros Hs H. induction H as [|e t es ts He Hes IH]; [done|].
  destruct es as [|e' es], ts as [|t' ts]; [done|by inversion Hes..|].
  rewrite !join_cons by done. by repeat apply decode_app.
Qed.

(** A part of a query, which a server reads as a name with a value. *)
Definition is_part (part : jsstr) (kv : jsstr * jsstr) : Prop :=
  decode_part part = Ok kv /\ part <> [] /\ 38 ∉ part /\ 35 ∉ part /\ 63 ∉ part.

Lemma decode_parts parts kvs : Forall2 is_part parts kvs -> decode_query (join [38] parts) = Ok kvs.
Proof.
  intros H. unfold decode_query. destruct H as [|p kv parts kvs Hp H]; [done|].
  rewrite bool_decide_eq_false_2 by (destruct Hp as (_ & Hp & _); destruct p; [done|]; by destruct parts).
  assert (H' : Forall2 is_part (p :: parts) (kv :: kvs)) by by constructor. clear Hp H.
  rewrite split_join; [|done|].
  - apply mapM_res_ok. apply (Forall2_impl _ _ _ _ H'). by intros ? ? (? & _).
  - clear -H'. induction H' as [|? ? ? ? (_ & _ & ? & _) _ IH]; by constructor.
Qed.

Lemma keyed_part k ek e t :
  decodeURIComponent ek = Ok k -> (forall c, c = 61 \/ c = 38 \/ c = 35 \/ c = 63 -> c ∉ ek) ->
  decodeURIComponent e = Ok t -> (forall c, c = 38 \/ c = 35 \/ c = 63 -> c ∉ e) -> is_part (ek ++ 61 :: e) (k, t).
Proof.
  intros Hk Ck He Ce. split; [|split; [by destruct ek|]].
  - unfold decode_part. rewrite find_char_app by (by apply Ck; auto). rewrite take_app_length, Hk. cbn [mbind res_bind].
    change (ek ++ 61 :: e) with (ek ++ [61] ++ e). rewrite (assoc_L (++)).
    replace (S (length ek)) with (length (ek ++ [61])) by (rewrite length_app; cbn; lia). by rewrite drop_app_length, He.
  - rewrite !elem_of_app, !elem_of_cons. repeat split; intros [H|[H|H]]; try done; revert H; (by apply Ck; auto) || (by apply Ce; auto).
Qed.

Lemma key_decodes k : wf_utf16 k = true -> exists ek, encodeQueryKey k = Ok ek /\ decodeURIComponent ek = Ok k /\
  forall c, c = 61 \/ c = 38 \/ c = 35 \/ c = 63 -> c ∉ ek.
Proof.
  intros Hk. destruct (encodeQueryKey_ok k Hk) as [ek Ek]. exists ek. split; [done|]. split; [by apply (encodeQueryKey_decodes k)|].
  intros c Hc. apply (encodeQueryKey_clean k); destruct Hc as [->|[->|[->| ->]]]; done.
Qed.

Lemma encoded_values l : Forall (fun v => wf_utf16 (value_text v) = true) l ->
  exists es, mapM_res (fun v => encodeQueryParam v VUndef) l= Ok es /\
    Forall2 (fun e t => decodeURIComponent e = Ok t) es (value_text <$> l) /\
    Forall (fun e => forall c, uri_unit c = false -> c ∉ e) es.
Proof.
  induction 1 as [|v l Hv _ (es & E & D & C)]; [by exists []|]. destruct (encodeQueryParam_spec v Hv) as (e & Ee & De & Ce).
  exists (e :: es). cbn [mapM_res]. rewrite Ee, E. split; [done|]. split; by constructor.
Qed.

Lemma not_in_join c sep es : c ∉ sep -> Forall (fun e => c ∉ e) es -> c ∉ join sep es.
Proof.
  intros Hs. induction 1 as [|e es He Hes IH]; [apply not_elem_of_nil|]. destruct es as [|e' es]; [done|].
  rewrite join_cons by done. rewrite !not_elem_of_app. auto.
Qed.

(** What a list of values stands for in a query, by its format: a value for
    each, or one of all of them. *)
Definition list_pairs (type : jsval) (name : jsstr) (l : list jsval) : list (jsstr * jsstr) :=
  let one sep := [(name, join sep (value_text <$> l))] in
  match js_orv type (vstr "default") with
  | VStr t =>
      if bool_decide (t = js "csv") then one (js ",")
      else if bool_decide (t = js "ssv") then one (js " ")
      else if bool_decide (t = js "tsv") then one [9]
      else if bool_decide (t = js "pipes") then one (js "|")
      else if bool_decide (t = js "brackets") then (fun v => (name ++ js "[]", value_text v)) <$> l
      else (fun v => (name, value_text v)) <$> l
  | _ => []
  end.

(** The formats the encoder knows; no format is the default. *)
Definition known_format (type : jsval) : Prop :=
  exists t, js_orv type (vstr "default") = VStr t /\
    t ∈ [js "default"; js "multi"; js "brackets"; js "csv"; js "ssv"; js "tsv"; js "pipes"].

Lemma keyed_parts name suffix dec l : wf_utf16 name = true -> Forall (fun v => wf_utf16 (value_text v) = true) l ->
  decodeURIComponent suffix = Ok dec -> (forall c, c = 61 \/ c = 38 \/ c = 35 \/ c = 63 -> c ∉ suffix) ->
  exists parts, mapM_res (fun v => keyed name (suffix ++ js "=") v VUndef) l = Ok parts /\
    Forall2 is_part parts ((fun v => (name ++ dec, value_text v)) <$> l).
Proof.
  intros Hn Hl Hd Hc. destruct (key_decodes name Hn) as (ek & Ek & Dk & Ck).
  induction Hl as [|v l Hv _ (parts & E & F)]; [by exists []|]. destruct (encodeQueryParam_spec v Hv) as (e & Ee & De & Ce).
  exists ((ek ++ suffix ++ 61 :: e) :: parts). cbn [mapM_res]. rewrite E. unfold keyed. rewrite Ek, Ee. cbn [mbind res_bind].
  split; [by rewrite <- (assoc_L (++))|]. cbn [fmap list_fmap]. constructor; [|done]. rewrite (assoc_L (++)).
  apply keyed_part; [by apply decode_app| |done|].
  - intros c Hx. apply not_elem_of_app. auto.
  - intros c Hx. apply Ce. by destruct Hx as [->|[->| ->]].
Qed.

Lemma joined_part name sep dsep l : wf_utf16 name = true -> Forall (fun v => wf_utf16 (value_text v) = true) l -> l <> [] ->
  decodeURIComponent sep = Ok dsep -> (forall c, c = 38 \/ c = 35 \/ c = 63 -> c ∉ sep) ->
  exists part, (k ← encodeQueryKey name; es ← mapM_res (fun v => encodeQueryParam v VUndef) l; Ok (k ++ js "=" ++ join sep es)) = Ok part /\
    is_part part (name, join dsep (value_text <$> l)).
Proof.
  intros Hn Hl Hne Hd Hc. destruct (key_decodes name Hn) as (ek & Ek & Dk & Ck). destruct (encoded_values l Hl) as (es & E & D & C).
  rewrite Ek, E. cbn [mbind res_bind]. eexists. split; [done|]. change (js "=") with [61]. cbn [app].
  apply keyed_part; [done|done|by apply decode_join|]. intros c Hx. apply not_in_join; [by apply Hc|].
  apply (Forall_impl _ _ _ C). intros e He. apply He. by destruct Hx as [->|[->| ->]].
Qed.

(** A list in a query is read as its values, or as one text of them. *)
Lemma collection_parts type name l : wf_utf16 name = true -> Forall (fun v => wf_utf16 (value_text v) = true) l -> l <> [] ->
  known_format type ->
  exists parts, encodeQueryCollection type name l VUndef = Ok (join [38] parts) /\ Forall2 is_part parts (list_pairs type name l).
Proof.
  intros Hn Hl Hne (t & Et & Ht). unfold encodeQueryCollection, list_pairs. rewrite Et. cbn [eq_str].
  assert (Hone : forall sep dsep, decodeURIComponent sep = Ok dsep -> (forall c, c = 38 \/ c = 35 \/ c = 63 -> c ∉ sep) ->
    exists parts, match l with [] => Ok [] | _ => k ← encodeQueryKey name; es ← mapM_res (fun v => encodeQueryParam v VUndef) l;
        Ok (k ++ js "=" ++ join sep es) end = Ok (join [38] parts) /\ Forall2 is_part parts [(name, join dsep (value_text <$> l))]).
  { intros sep dsep Hd Hc. destruct (joined_part name sep dsep l Hn Hl Hne Hd Hc) as (part & E & Hp). exists [part].
    split; [by destruct l|]. by apply Forall2_cons_2; [|apply Forall2_nil_2]. }
  assert (Hmany : forall suffix dec, decodeURIComponent suffix = Ok dec -> (forall c, c = 61 \/ c = 38 \/ c = 35 \/ c = 63 -> c ∉ suffix) ->
    exists parts, (parts ← mapM_res (fun v => keyed name (suffix ++ js "=") v VUndef) l; Ok (join (js "&") parts)) = Ok (join [38] parts) /\
      Forall2 is_part parts ((fun v => (name ++ dec, value_text v)) <$> l)).
  { intros suffix dec Hd Hc. destruct (keyed_parts name suffix dec l Hn Hl Hd Hc) as (parts & E & Hp). exists parts. by rewrite E. }
  assert (Hplain : exists parts, (parts ← mapM_res (fun v => keyed name (js "=") v VUndef) l; Ok (join (js "&") parts)) = Ok (join [38] parts) /\
      Forall2 is_part parts ((fun v => (name, value_text v)) <$> l)).
  { destruct (Hmany [] []) as (parts & E & Hp); [done|intros; apply not_elem_of_nil|]. exists parts. split; [done|].
    by setoid_rewrite app_nil_r in Hp. }
  rewrite !elem_of_cons in Ht. destruct Ht as [->|[->|[->|[->|[->|[->|[->|Ht%not_elem_of_nil]]]]]]]; [| | | | | | |done].
  - exact Hplain.
  - exact Hplain.
  - apply (Hmany (js "[]") (js "[]")); [by vm_compute|]. by intros c [->|[->|[->| ->]]]; apply (bool_decide_eq_false _).
  - apply (Hone (js ",") (js ",")); [by vm_compute|]. by intros c [->|[->| ->]]; apply (bool_decide_eq_false _).
  - apply (Hone (js "%20") (js " ")); [by vm_compute|]. by intros c [->|[->| ->]]; apply (bool_decide_eq_false _).
  - apply (Hone (js "%09") [9]); [by vm_compute|]. by intros c [->|[->| ->]]; apply (bool_decide_eq_false _).
  - apply (Hone (js "|") (js "|")); [by vm_compute|]. by intros c [->|[->| ->]]; apply (bool_decide_eq_false _).
Qed.
