(* ===== verification/Operation.v ===== *)
(** * Operations

    [lib/types/operation] of swagger-ui.js: building the request of one
    operation: URL, headers, content types, body, and the curl text.  The
    parameters of an operation are records of the properties these functions
    read; arguments and options are objects.  The variables the code declares
    inside a loop keep their value from one turn to the next, as the
    language's [var] does; they are part of the loop's state here. *)

From Stdlib Require Import String.
From S2P Require Import Prelude JsNumber JsString JsValue Uri ParamEncoding.

Module Param.
Record param_t := Mk {
  name : jsstr;
  in_ : jsstr;
  type : jsval;
  format : jsval;
  required : jsval;
  collectionFormat : jsval;
  allowEmptyValue : jsval;
  x_escape : jsval
}.
End Param.
Import Param(param_t).

Module Op.
Record Operation := Mk {
  nickname : jsstr;
  summary : jsstr;
  method : jsstr;
  path : jsstr;
  scheme : jsstr;
  host : jsstr;
  basePath : jsstr;
  consumes : list jsstr;
  produces : list jsstr;
  parameters : list param_t
}.
End Op.
Import Op(Operation).

(** ** Paths *)

Definition line_end (c : Z) : bool := (c =? 10) || (c =? 13) || (c =? 8232) || (c =? 8233).
Fixpoint drop_line (s : jsstr) : jsstr :=
  match s with [] => [] | c :: s' => if line_end c then s else drop_line s' end.
(** Removing the fragment: from the first hash sign to the end of its line. *)
Fixpoint strip_fragment (s : jsstr) : jsstr :=
  match s with
  | [] => []
  | c :: s' => if c =? chr "#" then drop_line s' else c :: strip_fragment s'
  end.

(** Names that mean themselves in the regular expression of [urlify]:
    letters, digits, underscores and dashes, but not digits alone, which make
    the braces a quantifier. *)
Definition name_unit (c : Z) : bool :=
  ((97 <=? c) && (c <=? 122)) || ((65 <=? c) && (c <=? 90)) || ((48 <=? c) && (c <=? 57)) ||
  (c =? chr "_") || (c =? chr "-").
Definition is_digit (c : Z) : bool := (48 <=? c) && (c <=? 57).
Definition plain_name (s : jsstr) : bool := forallb name_unit s && negb (forallb is_digit s).

Fixpoint prefix_ci (p s : jsstr) : bool :=
  match p, s with
  | [], _ => true
  | x :: p', y :: s' => (lower_unit x =? lower_unit y) && prefix_ci p' s'
  | _ :: _, [] => false
  end.

(** [s.replace(/p/gi, r)] for a literal [p]; [skip] units of the current
    match remain. *)
Fixpoint replace_ci (p r s : jsstr) (skip : nat) : jsstr :=
  match s with
  | [] => []
  | c :: s' =>
      match skip with
      | S k => replace_ci p r s' k
      | O => if prefix_ci p s then r ++ replace_ci p r s' (length p - 1) else c :: replace_ci p r s' O
      end
  end.

(** Putting a value into the path template; a dollar sign in the value would
    be a replacement pattern. *)
Definition replace_template (requestUrl name value : jsstr) : res jsstr :=
  if plain_name name && negb (includes value (js "$"))
  then Ok (replace_ci (js "{" ++ name ++ js "}") value requestUrl O)
  else Throw Unsupported.

(** ** urlify *)

Record urlify_state := UState {
  requestUrl : jsstr;
  querystring : jsstr;
  isPassword : jsval;
  qp : jsval
}.

(** The separator before the next part of the query. *)
Definition query_sep (st : urlify_state) : jsstr :=
  if bool_decide (querystring st = []) && (indexOf (requestUrl st) (js "?") <? 0) then js "?" else js "&".

Definition add_query (st : urlify_state) (part : jsstr) (q : jsval) : urlify_state :=
  UState (requestUrl st) (querystring st ++ query_sep st ++ part) (isPassword st) q.

Definition key_value (name : jsstr) (value isPassword : jsval) : res jsstr :=
  k ← encodeQueryKey name; v ← encodeQueryParam value isPassword; Ok (k ++ js "=" ++ v).

Definition is_password_param (param : param_t) : bool :=
  eq_str (Param.type param) (js "string") && eq_str (Param.format param) (js "password").

(** A parameter that has an argument. *)
Definition urlify_given (param : param_t) (value maskPasswords : jsval) (st : urlify_state) : res urlify_state :=
  let isPw := if is_password_param param && truthy maskPasswords then VBool true else isPassword st in
  let st := UState (requestUrl st) (querystring st) isPw (qp st) in
  let name := Param.name param in
  if bool_decide (Param.in_ param = js "path") then
    value ← match value with
            | VArr l => encodePathCollection (Param.collectionFormat param) name l isPw
            | _ => if is_undef (Param.x_escape param) || eq_true (Param.x_escape param)
                   then encodePathParam value isPw else Ok (to_str value)
            end;
    u ← replace_template (requestUrl st) name value;
    Ok (UState u (querystring st) isPw (qp st))
  else if bool_decide (Param.in_ param = js "query") then
    if negb (is_undef (Param.collectionFormat param)) then
      part ← match value with
             | VArr l => encodeQueryCollection (Param.collectionFormat param) name l isPw
             | _ => key_value name value isPw
             end;
      Ok (add_query st part value)
    else
      part ← key_value name value isPw;
      Ok (add_query st part (qp st))
  else Ok st.

(** A query parameter without an argument that may be empty. *)
Definition urlify_empty (param : param_t) (st : urlify_state) : res urlify_state :=
  let name := Param.name param in
  if negb (is_undef (Param.collectionFormat param)) || eq_str (Param.type param) (js "array") then
    let collectionFormat := js_orv (Param.collectionFormat param) (vstr "multi") in
    part ← match qp st with
           | VArr l => encodeQueryCollection collectionFormat name l (isPassword st)
           | q => encodeQueryCollection collectionFormat name [q] (isPassword st)
           end;
    Ok (add_query st part (qp st))
  else
    part ← key_value name (VStr []) (isPassword st);
    Ok (add_query st part (qp st)).

Definition urlify_step (args : obj) (maskPasswords : jsval) (st : urlify_state) (param : param_t) :
    res urlify_state :=
  let value := get args (Param.name param) in
  if negb (is_undef value) then urlify_given param value maskPasswords st
  else if bool_decide (Param.in_ param = js "query") && eq_true (Param.allowEmptyValue param)
  then urlify_empty param st
  else Ok st.

Definition urlify (op : Operation) (args : obj) (maskPasswords : jsval) : res jsstr :=
  st ← foldM_res (urlify_step args maskPasswords)
         (UState (strip_fragment (Op.path op)) [] VUndef VUndef) (Op.parameters op);
  let u := Op.scheme op ++ js "://" ++ Op.host op in
  let u := if bool_decide (Op.basePath op = js "/") then u else u ++ Op.basePath op in
  Ok (u ++ requestUrl st ++ querystring st).

(** ** Missing parameters *)

(** [missingParams]: an empty array, or the name of the last one missing. *)
Definition getMissingParams (op : Operation) (args : obj) : jsval :=
  foldl (fun missingParams param =>
    if eq_true (Param.required param) && is_undef (get args (Param.name param))
    then VStr (Param.name param) else missingParams) (VArr []) (Op.parameters op).

(** [missingParams.length > 0]. *)
Definition has_missing (missingParams : jsval) : bool :=
  match missingParams with VStr s => 0 <? zlength s | VArr l => negb (bool_decide (l = [])) | _ => false end.

(** ** Content types and headers *)

Definition itemByPriority (col itemPriority : list jsstr) : option jsstr :=
  match itemPriority with
  | [] => col !! O
  | _ => match List.find (fun i => bool_decide (i ∈ col)) itemPriority with
         | Some i => Some i
         | None => col !! O
         end
  end.

Definition opt_str (o : option jsstr) : jsval := match o with Some s => VStr s | None => VUndef end.

Definition matchesAccept (op : Operation) (accepts : jsval) : bool :=
  if negb (truthy accepts) then true
  else match accepts with
       | VStr s => bool_decide (s ∈ Op.produces op) || bool_decide (js "*/*" ∈ Op.produces op)
       | _ => bool_decide (js "*/*" ∈ Op.produces op)
       end.

(** The first loop of [setContentTypes]: file and form parameters, headers,
    and the body argument. *)
Record content_state := CState {
  definedFileParams : nat;
  definedFormParams : nat;
  c_headers : obj;
  c_body : jsval
}.
Definition content_step (args opts : obj) (st : content_state) (param : param_t) : content_state :=
  let name := Param.name param in
  if bool_decide (Param.in_ param = js "formData") then
    if eq_str (Param.type param) (js "file")
    then CState (S (definedFileParams st)) (definedFormParams st) (c_headers st) (c_body st)
    else CState (definedFileParams st) (S (definedFormParams st)) (c_headers st) (c_body st)
  else if bool_decide (Param.in_ param = js "header") then
    if is_undef (get opts name) then st
    else CState (definedFileParams st) (definedFormParams st) (put name (get opts name) (c_headers st)) (c_body st)
  else if bool_decide (Param.in_ param = js "body") && negb (is_undef (get args name)) then
    CState (definedFileParams st) (definedFormParams st) (c_headers st) (get args name)
  else st.

(** The last form type the operation consumes. *)
Definition form_type (consumes : list jsstr) : option jsstr :=
  foldl (fun found chk => if startsWith chk (js "application/x-www-form-urlencoded") ||
                             startsWith chk (js "multipart/form-data") then Some chk else found) None consumes.

Definition URLENCODED := js "application/x-www-form-urlencoded".

Definition setContentTypes (op : Operation) (args opts : obj) : obj :=
  let consumes0 := js_orv (get args (js "parameterContentType"))
    (opt_str (itemByPriority (Op.consumes op) [js "application/json"; js "application/yaml"])) in
  let accepts := js_orv (get opts (js "responseContentType"))
    (opt_str (itemByPriority (Op.produces op) [js "application/json"; js "application/yaml"])) in
  let st := foldl (content_step args opts) (CState O O [] VUndef) (Op.parameters op) in
  let hasBody := truthy (c_body st) || (0 <? definedFileParams st)%nat || (0 <? definedFormParams st)%nat in
  let requestContentType := get opts (js "requestContentType") in
  let method := Op.method op in
  let consumes :=
    if bool_decide (method ∈ [js "post"; js "put"; js "patch"]) ||
       (bool_decide (method ∈ [js "delete"; js "get"]) && hasBody) then
      let consumes := if truthy requestContentType then requestContentType else consumes0 in
      if (0 <? definedFormParams st)%nat then
        let consumes :=
          if truthy requestContentType then requestContentType
          else if (0 <? definedFileParams st)%nat then vstr "multipart/form-data"
          else opt_str (form_type (Op.consumes op)) in
        if is_undef consumes then VStr URLENCODED else consumes
      else consumes
    else VNull in
  let headers := c_headers st in
  let headers :=
    if (truthy consumes && negb (eq_str (c_body st) [])) || eq_str consumes URLENCODED
    then put (js "Content-Type") consumes headers
    else if bool_decide (Op.consumes op !! O = Some URLENCODED)
    then put (js "Content-Type") (VStr URLENCODED) headers
    else headers in
  if truthy accepts then put (js "Accept") accepts headers else headers.

(** The header parameters by name in lower case; the last one wins. *)
Definition header_table (params : list param_t) : list (jsstr * param_t) :=
  foldl (fun t param => if bool_decide (Param.in_ param = js "header")
                        then put (toLowerCase (Param.name param)) param t else t) [] params.

Definition getHeaderParams (op : Operation) (args : obj) : obj :=
  let headers := setContentTypes op args [] in
  let table := header_table (Op.parameters op) in
  foldl (fun headers '(arg, value) =>
    match assoc (toLowerCase arg) table with
    | Some headerParam =>
        let value := match value with VArr _ => VStr (to_str value) | _ => value end in
        put (Param.name headerParam) value headers
    | None => headers
    end) headers (for_in args).

(** ** Bodies *)

(** A request body: a value, the entries of a [FormData], or the plain object
    used where there is no [FormData]. *)
Inductive body_t :=
| BVal (v : jsval)
| BForm (entries : list (jsstr * jsval))
| BMulti (o : obj).

(** An entry of [formParams]. *)
Record form_param := FormParam { f_param : param_t; f_value : jsval; f_password : jsval }.

Record body_state := BState {
  b_form : list (jsstr * form_param);
  b_body : jsval;
  b_isPassword : jsval;
  b_hasBody : bool
}.

(** The first loop of [getBody]; [isPassword] stays set once set. *)
Definition body_step (args : obj) (st : body_state) (param : param_t) : body_state :=
  let name := Param.name param in
  let value := get args name in
  if negb (is_undef value) then
    let isPw := if is_password_param param then vstr "password" else b_isPassword st in
    if bool_decide (Param.in_ param = js "body") then BState (b_form st) value isPw (b_hasBody st)
    else if bool_decide (Param.in_ param = js "formData") then
      BState (put name (FormParam param value isPw) (b_form st)) (b_body st) isPw (b_hasBody st)
    else BState (b_form st) (b_body st) isPw (b_hasBody st)
  else if bool_decide (Param.in_ param = js "body") then BState (b_form st) (b_body st) (b_isPassword st) true
  else st.

(** A part of a urlencoded body. *)
Definition form_part (key : jsstr) (f : form_param) (password : jsval) : res jsstr :=
  match f_value f with
  | VArr l => encodeQueryCollection (Param.collectionFormat (f_param f)) key l password
  | v =>
      k ← encodeURIComponent key;
      e ← encode_value v;
      Ok (k ++ js "=" ++ mask_str e password)
  end.

Definition form_encode (maskPasswords : jsval) (form : list (jsstr * form_param)) : res jsstr :=
  foldM_res (fun encoded '(key, f) =>
    let password := if truthy maskPasswords then f_password f else VUndef in
    part ← form_part key f password;
    Ok ((if bool_decide (encoded = []) then encoded else encoded ++ js "&") ++ part)) [] (for_in form).

(** Appending to a [FormData]. *)
Definition form_append (args : obj) (entries : list (jsstr * jsval)) (key : jsstr) (param : param_t) :
    res (list (jsstr * jsval)) :=
  let value := get args key in
  match value with
  | VUndef => Ok entries
  | VHost _ _ => Ok (entries ++ [(key, value)])
  | _ =>
      type ← prop value (js "type");
      file ← prop value (js "value");
      if eq_str type (js "file") && truthy file then Ok (entries ++ [(key, file)])
      else match value with
           | VArr l =>
               if eq_str (Param.collectionFormat param) (js "multi") then
                 Ok (filter (fun e => e.1 <> key) entries ++ ((fun v => (key, v)) <$> l))
               else
                 t ← encodeQueryCollection (Param.collectionFormat param) key l VUndef;
                 Ok (entries ++ [(key, VStr (join (js "=") (slice_from (split t (js "=")) 1)))])
           | _ => Ok (entries ++ [(key, value)])
           end
  end.

Definition multipart_delimiter (format : jsval) : jsstr :=
  if eq_str format (js "ssv") then js " "
  else if eq_str format (js "pipes") then js "|"
  else if eq_str format (js "tsv") then [9]
  else js ",".

(** [data] after [value.forEach]: it keeps what earlier keys left in it. *)
Definition join_data (delimeter : jsstr) (data : jsstr) (l : list jsval) : jsstr :=
  foldl (fun data v => (if bool_decide (data = []) then [] else data ++ delimeter) ++ to_str v) data l.

(** The loop without [FormData]: [param] is the operation's last parameter,
    and a collection in the multi format ends the loop. *)
Fixpoint multipart_loop (args : obj) (param_format : jsval) (keys : list jsstr) (bodyParam : obj) (data : jsval) : obj :=
  match keys with
  | [] => bodyParam
  | key :: keys' =>
      let value := get args key in
      match value with
      | VArr l =>
          let format := js_orv param_format (vstr "multi") in
          if eq_str format (js "multi") then put key value bodyParam
          else
            let data := match l with
                        | [] => data
                        | _ => VStr (join_data (multipart_delimiter format) (match data with VStr s => s | _ => [] end) l)
                        end in
            multipart_loop args param_format keys' (put key data bodyParam) data
      | _ => multipart_loop args param_format keys' (put key value bodyParam) data
      end
  end.

Definition getBody (hasFormData : bool) (op : Operation) (headers args opts : obj) : res (body_t * obj) :=
  let st := foldl (body_step args) (BState [] VUndef VUndef false) (Op.parameters op) in
  let contentType := get headers (js "Content-Type") in
  json ← if truthy contentType then s ← as_str contentType; Ok (startsWith s (js "application/json")) else Ok false;
  multi ← if truthy contentType then s ← as_str contentType; Ok (0 <=? indexOf s (js "multipart/form-data")) else Ok false;
  let body := if b_hasBody st && is_undef (b_body st) && json then vstr "{}" else b_body st in
  let hasFormParams := negb (bool_decide ((b_form st).*1 = [])) in
  if hasFormParams && negb multi then
    encoded ← form_encode (get opts (js "maskPasswords")) (b_form st);
    Ok (BVal (VStr encoded), headers)
  else if multi then
    body ← if hasFormData then
             entries ← foldM_res (fun entries '(key, f) => form_append args entries key (f_param f)) [] (for_in (b_form st));
             Ok (BForm entries)
           else
             let param_format := match last (Op.parameters op) with
                                 | Some p => Param.collectionFormat p | None => VUndef end in
             Ok (BMulti (multipart_loop args param_format (for_in (b_form st)).*1 [] VUndef));
    Ok (body, put (js "Content-Type") (vstr "multipart/form-data") headers)
  else Ok (BVal body, headers).

(** ** The request *)

Record http_request := HttpRequest {
  r_url : jsstr;
  r_method : jsstr;
  r_body : body_t;
  r_headers : obj
}.

(** What [execute] does: an error message, or the request. *)
Inductive outcome :=
| Refused (message : jsstr)
| Request (r : http_request).

(** [.{format}] in the URL, by the Accept header. *)
Definition format_url (url : jsstr) (headers : obj) : res jsstr :=
  if 0 <? indexOf url (js ".{format}") then
    let format := js_orv (get headers (js "Accept")) (get headers (js "accept")) in
    if truthy format then
      f ← as_str format;
      Ok (if 0 <? indexOf f (js "json") then replace_first url (js ".{format}") (js ".json")
          else if 0 <? indexOf f (js "xml") then replace_first url (js ".{format}") (js ".xml")
          else url)
    else Ok url
  else Ok url.

(** [for (attrname in more) headers[attrname] = more[attrname]]. *)
Definition assign (headers more : obj) : obj := foldl (fun h kv => put kv.1 kv.2 h) headers (for_in more).

(** [execute] up to the authorizations and the sending. *)
Definition execute (hasFormData : bool) (op : Operation) (args opts : obj) : res outcome :=
  let missingParams := getMissingParams op args in
  if has_missing missingParams then Ok (Refused (js "missing required params: " ++ to_str missingParams))
  else
    let allHeaders := getHeaderParams op args in
    let contentTypeHeaders := setContentTypes op args opts in
    let headers := assign (assign [] allHeaders) contentTypeHeaders in
    '(body, _) ← getBody hasFormData op contentTypeHeaders args opts;
    url ← urlify op args (get opts (js "maskPasswords"));
    url ← format_url url headers;
    Ok (Request (HttpRequest url (toUpperCase (Op.method op)) body headers)).

(** ** curl *)

(** A header of the command; only strings have their quotes replaced. *)
Definition curl_header (key : jsstr) (value : jsval) : jsstr :=
  let text := match value with
              | VStr s => replace_all s (js "'") (js "\u0027")
              | v => to_str v end in
  js "--header '" ++ key ++ js ": " ++ text ++ js "'".

(** A form field of the command. *)
Definition curl_field (param : param_t) (value : jsval) : res jsstr :=
  let name := Param.name param in
  if negb (truthy value) then Ok []
  else if eq_str (Param.type param) (js "file") then
    match value with
    | VHost _ n => Ok (if bool_decide (n = []) then [] else
                       js "-F " ++ name ++ js "=@" ++ [34] ++ n ++ [34] ++ js " ")
    | VObj o => Ok (if truthy (get o (js "name")) then
                      js "-F " ++ name ++ js "=@" ++ [34] ++ to_str (get o (js "name")) ++ [34] ++ js " " else [])
    | _ => Ok []
    end
  else match value with
       | VArr l =>
           if eq_str (Param.collectionFormat param) (js "multi") then
             ps ← mapM_res (fun v => k ← encodeQueryKey name;
                    Ok (js "-F " ++ k ++ js "=" ++ to_str (mask v (Param.format param)) ++ js " ")) l;
             Ok (List.concat ps)
           else
             t ← encodeQueryCollection (Param.collectionFormat param) name
                   (match mask value (Param.format param) with
                    | VStr s => (fun c => VStr [c]) <$> s
                    | v => as_arr v end) VUndef;
             Ok (js "-F " ++ t ++ js " ")
       | _ =>
           k ← encodeQueryKey name;
           Ok (js "-F " ++ k ++ js "=" ++ to_str (mask value (Param.format param)) ++ js " ")
       end.

(** The value of a form field in the body: all entries of a [FormData]. *)
Definition body_field (body : body_t) (name : jsstr) : jsval :=
  match body with
  | BForm entries => VArr (snd <$> filter (fun e => e.1 = name) entries)
  | BMulti o => get o name
  | BVal (VObj o) => get o name
  | BVal _ => VUndef
  end.

Definition body_truthy (b : body_t) : bool := match b with BVal v => truthy v | _ => true end.
Definition body_object (b : body_t) : bool := match b with BVal v => is_object v | _ => true end.

Section Curl.
(** [JSON.stringify] of a body. *)
Variable stringify : body_t -> jsstr.

Definition curl_data (op : Operation) (type : jsval) (body : body_t) : res (list jsstr) :=
  isForm ← if truthy type then s ← as_str type; Ok (startsWith s URLENCODED) else Ok false;
  isMultipart ← if truthy type && negb isForm then s ← as_str type; Ok (startsWith s (js "multipart/form-data"))
                else Ok false;
  if negb (body_truthy body) then Ok []
  else
    text ← if body_object body then
             fields ← if isMultipart then
                        fs ← mapM_res (fun param => curl_field param (body_field body (Param.name param)))
                               (filter (fun p => Param.in_ p = js "formData") (Op.parameters op));
                        Ok (List.concat fs)
                      else Ok [];
             Ok (if bool_decide (fields = []) then stringify body else fields)
           else match body with BVal v => as_str v | _ => Ok [] end;
    let text := replace_all (replace_all text (js "'") (js "%27")) [10] ([32; 92; 32; 10; 32]) in
    let text := if isForm || isMultipart then text else replace_all text (js "&") (js "%26") in
    Ok (if isMultipart then [text] else [js "-d '" ++ replace_all text (js "@") (js "%40") ++ js "'"]).

(** [asCurl], for the request [execute] gives it with the authorizations
    applied. *)
Definition asCurl (op : Operation) (r : http_request) : res jsstr :=
  data ← curl_data op (get (r_headers r) (js "Content-Type")) (r_body r);
  let results := [js "-X " ++ toUpperCase (Op.method op)] ++
    ((fun kv => curl_header kv.1 kv.2) <$> for_in (r_headers r)) ++ data in
  Ok (js "curl " ++ join (js " ") results ++ js " '" ++ r_url r ++ js "'").
End Curl.

(** ** Replacing in the path *)

(** Filling in a name neither adds a question mark nor takes one away. *)
Lemma prefix_ci_take c p : forall s,
  prefix_ci p s = true -> lower_unit c = c -> Forall (fun d => lower_unit d <> c) p -> c ∉ take (length p) s.
Proof.
  induction p as [|d p IH]; intros [|e s] H Hc Hp; cbn in *; try done; try apply not_elem_of_nil.
  apply andb_true_iff in H as [He%Z.eqb_eq H]. apply Forall_cons in Hp as [Hd Hp].
  apply not_elem_of_cons. split; [|by apply IH]. intros ->. congruence.
Qed.

Lemma in_replace_ci c e p r s : lower_unit c = c -> Forall (fun d => lower_unit d <> c) (e :: p) -> c ∉ r ->
  forall k, c ∉ take k s -> c ∈ replace_ci (e :: p) r s k <-> c ∈ s.
Proof.
  intros Hc Hp Hr. induction s as [|d s IH]; intros k Hk; [done|]. destruct k as [|k]; cbn [replace_ci].
  - destruct (prefix_ci (e :: p) (d :: s)) eqn:E.
    + apply (prefix_ci_take c) in E; [|done|done]. cbn [length take] in E. apply not_elem_of_cons in E as [Hd E].
      cbn [length]. rewrite Nat.sub_succ, Nat.sub_0_r, elem_of_app, IH, elem_of_cons by done.
      split; [intros [?|?]; [done|by right]|intros [?|?]; [done|by right]].
    + rewrite !elem_of_cons, IH; [done|]. rewrite take_0. apply not_elem_of_nil.
  - cbn [take] in Hk. apply not_elem_of_cons in Hk as [Hd Hk]. rewrite IH, elem_of_cons by done.
    split; [by right|by intros [?|?]].
Qed.

(** ** The URL of an operation *)

(** A parameter whose argument has a place in the URL: the text of the
    argument can be encoded; a path parameter has a name that is no pattern
    and is not exempt from escaping; a list in a query has elements, and a
    format that the client knows; a parameter that may be empty is no list;
    and no password is masked. *)
Definition encodable (v : jsval) : Prop := wf_utf16 (value_text v) = true.
Definition simple_param (args : obj) (mask : jsval) (p : param_t) : Prop :=
  let value := get args (Param.name p) in
  wf_utf16 (Param.name p) = true /\
  (is_undef value = false -> truthy mask && is_password_param p = false) /\
  (if bool_decide (Param.in_ p = js "path") then
     is_undef value = false -> plain_name (Param.name p) = true /\
       match value with
       | VArr l => Forall encodable l
       | _ => wf_utf16 (to_str value) = true /\ (Param.x_escape p = VUndef \/ Param.x_escape p = VBool true)
       end
   else if bool_decide (Param.in_ p = js "query") then
     if is_undef value
     then eq_true (Param.allowEmptyValue p) = true -> is_undef (Param.collectionFormat p) = true /\ eq_str (Param.type p) (js "array") = false
     else match value with
          | VArr l => if is_undef (Param.collectionFormat p) then encodable value
                      else known_format (Param.collectionFormat p) /\ l <> [] /\ Forall encodable l
          | _ => encodable value
          end
   else True).

(** The names and values that the query parameters stand for, in the order of
    the parameters: a list by its format, an empty text for a parameter that
    may be empty and is. *)
Definition param_pairs (args : obj) (p : param_t) : list (jsstr * jsstr) :=
  let value := get args (Param.name p) in
  if bool_decide (Param.in_ p = js "query") then
    if is_undef value then if eq_true (Param.allowEmptyValue p) then [(Param.name p, [])] else []
    else match value with
         | VArr l => if is_undef (Param.collectionFormat p) then [(Param.name p, value_text value)]
                     else list_pairs (Param.collectionFormat p) (Param.name p) l
         | _ => [(Param.name p, value_text value)]
         end
  else [].
Definition query_pairs (args : obj) (params : list param_t) : list (jsstr * jsstr) := List.flat_map (param_pairs args) params.

(** The escaped text of a path argument. *)
Definition path_text (p : param_t) (value : jsval) : res jsstr :=
  match value with
  | VArr l => es ← mapM_res (fun v => encodeQueryParam v VUndef) l; Ok (join (path_separator (Param.collectionFormat p)) es)
  | _ => encode_value value
  end.

(** The path with the escaped arguments in the place of their names. *)
Definition fill_path (args : obj) (params : list param_t) (path : jsstr) : jsstr :=
  foldl (fun path p =>
    let value := get args (Param.name p) in
    if bool_decide (Param.in_ p = js "path") && negb (is_undef value) then
      match path_text p value with
      | Ok e => replace_ci (js "{" ++ Param.name p ++ js "}") e path O
      | Throw _ => path
      end
    else path) path params.

(** What starts the query after a path. *)
Definition query_start (path : jsstr) : Z := if bool_decide (63 ∈ path) then 38 else 63.

(** The query text for some parts. *)
Definition query_text (path : jsstr) (parts : list jsstr) : jsstr :=
  match parts with [] => [] | _ => query_start path :: join [38] parts end.

Lemma join_app sep l m : l <> [] -> m <> [] -> join sep (l ++ m) = join sep l ++ sep ++ join sep m.
Proof.
  intros Hl Hm. destruct l as [|x l]; [done|]. clear Hl. revert x. induction l as [|y l IH]; intros x; cbn [app].
  - by apply join_cons.
  - rewrite join_cons by done. change (y :: l ++ m) with ((y :: l) ++ m). rewrite IH, (join_cons sep x) by done. by rewrite <- !(assoc_L (++)).
Qed.

Lemma has_question u : (indexOf u (js "?") <? 0) = negb (bool_decide (63 ∈ u)).
Proof.
  unfold indexOf. change (js "?") with [63]. destruct (find_str [63] u) as [n|] eqn:E.
  - apply find_char_some in E as [E _]. rewrite bool_decide_eq_true_2; [by apply Z.ltb_ge; lia|].
    rewrite E, elem_of_app, elem_of_cons. auto.
  - by apply find_char_none in E; rewrite bool_decide_eq_false_2.
Qed.

(** More parts at the end of a query. *)
Lemma add_query_text path st parts more q : querystring st = query_text path parts -> more <> [] ->
  bool_decide (63 ∈ requestUrl st) = bool_decide (63 ∈ path) ->
  add_query st (join [38] more) q = UState (requestUrl st) (query_text path (parts ++ more)) (isPassword st) q.
Proof.
  intros Hq Hm Hu. unfold add_query, query_sep. rewrite has_question, Hu, Hq. f_equal. unfold query_text, query_start.
  destruct parts as [|p parts]; cbn [app].
  - destruct more; [done|]. by destruct (bool_decide (63 ∈ path)).
  - rewrite (bool_decide_eq_false_2 (_ :: _ = [])) by done. cbn [andb].
    change (p :: parts ++ more) with ((p :: parts) ++ more). by rewrite (join_app [38]) by done.
Qed.

(** The text of a path argument is neither a pattern nor the start of a query. *)
Lemma path_text_clean p value :
  match value with VArr l => Forall encodable l | _ => wf_utf16 (to_str value) = true end ->
  exists e, path_text p value = Ok e /\ 36 ∉ e /\ 63 ∉ e.
Proof.
  assert (Hone : wf_utf16 (to_str value) = true -> exists e, encode_value value = Ok e /\ 36 ∉ e /\ 63 ∉ e).
  { intros Hv. destruct (encode_ok _ Hv) as [e E]. exists e. split; [done|]. by split; apply (encode_clean (to_str value)). }
  unfold path_text. destruct value as [| | | | |l| |]; try exact Hone. intros Hl. destruct (encoded_values l Hl) as (es & E & _ & C).
  rewrite E. eexists. split; [done|].
  assert (Hs : 36 ∉ path_separator (Param.collectionFormat p) /\ 63 ∉ path_separator (Param.collectionFormat p)).
  { unfold path_separator. repeat case_match; by split; apply (bool_decide_eq_false _). }
  split; (apply not_in_join; [apply Hs|]; apply (Forall_impl _ _ _ C); intros ? Hx; by apply Hx).
Qed.

(** What a path parameter does to the state of the loop. *)
Lemma urlify_path args mask p st :
  simple_param args mask p -> isPassword st = VUndef -> Param.in_ p = js "path" ->
  urlify_step args mask st p = Ok (UState (fill_path args [p] (requestUrl st)) (querystring st) VUndef (qp st)) /\
  (63 ∈ fill_path args [p] (requestUrl st) <-> 63 ∈ requestUrl st).
Proof.
  intros (_ & Hm & Hp) Hpw Hin. rewrite Hin in Hp. change (bool_decide (js "path" = js "path")) with true in Hp. cbn [foldl].
  unfold urlify_step, fill_path. cbn [foldl]. rewrite Hin. change (bool_decide (js "path" = js "path")) with true.
  change (bool_decide (js "path" = js "query")) with false. cbn [andb]. set (value := get args (Param.name p)) in *.
  destruct (is_undef value) eqn:Ev; cbn [negb].
  { split; [|done]. rewrite <- Hpw. by destruct st. }
  destruct (Hp eq_refl) as (Hplain & Hv). unfold urlify_given. rewrite andb_comm, Hm, Hpw, Hin by done. cbv zeta.
  change (bool_decide (js "path" = js "path")) with true.
  destruct (path_text_clean p value) as (e & Ee & Hd & Hq); [by destruct value; try apply Hv|].
  assert (Hval : (match value with
            | VArr l => encodePathCollection (Param.collectionFormat p) (Param.name p) l VUndef
            | _ => if is_undef (Param.x_escape p) || eq_true (Param.x_escape p)
                   then encodePathParam value VUndef else Ok (to_str value) end) = Ok e).
  { assert (E : match value with VArr _ => True | _ => is_undef (Param.x_escape p) || eq_true (Param.x_escape p) = true end)
      by (destruct value; try done; by destruct Hv as [_ [-> | ->]]).
    unfold path_text in Ee. destruct value; try rewrite E; exact Ee. }
  rewrite Hval, Ee. cbn [mbind res_bind requestUrl querystring qp]. unfold replace_template.
  change (js "$") with [36]. rewrite Hplain, includes_char, bool_decide_eq_false_2 by done. cbn [negb andb mbind res_bind]. split; [done|].
  change (js "{" ++ Param.name p ++ js "}") with (123 :: Param.name p ++ [125]). apply in_replace_ci; [done| |done|rewrite take_0; apply not_elem_of_nil].
  constructor; [done|]. apply Forall_app. split; [|by repeat constructor]. unfold plain_name in Hplain.
  apply andb_true_iff in Hplain as [Hplain _]. rewrite forallb_forall in Hplain. apply Forall_forall. intros d Hx Hl.
  apply list_elem_of_In, Hplain in Hx. unfold lower_unit in Hl. unfold name_unit in Hx.
  destruct ((65 <=? d) && (d <=? 90)) eqn:E; btrue; [lia|]. by subst d.
Qed.

(** What a query parameter does to it. *)
Lemma urlify_query_param args mask p path st parts :
  simple_param args mask p -> isPassword st = VUndef -> Param.in_ p = js "query" ->
  querystring st = query_text path parts -> bool_decide (63 ∈ requestUrl st) = bool_decide (63 ∈ path) ->
  exists more q, urlify_step args mask st p = Ok (UState (requestUrl st) (query_text path (parts ++ more)) VUndef q) /\
    Forall2 is_part more (param_pairs args p).
Proof.
  intros (Hname & Hm & Hp) Hpw Hin Hq Hu. rewrite Hin in Hp. change (bool_decide (js "query" = js "path")) with false in Hp.
  change (bool_decide (js "query" = js "query")) with true in Hp. unfold urlify_step, param_pairs. rewrite Hin.
  change (bool_decide (js "query" = js "query")) with true. cbn [andb]. set (value := get args (Param.name p)) in *.
  assert (Hsame : exists q, Ok st = Ok (UState (requestUrl st) (query_text path (parts ++ [])) VUndef q)).
  { exists (qp st). rewrite app_nil_r, <- Hq, <- Hpw. by destruct st. }
  assert (Hone : forall v, encodable v -> exists part, key_value (Param.name p) v VUndef = Ok part /\ is_part part (Param.name p, value_text v)).
  { intros v Hv. destruct (encode_pair_spec (Param.name p) v Hname Hv) as (r & Er & Hd & Hr). by exists r. }
  destruct (is_undef value) eqn:Ev; cbn [negb].
  - destruct (eq_true (Param.allowEmptyValue p)) eqn:Ee; [|destruct Hsame as [q ->]; by exists [], q].
    destruct (Hp eq_refl) as [Hf Ht]. unfold urlify_empty. rewrite Hf, Ht, Hpw. cbn [negb orb].
    destruct (Hone (VStr [])) as (part & -> & Hpart); [done|]. cbn [mbind res_bind]. exists [part], (qp st).
    rewrite <- Hpw. split; [f_equal; by apply (add_query_text path st parts [part])|by apply Forall2_cons_2; [|apply Forall2_nil_2]].
  - unfold urlify_given. rewrite andb_comm, Hm, Hpw, Hin by done. cbv zeta.
    change (bool_decide (js "query" = js "path")) with false. change (bool_decide (js "query" = js "query")) with true.
    assert (Hst : UState (requestUrl st) (querystring st) VUndef (qp st) = st) by (rewrite <- Hpw; by destruct st).
    rewrite Hst.
    assert (Hplain : encodable value -> exists more, (part ← key_value (Param.name p) value VUndef; Ok (add_query st part (qp st))) =
        Ok (UState (requestUrl st) (query_text path (parts ++ more)) VUndef (qp st)) /\
        (part ← key_value (Param.name p) value VUndef; Ok (add_query st part value)) =
        Ok (UState (requestUrl st) (query_text path (parts ++ more)) VUndef value) /\
        Forall2 is_part more [(Param.name p, value_text value)]).
    { intros Hv. destruct (Hone value Hv) as (part & -> & Hpart). exists [part]. rewrite <- Hpw. cbn [mbind res_bind].
      split; [|split; [|by apply Forall2_cons_2; [|apply Forall2_nil_2]]]; f_equal; by apply (add_query_text path st parts [part]). }
    destruct (is_undef (Param.collectionFormat p)) eqn:Ef; cbn [negb].
    + destruct (Hplain ltac:(by destruct value)) as (more & -> & _ & H). exists more, (qp st). by destruct value.
    + destruct value as [| | | | |l| |]; try (destruct (Hplain Hp) as (more & _ & H1 & H2); exists more; eexists; split; [exact H1|exact H2]).
      destruct Hp as (Hk & Hne & Hl). destruct (collection_parts (Param.collectionFormat p) (Param.name p) l Hname Hl Hne Hk) as (more & -> & Hmore).
      cbn [mbind res_bind]. exists more, (VArr l). rewrite <- Hpw. split; [|done]. f_equal. apply add_query_text; [done| |done].
      intros ->. apply Forall2_nil_inv_l in Hmore. destruct Hk as (t & Et & Ht). unfold list_pairs in Hmore. rewrite Et in Hmore.
      destruct l; [done|]. by repeat case_bool_decide.
Qed.

Lemma urlify_fold args mask path params : forall st parts pairs,
  Forall (simple_param args mask) params -> querystring st = query_text path parts -> Forall2 is_part parts pairs ->
  bool_decide (63 ∈ requestUrl st) = bool_decide (63 ∈ path) -> isPassword st = VUndef ->
  exists parts' q, foldM_res (urlify_step args mask) st params = Ok (UState (fill_path args params (requestUrl st)) (query_text path parts') VUndef q) /\
    Forall2 is_part parts' (pairs ++ query_pairs args params).
Proof.
  induction params as [|p params IH]; intros st parts pairs Hp Hq Hparts Hu Hpw.
  - exists parts, (qp st). rewrite app_nil_r, <- Hq, <- Hpw. by destruct st.
  - apply Forall_cons in Hp as [Hp1 Hp]. cbn [foldM_res fill_path foldl query_pairs List.flat_map].
    destruct (decide (Param.in_ p = js "path")) as [Hin|Hpath]; [|destruct (decide (Param.in_ p = js "query")) as [Hin|Hquery]].
    + destruct (urlify_path args mask p st Hp1 Hpw Hin) as (-> & Hu1). cbn [mbind res_bind].
      destruct (IH (UState (fill_path args [p] (requestUrl st)) (querystring st) VUndef (qp st)) parts pairs Hp Hq Hparts) as (parts' & q & -> & H);
        [by cbn; rewrite (bool_decide_ext _ _ Hu1)|done|]. exists parts', q. split; [done|].
      unfold param_pairs. rewrite Hin. exact H.
    + destruct (urlify_query_param args mask p path st parts Hp1 Hpw Hin Hq Hu) as (more & q & -> & Hmore). cbn [mbind res_bind].
      destruct (IH (UState (requestUrl st) (query_text path (parts ++ more)) VUndef q) (parts ++ more) (pairs ++ param_pairs args p) Hp) as (parts' & q' & -> & H);
        [done|by apply Forall2_app|done|done|]. exists parts', q'. rewrite <- (assoc_L (++)) in H. split; [|exact H].
      cbn [requestUrl]. rewrite Hin. change (bool_decide (js "query" = js "path")) with false. done.
    + assert (Hs : urlify_step args mask st p = Ok st).
      { destruct Hp1 as (_ & Hm & _). unfold urlify_step, urlify_given. rewrite (bool_decide_eq_false_2 _ Hpath), (bool_decide_eq_false_2 _ Hquery).
        destruct (is_undef _); [done|]. cbn [negb]. rewrite andb_comm, Hm by done. by destruct st. }
      rewrite Hs. cbn [mbind res_bind]. destruct (IH st parts pairs Hp Hq Hparts Hu Hpw) as (parts' & q & -> & H). exists parts', q.
      rewrite (bool_decide_eq_false_2 _ Hpath). unfold param_pairs. by rewrite (bool_decide_eq_false_2 _ Hquery).
Qed.

(** The address before the query. *)
Definition address (op : Operation) (args : obj) : jsstr :=
  Op.scheme op ++ js "://" ++ Op.host op ++
  (if bool_decide (Op.basePath op = js "/") then [] else Op.basePath op) ++
  fill_path args (Op.parameters op) (strip_fragment (Op.path op)).

(** C1. The URL of an operation whose parameters are simple: it is built
    without an exception, it is the scheme, host, base path and the path with
    the escaped path arguments, followed, when there is anything to add, by a
    question mark (an ampersand, when the path of the document has a question
    mark itself) and a query that a server decodes to exactly the names and
    values that the arguments of the query parameters stand for, in order.
    Simple: what is encoded is well-formed UTF-16, path parameters are
    escaped and have a name that is no pattern, a list has elements and a
    format the client knows, an absent parameter that may be empty is no list
    ([empty_param_repeats]), and no password is masked ([mask_is_sticky]). *)
Theorem urlify_query op args mask :
  Forall (simple_param args mask) (Op.parameters op) ->
  exists q, urlify op args mask =
      Ok (address op args ++ (if bool_decide (q = []) then [] else query_start (strip_fragment (Op.path op)) :: q)) /\
    decode_query q = Ok (query_pairs args (Op.parameters op)).
Proof.
  intros Hp. set (path := strip_fragment (Op.path op)).
  destruct (urlify_fold args mask path (Op.parameters op) (UState path [] VUndef VUndef) [] []) as (parts & q & E & H); [done..|].
  exists (join [38] parts). split; [|by apply decode_parts]. unfold urlify. fold path. rewrite E. cbn [mbind res_bind requestUrl querystring].
  f_equal. unfold address. fold path.
  assert (Eq : query_text path parts = (if bool_decide (join [38] parts = []) then [] else query_start path :: join [38] parts)).
  { destruct H as [|p kv parts kvs (_ & Hne & _) _]; [done|]. rewrite bool_decide_eq_false_2; [done|]. destruct p; [done|]. by destruct parts. }
  rewrite Eq. destruct (bool_decide (Op.basePath op = js "/")); by rewrite <- !app_assoc.
Qed.

Definition path_param (n : jsstr) : param_t := Param.Mk n (js "path") (vstr "string") VUndef (VBool true) VUndef VUndef VUndef.
Definition query_param (n : jsstr) : param_t := Param.Mk n (js "query") (vstr "string") VUndef VUndef VUndef VUndef VUndef.
Definition list_param (n : jsstr) : param_t := Param.Mk n (js "query") (vstr "array") VUndef VUndef (vstr "csv") VUndef VUndef.
Definition get_pet : Operation :=
  Op.Mk (js "getPet") [] (js "get") (js "/pets/{petId}") (js "http") (js "localhost:8080") (js "/v2")
    [js "application/json"] [js "application/json"] [path_param (js "petId"); query_param (js "q[]"); list_param (js "tags")].
Definition get_pet_args : obj := [(js "petId", vint 7); (js "q[]", vstr "a&b=c"); (js "tags", VArr [vstr "a"; vstr "b c"])].

Lemma urlify_query_witness :
  exists q, urlify get_pet get_pet_args VUndef =
      Ok (js "http://localhost:8080/v2/pets/7" ++ (if bool_decide (q = []) then [] else 63 :: q)) /\
    decode_query q = Ok [(js "q[]", js "a&b=c"); (js "tags", js "a,b c")].
Proof.
  refine (urlify_query get_pet get_pet_args VUndef _).
  repeat (apply Forall_cons; split; [split; [by vm_compute|split; [done|]]|]); [| | |apply Forall_nil_2].
  - cbv zeta. change (bool_decide (js "path" = js "path")) with true. intros _. split; [by vm_compute|]. split; [by vm_compute|by left].
  - by vm_compute.
  - split; [by exists (js "csv"); split; [|by apply (bool_decide_unpack _); vm_compute]|]. split; [done|]. by repeat constructor.
Defined.

(** ** Passwords *)

(** A password sent as a plain query parameter. *)
Definition masked_param (p : param_t) : Prop :=
  Param.in_ p = js "query" /\ is_password_param p = true /\ Param.collectionFormat p = VUndef.

Lemma urlify_given_masked p mask v1 v2 st :
  truthy mask = true -> masked_param p -> urlify_given p v1 mask st = urlify_given p v2 mask st.
Proof.
  intros Hm (Hin & Hpw & Hcf). unfold urlify_given. rewrite Hpw, Hm, Hin, Hcf. cbn [andb is_undef negb]. cbv zeta.
  change (bool_decide (js "query" = js "path")) with false. change (bool_decide (js "query" = js "query")) with true.
  cbv iota. done.
Qed.

(** C2. With passwords masked, the URL says nothing about a password that is
    a plain query parameter: whatever two values the argument has, the result
    is the same.  (Path parameters and collections are not masked: see
    [path_password_leaks].) *)
Theorem masked_password_hidden op args1 args2 mask name :
  truthy mask = true ->
  Forall (fun p => Param.name p = name -> masked_param p) (Op.parameters op) ->
  is_undef (get args1 name) = false -> is_undef (get args2 name) = false ->
  (forall k, k <> name -> get args1 k = get args2 k) ->
  urlify op args1 mask = urlify op args2 mask.
Proof.
  intros Hm Hp H1 H2 Hk. unfold urlify. f_equal.
  generalize (UState (strip_fragment (Op.path op)) [] VUndef VUndef).
  induction Hp as [|p params Hp1 _ IH]; intros st; [done|]. cbn [foldM_res].
  assert (E : urlify_step args1 mask st p = urlify_step args2 mask st p).
  { unfold urlify_step. destruct (decide (Param.name p = name)) as [En|En].
    - rewrite En, H1, H2. cbn [negb]. by apply urlify_given_masked; auto.
    - by rewrite (Hk _ En). }
  rewrite E. destruct (urlify_step args2 mask st p); [apply IH|done].
Qed.

Definition password_param (n : jsstr) : param_t :=
  Param.Mk n (js "query") (vstr "string") (vstr "password") VUndef VUndef VUndef VUndef.
Definition login : Operation :=
  Op.Mk (js "login") [] (js "get") (js "/login") (js "http") (js "localhost") (js "/") [] []
    [query_param (js "user"); password_param (js "pw")].

Lemma masked_password_hidden_witness :
  urlify login [(js "user", vstr "ann"); (js "pw", vstr "a")] (VBool true) =
  urlify login [(js "user", vstr "ann"); (js "pw", vstr "bcd")] (VBool true).
Proof.
  refine (masked_password_hidden login [(js "user", vstr "ann"); (js "pw", vstr "a")]
    [(js "user", vstr "ann"); (js "pw", vstr "bcd")] (VBool true) (js "pw") _ _ _ _ _); try by vm_compute.
  - constructor; [intros H; vm_compute in H; discriminate|]. constructor; [|constructor]. by intros _; vm_compute.
  - intros k Hk. unfold get. cbn [assoc]. destruct (bool_decide (js "user" = k)); [done|].
    by rewrite bool_decide_eq_false_2 by congruence.
Defined.

Example path_password_leaks :
  urlify (Op.Mk (js "login") [] (js "get") (js "/login/{pw}") (js "http") (js "localhost") (js "/") [] []
    [Param.Mk (js "pw") (js "path") (vstr "string") (vstr "password") VUndef VUndef VUndef VUndef])
    [(js "pw", vstr "s3cret")] (VBool true) = Ok (js "http://localhost/login/s3cret").
Proof. by vm_compute. Qed.

Lemma urlify_step_keeps_mask args mask st p st' :
  truthy (isPassword st) = true -> urlify_step args mask st p = Ok st' -> truthy (isPassword st') = true.
Proof.
  intros Hpw E. unfold urlify_step in E. destruct (negb (is_undef _)).
  - unfold urlify_given in E. cbv zeta in E. cbn [requestUrl querystring isPassword qp] in E.
    assert (Hb : truthy (if is_password_param p && truthy mask then VBool true else isPassword st) = true)
      by by destruct (is_password_param p && truthy mask).
    revert Hb E. generalize (if is_password_param p && truthy mask then VBool true else isPassword st).
    intros pw Hb E. destruct (bool_decide (Param.in_ p = js "path")).
    { apply bind_ok in E as (? & _ & E). apply bind_ok in E as (? & _ & E). by injection E as <-. }
    destruct (bool_decide (Param.in_ p = js "query")); [|by injection E as <-].
    destruct (negb (is_undef (Param.collectionFormat p))); apply bind_ok in E as (? & _ & E); by injection E as <-.
  - destruct (_ && _); [|by injection E as <-]. unfold urlify_empty in E. cbv zeta in E.
    case_match; apply bind_ok in E as (? & _ & E); by injection E as <-.
Qed.

(** Once [urlify] has met a masked password, it masks every later plain
    query argument: the flag is never cleared, so the URL carries stars in the
    place of arguments that are no passwords. *)
Theorem mask_is_sticky args mask params p st :
  truthy (isPassword st) = true ->
  Param.in_ p = js "query" -> Param.collectionFormat p = VUndef -> is_password_param p = false ->
  is_undef (get args (Param.name p)) = false ->
  forall st1, foldM_res (urlify_step args mask) st params = Ok st1 ->
  urlify_step args mask st1 p =
    (k ← encodeQueryKey (Param.name p); Ok (add_query st1 (k ++ js "=" ++ STARS) (qp st1))).
Proof.
  intros Hpw Hin Hcf Hnp Hv st1 E.
  assert (Hpw1 : truthy (isPassword st1) = true).
  { revert E. apply (foldM_res_inv (fun st => truthy (isPassword st) = true)); [|done].
    intros s x s' _. apply urlify_step_keeps_mask. }
  unfold urlify_step. rewrite Hv. unfold urlify_given. rewrite Hnp, Hin, Hcf. cbn [andb negb is_undef]. cbv zeta.
  change (bool_decide (js "query" = js "path")) with false. change (bool_decide (js "query" = js "query")) with true.
  cbv iota. cbn [isPassword requestUrl querystring qp]. unfold key_value, encodeQueryParam. rewrite Hpw1.
  destruct (encodeQueryKey (Param.name p)); [|done]. cbn [mbind res_bind]. by destruct st1.
Qed.

Lemma mask_is_sticky_witness :
  urlify_step [(js "user", vstr "ann")] (VBool true) (UState (js "/login") (js "?pw=******") (VBool true) VUndef)
    (query_param (js "user")) =
  (k ← encodeQueryKey (js "user");
   Ok (add_query (UState (js "/login") (js "?pw=******") (VBool true) VUndef) (k ++ js "=" ++ STARS) VUndef)).
Proof.
  exact (mask_is_sticky [(js "user", vstr "ann")] (VBool true) [] (query_param (js "user"))
    (UState (js "/login") (js "?pw=******") (VBool true) VUndef) eq_refl eq_refl eq_refl
    ltac:(by vm_compute) ltac:(by vm_compute) _ eq_refl).
Defined.

(** ** Missing parameters *)

(** A required parameter without an argument. *)
Definition missing (args : obj) (p : param_t) : bool :=
  eq_true (Param.required p) && is_undef (get args (Param.name p)).

Lemma getMissingParams_last op args :
  getMissingParams op args =
  match last (filter (fun p => missing args p = true) (Op.parameters op)) with
  | Some p => VStr (Param.name p)
  | None => VArr []
  end.
Proof.
  unfold getMissingParams. induction (Op.parameters op) as [|p params IH] using rev_ind; [done|].
  rewrite foldl_app, filter_app. cbn [foldl]. rewrite IH. unfold missing at 2.
  destruct (eq_true (Param.required p) && is_undef (get args (Param.name p))) eqn:E.
  - rewrite filter_cons_True, filter_nil by exact E. by rewrite last_snoc.
  - rewrite filter_cons_False, filter_nil by (unfold missing; by rewrite E). by rewrite app_nil_r.
Qed.

(** C4. [execute] refuses a call exactly when a required parameter has no
    argument, provided that parameters have names; its message names the last
    missing parameter only. *)
Theorem execute_refuses hasFormData op args opts :
  Forall (fun p => Param.name p <> []) (Op.parameters op) ->
  match last (filter (fun p => missing args p = true) (Op.parameters op)) with
  | Some p => execute hasFormData op args opts = Ok (Refused (js "missing required params: " ++ Param.name p))
  | None => forall message, execute hasFormData op args opts <> Ok (Refused message)
  end.
Proof.
  intros Hn. unfold execute. rewrite getMissingParams_last.
  destruct (last _) as [q|] eqn:El; cbn [has_missing].
  - assert (Hq : Param.name q <> []).
    { rewrite Forall_forall in Hn. apply Hn. apply last_Some_elem_of in El. by apply list_elem_of_filter in El as [_ ?]. }
    rewrite (proj2 (Z.ltb_lt 0 _)); [done|]. unfold zlength. destruct (Param.name q); [done|cbn; lia].
  - intros m E. cbv zeta in E. apply bind_ok in E as ([b h] & _ & E). apply bind_ok in E as (u & _ & E).
    by apply bind_ok in E as (u' & _ & E).
Qed.

Lemma execute_refuses_witness :
  let p := Param.Mk (js "petId") (js "path") (vstr "string") VUndef (VBool true) VUndef VUndef VUndef in
  execute true (Op.Mk (js "getPet") [] (js "get") (js "/pets/{petId}") (js "http") (js "localhost") (js "/") [] [] [p])
    [] [] = Ok (Refused (js "missing required params: " ++ js "petId")).
Proof.
  exact (execute_refuses true (Op.Mk (js "getPet") [] (js "get") (js "/pets/{petId}") (js "http") (js "localhost")
    (js "/") [] [] [Param.Mk (js "petId") (js "path") (vstr "string") VUndef (VBool true) VUndef VUndef VUndef]) [] []
    ltac:(repeat constructor; done)).
Defined.

(** ** Content types *)

Definition is_file_param (p : param_t) : bool :=
  bool_decide (Param.in_ p = js "formData") && eq_str (Param.type p) (js "file").
Definition is_form_param (p : param_t) : bool :=
  bool_decide (Param.in_ p = js "formData") && negb (eq_str (Param.type p) (js "file")).

Lemma content_fold args opts params : forall st,
  Forall (fun p => Param.in_ p <> js "body") params ->
  let st' := foldl (content_step args opts) st params in
  (0 <? definedFileParams st')%nat = (0 <? definedFileParams st)%nat || List.existsb is_file_param params /\
  (0 <? definedFormParams st')%nat = (0 <? definedFormParams st)%nat || List.existsb is_form_param params /\
  c_body st' = c_body st.
Proof.
  induction params as [|p params IH]; intros st Hp; cbv zeta; cbn [foldl List.existsb].
  - by rewrite !orb_false_r.
  - apply Forall_cons in Hp as [Hp1 Hp]. destruct (IH (content_step args opts st p) Hp) as (E1 & E2 & E3).
    cbv zeta in *. rewrite E1, E2, E3. unfold content_step, is_file_param, is_form_param.
    destruct (bool_decide (Param.in_ p = js "formData")) eqn:Ef; cbn [andb orb].
    + destruct (eq_str (Param.type p) (js "file")); cbn [definedFileParams definedFormParams c_body negb orb];
        rewrite ?orb_true_r; done.
    + rewrite (bool_decide_eq_false_2 (Param.in_ p = js "body")) by done. cbn [andb].
      by destruct (bool_decide (Param.in_ p = js "header")); [destruct (is_undef _)|].
Qed.

(** The content type of a form: a request by post, put or patch with
    form fields and no body parameter carries the content type the caller asked
    for; otherwise multipart when a field is a file, otherwise the last form
    type the operation consumes, otherwise urlencoded. *)
Theorem form_content_type op args opts :
  Op.method op ∈ [js "post"; js "put"; js "patch"] ->
  List.existsb is_form_param (Op.parameters op) = true ->
  Forall (fun p => Param.in_ p <> js "body") (Op.parameters op) ->
  get (setContentTypes op args opts) (js "Content-Type") =
  let asked := get opts (js "requestContentType") in
  if truthy asked then asked
  else if List.existsb is_file_param (Op.parameters op) then vstr "multipart/form-data"
  else match form_type (Op.consumes op) with Some t => VStr t | None => VStr URLENCODED end.
Proof.
  intros Hmethod Hform Hbody. unfold setContentTypes. cbv zeta.
  destruct (content_fold args opts (Op.parameters op) (CState O O [] VUndef) Hbody) as (E1 & E2 & E3).
  set (st := foldl (content_step args opts) (CState O O [] VUndef) (Op.parameters op)) in *. cbv zeta in *.
  rewrite E1, E2, E3. cbn [definedFileParams definedFormParams c_body Nat.ltb Nat.leb orb]. rewrite Hform.
  rewrite (bool_decide_eq_true_2 (Op.method op ∈ _)) by done. cbn [orb].
  set (asked := get opts (js "requestContentType")).
  set (consumes := if is_undef _ then _ else _).
  assert (Hc : consumes = (if truthy asked then asked
    else if List.existsb is_file_param (Op.parameters op) then vstr "multipart/form-data"
    else match form_type (Op.consumes op) with Some t => VStr t | None => VStr URLENCODED end)).
  { subst consumes. destruct (truthy asked) eqn:Ea; [by destruct asked|].
    destruct (List.existsb is_file_param (Op.parameters op)); [done|]. by destruct (form_type (Op.consumes op)). }
  assert (Ht : truthy consumes = true).
  { rewrite Hc. destruct (truthy asked) eqn:Ea; [done|].
    destruct (List.existsb is_file_param (Op.parameters op)); [done|].
    assert (Hft : forall l t, form_type l = Some t -> t <> []).
    { intros l t. unfold form_type. induction l as [|x l IH] using rev_ind; [done|]. rewrite foldl_app. cbn [foldl].
      destruct (startsWith x _ || startsWith x _) eqn:Ex; [|exact IH]. intros [= <-] ->. by vm_compute in Ex. }
    destruct (form_type (Op.consumes op)) as [t|] eqn:Eft; [|done]. apply Hft in Eft. by destruct t. }
  rewrite Ht. cbn [eq_str negb andb orb]. rewrite <- Hc.
  match goal with |- get (if ?c then _ else _) _ = _ => destruct c end; [|by rewrite get_put_eq].
  rewrite get_put_ne by (vm_compute; congruence). by rewrite get_put_eq.
Qed.

Lemma form_content_type_witness :
  let p := Param.Mk (js "f") (js "formData") (vstr "string") VUndef VUndef VUndef VUndef VUndef in
  let op := Op.Mk (js "send") [] (js "post") (js "/send") (js "http") (js "localhost") (js "/")
    [js "application/x-www-form-urlencoded"; js "multipart/form-data"] [] [p] in
  get (setContentTypes op [] []) (js "Content-Type") = vstr "multipart/form-data".
Proof.
  exact (form_content_type (Op.Mk (js "send") [] (js "post") (js "/send") (js "http") (js "localhost") (js "/")
    [js "application/x-www-form-urlencoded"; js "multipart/form-data"] []
    [Param.Mk (js "f") (js "formData") (vstr "string") VUndef VUndef VUndef VUndef VUndef]) [] []
    ltac:(by apply elem_of_cons; left) ltac:(by vm_compute) ltac:(repeat constructor; vm_compute; congruence)).
Defined.

(** An array argument leaks into a later empty parameter. *)
Example empty_param_repeats :
  let list_param n := Param.Mk (js n) (js "query") (vstr "array") VUndef VUndef (vstr "multi") (VBool true) VUndef in
  urlify (Op.Mk (js "find") [] (js "get") (js "/find") (js "http") (js "localhost") (js "/") [] []
    [list_param "a"%string; list_param "b"%string]) [(js "a", VArr [vint 1; vint 2])] VUndef =
  Ok (js "http://localhost/find?a=1&a=2&b=1&b=2").
Proof. by vm_compute. Qed.

(** A quote in an argument ends the quoted URL of the curl command. *)
Example curl_quote :
  (url ← urlify login [(js "user", vstr "a';id;'"); (js "pw", vstr "b")] (VBool true);
   asCurl (fun _ => []) login (HttpRequest url (js "GET") (BVal VUndef) [])) =
  Ok (js "curl -X GET 'http://localhost/login?user=a'%3Bid%3B'&pw=******'").
Proof. by vm_compute. Qed.
