(* ===== verification/OperationForm.v ===== *)
(** * The form of an operation

    The sandbox of [SwaggerUi.Views.OperationView] in swagger-ui.js: the inputs
    that are checked before a request, the map of arguments that is made of
    them, and the call of [Operation.execute]. The form is the list of its
    controls, in the order of the page. *)

From Stdlib Require Import String.
From S2P Require Import Prelude JsNumber JsString JsValue Uri ParamEncoding Operation.
Import Param(param_t).
Import Op(Operation).

(** What the code reads of a control: [files] are those of a file input;
    [options] are value and whether it is selected. *)
Inductive control :=
| Input (name value type : jsstr) (required : bool) (files : list jsval)
| TextArea (name value : jsstr) (required visible : bool)
| Select (name value : jsstr) (multiple required : bool) (options : list (jsstr * bool)) (selectedIndex : Z).
Definition form := list control.
Definition control_name (c : control) : jsstr :=
  match c with Input n _ _ _ _ | TextArea n _ _ _ | Select n _ _ _ _ _ => n end.

(** [form.find('input')] and so on. *)
Definition inputs (f : form) : form := List.filter (fun c => match c with Input _ _ _ _ _ => true | _ => false end) f.
Definition textareas (f : form) : form := List.filter (fun c => match c with TextArea _ _ _ _ => true | _ => false end) f.
Definition selects (f : form) : form := List.filter (fun c => match c with Select _ _ _ _ _ _ => true | _ => false end) f.

Definition blank (s : jsstr) : bool := bool_decide (trim s = []).

(** The names that get the class [error]. *)
Definition input_error (c : control) : bool :=
  match c with
  | Input _ v _ required _ => required && blank v
  | TextArea _ v required visible => required && visible && blank v
  | Select _ _ _ required _ selectedIndex => required && (selectedIndex =? -1)
  end.
Definition form_errors (f : form) : list jsstr :=
  control_name <$> List.filter input_error (inputs f ++ textareas f ++ selects f).

Section operation_form.
(** The name and the type of the parameters, as the view has them. *)
Context (parameters : list (jsstr * jsval)).

Definition getParamByName (name : jsstr) : option jsval := assoc name parameters.

(** [getTextAreaValue]: an array has a line for each element. *)
Definition array_lines (value : jsstr) : jsval :=
  match List.filter (fun line => negb (blank line)) (split value [10]) with
  | [] => VNull
  | result => VArr (VStr <$> result)
  end.
Definition getTextAreaValue (name value : jsstr) : res jsval :=
  if blank value then Ok VNull
  else
    isArray ← (match getParamByName name with
               | Some type => if truthy type then t ← as_str type; Ok (bool_decide (toLowerCase t = js "array")) else Ok false
               | None => Ok false
               end);
    Ok (if isArray : bool then array_lines value else VStr value).
Definition getSelectedValue (value : jsstr) (multiple : bool) (options : list (jsstr * bool)) : jsval :=
  if multiple then
    match List.filter snd options with [] => VNull | selected => VArr (VStr <$> selected.*1) end
  else VStr value.

Definition put_value (name : jsstr) (v : jsval) (map : obj) : obj :=
  match v with VNull => map | _ => if blank (to_str v) then map else put name v map end.
(** A control's part of [getInputMap]. *)
Definition input_entry (map : obj) (c : control) : res obj :=
  match c with
  | Input name value type _ files =>
      let map := put_value name (VStr value) map in
      Ok (if bool_decide (type = js "file") then put name (List.hd VUndef files) map else map)
  | TextArea name value _ _ => v ← getTextAreaValue name value; Ok (put_value name v map)
  | Select name value multiple _ options _ => Ok (put_value name (getSelectedValue value multiple options) map)
  end.
Definition getInputMap (f : form) : res obj := foldM_res input_entry [] (inputs f ++ textareas f ++ selects f).

Definition isFileUpload (f : form) : bool :=
  List.existsb (fun c => match c with Input _ _ type _ _ => bool_decide (type = js "file") | _ => false end) f.

(** The call of [execute]. *)
Record submission := Submission { map : obj; opts : obj }.

(** [submitOperation]: the submission, or the names in error. [editors] are the
    parameters with an enabled JSON editor and the text of its value;
    [swaggerOptions] and the two content types are the options. *)
Definition submitOperation (f : form) (editors : list (jsstr * jsstr)) (swaggerOptions : obj)
    (responseContentType requestContentType : jsval) : res (submission + list jsstr) :=
  match form_errors f with
  | [] =>
      map ← getInputMap f;
      let opts := foldl (fun o kv => put kv.1 kv.2 o) [(js "parent", VHost (js "OperationView") [])] (for_in swaggerOptions) in
      let map := foldl (fun m kv => put kv.1 (VStr kv.2) m) map editors in
      let opts := put (js "requestContentType") requestContentType (put (js "responseContentType") responseContentType opts) in
      Ok (inl (if isFileUpload f
               then Submission (put (js "parameterContentType") (vstr "multipart/form-data") map) (put (js "useJQuery") (VBool true) opts)
               else Submission map opts))
  | errors => Ok (inr errors)
  end.
End operation_form.

(** Submitting a form of an operation. *)
Definition submit_and_execute (hasFormData : bool) (op : Operation) (f : form) (editors : list (jsstr * jsstr)) (swaggerOptions : obj)
    (responseContentType requestContentType : jsval) : res (outcome + list jsstr) :=
  s ← submitOperation ((fun p => (Param.name p, Param.type p)) <$> Op.parameters op) f editors swaggerOptions responseContentType requestContentType;
  match s with
  | inl s => inl <$> execute hasFormData op (map s) (opts s)
  | inr errors => Ok (inr errors)
  end.

(** ** Blank texts *)

Lemma trim_left_spaces s : trim_left s = [] <-> Forall (fun c => is_space c = true) s.
Proof.
  induction s as [|c s IH]; [done|]. cbn [trim_left]. destruct (is_space c) eqn:E.
  - rewrite IH. split; [by constructor|by intros [_ H]%Forall_cons].
  - split; [done|]. intros [H _]%Forall_cons. congruence.
Qed.
Lemma trim_left_suffix s : exists p, s = p ++ trim_left s /\ Forall (fun c => is_space c = true) p.
Proof.
  induction s as [|c s (p & E & F)]; [by exists []|]. cbn [trim_left]. destruct (is_space c) eqn:Ec; [|by exists []].
  exists (c :: p). split; [by rewrite E at 1|by constructor].
Qed.
Lemma blank_spec s : blank s = true <-> Forall (fun c => is_space c = true) s.
Proof.
  unfold blank, trim. rewrite bool_decide_eq_true. split.
  - intros H. destruct (trim_left_suffix s) as (p & E & F). rewrite E. apply Forall_app. split; [done|].
    assert (Hr : trim_left (rev (trim_left s)) = []) by by rewrite <- (rev_involutive (trim_left (rev _))), H.
    apply trim_left_spaces in Hr. rewrite Forall_forall in *. intros c Hc. apply Hr. by rewrite <- list_elem_of_In, <- in_rev, list_elem_of_In || (apply list_elem_of_In; rewrite <- in_rev; by apply list_elem_of_In).
  - intros H. apply trim_left_spaces in H. by rewrite H.
Qed.
Lemma blank_app a b : blank (a ++ b) = blank a && blank b.
Proof. apply eq_true_iff_eq. rewrite andb_true_iff, !blank_spec. apply Forall_app. Qed.
Lemma blank_join sep l : blank (join sep l) = true -> forallb blank l = true.
Proof.
  induction l as [|x l IH]; [done|]. destruct l as [|y l]; [cbn; by rewrite andb_true_r|]. rewrite join_cons by done.
  rewrite !blank_app, !andb_true_iff. intros (H1 & _ & H2). cbn [forallb]. rewrite H1. by apply IH.
Qed.
Lemma blank_join_lines l : forallb blank l = true -> blank (join [10] l) = true.
Proof.
  induction l as [|x l IH]; [done|]. cbn [forallb]. intros [H1 H2]%andb_true_iff. destruct l as [|y l]; [done|].
  rewrite join_cons by done. by rewrite !blank_app, H1, IH.
Qed.

(** ** A form that is filled in is not refused *)

(** A control that is marked as required and that the page checks: an input, or
    a text area that is not hidden (or has a text that is not blank). A list of
    options is none: its selected option can have a blank value. *)
Definition mandatory (c : control) : Prop :=
  match c with
  | Input _ _ _ required _ => required = true
  | TextArea _ value required visible => required = true /\ (visible = true \/ blank value = false)
  | Select _ _ _ _ _ _ => False
  end.
(** No file input without a file has this name. *)
Definition file_chosen (name : jsstr) (c : control) : Prop :=
  match c with Input n _ type _ files => n = name -> type = js "file" -> is_undef (List.hd VUndef files) = false | _ => True end.

#[local] Arguments array_lines : simpl never.
Lemma lines_filled (value : jsstr) : blank value = false ->
  is_nullish (array_lines value) = false /\ blank (to_str (array_lines value)) = false.
Proof.
  intros Hb. unfold array_lines. set (lines := List.filter (fun line => negb (blank line)) (split value [10])).
  assert (Hl : lines <> []).
  { intros El. assert (Hall : forallb blank (split value [10]) = true).
    { apply forallb_forall. intros l Hl. destruct (blank l) eqn:E; [done|]. exfalso. assert (Hin : In l lines) by (apply filter_In; by rewrite E).
      by rewrite El in Hin. }
    apply blank_join_lines in Hall. rewrite join_split in Hall. congruence. }
  assert (Hf : forallb blank lines = false).
  { destruct lines as [|l ls] eqn:El; [done|]. cbn [forallb]. assert (Hin : In l lines) by (rewrite El; by left).
    apply filter_In in Hin as [_ Hin]. by apply negb_true_iff in Hin as ->. }
  destruct lines as [|l ls]; [done|]. split; [done|].
  destruct (blank (to_str (VArr (VStr <$> l :: ls)))) eqn:E; [|done]. cbn [to_str] in E. apply blank_join in E. rewrite <- Hf, <- E.
  rewrite List.map_map. cbn. f_equal. by rewrite List.map_id.
Qed.

#[local] Arguments put_value : simpl never.
Lemma put_value_get name v map k : get (put_value name v map) k =
  if bool_decide (k = name) then match v with VNull => get map k | _ => if blank (to_str v) then get map k else v end else get map k.
Proof.
  unfold put_value. destruct (bool_decide_reflect (k = name)) as [->|Hne].
  - destruct v; try done; destruct (blank _); by rewrite ?get_put_eq.
  - destruct v; try done; destruct (blank _); by rewrite ?get_put_ne.
Qed.
Lemma put_value_keeps name v map k : is_undef v = false -> is_undef (get map k) = false -> is_undef (get (put_value name v map) k) = false.
Proof. intros Hv Hk. rewrite put_value_get. case_bool_decide; [|done]. destruct v; try done; by destruct (blank _). Qed.
Lemma put_value_puts name v map : is_nullish v = false -> blank (to_str v) = false -> is_undef (get (put_value name v map) name) = false.
Proof. intros Hv Hb. rewrite put_value_get, bool_decide_eq_true_2, Hb by done. by destruct v. Qed.

Section entries.
Context (parameters : list (jsstr * jsval)).

Lemma area_value name value v : getTextAreaValue parameters name value = Ok v ->
  is_undef v = false /\ (blank value = false -> is_nullish v = false /\ blank (to_str v) = false).
Proof.
  unfold getTextAreaValue. destruct (blank value) eqn:Hb; [by intros [= <-]|]. intros H. apply bind_ok in H as (isArray & _ & [= <-]).
  destruct isArray; [|by cbn [to_str]; rewrite Hb]. destruct (lines_filled value Hb) as [Hn Hw]. split; [by destruct (array_lines value)|done].
Qed.
(** No control takes a value away but a file input without a file. *)
Lemma input_entry_keeps map c map' k : input_entry parameters map c = Ok map' -> file_chosen k c ->
  is_undef (get map k) = false -> is_undef (get map' k) = false.
Proof.
  intros H Hf Hk. destruct c as [name value type r files|name value r vis|name value m r options i]; cbn [input_entry] in H.
  - injection H as <-. pose proof (put_value_keeps name (VStr value) map k eq_refl Hk) as Hp. case_bool_decide as Ht; [|done].
    destruct (decide (name = k)) as [->|Hne]; [rewrite get_put_eq; by apply Hf|by rewrite get_put_ne].
  - apply bind_ok in H as (v & Hv & [= <-]). apply put_value_keeps; [by eapply area_value|done].
  - injection H as <-. apply put_value_keeps; [|done]. unfold getSelectedValue. destruct m; [|done]. by destruct (List.filter _ _).
Qed.
(** A control that must have a value, and has one, puts it into the map. *)
Lemma input_entry_puts map c map' : input_entry parameters map c = Ok map' -> mandatory c -> input_error c = false ->
  file_chosen (control_name c) c -> is_undef (get map' (control_name c)) = false.
Proof.
  intros H Hm He Hf. destruct c as [name value type r files|name value r vis|]; cbn [mandatory input_error control_name input_entry] in *; [| |done].
  - subst r. cbn [andb] in He. injection H as <-. case_bool_decide as Ht; [rewrite get_put_eq; by apply Hf|]. by apply put_value_puts.
  - destruct Hm as [-> Hm]. assert (Hb : blank value = false) by (destruct Hm as [->|]; done).
    apply bind_ok in H as (v & Hv & [= <-]). destruct (area_value _ _ _ Hv) as [_ Hx]. destruct (Hx Hb). by apply put_value_puts.
Qed.
Lemma input_fold_keeps cs k : forall map map', foldM_res (input_entry parameters) map cs = Ok map' -> Forall (file_chosen k) cs ->
  is_undef (get map k) = false -> is_undef (get map' k) = false.
Proof.
  induction cs as [|c cs IH]; intros map map' H Hf Hk; [by injection H as <-|]. cbn [foldM_res] in H. apply bind_ok in H as (m1 & Hm & H).
  apply Forall_cons in Hf as [Hf Hfs]. apply (IH m1); [done..|]. by eapply input_entry_keeps.
Qed.
Lemma input_fold_puts cs c : forall map map', foldM_res (input_entry parameters) map cs = Ok map' -> c ∈ cs -> mandatory c ->
  input_error c = false -> Forall (file_chosen (control_name c)) cs -> is_undef (get map' (control_name c)) = false.
Proof.
  induction cs as [|d cs IH]; intros map map' H Hc Hm He Hf; [by apply not_elem_of_nil in Hc|]. cbn [foldM_res] in H.
  apply bind_ok in H as (m1 & Hm1 & H). apply Forall_cons in Hf as [Hf Hfs]. apply elem_of_cons in Hc as [->|Hc]; [|by eapply IH].
  eapply input_fold_keeps; [done|done|]. by eapply input_entry_puts.
Qed.
End entries.

Lemma elem_kinds c f : c ∈ inputs f ++ textareas f ++ selects f <-> c ∈ f.
Proof.
  unfold inputs, textareas, selects. rewrite !elem_of_app, !list_elem_of_In, !filter_In. destruct c; intuition congruence.
Qed.

Lemma put_all_defined (l : list (jsstr * jsval)) : forall m k, Forall (fun kv => is_undef kv.2 = false) l -> is_undef (get m k) = false ->
  is_undef (get (foldl (fun m kv => put kv.1 kv.2 m) m l) k) = false.
Proof.
  induction l as [|[k' v] l IH]; intros m k Hl Hm; [done|]. apply Forall_cons in Hl as [Hv Hl]. cbn [foldl]. apply IH; [done|].
  destruct (decide (k' = k)) as [->|Hne]; [by rewrite get_put_eq|by rewrite get_put_ne].
Qed.

Lemma submitted_defined parameters f editors so rct qct s c :
  submitOperation parameters f editors so rct qct = Ok (inl s) -> c ∈ f -> mandatory c -> Forall (file_chosen (control_name c)) f ->
  is_undef (get (map s) (control_name c)) = false.
Proof.
  intros H Hc Hm Hf. unfold submitOperation in H. destruct (form_errors f) eqn:Ee; [|done]. apply bind_ok in H as (m & Em & [= Hs]).
  assert (Hi : input_error c = false).
  { destruct (input_error c) eqn:E; [|done]. exfalso. unfold form_errors in Ee. apply fmap_nil_inv in Ee.
    assert (Hin : In c (List.filter input_error (inputs f ++ textareas f ++ selects f)))
      by (apply filter_In; split; [by apply list_elem_of_In, elem_kinds|done]).
    by rewrite Ee in Hin. }
  assert (Hu : is_undef (get m (control_name c)) = false) by (eapply input_fold_puts; [exact Em|by apply elem_kinds|done|done|];
    rewrite Forall_forall in Hf |- *; intros d Hd; by apply Hf, elem_kinds).
  assert (He : is_undef (get (foldl (fun m kv => put kv.1 (VStr kv.2) m) m editors) (control_name c)) = false).
  { pose proof (put_all_defined ((fun kv => (kv.1, VStr kv.2)) <$> editors) m (control_name c)) as Hp.
    rewrite <- Hs || idtac. clear -Hp Hu. assert (E : forall es m0, foldl (fun m kv => put kv.1 (VStr kv.2) m) m0 es =
      foldl (fun m (kv : jsstr * jsval) => put kv.1 kv.2 m) m0 ((fun kv => (kv.1, VStr kv.2)) <$> es)).
    { induction es as [|e es IH]; intros m0; [done|]. cbn. by rewrite IH. }
    rewrite E. apply Hp; [|done]. apply Forall_fmap, Forall_forall. by intros. }
  rewrite <- Hs. destruct (isFileUpload f); cbn [map]; [|done].
  destruct (decide (js "parameterContentType" = control_name c)) as [<-|Hne]; [by rewrite get_put_eq|by rewrite get_put_ne].
Qed.

(** C39. A form that passes the checks of the page is not refused by the client:
    when every required parameter has an input or a text area that is marked as
    required (the text area visible, or its text not blank), and no file input
    of its name is without a file, the submission goes on to a request. *)
Theorem submitted_not_refused hasFormData op f editors so rct qct o :
  Forall (fun p => eq_true (Param.required p) = true ->
    (exists c, c ∈ f /\ control_name c = Param.name p /\ mandatory c) /\ Forall (file_chosen (Param.name p)) f) (Op.parameters op) ->
  submit_and_execute hasFormData op f editors so rct qct = Ok (inl o) -> exists r, o = Request r.
Proof.
  intros Hr H. unfold submit_and_execute in H. apply bind_ok in H as ([s|] & Es & H); [|done].
  destruct (execute hasFormData op (map s) (opts s)) as [o'|] eqn:Ex; [|done]. injection H as <-.
  unfold execute in Ex. rewrite getMissingParams_last in Ex.
  destruct (last _) as [q|] eqn:El; cbn [has_missing] in Ex.
  - exfalso. apply last_Some_elem_of in El. apply list_elem_of_filter in El as [Hm Hq]. unfold missing in Hm. apply andb_true_iff in Hm as [Hq1 Hq2].
    rewrite Forall_forall in Hr. destruct (Hr q Hq Hq1) as [(c & Hc & Hn & Hman) Hf].
    rewrite <- Hn in Hf. pose proof (submitted_defined _ _ _ _ _ _ _ c Es Hc Hman Hf) as Hdef. rewrite Hn in Hdef. congruence.
  - cbv zeta in Ex. apply bind_ok in Ex as ([b h] & _ & Ex). apply bind_ok in Ex as (u & _ & Ex). apply bind_ok in Ex as (u' & _ & [= <-]). eauto.
Qed.

Definition demo_input : form := [Input (js "petId") (js " 7 ") (js "text") true []].
Lemma submitted_not_refused_witness : exists r,
  Request (HttpRequest (js "http://h/pets/%207%20") (js "GET") (BVal VUndef) []) = Request r.
Proof.
  apply (submitted_not_refused true
    (Op.Mk (js "getPet") [] (js "get") (js "/pets/{petId}") (js "http") (js "h") (js "/") [] [] [Param.Mk (js "petId") (js "path") (vstr "string") VUndef (VBool true) VUndef VUndef VUndef])
    demo_input [] [] VUndef VUndef).
  - apply Forall_singleton. intros _. split; [eexists; split; [by left|by split]|]. by apply Forall_singleton.
  - vm_compute. reflexivity.
Defined.

(** A required list of options whose selected option is blank passes the check of
    the page and is refused by the client. *)
Example blank_option_refused :
  submit_and_execute true (Op.Mk (js "find") [] (js "get") (js "/pets") (js "http") (js "h") (js "/") [] [] [Param.Mk (js "status") (js "query") (vstr "string") VUndef (VBool true) VUndef VUndef VUndef])
    [Select (js "status") [] false true [([], true); (js "sold", false)] 0] [] [] VUndef VUndef = Ok (inl (Refused (js "missing required params: status"))).
Proof. vm_compute. reflexivity. Qed.
(** So is a required text area that is hidden and blank, and a text that an empty
    file input of the same name takes away. *)
Definition named_pets (p : param_t) : Operation := Op.Mk (js "add") [] (js "post") (js "/pets") (js "http") (js "h") (js "/") [] [] [p].
Example hidden_blank_refused :
  submit_and_execute true (named_pets (Param.Mk (js "body") (js "body") (vstr "string") VUndef (VBool true) VUndef VUndef VUndef))
    [TextArea (js "body") [] true false] [] [] VUndef VUndef = Ok (inl (Refused (js "missing required params: body"))).
Proof. vm_compute. reflexivity. Qed.
Example empty_file_overwrites :
  submit_and_execute true (named_pets (Param.Mk (js "photo") (js "formData") (vstr "string") VUndef (VBool true) VUndef VUndef VUndef))
    [Input (js "photo") (js "a.png") (js "text") true []; Input (js "photo") [] (js "file") false []] [] [] VUndef VUndef =
    Ok (inl (Refused (js "missing required params: photo"))).
Proof. vm_compute. reflexivity. Qed.
