(* ===== verification/CookieJar.v ===== *)
(** * Cookies and the cookie jar

    The [cookiejar] module bundled in swagger-ui.js, which
    [CookieAuthorization] stores its cookies in.  A jar maps a cookie name to
    its list of cookies; cookies are never changed once built, so they are
    values here.  The clock is an argument ([now], milliseconds), and
    [Date.parse] and [Date.prototype.toGMTString] are variables: [None] is the
    NaN of an unreadable date. *)

From Stdlib Require Import String.
From S2P Require Import Prelude JsNumber JsString JsValue.

(** ** Matching, splitting and the two pair patterns *)

Definition EQUALS := chr "=".
Definition SEMI := chr ";".

Fixpoint drop_equals (s : jsstr) : jsstr :=
  match s with [] => [] | c :: s' => if c =? EQUALS then drop_equals s' else s end.

(** The longest run without an equals sign at the head of a string. *)
Fixpoint span_key (s : jsstr) : jsstr * jsstr :=
  match s with
  | [] => ([], [])
  | c :: s' => if c =? EQUALS then ([], s) else let '(k, r) := span_key s' in (c :: k, r)
  end.

(** The pattern of the name and value: a non-empty run without an equals
    sign, the sign, and the rest; the two groups. *)
Definition match_pair (s : jsstr) : option (jsstr * jsstr) :=
  match span_key (drop_equals s) with
  | (k, _ :: v) => Some (k, v)
  | (_, []) => None
  end.

(** The pattern of an attribute: the same with the sign and the rest optional. *)
Definition match_attribute (s : jsstr) : option (jsstr * option jsstr) :=
  match span_key (drop_equals s) with
  | ([], _) => None
  | (k, []) => Some (k, None)
  | (k, _ :: v) => Some (k, Some v)
  end.

(** [x || y] and truthiness for a string that may be missing. *)
Definition str_truthy (s : option jsstr) : bool :=
  match s with Some (_ :: _) => true | _ => false end.
Definition str_or (s : option jsstr) (d : jsstr) : jsstr :=
  match s with Some (c :: s') => c :: s' | _ => d end.

(** [domain.replace(/^[\.]/, '')]. *)
Definition strip_dot (s : jsstr) : jsstr :=
  match s with c :: s' => if c =? chr "." then s' else s | [] => [] end.

(** ** Data *)

Inductive expiry :=
| Infinity
| At (ms : option Z).

(** [expiration_date <= now]: NaN compares as false. *)
Definition expired (e : expiry) (now : Z) : bool :=
  match e with Infinity => false | At None => false | At (Some t) => t <=? now end.

Module Cookie.
Record Cookie := Mk {
  name : option jsstr;
  value : option jsstr;
  expiration_date : expiry;
  path : jsstr;
  explicit_path : bool;
  domain : option jsstr;
  explicit_domain : bool;
  secure : bool;
  noscript : bool
}.
End Cookie.
Import Cookie(Cookie).

(** What [matches] and [collidesWith] read of their argument, which is a
    [CookieAccessInfo] or another cookie. *)
Module Access.
Record CookieAccessInfo := Mk {
  domain : option jsstr;
  path : jsstr;
  secure : bool;
  script : bool
}.
End Access.
Import Access(CookieAccessInfo).

(** [new CookieAccessInfo(domain, path, secure, script)]. *)
Definition CookieAccessInfo_new (domain path : option jsstr) (secure script : bool) : CookieAccessInfo :=
  Access.Mk (if str_truthy domain then domain else None) (str_or path (js "/")) secure script.

(** A cookie as the [access_info] of [collidesWith] (a cookie has no
    [script] property). *)
Definition access_of (c : Cookie) : CookieAccessInfo :=
  Access.Mk (Cookie.domain c) (Cookie.path c) (Cookie.secure c) false.

Section Cookies.
Variable Date_parse : jsstr -> option Z.
Variable toGMTString : option Z -> jsstr.

(** ** Parsing *)

Definition set_attribute (c : Cookie) (key : jsstr) (value : option jsstr) : Cookie :=
  if bool_decide (key = js "httponly") then
    Cookie.Mk (Cookie.name c) (Cookie.value c) (Cookie.expiration_date c) (Cookie.path c)
      (Cookie.explicit_path c) (Cookie.domain c) (Cookie.explicit_domain c) (Cookie.secure c) true
  else if bool_decide (key = js "expires") then
    Cookie.Mk (Cookie.name c) (Cookie.value c)
      (match value with Some (x :: v) => At (Date_parse (x :: v)) | _ => Infinity end) (Cookie.path c)
      (Cookie.explicit_path c) (Cookie.domain c) (Cookie.explicit_domain c) (Cookie.secure c)
      (Cookie.noscript c)
  else if bool_decide (key = js "path") then
    Cookie.Mk (Cookie.name c) (Cookie.value c) (Cookie.expiration_date c)
      (match value with Some (x :: v) => trim (x :: v) | _ => [] end)
      true (Cookie.domain c) (Cookie.explicit_domain c) (Cookie.secure c) (Cookie.noscript c)
  else if bool_decide (key = js "domain") then
    let d := match value with Some (x :: v) => trim (x :: v) | _ => [] end in
    Cookie.Mk (Cookie.name c) (Cookie.value c) (Cookie.expiration_date c) (Cookie.path c)
      (Cookie.explicit_path c) (Some d) (str_truthy (Some d)) (Cookie.secure c) (Cookie.noscript c)
  else if bool_decide (key = js "secure") then
    Cookie.Mk (Cookie.name c) (Cookie.value c) (Cookie.expiration_date c) (Cookie.path c)
      (Cookie.explicit_path c) (Cookie.domain c) (Cookie.explicit_domain c) true (Cookie.noscript c)
  else c.

(** One turn of the attribute loop. *)
Definition parse_attribute (c : Cookie) (part : jsstr) : res Cookie :=
  match match_attribute part with
  | None => Throw TypeError
  | Some (key, value) => Ok (set_attribute c (toLowerCase (trim key)) value)
  end.

(** The defaults after the attributes. *)
Definition parse_defaults (c : Cookie) (request_domain request_path : option jsstr) : Cookie :=
  Cookie.Mk (Cookie.name c) (Cookie.value c) (Cookie.expiration_date c)
    (if Cookie.explicit_path c then Cookie.path c else str_or request_path (js "/"))
    (Cookie.explicit_path c)
    (if Cookie.explicit_domain c then Cookie.domain c else request_domain)
    (Cookie.explicit_domain c) (Cookie.secure c) (Cookie.noscript c).

Definition parse (c : Cookie) (str : jsstr) (request_domain request_path : option jsstr) : res Cookie :=
  match filter (fun p => p <> []) (split str (js ";")) with
  | [] => Throw TypeError
  | part0 :: parts =>
      match match_pair part0 with
      | None => Throw TypeError
      | Some (key, value) =>
          let c := Cookie.Mk (Some key) (Some value) (Cookie.expiration_date c) (Cookie.path c)
            (Cookie.explicit_path c) (Cookie.domain c) (Cookie.explicit_domain c) (Cookie.secure c)
            (Cookie.noscript c) in
          c ← foldM_res parse_attribute c parts;
          Ok (parse_defaults c request_domain request_path)
      end
  end.

(** The argument of [Cookie] and [setCookie]: a cookie, or its text. *)
Inductive cookie_arg :=
| ACookie (c : Cookie)
| AStr (s : jsstr).

Definition cookie_blank (request_domain request_path : option jsstr) : Cookie :=
  Cookie.Mk None None Infinity (str_or request_path (js "/")) false
    (if str_truthy request_domain then request_domain else None) false false false.

(** [new Cookie(cookiestr, request_domain, request_path)]. *)
Definition Cookie_new (a : cookie_arg) (request_domain request_path : option jsstr) : res Cookie :=
  match a with
  | ACookie c => Ok c
  | AStr s =>
      let c := cookie_blank request_domain request_path in
      if bool_decide (s = []) then Ok c else parse c s request_domain request_path
  end.

(** ** Printing *)

Definition or_null (s : option jsstr) : jsstr := default (js "null") s.

Definition toValueString (c : Cookie) : jsstr :=
  or_null (Cookie.name c) ++ js "=" ++ or_null (Cookie.value c).

Definition Cookie_toString (c : Cookie) : jsstr :=
  let str := [toValueString c] in
  let str := str ++ match Cookie.expiration_date c with
                    | Infinity => []
                    | At t => [js "expires=" ++ toGMTString t] end in
  let str := str ++ match Cookie.domain c with
                    | Some (x :: d) => [js "domain=" ++ x :: d] | _ => [] end in
  let str := str ++ match Cookie.path c with
                    | x :: p => [js "path=" ++ x :: p] | [] => [] end in
  let str := str ++ (if Cookie.secure c then [js "secure"] else []) in
  let str := str ++ (if Cookie.noscript c then [js "httponly"] else []) in
  join (js "; ") str.

(** ** Matching *)

Definition collidesWith (c : Cookie) (access_info : CookieAccessInfo) : bool :=
  let path := Cookie.path c in
  if (str_truthy (Some path) && negb (str_truthy (Some (Access.path access_info)))) ||
     (str_truthy (Cookie.domain c) && negb (str_truthy (Access.domain access_info))) then false
  else if str_truthy (Some path) && negb (startsWith (Access.path access_info) path) then false
  else if Cookie.explicit_path c && negb (startsWith (Access.path access_info) path) then false
  else
    let access_domain := strip_dot <$> Access.domain access_info in
    let cookie_domain := strip_dot <$> Cookie.domain c in
    if bool_decide (cookie_domain = access_domain) then true
    else match cookie_domain with
         | Some (x :: d) =>
             if negb (Cookie.explicit_domain c) then false
             else
               let ad := default [] access_domain in
               let wildcard := indexOf ad (x :: d) in
               negb ((wildcard =? -1) || negb (wildcard =? zlength ad - zlength (x :: d)))
         | _ => true
         end.

Definition matches (c : Cookie) (access_info : CookieAccessInfo) : bool :=
  negb ((Cookie.noscript c && Access.script access_info) ||
        (Cookie.secure c && negb (Access.secure access_info)) ||
        negb (collidesWith c access_info)).

(** ** The jar *)

Definition jar := list (jsstr * list Cookie).

(** The key [cookies[cookie.name]]. *)
Definition jar_key (c : Cookie) : jsstr := or_null (Cookie.name c).

(** What [setCookie] returns: false, the cookie, or the new one-cookie list. *)
Inductive set_result :=
| SFalse
| SCookie (c : Cookie)
| SList (l : list Cookie).
Definition set_truthy (r : set_result) : bool := match r with SFalse => false | _ => true end.

(** The search for the first colliding cookie: its index. *)
Fixpoint find_colliding (l : list Cookie) (c : Cookie) : option nat :=
  match l with
  | [] => None
  | c' :: l' => if collidesWith c' (access_of c) then Some O else S <$> find_colliding l' c
  end.

Definition setCookie (cookies : jar) (cookie : cookie_arg) (request_domain request_path : option jsstr)
    (now : Z) : res (jar * set_result) :=
  c ← Cookie_new cookie request_domain request_path;
  let remove_it := expired (Cookie.expiration_date c) now in
  match assoc (jar_key c) cookies with
  | Some cookies_list =>
      match find_colliding cookies_list c with
      | Some i =>
          if remove_it then
            let l := take i cookies_list ++ drop (S i) cookies_list in
            Ok (if bool_decide (l = []) then remove (jar_key c) cookies else put (jar_key c) l cookies, SFalse)
          else Ok (put (jar_key c) (<[i := c]> cookies_list) cookies, SCookie c)
      | None =>
          if remove_it then Ok (cookies, SFalse)
          else Ok (put (jar_key c) (cookies_list ++ [c]) cookies, SCookie c)
      end
  | None =>
      if remove_it then Ok (cookies, SFalse) else Ok (put (jar_key c) [c] cookies, SList [c])
  end.

(** The loop of [getCookie] over the rest [l] of [cookies_list]; an expired
    cookie of an empty list would drop the key. *)
Fixpoint getCookie_loop (cookies : jar) (cookies_list l : list Cookie) (access_info : CookieAccessInfo)
    (now : Z) : jar * option Cookie :=
  match l with
  | [] => (cookies, None)
  | c :: l' =>
      if expired (Cookie.expiration_date c) now then
        let cookies' := if bool_decide (cookies_list = []) then remove (jar_key c) cookies else cookies in
        getCookie_loop cookies' cookies_list l' access_info now
      else if matches c access_info then (cookies, Some c)
      else getCookie_loop cookies cookies_list l' access_info now
  end.

Definition getCookie (cookies : jar) (cookie_name : jsstr) (access_info : CookieAccessInfo) (now : Z) :
    jar * option Cookie :=
  match assoc cookie_name cookies with
  | None => (cookies, None)
  | Some l => getCookie_loop cookies l l access_info now
  end.

(** [getCookies]: the names are enumerated from the jar as it was. *)
Fixpoint getCookies_loop (names : list jsstr) (cookies : jar) (access_info : CookieAccessInfo) (now : Z) :
    jar * list Cookie :=
  match names with
  | [] => (cookies, [])
  | n :: names' =>
      let '(cookies, found) := getCookie cookies n access_info now in
      let '(cookies, ms) := getCookies_loop names' cookies access_info now in
      (cookies, match found with Some c => c :: ms | None => ms end)
  end.
Definition getCookies (cookies : jar) (access_info : CookieAccessInfo) (now : Z) : jar * list Cookie :=
  getCookies_loop (for_in cookies).*1 cookies access_info now.

(** [matches.toString()] and [matches.toValueString()] of the returned list. *)
Definition matches_toString (ms : list Cookie) : jsstr := join (js ":") (Cookie_toString <$> ms).
Definition matches_toValueString (ms : list Cookie) : jsstr := join (js ";") (toValueString <$> ms).

(** ** Several cookies *)

Definition name_char (c : Z) : bool :=
  ((97 <=? c) && (c <=? 122)) || ((65 <=? c) && (c <=? 90)) || ((48 <=? c) && (c <=? 57)) ||
  (c =? chr "_") || (c =? chr "-").

Fixpoint span_name (s : jsstr) : nat * jsstr :=
  match s with
  | [] => (O, [])
  | c :: s' => if name_char c then let '(n, r) := span_name s' in (S n, r) else (O, s)
  end.

(** The look-ahead of [cookie_str_splitter]: space, a name, space, an equals
    sign. *)
Definition cookie_follows (s : jsstr) : bool :=
  match span_name (trim_left s) with
  | (O, _) => false
  | (S _, r) => match trim_left r with c :: _ => c =? EQUALS | [] => false end
  end.

(** [cookies.split(cookie_str_splitter)], [cur] the field so far, reversed. *)
Fixpoint split_cookies (s cur : jsstr) : list jsstr :=
  match s with
  | [] => [rev cur]
  | c :: s' => if (c =? chr ":") && cookie_follows s' then rev cur :: split_cookies s' []
               else split_cookies s' (c :: cur)
  end.

(** The argument of [setCookies]. *)
Inductive cookies_arg :=
| CList (l : list cookie_arg)
| CText (s : jsstr).

Definition setCookies (cookies : jar) (arg : cookies_arg) (request_domain request_path : option jsstr)
    (now : Z) : res (jar * list Cookie) :=
  let items := match arg with CList l => l | CText s => AStr <$> split_cookies s [] end in
  cs ← mapM_res (fun item => Cookie_new item request_domain request_path) items;
  foldM_res (fun '(cookies, successful) c =>
    '(cookies, r) ← setCookie cookies (ACookie c) request_domain request_path now;
    Ok (cookies, if set_truthy r then successful ++ [c] else successful)) (cookies, []) cs.
End Cookies.

(** ** Lemmas on the patterns *)

Lemma drop_equals_key k s : k <> [] -> EQUALS ∉ k -> drop_equals (k ++ s) = k ++ s.
Proof.
  destruct k as [|c k]; [done|]. intros _ Hk. apply not_elem_of_cons in Hk as [Hc _].
  cbn [drop_equals app].
  by destruct (Z.eqb_spec c EQUALS); [congruence|].
Qed.

Lemma span_key_app k r : EQUALS ∉ k -> span_key (k ++ EQUALS :: r) = (k, EQUALS :: r).
Proof.
  induction k as [|c k IH]; intros Hk; cbn [span_key app].
  - by rewrite Z.eqb_refl.
  - apply not_elem_of_cons in Hk as [Hc Hk]. destruct (Z.eqb_spec c EQUALS); [congruence|].
    by rewrite IH.
Qed.

Lemma span_key_end k : EQUALS ∉ k -> span_key k = (k, []).
Proof.
  induction k as [|c k IH]; intros Hk; [done|]. cbn [span_key].
  apply not_elem_of_cons in Hk as [Hc Hk]. destruct (Z.eqb_spec c EQUALS); [congruence|]. by rewrite IH.
Qed.

Lemma match_pair_key k v : k <> [] -> EQUALS ∉ k -> match_pair (k ++ EQUALS :: v) = Some (k, v).
Proof. intros. unfold match_pair. by rewrite drop_equals_key, span_key_app. Qed.

Lemma match_attribute_value k v :
  k <> [] -> EQUALS ∉ k -> match_attribute (k ++ EQUALS :: v) = Some (k, Some v).
Proof.
  intros Hne Hk. unfold match_attribute. rewrite drop_equals_key, span_key_app by done. by destruct k.
Qed.

Lemma match_attribute_flag k : k <> [] -> EQUALS ∉ k -> match_attribute k = Some (k, None).
Proof.
  intros Hne Hk. unfold match_attribute. rewrite <- (app_nil_r k), drop_equals_key, app_nil_r by done.
  rewrite span_key_end by done. by destruct k.
Qed.

(** [join("; ")] as a join on the semicolon. *)
Lemma join_semi_space p l :
  join (js "; ") (p :: l) = join [SEMI] (p :: ((fun q => 32 :: q) <$> l)).
Proof.
  revert p. induction l as [|q l IH]; intros p; [done|].
  rewrite join_cons, IH by done. cbn [fmap list_fmap]. rewrite (join_cons [SEMI] p) by done.
  f_equal. change (js "; ") with [SEMI; 32]. cbn [app]. f_equal.
  destruct l; cbn [fmap list_fmap]; [done|]. by rewrite !(join_cons [SEMI]) by done.
Qed.

Section Proofs.
Variable Date_parse : jsstr -> option Z.
Variable toGMTString : option Z -> jsstr.

(** ** The jar's invariant *)

Definition wf_jar (j : jar) : Prop :=
  NoDup j.*1 /\ forall n l, assoc n j = Some l -> l <> [] /\ Forall (fun c => jar_key c = n) l.

Lemma wf_jar_put j n l :
  wf_jar j -> l <> [] -> Forall (fun c => jar_key c = n) l -> wf_jar (put n l j).
Proof.
  intros [Hnd Hj] Hl Hk. split; [by apply put_nodup|]. intros m l' Hm.
  destruct (decide (n = m)) as [->|Hne].
  - rewrite assoc_put_eq in Hm. by simplify_eq.
  - rewrite assoc_put_ne in Hm by done. auto.
Qed.

Lemma wf_jar_remove j n : wf_jar j -> wf_jar (remove n j).
Proof.
  intros [Hnd Hj]. split; [by apply remove_nodup|]. intros m l' Hm.
  destruct (decide (n = m)) as [->|Hne].
  - by rewrite assoc_remove_eq in Hm.
  - rewrite assoc_remove_ne in Hm by done. auto.
Qed.

Lemma find_colliding_lt l c i : find_colliding l c = Some i -> (i < length l)%nat.
Proof.
  revert i. induction l as [|c' l IH]; intros i; cbn; [done|].
  destruct (collidesWith c' (access_of c)); [intros; simplify_eq; lia|].
  destruct (find_colliding l c); cbn; intros; simplify_eq. specialize (IH _ eq_refl). lia.
Qed.

Lemma setCookie_inv j a rd rp now j' r :
  setCookie Date_parse j a rd rp now = Ok (j', r) -> wf_jar j -> wf_jar j'.
Proof.
  unfold setCookie. intros (c & _ & E)%bind_ok Hj. cbv zeta in E.
  destruct (assoc (jar_key c) j) as [l|] eqn:El.
  - destruct (proj2 Hj _ _ El) as [Hne Hk]. destruct (find_colliding l c) as [i|] eqn:Ei.
    + destruct (expired _ _); simplify_eq.
      * case_bool_decide; [by apply wf_jar_remove|]. apply wf_jar_put; [done..|].
        apply Forall_app; auto using Forall_take, Forall_drop.
      * apply wf_jar_put; [done| |by apply Forall_insert].
        intros E%(f_equal length). apply find_colliding_lt in Ei. rewrite length_insert in E. cbn in E. lia.
    + destruct (expired _ _); simplify_eq; [done|]. apply wf_jar_put; [done|by destruct l|].
      apply Forall_app; auto.
  - destruct (expired _ _); simplify_eq; [done|]. by apply wf_jar_put; [|done|constructor].
Qed.

(** ** Reading the jar *)

(** The cookies a reader may see. *)
Definition visible (a : CookieAccessInfo) (now : Z) (c : Cookie) : bool :=
  negb (expired (Cookie.expiration_date c) now) && matches c a.

Lemma getCookie_loop_find j l0 l a now :
  l0 <> [] -> getCookie_loop j l0 l a now = (j, List.find (visible a now) l).
Proof.
  intros Hne. induction l as [|c l IH]; cbn; [done|]. unfold visible.
  rewrite bool_decide_eq_false_2 by done.
  destruct (expired _ _); cbn [negb andb]; [done|]. by destruct (matches c a).
Qed.

Lemma getCookie_find j n a now :
  wf_jar j -> getCookie j n a now = (j, l ← assoc n j; List.find (visible a now) l).
Proof.
  intros [_ Hj]. unfold getCookie. destruct (assoc n j) as [l|] eqn:E; [|done].
  apply getCookie_loop_find. by apply (Hj n).
Qed.

Lemma getCookies_loop_omap names j a now :
  wf_jar j ->
  getCookies_loop names j a now =
  (j, omap (fun n => l ← assoc n j; List.find (visible a now) l) names).
Proof.
  intros Hj. induction names as [|n names IH]; [done|]. cbn [getCookies_loop].
  rewrite getCookie_find, IH by done. cbn [omap list_omap].
  by destruct (l ← assoc n j; List.find (visible a now) l).
Qed.

(** ** What a set makes visible *)

Lemma find_insert_visible (p : Cookie -> bool) l i c :
  (i < length l)%nat -> p c = true -> exists c', List.find p (<[i := c]> l) = Some c'.
Proof.
  revert i. induction l as [|x l IH]; intros i Hi Hc; [cbn in Hi; lia|].
  destruct i as [|i]; cbn.
  - rewrite Hc. eauto.
  - destruct (p x); [eauto|]. apply IH; [cbn in Hi; lia|done].
Qed.

Lemma find_snoc_visible (p : Cookie -> bool) l c : p c = true -> exists c', List.find p (l ++ [c]) = Some c'.
Proof.
  intros Hc. induction l as [|x l IH]; cbn; [rewrite Hc; eauto|]. destruct (p x); eauto.
Qed.

Lemma setCookie_visible j c rd rp now j' r a :
  wf_jar j -> setCookie Date_parse j (ACookie c) rd rp now = Ok (j', r) ->
  visible a now c = true ->
  set_truthy r = true /\ exists c', getCookie j' (jar_key c) a now = (j', Some c').
Proof.
  intros Hj E Hv. pose proof (setCookie_inv _ _ _ _ _ _ _ E Hj) as Hj'.
  rewrite getCookie_find by done. unfold setCookie in E. cbn [Cookie_new mbind res_bind] in E.
  cbv zeta in E. pose proof Hv as Hv2. unfold visible in Hv2. apply andb_true_iff in Hv2 as [Hx _].
  apply negb_true_iff in Hx. rewrite Hx in E.
  destruct (assoc (jar_key c) j) as [l|] eqn:El.
  - destruct (find_colliding l c) as [i|] eqn:Ei; simplify_eq; rewrite assoc_put_eq; (split; [done|]); cbn.
    + destruct (find_insert_visible (visible a now) l i c) as [c' ->]; eauto using find_colliding_lt.
    + destruct (find_snoc_visible (visible a now) l c) as [c' ->]; eauto.
  - simplify_eq. rewrite assoc_put_eq. split; [done|]. cbn. rewrite Hv. eauto.
Qed.

Lemma setCookie_other j c rd rp now j' r n :
  setCookie Date_parse j (ACookie c) rd rp now = Ok (j', r) -> n <> jar_key c -> assoc n j' = assoc n j.
Proof.
  unfold setCookie. cbn [Cookie_new mbind res_bind]. cbv zeta. intros E Hn.
  repeat case_match; simplify_eq; rewrite ?assoc_put_ne, ?assoc_remove_ne by congruence; done.
Qed.
End Proofs.

(** ** Reachable jars *)

Section Reachable.
Variable Date_parse : jsstr -> option Z.

(** The jars a program can build from [new CookieJar()] by calls of its
    methods, at any times and with any arguments. *)
Inductive jar_reachable : jar -> Prop :=
| reach_new : jar_reachable []
| reach_set j a rd rp now j' r :
    jar_reachable j -> setCookie Date_parse j a rd rp now = Ok (j', r) -> jar_reachable j'
| reach_setAll j a rd rp now j' cs :
    jar_reachable j -> setCookies Date_parse j a rd rp now = Ok (j', cs) -> jar_reachable j'
| reach_get j n a now j' r :
    jar_reachable j -> getCookie j n a now = (j', r) -> jar_reachable j'
| reach_getAll j a now j' r :
    jar_reachable j -> getCookies j a now = (j', r) -> jar_reachable j'.

Lemma setCookies_inv j a rd rp now j' cs :
  setCookies Date_parse j a rd rp now = Ok (j', cs) -> wf_jar j -> wf_jar j'.
Proof.
  unfold setCookies. intros (l & _ & E)%bind_ok Hj.
  refine (foldM_res_inv (fun s => wf_jar s.1) _ _ (j, []) (j', cs) _ Hj E).
  intros [j1 ok] c s' _ H1 E1. revert E1. cbn. intros E1. apply bind_ok in E1 as ([j2 r] & E1 & [= <-]).
  exact (setCookie_inv Date_parse j1 (ACookie c) rd rp now j2 r E1 H1).
Qed.

Lemma jar_reachable_wf j : jar_reachable j -> wf_jar j.
Proof.
  induction 1 as [|j a rd rp now j' r _ IH E|j a rd rp now j' cs _ IH E|j n a now j' r _ IH E
                 |j a now j' r _ IH E].
  - split; [constructor|done].
  - by eapply setCookie_inv.
  - by eapply setCookies_inv.
  - rewrite getCookie_find in E by done. by simplify_eq.
  - unfold getCookies in E. rewrite getCookies_loop_omap in E by done. by simplify_eq.
Qed.

(** C10. In every jar built by the jar's methods each name has at most one
    entry, the entry is a non-empty list of cookies of that name, and reading
    the jar changes nothing: [getCookie] gives the first cookie of the name
    that has not expired and matches, and [getCookies] that cookie for each
    name, in enumeration order. *)
Theorem jar_contract j :
  jar_reachable j ->
  NoDup j.*1 /\
  (forall n l, assoc n j = Some l -> l <> [] /\ Forall (fun c => jar_key c = n) l) /\
  (forall n a now, getCookie j n a now = (j, l ← assoc n j; List.find (visible a now) l)) /\
  (forall a now, getCookies j a now =
     (j, omap (fun n => l ← assoc n j; List.find (visible a now) l) (for_in j).*1)).
Proof.
  intros Hj%jar_reachable_wf. split; [apply Hj|]. split; [apply Hj|].
  split; intros; [by apply getCookie_find|by apply getCookies_loop_omap].
Qed.

(** A set that has not expired is visible: after [setCookie] of a
    cookie [c], whatever cookies it collided with, a reader that [c] matches
    gets a cookie of that name, and the other names are untouched. *)
Theorem setCookie_then_get j c rd rp now j' r a :
  jar_reachable j -> setCookie Date_parse j (ACookie c) rd rp now = Ok (j', r) ->
  visible a now c = true ->
  (exists c', getCookie j' (jar_key c) a now = (j', Some c')) /\
  (forall n, n <> jar_key c -> getCookie j' n a now = (j', (getCookie j n a now).2)).
Proof.
  intros Hj E Hv. apply jar_reachable_wf in Hj.
  split; [by apply (setCookie_visible _ _ _ _ _ _ _ _ a Hj E)|].
  intros n Hn. rewrite !getCookie_find by eauto using setCookie_inv. cbn [snd].
  by rewrite (setCookie_other _ _ _ _ _ _ _ _ _ E).
Qed.
End Reachable.

(** ** Printing and parsing *)

Lemma trim_left_space s : trim_left (32 :: s) = trim_left s.
Proof. done. Qed.

(** A text that survives [split(";")] and [trim()]. *)
Definition clean (s : jsstr) : Prop := s <> [] /\ SEMI ∉ s /\ trim s = s.

Section RoundTrip.
Variable Date_parse : jsstr -> option Z.
Variable toGMTString : option Z -> jsstr.

(** The cookies whose text says everything about them. *)
Record printable (rd : option jsstr) (c : Cookie) : Prop := {
  pr_name : exists n, Cookie.name c = Some n /\ n <> [] /\ EQUALS ∉ n /\ SEMI ∉ n;
  pr_value : exists v, Cookie.value c = Some v /\ SEMI ∉ v;
  pr_expires : match Cookie.expiration_date c with
               | Infinity => True
               | At t => toGMTString t <> [] /\ SEMI ∉ toGMTString t /\ Date_parse (toGMTString t) = t
               end;
  pr_path : Cookie.explicit_path c = true /\ clean (Cookie.path c);
  pr_domain : match Cookie.domain c with
              | Some d => Cookie.explicit_domain c = true /\ clean d
              | None => Cookie.explicit_domain c = false /\ rd = None
              end
}.

Lemma parse_attribute_value c k v :
  EQUALS ∉ k -> k <> [] ->
  parse_attribute Date_parse c (k ++ EQUALS :: v) =
  Ok (set_attribute Date_parse c (toLowerCase (trim k)) (Some v)).
Proof. intros. unfold parse_attribute. by rewrite match_attribute_value. Qed.

Lemma parse_attribute_flag c k :
  EQUALS ∉ k -> k <> [] ->
  parse_attribute Date_parse c k = Ok (set_attribute Date_parse c (toLowerCase (trim k)) None).
Proof. intros. unfold parse_attribute. by rewrite match_attribute_flag. Qed.

(** Parsing a join of pieces is folding the attribute step over them. *)
Lemma parse_pieces c rd rp n v ps :
  n <> [] -> EQUALS ∉ n -> SEMI ∉ n -> SEMI ∉ v -> Forall (fun p => SEMI ∉ p) ps ->
  parse Date_parse c (join (js "; ") ((n ++ EQUALS :: v) :: ps)) rd rp =
  (c ← foldM_res (parse_attribute Date_parse)
         (Cookie.Mk (Some n) (Some v) (Cookie.expiration_date c) (Cookie.path c) (Cookie.explicit_path c)
            (Cookie.domain c) (Cookie.explicit_domain c) (Cookie.secure c) (Cookie.noscript c))
         ((fun q => 32 :: q) <$> ps);
   Ok (parse_defaults c rd rp)).
Proof.
  intros Hne Hn Hs Hv Hps. unfold parse. rewrite join_semi_space. change (js ";") with [SEMI].
  rewrite split_join; [|done|].
  - rewrite filter_cons_True by (by destruct n).
    replace (filter _ ((fun q => 32 :: q) <$> ps)) with ((fun q => 32 :: q) <$> ps).
    + by rewrite match_pair_key.
    + clear. induction ps as [|p ps IH]; [done|]. cbn [fmap list_fmap].
      rewrite filter_cons_True by done. by rewrite <- IH.
  - constructor.
    + rewrite elem_of_app, elem_of_cons. intros [?|[?|?]]; [done|done|done].
    + apply Forall_fmap. apply (Forall_impl _ _ _ Hps). intros p Hp. cbn.
      rewrite elem_of_cons. by intros [?|?].
Qed.

(** The step on each of the five attributes as [toString] prints them. *)
Section Attributes.
Variables (nm vl : option jsstr) (ex : expiry) (pa : jsstr) (xp : bool) (dm : option jsstr) (xd se no : bool).
Let c0 := Cookie.Mk nm vl ex pa xp dm xd se no.

Lemma parse_expires t :
  t <> [] -> parse_attribute Date_parse c0 (32 :: js "expires=" ++ t) =
  Ok (Cookie.Mk nm vl (At (Date_parse t)) pa xp dm xd se no).
Proof.
  intros Ht. change (32 :: js "expires=" ++ t) with (32 :: js "expires" ++ EQUALS :: t).
  change (32 :: js "expires" ++ ?s) with ((32 :: js "expires") ++ s).
  rewrite parse_attribute_value by (done || by apply not_in_lit). by destruct t.
Qed.

Lemma parse_path x t :
  trim (x :: t) = x :: t -> parse_attribute Date_parse c0 (32 :: js "path=" ++ x :: t) =
  Ok (Cookie.Mk nm vl ex (x :: t) true dm xd se no).
Proof.
  intros Ht. change (32 :: js "path=" ++ x :: t) with (32 :: js "path" ++ EQUALS :: x :: t).
  change (32 :: js "path" ++ ?s) with ((32 :: js "path") ++ s).
  rewrite parse_attribute_value by (done || by apply not_in_lit). rewrite <- Ht at 2. reflexivity.
Qed.

Lemma parse_domain x t :
  trim (x :: t) = x :: t -> parse_attribute Date_parse c0 (32 :: js "domain=" ++ x :: t) =
  Ok (Cookie.Mk nm vl ex pa xp (Some (x :: t)) true se no).
Proof.
  intros Ht. change (32 :: js "domain=" ++ x :: t) with (32 :: js "domain" ++ EQUALS :: x :: t).
  change (32 :: js "domain" ++ ?s) with ((32 :: js "domain") ++ s).
  rewrite parse_attribute_value by (done || by apply not_in_lit).
  assert (E : set_attribute Date_parse c0 (toLowerCase (trim (32 :: js "domain"))) (Some (x :: t)) =
    Cookie.Mk nm vl ex pa xp (Some (trim (x :: t))) (str_truthy (Some (trim (x :: t)))) se no) by reflexivity.
  by rewrite E, Ht.
Qed.

Lemma parse_secure : parse_attribute Date_parse c0 (32 :: js "secure") =
  Ok (Cookie.Mk nm vl ex pa xp dm xd true no).
Proof. rewrite parse_attribute_flag by (done || by apply not_in_lit). reflexivity. Qed.

Lemma parse_httponly : parse_attribute Date_parse c0 (32 :: js "httponly") =
  Ok (Cookie.Mk nm vl ex pa xp dm xd se true).
Proof. rewrite parse_attribute_flag by (done || by apply not_in_lit). reflexivity. Qed.
End Attributes.

Lemma foldM_one c p :
  foldM_res (parse_attribute Date_parse) c ((fun q => 32 :: q) <$> [p]) = parse_attribute Date_parse c (32 :: p).
Proof. cbn [fmap list_fmap foldM_res]. by destruct (parse_attribute _ c (32 :: p)). Qed.

Lemma clean_cons s : clean s -> exists x t, s = x :: t /\ SEMI ∉ (x :: t) /\ trim (x :: t) = x :: t.
Proof. destruct s as [|x t]; intros (? & ? & ?); [done|]. by exists x, t. Qed.

Lemma not_semi_lit (k : jsstr) v :
  forallb (fun x => negb (x =? SEMI)) k = true -> SEMI ∉ v -> SEMI ∉ k ++ v.
Proof. intros Hk%not_in_lit Hv. rewrite elem_of_app. by intros [?|?]. Qed.

(** The text of a cookie parses back to the cookie: name, value, expiry,
    path, domain and both flags, whatever the defaults of the request.  The
    dates need only that parsing the printed date gives the date. *)
Theorem cookie_roundtrip c rd rp :
  printable rd c ->
  Cookie_new Date_parse (AStr (Cookie_toString toGMTString c)) rd rp = Ok c.
Proof.
  intros [(n & Hn & Hne & Hneq & Hns) (v & Hv & Hvs) He [Hpx Hp] Hd].
  destruct c as [nm vl ex pa xp dm xd se no].
  cbn [Cookie.name Cookie.value Cookie.expiration_date Cookie.domain Cookie.path Cookie.secure
    Cookie.noscript Cookie.explicit_path Cookie.explicit_domain] in *. subst nm vl xp.
  apply clean_cons in Hp as (px & pt & -> & Hps & Hpt).
  unfold Cookie_toString, toValueString. cbn [Cookie.name Cookie.value Cookie.expiration_date Cookie.domain
    Cookie.path Cookie.secure Cookie.noscript or_null default].
  rewrite <- !app_assoc. change (js "=") with [EQUALS]. cbn [app]. unfold id.
  set (e := match ex with Infinity => [] | _ => _ end).
  set (d := match dm with Some _ => _ | _ => [] end).
  cbn [Cookie_new]. rewrite bool_decide_eq_false_2 by (rewrite join_semi_space; destruct n; [done|]; by destruct ((_ <$> _))).
  rewrite parse_pieces; try done.
  - subst e d. unfold cookie_blank. cbn [Cookie.expiration_date Cookie.path Cookie.explicit_path Cookie.domain
      Cookie.explicit_domain Cookie.secure Cookie.noscript].
    destruct ex as [|t]; [|destruct He as (Het & _ & Hed)];
      (destruct dm as [d|]; [destruct Hd as [-> (dx & dt & -> & _ & Hdt)%clean_cons]|destruct Hd as [-> ->]]);
      destruct se, no; cbn [app fmap list_fmap foldM_res];
      repeat (first [rewrite parse_expires by done | rewrite parse_path by done
                    | rewrite parse_domain by done | rewrite parse_secure | rewrite parse_httponly];
              cbn [mbind res_bind]); unfold parse_defaults; cbn; congruence.
  - rewrite !Forall_app, Forall_cons, Forall_app. subst e d. split; [|split; [|split; [|split]]].
    + destruct ex as [|t]; [constructor|]. destruct He as (_ & Hes & _).
      constructor; [|constructor]. by apply not_semi_lit.
    + destruct dm as [d|]; [|constructor]. destruct Hd as [_ (dx & dt & -> & Hds & _)%clean_cons].
      constructor; [|constructor]. by apply not_semi_lit.
    + by apply not_semi_lit.
    + destruct se; constructor; [|constructor]. by apply not_in_lit.
    + destruct no; constructor; [|constructor]. by apply not_in_lit.
Qed.
End RoundTrip.

(** ** Witnesses *)

Definition date_text := js "Thu, 01 Jan 2099 00:00:00 GMT".
Definition date_ms : Z := 4070908800000.
Definition parse_date (s : jsstr) : option Z := if bool_decide (s = date_text) then Some date_ms else None.
Definition print_date (t : option Z) : jsstr :=
  if bool_decide (t = Some date_ms) then date_text else js "Invalid Date".

Definition sid : Cookie :=
  Cookie.Mk (Some (js "sid")) (Some (js "a=b")) (At (Some date_ms)) (js "/api") true
    (Some (js "moonbox.io")) true true false.
Definition sid_reader : CookieAccessInfo :=
  Access.Mk (Some (js "grid.moonbox.io")) (js "/api/v1") true true.

Lemma cookie_roundtrip_witness :
  Cookie_new parse_date (AStr (Cookie_toString print_date sid)) None None = Ok sid.
Proof.
  apply (cookie_roundtrip parse_date print_date sid None None). constructor; cbn [Cookie.name sid].
  - exists (js "sid"). repeat split; try done; by apply not_in_lit.
  - exists (js "a=b"). split; [done|by apply not_in_lit].
  - cbn. repeat split; try done; by apply not_in_lit.
  - repeat split; try done; by apply not_in_lit.
  - repeat split; try done; by apply not_in_lit.
Defined.

Lemma sid_reachable : jar_reachable parse_date [(js "sid", [sid])].
Proof. apply (reach_set _ [] (ACookie sid) None None 0 _ (SList [sid])); [constructor|by vm_compute]. Qed.

Lemma jar_contract_witness :
  NoDup [(js "sid", [sid])].*1 /\
  (forall n l, assoc n [(js "sid", [sid])] = Some l -> l <> [] /\ Forall (fun c => jar_key c = n) l) /\
  (forall n a now, getCookie [(js "sid", [sid])] n a now =
     ([(js "sid", [sid])], l ← assoc n [(js "sid", [sid])]; List.find (visible a now) l)) /\
  (forall a now, getCookies [(js "sid", [sid])] a now =
     ([(js "sid", [sid])], omap (fun n => l ← assoc n [(js "sid", [sid])]; List.find (visible a now) l)
        (for_in [(js "sid", [sid])]).*1)).
Proof. exact (jar_contract parse_date [(js "sid", [sid])] sid_reachable). Defined.

Lemma setCookie_then_get_witness :
  (exists c', getCookie [(js "sid", [sid])] (js "sid") sid_reader 0 = ([(js "sid", [sid])], Some c')) /\
  (forall n, n <> js "sid" -> getCookie [(js "sid", [sid])] n sid_reader 0 =
     ([(js "sid", [sid])], (getCookie [(js "sid", [sid])] n sid_reader 0).2)).
Proof.
  exact (setCookie_then_get parse_date [(js "sid", [sid])] sid None None 0 _ (SCookie sid) sid_reader
    sid_reachable ltac:(by vm_compute) ltac:(by vm_compute)).
Defined.
