(* ===== verification/Helpers.v ===== *)
(** * Helpers

    [lib/helpers] of the client in swagger-ui.js: unwrapping nested schemas,
    local definition references, vendor extensions. *)

From Stdlib Require Import String.
From S2P Require Import Prelude JsNumber JsString JsValue.

(** [resolveSchema]: while the schema has a plain object [schema], that one;
    the nesting depth is fuel enough. *)
Fixpoint resolveSchema_fuel (n : nat) (schema : jsval) : res jsval :=
  inner ← prop schema (js "schema");
  if is_plain inner then
    match n with O => Ok schema | S n' => resolveSchema_fuel n' inner end
  else Ok schema.
Definition resolveSchema (schema : jsval) : res jsval := resolveSchema_fuel (vdepth schema) schema.

(** [simpleRef]. *)
Definition definitions_prefix := js "#/definitions/".
Definition simpleRef (name : jsval) : res jsval :=
  if is_undef name then Ok VNull
  else
    s ← as_str name;
    if startsWith s definitions_prefix
    then Ok (VStr (substring_from s (zlength definitions_prefix)))
    else Ok (VStr s).

(** [extractExtensions]: the object after the call. *)
Definition extractExtensions (keyname : jsval) (o : obj) (value : jsval) : obj :=
  match keyname with
  | VStr k =>
      if negb (bool_decide (k = [])) && startsWith k (js "x-") then
        let ext := js_orv (get o (js "vendorExtensions")) (VObj []) in
        let v := if truthy value then value else get o k in
        match ext with
        | VObj e => put (js "vendorExtensions") (VObj (put k v e)) o
        | _ => put (js "vendorExtensions") ext o
        end
      else o
  | _ => o
  end.

Definition optionHtml (label value : jsstr) : jsstr :=
  js "<tr><td class=" ++ [34] ++ js "optionName" ++ [34] ++ js ">" ++ label ++ js ":</td><td>" ++ value ++
  js "</td></tr>".

(** ** Lemmas *)

Lemma vdepth_child k v o : assoc k o = Some v -> (vdepth v < vdepth (VObj o))%nat.
Proof.
  intros H. apply assoc_some_in in H. cbn [vdepth]. apply Nat.lt_succ_r.
  induction o as [|[k' v'] o IH]; [by apply not_elem_of_nil in H|].
  cbn. apply elem_of_cons in H as [[= -> ->]|H]; [apply Nat.le_max_l|].
  etransitivity; [by apply IH|]. apply Nat.le_max_r.
Qed.

(** The fuel is enough: the result has no plain object [schema]. *)
Lemma resolveSchema_unwrapped n schema r :
  (vdepth schema <= n)%nat -> resolveSchema_fuel n schema = Ok r ->
  exists inner, prop r (js "schema") = Ok inner /\ is_plain inner = false.
Proof.
  revert schema. induction n as [|n IH]; intros schema Hn E.
  - destruct schema; cbn in Hn; try lia; cbn in E; simplify_eq; cbn; eauto.
  - cbn [resolveSchema_fuel] in E. destruct (prop schema (js "schema")) as [inner|] eqn:Ei; [|done].
    cbn [mbind res_bind] in E. destruct (is_plain inner) eqn:Ep.
    + apply (IH inner); [|done]. destruct schema as [| | | | | |o|]; cbn in Ei; simplify_eq; try done.
      unfold get in *. destruct (assoc (js "schema") o) as [v|] eqn:Ea; [|done]. simpl in Ep |- *.
      pose proof (vdepth_child _ _ _ Ea). lia.
    + simplify_eq. eauto.
Qed.

Lemma simpleRef_name s : simpleRef (VStr (definitions_prefix ++ s)) = Ok (VStr s).
Proof.
  unfold simpleRef. cbn [is_undef as_str mbind res_bind]. rewrite startsWith_app.
  by rewrite substring_from_app.
Qed.

Lemma simpleRef_other s : startsWith s definitions_prefix = false -> simpleRef (VStr s) = Ok (VStr s).
Proof. intros H. unfold simpleRef. cbn [is_undef as_str mbind res_bind]. by rewrite H. Qed.

Lemma simpleRef_not_fuel v : not_fuel (simpleRef v).
Proof. unfold simpleRef. destruct v; cbn; try done. by case_match. Qed.
