(* ===== verification/Auth.v ===== *)
(** * Authorizations

    [lib/auth] of the client in swagger-ui.js: the table of authorizations and
    how they change a request before it is sent.  The cookie authorization
    stores into the jar of [CookieJar], the password authorization encodes
    with [btoa] of [BufferText]. *)

From Stdlib Require Import String.
From S2P Require Import Prelude JsNumber JsString JsValue Base64 BufferInt BufferText CookieJar.

(** The request object: what the authorizations read and change of it. *)
Record request := Request {
  url : jsstr;
  headers : obj;
  cookieJar : option jar
}.

Definition set_url (u : jsstr) (r : request) : request := Request u (headers r) (cookieJar r).
Definition set_header (k : jsstr) (v : jsval) (r : request) : request :=
  Request (url r) (put k v (headers r)) (cookieJar r).
Definition set_jar (j : jar) (r : request) : request := Request (url r) (headers r) (Some j).

(** An authorization object: the three kinds of the module, and any other
    object with an [apply] method. *)
Inductive auth :=
| ApiKeyAuthorization (name value type : jsstr)
| CookieAuthorization (cookie : cookie_arg)
| PasswordAuthorization (username password : jsstr)
| OtherAuthorization (apply : request -> res (request * bool)).

Section Auth.
Variable typed : bool.
Variable Date_parse : jsstr -> option Z.
Variable now : Z.

(** ** The authorizations *)

Definition QUESTION := js "?".
Definition AMP := chr "&".

(** Whether a parameter of the query is called [name]: [kv[0]] of some part. *)
Definition query_has (qp name : jsstr) : bool :=
  List.existsb (fun part => bool_decide (List.hd [] (split part [EQUALS]) = name)) (split qp [AMP]).

(** The result of [apply]; [undefined] is false. *)
Definition apiKey_apply (name value type : jsstr) (r : request) : request * bool :=
  if bool_decide (type = js "query") then
    let has := indexOf (url r) QUESTION in
    if (0 <? has) && query_has (substring_from (url r) (has + 1)) name then (r, false)
    else if 0 <? has then (set_url (url r ++ js "&" ++ name ++ js "=" ++ value) r, true)
    else (set_url (url r ++ js "?" ++ name ++ js "=" ++ value) r, true)
  else if bool_decide (type = js "header") then
    (if is_undef (get (headers r) name) then set_header name (VStr value) r else r, true)
  else (r, false).

Definition cookie_apply (cookie : cookie_arg) (r : request) : res (request * bool) :=
  '(j, _) ← setCookie Date_parse (default [] (cookieJar r)) cookie None None now;
  Ok (set_jar j r, true).

Definition password_apply (username password : jsstr) (r : request) : res (request * bool) :=
  if is_undef (get (headers r) (js "Authorization")) then
    t ← btoa typed (username ++ js ":" ++ password);
    Ok (set_header (js "Authorization") (VStr (js "Basic " ++ t)) r, true)
  else Ok (r, true).

Definition auth_apply (a : auth) (r : request) : res (request * bool) :=
  match a with
  | ApiKeyAuthorization n v t => Ok (apiKey_apply n v t r)
  | CookieAuthorization c => cookie_apply c r
  | PasswordAuthorization u p => password_apply u p r
  | OtherAuthorization f => f r
  end.

(** ** The table *)

Definition authz := list (jsstr * auth).

(** [add]: an object of authorizations, or a name and one. *)
Definition add_all (t : authz) (names : authz) : authz :=
  foldl (fun t kv => put kv.1 kv.2 t) t (for_in names).
Definition add (t : authz) (name : jsstr) (a : auth) : authz := put name a t.
Definition remove_auth (t : authz) (name : jsstr) : authz := remove name t.

(** The string keys an [_.each] over a value passes: an array, a string or a
    primitive has none. *)
Definition string_keys (v : jsval) : list jsstr :=
  match v with VObj o => (for_in o).*1 | _ => [] end.
Definition each_values (v : jsval) : list jsval :=
  match v with
  | VObj o => (for_in o).*2
  | VArr l => l
  | VStr s => (fun c => VStr [c]) <$> s
  | _ => []
  end.

(** [flattenedSecurities]; the array indices among them equal no name. *)
Definition flatten_securities (securities : jsval) : list jsstr :=
  match securities with
  | VObj o => List.flat_map (fun kv => kv.1 :: string_keys kv.2) (for_in o)
  | _ => List.flat_map string_keys (each_values securities)
  end.

(** [SwaggerAuthorizations.prototype.apply]. *)
Definition apply_all (t : authz) (clientAuthorizations : option authz) (securities : jsval) (r : request) :
    res (request * bool) :=
  let applyAll := negb (truthy securities) in
  let flattened := flatten_securities securities in
  let authz := default t clientAuthorizations in
  foldM_res (fun '(r, status) '(authName, a) =>
    if applyAll || bool_decide (authName ∈ flattened) then
      '(r, newStatus) ← auth_apply a r;
      Ok (r, status && newStatus)
    else Ok (r, status)) (r, true) (for_in authz).
End Auth.

(** ** Lemmas *)

Lemma query_has_snoc qp name value :
  EQUALS ∉ name -> AMP ∉ name ->
  query_has (qp ++ AMP :: name ++ EQUALS :: value) name = true.
Proof.
  intros He Ha. unfold query_has. apply existsb_exists.
  assert (Hs : exists rest, split (name ++ EQUALS :: value) [AMP] =
    (name ++ EQUALS :: List.hd [] (split value [AMP])) :: rest).
  { pose proof (split_nonempty value [AMP]) as Hne. destruct (split value [AMP]) as [|v0 vs] eqn:Ev; [done|].
    pose proof (split_fields AMP value) as Hf. rewrite Ev in Hf. apply Forall_cons in Hf as [Hv0 _].
    pose proof (join_split AMP value) as Hj. rewrite Ev in Hj. exists vs. rewrite <- Hj.
    assert (Hn : AMP ∉ name ++ EQUALS :: v0).
    { rewrite elem_of_app, elem_of_cons. intros [?|[?|?]]; [done|done|done]. }
    destruct vs as [|v1 vs].
    - cbn [join List.hd]. by apply split_no_char.
    - rewrite join_cons by done. change ([AMP] ++ ?l) with (AMP :: l).
      replace (name ++ EQUALS :: v0 ++ AMP :: join [AMP] (v1 :: vs))
        with ((name ++ EQUALS :: v0) ++ AMP :: join [AMP] (v1 :: vs)) by by rewrite <- app_assoc.
      rewrite split_char_app by done. f_equal. apply split_join; [done|].
      pose proof (split_fields AMP value) as Hf. rewrite Ev in Hf. by apply Forall_cons in Hf as [_ Hf]. }
  destruct Hs as [rest Hs]. exists (name ++ EQUALS :: List.hd [] (split value [AMP])). split.
  - rewrite <- list_elem_of_In.
    assert (Hsplit : forall q t, split (q ++ AMP :: t) [AMP] = split q [AMP] ++ split t [AMP]).
    { intros q t. rewrite <- (join_split AMP q) at 1. pose proof (split_fields AMP q) as Hf.
      pose proof (split_nonempty q [AMP]) as Hq. induction (split q [AMP]) as [|f fs IH]; [done|].
      apply Forall_cons in Hf as [Hf1 Hf2]. destruct fs as [|g fs].
      - cbn [join]. rewrite split_char_app by done. done.
      - rewrite join_cons by done. rewrite <- app_assoc. change ([AMP] ++ ?l) with (AMP :: l).
        cbn [app]. rewrite split_char_app by done. cbn [app]. f_equal. by apply IH. }
    rewrite Hsplit, Hs. apply elem_of_app. right. by left.
  - apply bool_decide_eq_true. by rewrite split_char_app.
Qed.

Lemma query_has_first name value : EQUALS ∉ name -> AMP ∉ name -> query_has (name ++ EQUALS :: value) name = true.
Proof.
  intros He Ha. unfold query_has. pose proof (split_nonempty value [AMP]) as Hne.
  destruct (split (name ++ EQUALS :: value) [AMP]) as [|p ps] eqn:E; [by apply split_nonempty in E|].
  cbn [List.existsb]. apply orb_true_iff. left. apply bool_decide_eq_true.
  pose proof (join_split AMP (name ++ EQUALS :: value)) as Hj. rewrite E in Hj.
  pose proof (split_fields AMP (name ++ EQUALS :: value)) as Hf. rewrite E in Hf.
  apply Forall_cons in Hf as [Hp _].
  assert (Hpre : exists v', p = name ++ EQUALS :: v').
  { assert (Hpq : exists q, p ++ q = name ++ EQUALS :: value /\ (q = [] \/ exists q', q = AMP :: q')).
    { destruct ps as [|p2 ps]; [exists []; cbn in Hj; rewrite app_nil_r; auto|].
      rewrite join_cons in Hj by done. eexists. split; [exact Hj|]. right. eexists. reflexivity. }
    destruct Hpq as (q & Epq & Hq). clear -Epq Hq Ha. revert name Ha Epq.
    induction p as [|c p IH]; intros name Ha Epq.
    - destruct Hq as [->|[q' ->]]; [by destruct name|]. destruct name as [|d name]; cbn in Epq.
      + by injection Epq.
      + injection Epq as E1 _. exfalso. apply Ha. rewrite E1. by left.
    - destruct name as [|d name]; cbn in Epq.
      + injection Epq as -> _. by exists p.
      + injection Epq as -> Epq. apply not_elem_of_cons in Ha as [_ Ha].
        destruct (IH name Ha Epq) as [v' ->]. by exists v'. }
  destruct Hpre as [v' ->]. by rewrite split_char_app.
Qed.

Lemma find_str_char_app c s t n : find_str [c] s = Some n -> find_str [c] (s ++ t) = Some n.
Proof.
  intros H. pose proof (find_char_some c s n H) as [E Hn]. rewrite E, <- app_assoc. cbn [app].
  rewrite find_char_app by done. f_equal. rewrite length_take.
  assert (n < length s)%nat; [|lia]. rewrite E at 1. rewrite length_app, length_take. cbn [length].
  destruct (decide (n < length s)%nat); [lia|]. exfalso.
  assert (E2 : length s = length (take n s ++ c :: drop (S n) s)) by (by rewrite <- E).
  rewrite length_app, length_take, length_cons, length_drop in E2. lia.
Qed.

Lemma indexOf_char_bound c s n : find_str [c] s = Some n -> (n < length s)%nat.
Proof.
  intros H. pose proof (find_char_some c s n H) as [E _].
  assert (E2 : length s = length (take n s ++ c :: drop (S n) s)) by (by rewrite <- E).
  rewrite length_app, length_take, length_cons, length_drop in E2. lia.
Qed.

(** Adding a parameter makes the query have it. *)
Lemma url_has_after u n name value :
  find_str QUESTION u = Some n -> EQUALS ∉ name -> AMP ∉ name ->
  query_has (substring_from (u ++ js "&" ++ name ++ js "=" ++ value)
               (indexOf (u ++ js "&" ++ name ++ js "=" ++ value) QUESTION + 1)) name = true.
Proof.
  intros Hu He Ha. unfold indexOf. pose proof (indexOf_char_bound _ _ _ Hu) as Hb.
  change QUESTION with [63] in *. rewrite (find_str_char_app 63 u _ n Hu).
  replace (Z.of_nat n + 1) with (Z.of_nat (S n)) by lia.
  rewrite substring_drop by (rewrite length_app; lia). rewrite drop_app_le by lia.
  change (js "&" ++ name ++ js "=" ++ value) with (AMP :: name ++ EQUALS :: value). by apply query_has_snoc.
Qed.

(** An API key is put into a request at most once: a second application
    changes nothing, for a query parameter (of a URL that does not start with
    its query) it reports false, for a header true, and a header that the
    caller set is kept. *)
Theorem apiKey_once name value type r :
  EQUALS ∉ name -> AMP ∉ name -> url r <> [] -> indexOf (url r) QUESTION <> 0 ->
  let r1 := (apiKey_apply name value type r).1 in
  apiKey_apply name value type r1 =
    (r1, if bool_decide (type = js "query") then false else bool_decide (type = js "header")) /\
  (type = js "header" -> get (headers r1) name =
     if is_undef (get (headers r) name) then VStr value else get (headers r) name).
Proof.
  intros He Ha Hu Hq. cbv zeta. split.
  - unfold apiKey_apply. destruct (decide (type = js "query")) as [->|Hnq].
    + rewrite !bool_decide_eq_true_2 by done. cbv zeta.
      destruct ((0 <? indexOf (url r) QUESTION) && query_has _ name) eqn:E1; cbn [fst].
      { by rewrite E1. }
      destruct (Z.ltb_spec 0 (indexOf (url r) QUESTION)) as [Hpos|Hneg]; cbn [fst url set_url].
      * assert (Hn : exists n, find_str QUESTION (url r) = Some n).
        { unfold indexOf in Hpos. destruct (find_str QUESTION (url r)); [eauto|lia]. }
        destruct Hn as [n Hn]. rewrite (url_has_after _ n) by done.
        rewrite (proj2 (Z.ltb_lt _ _)); [done|]. unfold indexOf in *. change QUESTION with [63] in *.
        rewrite (find_str_char_app _ _ _ n Hn). rewrite Hn in Hpos. lia.
      * assert (Hn : find_str [63] (url r) = None).
        { unfold indexOf in *. change QUESTION with [63] in *. destruct (find_str [63] (url r)); [lia|done]. }
        apply find_char_none in Hn. unfold indexOf.
        change QUESTION with [63]. change (js "?" ++ name ++ js "=" ++ value) with (63 :: name ++ EQUALS :: value).
        rewrite find_char_app by done.
        replace (Z.of_nat (length (url r)) + 1) with (Z.of_nat (S (length (url r)))) by lia.
        rewrite substring_drop by (rewrite length_app; cbn [length]; lia).
        rewrite (drop_app_ge (url r)) by lia.
        replace (S (length (url r)) - length (url r))%nat with 1%nat by lia.
        change (drop 1 (63 :: name ++ EQUALS :: value)) with (name ++ EQUALS :: value).
        rewrite query_has_first by done. rewrite (proj2 (Z.ltb_lt 0 _)); [done|]. destruct (url r); [done|cbn; lia].
    + rewrite !(bool_decide_eq_false_2 (type = js "query")) by done.
      destruct (decide (type = js "header")) as [->|Hnh].
      * rewrite !bool_decide_eq_true_2 by done. cbn [fst]. f_equal.
        destruct (is_undef (get (headers r) name)) eqn:E; cbn [headers set_header]; [|by rewrite E].
        by rewrite get_put_eq.
      * by rewrite !bool_decide_eq_false_2.
  - intros ->. unfold apiKey_apply. change (bool_decide (js "header" = js "query")) with false.
    rewrite bool_decide_eq_true_2 by done. cbn [fst].
    destruct (is_undef (get (headers r) name)) eqn:E; cbn [headers set_header]; [|done]. by rewrite get_put_eq.
Qed.

Lemma apiKey_once_witness :
  let r := Request (js "/api?x=1") [] None in
  let r1 := (apiKey_apply (js "api_key") (js "s3cret") (js "query") r).1 in
  apiKey_apply (js "api_key") (js "s3cret") (js "query") r1 = (r1, false) /\
  (js "query" = js "header" -> get (headers r1) (js "api_key") = VStr (js "s3cret")).
Proof.
  exact (apiKey_once (js "api_key") (js "s3cret") (js "query") (Request (js "/api?x=1") [] None)
    ltac:(by apply not_in_lit) ltac:(by apply not_in_lit) ltac:(done) ltac:(by vm_compute)).
Defined.

(** Basic authorization: when the caller set no Authorization header,
    the request gets the header "Basic " and a text whose base64 decoding is
    exactly the bytes of [username:password]; a header that was set is kept. *)
Theorem basic_auth_decodes typed username password r :
  Forall is_byte username -> Forall is_byte password -> zlength (username ++ js ":" ++ password) < 2 ^ 31 ->
  exists r', password_apply typed username password r = Ok (r', true) /\
    if is_undef (get (headers r) (js "Authorization"))
    then exists t, get (headers r') (js "Authorization") = VStr (js "Basic " ++ t) /\
         b64ToByteArray t = Ok (username ++ js ":" ++ password)
    else r' = r.
Proof.
  intros Hu Hp Hl. unfold password_apply. destruct (is_undef _); [|by exists r].
  set (str := username ++ js ":" ++ password) in *.
  assert (Hb : Forall is_byte str).
  { unfold str. rewrite !Forall_app. split; [done|]. split; [|done]. repeat constructor; done. }
  destruct (text_roundtrip_binary typed str Hb Hl) as (Hfrom & Hto).
  unfold btoa. rewrite Hfrom. cbn [mbind res_bind]. rewrite Hto. cbn [mbind res_bind].
  eexists. split; [done|]. cbn [headers set_header]. rewrite get_put_eq. eexists. split; [done|].
  by destruct (base64_roundtrip_len str Hb) as [-> _].
Qed.

Lemma basic_auth_decodes_witness :
  exists r', password_apply true (js "Aladdin") (js "open sesame") (Request (js "/") [] None) = Ok (r', true) /\
    exists t, get (headers r') (js "Authorization") = VStr (js "Basic " ++ t) /\
      b64ToByteArray t = Ok (js "Aladdin" ++ js ":" ++ js "open sesame").
Proof.
  exact (basic_auth_decodes true (js "Aladdin") (js "open sesame") (Request (js "/") [] None)
    ltac:(repeat constructor; done) ltac:(repeat constructor; done) ltac:(done)).
Defined.

(** The names a security requirement of a document can give: the keys of the
    requirement objects, in a list or, for an object, under its keys, which
    are names themselves. *)
Definition names_auth (securities : jsval) (n : jsstr) : Prop :=
  match securities with
  | VArr l => exists o, VObj o ∈ l /\ n ∈ o.*1
  | VObj o => exists k v, (k, v) ∈ o /\ (n = k \/ exists p, v = VObj p /\ n ∈ p.*1)
  | _ => False
  end.

(** Some authorizations in turn, each on the request the one before left. *)
Fixpoint in_turn (typed : bool) (Date_parse : jsstr -> option Z) (now : Z) (l : list auth) (r : request) : res (request * bool) :=
  match l with
  | [] => Ok (r, true)
  | a :: l =>
      '(r, applied) ← auth_apply typed Date_parse now a r;
      '(r, rest) ← in_turn typed Date_parse now l r;
      Ok (r, applied && rest)
  end.

Lemma string_keys_elem v n : n ∈ string_keys v <-> exists o, v = VObj o /\ n ∈ o.*1.
Proof.
  destruct v as [ | | | | | |o|]; cbn [string_keys]; try (split; [by intros ?%not_elem_of_nil|by intros (? & ? & _)]).
  rewrite fst_in_lookup. setoid_rewrite for_in_elem. rewrite <- fst_in_lookup. split; [eauto|]. by intros (? & [= ->] & ?).
Qed.

Lemma flatten_names securities n : n ∈ flatten_securities securities <-> names_auth securities n.
Proof.
  unfold flatten_securities, names_auth, each_values. destruct securities as [ | | | |s|l|o|];
    try (split; [by intros ?%not_elem_of_nil|done]).
  - split; [|done]. induction s as [|c s IH]; [by intros ?%not_elem_of_nil|exact IH].
  - rewrite list_elem_of_In, in_flat_map. setoid_rewrite <- list_elem_of_In. setoid_rewrite string_keys_elem.
    split; [by intros (? & ? & o & -> & ?); eauto|]. intros (o & ? & ?). eauto.
  - rewrite list_elem_of_In, in_flat_map. setoid_rewrite <- list_elem_of_In. setoid_rewrite for_in_elem.
    setoid_rewrite elem_of_cons. setoid_rewrite string_keys_elem. split.
    + intros ([k v] & ? & [->|H]); eauto 10.
    + intros (k & v & ? & H). exists (k, v). auto.
Qed.

(** C5. The authorizations that change a request are the ones of the table
    (the client's own, if it has one) whose name a security requirement
    gives, or all when there are no requirements, each once, in the order of
    the table, each on the request the one before left; the status tells
    whether all reported true.  A requirement is the key of an object; a list
    of bare strings gives no name. *)
Theorem required_applied typed Date_parse now t client securities r :
  apply_all typed Date_parse now t client securities r =
    in_turn typed Date_parse now
      (filter (fun kv => truthy securities = false \/ kv.1 ∈ flatten_securities securities) (for_in (default t client))).*2 r /\
  (forall n, n ∈ flatten_securities securities <-> names_auth securities n) /\
  (forall l, flatten_securities (VArr (VStr <$> l)) = []).
Proof.
  split; [|split; [by intros n; apply flatten_names|intros l; induction l; done]]. unfold apply_all.
  assert (H : forall l r b, foldM_res (fun '(r, status) '(authName, a) =>
      if negb (truthy securities) || bool_decide (authName ∈ flatten_securities securities) then
        '(r, newStatus) ← auth_apply typed Date_parse now a r; Ok (r, status && newStatus)
      else Ok (r, status)) (r, b) l =
    '(r, applied) ← in_turn typed Date_parse now
      (filter (fun kv => truthy securities = false \/ kv.1 ∈ flatten_securities securities) l).*2 r; Ok (r, b && applied)).
  { induction l as [|[n a] l IH]; intros q b; [cbn; by rewrite andb_true_r|]. cbn [foldM_res].
    destruct (decide (truthy securities = false \/ n ∈ flatten_securities securities)) as [Hd|Hd].
    - rewrite filter_cons_True by done. replace (negb (truthy securities) || bool_decide (n ∈ flatten_securities securities)) with true
        by (destruct Hd as [->|Hd]; [done|by rewrite (bool_decide_eq_true_2 _ Hd), orb_true_r]).
      cbn [fmap list_fmap in_turn snd]. destruct (auth_apply typed Date_parse now a q) as [[q' b']|]; cbn [mbind res_bind]; [|done].
      rewrite IH. destruct (in_turn _ _ _ _ q') as [[q2 b2]|]; cbn [mbind res_bind]; [by rewrite andb_assoc|done].
    - rewrite filter_cons_False by done. apply Decidable.not_or in Hd as [Ht%not_false_is_true Hn].
      replace (negb (truthy securities) || bool_decide (n ∈ flatten_securities securities)) with false
        by (by rewrite Ht, (bool_decide_eq_false_2 _ Hn)). cbn [mbind res_bind]. apply IH. }
  rewrite H. by destruct (in_turn _ _ _ _ r) as [[? ?]|].
Qed.

(** Of two authorizations, the one that is required. *)
Example one_required :
  apply_all true (fun _ => None) 0 [(js "a", ApiKeyAuthorization (js "k") (js "v") (js "header")); (js "b", ApiKeyAuthorization (js "q") (js "w") (js "query"))]
    None (VArr [VObj [(js "b", VArr [])]]) (Request (js "/pets") [] None) = Ok (Request (js "/pets?q=w") [] None, true).
Proof. reflexivity. Qed.
