(* ===== verification/OperationInit.v ===== *)
(** * Building operations

    The parts of the [Operation] constructor of swagger-ui.js and the
    functions it calls: types of parameters, inline models, enumerations,
    defaults.  Specification objects are JavaScript values.  A model is the name
    and schema the [Model] constructor was given. *)

From Stdlib Require Import String.
From S2P Require Import Prelude JsNumber JsString JsValue Helpers Operation.

(** ** Normalising *)

(** [this.basePath] without its final slash. *)
Definition normalize_basePath (parent_basePath : jsval) : res jsstr :=
  s ← as_str (js_orv parent_basePath (vstr "/"));
  Ok (if negb (bool_decide (s = js "/")) && bool_decide (slice_from s (-1) = js "/")
      then slice_list s 0 (-1) else s).

(** [this.deprecated]: the words for true and false, and the truth value of
    any other text. *)
Definition normalize_deprecated (deprecated : jsval) : jsval :=
  match deprecated with
  | VStr s =>
      let w := toLowerCase s in
      if bool_decide (w ∈ [js "true"; js "yes"; js "1"]) then VBool true
      else if bool_decide (w ∈ [js "false"; js "no"; js "0"]) then VBool false
      else VBool (truthy deprecated)
  | _ => deprecated
  end.

(** The response whose schema is the type of the operation. *)
Definition response_codes : list jsstr :=
  [js "200"; js "201"; js "202"; js "203"; js "204"; js "205"; js "206"; js "default"].
Definition default_response (responses : obj) : option jsstr :=
  List.find (fun code => truthy (get responses code)) response_codes.

(** ** Models *)

Record model := Model { m_name : jsval; m_definition : jsval }.

(** [resolveModel]. *)
Definition resolveModel (schema : jsval) (definitions : obj) : res (option model) :=
  ref ← prop schema (js "$ref");
  if negb (is_undef ref) then
    r ← as_str ref;
    let r := if startsWith r definitions_prefix then substring_from r (zlength definitions_prefix) else r in
    Ok (if truthy (get definitions r) then Some (Model (VStr r) (get definitions r)) else None)
  else
    type ← prop schema (js "type");
    Ok (if truthy schema && typeof_object schema && (eq_str type (js "object") || is_undef type)
        then Some (Model VUndef schema) else None).

Definition inline_prefix := js "Inline Model ".

(** [addInlineModel]: the models afterwards, and the name or null. *)
Definition addInlineModel (inlineModels : list model) (schema : jsval) : res (list model * jsval) :=
  m ← resolveModel schema [];
  match m with
  | Some m => Ok (inlineModels ++ [m], VStr (inline_prefix ++ Z_to_str (Z.of_nat (length inlineModels))))
  | None => Ok (inlineModels, VNull)
  end.

(** The value of a run of decimal digits. *)
Definition decimal (s : jsstr) : option Z :=
  match s with [] => None | _ => dec_value 0 s end.

(** [getInlineModel]: the model of a name [Inline Model <n>]. *)
Definition getInlineModel (inlineModels : list model) (inlineStr : jsstr) : option model :=
  if startsWith inlineStr inline_prefix then
    match decimal (drop (length inline_prefix) inlineStr) with
    | Some id => inlineModels !! Z.to_nat id
    | None => None
    end
  else None.

(** ** Types *)

(** The name of a primitive type, when the type is known. *)
Definition primitive_type (type format : jsval) : jsval :=
  if eq_str type (js "integer") then
    if eq_str format (js "int32") then vstr "integer"
    else if eq_str format (js "int64") then vstr "long" else vstr "integer"
  else if eq_str type (js "string") then
    if eq_str format (js "date-time") then vstr "date-time"
    else if eq_str format (js "date") then vstr "date" else vstr "string"
  else if eq_str type (js "number") then
    if eq_str format (js "float") then vstr "float" else vstr "double"
  else if eq_str type (js "boolean") then vstr "boolean"
  else if eq_str type (js "file") then vstr "file"
  else VUndef.

(** [getType]: the inline models afterwards, and the name, the list of a name,
    or null.  The fuel is the nesting of the parameter. *)
Fixpoint getType_fuel (n : nat) (inlineModels : list model) (param : jsval) : res (list model * jsval) :=
  match n with
  | O => Throw Unsupported
  | S n' =>
      type ← prop param (js "type");
      format ← prop param (js "format");
      items ← prop param (js "items");
      ref0 ← prop param (js "$ref");
      schema ← prop param (js "schema");
      let isArray := eq_str type (js "array") in
      '(inlineModels, str) ← (if isArray then
                                if truthy items then getType_fuel n' inlineModels items
                                else Ok (inlineModels, VUndef)
                              else Ok (inlineModels, primitive_type type format));
      str ← if truthy ref0 then simpleRef ref0 else Ok str;
      let wrap v := if isArray then VArr [v] else v in
      if truthy schema then
        ref ← prop schema (js "$ref");
        if truthy ref then r ← simpleRef ref; Ok (inlineModels, wrap r)
        else
          stype ← prop schema (js "type");
          if eq_str stype (js "object") then addInlineModel inlineModels schema
          else getType_fuel n' inlineModels schema
      else Ok (inlineModels, wrap str)
  end.
Definition getType (inlineModels : list model) (param : jsval) : res (list model * jsval) :=
  getType_fuel (S (vdepth param)) inlineModels param.

(** ** Enumerations and defaults *)

(** [isDefaultArrayItemValue]. *)
Definition isDefaultArrayItemValue (value default : jsval) : bool :=
  match default with
  | VArr l => List.existsb (strict_eq value) l
  | _ => strict_eq value default
  end.

(** [param.allowableValues] of an enumeration: the values, and for each its
    text and whether it is the default. *)
Definition allowableValues (enumValues : list jsval) (default : jsval) : obj :=
  [(js "values", VArr enumValues);
   (js "descriptiveValues", VArr ((fun value =>
      VObj [(js "value", VStr (to_str value));
            (js "isDefault", VBool (strict_eq value default || strict_eq (VStr (to_str value)) default))])
      <$> enumValues))].

(** The default of a parameter after [x-example] and [x-examples]. *)
Definition example_default (param : obj) (macro_default : jsval) : res jsval :=
  let d := if is_undef (get param (js "x-example")) then macro_default else get param (js "x-example") in
  if truthy (get param (js "x-examples")) then
    e ← prop (get param (js "x-examples")) (js "default");
    Ok (if is_undef e then d else e)
  else Ok d.

(** [help]: one line for the operation and one for each parameter. *)
Definition help (nickname summary : jsstr) (params : list (jsstr * jsval * jsval)) : jsstr :=
  foldl (fun out '(name, signature, description) =>
    out ++ [10] ++ js "  * " ++ name ++ js " (" ++ to_str signature ++ js "): " ++ to_str description)
    (nickname ++ js ": " ++ summary ++ [10]) params.

(** [getModelSignature], with [signature] for the mock signature of a model. *)
Definition getModelSignature (signature : model -> jsstr) (inlineModels : list model)
    (definitions : list (jsstr * model)) (type : jsval) : jsstr :=
  let '(listType, type) := match type with VArr l => (true, List.hd VUndef l) | _ => (false, type) end in
  let found := match type with
               | VUndef => None
               | _ => match assoc (to_str type) definitions with
                      | Some m => Some m
                      | None => getInlineModel inlineModels (to_str type)
                      end
               end in
  let text := match found with Some m => signature m | None => to_str type end in
  if listType then js "Array[" ++ text ++ js "]" else text.

(** ** Lemmas *)

Lemma prop_depth v k r : prop v k = Ok r -> truthy r = true -> (vdepth r < vdepth v)%nat.
Proof.
  destruct v; cbn [prop]; intros H Ht; simplify_eq; try done.
  unfold get in *. destruct (assoc k o) as [w|] eqn:E; [|done]. by apply (vdepth_child k).
Qed.

Lemma resolveModel_not_fuel v d : not_fuel (resolveModel v d).
Proof.
  unfold resolveModel. apply not_fuel_bind; [apply prop_not_fuel|]. intros ref _.
  case_match; apply not_fuel_bind; try done; [apply as_str_not_fuel|apply prop_not_fuel].
Qed.
Lemma addInlineModel_not_fuel ms v : not_fuel (addInlineModel ms v).
Proof. apply not_fuel_bind; [apply resolveModel_not_fuel|]. intros [m|] _; done. Qed.

Lemma getType_fuel_enough n : forall ms param, (vdepth param < n)%nat -> not_fuel (getType_fuel n ms param).
Proof.
  induction n as [|n IH]; intros ms param Hn; [lia|]. cbn [getType_fuel].
  apply not_fuel_bind; [apply prop_not_fuel|]. intros type Etype.
  apply not_fuel_bind; [apply prop_not_fuel|]. intros format _.
  apply not_fuel_bind; [apply prop_not_fuel|]. intros items Eitems.
  apply not_fuel_bind; [apply prop_not_fuel|]. intros ref0 _.
  apply not_fuel_bind; [apply prop_not_fuel|]. intros schema Eschema. cbv zeta.
  apply not_fuel_bind.
  { destruct (eq_str type (js "array")); [|done]. destruct (truthy items) eqn:Ei; [|done].
    apply IH. pose proof (prop_depth _ _ _ Eitems Ei). lia. }
  intros [ms' str] _. apply not_fuel_bind; [case_match; [apply simpleRef_not_fuel|done]|]. intros str' _.
  destruct (truthy schema) eqn:Es; [|done]. apply not_fuel_bind; [apply prop_not_fuel|]. intros ref _.
  destruct (truthy ref); [apply not_fuel_bind; [apply simpleRef_not_fuel|done]|].
  apply not_fuel_bind; [apply prop_not_fuel|]. intros stype _.
  destruct (eq_str stype (js "object")); [apply addInlineModel_not_fuel|].
  apply IH. pose proof (prop_depth _ _ _ Eschema Es). lia.
Qed.

(** [getType] terminates on every parameter object: the fuel of the
    model, its nesting depth, is never used up; and the inline models only
    grow. *)
Theorem getType_terminates ms param :
  getType ms param <> Throw Unsupported /\
  forall ms' t, getType ms param = Ok (ms', t) -> exists added, ms' = ms ++ added.
Proof.
  split; [by apply getType_fuel_enough; lia|]. unfold getType. generalize (S (vdepth param)). intros n. revert ms param.
  induction n as [|n IH]; intros ms param ms' t E; [done|]. cbn [getType_fuel] in E.
  do 5 apply bind_ok in E as (? & _ & E). cbv zeta in E.
  apply bind_ok in E as ([ms1 str] & E1 & E). apply bind_ok in E as (str' & _ & E).
  assert (H1 : exists a, ms1 = ms ++ a).
  { destruct (eq_str _ (js "array")); [destruct (truthy _); [by apply IH in E1|]|];
      injection E1 as -> _; exists []; by rewrite app_nil_r. }
  destruct H1 as [a ->]. destruct (truthy x3).
  - apply bind_ok in E as (ref & _ & E). destruct (truthy ref).
    + apply bind_ok in E as (? & _ & [= <- _]). by exists a.
    + apply bind_ok in E as (? & _ & E). destruct (eq_str _ (js "object")).
      * unfold addInlineModel in E. apply bind_ok in E as ([m|] & _ & [= <- _]); [|by exists a].
        exists (a ++ [m]). by rewrite app_assoc.
      * apply IH in E as [b ->]. exists (a ++ b). by rewrite app_assoc.
  - injection E as <- _. by exists a.
Qed.
