(* ===== verification/OperationBuild.v ===== *)
(** * The constructor of operations

    [Operation] of swagger-ui.js: the fields taken from the client and the
    description, what is added to every parameter, and the split of the
    responses into the one whose schema is the type of the operation and the
    others.  The functions it calls are in [OperationInit]. *)

From Stdlib Require Import String.
From S2P Require Import Prelude JsNumber JsString JsValue Helpers OperationInit.

(** ** The fields *)

(** [v || errors.push(message)]: the new length of the list, when it is pushed. *)
Definition or_error (v : jsval) (message : jsstr) (errors : list jsstr) : jsval * list jsstr :=
  if truthy v then (v, errors) else (vint (Z.of_nat (S (length errors))), errors ++ [message]).

(** What the options of the client give. *)
Definition interceptors (parent : obj) : obj :=
  match get parent (js "options") with
  | VObj o =>
      [(js "client", js_orv (get o (js "client")) VNull);
       (js "requestInterceptor", js_orv (get o (js "requestInterceptor")) VNull);
       (js "responseInterceptor", js_orv (get o (js "responseInterceptor")) VNull);
       (js "requestAgent", get o (js "requestAgent"))]
  | _ => []
  end.

Definition json_types : jsval := VArr [vstr "application/json"].
Definition js_or3 (a b c : jsval) : jsval := js_orv a (js_orv b c).
Definition default_host (window_host : option jsstr) (host : jsval) : jsval :=
  if truthy host then host else VStr (default (js "localhost") window_host).

(** The fields in the order of the assignments, and the messages of what is
    missing. *)
Definition operation_fields (window_host : option jsstr) (parent args : obj) (scheme operationId httpMethod path : jsval) :
    res (obj * list jsstr) :=
  basePath ← normalize_basePath (get parent (js "basePath"));
  let '(method, errors) := or_error httpMethod (js "Operation " ++ to_str operationId ++ js " is missing method.") [] in
  let '(nickname, errors) := or_error operationId (js "Operations must have a nickname.") errors in
  let '(path, errors) := or_error path (js "Operation " ++ to_str nickname ++ js " is missing path.") errors in
  Ok (interceptors parent ++
      [(js "authorizations", get args (js "security")); (js "basePath", VStr basePath);
       (js "consumes", js_or3 (get args (js "consumes")) (get parent (js "consumes")) json_types);
       (js "produces", js_or3 (get args (js "produces")) (get parent (js "produces")) json_types);
       (js "deprecated", normalize_deprecated (get args (js "deprecated")));
       (js "description", get args (js "description"));
       (js "host", default_host window_host (get parent (js "host")));
       (js "method", method); (js "nickname", nickname); (js "operation", VObj args); (js "operations", VObj []);
       (js "parameters", js_orv (get args (js "parameters")) (VArr [])); (js "path", path);
       (js "responses", js_orv (get args (js "responses")) (VObj []));
       (js "scheme", js_or3 scheme (get parent (js "scheme")) (vstr "http"));
       (js "schemes", js_orv (get args (js "schemes")) (get parent (js "schemes")));
       (js "security", js_orv (get args (js "security")) (get parent (js "security")));
       (js "summary", js_orv (get args (js "summary")) (vstr "")); (js "timeout", get parent (js "timeout"));
       (js "type", VNull); (js "useJQuery", get parent (js "useJQuery"));
       (js "jqueryAjaxCache", get parent (js "jqueryAjaxCache")); (js "enableCookies", get parent (js "enableCookies"));
       (js "inlineModels", VArr [])], errors).

(** The models of the definitions go to the models of the client. *)
Definition add_models (models : list (jsstr * model)) (definitions : jsval) : res (list (jsstr * model)) :=
  foldM_res (fun models '(key, d) => _ ← prop d (js "type"); Ok (put key (Model (VStr key) d) models)) models
    (for_in_val definitions).

(** ** Parameters *)

Section parameters.
(** The macro of the client, or the default of the parameter; the signature and
    the sample of a model, and [JSON.stringify] with an indentation. *)
Context (parameterMacro : obj -> jsval) (mock_signature : model -> jsstr) (sample : model -> res jsval)
  (stringify : jsval -> jsval).
Context (models : list (jsstr * model)).

Definition mark_array (param : obj) : obj :=
  if eq_str (get param (js "type")) (js "array")
  then put (js "allowMultiple") (VBool true) (put (js "isList") (VBool true) param) else param.
(** Booleans are lists of two values. *)
Definition mark_boolean (innerType : jsval) (param : obj) : obj :=
  if truthy innerType && bool_decide (toLowerCase (to_str innerType) = js "boolean")
  then put (js "enum") (VArr [VBool true; VBool false]) (put (js "isList") (VBool true) (put (js "allowableValues") (VObj []) param))
  else param.
Definition extend_all (o : obj) : obj := foldl (fun o' '(k, _) => extractExtensions (VStr k) o' VUndef) o (for_in o).

(** [param['enum'] || (param.items && param.items['enum'])]. *)
Definition enum_values (param : obj) : res jsval :=
  let own := get param (js "enum") in
  if truthy own then Ok own
  else
    let items := get param (js "items") in
    if truthy items then prop items (js "enum") else Ok items.
Definition list_values (param : obj) : res obj :=
  enumValues ← enum_values param;
  match enumValues with
  | VUndef => Ok param
  | VNull => Throw TypeError
  | v => Ok (put (js "allowableValues")
               (VObj (allowableValues (match v with VArr l => l | VStr s => (fun c => VStr [c]) <$> s | _ => [] end)
                                      (get param (js "default")))) param)
  end.
(** A list without values to select from is no list. *)
Definition unmark_array (param : obj) : obj :=
  if eq_str (get param (js "type")) (js "array") && is_undef (get param (js "allowableValues"))
  then JsValue.remove (js "allowMultiple") (JsValue.remove (js "isList") param) else param.

(** [getInlineModel] of a type: an array is tested as its text, but has no
    [substr]. *)
Definition inline_model (inlineModels : list model) (type : jsval) : res (option model) :=
  let s := to_str type in
  match type with
  | VStr _ => Ok (getInlineModel inlineModels s)
  | _ => if startsWith s inline_prefix && bool_decide (is_Some (decimal (drop (length inline_prefix) s))) then Throw TypeError
         else Ok None
  end.
(** [getModelSampleJSON]. *)
Definition getModelSampleJSON (inlineModels : list model) (type : jsval) : res jsval :=
  let '(listType, innerType) := match type with VArr l => (true, List.hd VUndef l) | _ => (false, type) end in
  found ← match assoc (to_str innerType) models with
          | Some m => Ok (Some m)
          | None => inline_model inlineModels innerType
          end;
  match found with
  | None => Ok VUndef
  | Some m =>
      s ← sample m;
      Ok (if truthy s then
            let s := if listType then VArr [s] else s in
            match s with VStr _ => s | VArr _ | VObj _ | VHost _ _ => stringify s | _ => s end
          else VUndef)
  end.

(** A turn of the loop over the parameters. *)
Definition init_parameter (inlineModels : list model) (param : obj) : res (list model * obj) :=
  let param := mark_array (put (js "default") (parameterMacro param) param) in
  '(inlineModels, innerType) ← getType inlineModels (VObj param);
  let param := extend_all (mark_boolean innerType param) in
  d ← example_default param (get param (js "default"));
  param ← list_values (put (js "default") d param);
  let innerType := if eq_str (get param (js "type")) (js "array") then VArr [innerType] else innerType in
  let param := unmark_array param in
  let signature := VStr (getModelSignature mock_signature inlineModels models innerType) in
  let param := put (js "signature") signature (put (js "modelSignature") (VObj [(js "type", innerType)]) param) in
  sampleJSON ← getModelSampleJSON inlineModels innerType;
  Ok (inlineModels, put (js "responseClassSignature") signature (put (js "sampleJSON") sampleJSON param)).

(** The parameters are objects; the code reads a property of each first. *)
Definition init_parameters (inlineModels : list model) (parameters : list jsval) : res (list model * list jsval) :=
  foldM_res (fun '(inlineModels, done) param =>
    _ ← prop param (js "default");
    '(inlineModels, param) ← init_parameter inlineModels (as_obj param);
    Ok (inlineModels, done ++ [VObj param])) (inlineModels, []) parameters.
End parameters.

(** ** Responses *)

(** The extensions of the headers of a response. *)
Definition extend_headers (headers : jsval) : jsval :=
  match headers with
  | VObj h => VObj (foldl (fun h '(name, header) =>
                match header with VObj d => put name (VObj (extend_all d)) h | _ => h end) h (for_in h))
  | _ => headers
  end.
Definition extend_response (response : jsval) : res jsval :=
  match response with
  | VObj r => Ok (if typeof_object (get r (js "headers")) then VObj (put (js "headers") (extend_headers (get r (js "headers"))) r)
                  else response)
  | VNull => Throw TypeError
  | _ => Ok response
  end.
Definition extend_responses (responses : obj) : res obj :=
  foldM_res (fun responses '(keyname, _) =>
    let responses := extractExtensions (VStr keyname) responses VUndef in
    if indexOf keyname (js "x-") =? -1 then
      r ← extend_response (get responses keyname); Ok (put keyname r responses)
    else Ok responses) responses (for_in responses).

(** What stands for the response: a model with the properties of the response,
    or the schema with them. *)
Inductive success :=
| SuccessModel (m : model) (properties : obj)
| SuccessSchema (schema : obj).
Definition response_properties (r o : obj) : res obj :=
  o ← copy_truthy (VObj r) (js "description") (js "description") (put (js "vendorExtensions") (get r (js "vendorExtensions")) o);
  o ← copy_truthy (VObj r) (js "examples") (js "examples") o;
  copy_truthy (VObj r) (js "headers") (js "headers") o.
Definition success_response (definitions r : obj) : res success :=
  let schema := get r (js "schema") in
  resolvedModel ← resolveModel schema definitions;
  match resolvedModel with
  | Some m => o ← response_properties r []; Ok (SuccessModel m o)
  | None =>
      type ← prop schema (js "type");
      if negb (truthy type) || eq_str type (js "object") || eq_str type (js "array")
      then o ← response_properties r []; Ok (SuccessModel (Model VUndef schema) o)
      else o ← response_properties r (as_obj schema); Ok (SuccessSchema o)
  end.

(** The responses afterwards, and the response of success with its code. *)
Definition init_responses (definitions responses : obj) : res (obj * option (jsstr * success)) :=
  let code := OperationInit.default_response responses in
  responses ← extend_responses responses;
  match code with
  | None => Ok (responses, None)
  | Some code =>
      match get responses code with
      | VObj r =>
          let r := extend_all r in
          let responses := put code (VObj r) responses in
          if truthy (get r (js "schema")) then
            s ← success_response definitions r; Ok (JsValue.remove code responses, Some (code, s))
          else Ok (responses, None)
      | _ => Ok (responses, None)
      end
  end.

(** ** The constructor *)

(** An operation: its fields, the models of the client and its own, the
    response of success, and the errors that nobody reads. *)
Record operation_object := OperationObject {
  fields : obj;
  client_models : list (jsstr * model);
  inline_models : list model;
  successResponse : option (jsstr * success);
  build_errors : list jsstr
}.

Definition new_operation (window_host : option jsstr) (parameterMacro : obj -> jsval) (mock_signature : model -> jsstr)
    (sample : model -> res jsval) (stringify : jsval -> jsval) (parent args : obj) (scheme operationId httpMethod path : jsval)
    (definitions : jsval) (models : list (jsstr * model)) : res operation_object :=
  '(fields, errors) ← operation_fields window_host parent args scheme operationId httpMethod path;
  models ← add_models models definitions;
  '(inlineModels, parameters) ← init_parameters parameterMacro mock_signature sample stringify models []
                                  (as_arr (get fields (js "parameters")));
  let responses := as_obj (get fields (js "responses")) in
  '(rest, chosen) ← init_responses (as_obj definitions) responses;
  let fields := put (js "responses") (VObj rest) (put (js "parameters") (VArr parameters) fields) in
  let fields := match chosen with
                | Some (code, _) => put (js "type") (get responses code) fields
                | None => fields
                end in
  Ok (OperationObject fields models inlineModels chosen errors).

(** ** The split *)

Lemma has_key_put {A} k k' (v : A) o : has_key k (put k' v o) = bool_decide (k' = k) || has_key k o.
Proof.
  unfold has_key. case_bool_decide as H; [subst; by rewrite assoc_put_eq|by rewrite assoc_put_ne].
Qed.
Lemma extract_keys k key o v : k <> js "vendorExtensions" -> has_key k (extractExtensions key o v) = has_key k o.
Proof.
  intros Hk. unfold extractExtensions. destruct key as [| | | |s| | |]; try done. destruct (negb _ && _); [|done]. cbv zeta.
  assert (H : forall w, has_key k (put (js "vendorExtensions") w o) = has_key k o).
  { intros w. rewrite has_key_put, bool_decide_eq_false_2; [done|congruence]. }
  by destruct (js_orv _ _).
Qed.

#[local] Arguments extractExtensions : simpl never.

(** The codes stay. *)
Lemma extend_responses_keys k responses r : k <> js "vendorExtensions" -> extend_responses responses = Ok r ->
  has_key k r = has_key k responses.
Proof.
  intros Hk. unfold extend_responses. apply (foldM_res_inv (fun r => has_key k r = has_key k responses)); [|done].
  intros s [keyname x] s' Hin Hs E. apply (for_in_elem responses) in Hin. cbv zeta in E. destruct (indexOf _ _ =? -1).
  - apply bind_ok in E as (w & _ & [= <-]). rewrite has_key_put, extract_keys, Hs by done.
    case_bool_decide as Hkey; [subst; cbn|done]. unfold has_key. destruct (assoc k responses) eqn:Ea; [done|].
    apply assoc_none in Ea. destruct Ea. apply fst_in_lookup. by exists x.
  - injection E as <-. by rewrite extract_keys.
Qed.
Lemma has_key_remove {A} k k' (o : list (jsstr * A)) : has_key k (JsValue.remove k' o) = negb (bool_decide (k = k')) && has_key k o.
Proof.
  unfold has_key. case_bool_decide as H; [subst; by rewrite assoc_remove_eq|]. by rewrite assoc_remove_ne.
Qed.

Definition success_properties (s : success) : obj := match s with SuccessModel _ o | SuccessSchema o => o end.

Lemma response_properties_keep r o o' k : response_properties r o = Ok o' -> k ∈ [js "description"; js "examples"; js "headers"] ->
  truthy (get r k) = true -> get o' k = get r k.
Proof.
  unfold response_properties, copy_truthy. cbn [prop mbind res_bind]. intros [= <-] Hk Ht.
  repeat (apply elem_of_cons in Hk as [->|Hk]); [| | |by apply not_elem_of_nil in Hk]; rewrite Ht.
  - destruct (truthy (get r (js "headers"))), (truthy (get r (js "examples")));
      rewrite ?(get_put_ne (js "headers")), ?(get_put_ne (js "examples")) by (vm_compute; done); apply get_put_eq.
  - destruct (truthy (get r (js "headers"))); rewrite ?(get_put_ne (js "headers")) by (vm_compute; done); apply get_put_eq.
  - apply get_put_eq.
Qed.

(** The response that gives the operation its type is taken out of the
    responses, under its code and with its description, examples and headers;
    every other code stays, and without such a response all of them do. *)
Theorem responses_split definitions responses rest chosen k :
  init_responses definitions responses = Ok (rest, chosen) -> k <> js "vendorExtensions" ->
  match chosen with
  | None => has_key k rest = has_key k responses
  | Some (code, s) =>
      OperationInit.default_response responses = Some code /\
      has_key k rest = negb (bool_decide (k = code)) && has_key k responses /\
      exists r, truthy (get r (js "schema")) = true /\
        forall p, p ∈ [js "description"; js "examples"; js "headers"] -> truthy (get r p) = true -> get (success_properties s) p = get r p
  end.
Proof.
  intros E Hk. unfold init_responses in E. apply bind_ok in E as (rs & Ers & E).
  pose proof (extend_responses_keys k _ _ Hk Ers) as Hkeys.
  destruct (default_response responses) as [code|] eqn:Ec; [|by injection E as <- <-].
  assert (Hget : forall v, (exists x, get rs code = VObj x) -> has_key k (put code v rs) = has_key k responses).
  { intros v [x Hx]. rewrite has_key_put, Hkeys. case_bool_decide as Hc; [|done]. subst k. cbn. rewrite <- Hkeys.
    unfold has_key, get in *. by destruct (assoc code rs). }
  destruct (get rs code) as [| | | | | |r|] eqn:Er; try (by injection E as <- <-). cbv zeta in E.
  destruct (truthy (get (extend_all r) (js "schema"))) eqn:Es; [|injection E as <- <-; apply Hget; by eexists].
  apply bind_ok in E as (s & E & [= <- <-]). split; [done|]. split.
  { rewrite has_key_remove, Hget by by eexists. done. }
  exists (extend_all r). split; [done|]. intros p Hp Ht. unfold success_response in E.
  apply bind_ok in E as (m & _ & E). destruct m as [m|].
  - apply bind_ok in E as (o & Eo & [= <-]). by apply (response_properties_keep _ _ _ _ Eo).
  - apply bind_ok in E as (type & _ & E). destruct (_ || _); apply bind_ok in E as (o & Eo & [= <-]);
      by apply (response_properties_keep _ _ _ _ Eo).
Qed.

Definition pet_responses : obj :=
  [(js "404", VObj [(js "description", vstr "none")]);
   (js "200", VObj [(js "description", vstr "a pet"); (js "schema", VObj [(js "$ref", vstr "#/definitions/Pet")])])].
Definition pet_definitions : obj := [(js "Pet", VObj [(js "type", vstr "object")])].
Definition pet_success : success :=
  SuccessModel (Model (vstr "Pet") (VObj [(js "type", vstr "object")]))
    [(js "vendorExtensions", VUndef); (js "description", vstr "a pet")].
Lemma responses_split_witness :
  OperationInit.default_response pet_responses = Some (js "200") /\
  has_key (js "404") [(js "404", VObj [(js "description", vstr "none")])] = negb (bool_decide (js "404" = js "200")) && has_key (js "404") pet_responses /\
  exists r, truthy (get r (js "schema")) = true /\
    forall p, p ∈ [js "description"; js "examples"; js "headers"] -> truthy (get r p) = true ->
      get (success_properties pet_success) p = get r p.
Proof.
  apply (responses_split pet_definitions pet_responses _ (Some (js "200", pet_success)) (js "404"));
    [vm_compute; reflexivity|by apply (bool_decide_eq_false _)].
Defined.

(** A missing nickname is replaced by a number, and nobody reads the errors. *)
Example missing_nickname :
  (fun r => match r with Ok (o, errors) => (get o (js "nickname"), errors) | Throw _ => (VUndef, []) end)
    (operation_fields None [] [] VUndef VUndef (vstr "get") (vstr "/pets")) = (vint 1, [js "Operations must have a nickname."]).
Proof. vm_compute. reflexivity. Qed.

(** A boolean parameter becomes a list of two values, with the default marked. *)
Example boolean_parameter :
  (fun r => match r with Ok (_, p) => (get p (js "isList"), get p (js "allowableValues")) | Throw _ => (VUndef, VUndef) end)
    (init_parameter (fun p => get p (js "default")) (fun _ => []) (fun _ => Ok VUndef) (fun v => v) [] []
       [(js "type", vstr "boolean"); (js "default", vstr "true")]) =
  (VBool true, VObj (allowableValues [VBool true; VBool false] (vstr "true"))).
Proof. vm_compute. reflexivity. Qed.
