(* ===== verification/SpecConverter.v ===== *)
(** * Converting Swagger 1.x documents

    [lib/spec-converter] of swagger-ui.js: a resource listing or an API
    declaration of Swagger 1.x becomes a Swagger 2.0 document.  The converter
    changes its object and the document step by step and may throw in
    between, so its operations run in the monad of state and exceptions.  The
    part that fetches declarations is a state machine driven by the answers. *)

From Stdlib Require Import String.
From S2P Require Import Prelude JsNumber JsString JsValue.

(** The converter with the document it builds. *)
Record converter := Converter {
  modelMap : obj;
  docLocation : jsval;
  warnings : list jsstr;
  swagger : obj
}.
Definition set_swagger (f : obj -> obj) (c : converter) : converter :=
  Converter (modelMap c) (docLocation c) (warnings c) (f (swagger c)).
Definition set_modelMap (f : obj -> obj) (c : converter) : converter :=
  Converter (f (modelMap c)) (docLocation c) (warnings c) (swagger c).
Definition setDocumentationLocation (location : jsval) (c : converter) : converter :=
  Converter (modelMap c) location (warnings c) (swagger c).
Definition warn (w : jsstr) (c : converter) : converter :=
  Converter (modelMap c) (docLocation c) (warnings c ++ [w]) (swagger c).

(** [swagger[k] = v]. *)
Definition assign_swagger (k : jsstr) (v : jsval) : ST converter unit := modify (set_swagger (put k v)).

(** ** Data types *)

Definition definition_ref (name : jsstr) : jsval := VStr (js "#/definitions/" ++ name).
Definition typed (type : String.string) : jsval := VObj [(js "type", vstr type)].
Definition typed_format (type format : String.string) : jsval :=
  VObj [(js "type", vstr type); (js "format", vstr format)].
Arguments typed type%_string.
Arguments typed_format type%_string format%_string.
Definition array_of (items : jsval) : jsval := VObj [(js "type", vstr "array"); (js "items", items)].

(** [source.type || source.dataType || source.responseClass || '']. *)
Definition detect_type (source : jsval) : res jsval :=
  t ← prop source (js "type"); d ← prop source (js "dataType"); c ← prop source (js "responseClass");
  Ok (js_orv (js_orv (js_orv t d) c) (VStr [])).

(** The types that have a name of their own, in lower case, with a format. *)
Definition named_type (lcType format : jsstr) : option jsval :=
  let lc s := bool_decide (lcType = s) in
  let fmt s := bool_decide (format = s) in
  if lc (js "int") || (lc (js "integer") && fmt (js "int32")) then Some (typed_format "integer" "int32")
  else if lc (js "long") || (lc (js "integer") && fmt (js "int64")) then Some (typed_format "integer" "int64")
  else if lc (js "integer") then Some (typed_format "integer" "int64")
  else if lc (js "float") || (lc (js "number") && fmt (js "float")) then Some (typed_format "number" "float")
  else if lc (js "double") || (lc (js "number") && fmt (js "double")) then Some (typed_format "number" "double")
  else if (lc (js "string") && fmt (js "date-time")) || lc (js "date") then Some (typed_format "string" "date-time")
  else if lc (js "string") then Some (typed "string")
  else if lc (js "file") then Some (typed "file")
  else if lc (js "boolean") then Some (typed "boolean")
  else None.

Definition list_prefix := js "list[".
Definition inner_of (detectedType : jsstr) : jsstr := substring detectedType 5 (zlength detectedType - 1).

(** [toJsonSchema]; every recursive call is on a smaller value. *)
Fixpoint toJsonSchema_fuel (n : nat) (modelMap : obj) (source : jsval) : res jsval :=
  if negb (truthy source) then Ok (vstr "object")
  else
    detected ← detect_type source;
    detectedType ← as_str detected;
    fmt ← prop source (js "format");
    formatText ← as_str (js_orv fmt (VStr []));
    let lcType := toLowerCase detectedType in
    let format := toLowerCase formatText in
    type ← prop source (js "type");
    ref ← prop source (js "$ref");
    if startsWith lcType list_prefix then
      match n with
      | O => Throw Unsupported
      | S n' =>
          jsonType ← toJsonSchema_fuel n' modelMap (VObj [(js "type", VStr (inner_of detectedType))]);
          Ok (array_of jsonType)
      end
    else match named_type lcType format with
    | Some t => Ok t
    | None =>
        if bool_decide (lcType = js "array") || bool_decide (lcType = js "list") then
          items ← prop source (js "items");
          if truthy items then
            match n with
            | O => Throw Unsupported
            | S n' => it ← toJsonSchema_fuel n' modelMap items; Ok (array_of it)
            end
          else Ok (array_of (typed "object"))
        else if truthy ref then
          let known := get modelMap (to_str ref) in
          Ok (VObj [(js "$ref", if truthy known then definition_ref (to_str known) else ref)])
        else if bool_decide (lcType = js "void") || bool_decide (lcType = []) then Ok (VObj [])
        else
          let known := get modelMap (to_str type) in
          if truthy known then Ok (VObj [(js "$ref", definition_ref (to_str known))])
          else Ok (VObj [(js "type", type)])
    end.
Definition toJsonSchema (modelMap : obj) (source : jsval) : res jsval :=
  toJsonSchema_fuel (vsize source) modelMap source.

(** [dataType]: the target after the call. *)
Definition dataType (modelMap : obj) (source : jsval) (target : obj) : res obj :=
  if negb (is_object source) then Ok target
  else
    target ← copy_truthy source (js "minimum") (js "minimum") target;
    target ← copy_truthy source (js "maximum") (js "maximum") target;
    target ← copy_truthy source (js "format") (js "format") target;
    defaultValue ← prop source (js "defaultValue");
    let target := if is_undef defaultValue then target else put (js "default") defaultValue target in
    jsonSchemaType ← toJsonSchema modelMap source;
    if truthy jsonSchemaType then
      target ← copy_truthy jsonSchemaType (js "type") (js "type") target;
      target ← copy_truthy jsonSchemaType (js "format") (js "format") target;
      ref ← prop jsonSchemaType (js "$ref");
      let target := if truthy ref then put (js "schema") (VObj [(js "$ref", ref)]) target else target in
      copy_truthy jsonSchemaType (js "items") (js "items") target
    else Ok target.

(** ** Models *)

(** [required] of a property: true, or the text of it. *)
Definition is_required (required : jsval) : bool := eq_true required || eq_str required (js "true").

(** A turn of the loop over properties: the property, and whether it is
    required. *)
Definition model_property (modelMap : obj) (existingProperty : jsval) : res (obj * bool) :=
  property ← dataType modelMap existingProperty [];
  property ← copy_truthy existingProperty (js "description") (js "description") property;
  property ← copy_truthy existingProperty (js "enum") (js "enum") property;
  required ← prop existingProperty (js "required");
  Ok (property, is_required required).

(** The loop over properties: the schemas, and the names of the required. *)
Definition schema_step (modelMap : obj) (st : obj * list jsstr) (kv : jsstr * jsval) : res (obj * list jsstr) :=
  '(property, req) ← model_property modelMap kv.2;
  Ok (put kv.1 (VObj property) st.1, if req : bool then st.2 ++ [kv.1] else st.2).

(** The schema of a model. *)
Definition model_schema (modelMap : obj) (existingModel : jsval) : res obj :=
  existing ← prop existingModel (js "properties");
  '(properties, _required) ← foldM_res (schema_step modelMap) ([] : obj, []) (for_in_val existing);
  modelRequired ← prop existingModel (js "required");
  Ok [(js "properties", VObj properties);
      (js "required", match _required with [] => modelRequired | _ => VArr (VStr <$> _required) end)].

(** [swagger.definitions[name] = schema]. *)
Definition store_definition (name : jsstr) (schema : obj) : ST converter unit :=
  modify (set_swagger (fun s =>
    put (js "definitions") (VObj (put name (VObj schema) (as_obj (get s (js "definitions"))))) s)).

Definition models (o : jsval) : ST converter unit :=
  if negb (is_object o) then mret tt
  else
    definitions ← gets (fun c => get (swagger c) (js "definitions"));
    _ ← assign_swagger (js "definitions") (js_orv definitions (VObj []));
    iterM (fun '(name, existingModel) =>
      mm ← gets modelMap;
      schema ← lift (model_schema mm existingModel);
      store_definition name schema) (for_in_val o).

(** ** Operations *)

(** [extractTag]. *)
Definition extractTag (resourcePath : jsval) : res jsstr :=
  pathString ← as_str (js_orv resourcePath (vstr "default"));
  let pathString := if startsWith pathString (js "http:") || startsWith pathString (js "https:")
                    then List.last (split pathString (js "/")) [] else pathString in
  let pathString := if endsWith pathString (js ".json")
                    then substring pathString 0 (zlength pathString - zlength (js ".json")) else pathString in
  Ok (replace_first pathString (js "/") []).

(** [Object.keys(v).length]. *)
Definition keys_count (v : jsval) : Z := Z.of_nat (length (for_in_val v)).

(** [operation.security] of the authorizations, when there are any. *)
Definition security_entry (key : jsstr) (scopes : jsval) : res jsval :=
  securityScopes ← (if truthy scopes then mapM_res (fun kv => prop kv.2 (js "scope")) (for_in_val scopes) else Ok []);
  Ok (VObj [(key, VArr securityScopes)]).

Definition operation_security (existingAuthorizations : jsval) (operation : obj) : res obj :=
  security ← mapM_res (fun '(key, scopes) => security_entry key scopes) (for_in_val existingAuthorizations);
  Ok (match security with [] => operation | _ => put (js "security") (VArr security) operation end).

(** The operation's own list, or the document's. *)
Definition own_or_global (k : jsstr) (existingOperation : jsval) (swagger operation : obj) : res obj :=
  own ← prop existingOperation k;
  Ok (if truthy own then put k own operation
      else if truthy (get swagger k) then put k (get swagger k) operation else operation).

(** A turn of the loop of [parameters]. *)
Definition convert_parameter (modelMap : obj) (existingParameter : jsval) : res jsval :=
  name ← prop existingParameter (js "name");
  description ← prop existingParameter (js "description");
  required ← prop existingParameter (js "required");
  paramType ← prop existingParameter (js "paramType");
  let parameter := [(js "name", if eq_str paramType (js "body") then vstr "body" else name);
                    (js "description", description); (js "required", required);
                    (js "in", if eq_str paramType (js "form") then vstr "formData" else paramType)] in
  parameter ← copy_truthy existingParameter (js "enum") (js "enum") parameter;
  allowMultiple ← prop existingParameter (js "allowMultiple");
  parameter ←
    (if eq_true allowMultiple || eq_str allowMultiple (js "true") then
       innerType ← dataType modelMap existingParameter [];
       let parameter := put (js "items") (VObj innerType) (put (js "type") (vstr "array") parameter) in
       av ← prop existingParameter (js "allowableValues");
       if truthy av then
         valueType ← prop av (js "valueType");
         if eq_str valueType (js "LIST") then values ← prop av (js "values"); Ok (put (js "enum") values parameter)
         else Ok parameter
       else Ok parameter
     else dataType modelMap existingParameter parameter);
  defaultValue ← prop existingParameter (js "defaultValue");
  Ok (VObj (if is_undef defaultValue then parameter else put (js "default") defaultValue parameter)).

(** [parameters]: the operation after the call. *)
Definition parameters (modelMap : obj) (operation : obj) (o : jsval) : res obj :=
  match o with
  | VArr l =>
      ps ← mapM_res (convert_parameter modelMap) l;
      Ok (match ps with [] => operation | _ => put (js "parameters") (VArr ps) operation end)
  | _ => Ok operation
  end.

(** A response of [responseMessages], with its code. *)
Definition convert_response (existingResponse : jsval) : res (jsval * jsval) :=
  message ← prop existingResponse (js "message");
  code ← prop existingResponse (js "code");
  responseModel ← prop existingResponse (js "responseModel");
  let response := [(js "description", message)] in
  let response := if truthy responseModel
    then put (js "schema") (VObj [(js "$ref", definition_ref (to_str responseModel))]) response else response in
  Ok (code, VObj response).

(** The response built from the operation itself. *)
Definition default_response (modelMap : obj) (existingOperation : jsval) : res jsval :=
  d ← dataType modelMap existingOperation [];
  Ok (VObj (if negb (truthy (get d (js "schema"))) && truthy (get d (js "type"))
            then [(js "schema", VObj d)] else d)).

(** The loop over [responseMessages]: the responses, and whether one has code
    200. *)
Definition response_step (st : obj * bool) (existingResponse : jsval) : res (obj * bool) :=
  '(code, response) ← convert_response existingResponse;
  Ok (put (to_str code) response st.1, st.2 || eq_int code 200).

Definition responseMessages (modelMap : obj) (operation : obj) (existingOperation : jsval) : res obj :=
  if negb (is_object existingOperation) then Ok operation
  else
    defaultResponse ← default_response modelMap existingOperation;
    messages ← prop existingOperation (js "responseMessages");
    '(responses, has200) ← foldM_res response_step ([] : obj, false) (as_arr messages);
    Ok (put (js "responses") (VObj (put (if has200 : bool then js "default" else js "200") defaultResponse responses)) operation).

(** A turn of the loop of [operations]: the method and the operation. *)
Definition convert_operation (modelMap swagger : obj) (tag : jsstr) (resourceLevelAuth existingOperation : jsval) :
    res (jsstr * obj) :=
  m ← prop existingOperation (js "method"); h ← prop existingOperation (js "httpMethod");
  method ← as_str (js_orv m h);
  let operation := [(js "tags", VArr [VStr tag])] in
  existing ← prop existingOperation (js "authorizations");
  let existing := if truthy existing && (keys_count existing =? 0) then resourceLevelAuth else existing in
  operation ← operation_security existing operation;
  operation ← own_or_global (js "consumes") existingOperation swagger operation;
  operation ← own_or_global (js "produces") existingOperation swagger operation;
  operation ← copy_truthy existingOperation (js "summary") (js "summary") operation;
  operation ← copy_truthy existingOperation (js "notes") (js "description") operation;
  operation ← copy_truthy existingOperation (js "nickname") (js "operationId") operation;
  operation ← copy_truthy existingOperation (js "deprecated") (js "deprecated") operation;
  ps ← prop existingOperation (js "parameters");
  operation ← parameters modelMap operation ps;
  operation ← responseMessages modelMap operation existingOperation;
  Ok (toLowerCase method, operation).

(** The names of the document's tags. *)
Definition tag_name (tag : jsval) : res jsval := prop tag (js "name").

(** Adding the tag unless one has its name. *)
Definition add_tag (tag : jsstr) : ST converter unit :=
  tags ← gets (fun c => js_orv (get (swagger c) (js "tags")) (VArr []));
  _ ← assign_swagger (js "tags") tags;
  names ← lift (mapM_res tag_name (as_arr tags));
  if List.existsb (fun n => eq_str n tag) names then mret tt
  else assign_swagger (js "tags") (VArr (as_arr tags ++ [VObj [(js "name", VStr tag)]])).

(** [swagger.paths[path]], [swagger.paths[path] = pathObj]. *)
Definition path_obj (path : jsstr) (c : converter) : jsval :=
  get (as_obj (get (swagger c) (js "paths"))) path.
Definition store_path (path : jsstr) (pathObj : obj) : ST converter unit :=
  modify (set_swagger (fun s => put (js "paths") (VObj (put path (VObj pathObj) (as_obj (get s (js "paths"))))) s)).

(** The operations of one path.  A path object that the document already has
    is changed in place; a new one is stored when the loop is done. *)
Fixpoint operations_loop (path tag : jsstr) (resourceLevelAuth : jsval) (shared : bool) (l : list jsval)
    (pathObj : obj) : ST converter obj :=
  match l with
  | [] => mret pathObj
  | existingOperation :: l' =>
      mm ← gets modelMap;
      sw ← gets swagger;
      '(method, operation) ← lift (convert_operation mm sw tag resourceLevelAuth existingOperation);
      let pathObj := put method (VObj operation) pathObj in
      _ ← (if shared then store_path path pathObj else mret tt);
      operations_loop path tag resourceLevelAuth shared l' pathObj
  end.

Definition operations (path resourcePath : jsval) (o : jsval) (resourceLevelAuth : jsval) : ST converter unit :=
  match o with
  | VArr l =>
      paths ← gets (fun c => get (swagger c) (js "paths"));
      _ ← (if truthy paths then mret tt else assign_swagger (js "paths") (VObj []));
      existing ← gets (path_obj (to_str path));
      tag ← lift (extractTag resourcePath);
      _ ← add_tag tag;
      pathObj ← operations_loop (to_str path) tag resourceLevelAuth (truthy existing) l (as_obj existing);
      store_path (to_str path) pathObj
  | _ => mret tt
  end.

(** ** Declarations *)

(** The host and base path after the scheme. *)
Definition assign_address (p : jsstr) : ST converter unit :=
  let pos := indexOf p (js "/") in
  if 0 <? pos then
    _ ← assign_swagger (js "host") (VStr (substring p 0 pos));
    assign_swagger (js "basePath") (VStr (substring_from p pos))
  else
    _ ← assign_swagger (js "host") (VStr p);
    assign_swagger (js "basePath") (vstr "/").

Definition assign_basePath (basePath : jsval) : ST converter unit :=
  b ← lift (as_str basePath);
  if startsWith b (js "http://") then assign_address (substring_from b (zlength (js "http://")))
  else if startsWith b (js "https://") then assign_address (substring_from b (zlength (js "https://")))
  else assign_swagger (js "basePath") (VStr b).

(** [if (obj.k) swagger.k = obj.k]. *)
Definition copy_to_swagger (o : jsval) (k : jsstr) : ST converter unit :=
  v ← lift (prop o k); if truthy v then assign_swagger k v else mret tt.

(** [this.modelMap[existingModel.id || name] = name]. *)
Definition map_model (kv : jsstr * jsval) : ST converter unit :=
  id ← lift (prop kv.2 (js "id"));
  modify (set_modelMap (put (if truthy id then to_str id else kv.1) (VStr kv.1))).

(** A turn of the loop over [obj.apis]. *)
Definition declare_api (resourcePath resourceLevelAuth api : jsval) : ST converter unit :=
  path ← lift (prop api (js "path"));
  ops ← lift (prop api (js "operations"));
  operations path resourcePath ops resourceLevelAuth.

Definition declaration (o : jsval) : ST converter unit :=
  apis ← lift (prop o (js "apis"));
  if negb (truthy apis) then mret tt
  else
    basePath ← lift (prop o (js "basePath"));
    _ ← assign_basePath basePath;
    authorizations ← lift (prop o (js "authorizations"));
    _ ← copy_to_swagger o (js "consumes");
    _ ← copy_to_swagger o (js "produces");
    ms ← lift (prop o (js "models"));
    _ ← (if is_object o then iterM map_model (for_in_val ms) else mret tt);
    resourcePath ← lift (prop o (js "resourcePath"));
    let resourceLevelAuth := if truthy authorizations then authorizations else VUndef in
    _ ← iterM (declare_api resourcePath resourceLevelAuth) (as_arr apis);
    models (js_orv ms (VObj [])).

(** ** Info and security definitions *)

Definition info_object (info : jsval) : res obj :=
  contact ← prop info (js "contact");
  let out := if truthy contact then [(js "contact", VObj [(js "email", contact)])] else [] in
  out ← copy_truthy info (js "description") (js "description") out;
  out ← copy_truthy info (js "title") (js "title") out;
  copy_truthy info (js "termsOfServiceUrl") (js "termsOfService") out.

Definition apiInfo (o : jsval) : ST converter unit :=
  info ← lift (prop o (js "info"));
  if truthy info then
    out ← lift (info_object info);
    _ ← assign_swagger (js "info") (VObj out);
    license ← lift (prop info (js "license"));
    licenseUrl ← lift (prop info (js "licenseUrl"));
    if truthy license || truthy licenseUrl then
      assign_swagger (js "license")
        (VObj ((if truthy license then [(js "name", license)] else []) ++
               (if truthy licenseUrl then [(js "url", licenseUrl)] else [])))
    else mret tt
  else modify (warn (js "missing info section")).

(** [i > 0] for the last key of a loop: a number above zero, in decimal
    digits (array indices; names are not numbers). *)
Definition key_positive (i : option jsstr) : bool :=
  match i with
  | Some k => match dec_value 0 k with Some n => 0 <? n | None => false end
  | None => false
  end.

(** [scopes[scope.scope] = scope.description]. *)
Definition scope_step (scopes : obj) (kv : jsstr * jsval) : res obj :=
  scope ← prop kv.2 (js "scope");
  description ← prop kv.2 (js "description");
  Ok (put (to_str scope) description scopes).

(** The scopes of an oauth2 definition and the last key of the loop.  [i] is
    a variable of the whole function: it keeps its value when there are no
    scopes. *)
Definition oauth2_scopes (definition : jsval) (i : option jsstr) : res (obj * option jsstr) :=
  existingScopes ← prop definition (js "scopes");
  let keys := for_in_val existingScopes in
  scopes ← foldM_res scope_step [] keys;
  Ok (scopes, match last keys with Some kv => Some kv.1 | None => i end).

(** The flow of an oauth2 definition, and whether it is valid. *)
Definition oauth2_flow (grantTypes : jsval) (sd : obj) : res (obj * bool) :=
  if negb (truthy grantTypes) then Ok (sd, false)
  else
    implicit ← prop grantTypes (js "implicit");
    authCode ← prop grantTypes (js "authorization_code");
    if truthy implicit then
      url ← prop implicit (js "loginEndpoint");
      Ok (put (js "authorizationUrl") url (put (js "flow") (vstr "implicit") sd), true)
    else if truthy authCode then
      req ← prop authCode (js "tokenRequestEndpoint"); requestUrl ← prop req (js "url");
      tok ← prop authCode (js "tokenEndpoint"); tokenUrl ← prop tok (js "url");
      Ok (put (js "tokenUrl") tokenUrl (put (js "authorizationUrl") requestUrl
            (put (js "flow") (vstr "accessCode") sd)), true)
    else Ok (sd, false).

(** A definition and whether it is valid, with the variable [i]. *)
Definition security_definition (name : jsstr) (definition : jsval) (i : option jsstr) :
    res (obj * bool * option jsstr) :=
  let sd := [(js "vendorExtensions", VObj [])] in
  type ← prop definition (js "type");
  if eq_str type (js "apiKey") then
    passAs ← prop definition (js "passAs"); keyname ← prop definition (js "keyname");
    Ok (put (js "name") (js_orv keyname (VStr name)) (put (js "in") passAs (put (js "type") (vstr "apiKey") sd)), true, i)
  else if eq_str type (js "basicAuth") then Ok (put (js "type") (vstr "basicAuth") sd, true, i)
  else if eq_str type (js "oauth2") then
    '(scopes, i) ← oauth2_scopes definition i;
    let sd := put (js "type") (vstr "oauth2") sd in
    let sd := if key_positive i then put (js "scopes") (VObj scopes) sd else sd in
    grantTypes ← prop definition (js "grantTypes");
    '(sd, isValid) ← oauth2_flow grantTypes sd;
    Ok (sd, isValid, i)
  else Ok (sd, false, i).

Fixpoint security_loop (l : list (jsstr * jsval)) (i : option jsstr) : ST converter unit :=
  match l with
  | [] => mret tt
  | (name, definition) :: l' =>
      r ← lift (security_definition name definition i);
      _ ← (if r.1.2 : bool then
             modify (set_swagger (fun s => put (js "securityDefinitions")
               (VObj (put name (VObj r.1.1) (as_obj (get s (js "securityDefinitions"))))) s))
           else mret tt);
      security_loop l' r.2
  end.

Definition securityDefinitions (o : jsval) : ST converter unit :=
  authorizations ← lift (prop o (js "authorizations"));
  if truthy authorizations then security_loop (for_in_val authorizations) None else mret tt.

(** ** Fetching declarations *)

(** [getAbsolutePath]. *)
Definition getAbsolutePath (version docLocation path : jsval) : res jsstr :=
  docLocation ← (if eq_str version (js "1.0") then
                   d ← as_str docLocation;
                   let pos := lastIndexOf d (js "/") in
                   Ok (VStr (if endsWith d (js ".json") && (0 <? pos) then substring d 0 pos else d))
                 else Ok docLocation);
  p ← as_str path;
  location ← (if startsWith p (js "http:") || startsWith p (js "https:") then Ok p
              else
                d ← as_str docLocation;
                Ok ((if endsWith d (js "/") then substring d 0 (zlength d - 1) else d) ++ p));
  Ok (replace_first location (js "{format}") (js "json")).

(** A request for a declaration. *)
Record declaration_request := DeclarationRequest {
  d_url : jsstr;
  d_accept : jsval;
  d_timeout : jsval
}.

(** A listing being resolved: the converter, the counters, and the documents
    the callback was called with. *)
Record listing := Listing {
  conv : converter;
  processedCount : Z;
  expectedCount : Z;
  finished : list jsval
}.

(** [finish]: the callback is called. *)
Definition finish (c : converter) (l : listing) : listing :=
  Listing c (processedCount l) (expectedCount l) (finished l ++ [VObj (swagger c)]).

(** Counting an answer; the last one finishes. *)
Definition count_answer (l : listing) : listing :=
  Listing (conv l) (processedCount l + 1) (expectedCount l) (finished l).
Definition finish_if_last (l : listing) : listing :=
  if processedCount l =? expectedCount l then finish (conv l) l else l.

(** An answer: the parsed declaration of a response, or an error. *)
Inductive answer :=
| OnResponse (o : jsval)
| OnError.

(** A handler; an exception of [declaration] skips what follows it. *)
Definition on_answer (l : listing) (a : answer) : listing :=
  let l := count_answer l in
  match a with
  | OnError => finish_if_last l
  | OnResponse o =>
      if truthy o then
        match declaration o (conv l) with
        | (c, Ok _) => finish_if_last (Listing c (processedCount l) (expectedCount l) (finished l))
        | (c, Throw _) => Listing c (processedCount l) (expectedCount l) (finished l)
        end
      else finish_if_last l
  end.

(** A turn of the loop over the listed resources: the tag of a resource with
    a description, and the request of its declaration. *)
Definition list_api (version timeout accept api : jsval) : ST converter declaration_request :=
  path ← lift (prop api (js "path"));
  location ← gets docLocation;
  absolutePath ← lift (getAbsolutePath version location path);
  description ← lift (prop api (js "description"));
  _ ← (if truthy description then
         tags ← gets (fun c => js_orv (get (swagger c) (js "tags")) (VArr []));
         tag ← lift (extractTag path);
         assign_swagger (js "tags")
           (VArr (as_arr tags ++ [VObj [(js "name", VStr tag); (js "description", description)]]))
       else mret tt);
  mret (DeclarationRequest absolutePath accept timeout).

Fixpoint list_apis (version timeout accept : jsval) (l : list jsval) : ST converter (list declaration_request) :=
  match l with
  | [] => mret []
  | api :: l' =>
      r ← list_api version timeout accept api;
      rs ← list_apis version timeout accept l';
      mret (r :: rs)
  end.

(** [resourceListing]: the requests sent, and the state the answers find. *)
Definition resourceListing (o opts : jsval) : ST converter (list declaration_request) :=
  apis ← lift (prop o (js "apis"));
  headers ← lift (if truthy opts then prop opts (js "swaggerRequestHeaders") else Ok VUndef);
  version ← lift (prop o (js "swaggerVersion"));
  timeout ← lift (match as_arr apis with [] => Ok VUndef | _ => prop opts (js "timeout") end);
  list_apis version timeout (js_orv headers (vstr "application/json")) (as_arr apis).

Definition start_listing (apis : list jsval) (c : converter) : listing :=
  let l := Listing c 0 (Z.of_nat (length apis)) [] in
  match apis with [] => finish c l | _ => l end.

(** ** convert *)

Inductive conversion :=
| Converted (document : jsval)
| Fetching (requests : list declaration_request) (l : listing).

(** Whether an API of the document has its operations in it. *)
Definition has_operations (api : jsval) : res bool := ops ← prop api (js "operations"); Ok (is_array ops).

Definition new_converter : converter := Converter [] VUndef [] [].

(** What a listing and a declaration have in common; whether the document is
    a declaration. *)
Definition convert_head (o : jsval) (apis : list jsval) : ST converter bool :=
  _ ← assign_swagger (js "swagger") (vstr "2.0");
  version ← lift (prop o (js "swaggerVersion"));
  _ ← assign_swagger (js "originalVersion") version;
  _ ← apiInfo o;
  _ ← securityDefinitions o;
  basePath ← lift (prop o (js "basePath"));
  _ ← (if truthy basePath then modify (setDocumentationLocation basePath) else mret tt);
  isSingleFileSwagger ← lift (mapM_res has_operations apis);
  mret (List.existsb (fun b => b) isSingleFileSwagger).

Definition convert_body (o opts : jsval) (apis : list jsval) : ST converter (option (list declaration_request)) :=
  isSingleFileSwagger ← convert_head o apis;
  if isSingleFileSwagger : bool then _ ← declaration o; mret None
  else rs ← resourceListing o opts; mret (Some rs).

Definition convert (c : converter) (o opts : jsval) : res conversion :=
  if negb (truthy o) then Ok (Converted VNull)
  else match prop o (js "apis") with
       | Ok (VArr apis) =>
           match convert_body o opts apis (set_swagger (fun _ => []) c) with
           | (c, Ok None) => Ok (Converted (VObj (swagger c)))
           | (c, Ok (Some rs)) => Ok (Fetching rs (start_listing apis c))
           | (_, Throw e) => Throw e
           end
       | _ => Ok (Converted VNull)
       end.

(** ** Data types *)

Lemma substring_length s a b : (length (substring s a b) <= Z.to_nat (clamp 0 (zlength s) (Z.max a b) - clamp 0 (zlength s) (Z.min a b)))%nat.
Proof. unfold substring. rewrite length_take. unfold clamp, zlength. lia. Qed.

Lemma inner_of_shorter d : (5 <= length d)%nat -> (S (length (inner_of d)) < length d)%nat.
Proof. intros H. unfold inner_of. pose proof (substring_length d 5 (zlength d - 1)). unfold clamp, zlength in *. lia. Qed.

Lemma detect_type_size source d s :
  truthy source = true -> detect_type source = Ok d -> as_str d = Ok s -> s <> [] -> (S (length s) < vsize source)%nat.
Proof.
  intros Ht H Hs Hne. unfold detect_type in H.
  apply bind_ok in H as (t & Et & H). apply bind_ok in H as (dt & Ed & H). apply bind_ok in H as (c & Ec & [= <-]).
  assert (Hv : forall v k, prop source k = Ok v -> truthy v = true -> as_str v = Ok s -> (S (length s) < vsize source)%nat).
  { intros v k Ev Hv Hsv. pose proof (vsize_prop _ _ _ Ev Hv) as Hsz. destruct v; try done. injection Hsv as ->. exact Hsz. }
  destruct (js_orv_cases (js_orv (js_orv t dt) c) (VStr [])) as [[E T]|[E T]]; rewrite E in Hs;
    [|by injection Hs as <-].
  destruct (js_orv_cases (js_orv t dt) c) as [[E2 T2]|[E2 T2]]; rewrite E2 in Hs, T; [|by eauto].
  destruct (js_orv_cases t dt) as [[E3 T3]|[E3 T3]]; rewrite E3 in Hs, T; eauto.
Qed.

Lemma list_prefix_long lc : startsWith lc list_prefix = true -> (5 <= length lc)%nat.
Proof. intros [t ->]%startsWith_spec. rewrite length_app. change (length list_prefix) with 5%nat. lia. Qed.

Lemma toJsonSchema_enough n : forall mm source, (vsize source <= n)%nat -> not_fuel (toJsonSchema_fuel n mm source).
Proof.
  induction n as [|n IH]; intros mm source Hn; [destruct source; cbn in Hn; lia|]. cbn [toJsonSchema_fuel].
  destruct (truthy source) eqn:Ht; cbn [negb]; [|done].
  apply not_fuel_bind. { unfold detect_type. repeat fuel_step. }
  intros d Ed. apply not_fuel_bind; [auto with js|]. intros dt Edt.
  do 5 fuel_step.
  - apply not_fuel_bind; [|by intros]. apply IH.
    match goal with H : startsWith _ _ = true |- _ => apply list_prefix_long in H; unfold toLowerCase in H; rewrite length_fmap in H end.
    pose proof (detect_type_size source d dt Ht Ed Edt) as Hs. pose proof (inner_of_shorter dt ltac:(done)) as Hi.
    cbn [vsize foldr snd]. assert (dt <> []) by (intros ->; cbn in *; lia). specialize (Hs ltac:(done)). lia.
  - case_match; [done|]. fuel_step; [|repeat fuel_step; done]. fuel_step. fuel_step; [|done].
    apply not_fuel_bind; [|by intros]. apply IH.
    match goal with H : prop source (js "items") = Ok _, H2 : truthy _ = true |- _ => pose proof (vsize_prop _ _ _ H H2) end. lia.
Qed.

(** [toJsonSchema] never needs more fuel than the size of its argument. *)
Lemma toJsonSchema_not_fuel mm source : not_fuel (toJsonSchema mm source).
Proof. by apply toJsonSchema_enough. Qed.

(** A type spelled with [n] times "list[" around it. *)
Fixpoint listed (n : nat) (t : jsstr) : jsstr :=
  match n with O => t | S n' => list_prefix ++ listed n' t ++ js "]" end.

Lemma named_type_not_list lc f j : named_type lc f = Some j -> startsWith lc list_prefix = false.
Proof.
  intros H. destruct (startsWith lc list_prefix) eqn:E; [|done]. apply startsWith_spec in E as [t ->].
  unfold named_type in H.
  assert (Hne : forall l, prefixb list_prefix l = false -> bool_decide (list_prefix ++ t = l) = false).
  { intros l Hl. apply bool_decide_eq_false. intros <-. by rewrite prefixb_app in Hl. }
  repeat rewrite Hne in H by done. done.
Qed.

Lemma detect_type_string s : s <> [] -> detect_type (VObj [(js "type", VStr s)]) = Ok (VStr s).
Proof. intros H. unfold detect_type. by destruct s. Qed.

Ltac type_only s :=
  cbn [toJsonSchema_fuel truthy negb]; rewrite (detect_type_string s) by done; cbn [mbind res_bind as_str];
  change (prop (VObj [(js "type", VStr s)]) (js "format")) with (@Ok jsval VUndef);
  change (prop (VObj [(js "type", VStr s)]) (js "type")) with (@Ok jsval (VStr s));
  change (prop (VObj [(js "type", VStr s)]) (js "$ref")) with (@Ok jsval VUndef);
  cbn [mbind res_bind as_str js_orv truthy]; unfold js_orv; cbn [truthy as_str mbind res_bind];
  change (toLowerCase []) with (@nil Z).

Lemma type_only_named m mm s j :
  s <> [] -> named_type (toLowerCase s) [] = Some j -> toJsonSchema_fuel m mm (VObj [(js "type", VStr s)]) = Ok j.
Proof. intros Hs Hj. destruct m; type_only s; by rewrite (named_type_not_list _ _ _ Hj), Hj. Qed.

Lemma type_only_list m mm s :
  s <> [] -> startsWith (toLowerCase s) list_prefix = true ->
  toJsonSchema_fuel (S m) mm (VObj [(js "type", VStr s)]) =
    (j ← toJsonSchema_fuel m mm (VObj [(js "type", VStr (inner_of s))]); Ok (array_of j)).
Proof. intros Hs Hl. type_only s. by rewrite Hl. Qed.

Lemma inner_of_list s : inner_of (list_prefix ++ s ++ js "]") = s.
Proof.
  unfold inner_of. apply substring_mid; [done|]. unfold zlength. rewrite !length_app.
  change (length list_prefix) with 5%nat. change (length (js "]")) with 1%nat. lia.
Qed.

Lemma listed_schema mm t j m n :
  named_type (toLowerCase t) [] = Some j -> (n <= m)%nat ->
  toJsonSchema_fuel m mm (VObj [(js "type", VStr (listed n t))]) = Ok (Nat.iter n array_of j).
Proof.
  intros Hj. revert m. induction n as [|n IH]; intros m Hm.
  - apply type_only_named; [|done]. cbn [listed]. by intros ->.
  - destruct m as [|m]; [lia|]. cbn [listed]. rewrite type_only_list, inner_of_list, IH; [done|lia|done|].
    apply startsWith_spec. exists (toLowerCase (listed n t ++ js "]")). unfold toLowerCase at 1.
    by rewrite fmap_app.
Qed.

(** [toJsonSchema] always comes to an end (its recursion is never cut
    short by the model's fuel), and a type spelled with any number of nested
    "list[" around a named type becomes as many nested array schemas around
    the schema of that type. *)
Theorem nested_lists mm source t j n :
  named_type (toLowerCase t) [] = Some j ->
  toJsonSchema mm source <> Throw Unsupported /\
  toJsonSchema mm (VObj [(js "type", VStr (listed n t))]) = Ok (Nat.iter n array_of j).
Proof.
  intros Hj. split; [apply toJsonSchema_not_fuel|]. apply listed_schema; [done|].
  cbn [vsize foldr snd]. assert (H : (n <= length (listed n t))%nat); [|lia].
  induction n as [|n IH]; [lia|]. cbn [listed]. rewrite !length_app. change (length (js "]")) with 1%nat. lia.
Qed.

Lemma nested_lists_witness :
  toJsonSchema [] VNull <> Throw Unsupported /\
  toJsonSchema [] (VObj [(js "type", vstr "list[list[Long]]")]) = Ok (array_of (array_of (typed_format "integer" "int64"))).
Proof. exact (nested_lists [] VNull (js "Long") (typed_format "integer" "int64") 2 ltac:(reflexivity)). Defined.

(** ** Security definitions *)

Lemma key_positive_last {A} (l : list A) :
  key_positive (fst <$> last (indexed l)) = (1 <? Z.of_nat (length l)).
Proof.
  destruct l as [|x l] using rev_ind; [done|]. rewrite indexed_last. cbn [fmap option_fmap option_map fst key_positive].
  rewrite dec_value_to_str by lia. rewrite length_app. cbn [length].
  destruct (Z.ltb_spec 0 (Z.of_nat (length l))), (Z.ltb_spec 1 (Z.of_nat (length l + 1))); lia || done.
Qed.

Lemma oauth2_flow_keeps g sd sd' v k :
  oauth2_flow g sd = Ok (sd', v) -> k ∉ [js "flow"; js "authorizationUrl"; js "tokenUrl"] -> get sd' k = get sd k.
Proof.
  rewrite !not_elem_of_cons. intros H (H1 & H2 & H3 & _). unfold oauth2_flow in H.
  destruct (truthy g); cbn [negb] in H; [|by injection H as <- _].
  apply bind_ok in H as (im & _ & H). apply bind_ok in H as (ac & _ & H).
  destruct (truthy im); [|destruct (truthy ac)].
  - apply bind_ok in H as (u & _ & [= <- _]). by rewrite !get_put_ne by congruence.
  - do 4 apply bind_ok in H as (? & _ & H). injection H as <- _. by rewrite !get_put_ne by congruence.
  - by injection H as <- _.
Qed.

(** The scopes of an oauth2 authorization survive the conversion exactly
    when there are at least two of them: the loop variable is compared with
    zero, and it is the index of the last scope. *)
Theorem oauth2_scopes_kept name definition l sd valid i :
  prop definition (js "type") = Ok (vstr "oauth2") ->
  prop definition (js "scopes") = Ok (VArr l) ->
  security_definition name definition None = Ok (sd, valid, i) ->
  exists scopes, foldM_res scope_step [] (indexed l) = Ok scopes /\
    get sd (js "scopes") = if 1 <? Z.of_nat (length l) then VObj scopes else VUndef.
Proof.
  intros Ht Hs H. unfold security_definition in H. rewrite Ht in H. cbn [mbind res_bind] in H.
  change (eq_str (vstr "oauth2") (js "apiKey")) with false in H.
  change (eq_str (vstr "oauth2") (js "basicAuth")) with false in H.
  change (eq_str (vstr "oauth2") (js "oauth2")) with true in H. cbv iota in H.
  unfold oauth2_scopes in H. rewrite Hs in H. cbn [mbind res_bind for_in_val] in H.
  apply bind_ok in H as ([scopes j] & E & H). apply bind_ok in E as (sc & Esc & [= <- <-]).
  exists sc. split; [done|]. apply bind_ok in H as (g & _ & H). apply bind_ok in H as ([sd' v] & E & [= <- _ _]).
  rewrite (oauth2_flow_keeps _ _ _ _ _ E) by (rewrite !not_elem_of_cons; repeat split; try done; apply not_elem_of_nil).
  rewrite <- key_positive_last. destruct (last (indexed l)) as [[k x]|]; cbn [fmap option_fmap option_map fst].
  - destruct (key_positive (Some k)); [by rewrite get_put_eq|done].
  - done.
Qed.

Definition scope (s : String.string) : jsval := VObj [(js "scope", vstr s); (js "description", vstr "text")].
Definition one_scope : jsval :=
  VObj [(js "type", vstr "oauth2"); (js "scopes", VArr [scope "read:pets"]);
        (js "grantTypes", VObj [(js "implicit", VObj [(js "loginEndpoint", vstr "/login")])])].

Lemma oauth2_scopes_kept_witness :
  exists scopes, foldM_res scope_step [] (indexed [scope "read:pets"]) = Ok scopes /\
    get [(js "vendorExtensions", VObj []); (js "type", vstr "oauth2"); (js "flow", vstr "implicit");
         (js "authorizationUrl", vstr "/login")] (js "scopes") = VUndef.
Proof.
  exact (oauth2_scopes_kept (js "oauth") one_scope [scope "read:pets"] _ true (Some (js "0"))
    ltac:(reflexivity) ltac:(reflexivity) ltac:(vm_compute; reflexivity)).
Defined.

(** ** Responses *)

Definition DEFAULT := js "default".
Definition OK_CODE := js "200".

Lemma response_steps msgs : forall st st' conv,
  foldM_res response_step st msgs = Ok st' -> mapM_res convert_response msgs = Ok conv ->
  NoDup ((fun r => to_str r.1) <$> conv) ->
  st'.2 = st.2 || List.existsb (fun r => eq_int r.1 200) conv /\
  (forall k, k ∉ ((fun r => to_str r.1) <$> conv) -> get st'.1 k = get st.1 k) /\
  (forall r, r ∈ conv -> get st'.1 (to_str r.1) = r.2).
Proof.
  induction msgs as [|m msgs IH]; intros st st' conv H E Hn; cbn in H, E.
  - injection H as <-. injection E as <-. cbn. rewrite orb_false_r. repeat split; [done..|]. by intros r ?%not_elem_of_nil.
  - apply bind_ok in E as ([code resp] & Ec & E). apply bind_ok in E as (conv' & Em & [= <-]).
    unfold response_step in H. rewrite Ec in H. cbn [mbind res_bind] in H. cbn in Hn. apply NoDup_cons in Hn as [Hk Hn].
    destruct (IH _ _ _ H Em Hn) as (H2 & H3 & H4). cbn [fst snd] in *. split; [|split].
    + rewrite H2. cbn. by rewrite orb_assoc.
    + intros k [Hk1 Hk2]%not_elem_of_cons. rewrite H3 by done. by apply get_put_ne.
    + intros r [->|Hr]%elem_of_cons; [|by apply H4]. cbn. rewrite H3 by done. apply get_put_eq.
Qed.

(** The responses of a converted operation: the default response of the
    operation is stored under "default" when one of the messages has the code
    200, and under "200" otherwise; every message whose code is not that key
    keeps its own response (codes being distinct). *)
Theorem responses_converted mm operation eo msgs conv op' :
  is_object eo = true ->
  prop eo (js "responseMessages") = Ok (VArr msgs) ->
  mapM_res convert_response msgs = Ok conv ->
  NoDup ((fun r => to_str r.1) <$> conv) ->
  responseMessages mm operation eo = Ok op' ->
  exists responses d, get op' (js "responses") = VObj responses /\ default_response mm eo = Ok d /\
    let key := if List.existsb (fun r => eq_int r.1 200) conv then DEFAULT else OK_CODE in
    get responses key = d /\ forall r, r ∈ conv -> to_str r.1 <> key -> get responses (to_str r.1) = r.2.
Proof.
  intros Ho Hm Hc Hn H. unfold responseMessages in H. rewrite Ho, Hm in H. cbn [negb] in H.
  apply bind_ok in H as (d & Ed & H). cbn [mbind res_bind as_arr] in H.
  apply bind_ok in H as ([responses has200] & Ef & [= <-]).
  destruct (response_steps _ _ _ _ Ef Hc Hn) as (H2 & _ & H4). cbn [fst snd orb] in *. subst has200.
  eexists _, d. split; [apply get_put_eq|]. split; [done|]. cbv zeta. split; [apply get_put_eq|].
  intros r Hr Hne. rewrite get_put_ne by done. by apply H4.
Qed.

Definition message (code : Z) (text : String.string) : jsval :=
  VObj [(js "code", vint code); (js "message", vstr text)].
Definition get_operation : jsval :=
  VObj [(js "method", vstr "GET"); (js "type", vstr "string"); (js "responseMessages", VArr [message 404 "no pet"])].

Lemma responses_converted_witness :
  exists responses d,
    get [(js "responses", VObj [(js "404", VObj [(js "description", vstr "no pet")]);
           (js "200", VObj [(js "schema", VObj [(js "type", vstr "string")])])])] (js "responses") = VObj responses /\
    default_response [] get_operation = Ok d /\
    let key := if List.existsb (fun r => eq_int r.1 200) [(vint 404, VObj [(js "description", vstr "no pet")])]
               then DEFAULT else OK_CODE in
    get responses key = d /\
    forall r, r ∈ [(vint 404, VObj [(js "description", vstr "no pet")])] -> to_str r.1 <> key ->
      get responses (to_str r.1) = r.2.
Proof.
  exact (responses_converted [] [] get_operation [message 404 "no pet"]
    [(vint 404, VObj [(js "description", vstr "no pet")])] _
    ltac:(reflexivity) ltac:(reflexivity) ltac:(reflexivity)
    ltac:(apply NoDup_singleton) ltac:(vm_compute; reflexivity)).
Defined.

(** ** Models *)

(** The properties of a model that say they are required. *)
Definition flagged (p : jsval) : bool :=
  match prop p (js "required") with
  | Ok (VBool b) => b
  | Ok (VStr s) => bool_decide (s = js "true")
  | _ => false
  end.
Definition required_names (props : list (jsstr * jsval)) : list jsstr :=
  (filter (fun kv => flagged kv.2 = true) props).*1.

Lemma model_property_flagged mm p o req : model_property mm p = Ok (o, req) -> req = flagged p.
Proof.
  intros H. unfold model_property in H. do 3 apply bind_ok in H as (? & _ & H).
  apply bind_ok in H as (r & Er & [= _ <-]). unfold flagged. rewrite Er. by destruct r as [| |[]| | | | |].
Qed.

Lemma schema_steps mm props : forall st st',
  foldM_res (schema_step mm) st props = Ok st' -> NoDup (st.1.*1 ++ props.*1) ->
  st'.1.*1 = st.1.*1 ++ props.*1 /\ st'.2 = st.2 ++ required_names props.
Proof.
  induction props as [|[k p] props IH]; intros st st' H Hn; cbn in H.
  - injection H as <-. cbn. by rewrite !app_nil_r.
  - unfold schema_step in H at 1. cbn [fst snd] in H. apply bind_ok in H as (st1 & E & H).
    apply bind_ok in E as ([o req] & Em & [= <-]). pose proof (model_property_flagged _ _ _ _ Em) as ->.
    assert (Hk : (put k (VObj o) st.1).*1 = st.1.*1 ++ [k]).
    { rewrite keys_put. rewrite bool_decide_eq_false_2; [done|]. intros Hin.
      apply NoDup_app in Hn as (_ & Hd & _). apply (Hd k Hin). by left. }
    apply IH in H as [H1 H2]; cbn [fst snd] in *.
    + rewrite H1, H2, Hk, <- app_assoc. split; [done|]. unfold required_names. rewrite filter_cons. cbn [snd].
      destruct (flagged p) eqn:Ef; cbn; [|done]. by rewrite <- app_assoc.
    + by rewrite Hk, <- app_assoc.
Qed.

(** The schema of a model has exactly the model's properties, in order,
    and its list of required names is the list of the properties flagged
    required (by [true] or by the text "true"), in order; the model's own
    list stands in only when no property is flagged. *)
Theorem model_required mm model props schema :
  prop model (js "properties") = Ok (VObj props) -> NoDup props.*1 ->
  model_schema mm model = Ok schema ->
  exists properties own, get schema (js "properties") = VObj properties /\
    properties.*1 = (for_in props).*1 /\ prop model (js "required") = Ok own /\
    get schema (js "required") =
      match required_names (for_in props) with [] => own | names => VArr (VStr <$> names) end.
Proof.
  intros Hp Hn H. unfold model_schema in H. rewrite Hp in H. cbn [mbind res_bind for_in_val] in H.
  apply bind_ok in H as ([ps req] & Ef & H). apply bind_ok in H as (own & Eo & [= <-]).
  apply schema_steps in Ef as [H1 H2]; cbn [fst snd fmap list_fmap app] in *.
  - exists ps, own. split; [done|]. split; [done|]. split; [done|]. subst. by destruct (required_names (for_in props)).
  - by rewrite for_in_perm.
Qed.

Definition pet_model : jsval :=
  VObj [(js "id", vstr "Pet");
        (js "properties", VObj [(js "name", VObj [(js "type", vstr "string"); (js "required", VBool true)]);
                                (js "tag", VObj [(js "type", vstr "string")])])].

Lemma model_required_witness :
  exists properties own,
    get (match model_schema [] pet_model with Ok s => s | Throw _ => [] end) (js "properties") = VObj properties /\
    properties.*1 = [js "name"; js "tag"] /\ prop pet_model (js "required") = Ok own /\
    get (match model_schema [] pet_model with Ok s => s | Throw _ => [] end) (js "required") = VArr [vstr "name"].
Proof.
  exact (model_required [] pet_model _ _ ltac:(reflexivity)
    ltac:(apply NoDup_cons; split; [by intros ?%list_elem_of_singleton|apply NoDup_singleton])
    ltac:(vm_compute; reflexivity)).
Defined.

(** ** Tags *)

Definition tag_names (tags : jsval) : list jsval := (fun t => get (as_obj t) (js "name")) <$> as_arr tags.
Definition tags_unique (c : converter) : Prop := NoDup (tag_names (get (swagger c) (js "tags"))).

Lemma tag_name_get t n : tag_name t = Ok n -> n = get (as_obj t) (js "name").
Proof. unfold tag_name. destruct t; cbn; intros; by simplify_eq. Qed.

Lemma tag_names_ok l names : mapM_res tag_name l = Ok names -> names = (fun t => get (as_obj t) (js "name")) <$> l.
Proof.
  intros H%mapM_res_ok. induction H as [|t n l names Ht _ IH]; [done|]. cbn. rewrite <- IH. f_equal. by apply tag_name_get.
Qed.

Lemma keeps_assign k v : k <> js "tags" -> keeps tags_unique (assign_swagger k v).
Proof. intros Hk c Hc. unfold tags_unique, assign_swagger, modify in *; cbn [fst swagger set_swagger mret st_ret]. by rewrite get_put_ne. Qed.

Lemma keeps_modify_swagger k f :
  k <> js "tags" -> keeps tags_unique (modify (set_swagger (fun s => put k (f s) s))).
Proof. intros Hk c Hc. unfold tags_unique, assign_swagger, modify in *; cbn [fst swagger set_swagger mret st_ret]. by rewrite get_put_ne. Qed.

Lemma keeps_same_swagger (f : converter -> converter) :
  (forall c, swagger (f c) = swagger c) -> keeps tags_unique (modify f).
Proof. intros Hf c Hc. unfold tags_unique, assign_swagger, modify in *; cbn [fst swagger set_swagger mret st_ret]. by rewrite Hf. Qed.

Lemma keeps_if {S A} (P : S -> Prop) (b : bool) (m1 m2 : ST S A) :
  keeps P m1 -> keeps P m2 -> keeps P (if b then m1 else m2).
Proof. by destruct b. Qed.

Ltac lit_ne := let E := fresh in intros E; vm_compute in E; discriminate E.
#[export] Hint Extern 5 (_ <> js _) => lit_ne : js.
#[export] Hint Resolve keeps_assign keeps_modify_swagger keeps_bind keeps_if : js.
#[export] Hint Extern 1 (keeps _ (modify _)) => by apply keeps_same_swagger : js.

Lemma keeps_add_tag tag : keeps tags_unique (add_tag tag).
Proof.
  intros c Hc. unfold add_tag.
  set (tags := js_orv (get (swagger c) (js "tags")) (VArr [])).
  assert (Ht : NoDup (tag_names tags)).
  { unfold tags, js_orv. destruct (truthy _); [exact Hc|apply NoDup_nil_2]. }
  change (tags_unique ((_ ← assign_swagger (js "tags") tags;
    names ← lift (mapM_res tag_name (as_arr tags));
    if List.existsb (fun n => eq_str n tag) names then mret tt
    else assign_swagger (js "tags") (VArr (as_arr tags ++ [VObj [(js "name", VStr tag)]]))) c).1).
  unfold mbind, st_bind, assign_swagger, modify, lift. cbv beta iota.
  destruct (mapM_res tag_name (as_arr tags)) as [names|e] eqn:E.
  - apply tag_names_ok in E. destruct (List.existsb (fun n => eq_str n tag) names) eqn:Ex.
    + unfold tags_unique, assign_swagger, modify in *; cbn [fst swagger set_swagger mret st_ret]. by rewrite get_put_eq.
    + unfold tags_unique; cbn [fst swagger set_swagger mret st_ret]. rewrite get_put_eq. unfold tag_names. cbn [as_arr]. rewrite fmap_app.
      apply NoDup_app. split; [done|]. split; [|apply NoDup_singleton].
      intros n Hn ->%list_elem_of_singleton. rewrite <- E in Hn.
      apply Bool.not_true_iff_false in Ex. apply Ex, existsb_exists. exists (VStr tag). split.
      * by apply list_elem_of_In.
      * cbn. by apply bool_decide_eq_true.
  - unfold tags_unique, assign_swagger, modify in *; cbn [fst swagger set_swagger mret st_ret]. by rewrite get_put_eq.
Qed.
#[export] Hint Resolve keeps_add_tag : js.

Lemma keeps_operations_loop path tag auth shared l : forall p,
  keeps tags_unique (operations_loop path tag auth shared l p).
Proof.
  induction l as [|eo l IH]; intros p; cbn [operations_loop]; [auto with js|].
  apply keeps_bind; [auto with js|]. intros mm. apply keeps_bind; [auto with js|]. intros sw.
  apply keeps_bind; [auto with js|]. intros [method o]. apply keeps_bind; [|auto].
  apply keeps_if; [apply keeps_modify_swagger; lit_ne|auto with js].
Qed.
#[export] Hint Resolve keeps_operations_loop : js.

Lemma keeps_models o : keeps tags_unique (models o).
Proof.
  unfold models. destruct (is_object o); cbn [negb]; [|auto with js].
  apply keeps_bind; [auto with js|]. intros d. apply keeps_bind; [auto with js|]. intros _.
  apply keeps_iter. intros [name m] _. apply keeps_bind; [auto with js|]. intros mm.
  apply keeps_bind; [auto with js|]. intros s. apply keeps_modify_swagger. lit_ne.
Qed.

Lemma keeps_operations path rp o auth : keeps tags_unique (operations path rp o auth).
Proof.
  unfold operations. destruct o; auto with js.
  apply keeps_bind; [auto with js|]. intros ps. apply keeps_bind; [auto with js|]. intros _.
  apply keeps_bind; [auto with js|]. intros ex. apply keeps_bind; [auto with js|]. intros tag.
  apply keeps_bind; [auto with js|]. intros _. apply keeps_bind; [auto with js|]. intros p.
  apply keeps_modify_swagger. lit_ne.
Qed.

Lemma keeps_basePath b : keeps tags_unique (assign_basePath b).
Proof.
  unfold assign_basePath. apply keeps_bind; [auto with js|]. intros s. unfold assign_address.
  repeat (apply keeps_if || (apply keeps_bind; [|intros ?]) || (apply keeps_assign; lit_ne)).
Qed.

Lemma keeps_declare_api rp auth api : keeps tags_unique (declare_api rp auth api).
Proof. unfold declare_api. do 2 (apply keeps_bind; [auto with js|intros ?]). apply keeps_operations. Qed.

Lemma keeps_declaration o : keeps tags_unique (declaration o).
Proof.
  unfold declaration. apply keeps_bind; [auto with js|]. intros apis. apply keeps_if; [auto with js|].
  apply keeps_bind; [auto with js|]. intros b. apply keeps_bind; [apply keeps_basePath|]. intros _.
  apply keeps_bind; [auto with js|]. intros auth. unfold copy_to_swagger.
  do 2 (apply keeps_bind; [apply keeps_bind; [auto with js|intros v; apply keeps_if; [apply keeps_assign; lit_ne|auto with js]]|intros _]).
  apply keeps_bind; [auto with js|]. intros ms. apply keeps_bind.
  { apply keeps_if; [|auto with js]. apply keeps_iter. intros kv _. unfold map_model.
    apply keeps_bind; [auto with js|]. intros id. by apply keeps_same_swagger. }
  intros _. apply keeps_bind; [auto with js|]. intros rp. apply keeps_bind; [|intros; apply keeps_models].
  apply keeps_iter. intros api _. apply keeps_declare_api.
Qed.

Lemma keeps_apiInfo o : keeps tags_unique (apiInfo o).
Proof.
  unfold apiInfo. apply keeps_bind; [auto with js|]. intros info. apply keeps_if; [|by apply keeps_same_swagger].
  do 4 (apply keeps_bind; [(apply keeps_assign; lit_ne) || auto with js|intros ?]).
  apply keeps_if; [apply keeps_assign; lit_ne|auto with js].
Qed.

Lemma keeps_security_loop l : forall i, keeps tags_unique (security_loop l i).
Proof.
  induction l as [|[name d] l IH]; intros i; cbn [security_loop]; [auto with js|].
  apply keeps_bind; [auto with js|]. intros r. apply keeps_bind; [|auto].
  apply keeps_if; [apply keeps_modify_swagger; lit_ne|auto with js].
Qed.


Lemma keeps_convert_head o apis : keeps tags_unique (convert_head o apis).
Proof.
  unfold convert_head. apply keeps_bind; [apply keeps_assign; lit_ne|intros _].
  apply keeps_bind; [auto with js|intros v]. apply keeps_bind; [apply keeps_assign; lit_ne|intros _].
  apply keeps_bind; [apply keeps_apiInfo|intros _]. apply keeps_bind.
  { unfold securityDefinitions. apply keeps_bind; [auto with js|intros a].
    apply keeps_if; [apply keeps_security_loop|auto with js]. }
  intros _. apply keeps_bind; [auto with js|intros b]. apply keeps_bind.
  { apply keeps_if; [by apply keeps_same_swagger|auto with js]. }
  intros _. apply keeps_bind; [auto with js|intros s]. auto with js.
Qed.

(** C6. The document converted from a declaration has no two tags of one
    name, whatever the paths and resource paths of its APIs. *)
Theorem converted_tags_unique c o opts d :
  convert c o opts = Ok (Converted (VObj d)) -> NoDup (tag_names (get d (js "tags"))).
Proof.
  intros H. unfold convert in H. destruct (truthy o); cbn [negb] in H; [|done].
  destruct (prop o (js "apis")) as [[| | | | |apis| |]|e]; try done.
  destruct (convert_body o opts apis _) as [c2 [[rs|]|e]] eqn:E; try done. injection H as <-.
  change (tags_unique c2). unfold convert_body in E. apply st_bind_ok in E as (single & c1 & E1 & E).
  assert (H1 : tags_unique c1).
  { replace c1 with ((convert_head o apis (set_swagger (fun _ => []) c)).1) by by rewrite E1.
    apply keeps_convert_head. apply NoDup_nil_2. }
  destruct single; apply st_bind_ok in E as (u & c3 & E3 & E); [|done]. injection E as <-.
  replace c3 with ((declaration o c1).1) by by rewrite E3. by apply keeps_declaration.
Qed.

Definition petstore : jsval :=
  let api path := VObj [(js "path", vstr path); (js "operations", VArr [VObj [(js "method", vstr "GET")]])] in
  VObj [(js "swaggerVersion", vstr "1.2"); (js "basePath", vstr "http://host/api"); (js "resourcePath", vstr "/pets");
        (js "apis", VArr [api "/pets"%string; api "/pets/{id}"%string])].
Definition converted (r : res conversion) : obj := match r with Ok (Converted (VObj d)) => d | _ => [] end.

Lemma converted_tags_unique_witness :
  NoDup (tag_names (get (converted (convert new_converter petstore VUndef)) (js "tags"))) /\
  tag_names (get (converted (convert new_converter petstore VUndef)) (js "tags")) = [vstr "pets"].
Proof.
  split; [|reflexivity].
  exact (converted_tags_unique new_converter petstore VUndef (converted (convert new_converter petstore VUndef))
    ltac:(vm_compute; reflexivity)).
Defined.

(** ** The listing's callback *)

(** Whether the handler of an answer runs to its end. *)
Definition answer_ok (c : converter) (a : answer) : bool :=
  match a with
  | OnError => true
  | OnResponse o => if truthy o then is_ok (declaration o c).2 else true
  end.

Definition answers (l : listing) (as_ : list answer) : listing := foldl on_answer l as_.

Lemma on_answer_counts l a :
  processedCount (on_answer l a) = processedCount l + 1 /\ expectedCount (on_answer l a) = expectedCount l.
Proof.
  unfold on_answer. destruct a as [o|].
  - destruct (truthy o); [destruct (declaration o _) as [c [?|?]]|]; try done;
      unfold finish_if_last; by case_match.
  - unfold finish_if_last. by case_match.
Qed.

Lemma on_answer_finished l a :
  finished (on_answer l a) =
    if (processedCount l + 1 =? expectedCount l) && answer_ok (conv l) a
    then finished l ++ [VObj (swagger (conv (on_answer l a)))] else finished l.
Proof.
  unfold on_answer, answer_ok. destruct a as [o|]; [destruct (truthy o)|].
  - change (conv (count_answer l)) with (conv l). destruct (declaration o (conv l)) as [c [u|e]]; cbn [snd is_ok].
    + rewrite andb_true_r. unfold finish_if_last. cbn [processedCount expectedCount count_answer].
      by destruct (_ =? _).
    + by rewrite andb_false_r.
  - rewrite andb_true_r. unfold finish_if_last. cbn [processedCount expectedCount count_answer]. by destruct (_ =? _).
  - rewrite andb_true_r. unfold finish_if_last. cbn [processedCount expectedCount count_answer]. by destruct (_ =? _).
Qed.

Lemma answers_counts as_ : forall l,
  processedCount (answers l as_) = processedCount l + Z.of_nat (length as_) /\
  expectedCount (answers l as_) = expectedCount l.
Proof.
  induction as_ as [|a as_ IH]; intros l; [cbn; lia|].
  change (answers l (a :: as_)) with (answers (on_answer l a) as_). cbn [length].
  destruct (IH (on_answer l a)) as [-> ->]. destruct (on_answer_counts l a) as [-> ->]. lia.
Qed.

Lemma answers_pending as_ : forall l,
  processedCount l + Z.of_nat (length as_) < expectedCount l -> finished (answers l as_) = finished l.
Proof.
  induction as_ as [|a as_ IH]; intros l H; [done|].
  change (answers l (a :: as_)) with (answers (on_answer l a) as_). cbn [length] in H.
  destruct (on_answer_counts l a) as [H1 H2]. rewrite IH by lia. rewrite on_answer_finished.
  rewrite (proj2 (Z.eqb_neq _ _)) by lia. done.
Qed.

(** C3. The answers to the requests of a listing may come in any order: the
    callback is not called before the last one, and the last one calls it
    once, with the document as its handler leaves it, unless the declaration
    it carries makes the converter throw, in which case the callback is never
    called. *)
Theorem listing_calls_back apis c as_ a :
  length apis = length (as_ ++ [a]) ->
  let l := answers (start_listing apis c) as_ in
  finished l = [] /\
  finished (on_answer l a) =
    if answer_ok (conv l) a then [VObj (swagger (conv (on_answer l a)))] else [].
Proof.
  intros Hl. rewrite length_app in Hl. cbn [length] in Hl. cbv zeta.
  assert (Hs : start_listing apis c = Listing c 0 (Z.of_nat (length apis)) []) by (destruct apis; [cbn in Hl; lia|done]).
  rewrite Hs. set (l0 := Listing c 0 _ []).
  assert (Hp : finished (answers l0 as_) = []).
  { rewrite answers_pending; [done|]. cbn [l0 processedCount expectedCount]. lia. }
  split; [done|]. rewrite on_answer_finished, Hp. destruct (answers_counts as_ l0) as [-> ->].
  cbn [l0 processedCount expectedCount]. by rewrite (proj2 (Z.eqb_eq _ _)) by lia.
Qed.

Definition no_basePath : answer := OnResponse (VObj [(js "apis", VArr [])]).

Lemma listing_calls_back_witness :
  finished (answers (start_listing [VNull; VNull] new_converter) [OnError]) = [] /\
  finished (on_answer (answers (start_listing [VNull; VNull] new_converter) [OnError]) no_basePath) = [].
Proof. exact (listing_calls_back [VNull; VNull] new_converter [OnError] no_basePath ltac:(reflexivity)). Defined.

(** ** Addresses *)

(** The address of a declaration: what follows the scheme of a base path
    is cut into the host, which has no slash, and the base path, which starts
    with one; together they are the address, up to a slash at the end. *)
Theorem address_split rest c :
  rest <> [] -> startsWith rest (js "/") = false ->
  let c' := (assign_basePath (VStr (js "http://" ++ rest)) c).1 in
  exists host base, get (swagger c') (js "host") = VStr host /\ get (swagger c') (js "basePath") = VStr (chr "/" :: base) /\
    chr "/" ∉ host /\ (host ++ chr "/" :: base = rest \/ host ++ chr "/" :: base = rest ++ js "/").
Proof.
  intros Hne Hs. cbv zeta.
  assert (E : assign_basePath (VStr (js "http://" ++ rest)) c = assign_address rest c).
  { unfold assign_basePath. cbn [as_str]. unfold mbind, st_bind, lift.
    by rewrite startsWith_app, substring_from_app. }
  rewrite E. unfold assign_address, indexOf. change (js "/") with [47] in *. change (chr "/") with 47.
  destruct (find_str [47] rest) as [n|] eqn:Ef.
  - destruct (find_char_some _ _ _ Ef) as [Er Hn]. destruct n as [|n].
    { exfalso. rewrite startsWith_prefixb in Hs. apply find_str_0 in Ef. congruence. }
    rewrite (proj2 (Z.ltb_lt 0 _)) by lia. unfold mbind, st_bind, assign_swagger, modify. cbv beta iota.
    cbn [fst swagger set_swagger].
    assert (Hb : (S n <= length rest)%nat).
    { rewrite Er, length_app, length_take. cbn [length]. pose proof (f_equal length Er) as Hl.
      rewrite length_app, length_take in Hl. cbn [length] in Hl. rewrite length_drop in *. lia. }
    rewrite substring_take, substring_drop by done.
    exists (take (S n) rest), (drop (S (S n)) rest). rewrite get_put_ne by lit_ne. rewrite !get_put_eq.
    split; [done|]. split; [|split; [done|by left]].
    rewrite Er at 1. rewrite drop_app_ge by (rewrite length_take; lia). rewrite length_take.
    by replace (S n - S n `min` length rest)%nat with O by lia.
  - apply find_char_none in Ef. change (0 <? -1) with false. unfold mbind, st_bind, assign_swagger, modify. cbv beta iota.
    cbn [fst swagger set_swagger]. exists rest, []. rewrite get_put_ne by lit_ne. rewrite !get_put_eq.
    split; [done|]. split; [done|]. split; [done|by right].
Qed.

Lemma address_split_witness :
  let c' := (assign_basePath (vstr "http://host:80/v1/api") new_converter).1 in
  exists host base, get (swagger c') (js "host") = VStr host /\ get (swagger c') (js "basePath") = VStr (chr "/" :: base) /\
    chr "/" ∉ host /\ (host ++ chr "/" :: base = js "host:80/v1/api" \/ host ++ chr "/" :: base = js "host:80/v1/api" ++ js "/").
Proof. exact (address_split (js "host:80/v1/api") new_converter ltac:(done) ltac:(reflexivity)). Defined.
