(* ===== verification/Names.v ===== *)
(** * Fresh names

    The loop the client uses to make a name unique: the base, then the base
    with "_0", "_1" and so on, until one is not taken.  [uniqueName] of the
    resolver, the names of inline models and [makeUniqueOperationId] of the
    client are instances. *)

From Stdlib Require Import String.
From S2P Require Import Prelude JsNumber JsString JsValue.

Definition numbered (base : jsstr) (count : nat) : jsstr := base ++ js "_" ++ Z_to_str (Z.of_nat count).

(** The loop from [name] on, [count] being the next number. *)
Fixpoint fresh_loop (fuel : nat) (taken : jsstr -> bool) (base name : jsstr) (count : nat) : option jsstr :=
  if negb (taken name) then Some name
  else match fuel with
       | O => None
       | S f => fresh_loop f taken base (numbered base count) (S count)
       end.

(** The loop from the base; [bound] is at least the number of taken names. *)
Definition fresh (bound : nat) (taken : jsstr -> bool) (base : jsstr) : res jsstr :=
  match fresh_loop (S bound) taken base base O with
  | Some n => Ok n
  | None => Throw Unsupported
  end.

Lemma numbered_inj base i j : numbered base i = numbered base j -> i = j.
Proof.
  unfold numbered. intros H. do 2 apply app_inv_head in H.
  pose proof (dec_value_to_str (Z.of_nat i) ltac:(lia)) as Hi.
  pose proof (dec_value_to_str (Z.of_nat j) ltac:(lia)) as Hj. rewrite H, Hj in Hi. injection Hi. lia.
Qed.

Lemma numbered_ne base i : numbered base i <> base.
Proof.
  unfold numbered. intros H. apply (f_equal length) in H. rewrite !length_app in H.
  change (length (js "_")) with 1%nat in H. lia.
Qed.

Section fresh.
Context (taken : jsstr -> bool) (names : list jsstr).
Hypothesis taken_in : forall n, taken n = true -> n ∈ names.

Lemma fresh_loop_some fuel base name count r :
  fresh_loop fuel taken base name count = Some r -> taken r = false /\ (r = name \/ exists i, r = numbered base i).
Proof using.
  clear taken_in. revert name count. induction fuel as [|f IH]; intros name count H; cbn [fresh_loop] in H;
    destruct (taken name) eqn:E; cbn [negb] in H; simplify_eq.
  - split; [done|by left].
  - destruct (IH _ _ H) as [H1 [->|[i ->]]]; eauto.
  - split; [done|by left].
Qed.

Lemma fresh_loop_none fuel base name count :
  fresh_loop fuel taken base name count = None ->
  Forall (fun n => n ∈ names) (name :: (numbered base <$> seq count fuel)).
Proof using taken_in.
  revert name count. induction fuel as [|f IH]; intros name count H; cbn [fresh_loop] in H;
    destruct (taken name) eqn:E; cbn [negb] in H; try done;
    apply taken_in in E; cbn [seq fmap list_fmap].
  - by repeat constructor.
  - constructor; [done|]. by apply IH.
Qed.

(** The loop ends within its bound, with a name that is not taken. *)
Lemma fresh_spec base :
  exists name, fresh (length names) taken base = Ok name /\ taken name = false /\
    (name = base \/ exists i, name = numbered base i).
Proof using taken_in.
  unfold fresh. destruct (fresh_loop _ _ _ _ _) as [name|] eqn:E.
  - exists name. split; [done|]. by apply fresh_loop_some in E.
  - exfalso. apply fresh_loop_none in E.
    assert (Hnd : NoDup (base :: (numbered base <$> seq 0 (S (length names))))).
    { apply NoDup_cons. split.
      - intros (i & Hi & _)%list_elem_of_fmap. by apply (numbered_ne base i).
      - apply NoDup_fmap_2; [intros i j; apply numbered_inj|apply NoDup_seq]. }
    assert (Hs : (base :: (numbered base <$> seq 0 (S (length names)))) ⊆+ names).
    { apply NoDup_submseteq; [done|]. intros n Hn. rewrite Forall_forall in E. by apply E. }
    apply submseteq_length in Hs. cbn [length] in Hs. rewrite !length_fmap, length_seq in Hs. lia.
Qed.
End fresh.

(** A base that is not taken is kept. *)
Lemma fresh_free bound taken base : taken base = false -> fresh bound taken base = Ok base.
Proof. intros H. unfold fresh. cbn [fresh_loop]. by rewrite H. Qed.
