(* ===== verification/UrlRef.v ===== *)
(** * References between documents

    The addresses of references in [lib/resolver] of swagger-ui.js: cutting a
    URL into its parts, putting it together, resolving one against a base,
    and rewriting the references of a fetched document. *)

From Stdlib Require Import String.
From S2P Require Import Prelude JsNumber JsString JsValue.

(** The object [splitUrl] returns; a part that is not set is [None]. *)
Record url_parts := UrlParts {
  proto : option jsstr;
  domain : option jsstr;
  path : option jsstr;
  fragment : option jsstr
}.

Definition is_letter (c : Z) : bool := ((97 <=? c) && (c <=? 122)) || ((65 <=? c) && (c <=? 90)).
Fixpoint letters (s : jsstr) : jsstr :=
  match s with c :: s' => if is_letter c then c :: letters s' else [] | [] => [] end.

(** The first match of letters followed by "://", without these. *)
Fixpoint find_proto (s : jsstr) : option jsstr :=
  match s with
  | [] => None
  | _ :: s' =>
      let r := letters s in
      if negb (bool_decide (r = [])) && prefixb (js "://") (drop (length r) s) then Some r else find_proto s'
  end.

(** [splitUrl]; a match is taken to be at the start of the URL. *)
Definition splitUrl (url : jsstr) : url_parts :=
  let proto := find_proto url in
  let url := match proto with Some p => slice_from url (zlength p + 1) | None => url end in
  let domain := if bool_decide (slice_list url 0 2 = js "//")
                then Some (List.hd [] (split (slice_from url 2) (js "/"))) else None in
  let url := match domain with Some d => slice_from url (2 + zlength d) | None => url end in
  let p := split url (js "#") in
  UrlParts proto domain
    (match List.hd [] p with [] => None | path => Some path end)
    (match List.tl p with [] => None | fragments => Some (join (js "#") fragments) end).

Definition opt_part (p : option jsstr) : jsstr := default [] p.

(** [unsplitUrl]. *)
Definition unsplitUrl (url : url_parts) : jsstr :=
  let result := opt_part (path url) in
  let result := match fragment url with Some f => result ++ js "#" ++ f | None => result end in
  match domain url with
  | Some d =>
      let result := if bool_decide (slice_list result 0 1 = js "/") then slice_from result 1 else result in
      let result := js "//" ++ d ++ js "/" ++ result in
      match proto url with Some p => p ++ js ":" ++ result | None => result end
  | None => result
  end.

(** The loop over the leading dots of a relative path. *)
Fixpoint walk_dots (path relpath : list jsstr) : list jsstr :=
  match relpath with
  | seg :: rest =>
      if bool_decide (seg = js "..") then walk_dots (removelast path) rest
      else if bool_decide (seg = js ".") then walk_dots path rest
      else path ++ relpath
  | [] => path
  end.

(** [joinUrl]. *)
Definition joinUrl (base rel : jsstr) : jsstr :=
  let relsp := splitUrl rel in
  match domain relsp with
  | Some _ => rel
  | None =>
      let result := splitUrl base in
      unsplitUrl
        (match path relsp with
         | None => UrlParts (proto result) (domain result) (path result) (fragment relsp)
         | Some rp =>
             if bool_decide (slice_list rp 0 1 = js "/")
             then UrlParts (proto result) (domain result) (Some rp) (fragment relsp)
             else
               let path := match path result with Some p => split p (js "/") | None => [] end in
               UrlParts (proto result) (domain result)
                 (Some (join (js "/") (walk_dots (removelast path) (split rp (js "/"))))) (fragment relsp)
         end)
  end.

(** [retainRoot]: the value after the call, every reference in it made
    relative to [root]. *)
Definition ref_key := js "$ref".
Fixpoint retain_in (root : jsstr) (v : jsval) : jsval :=
  let item k x := match x with
                  | VStr s => if bool_decide (k = ref_key) then VStr (joinUrl root s) else x
                  | _ => retain_in root x
                  end in
  match v with
  | VObj o => VObj (List.map (fun kv => (kv.1, item kv.1 kv.2)) o)
  | VArr l => VArr (List.map (retain_in root) l)
  | _ => v
  end.
Definition retainRoot (origKey : jsstr) (v : jsval) (root : jsstr) : jsval :=
  match v with
  | VStr s => if bool_decide (origKey = ref_key) then VStr (joinUrl root s) else v
  | _ => retain_in root v
  end.

(** ** Cutting and putting together *)

Definition with_fragment (t : jsstr) (f : option jsstr) : jsstr :=
  match f with Some f => t ++ js "#" ++ f | None => t end.

Lemma split_with_fragment t f :
  35 ∉ t -> let p := split (with_fragment t f) (js "#") in
  List.hd [] p = t /\
  match List.tl p with [] => None | fragments => Some (join (js "#") fragments) end = f.
Proof.
  intros Ht. change (js "#") with [35]. destruct f as [f|]; cbn [with_fragment].
  - change (t ++ js "#" ++ f) with (t ++ 35 :: f). rewrite split_char_app by done. split; [done|]. cbn [List.tl].
    pose proof (split_nonempty f [35]) as Hne. pose proof (join_split 35 f) as Hj.
    destruct (split f [35]); [done|by rewrite Hj].
  - by rewrite split_no_char.
Qed.

Lemma letters_app p c s : forallb is_letter p = true -> is_letter c = false -> letters (p ++ c :: s) = p.
Proof.
  intros Hp Hc. induction p as [|x p IH]; cbn; [by rewrite Hc|]. cbn in Hp.
  apply andb_true_iff in Hp as [-> Hp]. by rewrite IH.
Qed.

Lemma find_proto_full p s :
  p <> [] -> forallb is_letter p = true -> find_proto (p ++ js "://" ++ s) = Some p.
Proof.
  intros Hne Hp. change (p ++ js "://" ++ s) with (p ++ 58 :: (47 :: 47 :: s)). destruct p as [|c p]; [done|].
  cbn [find_proto app]. change (c :: p ++ 58 :: 47 :: 47 :: s) with ((c :: p) ++ 58 :: 47 :: 47 :: s).
  rewrite letters_app by done. rewrite bool_decide_eq_false_2 by done. rewrite drop_app_length. done.
Qed.

Lemma letters_drop s : exists t, s = letters s ++ t.
Proof.
  induction s as [|c s [t IH]]; [by exists []|]. cbn. destruct (is_letter c).
  - exists t. cbn. by rewrite <- IH.
  - by eexists.
Qed.

Lemma find_proto_colon s : 58 ∉ s -> find_proto s = None.
Proof.
  induction s as [|c s IH]; intros H; [done|]. cbn [find_proto].
  destruct (prefixb (js "://") (drop (length (letters (c :: s))) (c :: s))) eqn:E.
  - exfalso. apply prefixb_spec in E as [t E]. apply H. rewrite <- (take_drop (length (letters (c :: s))) (c :: s)), E.
    apply elem_of_app. right. by left.
  - rewrite andb_false_r. apply IH. intros Hin. apply H. by right.
Qed.

(** An absolute URL in parts. *)
Definition full_url (p d t : jsstr) (f : option jsstr) : jsstr :=
  p ++ js "://" ++ d ++ with_fragment (js "/" ++ t) f.

Definition is_proto (p : jsstr) : bool := negb (bool_decide (p = [])) && forallb is_letter p.
Definition lacks (s : jsstr) (cs : jsstr) : bool := forallb (fun c => negb (bool_decide (c ∈ s))) cs.

Lemma lacks_not_in s cs c : lacks s cs = true -> c ∈ cs -> c ∉ s.
Proof.
  intros H%Forall_forallb Hc. rewrite Forall_forall in H. apply H in Hc. apply negb_true_iff, bool_decide_eq_false in Hc. done.
Qed.

Lemma splitUrl_full p d t f :
  is_proto p = true -> 47 ∉ d -> 35 ∉ t ->
  splitUrl (full_url p d t f) = UrlParts (Some p) (Some d) (Some (js "/" ++ t)) f.
Proof.
  unfold is_proto. intros [Hne Hp]%andb_true_iff Hd Ht. apply negb_true_iff, bool_decide_eq_false in Hne.
  unfold splitUrl, full_url. rewrite find_proto_full by done. cbv zeta.
  set (rest := d ++ with_fragment (js "/" ++ t) f).
  assert (E1 : slice_from (p ++ js "://" ++ rest) (zlength p + 1) = js "//" ++ rest).
  { change (p ++ js "://" ++ rest) with (p ++ [58] ++ js "//" ++ rest). rewrite app_assoc. apply slice_app.
    unfold zlength. rewrite length_app. cbn [length]. lia. }
  rewrite E1. assert (Es : slice_list (js "//" ++ rest) 0 2 = js "//") by exact (slice_take (js "//" ++ rest) 2).
  rewrite Es, bool_decide_eq_true_2 by done.
  assert (E2 : slice_from (js "//" ++ rest) 2 = rest) by by apply slice_app.
  rewrite E2. unfold rest.
  assert (Hw : exists u, with_fragment (js "/" ++ t) f = 47 :: u) by (destruct f; cbn [with_fragment]; by eexists).
  destruct Hw as [u Hu]. assert (E3 : List.hd [] (split (d ++ with_fragment (js "/" ++ t) f) (js "/")) = d).
  { rewrite Hu. change (js "/") with [47]. by rewrite split_char_app. }
  rewrite E3.
  assert (E4 : slice_from (js "//" ++ d ++ with_fragment (js "/" ++ t) f) (2 + zlength d) = with_fragment (js "/" ++ t) f).
  { rewrite app_assoc. apply slice_app. unfold zlength. rewrite length_app. change (length (js "//")) with 2%nat. lia. }
  rewrite E4. destruct (split_with_fragment (js "/" ++ t) f) as [E5 E6].
  { change (js "/" ++ t) with (47 :: t). intros [?|?]%elem_of_cons; done. }
  cbv zeta in E5, E6. rewrite E5, E6. done.
Qed.

Lemma unsplitUrl_full p d t f : unsplitUrl (UrlParts (Some p) (Some d) (Some (js "/" ++ t)) f) = full_url p d t f.
Proof.
  unfold unsplitUrl, full_url.
  change (opt_part (path (UrlParts (Some p) (Some d) (Some (js "/" ++ t)) f))) with (js "/" ++ t).
  cbn [fragment domain proto]. cbv zeta. fold (with_fragment (js "/" ++ t) f).
  assert (Hw : exists u, with_fragment (js "/" ++ t) f = 47 :: u) by (destruct f; cbn [with_fragment]; by eexists).
  destruct Hw as [u Hu].
  rewrite Hu. assert (Es : slice_list (47 :: u) 0 1 = js "/") by exact (slice_take (47 :: u) 1).
  rewrite Es, bool_decide_eq_true_2 by done.
  assert (Ed : slice_from (47 :: u) 1 = u) by (apply (slice_app [47]); done). rewrite Ed.
  change (js "/" ++ u) with (47 :: u). change (js "//" ++ d ++ 47 :: u) with (47 :: 47 :: d ++ 47 :: u). done.
Qed.

(** ** Resolving *)

Lemma with_fragment_lacks t f c : c ∉ t -> c ∉ opt_part f -> c <> 35 -> c ∉ with_fragment t f.
Proof.
  intros Ht Hf Hc. destruct f as [f|]; [|done]. cbn [with_fragment].
  rewrite !elem_of_app. intros [?|[H|?]]; try done. apply list_elem_of_singleton in H. done.
Qed.

(** A relative reference: no scheme, and a path that does not start with a
    slash. *)
Lemma splitUrl_relative c t f :
  c <> 47 -> 58 ∉ with_fragment (c :: t) f -> 35 ∉ c :: t ->
  splitUrl (with_fragment (c :: t) f) = UrlParts None None (Some (c :: t)) f.
Proof.
  intros Hc Hp Ht. unfold splitUrl. rewrite find_proto_colon by done. cbv zeta.
  assert (Es : bool_decide (slice_list (with_fragment (c :: t) f) 0 2 = js "//") = false).
  { apply bool_decide_eq_false. rewrite (slice_take (with_fragment (c :: t) f) 2 : slice_list _ 0 2 = _).
    by destruct f; intros [= ? _]. }
  rewrite Es. destruct (split_with_fragment (c :: t) f Ht) as [E1 E2]. cbv zeta in E1, E2. by rewrite E1, E2.
Qed.

Lemma splitUrl_fragment g : 58 ∉ g -> splitUrl (js "#" ++ g) = UrlParts None None None (Some g).
Proof.
  intros Hg. unfold splitUrl. change (js "#" ++ g) with (with_fragment [] (Some g)).
  rewrite find_proto_colon by (apply with_fragment_lacks; [apply not_elem_of_nil|done|done]). cbv zeta.
  assert (Es : bool_decide (slice_list (with_fragment [] (Some g)) 0 2 = js "//") = false).
  { apply bool_decide_eq_false. rewrite (slice_take (with_fragment [] (Some g)) 2 : slice_list _ 0 2 = _). done. }
  rewrite Es. destruct (split_with_fragment [] (Some g)) as [E1 E2]; [apply not_elem_of_nil|].
  cbv zeta in E1, E2. by rewrite E1, E2.
Qed.

Definition seg_ok (s : jsstr) : Prop := 47 ∉ s /\ 35 ∉ s.
Definition dotted (k : nat) (rs : list jsstr) : list jsstr := repeat (js "..") k ++ rs.

Lemma join_cons_slash l : l <> [] -> js "/" ++ join (js "/") l = join (js "/") ([] :: l).
Proof. intros H. by rewrite join_cons. Qed.

Lemma walk_dots_up k rs : forall (ds : list jsstr) x,
  (k <= length ds)%nat -> List.hd [] rs <> js ".." -> List.hd [] rs <> js "." -> rs <> [] ->
  walk_dots (x :: ds) (dotted k rs) = (x :: take (length ds - k) ds) ++ rs.
Proof.
  induction k as [|k IH]; intros ds x Hk H1 H2 Hne.
  - destruct rs as [|r rs]; [done|]. cbn [dotted repeat app walk_dots]. rewrite !bool_decide_eq_false_2 by done.
    rewrite Nat.sub_0_r, take_ge by lia. done.
  - change (dotted (S k) rs) with (js ".." :: dotted k rs). cbn [walk_dots].
    rewrite bool_decide_eq_true_2 by done. destruct ds as [|y ds _] using rev_ind; [cbn in Hk; lia|].
    rewrite length_app in *. cbn [length] in *.
    rewrite app_comm_cons, removelast_last. rewrite IH by (done || lia).
    replace (length ds + 1 - S k)%nat with (length ds - k)%nat by lia. rewrite take_app_le by lia. done.
Qed.

Lemma seg_join l : Forall seg_ok l -> l <> [] -> 35 ∉ join (js "/") l /\ split (join (js "/") l) (js "/") = l.
Proof.
  intros Hl Hne. split.
  - clear Hne. induction Hl as [|s l [_ Hs] Hl IH]; [apply not_elem_of_nil|].
    destruct l as [|s2 l]; [done|]. rewrite join_cons by done. rewrite !elem_of_app.
    intros [?|[H|?]]; try done. by apply list_elem_of_singleton in H.
  - apply (split_join 47); [done|]. eapply Forall_impl; [exact Hl|]. by intros s [H _].
Qed.

Lemma dotted_seg_ok k rs : Forall seg_ok rs -> Forall seg_ok (dotted k rs).
Proof.
  intros H. apply Forall_app. split; [|done]. apply Forall_forall. intros s Hs. apply list_elem_of_In, repeat_spec in Hs as ->.
  split; by apply not_in_lit.
Qed.

Lemma join_no_colon l : Forall (fun s => 58 ∉ s) l -> 58 ∉ join (js "/") l.
Proof.
  intros H. induction H as [|s l Hs Hl IH]; [apply not_elem_of_nil|].
  destruct l as [|s2 l]; [done|]. rewrite join_cons by done. rewrite !elem_of_app.
  intros [?|[E|?]]; try done. by apply list_elem_of_singleton in E.
Qed.

(** [joinUrl] resolves references the way URLs do: against a base with
    directories [ds], a path that goes up [k] of them and down [rs] gives the
    base's scheme and host with the remaining directories followed by [rs],
    and the reference's fragment; a fragment alone replaces the base's. *)
Theorem join_resolves p d ds file bf k rs rf g :
  is_proto p = true -> 47 ∉ d -> Forall seg_ok (ds ++ [file]) -> (k <= length ds)%nat ->
  Forall seg_ok rs -> Forall (fun s => 58 ∉ s) rs -> 58 ∉ opt_part rf -> 58 ∉ g ->
  List.hd [] rs ∉ [js ".."; js "."; []] ->
  let base := full_url p d (join (js "/") (ds ++ [file])) bf in
  joinUrl base (with_fragment (join (js "/") (dotted k rs)) rf) =
    full_url p d (join (js "/") (take (length ds - k) ds ++ rs)) rf /\
  joinUrl base (js "#" ++ g) = full_url p d (join (js "/") (ds ++ [file])) (Some g).
Proof.
  intros Hp Hd Hb Hk Hrs Hcolon Hrf Hg Hhd. cbv zeta.
  rewrite !not_elem_of_cons in Hhd. destruct Hhd as (H1 & H2 & H3 & _).
  assert (Hrs0 : rs <> []) by (by intros ->).
  assert (Hbl : ds ++ [file] <> []) by (by destruct ds).
  destruct (seg_join _ Hb Hbl) as [Hb35 _].
  assert (Hpath : split (js "/" ++ join (js "/") (ds ++ [file])) (js "/") = [] :: ds ++ [file]).
  { rewrite join_cons_slash by done. apply seg_join; [|done]. constructor; [|done]. split; apply not_elem_of_nil. }
  split; unfold joinUrl.
  - assert (Hd0 : dotted k rs <> []) by (by destruct k, rs).
    destruct (seg_join (dotted k rs)) as [Hr35 Hrsplit]; [by apply dotted_seg_ok|done|].
    assert (Hhd : exists c t, join (js "/") (dotted k rs) = c :: t /\ c <> 47).
    { destruct k as [|k].
      - destruct rs as [|[|c r] rs]; [done|done|]. assert (c <> 47) by (apply Forall_cons in Hrs as [[Hc _] _]; intros ->; apply Hc; by left).
        destruct rs; [by exists c, r|]. change (dotted 0 ((c :: r) :: l :: rs)) with ((c :: r) :: l :: rs).
        rewrite join_cons by done. by eexists c, _.
      - change (dotted (S k) rs) with (js ".." :: dotted k rs). rewrite join_cons by (by destruct k, rs). by eexists 46, _. }
    destruct Hhd as (c & t & Et & Hc).
    assert (Hcol : 58 ∉ join (js "/") (dotted k rs)).
    { apply join_no_colon, Forall_app. split; [|done]. apply Forall_forall. intros s Hs.
      apply list_elem_of_In, repeat_spec in Hs as ->. by apply not_in_lit. }
    rewrite Et in Hr35, Hcol, Hrsplit |- *.
    rewrite splitUrl_relative; [|done|by apply with_fragment_lacks|done]. cbn [domain path fragment].
    rewrite splitUrl_full by done. cbn [domain path fragment proto].
    assert (Es : slice_list (c :: t) 0 1 = [c]) by exact (slice_take (c :: t) 1).
    rewrite Es, bool_decide_eq_false_2 by (by intros [= ->]).
    rewrite Hpath, Hrsplit. change ([] :: ds ++ [file]) with (([] :: ds) ++ [file]). rewrite removelast_last.
    rewrite walk_dots_up by done. cbn [app]. rewrite <- join_cons_slash by (intros [_ ?]%app_nil; done).
    apply unsplitUrl_full.
  - rewrite splitUrl_fragment by done. cbn [domain path fragment]. rewrite splitUrl_full by done.
    cbn [domain path fragment proto]. apply unsplitUrl_full.
Qed.

Lemma join_resolves_witness :
  joinUrl (js "http://h.com/api/v1/spec.json") (js "../common/errors.json#/definitions/E") =
    js "http://h.com/api/common/errors.json#/definitions/E" /\
  joinUrl (js "http://h.com/api/v1/spec.json") (js "#/definitions/P") = js "http://h.com/api/v1/spec.json#/definitions/P".
Proof.
  refine (join_resolves (js "http") (js "h.com") [js "api"; js "v1"] (js "spec.json") None 1
    [js "common"; js "errors.json"] (Some (js "/definitions/E")) (js "/definitions/P") _ _ _ _ _ _ _ _ _);
    try (by apply not_in_lit); try reflexivity; repeat constructor; try (by apply not_in_lit).
  rewrite !not_elem_of_cons. repeat split; try done. apply not_elem_of_nil.
Defined.

(** A URL inside the query of a reference is taken for its scheme, and the
    reference is cut at the wrong place. *)
Example scheme_in_query :
  joinUrl (js "http://h.com/a/b.json") (js "/r?u=http://x/y") = js "http://h.com/a/http://x/y".
Proof. reflexivity. Qed.
