(* ===== verification/Resolver.v ===== *)
(** * The resolver: references and composition

    [lib/resolver] of swagger-ui.js, the parts that work on one document:
    the table entries of references, looking a reference up in a fetched
    document, counting what is left unresolved, fresh names for inline models,
    and merging the parts of [allOf].  Documents are trees here; an entry names
    the object it belongs to by the number of [items] steps from the property
    that was looked at. *)

From Stdlib Require Import String.
From S2P Require Import Prelude JsNumber JsString JsValue Names UrlRef.
#[local] Set Warnings "-register-all".

(** ** Names *)

(** [uniqueName]: a name that no object of the definitions has. *)
Definition uniqueName (definitions : obj) (base : jsstr) : res jsstr :=
  fresh (length definitions) (fun name => is_object (get definitions name)) base.

(** ** The resolution table *)

Inductive resolve_as := AsRef | AsInline.

Record entry := Entry {
  items_steps : nat;
  resolveAs : resolve_as;
  e_root : jsval;
  e_key : jsval;
  e_location : jsval
}.

(** What looking at a property does: an entry for the table; a model taken out
    into the definitions, with what the property becomes; or nothing. *)
Inductive look :=
| LEntry (e : entry)
| LModel (items_steps : nat) (name : jsstr) (definition property : jsval)
| LNothing.

(** [v[i]] of a split. *)
Definition nth_str (l : list jsstr) (i : nat) : jsval := match l !! i with Some s => VStr s | None => VUndef end.

(** The directory of a root: [sp[i] + '/'] for all but the last. *)
Definition directory (root : jsstr) : jsstr :=
  List.concat ((fun s => s ++ js "/") <$> removelast (split root (js "/"))).

Definition http_ref (s : jsstr) : bool := startsWith s (js "http:") || startsWith s (js "https:").

(** The root, key and location of a reference in [resolveTo]. *)
Definition ref_target (root : jsval) (ref : jsstr) (location : jsval) : res (jsval * jsval * jsval) :=
  if 0 <=? indexOf ref (js "#") then
    let parts := split ref (js "#") in
    let file := List.hd [] parts in
    let location := nth_str parts 1 in
    if bool_decide (file = []) || startsWith ref (js "/") then Ok (root, VStr ref, location)
    else if http_ref file then Ok (VStr file, location, location)
    else r ← as_str root; Ok (VStr (directory r ++ file), VStr ref, location)
  else if http_ref ref then Ok (VStr ref, VStr ref, vstr "")
  else r ← as_str root; Ok (VStr (directory r ++ ref), VStr ref, vstr "").

(** [resolveTo]; the recursion follows [items]. *)
Fixpoint resolveTo_fuel (n : nat) (definitions : obj) (root property location : jsval) : res look :=
  ref ← prop property (js "$ref");
  if negb (is_nullish ref) then
    r ← as_str ref;
    '(root, key, location) ← ref_target root r location;
    Ok (LEntry (Entry O AsRef root key location))
  else
    type ← prop property (js "type");
    if eq_str type (js "array") then
      items ← prop property (js "items");
      match n with
      | O => Throw Unsupported
      | S n' =>
          l ← resolveTo_fuel n' definitions root items location;
          Ok (match l with
              | LEntry e => LEntry (Entry (S (items_steps e)) (resolveAs e) (e_root e) (e_key e) (e_location e))
              | LModel k name d p => LModel (S k) name d p
              | LNothing => LNothing
              end)
      end
    else
      properties ← prop property (js "properties");
      additional ← prop property (js "additionalProperties");
      if truthy properties || truthy additional then
        title ← prop property (js "title");
        name ← (if truthy title then uniqueName definitions (to_str title)
                else uniqueName definitions (js "inline_model"));
        let untitled := remove (js "title") (as_obj property) in
        Ok (LModel O name (VObj untitled)
              (VObj (remove (js "properties") (remove (js "type")
                 (put (js "$ref") (VStr (js "#/definitions/" ++ name)) untitled)))))
      else Ok LNothing.
Definition resolveTo (definitions : obj) (root property location : jsval) : res look :=
  resolveTo_fuel (S (vdepth property)) definitions root property location.

(** ** Inline references *)

(** Going up from the root for the "../" of a reference: the root and what is
    left of the reference. *)
Definition up_root (root ref : jsstr) : jsstr * jsstr :=
  let '(p2, ref') := foldl (fun '(p2, r) part =>
      if bool_decide (part = []) then (removelast p2, r) else (p2, r ++ part))
    (split root (js "/"), []) (split ref (js "../")) in
  (join (js "/") (removelast p2), ref').

(** The scheme and host of a root, up to and with the delimiter after them. *)
Fixpoint until_delim (s : jsstr) : jsstr * jsstr :=
  match s with
  | [] => ([], [])
  | c :: s' =>
      if bool_decide (c ∈ js "/?#") then ([], s)
      else let '(a, b) := until_delim s' in (c :: a, b)
  end.
Definition origin (root : jsstr) : option jsstr :=
  let low := toLowerCase root in
  let n := if startsWith low (js "http://") then Some 7%nat
           else if startsWith low (js "https://") then Some 8%nat else None in
  match n with
  | Some n =>
      let '(host, rest) := until_delim (drop n root) in
      if bool_decide (host = []) then None else Some (take n root ++ host ++ take 1 rest)
  | None => None
  end.

(** The root and location of a reference with a fragment. *)
Definition fragment_root (root ref : jsstr) (rootTrimmed : bool) : res (jsstr * jsval) :=
  let rs := split ref (js "#") in
  let file := List.hd [] rs in
  if startsWith ref (js "/") then
    let p := split root (js "//") in
    match p !! 1%nat with
    | Some p1 => Ok (List.hd [] p ++ js "//" ++ List.hd [] (split p1 (js "/")) ++ file, nth_str rs 1)
    | None => Throw TypeError
    end
  else if bool_decide (file = []) then Ok (root, nth_str rs 1)
  else
    let root := if rootTrimmed then root else join (js "/") (removelast (split root (js "/"))) in
    Ok (root ++ js "/" ++ file, nth_str rs 1).

(** [resolveInline] for a reference: root and location of its entry. *)
Definition inline_target (root ref : jsstr) (location : jsval) : res (jsstr * jsval) :=
  let rootTrimmed := startsWith ref (js "../") in
  let '(root, ref) := if rootTrimmed then up_root root ref else (root, ref) in
  '(root, location) ← (if 0 <=? indexOf ref (js "#") then fragment_root root ref rootTrimmed else Ok (root, location));
  Ok (if http_ref ref then
        if 0 <=? indexOf ref (js "#") then (List.hd [] (split ref (js "#")), nth_str (split ref (js "#")) 1)
        else (ref, vstr "")
      else if startsWith ref (js "#") then (root, nth_str (split ref (js "#")) 1)
      else if startsWith ref (js "/") && (indexOf ref (js "#") =? -1) then
        match origin root with
        | Some o => (o ++ substring_from ref 1, vstr "")
        | None => (root, VStr ref)
        end
      else (root, location)).

Definition resolveInline (definitions : obj) (root property location : jsval) : res look :=
  key ← prop property (js "$ref");
  if truthy key then
    ref ← as_str key;
    r ← as_str (js_orv root (vstr ""));
    '(r, location) ← inline_target r ref location;
    Ok (LEntry (Entry O AsInline (VStr r) key location))
  else
    type ← prop property (js "type");
    if eq_str type (js "array") then
      items ← prop property (js "items");
      l ← resolveTo definitions (js_orv root (vstr "")) items location;
      Ok (match l with
          | LEntry e => LEntry (Entry (S (items_steps e)) (resolveAs e) (e_root e) (e_key e) (e_location e))
          | LModel k name d p => LModel (S k) name d p
          | LNothing => LNothing
          end)
    else Ok LNothing.

(** ** Looking up and counting references *)

(** [v[k]] for a key in text: array elements, the units and length of strings
    and arrays, properties. *)
Definition index (v : jsval) (k : jsstr) : jsval :=
  let nth {A} (l : list A) (f : A -> jsval) :=
    if bool_decide (k = js "length") then vint (Z.of_nat (length l))
    else match array_index k with Some n => match l !! Z.to_nat n with Some x => f x | None => VUndef end | None => VUndef end in
  match v with
  | VObj o => get o k
  | VArr l => nth l id
  | VStr s => nth s (fun c => VStr [c])
  | _ => VUndef
  end.

(** A segment of a location: only one with an escaped slash is unescaped. *)
Definition unescape_segment (part : jsstr) : jsstr :=
  if includes part (js "~1") then
    let segment := replace_all (replace_all part (js "~0") (js "~")) (js "~1") (js "/") in
    if bool_decide (take 1 segment = js "/") then segment else js "/" ++ segment
  else part.

(** The loop of [resolveItem] over the segments; [last] is the index of the
    last one. *)
Fixpoint walk_location (location : jsval) (parts : list jsstr) (j last : nat) : jsval :=
  match parts with
  | [] => location
  | part :: rest =>
      let segment := unescape_segment part in
      if is_nullish location then location
      else if bool_decide (segment = []) && bool_decide (j = last) && (0 <? last)%nat then VNull
      else walk_location (if bool_decide (segment = []) then location else index location segment) rest (S j) last
  end.
Definition locate (spec : jsval) (path : jsstr) : jsval :=
  let parts := split path (js "/") in
  if bool_decide (path = []) then spec else walk_location spec parts O (length parts - 1).

(** The name a reference gets: its last segment, after the hash sign if that
    is there. *)
Definition resolved_name (key : jsstr) : jsval :=
  let resolvedName := List.last (split key (js "/")) [] in
  if 0 <=? indexOf resolvedName (js "#") then nth_str (split resolvedName (js "#")) 1 else VStr resolvedName.

(** What [resolveItem] adds to the table of resolved references, or to that of
    the unresolved. *)
Inductive resolution :=
| Resolved (name location : jsval) (root : jsval)
| Unresolved (root : jsval) (location : jsstr).
Definition resolveItem (spec : jsval) (e : entry) : res (jsstr * resolution) :=
  path ← as_str (e_location e);
  key ← as_str (e_key e);
  let location := locate spec path in
  Ok (key, if is_nullish location then Unresolved (e_root e) path
           else Resolved (resolved_name key) location (e_root e)).

(** [getRefs]: the reference texts of a document, each once. *)
Definition add_key (k : jsstr) (output : list jsstr) : list jsstr :=
  if bool_decide (k ∈ output) then output else output ++ [k].
Fixpoint getRefs_fuel (n : nat) (v : jsval) : list jsstr :=
  match n with
  | O => []
  | S n' =>
      foldl (fun output '(key, item) =>
        match item with
        | VStr s => if bool_decide (key = ref_key) then add_key s output else output
        | VObj _ | VArr _ => foldl (fun out k => add_key k out) output (getRefs_fuel n' item)
        | _ => output
        end) [] (for_in_val v)
  end.
Definition getRefs (v : jsval) : list jsstr := getRefs_fuel (S (vdepth v)) v.

(** Following a local reference from the root of the document; [None] when it
    leads nowhere, an exception when it passes through null. *)
Fixpoint follow (v : jsval) (parts : list jsstr) : res bool :=
  match parts with
  | [] => Ok true
  | key :: rest =>
      if bool_decide (key = []) then follow v rest
      else match v with
           | VNull => Throw TypeError
           | _ => let w := index v key in if is_undef w then Ok false else follow w rest
           end
  end.

Definition ref_resolves (spec : jsval) (ref : jsstr) : res bool :=
  if startsWith ref (js "#") then follow spec (split (substring_from ref 1) (js "/")) else Ok false.

(** [countUnresolvedRefs]: references to other documents, and local ones that
    lead nowhere. *)
Definition countUnresolvedRefs (spec : jsval) : res nat :=
  bs ← mapM_res (ref_resolves spec) (getRefs spec);
  Ok (length (filter (fun b => b = false) bs)).

(** ** Composition *)

Definition RESOLVED_FROM := js "x-resolved-from".
Definition ALL_OF := js "allOf".

(** [v[k] = x] in strict mode: a primitive throws.  An array's own named
    properties are not represented. *)
Definition set_prop (v : jsval) (k : jsstr) (x : jsval) : res jsval :=
  match v with
  | VObj o => Ok (VObj (put k x o))
  | VArr _ | VHost _ _ => Ok v
  | _ => Throw TypeError
  end.

(** [a.concat(b)]. *)
Definition concat_val (a b : jsval) : res (list jsval) :=
  match a with
  | VArr l => Ok (l ++ match b with VArr m => m | v => [v] end)
  | _ => Throw TypeError
  end.

(** The nested loops that drop later duplicates. *)
Fixpoint dedup_vals (l : list jsval) : list jsval :=
  match l with
  | [] => []
  | x :: l' => x :: filter (fun y => strict_eq x y = false) (dedup_vals l')
  end.

(** Marking the properties that come from a component. *)
Definition mark_all (source : jsval) (properties : jsval) : res jsval :=
  match properties with
  | VObj o =>
      o' ← foldM_res (fun o kv => x ← set_prop (get o kv.1) RESOLVED_FROM source; Ok (put kv.1 x o)) o (for_in o);
      Ok (VObj o')
  | VArr l => l' ← mapM_res (fun x => set_prop x RESOLVED_FROM source) l; Ok (VArr l')
  | VStr (_ :: _) => Throw TypeError
  | v => Ok v
  end.

(** The property of a component over the one of the output. *)
Definition merge_property (source : jsval) (properties : obj) (kv : jsstr * jsval) : res obj :=
  from ← prop kv.2 RESOLVED_FROM;
  let resolvedFrom := if is_undef from || eq_str from (js "self") then source else from in
  x ← set_prop kv.2 RESOLVED_FROM resolvedFrom;
  Ok (put kv.1 x properties).

(** A part of a component. *)
Definition merge_part (source : jsval) (output : obj) (kv : jsstr * jsval) : res obj :=
  let part := kv.1 in
  if negb (has_key part output) then
    v ← (if bool_decide (part = js "properties") then mark_all source kv.2 else Ok kv.2);
    Ok (put part v output)
  else if bool_decide (part = js "properties") then
    match get output part with
    | VObj properties =>
        ps ← foldM_res (merge_property source) properties (for_in_val kv.2);
        Ok (put part (VObj ps) output)
    | v => match for_in_val kv.2 with [] => Ok output | _ => match v with VArr _ => Throw Unsupported | _ => Throw TypeError end end
    end
  else if bool_decide (part = js "required") then
    a ← concat_val (get output part) kv.2;
    Ok (put part (VArr (dedup_vals a)) output)
  else if bool_decide (part = RESOLVED_FROM) then
    match get output part with
    | VArr l => Ok (put part (VArr (l ++ [source])) output)
    | _ => Throw TypeError
    end
  else Ok output.

(** A component: where it comes from, and its parts. *)
Definition merge_component (output : obj) (component : jsval) : res obj :=
  from ← prop component RESOLVED_FROM;
  source ← (if is_undef from then Ok (vstr "self")
            else match from with VNull => Throw TypeError | v => Ok (index v (js "0")) end);
  foldM_res (merge_part source) output (for_in_val component).

(** The object an item with [allOf] is replaced by. *)
Definition compose (item : obj) (allOf : list jsval) : res jsval :=
  let output := put (js "x-composed") (VBool true) (remove ALL_OF item) in
  output ← foldM_res merge_component output allOf;
  Ok (VObj output).

Definition compose_item (item : jsval) : res jsval :=
  match item with
  | VObj o => match get o ALL_OF with VArr allOf => compose o allOf | _ => Ok item end
  | _ => Ok item
  end.

(** [resolveAllOf]: the object after the call.  An item is treated before it
    is composed, and put back under its own key. *)
Fixpoint resolveAllOf_fuel (n : nat) (v : jsval) : res jsval :=
  match n with
  | O => Throw Unsupported
  | S n' =>
      let item x := match x with
                    | VNull => Throw TypeError
                    | VObj _ | VArr _ => x' ← resolveAllOf_fuel n' x; compose_item x'
                    | _ => Ok x
                    end in
      match v with
      | VObj o =>
          o' ← mapM_res (fun kv => x ← item kv.2; Ok (kv.1, x)) o; Ok (VObj o')
      | VArr l => l' ← mapM_res item l; Ok (VArr l')
      | _ => Ok v
      end
  end.
Definition resolveAllOf (v : jsval) : res jsval := resolveAllOf_fuel (S (vdepth v)) v.

(** ** Fresh names *)

Lemma is_object_key definitions name : is_object (get definitions name) = true -> name ∈ definitions.*1.
Proof.
  intros H. destruct (decide (name ∈ definitions.*1)) as [|Hn]; [done|].
  apply assoc_none in Hn. unfold get in H. by rewrite Hn in H.
Qed.

(** [uniqueName] comes to an end whatever the definitions, with a name
    that no object of the definitions has: the base, or the base with a
    number. *)
Theorem uniqueName_fresh definitions base :
  exists name, uniqueName definitions base = Ok name /\ is_object (get definitions name) = false /\
    (name = base \/ exists i, name = numbered base i).
Proof.
  destruct (fresh_spec (fun n => is_object (get definitions n)) definitions.*1 (is_object_key definitions) base)
    as (name & E & H). exists name. unfold uniqueName. by rewrite length_fmap in E.
Qed.

(** ** Composition leaves no [allOf] *)

Definition container (v : jsval) : bool := match v with VObj _ | VArr _ => true | _ => false end.

(** A value whose objects have each key once, as objects do. *)
Inductive wf_val : jsval -> Prop :=
| wf_obj o : NoDup o.*1 -> Forall (fun kv => wf_val kv.2) o -> wf_val (VObj o)
| wf_arr l : Forall wf_val l -> wf_val (VArr l)
| wf_prim v : container v = false -> wf_val v.

(** ... and in which no object has an array [allOf]. *)
Inductive composed : jsval -> Prop :=
| composed_obj o : NoDup o.*1 -> is_array (get o ALL_OF) = false -> Forall (fun kv => composed kv.2) o -> composed (VObj o)
| composed_arr l : Forall composed l -> composed (VArr l)
| composed_prim v : container v = false -> composed v.

(** The same for everything strictly inside a value. *)
Definition inside (v : jsval) : Prop :=
  match v with
  | VObj o => NoDup o.*1 /\ Forall (fun kv => composed kv.2) o
  | VArr l => Forall composed l
  | _ => True
  end.

Lemma composed_inside v : composed v -> inside v.
Proof. intros H. inversion H; subst; cbn; [by split|done|]. by destruct v. Qed.

Lemma composed_get o k : Forall (fun kv => composed kv.2) o -> composed (get o k).
Proof.
  intros H. unfold get. destruct (assoc k o) as [v|] eqn:E; [|by apply composed_prim].
  apply assoc_some_in in E. rewrite Forall_forall in H. by apply (H (k, v)).
Qed.

Lemma composed_index v k : composed v -> composed (index v k).
Proof.
  intros H. apply composed_inside in H. destruct v as [| | | |s|l|o|]; cbn [index]; try by apply composed_prim.
  - case_match; [by apply composed_prim|]. case_match; [|by apply composed_prim].
    case_match; by apply composed_prim.
  - case_match; [by apply composed_prim|]. case_match; [|by apply composed_prim].
    destruct (l !! _) as [x|] eqn:E; [|by apply composed_prim]. apply list_elem_of_lookup_2 in E.
    cbn in H. rewrite Forall_forall in H. by apply H.
  - apply composed_get, H.
Qed.

(** The objects being composed: an invariant of [output]. *)
Definition output_ok (o : obj) : Prop :=
  NoDup o.*1 /\ is_array (get o ALL_OF) = false /\ Forall (fun kv => composed kv.2) o.

Lemma Forall_put (P : jsval -> Prop) k v o :
  P v -> Forall (fun kv => P kv.2) o -> Forall (fun kv => P kv.2) (put k v o).
Proof.
  intros Hv H. induction H as [|[k' v'] o Hx H IH]; cbn; [by constructor|]. case_bool_decide; by constructor.
Qed.

Lemma output_put k v o :
  composed v -> (k = ALL_OF -> is_array v = false) -> output_ok o -> output_ok (put k v o).
Proof.
  intros Hv Hk (H1 & H2 & H3). split; [by apply put_nodup|]. split; [|by apply Forall_put].
  destruct (decide (k = ALL_OF)) as [->|Hne]; [rewrite get_put_eq; auto|by rewrite get_put_ne].
Qed.

Lemma composed_set v k x v' :
  k <> ALL_OF -> composed v -> composed x -> set_prop v k x = Ok v' -> composed v'.
Proof.
  intros Hk Hv Hx H. unfold set_prop in H. destruct v as [| | | | |l|o|]; simplify_eq; try done.
  inversion Hv as [o' H1 H2 H3|l H1|v H1]; subst; [|done].
  destruct (output_put k x o) as (P1 & P2 & P3); [done|by intros|done|]. by apply composed_obj.
Qed.

Lemma composed_str s : composed (VStr s).
Proof. by apply composed_prim. Qed.
#[local] Hint Resolve composed_str composed_get composed_index output_put : js.

Lemma foldM_output {A} (f : obj -> A -> res obj) l :
  (forall x o o', x ∈ l -> output_ok o -> f o x = Ok o' -> output_ok o') ->
  forall o o', output_ok o -> foldM_res f o l = Ok o' -> output_ok o'.
Proof.
  intros Hf o o' Ho H. apply (foldM_res_inv output_ok f l o o'); [|done|done].
  intros s x s' Hx Hs E. by apply (Hf x s).
Qed.

Lemma composed_obj_iff o : composed (VObj o) <-> output_ok o.
Proof.
  split; [|intros (H1 & H2 & H3); by apply composed_obj].
  intros H. inversion H; subst; [by repeat split|done].
Qed.

Lemma mark_all_composed source v v' :
  composed source -> composed v -> mark_all source v = Ok v' -> composed v' /\ is_array v' = is_array v.
Proof.
  intros Hs Hv H. unfold mark_all in H. destruct v as [| | | |[|c s]|l|o|]; simplify_eq; try done.
  - apply bind_ok in H as (l' & E & [= <-]). split; [|done]. apply composed_arr.
    apply mapM_res_ok in E. inversion Hv as [|l0 Hl|? Hc]; subst; [|done].
    clear Hv. induction E as [|x y l l' E _ IH]; [constructor|]. apply Forall_cons in Hl as [Hx Hl].
    constructor; [|by apply IH]. eapply composed_set; [|exact Hx|exact Hs|exact E]. intros Ha. by vm_compute in Ha.
  - apply bind_ok in H as (o' & E & [= <-]). split; [|done]. apply composed_obj_iff.
    apply composed_obj_iff in Hv. eapply foldM_output; [|exact Hv|exact E].
    intros kv o1 o2 _ Ho E1. apply bind_ok in E1 as (x & Ex & [= <-]).
    assert (Hx : composed x).
    { eapply composed_set; [|apply composed_get, Ho|exact Hs|exact Ex]. intros Ha. by vm_compute in Ha. }
    destruct (get o1 kv.1) eqn:Eg; cbn in Ex; simplify_eq; apply output_put; try done.
    intros Ek. destruct Ho as (_ & Ho & _). rewrite <- Ek, Eg in Ho. done.
Qed.

Lemma composed_for_in v kv : composed v -> kv ∈ for_in_val v -> composed kv.2.
Proof.
  intros H Hin. apply composed_inside in H. destruct v as [| | | |s|l|o|]; cbn in Hin; try by apply not_elem_of_nil in Hin.
  - unfold indexed in Hin. apply elem_of_lookup_imap in Hin as (i & x & -> & Hx).
    apply list_lookup_fmap_Some in Hx as (c & -> & _). by apply composed_prim.
  - unfold indexed in Hin. apply elem_of_lookup_imap in Hin as (i & x & -> & Hx).
    apply list_elem_of_lookup_2 in Hx. cbn in H. rewrite Forall_forall in H. by apply H.
  - rewrite for_in_elem in Hin. destruct H as [_ H]. rewrite Forall_forall in H. exact (H kv Hin).
Qed.

Lemma dedup_vals_subset l x : x ∈ dedup_vals l -> x ∈ l.
Proof.
  induction l as [|y l IH]; cbn; [done|]. intros [->|H]%elem_of_cons; [by left|].
  apply list_elem_of_filter in H as [_ H]. right. auto.
Qed.

Lemma merge_property_ok source ps kv ps' :
  composed source -> composed kv.2 -> kv.1 <> ALL_OF \/ is_array kv.2 = false ->
  output_ok ps -> merge_property source ps kv = Ok ps' -> output_ok ps'.
Proof.
  intros Hs Hkv Hk Hp H. unfold merge_property in H. apply bind_ok in H as (from & Ef & H). cbv zeta in H.
  apply bind_ok in H as (x & Ex & [= <-]).
  assert (Hf : composed from).
  { destruct kv.2 as [| | | | | |o|]; cbn in Ef; simplify_eq; try by apply composed_prim.
    apply composed_get. by apply composed_obj_iff in Hkv as (_ & _ & ?). }
  apply output_put; [| |done].
  - eapply composed_set; [|exact Hkv| |exact Ex]; [intros Ha; by vm_compute in Ha|]. by case_match.
  - intros E. destruct Hk as [Hk|Hk]; [done|]. by destruct kv.2; cbn in *; simplify_eq.
Qed.

Lemma not_array_entry v kv : composed v -> kv ∈ for_in_val v -> kv.1 <> ALL_OF \/ is_array kv.2 = false.
Proof.
  intros H Hin. assert (Hidx : forall A (l : list A) f, kv ∈ indexed (f <$> l) -> kv.1 <> ALL_OF).
  { intros A l f Hi. unfold indexed in Hi. apply elem_of_lookup_imap in Hi as (i & x & -> & _). cbn. intros E.
    pose proof (dec_value_to_str (Z.of_nat i) ltac:(lia)) as Hd. rewrite E in Hd. by vm_compute in Hd. }
  destruct v as [| | | |s|l|o|]; cbn in Hin; try by apply not_elem_of_nil in Hin.
  - left. by eapply Hidx.
  - left. apply (Hidx _ l id). by rewrite list_fmap_id.
  - rewrite for_in_elem in Hin. apply composed_obj_iff in H as (H1 & H2 & _). destruct kv as [k x]. cbn.
    destruct (decide (k = ALL_OF)) as [->|]; [right|by left].
    unfold get in H2. by rewrite (assoc_in_nodup _ x) in H2.
Qed.

Lemma merge_part_ok source output kv output' :
  composed source -> composed kv.2 -> kv.1 <> ALL_OF \/ is_array kv.2 = false ->
  output_ok output -> merge_part source output kv = Ok output' -> output_ok output'.
Proof.
  intros Hs Hkv Hk Ho H. unfold merge_part in H.
  destruct (has_key kv.1 output); cbn [negb] in H.
  2:{ apply bind_ok in H as (v & Ev & [= <-]).
      assert (Hv : composed v /\ is_array v = is_array kv.2).
      { case_bool_decide; [eapply mark_all_composed; [exact Hs|exact Hkv|exact Ev]|injection Ev as <-; by split]. }
      destruct Hv as [Hv Ha]. apply output_put; [done| |done]. intros E. rewrite Ha. by destruct Hk. }
  case_bool_decide as Hp.
  { assert (Hg : composed (get output kv.1)) by apply composed_get, Ho.
    destruct (get output kv.1) as [| | | | |l|ps|] eqn:Eg;
      try (destruct (for_in_val kv.2); [by simplify_eq|done]).
    apply bind_ok in H as (ps' & E & [= <-]). apply output_put; [|by rewrite Hp; intros Ha; vm_compute in Ha|done].
    apply composed_obj_iff. apply composed_obj_iff in Hg. eapply foldM_output; [|exact Hg|exact E].
    intros x o o' Hx Hox Ex. eapply merge_property_ok; [exact Hs| | |exact Hox|exact Ex].
    - by eapply composed_for_in.
    - by eapply not_array_entry. }
  case_bool_decide as Hr.
  { apply bind_ok in H as (a & Ea & [= <-]). apply output_put; [|by rewrite Hr; intros Ha; vm_compute in Ha|done].
    assert (Hg : composed (get output kv.1)) by apply composed_get, Ho.
    destruct (get output kv.1) as [| | | | |l| |]; cbn in Ea; simplify_eq.
    apply composed_arr, Forall_forall. intros x Hx%dedup_vals_subset.
    inversion Hg as [|l0 Hl|? Hc]; subst; [|done].
    apply elem_of_app in Hx as [Hx|Hx]; [rewrite Forall_forall in Hl; by apply Hl|].
    destruct kv.2 as [| | | | |m| |]; try (apply list_elem_of_singleton in Hx as ->; done).
    inversion Hkv as [|m0 Hm|? Hc]; subst; [|done]. rewrite Forall_forall in Hm. by apply Hm. }
  case_bool_decide as Hx; [|by simplify_eq].
  assert (Hg : composed (get output kv.1)) by apply composed_get, Ho.
  destruct (get output kv.1) as [| | | | |l| |]; simplify_eq.
  apply output_put; [|by rewrite Hx; intros Ha; vm_compute in Ha|done].
  apply composed_arr, Forall_app. inversion Hg as [|l0 Hl|? Hc]; subst; [|done].
  split; [done|]. by apply Forall_singleton.
Qed.

Lemma merge_component_ok output c output' :
  composed c -> output_ok output -> merge_component output c = Ok output' -> output_ok output'.
Proof.
  intros Hc Ho H. unfold merge_component in H. apply bind_ok in H as (from & Ef & H).
  apply bind_ok in H as (source & Es & H).
  assert (Hf : composed from).
  { destruct c as [| | | | | |o|]; cbn in Ef; simplify_eq; try by apply composed_prim.
    apply composed_get. by apply composed_obj_iff in Hc as (_ & _ & ?). }
  assert (Hs : composed source).
  { destruct (is_undef from); [injection Es as <-; by apply composed_prim|].
    assert (E0 : source = index from (js "0")) by (destruct from; simplify_eq; done).
    rewrite E0. by apply composed_index. }
  eapply foldM_output; [|exact Ho|exact H]. intros kv o o' Hkv Hoo E.
  eapply merge_part_ok; [exact Hs| | |exact Hoo|exact E];
    [exact (composed_for_in c kv Hc Hkv)|exact (not_array_entry c kv Hc Hkv)].
Qed.

Lemma compose_item_ok v v' : inside v -> compose_item v = Ok v' -> composed v'.
Proof.
  intros Hv H. unfold compose_item in H. destruct v as [| | | | |l|o|]; simplify_eq; try by apply composed_prim.
  - by apply composed_arr.
  - destruct Hv as [Hn Hv]. destruct (get o ALL_OF) as [| | | | |comps| |] eqn:Ea; simplify_eq;
      try (apply composed_obj; [done|by rewrite Ea|done]).
    unfold compose in H. apply bind_ok in H as (output & E & [= <-]). apply composed_obj_iff.
    assert (Hc : composed (VArr comps)) by (rewrite <- Ea; by apply composed_get).
    inversion Hc as [|l0 Hl|? Hx]; subst; [|done].
    refine (foldM_output _ _ _ _ _ _ E); [|apply output_put; [by apply composed_prim|by intros ?|]].
    + intros c o1 o2 Hin Ho E1. eapply merge_component_ok; [|exact Ho|exact E1].
      rewrite Forall_forall in Hl. by apply Hl.
    + split; [by apply remove_nodup|]. split; [by rewrite get_remove_eq|].
      unfold remove. apply Forall_forall. intros kv [_ Hkv]%list_elem_of_filter. rewrite Forall_forall in Hv. by apply Hv.
Qed.

Lemma resolveAllOf_inside n : forall v v', wf_val v -> resolveAllOf_fuel n v = Ok v' -> inside v'.
Proof.
  induction n as [|n IH]; intros v v' Hv H; [done|]. cbn [resolveAllOf_fuel] in H.
  assert (Hitem : forall x y, wf_val x ->
    match x with VNull => Throw TypeError
    | VObj _ | VArr _ => x' ← resolveAllOf_fuel n x; compose_item x' | _ => Ok x end = Ok y -> composed y).
  { intros x y Hx E. destruct x; simplify_eq; try (by apply composed_prim);
      (apply bind_ok in E as (x' & E1 & E2); eapply compose_item_ok; [by eapply IH|done]). }
  destruct v as [| | | | |l|o|]; simplify_eq; try done.
  - apply bind_ok in H as (l' & E & [= <-]). apply mapM_res_ok in E. cbn.
    inversion Hv as [|l0 Hl|? Hc]; subst; [|done]. clear Hv.
    induction E as [|x y l l' E _ IHl]; [constructor|]. apply Forall_cons in Hl as [Hx Hl].
    constructor; [by apply (Hitem x)|by apply IHl].
  - apply bind_ok in H as (o' & E & [= <-]). apply mapM_res_ok in E. cbn.
    inversion Hv as [o0 Hn Hl| |? Hc]; subst; [|done].
    assert (Hk : o'.*1 = o.*1).
    { clear -E. induction E as [|x y l l' E _ IHl]; [done|]. cbn. rewrite IHl. f_equal.
      apply bind_ok in E as (z & _ & [= <-]). done. }
    rewrite Hk. split; [done|]. clear Hv Hn Hk.
    induction E as [|x y l l' E _ IHl]; [constructor|]. apply Forall_cons in Hl as [Hx Hl].
    constructor; [|by apply IHl]. apply bind_ok in E as (z & Ez & [= <-]). by apply (Hitem x.2).
Qed.

Lemma fuel_obj_child (n : nat) k v o : (vdepth (VObj o) < S n)%nat -> (k, v) ∈ o -> (vdepth v < n)%nat.
Proof.
  intros H Hin. cbn [vdepth] in H. apply Nat.succ_lt_mono in H. induction o as [|[k' v'] o IH]; [by apply not_elem_of_nil in Hin|].
  cbn [foldr snd] in H. apply elem_of_cons in Hin as [[= -> ->]|Hin]; [lia|]. apply IH; [lia|done].
Qed.
Lemma fuel_arr_child (n : nat) v l : (vdepth (VArr l) < S n)%nat -> v ∈ l -> (vdepth v < n)%nat.
Proof.
  intros H Hin. cbn [vdepth] in H. apply Nat.succ_lt_mono in H. induction l as [|x l IH]; [by apply not_elem_of_nil in Hin|].
  cbn [foldr] in H. apply elem_of_cons in Hin as [->|Hin]; [lia|]. apply IH; [lia|done].
Qed.

Lemma mapM_res_ext {A B} (f g : A -> res B) l : (forall x, x ∈ l -> f x = g x) -> mapM_res f l = mapM_res g l.
Proof.
  induction l as [|x l IH]; intros H; cbn; [done|]. rewrite H by by left. rewrite IH; [done|]. intros y Hy. apply H. by right.
Qed.

Lemma resolveAllOf_fuel_indep n : forall m v, (vdepth v < n)%nat -> (vdepth v < m)%nat ->
  resolveAllOf_fuel n v = resolveAllOf_fuel m v.
Proof.
  induction n as [|n IH]; intros [|m] v Hn Hm; [lia..|]. cbn [resolveAllOf_fuel].
  destruct v as [| | | | |l|o|]; try done.
  - erewrite mapM_res_ext; [done|]. intros x Hx.
    pose proof (fuel_arr_child n x l Hn Hx). pose proof (fuel_arr_child m x l Hm Hx).
    destruct x; try done; by rewrite (IH m) by done.
  - erewrite mapM_res_ext; [done|]. intros [k x] Hx. cbn [fst snd].
    pose proof (fuel_obj_child n k x o Hn Hx). pose proof (fuel_obj_child m k x o Hm Hx).
    destruct x; try done; by rewrite (IH m) by done.
Qed.

(** C23. [resolveAllOf] comes to an end on every document (more fuel than its
    depth changes nothing), and when it does not throw, no object inside the
    result has a list of parts [allOf] left: every one was composed. *)
Theorem resolveAllOf_composes v n :
  wf_val v -> (vdepth v < n)%nat ->
  resolveAllOf_fuel n v = resolveAllOf v /\ forall v', resolveAllOf v = Ok v' -> inside v'.
Proof.
  intros Hv Hn. split; [apply resolveAllOf_fuel_indep; [done|lia]|].
  intros v' H. by eapply resolveAllOf_inside.
Qed.

Definition dog_definitions : jsval :=
  VObj [(js "Pet", VObj [(js "properties", VObj [(js "name", VObj [(js "type", vstr "string")])])]);
        (js "Dog", VObj [(js "allOf", VArr [VObj [(js "properties", VObj [(js "bark", VObj [(js "type", vstr "string")])])]])])].

Lemma resolveAllOf_composes_witness :
  resolveAllOf_fuel 9 dog_definitions = resolveAllOf dog_definitions /\
  forall v', resolveAllOf dog_definitions = Ok v' -> inside v'.
Proof.
  apply resolveAllOf_composes; [|vm_compute; lia].
  unfold dog_definitions. repeat match goal with
  | |- wf_val (VObj _) => apply wf_obj
  | |- wf_val (VArr _) => apply wf_arr
  | |- wf_val _ => by apply wf_prim
  | |- Forall _ [] => apply Forall_nil_2
  | |- Forall _ (_ :: _) => apply Forall_cons_2; cbn [snd]
  | |- NoDup _ => apply (bool_decide_unpack _); vm_compute; exact I
  end.
Defined.

(** ** Counting references *)

(** A reference occurs in a value. *)
Inductive ref_in : jsval -> jsstr -> Prop :=
| ref_here o s : (ref_key, VStr s) ∈ o -> ref_in (VObj o) s
| ref_obj o k v s : (k, v) ∈ o -> ref_in v s -> ref_in (VObj o) s
| ref_arr l v s : v ∈ l -> ref_in v s -> ref_in (VArr l) s.

Lemma add_key_elem k out x : x ∈ add_key k out <-> x = k \/ x ∈ out.
Proof.
  unfold add_key. case_bool_decide as H.
  - split; [by right|]. by intros [->|?].
  - rewrite elem_of_app, list_elem_of_singleton. tauto.
Qed.

Lemma add_keys_elem l : forall out x, x ∈ foldl (fun out k => add_key k out) out l <-> x ∈ l \/ x ∈ out.
Proof.
  induction l as [|k l IH]; intros out x; cbn.
  - split; [by right|]. by intros [?%not_elem_of_nil|?].
  - rewrite IH, add_key_elem, elem_of_cons. tauto.
Qed.

(** What one property contributes. *)
Definition contributes (n : nat) (kv : jsstr * jsval) (x : jsstr) : Prop :=
  match kv.2 with
  | VStr s => kv.1 = ref_key /\ x = s
  | VObj _ | VArr _ => x ∈ getRefs_fuel n kv.2
  | _ => False
  end.

Lemma getRefs_fold n kvs : forall out x,
  x ∈ foldl (fun output '(key, item) =>
        match item with
        | VStr s => if bool_decide (key = ref_key) then add_key s output else output
        | VObj _ | VArr _ => foldl (fun out k => add_key k out) output (getRefs_fuel n item)
        | _ => output
        end) out kvs <-> x ∈ out \/ exists kv, kv ∈ kvs /\ contributes n kv x.
Proof.
  induction kvs as [|[k v] kvs IH]; intros out x.
  - cbn. split; [by left|]. intros [?|(kv & H & _)]; [done|]. by apply not_elem_of_nil in H.
  - cbn [foldl]. rewrite IH. setoid_rewrite elem_of_cons.
    assert (E : forall P : Prop, (P <-> x ∈ out \/ contributes n (k, v) x) ->
      (P \/ (exists kv, kv ∈ kvs /\ contributes n kv x)) <->
      (x ∈ out \/ exists kv, (kv = (k, v) \/ kv ∈ kvs) /\ contributes n kv x)).
    { intros P ->. split.
      - intros [[?|?]|(kv & ? & ?)]; [by left|right; eauto|right; eauto].
      - intros [?|(kv & [->|?] & ?)]; [by left; left|by left; right|right; eauto]. }
    apply E. unfold contributes. cbn [fst snd]. destruct v; try tauto.
    + case_bool_decide as Hk; [rewrite add_key_elem|]; tauto.
    + rewrite add_keys_elem. tauto.
    + rewrite add_keys_elem. tauto.
Qed.

Lemma index_text_not_ref i : Z_to_str (Z.of_nat i) <> ref_key.
Proof.
  intros E. pose proof (dec_value_to_str (Z.of_nat i) ltac:(lia)) as Hd. rewrite E in Hd. by vm_compute in Hd.
Qed.

Lemma getRefs_spec n : forall v x, (vdepth v < n)%nat -> x ∈ getRefs_fuel n v <-> ref_in v x.
Proof.
  induction n as [|n IH]; intros v x Hn; [lia|]. cbn [getRefs_fuel]. rewrite getRefs_fold.
  assert (E : x ∈ [] \/ (exists kv, kv ∈ for_in_val v /\ contributes n kv x) <->
              exists kv, kv ∈ for_in_val v /\ contributes n kv x).
  { split; [by intros [?%not_elem_of_nil|?]|by right]. }
  rewrite E. clear E. destruct v as [| | | |s|l|o|]; cbn [for_in_val];
    try (split; [by intros (kv & H%not_elem_of_nil & _)|by inversion 1]).
  - split; [|by inversion 1]. intros ([k v] & Hin & Hc). exfalso. unfold indexed in Hin.
    apply elem_of_lookup_imap in Hin as (i & y & [= -> ->] & Hy).
    apply list_lookup_fmap_Some in Hy as (c & -> & _). destruct Hc as [Hk _]. by apply index_text_not_ref in Hk.
  - split.
    + intros ([k v] & Hin & Hc). unfold indexed in Hin. apply elem_of_lookup_imap in Hin as (i & y & [= -> ->] & Hy).
      apply list_elem_of_lookup_2 in Hy. pose proof (fuel_arr_child n y l Hn Hy) as Hd.
      destruct y; cbn in Hc; try done; [by destruct Hc as [Hk _]; apply index_text_not_ref in Hk|..];
        (eapply ref_arr; [exact Hy|]; by apply IH).
    + inversion 1 as [| |l0 y s Hy Hr]; subst. apply list_elem_of_lookup in Hy as [i Hi].
      exists (Z_to_str (Z.of_nat i), y). split; [unfold indexed; apply elem_of_lookup_imap; by exists i, y|].
      pose proof (fuel_arr_child n y l Hn ltac:(by eapply list_elem_of_lookup_2)) as Hd.
      unfold contributes. cbn [fst snd]. destruct y; try by inversion Hr. all: by apply IH.
  - split.
    + intros ([k v] & Hin & Hc). rewrite for_in_elem in Hin. pose proof (fuel_obj_child n k v o Hn Hin) as Hd.
      destruct v; cbn in Hc; try done.
      * destruct Hc as [-> ->]. by apply ref_here.
      * eapply ref_obj; [exact Hin|]. by apply IH.
      * eapply ref_obj; [exact Hin|]. by apply IH.
    + inversion 1 as [o0 s Hs|o0 k y s Hy Hr|]; subst.
      * exists (ref_key, VStr x). by rewrite for_in_elem.
      * exists (k, y). rewrite for_in_elem. split; [done|]. pose proof (fuel_obj_child n k y o Hn Hy) as Hd.
        unfold contributes. cbn [fst snd]. destruct y; try by inversion Hr. all: by apply IH.
Qed.

(** [countUnresolvedRefs] is zero exactly when every reference that occurs
    anywhere in the document is a local one that leads to something. *)
Theorem no_unresolved_refs spec :
  countUnresolvedRefs spec = Ok O <-> forall s, ref_in spec s -> ref_resolves spec s = Ok true.
Proof.
  unfold countUnresolvedRefs.
  assert (Hr : forall s, s ∈ getRefs spec <-> ref_in spec s) by (intros s; apply getRefs_spec; lia).
  setoid_rewrite <- Hr. clear Hr. generalize (getRefs spec). intros refs. split.
  - intros H s Hs. apply bind_ok in H as (bs & E & [= Hb]). apply mapM_res_ok in E.
    assert (Ht : Forall (fun b => b = true) bs).
    { clear -Hb. induction bs as [|[] bs IH]; [constructor|constructor; [done|by apply IH]|done]. }
    clear Hb. induction E as [|x b refs bs Ex _ IH]; [by apply not_elem_of_nil in Hs|].
    apply Forall_cons in Ht as [-> Ht]. apply elem_of_cons in Hs as [->|Hs]; [done|by apply IH].
  - intros H. rewrite (mapM_res_total _ (fun _ => true)) by done. cbn. f_equal.
    clear. induction refs as [|r refs IH]; [done|exact IH].
Qed.

Example null_in_the_way :
  countUnresolvedRefs (VObj [(js "a", VNull); (js "b", VObj [(js "$ref", vstr "#/a/c")])]) = Throw TypeError.
Proof. reflexivity. Qed.

(** ** Locations *)

Section two_units.
Context (c d : Z).

Lemma split_go_app2 f s : forall cur,
  c ∉ f -> split_go [c; d] (f ++ c :: d :: s) O cur = (rev cur ++ f) :: split_go [c; d] s O [].
Proof.
  induction f as [|x f IH]; intros cur Hf; cbn.
  - rewrite !Z.eqb_refl. cbn. by rewrite app_nil_r.
  - apply not_elem_of_cons in Hf as [Hne Hf]. destruct (Z.eqb_spec c x) as [->|_]; [done|]. cbn [andb].
    rewrite IH by done. cbn. by rewrite <- app_assoc.
Qed.

Lemma split_go_last2 f : forall cur, c ∉ f -> split_go [c; d] f O cur = [rev cur ++ f].
Proof.
  induction f as [|x f IH]; intros cur Hf; cbn.
  - by rewrite app_nil_r.
  - apply not_elem_of_cons in Hf as [Hne Hf]. destruct (Z.eqb_spec c x) as [->|_]; [done|]. cbn [andb].
    rewrite IH by done. cbn. by rewrite <- app_assoc.
Qed.

Lemma split_join2 l : l <> [] -> Forall (fun f => c ∉ f) l -> split (join [c; d] l) [c; d] = l.
Proof.
  unfold split. induction l as [|f l IH]; intros Hl Hf; [done|]. apply Forall_cons in Hf as [Hf1 Hf2].
  destruct l as [|g l].
  - cbn. by rewrite split_go_last2.
  - rewrite join_cons by done. change ([c; d] ++ ?r) with (c :: d :: r). rewrite split_go_app2 by done.
    cbn [rev app]. f_equal. by apply IH.
Qed.

(** Another pair with the same first unit does not occur in such a join. *)
Lemma no_pair_one e f : c ∉ f -> find_str [c; e] f = None.
Proof.
  induction f as [|x f IH]; intros Hf; cbn; [done|]. apply not_elem_of_cons in Hf as [Hne Hf].
  destruct (Z.eqb_spec c x) as [->|_]; [done|]. cbn [andb]. by rewrite IH.
Qed.

Lemma no_pair e l : d <> e -> c <> d -> Forall (fun f => c ∉ f) l -> find_str [c; e] (join [c; d] l) = None.
Proof.
  intros Hde Hcd H.
  assert (Happ : forall f r, c ∉ f -> find_str [c; e] r = None -> find_str [c; e] (f ++ c :: d :: r) = None).
  { induction f as [|x f IH]; intros r Hf Hr.
    - cbn. rewrite Z.eqb_refl. destruct (Z.eqb_spec e d) as [->|_]; [done|]. cbn [andb].
      destruct (Z.eqb_spec c d) as [->|_]; [done|]. cbn [andb]. by rewrite Hr.
    - apply not_elem_of_cons in Hf as [Hne Hf]. cbn. destruct (Z.eqb_spec c x) as [->|_]; [done|]. cbn [andb].
      by rewrite IH. }
  induction H as [|f l Hf Hl IH]; [done|]. destruct l as [|g l]; [by apply no_pair_one|].
  rewrite join_cons by done. change ([c; d] ++ ?r) with (c :: d :: r). by apply Happ.
Qed.
End two_units.

Lemma split_none sep s : find_str sep s = None -> forall cur, split_go sep s O cur = [rev cur ++ s].
Proof.
  induction s as [|x s IH]; intros H cur; cbn in *; [by rewrite app_nil_r|].
  destruct (prefixb sep (x :: s)); [done|]. destruct (find_str sep s) eqn:E; [done|].
  rewrite IH by done. cbn. by rewrite <- app_assoc.
Qed.

Lemma replace_all_none s p r : find_str p s = None -> replace_all s p r = s.
Proof. intros H. unfold replace_all, split. by rewrite split_none. Qed.

(** How a key is written in a JSON pointer (keys without a tilde), and the
    pointer of a list of keys. *)
Definition escape_key (k : jsstr) : jsstr := replace_all k (js "/") (js "~1").
Definition pointer (ks : list jsstr) : jsstr := List.concat ((fun k => js "/" ++ escape_key k) <$> ks).
Definition key_ok (k : jsstr) : Prop := k <> [] /\ 126 ∉ k /\ (47 ∉ k \/ take 1 k = [47]).
(** Taking a property of a value on the way. *)
Definition enter (v : jsval) (k : jsstr) : jsval := if is_nullish v then v else index v k.

Lemma fields_lack c x s : c ∉ s -> Forall (fun f => c ∉ f) (split s [x]).
Proof.
  intros H. rewrite <- (join_split x s) in H. revert H. generalize (split s [x]). clear. intros l.
  induction l as [|f l IH]; intros H; [constructor|]. destruct l as [|g l]; [by repeat constructor|].
  rewrite join_cons, !not_elem_of_app in H by done. destruct H as (H1 & _ & H2). constructor; [done|by apply IH].
Qed.

Lemma unescape_escape k : key_ok k -> unescape_segment (escape_key k) = k.
Proof.
  intros (Hne & Ht & Hs). change (escape_key k) with (join [126; 49] (split k [47])). unfold unescape_segment.
  change (js "/") with [47]. change (js "~1") with [126; 49]. change (js "~0") with [126; 48]. change (js "~") with [126].
  assert (Hf : Forall (fun f => 126 ∉ f) (split k [47])) by by apply fields_lack.
  destruct Hs as [Hs|Hs].
  - rewrite split_no_char by done. cbn [join]. unfold includes, indexOf. by rewrite no_pair_one.
  - rewrite (replace_all_none _ [126; 48]) by by apply no_pair. unfold replace_all.
    rewrite split_join2; [|apply split_nonempty|done]. rewrite join_split.
    destruct k as [|c k]; [done|]. cbn in Hs. injection Hs as ->.
    assert (Ei : includes (join [126; 49] (split (47 :: k) [47])) [126; 49] = true).
    { change (47 :: k) with ([] ++ 47 :: k). rewrite split_char_app by apply not_elem_of_nil.
      rewrite join_cons by apply split_nonempty. cbn [app]. unfold includes, indexOf.
      rewrite (proj2 (find_str_0 [126; 49] _)) by apply (prefixb_app [126; 49]). done. }
    by rewrite Ei.
Qed.

Lemma escape_no_slash k : 47 ∉ escape_key k.
Proof.
  unfold escape_key, replace_all. change (js "/") with [47]. change (js "~1") with [126; 49].
  pose proof (split_fields 47 k) as H. induction H as [|f l Hf Hl IH]; [apply not_elem_of_nil|].
  destruct l as [|g l]; [done|]. rewrite join_cons by done. rewrite !not_elem_of_app. split; [done|]. split; [|done].
  by apply not_in_lit.
Qed.

Lemma pointer_split ks : ks <> [] -> split (pointer ks) (js "/") = [] :: (escape_key <$> ks).
Proof.
  intros Hne. assert (E : pointer ks = join (js "/") ([] :: (escape_key <$> ks))).
  { clear Hne. unfold pointer. induction ks as [|k ks IH]; [done|]. cbn [fmap list_fmap List.concat]. rewrite IH.
    destruct ks as [|k2 ks]; [cbn; by rewrite !app_nil_r|].
    rewrite (join_cons _ []) by done. rewrite (join_cons _ [] (_ :: _)) by done. cbn [app].
    by rewrite (join_cons _ (escape_key k)), <- app_assoc by done. }
  rewrite E. apply (split_join 47); [done|]. constructor; [apply not_elem_of_nil|].
  apply Forall_fmap, Forall_forall. intros k _. apply escape_no_slash.
Qed.

Lemma walk_keys ks : forall v j last, Forall key_ok ks ->
  walk_location v (escape_key <$> ks) j last = foldl enter v ks.
Proof.
  induction ks as [|k ks IH]; intros v j last H; [done|]. apply Forall_cons in H as [Hk H].
  cbn [fmap list_fmap walk_location foldl]. rewrite unescape_escape by done. destruct Hk as (Hne & _).
  rewrite bool_decide_eq_false_2 by done. cbn [andb]. unfold enter at 2. destruct (is_nullish v) eqn:E.
  - clear -E. induction ks as [|k2 ks IH]; [done|]. cbn [foldl]. unfold enter at 2. by rewrite E.
  - by apply IH.
Qed.

(** Looking up the JSON pointer of a list of keys takes these keys one
    after the other, for keys without a tilde that have a slash only if they
    start with one, as the keys of paths do. *)
Theorem locate_pointer spec ks :
  Forall key_ok ks -> locate spec (pointer ks) = foldl enter spec ks.
Proof.
  intros H. unfold locate. destruct ks as [|k ks]; [done|].
  rewrite bool_decide_eq_false_2 by done. rewrite pointer_split by done.
  cbn [walk_location]. change (unescape_segment []) with (@nil Z). rewrite !bool_decide_eq_true_2 by done.
  cbn [length]. rewrite length_fmap. cbn [length]. replace (S (S (length ks)) - 1)%nat with (S (length ks)) by lia.
  rewrite bool_decide_eq_false_2 by done. cbn [andb].
  destruct (is_nullish spec) eqn:E.
  - generalize (k :: ks). intros l. induction l as [|x l IH]; [done|]. cbn [foldl]. unfold enter at 2. by rewrite E.
  - by apply walk_keys.
Qed.

Lemma locate_pointer_witness :
  let spec := VObj [(js "paths", VObj [(js "/pets/{id}", VObj [(js "get", vint 1)])])] in
  locate spec (js "/paths/~1pets~1{id}/get") = vint 1.
Proof.
  exact (locate_pointer (VObj [(js "paths", VObj [(js "/pets/{id}", VObj [(js "get", vint 1)])])])
    [js "paths"; js "/pets/{id}"; js "get"]
    ltac:(repeat constructor; try done; try (by apply not_in_lit); (by right) || (left; by apply not_in_lit))).
Defined.

(** Keys with a tilde, and keys with a slash that do not start with one, are
    not found. *)
Example tilde_kept : unescape_segment (js "a~0b") = js "a~0b".
Proof. reflexivity. Qed.
Example slash_added : unescape_segment (js "a~1b") = js "/a/b".
Proof. reflexivity. Qed.
Example tilde_order : unescape_segment (js "~1~01") = js "//".
Proof. reflexivity. Qed.
