(* ===== verification/Fetch.v ===== *)
(** * The resolver: which references are fetched

    [Resolver.resolve] of swagger-ui.js after the scan of the document: the
    loop that picks the entries of the resolution table to resolve. It moves an
    entry to another address in place, and a relative inline entry overwrites
    the index of the loop. FetchProtocol.v has what happens to the entries that
    are picked. *)

From Stdlib Require Import String.
From S2P Require Import Prelude JsNumber JsString JsValue Names UrlRef Resolver.

(** ** Picking what to resolve *)

(** The loop runs over the table by index and changes it: an entry gets another
    root or location. The entries to resolve are the objects of the table:
    their indices. [stale] is the variable [r], which lives through the rounds:
    whether it is [null]. *)
Record picking := Picking {
  p_all : list entry;
  p_toResolve : list nat;
  p_i : Z;
  p_stale : bool
}.

Definition set_root (root : jsstr) (e : entry) : entry := Entry (items_steps e) (resolveAs e) (VStr root) (e_key e) (e_location e).
Definition set_location (l : jsval) (e : entry) : entry := Entry (items_steps e) (resolveAs e) (e_root e) (e_key e) l.

(** The address after going up for every "..". *)
Definition normalize (joined : list jsstr) : jsstr :=
  join (js "/") (foldl (fun normalized part => if bool_decide (part = js "..") then removelast normalized else normalized ++ [part])
                   [] joined).

(** The walk along a local reference: whether [r] ends up as [null]. *)
Fixpoint walk (s : jsval) (parts : list jsstr) (r_null : bool) : res bool :=
  match parts with
  | [] => Ok r_null
  | part :: parts' =>
      if bool_decide (part = []) then walk s parts' r_null
      else if is_nullish s then Throw TypeError
      else match index s part with
           | VUndef => Ok true
           | s' => walk s' parts' (match s' with VNull => true | _ => false end)
           end
  end.

Section picking.
Context (spec : jsval) (root : jsval).

Definition push (i : nat) (st : picking) (all : list entry) (stale : bool) : picking :=
  Picking all (p_toResolve st ++ [i]) (p_i st) stale.

(** A reference entry of this document. *)
Definition pick_ref (i : nat) (a : entry) (st : picking) : res picking :=
  key ← as_str (e_key a);
  if 0 <=? indexOf key (js "../") then
    let joined := split (to_str (js_orv (e_root a) (vstr "")) ++ js "/" ++ key) (js "/") in
    Ok (push i st (<[i := set_root (normalize joined) a]> (p_all st)) (p_stale st))
  else
    match split key (js "#") with
    | [file; fragment] =>
        let all := if http_ref file then <[i := set_root file a]> (p_all st) else p_all st in
        stale ← walk spec (split fragment (js "/")) (p_stale st);
        Ok (if stale : bool then push i st all stale else Picking all (p_toResolve st) (p_i st) stale)
    | _ => Ok st
    end.

(** An inline entry of this document: a relative one is moved to the directory
    of the root, by a loop that counts with the same [i]. *)
Definition pick_inline (i : nat) (a : entry) (st : picking) : res picking :=
  key ← as_str (js_orv (e_key a) (vstr ""));
  if negb (bool_decide (key = [])) && (indexOf key (js "#") =? -1) && negb (bool_decide (take 1 key = js "/")) then
    r ← as_str (e_root a);
    let parts := split r (js "/") in
    let a' := set_location (vstr "") (set_root (directory r ++ key) a) in
    Ok (Picking (<[i := a']> (p_all st)) (p_toResolve st ++ [i]) (Z.of_nat (length parts) - 1) (p_stale st))
  else Ok (push i st (p_all st) (p_stale st)).

Definition pick_round (st : picking) : res picking :=
  let i := Z.to_nat (p_i st) in
  match p_all st !! i with
  | None => Ok st
  | Some a =>
      st ← (if strict_eq root (e_root a) then
              match resolveAs a with AsRef => pick_ref i a st | AsInline => pick_inline i a st end
            else Ok (push i st (p_all st) (p_stale st)));
      Ok (Picking (p_all st) (p_toResolve st) (p_i st + 1) (p_stale st))
  end.
Fixpoint pick_loop (fuel : nat) (st : picking) : res picking :=
  if p_i st <? Z.of_nat (length (p_all st)) then
    match fuel with
    | O => Throw Unsupported
    | S f => st ← pick_round st; pick_loop f st
    end
  else Ok st.
Definition pick (fuel : nat) (table : list entry) : res picking := pick_loop fuel (Picking table [] 0 false).
End picking.

(** ** What is picked

    A relative inline reference of this document makes the loop go on from
    another index; without one, the loop goes over the table once. *)
Section picked.
Context (spec : jsval) (root : jsval).

Definition is_relative (key : jsstr) : bool :=
  negb (bool_decide (key = [])) && (indexOf key (js "#") =? -1) && negb (bool_decide (take 1 key = js "/")).
(** The reference definition: what is to be fetched or looked up. *)
Definition needed (a : entry) : res bool :=
  if strict_eq root (e_root a) then
    key ← as_str (e_key a);
    match resolveAs a with
    | AsInline => Ok true
    | AsRef =>
        if 0 <=? indexOf key (js "../") then Ok true
        else match split key (js "#") with [_; fragment] => walk spec (split fragment (js "/")) false | _ => Ok false end
    end
  else Ok true.

(** No relative inline reference, and no reference to the whole document,
    which would look at the reference before it. *)
Definition regular (a : entry) : Prop :=
  strict_eq root (e_root a) = true ->
  match resolveAs a with
  | AsInline => forall key, e_key a = VStr key -> is_relative key = false
  | AsRef => forall key file fragment, e_key a = VStr key -> split key (js "#") = [file; fragment] ->
               Exists (fun part => part <> []) (split fragment (js "/"))
  end.

Lemma walk_stale parts : Exists (fun part => part <> []) parts -> forall s b b', walk s parts b = walk s parts b'.
Proof.
  induction 1 as [part parts Hp|part parts _ IH]; intros s b b'; cbn [walk].
  - rewrite bool_decide_eq_false_2 by done. done.
  - case_bool_decide; [apply IH|]. done.
Qed.

(** One round at an entry that is regular: the index goes into the list if it
    is needed, and the entries that come later stay as they are. *)
Lemma pick_round_regular st a b : 0 <= p_i st -> p_all st !! Z.to_nat (p_i st) = Some a -> regular a -> needed a = Ok b ->
  exists st', pick_round spec root st = Ok st' /\ p_i st' = p_i st + 1 /\ length (p_all st') = length (p_all st) /\
    p_toResolve st' = p_toResolve st ++ (if b : bool then [Z.to_nat (p_i st)] else []) /\
    forall k, p_i st < Z.of_nat k -> p_all st' !! k = p_all st !! k.
Proof.
  intros Hi Ha Hr Hn. unfold pick_round. rewrite Ha. unfold needed in Hn. unfold regular in Hr.
  assert (Hlater : forall k e, p_i st < Z.of_nat k -> <[Z.to_nat (p_i st) := e]> (p_all st) !! k = p_all st !! k).
  { intros k e Hk. apply list_lookup_insert_ne. lia. }
  destruct (strict_eq root (e_root a)) eqn:Er; [specialize (Hr eq_refl)|].
  - destruct (as_str (e_key a)) as [key|e] eqn:Ek; [|done]. cbn [mbind res_bind] in Hn.
    assert (Ev : e_key a = VStr key) by (destruct (e_key a); try discriminate Ek; by injection Ek as ->).
    destruct (resolveAs a).
    + unfold pick_ref. rewrite Ek. cbn [mbind res_bind]. destruct (0 <=? indexOf key (js "../")).
      { injection Hn as <-. eexists. split; [reflexivity|]. cbn. rewrite length_insert. repeat split. intros k Hk. by apply Hlater. }
      specialize (Hr key). destruct (split key (js "#")) as [|file [|fragment [|]]] eqn:Es;
        try (injection Hn as <-; eexists; split; [reflexivity|]; cbn; by rewrite app_nil_r).
      rewrite (walk_stale _ (Hr _ _ Ev eq_refl) _ _ false), Hn. cbn [mbind res_bind].
      destruct b; eexists; (split; [reflexivity|]); cbn; rewrite ?app_nil_r; repeat split;
        destruct (http_ref file); rewrite ?length_insert; try done; intros k Hk; by apply Hlater.
    + unfold pick_inline. injection Hn as <-. rewrite Ev. 
      assert (E : as_str (js_orv (VStr key) (vstr "")) = Ok key) by (unfold js_orv; destruct key; done).
      rewrite E. cbn [mbind res_bind]. specialize (Hr key Ev). unfold is_relative in Hr. rewrite Hr.
      eexists. split; [reflexivity|]. by repeat split.
  - injection Hn as <-. eexists. split; [reflexivity|]. by repeat split.
Qed.

Lemma pick_loop_regular fuel : forall st bs, 0 <= p_i st ->
  (Z.to_nat (p_i st) + length bs = length (p_all st))%nat -> (length bs <= fuel)%nat ->
  (forall k a, p_i st <= Z.of_nat k -> p_all st !! k = Some a -> regular a) ->
  (forall j b, bs !! j = Some b -> exists a, p_all st !! (Z.to_nat (p_i st) + j)%nat = Some a /\ needed a = Ok b) ->
  exists st', pick_loop spec root fuel st = Ok st' /\
    p_toResolve st' = p_toResolve st ++ (fst <$> filter (fun p => p.2 = true) (zip (seq (Z.to_nat (p_i st)) (length bs)) bs)).
Proof.
  induction fuel as [|f IH]; intros st bs Hi Hl Hf Hr Hn.
  - destruct bs; [|cbn in Hf; lia]. cbn in Hl. cbn. rewrite (proj2 (Z.ltb_ge _ _)) by lia. exists st. by rewrite app_nil_r.
  - cbn [pick_loop]. destruct bs as [|b bs].
    { cbn in Hl. rewrite (proj2 (Z.ltb_ge _ _)) by lia. exists st. by rewrite app_nil_r. }
    cbn [length] in Hl, Hf. rewrite (proj2 (Z.ltb_lt _ _)) by lia.
    destruct (Hn O b eq_refl) as (a & Ha & Hb). rewrite Nat.add_0_r in Ha.
    assert (Hreg : regular a) by (apply (Hr (Z.to_nat (p_i st))); [lia|done]).
    destruct (pick_round_regular st a b Hi Ha Hreg Hb) as (st' & E & Ei & El & Et & Ek). rewrite E. cbn [mbind res_bind].
    assert (Es : Z.to_nat (p_i st') = S (Z.to_nat (p_i st))) by lia.
    destruct (IH st' bs) as (st2 & E2 & Et2); [lia|lia|lia| | |].
    + intros k a' Hk. rewrite Ek by lia. apply Hr. lia.
    + intros j b' Hj. destruct (Hn (S j) b' Hj) as (a' & Ha' & Hb'). exists a'. rewrite Ek by lia. rewrite Es.
      by replace (S (Z.to_nat (p_i st)) + j)%nat with (Z.to_nat (p_i st) + S j)%nat by lia.
    + exists st2. split; [done|]. rewrite Et2, Et, Es, <- app_assoc. f_equal. cbn [length seq zip zip_with].
      rewrite filter_cons. cbn [snd]. destruct b; [|by rewrite decide_False by done].
      by rewrite decide_True by done.
Qed.
End picked.

(** The references to resolve are those that are needed, each once and in the
    order of the table, when the table has no relative inline reference. *)
Theorem pick_needed spec root table bs : Forall (regular root) table -> Forall2 (fun a b => needed spec root a = Ok b) table bs ->
  exists p, pick spec root (length table) table = Ok p /\
    p_toResolve p = fst <$> filter (fun p => p.2 = true) (zip (seq 0 (length table)) bs).
Proof.
  intros Hr Hn. pose proof (Forall2_length _ _ _ Hn) as Hl.
  destruct (pick_loop_regular spec root (length table) (Picking table [] 0 false) bs) as (p & E & Et); [done|cbn; lia|cbn; lia| | |].
  - intros k a _ Ha. rewrite Forall_forall in Hr. apply Hr. by eapply list_elem_of_lookup_2.
  - intros j b Hj. destruct (Forall2_lookup_r _ _ _ _ _ Hn Hj) as (a & Ha & Hb). by exists a.
  - exists p. split; [done|]. rewrite Et. cbn. by rewrite Hl.
Qed.

(** ** A loop that does not end

    A relative inline reference to the document itself, after as many entries
    as its address has segments: the loop goes back to it for ever. *)
Section hangs.
Context (spec : jsval) (root key : jsstr) (pre post : list entry).
Hypothesis Hpre : Forall (fun e => strict_eq (VStr root) (e_root e) = false) pre.
Hypothesis Hkey : is_relative key = true.
Hypothesis Hself : directory root ++ key = root.
Hypothesis Hfar : (length (split root (js "/")) <= length pre)%nat.

Definition self_entry (e : entry) : Prop := resolveAs e = AsInline /\ e_root e = VStr root /\ e_key e = VStr key.
Lemma strict_eq_str s : strict_eq (VStr s) (VStr s) = true.
Proof. cbn. by apply bool_decide_eq_true. Qed.

Lemma hang_loop fuel : forall self tr i stale, self_entry self -> 0 <= i <= Z.of_nat (length pre) ->
  pick_loop spec (VStr root) fuel (Picking (pre ++ self :: post) tr i stale) = Throw Unsupported.
Proof.
  induction fuel as [|f IH]; intros self tr i stale Hs Hi; cbn [pick_loop p_i p_all];
    (rewrite (proj2 (Z.ltb_lt _ _)); [|rewrite length_app; cbn [length]; lia]); [done|].
  unfold pick_round. cbn [p_i p_all]. destruct (decide (i = Z.of_nat (length pre))) as [->|Hne].
  - rewrite Nat2Z.id, list_lookup_middle by done. destruct Hs as (H1 & H2 & H3). rewrite H2, strict_eq_str, H1.
    unfold pick_inline. rewrite H3.
    assert (E : as_str (js_orv (VStr key) (vstr "")) = Ok key) by (unfold js_orv; destruct key; done).
    rewrite E. cbn [mbind res_bind]. unfold is_relative in Hkey. rewrite Hkey, H2. cbn [as_str mbind res_bind p_all p_i p_toResolve p_stale].
    rewrite insert_app_r_alt, Nat.sub_diag by lia. cbn [list_insert]. apply IH.
    + repeat split; [done| |done]. cbn. by rewrite Hself.
    + lia.
  - rewrite lookup_app_l by lia. destruct (lookup_lt_is_Some_2 pre (Z.to_nat i)) as [e He]; [lia|]. rewrite He.
    rewrite Forall_forall in Hpre. rewrite (Hpre e) by by eapply list_elem_of_lookup_2. cbn [mbind res_bind p_all p_i p_toResolve p_stale push].
    apply IH; [done|lia].
Qed.
End hangs.

(** A document that refers to itself by its file name, after as many references
    as its address has segments, keeps the loop busy for ever. *)
Theorem relative_self_hangs spec root key pre self post fuel :
  Forall (fun e => strict_eq (VStr root) (e_root e) = false) pre -> is_relative key = true -> directory root ++ key = root ->
  (length (split root (js "/")) <= length pre)%nat -> self_entry root key self ->
  pick spec (VStr root) fuel (pre ++ self :: post) = Throw Unsupported.
Proof. intros H1 H2 H3 H4 H5. apply (hang_loop spec root key pre post H1 H2 H3 H4); [done|lia]. Qed.

Definition remote_entry (k : String.string) : entry := Entry 0 AsRef (VStr (js k)) (VStr (js k)) (vstr "").
Definition inline_entry (r k : String.string) : entry := Entry 0 AsInline (VStr (js r)) (VStr (js k)) (vstr "/paths/get").
Lemma relative_self_hangs_witness :
  pick VNull (VStr (js "http://h/a.json")) 100
    ([remote_entry "http://k/1"; remote_entry "http://k/2"; remote_entry "http://k/3"; remote_entry "http://k/4"] ++
     inline_entry "http://h/a.json" "a.json" :: []) = Throw Unsupported.
Proof.
  apply (relative_self_hangs VNull (js "http://h/a.json") (js "a.json")).
  - repeat (apply Forall_cons; split; [reflexivity|]). by apply Forall_nil.
  - reflexivity.
  - reflexivity.
  - vm_compute. lia.
  - by repeat split.
Defined.

(** A relative inline reference makes the loop jump over the entries after it. *)
Example jumps_over :
  p_toResolve <$> pick VNull (VStr (js "http://h/v2/a.json")) 9
    [inline_entry "http://h/v2/a.json" "b.json"; remote_entry "http://k/1"; remote_entry "http://k/2"; remote_entry "http://k/3"] =
  Ok [0%nat].
Proof. vm_compute. done. Qed.

Lemma pick_needed_witness :
  exists p, pick (VObj []) (VStr (js "u")) 2 [remote_entry "http://k/1"; Entry 0 AsRef (VStr (js "u")) (VStr (js "#/definitions/Pet")) (vstr "/definitions/Pet")] = Ok p /\
    p_toResolve p = fst <$> filter (fun p => p.2 = true) (zip (seq 0 2) [true; true]).
Proof.
  apply (pick_needed (VObj []) (VStr (js "u")) [remote_entry "http://k/1"; Entry 0 AsRef (VStr (js "u")) (VStr (js "#/definitions/Pet")) (vstr "/definitions/Pet")]).
  - apply Forall_cons. split; [by intros H|]. apply Forall_cons. split; [|by apply Forall_nil]. intros _ key file fragment [= <-] Hs.
    vm_compute in Hs. injection Hs as <- <-. apply Exists_exists. exists (js "Pet"). split; [|done]. vm_compute. right; right; left.
  - repeat (apply Forall2_cons; split; [reflexivity|]). by apply Forall2_nil.
Defined.
