(* ===== verification/FetchProtocol.v ===== *)
(** * The resolver: fetching documents

    The rest of [Resolver.resolve] of swagger-ui.js: every item to resolve is
    looked up in this document, counted as failed, or fetched. Before a request
    a timer polls a lock on the address, and the cache; the last item that is
    processed calls [finish]. Timers and answers come in any order: a step
    relation, with the invariant of its reachable states. *)

From Stdlib Require Import String.
From S2P Require Import Prelude JsNumber JsString JsValue.
From stdpp Require Import relations.

Record fetching := Fetching {
  waiting : list nat;
  flying : list nat;
  locked : list jsstr;
  resolverCache : obj;
  failedUrls : list jsstr;
  processedCalls : nat;
  outcomes : list (nat * option jsval);
  requests : list jsstr;
  finishes : nat
}.

(** [lock[url] = true] and [delete lock[url]]. *)
Definition lock (u : jsstr) (l : list jsstr) : list jsstr := if bool_decide (u ∈ l) then l else l ++ [u].
Definition unlock (u : jsstr) (l : list jsstr) : list jsstr := filter (fun v => v <> u) l.
(** The timer or the request of an item is over. *)
Definition drop_item (n : nat) (l : list nat) : list nat := filter (fun m => m <> n) l.

Section protocol.
(** The address of an item, whether it is in this document ([!item.root ||
    item.root === root]), the address after [clientAuthorizations.apply], and how
    many items there are. The key and the location of an item are strings here:
    then [Resolver.resolveItem] returns for every document, and what it adds to
    the tables is a function of the item and of the document in [outcomes]. *)
Context (root : nat -> jsstr) (local : nat -> bool) (authorized : jsstr -> jsstr) (spec : jsval) (expectedCalls : nat).

Definition url (n : nat) : jsstr := authorized (root n).

(** [processedCalls += 1], and [finish] after the last. *)
Definition processed (n : nat) (outcome : option jsval) (st : fetching) : fetching :=
  let p := S (processedCalls st) in
  Fetching (waiting st) (flying st) (locked st) (resolverCache st) (failedUrls st) p (outcomes st ++ [(n, outcome)]) (requests st)
    (if bool_decide (p = expectedCalls) then S (finishes st) else finishes st).

(** The callbacks of a request. *)
Definition on_error (n : nat) (st : fetching) : fetching :=
  processed n None
    (Fetching (waiting st) (flying st) (unlock (root n) (locked st)) (resolverCache st) (failedUrls st ++ [url n])
       (processedCalls st) (outcomes st) (requests st) (finishes st)).
Definition on_response (n : nat) (swagger : jsval) (st : fetching) : fetching :=
  processed n (Some swagger)
    (Fetching (waiting st) (flying st) (unlock (root n) (locked st)) (put (root n) swagger (resolverCache st)) (failedUrls st)
       (processedCalls st) (outcomes st) (requests st) (finishes st)).

(** The loop over the items; a timer is set for those that are fetched. *)
Definition wait (n : nat) (st : fetching) : fetching :=
  Fetching (waiting st ++ [n]) (flying st) (locked st) (resolverCache st) (failedUrls st) (processedCalls st) (outcomes st)
    (requests st) (finishes st).
Definition begin_item (st : fetching) (n : nat) : fetching :=
  if local n then processed n (Some spec) st
  else if bool_decide (root n ∈ failedUrls st) then processed n None st
  else wait n st.
(** [finish], when there is nothing to resolve. *)
Definition finish_now (st : fetching) : fetching :=
  Fetching (waiting st) (flying st) (locked st) (resolverCache st) (failedUrls st) (processedCalls st) (outcomes st)
    (requests st) (S (finishes st)).
Definition begin (cache : obj) (failed : list jsstr) : fetching :=
  let st := foldl begin_item (Fetching [] [] [] cache failed O [] [] O) (seq 0 expectedCalls) in
  if bool_decide (expectedCalls = O) then finish_now st else st.

(** The timer of [waitForUnlock]. *)
Definition stop_waiting (n : nat) (st : fetching) : fetching :=
  Fetching (drop_item n (waiting st)) (flying st) (locked st) (resolverCache st) (failedUrls st) (processedCalls st) (outcomes st)
    (requests st) (finishes st).
Definition execute (n : nat) (st : fetching) : fetching :=
  Fetching (waiting st) (flying st ++ [n]) (lock (url n) (locked st)) (resolverCache st) (failedUrls st) (processedCalls st)
    (outcomes st) (requests st ++ [url n]) (finishes st).
Definition poll (n : nat) (st : fetching) : fetching :=
  if bool_decide (url n ∈ locked st) then wait n (stop_waiting n st)
  else
    let cached := get (resolverCache st) (url n) in
    if is_object cached then on_response n cached (stop_waiting n st) else execute n (stop_waiting n st).
Definition land (n : nat) (st : fetching) : fetching :=
  Fetching (waiting st) (drop_item n (flying st)) (locked st) (resolverCache st) (failedUrls st) (processedCalls st) (outcomes st)
    (requests st) (finishes st).

Inductive step : fetching -> fetching -> Prop :=
| Poll n st : n ∈ waiting st -> step st (poll n st)
| Answer n swagger st : n ∈ flying st -> step st (on_response n swagger (land n st))
| Failure n st : n ∈ flying st -> step st (on_error n (land n st)).

Definition reachable (cache : obj) (failed : list jsstr) (st : fetching) : Prop := rtc step (begin cache failed) st.
End protocol.

(** ** The invariant *)

Section invariant.
Context (root : nat -> jsstr) (local : nat -> bool) (authorized : jsstr -> jsstr) (spec : jsval) (expectedCalls : nat).
(** The authorizations leave the addresses alone. *)
Definition unchanged : Prop := forall n, authorized (root n) = root n.
Abbreviation processed := (processed expectedCalls).
Abbreviation on_response := (on_response root expectedCalls).
Abbreviation on_error := (on_error root authorized expectedCalls).
Abbreviation step := (step root authorized expectedCalls).

Definition items (st : fetching) : list nat := waiting st ++ flying st ++ (outcomes st).*1.
(** No request failed, and every document was an object. *)
Definition all_fetched (st : fetching) : Prop := Forall (fun o => match o.2 with Some v => is_object v = true | None => False end) (outcomes st).
Definition known (st : fetching) (u : jsstr) : Prop := u ∈ locked st \/ is_object (get (resolverCache st) u) = true.
(** Every item is waiting, in flight or processed, and [finish] was called once
    when all are processed; and while the authorizations leave the addresses
    alone, the locks are those of the requests in flight, which are for
    different addresses, and an address is requested again only after a
    failure. *)
Record fetch_ok (k : nat) (st : fetching) : Prop := {
  ok_items : items st ≡ₚ seq 0 k;
  ok_count : processedCalls st = length (outcomes st);
  ok_finish : finishes st = if bool_decide (processedCalls st = expectedCalls) then 1%nat else O;
  ok_flying : unchanged -> NoDup (root <$> flying st);
  ok_locked : unchanged -> forall u, u ∈ locked st <-> u ∈ root <$> flying st;
  ok_once : unchanged -> all_fetched st -> NoDup (requests st) /\ forall u, u ∈ requests st -> known st u
}.

Lemma all_fetched_snoc st n o c : all_fetched (processed n o c) -> outcomes c = outcomes st -> all_fetched st /\
  match o with Some v => is_object v = true | None => False end.
Proof. unfold all_fetched. cbn. intros H E. rewrite E in H. apply Forall_app in H as [H1 H2]. split; [done|]. by apply Forall_cons in H2 as [? _]. Qed.

Lemma drop_item_perm n l : NoDup l -> n ∈ l -> l ≡ₚ n :: drop_item n l.
Proof.
  intros Hd Hn. induction Hd as [|m l Hm Hd IH]; [by apply not_elem_of_nil in Hn|]. unfold drop_item. rewrite filter_cons.
  destruct (decide (m <> n)) as [Hne|He].
  - apply elem_of_cons in Hn as [->|Hn]; [done|]. rewrite (IH Hn) at 1. apply perm_swap.
  - apply dec_stable in He. subst m. f_equiv. clear -Hm.
    induction l as [|x l IH]; [done|]. apply not_elem_of_cons in Hm as [Hx Hm]. rewrite filter_cons_True by congruence. by rewrite <- IH.
Qed.
Lemma elem_drop n m l : m ∈ drop_item n l <-> m <> n /\ m ∈ l.
Proof. unfold drop_item, unlock. by rewrite list_elem_of_filter. Qed.
Lemma elem_unlock u v l : v ∈ unlock u l <-> v <> u /\ v ∈ l.
Proof. unfold drop_item, unlock. by rewrite list_elem_of_filter. Qed.
Lemma elem_lock u v l : v ∈ lock u l <-> v = u \/ v ∈ l.
Proof. unfold lock. case_bool_decide; [|rewrite elem_of_app, list_elem_of_singleton; tauto]. split; [tauto|]. by intros [->|]. Qed.

Lemma items_nodup k st : fetch_ok k st -> NoDup (items st).
Proof. intros H. rewrite (ok_items _ _ H). apply NoDup_seq. Qed.
Lemma items_parts k st : fetch_ok k st -> NoDup (waiting st) /\ NoDup (flying st).
Proof. intros H. pose proof (items_nodup _ _ H) as Hd. apply NoDup_app in Hd as (? & _ & Hd). by apply NoDup_app in Hd as (? & _). Qed.

(** An address stays known when an object is stored for an item. *)
Lemma known_put n v st st' u : is_object v = true -> locked st' = unlock (root n) (locked st) ->
  resolverCache st' = put (root n) v (resolverCache st) -> known st u -> known st' u.
Proof.
  intros Hv El Ec. unfold known. rewrite El, Ec. destruct (decide (u = root n)) as [->|Hne]; [intros _; right; by rewrite get_put_eq|].
  rewrite elem_unlock, get_put_ne by done. tauto.
Qed.

(** One more item is processed. *)
Lemma processed_finish (p : nat) (fin : nat) : fin = (if bool_decide (p = expectedCalls) then 1%nat else O) ->
  (p < expectedCalls)%nat ->
  (if bool_decide (S p = expectedCalls) then S fin else fin) = if bool_decide (S p = expectedCalls) then 1%nat else O.
Proof. intros -> Hp. by rewrite (bool_decide_eq_false_2 (p = _)) by lia. Qed.
Lemma items_count k st : fetch_ok k st -> (k <= expectedCalls)%nat ->
  (length (waiting st) + length (flying st) + processedCalls st = k)%nat.
Proof.
  intros H _. pose proof (Permutation_length (ok_items _ _ H)) as E. unfold items in E.
  rewrite !length_app, length_fmap, length_seq, <- (ok_count _ _ H) in E. lia.
Qed.

Lemma begin_item_ok k st : (k < expectedCalls)%nat -> fetch_ok k st -> fetch_ok (S k) (begin_item root local spec expectedCalls st k).
Proof.
  intros Hk H. pose proof (items_count _ _ H ltac:(lia)) as Hc. destruct H as [H1 H2 H3 H4 H5 H6].
  assert (Hs : seq 0 (S k) ≡ₚ seq 0 k ++ [k]) by by rewrite seq_S.
  assert (Hp : forall o, fetch_ok (S k) (processed k o st)).
  { intros o. split; [|cbn; rewrite length_app; cbn; lia|cbn; apply processed_finish; [done|lia]|done|done|].
    2: { intros Hurl Ha. apply (all_fetched_snoc st) in Ha as [Ha _]; [|done]. by apply H6. }
    rewrite Hs, <- H1. unfold items. cbn. by rewrite fmap_app, !app_assoc. }
  unfold begin_item. destruct (local k); [apply Hp|]. destruct (bool_decide (root k ∈ _)); [apply Hp|].
  split; [|done..]. rewrite Hs, <- H1. unfold items. cbn. rewrite <- !app_assoc. apply Permutation_app_head.
  by rewrite (Permutation_app_comm [k]), <- app_assoc.
Qed.
Lemma begin_ok cache failed : fetch_ok expectedCalls (begin root local spec expectedCalls cache failed).
Proof.
  unfold begin. set (st0 := Fetching _ _ _ _ _ _ _ _ _). destruct (bool_decide_reflect (expectedCalls = O)) as [He|He].
  { assert (Hs : seq 0 expectedCalls = []) by by rewrite He.
    split; rewrite ?Hs; try done; [|intros _; apply NoDup_nil_2|].
    - cbn. by rewrite bool_decide_eq_true_2 by done.
    - intros _ _. split; [apply NoDup_nil_2|]. by intros u ?%not_elem_of_nil. }
  assert (H : forall k, (k <= expectedCalls)%nat -> fetch_ok k (foldl (begin_item root local spec expectedCalls) st0 (seq 0 k))).
  { induction k as [|k IH]; intros Hk.
    - split; try done; [|intros _; apply NoDup_nil_2|].
      + cbn. by rewrite bool_decide_eq_false_2 by lia.
      + intros _ _. split; [apply NoDup_nil_2|]. by intros u ?%not_elem_of_nil.
    - rewrite seq_S, foldl_app. cbn. apply begin_item_ok; [lia|]. apply IH. lia. }
  by apply H.
Qed.

Lemma fmap_root_drop n l : NoDup (root <$> l) -> n ∈ l -> NoDup l ->
  NoDup (root <$> drop_item n l) /\ forall u, u ∈ root <$> drop_item n l <-> u <> root n /\ u ∈ root <$> l.
Proof.
  intros Hd Hn Hl. pose proof (drop_item_perm n l Hl Hn) as Hp. rewrite Hp in Hd. apply NoDup_cons in Hd as [Hr Hd].
  split; [done|]. intros u. rewrite Hp at 2. change (root <$> n :: drop_item n l) with (root n :: (root <$> drop_item n l)).
  rewrite elem_of_cons. split; [|tauto]. intros Hu. split; [|by right]. by intros ->.
Qed.

Lemma poll_ok n st : n ∈ waiting st -> fetch_ok expectedCalls st -> fetch_ok expectedCalls (poll root authorized expectedCalls n st).
Proof.
  intros Hn H. pose proof (items_parts _ _ H) as [Hw Hf]. pose proof (items_count _ _ H ltac:(lia)) as Hc.
  pose proof (drop_item_perm n _ Hw Hn) as Hp. assert (Hl : (0 < length (waiting st))%nat) by (destruct (waiting st); [by apply not_elem_of_nil in Hn|cbn; lia]).
  destruct H as [H1 H2 H3 H4 H5 H6]. unfold poll.
  assert (Hi : n :: drop_item n (waiting st) ++ flying st ++ (outcomes st).*1 ≡ₚ seq 0 expectedCalls).
  { rewrite <- H1. symmetry. exact (Permutation_app_tail _ Hp). }
  destruct (bool_decide_reflect (url root authorized n ∈ locked st)) as [Hk|Hk].
  - split; [|done..]. rewrite <- Hi. unfold items. cbn. rewrite <- app_assoc. cbn. by rewrite <- Permutation_middle.
  - cbv zeta. destruct (is_object (get _ _)) eqn:Eob.
    + split; cbn.
      * rewrite <- Hi. unfold items. cbn. rewrite fmap_app. cbn. by rewrite !app_assoc, <- Permutation_cons_append.
      * rewrite length_app. cbn. lia.
      * apply processed_finish; [done|lia].
      * done.
      * intros Hurl u. unfold url in Hk. rewrite Hurl in Hk. rewrite list_elem_of_filter, <- H5 by done. split; [tauto|]. intros Hu. split; [by intros ->|done].
      * intros Hurl Ha. apply (all_fetched_snoc st) in Ha as [Ha Hv]; [|done]. destruct (H6 Hurl Ha) as [Hd Hkn]. split; [done|].
        intros u Hu. by apply (known_put n (get (resolverCache st) (url root authorized n)) st), Hkn.
    + split; cbn.
      * rewrite <- Hi. unfold items. cbn. rewrite <- app_assoc. cbn. by rewrite !app_assoc, <- Permutation_middle.
      * done.
      * done.
      * intros Hurl. unfold url in Hk. rewrite Hurl in Hk. rewrite fmap_app. apply NoDup_app. split; [by apply H4|]. split; [|apply NoDup_singleton].
        intros u Hu Hx. apply list_elem_of_singleton in Hx. subst u. by apply Hk, H5.
      * intros Hurl u. unfold url. rewrite Hurl, elem_lock, fmap_app, elem_of_app, H5 by done. cbn. rewrite list_elem_of_singleton. tauto.
      * intros Hurl Ha. destruct (H6 Hurl Ha) as [Hd Hkn]. unfold url in Hk, Eob |- *. rewrite Hurl in Hk, Eob |- *. split.
        { apply NoDup_app. split; [done|]. split; [|apply NoDup_singleton]. intros u Hu Hx. apply list_elem_of_singleton in Hx. subst u.
          destruct (Hkn _ Hu) as [Hlk|Hca]; [done|congruence]. }
        intros u Hu. unfold known. cbn. unfold url. rewrite Hurl, elem_lock. apply elem_of_app in Hu as [Hu|Hu%list_elem_of_singleton]; [|by left; left].
        destruct (Hkn u Hu); auto.
Qed.

(** An answer or a failure: the item is processed and its lock is free. *)
Lemma landed_ok n st o (c : obj) (f : list jsstr) : n ∈ flying st -> fetch_ok expectedCalls st ->
  (forall v, o = Some v -> c = put (root n) v (resolverCache st)) ->
  fetch_ok expectedCalls (processed n o
    (Fetching (waiting st) (drop_item n (flying st)) (unlock (root n) (locked st)) c f (processedCalls st) (outcomes st) (requests st) (finishes st))).
Proof.
  intros Hn H Hput. pose proof (items_parts _ _ H) as [_ Hf]. pose proof (items_count _ _ H ltac:(lia)) as Hc.
  pose proof (drop_item_perm n _ Hf Hn) as Hp. assert (Hl : (0 < length (flying st))%nat) by (destruct (flying st); [by apply not_elem_of_nil in Hn|cbn; lia]).
  destruct H as [H1 H2 H3 H4 H5 H6]. split; cbn.
  - rewrite <- H1. unfold items. cbn. rewrite fmap_app. apply Permutation_app_head.
    etransitivity; [|symmetry; exact (Permutation_app_tail _ Hp)]. cbn. by rewrite !app_assoc, <- Permutation_cons_append.
  - rewrite length_app. cbn. lia.
  - apply processed_finish; [done|lia].
  - intros Hurl. by destruct (fmap_root_drop n _ (H4 Hurl) Hn Hf).
  - intros Hurl u. destruct (fmap_root_drop n _ (H4 Hurl) Hn Hf) as [_ Hu]. by rewrite elem_unlock, H5, Hu.
  - intros Hurl Ha. apply (all_fetched_snoc st) in Ha as [Ha Hv]; [|done]. destruct o as [v|]; [|done]. rewrite (Hput v eq_refl).
    destruct (H6 Hurl Ha) as [Hdr Hkn]. split; [done|].
    intros u Hur. by apply (known_put n v st), Hkn.
Qed.

Lemma step_ok st st' : step st st' -> fetch_ok expectedCalls st -> fetch_ok expectedCalls st'.
Proof. intros [n st0 Hn|n v st0 Hn|n st0 Hn] H; [by apply poll_ok|exact (landed_ok n st0 (Some v) _ _ Hn H (fun w E => match E with eq_refl => eq_refl end))|].
  by apply (landed_ok n st0 None (resolverCache st0) (failedUrls st0 ++ [url root authorized n]) Hn H). Qed.
Lemma reachable_ok cache failed st : reachable root local authorized spec expectedCalls cache failed st -> fetch_ok expectedCalls st.
Proof.
  intros H. assert (Hs : forall a b, rtc step a b -> fetch_ok expectedCalls a -> fetch_ok expectedCalls b).
  { induction 1 as [|a b c Hab _ IH]; [done|]. intros Ha. apply IH. by eapply step_ok. }
  eapply Hs; [exact H|apply begin_ok].
Qed.

(** ** Progress

    What is left to do: two for an item that waits, one for a request. *)
Definition remaining (st : fetching) : nat := length (waiting st) + (length (waiting st) + length (flying st)).
(** A timer that only finds the lock held. *)
Definition idle (st : fetching) (n : nat) : Prop := url root authorized n ∈ locked st.

Lemma remaining_step st st' : fetch_ok expectedCalls st -> step st st' ->
  (remaining st' < remaining st)%nat \/ exists n, n ∈ waiting st /\ idle st n /\ st' = poll root authorized expectedCalls n st.
Proof.
  intros H Hs. destruct Hs as [n st0 Hn|n v st0 Hn|n st0 Hn]; pose proof (items_parts _ _ H) as [Hw Hf].
  - pose proof (Permutation_length (drop_item_perm n _ Hw Hn)) as Hp. cbn in Hp. destruct (decide (url root authorized n ∈ locked st0)) as [Hi|Hi].
    + right. by exists n.
    + left. unfold poll. rewrite bool_decide_eq_false_2 by done. cbv zeta.
      destruct (is_object _); unfold remaining; cbn; rewrite ?length_app; cbn; lia.
  - left. pose proof (Permutation_length (drop_item_perm n _ Hf Hn)) as Hp. cbn in Hp. unfold remaining. cbn. lia.
  - left. pose proof (Permutation_length (drop_item_perm n _ Hf Hn)) as Hp. cbn in Hp. unfold remaining. cbn. lia.
Qed.
Lemma not_idle st n : unchanged -> fetch_ok expectedCalls st -> flying st = [] -> ~ idle st n.
Proof. intros Hurl H Hf Hi. apply (ok_locked _ _ H Hurl) in Hi. rewrite Hf in Hi. by apply not_elem_of_nil in Hi. Qed.
End invariant.

(** C24. Fetching finishes once.  In every state that timers, answers and
    failures can lead to, every item is waiting, requested or processed, and
    [finish] was called once if all are processed and not yet otherwise.  As
    long as the authorizations leave the addresses as they are, there is never
    more than one request for an address at a time, and never a second one
    unless a request failed or a document was no object; and as long as
    something is left, a request is awaited or the next timer that fires makes
    progress.  (With an API key in the query it may be waited for ever,
    [changed_address_waits].) *)
Theorem fetch_finishes root local authorized spec expectedCalls cache failed st :
  reachable root local authorized spec expectedCalls cache failed st ->
  waiting st ++ flying st ++ (outcomes st).*1 ≡ₚ seq 0 expectedCalls /\
  (finishes st = 1%nat /\ waiting st = [] /\ flying st = [] \/ finishes st = O /\ (waiting st <> [] \/ flying st <> [])) /\
  ((forall n, authorized (root n) = root n) ->
   NoDup (root <$> flying st) /\ (all_fetched st -> NoDup (requests st)) /\
   (finishes st = O -> flying st <> [] \/
      waiting st <> [] /\ forall n, n ∈ waiting st -> (remaining (poll root authorized expectedCalls n st) < remaining st)%nat)).
Proof.
  intros Hr. pose proof (reachable_ok _ _ _ _ _ _ _ _ Hr) as H. pose proof (items_count _ _ _ _ _ H ltac:(lia)) as Hc.
  split; [exact (ok_items _ _ _ _ _ H)|]. pose proof (ok_finish _ _ _ _ _ H) as Hf.
  assert (Hfin : finishes st = 1%nat /\ waiting st = [] /\ flying st = [] \/ finishes st = O /\ (waiting st <> [] \/ flying st <> [])).
  { destruct (flying st) as [|m l] eqn:Efl; [destruct (waiting st) as [|w l] eqn:Ew|]; cbn in Hc.
    - left. rewrite bool_decide_eq_true_2 in Hf by lia. done.
    - right. rewrite bool_decide_eq_false_2 in Hf by lia. split; [done|by left].
    - right. rewrite bool_decide_eq_false_2 in Hf by lia. split; [done|by right]. }
  split; [done|]. intros Hurl. split; [exact (ok_flying _ _ _ _ _ H Hurl)|]. split; [by intros Ha; apply (ok_once _ _ _ _ _ H)|].
  intros Hz. destruct Hfin as [[? _]|[_ Hne]]; [congruence|]. destruct (flying st) as [|m l] eqn:Efl; [|by left]. right. destruct Hne as [Hne|]; [|done].
  split; [done|]. intros n Hn. destruct (remaining_step root authorized expectedCalls st (poll root authorized expectedCalls n st) H) as [Hl|(k & Hk & Hi & _)];
    [by apply Poll|done|]. exfalso. by eapply not_idle.
Qed.
Lemma fetch_finishes_witness :
  let st := poll (fun _ => js "http://h/a.json") (fun u => u) 1 0 (begin (fun _ => js "http://h/a.json") (fun _ => false) VNull 1 [] []) in
  waiting st ++ flying st ++ (outcomes st).*1 ≡ₚ seq 0 1 /\
  (finishes st = 1%nat /\ waiting st = [] /\ flying st = [] \/ finishes st = O /\ (waiting st <> [] \/ flying st <> [])) /\
  ((forall _ : nat, js "http://h/a.json" = js "http://h/a.json") ->
   NoDup ((fun _ => js "http://h/a.json") <$> flying st) /\ (all_fetched st -> NoDup (requests st)) /\
   (finishes st = O -> flying st <> [] \/
      waiting st <> [] /\ forall n, n ∈ waiting st -> (remaining (poll (fun _ => js "http://h/a.json") (fun u => u) 1 n st) < remaining st)%nat)).
Proof.
  intros st. apply (fetch_finishes (fun _ => js "http://h/a.json") (fun _ => false) (fun u => u) VNull 1 [] [] st).
  apply rtc_once, Poll. by left.
Defined.

(** ** An authorization in the address

    An authorization that changes the address of the request (an API key in the
    query) leaves its lock behind: the lock is set on the changed address and
    deleted for the one of the item. *)
Lemma changed_address_waits u v authorized swagger : authorized u = v -> v <> u ->
  exists st, reachable (fun _ => u) (fun _ => false) authorized VNull 2 [] [] st /\ outcomes st = [(0%nat, Some swagger)] /\
    forall st', rtc (step (fun _ => u) authorized 2) st st' -> finishes st' = O.
Proof.
  intros Hv Hne. set (root := fun _ : nat => u).
  set (s0 := begin root (fun _ => false) VNull 2 [] []). set (s1 := poll root authorized 2 0 s0).
  assert (E1 : s1 = Fetching [1%nat] [0%nat] [v] [] [] O [] [v] O).
  { unfold s1, poll, execute, url, root. rewrite !Hv. reflexivity. }
  set (s2 := on_response root 2 0 swagger (land 0 s1)).
  assert (E2 : s2 = Fetching [1%nat] [] [v] (put u swagger []) [] 1 [(0%nat, Some swagger)] [v] O).
  { assert (Hu : unlock u [v] = [v]) by (unfold unlock; by rewrite filter_cons_True by done).
    unfold s2. rewrite E1. unfold on_response, processed, land, root. cbn [locked]. by rewrite Hu. }
  exists s2. split; [|split].
  - apply (rtc_l _ _ s1); [by apply Poll; left|]. apply rtc_once. apply Answer. rewrite E1. by left.
  - by rewrite E2.
  - assert (Hs : forall st', step root authorized 2 s2 st' -> st' = s2).
    { rewrite E2. intros st' Hs. inversion Hs as [n st Hn|n w st Hn|n st Hn]; subst; cbn in Hn; [|by apply not_elem_of_nil in Hn..].
      apply list_elem_of_singleton in Hn. subst n. unfold poll, url, root. cbn. rewrite bool_decide_eq_true_2; [done|]. by apply list_elem_of_singleton. }
    assert (Hall : forall a b, rtc (step root authorized 2) a b -> a = s2 -> b = s2).
    { induction 1 as [|a b c Hab _ IH]; [done|]. intros ->. by apply IH, Hs. }
    intros st' H. rewrite (Hall _ _ H eq_refl). by rewrite E2.
Qed.
