(* ===== verification/Heap.v ===== *)
(** * Objects with identity

    The resolver changes the objects of a document while a table, the
    definitions and other documents refer to the same objects.  A heap gives
    every object and array an address; a document is loaded into it and read
    back as a tree. *)

From Stdlib Require Import String.
From S2P Require Import Prelude JsNumber JsString JsValue.

(** A property holds a primitive or the address of an object or array. *)
Inductive hval :=
| HPrim (v : jsval)
| HRef (a : nat).
Inductive cell :=
| CObj (o : list (jsstr * hval))
| CArr (l : list hval).
Abbreviation heap := (list cell).

Definition hundef : hval := HPrim VUndef.
Definition hstr (s : jsstr) : hval := HPrim (VStr s).
Definition htruthy (v : hval) : bool := match v with HRef _ => true | HPrim p => truthy p end.
Definition h_nullish (v : hval) : bool := match v with HRef _ => false | HPrim p => is_nullish p end.
Definition h_undef (v : hval) : bool := match v with HRef _ => false | HPrim p => is_undef p end.
(** A primitive, or an empty object in its place where only primitives matter. *)
Definition prim (v : hval) : jsval := match v with HPrim p => p | HRef _ => VObj [] end.

Definition alloc (h : heap) (c : cell) : heap * hval := (h ++ [c], HRef (length h)).

(** [v.k]. *)
Definition hget (h : heap) (v : hval) (k : jsstr) : res hval :=
  match v with
  | HPrim p => if is_nullish p then Throw TypeError else Ok hundef
  | HRef a =>
      match h !! a with
      | Some (CObj o) => Ok (default hundef (assoc k o))
      | Some (CArr l) =>
          Ok (if bool_decide (k = js "length") then HPrim (vint (Z.of_nat (length l)))
              else match array_index k with Some n => default hundef (l !! Z.to_nat n) | None => hundef end)
      | None => Ok hundef
      end
  end.
(** [v.k = x], in strict mode; an array's own named properties are not
    represented. *)
Definition hset (h : heap) (v : hval) (k : jsstr) (x : hval) : res heap :=
  match v with
  | HPrim _ => Throw TypeError
  | HRef a =>
      Ok (match h !! a with
          | Some (CObj o) => <[a := CObj (put k x o)]> h
          | Some (CArr l) => match array_index k with Some n => <[a := CArr (<[Z.to_nat n := x]> l)]> h | None => h end
          | None => h
          end)
  end.
(** [delete v.k]. *)
Definition hdel (h : heap) (v : hval) (k : jsstr) : res heap :=
  match v with
  | HPrim p => if is_nullish p then Throw TypeError else Ok h
  | HRef a => Ok (match h !! a with Some (CObj o) => <[a := CObj (remove k o)]> h | _ => h end)
  end.
(** The keys [for .. in] visits; those that are added meanwhile are not. *)
Definition hkeys (h : heap) (v : hval) : list jsstr :=
  match v with
  | HRef a =>
      match h !! a with
      | Some (CObj o) => (for_in o).*1
      | Some (CArr l) => (indexed l).*1
      | None => []
      end
  | HPrim p => (for_in_val p).*1
  end.
Definition harray (h : heap) (v : hval) : option (list hval) :=
  match v with
  | HRef a => match h !! a with Some (CArr l) => Some l | _ => None end
  | HPrim _ => None
  end.
Definition h_is_object (v : hval) : bool := match v with HRef _ => true | HPrim p => is_object p end.

(** ** Loading and reading back *)

Fixpoint load (v : jsval) (h : heap) : heap * hval :=
  match v with
  | VArr l =>
      let '(h, xs) := (fix go (l : list jsval) (h : heap) : heap * list hval :=
                         match l with
                         | [] => (h, [])
                         | x :: l' => let '(h, x) := load x h in let '(h, xs) := go l' h in (h, x :: xs)
                         end) l h in
      alloc h (CArr xs)
  | VObj o =>
      let '(h, xs) := (fix go (o : obj) (h : heap) : heap * list (jsstr * hval) :=
                         match o with
                         | [] => (h, [])
                         | (k, x) :: o' => let '(h, x) := load x h in let '(h, xs) := go o' h in (h, (k, x) :: xs)
                         end) o h in
      alloc h (CObj xs)
  | _ => (h, HPrim v)
  end.
Fixpoint load_all (l : list jsval) (h : heap) : heap * list hval :=
  match l with
  | [] => (h, [])
  | x :: l' => let '(h, x) := load x h in let '(h, xs) := load_all l' h in (h, x :: xs)
  end.
Fixpoint load_props (o : obj) (h : heap) : heap * list (jsstr * hval) :=
  match o with
  | [] => (h, [])
  | (k, x) :: o' => let '(h, x) := load x h in let '(h, xs) := load_props o' h in (h, (k, x) :: xs)
  end.
Lemma load_arr l h : load (VArr l) h = let '(h, xs) := load_all l h in alloc h (CArr xs).
Proof.
  cbn [load]. assert (E : forall h, (fix go (l : list jsval) (h : heap) : heap * list hval :=
                         match l with
                         | [] => (h, [])
                         | x :: l' => let '(h, x) := load x h in let '(h, xs) := go l' h in (h, x :: xs)
                         end) l h = load_all l h); [|by rewrite E].
  induction l as [|x l IH]; intros h'; cbn [load_all]; [done|]. destruct (load x h') as [h1 v]. by rewrite IH.
Qed.
Lemma load_obj o h : load (VObj o) h = let '(h, xs) := load_props o h in alloc h (CObj xs).
Proof.
  cbn [load]. assert (E : forall h, (fix go (o : obj) (h : heap) : heap * list (jsstr * hval) :=
                         match o with
                         | [] => (h, [])
                         | (k, x) :: o' => let '(h, x) := load x h in let '(h, xs) := go o' h in (h, (k, x) :: xs)
                         end) o h = load_props o h); [|by rewrite E].
  induction o as [|[k x] o IH]; intros h'; cbn [load_props]; [done|]. destruct (load x h') as [h1 v]. by rewrite IH.
Qed.

(** The tree below a value; the nesting of a value without cycles is at most
    the number of cells, and a recursion into a cycle overflows the stack. *)
Fixpoint reify_fuel (n : nat) (h : heap) (v : hval) : option jsval :=
  match v with
  | HPrim p => Some p
  | HRef a =>
      match n with
      | O => None
      | S n' =>
          match h !! a with
          | Some (CArr l) => VArr <$> mapM (reify_fuel n' h) l
          | Some (CObj o) => VObj <$> mapM (fun kv : jsstr * hval => (kv.1,.) <$> reify_fuel n' h kv.2) o
          | None => Some VUndef
          end
      end
  end.
Definition reify (h : heap) (v : hval) : res jsval :=
  match reify_fuel (S (length h)) h v with Some t => Ok t | None => Throw RangeError end.

(** ** A document is read back as it was loaded *)

Definition loads (v : jsval) : Prop := forall h, exists ext,
  (load v h).1 = h ++ ext /\ (vdepth v <= length ext)%nat /\
  forall n h2, (vdepth v <= n)%nat -> reify_fuel n (h ++ ext ++ h2) (load v h).2 = Some v.

Lemma load_all_loads l : Forall loads l -> forall h, exists ext,
  (load_all l h).1 = h ++ ext /\ (foldr (fun x n => Nat.max (vdepth x) n) O l <= length ext)%nat /\
  forall n h2, (foldr (fun x n => Nat.max (vdepth x) n) O l <= n)%nat ->
    mapM (reify_fuel n (h ++ ext ++ h2)) (load_all l h).2 = Some l.
Proof.
  induction 1 as [|x l Hx _ IH]; intros h; cbn [load_all foldr].
  - exists []. rewrite app_nil_r. split; [done|]. split; [cbn; lia|done].
  - destruct (Hx h) as (e1 & E1 & D1 & R1). destruct (load x h) as [h1 v1]. cbn [fst snd] in *. subst h1.
    destruct (IH (h ++ e1)) as (e2 & E2 & D2 & R2). destruct (load_all l (h ++ e1)) as [h2 vs]. cbn [fst snd] in *. subst h2.
    exists (e1 ++ e2). rewrite <- !app_assoc, length_app. split; [done|]. split; [lia|]. intros n h3 Hn. cbn [mapM]. rewrite <- !app_assoc.
    rewrite (R1 n (e2 ++ h3)) by lia. cbn. specialize (R2 n h3). rewrite <- app_assoc in R2. by rewrite R2 by lia.
Qed.
Lemma load_props_loads o : Forall (fun kv : jsstr * jsval => loads kv.2) o -> forall h, exists ext,
  (load_props o h).1 = h ++ ext /\ (foldr (fun kv n => Nat.max (vdepth kv.2) n) O o <= length ext)%nat /\
  forall n h2, (foldr (fun kv n => Nat.max (vdepth kv.2) n) O o <= n)%nat ->
    mapM (fun kv : jsstr * hval => (kv.1,.) <$> reify_fuel n (h ++ ext ++ h2) kv.2) (load_props o h).2 = Some o.
Proof.
  induction 1 as [|[k x] o Hx _ IH]; intros h; cbn [load_props foldr snd fst] in *.
  - exists []. rewrite app_nil_r. split; [done|]. split; [cbn; lia|done].
  - destruct (Hx h) as (e1 & E1 & D1 & R1). destruct (load x h) as [h1 v1]. cbn [fst snd] in *. subst h1.
    destruct (IH (h ++ e1)) as (e2 & E2 & D2 & R2). destruct (load_props o (h ++ e1)) as [h2 vs]. cbn [fst snd] in *. subst h2.
    exists (e1 ++ e2). rewrite <- !app_assoc, length_app. split; [done|]. split; [lia|]. intros n h3 Hn. cbn [mapM fst snd]. rewrite <- !app_assoc.
    rewrite (R1 n (e2 ++ h3)) by lia. cbn. specialize (R2 n h3). rewrite <- app_assoc in R2. by rewrite R2 by lia.
Qed.

Lemma load_loads v : loads v.
Proof.
  assert (Hprim : forall p, load p = (fun h => (h, HPrim p)) -> vdepth p = O -> loads p).
  { intros p E D h. exists []. rewrite E, D, app_nil_r. split; [done|]. split; [done|]. by intros [|n]. }
  assert (Hlast : forall (h e h2 : heap) c, (h ++ (e ++ [c]) ++ h2) !! (length (h ++ e)) = Some c).
  { intros h e h2 c. rewrite <- app_assoc, app_assoc, lookup_app_r, Nat.sub_diag by done. done. }
  induction v as [| | | | |l IH|o IH|] using jsval_nested_ind; try (by apply Hprim).
  - intros h. rewrite load_arr. destruct (load_all_loads l IH h) as (e & E & D & R).
    destruct (load_all l h) as [h1 vs]. cbn [fst snd] in *. subst h1. exists (e ++ [CArr vs]). cbn [alloc fst snd].
    rewrite app_assoc, length_app. split; [done|]. split; [cbn; lia|]. intros n h2 Hn. cbn in Hn. destruct n as [|n]; [lia|].
    cbn [reify_fuel]. rewrite Hlast. rewrite <- (app_assoc e). rewrite (R n ([CArr vs] ++ h2)) by lia. done.
  - intros h. rewrite load_obj. destruct (load_props_loads o IH h) as (e & E & D & R).
    destruct (load_props o h) as [h1 vs]. cbn [fst snd] in *. subst h1. exists (e ++ [CObj vs]). cbn [alloc fst snd].
    rewrite app_assoc, length_app. split; [done|]. split; [cbn; lia|]. intros n h2 Hn. cbn in Hn. destruct n as [|n]; [lia|].
    cbn [reify_fuel]. rewrite Hlast. rewrite <- (app_assoc e). rewrite (R n ([CObj vs] ++ h2)) by lia. done.
Qed.

(** Loading a document only adds cells, and reading it back gives it. *)
Lemma reify_load v h : let '(h', a) := load v h in reify h' a = Ok v.
Proof.
  destruct (load_loads v h) as (e & E & D & R). destruct (load v h) as [h' a]. cbn [fst snd] in *. subst h'.
  unfold reify. specialize (R (S (length (h ++ e))) []). rewrite app_nil_r in R. rewrite length_app in *. by rewrite R by lia.
Qed.

(** The new cells refer to new cells only. *)
Definition fresh_ref (n : nat) (v : hval) : Prop := match v with HRef a => (n <= a)%nat | HPrim _ => True end.
Definition cell_refs (c : cell) : list hval := match c with CObj o => o.*2 | CArr l => l end.
Definition loads_fresh (v : jsval) : Prop := forall h, exists ext, (load v h).1 = h ++ ext /\ fresh_ref (length h) (load v h).2 /\
  Forall (fun c => Forall (fresh_ref (length h)) (cell_refs c)) ext.

Lemma fresh_ref_mono n m v : (n <= m)%nat -> fresh_ref m v -> fresh_ref n v.
Proof. destruct v; cbn; [done|lia]. Qed.
Lemma fresh_refs_mono n m (l : list cell) : (n <= m)%nat -> Forall (fun c => Forall (fresh_ref m) (cell_refs c)) l ->
  Forall (fun c => Forall (fresh_ref n) (cell_refs c)) l.
Proof.
  intros Hn Hl. apply (Forall_impl _ _ _ Hl). intros c Hc. apply (Forall_impl _ _ _ Hc). intros v. by apply fresh_ref_mono.
Qed.
Lemma load_all_fresh l : Forall loads_fresh l -> forall h, exists ext, (load_all l h).1 = h ++ ext /\
  Forall (fresh_ref (length h)) (load_all l h).2 /\ Forall (fun c => Forall (fresh_ref (length h)) (cell_refs c)) ext.
Proof.
  induction 1 as [|x l Hx _ IH]; intros h; cbn [load_all]; [exists []; by rewrite app_nil_r|].
  destruct (Hx h) as (e1 & E1 & F1 & R1). destruct (load x h) as [h1 v1]. cbn [fst snd] in *. subst h1.
  destruct (IH (h ++ e1)) as (e2 & E2 & F2 & R2). destruct (load_all l (h ++ e1)) as [h2 vs]. cbn [fst snd] in *. subst h2.
  assert (Hle : (length h <= length (h ++ e1))%nat) by (rewrite length_app; lia).
  exists (e1 ++ e2). rewrite app_assoc. split; [done|]. split.
  - constructor; [done|]. apply (Forall_impl _ _ _ F2). intros v. by apply fresh_ref_mono.
  - apply Forall_app. split; [done|]. by apply (fresh_refs_mono _ (length (h ++ e1))).
Qed.
Lemma load_props_fresh o : Forall (fun kv : jsstr * jsval => loads_fresh kv.2) o -> forall h, exists ext, (load_props o h).1 = h ++ ext /\
  Forall (fresh_ref (length h)) (load_props o h).2.*2 /\ Forall (fun c => Forall (fresh_ref (length h)) (cell_refs c)) ext.
Proof.
  induction 1 as [|[k x] o Hx _ IH]; intros h; cbn [load_props snd] in *; [exists []; by rewrite app_nil_r|].
  destruct (Hx h) as (e1 & E1 & F1 & R1). destruct (load x h) as [h1 v1]. cbn [fst snd] in *. subst h1.
  destruct (IH (h ++ e1)) as (e2 & E2 & F2 & R2). destruct (load_props o (h ++ e1)) as [h2 vs]. cbn [fst snd] in *. subst h2.
  assert (Hle : (length h <= length (h ++ e1))%nat) by (rewrite length_app; lia).
  exists (e1 ++ e2). rewrite app_assoc. split; [done|]. split.
  - cbn. constructor; [done|]. apply (Forall_impl _ _ _ F2). intros v. by apply fresh_ref_mono.
  - apply Forall_app. split; [done|]. by apply (fresh_refs_mono _ (length (h ++ e1))).
Qed.
Lemma load_fresh v : loads_fresh v.
Proof.
  induction v as [| | | | |l IH|o IH|] using jsval_nested_ind; try (by intros h; exists []; cbn; rewrite app_nil_r).
  - intros h. rewrite load_arr. destruct (load_all_fresh l IH h) as (e & E & F & R).
    destruct (load_all l h) as [h1 vs]. cbn [fst snd] in *. subst h1. exists (e ++ [CArr vs]). cbn [alloc fst snd].
    rewrite app_assoc. split; [done|]. split; [cbn; rewrite length_app; lia|]. apply Forall_app. split; [done|]. by constructor.
  - intros h. rewrite load_obj. destruct (load_props_fresh o IH h) as (e & E & F & R).
    destruct (load_props o h) as [h1 vs]. cbn [fst snd] in *. subst h1. exists (e ++ [CObj vs]). cbn [alloc fst snd].
    rewrite app_assoc. split; [done|]. split; [cbn; rewrite length_app; lia|]. apply Forall_app. split; [done|]. by constructor.
Qed.

(** Each new cell is referred to once. *)
Definition address (v : hval) : option nat := match v with HRef a => Some a | HPrim _ => None end.
Definition addresses (h : heap) : list nat := List.flat_map (fun c => omap address (cell_refs c)) h.
Definition loads_tree (v : jsval) : Prop := forall h, exists ext, (load v h).1 = h ++ ext /\
  addresses ext ++ omap address [(load v h).2] ≡ₚ seq (length h) (length ext).

Lemma addresses_app h h' : addresses (h ++ h') = addresses h ++ addresses h'.
Proof. apply flat_map_app. Qed.
Lemma tree_snoc (e : heap) (refs : list nat) (c : cell) n : omap address (cell_refs c) = refs ->
  addresses e ++ refs ≡ₚ seq n (length e) -> addresses (e ++ [c]) ++ [(n + length e)%nat] ≡ₚ seq n (length (e ++ [c])).
Proof.
  intros <- He. rewrite addresses_app, length_app, seq_app. cbn. rewrite app_nil_r, He. done.
Qed.
Lemma tree_pair (e1 e2 : heap) (v : hval) (refs : list nat) n :
  addresses e1 ++ omap address [v] ≡ₚ seq n (length e1) -> addresses e2 ++ refs ≡ₚ seq (n + length e1) (length e2) ->
  addresses (e1 ++ e2) ++ (omap address [v] ++ refs) ≡ₚ seq n (length (e1 ++ e2)).
Proof.
  intros H1 H2. rewrite addresses_app, length_app, seq_app, <- H1, <- H2. rewrite <- !app_assoc. apply Permutation_app_head.
  rewrite !app_assoc. apply Permutation_app_tail, Permutation_app_comm.
Qed.
Lemma omap_cons {A B} (f : A -> option B) x l : omap f (x :: l) = omap f [x] ++ omap f l.
Proof. cbn. by destruct (f x). Qed.

Lemma load_all_tree l : Forall loads_tree l -> forall h, exists ext, (load_all l h).1 = h ++ ext /\
  addresses ext ++ omap address (load_all l h).2 ≡ₚ seq (length h) (length ext).
Proof.
  induction 1 as [|x l Hx _ IH]; intros h; cbn [load_all]; [exists []; by rewrite app_nil_r|].
  destruct (Hx h) as (e1 & E1 & T1). destruct (load x h) as [h1 v1]. cbn [fst snd] in *. subst h1.
  destruct (IH (h ++ e1)) as (e2 & E2 & T2). destruct (load_all l (h ++ e1)) as [h2 vs]. cbn [fst snd] in *. subst h2.
  exists (e1 ++ e2). rewrite app_assoc. split; [done|]. rewrite omap_cons. apply tree_pair; [done|]. by rewrite <- length_app.
Qed.
Lemma load_props_tree o : Forall (fun kv : jsstr * jsval => loads_tree kv.2) o -> forall h, exists ext, (load_props o h).1 = h ++ ext /\
  addresses ext ++ omap address (load_props o h).2.*2 ≡ₚ seq (length h) (length ext).
Proof.
  induction 1 as [|[k x] o Hx _ IH]; intros h; cbn [load_props snd] in *; [exists []; by rewrite app_nil_r|].
  destruct (Hx h) as (e1 & E1 & T1). destruct (load x h) as [h1 v1]. cbn [fst snd] in *. subst h1.
  destruct (IH (h ++ e1)) as (e2 & E2 & T2). destruct (load_props o (h ++ e1)) as [h2 vs]. cbn [fst snd] in *. subst h2.
  exists (e1 ++ e2). rewrite app_assoc. split; [done|]. cbn [fmap list_fmap snd]. rewrite omap_cons.
  apply tree_pair; [done|]. by rewrite <- length_app.
Qed.
Lemma load_tree v : loads_tree v.
Proof.
  induction v as [| | | | |l IH|o IH|] using jsval_nested_ind; try (by intros h; exists []; cbn; rewrite app_nil_r).
  - intros h. rewrite load_arr. destruct (load_all_tree l IH h) as (e & E & T).
    destruct (load_all l h) as [h1 vs]. cbn [fst snd] in *. subst h1. exists (e ++ [CArr vs]). cbn [alloc fst snd].
    rewrite app_assoc. split; [done|]. rewrite length_app. by apply (tree_snoc e (omap address vs)).
  - intros h. rewrite load_obj. destruct (load_props_tree o IH h) as (e & E & T).
    destruct (load_props o h) as [h1 vs]. cbn [fst snd] in *. subst h1. exists (e ++ [CObj vs]). cbn [alloc fst snd].
    rewrite app_assoc. split; [done|]. rewrite length_app. by apply (tree_snoc e (omap address vs.*2)).
Qed.

(** The property of a loaded object is the loaded property. *)
Lemma load_props_assoc k x o : forall h, assoc k o = Some x -> exists h0 ext,
  assoc k (load_props o h).2 = Some (load x h0).2 /\ (load_props o h).1 = (load x h0).1 ++ ext.
Proof.
  induction o as [|[k' y] o IH]; intros h; cbn [assoc load_props]; [done|].
  destruct (load y h) as [h1 v1] eqn:E1. specialize (IH h1). destruct (load_props o h1) as [h2 vs] eqn:E2. cbn [fst snd assoc].
  case_bool_decide as Hk.
  - intros [= ->]. exists h. destruct (load_props_tree o ltac:(apply Forall_true; intros; apply load_tree) h1) as (e & E & _).
    rewrite E2 in E. cbn in E. exists e. by rewrite E1.
  - intros Hx. destruct (IH Hx) as (h0 & e & H1 & H2). by exists h0, e.
Qed.
