(* ===== verification/ResolveScan.v ===== *)
(** * The resolver: scanning a document

    [Resolver.resolve] of swagger-ui.js up to the choice of what is fetched:
    definitions, shared parameters and operations are visited, references go
    to the table, compositions and inline schemas become definitions.  The
    objects of the document are changed while it is scanned, and the table
    refers to them: they have addresses in a [Heap]. *)

From Stdlib Require Import String.
From S2P Require Import Prelude JsNumber JsString JsValue Names Resolver Heap.

(** ** The state *)

(** The objects, and the table with the object of each entry. *)
Record scan := Scan {
  store : heap;
  resolutionTable : list (hval * entry)
}.

Definition getp (v : hval) (k : String.string) : ST scan hval := fun s => (s, hget (store s) v (js k)).
Arguments getp v k%_string.
Definition get_key (v : hval) (k : jsstr) : ST scan hval := fun s => (s, hget (store s) v k).
Definition set_key (v : hval) (k : jsstr) (x : hval) : ST scan unit := fun s =>
  match hset (store s) v k x with Ok h => (Scan h (resolutionTable s), Ok tt) | Throw e => (s, Throw e) end.
Definition setp (v : hval) (k : String.string) (x : hval) : ST scan unit := set_key v (js k) x.
Arguments setp v k%_string x.
Definition delp (v : hval) (k : String.string) : ST scan unit := fun s =>
  match hdel (store s) v (js k) with Ok h => (Scan h (resolutionTable s), Ok tt) | Throw e => (s, Throw e) end.
Arguments delp v k%_string.
Definition new_cell (c : cell) : ST scan hval := fun s =>
  let '(h, a) := alloc (store s) c in (Scan h (resolutionTable s), Ok a).
Definition put_cell (v : hval) (c : cell) : ST scan unit := fun s =>
  (Scan (match v with HRef a => <[a := c]> (store s) | HPrim _ => store s end) (resolutionTable s), Ok tt).
Definition keys_of (v : hval) : ST scan (list jsstr) := gets (fun s => hkeys (store s) v).
Definition elements (v : hval) : ST scan (option (list hval)) := gets (fun s => harray (store s) v).
Definition push_entry (v : hval) (e : entry) : ST scan unit := modify (fun s => Scan (store s) (resolutionTable s ++ [(v, e)])).
(** A copy without shared objects. *)
Definition cloneDeep (v : hval) : ST scan hval := fun s =>
  match reify (store s) v with
  | Ok t => let '(h, a) := load t (store s) in (Scan h (resolutionTable s), Ok a)
  | Throw _ => (s, Throw Unsupported)
  end.
(** The loop over the properties, with a value that goes from turn to turn. *)
Fixpoint foldST {S A B} (f : B -> A -> ST S B) (b : B) (l : list A) : ST S B :=
  match l with [] => mret b | x :: l' => b ← f b x; foldST f b l' end.

Section scan.
(** The order [sort] gives to an [allOf] whose elements have a reference or
    not: the comparison calls two elements without one greater than each other,
    and what a sort does with such a comparison is left open. *)
Context (sort_order : list bool -> list nat).
(** The definitions of the document, and its address. *)
Context (definitions : hval) (root : jsval).

(** A fresh name among the definitions; [taken] says when a name is not. *)
Definition fresh_definition (taken : hval -> bool) (base : jsstr) : ST scan jsstr := fun s =>
  let ks := hkeys (store s) definitions in
  (s, fresh (length ks) (fun n => match hget (store s) definitions n with Ok v => taken v | Throw _ => false end) base).

(** ** References and inline schemas *)

(** [resolveTo]: the recursion follows [items]. *)
Fixpoint resolve_to (n : nat) (property : hval) (location : jsval) : ST scan unit :=
  ref ← getp property "$ref";
  if negb (h_nullish ref) then
    r ← lift (as_str (prim ref));
    '(lroot, key, location) ← lift (ref_target root r location);
    push_entry property (Entry O AsRef lroot key location)
  else
    type ← getp property "type";
    if eq_str (prim type) (js "array") then
      items ← getp property "items";
      match n with O => lift (Throw RangeError) | S n' => resolve_to n' items location end
    else
      properties ← getp property "properties";
      additional ← getp property "additionalProperties";
      if htruthy properties || htruthy additional then
        title ← getp property "title";
        name ← fresh_definition h_is_object (if htruthy title then to_str (prim title) else js "inline_model");
        _ ← delp property "title";
        copy ← cloneDeep property;
        _ ← set_key definitions name copy;
        _ ← setp property "$ref" (hstr (js "#/definitions/" ++ name));
        _ ← delp property "type";
        delp property "properties"
      else mret tt.
(** Following more items than there are objects, the code would go round for
    ever. *)
Definition resolveTo (property : hval) (location : jsval) : ST scan unit := fun s =>
  resolve_to (S (length (store s))) property location s.

(** [resolveInline]. *)
Definition resolveInline (property : hval) (location : jsval) : ST scan unit :=
  key ← getp property "$ref";
  if htruthy key then
    ref ← lift (as_str (prim key));
    r ← lift (as_str (js_orv root (vstr "")));
    '(r, location) ← lift (inline_target r ref location);
    push_entry property (Entry O AsInline (VStr r) (VStr ref) location)
  else
    type ← getp property "type";
    if eq_str (prim type) (js "array") then items ← getp property "items"; resolveTo items location
    else mret tt.

(** ** Compositions *)

(** The references of an [allOf] go first; a list of one element is not
    compared. *)
Definition sort_all_of (l : list hval) : ST scan (list hval) :=
  match l with
  | [] | [_] => mret l
  | _ =>
      flags ← foldST (fun acc v => r ← getp v "$ref"; mret (acc ++ [htruthy r])) [] l;
      mret (omap (fun i => l !! i) (sort_order flags))
  end.

Definition processAllOf (name : jsstr) (definition : hval) : ST scan unit :=
  from ← new_cell (CArr [hstr (js "#/definitions/" ++ name)]);
  _ ← setp definition "x-resolved-from" from;
  allOf ← getp definition "allOf";
  l ← elements allOf;
  match l with
  | None => lift (Throw TypeError)
  | Some l =>
      sorted ← sort_all_of l;
      _ ← put_cell allOf (CArr sorted);
      iterM (fun property => resolveInline property (VStr (js "/definitions/" ++ name ++ js "/allOf"))) sorted
  end.

(** A composed schema is moved to a definition; [untype] for a response.  The
    list of its parts is shared. *)
Definition move_to_definition (schema allOf : hval) (untype : bool) : ST scan jsstr :=
  name ← fresh_definition (fun v => negb (h_undef v)) (js "inline_model");
  definition ← new_cell (CObj [(js "allOf", allOf)]);
  _ ← set_key definitions name definition;
  _ ← delp schema "allOf";
  _ ← (if untype then delp schema "type" else mret tt);
  _ ← setp schema "$ref" (hstr (js "#/definitions/" ++ name));
  definition ← get_key definitions name;
  _ ← processAllOf name definition;
  mret name.

(** ** Definitions *)

Definition scan_property (name : jsstr) (property : hval) : ST scan unit :=
  allOf ← getp property "allOf";
  l ← elements allOf;
  match l with
  | Some _ => processAllOf name property
  | None => resolveTo property (vstr "/definitions")
  end.
Definition scan_definition (name : jsstr) : ST scan unit :=
  definition ← get_key definitions name;
  ref ← getp definition "$ref";
  if htruthy ref then resolveInline definition (VObj [])
  else
    properties ← getp definition "properties";
    ks ← keys_of properties;
    _ ← iterM (fun k => property ← get_key properties k; scan_property name property) ks;
    allOf ← getp definition "allOf";
    if htruthy allOf then processAllOf name definition else mret tt.

(** ** Parameters *)

(** A parameter; [name] is the variable the inline model's name is left in. *)
Definition scan_parameter (name : jsstr) (parameter : hval) (location : jsval) : ST scan jsstr :=
  in_ ← getp parameter "in";
  schema ← (if eq_str (prim in_) (js "body") then getp parameter "schema" else mret hundef);
  name ← (if htruthy schema then
            allOf ← getp schema "allOf";
            l ← elements allOf;
            match l with
            | Some _ => move_to_definition schema allOf false
            | None => _ ← resolveTo schema location; mret name
            end
          else mret name);
  ref ← getp parameter "$ref";
  _ ← (if htruthy ref then resolveInline parameter (prim ref) else mret tt);
  mret name.
Definition scan_shared_parameter (parameters : hval) (k : jsstr) : ST scan unit :=
  parameter ← get_key parameters k;
  _ ← scan_parameter [] parameter VUndef;
  mret tt.

(** ** Responses *)

Definition scan_response (name : jsstr) (response : hval) (location : jsval) : ST scan jsstr :=
  if negb (h_is_object response) then mret name
  else
    ref ← getp response "$ref";
    _ ← (if htruthy ref then resolveInline response location else mret tt);
    schema ← getp response "schema";
    if negb (htruthy schema) then mret name
    else
      allOf ← getp schema "allOf";
      l ← elements allOf;
      match l with
      | Some _ => move_to_definition schema allOf true
      | None =>
          type ← getp schema "type";
          _ ← (if eq_str (prim type) (js "array") then
                 items ← getp schema "items";
                 ref ← (if htruthy items then getp items "$ref" else mret hundef);
                 if htruthy ref then resolveInline items location else mret tt
               else resolveTo schema location);
          mret name
      end.

(** ** Operations *)

(** The shared parameters of a path go before those of an operation, in
    reverse, into the list of the operation itself. *)
Definition share_parameters (path operation : hval) : ST scan hval :=
  shared ← getp path "parameters";
  own ← getp operation "parameters";
  parameters ← (if htruthy own then mret own else new_cell (CArr []));
  sharedList ← (if htruthy shared then
                  l ← elements shared;
                  match l with Some l => mret l | None => lift (Throw TypeError) end
                else mret []);
  _ ← match sharedList with
      | [] => mret tt
      | _ =>
          l ← elements parameters;
          match l with
          | Some l => put_cell parameters (CArr (rev sharedList ++ l))
          | None => lift (Throw TypeError)
          end
      end;
  mret parameters.

(** A method of a path; [name] is the name of the path, until an inline model
    takes its place. *)
Definition scan_method (path : hval) (name : jsstr) (method : jsstr) : ST scan jsstr :=
  if bool_decide (method = js "$ref") then
    _ ← resolveInline path (VStr (js "/paths" ++ name)); mret name
  else
    operation ← get_key path method;
    parameters ← share_parameters path operation;
    _ ← (if negb (bool_decide (method = js "parameters")) && h_is_object operation then
           own ← getp operation "parameters";
           if htruthy own then mret tt else setp operation "parameters" parameters
         else mret tt);
    ks ← keys_of parameters;
    name ← foldST (fun name k =>
             parameter ← get_key parameters k;
             scan_parameter name parameter (VStr (js "/paths" ++ name ++ js "/" ++ method ++ js "/parameters"))) name ks;
    responses ← getp operation "responses";
    ks ← keys_of responses;
    foldST (fun name responseCode =>
      response ← get_key responses responseCode;
      scan_response name response
        (VStr (js "/paths" ++ name ++ js "/" ++ method ++ js "/responses/" ++ responseCode))) name ks.

Definition scan_path (paths : hval) (name : jsstr) : ST scan unit :=
  path ← get_key paths name;
  match path with
  | HRef _ | HPrim VNull =>
      ks ← keys_of path;
      _ ← foldST (scan_method path) name ks;
      empty ← new_cell (CArr []);
      setp path "parameters" empty
  | _ => mret tt
  end.
End scan.

(** [spec.k = spec.k || {}]. *)
Definition ensure_object (spec : hval) (k : jsstr) : ST scan hval :=
  v ← get_key spec k;
  if htruthy v then mret v
  else o ← new_cell (CObj []); _ ← set_key spec k o; mret o.

Definition scan_document (sort_order : list bool -> list nat) (spec : hval) (root : jsval) : ST scan unit :=
  definitions ← ensure_object spec (js "definitions");
  ks ← keys_of definitions;
  _ ← iterM (scan_definition sort_order definitions root) ks;
  parameters ← ensure_object spec (js "parameters");
  ks ← keys_of parameters;
  _ ← iterM (scan_shared_parameter sort_order definitions root parameters) ks;
  paths ← getp spec "paths";
  ks ← keys_of paths;
  iterM (scan_path sort_order definitions root paths) ks.

(** The scan of a document given as a tree: the tree afterwards and the table. *)
Definition scanned (sort_order : list bool -> list nat) (root : jsval) (document : jsval) : res (jsval * list entry) :=
  let '(h, spec) := load document [] in
  match scan_document sort_order spec root (Scan h []) with
  | (s, Ok _) => t ← reify (store s) spec; Ok (t, (resolutionTable s).*2)
  | (_, Throw e) => Throw e
  end.

(** References first, in the order of the list. *)
Definition refs_first (flags : list bool) : list nat :=
  filter (fun i => flags !! i = Some true) (seq 0 (length flags)) ++ filter (fun i => flags !! i = Some false) (seq 0 (length flags)).

(** ** No definition is overwritten *)

(** [m] keeps [P], and what it returns satisfies [Q]. *)
Definition ensures {S A} (P : S -> Prop) (m : ST S A) (Q : A -> Prop) : Prop :=
  forall s, P s -> P (m s).1 /\ forall a, (m s).2 = Ok a -> Q a.

Section ensures.
Context {S : Type} (P : S -> Prop).
Lemma ensures_bind {A B} (m : ST S A) (f : A -> ST S B) (Q : A -> Prop) (R : B -> Prop) :
  ensures P m Q -> (forall a, Q a -> ensures P (f a) R) -> ensures P (m ≫= f) R.
Proof.
  intros Hm Hf s Hs. destruct (Hm s Hs) as [H1 H2]. unfold mbind, st_bind. destruct (m s) as [s' [a|e]]; cbn in *.
  - apply Hf; [by apply H2|done].
  - by split.
Qed.
Lemma ensures_mono {A} (m : ST S A) (Q R : A -> Prop) : ensures P m Q -> (forall a, Q a -> R a) -> ensures P m R.
Proof. intros Hm HQ s Hs. destruct (Hm s Hs) as [H1 H2]. split; [done|]. intros a Ha. by apply HQ, H2. Qed.
Lemma ensures_ret {A} (a : A) (Q : A -> Prop) : Q a -> ensures P (mret a : ST S A) Q.
Proof. intros Ha s Hs. split; [done|]. by intros b [= <-]. Qed.
Lemma ensures_lift {A} (r : res A) (Q : A -> Prop) : (forall a, r = Ok a -> Q a) -> ensures P (lift r : ST S A) Q.
Proof. intros Ha s Hs. by split. Qed.
Lemma ensures_gets {A} (f : S -> A) (Q : A -> Prop) : (forall s, P s -> Q (f s)) -> ensures P (gets f) Q.
Proof. intros Hf s Hs. split; [done|]. intros a [= <-]. by apply Hf. Qed.
Lemma ensures_iter {A} (f : A -> ST S unit) (l : list A) (Q : A -> Prop) :
  Forall Q l -> (forall x, Q x -> ensures P (f x) (fun _ => True)) -> ensures P (iterM f l) (fun _ => True).
Proof.
  intros Hl Hf. induction Hl as [|x l Hx _ IH]; intros s Hs; cbn [iterM]; [done|].
  destruct (Hf x Hx s Hs) as [H1 _]. destruct (f x s) as [s' [?|?]]; [by apply IH|done].
Qed.
Lemma ensures_fold {A B} (f : B -> A -> ST S B) (l : list A) b (Q : A -> Prop) (R : B -> Prop) :
  R b -> Forall Q l -> (forall b x, R b -> Q x -> ensures P (f b x) R) -> ensures P (foldST f b l) R.
Proof.
  intros Hb Hl Hf. revert b Hb. induction Hl as [|x l Hx _ IH]; intros b Hb; cbn [foldST]; [by apply ensures_ret|].
  eapply ensures_bind; [by apply Hf|]. intros b' Hb'. by apply IH.
Qed.
End ensures.

Section keep.
Context (sort_order : list bool -> list nat) (root : jsval).
(** The addresses of the definitions and of the document, and the definitions
    at the beginning. *)
Context (d sp : nat) (D0 : list (jsstr * hval)).

(** Nothing else refers to the two. *)
Definition apart (v : hval) : Prop := v <> HRef d /\ v <> HRef sp.
Definition refs_apart (c : cell) : Prop := Forall apart (cell_refs c).

Record kept (s : scan) : Prop := {
  k_definitions : exists o, store s !! d = Some (CObj o) /\
    forall k v, assoc k D0 = Some v -> h_is_object v = true -> assoc k o = Some v;
  k_document : exists o, store s !! sp = Some (CObj o) /\ assoc (js "definitions") o = Some (HRef d) /\
    forall k v, k <> js "definitions" -> assoc k o = Some v -> apart v;
  k_cells : forall a c, store s !! a = Some c -> a <> sp -> refs_apart c;
  k_distinct : d <> sp
}.
#[local] Abbreviation ens := (ensures kept).

Lemma prim_apart p : apart (HPrim p).
Proof. done. Qed.
#[local] Hint Resolve prim_apart : core.
Lemma assoc_apart k o v : Forall apart o.*2 -> assoc k o = Some v -> apart v.
Proof.
  intros Ho Hk. apply assoc_some_in in Hk. rewrite Forall_forall in Ho. apply Ho.
  apply list_elem_of_fmap. by exists (k, v).
Qed.
Lemma hget_apart s v k x : kept s -> v <> HRef sp -> hget (store s) v k = Ok x -> apart x.
Proof.
  intros Hs Hv. destruct v as [p|a]; cbn [hget]; [by destruct (is_nullish p); [|intros [= <-]]|].
  destruct (store s !! a) as [[o|l]|] eqn:E; [| |by intros [= <-]]; apply (k_cells _ Hs) in E; try congruence; intros [= <-].
  - destruct (assoc k o) as [y|] eqn:Ey; [|done]. by apply (assoc_apart k o).
  - case_bool_decide; [done|]. destruct (array_index k); [|done]. destruct (l !! Z.to_nat z) as [y|] eqn:Ey; [|done].
    unfold refs_apart in E. rewrite Forall_forall in E. apply E. by apply (list_elem_of_lookup_2 _ (Z.to_nat z)).
Qed.

Lemma ens_getp v k : v <> HRef sp -> ens (getp v k) apart.
Proof. intros Hv s Hs. split; [done|]. intros x Hx. by apply (hget_apart s v (js k)). Qed.
Lemma ens_get_key v k : v <> HRef sp -> ens (get_key v k) apart.
Proof. intros Hv s Hs. split; [done|]. intros x Hx. by apply (hget_apart s v k). Qed.
Lemma ens_keys v : ens (keys_of v) (fun _ => True).
Proof. by apply ensures_gets. Qed.
Lemma ens_elements v : apart v -> ens (elements v) (fun l => forall l', l = Some l' -> Forall apart l').
Proof.
  intros [_ Hv]. apply ensures_gets. intros s Hs l'. unfold harray. destruct v as [|a]; [done|].
  destruct (store s !! a) as [[|l]|] eqn:E; try done. intros [= <-]. apply (k_cells _ Hs) in E; [done|congruence].
Qed.

(** Changing another cell. *)
Lemma kept_insert s a c t : kept s -> a <> d -> a <> sp -> refs_apart c -> kept (Scan (<[a := c]> (store s)) t).
Proof.
  intros Hs Hd Hsp Hc. destruct Hs as [(o & Ho & HD) (o' & Ho' & Hdoc) Hcells Hne]. constructor; cbn [store]; [| | |done].
  - exists o. by rewrite list_lookup_insert_ne.
  - exists o'. by rewrite list_lookup_insert_ne.
  - intros b c' Hb Hbs. destruct (decide (b = a)) as [->|Hba].
    + apply list_lookup_insert_Some in Hb as [(_ & <- & _)|[? _]]; done.
    + rewrite list_lookup_insert_ne in Hb by done. by apply (Hcells b).
Qed.
Lemma kept_table s t : kept s -> kept (Scan (store s) t).
Proof. intros [H1 H2 H3 H4]. by constructor. Qed.
Lemma put_apart (o : list (jsstr * hval)) k x : Forall apart o.*2 -> apart x -> Forall apart (put k x o).*2.
Proof.
  intros Ho Hx. induction o as [|[k' y] o IH]; cbn; [by constructor|]. cbn in Ho. apply Forall_cons in Ho as [Hy Ho].
  case_bool_decide; cbn; constructor; auto.
Qed.
Lemma ens_set_key v k x : apart v -> apart x -> ens (set_key v k x) (fun _ => True).
Proof.
  intros [Hd Hsp] Hx s Hs. unfold set_key, hset. destruct v as [|a]; [done|]. split; [|done]. cbn [fst].
  destruct (store s !! a) as [[o|l]|] eqn:E; [| |by apply kept_table].
  - apply kept_insert; [done|congruence..|]. apply (k_cells _ Hs) in E; [|congruence]. by apply put_apart.
  - destruct (array_index k); [|by apply kept_table]. apply kept_insert; [done|congruence..|].
    apply (k_cells _ Hs) in E; [|congruence]. by apply Forall_insert.
Qed.
Lemma ens_setp v k x : apart v -> apart x -> ens (setp v k x) (fun _ => True).
Proof. apply ens_set_key. Qed.
Lemma ens_delp v k : apart v -> ens (delp v k) (fun _ => True).
Proof.
  intros [Hd Hsp] s Hs. unfold delp, hdel. destruct v as [p|a].
  - destruct (is_nullish p); [done|]. split; [by apply kept_table|done].
  - split; [|done]. cbn [fst]. destruct (store s !! a) as [[o|l]|] eqn:E; [|by apply kept_table..].
    apply kept_insert; [done|congruence..|]. apply (k_cells _ Hs) in E; [|congruence]. unfold refs_apart, cell_refs in *.
    rewrite Forall_forall in *. intros x Hx. apply E. apply list_elem_of_fmap in Hx as (kv & -> & Hkv).
    apply list_elem_of_fmap. exists kv. split; [done|]. unfold remove in Hkv. by apply list_elem_of_filter in Hkv as [_ ?].
Qed.

(** New cells. *)
Lemma kept_bounds s : kept s -> (d < length (store s))%nat /\ (sp < length (store s))%nat.
Proof.
  intros [(o & Ho & _) (o' & Ho' & _) _ _]. split; by eapply lookup_lt_Some.
Qed.
Lemma kept_extend s ext t : kept s -> Forall refs_apart ext -> kept (Scan (store s ++ ext) t).
Proof.
  intros Hs He. pose proof (kept_bounds s Hs) as [Hd Hsp]. destruct Hs as [(o & Ho & HD) (o' & Ho' & Hdoc) Hcells Hne].
  constructor; cbn [store]; [| | |done].
  - exists o. by rewrite lookup_app_l.
  - exists o'. by rewrite lookup_app_l.
  - intros a c Ha Has. apply lookup_app_Some in Ha as [Ha|[_ Ha]]; [by apply (Hcells a)|].
    rewrite Forall_forall in He. apply He. by apply list_elem_of_lookup_2 in Ha.
Qed.
Lemma fresh_apart s v : kept s -> fresh_ref (length (store s)) v -> apart v.
Proof.
  intros Hs Hv. pose proof (kept_bounds s Hs) as [Hd Hsp]. destruct v as [|a]; [done|]. cbn in Hv. split; intros [= ->]; lia.
Qed.
Lemma ens_new_cell c : refs_apart c -> ens (new_cell c) apart.
Proof.
  intros Hc s Hs. cbn. split; [apply kept_extend; [done|by constructor]|]. intros x [= <-]. apply (fresh_apart s); [done|cbn; lia].
Qed.
Lemma ens_put_cell v c : apart v -> refs_apart c -> ens (put_cell v c) (fun _ => True).
Proof.
  intros [Hd Hsp] Hc s Hs. cbn. split; [|done]. destruct v as [|a]; [by apply kept_table|]. apply kept_insert; [done|congruence..|done].
Qed.
Lemma ens_push v e : ens (push_entry v e) (fun _ => True).
Proof. intros s Hs. split; [by apply kept_table|done]. Qed.
Lemma ens_clone v : ens (cloneDeep v) apart.
Proof.
  intros s Hs. unfold cloneDeep. destruct (reify (store s) v) as [t|]; [|done].
  destruct (load_fresh t (store s)) as (ext & E & F & R). destruct (load t (store s)) as [h a]. cbn [fst snd] in *. subst h. split.
  - apply kept_extend; [done|]. apply (Forall_impl _ _ _ R). intros c Hc. apply (Forall_impl _ _ _ Hc). intros x. by apply fresh_apart.
  - intros x [= <-]. by apply (fresh_apart s).
Qed.

(** The definitions only get names that no definition has. *)
Definition new_name (n : jsstr) : Prop := forall v, assoc n D0 = Some v -> h_is_object v = false.
Lemma ens_define n x : new_name n -> apart x -> ens (set_key (HRef d) n x) (fun _ => True).
Proof.
  intros Hn Hx s Hs. unfold set_key, hset. split; [|done]. cbn [fst].
  destruct Hs as [(o & Ho & HD) (o' & Ho' & Hdoc) Hcells Hne]. rewrite Ho. constructor; cbn [store]; [| | |done].
  - exists (put n x o). rewrite list_lookup_insert_eq by by eapply lookup_lt_Some. split; [done|]. intros k v Hk Hv.
    rewrite assoc_put_ne; [by apply HD|]. intros <-. apply Hn in Hk. congruence.
  - exists o'. by rewrite list_lookup_insert_ne.
  - intros a c Ha Has. destruct (decide (a = d)) as [->|Had].
    + rewrite list_lookup_insert_eq in Ha by by eapply lookup_lt_Some. injection Ha as <-. apply put_apart; [|done].
      by apply (Hcells d (CObj o)).
    + rewrite list_lookup_insert_ne in Ha by done. by apply (Hcells a).
Qed.
Lemma ens_fresh taken base : (forall v, h_is_object v = true -> taken v = true) -> ens (fresh_definition (HRef d) taken base) new_name.
Proof.
  intros Ht s Hs. split; [done|]. intros n Hn v Hv. cbn [fresh_definition snd] in Hn. apply not_true_iff_false. intros Hobj.
  destruct (k_definitions s Hs) as (o & Ho & HD). specialize (HD _ _ Hv Hobj). unfold fresh in Hn.
  destruct (fresh_loop _ _ _ _ _) as [n'|] eqn:E; [|done]. injection Hn as ->. apply fresh_loop_some in E as [E _].
  cbn [hget] in E. rewrite Ho, HD in E. cbn in E. by rewrite Ht in E.
Qed.

(** ** The scan keeps them *)

#[local] Abbreviation defs := (HRef d).
#[local] Abbreviation any := (fun _ => True).
Lemma ens_lift {A} (r : res A) : ens (lift r : ST scan A) any.
Proof. by apply ensures_lift. Qed.
Lemma ens_ret_unit : ens (mret tt : ST scan unit) any.
Proof. by apply ensures_ret. Qed.
#[local] Hint Resolve ens_lift ens_ret_unit ens_keys ens_push : core.

Lemma apart_not_sp v : apart v -> v <> HRef sp.
Proof. by intros [_ ?]. Qed.
#[local] Hint Resolve apart_not_sp : core.
#[local] Ltac bind := eapply ensures_bind.
#[local] Ltac get v := bind; [by apply ens_getp, apart_not_sp|]; intros v ?.

Lemma ens_resolve_to n : forall property location, apart property -> ens (resolve_to defs root n property location) any.
Proof.
  induction n as [|n IH]; intros property location Hp; cbn [resolve_to]; get ref; destruct (negb (h_nullish ref)).
  1, 3: bind; [apply ens_lift|]; intros r _; bind; [apply ens_lift|]; intros [[lroot key] loc] _; apply ens_push.
  all: get type; destruct (eq_str (prim type) (js "array")); [get items; try apply ens_lift; try (by apply IH)|].
  all: get properties; get additional; destruct (htruthy properties || htruthy additional); [|apply ens_ret_unit].
  all: get title; bind; [by apply ens_fresh|]; intros name Hn; bind; [by apply ens_delp|]; intros _ _;
    bind; [apply ens_clone|]; intros copy Hc; bind; [by apply ens_define|]; intros _ _;
    bind; [by apply ens_setp|]; intros _ _; bind; [by apply ens_delp|]; intros _ _; by apply ens_delp.
Qed.
Lemma ens_resolveTo property location : apart property -> ens (resolveTo defs root property location) any.
Proof. intros Hp s Hs. by apply ens_resolve_to. Qed.
Lemma ens_resolveInline property location : apart property -> ens (resolveInline defs root property location) any.
Proof.
  intros Hp. unfold resolveInline. get key. destruct (htruthy key).
  - bind; [apply ens_lift|]. intros ref _. bind; [apply ens_lift|]. intros r _. bind; [apply ens_lift|]. intros [r' l] _. apply ens_push.
  - get type. destruct (eq_str _ _); [|apply ens_ret_unit]. get items. by apply ens_resolveTo.
Qed.

Lemma ens_sort l : Forall apart l -> ens (sort_all_of sort_order l) (fun l' => Forall apart l').
Proof.
  intros Hl. assert (H : ens (flags ← foldST (fun acc v => r ← getp v "$ref"; mret (acc ++ [htruthy r])) [] l;
                              mret (omap (fun i => l !! i) (sort_order flags))) (fun l' => Forall apart l')).
  { bind; [apply (ensures_fold kept _ _ _ apart any); [done|done|]|].
    - intros b x _ Hx. bind; [by apply ens_getp, apart_not_sp|]. intros r _. by apply ensures_ret.
    - intros flags _. apply ensures_ret. rewrite Forall_forall in *. intros x Hx.
      apply list_elem_of_omap in Hx as (i & _ & Hi). apply Hl. by apply list_elem_of_lookup_2 in Hi. }
  destruct l as [|x [|y l]]; [by apply ensures_ret..|exact H].
Qed.
Lemma ens_processAllOf name definition : apart definition -> ens (processAllOf sort_order defs root name definition) any.
Proof.
  intros Hd. unfold processAllOf. bind; [apply ens_new_cell; by constructor|]. intros from Hf.
  bind; [by apply ens_setp|]. intros _ _. get allOf. bind; [by apply ens_elements|]. intros [l|] Hl; [|apply ens_lift].
  bind; [apply ens_sort; by apply Hl|]. intros sorted Hsorted. bind; [by apply ens_put_cell|]. intros _ _.
  apply (ensures_iter kept _ _ apart); [done|]. intros x Hx. by apply ens_resolveInline.
Qed.
Lemma ens_definition k : ens (get_key defs k) apart.
Proof. intros s Hs. apply ens_get_key; [|done]. pose proof (k_distinct s Hs). congruence. Qed.
Lemma ens_move schema allOf untype : apart schema -> apart allOf -> ens (move_to_definition sort_order defs root schema allOf untype) any.
Proof.
  intros Hs Ha. unfold move_to_definition. bind; [apply ens_fresh; by intros [[]|a]|]. intros name Hn.
  bind; [apply ens_new_cell; constructor; [exact Ha|constructor]|]. intros definition Hdef. bind; [by apply ens_define|]. intros _ _.
  bind; [by apply ens_delp|]. intros _ _. bind; [destruct untype; [by apply ens_delp|apply ens_ret_unit]|]. intros _ _.
  bind; [by apply ens_setp|]. intros _ _.
  bind; [apply ens_definition|]. intros definition' Hdef'. bind; [by apply ens_processAllOf|]. intros _ _. by apply ensures_ret.
Qed.

Lemma ens_keys_iter {B} (v : hval) (f : jsstr -> ST scan unit) (g : ST scan B) Q :
  (forall k, ens (f k) any) -> ens g Q -> ens (ks ← keys_of v; _ ← iterM f ks; g) Q.
Proof.
  intros Hf Hg. bind; [apply ens_keys|]. intros ks _. bind; [|intros _ _; exact Hg].
  apply (ensures_iter kept _ _ any); [by apply Forall_true|]. intros k _. apply Hf.
Qed.
Lemma ens_keys_fold (v : hval) (f : jsstr -> jsstr -> ST scan jsstr) name :
  (forall n k, ens (f n k) any) -> ens (ks ← keys_of v; foldST f name ks) any.
Proof.
  intros Hf. bind; [apply ens_keys|]. intros ks _.
  apply (ensures_fold kept _ _ _ any any); [done|by apply Forall_true|]. intros n k _ _. apply Hf.
Qed.

Lemma ens_scan_definition name : ens (scan_definition sort_order defs root name) any.
Proof.
  unfold scan_definition. bind; [apply ens_definition|]. intros definition Hd. get ref.
  destruct (htruthy ref); [by apply ens_resolveInline|]. get properties. apply ens_keys_iter.
  - intros k. bind; [by apply ens_get_key, apart_not_sp|]. intros property Hp. unfold scan_property. get allOf.
    bind; [by apply ens_elements|]. intros [l|] _; [by apply ens_processAllOf|by apply ens_resolveTo].
  - get allOf. destruct (htruthy allOf); [by apply ens_processAllOf|apply ens_ret_unit].
Qed.

Lemma ens_scan_parameter name parameter location : apart parameter -> ens (scan_parameter sort_order defs root name parameter location) any.
Proof.
  intros Hp. unfold scan_parameter. get in_. bind.
  { instantiate (1 := apart). destruct (eq_str _ _); [by apply ens_getp, apart_not_sp|by apply ensures_ret]. }
  intros schema Hs. bind; [instantiate (1 := any)|].
  { destruct (htruthy schema); [|by apply ensures_ret]. get allOf. bind; [by apply ens_elements|]. intros [l|] _; [by apply ens_move|].
    bind; [by apply ens_resolveTo|]. intros _ _. by apply ensures_ret. }
  intros name' _. get ref. bind; [|intros _ _; by apply ensures_ret].
  destruct (htruthy ref); [by apply ens_resolveInline|apply ens_ret_unit].
Qed.
Lemma ens_scan_response name response location : apart response -> ens (scan_response sort_order defs root name response location) any.
Proof.
  intros Hr. unfold scan_response. destruct (negb (h_is_object response)); [by apply ensures_ret|]. get ref.
  bind; [destruct (htruthy ref); [by apply ens_resolveInline|apply ens_ret_unit]|]. intros _ _. get schema.
  destruct (negb (htruthy schema)); [by apply ensures_ret|]. get allOf. bind; [by apply ens_elements|].
  intros [l|] _; [by apply ens_move|]. get type. bind; [|intros _ _; by apply ensures_ret].
  destruct (eq_str _ _); [|by apply ens_resolveTo]. get items. bind.
  { instantiate (1 := any). destruct (htruthy items); [|by apply ensures_ret].
    eapply ensures_mono; [by apply ens_getp, apart_not_sp|done]. }
  intros r _. destruct (htruthy r); [by apply ens_resolveInline|apply ens_ret_unit].
Qed.

Lemma ens_share path operation : apart path -> apart operation -> ens (share_parameters path operation) apart.
Proof.
  intros Hp Ho. unfold share_parameters. get shared. get own. bind.
  { instantiate (1 := apart). destruct (htruthy own); [by apply ensures_ret|apply ens_new_cell; by constructor]. }
  intros parameters Hps. bind.
  { instantiate (1 := Forall apart). destruct (htruthy shared); [|by apply ensures_ret].
    bind; [by apply ens_elements|]. intros [l|] Hl; [apply ensures_ret; by apply Hl|]. by apply ensures_lift. }
  intros sharedList Hl. bind; [|intros _ _; by apply ensures_ret]. destruct sharedList as [|x xs]; [apply ens_ret_unit|].
  bind; [by apply ens_elements|]. intros [l|] Hl'; [|apply ens_lift]. apply ens_put_cell; [done|]. apply Forall_app.
  split; [by apply Forall_rev|by apply Hl'].
Qed.
Lemma ens_scan_method path name method : apart path -> ens (scan_method sort_order defs root path name method) any.
Proof.
  intros Hp. unfold scan_method. case_bool_decide.
  { bind; [by apply ens_resolveInline|]. intros _ _. by apply ensures_ret. }
  bind; [by apply ens_get_key, apart_not_sp|]. intros operation Ho. bind; [by apply ens_share|]. intros parameters Hps. bind.
  { instantiate (1 := any). destruct (_ && _); [|apply ens_ret_unit]. get own. destruct (htruthy own); [apply ens_ret_unit|by apply ens_setp]. }
  intros _ _. bind; [apply ens_keys|]. intros ks _. bind.
  { apply (ensures_fold kept _ _ _ any any); [done|by apply Forall_true|]. intros n k _ _.
    bind; [by apply ens_get_key, apart_not_sp|]. intros parameter Hpar. by apply ens_scan_parameter. }
  intros name' _. get responses. apply ens_keys_fold. intros n k.
  bind; [by apply ens_get_key, apart_not_sp|]. intros response Hr. by apply ens_scan_response.
Qed.
Lemma ens_scan_path paths name : apart paths -> ens (scan_path sort_order defs root paths name) any.
Proof.
  intros Hp. unfold scan_path. bind; [by apply ens_get_key, apart_not_sp|]. intros path Hpath.
  assert (H : ens (ks ← keys_of path; _ ← foldST (scan_method sort_order defs root path) name ks;
                   empty ← new_cell (CArr []); setp path "parameters" empty) any).
  { bind; [apply ens_keys|]. intros ks _. bind.
    - apply (ensures_fold kept _ _ _ any any); [done|by apply Forall_true|]. intros n k _ _. by apply ens_scan_method.
    - intros _ _. bind; [apply ens_new_cell; by constructor|]. intros empty He. by apply ens_setp. }
  destruct path as [[]|]; try done; apply ens_ret_unit.
Qed.

(** The document itself. *)
Lemma ens_document_definitions : ens (get_key (HRef sp) (js "definitions")) (fun v => v = HRef d).
Proof.
  intros s Hs. split; [done|]. intros v Hv. destruct (k_document s Hs) as (o & Ho & Hd & _).
  cbn in Hv. rewrite Ho in Hv. unfold js in *. rewrite Hd in Hv. by injection Hv as <-.
Qed.
Lemma ens_document k : k <> js "definitions" -> ens (get_key (HRef sp) k) apart.
Proof.
  intros Hk s Hs. split; [done|]. intros v Hv. destruct (k_document s Hs) as (o & Ho & _ & Ha).
  cbn [get_key snd hget] in Hv. rewrite Ho in Hv. injection Hv as <-. destruct (assoc k o) as [x|] eqn:E; [|done]. by apply (Ha k).
Qed.
Lemma ens_set_document k x : k <> js "definitions" -> apart x -> ens (set_key (HRef sp) k x) any.
Proof.
  intros Hk Hx s Hs. unfold set_key, hset. split; [|done]. cbn [fst].
  destruct Hs as [(o & Ho & HD) (o' & Ho' & Hdoc & Ha) Hcells Hne]. rewrite Ho'. constructor; cbn [store]; [| | |done].
  - exists o. by rewrite list_lookup_insert_ne.
  - exists (put k x o'). rewrite list_lookup_insert_eq by by eapply lookup_lt_Some. split; [done|]. split; [by rewrite assoc_put_ne|].
    intros k' v Hk' Hv. destruct (decide (k = k')) as [<-|Hkk]; [rewrite assoc_put_eq in Hv; by injection Hv as <-|].
    rewrite assoc_put_ne in Hv by done. by apply (Ha k').
  - intros a c Hc Has. rewrite list_lookup_insert_ne in Hc by done. by apply (Hcells a).
Qed.
Lemma ens_ensure k : k <> js "definitions" -> ens (ensure_object (HRef sp) k) apart.
Proof.
  intros Hk. unfold ensure_object. bind; [by apply ens_document|]. intros v Hv. destruct (htruthy v); [by apply ensures_ret|].
  bind; [apply ens_new_cell; by constructor|]. intros o Ho. bind; [by apply ens_set_document|]. intros _ _. by apply ensures_ret.
Qed.
Lemma ens_scan_document : ens (scan_document sort_order (HRef sp) root) any.
Proof.
  unfold scan_document. bind.
  { instantiate (1 := fun v => v = HRef d). unfold ensure_object. bind; [apply ens_document_definitions|].
    intros v ->. by apply ensures_ret. }
  intros definitions ->. apply ens_keys_iter; [apply ens_scan_definition|].
  bind; [by apply ens_ensure|]. intros parameters Hp. apply ens_keys_iter.
  { intros k. unfold scan_shared_parameter. bind; [by apply ens_get_key, apart_not_sp|]. intros parameter Hpar.
    bind; [by apply ens_scan_parameter|]. intros _ _. apply ens_ret_unit. }
  bind; [by apply ens_document|]. intros paths Hpaths. bind; [apply ens_keys|]. intros ks _.
  apply (ensures_iter kept _ _ any); [by apply Forall_true|]. intros k _. by apply ens_scan_path.
Qed.
End keep.

(** A loaded document with definitions. *)
Lemma assoc_address_unique (o : list (jsstr * hval)) k k' a : NoDup (omap address o.*2) ->
  assoc k o = Some (HRef a) -> assoc k' o = Some (HRef a) -> k = k'.
Proof.
  induction o as [|[j v] o IH]; [done|]. cbn [fmap list_fmap fst snd]. rewrite omap_cons. intros Hn. cbn [assoc].
  apply NoDup_app in Hn as (_ & Hd & Hn).
  assert (Hin : forall i, assoc i o = Some (HRef a) -> a ∈ omap address o.*2).
  { intros i Hi%assoc_some_in. apply list_elem_of_omap. exists (HRef a). split; [|done]. apply list_elem_of_fmap. by exists (i, HRef a). }
  do 2 case_bool_decide; try congruence; [intros [= ->] Hk|intros Hk [= ->]|by apply IH];
    (destruct (Hd a); [cbn; by left|by apply (Hin _ Hk)]).
Qed.
Lemma kept_load o defs h spec : load (VObj o) [] = (h, spec) -> assoc (js "definitions") o = Some (VObj defs) ->
  exists d sp D0, spec = HRef sp /\ h !! d = Some (CObj D0) /\ kept d sp D0 (Scan h []).
Proof.
  intros E Hd. pose proof (load_tree (VObj o) []) as (ext & Eh & T). rewrite E in Eh, T. cbn [fst snd app] in Eh, T. subst ext.
  rewrite load_obj in E. destruct (load_props_assoc _ _ _ [] Hd) as (h0 & e & Ha & Hh).
  destruct (load_props o []) as [h1 xs]. cbn [fst snd] in *. injection E as <- <-.
  pose proof (load_obj defs h0) as El. destruct (load_props defs h0) as [h2 ys]. rewrite El in Ha, Hh. unfold alloc in Ha, Hh. cbn [fst snd] in Ha, Hh.
  exists (length h2), (length h1), ys. split; [done|].
  assert (Hlt : (length h2 < length h1)%nat) by (subst h1; rewrite !length_app; cbn; lia).
  assert (Hcell : (h1 ++ [CObj xs]) !! length h2 = Some (CObj ys)).
  { rewrite lookup_app_l by done. subst h1. rewrite lookup_app_l by (rewrite length_app; cbn; lia).
    by rewrite lookup_app_r, Nat.sub_diag by done. }
  split; [done|].
  assert (Hn : NoDup (addresses (h1 ++ [CObj xs]) ++ [length h1])) by (rewrite T; apply NoDup_seq).
  rewrite addresses_app in Hn. cbn in Hn. rewrite app_nil_r in Hn.
  apply NoDup_app in Hn as (Hn & Hroot & _). apply NoDup_app in Hn as (_ & Hdisj & Hxs).
  assert (Hdin : length h2 ∈ omap address xs.*2).
  { apply list_elem_of_omap. exists (HRef (length h2)). split; [|done]. apply list_elem_of_fmap.
    exists (js "definitions", HRef (length h2)). split; [done|by apply assoc_some_in]. }
  constructor; cbn [store]; [by exists ys| | |lia].
  - exists xs. split; [by rewrite lookup_app_r, Nat.sub_diag by done|]. split; [done|]. intros k v Hk Hv. split; intros ->.
    + destruct Hk. by apply (assoc_address_unique xs _ _ (length h2)).
    + apply (Hroot (length h1)); [|by left]. apply elem_of_app. right. apply list_elem_of_omap. exists (HRef (length h1)).
      split; [|done]. apply list_elem_of_fmap. exists (k, HRef (length h1)). split; [done|by apply assoc_some_in].
  - intros a c Hc Hne. apply lookup_app_Some in Hc as [Hc|[Hle Hc]].
    + apply list_elem_of_lookup_2 in Hc. apply Forall_forall. intros v Hv.
      assert (Hadd : forall b, v = HRef b -> b ∈ addresses h1).
      { intros b ->. unfold addresses. apply list_elem_of_In, in_flat_map. exists c. rewrite <- !list_elem_of_In. split; [done|].
        apply list_elem_of_omap. by exists (HRef b). }
      split; intros ->.
      * by apply (Hdisj (length h2)); [apply Hadd|].
      * apply (Hroot (length h1)); [|by left]. apply elem_of_app. left. by apply Hadd.
    + destruct (decide (a = length h1)) as [->|]; [done|]. rewrite lookup_ge_None_2 in Hc; [done|]. cbn. lia.
Qed.

(** C25. Scanning a document overwrites none of its definitions: whatever inline
    schemas and compositions become definitions, and also when the scan ends
    in an exception, each name that had a definition object still has that
    object. *)
Theorem scan_keeps_definitions sort_order root o defs h spec :
  load (VObj o) [] = (h, spec) -> assoc (js "definitions") o = Some (VObj defs) ->
  let s := (scan_document sort_order spec root (Scan h [])).1 in
  exists definitions, hget h spec (js "definitions") = Ok definitions /\ hget (store s) spec (js "definitions") = Ok definitions /\
    forall name a, hget h definitions name = Ok (HRef a) -> hget (store s) definitions name = Ok (HRef a).
Proof.
  intros E Hd s. destruct (kept_load o defs h spec E Hd) as (d & sp & D0 & -> & HD & Hk).
  pose proof (ens_scan_document sort_order root d sp D0 (Scan h []) Hk) as [Hs _]. fold s in Hs.
  assert (Hdoc : forall t, kept d sp D0 t -> hget (store t) (HRef sp) (js "definitions") = Ok (HRef d)).
  { intros t Ht. destruct (k_document _ _ _ t Ht) as (o' & Ho' & Ha & _). cbn [hget]. by rewrite Ho', Ha. }
  exists (HRef d). split; [by apply (Hdoc (Scan h []))|]. split; [by apply Hdoc|]. intros name a Ha.
  destruct (k_definitions _ _ _ s Hs) as (o' & Ho' & Hold). cbn [hget] in *. rewrite HD in Ha. rewrite Ho'.
  destruct (assoc name D0) as [v|] eqn:Ev; [|done]. cbn in Ha. injection Ha as ->. by rewrite (Hold _ _ Ev).
Qed.

(** ** Examples *)

Definition reference (s : String.string) : jsval := VObj [(js "$ref", vstr s)].
Definition composed (l : list jsval) : jsval := VObj [(js "allOf", VArr l)].
Definition body_parameter (schema : jsval) : jsval := VObj [(js "in", vstr "body"); (js "schema", schema)].
Definition pet_store : obj :=
  [(js "definitions", VObj [(js "inline_model", VObj [(js "type", vstr "object")])]);
   (js "paths", VObj [(js "/pets", VObj
     [(js "post", VObj
        [(js "parameters", VArr [body_parameter (composed [VObj [(js "type", vstr "object")]; reference "#/definitions/inline_model"])]);
         (js "responses", VObj [(js "200", VObj [(js "schema", reference "#/definitions/inline_model")])])])])])].

(** The composition of the parameter becomes a definition of another name. *)
Lemma scan_keeps_definitions_witness :
  let r := load (VObj pet_store) [] in
  let s := (scan_document refs_first r.2 (vstr "http://grid/api.json") (Scan r.1 [])).1 in
  exists definitions, hget r.1 r.2 (js "definitions") = Ok definitions /\ hget (store s) r.2 (js "definitions") = Ok definitions /\
    forall name a, hget r.1 definitions name = Ok (HRef a) -> hget (store s) definitions name = Ok (HRef a).
Proof.
  exact (scan_keeps_definitions refs_first (vstr "http://grid/api.json") pet_store _ _ _ eq_refl eq_refl).
Defined.
Example composition_moved :
  (fun r => match r with Ok (VObj t, _) => match get t (js "definitions") with VObj d => d.*1 | _ => [] end | _ => [] end)
    (scanned refs_first (vstr "http://grid/api.json") (VObj pet_store)) = [js "inline_model"; js "inline_model_0"].
Proof. vm_compute. reflexivity. Qed.

(** After an inline model, the locations of a path are made of the name of the
    model. *)
Definition two_responses : obj :=
  [(js "paths", VObj [(js "/pets", VObj [(js "get", VObj [(js "responses", VObj
      [(js "default", VObj [(js "schema", composed [reference "#/definitions/Pet"])]);
       (js "error", VObj [(js "$ref", vstr "other.json")])])])])])].
Example location_of_model :
  (fun r => match r with Ok (_, t) => e_location <$> t | _ => [] end)
    (scanned refs_first (vstr "http://grid/api.json") (VObj two_responses)) =
  [vstr "/definitions/Pet"; vstr "/pathsinline_model/get/responses/error"].
Proof. vm_compute. reflexivity. Qed.

(** The shared parameters of a path come in reverse, and also when the operation
    has its own of the same name. *)
Definition named_parameter (n : String.string) (type : String.string) : jsval := VObj [(js "name", vstr n); (js "type", vstr type)].
Definition shared_path : obj :=
  [(js "paths", VObj [(js "/pets", VObj
     [(js "parameters", VArr [named_parameter "a" "string"; named_parameter "b" "string"]);
      (js "get", VObj [(js "parameters", VArr [named_parameter "a" "integer"])])])])].
Example shared_reversed :
  (fun r => match r with
            | Ok (VObj t, _) => get (as_obj (get (as_obj (get (as_obj (get t (js "paths"))) (js "/pets"))) (js "get"))) (js "parameters")
            | _ => VUndef end) (scanned refs_first (vstr "http://grid/api.json") (VObj shared_path)) =
  VArr [named_parameter "b" "string"; named_parameter "a" "string"; named_parameter "a" "integer"].
Proof. vm_compute. reflexivity. Qed.
