(* ===== verification/ResolveFinish.v ===== *)
(** * The resolver: putting the references in

    [Resolver.finish] of swagger-ui.js on the objects of [ResolveScan], and
    the rounds of [Resolver.resolve] around it: scan, pick, look up or fetch,
    put in, until no reference is left or six rounds are over.  The requests
    of a round are answered one after the other here; [FetchProtocol] has all
    their orders. *)

From Stdlib Require Import String.
From S2P Require Import Prelude JsNumber JsString JsValue UrlRef Resolver Fetch Heap ResolveScan.

(** ** Looking up *)

(** The walk of [resolveItem] along a location. *)
Definition index_heap (h : heap) (v : hval) (k : jsstr) : hval :=
  match v with
  | HPrim p => HPrim (index p k)
  | HRef _ => match hget h v k with Ok x => x | Throw _ => hundef end
  end.
Fixpoint walk_heap (h : heap) (location : hval) (parts : list jsstr) (j last : nat) : hval :=
  match parts with
  | [] => location
  | part :: rest =>
      let segment := unescape_segment part in
      if h_nullish location then location
      else if bool_decide (segment = []) && bool_decide (j = last) && (0 <? last)%nat then HPrim VNull
      else walk_heap h (if bool_decide (segment = []) then location else index_heap h location segment) rest (S j) last
  end.
Definition locate_heap (h : heap) (spec : hval) (path : jsstr) : hval :=
  let parts := split path (js "/") in
  if bool_decide (path = []) then spec else walk_heap h spec parts O (length parts - 1).

Record target := Target { t_name : jsval; t_obj : hval; t_root : jsval }.
(** The two tables, by the text of the reference. *)
Record lookups := Lookups {
  resolvedRefs : list (jsstr * target);
  unresolvedRefs : list (jsstr * (jsval * jsval))
}.
Definition unresolved (e : entry) (t : lookups) : lookups :=
  Lookups (resolvedRefs t) (put (to_str (e_key e)) (e_root e, e_location e) (unresolvedRefs t)).
Definition resolve_item (h : heap) (spec : hval) (e : entry) (t : lookups) : res lookups :=
  path ← as_str (e_location e);
  key ← as_str (e_key e);
  let location := locate_heap h spec path in
  Ok (if h_nullish location then unresolved e t
      else Lookups (put key (Target (resolved_name key) location (e_root e)) (resolvedRefs t)) (unresolvedRefs t)).

(** ** [finish] *)

(** [joinUrl] with a root that may be missing. *)
Definition join_root (root : jsval) (rel : jsstr) : res jsstr :=
  match root with
  | VStr r => Ok (joinUrl r rel)
  | _ => match domain (splitUrl rel) with Some _ => Ok rel | None => Throw TypeError end
  end.
(** [retainRoot] changes the object; its recursion into a cycle does not
    end. *)
Fixpoint retain (n : nat) (key : jsstr) (v : hval) (root : jsval) : ST scan hval :=
  match v with
  | HPrim (VStr s) => if bool_decide (key = ref_key) then j ← lift (join_root root s); mret (hstr j) else mret v
  | HPrim _ => mret v
  | HRef _ =>
      match n with
      | O => lift (Throw RangeError)
      | S n' =>
          ks ← keys_of v;
          _ ← iterM (fun k =>
                item ← get_key v k;
                match item with
                | HPrim (VStr s) => if bool_decide (k = ref_key) then j ← lift (join_root root s); set_key v k (hstr j) else mret tt
                | HPrim _ => mret tt
                | HRef _ => _ ← retain n' k item root; mret tt
                end) ks;
          mret v
      end
  end.
Definition retain_root (key : jsstr) (v : hval) (root : jsval) : ST scan hval := fun s => retain (S (length (store s))) key v root s.

(** [v[k]], of texts too. *)
Definition elem_of_key (v : hval) (k : jsstr) : ST scan hval := gets (fun s => index_heap (store s) v k).

(** An entry whose reference was found; the root of references in local
    definitions is not kept when the last item of the round was local. *)
Definition put_ref (definitions v : hval) (e : entry) (t : target) (localResolve : bool) : ST scan unit :=
  _ ← (if localResolve then mret tt
       else ks ← keys_of (t_obj t);
            iterM (fun k => x ← elem_of_key (t_obj t) k; abs ← retain_root k x (e_root e); set_key (t_obj t) k abs) ks);
  _ ← set_key definitions (to_str (t_name t)) (t_obj t);
  setp v "$ref" (hstr (js "#/definitions/" ++ to_str (t_name t))).
Definition put_inline (v : hval) (e : entry) (t : target) (localResolve : bool) : ST scan unit :=
  from ← new_cell (CArr [HPrim (e_key e)]);
  _ ← setp v "x-resolved-from" from;
  _ ← delp v "$ref";
  ks ← keys_of (t_obj t);
  iterM (fun k =>
    x ← elem_of_key (t_obj t) k;
    abs ← (if localResolve then mret x else retain_root k x (e_root e));
    set_key v k abs) ks.
Definition finish_entry (spec : hval) (refs : list (jsstr * target)) (localResolve : bool) (item : hval * entry) : ST scan unit :=
  let '(v, e) := item in
  match assoc (to_str (e_key e)) refs with
  | None => mret tt
  | Some t =>
      definitions ← ensure_object spec (js "definitions");
      match resolveAs e with
      | AsRef => put_ref definitions v e t localResolve
      | AsInline => put_inline v e t localResolve
      end
  end.
Definition finish_table (spec : hval) (refs : list (jsstr * target)) (localResolve : bool) : ST scan unit :=
  table ← gets resolutionTable;
  iterM (finish_entry spec refs localResolve) table.

(** ** A round *)

Record resolver := Resolver {
  objects : scan;
  cache : list (jsstr * hval);
  failed : list jsstr
}.

Section rounds.
(** The sort of [allOf], the documents of other addresses, the fuel of the loop
    that picks, and the address of the document. *)
Context (sort_order : list bool -> list nat) (fetch : jsstr -> option jsval) (fuel : nat) (root : jsval).

Definition is_local (e : entry) : bool := negb (truthy (e_root e)) || strict_eq (e_root e) root.

(** An item of another document. *)
Definition remote_item (st : resolver * lookups) (e : entry) : res (resolver * lookups) :=
  let '(r, t) := st in
  u ← as_str (e_root e);
  if bool_decide (u ∈ failed r) then Ok (r, unresolved e t)
  else
    match assoc u (cache r) with
    | Some spec => t ← resolve_item (store (objects r)) spec e t; Ok (r, t)
    | None =>
        match fetch u with
        | None => Ok (Resolver (objects r) (cache r) (failed r ++ [u]), unresolved e t)
        | Some document =>
            let '(h, spec) := load document (store (objects r)) in
            t ← resolve_item h spec e t;
            Ok (Resolver (Scan h (resolutionTable (objects r))) (put u spec (cache r)) (failed r), t)
        end
    end.

(** The items to resolve: those of this document at once, then the others.
    [localResolve] is whether the last one was of this document. *)
Definition resolve_items (spec : hval) (items : list entry) (r : resolver) : res (resolver * lookups * bool) :=
  let waits e := negb (is_local e) in
  t ← foldM_res (fun t e => resolve_item (store (objects r)) spec e t) (Lookups [] []) (List.filter is_local items);
  '(r', t) ← foldM_res remote_item (r, t) (List.filter waits items);
  Ok (r', t, match last items with
             | Some e => is_local e && forallb (fun e => is_local e || bool_decide (to_str (e_root e) ∈ failed r)) items
             | None => false
             end).

(** One round: what is left unresolved, and how many references are. *)
Definition round (spec : hval) (r : resolver) : res (resolver * lookups * nat) :=
  match scan_document sort_order spec root (Scan (store (objects r)) []) with
  | (_, Throw e) => Throw e
  | (s, Ok _) =>
      document ← reify (store s) spec;
      p ← pick document root fuel (resolutionTable s).*2;
      let table := zip (resolutionTable s).*1 (p_all p) in
      let items := omap (fun i => p_all p !! i) (p_toResolve p) in
      '(r, t, localResolve) ← resolve_items spec items (Resolver (Scan (store s) table) (cache r) (failed r));
      match finish_table spec (resolvedRefs t) localResolve (objects r) with
      | (_, Throw e) => Throw e
      | (s, Ok _) =>
          document ← reify (store s) spec;
          n ← countUnresolvedRefs document;
          Ok (Resolver s (cache r) (failed r), t, n)
      end
  end.

(** [finish] goes on with another round, six times at most. *)
Fixpoint rounds (more : nat) (spec : hval) (r : resolver) : res (resolver * lookups) :=
  '(r, t, n) ← round spec r;
  if bool_decide (n = O) then Ok (r, t)
  else match more with O => Ok (r, t) | S more' => rounds more' spec r end.

(** [resolve]: the document and its composed definitions that the callback
    gets, and the unresolved references. *)
Definition resolve (document : jsval) : res (jsval * jsval * list (jsstr * (jsval * jsval))) :=
  let '(h, spec) := load document [] in
  '(r, t) ← rounds 6 spec (Resolver (Scan h []) [] []);
  tree ← reify (store (objects r)) spec;
  definitions ← prop tree (js "definitions");
  composed ← resolveAllOf definitions;
  Ok (tree, composed, unresolvedRefs t).
End rounds.

(** ** A document of another address takes the place of a definition *)

Definition pets_of_other : jsval :=
  VObj [(js "definitions", VObj
    [(js "Pet", VObj [(js "type", vstr "object"); (js "properties", VObj [(js "tag", reference "#/definitions/Tag")])]);
     (js "Tag", VObj [(js "type", vstr "string")])])].
Definition pets_of_this : jsval :=
  VObj [(js "definitions", VObj [(js "Pet", VObj [(js "type", vstr "number")])]);
        (js "paths", VObj [(js "/p", VObj [(js "get", VObj [(js "responses", VObj
           [(js "200", VObj [(js "schema", reference "pets.json#/definitions/Pet")])])])])])].
Definition others (u : jsstr) : option jsval := if bool_decide (u = js "http://grid/pets.json") then Some pets_of_other else None.
Example other_replaces_definition :
  (fun r => match r with
            | Ok (t, _, u) => (get (as_obj (get (as_obj (get (as_obj t) (js "definitions"))) (js "Pet"))) (js "type"), u)
            | _ => (VUndef, []) end)
    (resolve refs_first others 100 (vstr "http://grid/api.json") pets_of_this) = (vstr "object", []).
Proof. vm_compute. reflexivity. Qed.

(** A definition that is composed of itself is put into itself, and counting
    the references of what comes out does not end. *)
Definition of_itself : jsval :=
  VObj [(js "definitions", VObj [(js "Pet", composed [reference "#/definitions/Pet"])])].
Example of_itself_overflows : resolve refs_first others 100 (vstr "http://grid/api.json") of_itself = Throw RangeError.
Proof. vm_compute. reflexivity. Qed.

(** ** After [finish] every reference that was found leads to a definition *)

Section links.
Context (spec : hval) (d : nat) (refs : list (jsstr * target)).

(** A change of one object, and new cells. *)
Record only (a : nat) (s s1 : scan) : Prop := {
  o_others : forall b, (b < length (store s))%nat -> b <> a -> store s1 !! b = store s !! b;
  o_grows : (length (store s) <= length (store s1))%nat;
  o_object : forall o, store s !! a = Some (CObj o) -> exists o', store s1 !! a = Some (CObj o')
}.
Lemma only_refl a s : only a s s.
Proof. constructor; [done|done|by eauto]. Qed.
Lemma only_trans a s s1 s2 : only a s s1 -> only a s1 s2 -> only a s s2.
Proof.
  intros [H1 H2 H3] [G1 G2 G3]. constructor; [|lia|].
  - intros b Hb Hne. rewrite G1 by (done || lia). by apply H1.
  - intros o Ho. destruct (H3 o Ho) as [o' Ho']. by apply (G3 o').
Qed.
Lemma only_insert a c s t : (forall o, store s !! a = Some (CObj o) -> exists o', c = CObj o') -> only a s (Scan (<[a := c]> (store s)) t).
Proof.
  intros Hc. constructor; cbn [store].
  - intros b _ Hb. by rewrite list_lookup_insert_ne.
  - by rewrite length_insert.
  - intros o Ho. destruct (Hc o Ho) as [o' ->]. exists o'. apply list_lookup_insert_eq. by eapply lookup_lt_Some.
Qed.

Lemma set_key_only a k x s : exists s1, set_key (HRef a) k x s = (s1, Ok tt) /\ only a s s1.
Proof.
  unfold set_key, hset. eexists. split; [done|]. destruct (store s !! a) as [[o|l]|] eqn:E.
  - apply only_insert. by eauto.
  - destruct (array_index k); [|by destruct s; apply only_refl]. apply only_insert. congruence.
  - destruct s. apply only_refl.
Qed.
Lemma delp_only a k s : exists s1, delp (HRef a) k s = (s1, Ok tt) /\ only a s s1.
Proof.
  unfold delp, hdel. eexists. split; [done|]. destruct (store s !! a) as [[o|l]|] eqn:E; [|by destruct s; apply only_refl..].
  apply only_insert. by eauto.
Qed.
Lemma new_cell_only a c s : exists s1 v, new_cell c s = (s1, Ok v) /\ only a s s1.
Proof.
  unfold new_cell. cbn. eexists _, _. split; [done|]. constructor; cbn [store].
  - intros b Hb _. by rewrite lookup_app_l.
  - rewrite length_app. lia.
  - intros o Ho. exists o. rewrite lookup_app_l; [done|]. by eapply lookup_lt_Some.
Qed.
Lemma iter_only {A} a (f : A -> ST scan unit) l : (forall x s, exists s1, f x s = (s1, Ok tt) /\ only a s s1) ->
  forall s, exists s1, iterM f l s = (s1, Ok tt) /\ only a s s1.
Proof.
  intros Hf. induction l as [|x l IH]; intros s; cbn [iterM]; [exists s; by split; [|apply only_refl]|].
  destruct (Hf x s) as (s1 & -> & H1). destruct (IH s1) as (s2 & E & H2). exists s2. split; [done|]. by apply (only_trans _ _ s1).
Qed.
Lemma put_inline_only a e t s : exists s1, put_inline (HRef a) e t true s = (s1, Ok tt) /\ only a s s1.
Proof.
  unfold put_inline. unfold mbind, st_bind. destruct (new_cell_only a (CArr [HPrim (e_key e)]) s) as (s1 & from & -> & H1).
  unfold setp. destruct (set_key_only a (js "x-resolved-from") from s1) as (s2 & -> & H2).
  destruct (delp_only a "$ref" s2) as (s3 & -> & H3). cbn [keys_of gets].
  match goal with |- context [iterM ?f ?l s3] => destruct (iter_only a f l) with (s := s3) as (s4 & -> & H4) end.
  - intros k s5. apply set_key_only.
  - exists s4. split; [done|]. do 3 (eapply only_trans; [eassumption|]). done.
Qed.

Definition leads (s : scan) (item : hval * entry) : Prop :=
  resolveAs item.2 = AsRef -> forall t, assoc (to_str (e_key item.2)) refs = Some t ->
  hget (store s) item.1 (js "$ref") = Ok (hstr (js "#/definitions/" ++ to_str (t_name t))) /\
  exists k t', assoc k refs = Some t' /\ to_str (t_name t') = to_str (t_name t) /\
    hget (store s) (HRef d) (to_str (t_name t)) = Ok (t_obj t').

(** The objects of the table, the definitions and the document are objects
    apart from each other. *)
Record ready (addresses : list nat) (s : scan) : Prop := {
  r_definitions : exists o, store s !! d = Some (CObj o);
  r_document : hget (store s) spec (js "definitions") = Ok (HRef d);
  r_objects : forall a, a ∈ addresses -> exists o, store s !! a = Some (CObj o);
  r_apart : forall a, a ∈ addresses -> a <> d /\ HRef a <> spec;
  r_spec : spec <> HRef d /\ forall b, spec = HRef b -> (b < length (store s))%nat
}.

Lemma hget_only a s s1 v k : only a s s1 -> v <> HRef a -> (forall b, v = HRef b -> (b < length (store s))%nat) ->
  hget (store s1) v k = hget (store s) v k.
Proof.
  intros Ho Hv Hb. destruct v as [p|b]; [done|]. cbn [hget]. rewrite (o_others _ _ _ Ho); [done|by apply Hb|congruence].
Qed.
Lemma ready_only l a s s1 : a ∈ l -> only a s s1 -> ready l s -> ready l s1.
Proof.
  intros Ha Ho [(o & Hd) Hdoc Hobj Hap (Hsd & Hsb)]. destruct (Hap a Ha) as [Had Hasp]. constructor.
  - exists o. rewrite (o_others _ _ _ Ho); [done|by eapply lookup_lt_Some|done].
  - by rewrite (hget_only a s).
  - intros b Hb. destruct (Hobj b Hb) as (ob & Hob). destruct (decide (b = a)) as [->|Hba]; [by apply (o_object _ _ _ Ho ob)|].
    exists ob. rewrite (o_others _ _ _ Ho); [done|by eapply lookup_lt_Some|done].
  - done.
  - split; [done|]. intros b Hb. specialize (Hsb b Hb). pose proof (o_grows _ _ _ Ho). lia.
Qed.
Lemma leads_only l a b e s s1 : b ∈ l -> b <> a -> a ∈ l -> ready l s -> only a s s1 -> leads s (HRef b, e) -> leads s1 (HRef b, e).
Proof.
  intros Hb Hba Ha Hr Ho Hl Hres t Ht. cbn [fst snd] in *. destruct (Hl Hres t Ht) as (H1 & k & t' & H2 & H3 & H4).
  destruct (r_objects _ _ Hr b Hb) as (ob & Hob). destruct (r_definitions _ _ Hr) as (od & Hod). split.
  - rewrite (hget_only a s); [done|done|congruence|]. intros c [= <-]. by eapply lookup_lt_Some.
  - exists k, t'. split; [done|]. split; [done|]. rewrite (hget_only a s); [done|done| |].
    + destruct (r_apart _ _ Hr a Ha). congruence.
    + intros c [= <-]. by eapply lookup_lt_Some.
Qed.

(** The definitions get a name. *)
Lemma define_ready l s name x : ready l s -> exists s1, set_key (HRef d) name x s = (s1, Ok tt) /\ ready l s1 /\
  hget (store s1) (HRef d) name = Ok x /\
  (forall n, n <> name -> hget (store s1) (HRef d) n = hget (store s) (HRef d) n) /\
  (forall b k, b ∈ l -> hget (store s1) (HRef b) k = hget (store s) (HRef b) k).
Proof.
  intros Hr. destruct (r_definitions _ _ Hr) as (o & Ho). unfold set_key, hset. rewrite Ho. eexists. split; [done|].
  assert (Hsame : forall b, b <> d -> <[d := CObj (put name x o)]> (store s) !! b = store s !! b) by (intros b Hb; by rewrite list_lookup_insert_ne).
  assert (Hnew : <[d := CObj (put name x o)]> (store s) !! d = Some (CObj (put name x o))).
  { apply list_lookup_insert_eq. by eapply lookup_lt_Some. }
  split; [|split; [|split]].
  - destruct Hr as [_ Hdoc Hobj Hap (Hsd & Hsb)]. constructor; cbn [store].
    + by eexists.
    + destruct spec as [p|b]; [done|]. cbn [hget] in *. rewrite Hsame; [done|congruence].
    + intros b Hb. rewrite Hsame; [by apply Hobj|]. by apply Hap.
    + done.
    + split; [done|]. rewrite length_insert. done.
  - cbn [hget store]. by rewrite Hnew, assoc_put_eq.
  - intros n Hn. cbn [hget store]. by rewrite Hnew, Ho, assoc_put_ne.
  - intros b k Hb. cbn [hget store]. rewrite Hsame; [done|]. by apply (r_apart _ _ Hr).
Qed.

Lemma ensure_definitions l s : ready l s -> ensure_object spec (js "definitions") s = (s, Ok (HRef d)).
Proof. intros Hr. unfold ensure_object, mbind, st_bind, get_key. by rewrite (r_document _ _ Hr). Qed.

Lemma finish_entry_leads l s a e : a ∈ l -> ready l s -> exists s1, finish_entry spec refs true (HRef a, e) s = (s1, Ok tt) /\
  ready l s1 /\ leads s1 (HRef a, e) /\ forall b e', b ∈ l -> b <> a -> leads s (HRef b, e') -> leads s1 (HRef b, e').
Proof.
  intros Ha Hr. cbn [finish_entry]. destruct (assoc (to_str (e_key e)) refs) as [t|] eqn:Et.
  2: { exists s. split; [done|]. split; [done|]. split; [|done]. intros _ t Ht. cbn in Ht. congruence. }
  unfold mbind, st_bind. rewrite (ensure_definitions l s Hr). destruct (resolveAs e) eqn:Eas.
  - unfold put_ref, setp. unfold mbind, st_bind. change ((mret tt : ST scan unit) s) with (s, Ok tt).
    destruct (define_ready l s (to_str (t_name t)) (t_obj t) Hr) as (s1 & -> & Hr1 & Hdef & Hother & Hobj).
    destruct (r_objects _ _ Hr1 a Ha) as (o & Ho). destruct (r_apart _ _ Hr1 a Ha) as [Had _].
    destruct (set_key_only a (js "$ref") (hstr (js "#/definitions/" ++ to_str (t_name t))) s1) as (s2 & E2 & H2).
    exists s2. split; [done|]. split; [by apply (ready_only l a s1)|].
    assert (Hlen : forall b, HRef d = HRef b -> (b < length (store s1))%nat).
    { intros b [= <-]. destruct (r_definitions _ _ Hr1) as (od & Hod). by eapply lookup_lt_Some. }
    split.
    + intros _ t' Ht'. cbn [snd fst] in *. rewrite Et in Ht'. injection Ht' as <-. split.
      * unfold set_key, hset in E2. rewrite Ho in E2. injection E2 as <-. cbn [store hget].
        rewrite list_lookup_insert_eq by by eapply lookup_lt_Some. by rewrite assoc_put_eq.
      * exists (to_str (e_key e)), t. split; [done|]. split; [done|]. rewrite (hget_only a s1); [done|done|congruence|done].
    + intros b e' Hb Hba Hl. apply (leads_only l a b e' s1); [done..|]. intros Hres t' Ht'. cbn [fst snd] in *.
      destruct (Hl Hres t' Ht') as (G1 & k & t2 & G2 & G3 & G4). split; [by rewrite Hobj|].
      destruct (decide (to_str (t_name t') = to_str (t_name t))) as [En|En].
      * exists (to_str (e_key e)), t. split; [done|]. by rewrite En.
      * exists k, t2. split; [done|]. split; [done|]. by rewrite Hother.
  - destruct (put_inline_only a e t s) as (s1 & -> & H1). exists s1. split; [done|]. split; [by apply (ready_only l a s)|]. split.
    + intros Hres. cbn in Hres. congruence.
    + intros b e' Hb Hba Hl. by apply (leads_only l a b e' s).
Qed.
End links.

(** Two entries that say the same of an object: it may be in the table more
    than once, as a parameter that the operations of a path share is. *)
Definition same_entry (e e' : entry) : Prop := to_str (e_key e) = to_str (e_key e') /\ resolveAs e = resolveAs e'.
Lemma leads_same d refs s v e e' : same_entry e e' -> leads d refs s (v, e) -> leads d refs s (v, e').
Proof. unfold leads. cbn [fst snd]. intros [-> ->]. auto. Qed.

Lemma finish_items_lead spec d refs l addresses : forall entries s,
  length addresses = length entries -> (forall a, a ∈ addresses -> a ∈ l) -> ready spec d l s ->
  (forall a e e', (a, e) ∈ zip addresses entries -> (a, e') ∈ zip addresses entries -> same_entry e e') ->
  exists s1, iterM (finish_entry spec refs true) (zip (HRef <$> addresses) entries) s = (s1, Ok tt) /\
    ready spec d l s1 /\ (forall a e, (a, e) ∈ zip addresses entries -> leads d refs s1 (HRef a, e)) /\
    forall b e, b ∈ l -> (forall e', (b, e') ∈ zip addresses entries -> same_entry e' e) ->
      leads d refs s (HRef b, e) -> leads d refs s1 (HRef b, e).
Proof.
  induction addresses as [|a addresses IH]; intros [|e entries] s Hlen Hin Hr Hsame; try done.
  { exists s. cbn. split; [done|]. split; [done|]. split; [by intros ? ? ?%not_elem_of_nil|done]. }
  cbn [fmap list_fmap zip]. change (zip_with pair (HRef a :: (HRef <$> addresses)) (e :: entries)) with ((HRef a, e) :: zip (HRef <$> addresses) entries).
  cbn [iterM]. change (zip_with pair (a :: addresses) (e :: entries)) with ((a, e) :: zip addresses entries) in *.
  destruct (finish_entry_leads spec d refs l s a e) as (s1 & -> & Hr1 & Hl1 & Hk1); [apply Hin; by left|done|].
  destruct (IH entries s1) as (s2 & -> & Hr2 & Hl2 & Hk2); [by injection Hlen|intros b Hb; apply Hin; by right|done|intros b e1 e2 H1 H2; apply (Hsame b); by right|].
  exists s2. split; [done|]. split; [done|]. split.
  - intros b e' [[= -> ->]|Hb]%elem_of_cons; [|by apply Hl2]. apply Hk2; [apply Hin; by left| |done].
    intros e' He. apply (Hsame a); [by right|by left].
  - intros b e' Hb He Hle. apply Hk2; [done|intros e2 H2; apply He; by right|]. destruct (decide (b = a)) as [->|Hne]; [|by apply Hk1].
    apply (leads_same d refs s1 _ e); [|done]. apply He. by left.
Qed.

(** C26. [finish] of a round that ends in this document: when the objects of
    the table are apart from the document and its definitions, and an object
    that is in it more than once has the same reference each time, [finish]
    returns; the object of each entry that was found, and is to be left a
    reference, leads to a definition by its reference, and that definition is
    an object that was found under this name. *)
Theorem finish_links spec d refs s addresses entries :
  resolutionTable s = zip (HRef <$> addresses) entries -> length addresses = length entries ->
  (forall a e e', (a, e) ∈ zip addresses entries -> (a, e') ∈ zip addresses entries -> same_entry e e') ->
  ready spec d addresses s ->
  let (s1, r) := finish_table spec refs true s in
  r = Ok tt /\ Forall (leads d refs s1) (resolutionTable s).
Proof.
  intros Htable Hlen Hsame Hr. unfold finish_table, mbind, st_bind, gets. rewrite Htable.
  destruct (finish_items_lead spec d refs addresses addresses entries s) as (s1 & -> & _ & Hl & _); [done..|]. split; [done|].
  apply Forall_forall. intros [v e] Hx. apply elem_of_lookup_zip_with in Hx as (i & v' & e' & [= -> ->] & Hv & He).
  apply list_lookup_fmap_Some in Hv as (a & -> & Ha). apply Hl. apply elem_of_lookup_zip_with. by exists i, a, e'.
Qed.

Definition pet_key : jsstr := js "#/definitions/Pet".
Definition one_reference : scan :=
  Scan [CObj [(js "$ref", hstr pet_key)]; CObj [(js "type", hstr (js "object"))]; CObj [(js "Pet", HRef 1)];
        CObj [(js "definitions", HRef 2); (js "schema", HRef 0)]]
       [(HRef 0, Entry 0 AsRef (vstr "http://grid/api.json") (VStr pet_key) (vstr "/definitions/Pet"));
        (HRef 0, Entry 1 AsRef (vstr "http://grid/api.json") (VStr pet_key) (vstr "/definitions/Pet"))].
Definition pet_found : list (jsstr * target) := [(pet_key, Target (vstr "Pet") (HRef 1) (vstr "http://grid/api.json"))].
Lemma finish_links_witness :
  let (s1, r) := finish_table (HRef 3) pet_found true one_reference in
  r = Ok tt /\ Forall (leads 2 pet_found s1) (resolutionTable one_reference).
Proof.
  apply (finish_links (HRef 3) 2 pet_found one_reference [0%nat; 0%nat] (snd <$> resolutionTable one_reference)); [reflexivity|reflexivity| |].
  { intros a e e' H1 H2. cbn in H1, H2. rewrite !elem_of_cons in H1, H2. destruct H1 as [[= -> ->]|[[= -> ->]|H1%not_elem_of_nil]], H2 as [[= ->]|[[= ->]|H2%not_elem_of_nil]]; done. }
  constructor.
  - by eexists.
  - reflexivity.
  - intros a [->|[->|Ha%not_elem_of_nil]%elem_of_cons]%elem_of_cons; [by eexists|by eexists|done].
  - by intros a [->|[->|Ha%not_elem_of_nil]%elem_of_cons]%elem_of_cons.
  - split; [done|]. intros b [= <-]. cbn. lia.
Defined.
