(* ===== verification/Emitter.v ===== *)
(** * The event emitter

    The emitter mixed into a superagent request in swagger-ui.js: the
    callbacks of every event, in the order they were added.  [once] adds a
    wrapper around a function; an emission runs over a copy of the
    callbacks, so what they add or remove counts for the next one.

    A function is its identity.  A wrapper has one of its own, and the
    function it stands for in the property [fn]; a plain function has no
    property [fn]. *)

From Stdlib Require Import String.
From S2P Require Import Prelude JsNumber JsString JsValue.

Inductive callback := Fn (fn : nat) | Once (wrapper fn : nat).
#[export] Instance callback_eq_dec : EqDecision callback.
Proof. solve_decision. Defined.

(** [_callbacks], by event, and the number of wrappers made. *)
Record emitter := Emitter { callbacks : list (jsstr * list callback); wrappers : nat }.
Definition no_callbacks : emitter := Emitter [] O.

Definition listeners (event : jsstr) (e : emitter) : list callback := default [] (assoc event (callbacks e)).
Definition hasListeners (event : jsstr) (e : emitter) : bool :=
  match listeners event e with [] => false | _ => true end.

Definition add_callback (event : jsstr) (cb : callback) (e : emitter) : emitter :=
  Emitter (put event (listeners event e ++ [cb]) (callbacks e)) (wrappers e).
Definition on (event : jsstr) (fn : nat) (e : emitter) : emitter := add_callback event (Fn fn) e.
Definition once (event : jsstr) (fn : nat) (e : emitter) : emitter :=
  add_callback event (Once (wrappers e) fn) (Emitter (callbacks e) (S (wrappers e))).

(** [cb === fn || cb.fn === fn] *)
Definition is_callback (target cb : callback) : bool :=
  bool_decide (cb = target) || match cb, target with Once _ g, Fn f => Nat.eqb g f | _, _ => false end.
(** The loop with [splice] and [break]. *)
Fixpoint remove_first (target : callback) (cbs : list callback) : list callback :=
  match cbs with
  | [] => []
  | cb :: cbs' => if is_callback target cb then cbs' else cb :: remove_first target cbs'
  end.
Definition off (event : jsstr) (target : callback) (e : emitter) : emitter :=
  match assoc event (callbacks e) with
  | Some cbs => Emitter (put event (remove_first target cbs) (callbacks e)) (wrappers e)
  | None => e
  end.
(** [off] with fewer arguments. *)
Definition off_event (event : jsstr) (e : emitter) : emitter := Emitter (remove event (callbacks e)) (wrappers e).
Definition off_all (e : emitter) : emitter := Emitter [] (wrappers e).

(** ** Emissions

    The functions change the emitter and the rest of the world, and may
    throw: then those after them are not called. *)
Section emission.
Context {A W : Type} (run : nat -> A -> ST (emitter * W) unit).

Definition call (event : jsstr) (args : A) (cb : callback) : ST (emitter * W) unit :=
  match cb with
  | Fn fn => run fn args
  | Once wrapper fn => _ ← modify (fun st => (off event (Once wrapper fn) st.1, st.2)); run fn args
  end.
Definition emit (event : jsstr) (args : A) : ST (emitter * W) unit :=
  cbs ← gets (fun st => listeners event st.1); iterM (call event args) cbs.
End emission.

(** ** Looking up the callbacks *)

Lemma listeners_add event cb e event' :
  listeners event' (add_callback event cb e) = listeners event' e ++ (if bool_decide (event' = event) then [cb] else []).
Proof.
  unfold listeners at 1, add_callback. cbn [callbacks]. case_bool_decide as H.
  - subst. by rewrite assoc_put_eq.
  - rewrite assoc_put_ne by done. by rewrite app_nil_r.
Qed.
Lemma listeners_off event t e event' :
  listeners event' (off event t e) = if bool_decide (event' = event) then remove_first t (listeners event' e) else listeners event' e.
Proof.
  unfold off, listeners. destruct (assoc event (callbacks e)) as [cbs|] eqn:E; case_bool_decide as H; cbn [callbacks]; subst.
  - by rewrite assoc_put_eq, E.
  - by rewrite assoc_put_ne.
  - by rewrite E.
  - done.
Qed.

Lemma remove_first_absent t cbs : Forall (fun cb => is_callback t cb = false) cbs -> remove_first t cbs = cbs.
Proof. induction 1 as [|cb cbs H _ IH]; [done|]. cbn. by rewrite H, IH. Qed.
Lemma remove_first_app t cbs cb rest : Forall (fun cb => is_callback t cb = false) cbs -> is_callback t cb = true ->
  remove_first t (cbs ++ cb :: rest) = cbs ++ rest.
Proof. intros H Hcb. induction H as [|c cbs H _ IH]; cbn; [by rewrite Hcb|]. by rewrite H, IH. Qed.

(** A function that is not registered is registered by [on] and by [once],
    and [off] then undoes it. *)
Theorem off_undoes event fn e : Forall (fun cb => is_callback (Fn fn) cb = false) (listeners event e) -> forall event',
  listeners event' (off event (Fn fn) (on event fn e)) = listeners event' e /\
  listeners event' (off event (Fn fn) (once event fn e)) = listeners event' e.
Proof.
  intros H event'. unfold on, once. rewrite !listeners_off, !listeners_add.
  case_bool_decide as He; [|by rewrite !app_nil_r]. subst event'.
  split; (rewrite remove_first_app; [by rewrite app_nil_r|done|]).
  - unfold is_callback. by rewrite bool_decide_eq_true_2.
  - unfold is_callback. cbn. by rewrite Nat.eqb_refl, orb_true_r.
Qed.
Lemma off_undoes_witness : forall event',
  listeners event' (off (js "end") (Fn 1) (on (js "end") 1 (on (js "end") 0 no_callbacks))) = listeners event' (on (js "end") 0 no_callbacks) /\
  listeners event' (off (js "end") (Fn 1) (once (js "end") 1 (on (js "end") 0 no_callbacks))) = listeners event' (on (js "end") 0 no_callbacks).
Proof. apply (off_undoes (js "end") 1 (on (js "end") 0 no_callbacks)). by repeat constructor. Defined.

(** ** What an emission calls *)

Definition fn_of (cb : callback) : nat := match cb with Once _ f | Fn f => f end.
Definition plain (cb : callback) : bool := match cb with Fn _ => true | Once _ _ => false end.

(** Functions that leave the emitter alone. *)
Definition leaves_emitter {A W} (f : nat -> A -> ST W unit) (fn : nat) (args : A) : ST (emitter * W) unit :=
  fun st => let '(w, r) := f fn args st.2 in ((st.1, w), r).

Lemma off_wrapper event w fn kept rest e : Forall (fun cb => plain cb = true) kept ->
  listeners event e = kept ++ Once w fn :: rest -> listeners event (off event (Once w fn) e) = kept ++ rest.
Proof.
  intros Hk Hl. rewrite listeners_off, bool_decide_eq_true_2, Hl by done. apply remove_first_app.
  - eapply Forall_impl; [exact Hk|]. intros [f|w' f] H; [|done]. unfold is_callback. by rewrite bool_decide_eq_false_2.
  - unfold is_callback. by rewrite bool_decide_eq_true_2.
Qed.

Section quiet.
Context {A W : Type} (f : nat -> A -> ST W unit) (event : jsstr) (args : A).

Lemma calls_in_order cbs : forall kept e w, Forall (fun cb => plain cb = true) kept -> listeners event e = kept ++ cbs ->
  exists e', iterM (call (leaves_emitter f) event args) cbs (e, w) =
      (let '(w', r) := iterM (fun cb => f (fn_of cb) args) cbs w in ((e', w'), r)) /\
    (forall event', event' <> event -> listeners event' e' = listeners event' e) /\
    ((iterM (fun cb => f (fn_of cb) args) cbs w).2 = Ok tt -> listeners event e' = kept ++ List.filter plain cbs).
Proof.
  induction cbs as [|cb cbs IH]; intros kept e w Hk Hl.
  { exists e. split; [done|]. split; [done|]. intros _. by rewrite Hl. }
  cbn [iterM]. destruct cb as [fn|wr fn]; cbn [call fn_of].
  - unfold leaves_emitter at 1. cbn [fst snd]. destruct (f fn args w) as [w' [[]|x]] eqn:E.
    + destruct (IH (kept ++ [Fn fn]) e w') as (e' & E' & Ho & Hf).
      * apply Forall_app. split; [done|by repeat constructor].
      * by rewrite <- (assoc_L (++)).
      * exists e'. split; [exact E'|]. split; [done|]. intros H. rewrite (Hf H). cbn [List.filter plain].
        by rewrite <- (assoc_L (++)).
    + exists e. split; [done|]. split; [done|]. by intros ?.
  - unfold mbind, st_bind, modify. cbn [fst snd]. unfold leaves_emitter at 1. cbn [fst snd].
    destruct (f fn args w) as [w' [[]|x]] eqn:E.
    + destruct (IH kept (off event (Once wr fn) e) w' Hk) as (e' & E' & Ho & Hf).
      * by apply off_wrapper.
      * exists e'. split; [exact E'|]. split; [|exact Hf]. intros event' He. rewrite Ho by done.
        by rewrite listeners_off, bool_decide_eq_false_2.
    + exists (off event (Once wr fn) e). split; [done|]. split; [|by intros ?]. intros event2 He.
      by rewrite listeners_off, bool_decide_eq_false_2.
Qed.

(** An emission calls the functions of its event in the order they were
    added, up to the first that throws; when none does, those added by [once]
    are gone afterwards and the others, like every other event, are as before. *)
Theorem emit_in_order e w :
  exists e', emit (leaves_emitter f) event args (e, w) =
      (let '(w', r) := iterM (fun cb => f (fn_of cb) args) (listeners event e) w in ((e', w'), r)) /\
    (forall event', event' <> event -> listeners event' e' = listeners event' e) /\
    ((iterM (fun cb => f (fn_of cb) args) (listeners event e) w).2 = Ok tt ->
     listeners event e' = List.filter plain (listeners event e)).
Proof. exact (calls_in_order (listeners event e) [] e w (Forall_nil_2 _) eq_refl). Qed.
End quiet.

(** ** Functions that change the emitter *)

(** Function 0 removes function 1, which is still called by the emission
    that runs; function 2 adds itself, and is called once more each time. *)
Definition meddling (fn : nat) (args : unit) : ST (emitter * list nat) unit :=
  modify (fun '(e, called) =>
    (match fn with O => off (js "end") (Fn 1) e | 2%nat => on (js "end") 2 e | _ => e end, called ++ [fn])).
Example removed_while_emitting :
  let e := on (js "end") 1 (on (js "end") 0 no_callbacks) in
  let '(st, _) := emit meddling (js "end") tt (e, []) in
  st.2 = [0; 1]%nat /\ (emit meddling (js "end") tt st).1.2 = [0; 1; 0]%nat.
Proof. by vm_compute. Qed.
Example added_while_emitting :
  let e := on (js "end") 2 no_callbacks in
  let '(st, _) := emit meddling (js "end") tt (e, []) in
  st.2 = [2]%nat /\ (emit meddling (js "end") tt st).1.2 = [2; 2; 2]%nat.
Proof. by vm_compute. Qed.
