(* ===== verification/Superagent.v ===== *)
(** * Superagent: requests and responses

    The request library inside swagger-ui.js, as far as it computes: the
    serialization of objects, the headers and the body of a request, what
    [end] hands to the browser's XMLHttpRequest, and the response made of
    its answer.  The events of a request are in [SuperagentRun].

    [JSON.stringify], [JSON.parse] and [btoa] of the browser are parameters.
    An object is its own properties; a host value (a File, a FormData) has
    none that can be enumerated. *)

From Stdlib Require Import String.
From S2P Require Import Prelude JsNumber JsString JsValue Uri.

(** ** Splitting *)

(** [split(/ *c */)]. *)
Fixpoint drop_spaces (s : jsstr) : jsstr := match s with c :: s' => if c =? 32 then drop_spaces s' else s | [] => [] end.
Definition strip_end (s : jsstr) : jsstr := rev (drop_spaces (rev s)).
(** The pieces between the separators: the first keeps the spaces before it,
    the last those after it. *)
Fixpoint strip_pieces (first : bool) (l : list jsstr) : list jsstr :=
  match l with
  | [] => []
  | [s] => [if first then s else drop_spaces s]
  | s :: l' => strip_end (if first then s else drop_spaces s) :: strip_pieces false l'
  end.
Definition split_around (c : Z) (s : jsstr) : list jsstr := strip_pieces true (split s [c]).

(** ** Serialization *)

Definition encode_pair (key : jsstr) (val : jsval) : res jsstr :=
  k ← encodeURIComponent key; v ← encodeURIComponent (to_str val); Ok (k ++ js "=" ++ v).
Definition sub_key (key subkey : jsstr) : jsstr := key ++ js "[" ++ subkey ++ js "]".

Fixpoint pushEncodedKeyValuePair (val : jsval) (key : jsstr) (pairs : list jsstr) : res (list jsstr) :=
  match val with
  | VUndef => Ok pairs
  | VNull => k ← encodeURIComponent key; Ok (pairs ++ [k])
  | VArr l => foldM_res (fun pairs push => push key pairs) pairs (List.map pushEncodedKeyValuePair l)
  | VObj o =>
      foldM_res (fun pairs kv => kv.2 (sub_key key kv.1) pairs) pairs
        (for_in (List.map (fun kv => (kv.1, pushEncodedKeyValuePair kv.2)) o))
  | VHost _ _ => Ok pairs
  | _ => p ← encode_pair key val; Ok (pairs ++ [p])
  end.

(** Anything but an object is returned as it is. *)
Definition isObject (v : jsval) : bool := match v with VNull => false | _ => typeof_object v end.
Definition serialize (data : jsval) : res jsval :=
  if isObject data then
    pairs ← foldM_res (fun pairs kv => pushEncodedKeyValuePair kv.2 kv.1 pairs) [] (for_in_val data);
    Ok (VStr (join (js "&") pairs))
  else Ok data.

Definition parse_pair (fields : obj) (pair : jsstr) : res obj :=
  let pos := indexOf pair (js "=") in
  if pos =? -1 then k ← decodeURIComponent pair; Ok (put k (VStr []) fields)
  else k ← decodeURIComponent (slice_list pair 0 pos); v ← decodeURIComponent (slice_from pair (pos + 1)); Ok (put k (VStr v) fields).
Definition parseString (str : jsstr) : res obj := foldM_res parse_pair [] (split str (js "&")).

(** ** Types *)

Definition request_types : list (jsstr * jsstr) :=
  [(js "html", js "text/html"); (js "json", js "application/json"); (js "xml", js "application/xml");
   (js "urlencoded", js "application/x-www-form-urlencoded"); (js "form", js "application/x-www-form-urlencoded");
   (js "form-data", js "application/x-www-form-urlencoded")].
Definition FORM : jsstr := js "application/x-www-form-urlencoded".
Definition JSON_TYPE : jsstr := js "application/json".
(** [request.types[type] || type] *)
Definition full_type (type : jsstr) : jsstr := default type (assoc type request_types).

(** [/[\/+]json\b/.test(mime)] *)
Definition word_char (c : Z) : bool :=
  ((48 <=? c) && (c <=? 57)) || ((65 <=? c) && (c <=? 90)) || (c =? 95) || ((97 <=? c) && (c <=? 122)).
Definition json_here (s : jsstr) : bool :=
  match s with
  | c :: rest =>
      ((c =? chr "/") || (c =? chr "+")) && prefixb (js "json") rest &&
      match drop 4 rest with d :: _ => negb (word_char d) | [] => true end
  | [] => false
  end.
Fixpoint some_suffix (p : jsstr -> bool) (s : jsstr) : bool :=
  p s || match s with _ :: s' => some_suffix p s' | [] => false end.
Definition isJSON (mime : jsstr) : bool := some_suffix json_here mime.

Definition type_of (str : jsstr) : jsstr := default [] (split_around (chr ";") str !! 0%nat).
Definition add_param (params : obj) (str : jsstr) : obj :=
  match split_around (chr "=") str with
  | ((_ :: _) as key) :: ((_ :: _) as val) :: _ => put key (VStr val) params
  | _ => params
  end.
Definition params (str : jsstr) : obj := foldl add_param [] (split_around (chr ";") str).

(** [parseHeader]: a line without a colon has all but its last character as
    its name and the whole line as its value. *)
Definition strip_cr (s : jsstr) : jsstr := match last s with Some 13 => take (length s - 1) s | _ => s end.
Definition header_lines (str : jsstr) : list jsstr := strip_cr <$> removelast (split str [10]).
Definition parse_field (fields : obj) (line : jsstr) : obj :=
  let index := indexOf line (js ":") in
  put (toLowerCase (slice_list line 0 index)) (VStr (trim (slice_from line (index + 1)))) fields.
Definition parseHeader (str : jsstr) : obj := foldl parse_field [] (header_lines str).

(** ** The response *)

(** What is read of the answered XMLHttpRequest. *)
Record xhr_answer := XhrAnswer {
  x_status : Z;
  x_statusText : jsstr;
  x_responseType : option jsstr;
  x_responseText : jsval;
  x_response : jsval;
  x_headers : jsstr;
  x_contentType : jsval
}.

Definition vbool (b : bool) : jsval := VBool b.
(** [_setStatusProperties]; [toError] is the object of the error. *)
Definition toError (method url : jsstr) (status : Z) : jsval :=
  VObj [(js "message", VStr (js "cannot " ++ method ++ js " " ++ url ++ js " (" ++ Z_to_str status ++ js ")"));
        (js "status", vint status); (js "method", VStr method); (js "url", VStr url)].
Definition real_status (status : Z) : Z := if status =? 1223 then 204 else status.
Definition status_properties (method url : jsstr) (status : Z) : obj :=
  let status := real_status status in
  let type := Z.quot status 100 in
  [(js "status", vint status); (js "statusCode", vint status); (js "statusType", vint type);
   (js "info", vbool (type =? 1)); (js "ok", vbool (type =? 2)); (js "clientError", vbool (type =? 4));
   (js "serverError", vbool (type =? 5));
   (js "error", if (type =? 4) || (type =? 5) then toError method url status else vbool false);
   (js "accepted", vbool (status =? 202)); (js "noContent", vbool (status =? 204)); (js "badRequest", vbool (status =? 400));
   (js "unauthorized", vbool (status =? 401)); (js "notAcceptable", vbool (status =? 406)); (js "notFound", vbool (status =? 404));
   (js "forbidden", vbool (status =? 403))].

Definition set_all (target source : obj) : obj := foldl (fun t kv => put kv.1 kv.2 t) target source.

Section response.
Context (json_parse : jsval -> res jsval) (method url : jsstr) (x : xhr_answer).

Definition response_text : jsval :=
  if (negb (bool_decide (method = js "HEAD")) &&
      match x_responseType x with Some t => bool_decide (t = []) || bool_decide (t = js "text") | None => false end) ||
     match x_responseType x with None => true | Some _ => false end
  then x_responseText x else VNull.
Definition response_headers : obj := put (js "content-type") (x_contentType x) (parseHeader (x_headers x)).

(** [_parseBody], with the type the response has: [str.length] is that of a
    string or an array, and only objects are instances. *)
Definition parser (type : jsval) : option (jsval -> res jsval) :=
  match type with
  | VStr t =>
      if bool_decide (t = FORM) then
        Some (fun v => match v with VStr s => o ← parseString s; Ok (VObj o) | _ => Throw TypeError end)
      else if bool_decide (t = JSON_TYPE) || isJSON t then Some json_parse else None
  | _ => None
  end.
Definition parseBody (type str : jsval) : res jsval :=
  match parser type with Some parse => if truthy str then parse str else Ok VNull | None => Ok VNull end.

(** The constructor: the parameters of the content type are set on the
    response after the fields that precede them. *)
Definition Response : res obj :=
  let this := [(js "text", response_text); (js "statusText", VStr (x_statusText x))] in
  let this := set_all this (status_properties method url (x_status x)) in
  let this := put (js "headers") (VObj response_headers) (put (js "header") (VObj response_headers) this) in
  ct ← as_str (js_orv (get response_headers (js "content-type")) (VStr []));
  let this := put (js "type") (VStr (type_of ct)) this in
  let this := set_all this (for_in (params ct)) in
  body ← (if bool_decide (method = js "HEAD") then Ok VNull
          else parseBody (get this (js "type")) (if truthy (get this (js "text")) then get this (js "text") else x_response x));
  Ok (put (js "body") body this).
End response.

(** ** The request *)

(** What is given to [FormData.append]. *)
Record form_entry := FormEntry { entry_name : jsstr; entry_value : jsval; entry_filename : option jsval }.

(** [header] keeps the case of the names, [_header] has them in lower case. *)
Record request := Request {
  method : jsstr; url : jsstr;
  header : obj; _header : obj;
  _query : list jsval;
  _data : jsval;
  _formData : option (list form_entry);
  _serializer : option (jsval -> res jsval);
  _timeout : jsval;
  _withCredentials : bool;
  _responseType : jsstr;
  username : jsstr; password : jsstr
}.
Definition new_request (method url : jsstr) : request :=
  Request method url [] [] [] VUndef None None VUndef false [] [] [].

Definition with_headers h lh r := Request (method r) (url r) h lh (_query r) (_data r) (_formData r) (_serializer r) (_timeout r) (_withCredentials r) (_responseType r) (username r) (password r).
Definition with_query q r := Request (method r) (url r) (header r) (_header r) q (_data r) (_formData r) (_serializer r) (_timeout r) (_withCredentials r) (_responseType r) (username r) (password r).
Definition with_data d r := Request (method r) (url r) (header r) (_header r) (_query r) d (_formData r) (_serializer r) (_timeout r) (_withCredentials r) (_responseType r) (username r) (password r).
Definition with_formData f r := Request (method r) (url r) (header r) (_header r) (_query r) (_data r) f (_serializer r) (_timeout r) (_withCredentials r) (_responseType r) (username r) (password r).
Definition with_serializer f r := Request (method r) (url r) (header r) (_header r) (_query r) (_data r) (_formData r) (Some f) (_timeout r) (_withCredentials r) (_responseType r) (username r) (password r).
Definition timeout ms r := Request (method r) (url r) (header r) (_header r) (_query r) (_data r) (_formData r) (_serializer r) ms (_withCredentials r) (_responseType r) (username r) (password r).
Definition withCredentials r := Request (method r) (url r) (header r) (_header r) (_query r) (_data r) (_formData r) (_serializer r) (_timeout r) true (_responseType r) (username r) (password r).
Definition responseType val r := Request (method r) (url r) (header r) (_header r) (_query r) (_data r) (_formData r) (_serializer r) (_timeout r) (_withCredentials r) val (username r) (password r).
Definition with_login user pass r := Request (method r) (url r) (header r) (_header r) (_query r) (_data r) (_formData r) (_serializer r) (_timeout r) (_withCredentials r) (_responseType r) user pass.

(** [set] of one field, or of every property of an object. *)
Definition set_field (field : jsstr) (val : jsval) (r : request) : request :=
  with_headers (put field val (header r)) (put (toLowerCase field) val (_header r)) r.
Definition set (field val : jsval) (r : request) : res request :=
  if isObject field then Ok (foldl (fun r kv => set_field kv.1 kv.2 r) r (for_in_val field))
  else match field with VStr s => Ok (set_field s val r) | _ => Throw TypeError end.
Definition unset (field : jsstr) (r : request) : request :=
  with_headers (remove field (header r)) (remove (toLowerCase field) (_header r)) r.
Definition get_header (field : jsstr) (r : request) : jsval := get (_header r) (toLowerCase field).
Definition type (t : jsstr) (r : request) : request := set_field (js "Content-Type") (VStr (full_type t)) r.
Definition accept (t : jsstr) (r : request) : request := set_field (js "Accept") (VStr (full_type t)) r.

Definition auth (btoa : jsstr -> res jsstr) (user pass : jsstr) (auth_type : option jsstr) (r : request) : res request :=
  let t := default (js "basic") auth_type in
  if bool_decide (t = js "basic") then
    str ← btoa (user ++ js ":" ++ pass); Ok (set_field (js "Authorization") (VStr (js "Basic " ++ str)) r)
  else if bool_decide (t = js "auto") then Ok (with_login user pass r) else Ok r.

Definition query (val : jsval) (r : request) : res request :=
  val ← (if is_string val then Ok val else serialize val);
  Ok (if truthy val then with_query (_query r ++ [val]) r else r).

Definition append_entry (e : form_entry) (r : request) : request :=
  with_formData (Some (default [] (_formData r) ++ [e])) r.
Definition attach (field : jsstr) (file filename file_name : jsval) (r : request) : request :=
  append_entry (FormEntry field file (Some (js_orv filename file_name))) r.
Definition field (name : jsstr) (val : jsval) (r : request) : request := append_entry (FormEntry name val None) r.

Definition isHost (v : jsval) : bool :=
  match v with VHost t _ => bool_decide (t ∈ [js "File"; js "Blob"; js "FormData"]) | _ => false end.

(** [send]: objects are merged into an object sent before, strings appended.
    Merging into an array or a host value is not modelled. *)
Definition merge (target source : jsval) : res jsval :=
  match target with VObj o => Ok (VObj (set_all o (for_in_val source))) | _ => Throw Unsupported end.
Definition send_string (data : jsstr) (r : request) : request :=
  let r := if truthy (get (_header r) (js "content-type")) then r else type (js "form") r in
  if eq_str (get (_header r) (js "content-type")) FORM then
    with_data (if truthy (_data r) then VStr (to_str (_data r) ++ js "&" ++ data) else VStr data) r
  else with_data (VStr (to_str (js_orv (_data r) (VStr [])) ++ data)) r.
Definition send (data : jsval) (r : request) : res request :=
  let obj := isObject data in
  let had_type := truthy (get (_header r) (js "content-type")) in
  r ← (if obj && isObject (_data r) then d ← merge (_data r) data; Ok (with_data d r)
       else match data with VStr s => Ok (send_string s r) | _ => Ok (with_data data r) end);
  Ok (if negb obj || isHost data || had_type then r else type (js "json") r).

(** [_appendQueryString] *)
Definition appendQueryString (r : request) : jsstr :=
  match join (js "&") (to_str <$> _query r) with
  | [] => url r
  | query => url r ++ (if includes (url r) (js "?") then js "&" else js "?") ++ query
  end.

(** ** What is handed to the browser *)

Inductive payload := PForm (entries : list form_entry) | PVal (v : jsval).
Record wire := Wire {
  w_method : jsstr; w_url : jsstr; w_login : option (jsstr * jsstr); w_withCredentials : bool;
  w_headers : obj; w_responseType : jsstr; w_body : payload
}.

Section end_.
Context (stringify : jsval -> res jsval).

(** The serializer of a content type. *)
Definition serializer (r : request) : res (option (jsval -> res jsval)) :=
  match _serializer r with
  | Some f => Ok (Some f)
  | None =>
      let contentType := get (_header r) (js "content-type") in
      base ← (if truthy contentType then t ← as_str contentType; Ok (default [] (split t (js ";") !! 0%nat)) else Ok []);
      Ok (if bool_decide (base = FORM) then Some serialize
          else if bool_decide (base = JSON_TYPE) || isJSON (to_str contentType) then Some stringify else None)
  end.
Definition end_data (r : request) : res payload :=
  match _formData r with
  | Some entries => Ok (PForm entries)
  | None =>
      let data := _data r in
      data ← (if bool_decide (method r = js "GET") || bool_decide (method r = js "HEAD") || is_string data || isHost data then Ok data
              else s ← serializer r; match s with Some f => f data | None => Ok data end);
      Ok (PVal (if is_undef data then VNull else data))
  end.
Definition sent_headers (header : obj) : obj := filter (fun kv => is_nullish kv.2 = false) (for_in header).
Definition end_request (r : request) : res wire :=
  body ← end_data r;
  Ok (Wire (method r) (appendQueryString r)
        (match username r, password r with _ :: _, _ :: _ => Some (username r, password r) | _, _ => None end)
        (_withCredentials r) (sent_headers (header r)) (_responseType r) body).
End end_.

(** ** The methods of [request] *)

Inductive verb := Get | Head | Options | Delete | Patch | Post | Put.
Definition verb_name (v : verb) : jsstr :=
  match v with
  | Get => js "GET" | Head => js "HEAD" | Options => js "OPTIONS" | Delete => js "DELETE" | Patch => js "PATCH"
  | Post => js "POST" | Put => js "PUT"
  end.
(** [request.get(url, data)] and the others; [del] takes no data. *)
Definition shorthand (v : verb) (url : jsstr) (data : jsval) : res request :=
  let req := new_request (verb_name v) url in
  match v with
  | Delete => Ok req
  | Get => if truthy data then query data req else Ok req
  | _ => if truthy data then send data req else Ok req
  end.
(** The method of that name, if there is one. *)
Definition request_method (name : jsstr) : option verb :=
  assoc name [(js "get", Get); (js "head", Head); (js "options", Options); (js "del", Delete); (js "delete", Delete);
              (js "patch", Patch); (js "post", Post); (js "put", Put)].

(** ** A form is read as it was written *)

Definition form_field (kv : jsstr * jsstr) : Prop := wf_utf16 kv.1 = true /\ wf_utf16 kv.2 = true /\ array_index kv.1 = None.
Definition form_of (fields : list (jsstr * jsstr)) : obj := (fun kv => (kv.1, VStr kv.2)) <$> fields.

Lemma encoded_no c s r : wf_utf16 s = true -> encodeURIComponent s = Ok r -> uri_unit c = false -> c ∉ r.
Proof.
  intros Hs H Hc. apply encodeURIComponent_units in H; [by apply uri_unit_not_in|by apply wf_utf16_units].
Qed.

(** One pair: its text has no ampersand, and its first equals sign is the one
    between the parts. *)
Lemma encode_pair_parse kv o : form_field kv ->
  exists p, encode_pair kv.1 (VStr kv.2) = Ok p /\ 38 ∉ p /\ parse_pair o p = Ok (put kv.1 (VStr kv.2) o).
Proof.
  intros (Hk & Hv & _). destruct (encodeURIComponent_roundtrip _ Hk) as (rk & Ek & Dk).
  destruct (encodeURIComponent_roundtrip _ Hv) as (rv & Ev & Dv).
  exists (rk ++ 61 :: rv). unfold encode_pair. cbn [to_str]. rewrite Ek. cbn. rewrite Ev. cbn. split; [done|]. split.
  - rewrite elem_of_app, elem_of_cons. intros [H|[H|H]]; [|done|].
    + by apply (encoded_no 38 _ _ Hk Ek) in H.
    + by apply (encoded_no 38 _ _ Hv Ev) in H.
  - unfold parse_pair. assert (Hn : 61 ∉ rk) by by apply (encoded_no 61 _ _ Hk Ek).
    unfold indexOf. change (js "=") with [61]. rewrite find_char_app by done. cbv zeta.
    destruct (Z.eqb_spec (Z.of_nat (length rk)) (-1)); [lia|]. rewrite slice_take, take_app_length, Dk. cbn [mbind res_bind].
    replace (rk ++ 61 :: rv) with ((rk ++ [61]) ++ rv) by by rewrite <- (assoc_L (++)).
    rewrite slice_app by (rewrite length_app; cbn; lia). by rewrite Dv.
Qed.

Lemma parse_pairs fields : Forall form_field fields -> forall pairs,
  exists ps, foldM_res (fun pairs kv => pushEncodedKeyValuePair kv.2 kv.1 pairs) pairs (form_of fields) = Ok (pairs ++ ps) /\
    length ps = length fields /\ Forall (fun p => 38 ∉ p) ps /\
    (forall o, foldM_res parse_pair o ps = Ok (foldl (fun o kv => put kv.1 (VStr kv.2) o) o fields)).
Proof.
  induction 1 as [|kv fields Hkv _ IH]; intros pairs.
  { exists []. by rewrite app_nil_r. }
  destruct (encode_pair_parse kv [] Hkv) as (p & Ep & Hp & _). destruct (IH (pairs ++ [p])) as (ps & Eps & Hlen & Hps & Hfold).
  exists (p :: ps). split; [|split; [|split]].
  - cbn [form_of fmap list_fmap foldM_res fst snd pushEncodedKeyValuePair]. rewrite Ep. cbn [mbind res_bind].
    rewrite <- (assoc_L (++)) in Eps. exact Eps.
  - cbn. by f_equal.
  - by constructor.
  - intros o. destruct (encode_pair_parse kv o Hkv) as (p' & Ep' & _ & Hparse). assert (p' = p) as -> by congruence.
    cbn [foldM_res foldl]. rewrite Hparse. apply Hfold.
Qed.

Lemma put_absent {A} k (v : A) o : k ∉ o.*1 -> put k v o = o ++ [(k, v)].
Proof.
  induction o as [|[k' v'] o IH]; [done|]. cbn. intros [Hne H]%not_elem_of_cons.
  rewrite bool_decide_eq_false_2 by congruence. by rewrite IH.
Qed.
Lemma put_fields fields : forall o, NoDup (o.*1 ++ fields.*1) ->
  foldl (fun o (kv : jsstr * jsstr) => put kv.1 (VStr kv.2) o) o fields = o ++ form_of fields.
Proof.
  induction fields as [|[k v] fields IH]; intros o H; [by rewrite app_nil_r|]. cbn [foldl fst snd].
  rewrite put_absent.
  - rewrite IH; [by rewrite <- (assoc_L (++))|]. rewrite fmap_app. cbn. by rewrite <- (assoc_L (++)).
  - apply NoDup_app in H as (_ & H & _). intros Hin. apply (H k Hin). by left.
Qed.

(** A form that is not empty, of names (no array indices) with texts
    in well-formed UTF-16, is read by [parseString] as it was written by
    [serialize]. *)
Theorem form_roundtrip fields : fields <> [] -> NoDup fields.*1 -> Forall form_field fields ->
  exists s, serialize (VObj (form_of fields)) = Ok (VStr s) /\ parseString s = Ok (form_of fields).
Proof.
  intros Hne Hnd Hf. destruct (parse_pairs fields Hf []) as (ps & Eps & Hlen & Hps & Hfold).
  exists (join (js "&") ps). split.
  - unfold serialize. cbn [isObject typeof_object for_in_val]. rewrite for_in_named.
    + rewrite Eps. done.
    + apply Forall_fmap. eapply Forall_impl; [exact Hf|]. by intros [k v] (_ & _ & H).
  - unfold parseString. change (js "&") with [38]. rewrite split_join; [|by destruct ps, fields|done].
    by rewrite Hfold, put_fields.
Qed.
Lemma form_roundtrip_witness :
  let fields := [(js "status", js "sold out"); (js "a&b", js "x=y"); ([], [233; 55357; 56832])] in
  exists s, serialize (VObj (form_of fields)) = Ok (VStr s) /\ parseString s = Ok (form_of fields).
Proof.
  apply form_roundtrip; [done| |by repeat constructor].
  by apply (bool_decide_eq_true _).
Defined.

(** Without fields the text is empty, which is read as one empty field. *)
Example empty_form :
  serialize (VObj []) = Ok (VStr []) /\ parseString [] = Ok [([], VStr [])].
Proof. done. Qed.
(** The keys of nested objects are written in brackets and read as they are. *)
Example nested_form :
  serialize (VObj [(js "a", VObj [(js "b", vint 1); (js "c", VArr [vint 2; VNull])]); (js "d", VUndef)]) =
    Ok (vstr "a%5Bb%5D=1&a%5Bc%5D=2&a%5Bc%5D") /\
  parseString (js "a%5Bb%5D=1&a%5Bc%5D") = Ok [(js "a[b]", vstr "1"); (js "a[c]", VStr [])].
Proof. by vm_compute. Qed.

(** ** Headers *)

(** A header is found whatever the case of its name. *)
Lemma get_header_set f v r f' :
  get_header f' (set_field f v r) = if bool_decide (toLowerCase f' = toLowerCase f) then v else get_header f' r.
Proof.
  unfold get_header, set_field. cbn [_header with_headers]. case_bool_decide as H.
  - by rewrite H, get_put_eq.
  - rewrite get_put_ne; [done|]. congruence.
Qed.

(** [unset] with another case: the header cannot be read any more, and is
    still sent. *)
Example unset_still_sent :
  let r := unset (js "content-type") (type (js "json") (new_request (js "POST") (js "/pets"))) in
  get_header (js "Content-Type") r = VUndef /\ sent_headers (header r) = [(js "Content-Type", VStr JSON_TYPE)].
Proof. done. Qed.
(** Two cases of one name are sent as two headers. *)
Example sent_twice :
  let r := set_field (js "content-type") (vstr "text/xml") (type (js "form") (new_request (js "POST") (js "/pets"))) in
  sent_headers (header r) = [(js "Content-Type", VStr FORM); (js "content-type", vstr "text/xml")].
Proof. done. Qed.

(** ** Strings sent one after the other *)

Definition form_request (r : request) : Prop := get (_header r) (js "content-type") = VStr FORM.

Lemma send_more s d r : form_request r -> _data r = VStr d -> d <> [] -> s <> [] ->
  exists r', send (VStr s) r = Ok r' /\ form_request r' /\ _data r' = VStr (d ++ js "&" ++ s).
Proof.
  intros Hf Hd Hne Hs. unfold send. cbn [isObject typeof_object andb mbind res_bind negb orb]. eexists. split; [done|].
  unfold send_string. cbv zeta. unfold form_request in Hf. rewrite Hf. change (truthy (VStr FORM)) with true. cbv iota.
  rewrite Hf. change (eq_str (VStr FORM) FORM) with true. cbv iota. rewrite Hd. cbn [to_str]. destruct d as [|c d]; [done|]. split; [exact Hf|done].
Qed.

Lemma join_snoc sep (l : list jsstr) x : l <> [] -> join sep (l ++ [x]) = join sep l ++ sep ++ x.
Proof.
  intros Hl. induction l as [|y l IH]; [done|]. destruct l as [|z l]; [done|].
  cbn [app]. rewrite (join_cons sep y (z :: l)), join_cons by done. change (z :: l ++ [x]) with ((z :: l) ++ [x]).
  rewrite IH by done. by rewrite <- !(assoc_L (++)).
Qed.

(** Strings given to [send] one after the other, none empty, make one
    form: they are joined by ampersands, and the content type is that of a
    form unless one was set. *)
Theorem sends_joined m u l : l <> [] -> Forall (fun s => s <> []) l ->
  exists r, foldM_res (fun r s => send (VStr s) r) (new_request m u) l = Ok r /\
    _data r = VStr (join (js "&") l) /\ get_header (js "Content-Type") r = VStr FORM.
Proof.
  intros Hne Hl. induction l as [|s l IH] using rev_ind; [done|]. rewrite foldM_res_app. clear Hne.
  apply Forall_app in Hl as [Hl Hs]. apply Forall_cons in Hs as [Hs _]. destruct (decide (l = [])) as [->|Hne].
  - cbn [foldM_res mbind res_bind app]. eexists. split; [done|]. by destruct s.
  - destruct (IH Hne Hl) as (r & -> & Hd & Hf). cbn [foldM_res mbind res_bind].
    destruct (send_more s (join (js "&") l) r) as (r' & -> & Hf' & Hd'); [exact Hf|exact Hd| |exact Hs|].
    + destruct l as [|x l]; [done|]. apply Forall_cons in Hl as [Hx _]. destruct x; [done|]. by destruct l.
    + exists r'. split; [done|]. split; [|exact Hf']. rewrite Hd'. f_equal. by rewrite join_snoc.
Qed.
Lemma sends_joined_witness :
  exists r, foldM_res (fun r s => send (VStr s) r) (new_request (js "POST") (js "/pets")) [js "name=rex"; js "age=3"] = Ok r /\
    _data r = VStr (js "name=rex&age=3") /\ get_header (js "Content-Type") r = VStr FORM.
Proof. apply (sends_joined _ _ [js "name=rex"; js "age=3"]); [done|by repeat constructor]. Defined.

(** ** The status of a response *)

Definition properties_of (status : Z) : obj := status_properties (js "GET") (js "/pets") status.
(** Three digits are one class, and the error is the one of 400 to 599. *)
Lemma status_classes m u s : 0 <= s < 1000 -> s <> 1223 ->
  let p := status_properties m u s in
  get p (js "ok") = VBool ((200 <=? s) && (s <? 300)) /\
  truthy (get p (js "error")) = (400 <=? s) && (s <? 600).
Proof.
  intros Hs _ p. unfold p, status_properties, real_status. destruct (Z.eqb_spec s 1223); [lia|]. cbv zeta.
  assert (Hq : Z.quot s 100 = s / 100) by (apply Z.quot_div_nonneg; lia). rewrite Hq.
  assert (Hm := Z.div_mod s 100 ltac:(lia)). assert (Hr := Z.mod_pos_bound s 100 ltac:(lia)).
  split.
  - change (VBool (s / 100 =? 2) = VBool ((200 <=? s) && (s <? 300))). f_equal.
    destruct (Z.eqb_spec (s / 100) 2), (Z.leb_spec 200 s), (Z.ltb_spec s 300); cbn; lia.
  - change (truthy (if (s / 100 =? 4) || (s / 100 =? 5) then toError m u s else vbool false) = (400 <=? s) && (s <? 600)).
    destruct (Z.eqb_spec (s / 100) 4), (Z.eqb_spec (s / 100) 5), (Z.leb_spec 400 s), (Z.ltb_spec s 600); cbn; lia.
Qed.

(** A parameter of the content type replaces a field of the response: the
    successful answer below looks like an error. *)
Definition odd_answer : xhr_answer :=
  XhrAnswer 200 (js "OK") (Some []) (vstr "{}") VNull (js "Content-Length: 2" ++ [13; 10])
    (vstr "application/json; error=none; status=500").
Example parameters_replace_fields :
  match Response (fun _ => Ok (VObj [])) (js "GET") (js "/pets") odd_answer with
  | Ok r => (get r (js "status"), get r (js "error"), get r (js "ok"), get r (js "type")) =
              (vstr "500", vstr "none", VBool true, vstr "application/json")
  | Throw _ => False
  end.
Proof. by vm_compute. Qed.
