(* ===== verification/AuthViews.v ===== *)
(** * The authorization forms

    [SwaggerUi.utils.parseSecurityDefinitions], the models of the
    authorizations ([ApiKeyAuthModel], [BasicAuthModel], [Oauth2Model]),
    [AuthsCollection], and what [AuthView] does when the user authorizes or logs
    out, in swagger-ui.js. A model is its attributes; the views around it pass
    the text of an input on to a setter. *)

From Stdlib Require Import String.
From S2P Require Import Prelude JsNumber JsString JsValue Base64 BufferInt BufferText CookieJar Auth Uri ParamEncoding.

(** ** Security requirements *)

(** [Object.assign({}, v)]. *)
Definition assign_copy (v : jsval) : obj := for_in_val v.

Definition parseOauth2Scopes (data : jsval) : list jsval :=
  (fun '(key, d) => VObj [(js "scope", VStr key); (js "description", d)]) <$> for_in_val (VObj (assign_copy data)).

Record parsed_security := ParsedSecurity {
  ps_auths : list obj;
  ps_oauth2 : list obj;
  ps_scopes : jsval
}.

Section security.
(** [_.merge] of lodash. *)
Context (merge : jsval -> jsval -> jsval).

(** A scheme of a requirement: the plain schemes and the OAuth schemes so far,
    and all scopes. *)
Definition oauth2_copy (scheme : obj) (scopes : jsval) : obj * jsval :=
  let parsed := VArr (parseOauth2Scopes scopes) in
  (put (js "scopes") parsed scheme, parsed).
Definition security_key (auths : obj) (st : obj * obj * jsval) (entry : jsstr * jsval) : res (obj * obj * jsval) :=
  let '(single, single2, scopes) := st in
  let '(key, v) := entry in
  match v with
  | VArr wanted =>
      let scheme := get auths key in
      if negb (truthy scheme) then Ok st
      else
        type ← prop scheme (js "type");
        if eq_str type (js "oauth2") then
          all ← prop scheme (js "scopes");
          let kept := filter (fun kv => VStr kv.1 ∈ wanted) (assign_copy all) in
          let '(copy, parsed) := oauth2_copy (assign_copy scheme) (VObj kept) in
          Ok (single, put key (VObj copy) single2, merge scopes parsed)
        else Ok (put key (VObj (assign_copy scheme)) single, single2, scopes)
  | _ =>
      type ← prop v (js "type");
      if eq_str type (js "oauth2") then
        all ← prop v (js "scopes");
        let '(copy, parsed) := oauth2_copy (assign_copy v) all in
        Ok (single, put key (VObj copy) single2, merge scopes parsed)
      else Ok (put key v single, single2, scopes)
  end.

Definition push_nonempty (o : obj) (l : list obj) : list obj := match o with [] => l | _ => l ++ [o] end.
Definition security_item (auths : obj) (st : parsed_security) (item : jsval) : res parsed_security :=
  '(single, single2, scopes) ← foldM_res (security_key auths) ([], [], ps_scopes st) (for_in_val item);
  Ok (ParsedSecurity (push_nonempty single (ps_auths st)) (push_nonempty single2 (ps_oauth2 st)) scopes).
(** [None] is the [null] for requirements that are not an array. *)
Definition parseSecurityDefinitions (security securityDefinitions : jsval) : res (option parsed_security) :=
  let auths := assign_copy securityDefinitions in
  match security with
  | VArr items => Some <$> foldM_res (security_item auths) (ParsedSecurity [] [] (VArr [])) items
  | _ => Ok None
  end.
End security.

(** ** The models *)

Inductive model_kind := ApiKeyAuthModel | BasicAuthModel | Oauth2Model | OtherModel.
Record model := Model { kind_of_model : model_kind; attributes : obj }.

Definition attr (m : model) (k : jsstr) : jsval := get (attributes m) k.
Definition set_quiet (k : jsstr) (v : jsval) (m : model) : model := Model (kind_of_model m) (put k v (attributes m)).

Definition api_key_valid (a : obj) : bool := truthy (get a (js "value")).
Definition basic_valid (a : obj) : bool := truthy (get a (js "password")) && truthy (get a (js "username")).

(** [v in ['basic', 'request-body']]: whether it is a key of the array. *)
Definition in_pair (v : jsval) : bool := bool_decide (to_str v ∈ [js "0"; js "1"; js "length"]).
Definition length_of (v : jsval) : res jsval :=
  match v with VArr l => Ok (vint (Z.of_nat (length l))) | VStr s => Ok (vint (Z.of_nat (length s))) | _ => prop v (js "length") end.
(** [_.findIndex(scopes, function(o) { return o.checked === true; }) >= 0]. *)
Fixpoint find_checked (l : list jsval) : res bool :=
  match l with
  | [] => Ok false
  | o :: l => c ← prop o (js "checked"); if eq_true c then Ok true else find_checked l
  end.
(** [None]: returned before [valid] is set. *)
Definition oauth2_valid (a : obj) : res (option bool) :=
  if truthy (get a (js "isPasswordFlow")) && negb (truthy (get a (js "username"))) then Ok None
  else if in_pair (get a (js "clientAuthenticationType")) && negb (truthy (get a (js "clientId"))) then Ok None
  else
    let scp := get a (js "scopes") in
    found ← find_checked (as_arr scp);
    n ← length_of scp;
    Ok (Some (match n with VNum (NInt n) => (0 <? n) && found || (n =? 0) | _ => false end)).

(** [validate]: the result, and [valid] in the model. *)
Definition validate (m : model) : res (bool * model) :=
  match kind_of_model m with
  | ApiKeyAuthModel => let v := api_key_valid (attributes m) in Ok (v, set_quiet (js "valid") (VBool v) m)
  | BasicAuthModel => let v := basic_valid (attributes m) in Ok (v, set_quiet (js "valid") (VBool v) m)
  | Oauth2Model =>
      o ← oauth2_valid (attributes m);
      Ok (match o with None => (false, m) | Some v => (v, set_quiet (js "valid") (VBool v) m) end)
  | OtherModel => Throw TypeError
  end.

(** [set] of a new value fires [change], which validates (the change of [valid]
    fires it again, with the same result: [validate_again]). *)
Definition set_attr (k : jsstr) (v : jsval) (m : model) : res model :=
  if bool_decide (attr m k = v) then Ok m
  else
    let m' := set_quiet k v m in
    match kind_of_model m with OtherModel => Ok m' | _ => snd <$> validate m' end.

(** The attributes of a new model: the defaults where nothing is given. *)
Definition defaults_of (k : model_kind) : obj :=
  match k with
  | ApiKeyAuthModel => [(js "in", VStr []); (js "name", VStr []); (js "title", VStr []); (js "value", VStr [])]
  | BasicAuthModel => [(js "username", VStr []); (js "password", VStr []); (js "title", vstr "basic")]
  | Oauth2Model => [(js "scopes", VObj []); (js "isPasswordFlow", VBool false); (js "clientAuthenticationType", vstr "none")]
  | OtherModel => []
  end.
Definition with_defaults (k : model_kind) (a : obj) : obj :=
  foldl (fun a '(k, v) => if is_undef (get a k) then put k v a else a) a (defaults_of k).

(** The scopes that have a description (each also becomes a property of the
    array under the text of an object, which nothing reads). *)
Fixpoint described (l : list (jsstr * jsval)) : res (list jsval) :=
  match l with
  | [] => Ok []
  | (_, scope) :: l =>
      d ← prop scope (js "description");
      rest ← described l;
      Ok (if is_string d then scope :: rest else rest)
  end.
(** [Oauth2Model.initialize], before it listens to [change]. *)
Definition oauth2_initialize (a : obj) : res obj :=
  a ← (if truthy (get a (js "scopes")) then l ← described (for_in_val (get a (js "scopes"))); Ok (put (js "scopes") (VArr l) a)
       else Ok a);
  let flow := get a (js "flow") in
  Ok (if truthy flow then
        let flow_is k := eq_str flow (js k) in
        put (js "clientAuthentication") (VBool (flow_is "password"%string || flow_is "application"%string))
          (put (js "requireClientAuthentication") (VBool (flow_is "application"%string))
             (put (js "isPasswordFlow") (VBool (flow_is "password"%string)) a))
      else a).
Definition new_model (k : model_kind) (a : obj) : res model :=
  let a := with_defaults k a in
  match k with Oauth2Model => Model k <$> oauth2_initialize a | _ => Ok (Model k a) end.

(** [setScopes]: the scope is checked in place, so [set] sees no change. *)
Fixpoint check_scope (name : jsval) (val : jsval) (l : list jsval) : res (list jsval) :=
  match l with
  | [] => Throw TypeError
  | o :: l =>
      s ← prop o (js "scope");
      if strict_eq s name then Ok (match o with VObj o => VObj (put (js "checked") val o) | o => o end :: l)
      else l ← check_scope name val l; Ok (o :: l)
  end.
Definition setScopes (name val : jsval) (m : model) : res model :=
  l ← check_scope name val (as_arr (attr m (js "scopes")));
  snd <$> validate (set_quiet (js "scopes") (VArr l) m).

(** ** The collection *)

Definition handleOne (a : obj) : res model :=
  let type := get a (js "type") in
  new_model (if eq_str type (js "oauth2") then Oauth2Model else if eq_str type (js "basic") then BasicAuthModel
             else if eq_str type (js "apiKey") then ApiKeyAuthModel else OtherModel) a.

(** The properties of an authorization that the forms read. *)
Definition auth_fields (a : auth) : jsval * jsval * jsval :=
  match a with
  | ApiKeyAuthorization _ v _ => (VStr v, VUndef, VUndef)
  | PasswordAuthorization u p => (VUndef, VStr u, VStr p)
  | CookieAuthorization _ | OtherAuthorization _ => (VUndef, VUndef, VUndef)
  end.

(** [_.extend], key by key. *)
Definition extend (o fields : obj) : obj := foldl (fun o '(k, v) => put k v o) o fields.
Definition fill_form (o : obj) (a : auth) : obj :=
  let '(value, username, password) := auth_fields a in
  let isBasic := eq_str (get o (js "type")) (js "basic") && truthy username && truthy password in
  extend o [(js "isLogout", VBool true); (js "value", if isBasic then VUndef else value);
            (js "username", if isBasic then username else VUndef);
            (js "password", if isBasic then password else VUndef); (js "valid", VBool true)].
Definition parse_one (table : authz) (entry : jsstr * jsval) : res obj :=
  let '(name, auth) := entry in
  match auth with
  | VObj o =>
      let o := extend o [(js "title", VStr name)] in
      Ok (match assoc name table with None => o | Some a => fill_form o a end)
  | _ => Throw Unsupported
  end.
(** [parse] and [add]: [table] is [clientAuthorizations.authz] when the page has
    an interface. *)
Definition collection (table : option authz) (data : obj) : res (list model) :=
  mapM_res (fun e => a ← parse_one (default [] table) e; handleOne a) (for_in data).

(** [isValid] validates every model, also after an invalid one. *)
Fixpoint isValid (ms : list model) : res (bool * list model) :=
  match ms with
  | [] => Ok (true, [])
  | m :: ms => '(v, m) ← validate m; '(valid, ms) ← isValid ms; Ok (v && valid, m :: ms)
  end.
Definition logged_out (m : model) : bool := eq_true (attr m (js "isLogout")).
Definition isAuthorized (ms : list model) : bool := bool_decide (length ms = length (List.filter logged_out ms)).
Definition isPartiallyAuthorized (ms : list model) : bool := bool_decide (0 < length (List.filter logged_out ms))%nat.

(** The views of a collection: one for each model that has one, but a single one
    for all basic authorizations. *)
Inductive auth_view := ApiKeyAuthView (m : model) | BasicAuthView (m : model) | Oauth2View (m : model).
Definition renderOneAuth (views : list auth_view) (m : model) : list auth_view :=
  let type := attr m (js "type") in
  if eq_str type (js "apiKey") then views ++ [ApiKeyAuthView m]
  else if eq_str type (js "basic") && negb (List.existsb (fun v => match v with BasicAuthView _ => true | _ => false end) views)
  then views ++ [BasicAuthView m]
  else if eq_str type (js "oauth2") then views ++ [Oauth2View m] else views.
Definition render_auths (ms : list model) : list auth_view := foldl renderOneAuth [] ms.
(** The inputs that [highlightInvalid] marks. *)
Definition highlightInvalid (v : auth_view) : res (list jsstr) :=
  match v with
  | ApiKeyAuthView m => '(v, _) ← validate m; Ok (if v : bool then [] else [js ".input_apiKey_entry"])
  | BasicAuthView m => Ok (if truthy (attr m (js "username")) then [] else [js ".basic_auth__username"])
  | Oauth2View m => Ok ((if truthy (attr m (js "username")) then [] else [js ".oauth-username"]) ++
                        (if truthy (attr m (js "clientId")) then [] else [js ".oauth-client-id"]))
  end.

(** [AuthButtonView]: the schemes with scopes first; the button shows whether
    one of them is authorized. *)
Definition button_auths (data : parsed_security) : list obj := ps_oauth2 data ++ ps_auths data.
Fixpoint renderAuths (table : option authz) (auths : list obj) : res bool :=
  match auths with
  | [] => Ok false
  | data :: auths => ms ← collection table data; isLogout ← renderAuths table auths; Ok (isPartiallyAuthorized ms || isLogout)
  end.

(** ** Authorizing and logging out *)

(** What the page and [initOAuth] set. *)
Record page := Page {
  protocol : jsstr;
  host : jsstr;
  pathname : jsstr;
  oAuthRedirectUrl : jsval;
  realm : jsval;
  clientId : jsval;
  scopeSeparator : jsval;
  additionalQueryStringParams : obj
}.
(** [window.swaggerUiAuth] and [window.enabledScopes]. *)
Record oauth_container := OAuthContainer {
  OAuthSchemeKey : jsval;
  tokenName : jsval;
  tokenUrl : jsval;
  enabledScopes : jsval
}.
Inductive login :=
| OpenWindow (url : jsstr)
| TokenRequest (url : jsval) (data headers : obj).

(** [l.join(sep)]. *)
Definition join_vals (sep : jsval) (l : list jsval) : jsstr :=
  join (if is_undef sep then js "," else to_str sep) ((fun v => if is_nullish v then [] else to_str v) <$> l).
Definition getTokenName (dets : jsval) : res jsval :=
  vendorExtensions ← prop dets (js "vendorExtensions");
  x ← prop vendorExtensions (js "x-tokenName");
  t ← prop dets (js "tokenName");
  Ok (js_orv x t).

Section oauth.
(** [window.btoa]. *)
Context (window_btoa : jsstr -> res jsstr) (pg : page).

Definition redirectUrl : jsstr :=
  let pathname := substring (pathname pg) 0 (lastIndexOf (pathname pg) (js "/")) in
  to_str (js_orv (oAuthRedirectUrl pg) (VStr (protocol pg ++ js "//" ++ host pg ++ pathname ++ js "/o2c.html"))).

(** The scopes of the model: [undefined] for one that is not checked. *)
Fixpoint checked_scopes (l : list jsval) : res (list jsval) :=
  match l with
  | [] => Ok []
  | o :: l =>
      c ← prop o (js "checked");
      s ← (if truthy c then prop o (js "scope") else Ok VUndef);
      rest ← checked_scopes l;
      Ok (s :: rest)
  end.

(** [$.extend({}, a, b)]: what is [undefined] is left out. *)
Definition jquery_extend (a b : obj) : obj := foldl (fun o '(k, v) => if is_undef v then o else put k v o) a b.
Definition accessTokenRequest (scopes : list jsval) (oauth : obj) (grantType : jsstr) (params : obj) : res login :=
  let params := jquery_extend [(js "scope", VStr (join_vals (vstr " ") scopes)); (js "grant_type", VStr grantType)] params in
  let how := get oauth (js "clientAuthenticationType") in
  let id := get oauth (js "clientId") in
  let secret := get oauth (js "clientSecret") in
  if eq_str how (js "basic") then
    t ← window_btoa (to_str id ++ js ":" ++ to_str secret);
    Ok (TokenRequest (get oauth (js "tokenUrl")) params [(js "Authorization", VStr (js "Basic " ++ t))])
  else if eq_str how (js "request-body") then
    Ok (TokenRequest (get oauth (js "tokenUrl")) (put (js "client_secret") secret (put (js "client_id") id params)) [])
  else Ok (TokenRequest (get oauth (js "tokenUrl")) params []).
Definition clientCredentialsFlow (scopes : list jsval) (oauth : obj) : res login :=
  accessTokenRequest scopes oauth (js "client_credentials") [].
Definition passwordFlow (scopes : list jsval) (oauth : obj) : res login :=
  accessTokenRequest scopes oauth (js "password")
    [(js "username", get oauth (js "username")); (js "password", get oauth (js "password"))].

(** The end of the address: the parameters of the login. *)
Definition encoded_param (k v : jsstr) : res jsstr := e ← encodeURIComponent v; Ok (js "&" ++ k ++ js "=" ++ e).
Definition login_pairs (scopes : list jsval) (state : jsval) : list (jsstr * jsstr) :=
  [(js "redirect_uri", redirectUrl); (js "realm", to_str (realm pg)); (js "client_id", to_str (clientId pg));
   (js "scope", join_vals (scopeSeparator pg) scopes); (js "state", to_str state)] ++
  ((fun '(k, v) => (k, to_str v)) <$> for_in (additionalQueryStringParams pg)).
Definition login_params (scopes : list jsval) (state : jsval) : res jsstr :=
  ps ← mapM_res (fun '(k, v) => encoded_param k v) (login_pairs scopes state);
  Ok (List.concat ps).

(** The grant types of a definition of version 1.2: the address and the name of
    the token. *)
Definition grant_type (st : jsval * jsval) (entry : jsstr * jsval) : res (jsval * jsval) :=
  let '(t, dets) := entry in
  let from endpoint response :=
    e ← prop dets (js endpoint); u ← prop e (js "url"); n ← getTokenName dets;
    Ok (VStr (to_str u ++ js response), n) in
  if bool_decide (t = js "implicit") then from "loginEndpoint"%string "?response_type=token"%string
  else if bool_decide (t = js "accessCode") then from "tokenRequestEndpoint"%string "?response_type=code"%string
  else Ok st.

(** [handleOauth2Login]. *)
Definition handleOauth2Login (auth : model) (old : oauth_container) : res (oauth_container * login) :=
  let dets := VObj (attributes auth) in
  let key := attr auth (js "title") in
  scopes ← checked_scopes (as_arr (attr auth (js "scopes")));
  let container := fun name url => OAuthContainer key name url (VArr scopes) in
  let flow := attr auth (js "flow") in
  let isOauth2 := eq_str (attr auth (js "type")) (js "oauth2") in
  let send (request : res login) :=
    t ← getTokenName dets;
    l ← request;
    Ok (container (js_orv t (vstr "access_token")) (tokenUrl old), l) in
  let window url c state :=
    ps ← login_params scopes state;
    Ok (c, OpenWindow (to_str url ++ ps)) in
  if isOauth2 && (eq_str flow (js "implicit") || eq_str flow (js "accessCode")) then
    let code := eq_str flow (js "accessCode") in
    t ← getTokenName dets;
    window (VStr (to_str (attr auth (js "authorizationUrl")) ++ js "?response_type=" ++ (if code then js "code" else js "token")))
      (container (js_orv t (vstr "access_token")) (if code then attr auth (js "tokenUrl") else VNull)) key
  else if isOauth2 && eq_str flow (js "application") then send (clientCredentialsFlow scopes (attributes auth))
  else if isOauth2 && eq_str flow (js "password") then send (passwordFlow scopes (attributes auth))
  else if truthy (attr auth (js "grantTypes")) then
    '(url, name) ← foldM_res grant_type (VNull, tokenName old) (for_in_val (attr auth (js "grantTypes")));
    window url (container name (tokenUrl old)) VUndef
  else window VNull (container (tokenName old) (tokenUrl old)) VUndef.

(** [authorize], before the interface is loaded again. *)
Record session := Session { s_table : authz; s_container : oauth_container; s_logins : list login }.
Definition authorize_one (st : session) (m : model) : res session :=
  let type := attr m (js "type") in
  let text k := to_str (attr m (js k)) in
  let add_auth a := Ok (Session (add (s_table st) (text "title"%string) a) (s_container st) (s_logins st)) in
  if eq_str type (js "apiKey") then add_auth (ApiKeyAuthorization (text "name"%string) (text "value"%string) (text "in"%string))
  else if eq_str type (js "basic") then add_auth (PasswordAuthorization (text "username"%string) (text "password"%string))
  else if eq_str type (js "oauth2") then
    '(c, l) ← handleOauth2Login m (s_container st);
    Ok (Session (s_table st) c (s_logins st ++ [l]))
  else Ok st.
Definition authorize (ms : list model) (st : session) : res session := foldM_res authorize_one st ms.

(** [authorizeClick]: the session after it, or the inputs to highlight. *)
Definition authorizeClick (ms : list model) (st : session) : res (session + list jsstr) :=
  '(valid, ms) ← isValid ms;
  if valid : bool then inl <$> authorize ms st
  else marks ← mapM_res highlightInvalid (render_auths ms); Ok (inr (List.concat marks)).

(** [logoutClick]. *)
Definition logout (ms : list model) (table : authz) : authz :=
  foldl (fun t m => remove_auth t (to_str (attr m (js "title")))) table ms.
End oauth.

(** ** The address of a login *)

(** A key that needs no encoding. *)
Definition plain_key (k : jsstr) : Prop := wf_utf16 k = true /\ encodeURIComponent k = Ok k.

(** The query of an address, as whoever gets it takes it out: from the first
    question mark up to the fragment. *)
Definition before (c : Z) (s : jsstr) : jsstr := match find_str [c] s with Some n => take n s | None => s end.
Definition behind (c : Z) (s : jsstr) : jsstr := match find_str [c] s with Some n => drop (S n) s | None => [] end.
Definition address_query (address : jsstr) : jsstr := behind 63 (before 35 address).

Lemma address_query_of u q : 63 ∉ u -> 35 ∉ u -> 35 ∉ q -> address_query (u ++ js "?" ++ q) = q.
Proof.
  intros Hu Hf Hq. unfold address_query, before. rewrite (proj2 (find_char_none 35 _)).
  - unfold behind. change (js "?" ++ q) with (63 :: q). rewrite find_char_app by done.
    change (63 :: q) with ([63] ++ q). rewrite app_assoc.
    replace (S (length u)) with (length (u ++ [63])) by (rewrite length_app; cbn; lia). by rewrite drop_app_length.
  - rewrite !elem_of_app. intros [?|[Hx|?]]; [done| |done]. by apply (bool_decide_eq_true _) in Hx.
Qed.

Lemma encoded_param_decodes k v : plain_key k -> wf_utf16 v = true ->
  exists p, encoded_param k v = Ok (38 :: p) /\ decode_part p = Ok (k, v) /\ 38 ∉ p /\ 35 ∉ p.
Proof.
  intros [Hw Hk] Hv. destruct (encodeURIComponent_roundtrip v Hv) as (e & Ee & Hd). unfold encoded_param. rewrite Ee.
  assert (Hk' : decodeURIComponent k = Ok k) by (destruct (encodeURIComponent_roundtrip k Hw) as (k' & E & D); congruence).
  assert (Hclean : forall c, uri_unit c = false -> c <> 61 -> c ∉ k ++ 61 :: e).
  { intros c Hc Hne. rewrite elem_of_app, elem_of_cons. intros [H|[H|H]]; [|done|]; revert H; [by apply (encode_clean k)|by apply (encode_clean v)]. }
  exists (k ++ 61 :: e). split; [done|]. split; [|split; by apply Hclean].
  unfold decode_part. rewrite find_char_app, take_app_length, Hk' by by apply (encode_clean k). cbn [mbind res_bind].
  change (k ++ 61 :: e) with (k ++ [61] ++ e). rewrite app_assoc.
  replace (S (length k)) with (length (k ++ [61])) by (rewrite length_app; cbn; lia). by rewrite drop_app_length, Hd.
Qed.

Lemma encoded_params kvs : Forall (fun kv => plain_key kv.1 /\ wf_utf16 kv.2 = true) kvs ->
  exists ps, mapM_res (fun '(k, v) => encoded_param k v) kvs = Ok (cons 38 <$> ps) /\ mapM_res decode_part ps = Ok kvs /\
    Forall (fun p => 38 ∉ p) ps /\ 35 ∉ List.concat (cons 38 <$> ps).
Proof.
  induction 1 as [|[k v] kvs [Hk Hv] _ (ps & E & D & F & G)]; [exists []; by repeat split; try apply not_elem_of_nil|].
  destruct (encoded_param_decodes k v Hk Hv) as (p & Ep & Dp & Fp & Gp). exists (p :: ps). cbn [mapM_res].
  rewrite Ep, E, Dp, D. split; [done|]. split; [done|]. split; [by constructor|].
  cbn [fmap list_fmap List.concat]. rewrite elem_of_app, elem_of_cons. by intros [[?|?]|?].
Qed.

Lemma concat_join (x : jsstr) ps : x ++ List.concat (cons 38 <$> ps) = join [38] (x :: ps).
Proof.
  revert x. induction ps as [|p ps IH]; intros x; [by rewrite app_nil_r|]. rewrite join_cons, <- IH by done. done.
Qed.

(** Well-formed texts, and keys that need no encoding. *)
Definition page_ok (pg : page) (scopes : list jsval) (state : jsval) : Prop :=
  Forall (fun kv => plain_key kv.1 /\ wf_utf16 kv.2 = true) (login_pairs pg scopes state).

Lemma login_params_decode pg scopes state first kv : page_ok pg scopes state -> 38 ∉ first -> 35 ∉ first -> first <> [] -> decode_part first = Ok kv ->
  exists q, login_params pg scopes state = Ok q /\ decode_query (first ++ q) = Ok (kv :: login_pairs pg scopes state) /\ 35 ∉ first ++ q.
Proof.
  intros Hp Hf Hg Hne Hk. destruct (encoded_params _ Hp) as (ps & E & D & F & G). unfold login_params. rewrite E.
  eexists. split; [reflexivity|]. split; [|by rewrite elem_of_app; intros [?|?]].
  rewrite concat_join. unfold decode_query. rewrite bool_decide_eq_false_2.
  - rewrite split_join by (done || by constructor). cbn [mapM_res]. by rewrite Hk, D.
  - destruct first; [done|]. by destruct ps.
Qed.

(** C38. The address that an OAuth login with the flow implicit or accessCode
    opens carries the parameters of the login, when the authorization address
    of the scheme has no query and no fragment and the keys the page adds need
    no encoding: whoever takes the query out of the address and decodes it
    finds the response type of the flow, the redirect address, the realm, the
    client, the scopes (joined by the page's separator, with nothing in the
    place of one that is not checked), the name of the scheme as the state, and
    the parameters that the page adds, and nothing else. *)
Theorem login_address window_btoa pg m old flow u scopes t :
  attr m (js "type") = VStr (js "oauth2") -> attr m (js "flow") = VStr flow ->
  flow = js "implicit" \/ flow = js "accessCode" ->
  attr m (js "authorizationUrl") = VStr u -> 63 ∉ u -> 35 ∉ u ->
  checked_scopes (as_arr (attr m (js "scopes"))) = Ok scopes -> getTokenName (VObj (attributes m)) = Ok t ->
  page_ok pg scopes (attr m (js "title")) ->
  exists c address, handleOauth2Login window_btoa pg m old = Ok (c, OpenWindow address) /\
    before 63 address = u /\
    decode_query (address_query address) =
      Ok ((js "response_type", if bool_decide (flow = js "accessCode") then js "code" else js "token") ::
          login_pairs pg scopes (attr m (js "title"))) /\
    OAuthSchemeKey c = attr m (js "title") /\
    tokenUrl c = (if bool_decide (flow = js "accessCode") then attr m (js "tokenUrl") else VNull).
Proof.
  intros Ht Hf Hcase Hu Hnq Hnf Hs Htn Hp.
  set (first := js "response_type=" ++ (if bool_decide (flow = js "accessCode") then js "code" else js "token")).
  destruct (login_params_decode pg scopes (attr m (js "title")) first
    (js "response_type", if bool_decide (flow = js "accessCode") then js "code" else js "token") Hp) as (q & Eq & Dq & Hq).
  { unfold first. case_bool_decide; by apply (bool_decide_eq_false _). }
  { unfold first. case_bool_decide; by apply (bool_decide_eq_false _). }
  { done. }
  { unfold first. by case_bool_decide. }
  exists (OAuthContainer (attr m (js "title")) (js_orv t (vstr "access_token"))
    (if bool_decide (flow = js "accessCode") then attr m (js "tokenUrl") else VNull) (VArr scopes)), (u ++ js "?" ++ first ++ q).
  split; [|split; [|by rewrite address_query_of]].
  2: { unfold before. change (js "?" ++ first ++ q) with (63 :: first ++ q). by rewrite find_char_app, take_app_length. }
  unfold handleOauth2Login. rewrite Hs, Ht, Hf, Hu, Htn. cbn [mbind res_bind].
  destruct Hcase as [-> | ->].
  - change (eq_str (VStr (js "oauth2")) (js "oauth2")) with true. change (eq_str (VStr (js "implicit")) (js "implicit")) with true.
    cbn [andb orb mbind res_bind]. rewrite Eq. cbn [mbind res_bind].
    change (eq_str (VStr (js "implicit")) (js "accessCode")) with false. change (bool_decide (js "implicit" = js "accessCode")) with false.
    unfold first. cbn [to_str]. change (js "?response_type=") with (js "?" ++ js "response_type="). by rewrite <- !app_assoc.
  - change (eq_str (VStr (js "oauth2")) (js "oauth2")) with true. change (eq_str (VStr (js "accessCode")) (js "implicit")) with false.
    change (eq_str (VStr (js "accessCode")) (js "accessCode")) with true. cbn [andb orb mbind res_bind]. rewrite Eq. cbn [mbind res_bind].
    change (bool_decide (js "accessCode" = js "accessCode")) with true.
    unfold first. cbn [to_str]. change (js "?response_type=") with (js "?" ++ js "response_type="). by rewrite <- !app_assoc.
Qed.

(** ** From the form to the request and back

    The key properties of a form: its kind, scheme and title do not change. *)

Definition SCHEME_KEYS : list jsstr := [js "type"; js "title"; js "name"; js "in"; js "isLogout"].
Definition same_scheme (m m' : model) : Prop :=
  kind_of_model m = kind_of_model m' /\ Forall (fun k => attr m k = attr m' k) SCHEME_KEYS.
Lemma same_scheme_refl m : same_scheme m m.
Proof. split; [done|]. by repeat constructor. Qed.
Lemma same_scheme_trans m1 m2 m3 : same_scheme m1 m2 -> same_scheme m2 m3 -> same_scheme m1 m3.
Proof.
  intros [K1 H1] [K2 H2]. split; [congruence|]. rewrite Forall_forall in *. intros k Hk. by rewrite H1, H2.
Qed.
Lemma same_scheme_set k v m : k ∉ SCHEME_KEYS -> same_scheme m (set_quiet k v m).
Proof.
  intros Hk. split; [done|]. apply Forall_forall. intros k' Hk'. unfold attr. cbn [attributes set_quiet].
  rewrite get_put_ne; [done|]. by intros ->.
Qed.
Lemma same_scheme_validate m v m' : validate m = Ok (v, m') -> same_scheme m m'.
Proof.
  assert (Hv : js "valid" ∉ SCHEME_KEYS) by by apply (bool_decide_eq_false _).
  unfold validate. destruct (kind_of_model m); cbv zeta; [intros [= <- <-]; by apply same_scheme_set..| |done].
  destruct (oauth2_valid (attributes m)) as [[w|]|]; cbn; intros [= <- <-]; [by apply same_scheme_set|apply same_scheme_refl].
Qed.
Lemma same_scheme_attr k m m' : k ∈ SCHEME_KEYS -> same_scheme m m' -> attr m k = attr m' k.
Proof. intros Hk [_ H]. rewrite Forall_forall in H. by apply H. Qed.
Lemma put_again {A} k (v : A) o : put k v (put k v o) = put k v o.
Proof.
  induction o as [|[k' w] o IH]; cbn [put]; [by rewrite bool_decide_eq_true_2 by done|].
  destruct (bool_decide (k' = k)) eqn:E; cbn [put]; rewrite E; [done|by f_equal].
Qed.
(** Validating twice is validating once, so [change] fires twice at most. *)
Lemma validate_again m v m' : validate m = Ok (v, m') -> validate m' = Ok (v, m').
Proof.
  assert (Ho : forall w a, oauth2_valid (put (js "valid") w a) = oauth2_valid a)
    by (intros; unfold oauth2_valid; by rewrite !get_put_ne by by apply (bool_decide_eq_false _)).
  unfold validate. destruct (kind_of_model m) eqn:K; cbv zeta; [intros [= <- <-]..| |done].
  1-2: cbn [kind_of_model set_quiet]; rewrite K; unfold api_key_valid, basic_valid; cbn [attributes set_quiet];
    rewrite ?get_put_ne by (by apply (bool_decide_eq_false _)); unfold set_quiet; cbn [kind_of_model attributes];
    rewrite put_again; done.
  destruct (oauth2_valid (attributes m)) as [[w|]|] eqn:Ev; cbn; intros [= <- <-]; cbn [kind_of_model set_quiet]; rewrite K; cbn.
  - rewrite Ho, Ev. cbn. unfold set_quiet. cbn. by rewrite put_again.
  - by rewrite Ev.
Qed.

(** What the user types into a form. *)
Inductive typed_in (m : model) : model -> Prop :=
| typed_none : typed_in m m
| typed_key m1 m2 k text : typed_in m m1 -> k ∈ [js "value"; js "username"; js "password"] ->
    set_attr k (VStr text) m1 = Ok m2 -> typed_in m m2.
Lemma typed_in_scheme m m' : typed_in m m' -> same_scheme m m'.
Proof.
  induction 1 as [|m1 m2 k text _ IH Hk Hs]; [apply same_scheme_refl|]. apply (same_scheme_trans _ _ _ IH). clear IH.
  unfold set_attr in Hs. destruct (bool_decide _); [injection Hs as <-; apply same_scheme_refl|].
  assert (Hq : same_scheme m1 (set_quiet k (VStr text) m1)).
  { apply same_scheme_set. intros Hin.
    assert (Hd : Forall (fun k => k ∉ SCHEME_KEYS) [js "value"; js "username"; js "password"]) by by apply (bool_decide_eq_true _).
    rewrite Forall_forall in Hd. by apply (Hd k). }
  apply (same_scheme_trans _ _ _ Hq). cbv zeta in Hs.
  destruct (kind_of_model m1) eqn:K; [| | |injection Hs as <-; apply same_scheme_refl];
    (destruct (validate (set_quiet k (VStr text) m1)) as [[v mv]|] eqn:Ev; [|done]; cbn in Hs; injection Hs as <-; by eapply same_scheme_validate).
Qed.

(** ** Making a form *)

Lemma extend_get o fields k : k ∉ fields.*1 -> get (extend o fields) k = get o k.
Proof.
  revert o. induction fields as [|[k' v] fields IH]; intros o H; [done|]. apply not_elem_of_cons in H as [Hne H].
  unfold extend. cbn [foldl]. rewrite <- (get_put_ne k' k v o) by done. by apply IH.
Qed.
Lemma defaults_get k a key : is_undef (get a key) = false -> get (with_defaults k a) key = get a key.
Proof.
  unfold with_defaults. revert a. generalize (defaults_of k). induction l as [|[d v] l IH]; intros a H; [done|]. cbn [foldl].
  destruct (decide (d = key)) as [->|Hne]; [rewrite H; by apply IH|]. destruct (is_undef (get a d)); [|by apply IH].
  rewrite IH; by rewrite get_put_ne.
Qed.
Lemma defaults_new k a key : key ∉ (defaults_of k).*1 -> get (with_defaults k a) key = get a key.
Proof.
  unfold with_defaults. revert a. generalize (defaults_of k). induction l as [|[d v] l IH]; intros a H; [done|]. cbn [foldl].
  apply not_elem_of_cons in H as [Hne H]. rewrite IH by done. destruct (is_undef (get a d)); [by rewrite get_put_ne|done].
Qed.

(** A definition of an API key or of basic authorization. *)
Definition simple_def (entry : jsstr * jsval) : Prop :=
  exists o, entry.2 = VObj o /\ (get o (js "type") = VStr (js "apiKey") \/ get o (js "type") = VStr (js "basic")) /\
    get o (js "isLogout") = VUndef.
Definition is_kind (entry : jsstr * jsval) (m : model) : Prop :=
  attr m (js "title") = VStr entry.1 /\
  (attr m (js "type") = VStr (js "apiKey") /\ kind_of_model m = ApiKeyAuthModel \/
   attr m (js "type") = VStr (js "basic") /\ kind_of_model m = BasicAuthModel).

Lemma parse_one_simple table entry : simple_def entry ->
  exists m, (a ← parse_one table entry; handleOne a) = Ok m /\ is_kind entry m /\
    attr m (js "isLogout") = if has_key entry.1 table then VBool true else VUndef.
Proof.
  destruct entry as [name v]. intros (o & Ev & Ht & Hl). cbn in Ev. subst v. unfold parse_one.
  set (o1 := extend o [(js "title", VStr name)]).
  assert (Ht1 : get o1 (js "type") = get o (js "type")) by (apply extend_get; by apply (bool_decide_eq_false _)).
  assert (Hl1 : get o1 (js "isLogout") = VUndef) by (rewrite <- Hl; apply extend_get; by apply (bool_decide_eq_false _)).
  assert (Hn1 : get o1 (js "title") = VStr name) by apply get_put_eq.
  assert (H : exists a, match assoc name table with None => o1 | Some a0 => fill_form o1 a0 end = a /\
     get a (js "type") = get o (js "type") /\ get a (js "title") = VStr name /\
     get a (js "isLogout") = if has_key name table then VBool true else VUndef).
  { eexists. split; [reflexivity|]. unfold has_key. destruct (assoc name table) as [a0|]; [|by rewrite Ht1].
    unfold fill_form. destruct (auth_fields a0) as [[value username] password]. cbv zeta.
    rewrite !(extend_get o1) by by apply (bool_decide_eq_false _). split; [done|]. split; [done|].
    unfold extend. cbn [foldl]. rewrite !get_put_ne by by apply (bool_decide_eq_false _). apply get_put_eq. }
  destruct H as (a & -> & Ha & Hna & Hla). cbn [mbind res_bind]. unfold handleOne. rewrite Ha.
  destruct Ht as [Ht|Ht]; rewrite Ht in Ha |- *.
  - exists (Model ApiKeyAuthModel (with_defaults ApiKeyAuthModel a)). split; [done|]. unfold is_kind, attr. cbn [attributes kind_of_model fst].
    rewrite (defaults_get _ _ (js "title")), (defaults_get _ _ (js "type")) by (by rewrite ?Hna, ?Ha).
    rewrite defaults_new by by apply (bool_decide_eq_false _). rewrite Ha, Hna, Hla. auto.
  - exists (Model BasicAuthModel (with_defaults BasicAuthModel a)). split; [done|]. unfold is_kind, attr. cbn [attributes kind_of_model fst].
    rewrite (defaults_get _ _ (js "title")), (defaults_get _ _ (js "type")) by (by rewrite ?Hna, ?Ha).
    rewrite defaults_new by by apply (bool_decide_eq_false _). rewrite Ha, Hna, Hla. auto.
Qed.

(** The authorization that a form stands for. *)
Definition authorized_as (m : model) : auth :=
  let text k := to_str (attr m (js k)) in
  if eq_str (attr m (js "type")) (js "apiKey")
  then ApiKeyAuthorization (text "name"%string) (text "value"%string) (text "in"%string)
  else PasswordAuthorization (text "username"%string) (text "password"%string).

Lemma collection_simple t data : Forall simple_def data ->
  exists ms, collection t data = Ok ms /\
    Forall2 (fun e m => is_kind e m /\ attr m (js "isLogout") = if has_key e.1 (default [] t) then VBool true else VUndef) (for_in data) ms.
Proof.
  intros H. assert (Hd : Forall simple_def (for_in data)) by by rewrite for_in_perm. clear H. unfold collection.
  induction Hd as [|e l He _ (ms & E & F)]; [by exists []|]. destruct (parse_one_simple (default [] t) e He) as (m & Em & Hk & Hl).
  exists (m :: ms). cbn [mapM_res]. rewrite Em. cbn [mbind res_bind]. rewrite E. split; [done|]. by constructor.
Qed.

Lemma is_kind_scheme e m m' : same_scheme m m' -> is_kind e m -> is_kind e m'.
Proof.
  intros Hs [Ht Hk]. assert (Hin : js "title" ∈ SCHEME_KEYS /\ js "type" ∈ SCHEME_KEYS) by (split; by apply (bool_decide_eq_true _)).
  unfold is_kind. rewrite <- !(same_scheme_attr _ m m') by (done || by apply Hin). destruct Hs as [K _]. by rewrite <- K.
Qed.
Lemma validate_attr m v m' k : k <> js "valid" -> validate m = Ok (v, m') -> attr m' k = attr m k.
Proof.
  intros Hk. assert (Hs : forall b, attr (set_quiet (js "valid") b m) k = attr m k) by (intros; by apply get_put_ne).
  unfold validate. destruct (kind_of_model m); cbv zeta; [intros [= <- <-]; apply Hs..| |done].
  destruct (oauth2_valid (attributes m)) as [[w|]|]; cbn; intros [= <- <-]; [apply Hs|done].
Qed.
Lemma isValid_attr ms : forall v ms', isValid ms = Ok (v, ms') ->
  Forall2 (fun m m' => same_scheme m m' /\ forall k, k <> js "valid" -> attr m' k = attr m k) ms ms'.
Proof.
  induction ms as [|m ms IH]; intros v ms' H; cbn in H; [by injection H as <- <-|].
  apply bind_ok in H as ([v1 m1] & Hm & H). apply bind_ok in H as ([v2 ms2] & Hms & [= <- <-]). constructor; [|by eapply IH].
  split; [by eapply same_scheme_validate|]. intros k Hk. by eapply validate_attr.
Qed.
Lemma authorized_as_valid m m' : same_scheme m m' -> (forall k, k <> js "valid" -> attr m' k = attr m k) -> authorized_as m' = authorized_as m.
Proof. intros _ H. unfold authorized_as. by rewrite !H by by apply (bool_decide_eq_false _). Qed.

(** The table after authorizing. *)
Lemma authorize_table window_btoa pg es ms st : Forall2 is_kind es ms ->
  authorize window_btoa pg ms st =
    Ok (Session (foldl (fun t em => put em.1 em.2 t) (s_table st) (zip es.*1 (authorized_as <$> ms))) (s_container st) (s_logins st)).
Proof.
  intros H. revert st. induction H as [|e m es ms [Ht Hk] _ IH]; intros st; [by destruct st|]. unfold authorize. cbn [foldM_res].
  assert (E : authorize_one window_btoa pg st m = Ok (Session (put e.1 (authorized_as m) (s_table st)) (s_container st) (s_logins st))).
  { unfold authorize_one, authorized_as, add. rewrite Ht. by destruct Hk as [[-> _]|[-> _]]. }
  rewrite E. cbn [mbind res_bind]. exact (IH (Session _ _ _)).
Qed.
Lemma assoc_foldl_put {A} (l : list (jsstr * A)) t k :
  NoDup l.*1 -> assoc k (foldl (fun t e => put e.1 e.2 t) t l) = match assoc k l with Some v => Some v | None => assoc k t end.
Proof.
  revert t. induction l as [|[k' v] l IH]; intros t H; [done|]. apply NoDup_cons in H as [Hn H]. cbn [foldl assoc fst snd].
  rewrite IH by done. destruct (decide (k' = k)) as [->|Hne].
  - rewrite bool_decide_eq_true_2 by done. by rewrite (proj2 (assoc_none k l)), assoc_put_eq.
  - rewrite bool_decide_eq_false_2 by done. by rewrite assoc_put_ne.
Qed.
Lemma assoc_foldl_remove {A B} (f : B -> jsstr) (ms : list B) k : forall (t : list (jsstr * A)),
  assoc k (foldl (fun t m => remove (f m) t) t ms) = if bool_decide (k ∈ f <$> ms) then None else assoc k t.
Proof.
  induction ms as [|m ms IH]; intros t; [done|]. cbn [foldl]. rewrite IH. change (f <$> m :: ms) with (f m :: (f <$> ms)).
  destruct (bool_decide_reflect (k ∈ f <$> ms)) as [Hin|Hin].
  - by rewrite bool_decide_eq_true_2 by by right.
  - destruct (decide (f m = k)) as [<-|Hne]; [rewrite bool_decide_eq_true_2 by (by left); apply assoc_remove_eq|].
    rewrite bool_decide_eq_false_2; [by apply assoc_remove_ne|]. by intros [?|?]%elem_of_cons.
Qed.
Lemma zip_keys {A} (es : list (jsstr * jsval)) (l : list A) : length es = length l -> (zip es.*1 l).*1 = es.*1.
Proof. intros H. apply fst_zip. rewrite length_fmap. lia. Qed.

Lemma isAuthorized_all ms : Forall (fun m => logged_out m = true) ms -> isAuthorized ms = true.
Proof.
  intros H. apply bool_decide_eq_true. induction H as [|m l Hm _ IH]; [done|]. cbn [List.filter length]. rewrite Hm. cbn [length]. by f_equal.
Qed.
Lemma isPartiallyAuthorized_none ms : Forall (fun m => logged_out m = false) ms -> isPartiallyAuthorized ms = false.
Proof. intros H. apply bool_decide_eq_false. induction H as [|m l Hm _ IH]; cbn; [lia|]. by rewrite Hm. Qed.
(** Whether the forms show the schemes as authorized depends on the table. *)
Lemma forms_shown b (table : authz) es ms :
  Forall2 (fun e m => is_kind e m /\ attr m (js "isLogout") = if has_key e.1 table then VBool true else VUndef) es ms ->
  Forall (fun e => has_key e.1 table = b) es -> Forall (fun m => logged_out m = b) ms.
Proof.
  induction 1 as [|e m es l [_ Hl] _ IH]; intros Hh; [constructor|]. apply Forall_cons in Hh as [He Hh]. rewrite He in Hl.
  constructor; [unfold logged_out; rewrite Hl; by destruct b|by apply IH].
Qed.

(** Authorizing with valid forms for API keys and basic authorization stores for
    every scheme what its form says, and nothing else; forms that are made
    afterwards show all schemes as authorized, and after logging out none. *)
Theorem forms_authorize window_btoa pg data t ms0 ms ms' st :
  NoDup data.*1 -> Forall simple_def data -> collection t data = Ok ms0 -> Forall2 typed_in ms0 ms -> isValid ms = Ok (true, ms') ->
  exists st', authorizeClick window_btoa pg ms st = Ok (inl st') /\
    Forall2 (fun e m => assoc e.1 (s_table st') = Some (authorized_as m)) (for_in data) ms /\
    (forall name, name ∉ data.*1 -> assoc name (s_table st') = assoc name (s_table st)) /\
    (exists ms2, collection (Some (s_table st')) data = Ok ms2 /\ isAuthorized ms2 = true) /\
    (exists ms3, collection (Some (logout ms (s_table st'))) data = Ok ms3 /\ isPartiallyAuthorized ms3 = false).
Proof.
  intros Hd Hs Hc Ht Hv. destruct (collection_simple t data Hs) as (ms0' & Hc' & Hk). rewrite Hc in Hc'. injection Hc' as <-.
  assert (Hkm : Forall2 is_kind (for_in data) ms).
  { clear -Ht Hk. revert ms Ht. induction Hk as [|e m es l [Hk _] _ IH]; intros ms Ht; inversion Ht; subst; constructor; [|by apply IH].
    by eapply is_kind_scheme; [eapply typed_in_scheme|]. }
  pose proof (isValid_attr _ _ _ Hv) as Ha.
  assert (Hk' : Forall2 is_kind (for_in data) ms').
  { clear -Ha Hkm. revert ms' Ha. induction Hkm as [|e m es l Hk _ IH]; intros ms' Ha; inversion Ha; subst; constructor; [|by apply IH].
    by eapply is_kind_scheme; [apply H1|]. }
  assert (Hau : authorized_as <$> ms' = authorized_as <$> ms).
  { clear -Ha. induction Ha as [|m m' l l' [H1 H2] _ IH]; [done|]. change (authorized_as <$> m' :: l') with (authorized_as m' :: (authorized_as <$> l')).
    by rewrite IH, (authorized_as_valid m m'). }
  pose proof (Forall2_length _ _ _ Hkm) as Hlen.
  assert (Hnd : NoDup (for_in data).*1) by by rewrite for_in_perm.
  set (tab := foldl (fun t e => put e.1 e.2 t) (s_table st) (zip (for_in data).*1 (authorized_as <$> ms))).
  assert (Htab : forall k, assoc k tab = match assoc k (zip (for_in data).*1 (authorized_as <$> ms)) with Some v => Some v | None => assoc k (s_table st) end).
  { intros k. apply assoc_foldl_put. by rewrite zip_keys by by rewrite length_fmap. }
  assert (Hst : authorize window_btoa pg ms' st = Ok (Session tab (s_container st) (s_logins st))) by (by rewrite (authorize_table _ _ _ _ _ Hk'), Hau).
  clearbody tab. assert (Hzip : Forall2 (fun e m => assoc e.1 (zip (for_in data).*1 (authorized_as <$> ms)) = Some (authorized_as m)) (for_in data) ms).
  { apply Forall2_same_length_lookup_2; [done|]. intros i e m He Hm. apply assoc_in_nodup; [by rewrite zip_keys by by rewrite length_fmap|].
    apply list_elem_of_lookup. exists i. rewrite lookup_zip_with, !list_lookup_fmap, He, Hm. done. }
  exists (Session tab (s_container st) (s_logins st)). unfold authorizeClick. rewrite Hv. cbn [mbind res_bind].
  rewrite Hst. split; [done|]. cbn [s_table]. split; [|split; [|split]].
  - eapply Forall2_impl; [exact Hzip|]. intros e m E. by rewrite Htab, E.
  - intros name Hn. rewrite Htab. rewrite (proj2 (assoc_none _ _)); [done|]. rewrite zip_keys by by rewrite length_fmap. by rewrite for_in_perm.
  - destruct (collection_simple (Some tab) data Hs) as (ms2 & E2 & F2). exists ms2. split; [done|]. apply isAuthorized_all.
    apply (forms_shown true _ _ _ F2), Forall_forall. intros e He. apply list_elem_of_lookup in He as [i He].
    destruct (Forall2_lookup_l _ _ _ _ _ Hzip He) as (m & _ & E). unfold has_key. cbn [default]. change (default [] (Some tab)) with tab. by rewrite Htab, E.
  - destruct (collection_simple (Some (logout ms tab)) data Hs) as (ms3 & E3 & F3). exists ms3. split; [done|]. apply isPartiallyAuthorized_none.
    apply (forms_shown false _ _ _ F3), Forall_forall. intros e He. change (default [] (Some (logout ms tab))) with (logout ms tab).
    unfold has_key, logout, remove_auth, authz. rewrite (assoc_foldl_remove (A:=auth) (fun m => to_str (attr m (js "title")))).
    rewrite bool_decide_eq_true_2; [done|]. apply list_elem_of_lookup in He as [i He].
    destruct (Forall2_lookup_l _ _ _ _ _ Hkm He) as (m & Hm & [Htm _]). apply list_elem_of_fmap. exists m.
    split; [by rewrite Htm|by eapply list_elem_of_lookup_2].
Qed.

Definition demo_page : page := Page (js "http:") (js "h") (js "/ui/index.html") VUndef (vstr "r") (vstr "c 1") (vstr " ") [(js "nonce", vstr "7")].
Definition demo_scope (k : String.string) (checked : jsval) : jsval :=
  VObj [(js "scope", VStr (js k)); (js "description", vstr "d"); (js "checked", checked)].
Definition demo_oauth (flow : String.string) (scopes : list jsval) : model :=
  Model Oauth2Model [(js "type", vstr "oauth2"); (js "flow", vstr flow); (js "authorizationUrl", vstr "http://a/login");
    (js "scopes", VArr scopes); (js "vendorExtensions", VObj []); (js "title", vstr "auth")].
Definition no_container : oauth_container := OAuthContainer VUndef VUndef VUndef VUndef.

Lemma login_address_witness :
  exists c address, handleOauth2Login Ok demo_page (demo_oauth "implicit" [demo_scope "read" (VBool true)]) no_container =
      Ok (c, OpenWindow address) /\
    before 63 address = js "http://a/login" /\
    decode_query (address_query address) = Ok ((js "response_type", js "token") :: login_pairs demo_page [vstr "read"] (vstr "auth")) /\
    OAuthSchemeKey c = vstr "auth" /\ tokenUrl c = VNull.
Proof.
  apply (login_address Ok demo_page (demo_oauth "implicit" [demo_scope "read" (VBool true)]) no_container (js "implicit") (js "http://a/login")
    [vstr "read"] VUndef); try reflexivity; [by left|by apply (bool_decide_eq_false _)|by apply (bool_decide_eq_false _)|].
  unfold page_ok. repeat (apply Forall_cons; split; [by repeat split|]). by apply Forall_nil.
Defined.
(** An authorization address with a query of its own gets a second question
    mark: there is no response type, it is in the value of that query. *)
Example login_with_query :
  match handleOauth2Login Ok demo_page (Model Oauth2Model (put (js "authorizationUrl") (vstr "http://a/login?tenant=1")
      (attributes (demo_oauth "implicit" [demo_scope "read" (VBool true)])))) no_container with
  | Ok (_, OpenWindow address) =>
      decode_query (address_query address) =
        Ok ((js "tenant", js "1?response_type=token") :: login_pairs demo_page [vstr "read"] (vstr "auth"))
  | _ => False
  end.
Proof. by vm_compute. Qed.

Definition demo_defs : obj := [(js "key", VObj [(js "type", vstr "apiKey"); (js "name", vstr "X-Key"); (js "in", vstr "header")])].
Definition demo_form : model :=
  Model ApiKeyAuthModel [(js "type", vstr "apiKey"); (js "name", vstr "X-Key"); (js "in", vstr "header"); (js "title", vstr "key"); (js "value", VStr [])].
Lemma forms_authorize_witness :
  let ms := [Model ApiKeyAuthModel (put (js "valid") (VBool true) (put (js "value") (vstr "s3cret") (attributes demo_form)))] in
  exists st', authorizeClick Ok demo_page ms (Session [] no_container []) = Ok (inl st') /\
    Forall2 (fun e m => assoc e.1 (s_table st') = Some (authorized_as m)) (for_in demo_defs) ms /\
    (forall name, name ∉ demo_defs.*1 -> assoc name (s_table st') = None) /\
    (exists ms2, collection (Some (s_table st')) demo_defs = Ok ms2 /\ isAuthorized ms2 = true) /\
    (exists ms3, collection (Some (logout ms (s_table st'))) demo_defs = Ok ms3 /\ isPartiallyAuthorized ms3 = false).
Proof.
  intros ms. apply (forms_authorize Ok demo_page demo_defs None [demo_form] ms ms (Session [] no_container [])).
  - apply NoDup_singleton.
  - apply Forall_singleton. eexists. split; [reflexivity|]. split; [by left|reflexivity].
  - reflexivity.
  - apply Forall2_cons. split; [|by apply Forall2_nil]. eapply (typed_key _ demo_form _ (js "value") (js "s3cret")); [apply typed_none|by left|reflexivity].
  - reflexivity.
Defined.

(** A client id is never required: the way of authenticating is looked up among
    the indices of a list. *)
Example client_id_not_required :
  validate (Model Oauth2Model [(js "clientAuthenticationType", vstr "basic"); (js "scopes", VArr [])]) =
  Ok (true, Model Oauth2Model [(js "clientAuthenticationType", vstr "basic"); (js "scopes", VArr []); (js "valid", VBool true)]).
Proof. reflexivity. Qed.
(** Scopes that are not checked leave separators behind. *)
Example unchecked_scopes_sent :
  accessTokenRequest Ok [VUndef; vstr "write"; VUndef] [] (js "password") [] =
  Ok (TokenRequest VUndef [(js "scope", vstr " write "); (js "grant_type", vstr "password")] []).
Proof. reflexivity. Qed.
(** Of two basic authorizations only one has a form, so they are never all valid. *)
Example one_basic_form :
  length (render_auths [Model BasicAuthModel [(js "type", vstr "basic")]; Model BasicAuthModel [(js "type", vstr "basic")]]) = 1%nat.
Proof. reflexivity. Qed.
(** A flow that is not known opens an address that starts with null. *)
Example unknown_flow :
  exists c q, handleOauth2Login Ok demo_page (demo_oauth "device" []) no_container = Ok (c, OpenWindow (js "null&redirect_uri=http" ++ q)).
Proof. eexists _, _. vm_compute. reflexivity. Qed.
