(* ===== verification/Client.v ===== *)
(** * The client

    [lib/client] of swagger-ui.js: choosing the scheme and host, the ids of
    operations, and the groups of operations by tag that [buildFromSpec]
    makes.  Operation objects are shared by the groups of their tags, so they
    are numbers into a store of nicknames; groups are numbers too, shared by
    the client and its [apis]. *)

From Stdlib Require Import String.
From S2P Require Import Prelude JsNumber JsString JsValue Names.

(** ** Scheme and host *)

Definition strip_colon (protocol : jsstr) : jsstr := replace_first protocol (js ":") [].

(** The scheme of the client, from the page's protocol (if there is a window),
    its own scheme and schemes, and that of the document's URL. *)
Definition page_scheme (window schemes_https : jsstr) (schemes : list jsstr) : jsstr :=
  let scheme := strip_colon window in
  if bool_decide (scheme = schemes_https) && negb (bool_decide (scheme ∈ schemes)) then js "http"
  else if bool_decide (scheme ∈ schemes) then scheme
  else if bool_decide (js "https" ∈ schemes) then js "https" else js "http".

Definition select_scheme (window scheme : option jsstr) (schemes : list jsstr) (location : option jsstr) : option jsstr :=
  match schemes with
  | [] =>
      match window with
      | Some protocol => Some (strip_colon protocol)
      | None => match location with Some ((_ :: _) as s) => Some s | _ => Some (js "http") end
      end
  | s0 :: _ =>
      match window with
      | Some protocol =>
          if startsWith protocol (js "chrome-extension") then location
          else match scheme with
               | Some s => Some s
               | None => Some (page_scheme protocol (js "https") schemes)
               end
      | None =>
          match scheme with
          | Some s => Some s
          | None => match s0 with [] => location | _ => Some s0 end
          end
      end
  end.

(** Without a URL. *)
Definition select_scheme_no_url (scheme : option jsstr) (schemes : list jsstr) : option jsstr :=
  match schemes with
  | [] => Some (js "http")
  | s0 :: _ => match scheme with Some s => Some s | None => Some s0 end
  end.

(** The document's host, or that of its URL. *)
Definition select_host (host : jsstr) (location_host location_port : option jsstr) : jsval :=
  match host with
  | [] =>
      match location_port with
      | Some ((_ :: _) as port) =>
          VStr (match location_host with Some h => h | None => js "undefined" end ++ js ":" ++ port)
      | _ => match location_host with Some h => VStr h | None => VUndef end
      end
  | _ => VStr host
  end.

(** ** Operation ids *)

(** The characters replaced by underscores. *)
Definition special_units : jsstr := js "!@#$%^&*()_+=[{]};:<>|./?,\'-" ++ [34].
Definition is_special (c : Z) : bool := is_space c || bool_decide (c ∈ special_units).
Definition UNDERSCORE := chr "_".

(** A run of two or more underscores becomes one. *)
Fixpoint collapse (s : jsstr) : jsstr :=
  match s with
  | [] => []
  | c :: s' =>
      let r := collapse s' in
      if (c =? UNDERSCORE) && (match r with d :: _ => d =? UNDERSCORE | [] => false end) then r else c :: r
  end.
Fixpoint strip_leading (s : jsstr) : jsstr :=
  match s with c :: s' => if c =? UNDERSCORE then strip_leading s' else s | [] => [] end.
Definition strip_trailing (s : jsstr) : jsstr := rev (strip_leading (rev s)).

(** [idFromOp]. *)
Definition idFromOp (path httpMethod : jsstr) (op : obj) : res jsstr :=
  let id := get op (js "operationId") in
  operationId ← (if truthy id then as_str id else Ok (httpMethod ++ js "_" ++ path));
  let opId := (fun c => if is_special c then UNDERSCORE else c) <$> operationId in
  let opId := match opId with [] => substring_from path 1 ++ js "_" ++ httpMethod | _ => opId end in
  Ok (strip_trailing (strip_leading (collapse opId))).

(** ** Groups *)

(** A group of operations: the numbers of the operation objects by id. *)
Record group := Group {
  label : jsstr;
  operations : list (jsstr * nat)
}.

(** An element of [apisArray] (an [OperationGroup]). *)
Record api_entry := ApiEntry {
  tag : jsval;
  operationsArray : list nat
}.

(** The client while it is built.  [others] are the properties of the client
    that are defined and are not groups. *)
Record client := Client {
  others : list jsstr;
  own_groups : list (jsstr * nat);
  apis : list (jsstr * nat);
  groups : list group;
  nicknames : list jsval;
  apisArray : list api_entry
}.

Definition reservedClientTags : list jsstr :=
  [js "apis"; js "authorizationScheme"; js "authorizations"; js "basePath"; js "build"; js "buildFrom1_1Spec";
   js "buildFrom1_2Spec"; js "buildFromSpec"; js "clientAuthorizations"; js "convertInfo"; js "debug";
   js "defaultErrorCallback"; js "defaultSuccessCallback"; js "enableCookies"; js "fail"; js "failure"; js "finish";
   js "help"; js "host"; js "idFromOp"; js "info"; js "initialize"; js "isBuilt"; js "isValid";
   js "modelPropertyMacro"; js "models"; js "modelsArray"; js "options"; js "parameterMacro"; js "parseUri";
   js "progress"; js "resourceCount"; js "sampleModels"; js "selfReflect"; js "setConsolidatedModels"; js "spec";
   js "supportedSubmitMethods"; js "swaggerRequestHeaders"; js "tagFromLabel"; js "title"; js "url"; js "useJQuery";
   js "jqueryAjaxCache"].
Definition reservedApiTags : list jsstr :=
  [js "apis"; js "asCurl"; js "description"; js "externalDocs"; js "help"; js "label"; js "name"; js "operation";
   js "operations"; js "operationsArray"; js "path"; js "tag"].
Definition supportedOperationMethods : list jsstr :=
  [js "delete"; js "get"; js "head"; js "options"; js "patch"; js "post"; js "put"].

(** The property of a tag: prefixed when it is reserved. *)
Definition reserved_name (reserved : list jsstr) (tag : jsval) : jsstr :=
  match tag with
  | VStr s => if bool_decide (s ∈ reserved) then js "_" ++ s else s
  | v => to_str v
  end.

(** The nickname of an operation object. *)
Definition nickname (c : client) (n : nat) : jsval := default VUndef (nicknames c !! n).
Definition set_nickname (n : nat) (id : jsstr) (c : client) : client :=
  Client (others c) (own_groups c) (apis c) (groups c) (<[n := VStr id]> (nicknames c)) (apisArray c).

(** [makeUniqueOperationId]: against the nicknames of the group. *)
Definition makeUniqueOperationId (c : client) (operationId : jsstr) (api : group) : res jsstr :=
  fresh (length (operations api))
    (fun name => List.existsb (fun kn => eq_str (nickname c kn.2) name) (operations api)) operationId.

(** The group of a tag, made when the client has no such property yet. *)
Definition tag_group (tag : jsval) (c : client) : res (nat * client) :=
  let clientProperty := reserved_name reservedClientTags tag in
  let apiProperty := reserved_name reservedApiTags tag in
  if bool_decide (clientProperty ∈ others c) then Throw TypeError
  else match assoc clientProperty (own_groups c) with
       | Some g => Ok (g, c)
       | None =>
           let g := length (groups c) in
           Ok (g, Client (others c) (put clientProperty g (own_groups c)) (put apiProperty g (apis c))
                    (groups c ++ [Group apiProperty []]) (nicknames c) (apisArray c ++ [ApiEntry tag []]))
       end.

(** Adding an operation to a group, and to the first element of [apisArray]
    with the tag. *)
Definition add_operation (g : nat) (id : jsstr) (n : nat) (c : client) : client :=
  Client (others c) (own_groups c) (apis c)
    (alter (fun gr => Group (label gr) (put id n (operations gr))) g (groups c)) (nicknames c) (apisArray c).
Fixpoint push_to (t : jsval) (n : nat) (l : list api_entry) : list api_entry :=
  match l with
  | [] => []
  | e :: l' => if strict_eq (tag e) t then ApiEntry (tag e) (operationsArray e ++ [n]) :: l' else e :: push_to t n l'
  end.

(** A turn of the loop over the tags of an operation; the id carries over. *)
Definition register_tag (n : nat) (st : client * jsstr) (t : jsval) : res (client * jsstr) :=
  let '(c, operationId) := st in
  let apiProperty := reserved_name reservedApiTags t in
  let '(c, operationId) :=
    if bool_decide (operationId ∈ reservedApiTags)
    then (set_nickname n (js "_" ++ operationId) c, js "_" ++ operationId) else (c, operationId) in
  '(g, c) ← tag_group t c;
  match assoc apiProperty (apis c) ≫= fun a => groups c !! a with
  | None => Throw TypeError
  | Some api =>
      operationId ← makeUniqueOperationId c operationId api;
      let c := add_operation g operationId n c in
      Ok (Client (others c) (own_groups c) (apis c) (groups c) (nicknames c) (push_to t n (apisArray c)), operationId)
  end.

Definition operation_tags (operation : obj) : list jsval :=
  match get operation (js "tags") with VArr ((_ :: _) as tags) => tags | _ => [vstr "default"] end.

(** An operation: its object with the nickname, then its tags. *)
Definition register_operation (c : client) (pmo : jsstr * jsstr * obj) : res client :=
  let '(path, method, operation) := pmo in
  operationId ← idFromOp path method operation;
  let nick := match operationId with [] => vint 1 | _ => VStr operationId end in
  let c := Client (others c) (own_groups c) (apis c) (groups c) (nicknames c ++ [nick]) (apisArray c) in
  '(c, _) ← foldM_res (register_tag (length (nicknames c) - 1)) (c, operationId) (operation_tags operation);
  Ok c.

(** The operations of a document in the order of the loops. *)
Definition operations_of (paths : jsval) : list (jsstr * jsstr * obj) :=
  List.flat_map (fun '(path, pathObj) =>
    match pathObj with
    | VObj p => List.flat_map (fun method => match get p method with
                                             | VObj operation => [(path, method, operation)]
                                             | _ => [] end) supportedOperationMethods
    | _ => []
    end) (for_in_val paths).

(** Sorting [apisArray] by the defined tags. *)
Definition named (t : jsstr) (e : api_entry) : bool := eq_str (tag e) t.
Definition sort_apis (tags : list jsstr) (l : list api_entry) : list api_entry :=
  let '(sortedApis, rest) := foldl (fun '(sorted, rest) t =>
      (sorted ++ filter (fun e => named t e = true) rest, filter (fun e => named t e = false) rest)) ([], l) tags in
  sortedApis ++ rest.

(** The names of the document's tags, as keys of [definedTags]. *)
Definition definedTags (tags : jsval) : res (list jsstr) :=
  d ← foldM_res (fun d t => name ← prop t (js "name"); Ok (put (to_str name) tt d)) [] (as_arr tags);
  Ok ((for_in d).*1).

(** The groups of [buildFromSpec]. *)
Definition build_groups (properties : list jsstr) (response : jsval) : res client :=
  tags ← prop response (js "tags");
  defined ← definedTags tags;
  paths ← prop response (js "paths");
  c ← foldM_res register_operation (Client properties [] [] [] [] []) (operations_of paths);
  Ok (Client (others c) (own_groups c) (apis c) (groups c) (nicknames c) (sort_apis defined (apisArray c))).

(** ** Operation ids are clean *)

Definition clean_id (id : jsstr) : Prop :=
  Forall (fun c => is_special c = true -> c = UNDERSCORE) id /\
  (forall a b, id <> a ++ [UNDERSCORE; UNDERSCORE] ++ b) /\
  List.head id <> Some UNDERSCORE /\ last id <> Some UNDERSCORE.

Definition no_double (s : jsstr) : Prop := forall a b, s <> a ++ [UNDERSCORE; UNDERSCORE] ++ b.

Lemma collapse_subset s c : c ∈ collapse s -> c ∈ s.
Proof.
  induction s as [|d s IH]; [done|]. cbn [collapse]. cbv zeta.
  destruct ((d =? UNDERSCORE) && _); [by right; auto|].
  intros [->|H]%elem_of_cons; [by left|right; auto].
Qed.

Lemma collapse_no_double s : no_double (collapse s).
Proof.
  induction s as [|c s IH]; cbn [collapse]; [by intros [|? [|? ?]] b|]. cbv zeta.
  destruct ((c =? UNDERSCORE) && _) eqn:E; [done|]. intros [|x a] b Heq; cbn in Heq.
  - injection Heq as -> Hr. rewrite Hr in E. by vm_compute in E.
  - injection Heq as _ Hr. by apply (IH a b).
Qed.

Lemma strip_leading_suffix s : exists p, s = p ++ strip_leading s.
Proof.
  induction s as [|c s [p IH]]; [by exists []|]. cbn [strip_leading]. destruct (c =? UNDERSCORE).
  - exists (c :: p). cbn. by rewrite <- IH.
  - by exists [].
Qed.
Lemma strip_leading_head s : List.head (strip_leading s) <> Some UNDERSCORE.
Proof.
  induction s as [|c s IH]; [done|]. cbn [strip_leading]. destruct (Z.eqb_spec c UNDERSCORE); [done|].
  cbn. by intros [= ->].
Qed.

Lemma strip_trailing_prefix s : exists q, s = strip_trailing s ++ q.
Proof.
  destruct (strip_leading_suffix (rev s)) as [p Hp]. exists (rev p). unfold strip_trailing.
  rewrite <- rev_app_distr, <- Hp. by rewrite rev_involutive.
Qed.

Lemma last_rev_head (s : jsstr) : last (rev s) = List.head s.
Proof. destruct s as [|x s]; [done|]. cbn. by rewrite last_snoc. Qed.

Lemma operation_id_nonempty id path httpMethod oid :
  (if truthy id then as_str id else Ok (httpMethod ++ js "_" ++ path)) = Ok oid -> oid <> [].
Proof.
  destruct (truthy id) eqn:E.
  - destruct id as [| | | |s| | |]; try done. intros [= <-] ->. done.
  - intros [= <-]. by destruct httpMethod.
Qed.

Lemma clean_infix (p s q : jsstr) : no_double (p ++ s ++ q) -> no_double s.
Proof. intros H a b ->. apply (H (p ++ a) (b ++ q)). by rewrite <- !app_assoc. Qed.

(** An operation id has no character of the replaced ones except single
    underscores, and no underscore at either end, whatever the path, method
    and operationId it is made from. *)
Theorem idFromOp_clean path httpMethod op id : idFromOp path httpMethod op = Ok id -> clean_id id.
Proof.
  intros H. unfold idFromOp in H. apply bind_ok in H as (oid & E & H). cbv zeta in H.
  match type of H with Ok ?x = _ => assert (Hid : x = id) by congruence end. subst id. clear H.
  apply operation_id_nonempty in E. set (m := (fun c => if is_special c then UNDERSCORE else c) <$> oid).
  assert (Em : match m with [] => substring_from path 1 ++ js "_" ++ httpMethod | _ => m end = m).
  { unfold m. by destruct oid. }
  rewrite Em. clear Em.
  assert (Hm : forall c, c ∈ m -> is_special c = true -> c = UNDERSCORE).
  { intros c (d & -> & _)%list_elem_of_fmap. cbn. destruct (is_special d) eqn:Ed; [done|]. by rewrite Ed. }
  destruct (strip_leading_suffix (collapse m)) as [p Hp].
  destruct (strip_trailing_prefix (strip_leading (collapse m))) as [q Hq].
  set (r := strip_trailing (strip_leading (collapse m))) in *.
  repeat split.
  - apply Forall_forall. intros c Hc. apply Hm, collapse_subset. rewrite Hp, Hq, !elem_of_app. auto.
  - apply (clean_infix p r q). rewrite <- Hq, <- Hp. apply collapse_no_double.
  - pose proof (strip_leading_head (collapse m)) as Hh. rewrite Hq in Hh. by destruct r.
  - unfold r, strip_trailing. rewrite last_rev_head. apply strip_leading_head.
Qed.

Lemma idFromOp_clean_witness : clean_id (js "get_pets_petId").
Proof. exact (idFromOp_clean (js "/pets/{petId}") (js "get") [] _ ltac:(vm_compute; reflexivity)). Defined.

(** ** Unique ids *)

(** Every operation of the group is there under its nickname. *)
Definition keyed (c : client) (g : group) : Prop := Forall (fun kn => nickname c kn.2 = VStr kn.1) (operations g).

Lemma eq_str_true v s : eq_str v s = true <-> v = VStr s.
Proof.
  destruct v; cbn; try done. rewrite bool_decide_eq_true. split; [by intros ->|by intros [= ->]].
Qed.

Lemma nickname_taken c g name :
  List.existsb (fun kn => eq_str (nickname c kn.2) name) (operations g) = true <->
  exists kn, kn ∈ operations g /\ nickname c kn.2 = VStr name.
Proof.
  rewrite existsb_exists. split; intros (kn & H1 & H2); exists kn.
  - by rewrite list_elem_of_In, <- eq_str_true.
  - by rewrite <- list_elem_of_In, eq_str_true.
Qed.

(** [makeUniqueOperationId] comes to an end for every group.  An id that
    is nobody's nickname is kept, and in a group whose operations are
    registered under their nicknames the result is a new key: nothing is
    overwritten. *)
Theorem makeUniqueOperationId_new c operationId g :
  exists id, makeUniqueOperationId c operationId g = Ok id /\
    ((forall kn, kn ∈ operations g -> nickname c kn.2 <> VStr operationId) -> id = operationId) /\
    (keyed c g -> id ∉ (operations g).*1).
Proof.
  unfold makeUniqueOperationId. set (taken := fun name => List.existsb _ (operations g)).
  set (names := (fun kn => match nickname c kn.2 with VStr s => s | _ => [] end) <$> operations g).
  assert (Hl : length (operations g) = length names) by (unfold names; by rewrite length_fmap).
  assert (Ht : forall n, taken n = true -> n ∈ names).
  { intros n (kn & Hkn & E)%nickname_taken. apply list_elem_of_fmap. exists kn. by rewrite E. }
  destruct (fresh_spec taken names Ht operationId) as (id & E & Hid & _). rewrite <- Hl in E.
  exists id. split; [done|]. split.
  - intros Hn. assert (Hf : taken operationId = false).
    { apply Bool.not_true_iff_false. intros (kn & Hkn & Ek)%nickname_taken. by apply (Hn kn). }
    rewrite fresh_free in E by done. by injection E as <-.
  - intros Hk Hin. apply fst_in_lookup in Hin as [n Hin]. unfold keyed in Hk. rewrite Forall_forall in Hk.
    assert (taken id = true); [|congruence]. apply nickname_taken. exists (id, n). split; [done|]. by apply (Hk (id, n)).
Qed.

(** The nickname of an operation is not changed to its unique id: the third
    operation with one id takes the place of the second. *)
Definition with_id (tags : list jsval) (id : String.string) : obj :=
  [(js "tags", VArr tags); (js "operationId", vstr id)].
Definition three_gets : jsval :=
  VObj [(js "paths", VObj
    [(js "/a", VObj [(js "get", VObj (with_id [vstr "x"] "list"%string))]);
     (js "/b", VObj [(js "get", VObj (with_id [vstr "x"] "list"%string))]);
     (js "/c", VObj [(js "get", VObj (with_id [vstr "x"] "list"%string))])])].
Example third_overwrites :
  (c ← build_groups [] three_gets; Ok (operations <$> groups c)) = Ok [[(js "list", 0%nat); (js "list_0", 2%nat)]].
Proof. reflexivity. Qed.

(** A tag that is the name of a property of the client that is not reserved
    stops the build. *)
Example timeout_tag :
  build_groups [js "timeout"; js "schemes"]
    (VObj [(js "paths", VObj [(js "/a", VObj [(js "get", VObj (with_id [vstr "timeout"] "list"%string))])])]) = Throw TypeError.
Proof. reflexivity. Qed.

(** ** Sorting *)

Definition unnamed (tags : list jsstr) (e : api_entry) : Prop := forall t, t ∈ tags -> named t e = false.
#[export] Instance unnamed_dec tags e : Decision (unnamed tags e).
Proof.
  refine (cast_if (decide (Forall (fun t => named t e = false) tags))); abstract (unfold unnamed; by rewrite <- Forall_forall).
Defined.

Lemma named_unique t t2 e : named t e = true -> t <> t2 -> named t2 e = false.
Proof.
  unfold named. intros Ht%eq_str_true Hne. rewrite Ht. cbn. apply bool_decide_eq_false. congruence.
Qed.

Lemma filter_named_perm t (l : list api_entry) :
  filter (fun e => named t e = true) l ++ filter (fun e => named t e = false) l ≡ₚ l.
Proof.
  induction l as [|e l IH]; [done|]. rewrite !filter_cons. destruct (named t e) eqn:E.
  - rewrite decide_True, decide_False by congruence. cbn. by rewrite IH.
  - rewrite decide_False, decide_True by congruence. by rewrite <- Permutation_middle, IH.
Qed.

Definition sort_step (st : list api_entry * list api_entry) (t : jsstr) : list api_entry * list api_entry :=
  (st.1 ++ filter (fun e => named t e = true) st.2, filter (fun e => named t e = false) st.2).

Lemma sort_apis_step tags l :
  sort_apis tags l = (foldl sort_step ([], l) tags).1 ++ (foldl sort_step ([], l) tags).2.
Proof.
  unfold sort_apis. assert (E : forall st, foldl (fun '(sorted, rest) t =>
      (sorted ++ filter (fun e => named t e = true) rest, filter (fun e => named t e = false) rest)) st tags =
    foldl sort_step st tags).
  { induction tags as [|t tags IH]; intros [s r]; [done|]. cbn [foldl]. apply IH. }
  rewrite E. by destruct (foldl sort_step ([], l) tags).
Qed.

Lemma filter_named_other t t2 (r : list api_entry) :
  t <> t2 ->
  filter (fun e => named t2 e = true) (filter (fun e => named t e = false) r) = filter (fun e => named t2 e = true) r.
Proof.
  intros Hne. induction r as [|e r IHr]; [done|]. rewrite !filter_cons. destruct (named t e) eqn:E.
  - rewrite (decide_False (P := true = false)) by done.
    rewrite (decide_False (P := named t2 e = true)) by (by rewrite (named_unique t t2 e)). exact IHr.
  - rewrite (decide_True (P := false = false)) by done. rewrite filter_cons. by rewrite IHr.
Qed.

Lemma sort_steps tags : forall s r, NoDup tags ->
  foldl sort_step (s, r) tags =
    (s ++ List.flat_map (fun t => filter (fun e => named t e = true) r) tags, filter (unnamed tags) r).
Proof.
  induction tags as [|t tags IH]; intros s r Hn; cbn [foldl List.flat_map].
  - rewrite app_nil_r. f_equal. symmetry. induction r as [|e r IHr]; [done|].
    rewrite filter_cons_True; [by rewrite IHr|]. by intros t ?%not_elem_of_nil.
  - apply NoDup_cons in Hn as [Ht Hn]. unfold sort_step at 2. cbn [fst snd]. rewrite IH by done.
    rewrite <- app_assoc. f_equal; [f_equal; f_equal|].
    + clear -Ht. induction tags as [|t2 tags IHt]; [done|]. cbn [List.flat_map].
      apply not_elem_of_cons in Ht as [Hne Ht]. rewrite IHt by done. f_equal.
      by apply filter_named_other.
    + clear -t. induction r as [|e r IHr]; [done|]. rewrite !filter_cons. destruct (named t e) eqn:E.
      * rewrite (decide_False (P := true = false)) by done.
        rewrite decide_False; [done|]. intros H. rewrite (H t) in E by by left. done.
      * rewrite (decide_True (P := false = false)) by done. rewrite filter_cons.
        destruct (decide (unnamed tags e)) as [Hu|Hu].
        -- rewrite decide_True; [by rewrite IHr|]. by intros t2 [->|?]%elem_of_cons; [|apply Hu].
        -- rewrite decide_False; [done|]. intros H. apply Hu. intros t2 Ht2. apply H. by right.
Qed.

(** [buildFromSpec] shows the groups of the defined tags first, in the
    order of the definitions, then the others in the order in which they were
    met; no group is lost or doubled. *)
Theorem sort_apis_groups tags l :
  NoDup tags ->
  sort_apis tags l = List.flat_map (fun t => filter (fun e => named t e = true) l) tags ++ filter (unnamed tags) l /\
  sort_apis tags l ≡ₚ l.
Proof.
  intros Hn. split; rewrite sort_apis_step.
  - by rewrite sort_steps.
  - clear Hn. assert (H : forall st, (foldl sort_step st tags).1 ++ (foldl sort_step st tags).2 ≡ₚ st.1 ++ st.2).
    { induction tags as [|t tags IH]; intros [s r]; [done|]. cbn [foldl]. rewrite IH. unfold sort_step. cbn [fst snd].
      by rewrite <- app_assoc, filter_named_perm. }
    apply H.
Qed.

Lemma sort_apis_groups_witness :
  sort_apis [js "b"; js "a"] [ApiEntry (vstr "c") [0%nat]; ApiEntry (vstr "a") [1%nat]; ApiEntry (vstr "b") [2%nat]] =
    [ApiEntry (vstr "b") [2%nat]; ApiEntry (vstr "a") [1%nat]; ApiEntry (vstr "c") [0%nat]] /\
  sort_apis [js "b"; js "a"] [ApiEntry (vstr "c") [0%nat]; ApiEntry (vstr "a") [1%nat]; ApiEntry (vstr "b") [2%nat]] ≡ₚ
    [ApiEntry (vstr "c") [0%nat]; ApiEntry (vstr "a") [1%nat]; ApiEntry (vstr "b") [2%nat]].
Proof.
  apply (sort_apis_groups [js "b"; js "a"]). apply (bool_decide_unpack _). vm_compute. exact I.
Defined.
