(* ===== verification/Http.v ===== *)
(** * HTTP

    [lib/http] of swagger-ui.js: the choice of the HTTP client, the request
    given to superagent, the response made of what superagent or jQuery
    answers, and which callback gets it.  Superagent and jQuery themselves,
    and the JSON and YAML parsers, are parameters. *)

From Stdlib Require Import String.
From S2P Require Import Prelude JsNumber JsString JsValue ParamEncoding Operation.

(** ** Choosing the client *)

Inductive http_client := CustomClient | SuperagentHttpClient | JQueryHttpClient.

(** [parseInt] of a decimal number after white space. *)
Fixpoint leading_digits (acc : option Z) (s : jsstr) : option Z :=
  match s with
  | c :: s' =>
      if (48 <=? c) && (c <=? 57) then leading_digits (Some (match acc with Some a => a * 10 | None => 0 end + (c - 48))) s'
      else acc
  | [] => acc
  end.
Definition parseInt10 (s : jsstr) : option Z := leading_digits None (trim_left s).

(** [isInternetExplorer], of [navigator.userAgent]. *)
Definition isInternetExplorer (userAgent : option jsstr) : bool :=
  match userAgent with
  | Some ua =>
      let nav := toLowerCase ua in
      if includes nav (js "msie") then
        match split nav (js "msie") !! 1%nat ≫= parseInt10 with Some version => version <=? 8 | None => false end
      else false
  | None => false
  end.

(** The client of [SwaggerHttp.execute]: the one of the options (with its
    type), superagent, or jQuery. *)
Definition choose_client (custom : option jsval) (userAgent : option jsstr) (hasJQuery : bool) (method : jsstr)
    (useJQuery : jsval) : res http_client :=
  let type := match custom with Some t => t | None => vstr "SuperagentHttpClient" end in
  let useJQuery := if bool_decide (toLowerCase method = js "options") && eq_str type (js "SuperagentHttpClient")
                   then VBool true else useJQuery in
  let ie := isInternetExplorer userAgent in
  if ie && (strict_eq useJQuery (VBool false) || negb hasJQuery) then Throw ErrorMsg
  else if eq_true useJQuery || (ie && hasJQuery) then Ok JQueryHttpClient
  else Ok (match custom with Some _ => CustomClient | None => SuperagentHttpClient end).

(** ** Callbacks *)

(** A response object, as far as the callbacks read it. *)
Record response := Response { status : Z; fields : obj }.

(** What happens to a request in the end. *)
Inductive outcome_t := Succeeded (r : response) | Failed (r : response).

Section Callbacks.
(** The response interceptor of the options. *)
Context (interceptor : option (response -> response)).
Definition intercept (r : response) : response := match interceptor with Some f => f r | None => r end.

(** [obj.on.error] and [obj.on.response] as [SwaggerHttp.execute] sets them. *)
Definition on_error (r : response) : outcome_t := Failed (intercept r).
Definition on_response (r : response) : outcome_t := if 400 <=? status r then Failed (intercept r) else Succeeded (intercept r).

(** The callback of [JQueryHttpClient]. *)
Definition jquery_callback (r : response) : outcome_t :=
  let s := status r in
  if (200 <=? s) && (s <? 300) then on_response r
  else if (s =? 0) || ((400 <=? s) && (s <? 599)) then on_error r
  else on_response r.
End Callbacks.

(** ** Response headers *)

(** A line of [getAllResponseHeaders]. *)
Definition header_line (headers : obj) (line : jsstr) : obj :=
  let toSplit := trim line in
  if bool_decide (toSplit = []) then headers
  else
    let separator := indexOf toSplit (js ":") in
    if separator =? -1 then put toSplit VNull headers
    else put (trim (substring toSplit 0 separator)) (VStr (trim (substring_from toSplit (separator + 1)))) headers.
Definition parse_headers (text : jsstr) : obj := foldl header_line [] (split text [10]).

(** The object of a jQuery answer: [responseJSON] or the parsed text; a text
    that parses to a string is an empty object, one that does not parse null. *)
Definition jquery_obj (safeLoad : jsval -> res jsval) (responseJSON responseText : jsval) : jsval :=
  match (if truthy responseJSON then Ok responseJSON else safeLoad responseText) with
  | Ok possibleObj => js_orv (if is_string possibleObj then VObj [] else possibleObj) VNull
  | Throw _ => VNull
  end.

(** ** Superagent *)

(** [binaryRequest]. *)
Definition binaryRequest (accept : jsval) : bool :=
  truthy accept &&
  (let a := to_str accept in
   startsWith (toLowerCase a) (js "image") || startsWith a (js "application/pdf") ||
   startsWith a (js "application/octet-stream")).

(** The calls on a superagent request. *)
Inductive action :=
| Agent (agent : jsval)
| Timeout (timeout : jsval)
| WithCredentials
| BlobResponse
| Send (body : body_t)
| Field (name : jsstr) (value : jsval)
| Set_ (name : jsstr) (value : jsval).

(** The fields of a multipart body without [FormData]: for an array, the keys
    of its elements. *)
Definition body_fields (o : obj) : list action :=
  List.flat_map (fun '(keyname, value) =>
    match value with
    | VArr l => (fun iv => Field keyname (VStr iv.1)) <$> indexed l
    | _ => [Field keyname value]
    end) (for_in o).

(** Sending the body; the headers after it. *)
Definition send_body (stringify : body_t -> jsstr) (headers : obj) (body : body_t) : res (list action * obj) :=
  if negb (body_truthy body) then Ok ([], headers)
  else if body_object body then
    contentType ← as_str (js_orv (get headers (js "Content-Type")) (VStr []));
    if startsWith contentType (js "multipart/form-data") then
      let headers := remove (js "Content-Type") headers in
      Ok (match body with
          | BForm _ => [Send body]
          | BMulti o => body_fields o
          | BVal v => body_fields (for_in_val v)
          end, headers)
    else Ok ([Send (BVal (VStr (stringify body)))], headers)
  else Ok ([Send body], headers).

(** [SuperagentHttpClient.execute] up to the end: the method called on
    superagent, and the calls on the request. *)
Definition superagent_request (stringify : body_t -> jsstr) (method : jsstr) (headers : obj) (body : body_t)
    (connectionAgent timeout enableCookies : jsval) : res (jsstr * list action) :=
  let method := toLowerCase method in
  let method := if bool_decide (method = js "delete") then js "del" else method in
  '(sent, headers') ← send_body stringify headers body;
  Ok (method,
      (if truthy connectionAgent then [Agent connectionAgent] else []) ++
      (if truthy timeout then [Timeout timeout] else []) ++
      (if truthy enableCookies then [WithCredentials] else []) ++
      (if binaryRequest (get headers (js "Accept")) then [BlobResponse] else []) ++
      sent ++ ((fun kv => Set_ kv.1 kv.2) <$> for_in headers')).

(** What superagent hands to the callback of [end]. *)
Record superagent_res := SuperagentRes {
  s_status : Z;
  s_text : jsval;
  s_headers : obj;
  s_body : jsval;
  s_error : jsval;
  s_xhr_response : jsval
}.
Definition no_response : superagent_res :=
  SuperagentRes 0 VUndef [(js "error", vstr "no response from server")] VUndef VUndef VUndef.

(** The object of a successful answer: the parsed body, or the parsed text
    unless that is a string. *)
Definition superagent_obj (safeLoad : jsval -> res jsval) (r : superagent_res) : jsval :=
  let possibleObj :=
    if truthy (s_body r) && (0 <? Z.of_nat (length (for_in_val (s_body r)))) then s_body r
    else match safeLoad (s_text r) with
         | Ok v => if is_string v then VNull else v
         | Throw _ => VUndef
         end in
  if typeof_object possibleObj then possibleObj else VNull.

(** The object of an error answer, when its type is JSON. *)
Definition error_obj (json_parse : jsval -> res jsval) (r : superagent_res) : res (option jsval) :=
  let type := get (s_headers r) (js "content-type") in
  if truthy type then
    t ← as_str type;
    Ok (if 0 <=? indexOf t (js "application/json")
        then Some (match json_parse (s_text r) with Ok v => v | Throw _ => VNull end) else None)
  else Ok None.

(** The callback of [end]. *)
Definition superagent_end (safeLoad json_parse : jsval -> res jsval) (interceptor : option (response -> response))
    (url method : jsstr) (err : jsval) (r : option superagent_res) : res outcome_t :=
  let r := default no_response r in
  let base := [(js "url", VStr url); (js "method", VStr method); (js "headers", VObj (s_headers r))] in
  let err := if truthy err then err else s_error r in
  if truthy err then
    o ← error_obj json_parse r;
    let f := base ++ [(js "errObj", err); (js "statusText", s_text r)] ++
             match o with Some v => [(js "obj", v)] | None => [] end in
    let data := js_orv (s_xhr_response r) (s_text r) in
    Ok (on_error interceptor (Response (s_status r) (f ++ [(js "data", data)])))
  else
    let f := base ++ [(js "obj", superagent_obj safeLoad r); (js "statusText", s_text r)] in
    let data := js_orv (s_xhr_response r) (s_text r) in
    Ok (on_response interceptor (Response (s_status r) (f ++ [(js "data", data)]))).

(** ** Which callback *)

(** A jQuery answer fails exactly when there was none (status 0) or the
    status is an error, 599 included; the interceptor sees it once. *)
Lemma jquery_fails interceptor r :
  0 <= status r ->
  jquery_callback interceptor r =
    if (status r =? 0) || (400 <=? status r) then Failed (intercept interceptor r) else Succeeded (intercept interceptor r).
Proof.
  intros H. unfold jquery_callback, on_response, on_error.
  destruct (Z.leb_spec 200 (status r)), (Z.ltb_spec (status r) 300), (Z.eqb_spec (status r) 0),
    (Z.leb_spec 400 (status r)), (Z.ltb_spec (status r) 599); cbn [andb orb]; try done; lia.
Qed.

(** ** Headers round trip *)

Lemma trim_left_app_space s t : Forall (fun c => is_space c = true) s -> trim_left (s ++ t) = trim_left t.
Proof. intros H. induction H as [|c s Hc _ IH]; [done|]. cbn. by rewrite Hc. Qed.

(** Text without white space at its ends. *)
Definition tight (s : jsstr) : Prop :=
  match List.head s with Some c => is_space c = false | None => True end /\
  match last s with Some c => is_space c = false | None => True end.

Lemma trim_left_tight s t : s <> [] -> tight s -> trim_left (s ++ t) = s ++ t.
Proof. destruct s as [|c s]; [done|]. intros _ [H _]. cbn in *. by rewrite H. Qed.

Lemma tight_rev s : tight s -> tight (rev s).
Proof.
  intros [H1 H2]. destruct s as [|x l _] using rev_ind; [done|]. rewrite last_snoc in H2. rewrite rev_app_distr. cbn.
  split; [done|]. destruct l as [|y l]; [exact H2|]. cbn in H1. cbn [rev]. rewrite app_comm_cons.
  by rewrite last_snoc.
Qed.

Lemma trim_tight a s b :
  Forall (fun c => is_space c = true) a -> Forall (fun c => is_space c = true) b -> tight s -> trim (a ++ s ++ b) = s.
Proof.
  intros Ha Hb Hs. unfold trim. rewrite trim_left_app_space by done. destruct (decide (s = [])) as [->|Hne].
  - cbn [app]. rewrite <- (app_nil_r b), trim_left_app_space by done. done.
  - rewrite trim_left_tight by done. rewrite rev_app_distr, trim_left_app_space by by apply Forall_rev.
    rewrite <- (app_nil_r (rev s)), trim_left_tight, app_nil_r, rev_involutive; [done| |by apply tight_rev].
    intros H. apply Hne. by rewrite <- (rev_involutive s), H.
Qed.

(** A header as a browser prints it. *)
Definition print_header (h : jsstr * jsstr) : jsstr := h.1 ++ js ": " ++ h.2 ++ [13].
Definition header_ok (h : jsstr * jsstr) : Prop :=
  h.1 <> [] /\ tight h.1 /\ tight h.2 /\ 58 ∉ h.1 /\ 10 ∉ h.1 /\ 10 ∉ h.2.

Lemma header_line_print o h : header_ok h -> header_line o (print_header h) = put h.1 (VStr h.2) o.
Proof.
  destruct h as [n v]. intros (Hne & Hn & Hv & Hc & _). cbn [fst snd] in *. unfold header_line, print_header. cbn [fst snd].
  assert (Hr : exists rest, trim (n ++ js ": " ++ v ++ [13]) = n ++ 58 :: rest /\ trim rest = v).
  { destruct Hn as [H1 _]. destruct (decide (v = [])) as [->|Hv0].
    - exists []. split; [|done]. change (js ": " ++ [] ++ [13]) with ([58] ++ [32; 13]). rewrite app_assoc.
      apply (trim_tight [] (n ++ [58]) [32; 13]); [constructor|by repeat constructor|].
      split; [by destruct n|by rewrite last_snoc].
    - exists (32 :: v). split; [|rewrite <- (app_nil_r v) at 1; apply (trim_tight [32] v []); [by repeat constructor|by constructor|done]].
      change (js ": " ++ v ++ [13]) with ([58; 32] ++ v ++ [13]). rewrite !app_assoc.
      change (n ++ 58 :: 32 :: v) with (n ++ [58; 32] ++ v). rewrite app_assoc.
      apply (trim_tight [] ((n ++ [58; 32]) ++ v) [13]); [constructor|by repeat constructor|].
      destruct Hv as [_ H2]. split; [by destruct n|].
      destruct v as [|x v _] using rev_ind; [done|]. rewrite app_assoc, last_snoc. by rewrite last_snoc in H2. }
  destruct Hr as (rest & -> & Hrest). rewrite bool_decide_eq_false_2 by (by destruct n).
  change (js ":") with [58]. unfold indexOf. rewrite find_char_app by done.
  destruct (Z.eqb_spec (Z.of_nat (length n)) (-1)); [lia|].
  rewrite substring_take by (rewrite length_app; lia). rewrite take_app_length.
  replace (Z.of_nat (length n) + 1) with (Z.of_nat (length (n ++ [58]))) by (rewrite length_app; cbn; lia).
  rewrite substring_drop by (rewrite !length_app; cbn; lia).
  change (n ++ 58 :: rest) with (n ++ [58] ++ rest). rewrite app_assoc, drop_app_length, Hrest.
  f_equal. rewrite <- (app_nil_r n) at 1. by apply (trim_tight [] n []).
Qed.

(** The headers of a jQuery answer are those the server sent: parsing the
    lines a browser prints for distinct headers gives each name its value, in
    order, whatever colons the values have. *)
Theorem parse_headers_print hs :
  Forall header_ok hs -> NoDup hs.*1 ->
  parse_headers (List.concat ((fun h => print_header h ++ [10]) <$> hs)) = (fun h => (h.1, VStr h.2)) <$> hs.
Proof.
  intros Hok Hn. unfold parse_headers.
  assert (Hs : split (List.concat ((fun h => print_header h ++ [10]) <$> hs)) [10] = (print_header <$> hs) ++ [[]]).
  { clear Hn. induction Hok as [|h hs Hh _ IH]; [done|]. cbn [fmap list_fmap List.concat].
    rewrite <- app_assoc. change ([10] ++ ?l) with (10 :: l).
    rewrite split_char_app; [by rewrite IH|]. destruct Hh as (_ & _ & _ & _ & H1 & H2). unfold print_header.
    rewrite !elem_of_app. intros [?|[H|[?|H]]]; try done; [|by apply list_elem_of_singleton in H].
    revert H. by apply not_in_lit. }
  rewrite Hs, foldl_app.
  assert (Hf : forall o, NoDup (o.*1 ++ hs.*1) -> foldl header_line o (print_header <$> hs) = o ++ ((fun h => (h.1, VStr h.2)) <$> hs)).
  { clear Hs Hn. induction Hok as [|h hs Hh _ IH]; intros o Hd; [by rewrite app_nil_r|]. cbn [fmap list_fmap foldl].
    rewrite header_line_print by done.
    assert (Hp : put h.1 (VStr h.2) o = o ++ [(h.1, VStr h.2)]).
    { cbn in Hd. apply NoDup_app in Hd as (_ & Hd & _). assert (Hni : h.1 ∉ o.*1) by (intros Hin; apply (Hd _ Hin); by left).
      clear -Hni. induction o as [|[k v] o IH]; [done|]. cbn in *. apply not_elem_of_cons in Hni as [H1 H2].
      rewrite bool_decide_eq_false_2 by congruence. by rewrite IH. }
    rewrite Hp, IH; [by rewrite <- app_assoc|]. rewrite fmap_app, <- app_assoc. exact Hd. }
  rewrite Hf by done. done.
Qed.

Lemma parse_headers_print_witness :
  parse_headers (js "Content-Type: text/html" ++ [13; 10] ++ js "Date: 10:20" ++ [13; 10]) =
    [(js "Content-Type", vstr "text/html"); (js "Date", vstr "10:20")].
Proof.
  refine (parse_headers_print [(js "Content-Type", js "text/html"); (js "Date", js "10:20")] _ _).
  - assert (H : forall n v, negb (bool_decide (n = [])) && negb (bool_decide (58 ∈ n)) && negb (bool_decide (10 ∈ n)) &&
        negb (bool_decide (10 ∈ v)) = true -> tight n -> tight v -> header_ok (n, v)).
    { intros n v Hb Hn Hv. btrue. unfold header_ok. cbn [fst snd].
      repeat match goal with H : bool_decide _ = false |- _ => apply bool_decide_eq_false in H end. done. }
    repeat constructor; apply H; vm_compute; done.
  - apply (bool_decide_unpack _). vm_compute. exact I.
Defined.

(** The fields of an array are its indices, not its elements. *)
Example array_field_indices :
  body_fields [(js "tags", VArr [vstr "red"; vstr "blue"])] = [Field (js "tags") (vstr "0"); Field (js "tags") (vstr "1")].
Proof. reflexivity. Qed.
