(* ===== verification/SuperagentClient.v ===== *)
(** * What the client sends through superagent

    [SuperagentHttpClient.execute] calls methods of superagent ([Http]) and
    superagent hands a request to the browser ([Superagent]); here the two
    are put together. *)

From Stdlib Require Import String.
From S2P Require Import Prelude JsNumber JsString JsValue Uri Operation Superagent Http.
#[local] Arguments superagent_request : simpl never.

(** The calls of the client on a request. A request of the browser has no
    method [agent]; the listener of a binary request sets the type of the
    response when it is sent. *)
Definition body_value (b : body_t) : jsval :=
  match b with BVal v => v | BForm _ => VHost (js "FormData") [] | BMulti o => VObj o end.
Definition apply_action (r : request * bool) (a : action) : res (request * bool) :=
  match a with
  | Agent _ => Throw TypeError
  | Timeout t => Ok (timeout t r.1, r.2)
  | WithCredentials => Ok (withCredentials r.1, r.2)
  | BlobResponse => Ok (r.1, true)
  | Send b => r' ← send (body_value b) r.1; Ok (r', r.2)
  | Field name v => Ok (field name v r.1, r.2)
  | Set_ name v => r' ← set (VStr name) v r.1; Ok (r', r.2)
  end.
Definition blob (w : wire) : wire :=
  Wire (w_method w) (w_url w) (w_login w) (w_withCredentials w) (w_headers w) (js "blob") (w_body w).

Section client.
Context (stringify : jsval -> res jsval) (stringify_body : body_t -> jsstr).

Definition client_request (method url : jsstr) (headers : obj) (body : body_t)
    (connectionAgent timeout enableCookies : jsval) : res (request * bool) :=
  '(name, actions) ← superagent_request stringify_body method headers body connectionAgent timeout enableCookies;
  match request_method name with
  | Some v => r ← shorthand v url VUndef; foldM_res apply_action (r, false) actions
  | None => Throw TypeError
  end.
Definition client_wire (method url : jsstr) (headers : obj) (body : body_t)
    (connectionAgent timeout enableCookies : jsval) : res wire :=
  '(r, binary) ← client_request method url headers body connectionAgent timeout enableCookies;
  w ← end_request stringify r;
  Ok (if binary : bool then blob w else w).

(** ** Setting the headers *)

Lemma set_headers h : forall r b,
  foldM_res apply_action (r, b) ((fun kv => Set_ kv.1 kv.2) <$> h) =
    Ok (foldl (fun r kv => set_field kv.1 kv.2 r) r h, b).
Proof. induction h as [|[k v] h IH]; intros r b; [done|]. cbn [fmap list_fmap foldM_res apply_action set isObject typeof_object]. apply IH. Qed.

Lemma set_fields_header h : forall r, header (foldl (fun r kv => set_field kv.1 kv.2 r) r h) = set_all (header r) h.
Proof. induction h as [|[k v] h IH]; intros r; [done|]. cbn [foldl set_all]. by rewrite IH. Qed.
(** Nothing but the headers changes. *)
Lemma set_fields_rest h : forall r, let r' := foldl (fun r kv => set_field kv.1 kv.2 r) r h in
  Superagent.method r' = Superagent.method r /\ Superagent.url r' = Superagent.url r /\ _query r' = _query r /\ _data r' = _data r /\
  _formData r' = _formData r /\ _withCredentials r' = _withCredentials r /\ _responseType r' = _responseType r /\
  username r' = username r /\ password r' = password r.
Proof. induction h as [|[k v] h IH]; intros r; [done|]. exact (IH (set_field k v r)). Qed.

(** The text that is sent as the body: the serialized object, or the text. *)
Definition body_text (body : body_t) : option jsstr :=
  if body_object body then Some (stringify_body body)
  else match body with BVal (VStr s) => Some s | _ => None end.

(** What the client sends for a method that superagent has: a request with a
    text as its body, or with an object as its body and no multipart content
    type. *)
Section text_body.
Context (method url : jsstr) (headers : obj) (body : body_t) (text : jsstr) (agent wait cookies : jsval) (v : verb).
Hypothesis Hverb : request_method (toLowerCase method) = Some v.
Hypothesis Hbody : body_truthy body = true.
Hypothesis Htext : body_text body = Some text.
Hypothesis Htype : body_object body = true -> exists t, as_str (js_orv (get headers (js "Content-Type")) (VStr [])) = Ok t /\
  startsWith t (js "multipart/form-data") = false.

Lemma method_name : exists name,
  (if bool_decide (toLowerCase method = js "delete") then js "del" else toLowerCase method) = name /\ request_method name = Some v.
Proof.
  case_bool_decide as H; [|by eexists]. eexists. split; [done|]. rewrite H in Hverb. exact Hverb.
Qed.

Lemma send_text_body : send_body stringify_body headers body = Ok ([Send (BVal (VStr text))], headers).
Proof.
  unfold send_body. rewrite Hbody. cbn [negb]. unfold body_text in Htext. destruct (body_object body) eqn:Eo.
  - injection Htext as <-. destruct Htype as (t & -> & Ht); [done|]. cbn [mbind res_bind]. by rewrite Ht.
  - destruct body as [[| | | |s| | |]| |]; try done. by injection Htext as ->.
Qed.

(** A request as the options of a client leave it. *)
Definition only_options (r : request) : Prop :=
  Superagent.method r = verb_name v /\ Superagent.url r = url /\ _query r = [] /\ _data r = VUndef /\ _formData r = None /\
  header r = [] /\ _header r = [].
Lemma options_first accept : exists r b,
  foldM_res apply_action (new_request (verb_name v) url, false)
    ((if truthy wait then [Timeout wait] else []) ++ (if truthy cookies then [WithCredentials] else []) ++
     (if binaryRequest accept then [BlobResponse] else [])) = Ok (r, b) /\ only_options r.
Proof.
  destruct (truthy wait), (truthy cookies), (binaryRequest accept); eexists _, _; (split; [reflexivity|by repeat split]).
Qed.
(** Sending the text, and then setting the headers. *)
Lemma text_then_headers r b : only_options r -> exists r',
  foldM_res apply_action (r, b) (Send (BVal (VStr text)) :: ((fun kv => Set_ kv.1 kv.2) <$> for_in headers)) = Ok (r', b) /\
  Superagent.method r' = verb_name v /\ Superagent.url r' = url /\ _query r' = [] /\ _data r' = VStr text /\ _formData r' = None /\
  header r' = set_all [(js "Content-Type", VStr FORM)] (for_in headers).
Proof.
  intros (Hm & Hu & Hq & Hd & Hf & Hh & Hl). eexists. split.
  - cbn [foldM_res apply_action body_value fst snd]. unfold send. cbn [isObject typeof_object andb mbind res_bind negb orb].
    rewrite set_headers. reflexivity.
  - destruct (set_fields_rest (for_in headers) (send_string text r)) as (E1 & E2 & E3 & E4 & E5 & _).
    rewrite E1, E2, E3, E4, E5, set_fields_header. clear E1 E2 E3 E4 E5. unfold send_string. cbv zeta. rewrite Hl.
    cbn [get assoc default truthy]. unfold type, set_field. cbn [_header with_headers]. rewrite Hl, Hh.
    match goal with |- context [eq_str ?a FORM] => change (eq_str a FORM) with true end. cbv iota.
    destruct r; cbn in *. by subst.
Qed.

(** C30. The wire of such a request: the client's method and address, the
    body as it is, the client's headers, and the content type of a form
    where the client has no header Content-Type. With a connection agent
    nothing is sent: execute throws a TypeError. *)
Theorem wire_of_text :
  if truthy agent then client_wire method url headers body agent wait cookies = Throw TypeError
  else exists w, client_wire method url headers body agent wait cookies = Ok w /\
    w_method w = verb_name v /\ w_url w = url /\ w_body w = PVal (VStr text) /\
    w_headers w = sent_headers (set_all [(js "Content-Type", VStr FORM)] (for_in headers)).
Proof.
  destruct method_name as (name & En & Ev). destruct (truthy agent) eqn:Ha.
  { unfold client_wire, client_request, superagent_request. cbv zeta. rewrite En, send_text_body. cbn [mbind res_bind].
    rewrite Ev, Ha. replace (shorthand v url VUndef) with (@Ok request (new_request (verb_name v) url)) by by destruct v. done. }
  destruct (options_first (get headers (js "Accept"))) as (r & b & E & Hr).
  destruct (text_then_headers r b Hr) as (r' & E' & Hm & Hu & Hq & Hd & Hf & Hh).
  assert (Hw : exists w, end_request stringify r' = Ok w /\ w_method w = verb_name v /\ w_url w = url /\
    w_body w = PVal (VStr text) /\ w_headers w = sent_headers (set_all [(js "Content-Type", VStr FORM)] (for_in headers))).
  { unfold end_request, end_data. rewrite Hf, Hd. cbn [is_string]. rewrite !orb_true_r. cbn [orb mbind res_bind is_undef].
    eexists. split; [done|]. unfold appendQueryString. rewrite Hq.
    split; [exact Hm|]. split; [exact Hu|]. split; [done|]. cbn [w_headers]. by rewrite Hh. }
  destruct Hw as (w & Ew & Hw). exists (if b then blob w else w). split; [|by destruct b].
  unfold client_wire, client_request, superagent_request. cbv zeta. rewrite En, send_text_body. cbn [mbind res_bind]. rewrite Ha. cbn [app].
  rewrite Ev. replace (shorthand v url VUndef) with (@Ok request (new_request (verb_name v) url)) by by destruct v.
  cbn [mbind res_bind]. rewrite !(assoc_L (++)), foldM_res_app. rewrite <- !(assoc_L (++)), E. cbn [mbind res_bind].
  cbn [app] in *. rewrite E'. cbn [mbind res_bind]. by rewrite Ew.
Qed.
End text_body.
End client.

Lemma wire_of_text_witness :
  exists w, client_wire (fun v => Ok v) (fun _ => js "{}") (js "post") (js "/pets") [(js "Accept", vstr "application/json")]
      (BVal (VObj [])) VUndef VUndef VUndef = Ok w /\
    w_method w = verb_name Post /\ w_url w = js "/pets" /\ w_body w = PVal (vstr "{}") /\
    w_headers w = sent_headers (set_all [(js "Content-Type", VStr FORM)] (for_in [(js "Accept", vstr "application/json")])).
Proof.
  exact (wire_of_text (fun v => Ok v) (fun _ => js "{}") (js "post") (js "/pets") [(js "Accept", vstr "application/json")]
    (BVal (VObj [])) (js "{}") VUndef VUndef VUndef Post eq_refl eq_refl eq_refl
    (fun _ => ex_intro _ [] (conj eq_refl eq_refl))).
Defined.

(** The client's header in another case is sent next to that of a form. *)
Example two_content_types :
  w_headers <$> client_wire (fun v => Ok v) (fun _ => js "{}") (js "post") (js "/pets") [(js "content-type", vstr "text/plain")]
    (BVal (vstr "hello")) VUndef VUndef VUndef =
    Ok [(js "Content-Type", VStr FORM); (js "content-type", vstr "text/plain")].
Proof. by vm_compute. Qed.
(** A connection agent is no method of the browser's requests. *)
Example agent_throws :
  client_wire (fun v => Ok v) (fun _ => []) (js "get") (js "/pets") [] (BVal VUndef) (vstr "agent") VUndef VUndef = Throw TypeError.
Proof. by vm_compute. Qed.
