(* ===== verification/SuperagentRun.v ===== *)
(** * Superagent: the life of a request

    From [end] on, a superagent request of swagger-ui.js lives by events: the
    answer of the browser's XMLHttpRequest, the timer of its timeout, a call
    of [abort].  They come in any order; the callback must be called once.

    The XMLHttpRequest is the browser's: once sent it reaches its last state
    (readyState 4) once, by an answer, with status 0 when the network fails, or
    by [abort], which calls the listener at once with status 0.  The listeners
    of the request only listen: they do not call its methods.  A text is
    compared with a number by [floor_number], the integer part of [Number] of
    it, or nothing for NaN. *)

From Stdlib Require Import String.
From S2P Require Import Prelude JsNumber JsString JsValue Superagent.
From stdpp Require Import relations.
#[local] Open Scope Z_scope.

Inductive xhr_state := NoXhr | Sent | Done.

(** The errors given to the callback, with their fields. *)
Inductive request_error :=
| ParserError (rawResponse : jsval) (statusCode : jsval)
| ResponseError (message : jsstr) (status : jsval)
| CrossDomainError
| TimeoutError (timeout : jsval).

Record run := Run {
  _timeout : jsval;
  _timer : bool;
  timedout : bool;
  _aborted : bool;
  xhr : xhr_state;
  called : list (option request_error * option obj);
  emitted : list jsstr
}.
Definition fresh_run (timeout : jsval) : run := Run timeout false false false NoXhr [] [].

Definition emit (event : jsstr) (st : run) : run :=
  Run (_timeout st) (_timer st) (timedout st) (_aborted st) (xhr st) (called st) (emitted st ++ [event]).
Definition set_xhr (x : xhr_state) (st : run) : run :=
  Run (_timeout st) (_timer st) (timedout st) (_aborted st) x (called st) (emitted st).
Definition clearTimeout (st : run) : run :=
  Run (vint 0) false (timedout st) (_aborted st) (xhr st) (called st) (emitted st).
(** [Request.callback] *)
Definition callback (err : option request_error) (res : option obj) (st : run) : run :=
  let st := clearTimeout st in
  Run (_timeout st) (_timer st) (timedout st) (_aborted st) (xhr st) (called st ++ [(err, res)]) (emitted st).

Section events.
Context (json_parse : jsval -> res jsval) (floor_number : jsstr -> option Z) (method url : jsstr).

(** [res.status < 200 || res.status >= 300]: the status may be the text of a
    parameter of the content type. *)
Definition number (v : jsval) : option Z :=
  match v with VNum (NInt z) => Some z | VStr s => floor_number s | _ => None end.
Definition unsuccessful (status : jsval) : bool :=
  match number status with Some s => (s <? 200) || (300 <=? s) | None => false end.

(** The listener of the constructor for [end]. *)
Definition on_end (x : xhr_answer) (st : run) : run :=
  match Response json_parse method url x with
  | Throw _ =>
      callback (Some (ParserError (if truthy (x_responseText x) then x_responseText x else VNull)
                                  (if x_status x =? 0 then VNull else vint (x_status x)))) None st
  | Ok res =>
      let st := emit (js "response") st in
      if unsuccessful (get res (js "status")) then
        callback (Some (ResponseError (to_str (js_orv (get res (js "statusText")) (vstr "Unsuccessful HTTP response")))
                                      (get res (js "status")))) (Some res) st
      else callback None (Some res) st
  end.

(** [xhr.onreadystatechange] in the last state, with status 0 or with an
    answer. *)
Definition no_status (st : run) : run :=
  if timedout st then callback (Some (TimeoutError (_timeout st))) None st
  else if _aborted st then st else callback (Some CrossDomainError) None st.
Definition onreadystatechange (answer : option xhr_answer) (st : run) : run :=
  match answer with
  | Some x => if x_status x =? 0 then no_status st else on_end x (emit (js "end") st)
  | None => no_status st
  end.

(** [abort]: that of the XMLHttpRequest does nothing unless it was sent and is
    not done. *)
Definition xhr_abort (st : run) : run :=
  match xhr st with Sent => onreadystatechange None (set_xhr Done st) | _ => st end.
Definition abort (st : run) : run :=
  if _aborted st then st
  else
    let st := Run (_timeout st) (_timer st) (timedout st) true (xhr st) (called st) (emitted st) in
    emit (js "abort") (clearTimeout (xhr_abort st)).
Definition timer_fires (st : run) : run :=
  abort (Run (_timeout st) false true (_aborted st) (xhr st) (called st) (emitted st)).
(** The rest of [end]: the timer is set and the request sent. *)
Definition start (st : run) : run :=
  set_xhr Sent (emit (js "request")
    (Run (_timeout st) (truthy (_timeout st)) (timedout st) (_aborted st) (xhr st) (called st) (emitted st))).

Inductive step : run -> run -> Prop :=
| step_end st : xhr st = NoXhr -> step st (start st)
| step_answer st x : xhr st = Sent -> step st (onreadystatechange (Some x) (set_xhr Done st))
| step_timer st : _timer st = true -> step st (timer_fires st)
| step_abort st : step st (abort st).

(** ** One call

    The invariant: the callback is called when the XMLHttpRequest is done,
    and not called at all only if the request was aborted by its user. *)
Definition settled (st : run) : Prop :=
  length (called st) = 1%nat /\ _timer st = false \/ called st = [] /\ _aborted st = true.
Definition inv (st : run) : Prop :=
  match xhr st with
  | NoXhr => called st = [] /\ _timer st = false
  | Sent => called st = []
  | Done => settled st
  end.

Lemma on_end_calls x st : exists err res, called (on_end x st) = called st ++ [(err, res)] /\ _timer (on_end x st) = false /\
  xhr (on_end x st) = xhr st.
Proof.
  unfold on_end. destruct (Response json_parse method url x) as [r|]; [|by eexists _, _].
  destruct (unsuccessful _); by eexists _, _.
Qed.
Lemma ready_state_settles a st : called st = [] -> xhr st = Done -> xhr (onreadystatechange a st) = Done /\ settled (onreadystatechange a st).
Proof.
  intros Hc Hx. unfold onreadystatechange, no_status, settled.
  destruct a as [x|]; [destruct (Z.eqb_spec (x_status x) 0)|]; [| |].
  2: { destruct (on_end_calls x (emit (js "end") st)) as (err & res & E & Ht & Hx'). rewrite Hx', E, Ht. cbn [emit called xhr].
       rewrite Hc, Hx. split; [done|]. by left. }
  all: destruct (timedout st) eqn:Et; [cbn; rewrite Hc, Hx; split; [done|by left]|].
  all: destruct (_aborted st) eqn:Ea; [by split; [|right]|cbn; rewrite Hc, Hx; split; [done|by left]].
Qed.
(** A call of [abort] while the answer is awaited settles the request, with
    the error of the timeout when the timer has run out. *)
Lemma abort_sent st : called st = [] -> xhr st = Sent -> _aborted st = false ->
  xhr (abort st) = Done /\ _timer (abort st) = false /\ _aborted (abort st) = true /\
  called (abort st) = if timedout st then [(Some (TimeoutError (_timeout st)), None)] else [].
Proof.
  intros Hc Hx Ha. unfold abort, xhr_abort. rewrite Ha. cbn [xhr]. rewrite Hx. unfold onreadystatechange, no_status.
  cbn [timedout set_xhr _aborted]. destruct (timedout st); cbn; by rewrite Hc.
Qed.

Lemma inv_abort st : inv st -> inv (abort st).
Proof.
  intros Hi. destruct (_aborted st) eqn:Ea; [by unfold abort; rewrite Ea|]. unfold inv in *.
  destruct (xhr st) eqn:Ex.
  - unfold abort, xhr_abort. rewrite Ea. cbn [xhr]. rewrite Ex. cbn. by destruct Hi.
  - destruct (abort_sent st Hi Ex Ea) as (Hx & Ht & Ha & Hc). rewrite Hx. unfold settled. rewrite Ht, Ha, Hc.
    destruct (timedout st); [by left|by right].
  - unfold abort, xhr_abort, settled. rewrite Ea. cbn [xhr]. rewrite Ex. cbn. destruct Hi as [[H _]|[H _]]; rewrite H; auto.
Qed.
Lemma inv_step st st' : inv st -> step st st' -> inv st'.
Proof.
  intros Hi Hs. destruct Hs as [st Hx|st x Hx|st Ht|st].
  - unfold inv in *. rewrite Hx in Hi. unfold start. cbn. by destruct Hi.
  - unfold inv in Hi. rewrite Hx in Hi.
    destruct (ready_state_settles (Some x) (set_xhr Done st) Hi eq_refl) as [H1 H2]. unfold inv. by rewrite H1.
  - apply inv_abort. unfold inv, settled in *. cbn. destruct (xhr st); [by rewrite Ht in Hi; destruct Hi|done|].
    destruct Hi as [[_ H]|H]; [by rewrite Ht in H|by right].
  - by apply inv_abort.
Qed.
Lemma inv_reachable timeout st : rtc step (fresh_run timeout) st -> inv st.
Proof.
  intros H. assert (G : forall a b, rtc step a b -> inv a -> inv b).
  { induction 1 as [|a b c Hab _ IH]; [done|]. intros Ha. apply IH. by eapply inv_step. }
  by apply (G _ _ H).
Qed.

(** C29. However the answer, the timer and calls of [abort] follow each
    other, the callback of a request is called at most once, and only when the
    XMLHttpRequest is done; when that is done the callback was called, unless
    the request was aborted; and when the timer runs out before the answer of a
    request that was not aborted, it gets the error of the timeout. *)
Theorem called_once timeout st : rtc step (fresh_run timeout) st ->
  (length (called st) <= 1)%nat /\ (called st <> [] -> xhr st = Done /\ _timer st = false) /\
  (xhr st = Done -> called st <> [] \/ _aborted st = true) /\
  (xhr st = Sent -> _aborted st = false -> called (timer_fires st) = [(Some (TimeoutError (_timeout st)), None)]).
Proof.
  intros H%inv_reachable. unfold inv, settled in H. split; [|split; [|split]].
  - destruct (xhr st); [destruct H as [-> _]; cbn; lia|rewrite H; cbn; lia|]. destruct H as [[H _]|[-> _]]; [lia|cbn; lia].
  - intros Hc. destruct (xhr st); [by destruct H|done|]. destruct H as [[_ H]|[H _]]; done.
  - intros Hx. rewrite Hx in H. destruct H as [[H _]|[_ H]]; [|by right]. left. by destruct (called st).
  - intros Hx Ha. rewrite Hx in H. by destruct (abort_sent (Run (_timeout st) false true (_aborted st) (xhr st) (called st) (emitted st)))
      as (_ & _ & _ & E).
Qed.

(** An answer is always possible while it is awaited, so that the request can
    settle: it does in one step. *)
Lemma can_settle timeout st (x : xhr_answer) : rtc step (fresh_run timeout) st -> xhr st = Sent ->
  exists st', step st st' /\ xhr st' = Done /\ settled st'.
Proof.
  intros H%inv_reachable Hx. eexists. split; [by apply (step_answer st x)|]. unfold inv in H. rewrite Hx in H.
  by apply ready_state_settles.
Qed.
End events.

Lemma called_once_witness :
  let st := start (fresh_run (vint 100)) in
  (length (called st) <= 1)%nat /\ (called st <> [] -> xhr st = Done /\ _timer st = false) /\
  (xhr st = Done -> called st <> [] \/ _aborted st = true) /\
  (xhr st = Sent -> _aborted st = false ->
   called (timer_fires (fun _ => Ok VNull) (fun _ => None) (js "GET") (js "/pets") st) = [(Some (TimeoutError (_timeout st)), None)]).
Proof.
  apply (called_once (fun _ => Ok VNull) (fun _ => None) (js "GET") (js "/pets") (vint 100)).
  eapply rtc_l; [by apply step_end|apply rtc_refl].
Defined.

(** A request that is aborted before [end] is sent all the same: its answer is
    handed to the callback, and its timeout does nothing. *)
Example aborted_before_end :
  let abort := abort (fun _ => Ok VNull) (fun _ => None) (js "GET") (js "/pets") in
  let st := start (abort (fresh_run (vint 100))) in
  xhr st = Sent /\
  called (timer_fires (fun _ => Ok VNull) (fun _ => None) (js "GET") (js "/pets") st) = [] /\
  (fst <$> called (onreadystatechange (fun _ => Ok VNull) (fun _ => None) (js "GET") (js "/pets")
                     (Some (XhrAnswer 200 [] (Some []) (vstr "{}") VNull [] VNull)) st)) = [None].
Proof. by vm_compute. Qed.
