(* ===== verification/ClientBuild.v ===== *)
(** * Building the client

    [SwaggerClient] of swagger-ui.js: its constructor and options, the request
    for the document and what is made of the answer, [buildFromSpec] around
    the groups of [Client], [help] and the setters.  The own properties of the
    client are an object; the authorizations, the groups and the operation
    objects are kept beside it.  A build is a step relation: timers, answers,
    conversions and resolved documents come in any order. *)

From Stdlib Require Import String.
From S2P Require Import Prelude JsNumber JsString JsValue Helpers Http CookieJar Auth OperationInit Client ParseUri.
From stdpp Require Import relations.
#[local] Open Scope Z_scope.

(** ** The state *)

(** An operation object: what the setters change of it, and what the client
    adds to it. *)
Record op_entry := OpEntry {
  o_scheme : jsval;
  o_host : jsval;
  o_basePath : jsval;
  o_summary : jsval;
  o_vendorExtensions : jsval;
  o_externalDocs : jsval
}.

Record swagger_client := SwaggerClient {
  own : obj;
  clientAuthorizations : authz;
  table : Client.client;
  op_entries : list op_entry
}.
Definition set_own (f : obj -> obj) (c : swagger_client) : swagger_client :=
  SwaggerClient (f (own c)) (clientAuthorizations c) (table c) (op_entries c).
Definition set_table (t : Client.client) (l : list op_entry) (c : swagger_client) : swagger_client :=
  SwaggerClient (own c) (clientAuthorizations c) t l.
(** [this.k = v]. *)
Definition assign_own (k : String.string) (v : jsval) : ST swagger_client unit := modify (set_own (put (js k) v)).
Arguments assign_own k%_string.
Definition own_get (k : String.string) (c : swagger_client) : jsval := get (own c) (js k).
Arguments own_get k%_string.

Definition no_table : Client.client := Client.Client [] [] [] [] [] [].

(** ** The constructor and the options *)

Definition constructed : obj :=
  [(js "authorizations", VNull); (js "authorizationScheme", VNull); (js "basePath", VNull); (js "debug", VBool false);
   (js "enableCookies", VBool false); (js "info", VNull); (js "isBuilt", VBool false); (js "isValid", VBool false);
   (js "modelsArray", VArr []); (js "resourceCount", vint 0); (js "url", VNull); (js "useJQuery", VBool false);
   (js "jqueryAjaxCache", VBool false); (js "swaggerObject", VObj []); (js "deferredClient", VUndef);
   (js "clientAuthorizations", VHost (js "Object") (js "SwaggerAuthorizations"))].

Definition function (name : String.string) : jsval := VHost (js "Function") (js name).
Arguments function name%_string.
Definition is_function (v : jsval) : bool := match v with VHost t _ => bool_decide (t = js "Function") | _ => false end.

(** [this.url.indexOf('http:') === -1 && ...]. *)
Definition no_protocol (url : jsval) : res bool :=
  match url with
  | VStr s => Ok (negb (includes s (js "http:")) && negb (includes s (js "https:")))
  | VArr l => Ok (negb (existsb (fun x => eq_str x (js "http:")) l) && negb (existsb (fun x => eq_str x (js "https:")) l))
  | _ => Throw TypeError
  end.

(** An address without protocol goes after the origin of the window. *)
Definition absolute_url (origin : option jsstr) (url : jsval) : res jsval :=
  if truthy url then
    relative ← no_protocol url;
    Ok (match origin with
        | Some w => if (relative : bool) then VStr (w ++ to_str url) else url
        | None => url
        end)
  else Ok url.

Definition or_null (o : obj) (k : String.string) : jsval := js_orv (get o (js k)) VNull.
Arguments or_null o k%_string.
Definition fetch_timeout (o : obj) : jsval :=
  if is_undef (get o (js "fetchSpecTimeout")) then or_null o "timeout" else get o (js "fetchSpecTimeout").
(** [if (options.k) this.k = options.k]. *)
Definition copy_option (o : obj) (k : String.string) (own : obj) : obj :=
  if truthy (get o (js k)) then put (js k) (get o (js k)) own else own.
Arguments copy_option o k%_string own.

(** The properties set from the options. *)
Definition with_options (o : obj) (own : obj) : obj :=
  let own := foldl (fun own k => put k (js_orv (get o k) VNull) own)
    (put (js "swaggerRequestHeaders")
       (js_orv (get o (js "swaggerRequestHeaders")) (vstr "application/json;charset=utf-8,*/*")) own)
    [js "defaultSuccessCallback"; js "defaultErrorCallback"; js "modelPropertyMacro"; js "connectionAgent";
     js "parameterMacro"; js "usePromise"; js "timeout"] in
  let own := put (js "fetchSpecTimeout") (fetch_timeout o) own in
  let own := if truthy (get o (js "usePromise")) then put (js "deferredClient") (VHost (js "Object") (js "deferred")) own else own in
  let own := if is_function (get o (js "success")) then put (js "success") (get o (js "success")) own else own in
  let own := copy_option o "enableCookies" (copy_option o "jqueryAjaxCache" (copy_option o "useJQuery" own)) in
  let own := put (js "options")
    (VObj (put (js "fetchSpecTimeout") (fetch_timeout o) (put (js "timeout") (or_null o "timeout") o))) own in
  let own := put (js "supportedSubmitMethods") (js_orv (get o (js "supportedSubmitMethods")) (VArr [])) own in
  let own := put (js "failure") (js_orv (get o (js "failure")) (function "throw err")) own in
  let own := put (js "progress") (js_orv (get o (js "progress")) (function "progress")) own in
  copy_option o "scheme" (put (js "spec") (get o (js "spec")) own).

(** [initialize]: the properties, and whether [build] is called. *)
Definition initialize (origin : option jsstr) (url options : jsval) (own : obj) : res (obj * bool) :=
  let own := put (js "sampleModels") (VObj []) (put (js "models") (VObj []) own) in
  '(own, options) ← match url with
                    | VStr _ => Ok (put (js "url") url own, options)
                    | _ => if is_object url then u ← prop url (js "url"); Ok (put (js "url") u own, url)
                           else Ok (own, options)
                    end;
  address ← absolute_url origin (get own (js "url"));
  let own := put (js "url") address own in
  options ← (if truthy options then if is_object options then Ok options else Throw TypeError else Ok (VObj []));
  let own := with_options (as_obj options) own in
  let ready := truthy (get own (js "usePromise")) || is_function (get (as_obj options) (js "success")) in
  Ok (if ready then put (js "ready") (VBool true) own else own, ready).

(** [new SwaggerClient(url, options)]; [named] are the authorizations of the
    options. *)
Definition new_client (origin : option jsstr) (url options : jsval) (named : authz) : res (swagger_client * bool) :=
  if is_undef url then Ok (SwaggerClient constructed [] no_table [], false)
  else '(own, ready) ← initialize origin url options constructed;
       Ok (SwaggerClient own (add_all [] named) no_table [], ready).

(** An address with a protocol in its query is not made absolute, and nothing
    separates the origin from a relative path. *)
Example query_hides_protocol :
  absolute_url (Some (js "https://grid:8443")) (vstr "/swagger.json?back=http://other") = Ok (vstr "/swagger.json?back=http://other").
Proof. reflexivity. Qed.
Example joined_without_slash :
  absolute_url (Some (js "https://grid")) (vstr "swagger.json") = Ok (vstr "https://gridswagger.json").
Proof. reflexivity. Qed.

(** ** The request for the document *)

Section request.
Variable typed : bool.
Variable Date_parse : jsstr -> option Z.
Variable now : Z.

(** The request object before the authorizations. *)
Definition document_request (c : swagger_client) : obj :=
  let o := [(js "useJQuery", own_get "useJQuery" c); (js "jqueryAjaxCache", own_get "jqueryAjaxCache" c);
            (js "connectionAgent", own_get "connectionAgent" c); (js "enableCookies", own_get "enableCookies" c);
            (js "url", own_get "url" c); (js "method", vstr "get");
            (js "headers", VObj [(js "accept", own_get "swaggerRequestHeaders" c)])] in
  if truthy (own_get "fetchSpecTimeout" c) then put (js "timeout") (own_get "fetchSpecTimeout" c) o else o.

(** [this.clientAuthorizations.apply(obj)]: all of them, for there are no
    securities; they see the address and the headers. *)
Definition authorize (t : authz) (o : obj) : res (obj * option jar) :=
  match t with
  | [] => Ok (o, None)
  | _ =>
      u ← as_str (get o (js "url"));
      '(r, _) ← apply_all typed Date_parse now t None VUndef (Request u (as_obj (get o (js "headers"))) None);
      Ok (put (js "headers") (VObj (headers r)) (put (js "url") (VStr (url r)) o), cookieJar r)
  end.

(** What [build] does. *)
Inductive build_action :=
| AlreadyBuilt
| SetTimer (milliseconds : Z)
| MockRequest (request : obj)
| SendRequest (request : obj) (jar_ : option jar).

Definition progress_message (c : swagger_client) : jsstr :=
  if truthy (own_get "spec" c) then js "fetching resource list; Please wait."
  else js "fetching resource list: " ++ to_str (own_get "url" c) ++ js "; Please wait.".

Definition build (mock : bool) (c : swagger_client) : res (swagger_client * build_action) :=
  if truthy (own_get "isBuilt" c) then Ok (c, AlreadyBuilt)
  else if truthy (own_get "spec" c) && typeof_object (own_get "spec" c) then
    Ok (set_own (put (js "swaggerObject") (own_get "spec" c)) c, SetTimer 10)
  else
    '(o, j) ← authorize (clientAuthorizations c) (document_request c);
    Ok (c, if mock then MockRequest o else SendRequest o j).
End request.

(** ** The answer *)

(** The message of the [error] callback. *)
Definition error_message (c : swagger_client) (response : jsval) : res jsstr :=
  let url := own_get "url" c in
  no_http ← (if truthy url then u ← as_str url; Ok (negb (bool_decide (substring u 0 4 = js "http"))) else Ok false);
  if (no_http : bool) then Ok (js "Please specify the protocol for " ++ to_str url)
  else
    errObj ← prop response (js "errObj");
    timed_out ← (if truthy errObj then
                   code ← prop errObj (js "code");
                   if eq_str code (js "ECONNABORTED") then Ok true
                   else m ← prop errObj (js "message"); s ← as_str m; Ok (includes s (js "timeout"))
                 else Ok false);
    if (timed_out : bool) then Ok (js "Request timed out after " ++ to_str (own_get "fetchSpecTimeout" c) ++ js "ms")
    else
      status ← prop response (js "status");
      if eq_int status 0 then
        Ok (js "Can't read from server.  It may not have the appropriate access-control-origin settings.")
      else if eq_int status 404 then Ok (js "Can't read swagger JSON from " ++ to_str url)
      else
        statusText ← prop response (js "statusText");
        Ok (to_str status ++ js " : " ++ to_str statusText ++ js " " ++ to_str url).

(** [parseInt] of a text: sign, [0x], and the leading digits. *)
Fixpoint hex_digits (acc : option Z) (s : jsstr) : option Z :=
  match s with
  | c :: s' =>
      let d := if (48 <=? c) && (c <=? 57) then Some (c - 48)
               else if (97 <=? lower_unit c) && (lower_unit c <=? 102) then Some (lower_unit c - 87) else None in
      match d with Some d => hex_digits (Some (default 0 acc * 16 + d)) s' | None => acc end
  | [] => acc
  end.
Definition unsigned_int (s : jsstr) : option Z :=
  match s with
  | 48 :: x :: s' => if lower_unit x =? 120 then hex_digits None s' else leading_digits None s
  | _ => leading_digits None s
  end.
Definition parseInt (s : jsstr) : option Z :=
  match trim_left s with
  | 45 :: s' => Z.opp <$> unsigned_int s'
  | 43 :: s' => unsigned_int s'
  | s' => unsigned_int s'
  end.

(** [responseObj.swagger && parseInt(responseObj.swagger) === 2]. *)
Definition is_version_2 (swagger : jsval) : bool := truthy swagger && bool_decide (parseInt (to_str swagger) = Some 2).

(** ** [buildFromSpec] *)

(** What every client inherits. *)
Definition prototype_names : list jsstr :=
  [js "initialize"; js "build"; js "buildFromSpec"; js "makeUniqueOperationId"; js "parseUri"; js "help"; js "tagFromLabel";
   js "idFromOp"; js "setHost"; js "setBasePath"; js "setSchemes"; js "fail"; js "constructor"; js "toString";
   js "toLocaleString"; js "valueOf"; js "hasOwnProperty"; js "isPrototypeOf"; js "propertyIsEnumerable"].
(** The names a tag cannot take without finding something there. *)
Definition taken_names (own : obj) : list jsstr :=
  js "apis" :: js "apisArray" :: (filter (fun kv : jsstr * jsval => is_undef kv.2 = false) own).*1 ++ prototype_names.

(** The properties copied from the document. *)
Definition copy_document (response : jsval) : ST swagger_client unit :=
  r ← lift (match response with VUndef | VNull => Throw TypeError | _ => Ok (as_obj response) end);
  _ ← modify (fun c => SwaggerClient (own c) (clientAuthorizations c)
                (Client.Client [] (own_groups (table c)) [] (Client.groups (table c)) (nicknames (table c)) []) (op_entries c));
  _ ← modify (set_own (fun o => foldl (fun o '(k, v) => put k v o) o
        [(js "basePath", js_orv (get r (js "basePath")) (vstr "")); (js "consumes", get r (js "consumes"));
         (js "host", js_orv (get r (js "host")) (vstr "")); (js "info", js_orv (get r (js "info")) (VObj []));
         (js "produces", get r (js "produces")); (js "schemes", js_orv (get r (js "schemes")) (VArr []));
         (js "securityDefinitions", get r (js "securityDefinitions")); (js "security", get r (js "security"));
         (js "title", js_orv (get r (js "title")) (vstr ""))]));
  if truthy (get r (js "externalDocs")) then assign_own "externalDocs" (get r (js "externalDocs")) else mret tt.

(** The extensions of an object, for every key it had. *)
Definition extract_all (o : obj) : obj :=
  foldl (fun o' '(k, _) => extractExtensions (VStr k) o' VUndef) o (for_in o).
(** The extensions of the scopes are moved out of them. *)
Definition scope_extensions (scopes : jsval) : res jsval :=
  match scopes with
  | VObj s =>
      let s := put (js "vendorExtensions") (VObj []) s in
      Ok (VObj (foldl (fun s' '(k, _) =>
            let s' := extractExtensions (VStr k) s' VUndef in
            if startsWith k (js "x-") then JsValue.remove k s' else s') s (for_in s)))
  | VNull => Throw TypeError
  | _ => Ok scopes
  end.
Definition security_extensions (definition : jsval) : res jsval :=
  match definition with
  | VObj d =>
      d ← foldM_res (fun d '(ext, _) =>
            let d := extractExtensions (VStr ext) d VUndef in
            if bool_decide (ext = js "scopes") then scopes ← scope_extensions (get d ext); Ok (put ext scopes d) else Ok d)
          (put (js "vendorExtensions") (VObj []) d) (for_in (put (js "vendorExtensions") (VObj []) d));
      Ok (VObj d)
  | VArr _ | VHost _ _ => Ok definition
  | _ => Throw TypeError
  end.
Definition all_security_extensions (definitions : jsval) : res jsval :=
  match definitions with
  | VObj o => o ← foldM_res (fun o '(k, d) => d ← security_extensions d; Ok (put k d o)) o (for_in o); Ok (VObj o)
  | _ => Ok definitions
  end.

(** The copy of a tag with its extensions. *)
Definition tag_extensions (t : jsval) : jsval :=
  match t with
  | VObj o =>
      VObj (foldl (fun o' '(i, _) =>
        let o' := if bool_decide (i = js "externalDocs")
                  then match get o' i with VObj d => put i (VObj (extract_all d)) o' | _ => o' end else o' in
        extractExtensions (VStr i) o' VUndef) o (for_in o))
  | _ => t
  end.
Definition tag_definitions (tags : jsval) : res obj :=
  foldM_res (fun d t => name ← prop t (js "name"); Ok (put (to_str name) (tag_extensions t) d)) [] (as_arr tags).

(** The scheme and the host; [window] is the protocol of the page. *)
Definition strings (v : jsval) : res (list jsstr) :=
  match v with VArr l => Ok (to_str <$> l) | _ => Throw Unsupported end.
Definition string_opt (v : jsval) : option jsstr := if is_undef v then None else Some (to_str v).
Definition assign_opt (k : String.string) (v : option jsstr) : ST swagger_client unit :=
  match v with Some s => assign_own k (VStr s) | None => assign_own k VUndef end.
Arguments assign_opt k%_string v.
Definition select_address (window : option jsstr) : ST swagger_client unit :=
  url ← gets (own_get "url"); scheme ← gets (own_get "scheme"); schemes ← gets (own_get "schemes"); host ← gets (own_get "host");
  schemes ← lift (strings schemes);
  match url with
  | VStr u =>
      location ← lift (parseUri u);
      _ ← assign_opt "scheme" (select_scheme window (string_opt scheme) schemes (l_scheme location));
      if is_undef host || eq_str host [] then assign_own "host" (select_host [] (l_host location) (l_port location)) else mret tt
  | _ => assign_opt "scheme" (select_scheme_no_url (string_opt scheme) schemes)
  end.

(** The models of the definitions; [new Model] reads the type of each. *)
Definition build_models : ST swagger_client unit :=
  definitions ← gets (own_get "definitions");
  iterM (fun '(key, definition) =>
    _ ← lift (prop definition (js "type"));
    modify (set_own (fun o => put (js "models") (VObj (put key (VHost (js "Model") key) (as_obj (get o (js "models"))))) o)))
    (for_in_val definitions).

(** The extensions of an operation are those of its description, and the copy
    of its external documentation has its own. *)
Definition operation_extensions (operation : obj) : jsval :=
  get (foldl (fun o '(i, v) => extractExtensions (VStr i) o v) [(js "vendorExtensions", VObj [])] (for_in operation))
    (js "vendorExtensions").
Definition operation_docs (externalDocs : jsval) : res jsval :=
  if truthy externalDocs then
    match externalDocs with
    | VObj d => Ok (VObj (extract_all (put (js "vendorExtensions") (VObj []) d)))
    | VArr _ | VHost _ _ => Ok externalDocs
    | _ => Throw TypeError
    end
  else Ok externalDocs.

(** The constructor of an operation: its address and summary, and what is
    added to the object. *)
Definition new_entry (window_host : option jsstr) (own operation : obj) : res op_entry :=
  basePath ← normalize_basePath (get own (js "basePath"));
  let host := get own (js "host") in
  docs ← operation_docs (get operation (js "externalDocs"));
  Ok (OpEntry (js_orv (get operation (js "scheme")) (js_orv (get own (js "scheme")) (vstr "http")))
        (if truthy host then host else VStr (default (js "localhost") window_host)) (VStr basePath)
        (js_orv (get operation (js "summary")) (vstr "")) (operation_extensions operation) docs).

(** A loop that stops at an exception, with what was done before it. *)
Fixpoint fold_keep {A S} (f : S -> A -> S * res unit) (s : S) (l : list A) : S * res unit :=
  match l with
  | [] => (s, Ok tt)
  | x :: l' => match f s x with
               | (s', Ok _) => fold_keep f s' l'
               | (s', Throw e) => (s', Throw e)
               end
  end.
Definition keep_old {A S} (f : S -> A -> res S) (s : S) (x : A) : S * res unit :=
  match f s x with Ok s' => (s', Ok tt) | Throw e => (s, Throw e) end.

(** An operation, and its registration under its tags. *)
Definition add_entry (window_host : option jsstr) (c : swagger_client) (pmo : jsstr * jsstr * obj) : swagger_client * res unit :=
  let '(path, method, operation) := pmo in
  match idFromOp path method operation, new_entry window_host (own c) operation with
  | Ok operationId, Ok e =>
      let t := table c in
      let nick := match operationId with [] => vint 1 | _ => VStr operationId end in
      let t := Client.Client (others t) (own_groups t) (apis t) (Client.groups t) (nicknames t ++ [nick]) (apisArray t) in
      let '((t, _), r) := fold_keep (keep_old (register_tag (length (nicknames t) - 1))) (t, operationId) (operation_tags operation) in
      (set_table t (op_entries c ++ [e]) c, r)
  | Throw err, _ | Ok _, Throw err => (c, Throw err)
  end.

(** When nothing throws, the groups are those of [register_operation]. *)
Lemma fold_keep_ok {A S} (f : S -> A -> res S) l : forall s s',
  fold_keep (keep_old f) s l = (s', Ok tt) <-> foldM_res f s l = Ok s'.
Proof.
  induction l as [|x l IH]; intros s s'; cbn [fold_keep foldM_res]; [split; congruence|].
  unfold keep_old at 1. destruct (f s x) as [s1|e]; cbn [mbind res_bind]; [apply IH|split; congruence].
Qed.
Lemma add_entry_registers window_host c pmo c' :
  add_entry window_host c pmo = (c', Ok tt) -> register_operation (table c) pmo = Ok (table c').
Proof.
  destruct pmo as [[path method] operation]. unfold add_entry, register_operation.
  destruct (idFromOp _ _ _) as [id|]; [|destruct (new_entry window_host (own c) operation); congruence].
  destruct (new_entry _ _ _) as [e|]; [|congruence]. cbn [mbind res_bind]. cbv zeta.
  destruct (fold_keep _ _ _) as [[t i] r] eqn:E. intros [= <- ->]. apply fold_keep_ok in E. cbn [nicknames] in E.
  cbn [nicknames others own_groups apis Client.groups apisArray]. rewrite E. done.
Qed.

(** [definitionObj.id] and [name]; the definitions are those of the document,
    and [modelsArray] has the same objects. *)
Definition annotate (kv : jsstr * jsval) : ST swagger_client unit :=
  match kv.2 with
  | VObj d =>
      let d := VObj (put (js "name") (VStr kv.1) (put (js "id") (VStr (toLowerCase kv.1)) d)) in
      _ ← modify (set_own (fun o => put (js "definitions") (VObj (put kv.1 d (as_obj (get o (js "definitions"))))) o));
      modify (set_own (fun o => put (js "modelsArray") (VArr (as_arr (get o (js "modelsArray")) ++ [d])) o))
  | _ => lift (Throw TypeError)
  end.

Definition annotate_all (definitions : jsval) : ST swagger_client unit :=
  match definitions with
  | VArr (_ :: _) | VStr (_ :: _) => lift (Throw TypeError)
  | _ => iterM annotate (for_in_val definitions)
  end.

(** [this.success()]: a function of the options, or what a tag of that name
    put there. *)
Definition success_call (c : swagger_client) : res bool :=
  if bool_decide (js "success" ∈ (own_groups (table c)).*1) then Throw TypeError
  else Ok (truthy (own_get "success" c)).

(** [buildFromSpec] up to [isBuilt]. *)
Definition build_tables (window window_host : option jsstr) (response : jsval) : ST swagger_client unit :=
  let r := as_obj response in
  _ ← copy_document response;
  sec ← gets (own_get "securityDefinitions");
  _ ← assign_own "authSchemes" sec;
  sec ← lift (if truthy sec then all_security_extensions sec else Ok sec);
  _ ← assign_own "securityDefinitions" sec;
  _ ← assign_own "authSchemes" sec;
  defined ← lift (tag_definitions (get r (js "tags")));
  _ ← select_address window;
  _ ← assign_own "definitions" (get r (js "definitions"));
  _ ← build_models;
  _ ← modify (fun c => set_table (let t := table c in
         Client.Client (taken_names (own c)) (own_groups t) (apis t) (Client.groups t) (nicknames t) (apisArray t)) (op_entries c) c);
  _ ← (fun c => fold_keep (add_entry window_host) c (operations_of (get r (js "paths"))));
  _ ← modify (fun c => set_table (let t := table c in
         Client.Client (others t) (own_groups t) (apis t) (Client.groups t) (nicknames t)
           (sort_apis (for_in defined).*1 (apisArray t))) (op_entries c) c);
  annotate_all (get r (js "definitions")).

(** ** Extensions with a false value are lost *)

Example false_extension_lost :
  operation_extensions [(js "x-internal", VBool false); (js "x-owner", vstr "grid")] =
    VObj [(js "x-internal", VUndef); (js "x-owner", vstr "grid")].
Proof. reflexivity. Qed.

(** ** Setters and [help] *)

Definition set_entry_host (host : jsval) (e : op_entry) : op_entry :=
  OpEntry (o_scheme e) host (o_basePath e) (o_summary e) (o_vendorExtensions e) (o_externalDocs e).
Definition set_entry_basePath (basePath : jsval) (e : op_entry) : op_entry :=
  OpEntry (o_scheme e) (o_host e) basePath (o_summary e) (o_vendorExtensions e) (o_externalDocs e).
Definition set_entry_scheme (scheme : jsval) (e : op_entry) : op_entry :=
  OpEntry scheme (o_host e) (o_basePath e) (o_summary e) (o_vendorExtensions e) (o_externalDocs e).

(** The groups of [apis], and the operation objects in them. *)
Definition api_groups (c : swagger_client) : list (jsstr * group) :=
  omap (fun kv : jsstr * nat => (kv.1,.) <$> Client.groups (table c) !! kv.2) (for_in (apis (table c))).
Definition operation_numbers (c : swagger_client) : list nat :=
  List.flat_map (fun kg => (for_in (operations kg.2)).*2) (api_groups c).
Definition each_operation (f : op_entry -> op_entry) (c : swagger_client) : swagger_client :=
  set_table (table c) (foldl (fun l n => alter f n l) (op_entries c) (operation_numbers c)) c.

Definition setHost (host : jsval) (c : swagger_client) : swagger_client :=
  each_operation (set_entry_host host) (set_own (put (js "host") host) c).
Definition setBasePath (basePath : jsval) (c : swagger_client) : swagger_client :=
  each_operation (set_entry_basePath basePath) (set_own (put (js "basePath") basePath) c).
Definition setSchemes (schemes : jsval) (c : swagger_client) : swagger_client :=
  let c := set_own (put (js "schemes") schemes) c in
  match schemes with
  | VArr (s :: _) => each_operation (set_entry_scheme s) c
  | VStr (s :: _) => each_operation (set_entry_scheme (VStr [s])) c
  | _ => c
  end.

(** [help] of the client. *)
Definition help_line (c : swagger_client) (kn : jsstr * nat) : jsstr :=
  js "  * " ++ kn.1 ++ js ": " ++
  match op_entries c !! kn.2 with Some e => to_str (o_summary e) | None => js "undefined" end ++ [10].
Definition client_help (c : swagger_client) : jsstr :=
  List.concat ((fun kg => js "operations for the '" ++ kg.1 ++ js "' tag" ++ [10] ++
                          List.concat (help_line c <$> for_in (operations kg.2))) <$> api_groups c).
(** [help] of a group. *)
Definition group_help (c : swagger_client) (g : group) : jsstr :=
  js "operations for the '" ++ label g ++ js "' tag" ++ [10] ++ List.concat (help_line c <$> for_in (operations g)).
Definition tagFromLabel (label : jsval) : jsval := label.

Lemma foldl_alter {A} (f : A -> A) (ns : list nat) : (forall x, f (f x) = f x) -> forall (l : list A) n,
  foldl (fun l n => alter f n l) l ns !! n = if bool_decide (n ∈ ns) then f <$> l !! n else l !! n.
Proof.
  intros Hf. induction ns as [|m ns IH]; intros l n; cbn [foldl].
  { rewrite bool_decide_eq_false_2; [done|by apply not_elem_of_nil]. }
  rewrite IH. destruct (decide (n = m)) as [->|Hne].
  - rewrite list_lookup_alter, decide_True, (bool_decide_eq_true_2 (m ∈ m :: ns)) by (done || by left).
    case_bool_decide; [|done]. destruct (l !! m); cbn; [by rewrite Hf|done].
  - rewrite list_lookup_alter_ne by done. case_bool_decide as H.
    + rewrite bool_decide_eq_true_2; [done|by right].
    + rewrite bool_decide_eq_false_2; [done|]. by rewrite not_elem_of_cons.
Qed.

Lemma operation_listed c api g gr id n : (api, g) ∈ apis (table c) -> Client.groups (table c) !! g = Some gr ->
  (id, n) ∈ operations gr -> n ∈ operation_numbers c.
Proof.
  intros Ha Hg Hn. unfold operation_numbers, api_groups. apply list_elem_of_In, in_flat_map.
  exists (api, gr). rewrite <- !list_elem_of_In. split.
  - apply list_elem_of_omap. exists (api, g). split; [by apply for_in_elem|]. cbn. by rewrite Hg.
  - apply list_elem_of_fmap. exists (id, n). split; [done|by apply for_in_elem].
Qed.

(** [setHost], [setBasePath] and [setSchemes] reach every operation that is in
    a group of the client, through whichever tags, and change nothing else of
    it; an operation that is in no group keeps its address. *)
Theorem setters_reach c n e v rest : op_entries c !! n = Some e ->
  let reached := exists api g gr id, (api, g) ∈ apis (table c) /\ Client.groups (table c) !! g = Some gr /\ (id, n) ∈ operations gr in
  (reached -> op_entries (setHost v c) !! n = Some (set_entry_host v e) /\
              op_entries (setBasePath v c) !! n = Some (set_entry_basePath v e) /\
              op_entries (setSchemes (VArr (v :: rest)) c) !! n = Some (set_entry_scheme v e)) /\
  (n ∉ operation_numbers c -> op_entries (setHost v c) !! n = Some e /\ op_entries (setBasePath v c) !! n = Some e /\
                              op_entries (setSchemes (VArr (v :: rest)) c) !! n = Some e).
Proof.
  intros He reached. unfold setHost, setBasePath, setSchemes, each_operation, set_table, set_own. cbn [op_entries].
  change (operation_numbers (SwaggerClient _ _ _ _)) with (operation_numbers c). rewrite !foldl_alter, !He by done. split.
  - intros (api & g & gr & id & Ha & Hg & Hn). by rewrite !bool_decide_eq_true_2 by (by apply (operation_listed c api g gr id)).
  - intros Hn. by rewrite !bool_decide_eq_false_2.
Qed.

Definition settled_client (response : jsval) : swagger_client :=
  (build_tables None None response (SwaggerClient constructed [] no_table [])).1.
Definition pets_document : jsval :=
  VObj [(js "host", vstr "grid:9099"); (js "basePath", vstr "/rest/"); (js "paths", VObj
    [(js "/pets", VObj [(js "get", VObj [(js "tags", VArr [vstr "pets"; vstr "all"]); (js "operationId", vstr "list");
                                         (js "summary", vstr "List them")])])])].

Lemma setters_reach_witness :
  let e := OpEntry (vstr "http") (vstr "grid:9099") (vstr "/rest") (vstr "List them") (VObj []) VUndef in
  op_entries (setHost (vstr "other") (settled_client pets_document)) !! 0%nat = Some (set_entry_host (vstr "other") e) /\
  op_entries (setBasePath (vstr "other") (settled_client pets_document)) !! 0%nat = Some (set_entry_basePath (vstr "other") e) /\
  op_entries (setSchemes (VArr [vstr "other"]) (settled_client pets_document)) !! 0%nat = Some (set_entry_scheme (vstr "other") e).
Proof.
  apply (setters_reach (settled_client pets_document) 0 _ (vstr "other") [] ltac:(vm_compute; reflexivity)).
  exists (js "all"), 1%nat, (Group (js "all") [(js "list", 0%nat)]), (js "list"). vm_compute. split; [right; left|split; [done|left]].
Defined.

(** An operation whose place in its group is taken is not reached. *)
Example overwritten_not_reached :
  (o_host <$> op_entries (setHost (vstr "other") (settled_client three_gets))) = [vstr "other"; vstr "localhost"; vstr "other"].
Proof. vm_compute. reflexivity. Qed.

(** ** The build as a state machine *)

Inductive settlement := Fulfilled | Rejected (message : jsstr).

(** The client, what is outstanding (timers, requests, conversions,
    documents the resolver fetches for), and what was called back. *)
Record building := Building {
  me : swagger_client;
  timers : nat;
  sent : nat;
  converting : nat;
  resolving : nat;
  successes : nat;
  failures : list jsstr;
  promise : option settlement
}.
Definition with_me (c : swagger_client) (st : building) : building :=
  Building c (timers st) (sent st) (converting st) (resolving st) (successes st) (failures st) (promise st).
Definition own_set (k : String.string) (v : jsval) (st : building) : building := with_me (set_own (put (js k) v) (me st)) st.
Arguments own_set k%_string v st.
Definition settle (s : settlement) (st : building) : building :=
  Building (me st) (timers st) (sent st) (converting st) (resolving st) (successes st) (failures st)
    (Some (default s (promise st))).
Definition succeed (st : building) : building :=
  Building (me st) (timers st) (sent st) (converting st) (resolving st) (S (successes st)) (failures st) (promise st).

(** [fail]: the promise, or the callback. *)
Definition fail (message : jsstr) (st : building) : building :=
  if truthy (own_get "usePromise" (me st)) then settle (Rejected message) st
  else Building (me st) (timers st) (sent st) (converting st) (resolving st) (successes st) (failures st ++ [message]) (promise st).

Section building.
Context (typed : bool) (Date_parse : jsstr -> option Z) (now : Z) (window window_host : option jsstr).
(** [Resolver.resolve]: the document when it calls back at once, or nothing
    when it fetches other documents first. *)
Context (resolve : jsval -> option jsval).

(** [buildFromSpec]; the second result is whether it returned. *)
Definition buildFromSpec (response : jsval) (st : building) : building * bool :=
  if truthy (own_get "isBuilt" (me st)) then (st, true)
  else
    match build_tables window window_host response (me st) with
    | (c, Throw _) => (with_me c st, false)
    | (c, Ok _) =>
        let st := own_set "isBuilt" (VBool true) (with_me c st) in
        if truthy (own_get "usePromise" c) then (settle Fulfilled (own_set "isValid" (VBool true) st), true)
        else match success_call c with
             | Ok true => (succeed st, true)
             | Ok false => (st, true)
             | Throw _ => (st, false)
             end
    end.

Definition start_resolve (document : jsval) (st : building) : building * bool :=
  match resolve document with
  | Some d => buildFromSpec d st
  | None => (Building (me st) (timers st) (sent st) (converting st) (S (resolving st)) (successes st) (failures st) (promise st), true)
  end.
(** [new Resolver().resolve(...); self.isValid = true]. *)
Definition resolve_and_mark (document : jsval) (st : building) : building :=
  match start_resolve document st with
  | (st, true) => own_set "isValid" (VBool true) st
  | (st, false) => st
  end.

(** [build], with what it starts. *)
Definition call_build (st : building) : building :=
  match build typed Date_parse now false (me st) with
  | Ok (c, SetTimer _) =>
      Building c (S (timers st)) (sent st) (converting st) (resolving st) (successes st) (failures st) (promise st)
  | Ok (c, SendRequest _ _) =>
      Building c (timers st) (S (sent st)) (converting st) (resolving st) (successes st) (failures st) (promise st)
  | Ok (c, _) => with_me c st
  | Throw _ => st
  end.

(** The callbacks. *)
Definition timer_over (st : building) : building :=
  Building (me st) (pred (timers st)) (sent st) (converting st) (resolving st) (successes st) (failures st) (promise st).
Definition request_over (st : building) : building :=
  Building (me st) (timers st) (pred (sent st)) (converting st) (resolving st) (successes st) (failures st) (promise st).
Definition conversion_over (st : building) : building :=
  Building (me st) (timers st) (sent st) (pred (converting st)) (resolving st) (successes st) (failures st) (promise st).
Definition resolving_over (st : building) : building :=
  Building (me st) (timers st) (sent st) (converting st) (pred (resolving st)) (successes st) (failures st) (promise st).

Definition on_timer (st : building) : building := (start_resolve (own_get "spec" (me st)) st).1.
Definition on_error (response : jsval) (st : building) : building :=
  match error_message (me st) response with Ok m => fail m st | Throw _ => st end.
Definition on_response (responseObj : jsval) (st : building) : building :=
  if negb (truthy responseObj) then fail (js "failed to parse JSON/YAML response") st
  else
    let r := as_obj responseObj in
    let st := own_set "swaggerObject" responseObj (own_set "swaggerVersion" (get r (js "swaggerVersion")) st) in
    if is_version_2 (get r (js "swagger")) then
      resolve_and_mark responseObj (own_set "swaggerVersion" (get r (js "swagger")) st)
    else
      let st := own_set "oldSwaggerObject" responseObj st in
      Building (me st) (timers st) (sent st) (S (converting st)) (resolving st) (successes st) (failures st) (promise st).
Definition on_converted (spec : jsval) (st : building) : building :=
  resolve_and_mark spec (own_set "swaggerObject" spec st).

Inductive step : building -> building -> Prop :=
| Build st : step st (call_build st)
| Timer st : (0 < timers st)%nat -> step st (on_timer (timer_over st))
| Failed response st : (0 < sent st)%nat -> step st (on_error response (request_over st))
| Answered responseObj st : (0 < sent st)%nat -> step st (on_response responseObj (request_over st))
| Converted spec st : (0 < converting st)%nat -> step st (on_converted spec (conversion_over st))
| Resolved document st : (0 < resolving st)%nat -> step st (buildFromSpec document (resolving_over st)).1.
End building.

(** A client that nothing was done with. *)
Definition idle (c : swagger_client) : building := Building c 0 0 0 0 0 [] None.

(** ** A client is built once *)

Definition is_built (st : building) : bool := truthy (own_get "isBuilt" (me st)).
(** What the operations of the client are. *)
Definition built_tables (st : building) : Client.client * list op_entry := (table (me st), op_entries (me st)).
(** Nothing of it changes. *)
Definition same_build (st st' : building) : Prop :=
  is_built st' = is_built st /\ built_tables st' = built_tables st /\ successes st' = successes st.
#[export] Instance same_build_preorder : PreOrder same_build.
Proof.
  split; [by intros st|]. intros a b c (H1 & H2 & H3) (G1 & G2 & G3). repeat split; congruence.
Qed.

Lemma own_set_same k v st : js k <> js "isBuilt" -> same_build st (own_set k v st).
Proof. intros H. repeat split. unfold is_built, own_set, own_get, with_me, set_own. cbn [me own]. by rewrite get_put_ne. Qed.
Lemma fail_same m st : same_build st (fail m st).
Proof. unfold fail. by destruct (truthy _). Qed.

Definition counted (st : building) : Prop :=
  (successes st <= 1)%nat /\ (is_built st = false -> successes st = O /\ promise st <> Some Fulfilled).

Section once.
Context (typed : bool) (Date_parse : jsstr -> option Z) (now : Z) (window window_host : option jsstr).
Context (resolve : jsval -> option jsval).
Abbreviation buildFromSpec := (buildFromSpec window window_host).
Abbreviation start_resolve := (start_resolve window window_host resolve).
Abbreviation resolve_and_mark := (resolve_and_mark window window_host resolve).
Abbreviation step := (step typed Date_parse now window window_host resolve).

#[local] Ltac keys := (vm_compute; done).

(** A built client. *)
Lemma buildFromSpec_built d st : is_built st = true -> (buildFromSpec d st).1 = st.
Proof. unfold is_built, ClientBuild.buildFromSpec. intros H. by rewrite H. Qed.
Lemma start_resolve_built d st : is_built st = true -> same_build st (start_resolve d st).1.
Proof.
  intros H. unfold ClientBuild.start_resolve. destruct (resolve d); [|done]. by rewrite buildFromSpec_built.
Qed.
Lemma resolve_and_mark_built d st : is_built st = true -> same_build st (resolve_and_mark d st).
Proof.
  intros H. unfold ClientBuild.resolve_and_mark. pose proof (start_resolve_built d st H) as Hs.
  destruct (start_resolve d st) as [st' []]; cbn [fst] in Hs; [|done]. etransitivity; [exact Hs|]. apply own_set_same. keys.
Qed.
Lemma built_step st st' : is_built st = true -> step st st' -> same_build st st'.
Proof.
  intros Hb Hs. inversion Hs as [s|s _|r s _|r s _|d s _|d s _]; subst; clear Hs.
  - unfold call_build, build. unfold is_built in Hb. rewrite Hb. done.
  - by apply (start_resolve_built _ (timer_over st)).
  - unfold on_error. destruct (error_message _ _); [|done]. apply (fail_same _ (request_over st)).
  - unfold on_response. destruct (negb _); [apply (fail_same _ (request_over st))|]. cbv zeta.
    set (s1 := own_set "swaggerObject" _ (own_set _ _ _)). assert (H1 : same_build st s1).
    { etransitivity; [eapply (own_set_same "swaggerVersion" _ (request_over st)); keys|]. apply own_set_same. keys. }
    destruct (is_version_2 _).
    + set (s2 := own_set "swaggerVersion" _ s1). assert (H2 : same_build st s2).
      { etransitivity; [exact H1|]. apply own_set_same. keys. }
      etransitivity; [exact H2|]. apply resolve_and_mark_built. destruct H2 as [-> _]. done.
    + etransitivity; [exact H1|]. eapply (own_set_same "oldSwaggerObject"). keys.
  - unfold on_converted. assert (H1 : same_build st (own_set "swaggerObject" d (conversion_over st))).
    { eapply (own_set_same "swaggerObject" _ (conversion_over st)). keys. }
    etransitivity; [exact H1|]. apply resolve_and_mark_built. destruct H1 as [-> _]. done.
  - by rewrite (buildFromSpec_built d (resolving_over st)).
Qed.

(** A client that is not built. *)
Lemma counted_kept st st' : counted st -> same_build st st' -> (promise st' = Some Fulfilled -> promise st = Some Fulfilled) ->
  counted st'.
Proof.
  intros [H1 H2] (E1 & _ & E3) Hp. unfold counted. rewrite E1, E3. split; [done|]. intros Hb. destruct (H2 Hb) as [H3 H4]. auto.
Qed.
Lemma own_set_counted k v st : js k <> js "isBuilt" -> counted st -> counted (own_set k v st).
Proof. intros Hk H. apply (counted_kept st); [done|by apply own_set_same|done]. Qed.
Lemma fail_counted m st : counted st -> counted (fail m st).
Proof.
  intros H. apply (counted_kept st); [done|apply fail_same|]. unfold fail. destruct (truthy _); [|done]. cbn.
  by destruct (promise st) as [[]|].
Qed.
Lemma buildFromSpec_counted d st : counted st -> counted (buildFromSpec d st).1.
Proof.
  intros H. unfold ClientBuild.buildFromSpec. destruct (truthy _) eqn:Eb; [done|].
  destruct H as [H1 H2]. destruct (H2 Eb) as [Hs Hp]. destruct (build_tables _ _ _ _) as [c [?|?]]; cbn [fst].
  - assert (Hb : is_built (own_set "isBuilt" (VBool true) (with_me c st)) = true).
    { unfold is_built, own_set, own_get, with_me, set_own. cbn [me own]. by rewrite get_put_eq. }
    assert (Hc : forall st', is_built st' = true -> (successes st' <= 1)%nat -> counted st').
    { intros st' E Hle. split; [done|]. by rewrite E. }
    destruct (truthy (own_get "usePromise" c)); [|destruct (success_call c) as [[]|]]; cbn [fst]; apply Hc; try done;
      cbn [successes succeed settle own_set with_me]; try lia.
    etransitivity; [|exact Hb]. apply (own_set_same "isValid" (VBool true) (own_set "isBuilt" (VBool true) (with_me c st))). keys.
  - split; cbn; [lia|done].
Qed.
Lemma resolve_and_mark_counted d st : counted st -> counted (resolve_and_mark d st).
Proof.
  intros H. unfold ClientBuild.resolve_and_mark, ClientBuild.start_resolve. destruct (resolve d) as [d'|].
  - pose proof (buildFromSpec_counted d' st H) as Hs. destruct (buildFromSpec d' st) as [st' []]; cbn [fst] in Hs; [|done].
    apply own_set_counted; [keys|done].
  - apply own_set_counted; [keys|done].
Qed.
Lemma step_counted st st' : counted st -> step st st' -> counted st'.
Proof.
  intros H Hs. inversion Hs as [s|s _|r s _|r s _|d s _|d s _]; subst; clear Hs.
  - unfold call_build, build. destruct (truthy (own_get "isBuilt" (me st))) eqn:Eb; [done|].
    destruct (truthy (own_get "spec" (me st)) && _).
    + apply (own_set_counted "swaggerObject" (own_get "spec" (me st)) st); [keys|done].
    + destruct (authorize _ _ _ _ _) as [[o j]|]; done.
  - unfold on_timer, ClientBuild.start_resolve. destruct (resolve _); [by apply buildFromSpec_counted|done].
  - unfold on_error. destruct (error_message _ _); [by apply (fail_counted _ (request_over st))|done].
  - unfold on_response. destruct (negb _); [by apply (fail_counted _ (request_over st))|]. cbv zeta.
    assert (H1 : counted (own_set "swaggerObject" r (own_set "swaggerVersion" (get (as_obj r) (js "swaggerVersion")) (request_over st)))).
    { do 2 (apply own_set_counted; [keys|]). done. }
    destruct (is_version_2 _); [apply resolve_and_mark_counted, own_set_counted; [keys|done]|].
    by apply (own_set_counted "oldSwaggerObject"); [keys|].
  - apply resolve_and_mark_counted, own_set_counted; [keys|done].
  - by apply buildFromSpec_counted.
Qed.
End once.

(** C28. However often [build] is called, and in whatever order timers, answers,
    conversions and resolved documents come, a client is built once: the
    success callback is called at most once, it is called (and the promise
    fulfilled) only when the client is built, and from then on the operations,
    their groups and the count of callbacks stay as they are. *)
Theorem built_once typed Date_parse now window window_host resolve c st :
  truthy (own_get "isBuilt" c) = false -> rtc (step typed Date_parse now window window_host resolve) (idle c) st ->
  (successes st <= 1)%nat /\
  ((0 < successes st)%nat \/ promise st = Some Fulfilled -> is_built st = true) /\
  (is_built st = true -> forall st', rtc (step typed Date_parse now window window_host resolve) st st' -> same_build st st').
Proof.
  intros Hc Hr. assert (H : counted st).
  { revert Hr. apply (rtc_ind_r counted); [split; [cbn; lia|done]|]. intros s s' _ Hs H. by apply (step_counted typed Date_parse now window window_host resolve s). }
  destruct H as [H1 H2]. split; [done|]. split.
  - intros Hor. apply not_false_iff_true. intros E. destruct (H2 E) as [E1 E2]. destruct Hor; [lia|done].
  - intros Hb st' Hst. revert Hst. apply rtc_ind_r; [done|]. intros s s' _ Hs H. etransitivity; [exact H|].
    apply (built_step typed Date_parse now window window_host resolve); [|done]. destruct H as [-> _]. done.
Qed.

(** A document without references to other documents. *)
Definition at_once (d : jsval) : option jsval := Some d.
Definition with_success (spec : jsval) : swagger_client :=
  match new_client None (VObj [(js "url", vstr "http://grid/swagger.json"); (js "spec", spec); (js "success", function "success")]) VUndef [] with
  | Ok (c, _) => c
  | Throw _ => SwaggerClient [] [] no_table []
  end.
Definition version_2 : jsval :=
  VObj ((js "swagger", vstr "2.0") :: as_obj pets_document).
Definition no_parse (s : jsstr) : option Z := None.

(** Two calls of [build], two answers: one callback; and a request that fails
    after that still calls [failure]. *)
Definition twice : building := call_build true no_parse 0 (call_build true no_parse 0 (idle (with_success VUndef))).
Definition answered : building := on_response None None at_once version_2 (request_over twice).
Definition late : building := on_error (VObj [(js "status", vint 404)]) (request_over answered).
Lemma built_once_witness :
  (successes late <= 1)%nat /\
  ((0 < successes late)%nat \/ promise late = Some Fulfilled -> is_built late = true) /\
  (is_built late = true -> forall st', rtc (step true no_parse 0 None None at_once) late st' -> same_build late st').
Proof.
  apply (built_once true no_parse 0 None None at_once (with_success VUndef) late); [vm_compute; reflexivity|].
  apply (rtc_l _ _ (call_build true no_parse 0 (idle (with_success VUndef)))); [apply Build|].
  apply (rtc_l _ _ twice); [apply Build|].
  apply (rtc_l _ _ answered); [apply Answered; apply Nat.ltb_lt; vm_compute; reflexivity|].
  apply (rtc_l _ _ late); [apply Failed; apply Nat.ltb_lt; vm_compute; reflexivity|]. apply rtc_refl.
Defined.
Example late_failure : successes late = 1%nat /\ failures late = [js "Can't read swagger JSON from http://grid/swagger.json"].
Proof. vm_compute. done. Qed.

(** A client that is given its document is never marked valid. *)
Definition from_spec : building :=
  on_timer None None at_once (timer_over (call_build true no_parse 0 (idle (with_success version_2)))).
Example spec_not_valid :
  is_built from_spec = true /\ successes from_spec = 1%nat /\ own_get "isValid" (me from_spec) = VBool false.
Proof. vm_compute. done. Qed.

(** Without a callback, a tag called success is called as one. *)
Definition success_tag : jsval :=
  VObj [(js "paths", VObj [(js "/a", VObj [(js "get", VObj (with_id [vstr "success"] "list"%string))])])].
Example success_tag_called :
  (fun r => (is_built r.1, r.2)) (buildFromSpec None None success_tag (idle (SwaggerClient constructed [] no_table []))) = (true, false).
Proof. vm_compute. done. Qed.
