(* ===== verification/EventLoop.v ===== *)
(** * Deferred tasks

    The [process] shim of swagger-ui.js: [process.nextTick] queues a task and
    sets a timer, the timer drains the queue.  A state machine: calls from
    outside, timers that fire, and the steps of a drain.  A task is known by a
    number; what it does, the tasks it queues itself and whether it throws
    after that, is a parameter. *)

From S2P Require Import Prelude.
From stdpp Require Import relations.

Abbreviation task := nat.

(** [current] is what is left of [currentQueue] while [drainQueue] runs. *)
Record loop := Loop {
  queue : list task;
  draining : bool;
  current : option (list task);
  timers : nat
}.

Definition start : loop := Loop [] false None O.

(** What an observer sees: a task is queued, a task is run. *)
Inductive tick := Queued (f : task) | Ran (f : task).

(** [process.nextTick]. *)
Definition nextTick (fun_ : task) (st : loop) : loop * list tick :=
  (Loop (queue st ++ [fun_]) (draining st) (current st) (if draining st then timers st else S (timers st)),
   [Queued fun_]).

(** The calls of [nextTick] a task makes. *)
Definition nextTicks (l : list task) (st : loop) : loop * list tick :=
  foldl (fun '(st, tr) g => let '(st, t) := nextTick g st in (st, tr ++ t)) (st, []) l.

Section EventLoop.
Context (body : task -> list task * bool).

(** Entering [drainQueue] from a timer. *)
Definition timer_fires (st : loop) : loop :=
  if draining st then Loop (queue st) true (current st) (timers st - 1)
  else Loop (queue st) true (Some []) (timers st - 1).

(** [currentQueue[i]()]; an exception leaves [drainQueue] with the flag set. *)
Definition run_task (f : task) (rest : list task) (st : loop) : loop * list tick :=
  let '(spawned, throws) := body f in
  let '(st, tr) := nextTicks spawned st in
  (Loop (queue st) (draining st) (if throws : bool then None else Some rest) (timers st), Ran f :: tr).

(** A step of a drain: the next task, the next batch, or the end. *)
Definition drain_step (st : loop) : option (loop * list tick) :=
  match current st with
  | Some (f :: rest) => Some (run_task f rest st)
  | Some [] =>
      Some (match queue st with
            | [] => Loop [] false None (timers st)
            | batch => Loop [] (draining st) (Some batch) (timers st)
            end, [])
  | None => None
  end.

(** [drainQueue]: as many steps as the fuel allows. *)
Fixpoint drainQueue (fuel : nat) (st : loop) : loop * list tick :=
  match fuel with
  | O => (st, [])
  | S f =>
      match drain_step st with
      | Some (st', tr) => let '(st'', tr') := drainQueue f st' in (st'', tr ++ tr')
      | None => (st, [])
      end
  end.

(** Nothing else runs during a drain. *)
Inductive step : loop -> list tick -> loop -> Prop :=
| step_tick st f st' tr : current st = None -> nextTick f st = (st', tr) -> step st tr st'
| step_timer st : current st = None -> (0 < timers st)%nat -> step st [] (timer_fires st)
| step_drain st tr st' : drain_step st = Some (st', tr) -> step st tr st'.

(** The runs of the loop, with what was seen. *)
Inductive steps : loop -> list tick -> loop -> Prop :=
| steps_refl st : steps st [] st
| steps_step st tr st' tr' st'' : steps st tr st' -> step st' tr' st'' -> steps st (tr ++ tr') st''.

Lemma steps_cons st tr st' tr' st'' : step st tr st' -> steps st' tr' st'' -> steps st (tr ++ tr') st''.
Proof.
  intros H1 H2. revert H1. induction H2 as [st'|st' t1 s2 t2 s3 _ IH H3]; intros H1.
  - rewrite <- (app_nil_l tr), <- app_assoc, app_nil_r. eapply steps_step; [apply steps_refl|done].
  - rewrite app_assoc. eapply steps_step; [by apply IH|done].
Qed.

(** ** What the loop promises: a queue

    The abstract machine: tasks wait in one line.  It follows what is seen of
    the loop, and has no step when a task is run that is not the first of the
    line. *)
Fixpoint fifo (tr : list tick) (line : list task) : option (list task) :=
  match tr, line with
  | [], _ => Some line
  | Queued f :: tr, _ => fifo tr (line ++ [f])
  | Ran f :: tr, g :: line => if decide (f = g) then fifo tr line else None
  | Ran _ :: _, [] => None
  end.

Definition queued (tr : list tick) : list task := omap (fun t => match t with Queued f => Some f | Ran _ => None end) tr.
Definition ran (tr : list tick) : list task := omap (fun t => match t with Ran f => Some f | Queued _ => None end) tr.

(** The line of the loop: the batch being drained comes before the queue. *)
Definition line (st : loop) : list task := default [] (current st) ++ queue st.

Definition busy (st : loop) : bool := match current st with Some _ => true | None => false end.

(** The flag tells whether a drain is on, and work that waits has a timer. *)
Definition scheduled (st : loop) : Prop :=
  draining st = busy st /\ (current st = None -> queue st <> [] -> (0 < timers st)%nat).

Lemma fifo_app tr tr' : forall l, fifo (tr ++ tr') l = l' ← fifo tr l; fifo tr' l'.
Proof.
  induction tr as [|[f|f] tr IH]; intros l; cbn; [done|apply IH|]. destruct l as [|g l]; [done|].
  by destruct (decide (f = g)).
Qed.

(** A queue runs its tasks in the order in which they came, each once. *)
Lemma fifo_in_order tr : forall l l', fifo tr l = Some l' -> l ++ queued tr = ran tr ++ l'.
Proof.
  unfold queued, ran. induction tr as [|[f|f] tr IH]; intros l l' H; cbn in *.
  - injection H as ->. by rewrite app_nil_r.
  - apply IH in H. by rewrite <- app_assoc in H.
  - destruct l as [|g l]; [done|]. destruct (decide (f = g)) as [->|]; [|done]. cbn. by rewrite (IH l l' H).
Qed.

Lemma fifo_queued l : forall m, fifo (Queued <$> l) m = Some (m ++ l).
Proof. induction l as [|f l IH]; intros m; cbn; [by rewrite app_nil_r|]. by rewrite IH, <- app_assoc. Qed.

Lemma ran_queued l : ran (Queued <$> l) = [].
Proof. by induction l. Qed.

Lemma ticks_state l st : exists t,
  nextTicks l st = (Loop (queue st ++ l) (draining st) (current st) t, Queued <$> l) /\ (draining st = true -> t = timers st) /\
  (timers st <= t)%nat.
Proof.
  unfold nextTicks. rewrite <- (app_nil_l (Queued <$> l)). generalize (@nil tick) as tr. revert st.
  induction l as [|g l IH]; intros st tr; cbn.
  - exists (timers st). rewrite !app_nil_r. by destruct st.
  - destruct (IH (nextTick g st).1 (tr ++ [Queued g])) as (t & E & Ht & Hle). exists t. split.
    + etrans; [exact E|]. cbn. by rewrite <- !app_assoc.
    + cbn in Ht, Hle. destruct (draining st); [by split|]. split; [done|lia].
Qed.

(** No task that was run threw. *)
Definition no_throw (tr : list tick) : Prop := Forall (fun f => (body f).2 = false) (ran tr).

Lemma no_throw_app tr tr' : no_throw (tr ++ tr') <-> no_throw tr /\ no_throw tr'.
Proof. unfold no_throw, ran. rewrite omap_app. apply Forall_app. Qed.

(** Every step of the loop is one of the queue. *)
Lemma step_follows st tr st' :
  no_throw tr -> scheduled st -> step st tr st' -> fifo tr (line st) = Some (line st') /\ scheduled st'.
Proof.
  unfold scheduled, busy, line. intros Hb (Hd & Ht) H.
  inversion H as [st1 f st2 tr' Hc Hn|st1 Hc Hn|st1 tr1 st2 Hs]; subst; clear H.
  - unfold nextTick in Hn. injection Hn as <- <-. cbn. rewrite Hc in Hd |- *. rewrite Hd. split; [done|]. split; [done|]. intros; lia.
  - unfold timer_fires. rewrite Hc in Hd |- *. rewrite Hd. by cbn.
  - unfold drain_step in Hs. destruct (current st) as [[|f rest]|] eqn:Hc; [| |done].
    + injection Hs as <- <-. destruct (queue st) as [|g q] eqn:Eq; cbn; [done|]. rewrite app_nil_r. by rewrite Hd.
    + injection Hs as Hs. unfold run_task in Hs. destruct (ticks_state (body f).1 st) as (t & E & _). destruct (body f) as [spawned throws] eqn:Ef.
      cbn [fst] in E. rewrite E in Hs. cbn in Hs. injection Hs as <- <-.
      assert (throws = false) as ->. { apply Forall_inv in Hb. by rewrite Ef in Hb. }
      cbn. rewrite decide_True by done. rewrite fifo_queued, <- app_assoc. by rewrite Hd.
Qed.

(** C27. As long as no task throws, the loop is a queue: whatever calls come
    from outside and whenever timers fire, a first-in first-out queue accepts
    what is seen of the loop, and has the same tasks waiting; so the tasks
    that were queued, by whomever, are the ones that were run followed by the
    ones that wait, in the order in which they were queued; and when nothing
    is draining, work that waits has a timer to serve it. *)
Theorem refines_fifo tr st :
  steps start tr st -> no_throw tr ->
  fifo tr [] = Some (line st) /\ queued tr = ran tr ++ line st /\
  (current st = None -> draining st = false /\ (line st <> [] -> (0 < timers st)%nat)).
Proof.
  intros Hr Hn. assert (H : fifo tr [] = Some (line st) /\ scheduled st).
  { remember start as s0 eqn:E0. induction Hr as [s|s tr s1 tr' s2 _ IH H12]; [by subst|].
    apply no_throw_app in Hn as [Hn Hn']. destruct (IH E0 Hn) as [Hf Hs]. rewrite fifo_app, Hf. cbn. by apply step_follows. }
  destruct H as [Hf (Hd & Ht)]. split; [done|]. split; [by apply fifo_in_order in Hf|].
  intros Hc. unfold busy in Hd. unfold line. rewrite Hc in Hd |- *. by split; [|apply Ht].
Qed.

(** ** Draining ends

    When the tasks that a task queues weigh less together than it does, a
    drain takes at most two steps for each unit of weight. *)
Section weight.
Context (weight : task -> nat).
Hypothesis lighter : forall f, (foldr (fun g n => weight g + n) O (body f).1 < weight f)%nat.

Definition weigh (l : list task) : nat := foldr (fun g n => (weight g + n)%nat) O l.
Lemma weigh_app l m : weigh (l ++ m) = (weigh l + weigh m)%nat.
Proof using. clear lighter. induction l as [|f l IH]; [done|]. cbn [app]. change (weight f + weigh (l ++ m) = weight f + weigh l + weigh m)%nat. lia. Qed.

Definition left_over (st : loop) : nat :=
  2 * weigh (line st) + match current st with Some [] => 2 | Some _ => 1 | None => 0 end.

Lemma drain_step_lighter st st' tr : drain_step st = Some (st', tr) -> (left_over st' < left_over st)%nat.
Proof using lighter.
  unfold drain_step, left_over, line. destruct (current st) as [[|f rest]|]; [| |done]; intros H.
  - injection H as <- <-. destruct (queue st) as [|g q]; cbn [current queue from_option app id]; [cbn; lia|]. rewrite app_nil_r. lia.
  - injection H as H. unfold run_task in H. pose proof (lighter f) as Hf. destruct (ticks_state (body f).1 st) as (t & E & _).
    destruct (body f) as [spawned throws]. cbn [fst] in *. rewrite E in H. injection H as <- <-.
    change (foldr _ O spawned) with (weigh spawned) in Hf. cbn [current queue from_option app id].
    change (weigh (f :: ?l)) with (weight f + weigh l)%nat.
    destruct throws; cbn [from_option app id]; rewrite !weigh_app; [lia|]. destruct rest; lia.
Qed.

Lemma drain_ends n : forall st, (left_over st <= n)%nat -> current (drainQueue n st).1 = None.
Proof using lighter.
  induction n as [|n IH]; intros st Hn; cbn [drainQueue].
  - unfold left_over in Hn. cbn [fst]. destruct (current st) as [[|? ?]|]; [lia|lia|done].
  - destruct (drain_step st) as [[st' tr]|] eqn:E.
    + specialize (IH st' ltac:(pose proof (drain_step_lighter st st' tr E); lia)). by destruct (drainQueue n st').
    + unfold drain_step in E. cbn. by destruct (current st) as [[|? ?]|].
Qed.
End weight.

(** ** Exceptions *)

Lemma wedged_step st tr st' :
  current st = None -> draining st = true -> step st tr st' -> current st' = None /\ draining st' = true /\ ran tr = [].
Proof.
  intros Hc Hd H. inversion H as [st1 f st2 tr' _ Hn|st1 _ _|st1 tr1 st2 Hs]; subst.
  - unfold nextTick in Hn. by injection Hn as <- <-.
  - unfold timer_fires. by rewrite Hd.
  - unfold drain_step in Hs. by rewrite Hc in Hs.
Qed.

(** A task that throws ends the loop for good: the flag stays set, so
    whatever is queued and whichever timers fire after it, no task ever runs
    again, the rest of its batch included. *)
Theorem throw_wedges st f rest st1 tr1 st2 tr2 :
  current st = Some (f :: rest) -> draining st = true -> (body f).2 = true ->
  drain_step st = Some (st1, tr1) -> steps st1 tr2 st2 ->
  ran (tr1 ++ tr2) = [f] /\ draining st2 = true /\ current st2 = None.
Proof.
  intros Hc Hd Hb Hs Hr. unfold drain_step in Hs. rewrite Hc in Hs. injection Hs as Hs. unfold run_task in Hs.
  destruct (ticks_state (body f).1 st) as (t & E & _). destruct (body f) as [spawned throws]. cbn [fst snd] in Hb, E. subst throws.
  rewrite E in Hs. cbn in Hs. injection Hs as <- <-. rewrite Hd in Hr.
  assert (H : ran tr2 = [] /\ draining st2 = true /\ current st2 = None).
  { remember (Loop _ _ _ _) as s0 eqn:E0. induction Hr as [s|s tr s1 tr' s2 _ IH H12]; [by subst|].
    destruct (IH E0) as (R & D & C). destruct (wedged_step _ _ _ C D H12) as (C' & D' & R'). unfold ran in *. by rewrite omap_app, R, R'. }
  destruct H as (R & H). split; [|done]. unfold ran in *. rewrite omap_app, R, app_nil_r. cbn. by rewrite ran_queued.
Qed.
End EventLoop.

(** A task 1 that queues task 2, and a task 3 that throws. *)
Definition quiet (f : task) : list task * bool := (match f with 1%nat => [2%nat] | _ => [] end, false).
Definition noisy (f : task) : list task * bool := ([], Nat.eqb f 3).

(** Two tasks are queued, the timer fires, the first runs and queues a third. *)
Definition two_queued : loop := (nextTick 4%nat (nextTick 1%nat start).1).1.
Definition after_first : loop * list tick := drainQueue quiet 2 (timer_fires two_queued).

Lemma drained body n : forall st, steps body st (drainQueue body n st).2 (drainQueue body n st).1.
Proof.
  induction n as [|n IH]; intros st; cbn [drainQueue]; [apply steps_refl|].
  destruct (drain_step body st) as [[st' tr]|] eqn:E; [|apply steps_refl]. specialize (IH st').
  destruct (drainQueue body n st') as [st'' tr']. eapply steps_cons; [by apply step_drain|done].
Qed.

Lemma refines_fifo_witness :
  let tr := [Queued 1%nat; Queued 4%nat; Ran 1%nat; Queued 2%nat] in
  fifo tr [] = Some (line after_first.1) /\ queued tr = ran tr ++ line after_first.1 /\
  (current after_first.1 = None -> draining after_first.1 = false /\ (line after_first.1 <> [] -> (0 < timers after_first.1)%nat)).
Proof.
  apply (refines_fifo quiet); [|by repeat constructor].
  eapply (steps_cons quiet _ [Queued 1%nat]); [by eapply step_tick|].
  eapply (steps_cons quiet _ [Queued 4%nat]); [by eapply step_tick|].
  eapply (steps_cons quiet _ []); [by apply step_timer; [|cbn; lia]|]. apply (drained quiet 2).
Defined.

Lemma throw_wedges_witness :
  let st := Loop [] true (Some [3%nat; 1%nat]) O in
  ran ([Ran 3%nat] ++ [Queued 2%nat]) = [3%nat] /\ draining (Loop [2%nat] true None O) = true /\
  current (Loop [2%nat] true None O) = None.
Proof.
  apply (throw_wedges noisy (Loop [] true (Some [3%nat; 1%nat]) O) 3%nat [1%nat] (Loop [] true None O) [Ran 3%nat]
    (Loop [2%nat] true None O) [Queued 2%nat]); try done.
  apply (steps_step _ _ [] (Loop [] true None O)); [apply steps_refl|]. by apply (step_tick _ (Loop [] true None O) 2%nat).
Defined.
