(* ===== verification/Promises.v ===== *)
(** * Promises

    The promises of Q inside swagger-ui.js, which the client hands out with
    [usePromise]: deferreds, [then], the other messages of promises, and the
    queue of tasks they are run from.  A promise is a location; it is pending,
    has become another promise, or is settled.  A call of [then] is a reaction
    with the promise it returns.

    Functions are values of a type [F], and what they share with each other is
    a store of a type [U]: [invoke] is what a call of a function does, which
    uses promises like any other code (the relation [api]) and returns a value
    or throws; [perform] is what the other operations do to a value.  [Guard]
    is what a function and a store may mention.  Combinators.v has the
    functions of Q's own.  Objects with a method [then] that are not promises
    and the tracking of unhandled rejections are not modelled. *)

From Stdlib Require Import String.
From S2P Require Import Prelude JsNumber JsString JsValue.
From stdpp Require Import relations.
#[local] Set Warnings "-register-all".

Section promises.
Context {F U : Type}.

(** [Arr]: an array of the store; [Failure]: an [Error]; [Inspected]: the
    object that [inspect] of a settled promise returns; [Indexed]: an object
    with an index and a value, which is how an array of promises reports
    progress. *)
Inductive value :=
| Val (v : jsval) | Ref (p : nat) | Arr (a : nat) | Fun (f : F) | Failure (e : jserror) (message : jsstr)
| Inspected (fulfilled : bool) (v : value) | Indexed (index : nat) (v : value).
(** The promises of a value exist, and its functions are fine. *)
Definition known_by (fine : F -> Prop) (n : nat) : value -> Prop :=
  fix go v := match v with
              | Val _ | Arr _ | Failure _ _ => True
              | Ref p => (p < n)%nat
              | Fun f => fine f
              | Inspected _ v | Indexed _ v => go v
              end.
Inductive outcome := Fulfilled (v : value) | Rejected (reason : value).
(** The operations of a promise for a value, other than [when]. *)
Inductive operation :=
| Get (name : jsstr) | Set_ (name : jsstr) (rhs : value) | Delete (name : jsstr)
| Post (name : option jsstr) (args : list value) | Apply (thisp : value) (args : list value) | Keys.
(** The messages of a pending promise: both calls of [promiseDispatch] that a
    [then] makes, and an operation with the deferred of its result. *)
Inductive message := When (t : nat) | Progress (t : nat) | Op (d : nat) (op : operation).
Inductive cell := Pending (messages : list message) (progressListeners : list nat) | Became (q : nat) | Settled (o : outcome).
Inductive task := ThenTask (t : nat) | Dispatch (p : nat) (m : message) | Listen (t : nat) (v : value) | Call (f : F) (args : list value).
Record reaction := Reaction {
  self : nat; on_fulfilled : option F; on_rejected : option F; on_progress : option F; derived : nat; done_ : bool
}.
(** [calls]: the reactions that were run, with the outcome they were given
    and the promise their own promise then became. [uncaught]: what tasks
    threw, which is thrown again for the page. *)
Record world := World {
  cells : list cell; reactions : list reaction; tasks : list task; calls : list (nat * outcome * nat);
  uncaught : list value; store : U
}.
Inductive result := Return (v : value) | Raise (e : value).

Definition with_tasks (ts : list task) (w : world) : world := World (cells w) (reactions w) ts (calls w) (uncaught w) (store w).
Definition set_cell (p : nat) (c : cell) (w : world) : world :=
  World (<[p := c]> (cells w)) (reactions w) (tasks w) (calls w) (uncaught w) (store w).
Definition new_cell (c : cell) (w : world) : world :=
  World (cells w ++ [c]) (reactions w) (tasks w) (calls w) (uncaught w) (store w).
Definition set_store (u : U) (w : world) : world := World (cells w) (reactions w) (tasks w) (calls w) (uncaught w) u.
Definition throw_later (e : value) (w : world) : world :=
  World (cells w) (reactions w) (tasks w) (calls w) (uncaught w ++ [e]) (store w).
Definition next_id (w : world) : nat := length (cells w).
Definition nextTick (ts : list task) (w : world) : world := with_tasks (tasks w ++ ts) w.

(** [Q(value)]: a promise is itself. *)
Definition as_promise (v : value) (w : world) : world * nat :=
  match v with Ref p => (w, p) | _ => (new_cell (Settled (Fulfilled v)) w, next_id w) end.

Definition defer (w : world) : world := new_cell (Pending [] []) w.
Definition become (p q : nat) (messages : list message) (w : world) : world :=
  nextTick (Dispatch q <$> messages) (set_cell p (Became q) w).

(** The functions of a deferred: nothing once it has become a promise. *)
Definition resolve (p : nat) (v : value) (w : world) : world :=
  match cells w !! p with
  | Some (Pending messages _) => let '(w, q) := as_promise v w in become p q messages w
  | _ => w
  end.
Definition settle (p : nat) (o : outcome) (w : world) : world :=
  match cells w !! p with
  | Some (Pending messages _) => become p (next_id w) messages (new_cell (Settled o) w)
  | _ => w
  end.
Definition fulfill (p : nat) (v : value) : world -> world := settle p (Fulfilled v).
Definition reject (p : nat) (reason : value) : world -> world := settle p (Rejected reason).
Definition notify (p : nat) (progress : value) (w : world) : world :=
  match cells w !! p with
  | Some (Pending _ listeners) => nextTick ((fun t => Listen t progress) <$> listeners) w
  | _ => w
  end.

(** [promiseDispatch] of a promise that is not settled. *)
Definition hold (p : nat) (m : message) (w : world) : world :=
  match cells w !! p with
  | Some (Pending messages listeners) =>
      set_cell p (Pending (messages ++ [m]) (match m with Progress t => listeners ++ [t] | _ => listeners end)) w
  | Some (Became q) => nextTick [Dispatch q m] w
  | _ => w
  end.
(** [then]: the reaction is dispatched by a task, its listener for progress
    at once (which a settled promise ignores). *)
Definition react (p : nat) (f r g : option F) (w : world) : world :=
  World (cells w ++ [Pending [] []]) (reactions w ++ [Reaction p f r g (next_id w) false])
    (tasks w ++ [ThenTask (length (reactions w))]) (calls w) (uncaught w) (store w).
Definition then_ (p : nat) (f r g : option F) (w : world) : world := hold p (Progress (length (reactions w))) (react p f r g w).
(** [dispatch]: an operation, for a promise of its result. *)
Definition dispatch (p : nat) (op : operation) (w : world) : world := nextTick [Dispatch p (Op (next_id w) op)] (defer w).

(** ** Running tasks *)

Section run.
Context (invoke : F -> list value -> world -> world * result) (perform : operation -> value -> world -> world * result).

Definition run_opt (f : option F) (v : value) (or : result) (w : world) : world * result :=
  match f with Some f => invoke f [v] w | None => (w, or) end.
(** [_fulfilled] and [_rejected]. *)
Definition handle (r : reaction) (o : outcome) (w : world) : world * result :=
  match o with
  | Fulfilled v => run_opt (on_fulfilled r) v (Return v) w
  | Rejected e => run_opt (on_rejected r) e (Raise e) w
  end.
(** What a function returned or threw, as a promise. *)
Definition made (res : result) (w : world) : world * nat :=
  match res with
  | Return v => as_promise v w
  | Raise e => (new_cell (Settled (Rejected e)) w, next_id w)
  end.
(** A settled promise calls the reaction, unless it is done. *)
Definition set_done (t : nat) (r : reaction) (w : world) : world :=
  World (cells w) (<[t := Reaction (self r) (on_fulfilled r) (on_rejected r) (on_progress r) (derived r) true]> (reactions w))
    (tasks w) (calls w) (uncaught w) (store w).
Definition log (t : nat) (o : outcome) (q : nat) (w : world) : world :=
  World (cells w) (reactions w) (tasks w) (calls w ++ [(t, o, q)]) (uncaught w) (store w).
Definition deliver (t : nat) (o : outcome) (w : world) : world :=
  match reactions w !! t with
  | Some r =>
      if done_ r then w
      else
        let '(w, res) := handle r o (set_done t r w) in
        let '(w, q) := made res w in
        log t o q (resolve (derived r) (Ref q) w)
  | None => w
  end.
(** An operation on a promise that is fulfilled; a rejected one answers with
    itself. *)
Definition answer (p d : nat) (op : operation) (o : outcome) (w : world) : world :=
  match o with
  | Fulfilled v => let '(w, res) := perform op v w in let '(w, q) := made res w in resolve d (Ref q) w
  | Rejected _ => resolve d (Ref p) w
  end.
Definition promiseDispatch (p : nat) (m : message) (w : world) : world :=
  match cells w !! p, m with
  | Some (Settled o), When t => deliver t o w
  | Some (Settled o), Op d op => answer p d op o w
  | _, _ => hold p m w
  end.
(** What a task throws is thrown again by a task of the page. *)
Definition caught (wr : world * result) : world := match wr.2 with Return _ => wr.1 | Raise e => throw_later e wr.1 end.
(** A listener for progress. *)
Definition progressed (t : nat) (v : value) (w : world) : world :=
  match reactions w !! t with
  | Some r => let '(w, res) := run_opt (on_progress r) v (Return v) w in
              match res with Return v => notify (derived r) v w | Raise e => throw_later e w end
  | None => w
  end.
Definition run_task (ts : task) (w : world) : world :=
  match ts with
  | ThenTask t => match reactions w !! t with Some r => promiseDispatch (self r) (When t) w | None => w end
  | Dispatch p m => promiseDispatch p m w
  | Listen t v => progressed t v w
  | Call f args => caught (invoke f args w)
  end.
(** One turn of [flush]. *)
Definition tick (w : world) : option world :=
  match tasks w with
  | [] => None
  | ts :: rest => Some (run_task ts (with_tasks rest w))
  end.
Fixpoint flush (fuel : nat) (w : world) : world :=
  match fuel with
  | O => w
  | S fuel => match tick w with Some w => flush fuel w | None => w end
  end.

(** The state a promise shows ([inspect]). *)
Inductive reaches (w : world) : nat -> nat -> Prop :=
| reaches_self p : reaches w p p
| reaches_next p q r : cells w !! p = Some (Became q) -> reaches w q r -> reaches w p r.
Definition shows (w : world) (p : nat) (o : outcome) : Prop := exists q, reaches w p q /\ cells w !! q = Some (Settled o).
Fixpoint inspect (fuel : nat) (w : world) (p : nat) : option outcome :=
  match cells w !! p, fuel with
  | Some (Settled o), _ => Some o
  | Some (Became q), S fuel => inspect fuel w q
  | _, _ => None
  end.

(** ** What code can do with promises

    A promise that [then] returns has a deferred of its own that nobody else
    has. *)

Definition owned (w : world) (p : nat) : Prop := forall r, r ∈ reactions w -> derived r <> p.
(** A world grows: what was said of its promises stays true. *)
Record grows (w w' : world) : Prop := {
  more_ids : (next_id w <= next_id w')%nat;
  still_owned d : (d < next_id w)%nat -> owned w d -> owned w' d
}.
(** What functions and stores may mention stays so as the world grows. *)
Class Guard := {
  fn_ok : world -> F -> Prop;
  store_ok : world -> U -> Prop;
  fn_ok_more w w' f : grows w w' -> fn_ok w f -> fn_ok w' f;
  store_ok_more w w' u : grows w w' -> store_ok w u -> store_ok w' u
}.
Context `{Guard}.
Definition known (w : world) : value -> Prop := known_by (fn_ok w) (next_id w).
Definition known_outcome (w : world) (o : outcome) : Prop := match o with Fulfilled v | Rejected v => known w v end.
Definition known_result (w : world) (r : result) : Prop := match r with Return v | Raise v => known w v end.
Definition known_op (w : world) (op : operation) : Prop :=
  match op with
  | Get _ | Delete _ | Keys => True
  | Set_ _ rhs => known w rhs
  | Post _ args => Forall (known w) args
  | Apply thisp args => known w thisp /\ Forall (known w) args
  end.
Definition fns_ok (w : world) (f r g : option F) : Prop := forall h, f = Some h \/ r = Some h \/ g = Some h -> fn_ok w h.
Inductive api : world -> world -> Prop :=
| api_defer w : api w (defer w)
| api_settled w o : known_outcome w o -> api w (new_cell (Settled o) w)
| api_resolve w p v : owned w p -> known w v -> api w (resolve p v w)
| api_settle w p o : owned w p -> known_outcome w o -> api w (settle p o w)
| api_notify w p v : owned w p -> known w v -> api w (notify p v w)
| api_then w p f r g : (p < next_id w)%nat -> fns_ok w f r g -> api w (then_ p f r g w)
| api_dispatch w p op : known_op w op -> api w (dispatch p op w)
| api_nextTick w f args : fn_ok w f -> Forall (known w) args -> api w (nextTick [Call f args] w)
| api_store w u : store_ok w u -> api w (set_store u w).
Inductive step : world -> world -> Prop :=
| step_api w w' : api w w' -> step w w'
| step_tick w w' : tick w = Some w' -> step w w'.
End run.
Definition empty (u : U) : world := World [] [] [] [] [] u.


(** ** The invariant *)

Section invariant.
Context `{Guard}.

(** Where the message of a reaction is: in a task, or held by a promise. *)
Definition place (w : world) (t q : nat) : Prop :=
  Dispatch q (When t) ∈ tasks w \/ exists ms ls, cells w !! q = Some (Pending ms ls) /\ When t ∈ ms.
Definition pending (w : world) (p : nat) : Prop := exists ms ls, cells w !! p = Some (Pending ms ls).

(** What a world mentions: values, functions, and operations that wait. *)
Inductive item := IVal (v : value) | IFn (f : F) | IOp (d : nat) (op : operation).
Definition fn_of (r : reaction) (f : F) : Prop := on_fulfilled r = Some f \/ on_rejected r = Some f \/ on_progress r = Some f.
Inductive mentions (w : world) : item -> Prop :=
| in_settled p o : cells w !! p = Some (Settled o) -> mentions w (IVal (match o with Fulfilled v | Rejected v => v end))
| in_messages p ms ls d op : cells w !! p = Some (Pending ms ls) -> Op d op ∈ ms -> mentions w (IOp d op)
| in_dispatch p d op : Dispatch p (Op d op) ∈ tasks w -> mentions w (IOp d op)
| in_listen t v : Listen t v ∈ tasks w -> mentions w (IVal v)
| in_call f args : Call f args ∈ tasks w -> mentions w (IFn f)
| in_args f args v : Call f args ∈ tasks w -> v ∈ args -> mentions w (IVal v)
| in_reaction t r f : reactions w !! t = Some r -> fn_of r f -> mentions w (IFn f).
Definition item_ok (w : world) (i : item) : Prop :=
  match i with
  | IVal v => known w v
  | IFn f => fn_ok w f
  | IOp d op => (d < next_id w)%nat /\ owned w d /\ known_op w op
  end.

(** [moving]: the reaction whose message has been taken from its place;
    [running]: the one that is being called, [opened]: as long as its own
    promise is pending. *)
Record inv (moving running opened : option nat) (w : world) : Prop := {
  became_valid p q : cells w !! p = Some (Became q) -> (q < next_id w)%nat;
  reaction_valid t r : reactions w !! t = Some r -> (self r < next_id w)%nat /\ (derived r < next_id w)%nat;
  place_valid t q : place w t q -> (q < next_id w)%nat /\ exists r, reactions w !! t = Some r /\ reaches w (self r) q;
  located t r : reactions w !! t = Some r -> done_ r = false -> moving <> Some t -> ThenTask t ∈ tasks w \/ exists q, place w t q;
  derived_pending t r : reactions w !! t = Some r -> done_ r = false \/ opened = Some t -> pending w (derived r);
  derived_distinct t t' r r' : reactions w !! t = Some r -> reactions w !! t' = Some r' -> derived r = derived r' -> t = t';
  logged t o q : (t, o, q) ∈ calls w -> running <> Some t /\ exists r, reactions w !! t = Some r /\ done_ r = true /\
    shows w (self r) o /\ cells w !! derived r = Some (Became q);
  logged_once : NoDup (calls w).*1.*1;
  all_logged t r : reactions w !! t = Some r -> done_ r = true -> running = Some t \/ t ∈ (calls w).*1.*1;
  mentioned i : mentions w i -> item_ok w i;
  store_fine : store_ok w (store w)
}.

Lemma known_more w w' v : grows w w' -> known w v -> known w' v.
Proof. intros G. pose proof (more_ids _ _ G). unfold known. induction v; cbn; try done; [lia|by apply fn_ok_more]. Qed.
Lemma known_all w w' l : grows w w' -> Forall (known w) l -> Forall (known w') l.
Proof. intros G Hl. eapply Forall_impl; [exact Hl|]. intros v. by apply known_more. Qed.
Lemma known_op_more w w' op : grows w w' -> known_op w op -> known_op w' op.
Proof. intros G. destruct op; cbn; try done; [by apply known_more|by apply known_all|]. intros []. split; [by eapply known_more|by eapply known_all]. Qed.
Lemma known_outcome_more w w' o : grows w w' -> known_outcome w o -> known_outcome w' o.
Proof. intros G. destruct o; by apply known_more. Qed.
Lemma item_ok_more w w' i : grows w w' -> item_ok w i -> item_ok w' i.
Proof.
  intros G. destruct i as [v|f|d op]; cbn; [by apply known_more|by apply fn_ok_more|]. intros (Hd & Ho & Hk). pose proof (more_ids _ _ G).
  split; [lia|]. split; [by apply (still_owned _ _ G)|by eapply known_op_more].
Qed.
Lemma settled_known moving running opened w p o : inv moving running opened w -> cells w !! p = Some (Settled o) -> known_outcome w o.
Proof. intros I Hp. apply in_settled in Hp. apply (mentioned _ _ _ _ I) in Hp. by destruct o. Qed.

(** What code may rely on: the store is fine, promises are settled with
    what is known, and the promises of reactions exist. *)
Record well (w : world) : Prop := {
  well_store : store_ok w (store w);
  well_settled p o : cells w !! p = Some (Settled o) -> known_outcome w o;
  well_derived r : r ∈ reactions w -> (derived r < next_id w)%nat
}.
Lemma inv_well moving running opened w : inv moving running opened w -> well w.
Proof.
  intros I. split; [apply (store_fine _ _ _ _ I)|intros p o Hp; by eapply settled_known|].
  intros r Hr. apply list_elem_of_lookup in Hr as [t Ht]. by destruct (reaction_valid _ _ _ _ I t r Ht).
Qed.

Lemma well_same w w' : grows w w' -> cells w' = cells w -> store w' = store w ->
  (forall r, r ∈ reactions w' -> exists r0, r0 ∈ reactions w /\ derived r0 = derived r) -> well w -> well w'.
Proof.
  intros G Hc Hs Hr [H1 H2 H3]. split; [rewrite Hs; by eapply store_ok_more| |].
  - intros p o Hp. rewrite Hc in Hp. by eapply known_outcome_more, H2.
  - intros r (r0 & Hr0 & <-)%Hr. pose proof (more_ids _ _ G). apply H3 in Hr0. lia.
Qed.

(** A change of the promises that keeps the messages: [free p] may stop
    being pending. *)
Record frame (free : nat -> Prop) (w w' : world) : Prop := {
  same_reactions : reactions w' = reactions w;
  same_calls : calls w' = calls w;
  fine_store : store_ok w (store w) -> store_ok w' (store w');
  more_cells : (next_id w <= next_id w')%nat;
  cells_stay p c : cells w !! p = Some c -> match c with Pending _ _ => False | _ => True end -> cells w' !! p = Some c;
  new_became p q : cells w' !! p = Some (Became q) -> cells w !! p = Some (Became q) \/ (q < next_id w')%nat;
  new_place t q : place w' t q -> place w t q \/ ((q < next_id w')%nat /\ exists q0, place w t q0 /\ reaches w' q0 q);
  kept_place t q : place w t q -> exists q', place w' t q';
  kept_tasks t : ThenTask t ∈ tasks w -> ThenTask t ∈ tasks w';
  kept_pending p : pending w p -> ~ free p -> pending w' p;
  new_mention i : mentions w' i -> mentions w i \/ item_ok w' i
}.
Lemma world_grows_refl w : grows w w.
Proof. by split. Qed.
Lemma world_grows_trans w1 w2 w3 : grows w1 w2 -> grows w2 w3 -> grows w1 w3.
Proof. intros [A1 A2] [B1 B2]. split; [lia|]. intros d Hd Ho. apply B2; [lia|by apply A2]. Qed.
Lemma same_grows w w' : reactions w' = reactions w -> (next_id w <= next_id w')%nat -> grows w w'.
Proof. intros Hr Hn. split; [done|]. intros d _ Ho r Hin. rewrite Hr in Hin. by apply Ho. Qed.
Lemma frame_grows free w w' : frame free w w' -> grows w w'.
Proof. intros F0. apply same_grows; [by apply (same_reactions _ _ _ F0)|by apply (more_cells _ _ _ F0)]. Qed.

Lemma reaches_trans w p q r : reaches w p q -> reaches w q r -> reaches w p r.
Proof. induction 1 as [|p q q' H' _ IH]; [done|]. intros Hr. eapply reaches_next; [exact H'|by apply IH]. Qed.
Lemma reaches_stay w w' p q : (forall p c, cells w !! p = Some c -> match c with Pending _ _ => False | _ => True end -> cells w' !! p = Some c) ->
  reaches w p q -> reaches w' p q.
Proof. intros Hs. induction 1 as [|p q r H' _ IH]; [constructor|]. eapply reaches_next; [by apply Hs in H'|done]. Qed.
Lemma shows_stay w w' p o : (forall p c, cells w !! p = Some c -> match c with Pending _ _ => False | _ => True end -> cells w' !! p = Some c) ->
  shows w p o -> shows w' p o.
Proof. intros Hs (q & Hr & Hc). exists q. split; [by eapply reaches_stay|by apply Hs in Hc]. Qed.
(** Worlds with the same cells. *)
Lemma reaches_same w w' p q : reaches w p q -> cells w' = cells w -> reaches w' p q.
Proof. intros Hr E. revert Hr. apply reaches_stay. intros p' c Hc _. by rewrite E. Qed.
Lemma shows_same w w' p o : shows w p o -> cells w' = cells w -> shows w' p o.
Proof. intros Hs E. revert Hs. apply shows_stay. intros p' c Hc _. by rewrite E. Qed.

(** A promise that settles shows one outcome, and does not lead to a pending
    one. *)
Lemma reaches_end w p q : reaches w p q -> forall q', reaches w p q' ->
  (forall r, cells w !! q <> Some (Became r)) -> reaches w q' q.
Proof.
  induction 1 as [p|p q r H' Hr IH]; intros q' Hq' Hend.
  - destruct Hq' as [|? ? ? H']; [constructor|by apply Hend in H'].
  - destruct Hq' as [|? q2 ? H2 Hq']; [by eapply reaches_next|]. rewrite H' in H2. injection H2 as <-. by apply IH.
Qed.
Lemma ends_agree w p q q' : reaches w p q -> reaches w p q' ->
  (forall r, cells w !! q <> Some (Became r)) -> (forall r, cells w !! q' <> Some (Became r)) -> q = q'.
Proof.
  intros H1 H2 E1 E2. destruct (reaches_end w p q H1 q' H2 E1) as [|? ? ? H']; [done|by apply E2 in H'].
Qed.
Lemma shows_one w p o o' : shows w p o -> shows w p o' -> o = o'.
Proof.
  intros (q & Hr & Hc) (q' & Hr' & Hc'). assert (q = q') as ->; [|congruence].
  apply (ends_agree w p); [done|done| |]; intros r; congruence.
Qed.

Lemma inv_frame_opened free moving running opened opened' w w' : frame free w w' ->
  (forall t r, reactions w !! t = Some r -> done_ r = false \/ opened' = Some t -> ~ free (derived r) /\ (done_ r = false \/ opened = Some t)) ->
  inv moving running opened w -> inv moving running opened' w'.
Proof.
  intros F0 Hf I. pose proof (cells_stay _ _ _ F0) as Hs. pose proof (more_cells _ _ _ F0) as Hlen. split.
  - intros p q [Hc|Hc]%(new_became _ _ _ F0); [|done]. apply (became_valid _ _ _ _ I) in Hc. lia.
  - intros t r Hr. rewrite (same_reactions _ _ _ F0) in Hr. apply (reaction_valid _ _ _ _ I) in Hr. lia.
  - intros t q [Hq|(Hq & q0 & Hp & Hr)]%(new_place _ _ _ F0).
    + apply (place_valid _ _ _ _ I) in Hq as (Hv & r & Hr' & Hre).
      split; [lia|exists r; rewrite (same_reactions _ _ _ F0); split; [done|by eapply reaches_stay]].
    + apply (place_valid _ _ _ _ I) in Hp as (Hv & r & Hr' & Hre).
      split; [lia|exists r; rewrite (same_reactions _ _ _ F0); split; [done|]]. eapply reaches_trans; [by eapply reaches_stay|done].
  - intros t r Hr Hd Hm. rewrite (same_reactions _ _ _ F0) in Hr.
    destruct (located _ _ _ _ I t r Hr Hd Hm) as [Ht|(q & Hq)]; [left; by apply (kept_tasks _ _ _ F0)|right; by apply (kept_place _ _ _ F0) in Hq].
  - intros t r Hr Hd. rewrite (same_reactions _ _ _ F0) in Hr. destruct (Hf t r Hr Hd) as [Hn Ho].
    apply (kept_pending _ _ _ F0); [|done]. by eapply (derived_pending _ _ _ _ I).
  - intros t t' r r'. rewrite (same_reactions _ _ _ F0). apply (derived_distinct _ _ _ _ I).
  - intros t o q Hc. rewrite (same_calls _ _ _ F0) in Hc. apply (logged _ _ _ _ I) in Hc as (Hm & r & Hr & Hd & Hsh & Hc).
    split; [done|]. exists r. rewrite (same_reactions _ _ _ F0). split; [done|]. split; [done|]. split; [by eapply shows_stay|].
    by apply Hs in Hc.
  - rewrite (same_calls _ _ _ F0). apply (logged_once _ _ _ _ I).
  - intros t r. rewrite (same_reactions _ _ _ F0), (same_calls _ _ _ F0). apply (all_logged _ _ _ _ I).
  - intros i [Hi|Hi]%(new_mention _ _ _ F0); [|done]. apply (mentioned _ _ _ _ I) in Hi. by eapply item_ok_more, Hi; eapply frame_grows.
  - apply (fine_store _ _ _ F0), (store_fine _ _ _ _ I).
Qed.

Lemma inv_frame free moving running opened w w' : frame free w w' -> (forall r, r ∈ reactions w -> ~ free (derived r)) ->
  inv moving running opened w -> inv moving running opened w'.
Proof.
  intros F0 Hf. apply (inv_frame_opened free); [done|]. intros t r Hr Ho. split; [|done]. apply Hf. by eapply list_elem_of_lookup_2.
Qed.

(** ** The changes are frames *)

Definition nothing (p : nat) : Prop := False.
Lemma lookup_new_cell c w p c' : cells w !! p = Some c' -> cells (new_cell c w) !! p = Some c'.
Proof. intros Hp. cbn. rewrite lookup_app_l; [done|by eapply lookup_lt_Some]. Qed.
Lemma new_cell_lookup c w p c' : cells (new_cell c w) !! p = Some c' -> cells w !! p = Some c' \/ c' = c.
Proof.
  intros Hp. cbn in Hp. apply lookup_app_Some in Hp as [Hp|[_ Hp]]; [by left|]. right.
  destruct (p - length (cells w))%nat; cbn in Hp; [congruence|done].
Qed.
Lemma next_id_new_cell c w : next_id (new_cell c w) = S (next_id w).
Proof. unfold next_id, new_cell. cbn. rewrite length_app. cbn. lia. Qed.
Lemma next_id_set_cell p c w : next_id (set_cell p c w) = next_id w.
Proof. unfold next_id, set_cell. cbn. apply length_insert. Qed.

Definition new_ok (w : world) (c : cell) : Prop :=
  match c with Pending ms _ => ms = [] | Became _ => False | Settled o => known_outcome w o end.
Lemma frame_new_cell c w : new_ok w c -> frame nothing w (new_cell c w).
Proof.
  intros Hc. assert (Hn : (next_id w <= next_id (new_cell c w))%nat) by (rewrite next_id_new_cell; lia).
  assert (G : grows w (new_cell c w)) by by apply same_grows.
  assert (Hpl : forall t q, place (new_cell c w) t q -> place w t q).
  { intros t q [Hp|(ms & ls & Hp & Ht)]; [by left|]. apply new_cell_lookup in Hp as [Hp|Hp]; [right; eauto|]. subst c. cbn in Hc. subst ms.
    by apply not_elem_of_nil in Ht. }
  split; try done.
  - by apply store_ok_more.
  - intros p c' Hp _. by apply lookup_new_cell.
  - intros p q Hp. apply new_cell_lookup in Hp as [Hp|Hp]; [by left|]. by subst c.
  - intros t q Hp. left. by apply Hpl.
  - intros t q [Hp|(ms & ls & Hp & Ht)]; exists q; [by left|right; exists ms, ls; split; [by apply lookup_new_cell|done]].
  - intros p (ms & ls & Hp) _. exists ms, ls. by apply lookup_new_cell.
  - intros i Hi. destruct Hi as [p o Hp|p ms ls d op Hp Hm|p d op Ht|t v Ht|f args Ht|f args v Ht Hv|t r f Hr Hf].
    + apply new_cell_lookup in Hp as [Hp|<-]; [left; by eapply in_settled|right; cbn in *; apply (known_more w); [done|by destruct o]].
    + apply new_cell_lookup in Hp as [Hp|<-]; [left; by eapply in_messages|]. cbn in Hc. subst ms. by apply not_elem_of_nil in Hm.
    + left. by eapply in_dispatch.
    + left. by eapply in_listen.
    + left. by eapply in_call.
    + left. by eapply in_args.
    + left. by eapply in_reaction.
Qed.

Definition task_ok (w : world) (ts : task) : Prop :=
  match ts with
  | ThenTask _ => True
  | Dispatch _ m => match m with When _ => False | Progress _ => True | Op d op => item_ok w (IOp d op) end
  | Listen _ v => known w v
  | Call f args => fn_ok w f /\ Forall (known w) args
  end.
Lemma frame_nextTick ts w : Forall (task_ok w) ts -> frame nothing w (nextTick ts w).
Proof.
  intros Hts. rewrite Forall_forall in Hts. assert (G : grows w (nextTick ts w)) by by apply same_grows.
  assert (Hpl : forall t q, place (nextTick ts w) t q <-> place w t q).
  { intros t q. unfold place. cbn. rewrite elem_of_app. split; [intros [[Ht|Ht]|Ht]; [by left|by apply Hts in Ht|by right]|].
    intros [Ht|Ht]; [by left; left|by right]. }
  split; try done.
  - by apply store_ok_more.
  - intros p q Hp. by left.
  - intros t q Hp. left. by apply Hpl.
  - intros t q Hp. exists q. by apply Hpl.
  - intros t Ht. cbn. rewrite elem_of_app. by left.
  - assert (Hnew : forall x, x ∈ tasks (nextTick ts w) -> x ∈ tasks w \/ task_ok w x).
    { intros x Hx. cbn in Hx. apply elem_of_app in Hx as [Hx|Hx]; [by left|right; by apply Hts]. }
    intros i Hi. destruct Hi as [p o Hp|p ms ls d op Hp Hm|p d op Ht|t v Ht|f args Ht|f args v Ht Hv|t r f Hr Hf].
    + left. by eapply in_settled.
    + left. by eapply in_messages.
    + apply Hnew in Ht as [Ht|Ht]; [left; by eapply in_dispatch|right; by eapply item_ok_more].
    + apply Hnew in Ht as [Ht|Ht]; [left; by eapply in_listen|right; by eapply (known_more w)].
    + apply Hnew in Ht as [Ht|[Ht _]]; [left; by eapply in_call|right; by eapply (fn_ok_more w)].
    + apply Hnew in Ht as [Ht|[_ Ht]]; [left; by eapply in_args|right]. rewrite Forall_forall in Ht. apply (known_more w); [done|by apply Ht].
    + left. by eapply in_reaction.
Qed.
Lemma frame_become p q ms ls w : cells w !! p = Some (Pending ms ls) -> (q < next_id w)%nat -> frame (eq p) w (become p q ms w).
Proof.
  intros Hp Hq. assert (Hlt : (p < length (cells w))%nat) by by eapply lookup_lt_Some.
  assert (Hlk : forall p' c, p' <> p -> cells (become p q ms w) !! p' = Some c <-> cells w !! p' = Some c).
  { intros p' c Hne. unfold become, nextTick, set_cell. cbn. by rewrite list_lookup_insert_ne. }
  assert (Hself : cells (become p q ms w) !! p = Some (Became q)).
  { unfold become, nextTick, set_cell. cbn. by apply list_lookup_insert_eq. }
  assert (Hid : next_id (become p q ms w) = next_id w).
  { unfold next_id, become, nextTick, set_cell. cbn. apply length_insert. }
  assert (G : grows w (become p q ms w)) by (apply same_grows; [done|by rewrite Hid]).
  assert (Ht : forall x, x ∈ tasks (become p q ms w) -> x ∈ tasks w \/ exists m, x = Dispatch q m /\ m ∈ ms).
  { intros x Hx. unfold become, nextTick, set_cell in Hx. cbn in Hx. apply elem_of_app in Hx as [Hx|Hx]; [by left|right].
    apply list_elem_of_fmap in Hx as (m & -> & Hm). by exists m. }
  split; try done.
  - by apply store_ok_more.
  - by rewrite Hid.
  - intros p' c Hp' Hc. destruct (decide (p' = p)) as [->|Hne]; [|by apply Hlk]. rewrite Hp in Hp'. by injection Hp' as <-.
  - intros p' q' Hp'. rewrite Hid. destruct (decide (p' = p)) as [->|Hne]; [|left; by apply Hlk].
    right. rewrite Hself in Hp'. by injection Hp' as <-.
  - intros t q' Hpl. rewrite Hid. destruct Hpl as [Hx|(ms' & ls' & Hx & Hm)].
    + apply Ht in Hx as [Hx|(m & E & Hm)]; [by left; left|].
      injection E as <- <-. right. split; [done|]. exists p. split; [right; eauto|].
      eapply reaches_next; [exact Hself|constructor].
    + destruct (decide (q' = p)) as [->|Hne]; [by rewrite Hself in Hx|]. left. right. exists ms', ls'. split; [by apply Hlk|done].
  - intros t q' [Hx|(ms' & ls' & Hx & Hm)].
    + exists q'. left. unfold become, nextTick, set_cell. cbn. rewrite elem_of_app. by left.
    + destruct (decide (q' = p)) as [->|Hne]; [|exists q'; right; exists ms', ls'; split; [by apply Hlk|done]].
      rewrite Hp in Hx. injection Hx as <- <-. exists q. left. unfold become, nextTick, set_cell. cbn. rewrite elem_of_app. right.
      by apply list_elem_of_fmap_2.
  - intros t Hx. unfold become, nextTick, set_cell. cbn. rewrite elem_of_app. by left.
  - intros p' (ms' & ls' & Hx) Hne. exists ms', ls'. apply Hlk; [congruence|done].
  - intros i Hi. left. destruct Hi as [p' o Hx|p' ms' ls' d op Hx Hm|p' d op Hx|t v Hx|f args Hx|f args v Hx Hv|t r f Hr Hf].
    + destruct (decide (p' = p)) as [->|Hne]; [by rewrite Hself in Hx|]. eapply in_settled. by apply Hlk.
    + destruct (decide (p' = p)) as [->|Hne]; [by rewrite Hself in Hx|]. eapply in_messages; [by apply Hlk|done].
    + apply Ht in Hx as [Hx|(m & E & Hm)]; [by eapply in_dispatch|]. injection E as <- <-. by eapply in_messages.
    + apply Ht in Hx as [Hx|(m & E & Hm)]; [by eapply in_listen|done].
    + apply Ht in Hx as [Hx|(m & E & Hm)]; [by eapply in_call|done].
    + apply Ht in Hx as [Hx|(m & E & Hm)]; [by eapply in_args|done].
    + by eapply in_reaction.
Qed.
Lemma frame_store u w : store_ok w u -> frame nothing w (set_store u w).
Proof.
  intros Hu. assert (G : grows w (set_store u w)) by by apply same_grows. split; try done.
  - intros _. by eapply store_ok_more.
  - intros p q Hp. by left.
  - intros t q Hp. by left.
  - intros t q Hp. by exists q.
  - intros i Hi. left. destruct Hi; [by eapply in_settled|by eapply in_messages|by eapply in_dispatch|by eapply in_listen|by eapply in_call|by eapply in_args|by eapply in_reaction].
Qed.
Lemma frame_throw e w : frame nothing w (throw_later e w).
Proof.
  assert (G : grows w (throw_later e w)) by by apply same_grows. split; try done.
  - by apply store_ok_more.
  - intros p q Hp. by left.
  - intros t q Hp. by left.
  - intros t q Hp. by exists q.
  - intros i Hi. left. destruct Hi; [by eapply in_settled|by eapply in_messages|by eapply in_dispatch|by eapply in_listen|by eapply in_call|by eapply in_args|by eapply in_reaction].
Qed.

(** A message that arrives at a place [q]: nothing else changes. *)
Record arrives (m : message) (q : nat) (w w' : world) : Prop := {
  arr_reactions : reactions w' = reactions w;
  arr_calls : calls w' = calls w;
  arr_store : store w' = store w;
  arr_cells : next_id w' = next_id w;
  arr_stay p c : cells w !! p = Some c -> match c with Pending _ _ => False | _ => True end -> cells w' !! p = Some c;
  arr_became p p' : cells w' !! p = Some (Became p') -> cells w !! p = Some (Became p');
  arr_place t p : place w' t p <-> place w t p \/ (m = When t /\ p = q);
  arr_tasks t : ThenTask t ∈ tasks w -> ThenTask t ∈ tasks w';
  arr_pending p : pending w p -> pending w' p;
  arr_mention i : mentions w' i -> mentions w i \/ exists d op, m = Op d op /\ i = IOp d op
}.
Lemma hold_arrives p m w : (exists ms ls, cells w !! p = Some (Pending ms ls)) \/ (exists q, cells w !! p = Some (Became q)) ->
  exists q, (q = p \/ cells w !! p = Some (Became q)) /\ arrives m q w (hold p m w).
Proof.
  intros [(ms & ls & Hp)|(q & Hp)]; unfold hold; rewrite Hp.
  - exists p. split; [by left|]. assert (Hlt : (p < length (cells w))%nat) by by eapply lookup_lt_Some.
    set (ls' := match m with Progress t => ls ++ [t] | _ => ls end).
    assert (Hself : cells (set_cell p (Pending (ms ++ [m]) ls') w) !! p = Some (Pending (ms ++ [m]) ls')).
    { cbn. by apply list_lookup_insert_eq. }
    assert (Hlk : forall p' c', p' <> p -> cells (set_cell p (Pending (ms ++ [m]) ls') w) !! p' = Some c' <-> cells w !! p' = Some c').
    { intros p' c' Hne. cbn. by rewrite list_lookup_insert_ne. }
    split; try done.
    + apply next_id_set_cell.
    + intros p' c' Hp' Hc. destruct (decide (p' = p)) as [->|Hne]; [|by apply Hlk]. rewrite Hp in Hp'. by injection Hp' as <-.
    + intros p' q Hp'. destruct (decide (p' = p)) as [->|Hne]; [by rewrite Hself in Hp'|by apply Hlk].
    + intros t q. unfold place. cbn [tasks set_cell]. destruct (decide (q = p)) as [->|Hne].
      * rewrite Hp. split.
        { intros [Hx|(ms' & ls2 & Hx & Ht)]; [by left; left|]. rewrite Hself in Hx. injection Hx as <- <-.
          apply elem_of_app in Ht as [Ht|Ht]; [left; right; by exists ms, ls|]. apply list_elem_of_singleton in Ht. by right. }
        { intros [[Hx|(ms' & ls2 & Hx & Ht)]|[-> _]]; [by left| |].
          - injection Hx as <- <-. right. exists (ms ++ [m]), ls'. split; [done|]. rewrite elem_of_app. by left.
          - right. exists (ms ++ [When t]), ls'. split; [done|]. rewrite elem_of_app. right. by left. }
      * split; [intros [Hx|(ms' & ls2 & Hx & Ht)]; left; [by left|right; exists ms', ls2; split; [by apply Hlk|done]]|].
        intros [[Hx|(ms' & ls2 & Hx & Ht)]|[_ ->]]; [by left|right; exists ms', ls2; split; [by apply Hlk|done]|done].
    + intros p' (ms' & ls2 & Hx). destruct (decide (p' = p)) as [->|Hne]; [by eexists _, _|]. exists ms', ls2. by apply Hlk.
    + intros i Hi. destruct Hi as [p' o Hx|p' ms' ls2 d op Hx Hm|p' d op Hx|t v Hx|f args Hx|f args v Hx Hv|t r f Hr Hf].
      * left. destruct (decide (p' = p)) as [->|Hne]; [by rewrite Hself in Hx|]. eapply in_settled. by apply Hlk.
      * destruct (decide (p' = p)) as [->|Hne]; [|left; eapply in_messages; [by apply Hlk|done]].
        rewrite Hself in Hx. injection Hx as <- <-. apply elem_of_app in Hm as [Hm|Hm]; [left; by eapply in_messages|].
        apply list_elem_of_singleton in Hm. right. by exists d, op.
      * left. by eapply in_dispatch.
      * left. by eapply in_listen.
      * left. by eapply in_call.
      * left. by eapply in_args.
      * left. by eapply in_reaction.
  - exists q. split; [by right|]. split; try done.
    + intros t p'. unfold place. cbn. rewrite elem_of_app, list_elem_of_singleton. split.
      * intros [[Hx|Hx]|Hx]; [by left; left| |by left; right]. right. by injection Hx as -> ->.
      * intros [[Hx|Hx]|[-> ->]]; [by left; left|by right|by left; right].
    + intros t Hx. cbn. rewrite elem_of_app. by left.
    + intros i Hi. destruct Hi as [p' o Hx|p' ms' ls2 d op Hx Hm|p' d op Hx|t v Hx|f args Hx|f args v Hx Hv|t r f Hr Hf].
      * left. by eapply in_settled.
      * left. by eapply in_messages.
      * cbn in Hx. rewrite elem_of_app, list_elem_of_singleton in Hx. destruct Hx as [Hx|Hx]; [left; by eapply in_dispatch|].
        injection Hx as -> <-. right. by exists d, op.
      * cbn in Hx. rewrite elem_of_app, list_elem_of_singleton in Hx. destruct Hx as [Hx|Hx]; [left; by eapply in_listen|done].
      * cbn in Hx. rewrite elem_of_app, list_elem_of_singleton in Hx. destruct Hx as [Hx|Hx]; [left; by eapply in_call|done].
      * cbn in Hx. rewrite elem_of_app, list_elem_of_singleton in Hx. destruct Hx as [Hx|Hx]; [left; by eapply in_args|done].
      * left. by eapply in_reaction.
Qed.

Lemma frame_refl w : frame nothing w w.
Proof. split; try done; eauto. Qed.
(** A message that is no reaction's. *)
Definition message_ok (w : world) (m : message) : Prop :=
  match m with When _ => False | Progress _ => True | Op d op => item_ok w (IOp d op) end.
Lemma frame_hold p m w : message_ok w m -> frame nothing w (hold p m w).
Proof.
  intros Hm. destruct (cells w !! p) as [[ms ls|q|o]|] eqn:Hp.
  3,4: unfold hold; rewrite Hp; apply frame_refl.
  all: destruct (hold_arrives p m w) as (q' & _ & A); [eauto|]; destruct A as [A1 A2 A3 A4 A5 A6 A7 A8 A9 A10].
  all: assert (G : grows w (hold p m w)) by (apply same_grows; [done|lia]).
  all: split; [done|done|rewrite A3; by apply store_ok_more|lia|done|intros p' q0 Hx; left; by apply A6
    |intros t' q0 [Hx|[Hx _]]%A7; [by left|by subst m]
    |intros t' q0 Hx; exists q0; apply A7; by left|done|intros p' Hx _; by apply A9
    |intros i [Hi|(d & op & Em & Ei)]%A10; [by left|right; subst; by eapply (item_ok_more w _ (IOp d op))]].
Qed.

(** The message of a reaction that is on its way. *)
Lemma inv_hold p t r running opened w : inv (Some t) running opened w -> reactions w !! t = Some r -> reaches w (self r) p ->
  (p < next_id w)%nat -> (forall o, cells w !! p <> Some (Settled o)) -> inv None running opened (hold p (When t) w).
Proof.
  intros I Hr Hre Hlt Hns.
  assert (Hp : (exists ms ls, cells w !! p = Some (Pending ms ls)) \/ (exists q, cells w !! p = Some (Became q))).
  { destruct (lookup_lt_is_Some_2 (cells w) p Hlt) as [[ms ls|q|o] E]; [eauto|eauto|by destruct (Hns o)]. }
  destruct (hold_arrives p (When t) w Hp) as (q & Hq & [A1 A2 A3 A4 A5 A6 A7 A8 A9 A10]).
  assert (G : grows w (hold p (When t) w)) by (apply same_grows; [done|lia]).
  assert (Hreq : reaches w (self r) q /\ (q < next_id w)%nat).
  { destruct Hq as [->|Hq]; [done|]. split; [|by eapply (became_valid _ _ _ _ I)].
    eapply reaches_trans; [exact Hre|]. eapply reaches_next; [exact Hq|constructor]. }
  split.
  - intros p' q' Hx. rewrite A4. apply A6 in Hx. by eapply (became_valid _ _ _ _ I).
  - intros t' r' Hx. rewrite A1 in Hx. rewrite A4. by eapply (reaction_valid _ _ _ _ I).
  - intros t' q' Hx. rewrite A1, A4. apply A7 in Hx as [Hx|[Hx ->]].
    + apply (place_valid _ _ _ _ I) in Hx as (Hv & r' & Hr' & Hre'). split; [done|]. exists r'. split; [done|]. by eapply reaches_stay.
    + injection Hx as <-. split; [by destruct Hreq|]. exists r. split; [done|]. eapply reaches_stay; [done|by destruct Hreq].
  - intros t' r' Hx Hd _. rewrite A1 in Hx. destruct (decide (t' = t)) as [->|Hne].
    + right. exists q. apply A7. by right.
    + destruct (located _ _ _ _ I t' r' Hx Hd ltac:(congruence)) as [Ht|(q' & Hq')]; [left; by apply A8|].
      right. exists q'. apply A7. by left.
  - intros t' r' Hx Hd. rewrite A1 in Hx. apply A9. by eapply (derived_pending _ _ _ _ I).
  - intros t1 t2 r1 r2. rewrite A1. apply (derived_distinct _ _ _ _ I).
  - intros t' o' q' Hx. rewrite A2 in Hx. apply (logged _ _ _ _ I) in Hx as (Hm & r' & Hr' & Hd & Hsh & Hc).
    split; [done|]. exists r'. rewrite A1. split; [done|]. split; [done|]. split; [by eapply shows_stay|]. by apply A5 in Hc.
  - rewrite A2. apply (logged_once _ _ _ _ I).
  - intros t' r'. rewrite A1, A2. apply (all_logged _ _ _ _ I).
  - intros i [Hi|(d & op & Em & _)]%A10; [|done]. apply (mentioned _ _ _ _ I) in Hi. by eapply item_ok_more.
  - rewrite A3. eapply store_ok_more; [exact G|apply (store_fine _ _ _ _ I)].
Qed.

(** A reaction that is done, or is none, needs no message. *)
Lemma inv_moved t running opened w : inv (Some t) running opened w -> (forall r, reactions w !! t = Some r -> done_ r = true) -> inv None running opened w.
Proof.
  intros I Hd. destruct I. split; try done. intros t' r Hx Hn _. destruct (decide (t' = t)) as [->|Hne].
  - apply Hd in Hx. congruence.
  - eapply located0; [done|done|congruence].
Qed.

(** ** Code that uses promises *)

Lemma react_lookup p f r g w t' r' : reactions (react p f r g w) !! t' = Some r' ->
  reactions w !! t' = Some r' \/ (t' = length (reactions w) /\ r' = Reaction p f r g (next_id w) false).
Proof.
  intros Hx. cbn in Hx. apply lookup_app_Some in Hx as [Hx|[Hge Hx]]; [by left|]. right. apply list_lookup_singleton_Some in Hx as [Hx ->].
  split; [lia|done].
Qed.
Lemma react_grows p f r g w : grows w (react p f r g w).
Proof.
  split; [unfold next_id; cbn; rewrite length_app; lia|]. intros d Hd Ho r' Hr'. cbn in Hr'.
  apply elem_of_app in Hr' as [Hr'|Hr']; [by apply Ho|]. apply list_elem_of_singleton in Hr'. subst r'. cbn. lia.
Qed.
Lemma inv_react p f r g moving running opened w : inv moving running opened w -> (p < next_id w)%nat -> fns_ok w f r g ->
  (forall t, running = Some t \/ opened = Some t -> (t < length (reactions w))%nat) -> inv moving running opened (react p f r g w).
Proof.
  intros I Hp Hf Hin. set (t := length (reactions w)) in *. set (w' := react p f r g w).
  pose proof (react_lookup p f r g w : forall t' r', reactions w' !! t' = Some r' -> _) as Hlk. fold t in Hlk.
  assert (G : grows w w') by apply react_grows.
  assert (Hn : next_id w' = S (next_id w)) by (unfold next_id; cbn; rewrite length_app; cbn; lia).
  assert (Hold : forall t' r', reactions w !! t' = Some r' -> reactions w' !! t' = Some r').
  { intros t' r' Hx. cbn. rewrite lookup_app_l; [done|by eapply lookup_lt_Some]. }
  assert (Hc : forall p c, cells w !! p = Some c -> cells w' !! p = Some c).
  { intros p' c Hx. exact (lookup_new_cell (Pending [] []) w p' c Hx). }
  assert (Hback : forall p c, cells w' !! p = Some c -> cells w !! p = Some c \/ c = Pending [] []).
  { intros p' c Hx. exact (new_cell_lookup (Pending [] []) w p' c Hx). }
  assert (Hd : cells w' !! next_id w = Some (Pending [] [])).
  { cbn. rewrite lookup_app_r by done. unfold next_id. by rewrite Nat.sub_diag. }
  assert (Hpl : forall t' q, place w' t' q <-> place w t' q).
  { intros t' q. unfold place. cbn. rewrite elem_of_app, list_elem_of_singleton. split.
    - intros [[Hx|Hx]|(ms & ls & Hx & Hm)]; [by left|done|]. right. apply Hback in Hx as [Hx|Hx]; [eauto|]. injection Hx as -> ->. by apply not_elem_of_nil in Hm.
    - intros [Hx|(ms & ls & Hx & Hm)]; [by left; left|right]. exists ms, ls. split; [by apply Hc|done]. }
  assert (Hstay : forall p c, cells w !! p = Some c -> match c with Pending _ _ => False | _ => True end -> cells w' !! p = Some c) by (intros; by apply Hc).
  destruct I. split.
  - intros p' q [Hx|Hx]%Hback; [|done]. apply became_valid0 in Hx. lia.
  - intros t' r' [Hx|[-> ->]]%Hlk; [apply reaction_valid0 in Hx; lia|]. rewrite Hn. cbn [self derived]. lia.
  - intros t' q Hx%Hpl. apply place_valid0 in Hx as (Hv & r' & Hr & Hre). split; [lia|]. exists r'. split; [by apply Hold|].
    by eapply reaches_stay.
  - intros t' r' [Hx|[-> ->]]%Hlk Hnd Hmv.
    + destruct (located0 t' r' Hx Hnd Hmv) as [Ht|(q & Hq)]; [left; cbn; rewrite elem_of_app; by left|right; exists q; by apply Hpl].
    + left. cbn. rewrite elem_of_app. right. by left.
  - intros t' r' [Hx|[-> ->]]%Hlk Hopen; [|by exists [], []]. destruct (derived_pending0 t' r' Hx Hopen) as (ms & ls & Hms). exists ms, ls. by apply Hc.
  - intros t1 t2 r1 r2 [H1|[-> ->]]%Hlk [H2|[-> ->]]%Hlk E; [by eapply derived_distinct0| | |done].
    + cbn in E. apply reaction_valid0 in H1. lia.
    + cbn in E. apply reaction_valid0 in H2. lia.
  - intros t' o q Hx. apply logged0 in Hx as (Hrun & r' & Hr & Hdn & Hsh & Hb). split; [done|]. exists r'. split; [by apply Hold|].
    split; [done|]. split; [by eapply shows_stay|by apply Hc].
  - done.
  - intros t' r' [Hx|[-> ->]]%Hlk Hdn; [by eapply all_logged0|done].
  - intros i Hi. assert (Hmore : mentions w i -> item_ok w' i) by (intros Hx; eapply item_ok_more; [exact G|by apply mentioned0]).
    destruct Hi as [p' o Hx|p' ms' ls2 d op Hx Hm|p' d op Hx|t' v Hx|h args Hx|h args v Hx Hv|t' r' h Hr Hh].
    + apply Hback in Hx as [Hx|]; [|done]. apply Hmore. by eapply in_settled.
    + apply Hback in Hx as [Hx|E]; [apply Hmore; by eapply in_messages|]. injection E as -> ->. by apply not_elem_of_nil in Hm.
    + cbn in Hx. rewrite elem_of_app, list_elem_of_singleton in Hx. destruct Hx as [Hx|]; [|done]. apply Hmore. by eapply in_dispatch.
    + cbn in Hx. rewrite elem_of_app, list_elem_of_singleton in Hx. destruct Hx as [Hx|]; [|done]. apply Hmore. by eapply in_listen.
    + cbn in Hx. rewrite elem_of_app, list_elem_of_singleton in Hx. destruct Hx as [Hx|]; [|done]. apply Hmore. by eapply in_call.
    + cbn in Hx. rewrite elem_of_app, list_elem_of_singleton in Hx. destruct Hx as [Hx|]; [|done]. apply Hmore. by eapply in_args.
    + apply Hlk in Hr as [Hr|[-> ->]]; [apply Hmore; by eapply in_reaction|]. cbn. eapply fn_ok_more; [exact G|]. apply Hf. exact Hh.
  - by eapply store_ok_more.
Qed.

Lemma as_promise_frame v w : known w v -> frame nothing w (as_promise v w).1 /\ ((as_promise v w).2 < next_id (as_promise v w).1)%nat /\
  (forall p c, cells w !! p = Some c -> cells (as_promise v w).1 !! p = Some c).
Proof.
  destruct v as [v|p|a|f|e m|b v|i v]; cbn [as_promise fst snd]; intros Hv; [|by split; [apply frame_refl|]|..].
  all: split; [by apply frame_new_cell|]; split; [rewrite next_id_new_cell; lia|by intros; apply lookup_new_cell].
Qed.
Lemma made_frame res w : known_result w res -> frame nothing w (made res w).1 /\ ((made res w).2 < next_id (made res w).1)%nat /\
  (forall p c, cells w !! p = Some c -> cells (made res w).1 !! p = Some c).
Proof.
  destruct res as [v|e]; intros Hk; [by apply as_promise_frame|]. cbn [made fst snd].
  split; [by apply frame_new_cell|]. split; [rewrite next_id_new_cell; lia|by intros; apply lookup_new_cell].
Qed.

Section preserved.
Context (running : option nat).
Definition in_range (w : world) : Prop := forall t, running = Some t -> (t < length (reactions w))%nat.

Lemma owned_not w p : owned w p -> forall r, r ∈ reactions w -> ~ (p = derived r).
Proof. intros Ho r Hr E. by apply (Ho r Hr). Qed.
Lemma nothing_not w : forall r, r ∈ reactions w -> ~ nothing (derived r).
Proof. by intros r _ Hn. Qed.
#[local] Hint Resolve owned_not nothing_not : core.

Lemma inv_resolve moving opened p v w : inv moving running opened w -> owned w p -> known w v -> inv moving running opened (resolve p v w).
Proof.
  intros I Hp Hv. unfold resolve. destruct (cells w !! p) as [[ms ls| |]|] eqn:E; try done.
  destruct (as_promise_frame v w Hv) as (F0 & Hq & Hlk). destruct (as_promise v w) as [w1 q]. cbn [fst snd] in *.
  eapply (inv_frame _ _ _ _ w1); [by eapply frame_become; [by apply Hlk in E|]| |by eapply inv_frame; [exact F0|eauto|]].
  rewrite (same_reactions _ _ _ F0). eauto.
Qed.
Lemma inv_settle p o w : inv None running running w -> owned w p -> known_outcome w o -> inv None running running (settle p o w).
Proof.
  intros I Hp Ho. unfold settle. destruct (cells w !! p) as [[ms ls| |]|] eqn:E; try done.
  assert (F0 : frame nothing w (new_cell (Settled o) w)) by by apply frame_new_cell.
  eapply (inv_frame _ _ _ _ (new_cell (Settled o) w)); [eapply frame_become| |by eapply inv_frame; [exact F0|eauto|]].
  - by apply lookup_new_cell.
  - rewrite next_id_new_cell. lia.
  - rewrite (same_reactions _ _ _ F0). eauto.
Qed.
Lemma notify_frame p v w : known w v -> frame nothing w (notify p v w).
Proof.
  intros Hv. unfold notify. destruct (cells w !! p) as [[ms ls| |]|] eqn:E; try apply frame_refl.
  apply frame_nextTick, Forall_forall. intros x Hx. by apply list_elem_of_fmap in Hx as (t & -> & _).
Qed.
Lemma inv_dispatch_op p op w : inv None running running w -> known_op w op -> inv None running running (dispatch p op w).
Proof.
  intros I Ho. unfold dispatch. assert (F0 : frame nothing w (defer w)) by by apply frame_new_cell.
  eapply (inv_frame nothing _ _ _ (defer w)); [|eauto|by eapply inv_frame; [exact F0|eauto|]].
  apply frame_nextTick, Forall_singleton. cbn. split; [unfold next_id, defer, new_cell; cbn; rewrite length_app; cbn; lia|]. split.
  - intros r Hr E. apply list_elem_of_lookup in Hr as [t Ht]. apply (reaction_valid _ _ _ _ I) in Ht. lia.
  - eapply known_op_more; [by eapply frame_grows|done].
Qed.
Lemma inv_api w w' : inv None running running w -> in_range w -> api w w' -> inv None running running w'.
Proof.
  intros I Hin Ha. destruct Ha as [w|w o Ho|w p v Hp Hv|w p o Hp Ho|w p v Hp Hv|w p f r g Hp Hf|w p op Ho|w f args Hf Hargs|w u Hu].
  - eapply inv_frame; [by apply frame_new_cell|eauto|done].
  - eapply inv_frame; [by apply frame_new_cell|eauto|done].
  - by apply inv_resolve.
  - by apply inv_settle.
  - eapply inv_frame; [by apply notify_frame|eauto|done].
  - unfold then_. eapply inv_frame; [by apply frame_hold|eauto|]. apply inv_react; [done|done|done|]. intros t [Ht|Ht]; by apply Hin.
  - by apply inv_dispatch_op.
  - eapply inv_frame; [apply frame_nextTick|eauto|done]. by apply Forall_singleton.
  - eapply inv_frame; [by apply frame_store|eauto|done].
Qed.
Lemma reactions_hold p m w : reactions (hold p m w) = reactions w.
Proof. unfold hold. by destruct (cells w !! p) as [[]|]. Qed.
Lemma reactions_resolve p v w : reactions (resolve p v w) = reactions w.
Proof. unfold resolve. destruct (cells w !! p) as [[ms ls| |]|]; try done. by destruct v. Qed.
Lemma reactions_settle p o w : reactions (settle p o w) = reactions w.
Proof. unfold settle. by destruct (cells w !! p) as [[ms ls| |]|]. Qed.
Lemma reactions_notify p v w : reactions (notify p v w) = reactions w.
Proof. unfold notify. by destruct (cells w !! p) as [[ms ls| |]|]. Qed.
Lemma api_reactions w w' t r : api w w' -> reactions w !! t = Some r -> reactions w' !! t = Some r.
Proof.
  intros Ha Hr. destruct Ha; try done; rewrite ?reactions_resolve, ?reactions_settle, ?reactions_notify; try done.
  unfold then_. rewrite reactions_hold. cbn. rewrite lookup_app_l; [done|by eapply lookup_lt_Some].
Qed.
(** What is settled stays settled. *)
Definition stay (w w' : world) : Prop :=
  forall p c, cells w !! p = Some c -> match c with Pending _ _ => False | _ => True end -> cells w' !! p = Some c.
Lemma stay_refl w w' : cells w' = cells w -> stay w w'.
Proof. intros E p c Hp _. by rewrite E. Qed.
Lemma stay_trans w1 w2 w3 : stay w1 w2 -> stay w2 w3 -> stay w1 w3.
Proof. intros H1 H2 p c Hp Hc. apply H2; [by apply H1|done]. Qed.
Lemma stay_new_cell c w : stay w (new_cell c w).
Proof. intros p c' Hp _. by apply lookup_new_cell. Qed.
Lemma stay_as_promise v w : stay w (as_promise v w).1.
Proof. destruct v; cbn; try apply stay_new_cell. by apply stay_refl. Qed.
Lemma stay_made res w : stay w (made res w).1.
Proof. destruct res; [apply stay_as_promise|apply stay_new_cell]. Qed.
Lemma stay_set_cell p c w : pending w p -> stay w (set_cell p c w).
Proof.
  intros (ms & ls & Hp) p' c' Hx Hc. cbn. rewrite list_lookup_insert_ne; [done|]. intros <-. rewrite Hp in Hx. by injection Hx as <-.
Qed.
Lemma stay_hold p m w : stay w (hold p m w).
Proof.
  unfold hold. destruct (cells w !! p) as [[ms ls|q|o]|] eqn:E; try by apply stay_refl. apply stay_set_cell. by exists ms, ls.
Qed.
Lemma stay_become p q ms w : pending w p -> stay w (become p q ms w).
Proof. intros Hp. unfold become. exact (stay_set_cell p (Became q) w Hp). Qed.
Lemma stay_resolve p v w : stay w (resolve p v w).
Proof.
  unfold resolve. destruct (cells w !! p) as [[ms ls| |]|] eqn:E; try by apply stay_refl. pose proof (stay_as_promise v w) as Hs.
  destruct (as_promise v w) as [w1 q] eqn:Ea. eapply stay_trans; [exact Hs|]. apply stay_become. exists ms, ls.
  destruct v; cbn in Ea; injection Ea as <- _; try done; by apply lookup_new_cell.
Qed.
Lemma stay_settle p o w : stay w (settle p o w).
Proof.
  unfold settle. destruct (cells w !! p) as [[ms ls| |]|] eqn:E; try by apply stay_refl.
  eapply stay_trans; [apply stay_new_cell|]. apply stay_become. exists ms, ls. by apply lookup_new_cell.
Qed.
Lemma stay_notify p v w : stay w (notify p v w).
Proof. unfold notify. destruct (cells w !! p) as [[ms ls| |]|]; by apply stay_refl. Qed.
Lemma api_stay w w' : api w w' -> stay w w'.
Proof.
  intros Ha. destruct Ha; [apply stay_new_cell|apply stay_new_cell|apply stay_resolve|apply stay_settle|apply stay_notify|..].
  - unfold then_. eapply stay_trans; [|apply stay_hold]. apply (stay_new_cell (Pending [] []) w).
  - apply (stay_new_cell (Pending [] []) w).
  - by apply stay_refl.
  - by apply stay_refl.
Qed.
Lemma apis_stay w w' : rtc api w w' -> stay w w'.
Proof. induction 1 as [|w1 w2 w3 Ha _ IH]; [by apply stay_refl|]. eapply stay_trans; [by apply api_stay|done]. Qed.
Lemma resolve_ids p v w : (next_id w <= next_id (resolve p v w))%nat.
Proof.
  unfold resolve. destruct (cells w !! p) as [[ms ls| |]|]; try done.
  destruct v; unfold become, as_promise, next_id, nextTick, set_cell, new_cell; cbn; rewrite length_insert, ?length_app; lia.
Qed.
Lemma settle_ids p o w : (next_id w <= next_id (settle p o w))%nat.
Proof.
  unfold settle. destruct (cells w !! p) as [[ms ls| |]|]; try done.
  unfold become, next_id, nextTick, set_cell, new_cell; cbn; rewrite length_insert, length_app; lia.
Qed.
Lemma hold_ids p m w : next_id (hold p m w) = next_id w.
Proof. unfold hold. destruct (cells w !! p) as [[ms ls| |]|]; try done. apply next_id_set_cell. Qed.
Lemma api_grows w w' : api w w' -> grows w w'.
Proof.
  intros Ha. destruct Ha; try by apply same_grows.
  - apply same_grows; [done|]. unfold defer. rewrite next_id_new_cell. lia.
  - apply same_grows; [done|]. rewrite next_id_new_cell. lia.
  - apply same_grows; [apply reactions_resolve|apply resolve_ids].
  - apply same_grows; [apply reactions_settle|apply settle_ids].
  - apply same_grows; [apply reactions_notify|]. unfold notify. by destruct (cells w !! p) as [[ms ls| |]|].
  - eapply world_grows_trans; [apply react_grows|]. apply same_grows; [apply reactions_hold|]. unfold then_. by rewrite hold_ids.
  - apply same_grows; [done|]. unfold next_id, dispatch, nextTick, defer, new_cell. cbn. rewrite length_app. lia.
Qed.
Lemma apis_grows w w' : rtc api w w' -> grows w w'.
Proof. induction 1 as [|w1 w2 w3 Ha _ IH]; [apply world_grows_refl|]. eapply world_grows_trans; [by apply api_grows|done]. Qed.

Lemma store_resolve p v w : store (resolve p v w) = store w.
Proof. unfold resolve. destruct (cells w !! p) as [[ms ls| |]|]; try done. by destruct v. Qed.
Lemma store_settle p o w : store (settle p o w) = store w.
Proof. unfold settle. by destruct (cells w !! p) as [[ms ls| |]|]. Qed.
Lemma store_notify p v w : store (notify p v w) = store w.
Proof. unfold notify. by destruct (cells w !! p) as [[ms ls| |]|]. Qed.
Lemma store_then p f r g w : store (then_ p f r g w) = store w.
Proof. unfold then_, hold. by destruct (cells (react p f r g w) !! p) as [[]|]. Qed.
(** The settled promises of a world are those of another, or as given. *)
Lemma settled_set_cell p c w q o : (forall o, c <> Settled o) -> cells (set_cell p c w) !! q = Some (Settled o) -> cells w !! q = Some (Settled o).
Proof.
  intros Hc Hq. cbn in Hq. destruct (decide (q = p)) as [->|Hne]; [|by rewrite list_lookup_insert_ne in Hq].
  destruct (decide (p < length (cells w))%nat); [|by rewrite list_insert_ge in Hq by lia].
  rewrite list_lookup_insert_eq in Hq by done. injection Hq as ->. by destruct (Hc o).
Qed.
Lemma settled_hold p m w q o : cells (hold p m w) !! q = Some (Settled o) -> cells w !! q = Some (Settled o).
Proof. unfold hold. destruct (cells w !! p) as [[ms ls|r|o']|]; try done. by apply settled_set_cell. Qed.
Lemma settled_resolve p v w q o : cells (resolve p v w) !! q = Some (Settled o) -> cells w !! q = Some (Settled o) \/ o = Fulfilled v.
Proof.
  unfold resolve. destruct (cells w !! p) as [[ms ls| |]|]; try by left. destruct v; cbn [as_promise]; intros Hq.
  2: left; by apply (settled_set_cell p (Became _)) in Hq.
  all: apply (settled_set_cell p (Became _) (new_cell _ w) q o) in Hq; [|done]; apply new_cell_lookup in Hq as [Hq|Hq]; [by left|right; congruence].
Qed.
Lemma settled_settle p o0 w q o : cells (settle p o0 w) !! q = Some (Settled o) -> cells w !! q = Some (Settled o) \/ o = o0.
Proof.
  unfold settle. destruct (cells w !! p) as [[ms ls| |]|]; try by left. intros Hq.
  apply (settled_set_cell p (Became _) (new_cell _ w) q o) in Hq; [|done]. apply new_cell_lookup in Hq as [Hq|Hq]; [by left|right; congruence].
Qed.
Lemma api_well w w' : api w w' -> well w -> well w'.
Proof.
  intros Ha. pose proof (api_grows w w' Ha) as G. intros [Hs Hk Hd].
  assert (Hmore : forall p o, cells w !! p = Some (Settled o) -> known_outcome w' o) by (intros q o' Hq; by eapply known_outcome_more, Hk).
  assert (Hold : forall r, r ∈ reactions w -> (derived r < next_id w')%nat) by (intros r Hr; apply Hd in Hr; pose proof (more_ids _ _ G); lia).
  destruct Ha as [w|w o Ho|w p v Hp Hv|w p o Hp Ho|w p v Hp Hv|w p f r g Hp Hf|w p op Ho|w f args Hf Hargs|w u Hu];
    (split; [rewrite ?store_resolve, ?store_settle, ?store_notify, ?store_then; eapply store_ok_more; [exact G|done]|intros q o' Hq|
       try by (intros r0 Hr0; rewrite ?reactions_resolve, ?reactions_settle, ?reactions_notify in Hr0; by apply Hold)]).
  - apply new_cell_lookup in Hq as [Hq|]; [by eapply Hmore|done].
  - apply new_cell_lookup in Hq as [Hq|E]; [by eapply Hmore|]. injection E as ->. by eapply known_outcome_more.
  - apply settled_resolve in Hq as [Hq| ->]; [by eapply Hmore|]. by eapply (known_more w).
  - apply settled_settle in Hq as [Hq| ->]; [by eapply Hmore|]. by eapply known_outcome_more.
  - eapply Hmore. unfold notify in Hq. by destruct (cells w !! p) as [[ms ls| |]|].
  - apply settled_hold in Hq. apply (new_cell_lookup (Pending [] []) w) in Hq as [Hq|]; [by eapply Hmore|done].
  - intros r0 Hr0. unfold then_ in Hr0. rewrite reactions_hold in Hr0. cbn in Hr0. apply elem_of_app in Hr0 as [Hr0|Hr0]; [by apply Hold|].
    apply list_elem_of_singleton in Hr0. subst r0. cbn [derived]. unfold then_. rewrite hold_ids. unfold next_id, react. cbn. rewrite length_app. cbn. lia.
  - apply (new_cell_lookup (Pending [] []) w) in Hq as [Hq|]; [by eapply Hmore|done].
  - by eapply Hmore.
  - by eapply Hmore.
Qed.
Lemma apis_well w w' : rtc api w w' -> well w -> well w'.
Proof. induction 1 as [|w1 w2 w3 Ha _ IH]; [done|]. intros Hs. by eapply IH, api_well. Qed.
Lemma inv_apis w w' : inv None running running w -> in_range w -> rtc api w w' -> inv None running running w' /\
  (forall t r, reactions w !! t = Some r -> reactions w' !! t = Some r).
Proof.
  intros I Hin Ha. induction Ha as [|w w1 w2 H1 _ IH]; [done|].
  destruct IH as [I2 Hr]; [by eapply inv_api| |].
  - intros t Ht. destruct (lookup_lt_is_Some_2 (reactions w) t (Hin t Ht)) as [r Hr]. eapply lookup_lt_Some, api_reactions; eauto.
  - split; [done|]. intros t r Hr0. eapply Hr, api_reactions; eauto.
Qed.
End preserved.

(** ** Calling a reaction *)

Section delivery.
Context (invoke : F -> list value -> world -> world * result) (perform : operation -> value -> world -> world * result).
(** What functions and operations do: they use promises, and know what they
    return. *)
Hypothesis invoke_api : forall f args w, fn_ok w f -> Forall (known w) args -> well w ->
  rtc api w (invoke f args w).1 /\ known_result (invoke f args w).1 (invoke f args w).2.
Hypothesis perform_api : forall op v w, known_op w op -> known w v -> well w ->
  rtc api w (perform op v w).1 /\ known_result (perform op v w).1 (perform op v w).2.

Lemma run_opt_api f v res w : (forall h, f = Some h -> fn_ok w h) -> known w v -> known_result w res -> well w ->
  rtc api w (run_opt invoke f v res w).1 /\ known_result (run_opt invoke f v res w).1 (run_opt invoke f v res w).2.
Proof.
  intros Hf Hv Hr Hs. destruct f as [f|]; [|by split; [apply rtc_refl|]]. apply invoke_api; [by apply Hf|by apply Forall_singleton|done].
Qed.
Lemma handle_api r o w : (forall h, fn_of r h -> fn_ok w h) -> known_outcome w o -> well w ->
  rtc api w (handle invoke r o w).1 /\ known_result (handle invoke r o w).1 (handle invoke r o w).2.
Proof.
  intros Hf Ho Hs. destruct o as [v|e]; cbn [handle]; apply run_opt_api; try done; intros h Hh; apply Hf; [by left|by right; left].
Qed.

Lemma inv_start t r w : inv (Some t) None None w -> reactions w !! t = Some r -> done_ r = false -> inv None (Some t) (Some t) (set_done t r w).
Proof.
  intros I Hr Hd. assert (Hlt : (t < length (reactions w))%nat) by by eapply lookup_lt_Some.
  set (r1 := Reaction (self r) (on_fulfilled r) (on_rejected r) (on_progress r) (derived r) true).
  assert (Hself : reactions (set_done t r w) !! t = Some r1) by (cbn; by apply list_lookup_insert_eq).
  assert (Hlk : forall t' r', t' <> t -> reactions (set_done t r w) !! t' = Some r' <-> reactions w !! t' = Some r').
  { intros t' r' Hne. cbn. by rewrite list_lookup_insert_ne. }
  assert (Hback : forall t' r', reactions (set_done t r w) !! t' = Some r' -> exists r0, reactions w !! t' = Some r0 /\
    self r0 = self r' /\ derived r0 = derived r' /\ (forall f, fn_of r' f -> fn_of r0 f) /\ (t' <> t -> r0 = r')).
  { intros t' r' Hx. destruct (decide (t' = t)) as [->|Hne]; [|exists r'; split; [by apply Hlk|done]].
    rewrite Hself in Hx. injection Hx as <-. by exists r. }
  assert (Hsame : forall p q, reaches w p q -> reaches (set_done t r w) p q) by (intros p q Hx; by eapply reaches_same).
  assert (G : grows w (set_done t r w)).
  { split; [done|]. intros d _ Ho r' Hr'. apply list_elem_of_lookup in Hr' as [t' Ht']. apply Hback in Ht' as (r0 & H0 & _ & <- & _).
    apply Ho. by eapply list_elem_of_lookup_2. }
  destruct I. split.
  - done.
  - intros t' r' Hx. apply Hback in Hx as (r0 & Hx & Es & Ed & _). rewrite <- Es, <- Ed. by eapply reaction_valid0.
  - intros t' q Hx. apply place_valid0 in Hx as (Hv & r' & Hx & Hre). split; [done|].
    destruct (decide (t' = t)) as [->|Hne]; [|exists r'; split; [by apply Hlk|by apply Hsame]].
    exists r1. split; [done|]. rewrite Hr in Hx. injection Hx as <-. by apply Hsame.
  - intros t' r' Hx Hn _. destruct (decide (t' = t)) as [->|Hne]; [rewrite Hself in Hx; by injection Hx as <-|].
    apply Hlk in Hx; [|done]. exact (located0 t' r' Hx Hn ltac:(congruence)).
  - intros t' r' Hx Hopen. apply Hback in Hx as (r0 & Hx & Es & Ed & _ & Eq). rewrite <- Ed.
    destruct (decide (t' = t)) as [->|Hne]; [eapply derived_pending0; [done|left; congruence]|].
    specialize (Eq Hne). subst r0. eapply derived_pending0; [done|]. destruct Hopen as [Ho|Ho]; [by left|congruence].
  - intros t1 t2 s1 s2 H1 H2 E. apply Hback in H1 as (u1 & H1 & _ & E1 & _). apply Hback in H2 as (u2 & H2 & _ & E2 & _).
    eapply derived_distinct0; [exact H1|exact H2|congruence].
  - intros t' o q Hx. apply logged0 in Hx as (_ & r' & Hx & Hdn & Hsh & Hc). assert (Hne : t' <> t) by congruence.
    split; [congruence|]. exists r'. split; [by apply Hlk|]. split; [done|]. split; [by eapply shows_same|done].
  - done.
  - intros t' r' Hx Hdn. destruct (decide (t' = t)) as [->|Hne]; [by left|]. apply Hlk in Hx; [|done]. right.
    by destruct (all_logged0 t' r' Hx Hdn).
  - intros i Hi. eapply item_ok_more; [exact G|]. apply mentioned0.
    destruct Hi as [p' o Hx|p' ms' ls2 d op Hx Hm|p' d op Hx|t' v Hx|h args Hx|h args v Hx Hv|t' r' h Hx Hh];
      [by eapply in_settled|by eapply in_messages|by eapply in_dispatch|by eapply in_listen|by eapply in_call|by eapply in_args|].
    apply Hback in Hx as (r0 & Hx & _ & _ & Hfn & _). eapply in_reaction; [exact Hx|by apply Hfn].
  - by eapply store_ok_more.
Qed.

(** The reaction's own promise becomes what its function made. *)
Lemma inv_finish t r q ms ls o w : inv None (Some t) (Some t) w -> reactions w !! t = Some r -> done_ r = true ->
  cells w !! derived r = Some (Pending ms ls) -> (q < next_id w)%nat -> shows w (self r) o ->
  inv None None None (log t o q (become (derived r) q ms w)).
Proof.
  intros I Hr Hd Hp Hq Hsh. pose proof (frame_become (derived r) q ms ls w Hp Hq) as F0.
  assert (I1 : inv None (Some t) None (become (derived r) q ms w)).
  { eapply inv_frame_opened; [exact F0| |exact I]. intros t' r' Hr' [Hn|Hn]; [|done]. split; [|by left].
    intros E. assert (t = t') as <- by by eapply (derived_distinct _ _ _ _ I). congruence. }
  assert (Hsh1 : shows (become (derived r) q ms w) (self r) o) by (eapply shows_stay; [apply (cells_stay _ _ _ F0)|done]).
  assert (Hc : cells (become (derived r) q ms w) !! derived r = Some (Became q)).
  { unfold become, nextTick, set_cell. cbn. apply list_lookup_insert_eq. by eapply lookup_lt_Some. }
  clear I F0. set (w1 := become (derived r) q ms w) in *. assert (Hr1 : reactions w1 !! t = Some r) by done.
  assert (G : grows w1 (log t o q w1)) by by apply same_grows.
  destruct I1. split; try done.
  - intros t' q' Hx. apply place_valid0 in Hx as (Hv & r' & Hx & H'). split; [done|]. exists r'. split; [done|by eapply reaches_same].
  - intros t' o' q' Hx. cbn in Hx. apply elem_of_app in Hx as [Hx|Hx].
    + apply logged0 in Hx as (_ & r' & Hx & Hdn & Hs & Hb). split; [done|]. exists r'. split; [done|]. split; [done|].
      split; [by eapply shows_same|done].
    + apply list_elem_of_singleton in Hx. injection Hx as -> -> ->. split; [done|]. exists r. split; [done|]. split; [done|].
      split; [by eapply shows_same|done].
  - cbn. rewrite !fmap_app. apply NoDup_app. split; [done|]. split; [|apply NoDup_singleton].
    intros t' Ht' Hx. apply list_elem_of_singleton in Hx. subst t'.
    apply list_elem_of_fmap in Ht' as ([t' o'] & E & Hx). apply list_elem_of_fmap in Hx as ([[t2 o2] q2] & E2 & Hx). cbn in E, E2.
    injection E2 as -> ->. subst t2. apply logged0 in Hx as [Hx _]. done.
  - intros t' r' Hx Hdn. right. cbn. rewrite !fmap_app, elem_of_app. destruct (all_logged0 t' r' Hx Hdn) as [E|E]; [|by left].
    injection E as ->. right. by left.
  - intros i Hi. eapply item_ok_more; [exact G|]. apply mentioned0.
    destruct Hi; [by eapply in_settled|by eapply in_messages|by eapply in_dispatch|by eapply in_listen|by eapply in_call|by eapply in_args|by eapply in_reaction].
  - by eapply store_ok_more.
Qed.

Lemma inv_deliver t r o w : inv (Some t) None None w -> reactions w !! t = Some r -> shows w (self r) o ->
  inv None None None (deliver invoke t o w).
Proof.
  intros I Hr Hsh. assert (Ho : known_outcome w o) by (destruct Hsh as (q & _ & Hq); by eapply settled_known).
  unfold deliver. rewrite Hr. destruct (done_ r) eqn:Hd.
  { apply (inv_moved t); [done|]. intros r' Hr'. congruence. }
  pose proof (inv_start t r w I Hr Hd) as I1. set (w1 := set_done t r w) in *.
  set (r1 := Reaction (self r) (on_fulfilled r) (on_rejected r) (on_progress r) (derived r) true).
  assert (Hr1 : reactions w1 !! t = Some r1) by (cbn; apply list_lookup_insert_eq; by eapply lookup_lt_Some).
  assert (Ho1 : known_outcome w1 o).
  { destruct Hsh as (q & _ & Hq). exact (settled_known _ _ _ w1 q o I1 Hq). }
  destruct (handle_api r o w1) as [Hap Hk]; [|done|by eapply inv_well|].
  { intros h Hh. exact (mentioned _ _ _ _ I1 (IFn h) (in_reaction w1 t r1 h Hr1 Hh)). }
  clear I Ho. destruct (handle invoke r o w1) as [w2 res]. cbn [fst snd] in *.
  assert (Hin : in_range (Some t) w1) by (intros t' E; injection E as <-; by eapply lookup_lt_Some).
  destruct (inv_apis (Some t) w1 w2 I1 Hin Hap) as [I2 Hkeep]. specialize (Hkeep t r1 Hr1).
  assert (Hsh2 : shows w2 (self r1) o).
  { eapply shows_stay; [by apply apis_stay|]. by apply (shows_same w). }
  destruct (made_frame res w2 Hk) as (F0 & Hq & Hlk). destruct (made res w2) as [w3 q]. cbn [fst snd] in *.
  assert (I3 : inv None (Some t) (Some t) w3) by (eapply inv_frame; [exact F0| |exact I2]; by intros r0 _ Hn).
  assert (Hr3 : reactions w3 !! t = Some r1) by by rewrite (same_reactions _ _ _ F0).
  destruct (derived_pending _ _ _ _ I3 t r1 Hr3 ltac:(by right)) as (ms & ls & Hp).
  unfold resolve. change (derived r) with (derived r1). rewrite Hp. cbn [as_promise].
  apply (inv_finish t r1 q ms ls o w3); [done|done|done|done|done|]. eapply shows_stay; [apply (cells_stay _ _ _ F0)|done].
Qed.
Lemma inv_answer p d op o w : inv None None None w -> cells w !! p = Some (Settled o) -> item_ok w (IOp d op) ->
  inv None None None (answer perform p d op o w).
Proof.
  intros I Hp (Hd & Hod & Hop). assert (Hlt : (p < next_id w)%nat) by by eapply lookup_lt_Some.
  pose proof (settled_known _ _ _ _ _ _ I Hp) as Ho. destruct o as [v|e]; cbn [answer]; [|by apply inv_resolve].
  destruct (perform_api op v w Hop Ho (inv_well _ _ _ _ I)) as [Hap Hk]. destruct (perform op v w) as [w1 res]. cbn [fst snd] in *.
  destruct (inv_apis None w w1 I ltac:(done) Hap) as [I1 _]. pose proof (apis_grows w w1 Hap) as G.
  destruct (made_frame res w1 Hk) as (F0 & Hq & _). destruct (made res w1) as [w2 q]. cbn [fst snd] in *.
  apply inv_resolve; [by eapply inv_frame; [exact F0|by intros r0 _ Hn|]| |done].
  apply (still_owned w1 w2); [by eapply frame_grows|pose proof (more_ids _ _ G); lia|by apply (still_owned w w1)].
Qed.

(** ** The steps keep the invariant *)

Lemma inv_dispatch p t r w : inv (Some t) None None w -> reactions w !! t = Some r -> reaches w (self r) p -> (p < next_id w)%nat ->
  inv None None None (promiseDispatch invoke perform p (When t) w).
Proof.
  intros I Hr Hre Hlt. unfold promiseDispatch. destruct (cells w !! p) as [c|] eqn:Hp; [|apply lookup_ge_None in Hp; unfold next_id in Hlt; lia].
  destruct c as [ms ls|q|o].
  - eapply inv_hold; [done|done|done|done|]. intros o. congruence.
  - eapply inv_hold; [done|done|done|done|]. intros o. congruence.
  - eapply inv_deliver; [done|done|]. by exists p.
Qed.
Lemma inv_dispatch_other p m w : inv None None None w -> message_ok w m -> inv None None None (promiseDispatch invoke perform p m w).
Proof.
  intros I Hm. assert (Hh : inv None None None (hold p m w)) by (eapply inv_frame; [by apply frame_hold|by intros r0 _ Hn|done]).
  unfold promiseDispatch. destruct (cells w !! p) as [[ms ls|q|o]|] eqn:Hp; try done. destruct m as [t|t|d op]; [done|done|].
  by apply inv_answer.
Qed.

Lemma inv_caught w wr : inv None None None w -> rtc api w wr.1 -> inv None None None (caught wr).
Proof.
  intros I Hap. destruct (inv_apis None w wr.1 I ltac:(done) Hap) as [I1 _]. unfold caught. destruct wr.2; [done|].
  eapply inv_frame; [apply frame_throw|by intros r0 _ Hn|done].
Qed.
Lemma inv_progressed t v w : inv None None None w -> known w v -> inv None None None (progressed invoke t v w).
Proof.
  intros I Hv. unfold progressed. destruct (reactions w !! t) as [r|] eqn:Hr; [|done].
  destruct (run_opt_api (on_progress r) v (Return v) w) as [Hap Hk]; [|done|done|by eapply inv_well|].
  { intros h Hh. refine (mentioned _ _ _ _ I (IFn h) (in_reaction w t r h Hr _)). by right; right. }
  destruct (run_opt invoke (on_progress r) v (Return v) w) as [w1 res]. cbn [fst snd] in *.
  destruct (inv_apis None w w1 I ltac:(done) Hap) as [I1 _]. destruct res as [u|e].
  - eapply inv_frame; [by apply notify_frame|by intros r0 _ Hn|done].
  - eapply inv_frame; [apply frame_throw|by intros r0 _ Hn|done].
Qed.

(** The invariant without the first task, which may have been the place of one
    reaction. *)
Lemma inv_rest ts rest w : inv None None None w -> tasks w = ts :: rest ->
  forall moving, (forall t, moving <> Some t -> ts <> ThenTask t /\ forall q, ts <> Dispatch q (When t)) -> inv moving None None (with_tasks rest w).
Proof.
  intros I E. set (w0 := with_tasks rest w). assert (Hsub : forall x, x ∈ tasks w0 -> x ∈ tasks w) by (intros x Hx; rewrite E; by right).
  assert (Hpl : forall t q, place w0 t q -> place w t q).
  { intros t q [Hx|Hx]; [left; by apply Hsub|by right]. }
  assert (G : grows w w0) by by apply same_grows.
  intros moving Hm. destruct I. split; try done.
  - intros t q Hx%Hpl. apply place_valid0 in Hx as (Hv & r & Hr & Hrr). split; [done|]. exists r. split; [done|by eapply reaches_same].
  - intros t r Hr Hd Hmv. destruct (Hm t Hmv) as [Hm1 Hm2]. destruct (located0 t r Hr Hd ltac:(done)) as [Hx|(q & [Hx|Hx])].
    + rewrite E in Hx. apply elem_of_cons in Hx as [Hx|Hx]; [by rewrite Hx in Hm1|by left].
    + rewrite E in Hx. apply elem_of_cons in Hx as [Hx|Hx]; [by destruct (Hm2 q)|right; exists q; by left].
    + right. exists q. by right.
  - intros t o q Hx. apply logged0 in Hx as (Hrun & r & Hr & Hd & Hs & Hc). split; [done|]. exists r. split; [done|].
    split; [done|]. split; [by eapply shows_same|done].
  - intros i Hi. eapply item_ok_more; [exact G|]. apply mentioned0.
    destruct Hi; [by eapply in_settled|by eapply in_messages|eapply in_dispatch; by apply Hsub|eapply in_listen; by apply Hsub
      |eapply in_call; by apply Hsub|eapply in_args; [by apply Hsub|done]|by eapply in_reaction].
  - by eapply store_ok_more.
Qed.
Lemma inv_tick w w' : inv None None None w -> tick invoke perform w = Some w' -> inv None None None w'.
Proof.
  intros I Htick. unfold tick in Htick. destruct (tasks w) as [|ts rest] eqn:E; [done|]. injection Htick as <-.
  pose proof (inv_rest ts rest w I E) as I0. assert (Hhead : ts ∈ tasks w) by (rewrite E; by left).
  assert (G : grows w (with_tasks rest w)) by by apply same_grows.
  destruct ts as [t|p [t|t|d op]|t v|f args]; cbn [run_task]; set (w0 := with_tasks rest w) in *.
  - assert (I1 : inv (Some t) None None w0) by (apply I0; intros t' Hne; split; congruence).
    destruct (reactions w0 !! t) as [r|] eqn:Hr.
    + apply (inv_dispatch (self r) t r); [done|done|constructor|]. by eapply (reaction_valid _ _ _ _ I1).
    + apply (inv_moved t); [done|]. intros r. congruence.
  - assert (I1 : inv (Some t) None None w0) by (apply I0; intros t' Hne; split; congruence).
    destruct (place_valid _ _ _ _ I t p) as (Hlt & r & Hr & Hrr); [by left|].
    apply (inv_dispatch p t r); [done|done|by eapply reaches_same|done].
  - apply inv_dispatch_other; [apply I0; intros t' Hne; split; congruence|done].
  - apply inv_dispatch_other; [apply I0; intros t' Hne; split; congruence|].
    apply (item_ok_more w w0 (IOp d op) G). eapply (mentioned _ _ _ _ I). by eapply in_dispatch.
  - apply inv_progressed; [apply I0; intros t' Hne; split; congruence|].
    apply (item_ok_more w w0 (IVal v) G). eapply (mentioned _ _ _ _ I). by eapply in_listen.
  - assert (I1 : inv None None None w0) by (apply I0; intros t' Hne; split; congruence).
    apply (inv_caught w0); [done|]. apply invoke_api; [| |by eapply inv_well].
    + apply (item_ok_more w w0 (IFn f) G), (mentioned _ _ _ _ I). by eapply in_call.
    + apply Forall_forall. intros v Hv. apply (item_ok_more w w0 (IVal v) G), (mentioned _ _ _ _ I). by eapply in_args.
Qed.

Lemma inv_empty u : store_ok (empty u) u -> inv None None None (empty u).
Proof.
  intros Hu. split; try done.
  - intros t q [Hx|(ms & ls & Hx & _)]; [by apply not_elem_of_nil in Hx|done].
  - intros t o q Hx. by apply not_elem_of_nil in Hx.
  - constructor.
  - intros i Hi. destruct Hi as [p' o Hx|p' ms' ls2 d op Hx Hm|p' d op Hx|t v Hx|h args Hx|h args v Hx Hv|t r h Hx Hh];
      try done; by apply not_elem_of_nil in Hx.
Qed.
Lemma queue_inv u w : store_ok (empty u) u -> rtc (step invoke perform) (empty u) w -> inv None None None w.
Proof.
  intros Hu Hw. assert (Hg : forall a b, rtc (step invoke perform) a b -> inv None None None a -> inv None None None b);
    [|by apply (Hg (empty u) w Hw), inv_empty].
  induction 1 as [|a b c Hab _ IH]; [done|]. intros I. apply IH. destruct Hab as [a b Hab|a b Hab]; [by eapply inv_api|by eapply inv_tick].
Qed.

Lemma set_done_lookup t r w t' r' : reactions w !! t = Some r -> reactions (set_done t r w) !! t' = Some r' ->
  exists r0, reactions w !! t' = Some r0 /\ on_fulfilled r' = on_fulfilled r0 /\ on_rejected r' = on_rejected r0 /\ derived r' = derived r0.
Proof.
  intros Hr Ht'. cbn in Ht'. destruct (decide (t' = t)) as [->|Hne].
  - rewrite list_lookup_insert_eq in Ht' by (by eapply lookup_lt_Some). injection Ht' as <-. by exists r.
  - rewrite list_lookup_insert_ne in Ht' by done. by exists r'.
Qed.
Lemma set_done_grows t r w : reactions w !! t = Some r -> grows w (set_done t r w).
Proof.
  intros Hr. split; [done|]. intros d _ Hd r' Hr'. apply list_elem_of_lookup in Hr' as [t' Ht'].
  destruct (set_done_lookup t r w t' r' Hr Ht') as (r0 & H0 & _ & _ & ->). apply Hd. by eapply list_elem_of_lookup_2.
Qed.
Lemma set_done_well t r w : reactions w !! t = Some r -> well w -> well (set_done t r w).
Proof.
  intros Hr. apply well_same; [by apply set_done_grows|done|done|]. intros r' Hr'. apply list_elem_of_lookup in Hr' as [t' Ht'].
  destruct (set_done_lookup t r w t' r' Hr Ht') as (r0 & H0 & _ & _ & E). exists r0. by split; [eapply list_elem_of_lookup_2|].
Qed.
Lemma deliver_stay moving t o w : inv moving None None w -> known_outcome w o -> stay w (deliver invoke t o w).
Proof.
  intros I Ho. unfold deliver. destruct (reactions w !! t) as [r|] eqn:Hr; [|by apply stay_refl]. destruct (done_ r); [by apply stay_refl|].
  pose proof (set_done_grows t r w Hr) as G.
  assert (Hs : stay w (handle invoke r o (set_done t r w)).1).
  { eapply (stay_trans _ (set_done t r w)); [by apply stay_refl|]. apply apis_stay, handle_api.
    - intros h Hh. eapply fn_ok_more; [exact G|]. exact (mentioned _ _ _ _ I (IFn h) (in_reaction w t r h Hr Hh)).
    - by eapply known_outcome_more.
    - apply set_done_well; [done|by eapply inv_well]. }
  destruct (handle invoke r o (set_done t r w)) as [w1 res]. cbn [fst] in Hs. pose proof (stay_made res w1) as Hm.
  destruct (made res w1) as [w2 q]. cbn [fst] in Hm. eapply stay_trans; [exact Hs|]. eapply stay_trans; [exact Hm|].
  eapply stay_trans; [apply stay_resolve|by apply stay_refl].
Qed.
Lemma answer_stay moving p d op o w : inv moving None None w -> known_op w op -> known_outcome w o -> stay w (answer perform p d op o w).
Proof.
  intros I Hop Ho. destruct o as [v|e]; cbn [answer]; [|apply stay_resolve].
  destruct (perform_api op v w Hop Ho (inv_well _ _ _ _ I)) as [Hap _]. apply apis_stay in Hap.
  destruct (perform op v w) as [w1 res]. cbn [fst] in Hap. pose proof (stay_made res w1) as Hm.
  destruct (made res w1) as [w2 q]. cbn [fst] in Hm. eapply stay_trans; [exact Hap|]. eapply stay_trans; [exact Hm|apply stay_resolve].
Qed.
Lemma caught_stay w wr : stay w wr.1 -> stay w (caught wr).
Proof. intros Hs. unfold caught. destruct wr.2; [done|]. eapply stay_trans; [exact Hs|by apply stay_refl]. Qed.
Lemma progressed_stay moving t v w : inv moving None None w -> known w v -> stay w (progressed invoke t v w).
Proof.
  intros I Hv. unfold progressed. destruct (reactions w !! t) as [r|] eqn:Hr; [|by apply stay_refl].
  destruct (run_opt_api (on_progress r) v (Return v) w) as [Hap _]; [|done|done|by eapply inv_well|].
  { intros h Hh. refine (mentioned _ _ _ _ I (IFn h) (in_reaction w t r h Hr _)). by right; right. }
  apply apis_stay in Hap. destruct (run_opt invoke (on_progress r) v (Return v) w) as [w1 [u|e]]; cbn [fst] in Hap.
  - eapply stay_trans; [exact Hap|apply stay_notify].
  - eapply stay_trans; [exact Hap|by apply stay_refl].
Qed.
Lemma dispatch_stay moving p m w : inv moving None None w -> (forall d op, m = Op d op -> known_op w op) -> stay w (promiseDispatch invoke perform p m w).
Proof.
  intros I Hm. unfold promiseDispatch. destruct (cells w !! p) as [[ms ls|q|o]|] eqn:Hp; try apply stay_hold.
  destruct m as [t|t|d op]; [|apply stay_hold|].
  - eapply deliver_stay; [done|by eapply settled_known].
  - eapply answer_stay; [done|by eapply Hm|by eapply settled_known].
Qed.
Lemma rest_moving ts rest w : inv None None None w -> tasks w = ts :: rest -> exists moving, inv moving None None (with_tasks rest w).
Proof.
  intros I E. exists (match ts with ThenTask t | Dispatch _ (When t) => Some t | _ => None end). apply (inv_rest ts); [done|done|].
  intros t Hne. by destruct ts as [t'|p [t'|t'|d op]|t' v|f args]; (split; [congruence|intros q; congruence]).
Qed.
Lemma tick_stay w w' : inv None None None w -> tick invoke perform w = Some w' -> stay w w'.
Proof.
  intros I Htick. unfold tick in Htick. destruct (tasks w) as [|ts rest] eqn:E; [done|]. injection Htick as <-.
  assert (Hhead : ts ∈ tasks w) by (rewrite E; by left). assert (G : grows w (with_tasks rest w)) by by apply same_grows.
  destruct (rest_moving ts rest w I E) as [moving I0]. set (w0 := with_tasks rest w) in *. apply (stay_trans w w0); [by apply stay_refl|].
  destruct ts as [t|p m|t v|f args]; cbn [run_task].
  - destruct (reactions w0 !! t); [by eapply dispatch_stay|by apply stay_refl].
  - eapply dispatch_stay; [done|]. intros d op ->. apply (known_op_more w); [done|].
    eapply (mentioned _ _ _ _ I (IOp d op)). by eapply in_dispatch.
  - eapply progressed_stay; [done|]. apply (known_more w); [done|]. eapply (mentioned _ _ _ _ I (IVal v)). by eapply in_listen.
  - apply caught_stay, apis_stay, invoke_api; [| |by eapply inv_well].
    + apply (fn_ok_more w); [done|]. apply (mentioned _ _ _ _ I (IFn f)). by eapply in_call.
    + apply Forall_forall. intros v Hv. apply (known_more w); [done|]. apply (mentioned _ _ _ _ I (IVal v)). by eapply in_args.
Qed.

(** A promise that is settled stays so, with the same outcome,
    whatever code does with it and whatever tasks run. *)
Theorem settles_once u w w' p o o' : store_ok (empty u) u -> rtc (step invoke perform) (empty u) w -> rtc (step invoke perform) w w' ->
  shows w p o -> shows w' p o' -> o' = o.
Proof.
  intros Hu Hw Hs Ho Ho'. apply (queue_inv u) in Hw; [|done]. assert (Hx : shows w' p o); [|by eapply shows_one].
  clear Ho'. induction Hs as [|w w1 w2 H1 _ IH]; [done|]. destruct H1 as [w w1 H1|w w1 H1].
  - apply IH; [by eapply inv_api|]. eapply shows_stay; [by apply api_stay|done].
  - apply IH; [by eapply inv_tick|]. eapply shows_stay; [by apply (tick_stay w w1)|done].
Qed.

(** Code only hands in functions: no function is called before a task runs. *)
Lemma calls_hold p m w : calls (hold p m w) = calls w.
Proof. unfold hold. by destruct (cells w !! p) as [[]|]. Qed.
Lemma calls_resolve p v w : calls (resolve p v w) = calls w.
Proof. unfold resolve. destruct (cells w !! p) as [[ms ls| |]|]; try done. by destruct v. Qed.
Lemma calls_made res w : calls (made res w).1 = calls w.
Proof. destruct res as [v|e]; [by destruct v|done]. Qed.
Lemma api_calls w w' : api w w' -> calls w' = calls w.
Proof.
  intros Ha. destruct Ha as [| |w p v _ _|w p o _ _|w p v _ _|w p f r g _ _| | |]; try done.
  - apply calls_resolve.
  - unfold settle. by destruct (cells w !! p) as [[ms ls| |]|].
  - unfold notify. by destruct (cells w !! p) as [[ms ls| |]|].
  - unfold then_. by rewrite calls_hold.
Qed.
Lemma apis_calls w w' : rtc api w w' -> calls w' = calls w.
Proof. induction 1 as [|w1 w2 w3 Ha _ IH]; [done|]. rewrite IH. by apply api_calls. Qed.

(** What a reaction to an outcome calls, and what with. *)
Definition function_for (r : reaction) (o : outcome) : option F :=
  match o with Fulfilled _ => on_fulfilled r | Rejected _ => on_rejected r end.
Definition value_of (o : outcome) : value := match o with Fulfilled v | Rejected v => v end.
(** Without a function the outcome is handed on. *)
Definition passed_on (o : outcome) : result := match o with Fulfilled v => Return v | Rejected e => Raise e end.
(** [q] is the promise of what a function returned or threw. *)
Definition is_made (w : world) (q : nat) (res : result) : Prop :=
  match res with
  | Return (Ref p) => q = p
  | Return v => cells w !! q = Some (Settled (Fulfilled v))
  | Raise e => cells w !! q = Some (Settled (Rejected e))
  end.
(** A task, the first of [w1], runs the reaction [t] and leaves [w2]: its
    function is called, once (the store is what that call left), or the
    outcome is handed on, and [q] is the promise of the result. *)
Definition ran (t : nat) (o : outcome) (q : nat) (w1 w2 : world) : Prop :=
  exists ts rest r res, tasks w1 = ts :: rest /\ reactions w1 !! t = Some r /\ done_ r = false /\ calls w2 = calls w1 ++ [(t, o, q)] /\
    match function_for r o with
    | Some f => exists w, invoke f [value_of o] (set_done t r (with_tasks rest w1)) = (w, res) /\ store w2 = store w
    | None => res = passed_on o /\ store w2 = store w1
    end /\ is_made w2 q res.

Lemma store_made res w : store (made res w).1 = store w.
Proof. destruct res as [v|e]; [by destruct v|done]. Qed.
Lemma made_is res w : is_made (made res w).1 (made res w).2 res.
Proof.
  assert (Hn : forall c, cells (new_cell c w) !! next_id w = Some c).
  { intros c. cbn. unfold next_id. rewrite lookup_app_r by lia. by rewrite Nat.sub_diag. }
  destruct res as [v|e]; [destruct v|]; try done; apply Hn.
Qed.
Lemma is_made_stay res q w w' : stay w w' -> is_made w q res -> is_made w' q res.
Proof. intros Hs. destruct res as [v|e]; [destruct v|]; cbn; try done; intros Hq; by apply (Hs q _ Hq). Qed.

Lemma deliver_ran moving t o w ts rest w1 : tasks w1 = ts :: rest -> w = with_tasks rest w1 ->
  inv moving None None w -> known_outcome w o ->
  calls (deliver invoke t o w) = calls w1 \/ exists q, ran t o q w1 (deliver invoke t o w).
Proof.
  intros E -> I Ho. unfold deliver. destruct (reactions (with_tasks rest w1) !! t) as [r|] eqn:Hr; [|by left].
  destruct (done_ r) eqn:Hd; [by left|right]. set (w := with_tasks rest w1) in *. pose proof (set_done_grows t r w Hr) as G.
  assert (Hcs : calls (handle invoke r o (set_done t r w)).1 = calls w1).
  { change (calls w1) with (calls (set_done t r w)). apply apis_calls, handle_api.
    - intros h Hh. eapply fn_ok_more; [exact G|]. exact (mentioned _ _ _ _ I (IFn h) (in_reaction w t r h Hr Hh)).
    - by eapply known_outcome_more.
    - apply set_done_well; [done|by eapply inv_well]. }
  destruct (handle invoke r o (set_done t r w)) as [w2 res] eqn:Eh. cbn [fst] in Hcs.
  pose proof (calls_made res w2) as Hcm. pose proof (store_made res w2) as Hsm. pose proof (made_is res w2) as Hm.
  destruct (made res w2) as [w3 q]. cbn [fst snd] in *. exists q, ts, rest, r, res. do 3 (split; [done|]). split; [|split].
  - cbn. by rewrite calls_resolve, Hcm, Hcs.
  - cbn [store log]. rewrite store_resolve, Hsm. unfold handle, run_opt in Eh.
    destruct o as [v|e]; cbn [function_for value_of passed_on]; [destruct (on_fulfilled r)|destruct (on_rejected r)];
      try (by exists w2); injection Eh as <- <-; by split.
  - apply (is_made_stay res q (resolve (derived r) (Ref q) w3)); [by apply stay_refl|].
    apply (is_made_stay res q w3); [apply stay_resolve|done].
Qed.

Lemma calls_answer moving p d op o w : inv moving None None w -> known_op w op -> known_outcome w o ->
  calls (answer perform p d op o w) = calls w.
Proof.
  intros I Hop Ho. destruct o as [v|e]; cbn [answer]; [|apply calls_resolve].
  destruct (perform_api op v w Hop Ho (inv_well _ _ _ _ I)) as [Hap _]. apply apis_calls in Hap.
  destruct (perform op v w) as [w1 res]. cbn [fst] in Hap. pose proof (calls_made res w1) as Hm.
  destruct (made res w1) as [w2 q]. cbn [fst] in Hm. by rewrite calls_resolve, Hm.
Qed.
Lemma calls_progressed moving t v w : inv moving None None w -> known w v -> calls (progressed invoke t v w) = calls w.
Proof.
  intros I Hv. unfold progressed. destruct (reactions w !! t) as [r|] eqn:Hr; [|done].
  destruct (run_opt_api (on_progress r) v (Return v) w) as [Hap _]; [|done|done|by eapply inv_well|].
  { intros h Hh. refine (mentioned _ _ _ _ I (IFn h) (in_reaction w t r h Hr _)). by right; right. }
  apply apis_calls in Hap. destruct (run_opt invoke (on_progress r) v (Return v) w) as [w1 [u|e]]; cbn [fst] in Hap; [|done].
  unfold notify. by destruct (cells w1 !! derived r) as [[]|].
Qed.
(** A task runs at most one reaction. *)
Lemma tick_ran w w' : inv None None None w -> tick invoke perform w = Some w' ->
  calls w' = calls w \/ exists t o q, ran t o q w w'.
Proof.
  intros I Htick. unfold tick in Htick. destruct (tasks w) as [|ts rest] eqn:E; [done|]. injection Htick as <-.
  assert (Hhead : ts ∈ tasks w) by (rewrite E; by left). assert (G : grows w (with_tasks rest w)) by by apply same_grows.
  destruct (rest_moving ts rest w I E) as [moving I0].
  assert (Hd : forall p m, (forall d op, m = Op d op -> known_op (with_tasks rest w) op) ->
    let w' := promiseDispatch invoke perform p m (with_tasks rest w) in calls w' = calls w \/ exists t o q, ran t o q w w').
  { intros p m Hm. cbn zeta. change (calls w) with (calls (with_tasks rest w)). unfold promiseDispatch.
    destruct (cells (with_tasks rest w) !! p) as [[ms ls|q|o]|] eqn:Hp; try (left; apply calls_hold).
    destruct m as [t|t|d op]; [|left; apply calls_hold|].
    - destruct (deliver_ran moving t o _ ts rest w E eq_refl I0) as [Hc|[q Hq]]; [by eapply settled_known|by left|right; by exists t, o, q].
    - left. eapply calls_answer; [done|by eapply Hm|by eapply settled_known]. }
  destruct ts as [t|p m|t v|f args]; cbn [run_task].
  - destruct (reactions (with_tasks rest w) !! t); [by apply Hd|by left].
  - apply Hd. intros d op ->. apply (known_op_more w); [done|].
    eapply (mentioned _ _ _ _ I (IOp d op)). by eapply in_dispatch.
  - left. change (calls w) with (calls (with_tasks rest w)). eapply (calls_progressed moving t v); [done|]. apply (known_more w); [done|]. eapply (mentioned _ _ _ _ I (IVal v)). by eapply in_listen.
  - left. assert (Hc : calls (invoke f args (with_tasks rest w)).1 = calls w).
    { change (calls w) with (calls (with_tasks rest w)). apply apis_calls, invoke_api; [| |by eapply inv_well].
      + apply (fn_ok_more w); [done|]. apply (mentioned _ _ _ _ I (IFn f)). by eapply in_call.
      + apply Forall_forall. intros v Hv. apply (known_more w); [done|]. apply (mentioned _ _ _ _ I (IVal v)). by eapply in_args. }
    unfold caught. by destruct (invoke f args (with_tasks rest w)) as [w2 []].
Qed.
(** What was run was run by a task, before. *)
Lemma calls_ran u w t o q : store_ok (empty u) u -> rtc (step invoke perform) (empty u) w -> (t, o, q) ∈ calls w ->
  exists w1 w2, rtc (step invoke perform) (empty u) w1 /\ tick invoke perform w1 = Some w2 /\ rtc (step invoke perform) w2 w /\ ran t o q w1 w2.
Proof.
  intros Hu Hw. revert w Hw. apply (rtc_ind_r (fun w => (t, o, q) ∈ calls w -> exists w1 w2, rtc (step invoke perform) (empty u) w1 /\
    tick invoke perform w1 = Some w2 /\ rtc (step invoke perform) w2 w /\ ran t o q w1 w2)); [by intros ?%not_elem_of_nil|].
  intros w w' Hw Hs IH Hx. assert (Hold : (t, o, q) ∈ calls w \/ exists w1 w2, rtc (step invoke perform) (empty u) w1 /\
    tick invoke perform w1 = Some w2 /\ rtc (step invoke perform) w2 w' /\ ran t o q w1 w2).
  { destruct Hs as [w w' Ha|w w' Ht]; [left; by rewrite <- (api_calls w w')|].
    destruct (tick_ran w w' (queue_inv u w Hu Hw) Ht) as [E|(t' & o' & q' & Hran)]; [left; by rewrite <- E|].
    pose proof Hran as (ts & rest & r & res & _ & _ & _ & E & _). rewrite E in Hx.
    apply elem_of_app in Hx as [Hx|[= -> -> ->]%list_elem_of_singleton]; [by left|right; exists w, w'; by repeat split; try apply rtc_refl]. }
  destruct Hold as [Hold|Hold]; [|done]. destruct (IH Hold) as (w1 & w2 & H1 & H2 & H3 & H4). exists w1, w2.
  repeat split; try done. by eapply rtc_r.
Qed.

(** C32. Every call of [then] is answered once: a reaction is run at most
    once, with the outcome its promise shows, and the promise it returned
    then becomes [q]. It was run by a task: the function for that outcome was
    called, or the outcome handed on when there is none, and [q] is the
    promise of what it returned or threw. When no task is left, every
    reaction to a promise that is settled has been run. *)
Theorem reactions_run_once u w : store_ok (empty u) u -> rtc (step invoke perform) (empty u) w ->
  NoDup (calls w).*1.*1 /\
  (forall t o q, (t, o, q) ∈ calls w ->
    (exists r, reactions w !! t = Some r /\ shows w (self r) o /\ cells w !! derived r = Some (Became q)) /\
    exists w1 w2, rtc (step invoke perform) (empty u) w1 /\ tick invoke perform w1 = Some w2 /\ rtc (step invoke perform) w2 w /\
      ran t o q w1 w2) /\
  (tasks w = [] -> forall t r o, reactions w !! t = Some r -> shows w (self r) o -> exists q, (t, o, q) ∈ calls w).
Proof.
  intros Hu Hw. pose proof (queue_inv u w Hu Hw) as I. split; [by apply (logged_once _ _ _ _ I)|]. split.
  { intros t o q Hx. split; [|by apply calls_ran]. apply (logged _ _ _ _ I) in Hx as (_ & r & Hr & _ & Hs & Hc). by exists r. }
  intros Ht t r o Hr Hsh. destruct (done_ r) eqn:Hd.
  - destruct (all_logged _ _ _ _ I t r Hr Hd) as [|Hx]; [done|]. apply list_elem_of_fmap in Hx as ([t' o'] & E & Hx).
    apply list_elem_of_fmap in Hx as ([[t2 o2] q] & E2 & Hx). cbn in E, E2. injection E2 as -> ->. subst t2. exists q.
    pose proof Hx as Hin. apply (logged _ _ _ _ I) in Hx as (_ & r' & Hr' & _ & Hs & _). rewrite Hr in Hr'. injection Hr' as <-.
    by rewrite (shows_one w (self r) o _ Hsh Hs).
  - exfalso. destruct (located _ _ _ _ I t r Hr Hd ltac:(done)) as [Hx|(q & [Hx|(ms & ls & Hq & Hm)])];
      [rewrite Ht in Hx; by apply not_elem_of_nil in Hx|rewrite Ht in Hx; by apply not_elem_of_nil in Hx|].
    destruct (place_valid _ _ _ _ I t q) as (_ & r' & Hr' & Hre); [right; by exists ms, ls|]. rewrite Hr in Hr'. injection Hr' as <-.
    destruct Hsh as (q' & Hre' & Hq'). assert (q = q') as ->; [|congruence].
    apply (ends_agree w (self r)); [done|done| |]; intros r0; congruence.
Qed.
End delivery.
End invariant.
End promises.
Arguments value F : clear implicits.
Arguments outcome F : clear implicits.
Arguments operation F : clear implicits.
Arguments message F : clear implicits.
Arguments cell F : clear implicits.
Arguments task F : clear implicits.
Arguments reaction F : clear implicits.
Arguments world F U : clear implicits.
Arguments result F : clear implicits.

(** ** On concrete promises

    Functions that use no promises, and numbers of them. *)

Definition sample := world nat unit.
#[export] Instance sample_guard : Guard (F := nat) (U := unit).
Proof. by refine {| fn_ok _ _ := True; store_ok _ _ := True |}. Defined.
Definition add_one (f : nat) (args : list (value nat)) (w : sample) : sample * result nat :=
  match f, args with
  | O, [Val (VNum (NInt n))] => (w, Return (Val (vint (n + 1))))
  | _, v :: _ => (w, Raise v)
  | _, [] => (w, Return (Val VUndef))
  end.
Definition no_operation (op : operation nat) (v : value nat) (w : sample) : sample * result nat := (w, Return v).
Abbreviation run_all := (flush add_one no_operation).
Abbreviation none := (empty tt : sample).

(** [p.then(f, r)] of a pending promise that is fulfilled afterwards: [f] is
    called from a task, and what it returns is the value of the promise. *)
Example then_later :
  let w := fulfill 0 (Val (vint 1)) (then_ 0 (Some 0%nat) None None (defer none)) in
  calls w = [] /\ inspect 9 (run_all 9 w) 1 = Some (Fulfilled (Val (vint 2))) /\
  (calls (run_all 9 w)).*1.*1 = [0]%nat.
Proof. by vm_compute. Qed.
Example chain_rejected :
  let w := then_ 1 None (Some 1%nat) None (then_ 0 (Some 0%nat) None None (defer none)) in
  let w := run_all 20 (reject 0 (Val (vstr "no")) w) in
  inspect 9 w 1 = Some (Rejected (Val (vstr "no"))) /\ inspect 9 w 2 = Some (Rejected (Val (vstr "no"))) /\ tasks w = [].
Proof. by vm_compute. Qed.
(** A promise resolved with itself is never settled, and the queue never
    empties. *)
Example resolved_with_itself :
  let w := resolve 0 (Ref 0) (then_ 0 (Some 0%nat) None None (defer none)) in
  forallb (fun n => match tasks (run_all n w) with [] => false | _ => true end) (seq 0 40) = true.
Proof. by vm_compute. Qed.
(** An operation on a rejected promise is that promise. *)
Example operation_rejected :
  let w := run_all 20 (dispatch 0 Keys (reject 0 (Val (vstr "no")) (defer none))) in
  inspect 9 w 2 = Some (Rejected (Val (vstr "no"))) /\ tasks w = [].
Proof. by vm_compute. Qed.

Lemma add_one_api f args (w : sample) : fn_ok w f -> Forall (known w) args -> well w ->
  rtc api w (add_one f args w).1 /\ known_result (add_one f args w).1 (add_one f args w).2.
Proof.
  intros _ Hargs _. destruct args as [|v args]; [by destruct f; split; [apply rtc_refl| |apply rtc_refl|]|]. apply Forall_cons in Hargs as [Hv _].
  assert (Hr : forall v', add_one f (v :: args) w = (w, v') -> known_result w v' ->
    rtc api w (add_one f (v :: args) w).1 /\ known_result (add_one f (v :: args) w).1 (add_one f (v :: args) w).2).
  { intros v' E Hk. rewrite E. by split; [apply rtc_refl|]. }
  destruct f; [|by eapply Hr]. destruct v as [[| | |[]| | | |]| | | | | |]; try by eapply Hr. destruct args; by eapply Hr.
Qed.
Lemma no_operation_api op v (w : sample) : known_op w op -> known w v -> well w ->
  rtc api w (no_operation op v w).1 /\ known_result (no_operation op v w).1 (no_operation op v w).2.
Proof. intros _ Hv _. by split; [apply rtc_refl|]. Qed.
Definition started : sample := fulfill 0 (Val (vint 1)) (then_ 0 (Some 0%nat) None None (defer none)).
Lemma started_reached : rtc (step add_one no_operation) none started.
Proof.
  eapply rtc_l; [apply step_api, api_defer|]. eapply rtc_l; [apply step_api, (api_then _ 0 (Some 0%nat) None None); [cbn; lia|by intros h _]|].
  eapply rtc_l; [|apply rtc_refl]. apply step_api, (api_settle _ 0 (Fulfilled (Val (vint 1)))); [|done].
  intros r Hr. cbn in Hr. apply list_elem_of_singleton in Hr. subst r. done.
Qed.
Lemma settles_once_witness : Fulfilled (Val (vint 1) : value nat) = Fulfilled (Val (vint 1)).
Proof.
  apply (settles_once add_one no_operation add_one_api no_operation_api tt started started 0); [done|apply started_reached|apply rtc_refl| |];
    (exists 2%nat; split; [eapply reaches_next; [done|constructor]|done]).
Defined.
Definition finished : sample := default none (tick add_one no_operation (default none (tick add_one no_operation
  (default none (tick add_one no_operation started))))).
Lemma finished_reached : rtc (step add_one no_operation) none finished.
Proof. etrans; [apply started_reached|]. do 3 (eapply rtc_l; [by apply step_tick|]). apply rtc_refl. Qed.
Lemma reactions_run_once_witness : calls finished = [(0%nat, Fulfilled (Val (vint 1)), 3%nat)] /\
  NoDup (calls finished).*1.*1 /\
  (forall t o q, (t, o, q) ∈ calls finished ->
    (exists r, reactions finished !! t = Some r /\ shows finished (self r) o /\ cells finished !! derived r = Some (Became q)) /\
    exists w1 w2, rtc (step add_one no_operation) none w1 /\ tick add_one no_operation w1 = Some w2 /\
      rtc (step add_one no_operation) w2 finished /\ ran add_one t o q w1 w2) /\
  (tasks finished = [] -> forall t r o, reactions finished !! t = Some r -> shows finished (self r) o -> exists q, (t, o, q) ∈ calls finished).
Proof.
  split; [done|]. apply (reactions_run_once add_one no_operation add_one_api no_operation_api tt); [done|apply finished_reached].
Defined.
