(* ===== verification/Combinators.v ===== *)
(** * Combinators of promises

    What Q inside swagger-ui.js builds from [then] and the other messages:
    arrays of promises ([all], [any], [race], [allSettled], [allResolved]),
    [spread], [tap], [finally], [done], [timeout] and [delay], functions in the
    style of Node, and generators.

    Each function Q itself hands to a promise is a constructor of [fn], and
    [invoke_this] is what its call does; the variables such functions share (an
    array and the count of the answers that are missing) are in [memory].
    Functions of the user, operations on objects, and generators are
    parameters.  An array is a place of the memory, since [all] writes the
    values into the array it was given; objects with a length that are not
    arrays are not modelled, nor is [join]. *)

From Stdlib Require Import String.
From stdpp Require Import relations.
From S2P Require Import Prelude JsNumber JsString JsValue Promises.
#[local] Set Warnings "-register-all".

Inductive fn :=
| User (f : nat)
| ResolveOf (d : nat) | RejectOf (d : nat) | NotifyOf (d : nat) | NodeResolver (d : nat)
| Const (v : value fn) | Thrower (reason : value fn) | Noop
| Spread (f : fn)
| AllStart | AllOne (k index : nat) | Index (d index : nat)
| AnyRejected (k : nat) | RaceStart | ResolvedStart | SettledStart | Regardless (p : nat)
| Tap (callback : nat) | FinallyDone (callback : nat) | FinallyFail (callback : nat)
| Unhandled
| TimeoutDone (d timer : nat) | TimeoutFail (d timer : nat) | Delay (ms : Z)
| FBound (p : nat) (args : list (value fn)) | NFBound (callback : value fn) (baseArgs : list (value fn))
| Bound (callback : fn) (thisp : value fn)
| Promised (callback : fn) | PromisedCall (callback : fn)
| NodeifyDone (nodeback : fn) | NodeifyFail (nodeback : fn)
| Async (makeGenerator : nat) | Continue (generator : nat) (throw : bool).

(** What the functions of one call of [all] or [any] share. [ready]: the loop
    over the promises has come to its end (nothing in the program reads it). *)
Record counter := Counter { promises : value fn; deferred : nat; pendingCount : Z; ready : bool }.
Inductive timer := TimeoutTimer (d : nat) (error : value fn) | DelayTimer (d : nat) (v : value fn).
Record memory := Memory {
  arrays : list (list (value fn)); alls : list counter; anys : list counter; timers : list (nat * (Z * timer)); next_timer : nat
}.
Abbreviation W := (world fn memory).
Definition undef : value fn := Val VUndef.
Definition type_error : value fn := Failure TypeError [].
Definition arg (args : list (value fn)) (i : nat) : value fn := default undef (args !! i).
Definition no_memory : memory := Memory [] [] [] [] 0.

Definition on_memory (f : memory -> memory) (w : W) : W := set_store (f (store w)) w.
Definition set_arrays (l : list (list (value fn))) (m : memory) : memory := Memory l (alls m) (anys m) (timers m) (next_timer m).
Definition set_alls (l : list counter) (m : memory) : memory := Memory (arrays m) l (anys m) (timers m) (next_timer m).
Definition set_anys (l : list counter) (m : memory) : memory := Memory (arrays m) (alls m) l (timers m) (next_timer m).
Definition set_timers (l : list (nat * (Z * timer))) (m : memory) : memory := Memory (arrays m) (alls m) (anys m) l (next_timer m).

(** ** Arrays *)

Definition new_array (l : list (value fn)) (w : W) : W * nat :=
  (on_memory (fun m => set_arrays (arrays m ++ [l]) m) w, length (arrays (store w))).
(** What [reduce] and [map] go over; nothing for null and undefined, on which
    they throw. *)
Definition elements (v : value fn) (w : W) : option (list (value fn)) :=
  match v with
  | Arr a => Some (default [] (arrays (store w) !! a))
  | Val VUndef | Val VNull => None
  | Val (VArr l) => Some (Val <$> l)
  | Val (VStr s) => Some ((fun c => Val (VStr [c])) <$> s)
  | _ => Some []
  end.
Definition has_length (v : value fn) : bool := match v with Arr _ | Val (VArr _) | Val (VStr _) => true | _ => false end.
(** The arguments [apply] takes from a value. *)
Definition applied (v : value fn) (w : W) : option (list (value fn)) :=
  match v with
  | Val VUndef | Val VNull => Some []
  | Val (VBool _) | Val (VNum _) | Val (VStr _) => None
  | _ => elements v w
  end.
(** [promises[index] = value]: an array of the page that holds no promise
    already holds the value; a text cannot be changed. *)
Definition writable (v : value fn) : bool := match v with Val (VStr _) => false | _ => true end.
Definition put_at (l : list (value fn)) (index : nat) (x : value fn) : list (value fn) :=
  if (index <? length l)%nat then <[index := x]> l else l ++ replicate (index - length l) undef ++ [x].
Definition store_at (v : value fn) (index : nat) (x : value fn) (w : W) : W :=
  match v with
  | Arr a => on_memory (fun m => set_arrays (alter (fun l => put_at l index x) a (arrays m)) m) w
  | _ => w
  end.

(** ** Messages *)

Definition then' (p : nat) (f r g : option fn) (w : W) : W * nat := (then_ p f r g w, next_id w).
Definition when (v : value fn) (f r g : option fn) (w : W) : W * nat := let '(w, p) := as_promise v w in then' p f r g w.
Definition dispatch' (p : nat) (op : operation fn) (w : W) : W * nat := (dispatch p op w, next_id w).
(** [inspect]: a promise that has become itself overflows the stack. *)
Fixpoint inspected (fuel : nat) (w : W) (p : nat) : res (option (outcome fn)) :=
  match cells w !! p with
  | Some (Settled o) => Ok (Some o)
  | Some (Became q) => match fuel with S fuel => inspected fuel w q | O => Throw RangeError end
  | _ => Ok None
  end.
Definition state_of (p : nat) (w : W) : res (option (outcome fn)) := inspected (length (cells w)) w p.
Definition inspection (o : option (outcome fn)) : value fn :=
  match o with
  | Some (Fulfilled v) => Inspected true v
  | Some (Rejected reason) => Inspected false reason
  | None => Val (VObj [(js "state", vstr "pending")])
  end.
(** A promise that is settled when it is made. *)
Definition settled (o : outcome fn) (w : W) : W * nat := (new_cell (Settled o) w, next_id w).

(** ** Arrays of promises *)

Definition new_all (c : counter) : W -> W := on_memory (fun m => set_alls (alls m ++ [c]) m).
Definition set_ready (c : counter) : counter := Counter (promises c) (deferred c) (pendingCount c) true.
Definition all_ready (k : nat) : W -> W := on_memory (fun m => set_alls (alter set_ready k (alls m)) m).
Definition add_pending (n : Z) (c : counter) : counter := Counter (promises c) (deferred c) (pendingCount c + n) (ready c).
Definition all_pending (k : nat) (n : Z) : W -> W := on_memory (fun m => set_alls (alter (add_pending n) k (alls m)) m).
Definition any_pending (k : nat) (n : Z) : W -> W := on_memory (fun m => set_anys (alter (add_pending n) k (anys m)) m).

(** The loop of [all]: a promise that is fulfilled is replaced by its value,
    what else there is is waited for. *)
Definition subscribe (k d index : nat) (promise : value fn) (w : W) : W :=
  (when promise (Some (AllOne k index)) (Some (RejectOf d)) (Some (Index d index)) (all_pending k 1 w)).1.
Fixpoint all_loop (k d : nat) (target : value fn) (l : list (nat * value fn)) (w : W) : W * option jserror :=
  match l with
  | [] => (w, None)
  | (index, promise) :: l =>
      match (match promise with Ref p => state_of p w | _ => Ok None end) with
      | Throw e => (w, Some e)
      | Ok (Some (Fulfilled v)) => all_loop k d target l (store_at target index v w)
      | Ok _ => all_loop k d target l (subscribe k d index promise w)
      end
  end.
Definition finish_all (k : nat) (w : W) : W :=
  match alls (store w) !! k with
  | Some c => if pendingCount c =? 0 then resolve (deferred c) (promises c) w else w
  | None => w
  end.
Definition start_all (promises : value fn) (w : W) : W * result fn :=
  let d := next_id w in
  let w := defer w in
  match elements promises w with
  | None => (w, Raise type_error)
  | Some l =>
      let k := length (alls (store w)) in
      match all_loop k d promises (imap pair l) (new_all (Counter promises d 0 false) w) with
      | (w, Some e) => (w, Raise (Failure e []))
      | (w, None) => (finish_all k (all_ready k w), Return (Ref d))
      end
  end.
Definition all_one (k index : nat) (v : value fn) (w : W) : W * result fn :=
  match alls (store w) !! k with
  | Some c =>
      if writable (promises c) then (finish_all k (all_pending k (-1) (store_at (promises c) index v w)), Return undef)
      else (w, Raise type_error)
  | None => (w, Return undef)
  end.
Definition all (promises : value fn) : W -> W * nat := when promises (Some AllStart) None None.

(** [any]: the first that is fulfilled. *)
Definition any_loop (k d : nat) (l : list (nat * value fn)) (w : W) : W :=
  foldl (fun w ip => (when ip.2 (Some (ResolveOf d)) (Some (AnyRejected k)) (Some (Index d ip.1)) (any_pending k 1 w)).1) w l.
Definition any (promises : value fn) (w : W) : W * result fn :=
  match elements promises w with
  | None => (w, Raise type_error)
  | Some l =>
      if has_length promises && bool_decide (length l = O) then let '(w, p) := as_promise undef w in (w, Return (Ref p))
      else
        let d := next_id w in
        let k := length (anys (store w)) in
        let w := on_memory (fun m => set_anys (anys m ++ [Counter promises d 0 true]) m) (defer w) in
        (any_loop k d (imap pair l) w, Return (Ref d))
  end.
Definition no_value : value fn := Failure ErrorMsg (js "Can't get fulfillment value from any promise, all promises were rejected.").
Definition any_rejected (k : nat) (w : W) : W :=
  let w := any_pending k (-1) w in
  match anys (store w) !! k with
  | Some c => if pendingCount c =? 0 then reject (deferred c) no_value w else w
  | None => w
  end.

(** [race]: the first that is settled. *)
Definition race (answerPs : value fn) (w : W) : W * nat :=
  let d := next_id w in
  let w := defer w in
  match elements answerPs w with
  | None => (reject d type_error w, d)
  | Some l => (foldl (fun w x => let '(w, p) := as_promise x w in then_ p (Some (ResolveOf d)) (Some (RejectOf d)) None w) w l, d)
  end.

(** [array_map] with a function that makes promises. *)
Fixpoint map_promises (f : value fn -> W -> W * nat) (l : list (value fn)) (w : W) : W * list nat :=
  match l with
  | [] => (w, [])
  | x :: l => let '(w, p) := f x w in let '(w, ps) := map_promises f l w in (w, p :: ps)
  end.
Definition map_array (f : value fn -> W -> W * nat) (l : list (value fn)) (w : W) : W * nat :=
  let '(w, ps) := map_promises f l w in new_array (Ref <$> ps) w.
Definition start_settled (promises : value fn) (w : W) : W * result fn :=
  match elements promises w with
  | None => (w, Raise type_error)
  | Some l =>
      let '(w, a) := map_array (fun x w => let '(w, p) := as_promise x w in then' p (Some (Regardless p)) (Some (Regardless p)) None w) l w in
      let '(w, q) := all (Arr a) w in (w, Return (Ref q))
  end.
Definition start_resolved (promises : value fn) (w : W) : W * result fn :=
  match elements promises w with
  | None => (w, Raise type_error)
  | Some l =>
      let '(w, ps) := map_promises as_promise l w in
      let '(w, a) := new_array (Ref <$> ps) w in
      let '(w, b) := map_array (fun x => when x (Some Noop) (Some Noop) None) (Ref <$> ps) w in
      let '(w, q) := all (Arr b) w in
      let '(w, r) := when (Ref q) (Some (Const (Arr a))) None None w in (w, Return (Ref r))
  end.

(** ** Timers and functions in the style of Node *)

Definition set_timeout (ms : Z) (t : timer) (w : W) : W * nat :=
  (on_memory (fun m => Memory (arrays m) (alls m) (anys m) (timers m ++ [(next_timer m, (ms, t))]) (S (next_timer m))) w, next_timer (store w)).
Definition clear_timeout (i : nat) : W -> W := on_memory (fun m => set_timers (filter (fun t => t.1 <> i) (timers m)) m).
(** The page runs a timer. *)
Definition fire (i : nat) (w : W) : W :=
  match List.find (fun t => (t.1 =? i)%nat) (timers (store w)) with
  | Some (_, (_, TimeoutTimer d error)) => reject d error (clear_timeout i w)
  | Some (_, (_, DelayTimer d v)) => resolve d v (clear_timeout i w)
  | None => w
  end.
Definition timeout_error (ms : Z) (error : value fn) : value fn :=
  match error with
  | Val v => if truthy v then match v with VStr s => Failure ErrorMsg s | _ => error end
             else Failure ErrorMsg (js "Timed out after " ++ Z_to_str ms ++ js " ms")
  | _ => error
  end.

Definition truthy_value (v : value fn) : bool := match v with Val v => truthy v | _ => true end.
Definition node_resolver (d : nat) (args : list (value fn)) (w : W) : W :=
  let error := arg args 0 in
  if truthy_value error then reject d error w
  else if (2 <? length args)%nat then let '(w, a) := new_array (drop 1 args) w in resolve d (Arr a) w
  else resolve d (arg args 1) w.
(** A message with the callback as its last argument; what it throws rejects
    the promise. *)
Definition node_call (p : nat) (op : list (value fn) -> operation fn) (args : list (value fn)) (w : W) : W * nat :=
  let d := next_id w in
  let w := defer w in
  let '(w, q) := dispatch' p (op (args ++ [Fun (NodeResolver d)])) w in
  (then_ q None (Some (RejectOf d)) None w, d).
Definition nfapply (p : nat) : list (value fn) -> W -> W * nat := node_call p (Apply undef).
Definition npost (p : nat) (name : option jsstr) : list (value fn) -> W -> W * nat := node_call p (Post name).
Definition fcall (p : nat) (args : list (value fn)) : W -> W * nat := dispatch' p (Apply undef args).

(** [spread] *)
Definition spread (p : nat) (f : fn) (rejected : option fn) (w : W) : W * nat :=
  let '(w, q) := all (Ref p) w in then' q (Some (Spread f)) rejected None w.

(** ** Calling functions *)

Section q.
(** [user f this args]; [object_op]: [get], [set], [delete], [keys] and [post]
    on an object; generators are made by a function and resumed with a value
    or an exception: they yield a value, end with one, or throw. *)
Context (user : nat -> value fn -> list (value fn) -> W -> W * result fn).
Context (object_op : operation fn -> value fn -> W -> W * result fn).
Context (make_generator : nat -> value fn -> list (value fn) -> W -> W * (nat + value fn)).
Context (resume : nat -> bool -> value fn -> W -> W * ((bool * value fn) + value fn)).

(** [continuer] of [async]. *)
Definition continuer (generator : nat) (throw : bool) (v : value fn) (w : W) : W * result fn :=
  match resume generator throw v w with
  | (w, inr exception) => let '(w, p) := settled (Rejected exception) w in (w, Return (Ref p))
  | (w, inl (true, v)) => let '(w, p) := as_promise v w in (w, Return (Ref p))
  | (w, inl (false, v)) =>
      let '(w, p) := when v (Some (Continue generator false)) (Some (Continue generator true)) None w in (w, Return (Ref p))
  end.

(** The functions that [tap], [finally], [timeout], [delay], [fbind],
    [nfbind], [promised] and [nodeify] make. *)
Definition tapped (callback : nat) (v : value fn) (w : W) : W * result fn :=
  let '(w, d) := fcall callback [v] w in
  let '(w, d) := then' d (Some (Const v)) None None w in (w, Return (Ref d)).
Definition finally_value (callback : nat) (v : value fn) (w : W) : W * result fn :=
  let '(w, d) := fcall callback [] w in
  let '(w, d) := then' d (Some (Const v)) None None w in (w, Return (Ref d)).
Definition finally_reason (callback : nat) (reason : value fn) (w : W) : W * result fn :=
  let '(w, d) := fcall callback [] w in
  let '(w, d) := then' d (Some (Thrower reason)) None None w in (w, Return (Ref d)).
Definition in_time (d timer : nat) (v : value fn) (w : W) : W := resolve d v (clear_timeout timer w).
Definition failed_in_time (d timer : nat) (exception : value fn) (w : W) : W := reject d exception (clear_timeout timer w).
Definition delayed (ms : Z) (v : value fn) (w : W) : W * result fn :=
  let d := next_id w in ((set_timeout ms (DelayTimer d v) (defer w)).1, Return (Ref d)).
Definition fbound (p : nat) (args0 : list (value fn)) (this : value fn) (args : list (value fn)) (w : W) : W * result fn :=
  let '(w, d) := dispatch' p (Apply this (args0 ++ args)) w in (w, Return (Ref d)).
Definition nfbound (callback : value fn) (baseArgs args : list (value fn)) (w : W) : W * result fn :=
  let '(w, p) := as_promise callback w in let '(w, d) := nfapply p (baseArgs ++ args) w in (w, Return (Ref d)).
Definition promised_call (callback : fn) (this : value fn) (args : list (value fn)) (w : W) : W * result fn :=
  let '(w, a) := new_array args w in
  let '(w, q) := all (Arr a) w in
  let '(w, b) := new_array [this; Ref q] w in
  let '(w, p) := as_promise (Arr b) w in
  let '(w, d) := spread p (PromisedCall callback) None w in (w, Return (Ref d)).
Definition nodeify_value (nodeback : fn) (v : value fn) (w : W) : W := nextTick [Call nodeback [Val VNull; v]] w.
Definition nodeify_error (nodeback : fn) (error : value fn) (w : W) : W := nextTick [Call nodeback [error]] w.

Fixpoint invoke_this (f : fn) (this : value fn) (args : list (value fn)) (w : W) : W * result fn :=
  let v := arg args 0 in
  match f with
  | User f => user f this args w
  | ResolveOf d => (resolve d v w, Return undef)
  | RejectOf d => (reject d v w, Return undef)
  | NotifyOf d => (notify d v w, Return undef)
  | NodeResolver d => (node_resolver d args w, Return undef)
  | Const v => (w, Return v)
  | Thrower reason => (w, Raise reason)
  | Noop => (w, Return undef)
  | Spread f => match applied v w with Some l => invoke_this f undef l w | None => (w, Raise type_error) end
  | AllStart => start_all v w
  | AllOne k index => all_one k index v w
  | Index d index => (notify d (Indexed index v) w, Return undef)
  | AnyRejected k => (any_rejected k w, Return undef)
  | RaceStart => let '(w, d) := race v w in (w, Return (Ref d))
  | ResolvedStart => start_resolved v w
  | SettledStart => start_settled v w
  | Regardless p => match state_of p w with Ok o => (w, Return (inspection o)) | Throw e => (w, Raise (Failure e [])) end
  | Tap callback => tapped callback v w
  | FinallyDone callback => finally_value callback v w
  | FinallyFail callback => finally_reason callback v w
  | Unhandled => (nextTick [Call (Thrower v) []] w, Return undef)
  | TimeoutDone d timer => (in_time d timer v w, Return undef)
  | TimeoutFail d timer => (failed_in_time d timer v w, Return undef)
  | Delay ms => delayed ms v w
  | FBound p args0 => fbound p args0 this args w
  | NFBound callback baseArgs => nfbound callback baseArgs args w
  | Bound callback thisp => invoke_this callback thisp args w
  | Promised callback => promised_call callback this args w
  | PromisedCall callback =>
      match applied (arg args 1) w with Some l => invoke_this callback v l w | None => (w, Raise type_error) end
  | NodeifyDone nodeback => (nodeify_value nodeback v w, Return undef)
  | NodeifyFail nodeback => (nodeify_error nodeback v w, Return undef)
  | Async makeGenerator =>
      match make_generator makeGenerator this args w with
      | (w, inl generator) => continuer generator false undef w
      | (w, inr e) => (w, Raise e)
      end
  | Continue generator throw => continuer generator throw v w
  end.
Definition invoke (f : fn) : list (value fn) -> W -> W * result fn := invoke_this f undef.

(** The operations of a promise for a value ([fulfill]). *)
Definition apply_value (v : value fn) (thisp : value fn) (args : list (value fn)) (w : W) : W * result fn :=
  match v with Fun f => invoke_this f thisp args w | _ => (w, Raise type_error) end.
Definition answers_nothing (wr : W * result fn) : W * result fn :=
  match wr with (w, Return _) => (w, Return undef) | _ => wr end.
Definition perform (op : operation fn) (v : value fn) (w : W) : W * result fn :=
  match op with
  | Apply thisp args => apply_value v thisp args w
  | Post None args => apply_value v undef args w
  | Set_ _ _ | Delete _ => answers_nothing (object_op op v w)
  | Get _ | Post _ _ | Keys => object_op op v w
  end.

(** ** What the page calls *)

(** [Q.Promise]. *)
Definition promise (resolver : value fn) (w : W) : W * result fn :=
  match resolver with
  | Fun f =>
      let d := next_id w in
      match invoke f [Fun (ResolveOf d); Fun (RejectOf d); Fun (NotifyOf d)] (defer w) with
      | (w, Return _) => (w, Return (Ref d))
      | (w, Raise reason) => (reject d reason w, Return (Ref d))
      end
  | _ => (w, Raise (Failure TypeError (js "resolver must be a function.")))
  end.
Definition thenResolve (p : nat) (v : value fn) : W -> W * nat := then' p (Some (Const v)) None None.
Definition thenReject (p : nat) (reason : value fn) : W -> W * nat := then' p (Some (Thrower reason)) None None.
Definition fail (p : nat) (rejected : fn) : W -> W * nat := then' p None (Some rejected) None.
Definition progress (p : nat) (progressed : fn) : W -> W * nat := then' p None None (Some progressed).
Definition tap (p : nat) (callback : value fn) (w : W) : W * nat :=
  let '(w, cb) := as_promise callback w in then' p (Some (Tap cb)) None None w.
Definition finally (p : nat) (callback : value fn) (w : W) : W * nat :=
  let '(w, cb) := as_promise callback w in then' p (Some (FinallyDone cb)) (Some (FinallyFail cb)) None w.
Definition done (p : nat) (fulfilled rejected progressed : option fn) (w : W) : W :=
  let '(w, q) := match fulfilled, rejected, progressed with
                 | None, None, None => (w, p)
                 | _, _, _ => then' p fulfilled rejected progressed w
                 end in
  then_ q None (Some Unhandled) None w.
Definition timeout (p : nat) (ms : Z) (error : value fn) (w : W) : W * nat :=
  let d := next_id w in
  let '(w, i) := set_timeout ms (TimeoutTimer d (timeout_error ms error)) (defer w) in
  (then_ p (Some (TimeoutDone d i)) (Some (TimeoutFail d i)) (Some (NotifyOf d)) w, d).
Definition delay (p : nat) (ms : Z) : W -> W * nat := then' p (Some (Delay ms)) None None.
Definition allSettled (p : nat) : W -> W * nat := then' p (Some SettledStart) None None.
Definition allResolved (v : value fn) : W -> W * nat := when v (Some ResolvedStart) None None.
Definition race_of (p : nat) : W -> W * nat := then' p (Some RaceStart) None None.
(** [any] of a promise is handed the promise itself. *)
Definition any_of (p : nat) : W -> W * result fn := any (Ref p).
Definition nodeify (p : nat) (nodeback : option fn) (w : W) : W * value fn :=
  match nodeback with
  | Some f => (then_ p (Some (NodeifyDone f)) (Some (NodeifyFail f)) None w, undef)
  | None => (w, Ref p)
  end.
Definition spawn (makeGenerator : nat) (w : W) : W * result fn :=
  match invoke (Async makeGenerator) [] w with
  | (w, Return (Ref p)) => (done p None None None w, Return undef)
  | (w, Return v) => let '(w, p) := as_promise v w in (done p None None None w, Return undef)
  | r => r
  end.
(** Messages for what a promise is a promise for, and functions made of
    promises. *)
Definition get (p : nat) (key : jsstr) : W -> W * nat := dispatch' p (Get key).
Definition set (p : nat) (key : jsstr) (value : value fn) : W -> W * nat := dispatch' p (Set_ key value).
Definition delete (p : nat) (key : jsstr) : W -> W * nat := dispatch' p (Delete key).
Definition post (p : nat) (name : option jsstr) (args : list (value fn)) : W -> W * nat := dispatch' p (Post name args).
Definition fapply (p : nat) (args : list (value fn)) : W -> W * nat := dispatch' p (Apply undef args).
Definition keys (p : nat) : W -> W * nat := dispatch' p Keys.
Definition fbind (p : nat) (args : list (value fn)) : value fn := Fun (FBound p args).
Definition nfbind (callback : value fn) (args : list (value fn)) : value fn := Fun (NFBound callback args).
Definition nbind (callback : fn) (thisp : value fn) (args : list (value fn)) : value fn := Fun (NFBound (Fun (Bound callback thisp)) args).
Definition promised (callback : fn) : value fn := Fun (Promised callback).
Definition async (makeGenerator : nat) : value fn := Fun (Async makeGenerator).
(** The functions of Q itself make a promise of their first argument. *)
Definition static (f : nat -> W -> W * nat) (object : value fn) (w : W) : W * nat := let '(w, p) := as_promise object w in f p w.
Definition Q_spread (v : value fn) (f : fn) (rejected : option fn) : W -> W * nat := static (fun p => spread p f rejected) v.
Definition Q_get (v : value fn) (key : jsstr) : W -> W * nat := static (fun p => get p key) v.
Definition Q_set (v : value fn) (key : jsstr) (x : value fn) : W -> W * nat := static (fun p => set p key x) v.
Definition Q_delete (v : value fn) (key : jsstr) : W -> W * nat := static (fun p => delete p key) v.
Definition Q_post (v : value fn) (name : option jsstr) (args : list (value fn)) : W -> W * nat := static (fun p => post p name args) v.
Definition Q_fapply (v : value fn) (args : list (value fn)) : W -> W * nat := static (fun p => fapply p args) v.
Definition Q_keys : value fn -> W -> W * nat := static keys.
Definition Q_fail (v : value fn) (rejected : fn) : W -> W * nat := static (fun p => fail p rejected) v.
Definition Q_finally (v callback : value fn) : W -> W * nat := static (fun p => finally p callback) v.
Definition Q_tap (v callback : value fn) : W -> W * nat := static (fun p => tap p callback) v.
Definition Q_timeout (v : value fn) (ms : Z) (error : value fn) : W -> W * nat := static (fun p => timeout p ms error) v.
Definition Q_delay (v : value fn) (ms : Z) : W -> W * nat := static (fun p => delay p ms) v.
Definition Q_nfapply (v : value fn) (args : list (value fn)) : W -> W * nat := static (fun p => nfapply p args) v.
Definition Q_npost (v : value fn) (name : option jsstr) (args : list (value fn)) : W -> W * nat := static (fun p => npost p name args) v.
(** The state of a value or a promise. *)
Definition nearer (v : value fn) (w : W) : res (value fn) :=
  match v with
  | Ref p => o ← state_of p w; Ok (match o with Some (Fulfilled v) => v | _ => v end)
  | _ => Ok v
  end.
Definition isFulfilled (v : value fn) (w : W) : res bool :=
  match v with Ref p => o ← state_of p w; Ok (match o with Some (Fulfilled _) => true | _ => false end) | _ => Ok true end.
Definition isRejected (v : value fn) (w : W) : res bool :=
  match v with Ref p => o ← state_of p w; Ok (match o with Some (Rejected _) => true | _ => false end) | _ => Ok false end.
Definition isPending (v : value fn) (w : W) : res bool :=
  match v with Ref p => o ← state_of p w; Ok (match o with None => true | _ => false end) | _ => Ok false end.
End q.

(** ** On concrete promises *)

Definition no_user (f : nat) (this : value fn) (args : list (value fn)) (w : W) : W * result fn := (w, Return undef).
Definition no_op (op : operation fn) (v : value fn) (w : W) : W * result fn := (w, Return undef).
Definition no_generator (f : nat) (this : value fn) (args : list (value fn)) (w : W) : W * (nat + value fn) := (w, inl f).
Definition ends_at_once (g : nat) (throw : bool) (v : value fn) (w : W) : W * ((bool * value fn) + value fn) :=
  (w, if throw then inr v else inl (true, v)).
Abbreviation start_ := (empty no_memory : W).
Abbreviation run_ := (flush (invoke no_user no_generator ends_at_once) (perform no_user no_op no_generator ends_at_once)).
Definition num (z : Z) : value fn := Val (vint z).

(** [Q.all([7, p, q])] of a pending promise and a fulfilled one, which is then
    fulfilled: the array holds the values. *)
Definition three : W * nat :=
  let w := defer start_ in
  let '(w, q) := as_promise (num 9) w in
  let '(w, a) := new_array [num 7; Ref 0; Ref q] w in
  all (Arr a) w.
Example all_fulfils :
  let '(w, r) := three in
  let w1 := run_ 40 w in
  let w2 := run_ 40 (fulfill 0 (num 8) w1) in
  state_of r w1 = Ok None /\ arrays (store w1) = [[num 7; Ref 0; num 9]] /\
  state_of r w2 = Ok (Some (Fulfilled (Arr 0))) /\ arrays (store w2) = [[num 7; num 8; num 9]].
Proof. by vm_compute. Qed.
Example all_rejects :
  let '(w, r) := three in state_of r (run_ 40 (reject 0 (num 8) w)) = Ok (Some (Rejected (num 8))).
Proof. by vm_compute. Qed.
(** [any] as a method of a promise for an array is handed the promise, which
    has no elements: the promise it returns is never settled. *)
Example any_of_promise :
  let '(w, a) := new_array [num 7] start_ in
  let '(w, p) := as_promise (Arr a) w in
  let '(w1, r1) := any (Arr a) w in
  let '(w2, r2) := any_of p w in
  match r1, r2 with
  | Return (Ref r1), Return (Ref r2) =>
      state_of r1 (run_ 40 w1) = Ok (Some (Fulfilled (num 7))) /\ state_of r2 (run_ 40 w2) = Ok None /\ tasks (run_ 40 w2) = []
  | _, _ => False
  end.
Proof. by vm_compute. Qed.
Example settled_states :
  let '(w, p) := settled (Rejected (num 1)) start_ in
  let '(w, a) := new_array [num 7; Ref p] w in
  let '(w, q) := as_promise (Arr a) w in
  let '(w, r) := allSettled q w in
  let w := run_ 60 w in
  state_of r w = Ok (Some (Fulfilled (Arr 1))) /\ arrays (store w) !! 1%nat = Some [Inspected true (num 7); Inspected false (num 1)].
Proof. by vm_compute. Qed.
(** The end of a chain throws what nobody caught. *)
Example done_throws :
  let w := run_ 40 (done 0 None None None (reject 0 (num 5) (defer start_))) in
  uncaught w = [num 5] /\ tasks w = [].
Proof. by vm_compute. Qed.
(** A timeout that comes first rejects; one that comes late does nothing. *)
Example timeout_first :
  let '(w, r) := timeout 0 100 (Val (vstr "slow")) (defer start_) in
  state_of r (fire 0 w) = Ok (Some (Rejected (Failure ErrorMsg (js "slow")))) /\
  state_of r (fire 0 (run_ 40 (fulfill 0 (num 3) w))) = Ok (Some (Fulfilled (num 3))).
Proof. by vm_compute. Qed.
Example finally_waits :
  let w := defer start_ in
  let '(w, r) := finally 0 (Fun Noop) w in
  state_of r (run_ 40 (reject 0 (num 3) w)) = Ok (Some (Rejected (num 3))) /\
  state_of r (run_ 40 (fulfill 0 (num 4) w)) = Ok (Some (Fulfilled (num 4))).
Proof. by vm_compute. Qed.
(** A function in the style of Node, which calls its last argument. *)
Definition calls_back (f : nat) (this : value fn) (args : list (value fn)) (w : W) : W * result fn :=
  match list.last args with
  | Some (Fun (NodeResolver d)) => (node_resolver d (Val VNull :: removelast args) w, Return undef)
  | _ => (w, Return undef)
  end.
Example node_style :
  let run := flush (invoke calls_back no_generator ends_at_once) (perform calls_back no_op no_generator ends_at_once) 40 in
  let '(w, p) := as_promise (Fun (User 0)) start_ in
  let '(w, one) := nfapply p [num 2] w in
  let '(w, two) := nfapply p [num 2; num 3] w in
  let w := run w in
  state_of one w = Ok (Some (Fulfilled (num 2))) /\ state_of two w = Ok (Some (Fulfilled (Arr 0))) /\ arrays (store w) = [[num 2; num 3]].
Proof. by vm_compute. Qed.
