(* ===== verification/AllAnswered.v ===== *)
(** * Arrays of promises are answered

    The functions of Q ([invoke]) use promises as any other code does, so that
    what Promises.v shows of every world holds of theirs; and a call of [all]
    is answered.

    [fn_fine] is what a function may mention and [fine_memory] what the memory
    may hold: that is the instance of [Guard].  [goes] is the rule for programs
    that use promises; [counts] says that no counter of [all] is larger than
    the number of answers still to come, and that a counter at zero has
    resolved its deferred. *)

From stdpp Require Import relations.
From S2P Require Import Prelude JsNumber JsString JsValue Promises Combinators.
#[local] Set Warnings "-register-all".

(** ** What functions may mention *)

(** [P] of the functions in a value. *)
Definition value_all (P : fn -> Prop) : value fn -> Prop :=
  fix go v := match v with Fun f => P f | Inspected _ v | Indexed _ v => go v | _ => True end.
(** [P] of what a function consists of. *)
Definition parts (P : fn -> Prop) (f : fn) : Prop :=
  match f with
  | Const v | Thrower v => value_all P v
  | Spread f | Promised f | PromisedCall f | NodeifyDone f | NodeifyFail f => P f
  | FBound _ args => Forall (value_all P) args
  | NFBound v args => value_all P v /\ Forall (value_all P) args
  | Bound f v => P f /\ value_all P v
  | _ => True
  end.
Lemma fn_nested_ind (P : fn -> Prop) : (forall f, parts P f -> P f) -> forall f, P f.
Proof.
  intros H. fix IH 1. assert (Hv : forall v, value_all P v).
  { fix IHv 1. intros [v|p|a|f|e m|b v|i v]; cbn; try exact I; [apply IH|apply IHv|apply IHv]. }
  assert (Hl : forall l, Forall (value_all P) l) by (fix IHl 1; intros [|v l]; constructor; [apply Hv|apply IHl]).
  intros f. apply H. destruct f; cbn; try exact I; try apply Hv; try apply IH; try apply Hl; split; auto.
Qed.

Definition list_and (P : value fn -> Prop) : list (value fn) -> Prop := fix go l := match l with [] => True | v :: l => P v /\ go l end.
Lemma list_and_Forall P l : list_and P l <-> Forall P l.
Proof. induction l as [|v l IH]; cbn; [by split|]. rewrite Forall_cons. tauto. Qed.

(** A deferred that no call of [then] made. *)
Definition has_deferred (w : W) (d : nat) : Prop := (d < next_id w)%nat /\ owned w d.
Fixpoint fn_fine (w : W) (f : fn) : Prop :=
  match f with
  | ResolveOf d | RejectOf d | NotifyOf d | NodeResolver d | Index d _ | TimeoutDone d _ | TimeoutFail d _ => has_deferred w d
  | Regardless p | Tap p | FinallyDone p | FinallyFail p => (p < next_id w)%nat
  | Const v | Thrower v => known_by (fn_fine w) (next_id w) v
  | Spread f | Promised f | PromisedCall f | NodeifyDone f | NodeifyFail f => fn_fine w f
  | FBound p args => (p < next_id w)%nat /\ list_and (known_by (fn_fine w) (next_id w)) args
  | NFBound v args => known_by (fn_fine w) (next_id w) v /\ list_and (known_by (fn_fine w) (next_id w)) args
  | Bound f v => fn_fine w f /\ known_by (fn_fine w) (next_id w) v
  | _ => True
  end.
Definition fine_value (w : W) : value fn -> Prop := known_by (fn_fine w) (next_id w).
Definition fine_counter (w : W) (c : counter) : Prop := fine_value w (promises c) /\ has_deferred w (deferred c).
Definition fine_timer (w : W) (t : timer) : Prop :=
  match t with TimeoutTimer d v | DelayTimer d v => has_deferred w d /\ fine_value w v end.
Definition fine_memory (w : W) (m : memory) : Prop :=
  Forall (Forall (fine_value w)) (arrays m) /\ Forall (fine_counter w) (alls m) /\ Forall (fine_counter w) (anys m) /\
  Forall (fun t => fine_timer w t.2.2) (timers m).

Lemma has_deferred_more w w' d : grows w w' -> has_deferred w d -> has_deferred w' d.
Proof. intros G [Hd Ho]. pose proof (more_ids _ _ G). split; [lia|by apply (still_owned _ _ G)]. Qed.
Lemma known_by_more (A B : fn -> Prop) n n' v : (n <= n')%nat -> value_all (fun f => A f -> B f) v -> known_by A n v -> known_by B n' v.
Proof. intros Hn. induction v; cbn; try done. lia. Qed.
Lemma fn_fine_more w w' f : grows w w' -> fn_fine w f -> fn_fine w' f.
Proof.
  intros G. pose proof (more_ids _ _ G) as Hn. induction f as [f IH] using fn_nested_ind.
  assert (Hl : forall args, Forall (value_all (fun f => fn_fine w f -> fn_fine w' f)) args ->
    list_and (known_by (fn_fine w) (next_id w)) args -> list_and (known_by (fn_fine w') (next_id w')) args).
  { intros args Ha. rewrite !list_and_Forall. revert Ha. induction args as [|v args IHa]; [done|].
    intros [Hv Ha]%Forall_cons [Hv' Ha']%Forall_cons. constructor; [by eapply known_by_more|by apply IHa]. }
  destruct f; cbn in *; try done; try (by apply has_deferred_more); try lia; try (by apply known_by_more).
  - intros []. split; [lia|by apply Hl].
  - destruct IH as [I1 I2]. intros []. split; [by eapply known_by_more|by apply Hl].
  - destruct IH as [I1 I2]. intros []. split; [by apply I1|by eapply known_by_more].
Qed.
Lemma fine_value_more w w' v : grows w w' -> fine_value w v -> fine_value w' v.
Proof.
  intros G. apply known_by_more; [by apply (more_ids _ _ G)|]. induction v; cbn; try done. by apply fn_fine_more.
Qed.
Lemma fine_counter_more w w' c : grows w w' -> fine_counter w c -> fine_counter w' c.
Proof. intros G []. split; [by eapply fine_value_more|by eapply has_deferred_more]. Qed.
Lemma fine_memory_more w w' m : grows w w' -> fine_memory w m -> fine_memory w' m.
Proof.
  intros G (Ha & Hc & Hd & Ht). split; [|split; [|split]].
  - eapply Forall_impl; [exact Ha|]. intros l Hl. eapply Forall_impl; [exact Hl|]. intros v. by apply fine_value_more.
  - eapply Forall_impl; [exact Hc|]. intros c. by apply fine_counter_more.
  - eapply Forall_impl; [exact Hd|]. intros c. by apply fine_counter_more.
  - eapply Forall_impl; [exact Ht|]. intros [i [ms [d v|d v]]] [Hx Hv]; (split; [by eapply has_deferred_more|by eapply fine_value_more]).
Qed.
#[export] Instance q_guard : Guard (F := fn) (U := memory) :=
  {| fn_ok := fn_fine; store_ok := fine_memory; fn_ok_more := fn_fine_more; store_ok_more := fine_memory_more |}.

(** ** What [all] waits for

    A reaction of the call [k] of [all], whose deferred is [d]; and the
    reactions that are still to come: those it has that are not in [A]. *)

Definition awaited (k d : nat) (r : reaction fn) : Prop := (exists i, on_fulfilled r = Some (AllOne k i)) /\ on_rejected r = Some (RejectOf d).
Definition waits (A : nat -> Prop) (w : W) (k d : nat) (ts : list nat) : Prop :=
  NoDup ts /\ forall t, t ∈ ts -> ~ A t /\ exists r, reactions w !! t = Some r /\ awaited k d r.
(** The count is no more than what is to come, and when nothing is missing the
    deferred has been resolved. *)
Definition counted (A : nat -> Prop) (w : W) (k : nat) (c : counter) : Prop := writable (promises c) = true ->
  (ready c = true -> pendingCount c <= 0 -> ~ pending w (deferred c)) /\ exists ts, waits A w k (deferred c) ts /\ pendingCount c <= Z.of_nat (length ts).
Definition counts (A : nat -> Prop) (w : W) : Prop := forall k c, alls (store w) !! k = Some c -> counted A w k c.

Record extends (w w' : W) : Prop := {
  ext_reactions t r : reactions w !! t = Some r -> exists r', reactions w' !! t = Some r' /\ on_fulfilled r' = on_fulfilled r /\ on_rejected r' = on_rejected r;
  ext_stay : stay w w'
}.
Lemma waits_extends A w w' k d ts : extends w w' -> waits A w k d ts -> waits A w' k d ts.
Proof.
  intros E [Hn Ht]. split; [done|]. intros t Hin. destruct (Ht t Hin) as (Ha & r & Hr & (i & Hi) & Hj). split; [done|].
  destruct (ext_reactions _ _ E t r Hr) as (r' & Hr' & E1 & E2). exists r'. split; [done|]. split; [exists i|]; congruence.
Qed.
Lemma not_pending_stay (w w' : W) d : stay w w' -> (d < next_id w)%nat -> ~ pending w d -> ~ pending w' d.
Proof.
  intros Hs Hd Hn (ms & ls & Hp). destruct (lookup_lt_is_Some_2 (cells w) d Hd) as [c Hc]. destruct c as [ms0 ls0|q|o].
  - apply Hn. by exists ms0, ls0.
  - pose proof (Hs d _ Hc I). congruence.
  - pose proof (Hs d _ Hc I). congruence.
Qed.
Lemma counted_extends A w w' k c : (deferred c < next_id w)%nat -> extends w w' -> counted A w k c -> counted A w' k c.
Proof.
  intros Hd E Hc Hw. destruct (Hc Hw) as [H1 (ts & Ht & Hl)]. split.
  - intros Hr H0. eapply not_pending_stay; [by apply (ext_stay _ _ E)|done|by apply H1].
  - exists ts. split; [by eapply waits_extends|done].
Qed.
Lemma counts_extends A w w' : well w -> extends w w' -> alls (store w') = alls (store w) -> counts A w -> counts A w'.
Proof.
  intros Hw E Ea Hc k c Hk. rewrite Ea in Hk. eapply counted_extends; [|exact E|by apply Hc].
  destruct (well_store _ Hw) as (_ & Hf & _). rewrite Forall_lookup in Hf. by destruct (Hf k c Hk) as [_ [Hd _]].
Qed.
Lemma counts_weaken (A B : nat -> Prop) w : (forall t, B t -> A t) -> counts A w -> counts B w.
Proof.
  intros Hab Hc k c Hk Hw. destruct (Hc k c Hk Hw) as [H1 (ts & [Hn Ht] & Hl)]. split; [done|]. exists ts. split; [|done]. split; [done|].
  intros t Hin. destruct (Ht t Hin) as [Ha Hr]. split; [|done]. intros Hb. by apply Ha, Hab.
Qed.
Lemma extends_trans w1 w2 w3 : extends w1 w2 -> extends w2 w3 -> extends w1 w3.
Proof.
  intros [A1 A2] [B1 B2]. split; [|by eapply stay_trans]. intros t r Hr. destruct (A1 t r Hr) as (r1 & Hr1 & E1 & E2).
  destruct (B1 t r1 Hr1) as (r2 & Hr2 & E3 & E4). exists r2. split; [done|]. split; congruence.
Qed.
Lemma api_extends w w' : api w w' -> extends w w'.
Proof. intros Ha. split; [|by apply api_stay]. intros t r Hr. exists r. split; [by eapply api_reactions|done]. Qed.
Lemma apis_extends w w' : rtc api w w' -> extends w w'.
Proof.
  induction 1 as [|w1 w2 w3 Ha _ IH]; [|eapply extends_trans; [by apply api_extends|done]].
  split; [intros t r Hr; by exists r|by apply stay_refl].
Qed.

(** Using promises, so that the counts stay right; [A] has reactions only. *)
Definition below (A : nat -> Prop) (w : W) : Prop := forall t, A t -> is_Some (reactions w !! t).
Lemma below_extends A w w' : extends w w' -> below A w -> below A w'.
Proof. intros E Hb t Ht. destruct (Hb t Ht) as [r Hr]. destruct (ext_reactions _ _ E t r Hr) as (r' & Hr' & _). by exists r'. Qed.
Definition acts (w w' : W) : Prop := rtc api w w' /\ forall A, well w -> below A w -> counts A w -> counts A w'.
Lemma acts_refl w : acts w w.
Proof. split; [apply rtc_refl|done]. Qed.
Lemma acts_trans w1 w2 w3 : acts w1 w2 -> acts w2 w3 -> acts w1 w3.
Proof.
  intros [A1 A2] [B1 B2]. split; [by etrans|]. intros A Hw Hb Hc. apply B2; [by eapply apis_well|eapply below_extends; [by apply apis_extends|done]|by apply A2].
Qed.
Lemma acts_quiet w w' : rtc api w w' -> alls (store w') = alls (store w) -> acts w w'.
Proof. intros Hr Ha. split; [done|]. intros A Hw _. apply counts_extends; [done|by apply apis_extends|done]. Qed.
Lemma acts_one w w' : api w w' -> alls (store w') = alls (store w) -> acts w w'.
Proof. intros Ha. apply acts_quiet. by apply rtc_once. Qed.
Lemma acts_grows w w' : acts w w' -> grows w w'.
Proof. intros [Ha _]. by apply apis_grows. Qed.
Lemma acts_well w w' : acts w w' -> well w -> well w'.
Proof. intros [Ha _]. by apply apis_well. Qed.

(** ** Functions use promises

    A program [goes] when all it does is use promises, with what it returns
    described by [Q]. *)

Definition goes {A} (w : W) (wa : W * A) (Q : W -> A -> Prop) : Prop := acts w wa.1 /\ Q wa.1 wa.2.
Definition is_promise (w : W) (p : nat) : Prop := (p < next_id w)%nat.
Definition any_result {A} (w : W) (a : A) : Prop := True.

Lemma goes_let {A B} w (wa : W * A) (k : W -> A -> W * B) (P : W -> A -> Prop) (Q : W -> B -> Prop) : well w -> goes w wa P ->
  (forall w1 a, wa = (w1, a) -> acts w w1 -> grows w w1 -> well w1 -> P w1 a -> goes w1 (k w1 a) Q) -> goes w (let '(w1, a) := wa in k w1 a) Q.
Proof.
  intros Hw [Hr Hp] Hk. destruct wa as [w1 a]. cbn [fst snd] in *.
  destruct (Hk w1 a eq_refl Hr (acts_grows w w1 Hr) (acts_well w w1 Hr Hw) Hp) as [Hr2 HQ]. split; [by eapply acts_trans|done].
Qed.
Lemma goes_done {A} w (a : A) (Q : W -> A -> Prop) : Q w a -> goes w (w, a) Q.
Proof. intros HQ. by split; [apply acts_refl|]. Qed.
Lemma goes_step {A} w w1 (wa : W * A) Q : well w -> acts w w1 -> (grows w w1 -> well w1 -> goes w1 wa Q) -> goes w wa Q.
Proof.
  intros Hw Hr Hk. destruct (Hk (acts_grows w w1 Hr) (acts_well w w1 Hr Hw)) as [Hr2 HQ]. split; [by eapply acts_trans|done].
Qed.
Lemma goes_undef w w1 : acts w w1 -> goes w (w1, Return undef) known_result.
Proof. by split. Qed.
Lemma goes_type_error w : goes w (w, Raise type_error) known_result.
Proof. by apply goes_done. Qed.
Lemma acts_step (w w1 w2 : W) : well w -> acts w w1 -> (grows w w1 -> well w1 -> acts w1 w2) -> acts w w2.
Proof. intros Hw Hr Hk. eapply acts_trans; [exact Hr|]. apply Hk; [by apply acts_grows|by eapply acts_well]. Qed.

Lemma known_apis w w1 v : grows w w1 -> known w v -> known w1 v.
Proof. apply fine_value_more. Qed.
Lemma known_list w w1 l : grows w w1 -> Forall (known w) l -> Forall (known w1) l.
Proof. intros G Hl. eapply Forall_impl; [exact Hl|]. intros v. by apply fine_value_more. Qed.
Lemma is_promise_more w w1 p : grows w w1 -> is_promise w p -> is_promise w1 p.
Proof. intros G Hp. pose proof (more_ids _ _ G). unfold is_promise in *. lia. Qed.
Lemma fns_ok_more w w1 (f r g : option fn) : grows w w1 -> fns_ok w f r g -> fns_ok w1 f r g.
Proof. intros G Hf h Hh. eapply fn_fine_more; [exact G|by apply Hf]. Qed.
Definition fine_opt (w : W) (f : option fn) : Prop := match f with Some f => fn_fine w f | None => True end.
Lemma fns_all w f r g : fine_opt w f -> fine_opt w r -> fine_opt w g -> fns_ok w f r g.
Proof. intros Hf Hr Hg h [E|[E|E]]; subst; done. Qed.

(** *** The messages *)

Lemma as_promise_goes w v : known w v -> goes w (as_promise v w) is_promise.
Proof.
  intros Hv. destruct v as [v|p|a|f|e m|b v|i v]; cbn [as_promise]; [|by apply goes_done|..].
  all: split; [apply acts_one; [apply (api_settled w (Fulfilled _)); exact Hv|done]|unfold is_promise; cbn [fst snd]; rewrite next_id_new_cell; lia].
Qed.
Lemma settled_goes w o : known_outcome w o -> goes w (settled o w) is_promise.
Proof. intros Ho. split; [by apply acts_one; [apply api_settled|]|]. unfold is_promise, settled. cbn [fst snd]. rewrite next_id_new_cell. lia. Qed.
Lemma next_id_then p f r g (w : W) : next_id (then_ p f r g w) = S (next_id w).
Proof. unfold then_. rewrite hold_ids. unfold next_id, react. cbn. rewrite length_app. cbn. lia. Qed.
Lemma then_goes w p f r g : is_promise w p -> fns_ok w f r g -> goes w (then' p f r g w) is_promise.
Proof. intros Hp Hf. split; [apply acts_one; [by apply api_then|cbn [fst then']; by rewrite store_then]|]. unfold is_promise. cbn [fst snd then']. rewrite next_id_then. lia. Qed.
Lemma when_goes w v f r g : well w -> known w v -> fns_ok w f r g -> goes w (when v f r g w) is_promise.
Proof.
  intros Hw Hv Hf. unfold when. eapply goes_let; [done|by apply as_promise_goes|]. intros w1 p _ _ G Hw1 Hp.
  apply then_goes; [done|by eapply fns_ok_more].
Qed.
Lemma dispatch_goes w p op : known_op w op -> goes w (dispatch' p op w) is_promise.
Proof.
  intros Ho. split; [by apply acts_one; [apply api_dispatch|]|]. unfold is_promise, dispatch', dispatch, nextTick, defer, next_id, new_cell. cbn.
  rewrite length_app. cbn. lia.
Qed.
Lemma memory_acts w f : fine_memory w (f (store w)) -> alls (f (store w)) = alls (store w) -> acts w (on_memory f w).
Proof. intros Hf Ha. by apply acts_one; [apply api_store|]. Qed.
Lemma new_array_goes w l : well w -> Forall (known w) l -> goes w (new_array l w) any_result.
Proof.
  intros [(Ha & Hc & Hd & Ht) _ _] Hl. split; [|done]. apply memory_acts; [|done]. split; [|done]. cbn. apply Forall_app. split; [done|by apply Forall_singleton].
Qed.
Lemma elements_known w v l : well w -> known w v -> elements v w = Some l -> Forall (known w) l.
Proof.
  intros [(Ha & _) _ _] Hv E. destruct v as [v|p|a|f|e m|b v|i v]; cbn in E; try (injection E as <-; constructor).
  - destruct v as [| |b|n|s|l'|o|t n]; try done; injection E as <-; try constructor; apply Forall_fmap, Forall_forall; done.
  - injection E as <-. destruct (arrays (store w) !! a) as [x|] eqn:Ex; cbn; [|constructor]. rewrite Forall_lookup in Ha. by eapply Ha.
Qed.
Lemma applied_known w v l : well w -> known w v -> applied v w = Some l -> Forall (known w) l.
Proof.
  intros Hw Hv E. destruct v as [v|p|a|f|e m|b v|i v]; cbn [applied] in E; try by eapply elements_known.
  destruct v as [| |b|n|s|l'|o|t n]; try done; try (injection E as <-; constructor); by eapply elements_known.
Qed.
Lemma arg_known w args i : Forall (known w) args -> known w (arg args i).
Proof.
  intros Hl. unfold arg. destruct (args !! i) as [v|] eqn:E; cbn; [|done]. rewrite Forall_lookup in Hl. by eapply Hl.
Qed.
Lemma put_at_known w l i x : Forall (known w) l -> known w x -> Forall (known w) (put_at l i x).
Proof.
  intros Hl Hx. unfold put_at. destruct (i <? length l)%nat; [by apply Forall_insert|]. apply Forall_app. split; [done|].
  apply Forall_app. split; [by apply Forall_replicate|by apply Forall_singleton].
Qed.
Lemma store_at_acts w v i x : well w -> known w x -> acts w (store_at v i x w).
Proof.
  intros [(Ha & Hc & Hd & Ht) _ _] Hx. destruct v as [| |a| | | |]; cbn [store_at]; try apply acts_refl. apply memory_acts; [|done]. split; [|done]. cbn.
  apply Forall_alter; [done|]. intros l El Hl. by apply put_at_known.
Qed.

(** *** Deferreds and counters *)

Lemma resolve_acts w d v : has_deferred w d -> known w v -> acts w (resolve d v w).
Proof. intros [_ Ho] Hv. apply acts_one; [by apply api_resolve|by rewrite store_resolve]. Qed.
Lemma reject_acts w d v : has_deferred w d -> known w v -> acts w (reject d v w).
Proof. intros [_ Ho] Hv. apply acts_one; [by apply api_settle|unfold reject; by rewrite store_settle]. Qed.
Lemma notify_acts w d v : has_deferred w d -> known w v -> acts w (notify d v w).
Proof. intros [_ Ho] Hv. apply acts_one; [by apply api_notify|by rewrite store_notify]. Qed.
Lemma defer_acts (w : W) : acts w (defer w).
Proof. apply acts_one; [apply api_defer|done]. Qed.
Lemma defer_deferred w : well w -> has_deferred (defer w) (next_id w).
Proof.
  intros Hw. split; [unfold defer; rewrite next_id_new_cell; lia|]. intros r Hr E. apply (well_derived _ Hw) in Hr. lia.
Qed.

Lemma any_pending_acts w k n : well w -> acts w (any_pending k n w).
Proof. intros [(Ha & Hc & Hd & Ht) _ _]. apply memory_acts; [|done]. split; [done|]. split; [done|]. split; [|done]. cbn. by apply Forall_alter. Qed.

(** *** The counter of [all] *)

Lemma alls_api w l : well w -> Forall (fine_counter w) l -> rtc api w (on_memory (set_alls l) w).
Proof. intros [(Ha & Hc & Hd & Ht) _ _] Hl. by apply rtc_once, api_store. Qed.
Lemma alls_fine w : well w -> Forall (fine_counter w) (alls (store w)).
Proof. by intros [(_ & Hc & _) _ _]. Qed.
Lemma memory_extends f w : extends w (on_memory f w).
Proof. split; [intros t r Hr; by exists r|by apply stay_refl]. Qed.
(** One counter changes. *)
Lemma counts_alter A w k g : counts A w -> (forall c, alls (store w) !! k = Some c -> counted A w k c -> counted A w k (g c)) ->
  counts A (on_memory (fun m => set_alls (alter g k (alls m)) m) w).
Proof.
  intros Hc Hg k' c' Hk. cbn in Hk. assert (Hw : forall c, counted A w k' c -> counted A (on_memory (fun m => set_alls (alter g k (alls m)) m) w) k' c) by done.
  destruct (decide (k' = k)) as [->|Hne].
  - rewrite list_lookup_alter_eq in Hk. destruct (alls (store w) !! k) as [c|] eqn:E; cbn in Hk; [|done]. injection Hk as <-. apply Hw, Hg; [done|by apply Hc].
  - rewrite list_lookup_alter_ne in Hk by done. by apply Hw, Hc.
Qed.
Lemma new_all_acts w c : well w -> fine_counter w c -> ready c = false -> pendingCount c <= 0 -> acts w (new_all c w).
Proof.
  intros Hw Hf Hr Hp. split; [apply alls_api; [done|]; apply Forall_app; split; [by apply alls_fine|by apply Forall_singleton]|].
  intros A _ _ Hc k c' Hk. cbn in Hk. apply lookup_app_Some in Hk as [Hk|[_ Hk]]; [exact (Hc k c' Hk)|].
  apply list_lookup_singleton_Some in Hk as [_ <-]. intros _. split; [congruence|]. exists []. split; [|done]. split; [constructor|].
  by intros t ?%not_elem_of_nil.
Qed.
Lemma alter_fine w k g : well w -> (forall c, fine_counter w c -> fine_counter w (g c)) -> rtc api w (on_memory (fun m => set_alls (alter g k (alls m)) m) w).
Proof. intros Hw Hg. apply (alls_api w _ Hw). apply Forall_alter; [by apply alls_fine|]. intros c _. by apply Hg. Qed.
(** One more is waited for, and [then] is called. *)
Lemma subscribe_acts w k d i x c : well w -> has_deferred w d -> known w x -> alls (store w) !! k = Some c -> deferred c = d ->
  acts w (subscribe k d i x w).
Proof.
  intros Hw Hd Hx Hk Ed. set (w1 := all_pending k 1 w). assert (Hr1 : rtc api w w1) by by apply alter_fine.
  pose proof (apis_grows _ _ Hr1) as G1. pose proof (apis_well _ _ Hr1 Hw) as Hw1.
  assert (Hf : forall w2, grows w1 w2 -> fns_ok w2 (Some (AllOne k i)) (Some (RejectOf d)) (Some (Index d i))).
  { intros w2 G2. pose proof (has_deferred_more _ _ _ (world_grows_trans _ _ _ G1 G2) Hd). by apply fns_all. }
  destruct (as_promise_goes w1 x (known_apis _ _ _ G1 Hx)) as [[Hr2 Hc2] Hp]. unfold subscribe, when. change (all_pending k 1 w) with w1.
  assert (Es : store (as_promise x w1).1 = store w1) by by destruct x.
  destruct (as_promise x w1) as [w2 p]. cbn [fst snd then'] in *. pose proof (apis_grows _ _ Hr2) as G2.
  split; [etrans; [exact Hr1|]; etrans; [exact Hr2|]; by apply rtc_once, api_then; [|by apply Hf]|].
  intros A _ Hb Hc. set (w3 := then_ p _ _ _ w2). assert (E : extends w w3).
  { eapply extends_trans; [by apply apis_extends|]. eapply extends_trans; [by apply apis_extends|]. apply api_extends, api_then; [done|by apply Hf]. }
  assert (Hnew : reactions w3 !! length (reactions w2) = Some (Reaction p (Some (AllOne k i)) (Some (RejectOf d)) (Some (Index d i)) (next_id w2) false)).
  { unfold w3, then_. rewrite reactions_hold. cbn. rewrite lookup_app_r by done. by rewrite Nat.sub_diag. }
  assert (Ea : alls (store w3) = alter (add_pending 1) k (alls (store w))) by (unfold w3; rewrite store_then, Es; done).
  assert (Hlen : (length (reactions w) <= length (reactions w2))%nat).
  { destruct (length (reactions w)) as [|n] eqn:El; [lia|]. destruct (lookup_lt_is_Some_2 (reactions w) n ltac:(lia)) as [r Hr].
    assert (E2 : extends w w2) by (eapply extends_trans; by apply apis_extends).
    destruct (ext_reactions _ _ E2 n r Hr) as (r' & Hr' & _). apply lookup_lt_Some in Hr'. lia. }
  intros k' c' Hk'. rewrite Ea in Hk'. destruct (decide (k' = k)) as [->|Hne].
  - rewrite list_lookup_alter_eq, Hk in Hk'. cbn in Hk'. injection Hk' as <-. intros Hwr. destruct (Hc k c Hk Hwr) as [H1 (ts & Ht & Hl)]. split.
    + cbn. intros Hrd Hp0. eapply not_pending_stay; [by apply (ext_stay _ _ E)|rewrite Ed; by destruct Hd|apply H1; [done|lia]].
    + exists (ts ++ [length (reactions w2)]). destruct (waits_extends A w w3 k (deferred c) ts E Ht) as [Hn Hin]. split.
      * split.
        { apply NoDup_app. split; [done|]. split; [|apply NoDup_singleton]. intros t Hts ->%list_elem_of_singleton.
          destruct Ht as [_ Ht]. destruct (Ht _ Hts) as (_ & r & Hr & _). apply lookup_lt_Some in Hr. lia. }
        { intros t [Hts| ->%list_elem_of_singleton]%elem_of_app; [by apply Hin|]. split.
          - intros Ha. destruct (Hb _ Ha) as [r Hr]. apply lookup_lt_Some in Hr. lia.
          - eexists. split; [exact Hnew|]. cbn. split; [by exists i|by rewrite Ed]. }
      * rewrite length_app. cbn. lia.
  - rewrite list_lookup_alter_ne in Hk' by done. eapply counted_extends; [|exact E|by apply Hc].
    pose proof (alls_fine w Hw) as Hfa. rewrite Forall_lookup in Hfa. by destruct (Hfa k' c' Hk') as [_ [? _]].
Qed.
Lemma state_of_known w p v b : well w -> state_of p w = Ok (Some b) -> match b with Fulfilled v | Rejected v => v end = v -> known w v.
Proof.
  intros Hw. unfold state_of. generalize (length (cells w)). intros n. revert p. induction n as [|n IH]; cbn; intros p;
    destruct (cells w !! p) as [[ms ls|q|o]|] eqn:E; try done.
  - intros [= <-] <-. apply (well_settled _ Hw) in E. by destruct o.
  - by apply IH.
  - intros [= <-] <-. apply (well_settled _ Hw) in E. by destruct o.
Qed.
Lemma indexed_known w l : Forall (known w) l -> Forall (fun ip : nat * value fn => known w ip.2) (imap pair l).
Proof.
  intros Hl. apply Forall_lookup. intros i [j x] E. rewrite list_lookup_imap in E. destruct (l !! i) as [y|] eqn:Ey; [|done]. injection E as _ <-.
  rewrite Forall_lookup in Hl. by eapply Hl.
Qed.
Lemma elements_defer v w : elements v (defer w) = elements v w.
Proof. by destruct v as [[]| | | | | |]. Qed.
(** The counter while the loop runs. *)
Definition looping (k d : nat) (target : value fn) (w : W) : Prop :=
  exists c, alls (store w) !! k = Some c /\ deferred c = d /\ promises c = target /\ 0 <= pendingCount c.
Lemma alls_store_at v i x w : alls (store (store_at v i x w)) = alls (store w).
Proof. by destruct v. Qed.
Lemma alls_subscribe k d i x w : alls (store (subscribe k d i x w)) = alter (add_pending 1) k (alls (store w)).
Proof.
  unfold subscribe, when. assert (E : forall w1 : W, store (as_promise x w1).1 = store w1) by by destruct x.
  specialize (E (all_pending k 1 w)). destruct (as_promise x (all_pending k 1 w)) as [w2 p]. cbn [fst then'] in *. by rewrite store_then, E.
Qed.
Lemma looping_subscribe k d target i x w : looping k d target w -> looping k d target (subscribe k d i x w).
Proof.
  intros (c & Hk & Hd & Ht & Hp). exists (add_pending 1 c). rewrite alls_subscribe, list_lookup_alter_eq, Hk. cbn. split; [done|]. split; [done|]. split; [done|lia].
Qed.
Lemma all_loop_acts k d target l : forall w, well w -> has_deferred w d -> looping k d target w -> Forall (fun ip => known w ip.2) l ->
  acts w (all_loop k d target l w).1 /\ looping k d target (all_loop k d target l w).1.
Proof.
  induction l as [|[i x] l IH]; intros w Hw Hd Hk Hl; cbn [all_loop]; [by split; [apply acts_refl|]|]. apply Forall_cons in Hl as [Hx Hl]. cbn [snd] in Hx.
  assert (Hgo : forall w1, acts w w1 -> looping k d target w1 -> acts w (all_loop k d target l w1).1 /\ looping k d target (all_loop k d target l w1).1).
  { intros w1 Hr Hk1. pose proof (acts_grows _ _ Hr) as G. destruct (IH w1) as [H1 H2];
      [by eapply acts_well|by eapply has_deferred_more|done|eapply Forall_impl; [exact Hl|]; intros ip; by apply known_apis|].
    split; [by eapply acts_trans|done]. }
  destruct Hk as (c & Hk & Ed & Et & Hp).
  assert (Hsub : acts w (all_loop k d target l (subscribe k d i x w)).1 /\ looping k d target (all_loop k d target l (subscribe k d i x w)).1).
  { apply Hgo; [by eapply subscribe_acts|apply looping_subscribe; by exists c]. }
  destruct x as [v|p|a|f|e m|b v|j v]; try exact Hsub.
  destruct (state_of p w) as [[[v|v]|]|e] eqn:E; try exact Hsub; [|split; [apply acts_refl|by exists c]].
  apply Hgo; [apply store_at_acts; [done|by eapply state_of_known]|]. exists c. by rewrite alls_store_at.
Qed.
Lemma resolve_not_pending d v (w : W) : ~ pending (resolve d v w) d.
Proof.
  intros (ms & ls & Hp). unfold resolve in Hp. destruct (cells w !! d) as [[ms' ls'|q|o]|] eqn:E; try (rewrite E in Hp; congruence).
  destruct (as_promise v w) as [w1 q] eqn:Ea. unfold become, nextTick, set_cell in Hp. cbn in Hp.
  assert (Hlt : (d < length (cells w1))%nat).
  { apply lookup_lt_Some in E. destruct v; cbn in Ea; injection Ea as <- _; try done; cbn; rewrite length_app; lia. }
  by rewrite list_lookup_insert_eq in Hp.
Qed.
Lemma resolve_extends d v w : has_deferred w d -> known w v -> extends w (resolve d v w).
Proof. intros [_ Ho] Hv. by apply api_extends, api_resolve. Qed.
(** The end of the loop, and of every answer: at zero the deferred is
    resolved. *)
Lemma finish_all_api w k : well w -> rtc api w (finish_all k w) /\ alls (store (finish_all k w)) = alls (store w) /\
  forall c, alls (store w) !! k = Some c -> pendingCount c = 0 -> ~ pending (finish_all k w) (deferred c).
Proof.
  intros Hw. unfold finish_all. destruct (alls (store w) !! k) as [c|] eqn:E; [|by split; [apply rtc_refl|]].
  destruct (Z.eqb_spec (pendingCount c) 0) as [Hz|Hz].
  - pose proof (alls_fine w Hw) as Hf. rewrite Forall_lookup in Hf. destruct (Hf k c E) as [Hp Hd]. destruct (resolve_acts w (deferred c) (promises c) Hd Hp) as [Hr _].
    split; [done|]. rewrite store_resolve. split; [done|]. intros c' [= <-] _. apply resolve_not_pending.
  - split; [apply rtc_refl|]. split; [done|]. intros c' [= <-]. done.
Qed.
Lemma counted_weak A w k c g : counted A w k c -> promises (g c) = promises c -> deferred (g c) = deferred c -> pendingCount (g c) <= pendingCount c ->
  (ready (g c) = true -> pendingCount (g c) <= 0 -> ~ pending w (deferred c)) -> counted A w k (g c).
Proof.
  intros Hc Ep Ed Hle Hnp Hwr. rewrite Ep in Hwr. destruct (Hc Hwr) as [_ (ts & Ht & Hl)]. rewrite Ed. split; [done|]. exists ts. split; [done|lia].
Qed.
(** The counters after [finish_all], when only the counter it looks at is not
    as it should be. *)
Lemma counts_finish A k w : well w ->
  (forall k' c, alls (store w) !! k' = Some c -> k' <> k -> counted A w k' c) ->
  (forall c, alls (store w) !! k = Some c -> writable (promises c) = true ->
     (ready c = true -> pendingCount c < 0 -> ~ pending w (deferred c)) /\ exists ts, waits A w k (deferred c) ts /\ pendingCount c <= Z.of_nat (length ts)) ->
  counts A (finish_all k w).
Proof.
  intros Hw Ho Hk k' c Hk'. destruct (finish_all_api w k Hw) as (Hr & Ea & Hz). rewrite Ea in Hk'. pose proof (apis_extends _ _ Hr) as E.
  assert (Hd : (deferred c < next_id w)%nat). { pose proof (alls_fine w Hw) as Hf. rewrite Forall_lookup in Hf. by destruct (Hf k' c Hk') as [_ [? _]]. }
  destruct (decide (k' = k)) as [->|Hne]; [|eapply counted_extends; [done|exact E|by apply Ho]].
  intros Hwr. destruct (Hk c Hk' Hwr) as [H1 (ts & Ht & Hl)]. split; [|exists ts; split; [by eapply waits_extends|done]].
  intros Hrd Hp0. destruct (decide (pendingCount c = 0)) as [Hz0|Hz0]; [by apply Hz|].
  eapply not_pending_stay; [by apply (ext_stay _ _ E)|done|apply H1; [done|lia]].
Qed.
Lemma ready_finish_acts w k d target : well w -> looping k d target w -> acts w (finish_all k (all_ready k w)).
Proof.
  intros Hw (c & Hk & Ed & Et & Hp). assert (Hr : rtc api w (all_ready k w)) by by apply alter_fine.
  pose proof (apis_well _ _ Hr Hw) as Hw1. split; [etrans; [exact Hr|by apply finish_all_api]|].
  intros A _ Hb Hc. apply counts_finish; [done|..].
  - intros k' c' Hk' Hne. cbn in Hk'. rewrite list_lookup_alter_ne in Hk' by done. exact (Hc k' c' Hk').
  - intros c' Hk' Hwr. cbn in Hk'. rewrite list_lookup_alter_eq, Hk in Hk'. cbn in Hk'. injection Hk' as <-. destruct (Hc k c Hk Hwr) as [_ Hx].
    split; [|exact Hx]. cbn. lia.
Qed.
Lemma start_all_goes w v : well w -> known w v -> goes w (start_all v w) known_result.
Proof.
  intros Hw Hv. unfold start_all. eapply goes_step; [done|apply defer_acts|]. intros G Hw1. pose proof (defer_deferred w Hw) as Hd.
  set (d := next_id w) in *. rewrite elements_defer. destruct (elements v w) as [l|] eqn:El; [|apply goes_type_error].
  assert (Hv1 : known (defer w) v) by by eapply known_apis.
  assert (Hl : Forall (known (defer w)) l) by (eapply known_list; [exact G|by eapply elements_known]).
  set (w1 := defer w) in *. clearbody w1. eapply goes_step; [done|by apply (new_all_acts w1 (Counter v d 0 false))|]. intros G2 Hw2.
  assert (Hk : looping (length (alls (store w1))) d v (new_all (Counter v d 0 false) w1)).
  { exists (Counter v d 0 false). split; [|done]. cbn. rewrite lookup_app_r by done. by rewrite Nat.sub_diag. }
  set (w2 := new_all (Counter v d 0 false) w1) in *. set (k := length (alls (store w1))) in *. clearbody w2 k.
  destruct (all_loop_acts k d v (imap pair l) w2) as [Hr Hk3]; [done|by eapply has_deferred_more|done|apply indexed_known; by eapply known_list|].
  destruct (all_loop k d v (imap pair l) w2) as [w3 [e|]]; cbn [fst] in *; (eapply goes_step; [done|exact Hr|]); intros G3 Hw3.
  - by apply goes_done.
  - pose proof (ready_finish_acts w3 k d v Hw3 Hk3) as Hf. split; [exact Hf|]. cbn [fst snd known_result]. apply (is_promise_more w3); [by apply acts_grows|].
    apply (is_promise_more w2); [done|]. apply (is_promise_more w1); [done|]. by destruct Hd.
Qed.

(** An answer: one less is missing, whoever gave it. *)
Lemma all_answer k i v c w : well w -> known w v -> alls (store w) !! k = Some c -> let w1 := all_pending k (-1) (store_at (promises c) i v w) in
  rtc api w w1 /\ extends w w1 /\ alls (store w1) = alter (add_pending (-1)) k (alls (store w)).
Proof.
  intros Hw Hv Hk. cbn zeta. destruct (store_at_acts w (promises c) i v Hw Hv) as [Hr _]. set (w1 := store_at (promises c) i v w) in *.
  assert (Hw1 : well w1) by by eapply apis_well. assert (Hr2 : rtc api w1 (all_pending k (-1) w1)) by by apply alter_fine.
  assert (Hr3 : rtc api w (all_pending k (-1) w1)) by by etrans. split; [exact Hr3|]. split; [by apply apis_extends|]. cbn. unfold w1. by rewrite alls_store_at.
Qed.
Lemma all_one_api k i v w : well w -> known w v -> rtc api w (all_one k i v w).1.
Proof.
  intros Hw Hv. unfold all_one. destruct (alls (store w) !! k) as [c|] eqn:Hk; [|apply rtc_refl]. destruct (writable (promises c)); [|apply rtc_refl].
  destruct (all_answer k i v c w Hw Hv Hk) as (Hr & _). cbn [fst]. etrans; [exact Hr|]. apply finish_all_api. by eapply apis_well.
Qed.
(** [t]: the reaction that is answered, when it is one of the call's. *)
Lemma all_one_counts A k i v w : well w -> known w v -> counts A w ->
  counts A (all_one k i v w).1 /\
  forall t r, reactions w !! t = Some r -> on_fulfilled r = Some (AllOne k i) -> counts (fun t' => A t' \/ t' = t) (all_one k i v w).1.
Proof.
  intros Hw Hv Hc. unfold all_one. destruct (alls (store w) !! k) as [c|] eqn:Hk; [destruct (writable (promises c)) eqn:Hwr|]; cbn [fst].
  - destruct (all_answer k i v c w Hw Hv Hk) as (Hr & E & Ea). set (w1 := all_pending k (-1) (store_at (promises c) i v w)) in *.
    pose proof (apis_well _ _ Hr Hw) as Hw1. pose proof (alls_fine w Hw) as Hf. rewrite Forall_lookup in Hf.
    destruct (Hc k c Hk Hwr) as [H1 (ts & Ht & Hl)]. destruct (Hf k c Hk) as [_ [Hd _]].
    assert (Hneg : ready c = true -> pendingCount c + -1 < 0 -> ~ pending w1 (deferred c)).
    { intros Hrd Hp. eapply not_pending_stay; [by apply (ext_stay _ _ E)|done|apply H1; [done|lia]]. }
    assert (Hfin : forall B, (forall t', B t' -> A t' \/ exists r, reactions w !! t' = Some r /\ on_fulfilled r = Some (AllOne k i)) ->
      (exists ts', waits B w1 k (deferred c) ts' /\ pendingCount c + -1 <= Z.of_nat (length ts')) -> counts B (finish_all k w1)).
    { intros B HB Hts. apply counts_finish; [done|..].
      - intros k' c' Hk' Hne. rewrite Ea, list_lookup_alter_ne in Hk' by done. destruct (Hf k' c' Hk') as [_ [Hd' _]].
        apply (counted_extends B w); [done|done|]. intros Hwr'. destruct (Hc k' c' Hk' Hwr') as [H1' (ts' & [Hn' Ht'] & Hl')]. split; [done|].
        exists ts'. split; [|done]. split; [done|]. intros t' Hin. destruct (Ht' t' Hin) as (Ha & r' & Hr' & (j & Hj) & Hrj). split; [|by exists r'; split; [|split; [exists j|]]].
        intros [Hb|(r2 & Hr2 & Hi2)]%HB; [done|]. rewrite Hr' in Hr2. injection Hr2 as <-. rewrite Hj in Hi2. injection Hi2. congruence.
      - intros c' Hk' _. rewrite Ea, list_lookup_alter_eq, Hk in Hk'. cbn in Hk'. injection Hk' as <-. by split. }
    split.
    + apply Hfin; [by left|]. exists ts. split; [by eapply waits_extends|lia].
    + intros t r Hrt Hof. apply Hfin; [intros t' [Ha| ->]; [by left|right; by exists r]|].
      destruct (waits_extends A w w1 k (deferred c) ts E Ht) as [Hn Hin].
      destruct (decide (t ∈ ts)) as [Hts|Hts].
      * apply list_elem_of_split in Hts as (l1 & l2 & ->). exists (l1 ++ l2). split; [|rewrite length_app in *; cbn in Hl; lia].
        apply NoDup_app in Hn as (Hn1 & Hn12 & Hn2). apply NoDup_cons in Hn2 as [Hnt Hn2]. split.
        { apply NoDup_app. split; [done|]. split; [|done]. intros t' H1' H2'. apply (Hn12 t' H1'). by right. }
        intros t' Ht'. destruct (Hin t') as [Ha Hr']; [apply elem_of_app in Ht' as [?|?]; apply elem_of_app; [by left|right; by right]|].
        split; [|done]. intros [Ha'| ->]; [done|]. apply elem_of_app in Ht' as [Ht'|Ht']; [|done]. apply (Hn12 t Ht'). by left.
      * exists ts. split; [|lia]. split; [done|]. intros t' Ht'. destruct (Hin t' Ht') as [Ha Hr']. split; [|done]. intros [Ha'| ->]; done.
  - split; [done|]. intros t r Hrt Hof k' c' Hk'. destruct (decide (k' = k)) as [->|Hne]; [intros Hwr'; congruence|].
    intros Hwr'. destruct (Hc k' c' Hk' Hwr') as [H1 (ts & [Hn Ht] & Hl)]. split; [done|]. exists ts. split; [|done]. split; [done|].
    intros t' Hin. destruct (Ht t' Hin) as (Ha & r' & Hr' & (j & Hj) & Hrj). split; [|by exists r'; split; [|split; [exists j|]]].
    intros [?| ->]; [done|]. congruence.
  - split; [done|]. intros t r Hrt Hof k' c' Hk'. intros Hwr'. destruct (Hc k' c' Hk' Hwr') as [H1 (ts & [Hn Ht] & Hl)]. split; [done|].
    exists ts. split; [|done]. split; [done|].
    intros t' Hin. destruct (Ht t' Hin) as (Ha & r' & Hr' & (j & Hj) & Hrj). split; [|by exists r'; split; [|split; [exists j|]]].
    intros [?| ->]; [done|]. congruence.
Qed.
Lemma all_one_goes w k i v : well w -> known w v -> goes w (all_one k i v w) known_result.
Proof.
  intros Hw Hv. split; [split; [by apply all_one_api|]; intros A _ _ Hc; by apply all_one_counts|].
  unfold all_one. destruct (alls (store w) !! k) as [c|]; [|done]. by destruct (writable (promises c)).
Qed.
Lemma all_goes w v : well w -> known w v -> goes w (all v w) is_promise.
Proof. intros Hw Hv. apply when_goes; [done|done|]. by apply fns_all. Qed.
Lemma any_rejected_acts w k : well w -> acts w (any_rejected k w).
Proof.
  intros Hw. unfold any_rejected. eapply acts_step; [done|by apply (any_pending_acts w k (-1))|]. intros G Hw1.
  set (w1 := any_pending k (-1) w) in *. destruct (anys (store w1) !! k) as [c|] eqn:E; [|apply acts_refl]. destruct (pendingCount c =? 0); [|apply acts_refl].
  destruct (well_store _ Hw1) as (_ & _ & Hc & _). rewrite Forall_lookup in Hc. destruct (Hc k c E). by apply reject_acts.
Qed.
Lemma race_goes w v : well w -> known w v -> goes w (race v w) is_promise.
Proof.
  intros Hw Hv. unfold race. eapply goes_step; [done|apply defer_acts|]. intros G Hw1. pose proof (defer_deferred w Hw) as Hd.
  set (d := next_id w) in *. rewrite elements_defer.
  assert (Hl : forall l, elements v w = Some l -> Forall (known (defer w)) l) by (intros l El; eapply known_list; [exact G|by eapply elements_known]).
  set (w1 := defer w) in *. clearbody w1. clear G. destruct (elements v w) as [l|].
  - specialize (Hl l eq_refl). clearbody d. unfold goes. cbn [fst snd]. assert (Hgo : forall w, well w -> has_deferred w d -> Forall (known w) l ->
      let w' := foldl (fun w x => let '(w, p) := as_promise x w in then_ p (Some (ResolveOf d)) (Some (RejectOf d)) None w) w l in
      acts w w' /\ is_promise w' d).
    { clear. induction l as [|x l IH]; cbn [foldl]; intros w Hw Hd Hl; [split; [apply acts_refl|by destruct Hd]|]. apply Forall_cons in Hl as [Hx Hl].
      destruct (as_promise_goes w x Hx) as [Hr Hp]. destruct (as_promise x w) as [w1 p]. cbn [fst snd] in *.
      assert (Hr2 : acts w (then_ p (Some (ResolveOf d)) (Some (RejectOf d)) None w1)).
      { eapply acts_step; [done|exact Hr|]. intros G1 Hw1. apply (then_goes w1 p); [done|]. pose proof (has_deferred_more _ _ _ G1 Hd). by apply fns_all. }
      pose proof (acts_grows _ _ Hr2) as G2. destruct (IH _ (acts_well _ _ Hr2 Hw) (has_deferred_more _ _ _ G2 Hd) (known_list _ _ _ G2 Hl)) as [H1 H2].
      split; [by eapply acts_trans|done]. }
    by apply (Hgo w1).
  - split; cbn [fst snd]; [by apply reject_acts|]. apply (is_promise_more w1); [apply acts_grows; by apply reject_acts|by destruct Hd].
Qed.
Lemma map_promises_goes (f : value fn -> W -> W * nat) l : (forall w x, well w -> known w x -> goes w (f x w) is_promise) ->
  forall w, well w -> Forall (known w) l -> goes w (map_promises f l w) (fun w ps => Forall (is_promise w) ps).
Proof.
  intros Hf. induction l as [|x l IH]; intros w Hw Hl; cbn [map_promises]; [by apply goes_done|]. apply Forall_cons in Hl as [Hx Hl].
  eapply goes_let; [done|by apply Hf|]. intros w1 p _ _ G1 Hw1 Hp.
  eapply goes_let; [done|apply IH; [done|by eapply known_list]|]. intros w2 ps _ _ G2 Hw2 Hps. apply goes_done. constructor; [by eapply is_promise_more|done].
Qed.
Lemma refs_known w ps : Forall (is_promise w) ps -> Forall (known w) (Ref <$> ps).
Proof. intros H. by apply Forall_fmap. Qed.
Lemma map_array_goes (f : value fn -> W -> W * nat) l w : (forall w x, well w -> known w x -> goes w (f x w) is_promise) ->
  well w -> Forall (known w) l -> goes w (map_array f l w) any_result.
Proof.
  intros Hf Hw Hl. eapply goes_let; [done|by apply map_promises_goes|]. intros w1 ps _ _ G1 Hw1 Hps. apply new_array_goes; [done|by apply refs_known].
Qed.
Lemma start_settled_goes w v : well w -> known w v -> goes w (start_settled v w) known_result.
Proof.
  intros Hw Hv. unfold start_settled. destruct (elements v w) as [l|] eqn:El; [|apply goes_type_error].
  eapply goes_let; [done|apply map_array_goes; [|done|by eapply elements_known]|].
  - clear. intros w x Hw Hx. eapply goes_let; [done|by apply as_promise_goes|]. intros w1 p _ _ G Hw1 Hp. apply then_goes; [done|by apply fns_all].
  - intros w1 a _ _ G1 Hw1 _. eapply goes_let; [done|by apply all_goes|]. intros w2 q _ _ G2 Hw2 Hq. by apply goes_done.
Qed.
Lemma start_resolved_goes w v : well w -> known w v -> goes w (start_resolved v w) known_result.
Proof.
  intros Hw Hv. unfold start_resolved. destruct (elements v w) as [l|] eqn:El; [|apply goes_type_error].
  eapply goes_let; [done|apply map_promises_goes; [|done|by eapply elements_known]|].
  { clear. intros w x Hw Hx. by apply as_promise_goes. }
  intros w1 ps _ _ G1 Hw1 Hps. eapply goes_let; [done|apply new_array_goes; [done|by apply refs_known]|]. intros w2 a _ _ G2 Hw2 _.
  eapply goes_let; [done|apply map_array_goes; [|done|eapply known_list; [exact G2|by apply refs_known]]|].
  { clear. intros w x Hw Hx. apply when_goes; [done|done|by apply fns_all]. }
  intros w3 b _ _ G3 Hw3 _. eapply goes_let; [done|by apply all_goes|]. intros w4 q _ _ G4 Hw4 Hq.
  eapply goes_let; [done|apply when_goes; [done|done|by apply fns_all]|]. intros w5 r _ _ G5 Hw5 Hr. by apply goes_done.
Qed.

(** *** Timers, functions in the style of Node, [spread] *)

Lemma set_timeout_goes w ms t : well w -> fine_timer w t -> goes w (set_timeout ms t w) any_result.
Proof.
  intros [(Ha & Hc & Hd & Ht) _ _] Hf. split; [|done]. apply memory_acts; [|done]. split; [done|]. split; [done|]. split; [done|]. cbn.
  apply Forall_app. split; [done|by apply Forall_singleton].
Qed.
Lemma clear_timeout_acts w i : well w -> acts w (clear_timeout i w).
Proof.
  intros [(Ha & Hc & Hd & Ht) _ _]. apply memory_acts; [|done]. split; [done|]. split; [done|]. split; [done|]. cbn.
  rewrite Forall_forall in Ht. apply Forall_forall. intros t [_ Hin]%list_elem_of_filter. by apply Ht.
Qed.
Lemma fcall_goes w p args : Forall (known w) args -> goes w (fcall p args w) is_promise.
Proof. intros Ha. apply dispatch_goes. by split. Qed.
Lemma node_resolver_acts w d args : well w -> has_deferred w d -> Forall (known w) args -> acts w (node_resolver d args w).
Proof.
  intros Hw Hd Ha. unfold node_resolver. destruct (truthy_value (arg args 0)); [apply reject_acts; [done|by apply arg_known]|].
  destruct (2 <? length args)%nat; [|apply resolve_acts; [done|by apply arg_known]].
  destruct (new_array_goes w (drop 1 args) Hw) as [Hr _]; [by apply Forall_drop|]. destruct (new_array (drop 1 args) w) as [w1 a].
  eapply acts_step; [done|exact Hr|]. intros G Hw1. apply resolve_acts; [by eapply has_deferred_more|done].
Qed.
Lemma node_call_goes w p op args : well w -> Forall (known w) args -> (forall w l, Forall (known w) l -> known_op w (op l)) ->
  goes w (node_call p op args w) is_promise.
Proof.
  intros Hw Ha Ho. unfold node_call. eapply goes_step; [done|apply defer_acts|]. intros G Hw1. pose proof (defer_deferred w Hw) as Hd.
  set (d := next_id w) in *. assert (Ha1 : Forall (known (defer w)) args) by by eapply known_list. set (w1 := defer w) in *. clearbody w1 d.
  eapply goes_let; [done|apply dispatch_goes, Ho, Forall_app; split; [done|by apply Forall_singleton]|]. intros w2 q _ _ G2 Hw2 Hq.
  assert (Hr : acts w2 (then_ q None (Some (RejectOf d)) None w2)).
  { apply (then_goes w2 q); [done|]. pose proof (has_deferred_more _ _ _ G2 Hd). by apply fns_all. }
  split; [exact Hr|]. cbn [fst snd]. apply (is_promise_more w2); [by apply acts_grows|]. apply (is_promise_more w1); [done|by destruct Hd].
Qed.
Lemma spread_goes w p f r : well w -> is_promise w p -> fn_fine w f -> fine_opt w r -> goes w (spread p f r w) is_promise.
Proof.
  intros Hw Hp Hf Hr. unfold spread. eapply goes_let; [done|by apply all_goes|]. intros w1 q _ _ G Hw1 Hq. apply then_goes; [done|].
  apply (fns_ok_more w); [done|]. by apply fns_all.
Qed.

(** *** The functions of Q, and the operations *)

Section laws.
Context (user : nat -> value fn -> list (value fn) -> W -> W * result fn).
Context (object_op : operation fn -> value fn -> W -> W * result fn).
Context (make_generator : nat -> value fn -> list (value fn) -> W -> W * (nat + value fn)).
Context (resume : nat -> bool -> value fn -> W -> W * ((bool * value fn) + value fn)).
(** What the code of the page does: it uses promises, and has no hands on the
    variables of [all]. *)
Definition page_goes {A} (w : W) (wa : W * A) (Q : W -> A -> Prop) : Prop := rtc api w wa.1 /\ alls (store wa.1) = alls (store w) /\ Q wa.1 wa.2.
Hypothesis user_page : forall f this args w, well w -> known w this -> Forall (known w) args -> page_goes w (user f this args w) known_result.
Hypothesis object_page : forall op v w, well w -> known_op w op -> known w v -> page_goes w (object_op op v w) known_result.
Hypothesis make_page : forall f this args w, well w -> known w this -> Forall (known w) args ->
  page_goes w (make_generator f this args w) (fun w r => match r with inl _ => True | inr e => known w e end).
Hypothesis resume_page : forall g throw v w, well w -> known w v ->
  page_goes w (resume g throw v w) (fun w r => match r with inl (_, v) => known w v | inr e => known w e end).
Lemma page_acts {A} w (wa : W * A) Q : page_goes w wa Q -> goes w wa Q.
Proof. intros (Hr & Ha & HQ). split; [by apply acts_quiet|done]. Qed.
Abbreviation call_ := (invoke_this user make_generator resume).

Lemma continuer_goes g throw v w : well w -> known w v -> goes w (continuer resume g throw v w) known_result.
Proof.
  intros Hw Hv. destruct (page_acts _ _ _ (resume_page g throw v w Hw Hv)) as [Hr Hk]. unfold continuer. destruct (resume g throw v w) as [w1 [[[] u]|e]]; cbn [fst snd] in *;
    (eapply goes_step; [done|exact Hr|]); intros G Hw1.
  - eapply goes_let; [done|by apply as_promise_goes|]. intros w2 p _ _ G2 Hw2 Hp. by apply goes_done.
  - eapply goes_let; [done|apply when_goes; [done|done|by apply fns_all]|]. intros w2 p _ _ G2 Hw2 Hp. by apply goes_done.
  - eapply goes_let; [done|by apply settled_goes|]. intros w2 p _ _ G2 Hw2 Hp. by apply goes_done.
Qed.
(** A message whose answer is followed by a constant. *)
Lemma followed_goes cb args f w : well w -> Forall (known w) args -> fn_fine w f ->
  goes w (let '(w, d) := fcall cb args w in let '(w, d) := then' d (Some f) None None w in (w, Return (Ref d))) known_result.
Proof.
  intros Hw Ha Hf. eapply goes_let; [done|by apply fcall_goes|]. intros w1 d _ _ G Hw1 Hd.
  eapply goes_let; [done|apply then_goes; [done|]|]. { apply (fns_ok_more w); [done|]. by apply fns_all. }
  intros w2 q _ _ G2 Hw2 Hq. by apply goes_done.
Qed.
Lemma returned_goes w (wp : W * nat) : well w -> goes w wp is_promise -> goes w (let '(w, p) := wp in (w, Return (Ref p))) known_result.
Proof. intros Hw Hp. eapply goes_let; [done|exact Hp|]. intros w1 p _ _ _ _ Hq. by apply goes_done. Qed.

Lemma invoke_this_goes f : forall this args w, well w -> fn_fine w f -> known w this -> Forall (known w) args -> goes w (call_ f this args w) known_result.
Proof.
  induction f as [f IH] using fn_nested_ind. intros this args w Hw Hf Ht Ha. pose proof (arg_known w args 0 Ha) as Hv.
  destruct f; cbn [invoke_this fn_fine parts] in *; unfold tapped, finally_value, finally_reason, in_time, failed_in_time, delayed, fbound, nfbound, promised_call, nodeify_value, nodeify_error.
  - by apply page_acts, user_page.
  - by apply goes_undef, resolve_acts.
  - by apply goes_undef, reject_acts.
  - by apply goes_undef, notify_acts.
  - by apply goes_undef, node_resolver_acts.
  - by apply goes_done.
  - by apply goes_done.
  - by apply goes_done.
  - destruct (applied (arg args 0) w) as [l|] eqn:E; [|apply goes_type_error]. apply IH; [done|done|done|by eapply applied_known].
  - by apply start_all_goes.
  - by apply all_one_goes.
  - by apply goes_undef, notify_acts.
  - by apply goes_undef, any_rejected_acts.
  - apply returned_goes; [done|by apply race_goes].
  - by apply start_resolved_goes.
  - by apply start_settled_goes.
  - destruct (state_of p w) as [o|e] eqn:E; [|by apply goes_done]. apply goes_done. destruct o as [[v|v]|]; [exact (state_of_known w p v _ Hw E eq_refl)..|done].
  - apply followed_goes; [done|by apply Forall_singleton|done].
  - by apply followed_goes.
  - by apply followed_goes.
  - apply goes_undef, acts_one; [by apply api_nextTick|done].
  - apply goes_undef. eapply acts_step; [done|by apply clear_timeout_acts|]. intros G Hw1. apply resolve_acts; [by eapply has_deferred_more|by eapply known_apis].
  - apply goes_undef. eapply acts_step; [done|by apply clear_timeout_acts|]. intros G Hw1. apply reject_acts; [by eapply has_deferred_more|by eapply known_apis].
  - pose proof (defer_deferred w Hw) as Hd. eapply goes_step; [done|apply defer_acts|]. intros G Hw1.
    destruct (set_timeout_goes (defer w) ms (DelayTimer (next_id w) (arg args 0)) Hw1) as [Hr _]; [split; [done|by eapply known_apis]|].
    split; [exact Hr|]. cbn [fst snd known_result]. apply (is_promise_more (defer w)); [by apply acts_grows|by destruct Hd].
  - destruct Hf as [Hp Hl]. rewrite list_and_Forall in Hl. apply returned_goes; [done|]. apply dispatch_goes. split; [done|]. by apply Forall_app.
  - destruct Hf as [Hp Hl]. rewrite list_and_Forall in Hl. eapply goes_let; [done|by apply as_promise_goes|]. intros w1 p _ _ G Hw1 Hq.
    apply returned_goes; [done|]. apply node_call_goes; [done|eapply known_list; [exact G|by apply Forall_app]|]. intros w' l Hl'. by split.
  - destruct IH as [IH _], Hf as [Hf Hth]. by apply IH.
  - eapply goes_let; [done|by apply new_array_goes|]. intros w1 a _ _ G1 Hw1 _. eapply goes_let; [done|by apply all_goes|]. intros w2 q _ _ G2 Hw2 Hq.
    eapply goes_let; [done|apply new_array_goes; [done|]|].
    { constructor; [|by apply Forall_singleton]. eapply known_apis; [exact G2|]. by eapply known_apis. }
    intros w3 b _ _ G3 Hw3 _. eapply goes_let; [done|by apply as_promise_goes|]. intros w4 p _ _ G4 Hw4 Hp. apply returned_goes; [done|].
    apply spread_goes; [done|done| |done]. cbn. do 4 (eapply fn_fine_more; [eassumption|]). done.
  - destruct (applied (arg args 1) w) as [l|] eqn:E; [|apply goes_type_error].
    apply IH; [done|done|done|]. eapply applied_known; [done| |exact E]. by apply arg_known.
  - apply goes_undef, acts_one; [apply api_nextTick; [done|]|done]. constructor; [done|by apply Forall_singleton].
  - apply goes_undef, acts_one; [apply api_nextTick; [done|by apply Forall_singleton]|done].
  - destruct (page_acts _ _ _ (make_page makeGenerator this args w Hw Ht Ha)) as [Hr Hk]. destruct (make_generator makeGenerator this args w) as [w1 [g|e]]; cbn [fst snd] in *;
      (eapply goes_step; [done|exact Hr|]); intros G Hw1; [by apply continuer_goes|by apply goes_done].
  - by apply continuer_goes.
Qed.
Lemma invoke_goes f args w : fn_ok w f -> Forall (known w) args -> well w -> goes w (invoke user make_generator resume f args w) known_result.
Proof. intros Hf Ha Hw. by apply invoke_this_goes. Qed.
Lemma perform_goes op v w : known_op w op -> known w v -> well w -> goes w (perform user object_op make_generator resume op v w) known_result.
Proof.
  intros Ho Hv Hw. assert (Happly : forall thisp args, known w thisp -> Forall (known w) args -> goes w (apply_value user make_generator resume v thisp args w) known_result).
  { intros thisp args Ht Ha. destruct v; try apply goes_type_error. by apply invoke_this_goes. }
  assert (Hnot : goes w (answers_nothing (object_op op v w)) known_result).
  { destruct (page_acts _ _ _ (object_page op v w Hw Ho Hv)) as [Hr Hk]. destruct (object_op op v w) as [w1 [u|e]]; by split. }
  destruct op as [name|name rhs|name|[name|] args|thisp args|]; cbn [perform]; try exact Hnot; try by apply page_acts, object_page.
  - by apply Happly.
  - destruct Ho. by apply Happly.
Qed.

(** ** Arrays of promises are answered

    The steps of a page that has no hands on the variables of [all], and the
    invariant of its worlds: the counts are right, and where an answer was a
    rejection the deferred it rejects is settled. *)

Abbreviation inv_ := (invoke user make_generator resume).
Abbreviation perf_ := (perform user object_op make_generator resume).
Inductive q_step : W -> W -> Prop :=
| q_page w w' : api w w' -> alls (store w') = alls (store w) -> q_step w w'
| q_tick w w' : tick inv_ perf_ w = Some w' -> q_step w w'.
Definition answered (w : W) (t : nat) : Prop := exists v q, (t, Fulfilled v, q) ∈ calls w.
Definition rejected_done (w : W) : Prop := forall t r d e q,
  reactions w !! t = Some r -> on_rejected r = Some (RejectOf d) -> (t, Rejected e, q) ∈ calls w -> ~ pending w d.
Definition answers (w : W) : Prop := counts (answered w) w /\ rejected_done w.
(** What a world knows of the deferreds its reactions reject, and of what was
    called. *)
Record sound (w : W) : Prop := {
  sound_well : well w;
  sound_reject t r d : reactions w !! t = Some r -> on_rejected r = Some (RejectOf d) -> has_deferred w d;
  sound_called t o q : (t, o, q) ∈ calls w -> is_Some (reactions w !! t)
}.
Lemma sound_inv moving running opened w : inv moving running opened w -> sound w.
Proof.
  intros I. split; [by eapply inv_well| |].
  - intros t r d Hr Hj. refine (mentioned _ _ _ _ I (IFn (RejectOf d)) (in_reaction w t r _ Hr _)). by right; left.
  - intros t o q Hin. destruct (logged _ _ _ _ I t o q Hin) as (_ & r & Hr & _). by exists r.
Qed.
Lemma answered_below w : sound w -> below (answered w) w.
Proof. intros S t (v & q & Hin). by eapply sound_called. Qed.

(** Steps that call no reaction. *)
Lemma answers_extends w w' : sound w -> extends w w' -> calls w' = calls w ->
  (forall t r', reactions w' !! t = Some r' -> is_Some (reactions w !! t) -> exists r, reactions w !! t = Some r /\ on_rejected r = on_rejected r') ->
  counts (answered w) w' -> rejected_done w -> answers w'.
Proof.
  intros S E Ec Hback Hc Hrj. split; [eapply counts_weaken; [|exact Hc]; intros t (v & q & Hin); exists v, q; by rewrite <- Ec|].
  intros t r' d e q Hr' Hj Hin. rewrite Ec in Hin. destruct (Hback t r' Hr') as (r & Hr & Ej); [by eapply sound_called|].
  rewrite <- Ej in Hj. eapply not_pending_stay; [by apply (ext_stay _ _ E)|by destruct (sound_reject _ S t r d Hr Hj)|by eapply Hrj].
Qed.
Lemma extends_back w w' t r' : extends w w' -> reactions w' !! t = Some r' -> is_Some (reactions w !! t) ->
  exists r, reactions w !! t = Some r /\ on_rejected r = on_rejected r'.
Proof.
  intros E Hr' [r Hr]. destruct (ext_reactions _ _ E t r Hr) as (r2 & Hr2 & _ & Ej). exists r. split; [done|]. rewrite Hr' in Hr2. congruence.
Qed.
Lemma answers_acts w w' : sound w -> acts w w' -> answers w -> answers w'.
Proof.
  intros S [Hr Ha] [Hc Hrj]. pose proof (apis_extends _ _ Hr) as E. apply (answers_extends w); [done|done|by apply apis_calls| | |done].
  - intros t r'. by apply extends_back.
  - apply Ha; [by apply sound_well|by apply answered_below|done].
Qed.
Lemma answers_same w w' : sound w -> extends w w' -> calls w' = calls w -> alls (store w') = alls (store w) -> answers w -> answers w'.
Proof.
  intros S E Ec Ea [Hc Hrj]. apply (answers_extends w); [done|done|done| | |done].
  - intros t r'. by apply extends_back.
  - eapply counts_extends; [by apply sound_well|exact E|done|done].
Qed.
Lemma same_extends w w' : reactions w' = reactions w -> stay w w' -> extends w w'.
Proof. intros E Hs. split; [|done]. intros t r Hr. exists r. by rewrite E. Qed.
Lemma answers_hold p m w : sound w -> answers w -> answers (hold p m w).
Proof.
  intros S. apply answers_same; [done|apply same_extends; [apply reactions_hold|apply stay_hold]|apply calls_hold|].
  unfold hold. by destruct (cells w !! p) as [[]|].
Qed.
Lemma made_goes w res : known_result w res -> goes w (made res w) is_promise.
Proof. destruct res as [v|e]; intros Hk; [by apply as_promise_goes|by apply (settled_goes w (Rejected e))]. Qed.
Lemma resolve_same d v (w : W) : extends w (resolve d v w) /\ calls (resolve d v w) = calls w /\ alls (store (resolve d v w)) = alls (store w).
Proof.
  split; [apply same_extends; [apply reactions_resolve|apply stay_resolve]|]. split; [apply calls_resolve|by rewrite store_resolve].
Qed.

(** ** The answer of a reaction *)

Lemma counts_other A t r w : reactions w !! t = Some r -> (forall k i, on_fulfilled r <> Some (AllOne k i)) -> counts A w -> counts (fun t' => A t' \/ t' = t) w.
Proof.
  intros Hr Hn Hc k c Hk Hwr. destruct (Hc k c Hk Hwr) as [H1 (ts & [Hnd Ht] & Hl)]. split; [done|]. exists ts. split; [|done]. split; [done|].
  intros t' Hin. destruct (Ht t' Hin) as (Ha & r' & Hr' & Haw). split; [|by exists r']. intros [?| ->]; [done|]. destruct Haw as [(i & Hi) _].
  rewrite Hr in Hr'. injection Hr' as <-. by destruct (Hn k i).
Qed.
Definition is_all_one (f : option fn) : option (nat * nat) := match f with Some (AllOne k i) => Some (k, i) | _ => None end.
(** The function of a reaction that is given a value. *)
Lemma handle_counts A t r v w : well w -> (forall h, fn_of r h -> fn_fine w h) -> known w v -> below A w -> counts A w ->
  (exists r0, reactions w !! t = Some r0 /\ on_fulfilled r0 = on_fulfilled r) -> counts (fun t' => A t' \/ t' = t) (handle inv_ r (Fulfilled v) w).1.
Proof.
  intros Hw Hf Hv Hb Hc (r0 & Hr0 & E0). cbn [handle]. unfold run_opt. destruct (is_all_one (on_fulfilled r)) as [[k i]|] eqn:Ei.
  - assert (Eo : on_fulfilled r = Some (AllOne k i)). { destruct (on_fulfilled r) as [[]|]; cbn in Ei; try done. by injection Ei as -> ->. }
    rewrite Eo. eapply (all_one_counts A k i v w Hw Hv Hc); [exact Hr0|by rewrite E0].
  - assert (Hn : forall k i, on_fulfilled r0 <> Some (AllOne k i)). { intros k i E. rewrite <- E0, E in Ei. done. }
    pose proof (counts_other A t r0 w Hr0 Hn Hc) as Hc2. destruct (on_fulfilled r) as [f|] eqn:Ef; [|done].
    destruct (invoke_goes f [v] w) as [[_ Ha] _]; [apply Hf; by left|by apply Forall_singleton|done|]. apply Ha; [done| |done].
    intros t' [Ht'| ->]; [by apply Hb|by exists r0].
Qed.
Lemma settle_not_pending d o (w : W) : ~ pending (settle d o w) d.
Proof.
  intros (ms & ls & Hp). unfold settle in Hp. destruct (cells w !! d) as [[ms' ls'|q|o']|] eqn:E; try (rewrite E in Hp; congruence).
  unfold become, nextTick, set_cell, new_cell in Hp. cbn in Hp. rewrite list_lookup_insert_eq in Hp; [done|].
  apply lookup_lt_Some in E. rewrite length_app. lia.
Qed.
(** What is answered once [t] has been given the outcome [o]. *)
Definition after (A : nat -> Prop) (t : nat) (o : outcome fn) (t' : nat) : Prop := A t' \/ match o with Fulfilled _ => t' = t | Rejected _ => False end.
Lemma handle_after A t r o w : well w -> (forall h, fn_of r h -> fn_fine w h) -> known_outcome w o -> below A w -> counts A w ->
  (exists r0, reactions w !! t = Some r0 /\ on_fulfilled r0 = on_fulfilled r) ->
  counts (after A t o) (handle inv_ r o w).1 /\ forall d e, o = Rejected e -> on_rejected r = Some (RejectOf d) -> ~ pending (handle inv_ r o w).1 d.
Proof.
  intros Hw Hf Ho Hb Hc Hr. destruct o as [v|e].
  - split; [by apply handle_counts|done].
  - cbn [handle]. unfold run_opt. split.
    + apply (counts_weaken A); [by intros t' [?|[]]|]. destruct (on_rejected r) as [f|] eqn:Ef; [|done].
      destruct (invoke_goes f [e] w) as [[_ Ha] _]; [apply Hf; by right; left|by apply Forall_singleton|done|]. by apply Ha.
    + intros d e' _ ->. cbn. apply settle_not_pending.
Qed.
Lemma set_done_extends t r (w : W) : reactions w !! t = Some r -> extends w (set_done t r w).
Proof.
  intros Hr. split; [|by apply stay_refl]. intros t' r' Hr'. cbn. destruct (decide (t' = t)) as [->|Hne].
  - rewrite list_lookup_insert_eq by (by eapply lookup_lt_Some). eexists. split; [done|]. by rewrite Hr in Hr'; injection Hr' as <-.
  - rewrite list_lookup_insert_ne by done. by exists r'.
Qed.
Lemma answers_log w w' t r o q : sound w -> extends w w' -> reactions w !! t = Some r -> calls w' = calls w -> counts (after (answered w) t o) w' ->
  rejected_done w -> (forall d e, o = Rejected e -> on_rejected r = Some (RejectOf d) -> ~ pending w' d) -> answers (log t o q w').
Proof.
  intros S E Hr Hk Hc Hrj Hnew. assert (Hcalls : calls (log t o q w') = calls w ++ [(t, o, q)]) by (cbn; by rewrite Hk). split.
  - apply (counts_weaken (after (answered w) t o) (answered (log t o q w')) (log t o q w')); [|done]. intros t' (v & q' & Hin). rewrite Hcalls in Hin.
    apply elem_of_app in Hin as [Hin|Hin]; [left; by exists v, q'|right]. apply list_elem_of_singleton in Hin. by injection Hin as -> <- _.
  - intros t' r' d e q' Hr' Hj Hin. change (reactions w' !! t' = Some r') in Hr'. change (~ pending w' d). rewrite Hcalls in Hin.
    assert (Hback : is_Some (reactions w !! t')).
    { apply elem_of_app in Hin as [Hin|Hin]; [by eapply sound_called|]. apply list_elem_of_singleton in Hin. injection Hin as -> _ _. by exists r. }
    destruct (extends_back w w' t' r' E Hr' Hback) as (r0 & Hr0 & Ej). rewrite <- Ej in Hj. destruct (sound_reject _ S t' r0 d Hr0 Hj) as [Hd _].
    apply elem_of_app in Hin as [Hin|Hin].
    + eapply not_pending_stay; [by apply (ext_stay _ _ E)|done|by eapply Hrj].
    + apply list_elem_of_singleton in Hin. injection Hin as -> <- _. rewrite Hr in Hr0. injection Hr0 as <-. by eapply Hnew.
Qed.
(** A promise is made of the result, and the promise of the reaction becomes
    that. *)
Lemma made_resolved w (r : reaction fn) res : well w -> known_result w res ->
  let '(w1, q) := made res w in
  let w2 := resolve (derived r) (Ref q) w1 in
  extends w w2 /\ calls w2 = calls w /\ forall A, below A w -> counts A w -> counts A w2.
Proof.
  intros Hw Hk. destruct (made_goes w res Hk) as [[Ha Hm] _]. pose proof (calls_made res w) as Hq. destruct (made res w) as [w1 q]. cbn [fst] in *.
  destruct (resolve_same (derived r) (Ref q) w1) as (E2 & Hq2 & Ea2). split; [by eapply extends_trans; [apply apis_extends|]|].
  split; [by rewrite Hq2|]. intros A Hb Hc. apply (counts_extends A w1); [by eapply apis_well|done|done|by apply Hm].
Qed.
Lemma answers_deliver t o w : sound w -> known_outcome w o -> (forall r h, reactions w !! t = Some r -> fn_of r h -> fn_fine w h) ->
  answers w -> answers (deliver inv_ t o w).
Proof.
  intros S Ho Hf [Hc Hrj]. unfold deliver. destruct (reactions w !! t) as [r|] eqn:Hr; [|done]. destruct (done_ r); [done|].
  pose proof (set_done_grows t r w Hr) as G1. pose proof (set_done_well t r w Hr (sound_well _ S)) as Hw1.
  pose proof (set_done_extends t r w Hr) as E1. pose proof (below_extends _ _ _ E1 (answered_below w S)) as Hb1.
  assert (Hc1 : counts (answered w) (set_done t r w)) by (eapply counts_extends; [by apply sound_well|exact E1|done|done]).
  assert (Hf1 : forall h, fn_of r h -> fn_fine (set_done t r w) h) by (intros h Hh; eapply fn_fine_more; [exact G1|by eapply Hf]).
  pose proof (known_outcome_more _ _ _ G1 Ho) as Ho1. assert (Hr1 : exists r0, reactions (set_done t r w) !! t = Some r0 /\ on_fulfilled r0 = on_fulfilled r).
  { destruct (ext_reactions _ _ E1 t r Hr) as (r0 & Hr0 & E0 & _). by exists r0. }
  assert (Hk1 : calls (set_done t r w) = calls w) by done. set (w1 := set_done t r w) in *. clearbody w1.
  destruct (handle_after (answered w) t r o w1) as [Hc2 Hr2]; [done..|].
  assert (Hh : rtc api w1 (handle inv_ r o w1).1 /\ known_result (handle inv_ r o w1).1 (handle inv_ r o w1).2).
  { apply handle_api; [|done|done|done]. intros f args w' Hf' Ha' Hw'. destruct (invoke_goes f args w' Hf' Ha' Hw') as [[? _] ?]. by split. }
  destruct (handle inv_ r o w1) as [w2 res]. cbn [fst snd] in *. destruct Hh as [Ha2 Hk2]. pose proof (apis_extends _ _ Ha2) as E2.
  assert (Hb2 : below (after (answered w) t o) w2).
  { eapply below_extends; [exact E2|]. intros t' [Ht'|Ht']; [by apply Hb1|]. destruct o; [subst t'|done]. by destruct Hr1 as (r0 & Hr0 & _); exists r0. }
  pose proof (made_resolved w2 r res (apis_well _ _ Ha2 Hw1) Hk2) as H3. destruct (made res w2) as [w3 q]. destruct H3 as (E3 & Hq3 & H3).
  apply (answers_log w _ t r); [done| |done|rewrite Hq3, (apis_calls _ _ Ha2); done|by apply H3|done|].
  - eapply extends_trans; [exact E1|by eapply extends_trans].
  - intros d e Eo Ej. destruct (sound_reject _ S t r d Hr Ej) as [Hd _].
    eapply (not_pending_stay w2); [by apply (ext_stay _ _ E3)| |by eapply Hr2]. pose proof (more_ids _ _ G1). pose proof (more_ids _ _ (apis_grows _ _ Ha2)). lia.
Qed.

(** Using promises, and then a change that calls nothing. *)
Lemma answers_then w w1 w2 : sound w -> acts w w1 -> extends w1 w2 -> calls w2 = calls w1 -> alls (store w2) = alls (store w1) -> answers w -> answers w2.
Proof.
  intros S [Hr Ha] E Ec Es [Hc Hrj]. pose proof (apis_extends _ _ Hr) as E1. assert (E2 : extends w w2) by by eapply extends_trans.
  apply (answers_extends w); [done|done|rewrite Ec; by apply apis_calls| | |done].
  - intros t r'. by apply extends_back.
  - apply (counts_extends _ w1); [eapply apis_well; [exact Hr|by apply sound_well]|done|done|]. apply Ha; [by apply sound_well|by apply answered_below|done].
Qed.
Lemma answers_answer p d op o w : sound w -> cells w !! p = Some (Settled o) -> known_op w op -> answers w -> answers (answer perf_ p d op o w).
Proof.
  intros S Hp Hop. pose proof (well_settled _ (sound_well _ S) p o Hp) as Ho. destruct o as [v|e]; cbn [answer].
  - destruct (perform_goes op v w Hop Ho (sound_well _ S)) as [Hact Hk]. destruct (perf_ op v w) as [w1 res]. cbn [fst snd] in *.
    destruct (made_goes w1 res Hk) as [Hm _]. destruct (made res w1) as [w2 q]. cbn [fst] in Hm. destruct (resolve_same d (Ref q) w2) as (E & Hq & Hs).
    apply (answers_then w w2); [done|by eapply acts_trans|done|done|done].
  - destruct (resolve_same d (Ref p) w) as (E & Hq & Hs). by apply answers_same.
Qed.
Lemma answers_dispatch p m w : sound w -> (forall t r h, m = When t -> reactions w !! t = Some r -> fn_of r h -> fn_fine w h) ->
  (forall d op, m = Op d op -> known_op w op) -> answers w -> answers (promiseDispatch inv_ perf_ p m w).
Proof.
  intros S Hf Hm Ha. pose proof (answers_hold p m w S Ha) as Hh. unfold promiseDispatch. destruct (cells w !! p) as [[ms ls|q|o]|] eqn:Hp; try exact Hh.
  pose proof (well_settled _ (sound_well _ S) p o Hp) as Ho. destruct m as [t|t|d op]; [|exact Hh|].
  - apply answers_deliver; [done|done|intros r h; by apply Hf|done].
  - apply answers_answer; [done|done|by eapply Hm|done].
Qed.
Lemma answers_caught w wr : sound w -> acts w wr.1 -> answers w -> answers (caught wr).
Proof.
  intros S Hr Ha. unfold caught. destruct wr.2; [by eapply answers_acts|].
  apply (answers_then w wr.1); [done|done|apply same_extends; [done|by apply stay_refl]|done|done|done].
Qed.
Lemma answers_progressed t v w : sound w -> known w v -> (forall r h, reactions w !! t = Some r -> fn_of r h -> fn_fine w h) ->
  answers w -> answers (progressed inv_ t v w).
Proof.
  intros S Hv Hf Ha. unfold progressed. destruct (reactions w !! t) as [r|] eqn:Hr; [|done].
  assert (Hact : acts w (run_opt inv_ (on_progress r) v (Return v) w).1).
  { unfold run_opt. destruct (on_progress r) as [f|] eqn:Ef; [|apply acts_refl]. apply invoke_goes; [|by apply Forall_singleton|by apply sound_well].
    apply (Hf r f eq_refl). by right; right. }
  destruct (run_opt inv_ (on_progress r) v (Return v) w) as [w1 [u|e]]; cbn [fst] in Hact.
  - apply (answers_then w w1); [done|done|apply same_extends; [apply reactions_notify|apply stay_notify]| | |done].
    + unfold notify. by destruct (cells w1 !! derived r) as [[ms ls| |]|].
    + by rewrite store_notify.
  - apply (answers_then w w1); [done|done|apply same_extends; [done|by apply stay_refl]|done|done|done].
Qed.

Lemma q_invoke_api f args w : fn_ok w f -> Forall (known w) args -> well w -> rtc api w (inv_ f args w).1 /\ known_result (inv_ f args w).1 (inv_ f args w).2.
Proof. intros Hf Ha Hw. destruct (invoke_goes f args w Hf Ha Hw) as [[Hr _] Hk]. by split. Qed.
Lemma q_perform_api op v w : known_op w op -> known w v -> well w -> rtc api w (perf_ op v w).1 /\ known_result (perf_ op v w).1 (perf_ op v w).2.
Proof. intros Ho Hv Hw. destruct (perform_goes op v w Ho Hv Hw) as [[Hr _] Hk]. by split. Qed.

Lemma answers_tick w w' : inv None None None w -> tick inv_ perf_ w = Some w' -> answers w -> answers w'.
Proof.
  intros I Htick Ha. unfold tick in Htick. destruct (tasks w) as [|ts rest] eqn:E; [done|]. injection Htick as <-.
  assert (Hhead : ts ∈ tasks w) by (rewrite E; by left). assert (G : grows w (with_tasks rest w)) by by apply same_grows.
  destruct (rest_moving ts rest w I E) as [moving I0]. pose proof (sound_inv _ _ _ _ I0) as S0.
  assert (Ha0 : answers (with_tasks rest w)) by exact Ha. set (w0 := with_tasks rest w) in *.
  assert (Hfn : forall t r h, reactions w0 !! t = Some r -> fn_of r h -> fn_fine w0 h).
  { intros t r h Hr Hh. exact (mentioned _ _ _ _ I0 (IFn h) (in_reaction w0 t r h Hr Hh)). }
  assert (Hop : forall p d op, ts = Dispatch p (Op d op) -> known_op w0 op).
  { intros p d op ->. apply (known_op_more w); [done|]. eapply (mentioned _ _ _ _ I (IOp d op)). by eapply in_dispatch. }
  destruct ts as [t|p m|t v|f args]; cbn [run_task].
  - destruct (reactions w0 !! t) as [r|] eqn:Hr; [|done]. apply answers_dispatch; [done| |done|done]. intros t' r' h [= <-]. by apply Hfn.
  - apply answers_dispatch; [done|intros t r h _; by apply Hfn|intros d op ->; by eapply Hop|done].
  - apply answers_progressed; [done| |intros r h; by apply Hfn|done]. apply (known_more w); [done|]. eapply (mentioned _ _ _ _ I (IVal v)). by eapply in_listen.
  - apply (answers_caught w0); [done| |done]. apply invoke_goes; [| |by apply sound_well].
    + apply (fn_ok_more w); [done|]. apply (mentioned _ _ _ _ I (IFn f)). by eapply in_call.
    + apply Forall_forall. intros v Hv. apply (known_more w); [done|]. apply (mentioned _ _ _ _ I (IVal v)). by eapply in_args.
Qed.
Definition start_world : W := empty no_memory.
Lemma q_reached w : rtc q_step start_world w -> rtc (step inv_ perf_) start_world w /\ inv None None None w /\ answers w.
Proof.
  intros Hw. assert (Hs : forall a b, rtc q_step a b -> inv None None None a -> answers a -> rtc (step inv_ perf_) a b /\ inv None None None b /\ answers b).
  { clear w Hw. induction 1 as [|a b c Hab _ IH]; [by split; [apply rtc_refl|]|]. intros I Ha. pose proof (sound_inv _ _ _ _ I) as S.
    destruct Hab as [a b Hab Es|a b Hab].
    - destruct IH as (H1 & H2 & H3); [by eapply inv_api|by eapply answers_acts; [|by apply acts_one|]|].
      split; [by eapply rtc_l; [apply step_api|]|done].
    - destruct IH as (H1 & H2 & H3); [|by eapply answers_tick|split; [by eapply rtc_l; [apply step_tick|]|done]].
      eapply inv_tick; [exact q_invoke_api|exact q_perform_api|exact I|exact Hab]. }
  apply Hs; [done| |].
  - apply inv_empty. repeat split; constructor.
  - split; [by intros k c Hk|]. intros t r d e q Hr. done.
Qed.

(** C31. An array of promises is answered: when no task is left, a call of
    [all] whose loop came to its end, and which waits for promises that are all
    fulfilled, or for one that is rejected, has settled the promise it
    returned: it is no longer pending.  The code of the page may do what it
    likes with promises and arrays, as long as it has no hands on the variables
    of [all]. *)
Theorem all_answered w k c : rtc q_step start_world w -> tasks w = [] ->
  alls (store w) !! k = Some c -> ready c = true -> writable (promises c) = true ->
  (forall t r, reactions w !! t = Some r -> awaited k (deferred c) r -> exists v, shows w (self r) (Fulfilled v)) \/
  (exists t r e, reactions w !! t = Some r /\ awaited k (deferred c) r /\ shows w (self r) (Rejected e)) ->
  ~ pending w (deferred c).
Proof.
  intros (Hst & I & Hc & Hrj)%q_reached Ht Hk Hrd Hwr Hw.
  destruct (reactions_run_once inv_ perf_ q_invoke_api q_perform_api no_memory w) as (_ & _ & Hall); [repeat split; constructor|done|].
  destruct Hw as [Hw|(t & r & e & Hr & [_ Hj] & Hsh)].
  - destruct (Hc k c Hk Hwr) as [H1 (ts & [_ Hts] & Hl)]. apply H1; [done|]. destruct ts as [|t ts]; [done|]. exfalso.
    destruct (Hts t) as (Hna & r & Hr & Haw); [by left|]. destruct (Hw t r Hr Haw) as [v Hv]. destruct (Hall Ht t r _ Hr Hv) as [q Hq].
    apply Hna. by exists v, q.
  - destruct (Hall Ht t r _ Hr Hsh) as [q Hq]. by eapply Hrj.
Qed.
End laws.

(** ** A page that does nothing else *)

Definition waiting_world : W := (all (Arr 0) (new_array [num 7; Ref 0] (defer start_)).1).1.
Definition answered_world : W := run_ 40 (fulfill 0 (num 8) (run_ 40 waiting_world)).
Abbreviation q_step_ := (q_step no_user no_op no_generator ends_at_once).
Lemma flush_reached n : forall w : W, rtc q_step_ w (run_ n w).
Proof.
  induction n as [|n IH]; intros w; cbn [flush]; [apply rtc_refl|].
  destruct (tick (invoke no_user no_generator ends_at_once) (perform no_user no_op no_generator ends_at_once) w) as [w'|] eqn:E; [|apply rtc_refl].
  eapply rtc_l; [by apply q_tick|apply IH].
Qed.
Lemma answered_reached : rtc q_step_ start_world answered_world.
Proof.
  eapply rtc_l; [apply q_page; [apply api_defer|done]|].
  eapply rtc_l; [apply (q_page _ _ _ _ _ (new_array [num 7; Ref 0] (defer start_)).1); [|done]|].
  { apply api_store. split; [|repeat split; constructor]. apply Forall_singleton. repeat constructor. }
  set (w := (new_array [num 7; Ref 0] (defer start_)).1). eapply rtc_l; [apply (q_page _ _ _ _ _ (as_promise (Arr 0) w).1); [|done]|].
  { by apply (api_settled w (Fulfilled (Arr 0))). }
  eapply rtc_l; [apply (q_page _ _ _ _ _ waiting_world); [|done]|].
  { apply (api_then _ 1 (Some AllStart) None None); [cbn; lia|by apply fns_all]. }
  etrans; [apply (flush_reached 40)|]. eapply rtc_l; [apply (q_page _ _ _ _ _ (fulfill 0 (num 8) (run_ 40 waiting_world)))|apply flush_reached].
  - apply api_settle; [|done]. assert (E : forallb (fun r => negb (derived r =? 0)%nat) (reactions (run_ 40 waiting_world)) = true) by by vm_compute.
    intros r Hr E0. rewrite forallb_forall in E. apply list_elem_of_In in Hr. apply E in Hr. by rewrite E0 in Hr.
  - unfold fulfill. by rewrite store_settle.
Qed.
Lemma no_user_page f this args w : well w -> known w this -> Forall (known w) args -> page_goes w (no_user f this args w) known_result.
Proof. intros _ _ _. by split; [apply rtc_refl|]. Qed.
Lemma no_op_page op v w : well w -> known_op w op -> known w v -> page_goes w (no_op op v w) known_result.
Proof. intros _ _ _. by split; [apply rtc_refl|]. Qed.
Lemma no_generator_page f this args w : well w -> known w this -> Forall (known w) args ->
  page_goes w (no_generator f this args w) (fun w r => match r with inl _ => True | inr e => known w e end).
Proof. intros _ _ _. by split; [apply rtc_refl|]. Qed.
Lemma ends_page g throw v w : well w -> known w v ->
  page_goes w (ends_at_once g throw v w) (fun w r => match r with inl (_, v) => known w v | inr e => known w e end).
Proof. intros _ Hv. split; [apply rtc_refl|]. by destruct throw. Qed.
Lemma all_answered_witness : ~ pending answered_world 3.
Proof.
  apply (all_answered no_user no_op no_generator ends_at_once no_user_page no_op_page no_generator_page ends_page answered_world 0 (Counter (Arr 0) 3 0 true));
    [apply answered_reached|by vm_compute..|].
  left. intros t r Hr _. assert (E : reactions answered_world =
    [Reaction 1 (Some AllStart) None None 2 true; Reaction 4 (Some (AllOne 0 0)) (Some (RejectOf 3)) (Some (Index 3 0)) 5 true;
     Reaction 0 (Some (AllOne 0 1)) (Some (RejectOf 3)) (Some (Index 3 1)) 6 true]) by by vm_compute.
  rewrite E in Hr. destruct t as [|[|[|t]]]; cbn in Hr; [| | |discriminate Hr]; injection Hr as <-; cbn [self].
  - exists (Arr 0), 1%nat. split; [apply reaches_self|by vm_compute].
  - exists (num 7), 4%nat. split; [apply reaches_self|by vm_compute].
  - exists (num 8), 8%nat. split; [apply (reaches_next _ 0 8 8); [by vm_compute|apply reaches_self]|by vm_compute].
Defined.
