(* ===== verification/SchemaMarkup.v ===== *)
(** * Samples and signatures of schemas

    [lib/schema-markup] of the client in swagger-ui.js and the copy of it in
    [SwaggerUi.partials.signature]: the JSON sample of a schema and its
    signature in HTML.  The copies differ at two places in the HTML and in
    strictness, told apart by [ui].  Models are objects with a [name] and a [definition], known
    by name in a table. *)

From Stdlib Require Import String.
From S2P Require Import Prelude JsNumber JsString JsValue Helpers.

Definition quote : jsstr := [34].
(** Text with the quotation marks written as grave accents. *)
Definition hq (s : String.string) : jsstr := (fun c => if c =? 96 then 34 else c) <$> js s.
Arguments hq s%_string.

(** [typeFromJsonSchema]. *)
Definition typeFromJsonSchema (type format : jsval) : jsval :=
  if eq_str type (js "integer") && eq_str format (js "int32") then vstr "integer"
  else if eq_str type (js "integer") && eq_str format (js "int64") then vstr "long"
  else if eq_str type (js "integer") && is_undef format then vstr "long"
  else if eq_str type (js "string") && eq_str format (js "date-time") then vstr "date-time"
  else if eq_str type (js "string") && eq_str format (js "date") then vstr "date"
  else if eq_str type (js "number") && eq_str format (js "float") then vstr "float"
  else if eq_str type (js "number") && eq_str format (js "double") then vstr "double"
  else if eq_str type (js "number") && is_undef format then vstr "double"
  else if eq_str type (js "boolean") then vstr "boolean"
  else if eq_str type (js "string") then vstr "string"
  else VUndef.

(** [getStringSignature]; the fuel is the nesting of the value. *)
Fixpoint getStringSignature_fuel (n : nat) (v : jsval) (baseComponent : bool) : res jsstr :=
  match n with
  | O => Throw Unsupported
  | S n' =>
      ref ← prop v (js "$ref");
      type ← prop v (js "type");
      format ← prop v (js "format");
      items ← prop v (js "items");
      if negb (is_undef ref) then r ← simpleRef ref; Ok (to_str r)
      else if is_undef type then Ok (js "object")
      else if eq_str type (js "array") then
        inner ← getStringSignature_fuel n' (js_orv items (js_orv ref (VObj []))) false;
        Ok (if baseComponent then inner else js "Array[" ++ inner ++ js "]")
      else if eq_str type (js "integer") && eq_str format (js "int32") then Ok (js "integer")
      else if eq_str type (js "integer") && eq_str format (js "int64") then Ok (js "long")
      else if eq_str type (js "integer") && is_undef format then Ok (js "long")
      else if eq_str type (js "string") && eq_str format (js "date-time") then Ok (js "date-time")
      else if eq_str type (js "string") && eq_str format (js "date") then Ok (js "date")
      else if eq_str type (js "string") && is_undef format then Ok (js "string")
      else if eq_str type (js "number") && eq_str format (js "float") then Ok (js "float")
      else if eq_str type (js "number") && eq_str format (js "double") then Ok (js "double")
      else if eq_str type (js "number") && is_undef format then Ok (js "double")
      else if eq_str type (js "boolean") then Ok (js "boolean")
      else Ok (to_str type)
  end.
Definition getStringSignature (v : jsval) (baseComponent : bool) : res jsstr :=
  getStringSignature_fuel (S (S (vdepth v))) v baseComponent.

(** The type of a schema. *)
Definition type_of (schema : jsval) : res jsval := type ← prop schema (js "type"); Ok (js_orv type (vstr "object")).

(** [cProperty.default = v] on a copy of a property.  On a primitive value
    this throws in the client, which is strict code, and does nothing in the
    copy.  What else an array or a function has is not read. *)
Definition set_default (ui : bool) (property v : jsval) : res jsval :=
  match property with
  | VObj o => Ok (VObj (put (js "default") v o))
  | VArr _ | VHost _ _ => Ok (VObj [(js "default", v)])
  | VUndef | VNull => Throw TypeError
  | _ => if ui then Ok property else Throw TypeError
  end.

(** The macro the code uses when it was given none. *)
Definition default_macro (property : jsval) : res jsval := prop (js_orv property (VObj [])) (js "default").

Section markup.
(** The text of the date and time now, which copy of the code, the models and
    the macro. *)
Context (now : jsstr) (ui : bool) (models : obj) (modelPropertyMacro : jsval -> res jsval).

Definition find_model (ref : jsval) : res jsval := r ← simpleRef ref; Ok (get models (to_str r)).

(** What the schema declares as its value: an example, or the first of an
    enumeration. *)
Definition declared_example (schema : jsval) : res jsval :=
  example ← prop schema (js "example");
  items ← prop schema (js "items");
  enum ← prop schema (js "enum");
  Ok (if negb (is_undef example) then example
      else match enum with
           | VArr (v :: _) => if is_undef items then v else VUndef
           | _ => VUndef
           end).

(** The samples of the primitive types. *)
Definition primitive_sample (type format : jsval) : jsval :=
  if eq_str type (js "string") then
    if eq_str format (js "date-time") then VStr now
    else if eq_str format (js "date") then VStr (List.hd [] (split now (js "T")))
    else vstr "string"
  else if eq_str type (js "integer") then vint 0
  else if eq_str type (js "number") then vint 0
  else if eq_str type (js "boolean") then VBool true
  else VUndef.

(** [schemaToJSON].  [modelsToIgnore] are the names of the models whose
    samples are being made. *)
Fixpoint schemaToJSON_fuel (n : nat) (modelsToIgnore : list jsstr) (schema : jsval) : res jsval :=
  match n with
  | O => Throw Unsupported
  | S n' =>
      schema ← resolveSchema schema;
      type ← type_of schema;
      format ← prop schema (js "format");
      output ← declared_example schema;
      if negb (is_undef output) then Ok output
      else
        ref ← prop schema (js "$ref");
        default_ ← prop schema (js "default");
        items ← prop schema (js "items");
        properties ← prop schema (js "properties");
        if truthy ref then
          model ← find_model ref;
          if is_undef model then Ok VUndef
          else
            name ← prop model (js "name");
            if bool_decide (to_str name ∈ modelsToIgnore) then
              mtype ← prop model (js "type");
              Ok (if eq_str mtype (js "array") then VArr [] else VObj [])
            else
              definition ← prop model (js "definition");
              schemaToJSON_fuel n' (to_str name :: modelsToIgnore) definition
        else if negb (is_undef default_) then Ok default_
        else if eq_str type (js "object") then
          o ← foldM_res (fun o '(name, property) =>
                d ← modelPropertyMacro property;
                cProperty ← set_default ui property d;
                v ← schemaToJSON_fuel n' modelsToIgnore cProperty;
                Ok (put name v o)) [] (for_in_val properties);
          Ok (VObj o)
        else if eq_str type (js "array") then
          match items with
          | VArr l => vs ← mapM_res (schemaToJSON_fuel n' modelsToIgnore) l; Ok (VArr vs)
          | VObj _ => v ← schemaToJSON_fuel n' modelsToIgnore items; Ok (VArr [v])
          | VUndef => Ok (VArr [VObj []])
          | _ => Ok (VArr [])
          end
        else Ok (primitive_sample type format)
  end.

(** How deep the calls go: through a schema, or into a model. *)
Definition calls_bound (schema : jsval) : nat := S (vdepth schema + length models * S (vdepth (VObj models))).
Definition schemaToJSON (modelsToIgnore : list jsstr) (schema : jsval) : res jsval :=
  schemaToJSON_fuel (calls_bound schema) modelsToIgnore schema.

(** ** HTML *)

Definition strongOpen := hq "<span class=`strong`>".
Definition strongClose := js "</span>".

(** The variables of a call. *)
Record markup := Markup {
  references : obj;
  seenModels : list jsval;
  inlineModels : Z
}.
Abbreviation M := (ST markup).

(** [addReference]. *)
Definition addReference (schema name skipRef : jsval) : M jsval :=
  ref ← lift (prop schema (js "$ref"));
  title ← lift (prop schema (js "title"));
  '(modelName, model) ← (if truthy ref then
                           r ← lift (simpleRef ref);
                           let modelName := js_orv title r in
                           mret (modelName, get models (to_str (if ui then r else modelName)))
                         else if is_undef name then
                           if truthy title then mret (title, VObj [(js "definition", schema)])
                           else
                             modify (fun s => Markup (references s) (seenModels s) (inlineModels s + 1));;
                             n ← gets inlineModels;
                             mret (VStr (js "Inline Model " ++ Z_to_str n), VObj [(js "definition", schema)])
                         else mret (name, VUndef));
  (if eq_true skipRef then mret tt
   else
     definition ← (if is_undef model then mret (VObj []) else lift (prop model (js "definition")));
     modify (fun s => Markup (put (to_str modelName) definition (references s)) (seenModels s) (inlineModels s)));;
  mret modelName.

(** The text of the elements of an array joined. *)
Definition join_vals (sep : jsstr) (l : list jsval) : jsstr :=
  join sep ((fun v => if is_nullish v then [] else to_str v) <$> l).
Definition join_prop (sep : jsstr) (v : jsval) : res jsstr :=
  match v with VArr l => Ok (join_vals sep l) | _ => Throw TypeError end.

Fixpoint mapM_st {A B} (f : A -> M B) (l : list A) : M (list B) :=
  match l with
  | [] => mret []
  | x :: l' => y ← f x; ys ← mapM_st f l'; mret (y :: ys)
  end.

Definition array_or_object (type : jsval) : bool := eq_str type (js "array") || eq_str type (js "object").

(** [primitiveToHTML]. *)
Definition primitiveToHTML (schema : jsval) : M jsstr :=
  type ← lift (type_of schema);
  ref ← lift (prop schema (js "$ref"));
  items ← lift (prop schema (js "items"));
  inner ← (if truthy ref then
             r ← lift (simpleRef ref); n ← addReference schema r VUndef; mret (to_str n)
           else if eq_str type (js "object") then
             properties ← lift (prop schema (js "properties"));
             if negb (is_undef properties) then n ← addReference schema VUndef VUndef; mret (to_str n)
             else mret (js "object")
           else if eq_str type (js "array") then
             text ← (match items with
                     | VArr l =>
                         ns ← mapM_st (fun '(i, item) => addReference item (vint i) (VArr l))
                                (imap (fun i item => (Z.of_nat i, item)) l);
                         mret (join_vals (js ",") ns)
                     | VObj _ =>
                         iref ← lift (prop items (js "$ref"));
                         itype ← lift (prop items (js "type"));
                         if is_undef iref then
                           if negb (is_undef itype) && negb (array_or_object itype) then mret (to_str itype)
                           else n ← addReference items VUndef VUndef; mret (to_str n)
                         else r ← lift (simpleRef iref); n ← addReference items r VUndef; mret (to_str n)
                     | _ => mret (js "object")
                     end);
             mret (js "Array[" ++ text ++ js "]")
           else mret (to_str type));
  mret (hq "<span class=`propType`>" ++ inner ++ js "</span>").

(** The row of an option, when the schema has it; [shown] is what it shows. *)
Definition option_row (schema : jsval) (key : jsstr) (label : jsstr) (shown : option jsstr) : res jsstr :=
  v ← prop schema key;
  Ok (if truthy v then optionHtml label (default (to_str v) shown) else []).

Definition default_row (schema : jsval) : res jsstr :=
  d ← prop schema (js "default");
  Ok (if is_undef d then [] else optionHtml (js "Default") (to_str d)).

(** The options of a type. *)
Definition type_rows (schema type : jsval) : res (list jsstr) :=
  if eq_str type (js "string") then
    mapM_res (fun '(k, l, s) => option_row schema k l s)
      [(js "minLength", js "Min. Length", None); (js "maxLength", js "Max. Length", None);
       (js "pattern", js "Reg. Exp.", None)]
  else if eq_str type (js "integer") || eq_str type (js "number") then
    mapM_res (fun '(k, l, s) => option_row schema k l s)
      [(js "minimum", js "Min. Value", None); (js "exclusiveMinimum", js "Exclusive Min.", Some (js "true"));
       (js "maximum", js "Max. Value", None); (js "exclusiveMaximum", js "Exclusive Max.", Some (js "true"));
       (js "multipleOf", js "Multiple Of", None)]
  else Ok [].

Definition array_rows (schema : jsval) : res (list jsstr) :=
  mapM_res (fun '(k, l, s) => option_row schema k l s)
    [(js "minItems", js "Min. Items", None); (js "maxItems", js "Max. Items", None);
     (js "uniqueItems", js "Unique Items", Some (js "true")); (js "collectionFormat", js "Coll. Format", None)].

Definition enum_row (schema type : jsval) : res jsstr :=
  items ← prop schema (js "items");
  enum ← prop schema (js "enum");
  Ok (match enum with
      | VArr l =>
          if is_undef items then
            optionHtml (js "Enum")
              (if eq_str type (js "number") || eq_str type (js "integer") then join_vals (js ", ") l
               else quote ++ join_vals (hq "`, `") l ++ quote)
          else []
      | _ => []
      end).

(** The values of an enumeration, in brackets. *)
Definition prop_vals (schema : jsval) : res jsstr :=
  enum ← prop schema (js "enum");
  if truthy enum then
    text ← join_prop (js "', '") enum;
    Ok (hq " = <span class=`propVals`>['" ++ text ++ js "']</span>")
  else Ok [].

Definition prop_desc (description : jsval) : jsstr :=
  if is_undef description then [] else hq ": <span class=`propDesc`>" ++ to_str description ++ js "</span>".

(** [primitiveToOptionsHTML]. *)
Definition primitiveToOptionsHTML (schema : jsval) (html : jsstr) : res jsstr :=
  type ← type_of schema;
  let isArray := eq_str type (js "array") in
  html ← (if ui then
            description ← prop schema (js "description");
            vals ← prop_vals schema;
            Ok (html ++ prop_desc description ++ vals)
          else Ok html);
  type ← (if isArray then
            items ← prop schema (js "items");
            if is_plain items then t ← prop items (js "type"); Ok (if is_undef t then vstr "object" else t)
            else Ok (vstr "object")
          else Ok type);
  d ← default_row schema;
  rows ← type_rows schema type;
  arows ← (if isArray then array_rows schema else Ok []);
  erow ← enum_row schema type;
  let options := d ++ List.concat rows ++ List.concat arows ++ erow in
  Ok (match options with
      | [] => html
      | _ => hq "<span class=`propWrap`>" ++ html ++ hq "<table class=`optionsWrapper`><tr><th colspan=`2`>" ++
             to_str type ++ js "</th></tr>" ++ options ++ js "</table></span>"
      end).

(** [_.indexOf(schema.required, name) >= 0]. *)
Definition is_required (required : jsval) (name : jsstr) : bool :=
  match required with
  | VArr l => List.existsb (fun v => eq_str v name) l
  | VStr s => List.existsb (fun c => bool_decide ([c] = name)) s
  | _ => false
  end.

(** A property of a model. *)
Definition property_html (required : jsval) (name : jsstr) (property : jsval) : M jsstr :=
  let propertyIsRequired := is_required required name in
  d ← lift (modelPropertyMacro property);
  cProperty ← lift (set_default ui property d);
  cProperty ← lift (resolveSchema cProperty);
  description ← lift (prop property (js "description"));
  cdescription ← lift (prop cProperty (js "description"));
  ref ← lift (prop cProperty (js "$ref"));
  cProperty ← lift (if is_undef ref then Ok cProperty
                    else
                      model ← find_model ref;
                      if is_undef model then Ok cProperty
                      else
                        definition ← prop model (js "definition");
                        mtype ← prop definition (js "type");
                        if is_undef mtype || array_or_object mtype then Ok cProperty
                        else resolveSchema definition);
  p ← primitiveToHTML cProperty;
  readOnly ← lift (prop property (js "readOnly"));
  let html := hq "<span class=`propName " ++ (if propertyIsRequired then js "required" else []) ++ hq "`>" ++
              name ++ js "</span> (" ++ p ++
              (if propertyIsRequired then [] else hq ", <span class=`propOptKey`>optional</span>") ++
              (if truthy readOnly then hq ", <span class=`propReadOnly`>read only</span>" else []) ++ js ")" in
  vals ← lift (if ui then Ok [] else prop_vals cProperty);
  let html := if ui then html else html ++ prop_desc (js_orv description cdescription) ++ vals in
  o ← lift (primitiveToOptionsHTML cProperty html);
  mret (js "<div" ++ (if truthy readOnly then hq " class=`readOnly`" else []) ++ js ">" ++ o).

(** An element of a list of items. *)
Definition tuple_item (item : jsval) : M jsval :=
  type ← lift (type_of item);
  ref ← lift (prop item (js "$ref"));
  properties ← lift (prop item (js "properties"));
  if is_undef ref then
    if array_or_object type then
      if eq_str type (js "object") && is_undef properties then mret (vstr "object")
      else addReference item VUndef VUndef
    else o ← lift (primitiveToOptionsHTML item (to_str type)); mret (VStr o)
  else r ← lift (simpleRef ref); addReference item r VUndef.

(** The single schema of all items. *)
Definition single_item (items : jsval) : M jsstr :=
  type ← lift (prop items (js "type"));
  ref ← lift (prop items (js "$ref"));
  properties ← lift (prop items (js "properties"));
  if is_undef ref then
    if array_or_object (js_orv type (vstr "object")) then
      if (is_undef type || eq_str type (js "object")) && is_undef properties then mret (js "object")
      else n ← addReference items VUndef VUndef; mret (to_str n)
    else lift (primitiveToOptionsHTML items (to_str type))
  else r ← lift (simpleRef ref); n ← addReference items r VUndef; mret (to_str n).

Definition div (inner : jsstr) : jsstr := js "<div>" ++ inner ++ js "</div>".

Definition array_html (items : jsval) : M jsstr :=
  match items with
  | VArr l => texts ← mapM_st tuple_item l; mret (js "<div>" ++ join_vals (js ",</div><div>") texts)
  | VObj _ => i ← single_item items; mret (div i)
  | _ => mret (div (js "object"))
  end.

Definition object_html (schema properties : jsval) : M jsstr :=
  match properties with
  | VObj o =>
      required ← lift (prop schema (js "required"));
      texts ← mapM_st (fun '(name, property) => property_html required name property) (for_in o);
      let contents := join (js ",</div>") texts in
      mret (match contents with [] => [] | _ => contents ++ js "</div>" end)
  | _ => mret []
  end.

(** [processModel]. *)
Definition processModel (schema name : jsval) : M jsstr :=
  type ← lift (type_of schema);
  stype ← lift (prop schema (js "type"));
  let isArray := eq_str stype (js "array") in
  (if truthy name then modify (fun s => Markup (references s) (seenModels s ++ [name]) (inlineModels s)) else mret tt);;
  items ← lift (prop schema (js "items"));
  ref ← lift (prop schema (js "$ref"));
  properties ← lift (prop schema (js "properties"));
  body ← (if isArray then array_html items
          else if truthy ref then n ← addReference schema name VUndef; mret (div (to_str n))
          else if eq_str type (js "object") then object_html schema properties
          else o ← lift (primitiveToOptionsHTML schema (to_str type)); mret (div o));
  mret (strongOpen ++ to_str name ++ js " " ++ (if isArray then js "[" else js "{") ++ strongClose ++ body ++
        strongOpen ++ (if isArray then js "]" else js "}") ++ strongClose).

(** A turn of the loop over the references: the keys are those at the
    beginning of the pass, the schema the one the key has at its turn. *)
Definition process_reference (html name : jsstr) : M jsstr :=
  schema ← gets (fun s => get (references s) name);
  seen ← gets (fun s => List.existsb (fun v => eq_str v name) (seenModels s));
  modify (fun s => Markup (remove name (references s)) (seenModels s) (inlineModels s));;
  if seen : bool then mret html
  else
    modify (fun s => Markup (references s) (seenModels s ++ [VStr name]) (inlineModels s));;
    h ← processModel schema (VStr name);
    mret (html ++ js "<br />" ++ h).
Fixpoint process_pass (html : jsstr) (names : list jsstr) : M jsstr :=
  match names with
  | [] => mret html
  | name :: names' => html ← process_reference html name; process_pass html names'
  end.
Fixpoint process_references (n : nat) (html : jsstr) : M jsstr :=
  names ← gets (fun s => (for_in (references s)).*1);
  match names with
  | [] => mret html
  | _ => match n with
         | O => lift (Throw Unsupported)
         | S n' => html ← process_pass html names; process_references n' html
         end
  end.

(** [_.isEmpty]. *)
Definition is_empty (v : jsval) : bool :=
  match v with VArr l => bool_decide (l = []) | VStr s => bool_decide (s = []) | VObj o => bool_decide (o = []) | _ => true end.

Definition markup_html (fuel : nat) (schema name : jsval) : res jsstr :=
  ((h ← processModel schema name; process_references fuel h) (Markup [] [] 0)).2.

(** [schemaToHTML] ([getModelSignature] of the copy); no name when the first
    argument is the schema. *)
Definition schemaToHTML (fuel : nat) (named : option jsval) (schema : jsval) : res jsstr :=
  schema ← resolveSchema schema;
  if is_empty schema then Ok (strongOpen ++ js "Empty" ++ strongClose)
  else
    ref ← prop schema (js "$ref");
    '(name, schema) ← (if is_string ref then
                         n ← simpleRef ref; Ok (n, get models (to_str n))
                       else Ok (default VUndef named, schema));
    if is_undef schema then Ok (strongOpen ++ to_str name ++ js " is not defined!" ++ strongClose)
    else
      title ← prop schema (js "title");
      let name := if is_string name then name else js_orv title (vstr "Inline Model") in
      definition ← prop schema (js "definition");
      markup_html fuel (if truthy definition then definition else schema) name.
End markup.

(** ** Samples end

    Nesting without the default of the top, which the calls replace. *)

Definition sdepth (v : jsval) : nat :=
  match v with VObj o => vdepth (VObj (remove (js "default") o)) | _ => vdepth v end.

Lemma vdepth_incl o1 o2 : (forall kv, kv ∈ o1 -> kv ∈ o2) -> (vdepth (VObj o1) <= vdepth (VObj o2))%nat.
Proof.
  intros H. cbn [vdepth]. apply le_n_S. induction o1 as [|[k v] o IH]; [apply Nat.le_0_l|].
  cbn [foldr snd]. apply Nat.max_lub; [|apply IH; intros kv Hkv; apply H; by right].
  specialize (H (k, v) ltac:(by left)). clear IH o. induction o2 as [|[k' v'] o2 IH]; [by apply not_elem_of_nil in H|].
  cbn [foldr snd]. apply elem_of_cons in H as [[= -> ->]|H]; [apply Nat.le_max_l|].
  etrans; [by apply IH|apply Nat.le_max_r].
Qed.

Lemma remove_sub {A} k (o : list (jsstr * A)) kv : kv ∈ remove k o -> kv ∈ o.
Proof. unfold remove. by intros [_ H]%list_elem_of_filter. Qed.
Lemma sdepth_le v : (sdepth v <= vdepth v)%nat.
Proof. destruct v; try done. apply vdepth_incl. intros kv. apply remove_sub. Qed.

Lemma remove_put {A} k v (o : list (jsstr * A)) : remove k (put k v o) = remove k o.
Proof.
  unfold remove. induction o as [|[k' v'] o IH]; cbn [put].
  - by rewrite filter_cons_False by (cbn; tauto).
  - case_bool_decide as Hk.
    + subst. rewrite !filter_cons_False by (cbn; tauto). done.
    + rewrite !filter_cons_True by done. by rewrite IH.
Qed.

Lemma prop_sdepth v k r :
  k <> js "default" -> prop v k = Ok r -> r = VUndef \/ (vdepth r < sdepth v)%nat.
Proof.
  intros Hk. destruct v as [| | | | | |o|]; cbn [prop]; intros H; simplify_eq; try by left.
  unfold get. destruct (assoc k o) as [r|] eqn:E; [right|by left]. cbn [default from_option].
  apply (vdepth_child k). rewrite assoc_remove_ne by done. done.
Qed.

Lemma vdepth_elem x l : x ∈ l -> (vdepth x < vdepth (VArr l))%nat.
Proof.
  intros H. cbn [vdepth]. apply Nat.lt_succ_r. induction l as [|y l IH]; [by apply not_elem_of_nil in H|].
  cbn [foldr]. apply elem_of_cons in H as [->|H]; [apply Nat.le_max_l|]. etrans; [by apply IH|apply Nat.le_max_r].
Qed.

Lemma vdepth_kv k v o : (k, v) ∈ o -> (vdepth v < vdepth (VObj o))%nat.
Proof.
  intros H. apply Nat.lt_le_trans with (vdepth (VObj [(k, v)])); [cbn; lia|].
  apply vdepth_incl. intros kv ->%list_elem_of_singleton. done.
Qed.

(** A property that is set a default, and the items of an array, are nested
    less deep than their schema. *)
Lemma set_default_sdepth ui properties name property d c :
  (name, property) ∈ for_in_val properties -> set_default ui property d = Ok c ->
  (sdepth c <= vdepth properties)%nat.
Proof.
  intros Hin Hc.
  assert (Hd : (S (vdepth property) <= vdepth properties)%nat \/ exists s, property = VStr s).
  { destruct properties as [| | | |s|l|o|]; cbn [for_in_val] in Hin; try by apply not_elem_of_nil in Hin.
    - right. unfold indexed in Hin. apply elem_of_lookup_imap in Hin as (i & x & [= _ ->] & Hx).
      apply list_lookup_fmap_Some in Hx as (y & -> & _). by exists [y].
    - left. unfold indexed in Hin. apply elem_of_lookup_imap in Hin as (i & x & [= _ ->] & Hx).
      apply vdepth_elem. by eapply list_elem_of_lookup_2.
    - left. rewrite for_in_elem in Hin. exact (vdepth_kv name property o Hin). }
  assert (Hone : sdepth (VObj [(js "default", d)]) = 1%nat).
  { unfold sdepth, remove. by rewrite filter_cons_False by (cbn; tauto). }
  destruct property; cbn [set_default] in Hc; try (destruct ui; [|done]); simplify_eq; try (cbn; lia);
    destruct Hd as [Hd|[s' Hd]]; try done.
  - rewrite Hone. lia.
  - unfold sdepth. rewrite remove_put. change (vdepth (VObj (remove (js "default") o))) with (sdepth (VObj o)).
    pose proof (sdepth_le (VObj o)). lia.
Qed.

Lemma resolve_sdepth n schema r : resolveSchema_fuel n schema = Ok r -> (sdepth r <= sdepth schema)%nat.
Proof.
  revert schema. induction n as [|n IH]; intros schema H; cbn [resolveSchema_fuel] in H;
    apply bind_ok in H as (inner & Ei & H); destruct (is_plain inner) eqn:Ep; simplify_eq; try done.
  apply IH in H. apply prop_sdepth in Ei as [->|Ei]; [done| |done].
  pose proof (sdepth_le inner). lia.
Qed.

Lemma not_fuel_mapM {A B} (f : A -> res B) l : (forall x, x ∈ l -> not_fuel (f x)) -> not_fuel (mapM_res f l).
Proof.
  induction l as [|x l IH]; intros H; cbn [mapM_res]; [done|].
  apply not_fuel_bind; [apply H; by left|]. intros y _.
  apply not_fuel_bind; [apply IH; intros z Hz; apply H; by right|done].
Qed.
Lemma not_fuel_foldM {A S} (f : S -> A -> res S) l : forall s, (forall s x, x ∈ l -> not_fuel (f s x)) -> not_fuel (foldM_res f s l).
Proof.
  induction l as [|x l IH]; intros s H; cbn [foldM_res]; [done|].
  apply not_fuel_bind; [apply H; by left|]. intros y _. apply IH. intros z w Hw. apply H. by right.
Qed.

Lemma resolveSchema_not_fuel n schema : not_fuel (resolveSchema_fuel n schema).
Proof.
  revert schema. induction n as [|n IH]; intros schema; cbn [resolveSchema_fuel]; (apply not_fuel_bind; [auto with js|]);
    intros inner _; by destruct (is_plain inner).
Qed.
Lemma set_default_not_fuel ui p d : not_fuel (set_default ui p d).
Proof. by destruct p, ui. Qed.
#[export] Hint Resolve simpleRef_not_fuel set_default_not_fuel : js.

Section samples.
Context (now : jsstr) (ui : bool) (models : obj) (modelPropertyMacro : jsval -> res jsval).
Hypothesis macro_ends : forall v, not_fuel (modelPropertyMacro v).

Definition model_name (m : jsval) : jsstr := match prop m (js "name") with Ok n => to_str n | Throw _ => [] end.

(** The models whose samples are not being made. *)
Definition left_models (ignored : list jsstr) : list (jsstr * jsval) := filter (fun km => model_name km.2 ∉ ignored) models.

Lemma left_models_le l (ignored : list jsstr) n :
  (length (filter (fun km : jsstr * jsval => model_name km.2 ∉ n :: ignored) l) <=
   length (filter (fun km : jsstr * jsval => model_name km.2 ∉ ignored) l))%nat.
Proof.
  induction l as [|km l IH]; [done|]. rewrite !filter_cons. repeat case_decide; cbn; try lia.
  exfalso. rewrite not_elem_of_cons in *. tauto.
Qed.
Lemma left_models_lt ignored k m :
  (k, m) ∈ models -> model_name m ∉ ignored ->
  (length (left_models (model_name m :: ignored)) < length (left_models ignored))%nat.
Proof.
  unfold left_models. intros Hin Hn. induction models as [|km l IH]; [by apply not_elem_of_nil in Hin|].
  rewrite !filter_cons. apply elem_of_cons in Hin as [<-|Hin].
  - rewrite decide_False by (rewrite not_elem_of_cons; tauto). rewrite decide_True by done. cbn [length].
    apply Nat.lt_succ_r, left_models_le.
  - specialize (IH Hin). pose proof (left_models_le l ignored (model_name m)).
    repeat case_decide; cbn; try lia. exfalso. rewrite not_elem_of_cons in *. tauto.
Qed.

Definition room (ignored : list jsstr) (schema : jsval) : nat :=
  sdepth schema + length (left_models ignored) * S (vdepth (VObj models)).

Lemma find_model_in ref m : find_model models ref = Ok m -> m = VUndef \/ exists k, (k, m) ∈ models.
Proof.
  intros (r & _ & [= <-])%bind_ok. unfold get. destruct (assoc (to_str r) models) as [m|] eqn:E; [right|by left].
  eexists. by apply assoc_some_in.
Qed.

Lemma schemaToJSON_enough n : forall ignored schema,
  (room ignored schema < n)%nat -> not_fuel (schemaToJSON_fuel now ui models modelPropertyMacro n ignored schema).
Proof using macro_ends.
  induction n as [|n IH]; intros ignored schema0 Hn; [lia|]. cbn [schemaToJSON_fuel].
  apply not_fuel_bind; [apply resolveSchema_not_fuel|]. intros schema Hs. apply resolve_sdepth in Hs.
  assert (Hr : (room ignored schema < S n)%nat) by (unfold room in *; lia). clear Hn Hs schema0.
  apply not_fuel_bind; [unfold type_of; by repeat fuel_step|]. intros type _.
  apply not_fuel_bind; [auto with js|]. intros format _.
  apply not_fuel_bind; [unfold declared_example; repeat fuel_step|]. intros output _.
  destruct (negb (is_undef output)); [done|].
  do 2 (apply not_fuel_bind; [auto with js|]; intros ? _).
  apply not_fuel_bind; [auto with js|]. intros items Ei. apply not_fuel_bind; [auto with js|]. intros properties Ep.
  apply prop_sdepth in Ei; [|done]. apply prop_sdepth in Ep; [|done]. destruct (truthy _).
  - apply not_fuel_bind; [unfold find_model; by repeat fuel_step|]. intros m Hm. apply find_model_in in Hm as [->|[k Hk]]; [done|].
    destruct (is_undef m); [done|]. apply not_fuel_bind; [auto with js|]. intros name En.
    case_bool_decide as Hi; [by repeat fuel_step|]. apply not_fuel_bind; [auto with js|]. intros d Ed. apply IH.
    assert (Emn : model_name m = to_str name) by (unfold model_name; by rewrite En). rewrite <- Emn in *.
    pose proof (left_models_lt ignored k m Hk Hi) as Hl. pose proof (vdepth_kv k m models Hk).
    assert (vdepth d <= vdepth m)%nat.
    { apply prop_sdepth in Ed as [->|Ed]; [cbn; lia| |done]. pose proof (sdepth_le m). lia. }
    pose proof (sdepth_le d). unfold room in *. nia.
  - destruct (negb (is_undef _)); [done|]. destruct (eq_str type (js "object")).
    + apply not_fuel_bind; [|done]. apply not_fuel_foldM. intros o [name property] Hin.
      apply not_fuel_bind; [apply macro_ends|]. intros d _. apply not_fuel_bind; [auto with js|]. intros c Hc.
      apply not_fuel_bind; [|done]. apply IH. pose proof (set_default_sdepth _ _ _ _ _ _ Hin Hc).
      destruct Ep as [->|Ep]; [by apply not_elem_of_nil in Hin|]. unfold room in *. lia.
    + destruct (eq_str type (js "array")); [|done]. destruct items as [| | | | |l|o|]; try done.
      * apply not_fuel_bind; [|done]. apply not_fuel_mapM. intros x Hx. apply IH.
        apply vdepth_elem in Hx. pose proof (sdepth_le x). destruct Ei as [?|Ei]; [done|]. unfold room in *. lia.
      * apply not_fuel_bind; [|done]. apply IH. pose proof (sdepth_le (VObj o)).
        destruct Ei as [?|Ei]; [done|]. unfold room in *. lia.
Qed.

(** Making a sample comes to an end, for models that refer to each other
    or to themselves in whatever way: the calls nest no deeper than the
    models one inside the other, each once. *)
Theorem schemaToJSON_ends ignored schema :
  schemaToJSON now ui models modelPropertyMacro ignored schema <> Throw Unsupported.
Proof using macro_ends.
  apply schemaToJSON_enough. unfold room, calls_bound. pose proof (sdepth_le schema).
  assert (length (left_models ignored) <= length models)%nat by apply length_filter. nia.
Qed.
End samples.

(** ** Samples have the type of their schema *)

(** A property that is read without an exception. *)
Definition field (v : jsval) (k : jsstr) : jsval := match prop v k with Ok r => r | Throw _ => VUndef end.

Section validity.
Context (models : obj).

(** What it means that a value has the type a schema gives, [n] references
    and levels deep: the primitive types, the properties an object has, the
    items of an array.  A reference means the definition of its model, and
    nothing when there is no such model. *)
Fixpoint valid (n : nat) (schema v : jsval) : Prop :=
  match n with
  | O => True
  | S n' =>
      exists s, resolveSchema schema = Ok s /\
      let type := js_orv (field s (js "type")) (vstr "object") in
      if truthy (field s (js "$ref")) then
        exists m, find_model models (field s (js "$ref")) = Ok m /\
                  (m = VUndef \/ valid n' (field m (js "definition")) v)
      else if eq_str type (js "string") then is_string v = true
      else if eq_str type (js "integer") then exists z, v = vint z
      else if eq_str type (js "number") then exists x, v = VNum x
      else if eq_str type (js "boolean") then exists b, v = VBool b
      else if eq_str type (js "object") then
        exists o, v = VObj o /\
          forall k p, (k, p) ∈ for_in_val (field s (js "properties")) -> has_key k o = true -> valid n' p (get o k)
      else if eq_str type (js "array") then
        exists l, v = VArr l /\
          match field s (js "items") with
          | VArr items => forall i p x, items !! i = Some p -> l !! i = Some x -> valid n' p x
          | VObj o => Forall (valid n' (VObj o)) l
          | _ => True
          end
      else True
  end.

Lemma field_put_default o d k : k <> js "default" -> field (VObj (put (js "default") d o)) k = field (VObj o) k.
Proof. intros H. unfold field. cbn [prop]. by rewrite get_put_ne. Qed.

(** The default plays no part. *)
Lemma resolve_default o d :
  (exists i, get o (js "schema") = VObj i /\
     resolveSchema (VObj (put (js "default") d o)) = resolveSchema (VObj i) /\ resolveSchema (VObj o) = resolveSchema (VObj i)) \/
  (resolveSchema (VObj (put (js "default") d o)) = Ok (VObj (put (js "default") d o)) /\ resolveSchema (VObj o) = Ok (VObj o)).
Proof.
  assert (Hstep : forall o, is_plain (get o (js "schema")) = true ->
            resolveSchema (VObj o) = resolveSchema_fuel (pred (vdepth (VObj o))) (get o (js "schema"))).
  { intros o' H. unfold resolveSchema at 1. cbn [vdepth pred resolveSchema_fuel prop mbind res_bind]. by rewrite H. }
  assert (Hstay : forall o, is_plain (get o (js "schema")) = false -> resolveSchema (VObj o) = Ok (VObj o)).
  { intros o' H. unfold resolveSchema. cbn [vdepth resolveSchema_fuel prop mbind res_bind]. by rewrite H. }
  assert (Hmono : forall n s, (vdepth s <= n)%nat -> resolveSchema_fuel n s = resolveSchema s).
  { intros n s. unfold resolveSchema. remember (vdepth s) as m eqn:Em. intros Hn.
    assert (Hs : (vdepth s <= m)%nat) by lia. clear Em. revert n s Hn Hs.
    induction m as [|m IH]; intros n s Hn Hs.
    - destruct s; cbn in Hs; try lia; by destruct n.
    - destruct n as [|n]; [lia|]. cbn [resolveSchema_fuel]. destruct (prop s (js "schema")) as [i|] eqn:Ei; [|done].
      cbn [mbind res_bind]. destruct (is_plain i) eqn:Ep; [|done].
      apply prop_sdepth in Ei as [->|Ei]; [done| |done]. pose proof (sdepth_le s). apply IH; lia. }
  destruct (is_plain (get o (js "schema"))) eqn:E.
  - left. destruct (get o (js "schema")) as [| | | | | |i|] eqn:Eg; try done. exists i. split; [done|].
    assert (Hd : forall o, get o (js "schema") = VObj i -> (vdepth (VObj i) <= pred (vdepth (VObj o)))%nat).
    { intros o' Ho. unfold get in Ho. destruct (assoc (js "schema") o') as [x|] eqn:Ea; [|done].
      cbn in Ho. subst x. apply vdepth_child in Ea. lia. }
    split.
    + rewrite Hstep by (rewrite get_put_ne by done; by rewrite Eg). rewrite get_put_ne by done. rewrite Eg.
      apply Hmono, Hd. rewrite get_put_ne by done. done.
    + rewrite Hstep by (by rewrite Eg). rewrite Eg. by apply Hmono, Hd.
  - right. split; apply Hstay; [by rewrite get_put_ne by done|done].
Qed.

Lemma valid_default ui n p d c v : set_default ui p d = Ok c -> valid n c v -> valid n p v.
Proof.
  destruct n as [|n]; [done|].
  assert (Hno : forall k, field (VObj [(js "default", d)]) k = if bool_decide (js "default" = k) then d else VUndef).
  { intros k. unfold field, get. cbn. by case_bool_decide. }
  destruct p as [| | | | |l|o|]; cbn [set_default]; try (destruct ui; congruence); try done; intros [= <-].
  - intros (s & Hs & H). exists (VArr l). split; [done|].
    assert (s = VObj [(js "default", d)]) as -> by (vm_compute in Hs |- *; congruence).
    rewrite !Hno in H. rewrite !bool_decide_eq_false_2 in H by done. exact H.
  - intros (s & Hs & H). destruct (resolve_default o d) as [(i & _ & E1 & E2)|[E1 E2]].
    + exists s. split; [congruence|done].
    + exists (VObj o). split; [done|]. assert (s = VObj (put (js "default") d o)) as -> by congruence.
      by rewrite !field_put_default in H by done.
  - intros (s & Hs & H). exists (VHost tag name). split; [done|].
    assert (s = VObj [(js "default", d)]) as -> by (vm_compute in Hs |- *; congruence).
    rewrite !Hno in H. rewrite !bool_decide_eq_false_2 in H by done. exact H.
Qed.

Lemma eq_str_other v s t : eq_str v s = true -> s <> t -> eq_str v t = false.
Proof. destruct v; try done. cbn. intros ->%bool_decide_eq_true H. by apply bool_decide_eq_false_2. Qed.

(** An object schema admits the empty object. *)
Lemma valid_empty n s r :
  resolveSchema s = Ok r -> truthy (field r (js "$ref")) = false ->
  eq_str (js_orv (field r (js "type")) (vstr "object")) (js "object") = true -> valid n s (VObj []).
Proof.
  destruct n as [|n]; [done|]. intros Hr Href Hty. exists r. split; [done|]. cbv zeta. rewrite Href.
  rewrite !(eq_str_other _ _ _ Hty) by (vm_compute; congruence). rewrite Hty. by exists [].
Qed.
End validity.

Lemma foldM_put {A} (g : obj -> jsstr * A -> res obj) (R : A -> jsval -> Prop) l : forall acc o,
  (forall acc k x o', (k, x) ∈ l -> g acc (k, x) = Ok o' -> exists v, R x v /\ o' = put k v acc) ->
  NoDup l.*1 -> foldM_res g acc l = Ok o ->
  (forall k x, (k, x) ∈ l -> R x (get o k)) /\ (forall k, k ∉ l.*1 -> assoc k o = assoc k acc).
Proof.
  induction l as [|[k x] l IH]; intros acc o Hg Hd H; cbn [foldM_res] in H.
  - simplify_eq. split; [|done]. intros k x Hx. by apply not_elem_of_nil in Hx.
  - apply bind_ok in H as (acc' & H1 & H). apply Hg in H1 as (v & Hv & ->); [|by left].
    cbn [fmap list_fmap fst] in Hd. apply NoDup_cons in Hd as [Hk Hd].
    destruct (IH (put k v acc) o) as [IH1 IH2]; [|done|done|].
    { intros a k' x' o' Hin. apply Hg. by right. }
    split.
    + intros k' x' [[= -> ->]|Hin]%elem_of_cons; [|by apply IH1].
      unfold get. rewrite IH2 by done. by rewrite assoc_put_eq.
    + intros k' Hk'. cbn [fmap list_fmap fst] in Hk'. apply not_elem_of_cons in Hk' as [Hne Hk'].
      rewrite IH2 by done. by apply assoc_put_ne.
Qed.

Section sample_types.
Context (now : jsstr) (ui : bool) (models : obj) (modelPropertyMacro : jsval -> res jsval).

(** The schemas a sample is made of, with the properties given their
    defaults, and what is asked of them: declared values have the type of
    their schema, every model admits the empty object and has no type next to
    its definition (models made by the client have none). *)
Context (good : jsval -> Prop).
Record well_declared : Prop := {
  good_example : forall s r v, good s -> resolveSchema s = Ok r -> declared_example r = Ok v -> v <> VUndef ->
    forall n, valid models n s v;
  good_default : forall s r, good s -> resolveSchema s = Ok r -> field r (js "default") <> VUndef ->
    forall n, valid models n s (field r (js "default"));
  good_keys : forall s r, good s -> resolveSchema s = Ok r -> NoDup (for_in_val (field r (js "properties"))).*1;
  good_property : forall s r k p d c, good s -> resolveSchema s = Ok r ->
    (k, p) ∈ for_in_val (field r (js "properties")) -> modelPropertyMacro p = Ok d -> set_default ui p d = Ok c -> good c;
  good_items : forall s r l p, good s -> resolveSchema s = Ok r -> field r (js "items") = VArr l -> p ∈ l -> good p;
  good_item : forall s r o, good s -> resolveSchema s = Ok r -> field r (js "items") = VObj o -> good (VObj o);
  good_model : forall k m, (k, m) ∈ models -> good (field m (js "definition")) /\
    (forall n, valid models n (field m (js "definition")) (VObj [])) /\
    eq_str (field m (js "type")) (js "array") = false
}.
Hypothesis wd : well_declared.

Lemma prop_field v k r : prop v k = Ok r -> field v k = r.
Proof. unfold field. by intros ->. Qed.

Lemma sample_valid_fuel m : forall ignored schema v,
  good schema -> schemaToJSON_fuel now ui models modelPropertyMacro m ignored schema = Ok v ->
  forall n, valid models n schema v.
Proof using wd.
  induction m as [|m IH]; intros ignored schema v Hg H n; [done|]. cbn [schemaToJSON_fuel] in H.
  apply bind_ok in H as (s & Hs & H). apply bind_ok in H as (type & Ht & H).
  apply bind_ok in H as (format & _ & H). apply bind_ok in H as (output & Hout & H).
  destruct (negb (is_undef output)) eqn:Eo.
  { injection H as <-. apply (good_example wd schema s); [done..|]. by intros ->. }
  apply bind_ok in H as (ref & Hr%prop_field & H). apply bind_ok in H as (dflt & Hd%prop_field & H).
  apply bind_ok in H as (items & Hi%prop_field & H). apply bind_ok in H as (properties & Hp%prop_field & H).
  assert (Ety : js_orv (field s (js "type")) (vstr "object") = type).
  { unfold type_of in Ht. apply bind_ok in Ht as (t & ->%prop_field & [= ->]). done. }
  destruct n as [|n]; [done|]. exists s. split; [done|]. cbv zeta. rewrite Ety, Hr.
  destruct (truthy ref) eqn:Etr.
  - apply bind_ok in H as (model & Hm & H). exists model. split; [done|].
    pose proof (find_model_in models _ _ Hm) as [->|[k Hk]]; [by left|].
    destruct (is_undef model) eqn:Eu; [left; by destruct model|]. right.
    destruct (good_model wd k model Hk) as (Hgm & He & Hty).
    apply bind_ok in H as (name & _ & H). case_bool_decide.
    { apply bind_ok in H as (mtype & Hmt%prop_field & H). rewrite Hmt in Hty. rewrite Hty in H. injection H as <-. apply He. }
    apply bind_ok in H as (definition & Hdef%prop_field & H). rewrite Hdef in Hgm |- *. by apply (IH (to_str name :: ignored)).
  - destruct (negb (is_undef dflt)) eqn:Ed.
    { injection H as <-. rewrite <- Hd. pose proof (good_default wd schema s Hg Hs) as Hv.
      specialize (Hv ltac:(rewrite Hd; by intros ->) (S n)). destruct Hv as (s' & Hs' & Hv).
      assert (s' = s) as -> by congruence. cbv zeta in Hv. rewrite Ety, Hr, Etr in Hv. exact Hv. }
    destruct (eq_str type (js "object")) eqn:Eob; [|destruct (eq_str type (js "array")) eqn:Ear].
    + rewrite !(eq_str_other _ _ _ Eob) by (vm_compute; congruence).
      apply bind_ok in H as (o & H & [= <-]). exists o. split; [done|].
      pose proof (good_keys wd schema s Hg Hs) as Hnd. rewrite Hp in Hnd |- *.
      match type of H with foldM_res ?g _ _ = _ =>
        destruct (foldM_put g (fun p v => valid models n p v) (for_in_val properties) [] o) as [H1 _] end;
        [|done|done|by intros k p Hin _; apply H1].
      intros acc k p o' Hin Hstep. cbn beta iota in Hstep. apply bind_ok in Hstep as (d & Em & Hstep).
      apply bind_ok in Hstep as (c & Hc & Hstep). apply bind_ok in Hstep as (w & Hw & [= <-]).
      exists w. split; [|done]. apply (valid_default models ui n p d c); [done|].
      apply (IH ignored c); [|done]. apply (good_property wd schema s k p d); try done. by rewrite Hp.
    + rewrite !(eq_str_other _ _ _ Ear) by (vm_compute; congruence). rewrite Hi.
      destruct items as [| | | | |l|io|]; try (injection H as <-; by eexists).
      * apply bind_ok in H as (vs & H & [= <-]). exists vs. split; [done|]. apply mapM_res_ok in H.
        intros i p x Hip Hx. pose proof (Forall2_lookup_lr _ _ _ _ _ _ H Hip Hx) as Hpx. cbn beta in Hpx.
        apply (IH ignored p); [|done]. apply (good_items wd schema s l); try done. by eapply list_elem_of_lookup_2.
      * apply bind_ok in H as (w & H & [= <-]). exists [w]. split; [done|]. repeat constructor.
        apply (IH ignored); [|done]. by apply (good_item wd schema s).
    + injection H as <-. unfold primitive_sample.
      destruct (eq_str type (js "string")); [by repeat case_match|].
      destruct (eq_str type (js "integer")); [by eexists|].
      destruct (eq_str type (js "number")); [by eexists|].
      destruct (eq_str type (js "boolean")); [by eexists|done].
Qed.

(** C33. A sample has the type its schema describes, through every reference
    and property, in a document that declares things well: its examples and
    defaults have the type of their schema, no object names a property twice,
    and every model admits the empty object, which is the sample of a model
    inside itself, and is none the client reads as a list (a list of itself
    does not get a list, [recursive_array]). *)
Theorem sample_valid ignored schema v :
  good schema -> schemaToJSON now ui models modelPropertyMacro ignored schema = Ok v -> forall n, valid models n schema v.
Proof using wd. intros Hg H. by apply (sample_valid_fuel _ ignored schema v Hg H). Qed.
End sample_types.

(** A model that refers to itself, with a declared example. *)
Definition node_schema : jsval :=
  VObj [(js "type", vstr "object");
        (js "properties", VObj [(js "id", VObj [(js "type", vstr "integer"); (js "example", vint 7)]);
                                (js "next", VObj [(js "$ref", vstr "#/definitions/Node")]);
                                (js "tags", VObj [(js "type", vstr "array"); (js "items", VObj [(js "type", vstr "string")])])])].
Definition node_models : obj := [(js "Node", VObj [(js "name", vstr "Node"); (js "definition", node_schema)])].

(** The schemas its sample is made of. *)
Definition node_good (s : jsval) : Prop :=
  s = node_schema \/
  s = VObj [(js "type", vstr "integer"); (js "example", vint 7); (js "default", VUndef)] \/
  s = VObj [(js "$ref", vstr "#/definitions/Node"); (js "default", VUndef)] \/
  s = VObj [(js "type", vstr "array"); (js "items", VObj [(js "type", vstr "string")]); (js "default", VUndef)] \/
  s = VObj [(js "type", vstr "string")].

Lemma node_well_declared : well_declared false node_models default_macro node_good.
Proof.
  assert (He : forall n, valid node_models n node_schema (VObj [])).
  { intros n. by apply (valid_empty _ n node_schema node_schema). }
  split.
  - intros s r v Hg Hs Hv Hne n.
    destruct Hg as [->|[->|[->|[->| ->]]]]; vm_compute in Hs; injection Hs as <-; vm_compute in Hv; injection Hv as <-; try done.
    destruct n as [|n]; [done|]. eexists. split; [reflexivity|]. by exists 7.
  - intros s r Hg Hs Hd.
    destruct Hg as [->|[->|[->|[->| ->]]]]; vm_compute in Hs; injection Hs as <-; by vm_compute in Hd.
  - intros s r Hg Hs.
    destruct Hg as [->|[->|[->|[->| ->]]]]; vm_compute in Hs; injection Hs as <-; apply (bool_decide_unpack _); vm_compute; exact I.
  - intros s r k p d c Hg Hs Hin Hm Hc.
    destruct Hg as [->|[->|[->|[->| ->]]]]; vm_compute in Hs; injection Hs as <-; vm_compute in Hin;
      repeat (apply elem_of_cons in Hin as [Hin|Hin]; [injection Hin as -> ->|]);
      try (by apply not_elem_of_nil in Hin); vm_compute in Hm; injection Hm as <-; vm_compute in Hc; injection Hc as <-;
      unfold node_good; vm_compute; tauto.
  - intros s r l p Hg Hs Hi.
    destruct Hg as [->|[->|[->|[->| ->]]]]; vm_compute in Hs; injection Hs as <-; by vm_compute in Hi.
  - intros s r o Hg Hs Hi.
    destruct Hg as [->|[->|[->|[->| ->]]]]; vm_compute in Hs; injection Hs as <-; vm_compute in Hi; try done.
    injection Hi as <-. unfold node_good. vm_compute. tauto.
  - intros k m Hin. apply list_elem_of_singleton in Hin as [= -> ->]. split; [by left|]. split; [exact He|reflexivity].
Qed.

Lemma sample_valid_witness :
  valid node_models 8 node_schema
    (VObj [(js "id", vint 7);
           (js "next", VObj [(js "id", vint 7); (js "next", VObj []); (js "tags", VArr [vstr "string"])]);
           (js "tags", VArr [vstr "string"])]).
Proof.
  apply (sample_valid [] false node_models default_macro node_good node_well_declared []); [by left|vm_compute; reflexivity].
Defined.

Lemma schemaToJSON_ends_witness : schemaToJSON [] false node_models default_macro [] node_schema <> Throw Unsupported.
Proof. apply schemaToJSON_ends. intros v. apply prop_not_fuel. Defined.

(** ** What the code does otherwise than meant *)

(** The sample of a list of itself is an object where it repeats: a [Model]
    has no [type]. *)
Definition list_model : obj :=
  [(js "Tree", VObj [(js "name", vstr "Tree"); (js "isArray", VBool true);
                     (js "definition", VObj [(js "type", vstr "array"); (js "items", VObj [(js "$ref", vstr "Tree")])])])].
Example recursive_array :
  schemaToJSON [] false list_model default_macro [] (VObj [(js "$ref", vstr "Tree")]) = Ok (VArr [VObj []]).
Proof. vm_compute. reflexivity. Qed.

(** The items of a list are shown as their indices, and what the indices
    refer to is an empty model. *)
Example tuple_indices :
  let tuple := VObj [(js "type", vstr "array"); (js "items", VArr [VObj [(js "type", vstr "string")]; VObj [(js "type", vstr "integer")]])] in
  primitiveToHTML false [] tuple (Markup [] [] 0) =
    (Markup [(js "0", VObj []); (js "1", VObj [])] [] 0, Ok (hq "<span class=`propType`>Array[0,1]</span>")).
Proof. vm_compute. reflexivity. Qed.

(** The last element of a list of items is left open. *)
Example tuple_open :
  (array_html true [] (VArr [VObj [(js "type", vstr "string")]; VObj [(js "type", vstr "integer")]]) (Markup [] [] 0)).2 =
    Ok (js "<div>string,</div><div>integer").
Proof. vm_compute. reflexivity. Qed.

(** A title changes which model the client's copy shows for a reference. *)
Example titled_reference :
  let schema := VObj [(js "$ref", vstr "Pet"); (js "title", vstr "A pet")] in
  let models := [(js "Pet", VObj [(js "definition", VObj [(js "type", vstr "string")])])] in
  references (addReference false models schema VUndef VUndef (Markup [] [] 0)).1 = [(js "A pet", VObj [])] /\
  references (addReference true models schema VUndef VUndef (Markup [] [] 0)).1 = [(js "A pet", VObj [(js "type", vstr "string")])].
Proof. vm_compute. split; reflexivity. Qed.

(** ** The copy of the views

    [SwaggerUi.partials.signature] has its own copies of these functions. *)
Module Signature.
Definition resolveSchema := Helpers.resolveSchema.
Definition simpleRef := Helpers.simpleRef.
Definition optionHtml := Helpers.optionHtml.
Definition schemaToJSON (now : jsstr) := SchemaMarkup.schemaToJSON now true.
Definition addReference := SchemaMarkup.addReference true.
Definition primitiveToHTML := SchemaMarkup.primitiveToHTML true.
Definition primitiveToOptionsHTML := SchemaMarkup.primitiveToOptionsHTML true.
Definition property_html := SchemaMarkup.property_html true.
Definition array_html := SchemaMarkup.array_html true.
Definition processModel := SchemaMarkup.processModel true.
Definition getModelSignature := SchemaMarkup.schemaToHTML true.
End Signature.

(** The copies make the same samples, except that the client, being strict
    code, refuses properties that are not objects. *)
Lemma copies_agree now models macro n : forall ignored schema v,
  schemaToJSON_fuel now false models macro n ignored schema = Ok v ->
  schemaToJSON_fuel now true models macro n ignored schema = Ok v.
Proof.
  induction n as [|n IH]; intros ignored schema v H; [done|]. cbn [schemaToJSON_fuel] in H |- *.
  assert (Hf : forall l o r, foldM_res (fun o '(name, property) => d ← macro property; cProperty ← set_default false property d;
              w ← schemaToJSON_fuel now false models macro n ignored cProperty; Ok (put name w o)) o l = Ok r ->
            foldM_res (fun o '(name, property) => d ← macro property; cProperty ← set_default true property d;
              w ← schemaToJSON_fuel now true models macro n ignored cProperty; Ok (put name w o)) o l = Ok r).
  { induction l as [|[k p] l IHl]; intros o r Hr; [done|]. cbn [foldM_res] in Hr |- *.
    apply bind_ok in Hr as (o' & Ho & Hr). apply bind_ok in Ho as (d & Hd & Ho). apply bind_ok in Ho as (c & Hc & Ho).
    apply bind_ok in Ho as (w & Hw & Ho). rewrite Hd. cbn [mbind res_bind].
    assert (Hc' : set_default true p d = Ok c) by (destruct p; try exact Hc; done).
    rewrite Hc'. cbn [mbind res_bind]. rewrite (IH _ _ _ Hw). cbn [mbind res_bind]. injection Ho as <-. by apply IHl. }
  assert (Hm : forall l vs, mapM_res (schemaToJSON_fuel now false models macro n ignored) l = Ok vs ->
                            mapM_res (schemaToJSON_fuel now true models macro n ignored) l = Ok vs).
  { intros l vs Hl. apply mapM_res_ok in Hl. apply mapM_res_ok. eapply Forall2_impl; [done|]. intros x y. apply IH. }
  repeat match type of H with
  | mbind _ _ = Ok _ => let E := fresh "E" in apply bind_ok in H as (? & E & H);
      first [rewrite E | rewrite (Hf _ _ _ E) | rewrite (Hm _ _ E) | rewrite (IH _ _ _ E)]; cbn [mbind res_bind]
  | (if ?b then _ else _) = Ok _ => destruct b
  | match ?x with _ => _ end = Ok _ => destruct x
  | schemaToJSON_fuel _ _ _ _ _ _ _ = Ok _ => apply IH; exact H
  | _ => exact H
  end.
Qed.
