(* ===== verification/Samples.v ===== *)
(** * Models and their samples

    [Model] of the client, and the samples of [SwaggerUi.partials.signature]
    in swagger-ui.js: JSON samples of models and parameters, and XML samples
    with their formatting. *)

From Stdlib Require Import String.
From S2P Require Import Prelude JsNumber JsString JsValue Helpers SchemaMarkup.

(** ** Models *)

(** [Model]: the properties the samples read.  The definition is read before
    it is known to be there. *)
Definition Model (name definition : jsval) : res jsval :=
  type ← prop definition (js "type");
  title ← prop definition (js "title");
  Ok (VObj [(js "definition", js_orv definition (VObj []));
            (js "isArray", VBool (eq_str type (js "array")));
            (js "name", js_orv name (js_orv title (vstr "Inline Model")))]).

(** [v.k = x] on an object; what else an array or a function has is not
    read, and on primitive values strict code throws. *)
Definition set_field (strict : bool) (v : jsval) (k : jsstr) (x : jsval) : res jsval :=
  match v with
  | VObj o => Ok (VObj (put k x o))
  | VArr _ | VHost _ _ => Ok (VObj [(k, x)])
  | VUndef | VNull => Throw TypeError
  | _ => if strict then Throw TypeError else Ok v
  end.

Section samples.
(** The time now, the macro, and js-yaml's [safeLoad]. *)
Context (now : jsstr) (modelPropertyMacro : jsval -> res jsval) (safeLoad : jsval -> res jsval).

Definition load_text (example : jsval) : res jsval := if is_string example then safeLoad example else Ok example.

(** [getSampleValue]: the definition afterwards, and the sample. *)
Definition getSampleValue (self : jsval) (models : obj) (modelsToIgnore : list jsstr) : res (jsval * jsval) :=
  name ← prop self (js "name");
  examples ← prop self (js "examples");
  definition ← prop self (js "definition");
  declared ← (if is_plain examples then prop examples (js "application/json") else Ok VUndef);
  example ← prop definition (js "example");
  definition ← (if truthy declared then
                  e ← load_text declared; set_field true definition (js "example") e
                else if truthy example then Ok definition
                else set_field true definition (js "example") examples);
  v ← schemaToJSON now false models modelPropertyMacro (to_str name :: modelsToIgnore) definition;
  Ok (definition, v).

(** [getMockSignature]; a name that is an object is taken for the schema, and
    the definition for the models. *)
Definition getMockSignature (fuel : nat) (self : jsval) (models : obj) : res jsstr :=
  name ← prop self (js "name");
  definition ← prop self (js "definition");
  if is_object name then schemaToHTML false (as_obj definition) default_macro fuel None name
  else schemaToHTML false models modelPropertyMacro fuel (Some name) definition.

(** [createJSONSample], the copy for the views.  With examples the models are
    looked up in the example (one that loads as undefined is left out), and
    the example of the definition becomes all the examples. *)
Definition sample_with (name definition example : jsval) : res jsval :=
  definition ← set_field false definition (js "example") example;
  if is_undef example then Throw Unsupported
  else Signature.schemaToJSON now (as_obj example) modelPropertyMacro [to_str name] definition.

Fixpoint json_examples (name definition : jsval) (examples : list (jsstr * jsval)) : res jsval :=
  match examples with
  | [] => Ok definition
  | (key, e) :: examples' =>
      if startsWith key (js "application/json") then
        e ← load_text e;
        v ← sample_with name definition e;
        definition ← set_field false definition (js "example") e;
        match v with
        | VBool false => Ok definition
        | _ => json_examples name definition examples'
        end
      else json_examples name definition examples'
  end.

Definition createJSONSample (value : jsval) (models : obj) : res jsval :=
  name ← prop value (js "name");
  examples ← prop value (js "examples");
  definition ← prop value (js "definition");
  definition ← (match examples with VObj o => json_examples name definition (for_in o) | _ => Ok definition end);
  if truthy examples then
    example ← load_text examples;
    sample_with name definition example
  else Signature.schemaToJSON now models modelPropertyMacro [to_str name] definition.

(** [getInlineModel] of the copy looks at the window, not at an operation:
    [inlineModels] are those a page has put there. *)
Definition getInlineModel (inlineModels : option (list jsval)) (inlineStr : jsval) : jsval :=
  let s := to_str inlineStr in
  let prefix := js "Inline Model " in
  match inlineModels with
  | Some l =>
      if startsWith s prefix then
        match drop (length prefix) s with
        | [] => VNull
        | digits => match dec_value 0 digits with
                    | Some id => default VUndef (l !! Z.to_nat id)
                    | None => VNull
                    end
        end
      else VNull
  | None => VNull
  end.

(** The model a type names, if any. *)
Definition named_model (inlineModels : option (list jsval)) (definitions : obj) (type : jsval) : jsval :=
  js_orv (get definitions (to_str type)) (getInlineModel inlineModels type).

(** [getParameterModelSignature]. *)
Definition getParameterModelSignature (fuel : nat) (inlineModels : option (list jsval)) (type : jsval)
    (definitions : obj) : res jsstr :=
  let '(listType, type) := match type with VArr l => (true, default VUndef (List.head l)) | _ => (false, type) end in
  let wrap t := if listType : bool then js "Array[" ++ t ++ js "]" else t in
  if is_undef type then Ok (wrap (js "undefined"))
  else
    let model := named_model inlineModels definitions type in
    if truthy model then
      name ← prop model (js "name");
      definition ← prop model (js "definition");
      t ← (if is_object name then Signature.getModelSignature (as_obj definition) default_macro fuel None name
           else Signature.getModelSignature definitions modelPropertyMacro fuel (Some name) definition);
      Ok (wrap t)
    else match type with
         | VNull => if listType then Ok (wrap (js "null")) else Throw TypeError
         | _ => Ok (wrap (to_str type))
         end.

(** [createParameterJSONSample]; [stringify] is [JSON.stringify] with an
    indentation of two.  No value has the type ['Node']. *)
Definition createParameterJSONSample (stringify : jsval -> jsval) (inlineModels : option (list jsval)) (type : jsval)
    (models : obj) : res jsval :=
  let '(listType, innerType) := match type with VArr l => (true, default VUndef (List.head l)) | _ => (false, type) end in
  let model := named_model inlineModels models innerType in
  if truthy model then
    sampleJson ← createJSONSample model models;
    if truthy sampleJson then
      let sampleJson := if listType : bool then VArr [sampleJson] else sampleJson in
      if is_object sampleJson then
        _ ← prop (match sampleJson with VArr (t :: _) => t | _ => sampleJson end) (js "nodeName");
        Ok (stringify sampleJson)
      else Ok sampleJson
    else Ok VUndef
  else Ok VUndef.
End samples.

(** [getPrimitiveSignature]. *)
Definition getPrimitiveSignature (schema : jsval) : res jsval :=
  let schema := js_orv schema (VObj []) in
  items0 ← prop schema (js "items");
  type0 ← prop schema (js "type");
  format ← prop schema (js "format");
  let items := js_orv items0 (VObj []) in
  let type := js_orv type0 (VStr []) in
  if eq_str type (js "object") then Ok (vstr "Object is not a primitive")
  else if eq_str type (js "array") then
    ifmt ← prop items (js "format");
    ityp ← prop items (js "type");
    Ok (VStr (js "Array[" ++ to_str (js_orv ifmt ityp) ++ js "]"))
  else Ok (js_orv format type).

(** ** XML *)

(** [getErrorMessage]. *)
Definition getErrorMessage (details : jsstr) : jsstr :=
  js "<!-- invalid XML" ++ (match details with [] => [] | _ => js ": " ++ details end) ++ js " -->".

(** An attribute in the start tag. *)
Definition attribute (attr : jsval) : res jsstr :=
  name ← prop attr (js "name");
  value ← prop attr (js "value");
  Ok (js " " ++ to_str name ++ hq "=`" ++ to_str value ++ hq "`").

(** [wrapTag]. *)
Definition wrapTag (name : jsstr) (value : jsval) (attrs : list jsval) : res jsstr :=
  attributes ← mapM_res attribute attrs;
  Ok (match name with
      | [] => getErrorMessage (js "Node name is not provided")
      | _ => js "<" ++ name ++ List.concat attributes ++ js ">" ++ (if is_nullish value then [] else to_str value) ++
             js "</" ++ name ++ js ">"
      end).

(** [getPrefix]. *)
Definition getPrefix (name xml : jsval) : res jsstr :=
  prefix ← prop (js_orv xml (VObj [])) (js "prefix");
  let result := to_str (js_orv name (VStr [])) in
  Ok (if truthy prefix then to_str prefix ++ js ":" ++ result else result).

(** [getNamespace]: the attribute, if there is a namespace. *)
Definition getNamespace (xml : jsval) : res (list jsval) :=
  let xml := js_orv xml (VObj []) in
  namespace ← prop xml (js "namespace");
  prefix ← prop xml (js "prefix");
  Ok (if truthy namespace then
        [VObj [(js "name", VStr (js "xmlns" ++ (if truthy prefix then js ":" ++ to_str prefix else [])));
               (js "value", namespace)]]
      else []).

(** The configuration that the calls share and change. *)
Record config := Config {
  modelsToIgnore : list jsval;
  loopTo : jsval
}.
Abbreviation X := (ST config).

Record descriptor := Descriptor {
  d_name : jsstr;
  d_type : jsval;
  d_definition : jsval
}.

Definition make_descriptor (name type definition : jsval) : res descriptor :=
  xml ← prop definition (js "xml");
  n ← getPrefix name xml;
  Ok (Descriptor n type definition).

(** [getDescriptor]. *)
Definition getDescriptor (name definition : jsval) : res descriptor :=
  type ← prop definition (js "type");
  xml ← prop definition (js "xml");
  xname ← (if truthy xml then prop xml (js "name") else Ok VUndef);
  make_descriptor (js_orv xname name) (js_orv type (vstr "object")) definition.

Fixpoint index_of (v : jsval) (l : list jsval) : bool :=
  match l with [] => false | x :: l' => strict_eq x v || index_of v l' end.
Fixpoint splice_first (v : jsval) (l : list jsval) : list jsval :=
  match l with [] => [] | x :: l' => if strict_eq x v then l' else x :: splice_first v l' end.

(** [getDescriptorByRef]. *)
Definition getDescriptorByRef (models : obj) (ref : jsstr) (name : jsval) : X (option descriptor) :=
  modelType ← lift (simpleRef (VStr ref));
  let model := js_orv (get models (to_str modelType)) (VObj []) in
  definition ← lift (prop model (js "definition"));
  mname ← lift (prop model (js "name"));
  type ← lift (if truthy definition then prop definition (js "type") else Ok VUndef);
  xml ← lift (if truthy definition then prop definition (js "xml") else Ok VUndef);
  xname ← lift (if truthy xml then prop xml (js "name") else Ok VUndef);
  let name := js_orv name (js_orv xname mname) in
  looping ← gets (A := bool) (fun c => index_of (VStr ref) (modelsToIgnore c));
  (if looping : bool then modify (fun c => Config (modelsToIgnore c) modelType)
   else modify (fun c => Config (modelsToIgnore c ++ [VStr ref]) (loopTo c)));;
  if truthy definition then
    d ← lift (make_descriptor name (if looping : bool then vstr "loop" else js_orv type (vstr "object")) definition);
    mret (Some d)
  else mret None.

(** The samples of the primitive types. *)
Definition primitivesMap : list (jsstr * list (jsstr * jsval)) :=
  [(js "string", [(js "date", vstr "1970-01-01"); (js "date-time", vstr "1970-01-01T00:00:00.001Z");
                  (js "default", vstr "string")]);
   (js "integer", [(js "default", vint 1)]);
   (js "number", [(js "default", VNum (NFrac (js "1.1")))]);
   (js "boolean", [(js "default", VBool true)])].

(** [createPrimitiveXML]: text, or an attribute. *)
Definition createPrimitiveXML (d : descriptor) : res jsval :=
  let definition := d_definition d in
  type ← prop definition (js "type");
  format ← prop definition (js "format");
  xml0 ← prop definition (js "xml");
  let xml := js_orv xml0 (VObj []) in
  namespace ← getNamespace xml;
  enum ← prop definition (js "enum");
  example ← prop definition (js "example");
  attr ← prop xml (js "attribute");
  match (match type with VStr t => assoc t primitivesMap | _ => None end) with
  | None => Ok (VStr (getErrorMessage []))
  | Some samples =>
      let value := match enum with
                   | VArr l => default VUndef (List.head l)
                   | _ => js_orv example (js_orv (get samples (to_str format)) (get samples (js "default")))
                   end in
      if truthy attr then Ok (VObj [(js "name", VStr (d_name d)); (js "value", value)])
      else t ← wrapTag (d_name d) value namespace; Ok (VStr t)
  end.

(** The properties with their keys: an array has numbers for keys. *)
Definition entries (v : jsval) : list (jsval * jsval) :=
  match v with
  | VObj o => (fun kv => (VStr kv.1, kv.2)) <$> for_in o
  | VArr l => imap (fun i x => (vint (Z.of_nat i), x)) l
  | VStr s => imap (fun i c => (vint (Z.of_nat i), VStr [c])) s
  | _ => []
  end.

(** The samples of the properties of an object, and the attributes among
    them, added to [attrs]. *)
Fixpoint properties_xml (rec : jsval -> jsval -> X jsval) (isParam : bool) (attrs : list jsval)
    (properties : list (jsval * jsval)) : X (jsstr * list jsval) :=
  match properties with
  | [] => mret ([], attrs)
  | (key, p) :: properties' =>
      readOnly ← lift (if isParam then prop p (js "readOnly") else Ok VUndef);
      if truthy readOnly then properties_xml rec isParam attrs properties'
      else
        xml0 ← lift (prop p (js "xml"));
        result ← rec key p;
        attr ← lift (prop (js_orv xml0 (VObj [])) (js "attribute"));
        '(text, attrs) ← properties_xml rec isParam (if truthy attr then attrs ++ [result] else attrs) properties';
        mret ((if truthy attr then [] else if is_nullish result then [] else to_str result) ++ text, attrs)
  end.

(** [createObjectXML]. *)
Definition createObjectXML (rec : jsval -> jsval -> X jsval) (isParam : bool) (d : descriptor) : X jsval :=
  let definition := d_definition d in
  properties ← lift (prop definition (js "properties"));
  additionalProperties ← lift (prop definition (js "additionalProperties"));
  xml ← lift (prop definition (js "xml"));
  namespace ← lift (getNamespace xml);
  if negb (truthy properties) && negb (truthy additionalProperties) then mret (VStr (getErrorMessage []))
  else
    '(text, attrs) ← properties_xml rec isParam namespace (entries (js_orv properties (VObj [])));
    let text := if truthy additionalProperties then text ++ js "<!-- additional elements allowed -->" else text in
    t ← lift (wrapTag (d_name d) (VStr text) attrs);
    mret (VStr t).

(** [createArrayXML]. *)
Definition createArrayXML (rec : jsval -> jsval -> X jsval) (d : descriptor) : X jsval :=
  let definition := d_definition d in
  items ← lift (prop definition (js "items"));
  xml0 ← lift (prop definition (js "xml"));
  let xml := js_orv xml0 (VObj []) in
  namespace ← lift (getNamespace xml);
  if negb (truthy items) then mret (VStr (getErrorMessage []))
  else
    ixml ← lift (prop items (js "xml"));
    iname ← lift (if truthy ixml then prop ixml (js "name") else Ok VUndef);
    value ← rec (js_orv iname (VStr (d_name d))) items;
    wrapped ← lift (prop xml (js "wrapped"));
    if truthy wrapped then t ← lift (wrapTag (d_name d) value namespace); mret (VStr t)
    else mret value.

(** [getInfiniteLoopMessage]. *)
Definition getInfiniteLoopMessage (name : jsstr) (to : jsval) : res jsstr :=
  wrapTag name (VStr (js "<!-- Infinite loop $ref:" ++ to_str to ++ js " -->")) [].

Section xml.
Context (models : obj) (isParam : bool).

(** [createSchemaXML]; the fuel bounds the depth of the calls. *)
Fixpoint createSchemaXML (n : nat) (name definition : jsval) : X jsval :=
  match n with
  | O => lift (Throw Unsupported)
  | S n' =>
      ref ← lift (if is_object definition then prop definition (js "$ref") else Ok VNull);
      descriptor ← (match ref with
                    | VStr r => getDescriptorByRef models r name
                    | _ => d ← lift (getDescriptor name definition); mret (Some d)
                    end);
      match descriptor with
      | None => mret (VStr (getErrorMessage []))
      | Some d =>
          let rec := createSchemaXML n' in
          output ← (if eq_str (d_type d) (js "array") then createArrayXML rec d
                    else if eq_str (d_type d) (js "object") then createObjectXML rec isParam d
                    else if eq_str (d_type d) (js "loop") then
                      to ← gets loopTo; t ← lift (getInfiniteLoopMessage (d_name d) to); mret (VStr t)
                    else lift (createPrimitiveXML d));
          (if truthy ref && negb (eq_str (d_type d) (js "loop"))
           then modify (fun c => Config (splice_first ref (modelsToIgnore c)) (loopTo c)) else mret tt);;
          mret output
      end
  end.
End xml.

(** ** Formatting *)

Definition NL : Z := 10.
(** What [.] does not match. *)
Definition is_term (c : Z) : bool := (c =? 10) || (c =? 13) || (c =? 8232) || (c =? 8233).
Definition LT : Z := 60.
Definition GT : Z := 62.

(** The part of a line after its last line terminator, and the part before. *)
Fixpoint until_term (s : jsstr) : jsstr :=
  match s with [] => [] | c :: s' => if is_term c then [] else c :: until_term s' end.
Definition segment (line : jsstr) : jsstr * jsstr :=
  let seg := rev (until_term (rev line)) in (take (length line - length seg) line, seg).

(** The replacement by [wsexp] on a line that ends in a newline: when it ends
    in a space, the leading spaces and one at the end go. *)
Fixpoint drop_spaces (s : jsstr) : jsstr :=
  match s with c :: s' => if c =? 32 then drop_spaces s' else s | [] => [] end.
Definition wsexp_line (line : jsstr) : jsstr :=
  let '(before, seg) := segment line in
  before ++ (if bool_decide (last seg = Some 32) then removelast (drop_spaces seg) else seg).

(** The replacement by [contexp] on such a line: a newline after the
    last tag that is not the end. *)
Fixpoint last_gt (s : jsstr) (i : nat) (best : option nat) : option nat :=
  match s with
  | [] | [_] => best
  | c :: s' => last_gt s' (S i) (if c =? GT then Some i else best)
  end.
Definition contexp_line (line : jsstr) : jsstr :=
  let '(before, seg) := segment line in
  before ++ match find_str [LT] seg with
            | Some p =>
                match last_gt (drop (p + 2) seg) (p + 2) None with
                | Some q => take (S q) seg ++ [NL] ++ drop (S q) seg
                | None => seg
                end
            | None => seg
            end.

(** A replacement on every line that ends in a newline. *)
Fixpoint map_lines (f : jsstr -> jsstr) (lines : list jsstr) : list jsstr :=
  match lines with
  | [] => []
  | [l] => [l]
  | l :: lines' => f l :: map_lines f lines'
  end.
Definition per_line (f : jsstr -> jsstr) (s : jsstr) : jsstr := join [NL] (map_lines f (split s [NL])).

(** The kinds of lines. *)
Inductive line_kind := single | closing | opening | other.

Fixpoint exists_at (f : jsstr -> bool) (s : jsstr) : bool :=
  f s || match s with [] => false | _ :: s' => exists_at f s' end.
(** Any characters of a line, then [p]. *)
Fixpoint reach (p s : jsstr) : bool :=
  prefixb p s || match s with [] => false | c :: s' => negb (is_term c) && reach p s' end.
(** At least one. *)
Definition reach1 (p s : jsstr) : bool := match s with [] => false | c :: s' => negb (is_term c) && reach p s' end.

Definition is_single (s : jsstr) : bool := exists_at (fun s => prefixb (js "<") s && reach1 (js "/>") (drop 1 s)) s.
Definition is_closing (s : jsstr) : bool := exists_at (fun s => prefixb (js "</") s && reach1 (js ">") (drop 2 s)) s.
Definition is_opening (s : jsstr) : bool :=
  exists_at (fun s => prefixb (js "<") s &&
    match drop 1 s with c :: s' => negb (c =? chr "!") && negb (c =? chr "?") && reach (js ">") s' | [] => false end) s.
Definition kind_of (ln : jsstr) : line_kind :=
  if is_single ln then single else if is_closing ln then closing else if is_opening ln then opening else other.

Definition transition (from to : line_kind) : Z :=
  match from, to with
  | opening, closing => 0
  | opening, _ => 1
  | single, closing | closing, closing | other, closing => -1
  | _, _ => 0
  end.

Record format_state := FormatState {
  formatted : jsstr;
  indent : Z;
  lastType : line_kind
}.

(** [fn]. *)
Definition format_line (st : format_state) (ln : jsstr) : format_state :=
  let type := kind_of ln in
  let indent := indent st + transition (lastType st) type in
  FormatState
    (match lastType st, type with
     | opening, closing => take (length (formatted st) - 1) (formatted st) ++ ln ++ [NL]
     | _, _ => formatted st ++ List.concat (repeat [32; 32] (Z.abs_nat indent)) ++ ln ++ [NL]
     end) indent type.

(** [formatXml]. *)
Definition formatXml (xml : jsstr) : jsstr :=
  let xml := replace_all xml (js "><") (js ">" ++ [NL] ++ js "<") in
  let xml := per_line contexp_line (per_line wsexp_line xml) in
  formatted (foldl format_line (FormatState [] 0 other) (split xml [NL])).

(** [createXMLSample]. *)
Definition createXMLSample (fuel : nat) (models : obj) (isParam : bool) (name definition : jsval) : res jsstr :=
  v ← (createSchemaXML models isParam fuel name definition (Config [] VUndef)).2;
  Ok (formatXml (hq "<?xml version=`1.0`?>" ++ to_str v)).

(** ** Formatting changes white space only *)

(** A text without spaces and newlines. *)
Definition visible (c : Z) : Prop := c <> 32 /\ c <> NL.
#[export] Instance visible_dec c : Decision (visible c).
Proof. unfold visible. apply _. Defined.
Definition squeeze (s : jsstr) : jsstr := filter visible s.

Lemma squeeze_app a b : squeeze (a ++ b) = squeeze a ++ squeeze b.
Proof. apply filter_app. Qed.
Lemma squeeze_join (ls : list jsstr) : squeeze (join [NL] ls) = List.concat (squeeze <$> ls).
Proof.
  induction ls as [|l [|m ls] IH]; [done|cbn; by rewrite app_nil_r|].
  change (join [NL] (l :: m :: ls)) with (l ++ [NL] ++ join [NL] (m :: ls)).
  rewrite !squeeze_app, IH. done.
Qed.

(** Replacing a text by one that differs in white space. *)
Lemma squeeze_split_go sep r s : forall k cur,
  sep <> [] -> squeeze r = squeeze sep -> (k <= length s)%nat ->
  squeeze (join r (split_go sep s k cur)) = squeeze (rev cur) ++ squeeze (drop k s).
Proof.
  intros k cur Hne Hr. revert k cur. induction s as [|c s IH]; intros k cur Hk.
  - cbn in Hk. replace k with O by lia. cbn. by rewrite app_nil_r.
  - destruct k as [|k]; cbn [split_go].
    + destruct (prefixb sep (c :: s)) eqn:E.
      * apply prefixb_spec in E as [t Et]. destruct sep as [|x sep]; [done|]. cbn [length] in *.
        rewrite join_cons by apply split_go_nonempty. rewrite !squeeze_app, Hr.
        injection Et as -> ->. rewrite Nat.sub_succ, Nat.sub_0_r, IH by (rewrite length_app; lia).
        rewrite drop_app_length. cbn [rev app]. unfold drop. change (squeeze []) with (@nil Z).
        rewrite app_nil_l, <- squeeze_app. done.
      * rewrite IH by lia. cbn [rev drop]. rewrite squeeze_app, <- app_assoc. f_equal. unfold drop. by rewrite <- squeeze_app.
    + cbn [length] in Hk. rewrite IH by lia. done.
Qed.
Lemma squeeze_replace s p r : p <> [] -> squeeze r = squeeze p -> squeeze (replace_all s p r) = squeeze s.
Proof. intros Hp Hr. unfold replace_all, split. rewrite squeeze_split_go by (done || lia). by rewrite drop_0. Qed.

Lemma squeeze_per_line f s : (forall l, squeeze (f l) = squeeze l) -> squeeze (per_line f s) = squeeze s.
Proof.
  intros Hf. unfold per_line. transitivity (squeeze (join [NL] (split s [NL]))); [|by rewrite join_split].
  rewrite !squeeze_join. f_equal. generalize (split s [NL]). intros ls.
  induction ls as [|l [|m ls] IH]; [done..|]. cbn [map_lines fmap list_fmap]. rewrite Hf. f_equal. exact IH.
Qed.

Lemma segment_app line : let '(before, seg) := segment line in line = before ++ seg.
Proof.
  unfold segment. cbn zeta. assert (H : exists p, line = p ++ rev (until_term (rev line))).
  { assert (Hu : forall s, exists q, s = until_term s ++ q).
    { induction s as [|c s [q IH]]; [by exists []|]. cbn. destruct (is_term c); [by eexists|].
      exists q. cbn. by rewrite <- IH. }
    destruct (Hu (rev line)) as [q Hq]. exists (rev q). by rewrite <- rev_app_distr, <- Hq, rev_involutive. }
  destruct H as [p Hp]. revert Hp. generalize (rev (until_term (rev line))). intros seg ->.
  rewrite length_app. replace (length p + length seg - length seg)%nat with (length p) by lia. by rewrite take_app_length.
Qed.

Lemma squeeze_drop_spaces s : squeeze (drop_spaces s) = squeeze s.
Proof.
  induction s as [|c s IH]; [done|]. cbn [drop_spaces]. destruct (Z.eqb_spec c 32) as [->|]; [|done].
  rewrite IH. unfold squeeze. by rewrite filter_cons_False by (unfold visible; tauto).
Qed.
Lemma squeeze_removelast s x : last s = Some x -> ~ visible x -> squeeze (removelast s) = squeeze s.
Proof.
  destruct s as [|y s _] using rev_ind; [done|]. rewrite last_snoc. intros [= ->] Hx.
  rewrite removelast_last, squeeze_app. unfold squeeze at 3. rewrite filter_cons_False by done. by rewrite app_nil_r.
Qed.
Lemma drop_spaces_last s : last s = Some 32 -> drop_spaces s = [] \/ last (drop_spaces s) = Some 32.
Proof.
  induction s as [|c s IH]; [done|]. cbn [drop_spaces]. intros H. destruct (Z.eqb_spec c 32); [|by right].
  destruct s as [|d s]; [by left|]. by apply IH.
Qed.

Lemma squeeze_wsexp l : squeeze (wsexp_line l) = squeeze l.
Proof.
  unfold wsexp_line. pose proof (segment_app l) as H. destruct (segment l) as [before seg]. rewrite H, !squeeze_app. f_equal.
  case_bool_decide as Hl; [|done]. destruct (drop_spaces_last seg Hl) as [E|E].
  - rewrite E. cbn [removelast]. by rewrite <- (squeeze_drop_spaces seg), E.
  - rewrite (squeeze_removelast _ 32) by (done || unfold visible; tauto). apply squeeze_drop_spaces.
Qed.
Lemma squeeze_contexp l : squeeze (contexp_line l) = squeeze l.
Proof.
  unfold contexp_line. pose proof (segment_app l) as H. destruct (segment l) as [before seg]. rewrite H, !squeeze_app. f_equal.
  destruct (find_str [LT] seg) as [p|]; [|done]. destruct (last_gt _ _ _) as [q|]; [|done].
  rewrite !squeeze_app. change (squeeze [NL]) with (@nil Z). rewrite app_nil_l, <- squeeze_app. by rewrite take_drop.
Qed.

Lemma squeeze_indent n : squeeze (List.concat (repeat [32; 32] n)) = [].
Proof. induction n as [|n IH]; [done|]. cbn [repeat List.concat]. by rewrite squeeze_app, IH. Qed.

Lemma squeeze_lines ls : forall st,
  (lastType st = opening -> last (formatted st) = Some NL) ->
  squeeze (formatted (foldl format_line st ls)) = squeeze (formatted st) ++ List.concat (squeeze <$> ls).
Proof.
  induction ls as [|l ls IH]; intros st Hst; [cbn; by rewrite app_nil_r|]. cbn [foldl fmap list_fmap List.concat].
  assert (Hnl : last (formatted (format_line st l)) = Some NL).
  { unfold format_line. cbn [formatted]. destruct (lastType st), (kind_of l); rewrite ?app_assoc; apply last_snoc. }
  rewrite IH by done. rewrite app_assoc. f_equal.
  assert (H1 : squeeze (formatted st ++ List.concat (repeat [32; 32] (Z.abs_nat (indent st + transition (lastType st) (kind_of l)))) ++ l ++ [NL]) =
               squeeze (formatted st) ++ squeeze l).
  { rewrite !squeeze_app, squeeze_indent. cbn. by rewrite app_nil_r. }
  unfold format_line. cbn [formatted]. destruct (lastType st) eqn:E; try exact H1. destruct (kind_of l); try exact H1.
  rewrite !squeeze_app. cbn. rewrite app_nil_r. f_equal. specialize (Hst eq_refl).
  destruct (formatted st) as [|x s _] using rev_ind; [done|]. rewrite last_snoc in Hst. injection Hst as ->.
  rewrite length_app. cbn [length]. rewrite Nat.add_sub, take_app_length, squeeze_app. cbn. by rewrite app_nil_r.
Qed.

(** Formatting XML adds and removes spaces and newlines only, whatever the
    text: what else there is stays, in order. *)
Theorem formatXml_white_space xml : squeeze (formatXml xml) = squeeze xml.
Proof.
  unfold formatXml. rewrite squeeze_lines by done. cbn [formatted app]. change (squeeze []) with (@nil Z). cbn [app].
  rewrite <- squeeze_join, join_split. rewrite (squeeze_per_line contexp_line) by apply squeeze_contexp.
  rewrite (squeeze_per_line wsexp_line) by apply squeeze_wsexp. by apply squeeze_replace.
Qed.

(** ** XML samples end *)

(** The references of a value. *)
Fixpoint refs (v : jsval) : list jsstr :=
  match v with
  | VArr l => List.flat_map refs l
  | VObj o => List.flat_map (fun kv => (if bool_decide (kv.1 = js "$ref") then match kv.2 with VStr r => [r] | _ => [] end else [])
                                       ++ refs kv.2) o
  | _ => []
  end.

Lemma refs_kv k v o r : (k, v) ∈ o -> r ∈ refs v -> r ∈ refs (VObj o).
Proof.
  intros Hin Hr. cbn [refs]. apply list_elem_of_In, List.in_flat_map. exists (k, v). split; [by apply list_elem_of_In|].
  apply List.in_or_app. right. by apply list_elem_of_In.
Qed.
Lemma refs_ref o r : get o (js "$ref") = VStr r -> r ∈ refs (VObj o).
Proof.
  intros H. unfold get in H. destruct (assoc (js "$ref") o) as [v|] eqn:E; [|done]. cbn in H. subst v.
  apply assoc_some_in in E. cbn [refs]. apply list_elem_of_In, List.in_flat_map. exists (js "$ref", VStr r).
  split; [by apply list_elem_of_In|]. cbn [fst snd]. rewrite bool_decide_eq_true_2 by done. by left.
Qed.
Lemma refs_elem x l r : x ∈ l -> r ∈ refs x -> r ∈ refs (VArr l).
Proof.
  intros Hin Hr. cbn [refs]. apply list_elem_of_In, List.in_flat_map. exists x. split; by apply list_elem_of_In.
Qed.
Lemma refs_prop v k r x : prop v k = Ok r -> x ∈ refs r -> x ∈ refs v.
Proof.
  destruct v as [| | | | | |o|]; cbn [prop]; intros H; simplify_eq; try (by intros ?%not_elem_of_nil).
  unfold get. destruct (assoc k o) as [w|] eqn:E; cbn [default from_option].
  - by apply (refs_kv k), assoc_some_in.
  - by intros ?%not_elem_of_nil.
Qed.
Lemma entries_inside k p v : (k, p) ∈ entries v -> (vdepth p <= vdepth v)%nat /\ (forall r, r ∈ refs p -> r ∈ refs v).
Proof.
  destruct v as [| | | |s|l|o|]; cbn [entries]; intros Hin; try by apply not_elem_of_nil in Hin.
  - apply elem_of_lookup_imap in Hin as (i & x & [= _ ->] & _). split; [done|by intros ? ?%not_elem_of_nil].
  - apply elem_of_lookup_imap in Hin as (i & x & [= _ ->] & Hx). apply list_elem_of_lookup_2 in Hx.
    split; [pose proof (vdepth_elem _ _ Hx); lia|intros r; by apply refs_elem].
  - apply list_elem_of_fmap in Hin as ([k' p'] & [= -> ->] & Hin). rewrite for_in_elem in Hin.
    split; [pose proof (vdepth_kv _ _ _ Hin); lia|intros r; by apply (refs_kv k')].
Qed.

(** Depth of the calls: through a definition, or into a model not entered yet. *)
Definition xml_fuel (models : obj) (definition : jsval) : nat :=
  S (vdepth definition + length (refs definition ++ refs (VObj models)) * S (vdepth (VObj models))).

Lemma not_fuel_throw {A B} e : not_fuel (Throw e : res A) -> not_fuel (Throw e : res B).
Proof. intros H E. apply H. by injection E as ->. Qed.

Section xml_ends.
Context (models : obj) (isParam : bool) (universe : list jsstr).
Hypothesis models_refs : forall r, r ∈ refs (VObj models) -> r ∈ universe.

Definition ignored (c : config) (r : jsstr) : bool := index_of (VStr r) (modelsToIgnore c).
Definition grows (c c' : config) : Prop := forall r, ignored c r = true -> ignored c' r = true.
Definition left_refs (c : config) : nat := length (filter (fun r => ignored c r = false) universe).

(** A computation that does not run out of fuel and forgets no reference. *)
Definition safe {A} (m : X A) (c : config) : Prop := not_fuel (m c).2 /\ forall c' a, m c = (c', Ok a) -> grows c c'.

Lemma grows_refl c : grows c c.
Proof. by intros r. Qed.
Lemma grows_trans c1 c2 c3 : grows c1 c2 -> grows c2 c3 -> grows c1 c3.
Proof. intros H1 H2 r Hr. auto. Qed.

Lemma safe_lift {A} (r : res A) c : not_fuel r -> safe (lift r) c.
Proof. intros H. split; [done|]. intros c' a [= -> _]. apply grows_refl. Qed.
Lemma safe_ret {A} (a : A) c : safe (mret a) c.
Proof. split; [done|]. intros c' b [= -> _]. apply grows_refl. Qed.
Lemma safe_bind {A B} (m : X A) (f : A -> X B) c :
  safe m c -> (forall a c', m c = (c', Ok a) -> grows c c' -> safe (f a) c') -> safe (m ≫= f) c.
Proof.
  intros [Hn Hg] Hf. unfold safe, mbind, st_bind. destruct (m c) as [c1 [a|e]] eqn:E.
  - destruct (Hf a c1 eq_refl (Hg c1 a eq_refl)) as [H1 H2]. split; [done|]. intros c' b Hb.
    eapply grows_trans; [by apply (Hg c1 a)|by apply (H2 c' b)].
  - split; [exact (not_fuel_throw _ Hn)|done].
Qed.

Lemma bind_run {A B} (m : X A) (f : A -> X B) c c1 a : m c = (c1, Ok a) -> (m ≫= f) c = f a c1.
Proof. intros H. unfold mbind, st_bind. by rewrite H. Qed.
Lemma bind_throw {A B} (m : X A) (f : A -> X B) c c1 e : m c = (c1, Throw e) -> (m ≫= f) c = (c1, Throw e).
Proof. intros H. unfold mbind, st_bind. by rewrite H. Qed.
Lemma safe_throw {A B} (m : X A) (f : A -> X B) c c1 e : m c = (c1, Throw e) -> not_fuel (m c).2 -> safe (m ≫= f) c.
Proof. intros E Hn. unfold safe. rewrite (bind_throw _ _ _ _ _ E). rewrite E in Hn. split; [exact (not_fuel_throw _ Hn)|done]. Qed.

Lemma left_grows c c' : grows c c' -> (left_refs c' <= left_refs c)%nat.
Proof using. clear models_refs.
  intros H. unfold left_refs. induction universe as [|r l IH]; [done|]. rewrite !filter_cons.
  specialize (H r). repeat case_decide; cbn [length]; try lia. exfalso. specialize (H ltac:(by destruct (ignored c r))). congruence.
Qed.
Lemma index_of_app u l m : index_of u (l ++ m) = index_of u l || index_of u m.
Proof. induction l as [|x l IH]; [done|]. cbn. by rewrite IH, orb_assoc. Qed.
Lemma left_push c r to :
  r ∈ universe -> ignored c r = false -> (left_refs (Config (modelsToIgnore c ++ [VStr r]) to) < left_refs c)%nat.
Proof using. clear models_refs.
  intros Hin Hr. set (c1 := Config _ _).
  assert (H1 : ignored c1 r = true).
  { unfold ignored, c1. cbn. rewrite index_of_app. cbn. rewrite bool_decide_eq_true_2 by done. by rewrite orb_true_r. }
  assert (Hg : grows c c1).
  { intros s Hs. unfold ignored, c1 in *. cbn. by rewrite index_of_app, Hs. }
  unfold left_refs. induction universe as [|s l IH]; [by apply not_elem_of_nil in Hin|]. rewrite !filter_cons.
  apply elem_of_cons in Hin as [<-|Hin].
  - rewrite decide_False by congruence. rewrite decide_True by done. cbn [length]. apply Nat.lt_succ_r.
    clear IH. induction l as [|s l IH]; [done|]. rewrite !filter_cons. specialize (Hg s). repeat case_decide; cbn [length]; try lia.
    exfalso. specialize (Hg ltac:(by destruct (ignored c s))). congruence.
  - specialize (IH Hin). specialize (Hg s). repeat case_decide; cbn [length]; try lia. exfalso. specialize (Hg ltac:(by destruct (ignored c s))). congruence.
Qed.

Lemma splice_grows c r to c' : ignored c r = false ->
  grows (Config (modelsToIgnore c ++ [VStr r]) to) c' ->
  grows c (Config (splice_first (VStr r) (modelsToIgnore c')) (loopTo c')).
Proof.
  intros Hr H s Hs. assert (Hne : s <> r) by congruence.
  assert (H' : ignored c' s = true) by (apply H; unfold ignored in *; cbn; by rewrite index_of_app, Hs).
  unfold ignored in *. cbn. clear -H' Hne. induction (modelsToIgnore c') as [|x l IH]; [done|]. cbn in *.
  destruct (strict_eq x (VStr r)) eqn:E.
  - destruct x as [| | |[]|t| | |]; try done. cbn in *. apply bool_decide_eq_true in E as ->.
    by rewrite bool_decide_eq_false_2 in H' by congruence.
  - cbn. destruct (strict_eq x (VStr s)); [done|]. cbn in *. auto.
Qed.
Lemma splice_other c v : (forall s, v <> VStr s) -> grows c (Config (splice_first v (modelsToIgnore c)) (loopTo c)).
Proof.
  intros Hv s. unfold ignored. cbn. induction (modelsToIgnore c) as [|x l IH]; [done|]. cbn.
  destruct (strict_eq x v) eqn:E; cbn.
  - intros [H|H]%orb_true_iff; [|done]. destruct x as [| | |[]|t| | |], v as [| | |[]|u| | |]; try done. by destruct (Hv u).
  - destruct (strict_eq x (VStr s)); [done|]. auto.
Qed.

(** The parts that do not call back. *)
Lemma wrapTag_not_fuel name value attrs : not_fuel (wrapTag name value attrs).
Proof.
  unfold wrapTag. apply not_fuel_bind; [|done]. apply not_fuel_mapM. intros a _. unfold attribute. by repeat fuel_step.
Qed.
Lemma getNamespace_not_fuel x : not_fuel (getNamespace x).
Proof. unfold getNamespace. by repeat fuel_step. Qed.
Lemma make_descriptor_not_fuel name type definition : not_fuel (make_descriptor name type definition).
Proof.
  unfold make_descriptor. apply not_fuel_bind; [auto with js|]. intros xml _.
  apply not_fuel_bind; [unfold getPrefix; by repeat fuel_step|done].
Qed.
Lemma prop_if_not_fuel (b : bool) v k : not_fuel (if b then prop v k else Ok VUndef).
Proof. destruct b; [apply prop_not_fuel|done]. Qed.
Lemma createPrimitiveXML_not_fuel d : not_fuel (createPrimitiveXML d).
Proof.
  unfold createPrimitiveXML. do 7 (apply not_fuel_bind; [try apply getNamespace_not_fuel; auto with js|intros ? _]).
  match goal with |- not_fuel (match ?m with Some _ => _ | None => _ end) => destruct m as [samples|]; [|done] end.
  cbv zeta. match goal with |- not_fuel (if ?b then _ else _) => destruct b; [done|] end.
  apply not_fuel_bind; [apply wrapTag_not_fuel|done].
Qed.

Ltac safe_step :=
  match goal with
  | |- safe (mret _) _ => apply safe_ret
  | |- safe (lift _) _ => apply safe_lift; (apply wrapTag_not_fuel || apply getNamespace_not_fuel || apply prop_if_not_fuel ||
                            apply make_descriptor_not_fuel || apply createPrimitiveXML_not_fuel || auto with js)
  | |- safe (lift _ ≫= _) _ => apply safe_bind; [|let H := fresh "E" in intros ? ? H ?; injection H as <- H]
  | |- safe (mbind _ _) _ => apply safe_bind; [|intros ? ? ? ?]
  | |- safe (if ?b then _ else _) _ => destruct b eqn:?
  end.

Lemma properties_safe rec props : forall attrs c,
  (forall k p c', (k, p) ∈ props -> grows c c' -> safe (rec k p) c') -> safe (properties_xml rec isParam attrs props) c.
Proof.
  induction props as [|[k p] props IH]; intros attrs c Hrec; cbn [properties_xml]; [apply safe_ret|].
  assert (Hrest : forall attrs c', grows c c' -> safe (properties_xml rec isParam attrs props) c').
  { intros attrs' c' Hg. apply IH. intros k' p' c2 Hin Hg2. apply Hrec; [by right|by eapply grows_trans]. }
  safe_step; [by safe_step|]. destruct (truthy _); [by apply Hrest|]. safe_step; [by safe_step|].
  apply safe_bind; [apply Hrec; [by left|done]|]. intros result c' _ Hg. safe_step; [by safe_step|].
  apply safe_bind; [by apply Hrest|]. intros [text attrs'] c2 _ _. apply safe_ret.
Qed.

Section inner.
Context (rec : jsval -> jsval -> X jsval) (d : descriptor) (c : config).
Hypothesis rec_safe : forall k v c', (vdepth v < vdepth (d_definition d))%nat ->
  (forall r, r ∈ refs v -> r ∈ refs (d_definition d)) -> grows c c' -> safe (rec k v) c'.

Lemma object_safe : safe (createObjectXML rec isParam d) c.
Proof using rec_safe.
  unfold createObjectXML. apply safe_bind; [by safe_step|]. intros properties ? E _. injection E as <- Ep.
  do 3 (safe_step; [by safe_step|]).
  destruct (_ && _); [apply safe_ret|]. apply safe_bind.
  - apply properties_safe. intros k p c' Hin Hg. destruct (js_orv_cases properties (VObj [])) as [[Eo Ht]|[Eo _]]; rewrite Eo in Hin;
      [|by apply not_elem_of_nil in Hin].
    apply entries_inside in Hin as [Hdp Hrf]. pose proof Ep as Ed. apply prop_sdepth in Ed as [->|Ed]; [done| |done].
    pose proof (sdepth_le (d_definition d)). apply rec_safe; [lia| |done]. intros r Hr. by apply (refs_prop _ _ _ _ Ep), Hrf.
  - intros [text attrs] c' _ _. safe_step; [by safe_step|]. apply safe_ret.
Qed.

Lemma array_safe : safe (createArrayXML rec d) c.
Proof using rec_safe.
  unfold createArrayXML. apply safe_bind; [by safe_step|]. intros items ? E _. injection E as <- Ei.
  do 2 (safe_step; [by safe_step|]). destruct (truthy items) eqn:Et; cbn [negb]; [|apply safe_ret].
  do 2 (safe_step; [by safe_step|]). apply safe_bind.
  - apply rec_safe; [|intros r Hr; by apply (refs_prop _ _ _ _ Ei)|apply grows_refl].
    pose proof Ei as Ed. apply prop_sdepth in Ed as [->|Ed]; [done| |done]. pose proof (sdepth_le (d_definition d)). lia.
  - intros v c' _ _. safe_step; [by safe_step|]. safe_step; [|apply safe_ret].
    safe_step; [by safe_step|]. apply safe_ret.
Qed.
End inner.

(** What a reference leads to: a loop, nothing, or a model that was not
    entered. *)
Lemma by_ref_cases r name c :
  not_fuel (getDescriptorByRef models r name c).2 /\
  forall c' od, getDescriptorByRef models r name c = (c', Ok od) ->
  if ignored c r then grows c c' /\ (forall d, od = Some d -> d_type d = vstr "loop")
  else (exists to, c' = Config (modelsToIgnore c ++ [VStr r]) to) /\
       forall d, od = Some d -> (vdepth (d_definition d) <= vdepth (VObj models))%nat /\
                                (forall x, x ∈ refs (d_definition d) -> x ∈ universe).
Proof using models_refs.
  unfold getDescriptorByRef, mbind, st_bind, lift, gets, modify, mret, st_ret.
  pose proof (simpleRef_not_fuel (VStr r)) as Hr.
  destruct (simpleRef (VStr r)) as [mt|e]; [|split; [exact (not_fuel_throw _ Hr)|done]].
  set (model := js_orv (get models (to_str mt)) (VObj [])).
  pose proof (prop_not_fuel model (js "definition")) as Hdf. destruct (prop model (js "definition")) as [definition|e] eqn:E2; [|split; [exact (not_fuel_throw _ Hdf)|done]].
  pose proof (prop_not_fuel model (js "name")) as Hnf. destruct (prop model (js "name")) as [mname|e] eqn:E3; [|split; [exact (not_fuel_throw _ Hnf)|done]].
  pose proof (prop_if_not_fuel (truthy definition) definition (js "type")) as Hf4.
  destruct (if truthy definition then prop definition (js "type") else Ok VUndef) as [type|e]; [|split; [exact (not_fuel_throw _ Hf4)|done]].
  pose proof (prop_if_not_fuel (truthy definition) definition (js "xml")) as Hf5.
  destruct (if truthy definition then prop definition (js "xml") else Ok VUndef) as [xml|e]; [|split; [exact (not_fuel_throw _ Hf5)|done]].
  pose proof (prop_if_not_fuel (truthy xml) xml (js "name")) as Hf6.
  destruct (if truthy xml then prop xml (js "name") else Ok VUndef) as [xname|e]; [|split; [exact (not_fuel_throw _ Hf6)|done]].
  change (index_of (VStr r) (modelsToIgnore c)) with (ignored c r).
  assert (Hin : truthy definition = true -> (vdepth definition <= vdepth (VObj models))%nat /\
                                             (forall x, x ∈ refs definition -> x ∈ universe)).
  { intros Ht. pose proof E2 as Ed. apply prop_sdepth in Ed as [->|Ed]; [done| |done]. pose proof (sdepth_le model) as Hs.
    subst model. destruct (js_orv_cases (get models (to_str mt)) (VObj [])) as [[E _]|[E _]]; rewrite E in *.
    - unfold get in *. destruct (assoc (to_str mt) models) as [m|] eqn:Em; cbn in E2; [|done].
      cbn [default from_option id] in *. apply assoc_some_in in Em. pose proof (vdepth_kv _ _ _ Em). split; [lia|].
      intros x Hx. apply models_refs, (refs_kv _ _ _ _ Em). by apply (refs_prop _ _ _ _ E2).
    - cbn in E2. injection E2 as <-. done. }
  destruct (ignored c r) eqn:Ei.
  - destruct (truthy definition); [|split; [done|intros c' od [= <- <-]; split; [by intros s|done]]].
    pose proof (make_descriptor_not_fuel (js_orv name (js_orv xname mname)) (vstr "loop") definition) as Hm.
    destruct (make_descriptor _ _ definition) as [d|e] eqn:Ed; [|split; [exact (not_fuel_throw _ Hm)|done]].
    split; [done|]. intros c' od [= <- <-]. split; [by intros s|]. intros d' [= <-].
    unfold make_descriptor in Ed. apply bind_ok in Ed as (x1 & _ & Ed). apply bind_ok in Ed as (x2 & _ & [= <-]). done.
  - destruct (truthy definition); [|split; [done|intros c' od [= <- <-]; split; [by eexists|done]]].
    pose proof (make_descriptor_not_fuel (js_orv name (js_orv xname mname)) (js_orv type (vstr "object")) definition) as Hm.
    destruct (make_descriptor _ _ definition) as [d|e] eqn:Ed; [|split; [exact (not_fuel_throw _ Hm)|done]].
    split; [done|]. intros c' od [= <- <-]. split; [by eexists|]. intros d' [= <-].
    unfold make_descriptor in Ed. apply bind_ok in Ed as (x1 & _ & Ed). apply bind_ok in Ed as (x2 & _ & [= <-]).
    by apply Hin.
Qed.

Definition xml_room (c : config) (definition : jsval) : nat :=
  vdepth definition + left_refs c * S (vdepth (VObj models)).

Lemma createSchemaXML_safe n : forall name definition c,
  (forall r, r ∈ refs definition -> r ∈ universe) -> (xml_room c definition < n)%nat ->
  safe (createSchemaXML models isParam n name definition) c.
Proof using models_refs.
  induction n as [|n IH]; intros name definition c Hrefs Hn; [lia|]. cbn [createSchemaXML].
  (* the calls made on behalf of a descriptor *)
  assert (Hbody : forall d c1, (forall r, r ∈ refs (d_definition d) -> r ∈ universe) -> (xml_room c1 (d_definition d) <= n)%nat ->
    safe (if eq_str (d_type d) (js "array") then createArrayXML (createSchemaXML models isParam n) d
          else if eq_str (d_type d) (js "object") then createObjectXML (createSchemaXML models isParam n) isParam d
          else if eq_str (d_type d) (js "loop") then
            to ← gets loopTo; t ← lift (getInfiniteLoopMessage (d_name d) to); mret (VStr t)
          else lift (createPrimitiveXML d)) c1).
  { intros d c1 Hr Hd.
    assert (Hrec : forall k v c', (vdepth v < vdepth (d_definition d))%nat ->
      (forall r, r ∈ refs v -> r ∈ refs (d_definition d)) -> grows c1 c' -> safe (createSchemaXML models isParam n k v) c').
    { intros k v c' Hv Hrv Hg. apply IH; [by intros r Hx; apply Hr, Hrv|].
      pose proof (left_grows _ _ Hg). unfold xml_room in *. nia. }
    destruct (eq_str _ (js "array")); [by apply array_safe|].
    destruct (eq_str _ (js "object")); [by apply object_safe|].
    destruct (eq_str _ (js "loop")); [|by safe_step].
    apply safe_bind; [split; [done|intros c' a [= -> _]; apply grows_refl]|]. intros to c' _ _.
    apply safe_bind; [by safe_step|]. intros t c2 _ _. apply safe_ret. }
  apply safe_bind; [apply safe_lift; by destruct (is_object definition); auto with js|].
  intros ref c0 E _. injection E as <- Eref.
  destruct (match ref with VStr _ => true | _ => false end) eqn:Estr.
  - destruct ref as [| | | |r| | |]; try done. clear Estr.
    assert (Hin : r ∈ universe).
    { destruct definition as [| | | | | |o|]; cbn in Eref; try congruence. apply Hrefs, refs_ref. congruence. }
    destruct (by_ref_cases r name c) as [Hnf Hcases].
    destruct (getDescriptorByRef models r name c) as [c1 [od|e]] eqn:Ed;
      [|apply (safe_throw _ _ _ _ _ Ed); by rewrite Ed]. unfold safe. rewrite (bind_run _ _ _ _ _ Ed).
    specialize (Hcases c1 od eq_refl). destruct (ignored c r) eqn:Ei.
    + destruct Hcases as [Hg Hloop]. destruct od as [d|]; [|split; [done|intros c' a [= <- _]; exact Hg]].
      rewrite (Hloop d eq_refl). change (eq_str (vstr "loop") (js "array")) with false.
      change (eq_str (vstr "loop") (js "object")) with false. change (eq_str (vstr "loop") (js "loop")) with true.
      rewrite andb_false_r.
      pose proof (wrapTag_not_fuel (d_name d) (VStr (js "<!-- Infinite loop $ref:" ++ to_str (loopTo c1) ++ js " -->")) []) as Hw.
      change (wrapTag (d_name d) _ []) with (getInfiniteLoopMessage (d_name d) (loopTo c1)) in Hw.
      unfold mbind, st_bind, gets, lift, mret, st_ret. cbn beta iota.
      destruct (getInfiniteLoopMessage (d_name d) (loopTo c1)) as [t|e].
      * split; [done|]. intros c' a [= <- _]. exact Hg.
      * split; [exact (not_fuel_throw _ Hw)|done].
    + destruct Hcases as [[to ->] Hd]. destruct od as [d|]; [|split; [done|]].
      2: { intros c' a [= <- _] s Hs. unfold ignored in *. cbn. by rewrite index_of_app, Hs. }
      destruct (Hd d eq_refl) as [Hdep Hr]. pose proof (left_push c r to Hin Ei) as Hl.
      destruct (Hbody d (Config (modelsToIgnore c ++ [VStr r]) to) Hr) as [Hb1 Hb2]; [unfold xml_room in *; nia|].
      match type of Hb1 with not_fuel (?m ?c1).2 => destruct (m c1) as [c2 [out|e]] eqn:Eb end.
      2: { rewrite (bind_throw _ _ _ _ _ Eb). split; [exact (not_fuel_throw _ Hb1)|done]. }
      specialize (Hb2 c2 out eq_refl). rewrite (bind_run _ _ _ _ _ Eb). destruct (truthy (VStr r) && _).
      * split; [done|]. intros c' a [= <- _]. by apply (splice_grows c r to).
      * split; [done|]. intros c' a [= <- _] s Hs. apply Hb2. unfold ignored in *. cbn. by rewrite index_of_app, Hs.
  - assert (Hdesc : (match ref with VStr r => getDescriptorByRef models r name
                                  | _ => d ← lift (getDescriptor name definition); mret (Some d) end) =
                    (d ← lift (getDescriptor name definition); mret (Some d))) by (by destruct ref).
    rewrite Hdesc. clear Hdesc.
    assert (Hg : not_fuel (getDescriptor name definition)).
    { unfold getDescriptor. do 2 (apply not_fuel_bind; [auto with js|]; intros ? _).
      apply not_fuel_bind; [apply prop_if_not_fuel|]. intros; apply make_descriptor_not_fuel. }
    apply safe_bind.
    { apply safe_bind; [by apply safe_lift|]. intros d c' _ _. apply safe_ret. }
    intros od c' E _. apply st_bind_ok in E as (d & c1 & E & E2). injection E as <- Ed. injection E2 as <- <-.
    assert (Edef : d_definition d = definition).
    { unfold getDescriptor, make_descriptor in Ed. apply bind_ok in Ed as (? & _ & Ed). apply bind_ok in Ed as (? & _ & Ed).
      apply bind_ok in Ed as (? & _ & Ed). apply bind_ok in Ed as (? & _ & Ed). by apply bind_ok in Ed as (? & _ & [= <-]). }
    apply safe_bind; [apply Hbody; rewrite Edef; [done|lia]|].
    intros out c2 _ _. apply safe_bind; [|intros; apply safe_ret].
    destruct (_ && _); [|apply safe_ret]. split; [done|]. intros c' a [= <- _]. apply splice_other.
    intros s ->. done.
Qed.
End xml_ends.

(** The XML sample of a schema comes to an end, whatever models refer to
    each other: every reference is followed once on the way down. *)
Theorem createXMLSample_ends models isParam name definition :
  createXMLSample (xml_fuel models definition) models isParam name definition <> Throw Unsupported.
Proof.
  unfold createXMLSample. apply not_fuel_bind; [|done].
  apply (createSchemaXML_safe models isParam (refs definition ++ refs (VObj models))).
  - intros r Hr. apply elem_of_app. by right.
  - intros r Hr. apply elem_of_app. by left.
  - unfold xml_room, xml_fuel, left_refs. pose proof (length_filter (fun r => ignored (Config [] VUndef) r = false)
      (refs definition ++ refs (VObj models))). nia.
Qed.

(** ** XML samples are well formed *)

(** Text without angle brackets, and values made of such text. *)
Definition clean (s : jsstr) : bool := forallb (fun c => negb (c =? LT) && negb (c =? GT)) s.
Fixpoint vclean (v : jsval) : bool :=
  match v with
  | VStr s => clean s
  | VNum (NFrac t) => clean t
  | VArr l => forallb vclean l
  | VObj o => forallb (fun kv => clean kv.1 && vclean kv.2) o
  | VHost t _ => clean t
  | _ => true
  end.

(** Content: text, comments and elements with matching tags. *)
Inductive content : jsstr -> Prop :=
| content_text s : clean s = true -> content s
| content_comment s : clean s = true -> content (js "<!-- " ++ s ++ js " -->")
| content_element name attrs body :
    name <> [] -> clean name = true -> clean attrs = true -> content body ->
    content (js "<" ++ name ++ attrs ++ js ">" ++ body ++ js "</" ++ name ++ js ">")
| content_app a b : content a -> content b -> content (a ++ b).

Lemma clean_app a b : clean (a ++ b) = clean a && clean b.
Proof. apply forallb_app. Qed.
Lemma clean_concat ls : Forall (fun s => clean s = true) ls -> clean (List.concat ls) = true.
Proof. induction 1 as [|s ls H _ IH]; [done|]. cbn. by rewrite clean_app, H, IH. Qed.
Lemma clean_join sep ls : clean sep = true -> Forall (fun s => clean s = true) ls -> clean (join sep ls) = true.
Proof.
  intros Hs. induction 1 as [|s ls H _ IH]; [done|]. destruct ls as [|t ls]; [done|].
  change (join sep (s :: t :: ls)) with (s ++ sep ++ join sep (t :: ls)). by rewrite !clean_app, H, Hs, IH.
Qed.
Lemma clean_digits l : Forall (fun d => 0 <= d < 10) l -> clean (digit_unit <$> l) = true.
Proof.
  induction 1 as [|d l H _ IH]; [done|]. unfold clean in *. cbn. rewrite IH, andb_true_r.
  unfold digit_unit. rewrite (proj2 (Z.ltb_lt d 10)) by lia.
  rewrite !(proj2 (Z.eqb_neq _ _)) by (unfold LT, GT; lia). done.
Qed.
Lemma radix_digits_range f n : Forall (fun d => 0 <= d < 10) (radix_digits f 10 n) \/ n < 0.
Proof.
  destruct (Z.lt_ge_cases n 0) as [|H]; [by right|left]. revert n H.
  induction f as [|f IH]; intros n H; cbn [radix_digits]; [constructor|].
  destruct (Z.ltb_spec n 10); [by repeat constructor|]. apply Forall_app. split; [apply IH; by apply Z.div_pos|].
  repeat constructor; apply Z.mod_pos_bound; lia.
Qed.
Lemma clean_Z n : clean (Z_to_str n) = true.
Proof.
  unfold Z_to_str, radix_string. destruct (Z.ltb_spec n 0).
  - change (clean (chr "-" :: ?l)) with (clean ([chr "-"] ++ l)). rewrite clean_app.
    destruct (radix_digits_range (nat_fuel (- n)) (- n)) as [Hr|]; [|lia]. by rewrite clean_digits.
  - destruct (radix_digits_range (nat_fuel n) n) as [Hr|]; [|lia]. by apply clean_digits.
Qed.
Lemma clean_to_str v : vclean v = true -> clean (to_str v) = true.
Proof.
  induction v as [| |b|n|s|l IH|o IH|t n] using jsval_nested_ind; intros H; cbn [vclean to_str] in *; try done.
  - by destruct b.
  - destruct n; [apply clean_Z|done|done].
  - apply clean_join; [done|]. induction IH as [|x l Hx _ IHl]; [constructor|]. cbn in H. btrue.
    constructor; [|by apply IHl]. destruct (is_nullish x); [done|by apply Hx].
  - by rewrite !clean_app, H.
Qed.

Lemma vclean_get o k : vclean (VObj o) = true -> vclean (get o k) = true.
Proof.
  intros H. unfold get. destruct (assoc k o) as [v|] eqn:E; [|done]. apply assoc_some_in in E.
  cbn in H. rewrite forallb_forall in H. apply list_elem_of_In, H in E. by btrue.
Qed.
Lemma vclean_prop v k r : prop v k = Ok r -> vclean v = true -> vclean r = true.
Proof. destruct v; cbn [prop]; intros H Hv; simplify_eq; try done. by apply vclean_get. Qed.
Lemma vclean_orv a b : vclean a = true -> vclean b = true -> vclean (js_orv a b) = true.
Proof. intros Ha Hb. unfold js_orv. by destruct (truthy a). Qed.
Lemma vclean_entries k p v : vclean v = true -> (k, p) ∈ entries v -> vclean k = true /\ vclean p = true.
Proof.
  destruct v as [| | | |s|l|o|]; cbn [entries]; intros Hv Hin; try by apply not_elem_of_nil in Hin.
  - apply elem_of_lookup_imap in Hin as (i & x & [= -> ->] & Hx). split; [done|]. apply list_elem_of_lookup_2 in Hx.
    cbn in *. unfold clean in *. rewrite forallb_forall in Hv. apply list_elem_of_In, Hv in Hx. cbn. by rewrite Hx.
  - apply elem_of_lookup_imap in Hin as (i & x & [= -> ->] & Hx). split; [done|]. apply list_elem_of_lookup_2 in Hx.
    cbn in Hv. rewrite forallb_forall in Hv. by apply Hv, list_elem_of_In.
  - apply list_elem_of_fmap in Hin as ([k' p'] & [= -> ->] & Hin). rewrite for_in_elem in Hin.
    cbn in Hv. rewrite forallb_forall in Hv. apply list_elem_of_In, Hv in Hin. cbn in Hin. by btrue.
Qed.
Lemma vclean_simpleRef v r : simpleRef v = Ok r -> vclean v = true -> vclean r = true.
Proof.
  unfold simpleRef. destruct v; cbn; intros H Hv; try done; [by injection H as <-|].
  destruct (startsWith s definitions_prefix); injection H as <-; [|done]. cbn.
  unfold substring_from, substring, clean in *. rewrite forallb_forall in *. intros x Hx. apply Hv.
  apply list_elem_of_In in Hx. apply list_elem_of_In.
  apply (elem_of_submseteq _ _ _ Hx). apply sublist_submseteq.
  etrans; [apply sublist_take|apply sublist_drop].
Qed.

(** The result of a computation that succeeded, as it is written. *)
Ltac ok_eq H y := match type of H with Ok ?x = _ => assert (y = x) by congruence; subst y; clear H end.

(** Attributes are clean text. *)
Definition attr_ok (a : jsval) : Prop := forall s, attribute a = Ok s -> clean s = true.
Lemma attr_clean a : vclean a = true -> attr_ok a.
Proof.
  intros H s Hs. unfold attribute in Hs. apply bind_ok in Hs as (n & Hn & Hs). apply bind_ok in Hs as (v & Hv & [= <-]).
  assert (Ha : forall x y, clean x = true -> clean y = true -> clean (x ++ y) = true) by (intros; by rewrite clean_app; apply andb_true_iff).
  repeat apply Ha; try done; apply clean_to_str; by eapply vclean_prop.
Qed.
Lemma attr_string s : attr_ok (VStr s).
Proof. by intros t [= <-]. Qed.

(** What the samples are: content, or an attribute. *)
Definition piece (v : jsval) : Prop := (exists s, v = VStr s /\ content s) \/ (exists o, v = VObj o /\ vclean v = true).
Lemma piece_content v : piece v -> content (to_str v).
Proof. intros [(s & -> & H)|(o & -> & _)]; [done|by constructor]. Qed.
Lemma piece_attr v : piece v -> attr_ok v.
Proof. intros [(s & -> & _)|(o & -> & H)]; [apply attr_string|by apply attr_clean]. Qed.

Lemma error_content details : clean details = true -> content (getErrorMessage details).
Proof.
  intros H. unfold getErrorMessage. set (d := match details with [] => [] | _ => js ": " ++ details end).
  assert (E : js "<!-- invalid XML" ++ d ++ js " -->" = js "<!-- " ++ (js "invalid XML" ++ d) ++ js " -->") by done.
  rewrite E. apply content_comment. rewrite clean_app. unfold d. destruct details; [done|]. by rewrite clean_app, H.
Qed.
Lemma wrap_content name value attrs t :
  clean name = true -> Forall attr_ok attrs -> piece value -> wrapTag name value attrs = Ok t -> content t.
Proof.
  intros Hn Ha Hv H. unfold wrapTag in H. apply bind_ok in H as (texts & Ht & [= <-]).
  destruct name as [|c name]; [by apply error_content|]. apply content_element; [done|done| |].
  - apply clean_concat. apply mapM_res_ok in Ht. clear -Ha Ht. induction Ht as [|a s attrs texts H _ IH]; [constructor|].
    inversion Ha; subst. constructor; auto.
  - destruct (is_nullish value); [by constructor|by apply piece_content].
Qed.
Lemma namespace_ok xml l : vclean xml = true -> getNamespace xml = Ok l -> Forall attr_ok l.
Proof.
  intros Hx H. unfold getNamespace in H. apply bind_ok in H as (ns & Hns & H). apply bind_ok in H as (pre & Hp & H).
  ok_eq H l.
  assert (Hc : vclean (js_orv xml (VObj [])) = true) by by apply vclean_orv.
  pose proof (vclean_prop _ _ _ Hns Hc). pose proof (vclean_prop _ _ _ Hp Hc).
  destruct (truthy ns); [|constructor]. repeat constructor. apply attr_clean.
  assert (Hk : clean (js "xmlns" ++ (if truthy pre then js ":" ++ to_str pre else [])) = true).
  { rewrite clean_app. destruct (truthy pre); [|done]. by rewrite clean_app, clean_to_str. }
  cbn [vclean forallb fst snd]. rewrite Hk. by rewrite !andb_true_r.
Qed.

Section well_formed.
Context (models : obj) (isParam : bool).
Hypothesis models_clean : vclean (VObj models) = true.

(** A computation whose results have a property, the text a loop shows being
    clean before and after. *)
Definition yields {A} (m : X A) (Q : A -> Prop) : Prop :=
  forall c c' a, vclean (loopTo c) = true -> m c = (c', Ok a) -> vclean (loopTo c') = true /\ Q a.

Lemma yields_bind {A B} (m : X A) (f : A -> X B) Q R :
  yields m Q -> (forall a, Q a -> yields (f a) R) -> yields (m ≫= f) R.
Proof.
  intros Hm Hf c c' b Hc H. apply st_bind_ok in H as (a & c1 & Ha & Hb). destruct (Hm _ _ _ Hc Ha) as [Hc1 Hq].
  by apply (Hf a Hq c1 c' b).
Qed.
Lemma yields_ret {A} (a : A) (Q : A -> Prop) : Q a -> yields (mret a) Q.
Proof. by intros H c c' b Hc [= <- <-]. Qed.
Lemma yields_lift {A} (r : res A) (Q : A -> Prop) : (forall a, r = Ok a -> Q a) -> yields (lift r) Q.
Proof. intros H c c' a Hc [= <- E]. auto. Qed.
Lemma yields_prop v k : vclean v = true -> yields (lift (prop v k)) (fun r => vclean r = true).
Proof. intros H. apply yields_lift. intros r Hr. by eapply vclean_prop. Qed.
Lemma yields_prop_if (b : bool) v k :
  (b = true -> vclean v = true) -> yields (lift (if b then prop v k else Ok VUndef)) (fun r => vclean r = true).
Proof. intros H. apply yields_lift. destruct b; [|by intros r [= <-]]. intros r Hr. eapply vclean_prop; eauto. Qed.

Definition descriptor_ok (d : descriptor) : Prop := clean (d_name d) = true /\ vclean (d_definition d) = true.

Lemma make_descriptor_ok name type definition d :
  vclean name = true -> vclean definition = true -> make_descriptor name type definition = Ok d -> descriptor_ok d.
Proof.
  intros Hn Hd H. unfold make_descriptor in H. apply bind_ok in H as (xml & Hx & H). apply bind_ok in H as (n & Hp & [= <-]).
  split; [|done]. cbn [d_name]. unfold getPrefix in Hp. apply bind_ok in Hp as (pre & Hpre & Hp). ok_eq Hp n.
  assert (Hc : clean (to_str (js_orv name (VStr []))) = true) by (apply clean_to_str, vclean_orv; done).
  destruct (truthy pre); [|done]. rewrite !clean_app, Hc, clean_to_str; [done|].
  eapply vclean_prop; [done|]. apply vclean_orv; [by eapply vclean_prop|done].
Qed.

Lemma primitive_ok d v : descriptor_ok d -> createPrimitiveXML d = Ok v -> piece v.
Proof.
  intros [Hn Hd] H. unfold createPrimitiveXML in H. apply bind_ok in H as (type & _ & H). apply bind_ok in H as (format & _ & H).
  apply bind_ok in H as (xml & Hx & H). apply bind_ok in H as (ns & Hns & H). apply bind_ok in H as (enum & He & H).
  apply bind_ok in H as (example & Hex & H). apply bind_ok in H as (attr & _ & H).
  assert (Hs : forall samples, (match type with VStr t => assoc t primitivesMap | _ => None end) = Some samples ->
            forall k, vclean (get samples k) = true).
  { intros samples E k. destruct type; try done. apply assoc_some_in in E. apply vclean_get.
    unfold primitivesMap in E. rewrite !elem_of_cons in E. destruct E as [[= _ ->]|[[= _ ->]|[[= _ ->]|[[= _ ->]|E]]]]; try reflexivity.
    by apply not_elem_of_nil in E. }
  destruct (match type with VStr t => assoc t primitivesMap | _ => None end) as [samples|];
    [|injection H as <-; left; eexists; split; [done|by apply error_content]].
  specialize (Hs samples eq_refl). cbv zeta in H.
  match type of H with context [wrapTag _ ?x _] => set (value := x) in * end.
  assert (Hv : vclean value = true).
  { unfold value. pose proof (vclean_prop _ _ _ He Hd) as Hce. destruct enum as [| | | | |[|v0 l]| |]; try done;
      try (apply vclean_orv; [by eapply vclean_prop|by apply vclean_orv]).
    cbn in Hce |- *. by btrue. }
  destruct (truthy attr).
  - injection H as <-. right. eexists. split; [done|]. cbn [vclean forallb fst snd]. by rewrite Hn, Hv.
  - apply bind_ok in H as (t & Ht & [= <-]). left. exists t. split; [done|].
    unfold wrapTag in Ht. apply bind_ok in Ht as (texts & Hts & [= <-]).
    apply (wrap_content (d_name d) (VStr (if is_nullish value then [] else to_str value)) ns); [done| | |].
    + apply (namespace_ok _ _) with (2 := Hns). apply vclean_orv; [by eapply vclean_prop|done].
    + left. eexists. split; [done|]. constructor. destruct (is_nullish value); [done|by apply clean_to_str].
    + unfold wrapTag. rewrite Hts. done.
Qed.

Lemma properties_ok rec props : forall attrs,
  (forall k p, (k, p) ∈ props -> vclean k = true /\ vclean p = true) -> Forall attr_ok attrs ->
  (forall k v, vclean k = true -> vclean v = true -> yields (rec k v) piece) ->
  yields (properties_xml rec isParam attrs props) (fun r => content r.1 /\ Forall attr_ok r.2).
Proof.
  intros attrs Hp Ha Hrec. revert attrs Ha. induction props as [|[k p] props IH]; intros attrs Ha; cbn [properties_xml].
  - apply yields_ret. split; [by constructor|done].
  - destruct (Hp k p ltac:(by left)) as [Hk Hpc].
    assert (Hrest : forall attrs, Forall attr_ok attrs ->
              yields (properties_xml rec isParam attrs props) (fun r => content r.1 /\ Forall attr_ok r.2)).
    { apply IH. intros k' p' Hin. apply Hp. by right. }
    apply (yields_bind _ _ (fun _ => True)); [by apply yields_lift|]. intros readOnly _.
    destruct (truthy readOnly); [by apply Hrest|].
    apply (yields_bind _ _ (fun _ => True)); [by apply yields_lift|]. intros xml _.
    apply (yields_bind _ _ piece); [by apply Hrec|]. intros result Hres.
    apply (yields_bind _ _ (fun _ => True)); [by apply yields_lift|]. intros attr _.
    eapply yields_bind; [apply Hrest|].
    + destruct (truthy attr); [|done]. apply Forall_app. split; [done|]. repeat constructor. by apply piece_attr.
    + intros [text attrs'] [Ht Ha']. apply yields_ret. split; [|done]. cbn [fst]. apply content_app; [|done].
      destruct (truthy attr); [by constructor|]. destruct (is_nullish result); [by constructor|by apply piece_content].
Qed.

Section pieces.
Context (rec : jsval -> jsval -> X jsval) (d : descriptor).
Hypothesis rec_ok : forall k v, vclean k = true -> vclean v = true -> yields (rec k v) piece.
Hypothesis d_ok : descriptor_ok d.

Lemma error_piece : piece (VStr (getErrorMessage [])).
Proof using. left. eexists. split; [done|]. by apply error_content. Qed.

Lemma object_ok : yields (createObjectXML rec isParam d) piece.
Proof using rec_ok d_ok.
  destruct d_ok as [Hn Hd]. unfold createObjectXML.
  eapply yields_bind; [by apply yields_prop|]. intros properties Hp.
  eapply yields_bind; [by apply yields_prop|]. intros additional _.
  eapply yields_bind; [by apply yields_prop|]. intros xml Hx.
  apply (yields_bind _ _ (Forall attr_ok)); [apply yields_lift; intros l; by apply namespace_ok|]. intros ns Hns.
  destruct (_ && _); [apply yields_ret, error_piece|].
  eapply yields_bind; [apply properties_ok; [|done|done]|].
  - intros k p. apply vclean_entries. by apply vclean_orv.
  - intros [text attrs] [Ht Ha]. cbn [fst snd] in *. apply (yields_bind _ _ content).
    + apply yields_lift. intros t. apply wrap_content; [done..|]. left. eexists. split; [done|].
      destruct (truthy additional); [|done]. apply content_app; [done|].
      exact (content_comment (js "additional elements allowed") eq_refl).
    + intros t Hc. apply yields_ret. left. by exists t.
Qed.

Lemma array_ok : yields (createArrayXML rec d) piece.
Proof using rec_ok d_ok.
  destruct d_ok as [Hn Hd]. unfold createArrayXML.
  eapply yields_bind; [by apply yields_prop|]. intros items Hi.
  eapply yields_bind; [by apply yields_prop|]. intros xml Hx.
  apply (yields_bind _ _ (Forall attr_ok)).
  { apply yields_lift. intros l. apply namespace_ok. by apply vclean_orv. }
  intros ns Hns. destruct (negb (truthy items)); [apply yields_ret, error_piece|].
  eapply yields_bind; [by apply yields_prop|]. intros ixml Hix.
  eapply yields_bind; [by apply yields_prop_if|]. intros iname Hin.
  apply (yields_bind _ _ piece); [apply rec_ok; [by apply vclean_orv|done]|]. intros value Hv.
  apply (yields_bind _ _ (fun _ => True)); [by apply yields_lift|]. intros wrapped _.
  destruct (truthy wrapped); [|by apply yields_ret].
  apply (yields_bind _ _ content); [apply yields_lift; intros t; by apply wrap_content|].
  intros t Ht. apply yields_ret. left. by exists t.
Qed.
End pieces.

Lemma by_ref_ok r name : clean r = true -> vclean name = true ->
  yields (getDescriptorByRef models r name) (fun od => forall d, od = Some d -> descriptor_ok d).
Proof using models_clean.
  intros Hr Hn. unfold getDescriptorByRef.
  apply (yields_bind _ _ (fun t => vclean t = true)); [apply yields_lift; intros t Ht; by eapply vclean_simpleRef|].
  intros mt Hmt. cbv zeta. set (model := js_orv (get models (to_str mt)) (VObj [])).
  assert (Hm : vclean model = true) by (apply vclean_orv; [by apply vclean_get|done]).
  eapply yields_bind; [by apply yields_prop|]. intros definition Hd.
  eapply yields_bind; [by apply yields_prop|]. intros mname Hmn.
  eapply yields_bind; [by apply yields_prop_if|]. intros type _.
  eapply yields_bind; [by apply yields_prop_if|]. intros xml Hx.
  eapply yields_bind; [by apply yields_prop_if|]. intros xname Hxn.
  apply (yields_bind _ _ (fun _ => True)); [by intros c c' a Hc [= <- _]|]. intros looping _.
  apply (yields_bind _ _ (fun _ => True)).
  { destruct looping; intros c c' a Hc [= <- _]; by split. }
  intros _ _. destruct (truthy definition); [|by apply yields_ret].
  apply (yields_bind _ _ descriptor_ok).
  - apply yields_lift. intros d. apply make_descriptor_ok; [|done]. by repeat apply vclean_orv.
  - intros d Hdk. apply yields_ret. by intros d' [= <-].
Qed.

Lemma schema_xml_ok n : forall name definition, vclean name = true -> vclean definition = true ->
  yields (createSchemaXML models isParam n name definition) piece.
Proof using models_clean.
  induction n as [|n IH]; intros name definition Hn Hd; [by intros c c' a _|]. cbn [createSchemaXML].
  eapply yields_bind; [apply yields_lift; intros ref Href|].
  { instantiate (1 := fun ref => vclean ref = true). destruct (is_object definition); [by eapply vclean_prop|by injection Href as <-]. }
  intros ref Href. apply (yields_bind _ _ (fun od => forall d, od = Some d -> descriptor_ok d)).
  { assert (Hdirect : yields (d ← lift (getDescriptor name definition); mret (Some d)) (fun od => forall d, od = Some d -> descriptor_ok d)).
    { apply (yields_bind _ _ descriptor_ok); [apply yields_lift; intros d H|intros d Hok; apply yields_ret; by intros d' [= <-]].
      unfold getDescriptor in H. apply bind_ok in H as (type & _ & H). apply bind_ok in H as (xml & Hx & H).
      apply bind_ok in H as (xname & Hxn & H). revert H. apply make_descriptor_ok; [|done]. apply vclean_orv; [|done].
      destruct (truthy xml); [|by injection Hxn as <-]. eapply vclean_prop; [done|]. by eapply vclean_prop. }
    destruct ref; try exact Hdirect. by apply by_ref_ok. }
  intros [d|] Hok; [|apply yields_ret, error_piece]. specialize (Hok d eq_refl).
  apply (yields_bind _ _ piece).
  { destruct (eq_str _ (js "array")); [by apply array_ok|]. destruct (eq_str _ (js "object")); [by apply object_ok|].
    destruct (eq_str _ (js "loop")).
    - apply (yields_bind _ _ (fun t => vclean t = true)); [by intros c c' a Hc [= <- <-]|]. intros to Hto.
      apply (yields_bind _ _ content).
      + apply yields_lift. intros t. destruct Hok as [Hdn _]. apply wrap_content; [done|constructor|]. left. eexists. split; [done|].
        assert (E : js "<!-- Infinite loop $ref:" ++ to_str to ++ js " -->" =
                    js "<!-- " ++ (js "Infinite loop $ref:" ++ to_str to) ++ js " -->") by done.
        rewrite E. apply content_comment. by rewrite clean_app, clean_to_str.
      + intros t Ht. apply yields_ret. left. by exists t.
    - apply yields_lift. intros v. by apply primitive_ok. }
  intros output Hout. apply (yields_bind _ _ (fun _ => True)); [|intros; by apply yields_ret].
  destruct (_ && _); [|by apply yields_ret]. intros c c' a Hc [= <- _]. by split.
Qed.

(** The XML sample of a schema is well formed: elements with matching tags,
    comments and text, when no name, value or reference of the document has
    angle brackets in it. *)
Theorem createSchemaXML_well_formed n name definition s :
  vclean name = true -> vclean definition = true ->
  (createSchemaXML models isParam n name definition (Config [] VUndef)).2 = Ok (VStr s) -> content s.
Proof using models_clean.
  intros Hn Hd H. destruct (createSchemaXML models isParam n name definition (Config [] VUndef)) as [c r] eqn:E. cbn in H. subst r.
  by destruct (schema_xml_ok n name definition Hn Hd (Config [] VUndef) c (VStr s) eq_refl E) as [_ [(t & [= ->] & Ht)|(o & [=] & _)]].
Qed.
End well_formed.

Definition pet_schema : jsval :=
  VObj [(js "type", vstr "object");
        (js "properties", VObj [(js "id", VObj [(js "type", vstr "integer"); (js "xml", VObj [(js "attribute", VBool true)])]);
                                (js "friend", VObj [(js "$ref", vstr "#/definitions/Pet")])])].
Definition pet_models : obj := [(js "Pet", VObj [(js "name", vstr "Pet"); (js "definition", pet_schema)])].

Lemma createSchemaXML_well_formed_witness :
  content (hq "<Pet id=`1`><friend><!-- Infinite loop $ref:Pet --></friend></Pet>").
Proof.
  apply (createSchemaXML_well_formed pet_models false eq_refl 9 VUndef (VObj [(js "$ref", vstr "#/definitions/Pet")])); vm_compute; reflexivity.
Defined.

(** ** What the code does otherwise than meant *)

(** A list that is to be an attribute becomes an attribute without name and
    value. *)
Example list_attribute :
  let d := VObj [(js "properties", VObj [(js "tags", VObj [(js "type", vstr "array"); (js "items", VObj [(js "type", vstr "string")]);
                                                           (js "xml", VObj [(js "attribute", VBool true)])])])] in
  (createSchemaXML [] false 9 (vstr "Pet") d (Config [] VUndef)).2 = Ok (VStr (hq "<Pet undefined=`undefined`></Pet>")).
Proof. vm_compute. reflexivity. Qed.

(** An attribute by reference ends up in the text. *)
Example referenced_attribute :
  let models := [(js "Id", VObj [(js "name", vstr "Id"); (js "definition", VObj [(js "type", vstr "integer"); (js "xml", VObj [(js "attribute", VBool true)])])])] in
  let d := VObj [(js "properties", VObj [(js "id", VObj [(js "$ref", vstr "Id")])])] in
  (createSchemaXML models false 9 (vstr "Pet") d (Config [] VUndef)).2 = Ok (vstr "<Pet>[object Object]</Pet>").
Proof. vm_compute. reflexivity. Qed.

(** The JSON sample of a response with examples is the table of its examples. *)
Example examples_by_type :
  let examples := VObj [(js "application/json", VObj [(js "id", vint 7)])] in
  createJSONSample [] default_macro Ok (VObj [(js "name", vstr "Pet"); (js "definition", pet_schema); (js "examples", examples)]) [] =
  Ok examples.
Proof. vm_compute. reflexivity. Qed.

(** A model without a definition is refused, though a default is provided. *)
Example no_definition : Model (vstr "Pet") VUndef = Throw TypeError.
Proof. reflexivity. Qed.
