(* ===== verification/OperationView.v ===== *)
(** * The view of an operation

    [SwaggerUi.Views.OperationView] in swagger-ui.js: what [render] works out
    for the page (scopes, response messages, content types), where the popup of
    the scopes goes, and [showStatus], which shows the response of a request.
    A view of the page is the text it writes; templates, animation and user
    hooks are not modelled. *)

From Stdlib Require Import String.
From S2P Require Import Prelude JsNumber JsString JsValue SchemaMarkup Samples.

(** ** Where the popup goes *)

Record viewport := Viewport { scrollLeft : Z; scrollTop : Z; width : Z; height : Z }.
(** [mouseEnter]: left and top, for an element of width [wd] and height [hgh]. *)
Definition keep_in (lo hi size x : Z) : Z :=
  let x := if hi <? x + size then hi - size else x in
  if x <? lo then lo else x.
Definition mouseEnter (w : viewport) (wd hgh pageX pageY : Z) : Z * Z :=
  (keep_in (scrollLeft w) (scrollLeft w + width w) wd pageX, keep_in (scrollTop w) (scrollTop w + height w) hgh pageY).

(** ** What render works out *)

(** [this.auths]: name, type and definition. *)
Record view_auth := ViewAuth { va_name : jsstr; va_type : jsval; va_value : jsval }.

(** [x.indexOf(k) >= 0], for the lists of scopes and for strings. *)
Definition has_scope (v : jsval) (k : jsstr) : res bool :=
  match v with
  | VArr l => Ok (bool_decide (VStr k ∈ l))
  | VStr s => Ok (includes s k)
  | _ => Throw TypeError
  end.
Definition scope_entry (k : jsstr) (v : jsval) : jsval := VObj [(js "scope", VStr k); (js "description", v)].

(** A scheme of a requirement: each OAuth scheme starts the scopes anew. *)
Definition requirement_scopes (auths : list view_auth) (oauth : option (list jsval)) (entry : jsstr * jsval) :
    res (option (list jsval)) :=
  let '(key, wanted) := entry in
  foldM_res (fun oauth auth =>
    if bool_decide (key = va_name auth) && eq_str (va_type auth) (js "oauth2") then
      scopes ← prop (va_value auth) (js "scopes");
      kept ← foldM_res (fun l '(k, v) => b ← has_scope wanted k; Ok (if b : bool then l ++ [scope_entry k v] else l)) [] (for_in_val scopes);
      Ok (Some kept)
    else Ok oauth) oauth auths.
(** [v[0]], ..., [v[v.length - 1]]. *)
Definition elements (v : jsval) : list jsval := match v with VObj _ => [] | _ => (for_in_val v).*2 end.
(** [this.model.oauth.scopes]. *)
Definition model_oauth (auths : list view_auth) (modelAuths : jsval) : res (option (list jsval)) :=
  if negb (truthy modelAuths) then Ok None
  else
    match modelAuths with
    | VArr l => foldM_res (fun oauth requirement => foldM_res (requirement_scopes auths) oauth (for_in_val requirement)) None l
    | _ => foldM_res (fun oauth '(k, v) =>
        if bool_decide (k = js "oauth2") then
          match v with
          | VUndef | VNull => Throw TypeError
          | _ => Ok (Some (default [] oauth ++ elements v))
          end
        else Ok oauth) None (for_in_val modelAuths)
    end.

(** [schema.replace(/^.*#\/definitions\//, '')]: up to the last such text of the
    first line. *)
Definition DEFINITIONS := js "#/definitions/".
Definition model_name (ref : jsstr) : jsstr :=
  if includes ref DEFINITIONS then
    let i := lastIndexOf (until_term ref) DEFINITIONS in
    if 0 <=? i then drop (Z.to_nat i + length DEFINITIONS) ref else ref
  else ref.
Definition response_message (entry : jsstr * jsval) : res jsval :=
  let '(code, value) := entry in
  schemaObj ← prop value (js "schema");
  schema ← (if truthy schemaObj then
              ref ← prop schemaObj (js "$ref");
              if truthy ref then r ← as_str ref; Ok (VStr (model_name r)) else Ok VNull
            else Ok VNull);
  description ← prop value (js "description");
  headers ← prop value (js "headers");
  Ok (VObj [(js "code", VStr code); (js "message", description); (js "responseModel", schema); (js "headers", headers); (js "schema", schemaObj)]).
Definition responseMessages (responses old : jsval) : res jsval :=
  if is_undef responses then Ok (if is_undef old then VArr [] else old)
  else VArr <$> mapM_res response_message (for_in_val responses).

(** [contains]: only whether the count is zero is used. *)
Definition contains_type (types : jsval) (type : jsstr) : res bool :=
  match types with
  | VArr l => flags ← mapM_res (fun val => s ← as_str val; Ok (includes s type)) l; Ok (List.existsb id flags)
  | _ => Throw TypeError
  end.
(** [isXML] and [isJSON]. *)
Definition sample_kinds (produces : jsval) : res (bool * bool) :=
  isXML ← contains_type produces (js "xml");
  isJSON ← (if isXML : bool then contains_type produces (js "json") else Ok true);
  Ok (isXML, isJSON).

(** The types of the parameters: a missing one becomes the empty text, so a type
    is never taken from the schema; a file makes the request multipart. *)
Definition param_type (consumes : jsval) (param : obj) : res (jsval * obj) :=
  let type := js_orv (js_orv (get param (js "type")) (get param (js "dataType"))) (VStr []) in
  consumes ← (if truthy type then
                t ← as_str type;
                Ok (if bool_decide (toLowerCase t = js "file") && negb (truthy consumes) then vstr "multipart/form-data" else consumes)
              else Ok consumes);
  Ok (consumes, put (js "type") type param).
Fixpoint param_types (consumes : jsval) (params : list obj) : res (jsval * list obj) :=
  match params with
  | [] => Ok (consumes, [])
  | p :: params =>
      '(consumes, p) ← param_type consumes p;
      '(consumes, params) ← param_types consumes params;
      Ok (consumes, p :: params)
  end.

(** [parseHeadersType]. *)
Definition header_type (header : jsval) : jsval :=
  match header with
  | VObj h =>
      if eq_str (get h (js "type")) (js "string") then
        if eq_str (get h (js "format")) (js "date-time") then VObj (put (js "type") (vstr "dateTime") h)
        else if eq_str (get h (js "format")) (js "date") then VObj (put (js "type") (vstr "date") h)
        else header
      else header
  | _ => header
  end.
Definition parseHeadersType (headers : obj) : obj := (fun '(k, h) => (k, header_type h)) <$> headers.

(** [parseResponseHeaders]: the other properties of a header; the result of the
    [join] is dropped, so [other] stays a list. *)
Definition other_properties (header : obj) : list jsval :=
  (fun '(k, v) => VStr (k ++ js ": " ++ to_str v)) <$>
  List.filter (fun kv => negb (bool_decide (toLowerCase kv.1 ∈ [js "type"; js "description"]))) (for_in header).
Definition parseResponseHeaders (headers : obj) : obj :=
  (fun '(k, h) => (k, match h with VObj o => VObj (put (js "other") (VArr (other_properties o)) o) | _ => h end)) <$> headers.

Section add_parameter.
(** [$.extend(true, a, b)]. *)
Context (deep_extend : obj -> jsval -> obj).
(** [addParameter], up to the view. *)
Definition addParameter (definitions : obj) (defaultRendering consumes : jsval) (param : obj) : obj :=
  let param := put (js "defaultRendering") defaultRendering (put (js "consumes") consumes param) in
  match get param (js "schema") with
  | VObj schema =>
      let schema := deep_extend schema (get definitions (to_str (get param (js "type")))) in
      let schema := put (js "definitions") (VObj definitions) schema in
      let schema := if truthy (get schema (js "type")) then schema else put (js "type") (vstr "object") schema in
      let schema := if truthy (get schema (js "title")) then schema else put (js "title") (vstr " ") schema in
      put (js "schema") (VObj schema) param
  | _ => param
  end.
End add_parameter.

(** What [render] changes of the model and passes on to the views of the response
    messages and parameters. *)
Record rendered := Rendered {
  isReadOnly : bool;
  oauth_scopes : option (list jsval);
  messages : list jsval;
  rd_consumes : jsval;
  rd_parameters : list obj
}.
Definition message_kinds (isXML isJSON : bool) (m : jsval) : jsval :=
  let o := put (js "isJSON") (VBool isJSON) (put (js "isXML") (VBool isXML) (as_obj m)) in
  VObj (match get o (js "headers") with VObj h => put (js "headers") (VObj (parseHeadersType h)) o | _ => o end).
Definition render (deep_extend : obj -> jsval -> obj) (auths : list view_auth) (supportedSubmitMethods : list jsstr) (model : obj)
    (parameters : list obj) : res rendered :=
  let readOnly := negb (bool_decide (get model (js "method") ∈ VStr <$> supportedSubmitMethods)) in
  oauth ← model_oauth auths (js_orv (get model (js "authorizations")) (get model (js "security")));
  messages ← responseMessages (get model (js "responses")) (get model (js "responseMessages"));
  '(isXML, isJSON) ← sample_kinds (get model (js "produces"));
  '(consumes, params) ← param_types (get model (js "consumes")) parameters;
  Ok (Rendered readOnly oauth (message_kinds isXML isJSON <$> as_arr messages) consumes
        (addParameter deep_extend (as_obj (get model (js "definitions"))) (get model (js "defaultRendering")) consumes <$> params)).

(** ** Responses *)

(** The header lines of [wrap]: cut at the first colon, as long as the line has
    no other line break in its value. *)
Definition wrap_line (headers : obj) (i : jsstr) : obj :=
  match find_str (js ":") i with
  | Some n =>
      let value := drop (S n) i in
      if forallb (fun c => negb (is_term c)) value then put (trim (take n i)) (VStr (trim value)) headers else headers
  | None => headers
  end.
Definition wrap (allHeaders responseText : jsstr) (invocationUrl status : jsval) : obj :=
  [(js "content", VObj [(js "data", VStr responseText)]);
   (js "headers", VObj (foldl wrap_line [] (split allHeaders [13])));
   (js "request", VObj [(js "url", invocationUrl)]); (js "status", status)].

(** [_.escape], and what [text()] writes. *)
Definition escape_unit (c : Z) : jsstr :=
  if c =? 38 then js "&amp;" else if c =? 60 then js "&lt;" else if c =? 62 then js "&gt;"
  else if c =? 34 then js "&quot;" else if c =? 39 then js "&#39;" else if c =? 96 then js "&#96;" else [c].
Definition escape (s : jsstr) : jsstr := List.flat_map escape_unit s.
Definition text_unit (c : Z) : jsstr :=
  if c =? 38 then js "&amp;" else if c =? 60 then js "&lt;" else if c =? 62 then js "&gt;" else [c].
Definition text_html (s : jsstr) : jsstr := List.flat_map text_unit s.

(** What is put under "Response Body". *)
Inductive shown :=
| Pre (class : jsstr) (html : jsstr)
| Download (href download text : jsstr)
| NoDownload
| Image (src : jsstr)
| Audio (src : jsval) (type : jsstr)
| Redirect (location : jsval).

Section status.
(** [JSON.stringify(JSON.parse(s), null, '  ')], [JSON.stringify(v, null, '  ')],
    the object URLs of the browser, whether it has Blobs, and whether it plays
    a type of audio. *)
Context (reformat : jsval -> option jsstr) (stringify : jsval -> jsstr) (createObjectURL : jsval -> jsstr) (hasBlob : bool)
  (supportsAudioPlayback : jsstr -> bool).

(** The media type of the response. *)
Definition content_type (headers : jsval) : res jsval :=
  if truthy headers then
    a ← prop headers (js "Content-Type"); b ← prop headers (js "content-type");
    let t := js_orv a b in
    if truthy t then s ← as_str t; Ok (VStr (trim (List.hd [] (split s (js ";"))))) else Ok t
  else Ok VNull.
Definition header_says (headers : jsval) (name text : jsstr) : res bool :=
  v ← prop headers name; Ok (truthy v && includes (to_str v) text).
Definition is_download (contentType headers : jsval) : res bool :=
  if eq_str contentType (js "application/octet-stream") then Ok true
  else
    a ← header_says headers (js "Content-Disposition") (js "attachment");
    b ← header_says headers (js "content-disposition") (js "attachment");
    c ← header_says headers (js "Content-Description") (js "File Transfer");
    d ← header_says headers (js "content-description") (js "File Transfer");
    Ok (a || b || c || d).

(** The file name of a header, up to the next semicolon. *)
Definition header_filename (disposition : jsstr) : option jsstr :=
  match find_str (js "filename=") disposition with
  | Some n => Some (List.hd [] (split (drop (n + 9) disposition) (js ";")))
  | None => None
  end.
Definition download (response contentType headers content : jsval) : res shown :=
  if hasBlob then
    let type := js_orv contentType (vstr "text/html") in
    let href := createObjectURL content in
    u ← prop response (js "url");
    url ← as_str u;
    let fileName := substring_from url (lastIndexOf url (js "/") + 1) in
    let name := join (js ":") [to_str type; fileName; href] in
    a ← prop headers (js "content-disposition"); b ← prop headers (js "Content-Disposition");
    let disposition := js_orv a b in
    Ok (match (if is_undef disposition then None else header_filename (to_str disposition)) with
        | Some f => Download href f (js "Download " ++ f)
        | None => Download href name (js "Download " ++ fileName)
        end)
  else Ok NoDownload.

Definition pre_text (class : String.string) (text : jsstr) : shown := Pre (js class) (text_html text).
Definition body_shown (response contentType headers content url : jsval) : res shown :=
  let ct := to_str contentType in
  let text := to_str content in
  if negb (truthy content) then Ok (pre_text "json" (js "no content"))
  else
    d ← is_download contentType headers;
    if d : bool then download response contentType headers content
    else if bool_decide (ct = js "application/json") || endsWith ct (js "+json") then
      Ok (pre_text "json" (match reformat content with Some s => s | None => js "can't parse JSON.  Raw result:" ++ [10; 10] ++ text end))
    else if bool_decide (ct = js "application/xml") || endsWith ct (js "+xml") then
      xml ← as_str content; Ok (pre_text "xml" (formatXml xml))
    else if bool_decide (ct = js "text/html") then Ok (Pre (js "xml") (escape text))
    else if includes ct (js "text/plain") then Ok (pre_text "plain" text)
    else if startsWith ct (js "image/") then Ok (Image (createObjectURL content))
    else if startsWith ct (js "audio/") && supportsAudioPlayback ct then Ok (Audio url ct)
    else
      l ← prop headers (js "location"); l2 ← prop headers (js "Location");
      if truthy (js_orv l l2) then u ← prop response (js "url"); Ok (Redirect u)
      else Ok (pre_text "json" text).

(** What [showStatus] writes into the page. *)
Record status_page := StatusPage {
  request_url : jsstr;
  response_code : jsstr;
  response_body : shown;
  response_headers : jsstr;
  curl : jsstr;
  request_headers : option jsstr;
  highlighted : bool
}.
Definition in_pre (html : jsstr) : jsstr := js "<pre>" ++ html ++ js "</pre>".
Definition json_html (v : jsval) : jsstr := in_pre (replace_all (escape (stringify v)) [10] (js "<br>")).
Definition curl_html (command : jsstr) : jsstr := in_pre (escape (replace_first command (js "!") (js "&#33;"))).

(** The data and address of a response, in either of its two forms. *)
Definition response_parts (response : jsval) : res (jsval * jsval) :=
  content ← prop response (js "content");
  if is_undef content then
    d ← prop response (js "data"); u ← prop response (js "url"); Ok (d, u)
  else
    d ← prop content (js "data"); r ← prop response (js "request"); u ← prop r (js "url"); Ok (d, u).
Definition is_long (response threshold : jsval) : res bool :=
  d ← prop response (js "data");
  if truthy threshold && negb (is_undef d) then
    match d with
    | VNull => Throw TypeError
    | _ =>
        let length := match d with VStr s => vint (zlength s) | VArr l => vint (Z.of_nat (length l)) | _ => get (as_obj d) (js "length") end in
        Ok (match length, threshold with VNum (NInt m), VNum (NInt n) => n <? m | _, _ => false end)
    end
  else Ok false.

(** [showStatus]; [asCurl] is that of the operation with the arguments of the
    request, [sent] the request headers, when they are to be shown. *)
Definition showStatus (asCurl : jsval -> res jsstr) (sent : option obj) (threshold response : jsval) : res status_page :=
  '(content, url) ← response_parts response;
  headers ← prop response (js "headers");
  let content := match content with VStr s => VStr (trim s) | _ => content end in
  contentType ← content_type headers;
  body ← body_shown response contentType headers content url;
  status ← prop response (js "status");
  command ← asCurl contentType;
  long ← is_long response threshold;
  let skip := match body with Download _ _ _ => true | _ => false end in
  Ok (StatusPage (if is_undef url then [] else text_html (to_str url)) (in_pre (to_str status)) body (json_html headers) (curl_html command)
        ((fun h => json_html (VObj (remove (js "Content-Type") h))) <$> sent) (negb (long || skip))).
End status.

(** [showResponse]: the breaks are escaped with the rest. *)
Definition showResponse (json : jsstr) : jsstr := escape (replace_all json [10] (js "<br>")).

(** [showSnippet] and [toggleSnippet]: whether the XML sample is shown. *)
Definition shows_xml (contentType : jsval) : res bool :=
  match contentType with VUndef | VNull => Throw TypeError | _ => s ← as_str contentType; Ok (includes s (js "xml")) end.
Definition toggleSnippet (type : jsval) : res bool := s ← as_str (js_orv type (VStr [])); Ok (includes s (js "xml")).

(** ** The popup stays in the window *)

Lemma keep_in_bounds lo hi size x : size <= hi - lo -> lo <= keep_in lo hi size x /\ keep_in lo hi size x + size <= hi.
Proof. unfold keep_in. intros H. destruct (Z.ltb_spec hi (x + size)); case_match; lia. Qed.
Lemma popup_in_window w wd hgh x y : wd <= width w -> hgh <= height w ->
  let '(x', y') := mouseEnter w wd hgh x y in
  scrollLeft w <= x' /\ x' + wd <= scrollLeft w + width w /\ scrollTop w <= y' /\ y' + hgh <= scrollTop w + height w.
Proof.
  intros H1 H2. cbn. pose proof (keep_in_bounds (scrollLeft w) (scrollLeft w + width w) wd x ltac:(lia)).
  pose proof (keep_in_bounds (scrollTop w) (scrollTop w + height w) hgh y ltac:(lia)). tauto.
Qed.

(** ** Responses are shown as text

    How a browser reads the text of an element: the entities of the page are
    their characters. *)
Definition entities : list (jsstr * Z) :=
  [(js "&amp;", 38); (js "&lt;", 60); (js "&gt;", 62); (js "&quot;", 34); (js "&#39;", 39); (js "&#96;", 96)].
Definition entity_at (s : jsstr) : option (jsstr * Z) := List.find (fun e => prefixb e.1 s) entities.
(** [skip] units of the current entity remain. *)
Fixpoint browser_text (s : jsstr) (skip : nat) : jsstr :=
  match s with
  | [] => []
  | c :: s' =>
      match skip with
      | S k => browser_text s' k
      | O => match entity_at s with
             | Some (e, d) => d :: browser_text s' (length e - 1)
             | None => c :: browser_text s' O
             end
      end
  end.

Lemma browser_skip p s : browser_text (p ++ s) (length p) = browser_text s O.
Proof. induction p as [|c p IH]; [by destruct s|]. exact IH. Qed.
Lemma browser_plain c s : c <> 38 -> browser_text (c :: s) O = c :: browser_text s O.
Proof.
  intros Hc. cbn [browser_text]. assert (E : entity_at (c :: s) = None); [|by rewrite E].
  assert (H : forall l, Forall (fun e : jsstr * Z => head e.1 = Some 38) l -> List.find (fun e => prefixb e.1 (c :: s)) l = None).
  { induction l as [|[e d] l IH]; intros H; [done|]. apply Forall_cons in H as [He H]. cbn [List.find fst]. rewrite IH by done.
    destruct e as [|x e]; [done|]. cbn in He. injection He as ->. cbn [prefixb]. by rewrite (proj2 (Z.eqb_neq 38 c)) by done. }
  apply H. by repeat constructor.
Qed.
Lemma browser_entity e d s : (e, d) ∈ entities -> browser_text (e ++ s) O = d :: browser_text s O.
Proof.
  intros H. assert (E : forall s, entity_at (e ++ s) = Some (e, d)).
  { intros t. unfold entities in H. repeat (apply elem_of_cons in H as [[= -> ->]|H]; [reflexivity|]). by apply not_elem_of_nil in H. }
  destruct e as [|c e]; [unfold entities in H; repeat (apply elem_of_cons in H as [[=]|H]); by apply not_elem_of_nil in H|].
  cbn [app browser_text]. specialize (E s). cbn [app] in E. rewrite E. replace (length (c :: e) - 1)%nat with (length e) by (cbn; lia). by rewrite browser_skip.
Qed.

(** Escaped text has no markup, and the browser shows the text. *)
Definition escapes (f : Z -> jsstr) : Prop := forall c, clean (f c) = true /\ forall s, browser_text (f c ++ s) O = c :: browser_text s O.
Lemma unit_plain c : c <> 38 -> c <> 60 -> c <> 62 -> clean [c] = true /\ forall s, browser_text ([c] ++ s) O = c :: browser_text s O.
Proof.
  intros H1 H2 H3. split; [|intros s; by apply browser_plain]. unfold clean, LT, GT. cbn [forallb]. by rewrite (proj2 (Z.eqb_neq c 60)), (proj2 (Z.eqb_neq c 62)).
Qed.
Ltac entity := split; [reflexivity|intros s; apply browser_entity; by apply (bool_decide_eq_true _)].
Lemma escape_unit_ok : escapes escape_unit.
Proof.
  intros c. unfold escape_unit.
  repeat match goal with |- context [if c =? ?n then _ else _] => destruct (Z.eqb_spec c n) as [->|?]; [entity|] end. by apply unit_plain.
Qed.
Lemma text_unit_ok : escapes text_unit.
Proof.
  intros c. unfold text_unit.
  repeat match goal with |- context [if c =? ?n then _ else _] => destruct (Z.eqb_spec c n) as [->|?]; [entity|] end. by apply unit_plain.
Qed.
Lemma escaped f s : escapes f -> clean (List.flat_map f s) = true /\ browser_text (List.flat_map f s) O = s.
Proof.
  intros Hf. induction s as [|c s [IH1 IH2]]; [done|]. destruct (Hf c) as [H1 H2]. cbn [List.flat_map]. split.
  - unfold clean in *. by rewrite forallb_app, H1.
  - by rewrite H2, IH2.
Qed.

(** ** What a response can put into the page *)

(** Text between tags that the page writes. *)
Definition plain_between (sep html : jsstr) : Prop := exists lines, html = join sep lines /\ Forall (fun l => clean l = true) lines.
Lemma escape_clean s : clean (escape s) = true.
Proof. apply (escaped escape_unit), escape_unit_ok. Qed.
Lemma text_clean s : clean (text_html s) = true.
Proof. apply (escaped text_unit), text_unit_ok. Qed.
Lemma escape_shown s : browser_text (escape s) O = s.
Proof. apply (escaped escape_unit), escape_unit_ok. Qed.
Lemma text_shown s : browser_text (text_html s) O = s.
Proof. apply (escaped text_unit), text_unit_ok. Qed.
#[local] Opaque text_html escape.
Lemma clean_split c s : clean s = true -> Forall (fun l => clean l = true) (split s [c]).
Proof.
  intros H. pose proof (join_split c s) as E. apply Forall_forall. intros l Hl. unfold clean in *. rewrite forallb_forall in *.
  intros x Hx. apply H. rewrite <- E. clear -Hl Hx. induction (split s [c]) as [|y ls IH]; [by apply not_elem_of_nil in Hl|].
  apply elem_of_cons in Hl as [->|Hl].
  - destruct ls; [done|]. rewrite join_cons by done. apply in_or_app. by left.
  - destruct ls as [|z ls]; [by apply not_elem_of_nil in Hl|]. rewrite join_cons by done. apply in_or_app. right. apply in_or_app. right. by apply IH.
Qed.

Lemma body_shown_clean reformat createObjectURL hasBlob audio response ct headers content url cls html :
  body_shown reformat createObjectURL hasBlob audio response ct headers content url = Ok (Pre cls html) ->
  clean html = true.
Proof.
  unfold body_shown, pre_text. destruct (negb (truthy content)); [intros [= <- <-]; apply text_clean|]. intros H.
  apply bind_ok in H as (d & _ & H). destruct d.
  { unfold download in H. destruct hasBlob; [|done]. cbv zeta in H. do 4 (apply bind_ok in H as (? & _ & H)). by destruct (if is_undef _ then _ else _). }
  destruct (_ || _); [injection H as <- <-; apply text_clean|].
  destruct (_ || _); [apply bind_ok in H as (x & _ & [= <- <-]); apply text_clean|].
  destruct (bool_decide _); [injection H as <- <-; apply escape_clean|].
  destruct (includes _ _); [injection H as <- <-; apply text_clean|].
  destruct (startsWith _ _); [done|]. destruct (_ && _); [done|]. apply bind_ok in H as (l & _ & H). apply bind_ok in H as (l2 & _ & H).
  destruct (truthy _); [by apply bind_ok in H as (u & _ & H)|]. injection H as <- <-. apply text_clean.
Qed.
Lemma body_shown_text reformat createObjectURL hasBlob audio response (ct : jsstr) headers (s : jsstr) url shown_body :
  ct = js "text/html" \/ ct = js "text/plain" -> s <> [] ->
  body_shown reformat createObjectURL hasBlob audio response (VStr ct) headers (VStr s) url = Ok shown_body ->
  (exists cls html, shown_body = Pre cls html /\ browser_text html O = s) \/ is_download (VStr ct) headers = Ok true.
Proof.
  intros Hct Hs H. unfold body_shown in H. replace (truthy (VStr s)) with true in H by by destruct s. cbn [negb to_str] in H.
  apply bind_ok in H as ([] & Hd & H); [by right|]. left. unfold pre_text in H.
  destruct Hct as [-> | ->].
  - change (bool_decide (js "text/html" = js "application/json") || endsWith (js "text/html") (js "+json")) with false in H.
    change (bool_decide (js "text/html" = js "application/xml") || endsWith (js "text/html") (js "+xml")) with false in H.
    change (bool_decide (js "text/html" = js "text/html")) with true in H. injection H as <-. eexists _, _. split; [reflexivity|].
    apply escape_shown.
  - change (bool_decide (js "text/plain" = js "application/json") || endsWith (js "text/plain") (js "+json")) with false in H.
    change (bool_decide (js "text/plain" = js "application/xml") || endsWith (js "text/plain") (js "+xml")) with false in H.
    change (bool_decide (js "text/plain" = js "text/html")) with false in H. change (includes (js "text/plain") (js "text/plain")) with true in H.
    injection H as <-. eexists _, _. split; [reflexivity|]. apply text_shown.
Qed.

(** The lines of escaped JSON. *)
Lemma json_html_plain stringify v : exists html, json_html stringify v = in_pre html /\ plain_between (js "<br>") html.
Proof. eexists. split; [reflexivity|]. unfold plain_between, replace_all. eexists. split; [reflexivity|]. apply clean_split, escape_clean. Qed.

(** C40. What a response can put into the page: each text that [showStatus]
    writes as markup is, between the tags of the page, without a less-than or
    greater-than sign. This is the address, the body when it is text, the
    headers of the response and of the request (between line breaks of the
    page) and the curl command. The status is written as it is, which for an
    integer is its digits. A body of plain text or HTML that is not blank and
    not for download is shown by the browser as it was sent, up to the white
    space around it. *)
Theorem response_is_text reformat stringify createObjectURL hasBlob audio asCurl sent threshold response p :
  showStatus reformat stringify createObjectURL hasBlob audio asCurl sent threshold response = Ok p ->
  clean (request_url p) = true /\
  (exists status, prop response (js "status") = Ok status /\ response_code p = in_pre (to_str status) /\
     forall n, status = VNum (NInt n) -> clean (to_str status) = true) /\
  (forall cls html, response_body p = Pre cls html -> clean html = true) /\
  (exists html, response_headers p = in_pre html /\ plain_between (js "<br>") html) /\
  (exists html, curl p = in_pre html /\ clean html = true) /\
  (forall written, request_headers p = Some written -> exists html, written = in_pre html /\ plain_between (js "<br>") html) /\
  (forall s url headers ct, response_parts response = Ok (VStr s, url) -> trim s <> [] ->
     prop response (js "headers") = Ok headers -> content_type headers = Ok (VStr ct) -> ct = js "text/html" \/ ct = js "text/plain" ->
     is_download (VStr ct) headers = Ok false -> exists cls html, response_body p = Pre cls html /\ browser_text html O = trim s).
Proof.
  intros H. unfold showStatus in H. apply bind_ok in H as ([content url] & Hparts & H). apply bind_ok in H as (headers & Hh & H).
  apply bind_ok in H as (ct & Hct & H). apply bind_ok in H as (body & Hb & H). apply bind_ok in H as (status & Hst & H).
  apply bind_ok in H as (command & _ & H). apply bind_ok in H as (long & _ & [= <-]).
  cbn [request_url response_code response_body response_headers curl request_headers]. split; [|split; [|split; [|split; [|split; [|split]]]]].
  - destruct (is_undef url); [done|apply text_clean].
  - exists status. split; [done|]. split; [done|]. intros n ->. apply clean_Z.
  - intros cls html ->. by eapply body_shown_clean.
  - apply json_html_plain.
  - eexists. split; [reflexivity|]. apply escape_clean.
  - intros written Hw. destruct sent as [h|]; [|done]. injection Hw as <-. apply json_html_plain.
  - intros s u hs ct' Hp Hs Hhs Hct' Hcase Hdl. rewrite Hparts in Hp. injection Hp as -> <-. rewrite Hh in Hhs. injection Hhs as <-.
    rewrite Hct in Hct'. injection Hct' as ->. destruct (body_shown_text _ _ _ _ _ _ _ _ _ _ Hcase Hs Hb) as [Hx|Hx]; [done|congruence].
Qed.

Definition demo_response (type data : String.string) : jsval :=
  VObj [(js "data", vstr data); (js "url", vstr "http://h/a"); (js "headers", VObj [(js "content-type", vstr type)]); (js "status", vint 200)].
Definition demo_page : status_page :=
  StatusPage (js "http://h/a") (js "<pre>200</pre>") (Pre (js "xml") (js "&lt;b&gt;")) (js "<pre></pre>") (js "<pre>curl</pre>") None true.
Lemma response_is_text_witness :
  clean (request_url demo_page) = true /\
  (exists status, prop (demo_response "text/html" " <b>") (js "status") = Ok status /\ response_code demo_page = in_pre (to_str status) /\
     forall n, status = VNum (NInt n) -> clean (to_str status) = true) /\
  (forall cls html, response_body demo_page = Pre cls html -> clean html = true) /\
  (exists html, response_headers demo_page = in_pre html /\ plain_between (js "<br>") html) /\
  (exists html, curl demo_page = in_pre html /\ clean html = true) /\
  (forall written, request_headers demo_page = Some written -> exists html, written = in_pre html /\ plain_between (js "<br>") html) /\
  (forall s url headers ct, response_parts (demo_response "text/html" " <b>") = Ok (VStr s, url) -> trim s <> [] ->
     prop (demo_response "text/html" " <b>") (js "headers") = Ok headers -> content_type headers = Ok (VStr ct) ->
     ct = js "text/html" \/ ct = js "text/plain" ->
     is_download (VStr ct) headers = Ok false -> exists cls html, response_body demo_page = Pre cls html /\ browser_text html O = trim s).
Proof.
  apply (response_is_text (fun _ => None) (fun _ => []) (fun _ => []) true (fun _ => false) (fun _ => Ok (js "curl")) None VUndef
    (demo_response "text/html" " <b>") demo_page). vm_compute. reflexivity.
Defined.
(** A status that is a text is not escaped. *)
Example status_markup :
  response_code <$> showStatus (fun _ => None) (fun _ => []) (fun _ => []) true (fun _ => false) (fun _ => Ok []) None VUndef
    (VObj [(js "url", vstr "u"); (js "headers", VObj []); (js "status", vstr "<b>ok</b>")]) = Ok (js "<pre><b>ok</b></pre>").
Proof. vm_compute. reflexivity. Qed.

(** ** Smaller faults *)

(** The exclamation mark of a command becomes an entity that is escaped again, and
    only the first one. *)
Example curl_entity : browser_text (escape (replace_first (js "a!b!") (js "!") (js "&#33;"))) O = js "a&#33;b!".
Proof. vm_compute. reflexivity. Qed.
(** The line breaks of [showResponse] are escaped with the rest. *)
Example break_is_shown : browser_text (showResponse (js "{" ++ [10] ++ js "}")) O = js "{<br>}".
Proof. vm_compute. reflexivity. Qed.
(** The quotes of a file name stay in it. *)
Example quoted_filename : header_filename (js "attachment; filename=" ++ [34] ++ js "a.csv" ++ [34] ++ js "; size=3") = Some ([34] ++ js "a.csv" ++ [34]).
Proof. vm_compute. reflexivity. Qed.
(** A response with a body and no headers is not shown. *)
Example no_headers reformat stringify createObjectURL audio :
  showStatus reformat stringify createObjectURL true audio (fun _ => Ok []) None VUndef
    (VObj [(js "data", vstr "a"); (js "url", vstr "u")]) = Throw TypeError.
Proof. reflexivity. Qed.
(** Of two OAuth schemes of an operation only the scopes of the last are offered. *)
Example last_scheme_only :
  let scheme n k := ViewAuth (js n) (vstr "oauth2") (VObj [(js "scopes", VObj [(js k, vstr "d")])]) in
  model_oauth [scheme "a"%string "read"%string; scheme "b"%string "write"%string]
    (VArr [VObj [(js "a", VArr [vstr "read"])]; VObj [(js "b", VArr [vstr "write"])]]) =
  Ok (Some [scope_entry (js "write") (vstr "d")]).
Proof. vm_compute. reflexivity. Qed.
(** A body parameter has no type to find its definition by. *)
Example body_type_lost :
  param_type VUndef [(js "schema", VObj [(js "$ref", vstr "#/definitions/Pet")])] =
  Ok (VUndef, [(js "schema", VObj [(js "$ref", vstr "#/definitions/Pet")]); (js "type", VStr [])]).
Proof. vm_compute. reflexivity. Qed.
(** The separator of the other properties of a header is never used. *)
Example other_is_a_list :
  parseResponseHeaders [(js "X-Rate", VObj [(js "type", vstr "integer"); (js "format", vstr "int32"); (js "minimum", vint 1)])] =
  [(js "X-Rate", VObj [(js "type", vstr "integer"); (js "format", vstr "int32"); (js "minimum", vint 1);
     (js "other", VArr [vstr "format: int32"; vstr "minimum: 1"])])].
Proof. vm_compute. reflexivity. Qed.
