(* ===== verification/UiViews.v ===== *)
(** * The other views of the page

    In swagger-ui.js: [SwaggerUi] itself (options, address, loading), the header,
    [MainView] and [ResourceView] (sorting, names and ids), [ParameterView],
    [StatusCodeView] and [SignatureView], and two Handlebars helpers. The page is
    the data that the templates get. *)

From Stdlib Require Import String Sorted.
From S2P Require Import Prelude JsNumber JsString JsValue Helpers SchemaMarkup Samples OperationView.

(** ** SwaggerUi *)

(** [initialize]: the id of the element and the options. *)
Definition default_if (test : jsval -> bool) (k : String.string) (v : jsval) (options : obj) : obj :=
  if test (get options (js k)) then options else put (js k) v options.
Definition submit_methods : jsval :=
  VArr [vstr "get"; vstr "put"; vstr "post"; vstr "delete"; vstr "head"; vstr "options"; vstr "patch"].
Definition initialize (dom_id : jsval) (options : obj) : jsval * obj :=
  let options := default_if (fun v => eq_str v (js "model")) "defaultModelRendering" (vstr "schema") options in
  let options := default_if truthy "highlightSizeThreshold" (vint 100000) options in
  let '(dom_id, options) :=
    if truthy (get options (js "dom_id")) then (get options (js "dom_id"), remove (js "dom_id") options) else (dom_id, options) in
  (dom_id, default_if truthy "supportedSubmitMethods" submit_methods options).

(** [buildUrl]: an address relative to that of the page. *)
Definition cut_at (base : jsstr) (c : String.string) (endOfPath : Z) : Z :=
  if -1 <? indexOf base (js c) then Z.min endOfPath (indexOf base (js c)) else endOfPath.
Definition buildUrl (base url : jsstr) : jsstr :=
  if indexOf url (js "/") =? 0 then
    let parts := split base (js "/") in
    let part i := match parts !! i with Some p => p | None => js "undefined" end in
    part 0%nat ++ js "//" ++ part 2%nat ++ url
  else
    let base := substring base 0 (cut_at base "#" (cut_at base "?" (zlength base))) in
    if negb (indexOf_from base (js "/") (zlength base - 1) =? -1) then base ++ url else base ++ js "/" ++ url.
(** The address that [load] fetches. *)
Definition load_url (href : jsstr) (url : jsval) : res jsval :=
  if truthy url then
    u ← as_str url;
    Ok (VStr (if indexOf u (js "http") =? 0 then u else buildUrl href u))
  else Ok url.

(** The message bar: whether it shows a failure, and the text. *)
Definition showMessage (data : jsval) : bool * jsval := (false, if is_undef data then VStr [] else data).
Definition onLoadFailure (data : jsval) : bool * jsval := (true, if is_undef data then VStr [] else data).

(** [HeaderView.showCustomOnKeyup]: whether the address is loaded. *)
Definition showCustomOnKeyup (keyCode : Z) : bool := keyCode =? 13.

(** ** MainView *)

Record operation_view := OperationViewModel { nickname : jsstr; path : jsstr; method : jsstr; op_number : nat; parentId : jsstr }.
Record resource := Resource { r_name : jsstr; r_id : jsstr; operationsArray : list operation_view }.

(** The sorting options: a name of a sorter, or a function. *)
Inductive sorter (A : Type) := NoSorter | Named (name : jsstr) | Custom (f : A -> A -> Z).
Arguments NoSorter {A}. Arguments Named {A} name. Arguments Custom {A} f.

Section sorting.
(** [a.localeCompare(b)], and that [Array.prototype.sort] is a stable sort. *)
Context (localeCompare : jsstr -> jsstr -> Z).
Fixpoint insert_by {A} (cmp : A -> A -> Z) (x : A) (l : list A) : list A :=
  match l with [] => [x] | y :: l' => if cmp x y <=? 0 then x :: l else y :: insert_by cmp x l' end.
Definition sort_by {A} (cmp : A -> A -> Z) (l : list A) : list A := foldr (insert_by cmp) [] l.

Definition apisSorter (name : jsstr) : option (resource -> resource -> Z) :=
  if bool_decide (name = js "alpha") then Some (fun a b => localeCompare (r_name a) (r_name b)) else None.
Definition operationsSorters (name : jsstr) : option (operation_view -> operation_view -> Z) :=
  if bool_decide (name = js "alpha") then Some (fun a b => localeCompare (path a) (path b))
  else if bool_decide (name = js "method") then Some (fun a b => localeCompare (method a) (method b)) else None.
Definition sort_option {A} (table : jsstr -> option (A -> A -> Z)) (s : sorter A) (l : list A) : list A :=
  match s with
  | NoSorter => l
  | Named n => match table n with Some f => sort_by f l | None => l end
  | Custom f => sort_by f l
  end.
(** The sorting of [initialize]. *)
Definition sort_resources (apis : sorter resource) (operations : sorter operation_view) (apisArray : list resource) : list resource :=
  (fun r => Resource (r_name r) (r_id r) (sort_option operationsSorters operations (operationsArray r))) <$> sort_option apisSorter apis apisArray.
End sorting.

Definition security_auths (securityDefinitions : jsval) : res (list view_auth) :=
  mapM_res (fun '(key, value) => type ← prop value (js "type"); Ok (ViewAuth key type value)) (for_in_val securityDefinitions).
(** [given]: the option, when it is there. *)
Definition validatorUrl (given : option jsval) (url : jsstr) : jsval :=
  match given with
  | Some v => v
  | None => if (0 <? indexOf url (js "localhost")) || (0 <? indexOf url (js "127.0.0.1")) then VNull else vstr "//online.swagger.io/validator"
  end.
(** Definitions without a type become objects. *)
Definition typed_definition (d : jsval) : res jsval :=
  t ← prop d (js "type"); if truthy t then Ok d else Samples.set_field true d (js "type") (vstr "object").
Definition typed_definitions (definitions : obj) : res obj := mapM_res (fun '(k, d) => d ← typed_definition d; Ok (k, d)) definitions.

(** The loops that make ids different: while the id is taken, a number is added
    to it; the numbers go on from one id to the next in [MainView], and start
    anew in [ResourceView]. *)
Fixpoint unique_id (fuel : nat) (taken : list jsstr) (id : jsstr) (counter : nat) : option (jsstr * nat) :=
  if bool_decide (id ∈ taken) then
    match fuel with O => None | S f => unique_id f taken (id ++ js "_" ++ Z_to_str (Z.of_nat counter)) (S counter) end
  else Some (id, counter).
Definition next_id (taken : list jsstr) (id : jsstr) (counter : nat) : jsstr * nat :=
  default (id, counter) (unique_id (length taken) taken id counter).

(** [resource.id.replace(/[^a-zA-Z\d]/g, ...)]: other characters become their code. *)
Definition alphanumeric (c : Z) : bool :=
  ((97 <=? c) && (c <=? 122)) || ((65 <=? c) && (c <=? 90)) || ((48 <=? c) && (c <=? 57)).
Definition dom_id (id : jsstr) : jsstr := List.flat_map (fun c => if alphanumeric c then [c] else Z_to_str c) id.

Section ids.
(** [sanitizeHtml] with its defaults. *)
Context (sanitizeHtml : jsstr -> jsstr).
(** The ids of [MainView.render] and [addResource]. *)
Fixpoint resource_ids (taken : list jsstr) (counter : nat) (l : list resource) : list resource :=
  match l with
  | [] => []
  | r :: l =>
      let '(id, counter) := next_id taken (r_name r) counter in
      Resource (r_name r) (dom_id (sanitizeHtml id)) (operationsArray r) :: resource_ids (id :: taken) counter l
  end.
(** The nicknames of [ResourceView.render]. *)
Fixpoint operation_ids (taken : list jsstr) (number : nat) (parent : jsstr) (l : list operation_view) : list operation_view :=
  match l with
  | [] => []
  | o :: l =>
      let id := (next_id taken (nickname o) 0).1 in
      OperationViewModel id (path o) (method o) number parent :: operation_ids (id :: taken) (S number) parent l
  end.
Definition render_resources (l : list resource) : list resource :=
  (fun r => Resource (r_name r) (r_id r) (operation_ids [] 0 (r_id r) (operationsArray r))) <$> resource_ids [] 0 l.
End ids.

(** [ResourceView.initialize]. *)
Definition resource_summary (model : obj) : obj :=
  let model := match get model (js "description") with VStr [] => put (js "description") VNull model | _ => model end in
  if truthy (get model (js "description")) then put (js "summary") (get model (js "description")) model else model.

(** ** ParameterView *)

(** The type: that of the schema is used only when there is none at all. *)
Definition parameter_type (model : obj) (schema : jsval) : res jsval :=
  let type := js_orv (get model (js "type")) (get model (js "dataType")) in
  if is_undef type then
    ref ← prop schema (js "$ref");
    if truthy ref then
      r ← as_str ref;
      Ok (VStr (if indexOf r (js "#/definitions/") =? 0 then drop (length (js "#/definitions/")) r else r))
    else Ok VUndef
  else Ok type.
Definition is_file_type (type : jsval) : res jsval :=
  if truthy type then t ← as_str type; Ok (VBool (bool_decide (toLowerCase t = js "file"))) else Ok type.
Inductive template := param_list | param_readonly_required | param_readonly | param_required | param_plain.
Definition parameter_template (isList readOnly required : bool) : template :=
  if isList then param_list
  else if readOnly then (if required then param_readonly_required else param_readonly)
  else if required then param_required else param_plain.

(** [JSON.stringify] with an indentation, the names of inline models in the page,
    [Math.random()], and what the samples need. *)
Section parameter.
Context (now : jsstr) (macro safeLoad : jsval -> res jsval) (stringify : jsval -> jsval) (inlineModels : option (list jsval)) (random : jsstr).

(** The model that the template gets, and the model of its signature, if it has
    a sample. *)
Record parameter_view := ParameterViewModel {
  pv_model : obj;
  pv_template : template;
  pv_sampleJSON : jsval;
  pv_sampleXML : jsval;
  pv_signature : jsstr;
  pv_isParam : bool
}.
Definition fields_of (model : obj) (type isFile : jsval) : obj :=
  let paramType := js_orv (get model (js "in")) (get model (js "paramType")) in
  let isBody := eq_str paramType (js "body") || eq_str (get model (js "in")) (js "body") in
  let value := if is_undef (get model (js "default")) then get model (js "defaultValue") else get model (js "default") in
  let model := put (js "type") type model in
  let model := put (js "paramType") paramType model in
  let model := put (js "isBody") (VBool isBody) model in
  let model := put (js "isFile") isFile model in
  let model := put (js "default") value model in
  let model := put (js "hasDefault") (VBool (negb (is_undef value))) model in
  let model := put (js "valueId") (VStr (js "m" ++ to_str (get model (js "name")) ++ random)) model in
  if truthy (get model (js "allowableValues")) then put (js "isList") (VBool true) model else model.

Definition render_parameter (fuel : nat) (readOnly : bool) (model : obj) : res parameter_view :=
  signature ← prop (get model (js "modelSignature")) (js "type");
  definitions ← prop (get model (js "modelSignature")) (js "definitions");
  let schema := js_orv (get model (js "schema")) (VObj []) in
  let consumes := js_orv (get model (js "consumes")) (VArr []) in
  type ← parameter_type model schema;
  isFile ← is_file_type type;
  let model := fields_of model type isFile in
  '(isXML, isJSON) ← sample_kinds consumes;
  sampleJSON ← createParameterJSONSample now macro safeLoad stringify inlineModels signature (as_obj definitions);
  sampleXML ← (if truthy sampleJSON && isXML then VStr <$> createXMLSample fuel (as_obj definitions) true (VStr []) schema
               else Ok (VBool false));
  markup ← getParameterModelSignature macro fuel inlineModels signature (as_obj definitions);
  Ok (ParameterViewModel model
        (parameter_template (truthy (get model (js "isList"))) readOnly (truthy (get model (js "required"))))
        (if (isJSON : bool) then sampleJSON else VBool false) sampleXML markup (truthy (get model (js "isBody")))).
End parameter.

(** ** SignatureView

    Which part is shown, and the text area that a click on a sample fills. *)
Inductive signature_tab := Description | Snippet.
Definition first_tab (defaultRendering : jsval) : signature_tab := if eq_str defaultRendering (js "model") then Description else Snippet.
Definition snippetToTextArea (isParam : bool) (value placeholder sample : jsstr) : jsstr :=
  if isParam && (bool_decide (trim value = []) || bool_decide (placeholder = value)) then sample else value.

(** [StatusCodeView.render]: samples for a model of the interface, and a signature
    of its type for anything else. *)
Inductive status_signature := ModelSignature (value : jsval) | PrimitiveSignature (signature : jsval).
Definition status_code (models : obj) (statusCode : obj) : res status_signature :=
  match assoc (to_str (get statusCode (js "responseModel"))) models with
  | Some value => Ok (ModelSignature value)
  | None => s ← getPrimitiveSignature (get statusCode (js "schema")); Ok (PrimitiveSignature s)
  end.

(** ** Ids are different *)

Fixpoint candidates (n : nat) (id : jsstr) (counter : nat) : list jsstr :=
  id :: match n with O => [] | S n => candidates n (id ++ js "_" ++ Z_to_str (Z.of_nat counter)) (S counter) end.
Lemma candidates_longer n : forall id counter c, c ∈ candidates n id counter -> (length id <= length c)%nat.
Proof.
  induction n as [|n IH]; intros id counter c H; cbn [candidates] in H; apply elem_of_cons in H as [->|H]; try done; [by apply not_elem_of_nil in H|].
  apply IH in H. rewrite length_app in H. lia.
Qed.
Lemma candidates_nodup n : forall id counter, NoDup (candidates n id counter) /\ length (candidates n id counter) = S n.
Proof.
  induction n as [|n IH]; intros id counter; cbn [candidates length]; [split; [apply NoDup_singleton|done]|].
  destruct (IH (id ++ js "_" ++ Z_to_str (Z.of_nat counter)) (S counter)) as [Hn Hl]. rewrite Hl. split; [|done]. constructor; [|done].
  intros H. apply candidates_longer in H. rewrite !length_app in H. change (length (js "_")) with 1%nat in H. lia.
Qed.
Lemma unique_id_none f taken : forall id counter, unique_id f taken id counter = None -> Forall (fun c => c ∈ taken) (candidates f id counter).
Proof.
  induction f as [|f IH]; intros id counter H; cbn [unique_id candidates] in *; case_bool_decide; try done; repeat constructor; auto.
Qed.
Lemma unique_id_some f taken : forall id counter id' c, unique_id f taken id counter = Some (id', c) -> id' ∉ taken.
Proof.
  induction f as [|f IH]; intros id counter id' c H; cbn [unique_id] in H; case_bool_decide as Hin; try done; simplify_eq; try done. by eapply IH.
Qed.
(** The loop ends before it has tried more ids than are taken. *)
Lemma next_id_new taken id counter : (next_id taken id counter).1 ∉ taken.
Proof.
  unfold next_id. destruct (unique_id (length taken) taken id counter) as [[id' c]|] eqn:E; cbn [default fst].
  - by eapply unique_id_some.
  - exfalso. apply unique_id_none in E. destruct (candidates_nodup (length taken) id counter) as [Hn Hl].
    assert (H : (length (candidates (length taken) id counter) <= length taken)%nat).
    { apply submseteq_length, NoDup_submseteq; [done|]. by rewrite Forall_forall in E. }
    lia.
Qed.

(** The operations of a resource get different nicknames: the loop that makes
    them different ends, a nickname that is not taken is kept, and the operations
    keep their order, path and method and are numbered from zero. *)
Theorem nicknames_unique parent l :
  NoDup (nickname <$> operation_ids [] 0 parent l) /\
  (fun o => (path o, method o)) <$> operation_ids [] 0 parent l = (fun o => (path o, method o)) <$> l /\
  op_number <$> operation_ids [] 0 parent l = seq 0 (length l) /\
  (NoDup (nickname <$> l) -> nickname <$> operation_ids [] 0 parent l = nickname <$> l).
Proof.
  assert (H : forall l taken n, NoDup (nickname <$> operation_ids taken n parent l) /\
    Forall (fun o => nickname o ∉ taken) (operation_ids taken n parent l) /\
    (fun o => (path o, method o)) <$> operation_ids taken n parent l = (fun o => (path o, method o)) <$> l /\
    op_number <$> operation_ids taken n parent l = seq n (length l) /\
    (NoDup (nickname <$> l) -> (forall i, i ∈ nickname <$> l -> i ∉ taken) -> nickname <$> operation_ids taken n parent l = nickname <$> l)).
  { clear l. induction l as [|o l IH]; intros taken n; [repeat split; try done; constructor|]. cbn [operation_ids].
    set (id := (next_id taken (nickname o) 0).1). pose proof (next_id_new taken (nickname o) 0) as Hid. change (id ∉ taken) in Hid.
    destruct (IH (id :: taken) (S n)) as (H1 & H2 & H3 & H4 & H5). split; [|split; [|split; [|split]]].
    - change (nickname <$> ?x :: ?t) with (nickname x :: (nickname <$> t)). constructor; [|done]. cbn [nickname]. intros Hin.
      apply list_elem_of_fmap in Hin as (x & Hx & Hin). rewrite Forall_forall in H2. apply (H2 x Hin). rewrite <- Hx. by left.
    - constructor; [done|]. eapply Forall_impl; [exact H2|]. intros x Hx Hin. apply Hx. by right.
    - change (?f <$> ?x :: ?t) with (f x :: (f <$> t)). rewrite H3. done.
    - change (op_number <$> ?x :: ?t) with (op_number x :: (op_number <$> t)). rewrite H4. done.
    - change (nickname <$> ?x :: ?t) with (nickname x :: (nickname <$> t)). intros Hd Ht. apply NoDup_cons in Hd as [Ho Hd]. cbn [nickname].
      assert (Eid : id = nickname o).
      { unfold id, next_id. assert (Hno : nickname o ∉ taken) by (apply Ht; by left). destruct (length taken); cbn [unique_id]; by rewrite bool_decide_eq_false_2. }
      assert (Hrest : nickname <$> operation_ids (id :: taken) (S n) parent l = nickname <$> l).
      { apply H5; [done|]. intros i Hi [->|Hin]%elem_of_cons; [by rewrite Eid in Hi|]. by apply (Ht i); [right|]. }
      rewrite Hrest. by rewrite Eid. }
  destruct (H l [] 0%nat) as (H1 & _ & H3 & H4 & H5). split; [done|]. split; [done|]. split; [done|]. intros Hd. apply H5; [done|]. intros i _. apply not_elem_of_nil.
Qed.
Lemma nicknames_unique_witness :
  nickname <$> operation_ids [] 0 (js "pet") [OperationViewModel (js "get") (js "/a") (js "get") 0 []; OperationViewModel (js "get_0") (js "/b") (js "get") 0 []] =
  [js "get"; js "get_0"].
Proof.
  apply (nicknames_unique (js "pet") [OperationViewModel (js "get") (js "/a") (js "get") 0 []; OperationViewModel (js "get_0") (js "/b") (js "get") 0 []]).
  by apply (bool_decide_eq_true _).
Defined.

(** The elements of two resources can still get the same id: a character becomes
    its code. *)
Example same_element : dom_id (js "a-") = dom_id (js "a45") /\ js "a-" <> js "a45".
Proof. by split. Qed.

(** ** Sorting *)

Lemma insert_by_perm {A} (cmp : A -> A -> Z) x l : insert_by cmp x l ≡ₚ x :: l.
Proof. induction l as [|y l IH]; [done|]. cbn. destruct (cmp x y <=? 0); [done|]. rewrite IH. apply perm_swap. Qed.
Lemma sort_by_perm {A} (cmp : A -> A -> Z) l : sort_by cmp l ≡ₚ l.
Proof. induction l as [|x l IH]; [done|]. cbn. by rewrite insert_by_perm, IH. Qed.
Lemma insert_by_sorted {A} (cmp : A -> A -> Z) x l : (forall a b, 0 < cmp a b -> cmp b a <= 0) ->
  Sorted (fun a b => cmp a b <= 0) l -> Sorted (fun a b => cmp a b <= 0) (insert_by cmp x l).
Proof.
  intros Hc. induction 1 as [|y l Hs IH Hy]; [by repeat constructor|]. cbn. destruct (Z.leb_spec (cmp x y) 0) as [Hle|Hlt].
  - constructor; [by constructor|by constructor].
  - constructor; [done|]. destruct l as [|z l]; [constructor; by apply Hc|]. cbn [insert_by]. inversion Hy. destruct (cmp x z <=? 0); constructor; [by apply Hc|done].
Qed.
(** Sorting keeps the resources and puts them into order, for a comparison that
    is total. *)
Lemma sort_by_sorted {A} (cmp : A -> A -> Z) l : (forall a b, 0 < cmp a b -> cmp b a <= 0) ->
  Sorted (fun a b => cmp a b <= 0) (sort_by cmp l) /\ sort_by cmp l ≡ₚ l.
Proof. intros Hc. split; [|apply sort_by_perm]. induction l as [|x l IH]; [constructor|]. cbn. by apply insert_by_sorted. Qed.

(** ** Addresses *)

(** A relative address is put after the directory slash of the page's. *)
Example relative_address : buildUrl (js "http://h:8080/ui/?a=b#/x") (js "api.json") = js "http://h:8080/ui/api.json".
Proof. vm_compute. reflexivity. Qed.
Example absolute_address : buildUrl (js "http://h:8080/ui/index.html") (js "/v2/api.json") = js "http://h:8080/v2/api.json".
Proof. vm_compute. reflexivity. Qed.
(** Next to a page with a file name the address is not that of a sibling. *)
Example beside_a_file : buildUrl (js "http://h/ui/index.html") (js "api.json") = js "http://h/ui/index.html/api.json".
Proof. vm_compute. reflexivity. Qed.
(** A relative address that begins with http is taken for an absolute one. *)
Example http_name : load_url (js "http://h/ui/") (vstr "httpd/api.json") = Ok (vstr "httpd/api.json").
Proof. vm_compute. reflexivity. Qed.
