(* ===== verification/Docs.v ===== *)
(** * Opening and closing the sections of the page

    [Docs] of swagger-ui.js (sections and operations, and the fragment of the
    address), two of its Handlebars helpers, and the tabs of docs/js/main.js. The
    page is the list of its sections: whether the resource is active, its list of
    operations open, and each operation shown. *)

From Stdlib Require Import String.
From S2P Require Import Prelude JsNumber JsString JsValue.

Record section := Sect { s_id : jsstr; s_active : bool; s_open : bool; s_ops : list (jsstr * bool) }.
Record page := Page { sections : list section; fragment : jsstr }.

(** [escapeResourceName], and how a selector reads a name. *)
Definition SPECIAL : jsstr := js "!#$%&'()*+,./:;<=>?@[\]^`{|}~" ++ [34].
Definition escapeResourceName (resource : jsstr) : jsstr :=
  List.flat_map (fun c => if bool_decide (c ∈ SPECIAL) then [92; c] else [c]) resource.
Fixpoint selector_name (s : jsstr) (escaped : bool) : jsstr :=
  match s with
  | [] => []
  | c :: s => if escaped then c :: selector_name s false else if c =? 92 then selector_name s true else c :: selector_name s false
  end.

(** What a selector with the name of a resource is applied to. *)
Definition at_section (resource : jsstr) (f : section -> section) (p : page) : page :=
  let name := selector_name (escapeResourceName resource) false in
  Page ((fun s => if bool_decide (s_id s = name) then f s else s) <$> sections p) (fragment p).
Definition at_all (f : section -> section) (p : page) : page := Page (f <$> sections p) (fragment p).
Definition set_open (b : bool) (s : section) : section := Sect (s_id s) (s_active s) b (s_ops s).
Definition set_active (b : bool) (s : section) : section := Sect (s_id s) b (s_open s) (s_ops s).
Definition set_ops (b : bool) (s : section) : section := Sect (s_id s) (s_active s) (s_open s) ((fun o => (o.1, b)) <$> s_ops s).
Definition pushState (fr : jsstr) (p : page) : page := Page (sections p) fr.

Definition expandEndpointListForResource (resource : jsstr) (p : page) : page :=
  if bool_decide (escapeResourceName resource = []) then at_all (set_open true) p
  else at_section resource (fun s => set_open true (set_active true s)) p.
Definition collapseEndpointListForResource (resource : jsstr) (p : page) : page :=
  if bool_decide (escapeResourceName resource = []) then at_all (set_open false) p
  else at_section resource (fun s => set_open false (set_active false s)) p.
Definition is_visible (resource : jsstr) (p : page) : bool :=
  List.existsb (fun s => bool_decide (s_id s = selector_name (escapeResourceName resource) false) && s_open s) (sections p).
Definition toggleEndpointListForResource (resource : jsstr) (p : page) : page :=
  if is_visible resource p then collapseEndpointListForResource resource (pushState (js "#/") p)
  else expandEndpointListForResource resource (pushState (js "#/" ++ resource) p).
(** Both make sure that the list is open first. *)
Definition expandOperationsForResource (resource : jsstr) (p : page) : page :=
  let p := expandEndpointListForResource resource p in
  if bool_decide (resource = []) then at_all (set_ops true) p else at_section resource (set_ops true) p.
Definition collapseOperationsForResource (resource : jsstr) (p : page) : page :=
  let p := expandEndpointListForResource resource p in
  if bool_decide (resource = []) then at_all (set_ops false) p else at_section resource (set_ops false) p.

(** [expandOperation] and [collapseOperation] of the element with an id. *)
Definition show_operation (id : jsstr) (b : bool) (p : page) : page :=
  at_all (fun s => Sect (s_id s) (s_active s) (s_open s) ((fun o => if bool_decide (o.1 = id) then (o.1, b) else o) <$> s_ops s)) p.
Definition op_visible (id : jsstr) (p : page) : bool :=
  List.existsb (fun s => List.existsb (fun o => bool_decide (o.1 = id) && o.2) (s_ops s)) (sections p).
(** [OperationView.toggleOperationContent]. *)
Definition toggleOperationContent (parentId nickname : jsstr) (p : page) : page :=
  let id := parentId ++ js "_" ++ nickname ++ js "_content" in
  if op_visible id p then show_operation id false (pushState (js "#/") p) else show_operation id true p.

(** [shebang]: [$.param.fragment()] is the fragment without the hash sign; what
    comes before its first slash is dropped. *)
Definition shebang (p : page) : page :=
  let fr := match fragment p with 35 :: s => s | s => s end in
  match split fr (js "/") with
  | [_; r] => if bool_decide (r = []) then p else expandEndpointListForResource r p
  | [_; r; op] => show_operation (join (js "_") [r; op] ++ js "_content") true (expandEndpointListForResource r p)
  | _ => p
  end.

(** ** Text parameters *)

(** [Handlebars.Utils.escapeExpression] of a text. *)
Definition hb_escape_unit (c : Z) : jsstr :=
  if c =? 38 then js "&amp;" else if c =? 60 then js "&lt;" else if c =? 62 then js "&gt;" else if c =? 34 then js "&quot;"
  else if c =? 39 then js "&#x27;" else if c =? 96 then js "&#x60;" else if c =? 61 then js "&#x3D;" else [c].
Definition hb_escape (v : jsval) : jsstr := if is_nullish v then [] else List.flat_map hb_escape_unit (to_str v).

Section text_param.
Context (sanitizeHtml : jsval -> jsstr).
Definition SQ : jsstr := [39].
(** [/^X-data-/i], and the attribute of such a property. *)
Definition is_data_key (k : jsstr) : bool := startsWith (toLowerCase k) (js "x-data-").
Definition data_attribute (kv : jsstr * jsval) : jsstr := js " " ++ drop 2 kv.1 ++ js "=" ++ SQ ++ to_str kv.2 ++ SQ.
(** [renderTextParam]. *)
Definition renderTextParam (param : obj) : res jsstr :=
  schemaType ← (if truthy (get param (js "schema")) then t ← prop (get param (js "schema")) (js "type"); Ok t else Ok VUndef);
  let paramType := js_orv (js_orv (get param (js "type")) schemaType) (VStr []) in
  t ← as_str paramType;
  let isArray := bool_decide (toLowerCase t = js "array") || truthy (get param (js "allowMultiple")) in
  let default := match get param (js "default") with
                 | VArr l => if isArray then VStr (join [10] ((fun v => if is_nullish v then [] else to_str v) <$> l)) else VArr l
                 | v => v end in
  let name := hb_escape (get param (js "name")) in
  let valueId := hb_escape (get param (js "valueId")) in
  let data := List.concat (data_attribute <$> List.filter (fun kv => is_data_key kv.1) (for_in param)) in
  let type := if eq_str (get param (js "format")) (js "password") then js "password" else js "text" in
  let idAtt := if bool_decide (valueId = []) then [] else js " id=" ++ SQ ++ valueId ++ SQ in
  let value := if truthy default then sanitizeHtml default else [] in
  let required := truthy (get param (js "required")) in
  Ok (if isArray then
        js "<textarea class='body-textarea" ++ (if required then js " required" else []) ++ js "' name='" ++ name ++ SQ ++ idAtt ++ data ++
        js " placeholder='Provide multiple values in new lines" ++ (if required then js " (at least one required)." else js ".") ++ js "'>" ++
        value ++ js "</textarea>"
      else
        js "<input class='parameter" ++ (if required then js " required" else []) ++ js "' minlength='" ++ (if required then js "1" else js "0") ++ SQ ++
        js " name='" ++ name ++ js "' placeholder='" ++ (if required then js "(required)" else []) ++ SQ ++ idAtt ++ data ++
        js " type='" ++ type ++ js "' value='" ++ value ++ js "'/>").
End text_param.

(** [ifCond], for the operators that compare texts and truth. *)
Definition ifCond (loose_eq less less_eq : jsval -> jsval -> bool) (v1 : jsval) (operator : jsstr) (v2 : jsval) : bool :=
  let op s := bool_decide (operator = js s) in
  if op "=="%string then loose_eq v1 v2
  else if op "==="%string then strict_eq v1 v2
  else if op "<"%string then less v1 v2
  else if op "<="%string then less_eq v1 v2
  else if op ">"%string then less v2 v1
  else if op ">="%string then less_eq v2 v1
  else if op "&&"%string then truthy v1 && truthy v2
  else if op "||"%string then truthy v1 || truthy v2
  else false.

(** ** Code tabs of the documentation *)

Record sample := Sample { lang : jsstr; image : bool; notabs : bool }.
Record tab := Tab { tab_class : jsstr; tab_id : jsstr; buttonLabel : jsstr; tab_active : bool }.
Definition langImages : list (jsstr * jsstr) :=
  [(js "scala", js "img/scala-sm.png"); (js "python", js "img/python-sm.png"); (js "java", js "img/java-sm.png")].
Definition code_tab (counter : nat) (first : bool) (s : sample) : tab :=
  let capitalizedLang := toUpperCase (take 1 (lang s)) ++ drop 1 (lang s) in
  let label :=
    match (if image s then assoc (lang s) langImages else None) with
    | Some i => js "<img src='" ++ i ++ js "' alt='" ++ capitalizedLang ++ js "' />"
    | None => if notabs s then [] else js "<b>" ++ capitalizedLang ++ js "</b>"
    end in
  Tab (js "tab_" ++ lang s) (js "tab_" ++ lang s ++ js "_" ++ Z_to_str (Z.of_nat counter)) label first.
Definition code_block (counter : nat) (samples : list sample) : list tab :=
  imap (fun i s => code_tab counter (bool_decide (i = O)) s) samples.
Definition codeTabs (blocks : list (list sample)) : list (list tab) := imap code_block blocks.
(** A click shows the tabs of the same language in every block. *)
Definition show_tabs (class : jsstr) (blocks : list (list tab)) : list (list tab) :=
  (fun block : list tab => if bool_decide (class ∈ tab_class <$> block)
                then (fun t => Tab (tab_class t) (tab_id t) (buttonLabel t) (bool_decide (tab_class t = class))) <$> block else block) <$> blocks.

(** ** Names in selectors *)

Lemma selector_backslash r : selector_name (escapeResourceName r) false = r.
Proof.
  induction r as [|c r IH]; [done|]. unfold escapeResourceName. cbn [List.flat_map]. case_bool_decide as Hc; cbn [app selector_name].
  - change (92 =? 92) with true. cbn match. f_equal. exact IH.
  - destruct (Z.eqb_spec c 92) as [->|]; [exfalso; apply Hc; by apply (bool_decide_eq_true _)|]. f_equal. exact IH.
Qed.
Lemma escape_nil r : bool_decide (escapeResourceName r = []) = bool_decide (r = []).
Proof. destruct r as [|c r]; [done|]. unfold escapeResourceName. cbn [List.flat_map]. rewrite (bool_decide_eq_false_2 (c :: r = [])) by done.
  apply bool_decide_eq_false. by destruct (bool_decide (c ∈ SPECIAL)). Qed.

(** ** The address of an open section *)

Definition closed (p : page) : Prop := Forall (fun s => s_open s = false) (sections p).
Lemma closed_invisible r p : closed p -> is_visible r p = false.
Proof.
  unfold closed, is_visible. intros H. induction H as [|s l Hs _ IH]; [done|]. cbn. by rewrite Hs, andb_false_r, IH.
Qed.

(** The address is a bookmark: opening a resource of a page where all are closed
    puts it into the fragment, and [shebang] on a fresh page with that fragment
    opens the same resource; closing it again gives the closed page, up to
    the fragment. *)
Theorem resource_bookmark r p : r <> [] -> 47 ∉ r -> closed p ->
  let opened := toggleEndpointListForResource r p in
  fragment opened = js "#/" ++ r /\ shebang (pushState (fragment opened) p) = opened /\
  ((exists s, s ∈ sections p /\ s_id s = r) -> Forall (fun s => s_active s = false) (sections p) ->
   toggleEndpointListForResource r opened = pushState (js "#/") p).
Proof.
  intros Hr Hs Hc opened.
  assert (Ee : forall q, expandEndpointListForResource r q = at_section r (fun s => set_open true (set_active true s)) q)
    by (intros; unfold expandEndpointListForResource; by rewrite escape_nil, bool_decide_eq_false_2).
  assert (Ec : forall q, collapseEndpointListForResource r q = at_section r (fun s => set_open false (set_active false s)) q)
    by (intros; unfold collapseEndpointListForResource; by rewrite escape_nil, bool_decide_eq_false_2).
  assert (Eo : opened = at_section r (fun s => set_open true (set_active true s)) (pushState (js "#/" ++ r) p))
    by (unfold opened, toggleEndpointListForResource; by rewrite closed_invisible, Ee).
  clearbody opened. subst opened. split; [done|]. split.
  - unfold shebang. cbn [fragment pushState at_section]. change (js "#/" ++ r) with (35 :: 47 :: r). cbn match.
    change (js "/") with [47]. change (47 :: r) with ([] ++ 47 :: r). rewrite split_char_app, split_no_char by (done || apply not_elem_of_nil).
    rewrite bool_decide_eq_false_2 by done. by rewrite Ee.
  - intros (s & Hin & Hid) Ha. unfold toggleEndpointListForResource.
    assert (Hv : is_visible r (at_section r (fun s => set_open true (set_active true s)) (pushState (js "#/" ++ r) p)) = true).
    { unfold is_visible. apply existsb_exists. exists (set_open true (set_active true s)). rewrite selector_backslash. split.
      - apply list_elem_of_In. cbn [sections at_section]. rewrite selector_backslash. apply list_elem_of_fmap. exists s. by rewrite bool_decide_eq_true_2.
      - cbn. by rewrite bool_decide_eq_true_2. }
    rewrite Hv, Ec. unfold at_section, pushState. cbn [sections fragment]. f_equal. rewrite selector_backslash.
    rewrite <- list_fmap_compose. rewrite <- (list_fmap_id (sections p)) at 2. apply list_fmap_ext. intros i x Hx. cbn.
    unfold closed in Hc. rewrite Forall_forall in Hc, Ha. assert (Hxin : x ∈ sections p) by by eapply list_elem_of_lookup_2.
    destruct (bool_decide_reflect (s_id x = r)) as [Hxr|Hxr]; cbn; [rewrite bool_decide_eq_true_2 by done|by rewrite bool_decide_eq_false_2].
    unfold set_open, set_active. cbn. destruct x as [i0 a o ops]. cbn. f_equal; symmetry; [exact (Ha _ Hxin)|exact (Hc _ Hxin)].
Qed.
Definition demo_pages : page := Page [Sect (js "pet") false false [(js "pet_get_content", false)]; Sect (js "store") false false []] [].
Lemma resource_bookmark_witness :
  let opened := toggleEndpointListForResource (js "pet") demo_pages in
  fragment opened = js "#/" ++ js "pet" /\ shebang (pushState (fragment opened) demo_pages) = opened /\
  ((exists s, s ∈ sections demo_pages /\ s_id s = js "pet") -> Forall (fun s => s_active s = false) (sections demo_pages) ->
   toggleEndpointListForResource (js "pet") opened = pushState (js "#/") demo_pages).
Proof. apply (resource_bookmark (js "pet") demo_pages); [done|by apply (bool_decide_eq_false _)|by repeat constructor]. Defined.

(** A bookmark of an operation opens its resource and shows it. *)
Example operation_bookmark :
  shebang (pushState (js "#!/pet/get") demo_pages) =
  Page [Sect (js "pet") true true [(js "pet_get_content", true)]; Sect (js "store") false false []] (js "#!/pet/get").
Proof. vm_compute. reflexivity. Qed.
(** Hiding the operations of a resource opens its list. *)
Example collapse_opens : sections (collapseOperationsForResource (js "store") demo_pages) !! 1%nat = Some (Sect (js "store") true true []).
Proof. vm_compute. reflexivity. Qed.

(** ** Attributes *)

(** Escaped names cannot end an attribute or a tag. *)
Lemma hb_escape_safe v : Forall (fun c => c <> 39 /\ c <> 34 /\ c <> 60 /\ c <> 62 /\ c <> 61 /\ c <> 96) (hb_escape v).
Proof.
  unfold hb_escape. destruct (is_nullish v); [constructor|]. induction (to_str v) as [|c s IH]; [constructor|]. cbn [List.flat_map].
  apply Forall_app. split; [|exact IH]. unfold hb_escape_unit.
  repeat match goal with |- context [if c =? ?n then _ else _] => destruct (Z.eqb_spec c n) as [->|?]; [by repeat constructor|] end.
  by repeat constructor.
Qed.
(** A default value is only cleared of tags: a quote in it ends the attribute. *)
Example default_ends_attribute :
  renderTextParam (fun v => to_str v) [(js "name", vstr "q"); (js "type", vstr "string"); (js "default", VStr (js "x' onfocus='alert(1)"))] =
  Ok (js "<input class='parameter' minlength='0' name='q' placeholder='' type='text' value='x' onfocus='alert(1)'/>").
Proof. vm_compute. reflexivity. Qed.

(** ** Tabs have different ids *)

Lemma dec_value_no_underscore l : forall a v, dec_value a l = Some v -> 95 ∉ l.
Proof.
  induction l as [|c l IH]; intros a v H; [apply not_elem_of_nil|]. cbn [dec_value] in H.
  destruct ((48 <=? c) && (c <=? 57)) eqn:E; [|done]. apply not_elem_of_cons. split; [lia|]. by eapply IH.
Qed.
Lemma codeTabs_ids blocks i j bi bj t u : codeTabs blocks !! i = Some bi -> codeTabs blocks !! j = Some bj ->
  t ∈ bi -> u ∈ bj -> tab_id t = tab_id u -> tab_class t = tab_class u.
Proof.
  intros Hi Hj Ht Hu E. unfold codeTabs in Hi, Hj. rewrite list_lookup_imap in Hi, Hj.
  destruct (blocks !! i) as [si|]; [|done]. destruct (blocks !! j) as [sj|]; [|done]. cbn in Hi, Hj. injection Hi as <-. injection Hj as <-.
  assert (Htab : forall n l x, x ∈ code_block n l -> exists s, tab_id x = js "tab_" ++ lang s ++ [95] ++ Z_to_str (Z.of_nat n) /\ tab_class x = js "tab_" ++ lang s).
  { intros n l x Hx. apply list_elem_of_lookup in Hx as [k Hx]. unfold code_block in Hx. rewrite list_lookup_imap in Hx.
    destruct (l !! k) as [s|]; [|done]. cbn in Hx. injection Hx as <-. by exists s. }
  apply Htab in Ht as (s & Et & ->). apply Htab in Hu as (s' & Eu & ->). rewrite Et, Eu in E. apply app_inv_head in E. f_equal.
  assert (Hd : forall n, 95 ∉ Z_to_str (Z.of_nat n)).
  { intros n. by eapply dec_value_no_underscore, dec_value_to_str; lia. }
  assert (Hcut : forall a b x y, 95 ∉ x -> 95 ∉ y -> a ++ [95] ++ x = b ++ [95] ++ y -> a = b).
  { clear. intros a b x y Hx Hy E. apply (f_equal (@rev Z)) in E. rewrite !rev_app_distr, <- !app_assoc in E. cbn [rev app] in E.
    assert (H : forall p q c d : jsstr, 95 ∉ p -> 95 ∉ q -> p ++ 95 :: c = q ++ 95 :: d -> c = d).
    { induction p as [|z p IH]; intros [|w q] c d Hp Hq E'; cbn in E'; simplify_eq; try done.
      - exfalso. apply Hq. by left.
      - exfalso. apply Hp. by left.
      - apply not_elem_of_cons in Hp as [_ Hp]. apply not_elem_of_cons in Hq as [_ Hq]. by eapply IH. }
    apply H in E; [|by rewrite list_elem_of_In, <- in_rev, <- list_elem_of_In..]. apply (f_equal (@rev Z)) in E. by rewrite !rev_involutive in E. }
  by eapply Hcut.
Qed.
