(* ===== verification/Lang.v ===== *)
(** * Translations

    The language files of the Swagger UI and [translator.js]: a table of
    phrases, and the translation of the marked elements of a page. *)

From Stdlib Require Import String Ascii.
From S2P Require Import Prelude JsNumber JsString JsValue.

(** ** Phrases

    The source is in UTF-8; the phrases are its UTF-16 units. *)
Fixpoint utf8_units (bytes : list Z) : jsstr :=
  match bytes with
  | [] => []
  | a :: r =>
      if a <? 128 then a :: utf8_units r
      else match r with
           | b :: r' =>
               if a <? 224 then (a - 192) * 64 + (b - 128) :: utf8_units r'
               else match r' with
                    | c :: r'' => (a - 224) * 4096 + (b - 128) * 64 + (c - 128) :: utf8_units r''
                    | [] => []
                    end
           | [] => []
           end
  end.
Definition phrase (s : string) : jsstr := utf8_units (js s).
Arguments phrase s%_string.

(** An entry of a language file. *)
Definition word (key value : string) : jsstr * jsstr := (phrase key, phrase value).
Arguments word key%_string value%_string.

Abbreviation dictionary := (list (jsstr * jsstr)).

(** ** The language files *)

Definition lang_ca : dictionary := [
  word "Warning: Deprecated" "Advertència: Obsolet";
  word "Implementation Notes" "Notes d'implementació";
  word "Response Class" "Classe de la Resposta";
  word "Status" "Estatus";
  word "Parameters" "Paràmetres";
  word "Parameter" "Paràmetre";
  word "Value" "Valor";
  word "Description" "Descripció";
  word "Parameter Type" "Tipus del Paràmetre";
  word "Data Type" "Tipus de la Dada";
  word "Response Messages" "Missatges de la Resposta";
  word "HTTP Status Code" "Codi d'Estatus HTTP";
  word "Reason" "Raó";
  word "Response Model" "Model de la Resposta";
  word "Request URL" "URL de la Sol·licitud";
  word "Response Body" "Cos de la Resposta";
  word "Response Code" "Codi de la Resposta";
  word "Response Headers" "Capçaleres de la Resposta";
  word "Hide Response" "Amagar Resposta";
  word "Try it out!" "Prova-ho!";
  word "Show/Hide" "Mostrar/Amagar";
  word "List Operations" "Llista Operacions";
  word "Expand Operations" "Expandir Operacions";
  word "Raw" "Cru";
  word "can't parse JSON.  Raw result" "no puc analitzar el JSON.  Resultat cru";
  word "Example Value" "Valor d'Exemple";
  word "Model Schema" "Esquema del Model";
  word "Model" "Model";
  word "apply" "aplicar";
  word "Username" "Nom d'usuari";
  word "Password" "Contrasenya";
  word "Terms of service" "Termes del servei";
  word "Created by" "Creat per";
  word "See more at" "Veure més en";
  word "Contact the developer" "Contactar amb el desenvolupador";
  word "api version" "versió de la api";
  word "Response Content Type" "Tipus de Contingut de la Resposta";
  word "fetching resource" "recollint recurs";
  word "fetching resource list" "recollins llista de recursos";
  word "Explore" "Explorant";
  word "Show Swagger Petstore Example Apis" "Mostrar API d'Exemple Swagger Petstore";
  word "Can't read from server.  It may not have the appropriate access-control-origin settings." "No es pot llegir del servidor. Potser no teniu la configuració de control d'accés apropiada.";
  word "Please specify the protocol for" "Si us plau, especifiqueu el protocol per a";
  word "Can't read swagger JSON from" "No es pot llegir el JSON de swagger des de";
  word "Finished Loading Resource Information. Rendering Swagger UI" "Finalitzada la càrrega del recurs informatiu. Renderitzant Swagger UI";
  word "Unable to read api" "No es pot llegir l'api";
  word "from path" "des de la ruta";
  word "server returned" "el servidor ha retornat"
].

Definition lang_el : dictionary := [
  word "Warning: Deprecated" "Προειδοποίηση: Έχει αποσυρθεί";
  word "Implementation Notes" "Σημειώσεις Υλοποίησης";
  word "Response Class" "Απόκριση";
  word "Status" "Κατάσταση";
  word "Parameters" "Παράμετροι";
  word "Parameter" "Παράμετρος";
  word "Value" "Τιμή";
  word "Description" "Περιγραφή";
  word "Parameter Type" "Τύπος Παραμέτρου";
  word "Data Type" "Τύπος Δεδομένων";
  word "Response Messages" "Μηνύματα Απόκρισης";
  word "HTTP Status Code" "Κωδικός Κατάστασης HTTP";
  word "Reason" "Αιτιολογία";
  word "Response Model" "Μοντέλο Απόκρισης";
  word "Request URL" "URL Αιτήματος";
  word "Response Body" "Σώμα Απόκρισης";
  word "Response Code" "Κωδικός Απόκρισης";
  word "Response Headers" "Επικεφαλίδες Απόκρισης";
  word "Hide Response" "Απόκρυψη Απόκρισης";
  word "Headers" "Επικεφαλίδες";
  word "Try it out!" "Δοκιμάστε το!";
  word "Show/Hide" "Εμφάνιση/Απόκρυψη";
  word "List Operations" "Λίστα Λειτουργιών";
  word "Expand Operations" "Ανάπτυξη Λειτουργιών";
  word "Raw" "Ακατέργαστο";
  word "can't parse JSON.  Raw result" "αδυναμία ανάλυσης JSON.  Ακατέργαστο αποτέλεσμα";
  word "Example Value" "Παράδειγμα Τιμής";
  word "Model Schema" "Σχήμα Μοντέλου";
  word "Model" "Μοντέλο";
  word "Click to set as parameter value" "Πατήστε για να θέσετε τιμή παραμέτρου";
  word "apply" "εφαρμογή";
  word "Username" "Όνομα χρήση";
  word "Password" "Κωδικός πρόσβασης";
  word "Terms of service" "Όροι χρήσης";
  word "Created by" "Δημιουργήθηκε από";
  word "See more at" "Δείτε περισσότερα στο";
  word "Contact the developer" "Επικοινωνήστε με τον προγραμματιστή";
  word "api version" "έκδοση api";
  word "Response Content Type" "Τύπος Περιεχομένου Απόκρισης";
  word "Parameter content type:" "Τύπος περιεχομένου παραμέτρου:";
  word "fetching resource" "παραλαβή πόρου";
  word "fetching resource list" "παραλαβή λίστας πόρων";
  word "Explore" "Εξερεύνηση";
  word "Show Swagger Petstore Example Apis" "Εμφάνιση Api Δειγμάτων Petstore του Swagger";
  word "Can't read from server.  It may not have the appropriate access-control-origin settings." "Αδυναμία ανάγνωσης από τον εξυπηρετητή.  Μπορεί να μην έχει κατάλληλες ρυθμίσεις για access-control-origin.";
  word "Please specify the protocol for" "Παρακαλώ προσδιορίστε το πρωτόκολλο για";
  word "Can't read swagger JSON from" "Αδυναμία ανάγνωσης swagger JSON από";
  word "Finished Loading Resource Information. Rendering Swagger UI" "Ολοκλήρωση Φόρτωσης Πληροφορικών Πόρου. Παρουσίαση Swagger UI";
  word "Unable to read api" "Αδυναμία ανάγνωσης api";
  word "from path" "από το μονοπάτι";
  word "server returned" "ο εξυπηρετηρής επέστρεψε"
].

Definition lang_en : dictionary := [
  word "Warning: Deprecated" "Warning: Deprecated";
  word "Implementation Notes" "Implementation Notes";
  word "Response Class" "Response Class";
  word "Status" "Status";
  word "Parameters" "Parameters";
  word "Parameter" "Parameter";
  word "Value" "Value";
  word "Description" "Description";
  word "Parameter Type" "Parameter Type";
  word "Data Type" "Data Type";
  word "Response Messages" "Response Messages";
  word "HTTP Status Code" "HTTP Status Code";
  word "Reason" "Reason";
  word "Response Model" "Response Model";
  word "Request URL" "Request URL";
  word "Response Body" "Response Body";
  word "Response Code" "Response Code";
  word "Response Headers" "Response Headers";
  word "Hide Response" "Hide Response";
  word "Headers" "Headers";
  word "Try it out!" "Try it out!";
  word "Show/Hide" "Show/Hide";
  word "List Operations" "List Operations";
  word "Expand Operations" "Expand Operations";
  word "Raw" "Raw";
  word "can't parse JSON.  Raw result" "can't parse JSON.  Raw result";
  word "Example Value" "Example Value";
  word "Model Schema" "Model Schema";
  word "Model" "Model";
  word "Click to set as parameter value" "Click to set as parameter value";
  word "apply" "apply";
  word "Username" "Username";
  word "Password" "Password";
  word "Terms of service" "Terms of service";
  word "Created by" "Created by";
  word "See more at" "See more at";
  word "Contact the developer" "Contact the developer";
  word "api version" "api version";
  word "Response Content Type" "Response Content Type";
  word "Parameter content type:" "Parameter content type:";
  word "fetching resource" "fetching resource";
  word "fetching resource list" "fetching resource list";
  word "Explore" "Explore";
  word "Show Swagger Petstore Example Apis" "Show Swagger Petstore Example Apis";
  word "Can't read from server.  It may not have the appropriate access-control-origin settings." "Can't read from server.  It may not have the appropriate access-control-origin settings.";
  word "Please specify the protocol for" "Please specify the protocol for";
  word "Can't read swagger JSON from" "Can't read swagger JSON from";
  word "Finished Loading Resource Information. Rendering Swagger UI" "Finished Loading Resource Information. Rendering Swagger UI";
  word "Unable to read api" "Unable to read api";
  word "from path" "from path";
  word "server returned" "server returned"
].

Definition lang_es : dictionary := [
  word "Warning: Deprecated" "Advertencia: Obsoleto";
  word "Implementation Notes" "Notas de implementación";
  word "Response Class" "Clase de la Respuesta";
  word "Status" "Status";
  word "Parameters" "Parámetros";
  word "Parameter" "Parámetro";
  word "Value" "Valor";
  word "Description" "Descripción";
  word "Parameter Type" "Tipo del Parámetro";
  word "Data Type" "Tipo del Dato";
  word "Response Messages" "Mensajes de la Respuesta";
  word "HTTP Status Code" "Código de Status HTTP";
  word "Reason" "Razón";
  word "Response Model" "Modelo de la Respuesta";
  word "Request URL" "URL de la Solicitud";
  word "Response Body" "Cuerpo de la Respuesta";
  word "Response Code" "Código de la Respuesta";
  word "Response Headers" "Encabezados de la Respuesta";
  word "Hide Response" "Ocultar Respuesta";
  word "Try it out!" "Pruébalo!";
  word "Show/Hide" "Mostrar/Ocultar";
  word "List Operations" "Listar Operaciones";
  word "Expand Operations" "Expandir Operaciones";
  word "Raw" "Crudo";
  word "can't parse JSON.  Raw result" "no puede parsear el JSON.  Resultado crudo";
  word "Example Value" "Valor de Ejemplo";
  word "Model Schema" "Esquema del Modelo";
  word "Model" "Modelo";
  word "apply" "aplicar";
  word "Username" "Nombre de usuario";
  word "Password" "Contraseña";
  word "Terms of service" "Términos de Servicio";
  word "Created by" "Creado por";
  word "See more at" "Ver más en";
  word "Contact the developer" "Contactar al desarrollador";
  word "api version" "versión de la api";
  word "Response Content Type" "Tipo de Contenido (Content Type) de la Respuesta";
  word "fetching resource" "buscando recurso";
  word "fetching resource list" "buscando lista del recurso";
  word "Explore" "Explorar";
  word "Show Swagger Petstore Example Apis" "Mostrar Api Ejemplo de Swagger Petstore";
  word "Can't read from server.  It may not have the appropriate access-control-origin settings." "No se puede leer del servidor. Tal vez no tiene la configuración de control de acceso de origen (access-control-origin) apropiado.";
  word "Please specify the protocol for" "Por favor, especificar el protocola para";
  word "Can't read swagger JSON from" "No se puede leer el JSON de swagger desde";
  word "Finished Loading Resource Information. Rendering Swagger UI" "Finalizada la carga del recurso de Información. Mostrando Swagger UI";
  word "Unable to read api" "No se puede leer la api";
  word "from path" "desde ruta";
  word "server returned" "el servidor retornó"
].

Definition lang_fr : dictionary := [
  word "Warning: Deprecated" "Avertissement : Obsolète";
  word "Implementation Notes" "Notes d'implémentation";
  word "Response Class" "Classe de la réponse";
  word "Status" "Statut";
  word "Parameters" "Paramètres";
  word "Parameter" "Paramètre";
  word "Value" "Valeur";
  word "Description" "Description";
  word "Parameter Type" "Type du paramètre";
  word "Data Type" "Type de données";
  word "Response Messages" "Messages de la réponse";
  word "HTTP Status Code" "Code de statut HTTP";
  word "Reason" "Raison";
  word "Response Model" "Modèle de réponse";
  word "Request URL" "URL appelée";
  word "Response Body" "Corps de la réponse";
  word "Response Code" "Code de la réponse";
  word "Response Headers" "En-têtes de la réponse";
  word "Hide Response" "Cacher la réponse";
  word "Headers" "En-têtes";
  word "Try it out!" "Testez !";
  word "Show/Hide" "Afficher/Masquer";
  word "List Operations" "Liste des opérations";
  word "Expand Operations" "Développer les opérations";
  word "Raw" "Brut";
  word "can't parse JSON.  Raw result" "impossible de décoder le JSON.  Résultat brut";
  word "Example Value" "Exemple la valeur";
  word "Model Schema" "Définition du modèle";
  word "Model" "Modèle";
  word "apply" "appliquer";
  word "Username" "Nom d'utilisateur";
  word "Password" "Mot de passe";
  word "Terms of service" "Conditions de service";
  word "Created by" "Créé par";
  word "See more at" "Voir plus sur";
  word "Contact the developer" "Contacter le développeur";
  word "api version" "version de l'api";
  word "Response Content Type" "Content Type de la réponse";
  word "fetching resource" "récupération de la ressource";
  word "fetching resource list" "récupération de la liste de ressources";
  word "Explore" "Explorer";
  word "Show Swagger Petstore Example Apis" "Montrer les Apis de l'exemple Petstore de Swagger";
  word "Can't read from server.  It may not have the appropriate access-control-origin settings." "Impossible de lire à partir du serveur. Il se peut que les réglages access-control-origin ne soient pas appropriés.";
  word "Please specify the protocol for" "Veuillez spécifier un protocole pour";
  word "Can't read swagger JSON from" "Impossible de lire le JSON swagger à partir de";
  word "Finished Loading Resource Information. Rendering Swagger UI" "Chargement des informations terminé. Affichage de Swagger UI";
  word "Unable to read api" "Impossible de lire l'api";
  word "from path" "à partir du chemin";
  word "server returned" "réponse du serveur"
].

Definition lang_geo : dictionary := [
  word "Warning: Deprecated" "ყურადღება: აღარ გამოიყენება";
  word "Implementation Notes" "იმპლემენტაციის აღწერა";
  word "Response Class" "რესპონს კლასი";
  word "Status" "სტატუსი";
  word "Parameters" "პარამეტრები";
  word "Parameter" "პარამეტრი";
  word "Value" "მნიშვნელობა";
  word "Description" "აღწერა";
  word "Parameter Type" "პარამეტრის ტიპი";
  word "Data Type" "მონაცემის ტიპი";
  word "Response Messages" "პასუხი";
  word "HTTP Status Code" "HTTP სტატუსი";
  word "Reason" "მიზეზი";
  word "Response Model" "რესპონს მოდელი";
  word "Request URL" "მოთხოვნის URL";
  word "Response Body" "პასუხის სხეული";
  word "Response Code" "პასუხის კოდი";
  word "Response Headers" "პასუხის ჰედერები";
  word "Hide Response" "დამალე პასუხი";
  word "Headers" "ჰედერები";
  word "Try it out!" "ცადე !";
  word "Show/Hide" "გამოჩენა/დამალვა";
  word "List Operations" "ოპერაციების სია";
  word "Expand Operations" "ოპერაციები ვრცლად";
  word "Raw" "ნედლი";
  word "can't parse JSON.  Raw result" "JSON-ის დამუშავება ვერ მოხერხდა.  ნედლი პასუხი";
  word "Example Value" "მაგალითი";
  word "Model Schema" "მოდელის სტრუქტურა";
  word "Model" "მოდელი";
  word "Click to set as parameter value" "პარამეტრისთვის მნიშვნელობის მისანიჭებლად, დააკლიკე";
  word "apply" "გამოყენება";
  word "Username" "მოხმარებელი";
  word "Password" "პაროლი";
  word "Terms of service" "მომსახურების პირობები";
  word "Created by" "შექმნა";
  word "See more at" "ნახე ვრცლად";
  word "Contact the developer" "დაუკავშირდი დეველოპერს";
  word "api version" "api ვერსია";
  word "Response Content Type" "პასუხის კონტენტის ტიპი";
  word "Parameter content type:" "პარამეტრის კონტენტის ტიპი:";
  word "fetching resource" "რესურსების მიღება";
  word "fetching resource list" "რესურსების სიის მიღება";
  word "Explore" "ნახვა";
  word "Show Swagger Petstore Example Apis" "ნახე Swagger Petstore სამაგალითო Api";
  word "Can't read from server.  It may not have the appropriate access-control-origin settings." "სერვერთან დაკავშირება ვერ ხერხდება.  შეამოწმეთ access-control-origin.";
  word "Please specify the protocol for" "მიუთითეთ პროტოკოლი";
  word "Can't read swagger JSON from" "swagger JSON წაკითხვა ვერ მოხერხდა";
  word "Finished Loading Resource Information. Rendering Swagger UI" "რესურსების ჩატვირთვა სრულდება. Swagger UI რენდერდება";
  word "Unable to read api" "api წაკითხვა ვერ მოხერხდა";
  word "from path" "მისამართიდან";
  word "server returned" "სერვერმა დააბრუნა"
].

Definition lang_it : dictionary := [
  word "Warning: Deprecated" "Attenzione: Deprecato";
  word "Implementation Notes" "Note di implementazione";
  word "Response Class" "Classe della risposta";
  word "Status" "Stato";
  word "Parameters" "Parametri";
  word "Parameter" "Parametro";
  word "Value" "Valore";
  word "Description" "Descrizione";
  word "Parameter Type" "Tipo di parametro";
  word "Data Type" "Tipo di dato";
  word "Response Messages" "Messaggi della risposta";
  word "HTTP Status Code" "Codice stato HTTP";
  word "Reason" "Motivo";
  word "Response Model" "Modello di risposta";
  word "Request URL" "URL della richiesta";
  word "Response Body" "Corpo della risposta";
  word "Response Code" "Oggetto della risposta";
  word "Response Headers" "Intestazioni della risposta";
  word "Hide Response" "Nascondi risposta";
  word "Try it out!" "Provalo!";
  word "Show/Hide" "Mostra/Nascondi";
  word "List Operations" "Mostra operazioni";
  word "Expand Operations" "Espandi operazioni";
  word "Raw" "Grezzo (raw)";
  word "can't parse JSON.  Raw result" "non è possibile parsare il JSON. Risultato grezzo (raw).";
  word "Model Schema" "Schema del modello";
  word "Model" "Modello";
  word "apply" "applica";
  word "Username" "Nome utente";
  word "Password" "Password";
  word "Terms of service" "Condizioni del servizio";
  word "Created by" "Creato da";
  word "See more at" "Informazioni aggiuntive:";
  word "Contact the developer" "Contatta lo sviluppatore";
  word "api version" "versione api";
  word "Response Content Type" "Tipo di contenuto (content type) della risposta";
  word "fetching resource" "recuperando la risorsa";
  word "fetching resource list" "recuperando lista risorse";
  word "Explore" "Esplora";
  word "Show Swagger Petstore Example Apis" "Mostra le api di esempio di Swagger Petstore";
  word "Can't read from server.  It may not have the appropriate access-control-origin settings." "Non è possibile leggere dal server. Potrebbe non avere le impostazioni di controllo accesso origine (access-control-origin) appropriate.";
  word "Please specify the protocol for" "Si prega di specificare il protocollo per";
  word "Can't read swagger JSON from" "Impossibile leggere JSON swagger da:";
  word "Finished Loading Resource Information. Rendering Swagger UI" "Lettura informazioni risorse termianta. Swagger UI viene mostrata";
  word "Unable to read api" "Impossibile leggere la api";
  word "from path" "da cartella";
  word "server returned" "il server ha restituito"
].

Definition lang_ja : dictionary := [
  word "Warning: Deprecated" "警告: 廃止予定";
  word "Implementation Notes" "実装メモ";
  word "Response Class" "レスポンスクラス";
  word "Status" "ステータス";
  word "Parameters" "パラメータ群";
  word "Parameter" "パラメータ";
  word "Value" "値";
  word "Description" "説明";
  word "Parameter Type" "パラメータタイプ";
  word "Data Type" "データタイプ";
  word "Response Messages" "レスポンスメッセージ";
  word "HTTP Status Code" "HTTPステータスコード";
  word "Reason" "理由";
  word "Response Model" "レスポンスモデル";
  word "Request URL" "リクエストURL";
  word "Response Body" "レスポンスボディ";
  word "Response Code" "レスポンスコード";
  word "Response Headers" "レスポンスヘッダ";
  word "Hide Response" "レスポンスを隠す";
  word "Headers" "ヘッダ";
  word "Try it out!" "実際に実行!";
  word "Show/Hide" "表示/非表示";
  word "List Operations" "操作一覧";
  word "Expand Operations" "操作の展開";
  word "Raw" "未加工";
  word "can't parse JSON.  Raw result" "JSONへ解釈できません.  未加工の結果";
  word "Example Value" "値の例";
  word "Model Schema" "モデルスキーマ";
  word "Model" "モデル";
  word "Click to set as parameter value" "パラメータ値と設定するにはクリック";
  word "apply" "実行";
  word "Username" "ユーザ名";
  word "Password" "パスワード";
  word "Terms of service" "サービス利用規約";
  word "Created by" "Created by";
  word "See more at" "詳細を見る";
  word "Contact the developer" "開発者に連絡";
  word "api version" "APIバージョン";
  word "Response Content Type" "レスポンス コンテンツタイプ";
  word "Parameter content type:" "パラメータコンテンツタイプ:";
  word "fetching resource" "リソースの取得";
  word "fetching resource list" "リソース一覧の取得";
  word "Explore" "調査";
  word "Show Swagger Petstore Example Apis" "SwaggerペットストアAPIの表示";
  word "Can't read from server.  It may not have the appropriate access-control-origin settings." "サーバから読み込めません.  適切なaccess-control-origin設定を持っていない可能性があります.";
  word "Please specify the protocol for" "プロトコルを指定してください";
  word "Can't read swagger JSON from" "次からswagger JSONを読み込めません";
  word "Finished Loading Resource Information. Rendering Swagger UI" "リソース情報の読み込みが完了しました. Swagger UIを描画しています";
  word "Unable to read api" "APIを読み込めません";
  word "from path" "次のパスから";
  word "server returned" "サーバからの返答"
].

Definition lang_ko_kr : dictionary := [
  word "Warning: Deprecated" "경고：폐기예정됨";
  word "Implementation Notes" "구현 노트";
  word "Response Class" "응답 클래스";
  word "Status" "상태";
  word "Parameters" "매개변수들";
  word "Parameter" "매개변수";
  word "Value" "값";
  word "Description" "설명";
  word "Parameter Type" "매개변수 타입";
  word "Data Type" "데이터 타입";
  word "Response Messages" "응답 메세지";
  word "HTTP Status Code" "HTTP 상태 코드";
  word "Reason" "원인";
  word "Response Model" "응답 모델";
  word "Request URL" "요청 URL";
  word "Response Body" "응답 본문";
  word "Response Code" "응답 코드";
  word "Response Headers" "응답 헤더";
  word "Hide Response" "응답 숨기기";
  word "Headers" "헤더";
  word "Try it out!" "써보기！";
  word "Show/Hide" "보이기/숨기기";
  word "List Operations" "목록 작업";
  word "Expand Operations" "전개 작업";
  word "Raw" "원본";
  word "can't parse JSON.  Raw result" "JSON을 파싱할수 없음. 원본결과:";
  word "Model Schema" "모델 스키마";
  word "Model" "모델";
  word "apply" "적용";
  word "Username" "사용자 이름";
  word "Password" "암호";
  word "Terms of service" "이용약관";
  word "Created by" "작성자";
  word "See more at" "추가정보：";
  word "Contact the developer" "개발자에게 문의";
  word "api version" "api버전";
  word "Response Content Type" "응답Content Type";
  word "fetching resource" "리소스 가져오기";
  word "fetching resource list" "리소스 목록 가져오기";
  word "Explore" "탐색";
  word "Show Swagger Petstore Example Apis" "Swagger Petstore 예제 보기";
  word "Can't read from server.  It may not have the appropriate access-control-origin settings." "서버로부터 읽어들일수 없습니다. access-control-origin 설정이 올바르지 않을수 있습니다.";
  word "Please specify the protocol for" "다음을 위한 프로토콜을 정하세요";
  word "Can't read swagger JSON from" "swagger JSON 을 다음으로 부터 읽을수 없습니다";
  word "Finished Loading Resource Information. Rendering Swagger UI" "리소스 정보 불러오기 완료. Swagger UI 랜더링";
  word "Unable to read api" "api를 읽을 수 없습니다.";
  word "from path" "다음 경로로 부터";
  word "server returned" "서버 응답함."
].

Definition lang_pl : dictionary := [
  word "Warning: Deprecated" "Uwaga: Wycofane";
  word "Implementation Notes" "Uwagi Implementacji";
  word "Response Class" "Klasa Odpowiedzi";
  word "Status" "Status";
  word "Parameters" "Parametry";
  word "Parameter" "Parametr";
  word "Value" "Wartość";
  word "Description" "Opis";
  word "Parameter Type" "Typ Parametru";
  word "Data Type" "Typ Danych";
  word "Response Messages" "Wiadomości Odpowiedzi";
  word "HTTP Status Code" "Kod Statusu HTTP";
  word "Reason" "Przyczyna";
  word "Response Model" "Model Odpowiedzi";
  word "Request URL" "URL Wywołania";
  word "Response Body" "Treść Odpowiedzi";
  word "Response Code" "Kod Odpowiedzi";
  word "Response Headers" "Nagłówki Odpowiedzi";
  word "Hide Response" "Ukryj Odpowiedź";
  word "Headers" "Nagłówki";
  word "Try it out!" "Wypróbuj!";
  word "Show/Hide" "Pokaż/Ukryj";
  word "List Operations" "Lista Operacji";
  word "Expand Operations" "Rozwiń Operacje";
  word "Raw" "Nieprzetworzone";
  word "can't parse JSON.  Raw result" "nie można przetworzyć pliku JSON.  Nieprzetworzone dane";
  word "Model Schema" "Schemat Modelu";
  word "Model" "Model";
  word "apply" "użyj";
  word "Username" "Nazwa użytkownika";
  word "Password" "Hasło";
  word "Terms of service" "Warunki używania";
  word "Created by" "Utworzone przez";
  word "See more at" "Zobacz więcej na";
  word "Contact the developer" "Kontakt z deweloperem";
  word "api version" "wersja api";
  word "Response Content Type" "Typ Zasobu Odpowiedzi";
  word "fetching resource" "ładowanie zasobu";
  word "fetching resource list" "ładowanie listy zasobów";
  word "Explore" "Eksploruj";
  word "Show Swagger Petstore Example Apis" "Pokaż Przykładowe Api Swagger Petstore";
  word "Can't read from server.  It may not have the appropriate access-control-origin settings." "Brak połączenia z serwerem. Może on nie mieć odpowiednich ustawień access-control-origin.";
  word "Please specify the protocol for" "Proszę podać protokół dla";
  word "Can't read swagger JSON from" "Nie można odczytać swagger JSON z";
  word "Finished Loading Resource Information. Rendering Swagger UI" "Ukończono Ładowanie Informacji o Zasobie. Renderowanie Swagger UI";
  word "Unable to read api" "Nie można odczytać api";
  word "from path" "ze ścieżki";
  word "server returned" "serwer zwrócił"
].

Definition lang_pt : dictionary := [
  word "Warning: Deprecated" "Aviso: Depreciado";
  word "Implementation Notes" "Notas de Implementação";
  word "Response Class" "Classe de resposta";
  word "Status" "Status";
  word "Parameters" "Parâmetros";
  word "Parameter" "Parâmetro";
  word "Value" "Valor";
  word "Description" "Descrição";
  word "Parameter Type" "Tipo de parâmetro";
  word "Data Type" "Tipo de dados";
  word "Response Messages" "Mensagens de resposta";
  word "HTTP Status Code" "Código de status HTTP";
  word "Reason" "Razão";
  word "Response Model" "Modelo resposta";
  word "Request URL" "URL requisição";
  word "Response Body" "Corpo da resposta";
  word "Response Code" "Código da resposta";
  word "Response Headers" "Cabeçalho da resposta";
  word "Headers" "Cabeçalhos";
  word "Hide Response" "Esconder resposta";
  word "Try it out!" "Tente agora!";
  word "Show/Hide" "Mostrar/Esconder";
  word "List Operations" "Listar operações";
  word "Expand Operations" "Expandir operações";
  word "Raw" "Cru";
  word "can't parse JSON.  Raw result" "Falha ao analisar JSON.  Resulto cru";
  word "Model Schema" "Modelo esquema";
  word "Model" "Modelo";
  word "apply" "Aplicar";
  word "Username" "Usuário";
  word "Password" "Senha";
  word "Terms of service" "Termos do serviço";
  word "Created by" "Criado por";
  word "See more at" "Veja mais em";
  word "Contact the developer" "Contate o desenvolvedor";
  word "api version" "Versão api";
  word "Response Content Type" "Tipo de conteúdo da resposta";
  word "fetching resource" "busca recurso";
  word "fetching resource list" "buscando lista de recursos";
  word "Explore" "Explorar";
  word "Show Swagger Petstore Example Apis" "Show Swagger Petstore Example Apis";
  word "Can't read from server.  It may not have the appropriate access-control-origin settings." "Não é possível ler do servidor. Pode não ter as apropriadas configurações access-control-origin";
  word "Please specify the protocol for" "Por favor especifique o protocolo";
  word "Can't read swagger JSON from" "Não é possível ler o JSON Swagger de";
  word "Finished Loading Resource Information. Rendering Swagger UI" "Carregar informação de recurso finalizada. Renderizando Swagger UI";
  word "Unable to read api" "Não foi possível ler api";
  word "from path" "do caminho";
  word "server returned" "servidor retornou"
].

Definition lang_ru : dictionary := [
  word "Warning: Deprecated" "Предупреждение: Устарело";
  word "Implementation Notes" "Заметки";
  word "Response Class" "Пример ответа";
  word "Status" "Статус";
  word "Parameters" "Параметры";
  word "Parameter" "Параметр";
  word "Value" "Значение";
  word "Description" "Описание";
  word "Parameter Type" "Тип параметра";
  word "Data Type" "Тип данных";
  word "HTTP Status Code" "HTTP код";
  word "Reason" "Причина";
  word "Response Model" "Структура ответа";
  word "Request URL" "URL запроса";
  word "Response Body" "Тело ответа";
  word "Response Code" "HTTP код ответа";
  word "Response Headers" "Заголовки ответа";
  word "Hide Response" "Спрятать ответ";
  word "Headers" "Заголовки";
  word "Response Messages" "Что может прийти в ответ";
  word "Try it out!" "Попробовать!";
  word "Show/Hide" "Показать/Скрыть";
  word "List Operations" "Операции кратко";
  word "Expand Operations" "Операции подробно";
  word "Raw" "В сыром виде";
  word "can't parse JSON.  Raw result" "Не удается распарсить ответ:";
  word "Example Value" "Пример";
  word "Model Schema" "Структура";
  word "Model" "Описание";
  word "Click to set as parameter value" "Нажмите, чтобы испльзовать в качестве значения параметра";
  word "apply" "применить";
  word "Username" "Имя пользователя";
  word "Password" "Пароль";
  word "Terms of service" "Условия использования";
  word "Created by" "Разработано";
  word "See more at" "Еще тут";
  word "Contact the developer" "Связаться с разработчиком";
  word "api version" "Версия API";
  word "Response Content Type" "Content Type ответа";
  word "Parameter content type:" "Content Type параметра:";
  word "fetching resource" "Получение ресурса";
  word "fetching resource list" "Получение ресурсов";
  word "Explore" "Показать";
  word "Show Swagger Petstore Example Apis" "Показать примеры АПИ";
  word "Can't read from server. It may not have the appropriate access-control-origin settings." "Не удается получить ответ от сервера. Возможно, проблема с настройками доступа";
  word "Please specify the protocol for" "Пожалуйста, укажите протокол для";
  word "Can't read swagger JSON from" "Не получается прочитать swagger json из";
  word "Finished Loading Resource Information. Rendering Swagger UI" "Загрузка информации о ресурсах завершена. Рендерим";
  word "Unable to read api" "Не удалось прочитать api";
  word "from path" "по адресу";
  word "server returned" "сервер сказал"
].

Definition lang_tr : dictionary := [
  word "Warning: Deprecated" "Uyarı: Deprecated";
  word "Implementation Notes" "Gerçekleştirim Notları";
  word "Response Class" "Dönen Sınıf";
  word "Status" "Statü";
  word "Parameters" "Parametreler";
  word "Parameter" "Parametre";
  word "Value" "Değer";
  word "Description" "Açıklama";
  word "Parameter Type" "Parametre Tipi";
  word "Data Type" "Veri Tipi";
  word "Response Messages" "Dönüş Mesajı";
  word "HTTP Status Code" "HTTP Statü Kodu";
  word "Reason" "Gerekçe";
  word "Response Model" "Dönüş Modeli";
  word "Request URL" "İstek URL";
  word "Response Body" "Dönüş İçeriği";
  word "Response Code" "Dönüş Kodu";
  word "Response Headers" "Dönüş Üst Bilgileri";
  word "Hide Response" "Dönüşü Gizle";
  word "Headers" "Üst Bilgiler";
  word "Try it out!" "Dene!";
  word "Show/Hide" "Göster/Gizle";
  word "List Operations" "Operasyonları Listele";
  word "Expand Operations" "Operasyonları Aç";
  word "Raw" "Ham";
  word "can't parse JSON.  Raw result" "JSON çözümlenemiyor.  Ham sonuç";
  word "Model Schema" "Model Şema";
  word "Model" "Model";
  word "apply" "uygula";
  word "Username" "Kullanıcı Adı";
  word "Password" "Parola";
  word "Terms of service" "Servis şartları";
  word "Created by" "Oluşturan";
  word "See more at" "Daha fazlası için";
  word "Contact the developer" "Geliştirici ile İletişime Geçin";
  word "api version" "api versiyon";
  word "Response Content Type" "Dönüş İçerik Tipi";
  word "fetching resource" "kaynak getiriliyor";
  word "fetching resource list" "kaynak listesi getiriliyor";
  word "Explore" "Keşfet";
  word "Show Swagger Petstore Example Apis" "Swagger Petstore Örnek Api'yi Gör";
  word "Can't read from server.  It may not have the appropriate access-control-origin settings." "Sunucudan okuma yapılamıyor. Sunucu access-control-origin ayarlarınızı kontrol edin.";
  word "Please specify the protocol for" "Lütfen istenen adres için protokol belirtiniz";
  word "Can't read swagger JSON from" "Swagger JSON bu kaynaktan okunamıyor";
  word "Finished Loading Resource Information. Rendering Swagger UI" "Kaynak baglantısı tamamlandı. Swagger UI gösterime hazırlanıyor";
  word "Unable to read api" "api okunamadı";
  word "from path" "yoldan";
  word "server returned" "sunucuya dönüldü"
].

Definition lang_zh_cn : dictionary := [
  word "Warning: Deprecated" "警告：已过时";
  word "Implementation Notes" "实现备注";
  word "Response Class" "响应类";
  word "Status" "状态";
  word "Parameters" "参数";
  word "Parameter" "参数";
  word "Value" "值";
  word "Description" "描述";
  word "Parameter Type" "参数类型";
  word "Data Type" "数据类型";
  word "Response Messages" "响应消息";
  word "HTTP Status Code" "HTTP状态码";
  word "Reason" "原因";
  word "Response Model" "响应模型";
  word "Request URL" "请求URL";
  word "Response Body" "响应体";
  word "Response Code" "响应码";
  word "Response Headers" "响应头";
  word "Hide Response" "隐藏响应";
  word "Headers" "头";
  word "Try it out!" "试一下！";
  word "Show/Hide" "显示/隐藏";
  word "List Operations" "显示操作";
  word "Expand Operations" "展开操作";
  word "Raw" "原始";
  word "can't parse JSON.  Raw result" "无法解析JSON. 原始结果";
  word "Example Value" "示例";
  word "Click to set as parameter value" "点击设置参数";
  word "Model Schema" "模型架构";
  word "Model" "模型";
  word "apply" "应用";
  word "Username" "用户名";
  word "Password" "密码";
  word "Terms of service" "服务条款";
  word "Created by" "创建者";
  word "See more at" "查看更多：";
  word "Contact the developer" "联系开发者";
  word "api version" "api版本";
  word "Response Content Type" "响应Content Type";
  word "Parameter content type:" "参数类型:";
  word "fetching resource" "正在获取资源";
  word "fetching resource list" "正在获取资源列表";
  word "Explore" "浏览";
  word "Show Swagger Petstore Example Apis" "显示 Swagger Petstore 示例 Apis";
  word "Can't read from server.  It may not have the appropriate access-control-origin settings." "无法从服务器读取。可能没有正确设置access-control-origin。";
  word "Please specify the protocol for" "请指定协议：";
  word "Can't read swagger JSON from" "无法读取swagger JSON于";
  word "Finished Loading Resource Information. Rendering Swagger UI" "已加载资源信息。正在渲染Swagger UI";
  word "Unable to read api" "无法读取api";
  word "from path" "从路径";
  word "server returned" "服务器返回"
].

Definition languages : list dictionary := [lang_ca; lang_el; lang_en; lang_es; lang_fr; lang_geo; lang_it; lang_ja; lang_ko_kr; lang_pl; lang_pt; lang_ru; lang_tr; lang_zh_cn].

(** ** The translator *)

(** [learn]. *)
Definition learn (wordsMap : dictionary) (words : dictionary) : dictionary := wordsMap.

(** [_tryTranslate]; an attribute that is not there is trimmed to nothing. *)
Definition tryTranslate (words : dictionary) (word : option jsstr) : option jsstr :=
  match assoc (trim (default [] word)) words with Some t => Some t | None => word end.

(** What [translate] reads and sets of an element; setting what is not there
    does nothing. *)
Record element := Element {
  e_html : jsstr;
  e_value : option jsstr;
  e_title : option jsstr
}.
Definition translate_element (words : dictionary) (e : element) : element :=
  Element (default (e_html e) (tryTranslate words (Some (e_html e)))) (tryTranslate words (e_value e))
    (tryTranslate words (e_title e)).

(** [translate] on the marked elements. *)
Definition translate (words : dictionary) (page : list element) : list element := translate_element words <$> page.

(** ** Translating is stable *)

(** No translation is a phrase with another translation, and nothing is not a
    phrase. *)
Definition stable (words : dictionary) : bool :=
  negb (has_key [] words) &&
  forallb (fun kv => match assoc (trim kv.2) words with Some t => bool_decide (t = kv.2) | None => true end) words.

Lemma tryTranslate_twice words w : stable words = true -> tryTranslate words (tryTranslate words w) = tryTranslate words w.
Proof.
  intros [_ H]%andb_true_iff. unfold tryTranslate at 2 3. destruct (assoc (trim (default [] w)) words) as [t|] eqn:E.
  - unfold tryTranslate. cbn [default from_option id]. rewrite forallb_forall in H.
    apply assoc_some_in, list_elem_of_In, H in E. cbn [snd] in E.
    destruct (assoc (trim t) words) as [u|]; [|done]. by apply bool_decide_eq_true in E as ->.
  - unfold tryTranslate. by rewrite E.
Qed.

Lemma languages_stable : forallb stable languages = true.
Proof. vm_compute. reflexivity. Qed.

(** In every language, translating a page again changes nothing: no
    translation is taken for a phrase to translate. *)
Theorem translate_stable language page :
  language ∈ languages -> translate language (translate language page) = translate language page.
Proof.
  intros Hl. pose proof languages_stable as H. rewrite forallb_forall in H. apply list_elem_of_In, H in Hl.
  unfold translate. rewrite <- list_fmap_compose. apply list_fmap_ext. intros _ [html value title] _. unfold compose, translate_element.
  cbn [e_html e_value e_title]. f_equal; [|by apply tryTranslate_twice..].
  pose proof (tryTranslate_twice language (Some html) Hl) as Ht.
  destruct (tryTranslate language (Some html)) as [t|] eqn:E; cbn [default from_option id]; [by rewrite Ht|by rewrite E].
Qed.

Lemma translate_stable_witness :
  translate lang_es (translate lang_es [Element (js "Parameter") None (Some (js "Raw"))]) =
  translate lang_es [Element (js "Parameter") None (Some (js "Raw"))].
Proof. apply translate_stable. apply (bool_decide_unpack _). vm_compute. exact I. Defined.

(** ** Coverage *)

Definition missing (language : dictionary) : list jsstr := filter (fun k => has_key k language = false) lang_en.*1.

(** The Russian phrase for a failed request has one space where the page has
    two, and is never found. *)
Example russian_space :
  missing lang_ru = [phrase "Can't read from server.  It may not have the appropriate access-control-origin settings."] /\
  has_key (phrase "Can't read from server. It may not have the appropriate access-control-origin settings.") lang_ru = true.
Proof. vm_compute. split; reflexivity. Qed.

(** Languages that translate every phrase. *)
Example complete_languages :
  Forall (fun l => missing l = []) [lang_el; lang_en; lang_geo; lang_ja; lang_zh_cn].
Proof. repeat constructor. Qed.
