(* ===== verification/YamlTypes.v ===== *)
(** * YAML types

    The types of js-yaml in swagger-ui.js: when a scalar is a null, a
    boolean, an integer, a float, a timestamp or binary data, what it is then,
    and how the value is written; the ordered maps, pairs and sets; types,
    schemas and how schemas are put together.

    A date is a host value with its milliseconds, an infinity a number with
    its text.  The negative zero is not told apart from zero, and integers
    are exact (the code's are exact up to 2^53). *)

From Stdlib Require Import String.
From S2P Require Import Prelude JsNumber JsString JsValue Base64 Regex.

(** ** Null *)

Definition resolveYamlNull (data : jsval) : bool :=
  match data with
  | VNull => true
  | VStr s => bool_decide (s ∈ [js "~"; js "null"; js "Null"; js "NULL"])
  | _ => false
  end.
Definition constructYamlNull (data : jsval) : jsval := VNull.
Definition isNull (object : jsval) : bool := match object with VNull => true | _ => false end.
Definition representYamlNull (style : jsstr) : jsstr :=
  if bool_decide (style = js "canonical") then js "~"
  else if bool_decide (style = js "uppercase") then js "NULL"
  else if bool_decide (style = js "camelcase") then js "Null" else js "null".

(** ** Booleans *)

Definition resolveYamlBoolean (data : jsval) : bool :=
  match data with
  | VStr s => bool_decide (s ∈ [js "true"; js "True"; js "TRUE"; js "false"; js "False"; js "FALSE"])
  | _ => false
  end.
Definition constructYamlBoolean (data : jsval) : jsval :=
  match data with
  | VStr s => VBool (bool_decide (s ∈ [js "true"; js "True"; js "TRUE"]))
  | _ => VBool false
  end.
Definition isBoolean (object : jsval) : bool := match object with VBool _ => true | _ => false end.
Definition representYamlBoolean (b : bool) (style : jsstr) : jsstr :=
  if bool_decide (style = js "uppercase") then (if b then js "TRUE" else js "FALSE")
  else if bool_decide (style = js "camelcase") then (if b then js "True" else js "False")
  else if b then js "true" else js "false".

(** ** Integers *)

Definition isHexCode (c : Z) : bool :=
  ((48 <=? c) && (c <=? 57)) || ((65 <=? c) && (c <=? 70)) || ((97 <=? c) && (c <=? 102)).
Definition isOctCode (c : Z) : bool := (48 <=? c) && (c <=? 55).
Definition isDecCode (c : Z) : bool := (48 <=? c) && (c <=? 57).
Definition isBinCode (c : Z) : bool := (c =? 48) || (c =? 49).
Definition LOW := chr "_".
Definition COLON := chr ":".

(** The rest are digits and underscores, and there is a digit. *)
Fixpoint digits_only (p : Z -> bool) (hasDigits : bool) (s : jsstr) : bool :=
  match s with
  | [] => hasDigits
  | c :: s' => if c =? LOW then digits_only p hasDigits s' else if p c then digits_only p true s' else false
  end.

(** Base 60: [/^(:[0-5]?[0-9])+$/]. *)
Definition sexagesimal_group : re :=
  seqs [Lit (js ":"); Opt (Class_ (in_ranges [range "0" "5"])); Class_ (in_ranges [range "0" "9"])].
Definition sexagesimal_tail : re := Plus sexagesimal_group.

(** Base 10, or base 60 from the first colon. *)
Fixpoint decimal_digits (hasDigits : bool) (s : jsstr) : bool :=
  match s with
  | [] => hasDigits
  | c :: s' =>
      if c =? LOW then decimal_digits hasDigits s'
      else if c =? COLON then hasDigits && matches sexagesimal_tail s
      else if isDecCode c then decimal_digits true s' else false
  end.

Definition strip_sign (s : jsstr) : jsstr :=
  match s with c :: s' => if (c =? chr "-") || (c =? chr "+") then s' else s | [] => [] end.

Definition resolve_int_text (s : jsstr) : bool :=
  match s with
  | [] => false
  | _ =>
      match strip_sign s with
      | c :: s' =>
          if c =? chr "0" then
            match s' with
            | [] => true
            | d :: s'' =>
                if d =? chr "b" then digits_only isBinCode false s''
                else if d =? chr "x" then digits_only isHexCode false s''
                else digits_only isOctCode false s'
            end
          else decimal_digits false (c :: s')
      | [] => false
      end
  end.
Definition resolveYamlInteger (data : jsval) : bool := match data with VStr s => resolve_int_text s | _ => false end.

(** [parseInt(s, radix)] of text without a sign: the longest prefix of digits,
    or NaN. *)
Definition digit_val (c : Z) : Z :=
  if isDecCode c then c - 48 else if (65 <=? c) && (c <=? 90) then c - 55
  else if (97 <=? c) && (c <=? 122) then c - 87 else 99.
Fixpoint parse_digits (radix : Z) (acc : option Z) (s : jsstr) : option Z :=
  match s with
  | c :: s' => if digit_val c <? radix then parse_digits radix (Some (default 0 acc * radix + digit_val c)) s' else acc
  | [] => acc
  end.
Definition parseInt (s : jsstr) (radix : Z) : jsnum :=
  let s := if (radix =? 16) && prefixb (js "0x") s then drop 2 s else s in
  match parse_digits radix None s with Some n => NInt n | None => NNaN end.

Definition num_scale (sign : Z) (n : jsnum) : jsnum := match n with NInt z => NInt (sign * z) | _ => NNaN end.
Definition num_add_mul (value d : jsnum) (base : Z) : jsnum :=
  match value, d with NInt v, NInt x => NInt (v + x * base) | _, _ => NNaN end.

(** The value of base 60 digits, the last first. *)
Fixpoint sexagesimal_value (value : jsnum) (base : Z) (digits : list jsnum) : jsnum :=
  match digits with [] => value | d :: digits' => sexagesimal_value (num_add_mul value d base) (base * 60) digits' end.

Definition construct_int_text (value : jsstr) : jsnum :=
  let value := replace_all value (js "_") [] in
  let sign := match value with c :: _ => if c =? chr "-" then -1 else 1 | [] => 1 end in
  let value := strip_sign value in
  if bool_decide (value = js "0") then NInt 0
  else match value with
       | 48 :: rest =>
           match rest with
           | d :: rest' =>
               if d =? chr "b" then num_scale sign (parseInt rest' 2)
               else if d =? chr "x" then num_scale sign (parseInt value 16)
               else num_scale sign (parseInt value 8)
           | [] => num_scale sign (parseInt value 8)
           end
       | _ =>
           if includes value (js ":")
           then num_scale sign (sexagesimal_value (NInt 0) 1 (rev ((fun v => parseInt v 10) <$> split value (js ":"))))
           else num_scale sign (parseInt value 10)
       end.
Definition constructYamlInteger (data : jsval) : jsval :=
  match data with VStr s => VNum (construct_int_text s) | _ => VUndef end.
Definition isInteger (object : jsval) : bool := match object with VNum (NInt _) => true | _ => false end.

(** [object.toString(radix)] for an integer is [radix_string]. *)
Definition representYamlInteger (z : Z) (style : jsstr) : jsstr :=
  if bool_decide (style = js "binary") then js "0b" ++ radix_string 2 z
  else if bool_decide (style = js "octal") then js "0" ++ radix_string 8 z
  else if bool_decide (style = js "hexadecimal") then js "0x" ++ toUpperCase (radix_string 16 z)
  else radix_string 10 z.

(** ** Floats *)

Definition digit_class : re := Class_ (in_ranges [range "0" "9"]).
Definition digit_low : re := Class_ (fun c => isDecCode c || (c =? LOW)).
Definition sign_class : re := Class_ (one_of (js "-+")).
Definition exponent : re := Opt (seqs [Class_ (one_of (js "eE")); sign_class; Plus digit_class]).
Definition YAML_FLOAT_PATTERN : re :=
  alts [seqs [Opt sign_class; digit_class; Star digit_low; Lit (js "."); Star digit_low; exponent];
        seqs [Lit (js "."); Plus digit_low; exponent];
        seqs [Opt sign_class; digit_class; Star digit_low;
              Plus sexagesimal_group; Lit (js "."); Star digit_low];
        seqs [Opt sign_class; Lit (js "."); alts [Lit (js "inf"); Lit (js "Inf"); Lit (js "INF")]];
        seqs [Lit (js "."); alts [Lit (js "nan"); Lit (js "NaN"); Lit (js "NAN")]]].
Definition resolveYamlFloat (data : jsval) : bool :=
  match data with VStr s => matches YAML_FLOAT_PATTERN s | _ => false end.

Definition positive_infinity := NFrac (js "Infinity").
Definition negative_infinity := NFrac (js "-Infinity").

Section floats.
(** Arithmetic of doubles: [parseFloat], and [sign * value] of such numbers;
    the sum of base 60 digits. *)
Context (parseFloat : jsstr -> jsnum) (negate : jsnum -> jsnum) (sum60 : list jsnum -> jsnum).

Definition constructYamlFloat (data : jsval) : jsval :=
  match data with
  | VStr s =>
      let value := toLowerCase (replace_all s (js "_") []) in
      let minus := match value with c :: _ => c =? chr "-" | [] => false end in
      let value := strip_sign value in
      let signed n := if minus then negate n else n in
      VNum (if bool_decide (value = js ".inf") then (if minus then negative_infinity else positive_infinity)
            else if bool_decide (value = js ".nan") then NNaN
            else if includes value (js ":") then signed (sum60 (rev (parseFloat <$> split value (js ":"))))
            else signed (parseFloat value))
  | _ => VUndef
  end.
End floats.

(** [/^[-+]?[0-9]+e/]. *)
Definition SCIENTIFIC_WITHOUT_DOT : re := seqs [Opt sign_class; Plus digit_class; Lit (js "e")].
Definition representYamlFloat (object : jsnum) (style : jsstr) : jsstr :=
  let styled a b c := if bool_decide (style = js "lowercase") then a
                      else if bool_decide (style = js "uppercase") then b
                      else if bool_decide (style = js "camelcase") then c else num_to_str object in
  match object with
  | NNaN => styled (js ".nan") (js ".NAN") (js ".NaN")
  | _ =>
      if bool_decide (object = positive_infinity) then styled (js ".inf") (js ".INF") (js ".Inf")
      else if bool_decide (object = negative_infinity) then styled (js "-.inf") (js "-.INF") (js "-.Inf")
      else let res := num_to_str object in
           if matches_prefix SCIENTIFIC_WITHOUT_DOT res then replace_first res (js "e") (js ".e") else res
  end.
(** NaN and the infinities are no whole numbers. *)
Definition isFloat (object : jsval) : bool := match object with VNum (NFrac _) | VNum NNaN => true | _ => false end.

(** ** Binary data *)

Definition BASE64_MAP : jsstr :=
  js "ABCDEFGHIJKLMNOPQRSTUVWXYZabcdefghijklmnopqrstuvwxyz0123456789+/=" ++ [10; 13].

Definition map_index (c : Z) : Z := match find_str [c] BASE64_MAP with Some n => Z.of_nat n | None => -1 end.

(** The number of bits, or a character that is not allowed. *)
Fixpoint binary_bits (bitlen : Z) (s : jsstr) : option Z :=
  match s with
  | [] => Some bitlen
  | c :: s' =>
      let code := map_index c in
      if 64 <? code then binary_bits bitlen s'
      else if code <? 0 then None else binary_bits (bitlen + 6) s'
  end.
Definition resolveYamlBinary (data : jsval) : bool :=
  match data with
  | VStr s => match binary_bits 0 s with Some n => n mod 8 =? 0 | None => false end
  | _ => false
  end.

(** Bytes of the collected bits. *)
Definition byte_at (bits n : Z) : Z := js_and (js_sar bits n) 255.
Definition triple (bits : Z) : list Z := [byte_at bits 16; byte_at bits 8; byte_at bits 0].
Fixpoint collect_quads (idx : Z) (bits : Z) (result : list Z) (input : jsstr) : Z * list Z :=
  match input with
  | [] => (bits, result)
  | c :: input' =>
      let result := if (idx mod 4 =? 0) && negb (idx =? 0) then result ++ triple bits else result in
      collect_quads (idx + 1) (js_or (js_shl bits 6) (map_index c)) result input'
  end.
Definition construct_binary (s : jsstr) : list Z :=
  let input := List.filter (fun c => negb (bool_decide (c ∈ js "=" ++ [10; 13]))) s in
  let '(bits, result) := collect_quads 0 0 [] input in
  let tailbits := (zlength input mod 4) * 6 in
  result ++
  (if tailbits =? 0 then triple bits
   else if tailbits =? 18 then [byte_at bits 10; byte_at bits 2]
   else if tailbits =? 12 then [byte_at bits 4] else []).

(** Characters of the collected bits. *)
Definition map_char (n : Z) : Z := default 0 (BASE64_MAP !! Z.to_nat n).
Definition char_at (bits n : Z) : Z := map_char (js_and (js_sar bits n) 63).
Definition quad_chars (bits : Z) : jsstr := [char_at bits 18; char_at bits 12; char_at bits 6; char_at bits 0].
Fixpoint collect_triples (idx : Z) (bits : Z) (result : jsstr) (bytes : list Z) : Z * jsstr :=
  match bytes with
  | [] => (bits, result)
  | b :: bytes' =>
      let result := if (idx mod 3 =? 0) && negb (idx =? 0) then result ++ quad_chars bits else result in
      collect_triples (idx + 1) (js_shl bits 8 + b) result bytes'
  end.
Definition representYamlBinary (bytes : list Z) : jsstr :=
  let '(bits, result) := collect_triples 0 0 [] bytes in
  let tail := Z.of_nat (length bytes) mod 3 in
  result ++
  (if tail =? 0 then quad_chars bits
   else if tail =? 2 then
     [char_at bits 10; char_at bits 4; map_char (js_and (js_shl bits 2) 63); map_char 64]
   else [char_at bits 2; map_char (js_and (js_shl bits 4) 63); map_char 64; map_char 64]).

(** ** Timestamps *)

(** [Date.UTC]: years up to 99 are of the twentieth century; months, days and
    the rest roll over. *)
Definition day_from_year (y : Z) : Z := 365 * (y - 1970) + (y - 1969) / 4 - (y - 1901) / 100 + (y - 1601) / 400.
Definition is_leap (y : Z) : bool := day_from_year (y + 1) - day_from_year y =? 366.
Definition month_start (m : Z) (leap : bool) : Z :=
  List.nth (Z.to_nat m) [0; 31; 59; 90; 120; 151; 181; 212; 243; 273; 304; 334] 0 +
  (if leap && (2 <=? m) then 1 else 0).
Definition make_day (year month date : Z) : Z :=
  let y := year + month / 12 in
  let m := month mod 12 in
  day_from_year y + month_start m (is_leap y) + date - 1.
Definition Date_UTC (year month date hour minute second ms : Z) : Z :=
  let year := if (0 <=? year) && (year <=? 99) then 1900 + year else year in
  make_day year month date * 86400000 + hour * 3600000 + minute * 60000 + second * 1000 + ms.

(** Reading the parts of a timestamp: between [lo] and [hi] digits, as many
    as there are. *)
Fixpoint span_digits (hi : nat) (s : jsstr) : jsstr * jsstr :=
  match hi, s with
  | S hi', c :: s' => if isDecCode c then let '(d, r) := span_digits hi' s' in (c :: d, r) else ([], s)
  | _, _ => ([], s)
  end.
Definition digits_of (lo hi : nat) (s : jsstr) : option (jsstr * jsstr) :=
  let '(d, r) := span_digits hi s in if (length d <? lo)%nat then None else Some (d, r).
Definition expect (p : Z -> bool) (s : jsstr) : option jsstr :=
  match s with c :: s' => if p c then Some s' else None | [] => None end.
Fixpoint skip_blanks (s : jsstr) : jsstr :=
  match s with c :: s' => if (c =? 32) || (c =? 9) then skip_blanks s' else s | [] => [] end.
Definition number (d : jsstr) : Z := default 0 (dec_value 0 d).

Record stamp := Stamp {
  year : Z; month : Z; day : Z;
  time : option (Z * Z * Z * jsstr);
  zone : option (bool * Z * Z)
}.

(** [YAML_DATE_REGEXP]. *)
Definition match_date (s : jsstr) : option stamp :=
  '(y, s) ← digits_of 4 4 s; s ← expect (Z.eqb (chr "-")) s;
  '(m, s) ← digits_of 2 2 s; s ← expect (Z.eqb (chr "-")) s;
  '(d, s) ← digits_of 2 2 s;
  match s with [] => Some (Stamp (number y) (number m) (number d) None None) | _ => None end.

(** The time zone to the end: none, Z, or a shift. *)
Definition match_zone (s : jsstr) : option (option (bool * Z * Z)) :=
  match s with
  | [] => Some None
  | _ =>
      match skip_blanks s with
      | [c] => if c =? chr "Z" then Some None else None
      | c :: s =>
          if (c =? chr "-") || (c =? chr "+") then
            '(h, s) ← digits_of 1 2 s;
            match s with
            | [] => Some (Some (c =? chr "-", number h, 0))
            | _ => s ← expect (Z.eqb COLON) s; '(m, s) ← digits_of 2 2 s;
                   match s with [] => Some (Some (c =? chr "-", number h, number m)) | _ => None end
            end
          else None
      | [] => None
      end
  end.

(** [YAML_TIMESTAMP_REGEXP]. *)
Definition match_timestamp (s : jsstr) : option stamp :=
  '(y, s) ← digits_of 4 4 s; s ← expect (Z.eqb (chr "-")) s;
  '(m, s) ← digits_of 1 2 s; s ← expect (Z.eqb (chr "-")) s;
  '(d, s) ← digits_of 1 2 s;
  s ← (match s with
       | c :: s' => if (c =? chr "T") || (c =? chr "t") then Some s'
                    else if (c =? 32) || (c =? 9) then Some (skip_blanks s') else None
       | [] => None
       end);
  '(h, s) ← digits_of 1 2 s; s ← expect (Z.eqb COLON) s;
  '(mi, s) ← digits_of 2 2 s; s ← expect (Z.eqb COLON) s;
  '(sec, s) ← digits_of 2 2 s;
  let '(f, s) := match s with
                 | c :: s' => if c =? chr "." then span_digits (length s') s' else ([], s)
                 | [] => ([], s) end in
  z ← match_zone s;
  Some (Stamp (number y) (number m) (number d) (Some (number h, number mi, number sec, f)) z).

Definition match_stamp (s : jsstr) : option stamp :=
  match match_date s with Some m => Some m | None => match_timestamp s end.
Definition resolveYamlTimestamp (data : jsval) : bool :=
  match data with VStr s => match match_stamp s with Some _ => true | None => false end | _ => false end.

(** Milliseconds of a fraction. *)
Definition fraction_ms (f : jsstr) : Z :=
  match f with [] => 0 | _ => let f3 := take 3 f in number (f3 ++ repeat 48 (3 - length f3)) end.
Definition stamp_ms (m : stamp) : Z :=
  match time m with
  | None => Date_UTC (year m) (month m - 1) (day m) 0 0 0 0
  | Some (h, mi, s, f) =>
      let date := Date_UTC (year m) (month m - 1) (day m) h mi s (fraction_ms f) in
      match zone m with
      | Some (minus, th, tm) =>
          let delta := (th * 60 + tm) * 60000 in
          date - (if minus : bool then - delta else delta)
      | None => date
      end
  end.
Definition date_value (ms : Z) : jsval := VHost (js "Date") (Z_to_str ms).
Definition constructYamlTimestamp (data : jsval) : res jsval :=
  match data with
  | VStr s => match match_stamp s with Some m => Ok (date_value (stamp_ms m)) | None => Throw ErrorMsg end
  | _ => Throw ErrorMsg
  end.

(** [toISOString], for the years 0 to 9999. *)
Definition year_of_day (d : Z) : Z :=
  let y := 1970 + d * 400 / 146097 in
  if d <? day_from_year y then y - 1 else if day_from_year (y + 1) <=? d then y + 1 else y.
Fixpoint month_of (fuel : nat) (m : Z) (doy : Z) (leap : bool) : Z :=
  match fuel with
  | O => m
  | S f => if (m <? 11) && (month_start (m + 1) leap <=? doy) then month_of f (m + 1) doy leap else m
  end.
Definition pad (width : nat) (n : Z) : jsstr := let s := Z_to_str n in repeat 48 (width - length s) ++ s.
Definition toISOString (ms : Z) : jsstr :=
  let d := ms / 86400000 in
  let t := ms mod 86400000 in
  let y := year_of_day d in
  let doy := d - day_from_year y in
  let m := month_of 12 0 doy (is_leap y) in
  pad 4 y ++ js "-" ++ pad 2 (m + 1) ++ js "-" ++ pad 2 (doy - month_start m (is_leap y) + 1) ++ js "T" ++
  pad 2 (t / 3600000) ++ js ":" ++ pad 2 (t / 60000 mod 60) ++ js ":" ++ pad 2 (t / 1000 mod 60) ++ js "." ++
  pad 3 (t mod 1000) ++ js "Z".
Definition representYamlTimestamp (ms : Z) : jsstr := toISOString ms.

(** ** The object graph

    Objects and arrays of a document may be met more than once (aliases) and
    may contain themselves: they are locations of a heap. So are the objects
    of JavaScript with nothing inside, dates and regular expressions, where it
    matters whether two are one. *)

Inductive dval := DPrim (v : jsval) | DRef (l : nat).
Inductive cell := CArr (items : list dval) | CObj (properties : list (jsstr * dval)) | CHost (v : jsval).
Abbreviation heap := (list cell).

#[export] Instance dval_eq_dec : EqDecision dval.
Proof. solve_decision. Defined.

Definition items_of (h : heap) (v : dval) : list dval :=
  match v with DRef l => match h !! l with Some (CArr items) => items | _ => [] end | DPrim _ => [] end.
Definition properties_of (h : heap) (v : dval) : option (list (jsstr * dval)) :=
  match v with DRef l => match h !! l with Some (CObj o) => Some (for_in o) | _ => None end | DPrim _ => None end.
Definition new_cell (h : heap) (c : cell) : heap * dval := (h ++ [c], DRef (length h)).
Definition is_null (v : dval) : bool := match v with DPrim VNull => true | _ => false end.

(** ** Collections *)

(** The only key of an object, if it has one key. *)
Definition single_key (h : heap) (p : dval) : option jsstr :=
  match properties_of h p with Some [(k, _)] => Some k | _ => None end.

Fixpoint omap_keys (h : heap) (objectKeys : list jsstr) (l : list dval) : bool :=
  match l with
  | [] => true
  | p :: l' =>
      match single_key h p with
      | Some k => if bool_decide (k ∈ objectKeys) then false else omap_keys h (objectKeys ++ [k]) l'
      | None => false
      end
  end.
Definition resolveYamlOmap (h : heap) (data : dval) : bool := is_null data || omap_keys h [] (items_of h data).

Definition resolveYamlPairs (h : heap) (data : dval) : bool :=
  is_null data || forallb (fun p => match single_key h p with Some _ => true | None => false end) (items_of h data).
(** A new array of new arrays of a key and its value. *)
Definition pair_cell (h : heap) (p : dval) : cell :=
  match properties_of h p with
  | Some ((k, v) :: _) => CArr [DPrim (VStr k); v]
  | _ => CArr [DPrim VUndef; DPrim VUndef]
  end.
Definition constructYamlPairs (h : heap) (data : dval) : heap * dval :=
  let pairs := pair_cell h <$> items_of h data in
  new_cell (h ++ pairs) (CArr (imap (fun i _ => DRef (length h + i)) pairs)).

Definition resolveYamlSet (h : heap) (data : dval) : bool :=
  is_null data || forallb (fun kv => is_null kv.2) (default [] (properties_of h data)).

Definition resolveYamlMerge (data : jsval) : bool :=
  match data with VNull => true | VStr s => bool_decide (s = js "<<") | _ => false end.

(** What is constructed from nothing; other data is kept. *)
Definition or_empty (c : cell) (h : heap) (data : dval) : heap * dval :=
  if is_null data then new_cell h c else (h, data).
Definition constructYamlOmap := or_empty (CArr []).
Definition constructYamlSet := or_empty (CObj []).
Definition construct_map := or_empty (CObj []).
Definition construct_seq := or_empty (CArr []).
Definition construct_str (data : dval) : dval := if is_null data then DPrim (VStr []) else data.

(** ** Regular expressions of JavaScript *)

(** The modifiers after the last slash: letters of gim up to the end. *)
Definition regexp_tail (data : jsstr) : option jsstr :=
  let t := lastIndexOf data (js "/") in
  if t <? 0 then None
  else let m := substring_from data (t + 1) in
       if forallb (one_of (js "gim")) m then Some m else None.
Definition resolveJavascriptRegExp (data : jsval) : bool :=
  match data with
  | VStr ((c :: _) as s) =>
      if c =? chr "/" then
        let modifiers := default [] (regexp_tail s) in
        (length modifiers <=? 3)%nat && bool_decide (charAt s (zlength s - zlength modifiers - 1) = js "/")
      else true
  | _ => false
  end.
(** The pattern and the modifiers given to [RegExp]. *)
Definition constructJavascriptRegExp (s : jsstr) : jsstr * jsstr :=
  match s with
  | c :: _ =>
      if c =? chr "/" then
        let modifiers := default [] (regexp_tail s) in
        (slice_list s 1 (zlength s - zlength modifiers - 1), modifiers)
      else (s, [])
  | [] => (s, [])
  end.
Definition representJavascriptRegExp (source : jsstr) (global multiline ignoreCase : bool) : jsstr :=
  js "/" ++ source ++ js "/" ++ (if global then js "g" else []) ++ (if multiline then js "m" else []) ++
  (if ignoreCase then js "i" else []).

(** ** The undefined value *)

Definition resolveJavascriptUndefined (data : jsval) : bool := true.
Definition constructJavascriptUndefined (data : jsval) : jsval := VUndef.
Definition representJavascriptUndefined (object : jsval) : jsstr := [].
Definition isUndefined (object : jsval) : bool := match object with VUndef => true | _ => false end.

(** ** Types and schemas *)

(** [compileStyleAliases]: the style each alias stands for. *)
Definition compileStyleAliases (map : list (jsstr * list jsstr)) : list (jsstr * jsstr) :=
  foldl (fun result '(style, aliases) => foldl (fun result alias => put alias style result) result aliases) [] map.
Definition int_aliases : list (jsstr * list jsstr) :=
  [(js "binary", [js "2"; js "bin"]); (js "octal", [js "8"; js "oct"]); (js "decimal", [js "10"; js "dec"]);
   (js "hexadecimal", [js "16"; js "hex"])].

Inductive node_kind := scalar | sequence | mapping.
#[export] Instance node_kind_eq_dec : EqDecision node_kind.
Proof. solve_decision. Defined.

(** How a value is written: by a function that is given the style, or by the
    function of its style. *)
Inductive representation :=
| NoRepresent
| RepresentFun (f : jsval -> jsstr -> jsval)
| RepresentStyles (l : list (jsstr * (jsval -> jsval))).

Record ytype := YType {
  tag : jsstr;
  kind : node_kind;
  resolve : heap -> dval -> bool;
  construct : heap -> dval -> res (heap * dval);
  predicate : option (jsval -> bool);
  represent : representation;
  defaultStyle : jsstr;
  styleAliases : list (jsstr * jsstr)
}.

#[warnings="-register-all"]
Inductive schema := Schema (include : list schema) (implicit explicit : list ytype).

(** [compileList]: the types are collected, and the positions of those that a
    later one with the same tag excludes. *)
Fixpoint positions (i : nat) (currentType : ytype) (result : list ytype) : list nat :=
  match result with
  | [] => []
  | previousType :: result' =>
      (if bool_decide (tag previousType = tag currentType) then [i] else []) ++ positions (S i) currentType result'
  end.
Definition push_type (st : list ytype * list nat) (currentType : ytype) : list ytype * list nat :=
  (st.1 ++ [currentType], st.2 ++ positions 0 currentType st.1).
Fixpoint not_excluded (i : nat) (exclude : list nat) (result : list ytype) : list ytype :=
  match result with
  | [] => []
  | t :: result' => (if bool_decide (i ∈ exclude) then [] else [t]) ++ not_excluded (S i) exclude result'
  end.
Fixpoint compileList (explicit : bool) (s : schema) (result : list ytype) : list ytype :=
  match s with
  | Schema include impl expl =>
      let result := foldl (fun r i => compileList explicit i r) result include in
      let st := foldl push_type (result, []) (if explicit then expl else impl) in
      not_excluded 0 st.2 st.1
  end.
Definition compiledImplicit (s : schema) := compileList false s [].
Definition compiledExplicit (s : schema) := compileList true s [].

(** [compileMap]. *)
Definition compileMap (lists : list (list ytype)) : list (jsstr * ytype) :=
  foldl (fun m t => put (tag t) t m) [] (List.concat lists).
Definition compiledTypeMap (s : schema) := compileMap [compiledImplicit s; compiledExplicit s].

(** The types of the schemas for loading. *)
Definition yaml_tag (name : String.string) : jsstr := js "tag:yaml.org,2002:" ++ js name.
Arguments yaml_tag name%_string.

Definition always (h : heap) (data : dval) : bool := true.
(** Scalars are no objects. *)
Definition of_prim (f : jsval -> bool) (h : heap) (data : dval) : bool :=
  match data with DPrim v => f v | DRef _ => false end.
Definition to_prim (f : jsval -> jsval) (h : heap) (data : dval) : res (heap * dval) :=
  match data with DPrim v => Ok (h, DPrim (f v)) | DRef _ => Throw TypeError end.
Definition built (f : heap -> dval -> heap * dval) (h : heap) (data : dval) : res (heap * dval) := Ok (f h data).

Definition str_type := YType (yaml_tag "str") scalar always (fun h d => Ok (h, construct_str d)) None NoRepresent [] [].
Definition seq_type := YType (yaml_tag "seq") sequence always (built construct_seq) None NoRepresent [] [].
Definition map_type := YType (yaml_tag "map") mapping always (built construct_map) None NoRepresent [] [].

Definition null_type := YType (yaml_tag "null") scalar (of_prim resolveYamlNull) (to_prim constructYamlNull) (Some isNull)
  (RepresentStyles ((fun st => (st, fun _ => VStr (representYamlNull st))) <$>
                    [js "canonical"; js "lowercase"; js "uppercase"; js "camelcase"])) (js "lowercase") [].
Definition bool_type := YType (yaml_tag "bool") scalar (of_prim resolveYamlBoolean) (to_prim constructYamlBoolean) (Some isBoolean)
  (RepresentStyles ((fun st => (st, fun v => VStr (representYamlBoolean (truthy v) st))) <$>
                    [js "lowercase"; js "uppercase"; js "camelcase"])) (js "lowercase") [].
Definition int_of (v : jsval) : Z := match v with VNum (NInt z) => z | _ => 0 end.
Definition int_type := YType (yaml_tag "int") scalar (of_prim resolveYamlInteger) (to_prim constructYamlInteger) (Some isInteger)
  (RepresentStyles ((fun st => (st, fun v => VStr (representYamlInteger (int_of v) st))) <$>
                    [js "binary"; js "octal"; js "decimal"; js "hexadecimal"])) (js "decimal") (compileStyleAliases int_aliases).
(** The milliseconds of a date. *)
Definition host_ms (ms : jsstr) : Z :=
  match ms with c :: d => if c =? chr "-" then - default 0 (dec_value 0 d) else default 0 (dec_value 0 ms) | [] => 0 end.
Definition timestamp_type := YType (yaml_tag "timestamp") scalar (of_prim resolveYamlTimestamp)
  (fun h d => match d with DPrim v => d ← constructYamlTimestamp v; Ok (h, DPrim d) | DRef _ => Throw ErrorMsg end)
  (Some (fun v => match v with VHost t _ => bool_decide (t = js "Date") | _ => false end))
  (RepresentFun (fun v _ => match v with VHost _ ms => VStr (representYamlTimestamp (host_ms ms)) | _ => VUndef end)) [] [].
Definition merge_type := YType (yaml_tag "merge") scalar (of_prim resolveYamlMerge) (fun h d => Ok (h, d)) None NoRepresent [] [].
(** Outside of Node no object is binary data; it is read as an array of
    bytes. *)
Definition binary_type := YType (yaml_tag "binary") scalar (of_prim resolveYamlBinary)
  (fun h d => match d with
              | DPrim (VStr s) => Ok (new_cell h (CArr ((fun b => DPrim (vint b)) <$> construct_binary s)))
              | _ => Throw TypeError
              end)
  (Some (fun _ => false)) (RepresentFun (fun v _ => VStr (representYamlBinary (int_of <$> as_arr v)))) [] [].
Definition omap_type := YType (yaml_tag "omap") sequence resolveYamlOmap (built constructYamlOmap) None NoRepresent [] [].
Definition pairs_type := YType (yaml_tag "pairs") sequence resolveYamlPairs (built constructYamlPairs) None NoRepresent [] [].
Definition set_type := YType (yaml_tag "set") mapping resolveYamlSet (built constructYamlSet) None NoRepresent [] [].

Section schemas.
Context (parseFloat : jsstr -> jsnum) (negate : jsnum -> jsnum) (sum60 : list jsnum -> jsnum).

Definition float_of (v : jsval) : jsnum := match v with VNum n => n | _ => NNaN end.
Definition float_type := YType (yaml_tag "float") scalar (of_prim resolveYamlFloat) (to_prim (constructYamlFloat parseFloat negate sum60))
  (Some isFloat) (RepresentFun (fun v style => VStr (representYamlFloat (float_of v) style))) (js "lowercase") [].

Definition FAILSAFE := Schema [] [] [str_type; seq_type; map_type].
Definition JSON := Schema [FAILSAFE] [null_type; bool_type; int_type; float_type] [].
Definition CORE := Schema [JSON] [] [].
Definition DEFAULT_SAFE :=
  Schema [CORE] [timestamp_type; merge_type] [binary_type; omap_type; pairs_type; set_type].
End schemas.

(** ** Compiled schemas

    Every type declared by a schema, those of included schemas first. *)
Fixpoint declared (explicit : bool) (s : schema) : list ytype :=
  match s with Schema include impl expl => List.flat_map (declared explicit) include ++ (if explicit then expl else impl) end.

Section schema_ind.
Variable P : schema -> Prop.
Hypothesis step : forall include impl expl, Forall P include -> P (Schema include impl expl).
Fixpoint schema_nested_ind (s : schema) : P s :=
  match s with
  | Schema include impl expl =>
      step include impl expl ((fix go (l : list schema) : Forall P l :=
        match l with [] => @Forall_nil_2 _ _ | x :: l' => @Forall_cons_2 _ _ _ _ (schema_nested_ind x) (go l') end) include)
  end.
End schema_ind.

(** A type takes the place of earlier ones with its tag. *)
Definition add_type (result : list ytype) (currentType : ytype) : list ytype :=
  filter (fun t => tag t <> tag currentType) result ++ [currentType].

Lemma positions_spec t result i j :
  j ∈ positions i t result <-> exists k p, j = (i + k)%nat /\ result !! k = Some p /\ tag p = tag t.
Proof.
  revert i. induction result as [|p result IH]; intros i; cbn [positions].
  - split; [by intros ?%not_elem_of_nil|by intros (k & p & _ & ? & _)].
  - rewrite elem_of_app, IH. split.
    + intros [H|(k & q & -> & Hk & Hq)]; [|by exists (S k), q; split; [lia|]].
      case_bool_decide; [|by apply not_elem_of_nil in H]. apply list_elem_of_singleton in H. exists O, p. split; [lia|done].
    + intros ([|k] & q & -> & Hk & Hq).
      * left. cbn in Hk. injection Hk as ->. rewrite bool_decide_eq_true_2 by done. apply list_elem_of_singleton. lia.
      * right. exists k, q. split; [lia|done].
Qed.
Lemma not_excluded_filter t result : forall i e e',
  (forall k p, result !! k = Some p -> (i + k)%nat ∈ e' <-> (i + k)%nat ∈ e \/ tag p = tag t) ->
  not_excluded i e' result = filter (fun p => tag p <> tag t) (not_excluded i e result).
Proof.
  induction result as [|p result IH]; intros i e e' H; [done|]. cbn [not_excluded]. rewrite filter_app.
  rewrite <- (IH (S i) e e'); [|intros k q Hk; replace (S i + k)%nat with (i + S k)%nat by lia; by apply H]. f_equal.
  specialize (H O p eq_refl). rewrite Nat.add_0_r in H.
  destruct (bool_decide_reflect (i ∈ e')) as [H'|H'], (bool_decide_reflect (i ∈ e)) as [He|He]; try done; try tauto.
  - rewrite filter_cons_False; [done|]. tauto.
  - rewrite filter_cons_True; [done|]. tauto.
Qed.
Lemma not_excluded_app i e result t :
  not_excluded i e (result ++ [t]) = not_excluded i e result ++ (if bool_decide ((i + length result)%nat ∈ e) then [] else [t]).
Proof.
  revert i. induction result as [|p result IH]; intros i; cbn [not_excluded app length].
  - by rewrite Nat.add_0_r, app_nil_r.
  - rewrite IH, app_assoc. by replace (S i + length result)%nat with (i + S (length result))%nat by lia.
Qed.

(** Excluding by position is replacing. *)
Lemma pushed l : forall result exclude, Forall (fun j => j < length result)%nat exclude ->
  let st := foldl push_type (result, exclude) l in
  not_excluded 0 st.2 st.1 = foldl add_type (not_excluded 0 exclude result) l.
Proof.
  induction l as [|t l IH]; intros result exclude He; [done|]. cbn [foldl]. unfold push_type at 2 4. cbn [fst snd].
  rewrite IH.
  - f_equal. unfold add_type. rewrite not_excluded_app. f_equal.
    + apply not_excluded_filter. intros k p Hk. rewrite elem_of_app, positions_spec. split; intros [H|H]; auto.
      * destruct H as (k' & q & E & Hk' & Hq). right. cbn in E. subst k'. congruence.
      * right. by exists k, p.
    + rewrite bool_decide_eq_false_2; [done|]. rewrite elem_of_app, positions_spec. intros [H|(k & q & E & Hk & _)].
      * rewrite Forall_forall in He. apply He in H. lia.
      * apply lookup_lt_Some in Hk. cbn in E. lia.
  - rewrite length_app. apply Forall_app. split.
    + eapply Forall_impl; [exact He|]. cbn. lia.
    + apply Forall_forall. intros j (k & q & -> & Hk & _)%positions_spec. apply lookup_lt_Some in Hk. cbn. lia.
Qed.
Lemma not_excluded_nil i result : not_excluded i [] result = result.
Proof. revert i. induction result as [|t result IH]; intros i; [done|]. cbn [not_excluded]. by rewrite IH. Qed.

Lemma compileList_declared e s : forall result, compileList e s result = foldl add_type result (declared e s).
Proof.
  induction s as [include impl expl IH] using schema_nested_ind. intros result. cbn [compileList declared].
  cbv zeta. rewrite pushed, not_excluded_nil, foldl_app by constructor. f_equal. revert result. induction IH as [|i include Hi _ IHl]; intros result; [done|].
  cbn [foldl List.flat_map]. rewrite foldl_app, <- Hi. apply IHl.
Qed.

(** The types a compiled schema holds are declared by it. *)
Lemma foldl_add_type_in l : forall acc t, t ∈ foldl add_type acc l -> t ∈ acc \/ t ∈ l.
Proof.
  induction l as [|y l IH]; intros acc t H; [by left|]. cbn [foldl] in H. apply IH in H as [H|H]; [|by right; right].
  unfold add_type in H. apply elem_of_app in H as [H|H%list_elem_of_singleton].
  - left. by apply list_elem_of_filter in H as [_ H].
  - right. subst. by left.
Qed.
Lemma compiled_in e s t : t ∈ compileList e s [] -> t ∈ declared e s.
Proof. rewrite compileList_declared. intros H. by apply foldl_add_type_in in H as [H%not_elem_of_nil|H]. Qed.
Lemma fold_put_in (l : list ytype) : forall m k t, assoc k (foldl (fun m t => put (tag t) t m) m l) = Some t ->
  assoc k m = Some t \/ t ∈ l.
Proof.
  induction l as [|y l IH]; intros m k t H; [by left|]. cbn [foldl] in H. apply IH in H as [H|H]; [|by right; right].
  destruct (decide (tag y = k)) as [E|Hk].
  - rewrite E, assoc_put_eq in H. injection H as ->. right. by left.
  - rewrite assoc_put_ne in H by done. by left.
Qed.
Lemma type_map_in s k t : assoc k (compiledTypeMap s) = Some t -> t ∈ declared false s ++ declared true s.
Proof.
  intros H. apply fold_put_in in H as [H|H]; [done|]. cbn [List.concat] in H. rewrite app_nil_r in H.
  rewrite elem_of_app in *. destruct H as [H|H]; apply compiled_in in H; auto.
Qed.

Definition find_type (t : jsstr) (l : list ytype) : option ytype := List.find (fun y => bool_decide (tag y = t)) l.

Lemma find_filter_ne t u l : t <> u -> find_type t (filter (fun y => tag y <> u) l) = find_type t l.
Proof.
  intros Hne. induction l as [|y l IH]; [done|]. rewrite filter_cons. unfold find_type in *. cbn [List.find].
  destruct (decide (tag y <> u)) as [H|H]; cbn [List.find].
  - by rewrite IH.
  - rewrite IH. rewrite bool_decide_eq_false_2; [done|]. intros E. apply H. congruence.
Qed.
Lemma find_app t l m : find_type t (l ++ m) = match find_type t l with Some y => Some y | None => find_type t m end.
Proof. unfold find_type. induction l as [|y l IH]; [done|]. cbn [List.find app]. by case_bool_decide. Qed.
Lemma find_filter_eq t l : find_type t (filter (fun y => tag y <> t) l) = None.
Proof.
  induction l as [|y l IH]; [done|]. rewrite filter_cons. case_decide; [|done]. unfold find_type in *. cbn [List.find].
  by rewrite bool_decide_eq_false_2.
Qed.

Lemma find_single t y : find_type t [y] = if bool_decide (tag y = t) then Some y else None.
Proof. done. Qed.

Lemma compiled_lookup l t : forall result,
  find_type t (foldl add_type result l) = match find_type t (rev l) with Some y => Some y | None => find_type t result end.
Proof.
  induction l as [|y l IH]; intros result; [done|]. cbn [foldl rev]. rewrite IH, find_app.
  destruct (find_type t (rev l)); [done|]. unfold add_type. rewrite find_app, find_single.
  case_bool_decide as H.
  - subst t. by rewrite find_filter_eq.
  - rewrite find_filter_ne by congruence. by destruct (find_type t result).
Qed.

Lemma NoDup_fmap_filter {A B} (f : A -> B) (P : A -> Prop) `{!forall x, Decision (P x)} (l : list A) :
  NoDup (f <$> l) -> NoDup (f <$> filter P l).
Proof. intros Hl. eapply sublist_NoDup; [exact Hl|]. apply fmap_sublist, sublist_filter. Qed.

Lemma add_types_nodup l : forall result, NoDup (tag <$> result) -> NoDup (tag <$> foldl add_type result l).
Proof.
  induction l as [|y l IH]; intros result H; [done|]. cbn [foldl]. apply IH. unfold add_type. rewrite fmap_app.
  apply NoDup_app. split; [|split].
  - by apply (NoDup_fmap_filter tag).
  - intros t (z & -> & [Hne _]%list_elem_of_filter)%list_elem_of_fmap. by intros Ht%list_elem_of_singleton.
  - apply NoDup_singleton.
Qed.

(** A compiled schema has one type for each tag: the one declared last,
    where included schemas come before their own. *)
Theorem compile_last_wins e s t :
  NoDup (tag <$> compileList e s []) /\ find_type t (compileList e s []) = find_type t (rev (declared e s)).
Proof.
  rewrite compileList_declared. split; [apply add_types_nodup; constructor|]. rewrite compiled_lookup.
  by destruct (find_type t (rev (declared e s))).
Qed.

(** ** Integers: what is written is read

    The digits [radix_string] writes. *)
Definition digits (r n : Z) : list Z := radix_digits (nat_fuel n) r n.

Lemma radix_digits_ok f r n : 2 <= r -> 0 <= n < 2 ^ Z.of_nat f ->
  Forall (fun d => 0 <= d < r) (radix_digits f r n) /\
  foldl (fun a d => a * r + d) 0 (radix_digits f r n) = n /\
  (0 < n -> exists d l, radix_digits f r n = d :: l /\ 0 < d) /\ (n = 0 -> (0 < f)%nat -> radix_digits f r n = [0]).
Proof.
  intros Hr. revert n. induction f as [|f IH]; intros n Hn.
  - change (2 ^ Z.of_nat 0) with 1 in Hn. cbn. repeat split; try done; lia.
  - cbn [radix_digits]. rewrite Nat2Z.inj_succ, Z.pow_succ_r in Hn by lia. destruct (Z.ltb_spec n r) as [H|H].
    + split; [apply Forall_singleton; lia|]. split; [cbn; lia|]. split; [intros; by exists n, []|by intros ->].
    + assert (Hq : 0 < n / r < 2 ^ Z.of_nat f) by (split; [apply Z.div_str_pos; lia|apply Z.div_lt_upper_bound; nia]).
      destruct (IH (n / r)) as (H1 & H2 & H3 & _); [lia|]. pose proof (Z.mod_pos_bound n r ltac:(lia)).
      split; [apply Forall_app; by rewrite Forall_singleton|]. split; [|split; [intros _|lia]].
      * rewrite foldl_app, H2. cbn. pose proof (Z.div_mod n r). lia.
      * destruct (H3 ltac:(lia)) as (d & l & -> & ?). by exists d, (l ++ [n mod r]).
Qed.

Lemma digits_ok r n : 2 <= r -> 0 <= n ->
  Forall (fun d => 0 <= d < r) (digits r n) /\ foldl (fun a d => a * r + d) 0 (digits r n) = n /\
  (0 < n -> exists d l, digits r n = d :: l /\ 0 < d) /\ (n = 0 -> digits r n = [0]).
Proof.
  intros Hr Hn. destruct (radix_digits_ok (nat_fuel n) r n) as (H1 & H2 & H3 & H4); [done| |].
  - split; [done|]. unfold nat_fuel. rewrite Nat2Z.inj_succ, Z2Nat.id by apply Z.log2_nonneg.
    destruct (decide (n = 0)) as [->|]; [done|]. apply Z.log2_spec. lia.
  - repeat split; auto. intros H. apply H4; [done|unfold nat_fuel; lia].
Qed.
Lemma digits_nonempty r n : 2 <= r -> 0 <= n -> digits r n <> [].
Proof.
  intros Hr Hn. destruct (digits_ok r n Hr Hn) as (_ & _ & H3 & H4). destruct (decide (n = 0)) as [->|]; [by rewrite H4|].
  destruct H3 as (? & ? & -> & _); [lia|done].
Qed.

(** A way of writing digits below [r]. *)
Definition writes (r : Z) (f : Z -> Z) : Prop := forall d, 0 <= d < r -> digit_val (f d) = d /\ f d <> LOW /\ f d <> COLON.

Lemma parse_digits_writes r (f : Z -> Z) (l : list Z) : writes r f -> Forall (fun d => 0 <= d < r) l -> forall acc,
  l <> [] \/ acc <> None ->
  parse_digits r acc (f <$> l) = Some (foldl (fun a d => a * r + d) (default 0 acc) l).
Proof.
  intros Hf. induction 1 as [|d l Hd _ IH]; intros acc Ha.
  - destruct acc; [done|]. by destruct Ha.
  - change (f <$> d :: l) with (f d :: (f <$> l)). cbn [parse_digits foldl]. rewrite (proj1 (Hf d Hd)).
    rewrite (proj2 (Z.ltb_lt d r)) by lia. rewrite IH by (by right). done.
Qed.
Lemma digits_only_writes p (f : Z -> Z) (l : list Z) has : Forall (fun d => p (f d) = true /\ f d <> LOW) l -> l <> [] \/ has = true ->
  digits_only p has (f <$> l) = true.
Proof.
  intros H. revert has. induction H as [|d l [Hp Hl] _ IH]; intros has Hh.
  - by destruct Hh.
  - change (f <$> d :: l) with (f d :: (f <$> l)). cbn [digits_only]. rewrite (proj2 (Z.eqb_neq _ _) Hl), Hp. apply IH. by right.
Qed.
Lemma all_below (P : Z -> bool) r : forallb P (seqZ 0 r) = true -> forall d, 0 <= d < r -> P d = true.
Proof. intros H d Hd. rewrite forallb_forall in H. apply H. rewrite <- list_elem_of_In, elem_of_seqZ. lia. Qed.

Definition write_ok (r : Z) (p : Z -> bool) (f : Z -> Z) : bool :=
  forallb (fun d => (digit_val (f d) =? d) && negb (f d =? LOW) && negb (f d =? COLON) && p (f d)) (seqZ 0 r).
Lemma write_ok_spec r p f : write_ok r p f = true -> writes r f /\ forall d, 0 <= d < r -> p (f d) = true /\ f d <> LOW.
Proof.
  intros H. pose proof (all_below _ _ H) as Ha. split; intros d Hd; specialize (Ha d Hd); cbn beta in Ha;
    rewrite !andb_true_iff, !negb_true_iff, Z.eqb_eq, !Z.eqb_neq in Ha; tauto.
Qed.
Lemma binary_ok : write_ok 2 isBinCode digit_unit = true. Proof. done. Qed.
Lemma octal_ok : write_ok 8 isOctCode digit_unit = true. Proof. done. Qed.
Lemma decimal_ok : write_ok 10 isDecCode digit_unit = true. Proof. done. Qed.
Lemma hexadecimal_ok : write_ok 16 isHexCode (fun d => upper_unit (digit_unit d)) = true. Proof. done. Qed.

Lemma decimal_digits_writes (l : list Z) has : Forall (fun d => 0 <= d < 10) l -> l <> [] \/ has = true ->
  decimal_digits has (digit_unit <$> l) = true.
Proof.
  intros H. revert has. destruct (write_ok_spec _ _ _ decimal_ok) as [Hw Hp]. induction H as [|d l Hd _ IH]; intros has Hh.
  - by destruct Hh.
  - change (digit_unit <$> d :: l) with (digit_unit d :: (digit_unit <$> l)). cbn [decimal_digits].
    destruct (Hw d Hd) as (_ & Hlow & Hcolon). rewrite !(proj2 (Z.eqb_neq _ _)) by done.
    rewrite (proj1 (Hp d Hd)). apply IH. by right.
Qed.

Lemma no_low r f (l : list Z) : writes r f -> Forall (fun d => 0 <= d < r) l -> LOW ∉ f <$> l.
Proof.
  intros Hf Hl (d & E & Hd)%list_elem_of_fmap. rewrite Forall_forall in Hl. by destruct (Hf d (Hl d Hd)) as (_ & ? & _).
Qed.
Lemma no_colon r f (l : list Z) : writes r f -> Forall (fun d => 0 <= d < r) l -> COLON ∉ f <$> l.
Proof.
  intros Hf Hl (d & E & Hd)%list_elem_of_fmap. rewrite Forall_forall in Hl. by destruct (Hf d (Hl d Hd)) as (_ & _ & ?).
Qed.
Lemma replace_low s : LOW ∉ s -> replace_all s (js "_") [] = s.
Proof. intros H. unfold replace_all. change (js "_") with [LOW]. by rewrite split_no_char. Qed.

(** [f] writes the digits of [n] so that they are read back. *)
Lemma read_digits r (p : Z -> bool) (f : Z -> Z) n : 2 <= r -> 0 <= n -> write_ok r p f = true ->
  let l := f <$> digits r n in
  parse_digits r None l = Some n /\ parse_digits r (Some 0) l = Some n /\ digits_only p false l = true /\
  LOW ∉ l /\ COLON ∉ l /\ l <> [].
Proof.
  intros Hr Hn [Hw Hp]%write_ok_spec. destruct (digits_ok r n Hr Hn) as (Hd & Hv & _). pose proof (digits_nonempty r n Hr Hn) as Hne.
  intros l. subst l. repeat split.
  - rewrite (parse_digits_writes r) by auto. exact (f_equal Some Hv).
  - rewrite (parse_digits_writes r) by auto. exact (f_equal Some Hv).
  - apply digits_only_writes; [|by left]. eapply Forall_impl; [exact Hd|]. intros d Hd'. by apply Hp.
  - by apply (no_low r).
  - by apply (no_colon r).
  - by destruct (digits r n).
Qed.

Lemma radix_string_nonneg r n : 0 <= n -> radix_string r n = digit_unit <$> digits r n.
Proof. intros Hn. unfold radix_string. by rewrite (proj2 (Z.ltb_ge n 0)). Qed.

Definition reads (s : jsstr) (z : Z) : Prop := resolve_int_text s = true /\ construct_int_text s = NInt z.

Lemma parseInt_digits r s n : r <> 16 -> parse_digits r None s = Some n -> parseInt s r = NInt n.
Proof. intros Hr H. unfold parseInt. rewrite (proj2 (Z.eqb_neq r 16)) by done. cbn [andb]. by rewrite H. Qed.

(** The branches of the reader. *)
Lemma construct_b l : LOW ∉ l -> construct_int_text (48 :: 98 :: l) = num_scale 1 (parseInt l 2).
Proof. intros H. unfold construct_int_text. rewrite replace_low; [done|]. by rewrite !not_elem_of_cons. Qed.
Lemma construct_x l : LOW ∉ l -> construct_int_text (48 :: 120 :: l) = num_scale 1 (parseInt (48 :: 120 :: l) 16).
Proof. intros H. unfold construct_int_text. rewrite replace_low; [done|]. by rewrite !not_elem_of_cons. Qed.
Lemma construct_octal d l : LOW ∉ d :: l -> d <> 98 -> d <> 120 ->
  construct_int_text (48 :: d :: l) = num_scale 1 (parseInt (48 :: d :: l) 8).
Proof.
  intros H Hb Hx. unfold construct_int_text. rewrite replace_low; [|by rewrite !not_elem_of_cons in *].
  transitivity (if d =? 98 then num_scale 1 (parseInt l 2) else if d =? 120 then num_scale 1 (parseInt (48 :: d :: l) 16)
                else num_scale 1 (parseInt (48 :: d :: l) 8)); [done|].
  by rewrite !(proj2 (Z.eqb_neq _ _)).
Qed.

Lemma num_scale_1 n : num_scale 1 (NInt n) = NInt n.
Proof. unfold num_scale. f_equal. lia. Qed.

Lemma parseInt_hex s n : parse_digits 16 None s = Some n -> parseInt (48 :: 120 :: s) 16 = NInt n.
Proof.
  intros H. transitivity (match parse_digits 16 None s with Some n => NInt n | None => NNaN end); [done|]. by rewrite H.
Qed.

Lemma binary_reads n : 0 <= n -> reads (js "0b" ++ radix_string 2 n) n.
Proof.
  intros Hn. rewrite radix_string_nonneg by done.
  destruct (read_digits 2 isBinCode digit_unit n) as (H1 & H2 & H3 & H4 & H5 & H6); [done..|apply binary_ok|].
  split; [exact H3|]. etransitivity; [exact (construct_b _ H4)|]. rewrite (parseInt_digits 2 _ n) by done. apply num_scale_1.
Qed.

Lemma upper_text l : toUpperCase (digit_unit <$> l) = (fun d => upper_unit (digit_unit d)) <$> l.
Proof. unfold toUpperCase. by rewrite <- list_fmap_compose. Qed.

Lemma hexadecimal_reads n : 0 <= n -> reads (js "0x" ++ toUpperCase (radix_string 16 n)) n.
Proof.
  intros Hn. rewrite radix_string_nonneg, upper_text by done.
  destruct (read_digits 16 isHexCode (fun d => upper_unit (digit_unit d)) n) as (H1 & H2 & H3 & H4 & H5 & H6);
    [done..|apply hexadecimal_ok|].
  split; [exact H3|]. etransitivity; [exact (construct_x _ H4)|]. rewrite (parseInt_hex _ n H1). apply num_scale_1.
Qed.

Lemma octal_reads n : 0 <= n -> reads (js "0" ++ radix_string 8 n) n.
Proof.
  intros Hn. rewrite radix_string_nonneg by done.
  destruct (read_digits 8 isOctCode digit_unit n) as (H1 & H2 & H3 & H4 & H5 & H6); [done..|apply octal_ok|].
  destruct (digit_unit <$> digits 8 n) as [|d l] eqn:E; [done|].
  assert (Hd : d <> 98 /\ d <> 120).
  { cbn [digits_only] in H3. apply not_elem_of_cons in H4 as [Hlow _]. rewrite (proj2 (Z.eqb_neq _ _)) in H3 by done.
    unfold isOctCode in H3. destruct (Z.leb_spec 48 d), (Z.leb_spec d 55); cbn in H3; try done. lia. }
  split.
  - transitivity (if d =? 98 then digits_only isBinCode false l else if d =? 120 then digits_only isHexCode false l
                  else digits_only isOctCode false (d :: l)); [done|].
    by rewrite !(proj2 (Z.eqb_neq d _)) by tauto.
  - etransitivity; [apply (construct_octal d l); tauto|]. rewrite (parseInt_digits 8 _ n); [apply num_scale_1|done|].
    exact H2.
Qed.

(** A first digit that is not zero. *)
Lemma nonzero_digit (P : Z -> Prop) : P 49 -> P 50 -> P 51 -> P 52 -> P 53 -> P 54 -> P 55 -> P 56 -> P 57 ->
  forall c, 48 < c <= 57 -> P c.
Proof.
  intros. assert (c = 49 \/ c = 50 \/ c = 51 \/ c = 52 \/ c = 53 \/ c = 54 \/ c = 55 \/ c = 56 \/ c = 57) as Hc by lia.
  by destruct_or! Hc; subst c.
Qed.

Lemma resolve_decimal c l : 48 < c <= 57 ->
  resolve_int_text (c :: l) = decimal_digits false (c :: l) /\
  resolve_int_text (45 :: c :: l) = decimal_digits false (c :: l).
Proof. revert c. by apply nonzero_digit. Qed.
Lemma construct_decimal c l : 48 < c <= 57 -> LOW ∉ c :: l -> COLON ∉ c :: l ->
  construct_int_text (c :: l) = num_scale 1 (parseInt (c :: l) 10) /\
  construct_int_text (45 :: c :: l) = num_scale (-1) (parseInt (c :: l) 10).
Proof.
  intros Hc Hl Hco. unfold construct_int_text. rewrite !replace_low by (rewrite ?not_elem_of_cons in *; done).
  assert (Hi : includes (c :: l) (js ":") = false).
  { change (js ":") with [COLON]. rewrite includes_char. by apply bool_decide_eq_false. }
  set (sexagesimal sign := num_scale sign (sexagesimal_value (NInt 0) 1
         (rev ((fun v => parseInt v 10) <$> split (c :: l) (js ":"))))).
  enough ((if includes (c :: l) (js ":") then sexagesimal 1 else num_scale 1 (parseInt (c :: l) 10)) =
            num_scale 1 (parseInt (c :: l) 10) /\
          (if includes (c :: l) (js ":") then sexagesimal (-1) else num_scale (-1) (parseInt (c :: l) 10)) =
            num_scale (-1) (parseInt (c :: l) 10)) as Hen; [|by rewrite Hi].
  subst sexagesimal. clear Hi Hl Hco. revert c Hc Hen. apply (nonzero_digit (fun c => _ -> _)); intros Hen; exact Hen.
Qed.

Lemma decimal_digit_text n : 0 < n -> exists c l, radix_string 10 n = c :: l /\ 48 < c <= 57 /\ LOW ∉ c :: l /\ COLON ∉ c :: l /\
  decimal_digits false (c :: l) = true /\ parseInt (c :: l) 10 = NInt n.
Proof.
  intros Hn. rewrite radix_string_nonneg by lia.
  destruct (read_digits 10 isDecCode digit_unit n) as (H1 & H2 & H3 & H4 & H5 & H6); [lia..|apply decimal_ok|].
  destruct (digits_ok 10 n) as (Hd & _ & (d & l & E & Hpos) & _); [lia..|].
  assert (Hdec : decimal_digits false (digit_unit <$> digits 10 n) = true) by (apply decimal_digits_writes; [done|left; by rewrite E]).
  apply (parseInt_digits 10) in H1; [|done]. rewrite E in *. apply Forall_cons_1 in Hd as [Hd _].
  exists (digit_unit d), (digit_unit <$> l). split; [done|]. split; [|done].
  unfold digit_unit. rewrite (proj2 (Z.ltb_lt d 10)) by lia. lia.
Qed.

Lemma decimal_reads z : reads (radix_string 10 z) z.
Proof.
  destruct (Z.lt_trichotomy z 0) as [H|[->|H]]; [|done|].
  - destruct (decimal_digit_text (- z)) as (c & l & E & Hc & Hl & Hco & Hd & Hp); [lia|].
    assert (Es : radix_string 10 z = 45 :: c :: l).
    { rewrite radix_string_nonneg in E by lia. unfold radix_string. rewrite (proj2 (Z.ltb_lt z 0)) by done. exact (f_equal (cons 45) E). }
    rewrite Es. split.
    + by rewrite (proj2 (resolve_decimal c l Hc)).
    + rewrite (proj2 (construct_decimal c l Hc Hl Hco)), Hp. cbn. f_equal. lia.
  - destruct (decimal_digit_text z) as (c & l & E & Hc & Hl & Hco & Hd & Hp); [lia|]. rewrite E. split.
    + by rewrite (proj1 (resolve_decimal c l Hc)).
    + rewrite (proj1 (construct_decimal c l Hc Hl Hco)), Hp. apply num_scale_1.
Qed.

(** An integer that is written is read back as the same integer: in
    every style if it is not negative, in decimal for all integers. *)
Theorem integer_roundtrip z style :
  0 <= z \/ style ∉ [js "binary"; js "octal"; js "hexadecimal"] ->
  resolveYamlInteger (VStr (representYamlInteger z style)) = true /\
  constructYamlInteger (VStr (representYamlInteger z style)) = vint z.
Proof.
  intros H. assert (Hr : reads (representYamlInteger z style) z) by
    (unfold representYamlInteger; repeat case_bool_decide; subst;
     try apply decimal_reads; try apply binary_reads; try apply octal_reads; try apply hexadecimal_reads;
     destruct H as [|H]; try done; rewrite !not_elem_of_cons in H; tauto).
  destruct Hr as [H1 H2]. split; [done|]. unfold constructYamlInteger. by rewrite H2.
Qed.
Lemma integer_roundtrip_witness :
  constructYamlInteger (VStr (js "0xFF")) = vint 255 /\ constructYamlInteger (VStr (js "-42")) = vint (-42).
Proof.
  split; [apply (integer_roundtrip 255 (js "hexadecimal")); left; lia|].
  apply (integer_roundtrip (-42) (js "decimal")). right. rewrite !not_elem_of_cons. repeat split; try (vm_compute; congruence). apply not_elem_of_nil.
Defined.

(** Negative integers of the other styles are not read as integers. *)
Example negative_binary :
  representYamlInteger (-5) (js "binary") = js "0b-101" /\ resolveYamlInteger (VStr (js "0b-101")) = false /\
  resolveYamlInteger (VStr (representYamlInteger (-5) (js "hexadecimal"))) = false /\
  resolveYamlInteger (VStr (representYamlInteger (-5) (js "octal"))) = false.
Proof. done. Qed.
(** An underscore may come first: this is the integer 1. *)
Example leading_underscore :
  resolveYamlInteger (VStr (js "_1")) = true /\ constructYamlInteger (VStr (js "_1")) = vint 1.
Proof. done. Qed.

(** ** Binary data is Base64 *)

Lemma map_char_sextet d : 0 <= d < 64 -> map_char d = sextet d.
Proof.
  intros Hd. apply Z.eqb_eq, (all_below (fun d => map_char d =? sextet d) 64); [done|lia].
Qed.

(** One more byte below the collected bits. *)
Lemma push_spec bits b : is_byte b ->
  is_int32 (js_shl bits 8 + b) /\ exists q, js_shl bits 8 + b = bits * 256 + b + q * 2 ^ 32.
Proof.
  unfold is_byte. intros Hb. destruct (to_int32_cong bits) as [k1 E1].
  destruct (to_int32_cong (to_int32 bits * 256)) as [k2 E2].
  assert (E : js_shl bits 8 = to_int32 (to_int32 bits * 256)).
  { unfold js_shl. change (8 mod 32) with 8. by rewrite Z.shiftl_mul_pow2 by lia. }
  pose proof (to_int32_range (to_int32 bits * 256)) as Hr. unfold is_int32 in *. rewrite E. split.
  - assert (Hm : to_int32 (to_int32 bits * 256) mod 256 = 0).
    { rewrite to_int32_mod; [by apply Z.mod_mul|lia|by exists (2 ^ 24)]. }
    Z.div_mod_to_equations; lia.
  - exists (k1 * 256 + k2). rewrite E2, E1. lia.
Qed.

(** The low 24 bits of a word are [t]. *)
Definition low24 (bits t : Z) : Prop := is_int32 bits /\ exists q, bits = t + q * 2 ^ 24.
Definition low16 (bits t : Z) : Prop := is_int32 bits /\ exists q, bits = t + q * 2 ^ 16.
Definition low8 (bits t : Z) : Prop := is_int32 bits /\ exists q, bits = t + q * 2 ^ 8.

Lemma push8 bits a : is_byte a -> low8 (js_shl bits 8 + a) a.
Proof. intros Ha. destruct (push_spec bits a Ha) as [H [q E]]. split; [done|]. exists (bits + q * 2 ^ 24). lia. Qed.
Lemma push16 bits a b : low8 bits a -> is_byte b -> low16 (js_shl bits 8 + b) (a * 2 ^ 8 + b).
Proof.
  intros [_ [q0 E0]] Hb. destruct (push_spec bits b Hb) as [H [q E]]. split; [done|]. exists (q0 + q * 2 ^ 16). lia.
Qed.
Lemma push24 bits t c : low16 bits t -> is_byte c -> low24 (js_shl bits 8 + c) (t * 2 ^ 8 + c).
Proof.
  intros [_ [q0 E0]] Hb. destruct (push_spec bits c Hb) as [H [q E]]. split; [done|]. exists (q0 + q * 2 ^ 8). lia.
Qed.

Lemma div_high t q m n : 0 < n -> (t + q * (m * 64 * n)) / n mod 64 = t / n mod 64.
Proof.
  intros Hn. replace (q * (m * 64 * n)) with (q * m * 64 * n) by lia. rewrite Z.div_add by lia. by rewrite Z.mod_add.
Qed.

Lemma char_at_field bits n : is_int32 bits -> 0 <= n < 32 -> char_at bits n = sextet (bits / 2 ^ n mod 64).
Proof.
  intros Hb Hn. unfold char_at. rewrite js_and_63, js_sar_div by done. apply map_char_sextet, Z.mod_pos_bound. lia.
Qed.
(** The last sextet, filled with zero bits. *)
Lemma char_shl bits n : is_int32 bits -> n = 2 \/ n = 4 ->
  map_char (js_and (js_shl bits n) 63) = sextet (bits * 2 ^ n mod 64).
Proof.
  intros Hb Hn. rewrite js_and_63. unfold js_shl. rewrite to_int32_mod by (lia || by exists (2 ^ 26)).
  rewrite to_int32_id by done. rewrite (Z.mod_small n) by lia. rewrite Z.shiftl_mul_pow2 by lia.
  apply map_char_sextet, Z.mod_pos_bound. lia.
Qed.

Definition binary_tail (tail bits : Z) : jsstr :=
  if tail =? 0 then quad_chars bits
  else if tail =? 2 then [char_at bits 10; char_at bits 4; map_char (js_and (js_shl bits 2) 63); map_char 64]
  else [char_at bits 2; map_char (js_and (js_shl bits 4) 63); map_char 64; map_char 64].

Lemma tail_0 bits a b c : is_byte a -> is_byte b -> is_byte c -> low24 bits ((a * 2 ^ 8 + b) * 2 ^ 8 + c) ->
  binary_tail 0 bits = tripletToBase64 (js_shl a 16 + js_shl b 8 + c).
Proof.
  intros Ha Hb Hc [Hr [q E]]. rewrite triplet_sextets by done. unfold binary_tail, quad_chars. cbn [Z.eqb].
  rewrite !char_at_field by (lia || done). unfold is_byte in *. rewrite E.
  change (2 ^ 24) with (1 * 64 * 2 ^ 18) at 1. change (2 ^ 24) with (2 ^ 6 * 64 * 2 ^ 12) at 1.
  change (2 ^ 24) with (2 ^ 12 * 64 * 2 ^ 6) at 1. change (2 ^ 24) with (2 ^ 18 * 64 * 2 ^ 0) at 1.
  rewrite !div_high by lia. do 4 (apply f_equal2; [apply f_equal; Z.div_mod_to_equations; lia|]). done.
Qed.
Lemma tail_1 bits a : is_byte a -> low8 bits a -> binary_tail 1 bits = uint8ToBase64 [a].
Proof.
  intros Ha [Hr [q E]]. rewrite uint8ToBase64_1 by done.
  change (binary_tail 1 bits) with [char_at bits 2; map_char (js_and (js_shl bits 4) 63); map_char 64; map_char 64].
  rewrite char_at_field, char_shl by (lia || done). unfold is_byte in *. change (map_char 64) with 61. rewrite E.
  repeat (apply f_equal2; [try done; apply f_equal; Z.div_mod_to_equations; lia|]). done.
Qed.
Lemma tail_2 bits a b : is_byte a -> is_byte b -> low16 bits (a * 2 ^ 8 + b) -> binary_tail 2 bits = uint8ToBase64 [a; b].
Proof.
  intros Ha Hb [Hr [q E]]. rewrite uint8ToBase64_2 by done.
  change (binary_tail 2 bits) with [char_at bits 10; char_at bits 4; map_char (js_and (js_shl bits 2) 63); map_char 64].
  rewrite !char_at_field, char_shl by (lia || done). unfold is_byte in *. change (map_char 64) with 61. rewrite E.
  repeat (apply f_equal2; [try done; apply f_equal; Z.div_mod_to_equations; lia|]). done.
Qed.

Lemma collect_step idx bits result a b c l : idx mod 3 = 0 -> 0 <= idx ->
  collect_triples idx bits result (a :: b :: c :: l) =
  collect_triples (idx + 3) (js_shl (js_shl (js_shl bits 8 + a) 8 + b) 8 + c)
    (result ++ if idx =? 0 then [] else quad_chars bits) l.
Proof.
  intros Hm Hi. cbn [collect_triples]. rewrite Hm.
  replace ((idx + 1) mod 3 =? 0) with false by (symmetry; apply Z.eqb_neq; Z.div_mod_to_equations; lia).
  replace ((idx + 1 + 1) mod 3 =? 0) with false by (symmetry; apply Z.eqb_neq; Z.div_mod_to_equations; lia).
  cbn [Z.eqb andb]. replace (idx + 1 + 1 + 1) with (idx + 3) by lia. f_equal.
  destruct (Z.eqb_spec idx 0); cbn; by rewrite ?app_nil_r.
Qed.

Lemma collect_base64 l : Forall is_byte l -> l <> [] -> forall idx bits result, idx mod 3 = 0 -> 0 <= idx ->
  (let '(b, r) := collect_triples idx bits result l in r ++ binary_tail (zlength l mod 3) b) =
  result ++ (if idx =? 0 then [] else quad_chars bits) ++ uint8ToBase64 l.
Proof.
  induction l as [|a|a b|a b c l IH] using list_ind3; intros Hl Hne idx bits result Hm Hi; [done|..].
  - apply Forall_cons_1 in Hl as [Ha _]. cbn [collect_triples]. rewrite Hm.
    rewrite (tail_1 _ a) by (done || by apply push8). rewrite app_assoc. f_equal.
    destruct (Z.eqb_spec idx 0); cbn; by rewrite ?app_nil_r.
  - apply Forall_cons_1 in Hl as [Ha [Hb _]%Forall_cons_1]. cbn [collect_triples]. rewrite Hm.
    replace ((idx + 1) mod 3 =? 0) with false by (symmetry; apply Z.eqb_neq; Z.div_mod_to_equations; lia). cbn [andb].
    rewrite (tail_2 _ a b) by (done || by apply push16, Hb; apply push8). rewrite app_assoc. f_equal.
    destruct (Z.eqb_spec idx 0); cbn; by rewrite ?app_nil_r.
  - apply Forall_cons in Hl as [Ha [Hb [Hc Hl]%Forall_cons]%Forall_cons].
    rewrite collect_step, uint8ToBase64_cons3 by done.
    set (bits' := js_shl (js_shl (js_shl bits 8 + a) 8 + b) 8 + c).
    assert (Hq : quad_chars bits' = tripletToBase64 (js_shl a 16 + js_shl b 8 + c)).
    { apply (tail_0 bits' a b c); [done..|]. apply push24; [|done]. apply push16; [|done]. by apply push8. }
    replace (zlength (a :: b :: c :: l) mod 3) with (zlength l mod 3).
    2: { unfold zlength. cbn [length]. rewrite !Nat2Z.inj_succ. Z.div_mod_to_equations; lia. }
    destruct l as [|d l].
    + cbn [collect_triples]. change (binary_tail (zlength [] mod 3) bits') with (quad_chars bits'). rewrite Hq.
      change (uint8ToBase64 []) with (@nil Z). by rewrite app_nil_r, <- app_assoc.
    + rewrite (IH Hl) by (done || lia || (Z.div_mod_to_equations; lia)).
      rewrite (proj2 (Z.eqb_neq (idx + 3) 0)) by lia. by rewrite Hq, <- app_assoc.
Qed.

(** Binary data is written as its Base64 text, unless it is empty. *)
Theorem binary_base64 bytes : Forall is_byte bytes -> bytes <> [] -> representYamlBinary bytes = uint8ToBase64 bytes.
Proof.
  intros Hb Hne. pose proof (collect_base64 bytes Hb Hne 0 0 [] eq_refl ltac:(lia)) as H. cbn [app Z.eqb] in H. rewrite <- H.
  unfold representYamlBinary. by destruct (collect_triples 0 0 [] bytes).
Qed.
Lemma binary_base64_witness : representYamlBinary [77; 97; 110; 255] = js "TWFu/w==".
Proof. apply (binary_base64 [77; 97; 110; 255]); [repeat constructor; unfold is_byte; lia|done]. Defined.

(** No data at all is written as three zero bytes, and no text is read as
    three zero bytes. *)
Example empty_binary :
  representYamlBinary [] = js "AAAA" /\ resolveYamlBinary (VStr []) = true /\ construct_binary [] = [0; 0; 0].
Proof. done. Qed.

(** ** Timestamps: what is written is read

    The calendar. *)
Lemma year_of_day_spec d : day_from_year (year_of_day d) <= d < day_from_year (year_of_day d + 1).
Proof.
  unfold year_of_day. set (y := 1970 + d * 400 / 146097).
  assert (H : day_from_year (y - 1) <= d < day_from_year (y + 2)) by
    (unfold day_from_year, y; Z.div_mod_to_equations; lia).
  destruct (Z.ltb_spec d (day_from_year y)); [replace (y - 1 + 1) with y by lia; lia|].
  destruct (Z.leb_spec (day_from_year (y + 1)) d); [replace (y + 1 + 1) with (y + 2) by lia; lia|lia].
Qed.
Lemma year_length y : 365 <= day_from_year (y + 1) - day_from_year y <= 366.
Proof. unfold day_from_year. Z.div_mod_to_equations; lia. Qed.

Definition month_ok (leap : bool) (doy : Z) : bool :=
  let m := month_of 12 0 doy leap in
  (0 <=? m) && (m <=? 11) && (month_start m leap <=? doy) && (doy <=? month_start m leap + 31).
Lemma months_ok leap : forallb (month_ok leap) (seqZ 0 366) = true.
Proof. by destruct leap; vm_compute. Qed.
Lemma month_of_spec leap doy : 0 <= doy < 366 ->
  let m := month_of 12 0 doy leap in 0 <= m <= 11 /\ month_start m leap <= doy <= month_start m leap + 31.
Proof.
  intros H. pose proof (all_below _ _ (months_ok leap) doy H) as Hm. unfold month_ok in Hm.
  rewrite !andb_true_iff, !Z.leb_le in Hm. cbn zeta. lia.
Qed.

(** Numbers of a fixed width. *)
Definition is_digits (s : jsstr) : Prop := Forall (fun c => isDecCode c = true) s.
Lemma span_all d : forall w r, is_digits d -> length d = w -> span_digits w (d ++ r) = (d, r).
Proof.
  induction d as [|c d IH]; intros w r Hd Hw; cbn in Hw; subst w; [by destruct r|].
  apply Forall_cons_1 in Hd as [Hc Hd]. cbn [length app span_digits]. by rewrite Hc, (IH _ r Hd eq_refl).
Qed.
Lemma span_end d c r : forall w, is_digits d -> (length d <= w)%nat -> isDecCode c = false -> span_digits w (d ++ c :: r) = (d, c :: r).
Proof.
  induction d as [|x d IH]; intros w Hd Hw Hc; cbn [app].
  - destruct w; cbn; by rewrite ?Hc.
  - destruct w as [|w]; [cbn in Hw; lia|]. apply Forall_cons_1 in Hd as [Hx Hd]. cbn [span_digits]. rewrite Hx. cbn in Hw.
    by rewrite IH by (done || lia).
Qed.
Lemma digits_of_all lo w d r : is_digits d -> length d = w -> (lo <= w)%nat -> digits_of lo w (d ++ r) = Some (d, r).
Proof.
  intros Hd Hw Hlo. unfold digits_of. rewrite (span_all d w r) by done. destruct (Nat.ltb_spec (length d) lo); [lia|done].
Qed.

Lemma dec_value_zeros k s : dec_value 0 (repeat 48 k ++ s) = dec_value 0 s.
Proof. by induction k. Qed.
Lemma length_radix_digits f r n w : 2 <= r -> 0 <= n < r ^ Z.of_nat w -> (0 < w)%nat -> (length (radix_digits f r n) <= w)%nat.
Proof.
  intros Hr. revert n w. induction f as [|f IH]; intros n w Hn Hw; cbn [radix_digits]; [cbn; lia|].
  destruct (Z.ltb_spec n r); [cbn; lia|]. rewrite length_app. cbn. destruct w as [|[|w]]; [lia| |].
  - change (r ^ Z.of_nat 1) with (r ^ 1) in Hn. lia.
  - specialize (IH (n / r) (S w)). rewrite Nat2Z.inj_succ, Z.pow_succ_r in Hn by lia.
    enough (length (radix_digits f r (n / r)) <= S w)%nat by lia. apply IH; [|lia].
    split; [apply Z.div_pos; lia|apply Z.div_lt_upper_bound; lia].
Qed.

Lemma pad_spec w n : (0 < w)%nat -> 0 <= n < 10 ^ Z.of_nat w ->
  is_digits (pad w n) /\ length (pad w n) = w /\ number (pad w n) = n.
Proof.
  intros Hw Hn. unfold pad, number. rewrite dec_value_zeros, dec_value_to_str by lia.
  unfold Z_to_str. rewrite radix_string_nonneg by lia. split; [|split; [|done]].
  - apply Forall_app. split; [apply List.Forall_forall; by intros x ->%repeat_spec|].
    destruct (digits_ok 10 n) as (Hd & _); [lia..|]. destruct (write_ok_spec _ _ _ decimal_ok) as [_ Hp].
    apply Forall_fmap. eapply Forall_impl; [exact Hd|]. intros d Hd'. by apply Hp.
  - pose proof (length_radix_digits (nat_fuel n) 10 n w ltac:(lia) Hn Hw). unfold digits.
    rewrite length_app, repeat_length, length_fmap. lia.
Qed.

Lemma match_date_long y m d c r :
  is_digits y -> length y = 4%nat -> is_digits m -> length m = 2%nat -> is_digits d -> length d = 2%nat ->
  match_date (y ++ js "-" ++ m ++ js "-" ++ d ++ c :: r) = None.
Proof.
  intros Hy Ly Hm Lm Hd Ld. unfold match_date. rewrite digits_of_all by (done || lia). cbn [mbind option_bind].
  change (expect _ (js "-" ++ ?s)) with (Some s). cbn [mbind option_bind]. rewrite digits_of_all by (done || lia).
  cbn [mbind option_bind]. change (expect _ (js "-" ++ ?s)) with (Some s). cbn [mbind option_bind].
  by rewrite digits_of_all by (done || lia).
Qed.

(** The text of a date and time with a fraction, in UTC. *)
Lemma match_iso y m d h mi s f :
  is_digits y -> length y = 4%nat -> is_digits m -> length m = 2%nat -> is_digits d -> length d = 2%nat ->
  is_digits h -> length h = 2%nat -> is_digits mi -> length mi = 2%nat -> is_digits s -> length s = 2%nat ->
  is_digits f ->
  match_stamp (y ++ js "-" ++ m ++ js "-" ++ d ++ js "T" ++ h ++ js ":" ++ mi ++ js ":" ++ s ++ js "." ++ f ++ js "Z") =
  Some (Stamp (number y) (number m) (number d) (Some (number h, number mi, number s, f)) None).
Proof.
  intros Hy Ly Hm Lm Hd Ld Hh Lh Hmi Lmi Hs Ls Hf. unfold match_stamp. change (js "T" ++ ?s) with (chr "T" :: s).
  rewrite match_date_long by done. unfold match_timestamp.
  repeat first [ rewrite digits_of_all by (done || lia)
               | progress change (expect _ (js "-" ++ ?s)) with (Some s)
               | progress change (expect _ (js ":" ++ ?s)) with (Some s)
               | progress cbn [mbind option_bind] ].
  change (if (chr "T" =? chr "T") || _ then ?x else _) with x. cbn [mbind option_bind].
  repeat first [ rewrite digits_of_all by (done || lia)
               | progress change (expect _ (js "-" ++ ?s)) with (Some s)
               | progress change (expect _ (js ":" ++ ?s)) with (Some s)
               | progress cbn [mbind option_bind] ].
  change (js "." ++ f ++ js "Z") with (46 :: (f ++ [90])). change (46 =? chr ".") with true. cbv iota.
  rewrite span_end; [done|done|rewrite length_app; lia|done].
Qed.

(** A date between the years 100 and 9999 that is written is read back as
    the same instant. *)
Theorem timestamp_roundtrip ms :
  100 <= year_of_day (ms / 86400000) <= 9999 ->
  resolveYamlTimestamp (VStr (representYamlTimestamp ms)) = true /\
  constructYamlTimestamp (VStr (representYamlTimestamp ms)) = Ok (date_value ms).
Proof.
  intros Hy. enough (E : exists m, match_stamp (representYamlTimestamp ms) = Some m /\ stamp_ms m = ms).
  { destruct E as (m & E & Em). unfold resolveYamlTimestamp, constructYamlTimestamp. by rewrite E, Em. }
  unfold representYamlTimestamp, toISOString. cbv zeta.
  set (d := ms / 86400000) in *. set (t := ms mod 86400000). set (y := year_of_day d) in *.
  pose proof (year_of_day_spec d) as Hd. fold y in Hd. pose proof (year_length y) as Hlen.
  set (doy := d - day_from_year y). pose proof (month_of_spec (is_leap y) doy ltac:(lia)) as Hm. cbv zeta in Hm.
  set (m := month_of 12 0 doy (is_leap y)) in *. set (dom := doy - month_start m (is_leap y) + 1).
  assert (Ht : 0 <= t < 86400000) by (apply Z.mod_pos_bound; lia).
  destruct (pad_spec 4 y) as (Y1 & Y2 & Y3); [lia..|]. destruct (pad_spec 2 (m + 1)) as (M1 & M2 & M3); [lia..|].
  destruct (pad_spec 2 dom) as (D1 & D2 & D3); [lia..|].
  destruct (pad_spec 2 (t / 3600000)) as (H1 & H2 & H3); [lia|Z.div_mod_to_equations; lia|].
  destruct (pad_spec 2 (t / 60000 mod 60)) as (I1 & I2 & I3); [lia|Z.div_mod_to_equations; lia|].
  destruct (pad_spec 2 (t / 1000 mod 60)) as (S1 & S2 & S3); [lia|Z.div_mod_to_equations; lia|].
  destruct (pad_spec 3 (t mod 1000)) as (F1 & F2 & F3); [lia|Z.div_mod_to_equations; lia|].
  eexists. split; [by apply match_iso|]. unfold stamp_ms. cbn [time zone year month day].
  rewrite Y3, M3, D3, H3, I3, S3.
  assert (Ef : fraction_ms (pad 3 (t mod 1000)) = t mod 1000).
  { unfold fraction_ms. destruct (pad 3 (t mod 1000)) as [|c f] eqn:E; [done|]. rewrite firstn_all2 by lia.
    rewrite F2. cbn [Nat.sub repeat]. by rewrite app_nil_r. }
  rewrite Ef. unfold Date_UTC. rewrite (proj2 (Z.leb_gt y 99)) by lia. rewrite andb_false_r.
  unfold make_day. replace (m + 1 - 1) with m by lia. rewrite Z.div_small, Z.mod_small by lia. rewrite Z.add_0_r.
  pose proof (Z.div_mod ms 86400000 ltac:(lia)). fold d t in H.
  replace (day_from_year y + month_start m (is_leap y) + dom - 1) with d by lia.
  clearbody d t. Z.div_mod_to_equations; lia.
Qed.
Lemma timestamp_roundtrip_witness :
  constructYamlTimestamp (VStr (js "2015-02-28T23:59:59.250Z")) = Ok (date_value 1425167999250).
Proof. apply (timestamp_roundtrip 1425167999250). vm_compute. split; congruence. Defined.

(** The years up to 99 are read as years of the twentieth century. *)
Example early_year :
  representYamlTimestamp (-60000000000000) = js "0068-09-03T13:20:00.000Z" /\
  constructYamlTimestamp (VStr (js "0068-09-03T13:20:00.000Z")) = Ok (date_value (-41856000000)).
Proof. by vm_compute. Qed.
