(* ===== verification/YamlText.v ===== *)
(** * How js-yaml writes text

    The first half of the dumper of js-yaml: which characters can be printed,
    the style of a scalar (plain, quoted, literal, folded), escapes, the
    indentation of a block, and the folding of long lines. *)

From Stdlib Require Import String.
From S2P Require Import Prelude JsNumber JsString JsValue YamlTypes.

(** ** Helpers of js-yaml *)

Definition isNothing (subject : jsval) : bool := is_nullish subject.
Definition toArray (sequence : jsval) : list jsval :=
  match sequence with VArr l => l | _ => if isNothing sequence then [] else [sequence] end.
Fixpoint repeat_str (s : jsstr) (count : nat) : jsstr :=
  match count with O => [] | S n => s ++ repeat_str s n end.
Definition extend (target : obj) (source : obj) : obj := foldl (fun t '(k, v) => put k v t) target (for_in source).

(** ** Options *)

Record dumper := Dumper {
  implicitTypes : list ytype;
  explicitTypes : list ytype;
  indent : Z;
  skipInvalid : bool;
  flowLevel : Z;
  styleMap : list (jsstr * jsstr);
  sortKeys : jsval;
  lineWidth : Z;
  noRefs : bool;
  noCompatMode : bool
}.

(** [compileStyleMap]: styles by the full tag, aliases resolved. *)
Definition compileStyleMap (types : list (jsstr * ytype)) (map : jsval) : list (jsstr * jsstr) :=
  foldl (fun result '(tag, v) =>
    let style := to_str v in
    let tag := if bool_decide (take 2 tag = js "!!") then js "tag:yaml.org,2002:" ++ drop 2 tag else tag in
    let style := match assoc tag types with
                 | Some type => default style (assoc style (styleAliases type))
                 | None => style
                 end in
    put tag style result) [] (for_in_val map).

(** A number of the options, or what it is otherwise. *)
Definition int_option (o : obj) (k : jsstr) (otherwise : Z) : Z :=
  match get o k with VNum (NInt z) => if z =? 0 then otherwise else z | _ => otherwise end.
Definition State (s : schema) (options : obj) : dumper :=
  Dumper (compiledImplicit s) (compiledExplicit s)
    (Z.max 1 (int_option options (js "indent") 2))
    (truthy (get options (js "skipInvalid")))
    (match get options (js "flowLevel") with VNum (NInt z) => z | _ => -1 end)
    (compileStyleMap (compiledTypeMap s) (get options (js "styles")))
    (get options (js "sortKeys"))
    (int_option options (js "lineWidth") 80)
    (truthy (get options (js "noRefs")))
    (truthy (get options (js "noCompatMode"))).

(** ** Characters *)

Definition NL := 10.
Definition SPACE := 32.
Definition char_in (l : jsstr) (c : Z) : bool := bool_decide (c ∈ l).

Definition isWhitespace (c : Z) : bool := (c =? 32) || (c =? 9).
Definition isPrintable (c : Z) : bool :=
  ((32 <=? c) && (c <=? 126)) ||
  ((161 <=? c) && (c <=? 55295) && negb (c =? 8232) && negb (c =? 8233)) ||
  ((57344 <=? c) && (c <=? 65533) && negb (c =? 65279)) ||
  ((65536 <=? c) && (c <=? 1114111)).
Definition isPlainSafe (c : Z) : bool := isPrintable c && negb (c =? 65279) && negb (char_in (js ",[]{}:#") c).
Definition isPlainSafeFirst (c : Z) : bool :=
  isPrintable c && negb (c =? 65279) && negb (isWhitespace c) &&
  negb (char_in (js "-?:,[]{}#&*!|>'%@`" ++ [34]) c).

(** ** Escapes *)

Definition BACKSLASH := 92.
Definition ESCAPE_SEQUENCES : list (Z * Z) :=
  [(0, chr "0"); (7, chr "a"); (8, chr "b"); (9, chr "t"); (10, chr "n"); (11, chr "v"); (12, chr "f"); (13, chr "r");
   (27, chr "e"); (34, 34); (92, 92); (133, chr "N"); (160, chr "_"); (8232, chr "L"); (8233, chr "P")].
Definition escape_of (c : Z) : option jsstr :=
  match List.find (fun p => p.1 =? c) ESCAPE_SEQUENCES with Some (_, x) => Some [BACKSLASH; x] | None => None end.

(** Characters are 16-bit units: they are never above 0xFFFFFFFF. *)
Definition encodeHex (character : Z) : jsstr :=
  let string := toUpperCase (radix_string 16 character) in
  let '(handle, len) := if character <=? 255 then (js "x", 2%nat) else if character <=? 65535 then (js "u", 4%nat) else (js "U", 8%nat) in
  [BACKSLASH] ++ handle ++ repeat_str (js "0") (len - length string) ++ string.

Definition escape_char (c : Z) : jsstr :=
  match escape_of c with Some e => e | None => if isPrintable c then [c] else encodeHex c end.
Definition escapeString (string : jsstr) : jsstr := List.concat (escape_char <$> string).

(** ** Lines *)

(** Every line with its newline, if it has one. *)
Fixpoint raw_lines (fuel : nat) (s : jsstr) : list jsstr :=
  match fuel, s with
  | S f, _ :: _ =>
      match find_str [NL] s with
      | Some next => take (S next) s :: raw_lines f (drop (S next) s)
      | None => [s]
      end
  | _, _ => []
  end.
Definition indent_line (ind line : jsstr) : jsstr :=
  if negb (bool_decide (line = [])) && negb (bool_decide (line = [NL])) then ind ++ line else line.
Definition indentString (string : jsstr) (spaces : Z) : jsstr :=
  let ind := repeat_str [SPACE] (Z.to_nat spaces) in
  List.concat (indent_line ind <$> raw_lines (length string) string).

Definition generateNextLine (state : dumper) (level : Z) : jsstr :=
  NL :: repeat_str [SPACE] (Z.to_nat (indent state * level)).

Definition testImplicitResolving (state : dumper) (str : jsstr) : bool :=
  existsb (fun type => resolve type [] (DPrim (VStr str))) (implicitTypes state).

(** ** The style of a scalar *)

Inductive style := STYLE_PLAIN | STYLE_SINGLE | STYLE_LITERAL | STYLE_FOLDED | STYLE_DOUBLE.
#[export] Instance style_eq_dec : EqDecision style.
Proof. solve_decision. Defined.

Definition starts_with_space (s : jsstr) : bool := match s with c :: _ => c =? SPACE | [] => false end.
Definition space_at (s : jsstr) (i : Z) : bool := bool_decide (charAt s i = [SPACE]).

(** The loop over the characters when lines may break: whether a line break
    and a line that can be folded were met, the last line break, and whether
    the text can be plain; nothing if a character cannot be printed. *)
Record scan := Scan { hasLineBreak : bool; hasFoldableLine : bool; previousLineBreak : Z; plain : bool }.
Definition foldable (string : jsstr) (lineWidth i previous : Z) : bool :=
  (lineWidth <? i - previous - 1) && negb (space_at string (previous + 1)).
Fixpoint scan_chars (string : jsstr) (lineWidth : Z) (i : Z) (st : scan) (rest : jsstr) : option scan :=
  match rest with
  | [] => Some st
  | char :: rest' =>
      let safe := plain st && isPlainSafe char in
      if char =? NL then
        if negb (lineWidth =? -1) then
          scan_chars string lineWidth (i + 1)
            (Scan true (hasFoldableLine st || foldable string lineWidth i (previousLineBreak st)) i safe) rest'
        else scan_chars string lineWidth (i + 1) (Scan true (hasFoldableLine st) (previousLineBreak st) safe) rest'
      else if isPrintable char then
        scan_chars string lineWidth (i + 1) (Scan (hasLineBreak st) (hasFoldableLine st) (previousLineBreak st) safe) rest'
      else None
  end.

Definition first_plain (string : jsstr) : bool :=
  match string with c :: _ => isPlainSafeFirst c | [] => false end &&
  match last string with Some c => negb (isWhitespace c) | None => true end.

Definition scan_string (string : jsstr) (singleLineOnly : bool) (lineWidth : Z) : option scan :=
  if singleLineOnly then
    if forallb isPrintable string
    then Some (Scan false false (-1) (first_plain string && forallb isPlainSafe string))
    else None
  else
    match scan_chars string lineWidth 0 (Scan false false (-1) (first_plain string)) string with
    | Some st =>
        Some (Scan (hasLineBreak st)
                (hasFoldableLine st ||
                 (negb (lineWidth =? -1) && foldable string lineWidth (zlength string) (previousLineBreak st)))
                (previousLineBreak st) (plain st))
    | None => None
    end.

Definition chooseScalarStyle (string : jsstr) (singleLineOnly : bool) (indentPerLevel lineWidth : Z)
    (testAmbiguousType : jsstr -> bool) : style :=
  match scan_string string singleLineOnly lineWidth with
  | None => STYLE_DOUBLE
  | Some st =>
      if negb (hasLineBreak st) && negb (hasFoldableLine st) then
        if plain st && negb (testAmbiguousType string) then STYLE_PLAIN else STYLE_SINGLE
      else if starts_with_space string && (9 <? indentPerLevel) then STYLE_DOUBLE
      else if hasFoldableLine st then STYLE_FOLDED else STYLE_LITERAL
  end.

(** ** Blocks *)

Definition blockHeader (string : jsstr) (indentPerLevel : Z) : jsstr :=
  let indentIndicator := if starts_with_space string then Z_to_str indentPerLevel else [] in
  let len := zlength string in
  let clip := bool_decide (charAt string (len - 1) = [NL]) in
  let keep := clip && (bool_decide (charAt string (len - 2) = [NL]) || bool_decide (string = [NL])) in
  indentIndicator ++ (if keep then js "+" else if clip then [] else js "-") ++ [NL].
Definition dropEndingNewline (string : jsstr) : jsstr :=
  match last string with Some c => if c =? NL then removelast string else string | None => string end.

(** The positions where [/ [^ ]/g] matches. *)
Fixpoint breaks (i : Z) (line : jsstr) : list Z :=
  match line with
  | c :: ((d :: line'') as line') => if (c =? SPACE) && negb (d =? SPACE) then i :: breaks (i + 2) line'' else breaks (i + 1) line'
  | _ => []
  end.
(** The end of the last line, the last break, and the lines. *)
Definition fold_break (line : jsstr) (width : Z) (st : Z * Z * jsstr) (next : Z) : Z * Z * jsstr :=
  let '(start, curr, result) := st in
  if width <? next - start then
    let e := if start <? curr then curr else next in
    (e + 1, next, result ++ [NL] ++ slice_list line start e)
  else (start, next, result).
Definition foldLine (line : jsstr) (width : Z) : jsstr :=
  if bool_decide (line = []) || starts_with_space line then line
  else
    let '(start, curr, result) := foldl (fold_break line width) (0, 0, []) (breaks 0 line) in
    let result := result ++ [NL] in
    let result := if (width <? zlength line - start) && (start <? curr)
                  then result ++ slice_list line start curr ++ [NL] ++ slice_from line (curr + 1)
                  else result ++ slice_from line start in
    drop 1 result.

(** The newlines at the front, and what is before the next newline. *)
Fixpoint span_nl (s : jsstr) : jsstr * jsstr :=
  match s with c :: s' => if c =? NL then let '(n, r) := span_nl s' in (c :: n, r) else ([], s) | [] => ([], []) end.
Fixpoint span_line (s : jsstr) : jsstr * jsstr :=
  match s with c :: s' => if c =? NL then ([], s) else let '(l, r) := span_line s' in (c :: l, r) | [] => ([], []) end.
(** The loop over the rest: newlines and the line after them. *)
Fixpoint fold_lines (fuel : nat) (width : Z) (prevMoreIndented : bool) (s : jsstr) : jsstr :=
  match fuel, s with
  | S f, _ :: _ =>
      let '(prefix, rest) := span_nl s in
      let '(line, rest) := span_line rest in
      let moreIndented := starts_with_space line in
      prefix ++ (if negb prevMoreIndented && negb moreIndented && negb (bool_decide (line = [])) then [NL] else []) ++
      foldLine line width ++ fold_lines f width moreIndented rest
  | _, _ => []
  end.
Definition foldString (string : jsstr) (width : Z) : jsstr :=
  let '(first, rest) := span_line string in
  foldLine first width ++
  fold_lines (length rest) width (match string with c :: _ => (c =? NL) || (c =? SPACE) | [] => false end) rest.

(** ** Scalars *)

Definition DEPRECATED_BOOLEANS_SYNTAX : list jsstr :=
  js <$> ["y"; "Y"; "yes"; "Yes"; "YES"; "on"; "On"; "ON"; "n"; "N"; "no"; "No"; "NO"; "off"; "Off"; "OFF"]%string.

Definition quote_single (string : jsstr) : jsstr := js "'" ++ replace_all string (js "'") (js "''") ++ js "'".
Definition quote_double (string : jsstr) : jsstr := [34] ++ escapeString string ++ [34].

Definition scalar_width (state : dumper) (level : Z) : Z :=
  if lineWidth state =? -1 then -1
  else Z.max (Z.min (lineWidth state) 40) (lineWidth state - indent state * Z.max 1 level).

Definition writeScalar (state : dumper) (string : jsstr) (level : Z) (iskey : bool) : jsstr :=
  match string with
  | [] => js "''"
  | _ =>
      if negb (noCompatMode state) && bool_decide (string ∈ DEPRECATED_BOOLEANS_SYNTAX) then js "'" ++ string ++ js "'"
      else
        let ind := indent state * Z.max 1 level in
        let width := scalar_width state level in
        let singleLineOnly := iskey || ((-1 <? flowLevel state) && (flowLevel state <=? level)) in
        match chooseScalarStyle string singleLineOnly (indent state) width (testImplicitResolving state) with
        | STYLE_PLAIN => string
        | STYLE_SINGLE => quote_single string
        | STYLE_LITERAL => js "|" ++ blockHeader string (indent state) ++ dropEndingNewline (indentString string ind)
        | STYLE_FOLDED =>
            js ">" ++ blockHeader string (indent state) ++ dropEndingNewline (indentString (foldString string width) ind)
        | STYLE_DOUBLE => quote_double string
        end
  end.
