(* ===== verification/YamlDump.v ===== *)
(** * How js-yaml writes objects

    The second half of the dumper of js-yaml: objects and arrays may be met
    more than once and may contain themselves, so they are locations of a
    heap.  First the objects met twice are collected; then every value is
    written, the second time as a reference to the first. *)

From Stdlib Require Import String.
From S2P Require Import Prelude JsNumber JsString JsValue YamlTypes YamlText.

(** What is inside a cell, in the order of [Object.keys] or of the indices. *)
Definition children (c : cell) : list dval :=
  match c with CArr items => items | CObj properties => (for_in properties).*2 | CHost _ => [] end.

(** What the predicates of the types see of a value: its kind. *)
Definition seen (h : heap) (v : dval) : jsval :=
  match v with
  | DPrim v => v
  | DRef l => match h !! l with Some (CArr _) => VArr [] | Some (CHost v) => v | _ => VObj [] end
  end.

(** ** Duplicates

    [objects] are those met, [dups] the indices of those met again. *)
Fixpoint index_in (l : nat) (objects : list nat) : option nat :=
  match objects with
  | [] => None
  | o :: objects' => if bool_decide (o = l) then Some O else S <$> index_in l objects'
  end.

Definition seen_state : Type := (list nat * list nat)%type.
Fixpoint inspectNode (fuel : nat) (h : heap) (object : dval) (st : seen_state) : res seen_state :=
  match fuel with
  | O => Throw Unsupported
  | S f =>
      match object with
      | DPrim _ => Ok st
      | DRef l =>
          let '(objects, dups) := st in
          match index_in l objects with
          | Some i => Ok (objects, if bool_decide (i ∈ dups) then dups else dups ++ [i])
          | None =>
              foldM_res (fun st c => inspectNode f h c st) (objects ++ [l], dups)
                (match h !! l with Some c => children c | None => [] end)
          end
      end
  end.

Definition getDuplicateReferences (h : heap) (object : dval) : res (list nat) :=
  match inspectNode (S (S (length h))) h object ([], []) with
  | Ok (objects, dups) => Ok ((fun i => default O (objects !! i)) <$> dups)
  | Throw e => Throw e
  end.

(** ** Writing *)

(** The text of a value and the tag the dumper is left with. *)
Record written := Written { text : jsstr; wtag : option jsstr }.

(** Comparison of strings by their units. *)
Fixpoint str_leb (a b : jsstr) : bool :=
  match a, b with
  | [], _ => true
  | _ :: _, [] => false
  | x :: a', y :: b' => if x =? y then str_leb a' b' else x <? y
  end.

Section writing.
Context (h : heap) (state : dumper) (duplicates : list nat) (sortWith : list jsstr -> list jsstr).

(** A type that is detected: the value to be written in place of the object,
    and the tag. *)
Definition detected : Type := option (dval * jsstr).
Definition represent_with (type : ytype) (object : dval) : res dval :=
  let style := match assoc (tag type) (styleMap state) with
               | Some ((_ :: _) as s) => s | _ => defaultStyle type end in
  match represent type with
  | NoRepresent => Ok object
  | RepresentFun f => Ok (DPrim (f (seen h object) style))
  | RepresentStyles l =>
      match assoc style l with Some f => Ok (DPrim (f (seen h object))) | None => Throw ErrorMsg end
  end.
Fixpoint detectType (types : list ytype) (explicit : bool) (object : dval) : res detected :=
  match types with
  | [] => Ok None
  | type :: types' =>
      match predicate type with
      | Some p =>
          if p (seen h object) then
            v ← represent_with type object; Ok (Some (v, if explicit then tag type else js "?"))
          else detectType types' explicit object
      | None => detectType types' explicit object
      end
  end.

Definition is_tagged (t : option jsstr) : bool :=
  match t with Some t => negb (bool_decide (t = js "?")) | None => false end.

(** The keys of a mapping in the order they are written. *)
Fixpoint insert_key (k : jsstr) (l : list jsstr) : list jsstr :=
  match l with
  | [] => [k]
  | x :: l' => if str_leb k x then k :: l else x :: insert_key k l'
  end.
Definition ordered_keys (properties : list (jsstr * dval)) : res (list jsstr) :=
  let objectKeyList := (for_in properties).*1 in
  match sortKeys state with
  | VBool true => Ok (foldr insert_key [] objectKeyList)
  | VHost t _ => if bool_decide (t = js "function") then Ok (sortWith objectKeyList) else Throw ErrorMsg
  | v => if truthy v then Throw ErrorMsg else Ok objectKeyList
  end.

(** What the represent functions of the schemas give is text, so what is
    written is an object, text, or nothing that can be written. *)
Inductive kind_of := IsArray (items : list dval) | IsObject (properties : list (jsstr * dval)) | IsText (s : jsstr) | IsInvalid.
Definition dump_kind (v : dval) : kind_of :=
  match v with
  | DRef l => match h !! l with Some (CArr items) => IsArray items | Some (CObj o) => IsObject o | _ => IsInvalid end
  | DPrim (VStr s) => IsText s
  | DPrim _ => IsInvalid
  end.
Definition is_cell (k : kind_of) : bool := match k with IsArray _ | IsObject _ => true | _ => false end.

Definition ref_name (i : nat) : jsstr := js "ref_" ++ Z_to_str (Z.of_nat i).
Definition anchored (duplicate : option nat) (flow : bool) (s : jsstr) : jsstr :=
  match duplicate with Some i => js "&" ++ ref_name i ++ (if flow then js " " else []) ++ s | None => s end.

(** The writers, given how a node is written: its level, the value, [block],
    [compact] and [iskey].  The state is which duplicates were written. *)
Section writers.
Context (writeNode : Z -> dval -> bool -> bool -> bool -> ST (list bool) (option written)).

Fixpoint flow_items (level index : Z) (result : jsstr) (items : list dval) : ST (list bool) jsstr :=
  match items with
  | [] => mret result
  | item :: items' =>
      w ← writeNode level item false false false;
      flow_items level (index + 1)
        (match w with
         | Some w => result ++ (if index =? 0 then [] else js ", ") ++ text w
         | None => result
         end) items'
  end.
Definition writeFlowSequence (level : Z) (items : list dval) : ST (list bool) jsstr :=
  result ← flow_items level 0 [] items; mret (js "[" ++ result ++ js "]").

Fixpoint block_items (level : Z) (compact : bool) (index : Z) (result : jsstr) (items : list dval) : ST (list bool) jsstr :=
  match items with
  | [] => mret result
  | item :: items' =>
      w ← writeNode (level + 1) item true true false;
      block_items level compact (index + 1)
        (match w with
         | Some w => result ++ (if negb compact || negb (index =? 0) then generateNextLine state level else []) ++
                     js "- " ++ text w
         | None => result
         end) items'
  end.
Definition writeBlockSequence (level : Z) (items : list dval) (compact : bool) : ST (list bool) jsstr :=
  result ← block_items level compact 0 [] items;
  mret (match result with [] => js "[]" | _ => result end).

Definition flow_pair (level index : Z) (objectKey : jsstr) (objectValue : dval) : ST (list bool) jsstr :=
  let pairBuffer := if index =? 0 then [] else js ", " in
  k ← writeNode level (DPrim (VStr objectKey)) false false false;
  match k with
  | None => mret []
  | Some k =>
      let pairBuffer := pairBuffer ++ (if 1024 <? zlength (text k) then js "? " else []) ++ text k ++ js ": " in
      v ← writeNode level objectValue false false false;
      mret (match v with Some v => pairBuffer ++ text v | None => [] end)
  end.
Fixpoint flow_pairs (level index : Z) (result : jsstr) (pairs : list (jsstr * dval)) : ST (list bool) jsstr :=
  match pairs with
  | [] => mret result
  | (k, v) :: pairs' => b ← flow_pair level index k v; flow_pairs level (index + 1) (result ++ b) pairs'
  end.
Definition writeFlowMapping (level : Z) (properties : list (jsstr * dval)) : ST (list bool) jsstr :=
  result ← flow_pairs level 0 [] (for_in properties); mret (js "{" ++ result ++ js "}").

Definition starts_line (s : jsstr) : bool := match s with c :: _ => c =? NL | [] => false end.
Definition block_pair (level : Z) (compact : bool) (index : Z) (objectKey : jsstr) (objectValue : dval) : ST (list bool) jsstr :=
  let pairBuffer := if negb compact || negb (index =? 0) then generateNextLine state level else [] in
  k ← writeNode (level + 1) (DPrim (VStr objectKey)) true true true;
  match k with
  | None => mret []
  | Some k =>
      let explicitPair := is_tagged (wtag k) || (1024 <? zlength (text k)) in
      let pairBuffer := pairBuffer ++ (if explicitPair then (if starts_line (text k) then js "?" else js "? ") else []) ++
                        text k ++ (if explicitPair then generateNextLine state level else []) in
      v ← writeNode (level + 1) objectValue true explicitPair false;
      mret (match v with
            | Some v => pairBuffer ++ (if starts_line (text v) then js ":" else js ": ") ++ text v
            | None => []
            end)
  end.
Fixpoint block_pairs (level : Z) (compact : bool) (index : Z) (result : jsstr) (properties : list (jsstr * dval))
    (keys : list jsstr) : ST (list bool) jsstr :=
  match keys with
  | [] => mret result
  | k :: keys' =>
      b ← block_pair level compact index k (default (DPrim VUndef) (assoc k properties));
      block_pairs level compact (index + 1) (result ++ b) properties keys'
  end.
Definition writeBlockMapping (level : Z) (properties : list (jsstr * dval)) (compact : bool) : ST (list bool) jsstr :=
  keys ← lift (ordered_keys properties);
  result ← block_pairs level compact 0 [] properties keys;
  mret (match result with [] => js "{}" | _ => result end).

(** Writing what a value turned out to be. *)
Definition write_kind (level : Z) (block compact iskey : bool) (duplicate : option nat) (tag : option jsstr)
    (kind : kind_of) : ST (list bool) (option jsstr) :=
  match kind with
  | IsObject o =>
      if block && negb (bool_decide (o = [])) then
        s ← writeBlockMapping level o compact; mret (Some (anchored duplicate false s))
      else s ← writeFlowMapping level o; mret (Some (anchored duplicate true s))
  | IsArray items =>
      if block && negb (bool_decide (items = [])) then
        s ← writeBlockSequence level items compact; mret (Some (anchored duplicate false s))
      else s ← writeFlowSequence level items; mret (Some (anchored duplicate true s))
  | IsText s => mret (Some (if bool_decide (tag = Some (js "?")) then s else writeScalar state s level iskey))
  | IsInvalid => if skipInvalid state then mret None else lift (Throw ErrorMsg)
  end.

Definition write_detected (level : Z) (object : dval) (block compact iskey : bool) (d : detected) :
    ST (list bool) (option written) :=
  let dump := match d with Some (v, _) => v | None => object end in
  let tag := snd <$> d in
  let kind := dump_kind dump in
  let block := block && ((flowLevel state <? 0) || (level <? flowLevel state)) in
  let duplicate := if is_cell kind then match object with DRef l => index_in l duplicates | DPrim _ => None end else None in
  let compact := if is_tagged tag || (match duplicate with Some _ => true | None => false end) ||
                    (negb (indent state =? 2) && (0 <? level)) then false else compact in
  used ← gets (fun used => match duplicate with Some i => default false (used !! i) | None => false end);
  if used : bool then mret (Some (Written (js "*" ++ ref_name (default O duplicate)) tag))
  else
    _ ← modify (fun used => match duplicate with Some i => <[i := true]> used | None => used end);
    w ← write_kind level block compact iskey duplicate tag kind;
    mret (match w with
          | Some s => Some (Written (if is_tagged tag then js "!<" ++ default [] tag ++ js "> " ++ s else s) tag)
          | None => None
          end).
End writers.

(** The implicit types first, then the explicit ones. *)
Definition detect (object : dval) : res detected :=
  d ← detectType (implicitTypes state) false object;
  match d with Some _ => Ok d | None => detectType (explicitTypes state) true object end.

Fixpoint writeNode (fuel : nat) (level : Z) (object : dval) (block compact iskey : bool) : ST (list bool) (option written) :=
  match fuel with
  | O => lift (Throw Unsupported)
  | S f => d ← lift (detect object); write_detected (writeNode f) level object block compact iskey d
  end.
End writing.

(** ** [dump] *)

Section dump.
Context (sortWith : list jsstr -> list jsstr).

Definition dump (s : schema) (h : heap) (input : dval) (options : obj) : res jsstr :=
  let state := State s options in
  duplicates ← (if noRefs state then Ok [] else getDuplicateReferences h input);
  w ← (writeNode h state duplicates sortWith (S (S (length h))) 0 input true true false (repeat false (length duplicates))).2;
  Ok (match w with Some w => text w ++ [NL] | None => [] end).

Context (parseFloat : jsstr -> jsnum) (negate : jsnum -> jsnum) (sum60 : list jsnum -> jsnum).
Definition safeDump (h : heap) (input : dval) (options : obj) : res jsstr :=
  dump (DEFAULT_SAFE parseFloat negate sum60) h input options.
End dump.

(** ** Writing ends

    A location is called for by [inspectNode] once for the root and once for
    each time it is inside a location it has met; [calls] are these calls. *)
Definition refs (l : list dval) : list nat := omap (fun v => match v with DRef l => Some l | DPrim _ => None end) l.
Definition cell_refs (h : heap) (l : nat) : list nat := match h !! l with Some c => refs (children c) | None => [] end.
Definition calls_of (h : heap) (objects : list nat) : list nat := List.concat (cell_refs h <$> objects).
Abbreviation count := (count_occ Nat.eq_dec).

Definition accounted (objects dups calls : list nat) : Prop :=
  (forall l, l ∈ calls -> exists i, index_in l objects = Some i) /\
  (forall l i, index_in l objects = Some i -> (2 <= count calls l)%nat -> i ∈ dups).

Lemma index_in_app l o o' : index_in l (o ++ o') =
  match index_in l o with Some i => Some i | None => (fun i => (length o + i)%nat) <$> index_in l o' end.
Proof.
  induction o as [|x o IH]; cbn [index_in app length].
  - by destruct (index_in l o').
  - case_bool_decide; [done|]. rewrite IH. destruct (index_in l o); [done|]. by destruct (index_in l o').
Qed.
Lemma index_in_none l o : index_in l o = None <-> l ∉ o.
Proof.
  induction o as [|x o IH]; cbn [index_in]; [split; [intros _; apply not_elem_of_nil|done]|].
  rewrite not_elem_of_cons. case_bool_decide as H; [by split; [|intros [? _]]|].
  rewrite <- IH. destruct (index_in l o); cbn; split; [done|by intros [_ ?]|by split; [congruence|]|done].
Qed.
Lemma index_in_some l o i : index_in l o = Some i -> o !! i = Some l.
Proof.
  revert i. induction o as [|x o IH]; intros i H; cbn [index_in] in H; [done|]. case_bool_decide; [by simplify_eq|].
  destruct (index_in l o) eqn:E; [|done]. cbn in H. simplify_eq. by apply IH.
Qed.

Lemma count_perm (a b : list nat) l : a ≡ₚ b -> count a l = count b l.
Proof. intros H. by apply Permutation_count_occ. Qed.

Lemma accounted_known objects dups calls l i :
  accounted objects dups calls -> index_in l objects = Some i ->
  accounted objects (if bool_decide (i ∈ dups) then dups else dups ++ [i]) (calls ++ [l]).
Proof.
  intros [H1 H2] Hi. split.
  - intros k [Hk|Hk%list_elem_of_singleton]%elem_of_app; [by apply H1|subst k; by exists i].
  - intros k j Hj Hc. destruct (decide (k = l)) as [->|Hne].
    + rewrite Hi in Hj. injection Hj as <-. case_bool_decide; [done|]. apply elem_of_app. right. by left.
    + rewrite count_occ_app in Hc. cbn in Hc. destruct (Nat.eq_dec l k); [congruence|]. rewrite Nat.add_0_r in Hc.
      specialize (H2 k j Hj Hc). case_bool_decide; [done|]. apply elem_of_app. by left.
Qed.
Lemma accounted_new objects dups calls l :
  accounted objects dups calls -> index_in l objects = None -> accounted (objects ++ [l]) dups (calls ++ [l]).
Proof.
  intros [H1 H2] Hi. split.
  - intros k [Hk|Hk%list_elem_of_singleton]%elem_of_app; [|subst k].
    + destruct (H1 k Hk) as [i E]. exists i. by rewrite index_in_app, E.
    + exists (length objects). rewrite index_in_app, Hi. cbn. rewrite bool_decide_eq_true_2 by done. cbn. f_equal. lia.
  - intros k j Hj Hc. rewrite index_in_app in Hj. rewrite count_occ_app in Hc. cbn in Hc.
    destruct (index_in k objects) as [i|] eqn:E.
    + injection Hj as <-. apply (H2 k i E). destruct (Nat.eq_dec l k); [congruence|lia].
    + assert (Hn : count calls k = O).
      { apply count_occ_not_In. intros Hin%list_elem_of_In. destruct (H1 k Hin). congruence. }
      destruct (Nat.eq_dec l k); lia.
Qed.

Lemma inspect_accounted h f : forall v objects dups calls objects' dups',
  inspectNode f h v (objects, dups) = Ok (objects', dups') -> accounted objects dups calls ->
  exists new calls', objects' = objects ++ new /\ accounted objects' dups' (calls ++ calls') /\
    calls' ≡ₚ refs [v] ++ calls_of h new.
Proof.
  induction f as [|f IH]; intros v objects dups calls objects' dups' H Ha; cbn [inspectNode] in H; [done|].
  destruct v as [p|l].
  - simplify_eq. exists [], []. rewrite !app_nil_r. done.
  - destruct (index_in l objects) as [i|] eqn:Ei.
    + simplify_eq. exists [], [l]. rewrite app_nil_r. split; [done|]. split; [by apply accounted_known|done].
    + assert (Hl : forall vs o d c o' d', foldM_res (fun st c => inspectNode f h c st) (o, d) vs = Ok (o', d') ->
        accounted o d c -> exists new calls', o' = o ++ new /\ accounted o' d' (c ++ calls') /\ calls' ≡ₚ refs vs ++ calls_of h new).
      { clear H Ha Ei. induction vs as [|v vs IHv]; intros o d c o' d' H Ha; cbn [foldM_res] in H.
        - simplify_eq. exists [], []. rewrite !app_nil_r. done.
        - destruct (inspectNode f h v (o, d)) as [[o1 d1]|] eqn:E; [|done]. cbn [mbind res_bind] in H.
          destruct (IH _ _ _ _ _ _ E Ha) as (n1 & c1 & -> & Ha1 & P1).
          destruct (IHv _ _ _ _ _ H Ha1) as (n2 & c2 & -> & Ha2 & P2).
          exists (n1 ++ n2), (c1 ++ c2). rewrite !app_assoc. split; [done|]. split; [done|].
          rewrite P1, P2. unfold calls_of. rewrite fmap_app, List.concat_app. change (refs (v :: vs)) with (refs ([v] ++ vs)).
          unfold refs. rewrite omap_app. solve_Permutation. }
      destruct (Hl _ _ _ (calls ++ [l]) _ _ H (accounted_new _ _ _ _ Ha Ei)) as (new & calls' & -> & Ha' & P).
      exists (l :: new), (l :: calls'). split; [by rewrite <- app_assoc|].
      split; [by rewrite <- (app_assoc calls) in Ha'|]. unfold calls_of, cell_refs in *. cbn. rewrite P. by destruct (h !! l).
Qed.

(** The locations of the heap that are not yet met. *)
Definition unmet (h : heap) (objects : list nat) : nat := length (filter (fun l => l ∉ objects) (seq 0 (length h))).
Lemma unmet_le h o o' : o ⊆ o' -> (unmet h o' <= unmet h o)%nat.
Proof.
  intros Hs. unfold unmet. induction (seq 0 (length h)) as [|x l IH]; [done|]. rewrite !filter_cons.
  repeat case_decide; cbn [length]; try lia. exfalso. auto.
Qed.
Lemma unmet_lt h o l : (l < length h)%nat -> l ∉ o -> (unmet h (o ++ [l]) < unmet h o)%nat.
Proof.
  intros Hl Ho. unfold unmet. assert (Hin : l ∈ seq 0 (length h)) by (apply elem_of_seq; lia).
  induction (seq 0 (length h)) as [|x s IH]; [by apply not_elem_of_nil in Hin|]. rewrite !filter_cons.
  assert (Hle : (length (filter (fun k => k ∉ o ++ [l]) s) <= length (filter (fun k => k ∉ o) s))%nat).
  { clear. induction s as [|y s IH]; [done|]. rewrite !filter_cons. repeat case_decide; cbn [length]; try lia.
    exfalso. rewrite elem_of_app in *. tauto. }
  apply elem_of_cons in Hin as [<-|Hin].
  - rewrite decide_False by (rewrite elem_of_app, list_elem_of_singleton; tauto). rewrite decide_True by done. cbn [length]. lia.
  - specialize (IH Hin). repeat case_decide; cbn [length]; try lia. exfalso. rewrite elem_of_app in *. tauto.
Qed.

Lemma inspect_ends h f : forall v objects dups, (unmet h objects + 2 <= f)%nat ->
  exists objects' dups', inspectNode f h v (objects, dups) = Ok (objects', dups') /\ objects ⊆ objects'.
Proof.
  induction f as [|f IH]; intros v objects dups Hf; [lia|]. cbn [inspectNode]. destruct v as [p|l]; [by eauto|].
  destruct (index_in l objects) as [i|] eqn:Ei; [by eauto|].
  assert (Hl : forall vs o d, (vs = [] \/ unmet h o + 2 <= f)%nat -> exists o' d',
    foldM_res (fun st c => inspectNode f h c st) (o, d) vs = Ok (o', d') /\ o ⊆ o').
  { induction vs as [|v vs IHv]; intros o d Ho; cbn [foldM_res]; [by eauto|]. destruct Ho as [|Ho]; [done|].
    destruct (IH v o d Ho) as (o1 & d1 & -> & H1). cbn [mbind res_bind].
    destruct (IHv o1 d1) as (o2 & d2 & E & H2); [right; pose proof (unmet_le h o o1 H1); lia|].
    exists o2, d2. split; [done|]. by etransitivity. }
  destruct (Hl (match h !! l with Some c => children c | None => [] end) (objects ++ [l]) dups) as (o' & d' & E & H).
  - destruct (h !! l) as [c|] eqn:El; [right|by left]. apply lookup_lt_Some in El.
    apply index_in_none in Ei. pose proof (unmet_lt h objects l El Ei). lia.
  - exists o', d'. split; [exact E|]. intros x Hx. apply H, elem_of_app. by left.
Qed.
Lemma unmet_nil h : unmet h [] = length h.
Proof.
  unfold unmet. rewrite <- (length_seq (length h) 0) at 2. f_equal. induction (seq 0 (length h)) as [|x l IH]; [done|].
  rewrite filter_cons_True by apply not_elem_of_nil. by rewrite IH.
Qed.

(** What [getDuplicateReferences] finds: the locations met, closed under
    contents, so that a location called for twice is a duplicate. *)
Definition covers (h : heap) (root : dval) (objects duplicates : list nat) : Prop :=
  (forall l, l ∈ refs [root] ++ calls_of h objects -> l ∈ objects) /\
  (forall l, (2 <= count (refs [root] ++ calls_of h objects) l)%nat -> l ∈ duplicates).
Lemma getDuplicateReferences_covers h root : exists objects duplicates,
  getDuplicateReferences h root = Ok duplicates /\ covers h root objects duplicates.
Proof.
  destruct (inspect_ends h (S (S (length h))) root [] []) as (objects & dups & E & _); [rewrite unmet_nil; lia|].
  destruct (inspect_accounted _ _ _ _ _ [] _ _ E) as (new & calls & -> & [H1 H2] & P).
  { split; [by intros l ?%not_elem_of_nil|]. intros l i. cbn. lia. }
  cbn [app] in *. exists new, ((fun i => default O (new !! i)) <$> dups).
  unfold getDuplicateReferences. rewrite E. split; [done|]. split.
  - intros l Hl. rewrite <- P in Hl. destruct (H1 l Hl) as [i Hi]. by eapply list_elem_of_lookup_2, index_in_some.
  - intros l Hl. rewrite <- (count_perm _ _ l P) in Hl. destruct (H1 l) as [i Hi].
    { apply list_elem_of_In, (count_occ_In Nat.eq_dec). lia. }
    apply list_elem_of_fmap. exists i. split; [by rewrite (index_in_some _ _ _ Hi)|]. by eapply H2.
Qed.

(** ** The path to what is being written *)

Section ends.
Context (h : heap) (state : dumper) (root : dval) (objects duplicates : list nat) (sortWith : list jsstr -> list jsstr).
Hypothesis Hcovers : covers h root objects duplicates.

(** The locations around a value, the nearest first. *)
Fixpoint chain (path : list nat) (v : dval) : Prop :=
  match path with
  | [] => v = root
  | p :: path' => (exists c, h !! p = Some c /\ v ∈ children c) /\ chain path' (DRef p)
  end.

Lemma refs_in l vs : l ∈ refs vs <-> DRef l ∈ vs.
Proof.
  unfold refs. rewrite list_elem_of_omap. split; [intros ([p|k] & H & E); simplify_eq; done|by exists (DRef l)].
Qed.
Lemma chain_ref p path l : chain (p :: path) (DRef l) -> l ∈ cell_refs h p.
Proof. intros [(c & E & H) _]. unfold cell_refs. rewrite E. by apply refs_in. Qed.
Lemma called l p : p ∈ objects -> l ∈ cell_refs h p -> l ∈ calls_of h objects.
Proof. intros Hp Hl. unfold calls_of. apply list_elem_of_In, in_concat. exists (cell_refs h p). split; apply list_elem_of_In; [|done]. apply list_elem_of_fmap. eauto. Qed.
Lemma chain_met path : forall l, chain path (DRef l) -> l ∈ objects /\ path ⊆ objects.
Proof.
  induction path as [|p path IH]; intros l H.
  - split; [|intros x Hx; by apply not_elem_of_nil in Hx]. apply (proj1 Hcovers), elem_of_app. left. apply refs_in. cbn in H.
    rewrite <- H. by left.
  - destruct (IH p (proj2 H)) as [Hp Hs]. split.
    + apply (proj1 Hcovers), elem_of_app. right. eapply called; [exact Hp|]. by eapply chain_ref.
    + intros x [->|Hx]%elem_of_cons; auto.
Qed.
Lemma chain_suffix path1 l path2 : forall v, chain (path1 ++ l :: path2) v -> chain path2 (DRef l).
Proof. induction path1 as [|p path1 IH]; intros v [_ H]; [done|]. by apply (IH (DRef p)). Qed.

Lemma count_pos (k : list nat) l : l ∈ k -> (1 <= count k l)%nat.
Proof. intros H. apply list_elem_of_In, (count_occ_In Nat.eq_dec) in H. lia. Qed.
Lemma called_twice l p q : p ∈ objects -> q ∈ objects -> p <> q -> l ∈ cell_refs h p -> l ∈ cell_refs h q ->
  (2 <= count (calls_of h objects) l)%nat.
Proof.
  intros Hp Hq Hne Lp Lq. apply list_elem_of_split in Hp as (a & b & E). unfold calls_of. rewrite E in *.
  rewrite fmap_app, fmap_cons, List.concat_app, count_occ_app. cbn [List.concat]. rewrite count_occ_app.
  pose proof (count_pos _ _ Lp). apply elem_of_app in Hq as [Hq|Hq].
  - assert (l ∈ List.concat (cell_refs h <$> a)) as Hc%count_pos; [|lia].
    apply list_elem_of_In, in_concat. exists (cell_refs h q). split; apply list_elem_of_In; [apply list_elem_of_fmap; eauto|done].
  - apply elem_of_cons in Hq as [->|Hq]; [done|].
    assert (l ∈ List.concat (cell_refs h <$> b)) as Hc%count_pos; [|lia].
    apply list_elem_of_In, in_concat. exists (cell_refs h q). split; apply list_elem_of_In; [apply list_elem_of_fmap; eauto|done].
Qed.

(** What is inside itself is a duplicate. *)
Lemma repeated path l : chain path (DRef l) -> NoDup path -> l ∈ path -> l ∈ duplicates.
Proof.
  intros Hc Hn Hl. apply (proj2 Hcovers). rewrite count_occ_app. apply list_elem_of_split in Hl as (path1 & path2 & E).
  subst path. pose proof (chain_suffix _ _ _ _ Hc) as Hl. destruct (chain_met _ _ Hc) as [Ho Hs].
  assert (Hp : exists p path', path1 ++ l :: path2 = p :: path' /\ p ∉ path2).
  { apply NoDup_app in Hn as (_ & Hd & Hn2). destruct path1 as [|p path1].
    - exists l, path2. split; [done|]. by apply NoDup_cons in Hn2 as [? _].
    - exists p, (path1 ++ l :: path2). split; [done|]. specialize (Hd p ltac:(by left)). intros Hp. apply Hd. by right. }
  destruct Hp as (p & path' & E & Hp). rewrite E in Hc, Hs. pose proof (chain_ref _ _ _ Hc) as Lp.
  assert (Po : p ∈ objects) by (apply Hs; by left). destruct path2 as [|q path2].
  - cbn in Hl. assert (Hr : l ∈ refs [root]) by (rewrite <- Hl; apply refs_in; by left).
    pose proof (count_pos _ _ Hr). pose proof (count_pos _ _ (called _ _ Po Lp)). lia.
  - pose proof (chain_ref _ _ _ Hl) as Lq. apply not_elem_of_cons in Hp as [Hp _].
    assert (Qo : q ∈ objects) by (rewrite <- E in Hs; apply Hs, elem_of_app; right; right; by left).
    pose proof (called_twice l p q Po Qo Hp Lp Lq). lia.
Qed.

(** Computations that do not run out of fuel, when the duplicates around are
    marked, and that take no mark away. *)
Definition marked (path : list nat) (used : list bool) : Prop :=
  length used = length duplicates /\
  forall p i, p ∈ path -> index_in p duplicates = Some i -> used !! i = Some true.
Definition keeps_marks (used used' : list bool) : Prop :=
  length used' = length used /\ forall i, used !! i = Some true -> used' !! i = Some true.
Definition ok {A} (path : list nat) (m : ST (list bool) A) : Prop :=
  forall used, marked path used -> not_fuel (m used).2 /\ keeps_marks used (m used).1.

Lemma marked_keep path used used' : marked path used -> keeps_marks used used' -> marked path used'.
Proof. intros [H1 H2] [H3 H4]. split; [congruence|]. eauto. Qed.
Lemma keeps_marks_trans a b c : keeps_marks a b -> keeps_marks b c -> keeps_marks a c.
Proof. intros [H1 H2] [H3 H4]. split; [congruence|]. eauto. Qed.

Lemma ok_lift {A} path (r : res A) : not_fuel r -> ok path (lift r).
Proof. intros H used _. by split. Qed.
Lemma ok_ret {A} path (a : A) : ok path (mret a).
Proof. by apply ok_lift. Qed.
Lemma ok_gets {A} path (f : list bool -> A) : ok path (gets f).
Proof. intros used _. by split. Qed.
Lemma ok_bind {A B} path (m : ST (list bool) A) (f : A -> ST (list bool) B) :
  ok path m -> (forall a, ok path (f a)) -> ok path (m ≫= f).
Proof.
  intros Hm Hf used Hu. destruct (Hm used Hu) as [H1 H2]. unfold mbind, st_bind.
  destruct (m used) as [used' [a|e]]; [|split; [intros E; apply H1; cbn in *; congruence|done]].
  destruct (Hf a used') as [H3 H4]; [by eapply marked_keep|]. split; [done|]. by eapply keeps_marks_trans.
Qed.

Section writers_ok.
Context (path : list nat) (wn : Z -> dval -> bool -> bool -> bool -> ST (list bool) (option written)) (vs : list dval).
Hypothesis Hprim : forall level p b c k, ok path (wn level (DPrim p) b c k).
Hypothesis Hvs : forall level v b c k, v ∈ vs -> ok path (wn level v b c k).

Lemma flow_items_ok level items : items ⊆ vs -> forall index result, ok path (flow_items wn level index result items).
Proof.
  induction items as [|v items IH]; intros Hs index result; [apply ok_ret|]. cbn [flow_items].
  apply ok_bind; [apply Hvs, Hs; by left|]. intros w. apply IH. intros x Hx. apply Hs. by right.
Qed.
Lemma block_items_ok level compact items : items ⊆ vs -> forall index result, ok path (block_items state wn level compact index result items).
Proof.
  induction items as [|v items IH]; intros Hs index result; [apply ok_ret|]. cbn [block_items].
  apply ok_bind; [apply Hvs, Hs; by left|]. intros w. apply IH. intros x Hx. apply Hs. by right.
Qed.
Lemma flow_pairs_ok level pairs : pairs.*2 ⊆ vs -> forall index result, ok path (flow_pairs wn level index result pairs).
Proof.
  induction pairs as [|[k v] pairs IH]; intros Hs index result; [apply ok_ret|]. cbn [flow_pairs].
  apply ok_bind; [|intros w; apply IH; intros x Hx; apply Hs; by right].
  unfold flow_pair. apply ok_bind; [apply Hprim|]. intros [kw|]; [|apply ok_ret].
  apply ok_bind; [apply Hvs, Hs; by left|]. intros; apply ok_ret.
Qed.
Lemma block_pairs_ok level compact properties keys : properties.*2 ⊆ vs ->
  forall index result, ok path (block_pairs state wn level compact index result properties keys).
Proof.
  intros Hs. induction keys as [|k keys IH]; intros index result; [apply ok_ret|]. cbn [block_pairs].
  apply ok_bind; [|intros w; apply IH]. unfold block_pair. apply ok_bind; [apply Hprim|]. intros [kw|]; [|apply ok_ret].
  apply ok_bind; [|intros; apply ok_ret]. destruct (assoc k properties) as [v|] eqn:E; [|apply Hprim].
  apply Hvs, Hs, list_elem_of_fmap. exists (k, v). split; [done|]. by apply assoc_some_in.
Qed.
End writers_ok.

Lemma detectType_not_fuel types explicit v : not_fuel (detectType h state types explicit v).
Proof.
  induction types as [|t types IH]; [done|]. cbn [detectType]. destruct (predicate t) as [p|]; [|done].
  destruct (p (seen h v)); [|done]. apply not_fuel_bind; [|done]. unfold represent_with. destruct (represent t); [done..|].
  by case_match.
Qed.
Lemma detected_value types explicit v v' t : detectType h state types explicit v = Ok (Some (v', t)) -> v' = v \/ exists p, v' = DPrim p.
Proof.
  induction types as [|ty types IH]; cbn [detectType]; [done|]. destruct (predicate ty) as [p|]; [|done].
  destruct (p (seen h v)); [|done]. destruct (represent_with h state ty v) as [w|] eqn:E; [|done]. cbn.
  intros [= <- _]. unfold represent_with in E. destruct (represent ty) as [|f|l].
  - left. congruence.
  - right. injection E as <-. eauto.
  - right. destruct (assoc _ l); [injection E as <-; eauto|done].
Qed.
Lemma ordered_keys_not_fuel o : not_fuel (ordered_keys state sortWith o).
Proof. unfold ordered_keys. repeat case_match; done. Qed.

Lemma ok_bind_lift {A B} path (r : res A) (f : A -> ST (list bool) B) :
  not_fuel r -> (forall a, r = Ok a -> ok path (f a)) -> ok path (lift r ≫= f).
Proof.
  intros Hr Hf used Hu. unfold mbind, st_bind, lift. destruct r as [a|e]; [by apply (Hf a)|].
  split; [intros E; apply Hr; cbn in E; congruence|done].
Qed.

Lemma path_length path : NoDup path -> (forall p, p ∈ path -> (p < length h)%nat) -> (length path <= length h)%nat.
Proof.
  intros Hn Hp. rewrite <- (length_seq (length h) 0). apply submseteq_length, NoDup_submseteq; [done|].
  intros p Hin. apply elem_of_seq. specialize (Hp p Hin). lia.
Qed.

Definition kind_children (kind : kind_of) : list dval :=
  match kind with IsArray items => items | IsObject o => (for_in o).*2 | _ => [] end.

Lemma write_kind_ok path wn level block compact iskey duplicate tag kind :
  (forall level p b c k, ok path (wn level (DPrim p) b c k)) ->
  (forall level v b c k, v ∈ kind_children kind -> ok path (wn level v b c k)) ->
  ok path (write_kind state sortWith wn level block compact iskey duplicate tag kind).
Proof.
  intros Hp Hv. destruct kind as [items|o|s|]; cbn [write_kind kind_children] in *.
  - destruct (block && _); (apply ok_bind; [|intros; apply ok_ret]).
    + apply ok_bind; [by apply (block_items_ok path wn items)|intros; apply ok_ret].
    + apply ok_bind; [by apply (flow_items_ok path wn items)|intros; apply ok_ret].
  - destruct (block && _); (apply ok_bind; [|intros; apply ok_ret]).
    + apply ok_bind_lift; [apply ordered_keys_not_fuel|]. intros keys _. apply ok_bind; [|intros; apply ok_ret].
      apply (block_pairs_ok path wn (for_in o).*2); [done..|]. intros x (kv & -> & Hx)%list_elem_of_fmap.
      apply list_elem_of_fmap. exists kv. by rewrite for_in_elem.
    + apply ok_bind; [by apply (flow_pairs_ok path wn (for_in o).*2)|intros; apply ok_ret].
  - apply ok_ret.
  - destruct (skipInvalid state); [apply ok_ret|by apply ok_lift].
Qed.

Lemma dump_cell v d : is_cell (dump_kind h v) = true -> (v = d \/ exists p, v = DPrim p) ->
  exists l c, d = DRef l /\ v = DRef l /\ h !! l = Some c /\ kind_children (dump_kind h v) = children c.
Proof.
  intros Hc [->|(p & ->)]; [|by destruct p]. destruct d as [p|l]; [by destruct p|]. cbn in *.
  destruct (h !! l) as [[items|o|w]|] eqn:E; [| |done..]; do 2 eexists; done.
Qed.

Lemma detect_not_fuel v : not_fuel (detect h state v).
Proof. apply not_fuel_bind; [apply detectType_not_fuel|]. intros [d|] _; [done|apply detectType_not_fuel]. Qed.
Lemma detect_value v d : detect h state v = Ok d ->
  match d with Some (v', _) => v' | None => v end = v \/ exists p, match d with Some (v', _) => v' | None => v end = DPrim p.
Proof.
  unfold detect. intros (d1 & E1 & E)%bind_ok. destruct d1 as [[v' t]|].
  - injection E as <-. by eapply detected_value.
  - destruct d as [[v' t]|]; [by eapply detected_value|by left].
Qed.

Lemma index_in_lt l o i : index_in l o = Some i -> (i < length o)%nat.
Proof. intros H%index_in_some. by apply lookup_lt_Some in H. Qed.

(** Marking a location that is a duplicate. *)
Definition mark (duplicate : option nat) (used : list bool) : list bool :=
  match duplicate with Some i => <[i := true]> used | None => used end.
Lemma mark_keeps duplicate used : keeps_marks used (mark duplicate used).
Proof.
  destruct duplicate as [i|]; [|done]. split; [apply length_insert|]. intros j Hj. cbn.
  destruct (decide (i = j)) as [->|]; [|by rewrite list_lookup_insert_ne].
  rewrite list_lookup_insert_eq; [done|by apply lookup_lt_Some in Hj].
Qed.
Lemma mark_marked path l used : marked path used -> marked (l :: path) (mark (index_in l duplicates) used).
Proof.
  intros Hm. destruct (mark_keeps (index_in l duplicates) used) as [Hk1 Hk2]. destruct Hm as [H1 H2]. split; [congruence|].
  intros p i [->|Hp]%elem_of_cons Hi; [|by apply Hk2, (H2 p)]. rewrite Hi. cbn. apply list_lookup_insert_eq.
  rewrite H1. by eapply index_in_lt.
Qed.

(** What is around a location is not the location, or the location is a
    duplicate that is marked. *)
Lemma not_around path l used : chain path (DRef l) -> NoDup path -> marked path used ->
  match index_in l duplicates with Some i => default false (used !! i) | None => false end = false -> l ∉ path.
Proof.
  intros Hc Hn [_ Hm] Hu Hl. pose proof (repeated path l Hc Hn Hl) as Hd.
  destruct (index_in l duplicates) as [i|] eqn:E; [|by apply index_in_none in E].
  by rewrite (Hm l i Hl E) in Hu.
Qed.

Lemma run_gets {A B} (g : list bool -> A) (f : A -> ST (list bool) B) used : (gets g ≫= f) used = f (g used) used.
Proof. done. Qed.
Lemma run_modify {B} (g : list bool -> list bool) (f : unit -> ST (list bool) B) used : (modify g ≫= f) used = f tt (g used).
Proof. done. Qed.

Lemma write_detected_ok wn path v d : detect h state v = Ok d -> NoDup path ->
  (match v with DRef _ => chain path v | DPrim _ => True end) ->
  (forall l c, v = DRef l -> h !! l = Some c -> l ∉ path -> forall level v' b c' k, v' ∈ children c -> ok (l :: path) (wn level v' b c' k)) ->
  (forall l c, v = DRef l -> h !! l = Some c -> l ∉ path -> forall level p b c k, ok (l :: path) (wn level (DPrim p) b c k)) ->
  forall level b c k, ok path (write_detected h state duplicates sortWith wn level v b c k d).
Proof.
  intros Hd Hn Hc Hsub Hprim level b c k used Hu. unfold write_detected. cbv zeta.
  set (dv := match d with Some (v', _) => v' | None => v end).
  set (duplicate := if is_cell (dump_kind h dv) then match v with DRef l => index_in l duplicates | DPrim _ => None end else None).
  rewrite run_gets. destruct (match duplicate with Some i => default false (used !! i) | None => false end) eqn:Eu.
  { by apply (ok_ret path). }
  rewrite run_modify. fold (mark duplicate used).
  match goal with |- not_fuel (?m _).2 /\ _ => set (rest := m) end.
  enough (Hr : not_fuel (rest (mark duplicate used)).2 /\ keeps_marks (mark duplicate used) (rest (mark duplicate used)).1).
  { destruct Hr as [Hr1 Hr2]. split; [exact Hr1|]. eapply keeps_marks_trans; [apply mark_keeps|exact Hr2]. }
  enough (Hr : exists path', marked path' (mark duplicate used) /\ ok path' rest) by (destruct Hr as (path' & Hm & Hr); by apply Hr).
  destruct (is_cell (dump_kind h dv)) eqn:Ec.
  - destruct (dump_cell dv v Ec (detect_value v d Hd)) as (l & ce & Ev & Edv & El & Ek). subst v. exists (l :: path).
    assert (Hl : l ∉ path) by by apply (not_around path l used).
    split; [by apply mark_marked|]. apply ok_bind; [|intros; apply ok_ret]. apply write_kind_ok; [by apply (Hprim l ce)|].
    intros level' v' b' c' k' Hv'. apply (Hsub l ce); [done..|by rewrite <- Ek].
  - exists path. split; [exact Hu|]. apply ok_bind; [|intros; apply ok_ret].
    destruct (dump_kind h dv); [done|done|apply ok_ret|]. cbn [write_kind].
    destruct (skipInvalid state); [apply ok_ret|by apply ok_lift].
Qed.

(** A node is written with fuel for the locations that are not around it. *)
Lemma write_ok f : forall path v,
  match v with DRef _ => chain path v /\ (S (S (length h)) <= f + length path)%nat | DPrim _ => (0 < f)%nat end ->
  NoDup path -> (forall p, p ∈ path -> (p < length h)%nat) ->
  forall level b c k, ok path (writeNode h state duplicates sortWith f level v b c k).
Proof.
  induction f as [|f IH]; intros path v Hv Hn Hp level b c k.
  { destruct v as [p|l]; [lia|]. pose proof (path_length path Hn Hp). lia. }
  cbn [writeNode]. apply ok_bind_lift; [apply detect_not_fuel|]. intros d Hd.
  apply write_detected_ok; [done|done|by destruct v as [|l]; [|destruct Hv]| |].
  - intros l ce -> El Hl level' v' b' c' k' Hv'. destruct Hv as [Hc Hf]. pose proof (lookup_lt_Some _ _ _ El) as Hlt.
    pose proof (path_length path Hn Hp). apply IH.
    + destruct v' as [p|l']; [lia|]. cbn [chain length]. split; [split; [by exists ce|done]|lia].
    + by apply NoDup_cons.
    + intros p [->|Hin]%elem_of_cons; [done|by apply Hp].
  - intros l ce -> El Hl level' p b' c' k'. destruct Hv as [Hc Hf]. pose proof (lookup_lt_Some _ _ _ El) as Hlt.
    pose proof (path_length path Hn Hp). apply (IH (l :: path) (DPrim p)); [lia|by apply NoDup_cons|].
    intros q [->|Hin]%elem_of_cons; [done|by apply Hp].
Qed.
End ends.


(** An object inside itself and a list in it twice. *)
Definition cyclic : heap :=
  [CObj [(js "name", DPrim (vstr "it's")); (js "self", DRef 0); (js "tags", DRef 1); (js "more", DRef 1)];
   CArr [DPrim (vint 7); DPrim (vstr "7"); DRef 0]].
Definition no_floats {A} (a : A) : jsnum := NNaN.
Example dump_cyclic :
  safeDump (fun l => l) no_floats no_floats no_floats cyclic (DRef 0) [(js "flowLevel", vint 0)] =
  Ok (js "&ref_0 {name: it's, self: *ref_0, tags: &ref_1 [7, '7', *ref_0], more: *ref_1}" ++ [NL]).
Proof. vm_compute. reflexivity. Qed.

(** A date is an object: one in a list twice counts, and the list met after it
    is the second duplicate. *)
Example dump_dates :
  safeDump (fun l => l) no_floats no_floats no_floats
    [CArr [DRef 1; DRef 1; DRef 2; DRef 2]; CHost (VHost (js "Date") (js "0")); CArr []] (DRef 0) [(js "flowLevel", vint 0)] =
  Ok (js "[1970-01-01T00:00:00.000Z, 1970-01-01T00:00:00.000Z, &ref_1 [], *ref_1]" ++ [NL]).
Proof. vm_compute. reflexivity. Qed.

(** ** What the code does otherwise than meant *)

(** A first element that is left out leaves its comma. *)
Example skipped_comma :
  let dump h := safeDump (fun l => l) no_floats no_floats no_floats h (DRef 0)
                  [(js "flowLevel", vint 0); (js "skipInvalid", VBool true)] in
  dump [CArr [DPrim VUndef; DPrim (vint 1)]] = Ok (js "[, 1]" ++ [NL]) /\
  dump [CObj [(js "a", DPrim VUndef); (js "b", DPrim (vint 1))]] = Ok (js "{, b: 1}" ++ [NL]).
Proof. vm_compute. split; reflexivity. Qed.
