(* ===== verification/YamlLoad.v ===== *)
(** * Loading YAML

    The parser of js-yaml in swagger-ui.js.  It walks over the text with a
    position, the line and its indentation; the node being read is kept in
    the state (tag, anchor, kind, result), as are the anchors, the tags and
    the documents.  Arrays and objects are locations of a heap, so that an
    alias is the object of its anchor.

    The text ends with a NUL character.  Reading beyond it gives NaN in the
    code and -1 here.  A callback [listener] is not modelled; the warnings
    for [onWarning] are collected. *)

From Stdlib Require Import String.
From S2P Require Import Prelude JsNumber JsString JsValue Regex YamlTypes YamlText.

(** ** Characters *)

Definition is_EOL (c : Z) : bool := (c =? 10) || (c =? 13).
Definition is_WHITE_SPACE (c : Z) : bool := (c =? 9) || (c =? 32).
Definition is_WS_OR_EOL (c : Z) : bool := (c =? 9) || (c =? 32) || (c =? 10) || (c =? 13).
Definition is_FLOW_INDICATOR (c : Z) : bool := char_in (js ",[]{}") c.
Definition fromHexCode (c : Z) : Z :=
  if (48 <=? c) && (c <=? 57) then c - 48
  else let lc := Z.lor c 32 in if (97 <=? lc) && (lc <=? 102) then lc - 97 + 10 else -1.
Definition escapedHexLen (c : Z) : nat := if c =? chr "x" then 2 else if c =? chr "u" then 4 else if c =? chr "U" then 8 else O.
Definition fromDecimalCode (c : Z) : Z := if (48 <=? c) && (c <=? 57) then c - 48 else -1.
Definition simple_escapes : list (Z * Z) :=
  [(chr "0", 0); (chr "a", 7); (chr "b", 8); (chr "t", 9); (9, 9); (chr "n", 10); (chr "v", 11); (chr "f", 12); (chr "r", 13);
   (chr "e", 27); (32, 32); (34, 34); (chr "/", chr "/"); (92, 92); (chr "N", 133); (chr "_", 160); (chr "L", 8232); (chr "P", 8233)].
Definition simpleEscapeSequence (c : Z) : option Z :=
  match List.find (fun p => p.1 =? c) simple_escapes with Some (_, x) => Some x | None => None end.
Definition charFromCodepoint (c : Z) : jsstr :=
  if c <=? 65535 then [c mod 65536]
  else [(js_sar (c - 65536) 10 + 55296) mod 65536; (js_and (c - 65536) 1023 + 56320) mod 65536].

(** ** Patterns *)

Definition is_high (c : Z) : bool := (55296 <=? c) && (c <=? 56319).
Definition is_low (c : Z) : bool := (56320 <=? c) && (c <=? 57343).
Definition never_printed (c : Z) : bool :=
  in_ranges [(0, 8); (11, 12); (14, 31); (127, 132); (134, 159); (65534, 65535)] c.
(** Characters that are not printed, and surrogates without their partner. *)
Fixpoint non_printable (after_high : bool) (s : jsstr) : bool :=
  match s with
  | [] => false
  | c :: s' =>
      never_printed c ||
      (is_high c && negb (match s' with d :: _ => is_low d | [] => false end)) ||
      (is_low c && negb after_high) || non_printable (is_high c) s'
  end.
Definition PATTERN_NON_PRINTABLE (s : jsstr) : bool := non_printable false s.
Definition PATTERN_NON_ASCII_LINE_BREAKS (s : jsstr) : bool := existsb (char_in [133; 8232; 8233]) s.
Definition PATTERN_FLOW_INDICATORS (s : jsstr) : bool := existsb is_FLOW_INDICATOR s.
Definition letters : list (Z * Z) := [range "a" "z"; range "A" "Z"].
Definition PATTERN_TAG_HANDLE (s : jsstr) : bool :=
  matches (alts [Lit (js "!"); Lit (js "!!");
                 seqs [Lit (js "!"); Plus (Class_ (fun c => in_ranges letters c || (c =? chr "-"))); Lit (js "!")]]) s.
Definition hex_class : re := Class_ (in_ranges [range "0" "9"; range "a" "f"; range "A" "F"]).
Definition PATTERN_TAG_URI (s : jsstr) : bool :=
  matches (seqs [Class_ (fun c => negb (is_FLOW_INDICATOR c));
                 Star (alts [seqs [Lit (js "%"); hex_class; hex_class];
                             Class_ (fun c => in_ranges letters c || isDecCode c || one_of (js "-#;/?:@&=+$,_.!~*'()[]") c)])]) s.

(** ** The state *)

Record lstate := LState {
  position : Z; line : Z; lineStart : Z; lineIndent : Z;
  ntag : option jsstr; nanchor : option jsstr; nkind : option node_kind; result : dval;
  version : option jsstr; checkLineBreaks : bool;
  tagMap : list (jsstr * jsstr); anchorMap : list (jsstr * dval);
  objects : heap; documents : list dval; warnings : list jsstr
}.
Definition set_position p s := LState p (line s) (lineStart s) (lineIndent s) (ntag s) (nanchor s) (nkind s) (result s) (version s) (checkLineBreaks s) (tagMap s) (anchorMap s) (objects s) (documents s) (warnings s).
Definition set_line l st s := LState (position s) l st (lineIndent s) (ntag s) (nanchor s) (nkind s) (result s) (version s) (checkLineBreaks s) (tagMap s) (anchorMap s) (objects s) (documents s) (warnings s).
Definition set_lineIndent i s := LState (position s) (line s) (lineStart s) i (ntag s) (nanchor s) (nkind s) (result s) (version s) (checkLineBreaks s) (tagMap s) (anchorMap s) (objects s) (documents s) (warnings s).
Definition set_tag t s := LState (position s) (line s) (lineStart s) (lineIndent s) t (nanchor s) (nkind s) (result s) (version s) (checkLineBreaks s) (tagMap s) (anchorMap s) (objects s) (documents s) (warnings s).
Definition set_anchor a s := LState (position s) (line s) (lineStart s) (lineIndent s) (ntag s) a (nkind s) (result s) (version s) (checkLineBreaks s) (tagMap s) (anchorMap s) (objects s) (documents s) (warnings s).
Definition set_result k r s := LState (position s) (line s) (lineStart s) (lineIndent s) (ntag s) (nanchor s) k r (version s) (checkLineBreaks s) (tagMap s) (anchorMap s) (objects s) (documents s) (warnings s).
Definition set_version v c s := LState (position s) (line s) (lineStart s) (lineIndent s) (ntag s) (nanchor s) (nkind s) (result s) v c (tagMap s) (anchorMap s) (objects s) (documents s) (warnings s).
Definition set_tagMap m s := LState (position s) (line s) (lineStart s) (lineIndent s) (ntag s) (nanchor s) (nkind s) (result s) (version s) (checkLineBreaks s) m (anchorMap s) (objects s) (documents s) (warnings s).
Definition set_anchorMap m s := LState (position s) (line s) (lineStart s) (lineIndent s) (ntag s) (nanchor s) (nkind s) (result s) (version s) (checkLineBreaks s) (tagMap s) m (objects s) (documents s) (warnings s).
Definition set_objects h s := LState (position s) (line s) (lineStart s) (lineIndent s) (ntag s) (nanchor s) (nkind s) (result s) (version s) (checkLineBreaks s) (tagMap s) (anchorMap s) h (documents s) (warnings s).
Definition set_documents d s := LState (position s) (line s) (lineStart s) (lineIndent s) (ntag s) (nanchor s) (nkind s) (result s) (version s) (checkLineBreaks s) (tagMap s) (anchorMap s) (objects s) d (warnings s).
Definition set_warnings w s := LState (position s) (line s) (lineStart s) (lineIndent s) (ntag s) (nanchor s) (nkind s) (result s) (version s) (checkLineBreaks s) (tagMap s) (anchorMap s) (objects s) (documents s) w.

(** ** Options and the constants of a run *)

Record loader := Loader {
  implicit_types : list ytype;
  typeMap : list (jsstr * ytype);
  onWarning : bool;
  legacy : bool;
  json : bool
}.

Section loading.
Context (input : jsstr) (state : loader).
(** The text of a date as a key, which depends on the environment. *)
Context (date_text : jsstr -> jsstr).

Definition code (p : Z) : Z := if p <? 0 then -1 else match input !! Z.to_nat p with Some c => c | None => -1 end.
Definition ch : ST lstate Z := gets (fun s => code (position s)).
Definition peek (n : Z) : ST lstate Z := gets (fun s => code (position s + n)).
Definition skip (n : Z) : ST lstate unit := modify (fun s => set_position (position s + n) s).
Definition text_between (a b : Z) : jsstr := slice_list input a b.

Definition throwError {A} : ST lstate A := lift (Throw ErrorMsg).
Definition throwWarning (message : jsstr) : ST lstate unit :=
  modify (fun s => if onWarning state then set_warnings (warnings s ++ [message]) s else s).
Definition unless (b : bool) : ST lstate unit := if b then throwError else mret tt.

(** A loop: [inl] goes on, [inr] leaves.  The text is consumed in every
    round but the last. *)
Fixpoint loop {A B} (fuel : nat) (body : A -> ST lstate (A + B)) (a : A) : ST lstate B :=
  match fuel with
  | O => lift (Throw Unsupported)
  | S f => r ← body a; match r with inl a' => loop f body a' | inr b => mret b end
  end.
Definition while_ {A B} (body : A -> ST lstate (A + B)) (a : A) : ST lstate B := loop (S (S (length input))) body a.

(** Skips the characters that [p] holds of; how many they were. *)
Definition skip_while (p : Z -> bool) : ST lstate Z :=
  while_ (fun n => c ← ch; if p c then _ ← skip 1; mret (inl (n + 1)) else mret (inr n)) 0.
Definition not_end (c : Z) : bool := negb (c =? 0).
Definition in_line (c : Z) : bool := negb (is_EOL c) && not_end c.
Definition in_word (c : Z) : bool := not_end c && negb (is_WS_OR_EOL c).
Definition in_name (c : Z) : bool := not_end c && negb (is_WS_OR_EOL c) && negb (is_FLOW_INDICATOR c).

(** ** Results *)

Definition result_text (s : lstate) : jsstr := match result s with DPrim (VStr t) => t | _ => [] end.
Definition add_text (t : jsstr) : ST lstate unit :=
  modify (fun s => set_result (nkind s) (DPrim (VStr (result_text s ++ t))) s).
Definition valid_json_char (c : Z) : bool := (c =? 9) || ((32 <=? c) && (c <=? 1114111)).
Definition captureSegment (start fin : Z) (checkJson : bool) : ST lstate unit :=
  if start <? fin then
    let t := text_between start fin in
    _ ← unless (if checkJson then negb (forallb valid_json_char t) else PATTERN_NON_PRINTABLE t); add_text t
  else mret tt.
Definition newlines (n : Z) : jsstr := repeat_str [NL] (Z.to_nat n).
Definition writeFoldedLines (count : Z) : ST lstate unit :=
  if count =? 1 then add_text [SPACE] else if 1 <? count then add_text (newlines (count - 1)) else mret tt.

(** ** Objects and arrays *)

Definition alloc (c : cell) : ST lstate nat :=
  fun s => (set_objects (objects s ++ [c]) s, Ok (length (objects s))).
Definition update (l : nat) (c : cell) : ST lstate unit := modify (fun s => set_objects (<[l := c]> (objects s)) s).
Definition push_item (l : nat) (v : dval) : ST lstate unit :=
  h ← gets objects; match h !! l with Some (CArr items) => update l (CArr (items ++ [v])) | _ => mret tt end.
Definition object_at (l : nat) : ST lstate (list (jsstr * dval)) :=
  gets (fun s => match objects s !! l with Some (CObj o) => o | _ => [] end).

(** [String(v)]: an array met inside itself is empty. *)
Definition prim_text (v : jsval) : jsstr :=
  match v with
  | VHost t n => if bool_decide (t = js "Date") then date_text n else to_str (VHost t n)
  | v => to_str v
  end.
Fixpoint key_text (fuel : nat) (h : heap) (around : list nat) (v : dval) : jsstr :=
  match v with
  | DPrim v => prim_text v
  | DRef l =>
      match fuel, h !! l with
      | _, Some (CHost v) => prim_text v
      | S f, Some (CArr items) =>
          if bool_decide (l ∈ around) then []
          else join (js ",") ((fun v => match v with
                                        | DPrim VNull | DPrim VUndef => []
                                        | _ => key_text f h (l :: around) v
                                        end) <$> items)
      | _, _ => js "[object Object]"
      end
  end.

Definition source_entries (h : heap) (source : dval) : option (list (jsstr * dval)) :=
  match source with
  | DRef l => match h !! l with Some (CObj o) => Some (for_in o) | Some (CArr items) => Some (indexed items) | Some (CHost _) => Some [] | None => None end
  | DPrim (VHost _ _) => Some []
  | DPrim _ => None
  end.
(** The keys that may be given again: those that were merged. *)
Definition mergeMappings (destination : nat) (source : dval) (overridableKeys : list jsstr) : ST lstate (list jsstr) :=
  h ← gets objects;
  match source_entries h source with
  | None => throwError
  | Some entries =>
      o ← object_at destination;
      let '(o, keys) := foldl (fun '(o, keys) '(k, v) => if has_key k o then (o, keys) else (put k v o, k :: keys))
                              (o, overridableKeys) entries in
      _ ← update destination (CObj o); mret keys
  end.

Fixpoint merge_all (destination : nat) (sources : list dval) (overridableKeys : list jsstr) : ST lstate (list jsstr) :=
  match sources with
  | [] => mret overridableKeys
  | s :: sources' => keys ← mergeMappings destination s overridableKeys; merge_all destination sources' keys
  end.

Definition storeMappingPair (_result : nat) (overridableKeys : list jsstr) (keyTag : option jsstr) (keyNode valueNode : dval) :
    ST lstate (list jsstr) :=
  h ← gets objects;
  let key := key_text (S (length h)) h [] keyNode in
  if bool_decide (keyTag = Some (yaml_tag "merge")) then
    match valueNode with
    | DRef l => match h !! l with
                | Some (CArr items) => merge_all _result items overridableKeys
                | _ => mergeMappings _result valueNode overridableKeys
                end
    | _ => mergeMappings _result valueNode overridableKeys
    end
  else
    o ← object_at _result;
    _ ← unless (negb (json state) && negb (bool_decide (key ∈ overridableKeys)) && has_key key o);
    _ ← update _result (CObj (put key valueNode o));
    mret (filter (fun k => k <> key) overridableKeys).

(** ** White space and line breaks *)

Definition readLineBreak : ST lstate unit :=
  c ← ch;
  _ ← (if c =? 10 then skip 1
       else if c =? 13 then _ ← skip 1; d ← ch; (if d =? 10 then skip 1 else mret tt)
       else throwError);
  modify (fun s => set_line (line s + 1) (position s) s).

(** The comment up to the end of its line. *)
Definition skip_comment (p : Z -> bool) : ST lstate unit := _ ← skip 1; _ ← skip_while p; mret tt.

Definition skip_round (allowComments : bool) (lineBreaks : Z) : ST lstate (Z + Z) :=
  c ← ch;
  if c =? 0 then mret (inr lineBreaks)
  else
    _ ← skip_while is_WHITE_SPACE; c ← ch;
    _ ← (if allowComments && (c =? chr "#") then skip_comment in_line else mret tt);
    c ← ch;
    if is_EOL c then
      _ ← readLineBreak;
      _ ← modify (set_lineIndent 0);
      n ← skip_while (fun c => c =? SPACE);
      _ ← modify (set_lineIndent n);
      mret (inl (lineBreaks + 1))
    else mret (inr lineBreaks).
Definition skipSeparationSpace (allowComments : bool) (checkIndent : Z) : ST lstate Z :=
  lineBreaks ← while_ (skip_round allowComments) 0;
  i ← gets lineIndent;
  _ ← (if negb (checkIndent =? -1) && negb (lineBreaks =? 0) && (i <? checkIndent)
       then throwWarning (js "deficient indentation") else mret tt);
  mret lineBreaks.

Definition testDocumentSeparator : ST lstate bool :=
  a ← ch; b ← peek 1; c ← peek 2; d ← peek 3;
  mret (((a =? chr "-") || (a =? chr ".")) && (a =? b) && (a =? c) && ((d =? 0) || is_WS_OR_EOL d)).
Definition at_document_separator : ST lstate bool :=
  sep ← testDocumentSeparator; gets (fun s => (position s =? lineStart s) && sep).

(** ** Plain scalars *)

(** Start and end of what is captured, and the line where pending line breaks
    began. *)
Record capture := Capture { captureStart : Z; captureEnd : Z; pending : option Z }.

Definition plain_start (withinFlowCollection : bool) : ST lstate bool :=
  c ← ch; following ← peek 1;
  mret (negb (is_WS_OR_EOL c || is_FLOW_INDICATOR c || char_in (js "#&*!|>'%@`" ++ [34]) c) &&
        negb (((c =? chr "?") || (c =? chr "-")) &&
              (is_WS_OR_EOL following || (withinFlowCollection && is_FLOW_INDICATOR following)))).

(** Writes what was captured before pending line breaks. *)
Definition flush (k : capture) : ST lstate capture :=
  match pending k with
  | Some l =>
      _ ← captureSegment (captureStart k) (captureEnd k) false;
      n ← gets (fun s => line s - l); _ ← writeFoldedLines n;
      p ← gets position; mret (Capture p p None)
  | None => mret k
  end.
Definition plain_char (c : Z) (k : capture) : ST lstate (capture + capture) :=
  k ← flush k; p ← gets position; _ ← skip 1;
  mret (inl (Capture (captureStart k) (if is_WHITE_SPACE c then captureEnd k else p + 1) None)).
Definition plain_round (nodeIndent : Z) (withinFlowCollection : bool) (k : capture) : ST lstate (capture + capture) :=
  c ← ch; following ← peek 1; preceding ← peek (-1); sep ← at_document_separator;
  if c =? 0 then mret (inr k)
  else if c =? chr ":" then
    if is_WS_OR_EOL following || (withinFlowCollection && is_FLOW_INDICATOR following) then mret (inr k) else plain_char c k
  else if c =? chr "#" then if is_WS_OR_EOL preceding then mret (inr k) else plain_char c k
  else if sep || (withinFlowCollection && is_FLOW_INDICATOR c) then mret (inr k)
  else if is_EOL c then
    s ← gets (fun s => s);
    _ ← skipSeparationSpace false (-1);
    i ← gets lineIndent;
    if nodeIndent <=? i then mret (inl (Capture (captureStart k) (captureEnd k) (Some (line s))))
    else
      _ ← modify (fun s' => set_lineIndent (lineIndent s) (set_line (line s) (lineStart s) (set_position (captureEnd k) s')));
      mret (inr (Capture (captureStart k) (captureEnd k) None))
  else plain_char c k.

Definition readPlainScalar (nodeIndent : Z) (withinFlowCollection : bool) : ST lstate bool :=
  start ← plain_start withinFlowCollection;
  if negb start then mret false
  else
    s ← gets (fun s => s);
    _ ← modify (set_result (Some scalar) (DPrim (VStr [])));
    k ← while_ (plain_round nodeIndent withinFlowCollection) (Capture (position s) (position s) None);
    _ ← captureSegment (captureStart k) (captureEnd k) false;
    t ← gets result_text;
    match t with
    | [] => _ ← modify (set_result (nkind s) (result s)); mret false
    | _ => mret true
    end.

(** ** Quoted scalars *)

(** A line break within quotes: what was captured, then the folded lines. *)
Definition quoted_break (nodeIndent : Z) (k : Z * Z) : ST lstate (Z * Z + bool) :=
  _ ← captureSegment k.1 k.2 true;
  n ← skipSeparationSpace false nodeIndent; _ ← writeFoldedLines n;
  p ← gets position; mret (inl (p, p)).
Definition quoted_char (k : Z * Z) : ST lstate (Z * Z + bool) :=
  _ ← skip 1; p ← gets position; mret (inl (k.1, p)).

Definition single_round (nodeIndent : Z) (k : Z * Z) : ST lstate (Z * Z + bool) :=
  c ← ch; sep ← at_document_separator; p ← gets position;
  if c =? 0 then throwError
  else if c =? chr "'" then
    _ ← captureSegment k.1 p true; _ ← skip 1; d ← ch;
    if d =? chr "'" then _ ← skip 1; mret (inl (p + 1, p + 1)) else mret (inr true)
  else if is_EOL c then quoted_break nodeIndent k
  else if sep : bool then throwError
  else quoted_char k.
Definition readSingleQuotedScalar (nodeIndent : Z) : ST lstate bool :=
  c ← ch;
  if negb (c =? chr "'") then mret false
  else
    _ ← modify (set_result (Some scalar) (DPrim (VStr []))); _ ← skip 1;
    p ← gets position; while_ (single_round nodeIndent) (p, p).

(** The digits of an escape, the position staying on the last one. *)
Fixpoint hex_digits (n : nat) (hexResult : Z) : ST lstate Z :=
  match n with
  | O => mret hexResult
  | S n' =>
      _ ← skip 1; c ← ch;
      if 0 <=? fromHexCode c then hex_digits n' (js_shl hexResult 4 + fromHexCode c) else throwError
  end.
Definition read_escape (nodeIndent : Z) : ST lstate unit :=
  _ ← skip 1; c ← ch;
  if is_EOL c then _ ← skipSeparationSpace false nodeIndent; mret tt
  else match simpleEscapeSequence c with
       | Some x => _ ← add_text [x]; skip 1
       | None =>
           match escapedHexLen c with
           | O => throwError
           | n => hexResult ← hex_digits n 0; _ ← add_text (charFromCodepoint hexResult); skip 1
           end
       end.
Definition double_round (nodeIndent : Z) (k : Z * Z) : ST lstate (Z * Z + bool) :=
  c ← ch; sep ← at_document_separator; p ← gets position;
  if c =? 0 then throwError
  else if c =? 34 then _ ← captureSegment k.1 p true; _ ← skip 1; mret (inr true)
  else if c =? 92 then
    _ ← captureSegment k.1 p true; _ ← read_escape nodeIndent;
    p ← gets position; mret (inl (p, p))
  else if is_EOL c then quoted_break nodeIndent k
  else if sep : bool then throwError
  else quoted_char k.
Definition readDoubleQuotedScalar (nodeIndent : Z) : ST lstate bool :=
  c ← ch;
  if negb (c =? 34) then mret false
  else
    _ ← modify (set_result (Some scalar) (DPrim (VStr []))); _ ← skip 1;
    p ← gets position; while_ (double_round nodeIndent) (p, p).

(** ** Block scalars *)

Inductive chomping_mode := CHOMPING_CLIP | CHOMPING_STRIP | CHOMPING_KEEP.
#[export] Instance chomping_eq_dec : EqDecision chomping_mode.
Proof. solve_decision. Defined.

Record block_header := BlockHeader { chomping : chomping_mode; textIndent : Z; detectedIndent : bool }.
Definition header_round (nodeIndent : Z) (b : block_header) : ST lstate (block_header + block_header) :=
  c ← ch;
  if c =? 0 then mret (inr b)
  else
    _ ← skip 1; c ← ch;
    if (c =? chr "+") || (c =? chr "-") then
      if bool_decide (chomping b = CHOMPING_CLIP)
      then mret (inl (BlockHeader (if c =? chr "+" then CHOMPING_KEEP else CHOMPING_STRIP) (textIndent b) (detectedIndent b)))
      else throwError
    else if 0 <=? fromDecimalCode c then
      if fromDecimalCode c =? 0 then throwError
      else if negb (detectedIndent b) then mret (inl (BlockHeader (chomping b) (nodeIndent + fromDecimalCode c - 1) true))
      else throwError
    else mret (inr b).

(** The lines: the header as it is known so far, whether content was read, the
    empty lines before, and whether lines were more indented. *)
Record block_state := BlockState { header : block_header; didReadContent : bool; emptyLines : Z; atMoreIndented : bool }.

Fixpoint skip_indent (fuel : nat) (b : block_header) : ST lstate unit :=
  match fuel with
  | O => lift (Throw Unsupported)
  | S f =>
      c ← ch; i ← gets lineIndent;
      if (negb (detectedIndent b) || (i <? textIndent b)) && (c =? SPACE) then
        _ ← modify (set_lineIndent (i + 1)); _ ← skip 1; skip_indent f b
      else mret tt
  end.
Definition chomp (b : block_state) : ST lstate unit :=
  match chomping (header b) with
  | CHOMPING_KEEP => add_text (newlines (if didReadContent b then 1 + emptyLines b else emptyLines b))
  | CHOMPING_CLIP => if didReadContent b then add_text [NL] else mret tt
  | CHOMPING_STRIP => mret tt
  end.
(** The line breaks before a line, and whether it is more indented. *)
Definition block_break (folding : bool) (c : Z) (b : block_state) : jsstr * bool :=
  let exact := newlines (if didReadContent b then 1 + emptyLines b else emptyLines b) in
  if folding then
    if is_WHITE_SPACE c then (exact, true)
    else if atMoreIndented b then (newlines (emptyLines b + 1), false)
    else if emptyLines b =? 0 then (if didReadContent b then [SPACE] else [], false)
    else (newlines (emptyLines b), false)
  else (exact, atMoreIndented b).
Definition block_round (folding : bool) (b : block_state) : ST lstate (block_state + unit) :=
  c ← ch;
  if c =? 0 then mret (inr tt)
  else
    _ ← readLineBreak; _ ← modify (set_lineIndent 0);
    _ ← skip_indent (S (length input)) (header b);
    c ← ch; i ← gets lineIndent;
    let h := header b in
    let h := if negb (detectedIndent h) && (textIndent h <? i) then BlockHeader (chomping h) i false else h in
    let b := BlockState h (didReadContent b) (emptyLines b) (atMoreIndented b) in
    if is_EOL c then mret (inl (BlockState h (didReadContent b) (emptyLines b + 1) (atMoreIndented b)))
    else if i <? textIndent h then _ ← chomp b; mret (inr tt)
    else
      let '(t, more) := block_break folding c b in
      _ ← add_text t;
      start ← gets position; _ ← skip_while in_line;
      fin ← gets position; _ ← captureSegment start fin false;
      mret (inl (BlockState (BlockHeader (chomping h) (textIndent h) true) true 0 more)).

Definition readBlockScalar (nodeIndent : Z) : ST lstate bool :=
  c ← ch;
  if negb ((c =? chr "|") || (c =? chr ">")) then mret false
  else
    _ ← modify (set_result (Some scalar) (DPrim (VStr [])));
    h ← while_ (header_round nodeIndent) (BlockHeader CHOMPING_CLIP nodeIndent false);
    d ← ch;
    _ ← (if is_WHITE_SPACE d then
           _ ← skip_while is_WHITE_SPACE; d ← ch;
           if d =? chr "#" then skip_comment in_line else mret tt
         else mret tt);
    _ ← while_ (block_round (c =? chr ">")) (BlockState h false 0 false); mret true.

(** ** Tags, anchors and aliases *)

(** The characters of a tag up to a space: where its suffix starts and its
    handle. *)
Definition tag_round (k : Z * bool * jsstr) : ST lstate (Z * bool * jsstr + Z * jsstr) :=
  let '(start, isNamed, tagHandle) := k in
  c ← ch; p ← gets position;
  if negb (in_word c) then mret (inr (start, tagHandle))
  else if c =? chr "!" then
    if isNamed then throwError
    else
      let handle := text_between (start - 1) (p + 1) in
      _ ← unless (negb (PATTERN_TAG_HANDLE handle));
      _ ← skip 1; mret (inl (p + 1, true, handle))
  else _ ← skip 1; mret (inl (start, isNamed, tagHandle)).

Definition resolve_tag (handle name : jsstr) : ST lstate jsstr :=
  m ← gets tagMap;
  match assoc handle m with
  | Some prefix => mret (prefix ++ name)
  | None => if bool_decide (handle = js "!") then mret (js "!" ++ name)
            else if bool_decide (handle = js "!!") then mret (js "tag:yaml.org,2002:" ++ name)
            else throwError
  end.
Definition check_tag_name (name : jsstr) : ST lstate unit :=
  unless (match name with [] => false | _ => negb (PATTERN_TAG_URI name) end).

Definition readTagProperty : ST lstate bool :=
  c ← ch;
  if negb (c =? chr "!") then mret false
  else
    t ← gets ntag; _ ← unless (match t with Some _ => true | None => false end);
    _ ← skip 1; c ← ch;
    if c =? chr "<" then
      _ ← skip 1; start ← gets position;
      _ ← skip 1; _ ← skip_while (fun c => not_end c && negb (c =? chr ">"));
      p ← gets position;
      _ ← unless (negb (p <? Z.of_nat (length input) - 1));
      let name := text_between start p in
      _ ← skip 1; _ ← check_tag_name name; _ ← modify (set_tag (Some name)); mret true
    else
      let isNamed := c =? chr "!" in
      _ ← (if isNamed then skip 1 else mret tt);
      start ← gets position;
      '(start, handle) ← while_ tag_round (start, isNamed, if isNamed then js "!!" else js "!");
      p ← gets position;
      let name := text_between start p in
      _ ← unless (PATTERN_FLOW_INDICATORS name); _ ← check_tag_name name;
      t ← resolve_tag handle name; _ ← modify (set_tag (Some t)); mret true.

(** A name after [&] or [*]; it is not empty. *)
Definition read_name : ST lstate jsstr :=
  _ ← skip 1; start ← gets position; _ ← skip_while in_name; p ← gets position;
  _ ← unless (p =? start); mret (text_between start p).
Definition readAnchorProperty : ST lstate bool :=
  c ← ch;
  if negb (c =? chr "&") then mret false
  else
    a ← gets nanchor; _ ← unless (match a with Some _ => true | None => false end);
    n ← read_name; _ ← modify (set_anchor (Some n)); mret true.
Definition readAlias : ST lstate bool :=
  c ← ch;
  if negb (c =? chr "*") then mret false
  else
    n ← read_name; m ← gets anchorMap;
    match assoc n m with
    | Some v => _ ← modify (fun s => set_result (nkind s) v s); _ ← skipSeparationSpace true (-1); mret true
    | None => throwError
    end.

(** The anchor of the node, if it has one, stands for [v]. *)
Definition set_anchored (v : dval) : ST lstate unit :=
  modify (fun s => match nanchor s with Some a => set_anchorMap (put a v (anchorMap s)) s | None => s end).
Definition finish (tag anchor : option jsstr) (kind : node_kind) (l : nat) : ST lstate unit :=
  modify (fun s => set_result (Some kind) (DRef l) (set_anchor anchor (set_tag tag s))).

(** ** Collections, given how a node is composed *)

Inductive context := FLOW_IN | FLOW_OUT | BLOCK_IN | BLOCK_OUT.
#[export] Instance context_eq_dec : EqDecision context.
Proof. solve_decision. Defined.

Section collections.
Context (composeNode : Z -> context -> bool -> bool -> ST lstate bool).

(** One entry of a flow collection; whether a comma follows. *)
Definition flow_value (nodeIndent : Z) : ST lstate dval :=
  _ ← skip 1; _ ← skipSeparationSpace true nodeIndent; _ ← composeNode nodeIndent FLOW_IN false true; gets result.
Definition flow_round (nodeIndent : Z) (_result : nat) (isMapping : bool) (terminator : Z) (k : bool * list jsstr) :
    ST lstate (bool * list jsstr + bool) :=
  let '(readNext, overridableKeys) := k in
  c ← ch;
  if c =? 0 then throwError
  else
    _ ← skipSeparationSpace true nodeIndent; c ← ch;
    if c =? terminator then _ ← skip 1; mret (inr true)
    else
      _ ← unless (negb readNext);
      following ← peek 1;
      let isExplicitPair := (c =? chr "?") && is_WS_OR_EOL following in
      _ ← (if isExplicitPair then _ ← skip 1; _ ← skipSeparationSpace true nodeIndent; mret tt else mret tt);
      _line ← gets line;
      _ ← composeNode nodeIndent FLOW_IN false true;
      keyTag ← gets ntag; keyNode ← gets result;
      _ ← skipSeparationSpace true nodeIndent;
      c ← ch; line' ← gets line;
      let hasValue := (isExplicitPair || (line' =? _line)) && (c =? chr ":") in
      valueNode ← (if hasValue then flow_value nodeIndent else mret (DPrim VNull));
      overridableKeys ←
        (if isMapping then storeMappingPair _result overridableKeys keyTag keyNode valueNode
         else if isExplicitPair || hasValue then
           pair ← alloc (CObj []);
           keys ← storeMappingPair pair overridableKeys keyTag keyNode valueNode;
           _ ← push_item _result (DRef pair); mret keys
         else _ ← push_item _result keyNode; mret overridableKeys);
      _ ← skipSeparationSpace true nodeIndent; c ← ch;
      if c =? chr "," then _ ← skip 1; mret (inl (true, overridableKeys)) else mret (inl (false, overridableKeys)).
Definition readFlowCollection (nodeIndent : Z) : ST lstate bool :=
  c ← ch;
  if negb ((c =? chr "[") || (c =? chr "{")) then mret false
  else
    let isMapping := c =? chr "{" in
    s ← gets (fun s => s);
    l ← alloc (if isMapping then CObj [] else CArr []);
    _ ← set_anchored (DRef l);
    _ ← skip 1;
    _ ← while_ (flow_round nodeIndent l isMapping (if isMapping then chr "}" else chr "]")) (true, []);
    _ ← finish (ntag s) (nanchor s) (if isMapping then mapping else sequence) l;
    mret true.

(** One element of a block sequence; whether there was one. *)
Definition sequence_round (nodeIndent : Z) (_result : nat) (detected : bool) : ST lstate (bool + bool) :=
  c ← ch; following ← peek 1;
  if (c =? 0) || negb (c =? chr "-") || negb (is_WS_OR_EOL following) then mret (inr detected)
  else
    _ ← skip 1; n ← skipSeparationSpace true (-1); i ← gets lineIndent;
    if negb (n =? 0) && (i <=? nodeIndent) then _ ← push_item _result (DPrim VNull); mret (inl true)
    else
      _line ← gets line;
      _ ← composeNode nodeIndent BLOCK_IN false true;
      v ← gets result; _ ← push_item _result v;
      _ ← skipSeparationSpace true (-1); c ← ch; i ← gets lineIndent; line' ← gets line;
      if ((line' =? _line) || (nodeIndent <? i)) && negb (c =? 0) then throwError
      else if i <? nodeIndent then mret (inr true) else mret (inl true).
Definition readBlockSequence (nodeIndent : Z) : ST lstate bool :=
  s ← gets (fun s => s);
  l ← alloc (CArr []);
  _ ← set_anchored (DRef l);
  detected ← while_ (sequence_round nodeIndent l) false;
  if detected : bool then _ ← finish (ntag s) (nanchor s) sequence l; mret true else mret false.

(** The pair being read, whether it has an explicit key, and whether there
    was a pair. *)
Record pair_state := PairState { keys : list jsstr; keyTag : option jsstr; keyNode : dval; atExplicitKey : bool; detected : bool }.
Definition store_key (_result : nat) (k : pair_state) (valueNode : dval) : ST lstate pair_state :=
  keys' ← storeMappingPair _result (keys k) (keyTag k) (keyNode k) valueNode;
  mret (PairState keys' None (DPrim VNull) (atExplicitKey k) (detected k)).
Definition store_explicit (_result : nat) (k : pair_state) : ST lstate pair_state :=
  if atExplicitKey k then store_key _result k (DPrim VNull) else mret k.

(** The reading common to both notations. *)
Definition mapping_value (nodeIndent : Z) (_result : nat) (_line : Z) (allowCompact : bool) (k : pair_state) :
    ST lstate (pair_state + (bool * pair_state)) :=
  line' ← gets line; i ← gets lineIndent;
  k ← (if (line' =? _line) || (nodeIndent <? i) then
         composed ← composeNode nodeIndent BLOCK_OUT true allowCompact;
         v ← gets result;
         k ← (if atExplicitKey k
              then mret (if composed : bool then PairState (keys k) (keyTag k) v (atExplicitKey k) (detected k) else k)
              else store_key _result k (if composed : bool then v else DPrim VNull));
         _ ← skipSeparationSpace true (-1); mret k
       else mret k);
  c ← ch; i ← gets lineIndent;
  if (nodeIndent <? i) && negb (c =? 0) then throwError
  else if i <? nodeIndent then mret (inr (false, k)) else mret (inl k).

Definition explicit_entry (nodeIndent : Z) (_result : nat) (c : Z) (k : pair_state) : ST lstate (pair_state + (bool * pair_state)) :=
  _line ← gets line;
  k ← (if c =? chr "?" then
         k ← store_explicit _result k; mret (PairState (keys k) (keyTag k) (keyNode k) true true)
       else if atExplicitKey k then mret (PairState (keys k) (keyTag k) (keyNode k) false (detected k))
       else throwError);
  _ ← skip 1; mapping_value nodeIndent _result _line true k.

(** [inr (true, k)] keeps the result of [composeNode]. *)
Definition implicit_entry (nodeIndent flowIndent : Z) (_result : nat) (k : pair_state) : ST lstate (pair_state + (bool * pair_state)) :=
  _line ← gets line;
  composed ← composeNode flowIndent FLOW_OUT false true;
  if negb composed then mret (inr (false, k))
  else
    line' ← gets line;
    if negb (line' =? _line) then if detected k then throwError else mret (inr (true, k))
    else
      _ ← skip_while is_WHITE_SPACE; c ← ch;
      if c =? chr ":" then
        _ ← skip 1; c ← ch; _ ← unless (negb (is_WS_OR_EOL c));
        tag ← gets ntag; v ← gets result;
        k ← store_explicit _result k;
        mapping_value nodeIndent _result _line false (PairState (keys k) tag v false true)
      else if detected k then throwError
      else mret (inr (true, k)).

Definition mapping_round (nodeIndent flowIndent : Z) (_result : nat) (k : pair_state) : ST lstate (pair_state + (bool * pair_state)) :=
  c ← ch; following ← peek 1;
  if c =? 0 then mret (inr (false, k))
  else if ((c =? chr "?") || (c =? chr ":")) && is_WS_OR_EOL following then explicit_entry nodeIndent _result c k
  else implicit_entry nodeIndent flowIndent _result k.
Definition readBlockMapping (nodeIndent flowIndent : Z) : ST lstate bool :=
  s ← gets (fun s => s);
  l ← alloc (CObj []);
  _ ← set_anchored (DRef l);
  '(kept, k) ← while_ (mapping_round nodeIndent flowIndent l) (PairState [] None (DPrim VNull) false false);
  if kept : bool then _ ← modify (fun s' => set_anchor (nanchor s) (set_tag (ntag s) s')); mret true
  else
    k ← store_explicit l k;
    if detected k then _ ← finish (ntag s) (nanchor s) mapping l; mret true else mret false.
End collections.

(** ** Nodes *)

(** Whether a line break came, and how the node's line is indented below its
    parent's: 1, 0 or -1. *)
Definition indent_status (parentIndent i : Z) : Z := if parentIndent <? i then 1 else if i =? parentIndent then 0 else -1.

(** The tag and the anchor before a node: the status, whether it is on a new
    line, and whether block collections are allowed. *)
Definition property_round (parentIndent : Z) (allowBlockStyles : bool) (k : Z * bool * bool) :
    ST lstate (Z * bool * bool + Z * bool * bool) :=
  let '(indentStatus, atNewLine, _) := k in
  t ← readTagProperty; a ← (if t : bool then mret true else readAnchorProperty);
  if negb a then mret (inr k)
  else
    n ← skipSeparationSpace true (-1); i ← gets lineIndent;
    if negb (n =? 0) then mret (inl (indent_status parentIndent i, true, allowBlockStyles))
    else mret (inl (indentStatus, atNewLine, false)).

(** The first alternative that is there. *)
Definition or_else (a b : ST lstate bool) : ST lstate bool := x ← a; if x : bool then mret true else b.

Definition read_plain (flowIndent : Z) (within : bool) : ST lstate bool :=
  found ← readPlainScalar flowIndent within;
  if negb found then mret false
  else _ ← modify (fun s => match ntag s with None => set_tag (Some (js "?")) s | Some _ => s end); mret true.
Definition read_alias : ST lstate bool :=
  found ← readAlias;
  if negb found then mret false
  else
    s ← gets (fun s => s);
    _ ← unless (match ntag s, nanchor s with None, None => false | _, _ => true end); mret true.
Definition read_scalar (flowIndent : Z) (nodeContext : context) (allowBlockScalars : bool) : ST lstate bool :=
  found ← or_else (if allowBlockScalars then readBlockScalar flowIndent else mret false)
            (or_else (readSingleQuotedScalar flowIndent)
            (or_else (readDoubleQuotedScalar flowIndent)
            (or_else read_alias (read_plain flowIndent (bool_decide (nodeContext = FLOW_IN))))));
  r ← gets result; _ ← set_anchored r; mret found.

(** The type of a node: implicit for a plain scalar, given by its tag
    otherwise. *)
Definition construct_as (type : ytype) : ST lstate unit :=
  s ← gets (fun s => s);
  '(h, v) ← lift (construct type (objects s) (result s));
  _ ← modify (fun s => set_objects h (set_result (nkind s) v s));
  set_anchored v.
Fixpoint resolve_implicit (types : list ytype) : ST lstate unit :=
  match types with
  | [] => mret tt
  | type :: types' =>
      s ← gets (fun s => s);
      if resolve type (objects s) (result s) then
        _ ← construct_as type; modify (set_tag (Some (tag type)))
      else resolve_implicit types'
  end.
Definition resolve_node : ST lstate unit :=
  s ← gets (fun s => s);
  match ntag s with
  | None => mret tt
  | Some t =>
      if bool_decide (t = js "!") then mret tt
      else if bool_decide (t = js "?") then resolve_implicit (implicit_types state)
      else match assoc t (typeMap state) with
           | None => throwError
           | Some type =>
               _ ← unless (negb (is_null (result s)) && negb (bool_decide (Some (kind type) = nkind s)));
               _ ← unless (negb (resolve type (objects s) (result s)));
               construct_as type
           end
  end.

Definition node_content (composeNode : Z -> context -> bool -> bool -> ST lstate bool) (parentIndent : Z)
    (nodeContext : context) (allowBlock allowBlockCollections : bool) (indentStatus : Z) : ST lstate bool :=
  let inFlow := bool_decide (nodeContext = FLOW_IN) || bool_decide (nodeContext = FLOW_OUT) in
  let flowIndent := if inFlow then parentIndent else parentIndent + 1 in
  blockIndent ← gets (fun s => position s - lineStart s);
  if indentStatus =? 1 then
    or_else (or_else (if allowBlockCollections
                      then or_else (readBlockSequence composeNode blockIndent) (readBlockMapping composeNode blockIndent flowIndent)
                      else mret false)
                     (readFlowCollection composeNode flowIndent))
            (read_scalar flowIndent nodeContext allowBlock)
  else if (indentStatus =? 0) && allowBlockCollections then readBlockSequence composeNode blockIndent
  else mret false.

Fixpoint composeNode (fuel : nat) (parentIndent : Z) (nodeContext : context) (allowToSeek allowCompact : bool) : ST lstate bool :=
  match fuel with
  | O => lift (Throw Unsupported)
  | S f =>
      _ ← modify (fun s => set_result None (DPrim VNull) (set_anchor None (set_tag None s)));
      let allowBlock := bool_decide (nodeContext = BLOCK_OUT) || bool_decide (nodeContext = BLOCK_IN) in
      n ← (if allowToSeek then skipSeparationSpace true (-1) else mret 0);
      i ← gets lineIndent;
      let atNewLine := negb (n =? 0) in
      let indentStatus := if atNewLine then indent_status parentIndent i else 1 in
      '(indentStatus, atNewLine, allowed) ←
        (if indentStatus =? 1 then while_ (property_round parentIndent allowBlock) (indentStatus, atNewLine, allowBlock)
         else mret (indentStatus, atNewLine, allowBlock));
      hasContent ← (if (indentStatus =? 1) || bool_decide (nodeContext = BLOCK_OUT)
                    then node_content (composeNode f) parentIndent nodeContext allowBlock
                           (allowed && (atNewLine || allowCompact)) indentStatus
                    else mret false);
      _ ← resolve_node;
      s ← gets (fun s => s);
      mret (hasContent || (match ntag s with Some _ => true | None => false end) ||
            (match nanchor s with Some _ => true | None => false end))
  end.

(** ** Directives *)

(** Number after the dot, if the text is two numbers with a dot. *)
Definition version_parts (arg : jsstr) : option (Z * Z) :=
  let '(a, rest) := span_digits (length arg) arg in
  match rest with
  | c :: rest' =>
      let '(b, rest'') := span_digits (length rest') rest' in
      match a, b, rest'' with
      | _ :: _, _ :: _, [] => if c =? chr "." then Some (number a, number b) else None
      | _, _, _ => None
      end
  | [] => None
  end.
Definition handleYamlDirective (args : list jsstr) : ST lstate unit :=
  v ← gets version; _ ← unless (match v with Some _ => true | None => false end);
  match args with
  | [arg] =>
      match version_parts arg with
      | None => throwError
      | Some (major, minor) =>
          _ ← unless (negb (major =? 1));
          _ ← modify (set_version (Some arg) (minor <? 2));
          if negb (minor =? 1) && negb (minor =? 2) then throwWarning (js "unsupported YAML version of the document") else mret tt
      end
  | _ => throwError
  end.
Definition handleTagDirective (args : list jsstr) : ST lstate unit :=
  match args with
  | [handle; prefix] =>
      _ ← unless (negb (PATTERN_TAG_HANDLE handle));
      m ← gets tagMap; _ ← unless (has_key handle m);
      _ ← unless (negb (PATTERN_TAG_URI prefix));
      modify (set_tagMap (put handle prefix m))
  | _ => throwError
  end.

(** The words of a directive up to the end of its line or a comment. *)
Definition argument_round (args : list jsstr) : ST lstate (list jsstr + list jsstr) :=
  c ← ch;
  if c =? 0 then mret (inr args)
  else
    _ ← skip_while is_WHITE_SPACE; c ← ch;
    if c =? chr "#" then _ ← skip_comment in_line; mret (inr args)
    else if is_EOL c then mret (inr args)
    else
      start ← gets position; _ ← skip_while in_word; p ← gets position;
      mret (inl (args ++ [text_between start p])).
(** Whether there were directives. *)
Definition directive_round (hasDirectives : bool) : ST lstate (bool + bool) :=
  c ← ch;
  if c =? 0 then mret (inr hasDirectives)
  else
    _ ← skipSeparationSpace true (-1); c ← ch; i ← gets lineIndent;
    if (0 <? i) || negb (c =? chr "%") then mret (inr hasDirectives)
    else
      _ ← skip 1; start ← gets position; _ ← skip_while in_word; p ← gets position;
      let directiveName := text_between start p in
      _ ← unless (bool_decide (directiveName = []));
      directiveArgs ← while_ argument_round [];
      c ← ch; _ ← (if c =? 0 then mret tt else readLineBreak);
      _ ← (if bool_decide (directiveName = js "YAML") then handleYamlDirective directiveArgs
           else if bool_decide (directiveName = js "TAG") then handleTagDirective directiveArgs
           else throwWarning (js "unknown document directive " ++ [34] ++ directiveName ++ [34]));
      mret (inl true).

(** ** Documents *)

Definition node_fuel : nat := S (S (length input + length input)).
Definition last_position : Z := Z.of_nat (length input) - 2.

Definition readDocument : ST lstate unit :=
  documentStart ← gets position;
  _ ← modify (fun s => set_anchorMap [] (set_tagMap [] (set_version None (legacy state) s)));
  hasDirectives ← while_ directive_round false;
  _ ← skipSeparationSpace true (-1);
  a ← ch; b ← peek 1; c ← peek 2; i ← gets lineIndent;
  _ ← (if (i =? 0) && (a =? chr "-") && (b =? chr "-") && (c =? chr "-")
       then _ ← skip 3; _ ← skipSeparationSpace true (-1); mret tt
       else unless hasDirectives);
  i ← gets lineIndent;
  _ ← composeNode node_fuel (i - 1) BLOCK_OUT false true;
  _ ← skipSeparationSpace true (-1);
  s ← gets (fun s => s);
  _ ← (if checkLineBreaks s && PATTERN_NON_ASCII_LINE_BREAKS (text_between documentStart (position s))
       then throwWarning (js "non-ASCII line breaks are interpreted as content") else mret tt);
  _ ← modify (fun s => set_documents (documents s ++ [result s]) s);
  sep ← at_document_separator;
  if sep : bool then
    c ← ch;
    if c =? chr "." then _ ← skip 3; _ ← skipSeparationSpace true (-1); mret tt else mret tt
  else unless (position s <? last_position).

Definition document_round (u : unit) : ST lstate (unit + unit) :=
  p ← gets position; if p <? last_position then _ ← readDocument; mret (inl tt) else mret (inr tt).
Definition read_documents : ST lstate unit :=
  n ← skip_while (fun c => c =? SPACE);
  _ ← modify (set_lineIndent n);
  while_ document_round tt.
End loading.

(** ** Loading *)

(** The text as it is read: it ends with a line break, has no byte order
    mark, and a NUL follows. *)
Definition prepare (input : jsstr) : jsstr :=
  let input := match last input with
               | Some c => if negb (c =? 10) && negb (c =? 13) then input ++ [NL] else input
               | None => input
               end in
  let input := match input with c :: input' => if c =? 65279 then input' else input | [] => [] end in
  input ++ [0].

Definition start_state : lstate :=
  LState 0 0 0 0 None None None (DPrim VNull) None false [] [] [] [] [].

Section load.
Context (date_text : jsstr -> jsstr).

Definition options_of (s : schema) (options : obj) : loader :=
  Loader (compiledImplicit s) (compiledTypeMap s) (truthy (get options (js "onWarning")))
    (truthy (get options (js "legacy"))) (truthy (get options (js "json"))).
Definition loadDocuments (s : schema) (input : jsstr) (options : obj) : res (heap * list dval) :=
  let '(st, r) := read_documents (prepare input) (options_of s options) date_text start_state in
  _ ← r; Ok (objects st, documents st).
Definition load (s : schema) (input : jsstr) (options : obj) : res (heap * dval) :=
  '(h, docs) ← loadDocuments s input options;
  match docs with [] => Ok (h, DPrim VUndef) | [d] => Ok (h, d) | _ => Throw ErrorMsg end.

Context (parseFloat : jsstr -> jsnum) (negate : jsnum -> jsnum) (sum60 : list jsnum -> jsnum).
Definition safeLoad (input : jsstr) (options : obj) : res (heap * dval) :=
  load (DEFAULT_SAFE parseFloat negate sum60) input options.
End load.

(** Text at the top level that is not indented: the strip indicator does
    not take its last line break. *)
Example strip_at_zero :
  snd <$> safeLoad (fun t => t) (fun _ => NNaN) (fun n => n) (fun _ => NNaN) (js "|-" ++ [10] ++ js "foo" ++ [10]) [] =
    Ok (DPrim (VStr (js "foo" ++ [10]))) /\
  snd <$> safeLoad (fun t => t) (fun _ => NNaN) (fun n => n) (fun _ => NNaN) (js "|-" ++ [10] ++ js " foo" ++ [10]) [] =
    Ok (DPrim (VStr (js "foo"))).
Proof. vm_compute. done. Qed.
