(* ===== verification/YamlHoare.v ===== *)
(** * A Hoare logic for the YAML parser

    The parser is a program of a state monad with errors. [wpe E m s Q]: from
    [s], [m] gives a value and a state that satisfy [Q], or an error that
    [E] allows; and it does not run out of fuel unless [E] allows that. *)

From Stdlib Require Import String.
From S2P Require Import Prelude JsNumber JsString JsValue Regex YamlTypes YamlText YamlLoad.

Definition wpe (E : jserror -> Prop) {A} (m : ST lstate A) (s : lstate) (Q : A -> lstate -> Prop) : Prop :=
  match m s with
  | (s', Ok a) => Q a s'
  | (_, Throw e) => E e
  end.

Section logic.
Context {E : jserror -> Prop}.
#[local] Abbreviation wp := (wpe E).

Lemma wp_bind {A B} (m : ST lstate A) (f : A -> ST lstate B) s Q :
  wp m s (fun a s' => wp (f a) s' Q) -> wp (m ≫= f) s Q.
Proof. unfold wpe, mbind, st_bind. destruct (m s) as [s' [a|e]]; done. Qed.
Lemma wp_mono {A} (m : ST lstate A) s (P Q : A -> lstate -> Prop) :
  wp m s P -> (forall a s', P a s' -> Q a s') -> wp m s Q.
Proof. unfold wpe. destruct (m s) as [s' [a|e]]; auto. Qed.
Lemma wp_ret {A} (a : A) s Q : Q a s -> wp (mret a) s Q.
Proof. done. Qed.
Lemma wp_gets {A} (f : lstate -> A) s Q : Q (f s) s -> wp (gets f) s Q.
Proof. done. Qed.
Lemma wp_modify (f : lstate -> lstate) s (Q : unit -> lstate -> Prop) : Q tt (f s) -> wp (modify f) s Q.
Proof. done. Qed.
Lemma wpe_unless b s (Q : unit -> lstate -> Prop) : (b = true -> E ErrorMsg) -> (b = false -> Q tt s) -> wp (unless b) s Q.
Proof. destruct b; intros H1 H2; [by apply H1|by apply H2]. Qed.
Lemma wpe_lift {A} (r : res A) s (Q : A -> lstate -> Prop) : (forall e, r = Throw e -> E e) -> (forall a, r = Ok a -> Q a s) -> wp (lift r) s Q.
Proof. unfold wpe, lift. destruct r; auto. Qed.

Lemma wp_loop {A B} (body : A -> ST lstate (A + B)) (I : A -> lstate -> Prop) (mu : A -> lstate -> Z) Q :
  (forall a s, I a s -> wp (body a) s (fun r s' => match r with inl a' => I a' s' /\ mu a' s' < mu a s | inr b => Q b s' end)) ->
  forall fuel a s, I a s -> mu a s < Z.of_nat fuel -> 0 <= mu a s -> (forall a s, I a s -> 0 <= mu a s) -> wp (loop fuel body a) s Q.
Proof.
  intros Hb. induction fuel as [|f IH]; intros a s Ha Hm H0 Hp; [lia|]. cbn [loop]. apply wp_bind.
  eapply wp_mono; [by apply Hb|]. intros [a'|b] s' H; [|by apply wp_ret]. destruct H as [H1 H2].
  apply IH; [done|lia|by apply Hp|done].
Qed.

(** Reading the text. *)
Section text.
Context (input : jsstr).
#[local] Abbreviation code := (code input).
Definition last_char : Z := Z.of_nat (length input) - 1.

Lemma wp_while {A B} (body : A -> ST lstate (A + B)) (I : A -> lstate -> Prop) (mu : A -> lstate -> Z) Q a s :
  I a s -> (forall a s, I a s -> 0 <= mu a s <= last_char + 1) ->
  (forall a s, I a s -> wp (body a) s (fun r s' => match r with inl a' => I a' s' /\ mu a' s' < mu a s | inr b => Q b s' end)) ->
  wp (while_ input body a) s Q.
Proof.
  intros Ha Hm Hb. unfold while_. apply (wp_loop body I mu Q Hb); [done| |by apply Hm|intros; by apply Hm].
  specialize (Hm a s Ha). unfold last_char in Hm. lia.
Qed.

Lemma wp_ch s Q : Q (code (position s)) s -> wp (ch input) s Q.
Proof. done. Qed.
Lemma wp_peek n s Q : Q (code (position s + n)) s -> wp (peek input n) s Q.
Proof. done. Qed.
Lemma wp_skip n s (Q : unit -> lstate -> Prop) : Q tt (set_position (position s + n) s) -> wp (skip n) s Q.
Proof. done. Qed.

End text.
End logic.

(** The two cases of a test. *)
Ltac branch := match goal with |- wpe _ (if ?b then _ else _) _ _ => destruct b eqn:? end.
