(* ===== verification/YamlLoadEnds.v ===== *)
(** * Loading YAML comes to an end

    Every loop and every recursion of the parser consumes text: the relation that every reader keeps (the
    position never moves back, and stays within the text), and the theorem
    that loading ends on every input. *)

From Stdlib Require Import String.
From S2P Require Import Prelude JsNumber JsString JsValue Regex YamlTypes YamlText YamlLoad YamlHoare.

(** No error but the one for missing fuel is excluded. *)
#[local] Abbreviation wp := (wpe (fun e => e <> Unsupported)).

Lemma wp_throwError {A} s (Q : A -> lstate -> Prop) : wp throwError s Q.
Proof. done. Qed.
Lemma wp_unless b s (Q : unit -> lstate -> Prop) : (b = false -> Q tt s) -> wp (unless b) s Q.
Proof. by apply wpe_unless. Qed.
Lemma wp_lift {A} (r : res A) s (Q : A -> lstate -> Prop) : not_fuel r -> (forall a, r = Ok a -> Q a s) -> wp (lift r) s Q.
Proof. intros H. apply wpe_lift. intros e -> ->. by apply H. Qed.

Section ends.
Context (input : jsstr) (state : loader) (date_text : jsstr -> jsstr).
Abbreviation code := (code input).
Abbreviation last_char := (last_char input).

(** The text ends with a line break and the NUL, or it is the NUL. *)
Hypothesis Hend : 0 <= last_char /\ code last_char = 0 /\ (0 < last_char -> is_EOL (code (last_char - 1)) = true).

(** ** What every reader keeps *)

Definition good (s : lstate) : Prop :=
  0 <= position s <= last_char /\ lineStart s <= position s /\ 0 <= lineIndent s /\
  (position s = lineStart s -> lineIndent s = 0).
Definition same_pos (s s' : lstate) : Prop :=
  position s' = position s /\ lineStart s' = lineStart s /\ lineIndent s' = lineIndent s.
(** A node that has a tag or an anchor. *)
Definition tagged (s : lstate) : Prop := ntag s <> None \/ nanchor s <> None.
(** The same place, and no tag or anchor that was not there. *)
Definition same_place (s s' : lstate) : Prop := same_pos s s' /\ (tagged s' -> tagged s).
(** Onward: who does not move changes neither place nor tags. *)
Definition onward (s s' : lstate) : Prop :=
  good s' /\ position s <= position s' /\ (position s' = position s -> same_place s s').
Definition further (s s' : lstate) : Prop := good s' /\ position s < position s'.

Lemma same_refl s : same_place s s.
Proof. by split; [split_and!|]. Qed.
Lemma same_trans a b c : same_place a b -> same_place b c -> same_place a c.
Proof. intros [(? & ? & ?) ?] [(? & ? & ?) ?]. split; [repeat split; congruence|auto]. Qed.
Lemma same_at s s' : same_place s s' -> position s' = position s.
Proof. by intros [(? & _) _]. Qed.
Lemma onward_refl s : good s -> onward s s.
Proof. intros H. split; [done|]. split; [lia|]. intros _. apply same_refl. Qed.
Lemma onward_trans a b c : onward a b -> onward b c -> onward a c.
Proof.
  intros (H1 & H2 & H3) (H4 & H5 & H6). split; [done|]. split; [lia|]. intros E.
  apply (same_trans _ b); [apply H3|apply H6]; lia.
Qed.
Lemma further_onward a b c : further a b -> onward b c -> further a c.
Proof. intros [H1 H2] (H3 & H4 & _). split; [done|lia]. Qed.
Lemma onward_further a b c : onward a b -> further b c -> further a c.
Proof. intros (H3 & H4 & _) [H1 H2]. split; [done|lia]. Qed.
Lemma further_is_onward a b : further a b -> onward a b.
Proof. intros [H1 H2]. split; [done|]. split; [lia|]. lia. Qed.
Lemma onward_good a b : onward a b -> good b.
Proof. by intros [? _]. Qed.
Lemma same_onward a b c : same_place a b -> onward b c -> onward a c.
Proof.
  intros Hs (H1 & H2 & H3). pose proof (same_at _ _ Hs). split; [done|]. split; [lia|]. intros E.
  apply (same_trans _ b); [done|apply H3; lia].
Qed.
Lemma pos_good a b : same_pos a b -> good a -> good b.
Proof. intros (E1 & E2 & E3). unfold good. by rewrite E1, E2, E3. Qed.
Lemma same_good a b : same_place a b -> good a -> good b.
Proof. intros [H _]. by apply pos_good. Qed.
Lemma onward_same a b c : onward a b -> same_place b c -> onward a c.
Proof.
  intros (H1 & H2 & H3) Hs. pose proof (same_at _ _ Hs). split; [by eapply same_good|]. split; [lia|]. intros E.
  apply (same_trans _ b); [apply H3; lia|done].
Qed.
Lemma further_pos a b c : further a b -> same_pos b c -> further a c.
Proof. intros [H1 H2] Hs. split; [by eapply pos_good|]. destruct Hs as (-> & _). done. Qed.

(** Ahead: whatever happens to the tags. *)
Definition ahead (s s' : lstate) : Prop := good s' /\ position s <= position s'.
Lemma onward_ahead a b : onward a b -> ahead a b.
Proof. intros (H1 & H2 & _). by split. Qed.
Lemma further_ahead a b c : further a b -> ahead b c -> further a c.
Proof. intros [H1 H2] [H3 H4]. split; [done|lia]. Qed.
Lemma ahead_pos a b c : ahead a b -> same_pos b c -> ahead a c.
Proof. intros [H1 H2] Hs. split; [by eapply pos_good|]. destruct Hs as (-> & _). done. Qed.

(** Characters before the end. *)
Lemma before_end p : 0 <= p <= last_char -> code p <> 0 -> p < last_char.
Proof. intros Hp Hc. destruct (decide (p = last_char)) as [->|]; [|lia]. by destruct Hend as (_ & ? & _). Qed.
Lemma before_break p : 0 <= p <= last_char -> code p <> 0 -> is_EOL (code p) = false -> p + 1 < last_char.
Proof.
  intros Hp Hc He. pose proof (before_end p Hp Hc). destruct (decide (p + 1 = last_char)) as [E|]; [|lia].
  destruct Hend as (_ & _ & H3). rewrite <- E in H3. replace (p + 1 - 1) with p in H3 by lia. rewrite H3 in He; [done|lia].
Qed.

Lemma skip_while_wp (p : Z -> bool) s (Q : Z -> lstate -> Prop) : p 0 = false -> 0 <= position s <= last_char ->
  (forall n, 0 <= n -> position s + n <= last_char -> p (code (position s + n)) = false ->
             Q n (set_position (position s + n) s)) ->
  wp (skip_while input p) s Q.
Proof.
  intros Hp Hs HQ. unfold skip_while.
  apply (wp_while input _ (fun n s' => 0 <= n /\ position s + n <= last_char /\ s' = set_position (position s + n) s)
           (fun n _ => last_char - position s - n)).
  - split; [lia|]. split; [lia|]. rewrite Z.add_0_r. by destruct s.
  - intros n s'. lia.
  - intros n s' (H1 & H2 & ->). apply wp_bind, wp_ch. cbn [position set_position].
    destruct (p (code (position s + n))) eqn:E.
    + apply wp_bind, wp_skip, wp_ret. cbn [position set_position].
      assert (position s + n < last_char). { apply before_end; [lia|]. intros E0. rewrite E0 in E. congruence. }
      split; [|lia]. split; [lia|]. split; [lia|]. replace (position s + (n + 1)) with (position s + n + 1) by lia. by destruct s.
    + apply wp_ret. by apply HQ.
Qed.

(** ** Steps that do not move *)

Ltac same := split; [split_and!; reflexivity|exact (fun H => H)].
Ltac same_pos := split_and!; reflexivity.
Create HintDb still discriminated.
Definition still {A} (m : ST lstate A) : Prop := forall s, wp m s (fun _ s' => same_place s s').

Lemma still_bind {A B} (m : ST lstate A) (f : A -> ST lstate B) : still m -> (forall a, still (f a)) -> still (m ≫= f).
Proof.
  intros Hm Hf s. apply wp_bind. eapply wp_mono; [apply Hm|]. intros a s1 H1. eapply wp_mono; [apply Hf|].
  intros b s2 H2. exact (same_trans _ _ _ H1 H2).
Qed.
Lemma still_ret {A} (a : A) : still (mret a).
Proof. intros s. same. Qed.
Lemma still_gets {A} (f : lstate -> A) : still (gets f).
Proof. intros s. same. Qed.
Lemma still_modify f : (forall s, same_place s (f s)) -> still (modify f).
Proof. intros H s. apply H. Qed.
Lemma still_throw {A} : still (throwError (A := A)).
Proof. by intros s. Qed.
Lemma still_lift {A} (r : res A) : not_fuel r -> still (lift r).
Proof. intros H s. apply wp_lift; [done|]. intros. same. Qed.
Lemma still_unless b : still (unless b).
Proof. intros s. apply wp_unless. intros. same. Qed.
Lemma still_if {A} (b : bool) (m n : ST lstate A) : still m -> still n -> still (if b then m else n).
Proof. by destruct b. Qed.
Hint Resolve still_ret still_gets still_throw still_unless : still.

Ltac still :=
  repeat first
    [ done | apply still_bind; [|intros ?] | apply still_if | apply still_ret | apply still_gets | apply still_throw | apply still_unless
    | (apply still_modify; intros ?; repeat case_match; same) | progress auto with still | case_match ].

Lemma still_add_text t : still (add_text t).
Proof. unfold add_text. still. Qed.
Hint Resolve still_add_text : still.
Lemma still_capture a b j : still (captureSegment input a b j).
Proof. unfold captureSegment. still. Qed.
Lemma still_folded n : still (writeFoldedLines n).
Proof. unfold writeFoldedLines. still. Qed.
Lemma still_warning w : still (throwWarning state w).
Proof. apply still_modify. intros s. destruct (onWarning state); same. Qed.
Lemma still_alloc c : still (alloc c).
Proof. intros s. same. Qed.
Lemma still_update l c : still (update l c).
Proof. intros s. same. Qed.
Hint Resolve still_capture still_folded still_warning still_alloc still_update : still.
Lemma still_push l v : still (push_item l v).
Proof. unfold push_item. still. Qed.
Lemma still_object_at l : still (object_at l).
Proof. intros s. same. Qed.
Hint Resolve still_push still_object_at : still.
Lemma still_merge l v k : still (mergeMappings l v k).
Proof. unfold mergeMappings. still. Qed.
Hint Resolve still_merge : still.
Lemma still_merge_all l vs k : still (merge_all l vs k).
Proof. revert k. induction vs; intros k; cbn [merge_all]; still. Qed.
Hint Resolve still_merge_all : still.
Lemma still_store l k t a b : still (storeMappingPair state date_text l k t a b).
Proof. unfold storeMappingPair. still. Qed.
Lemma still_anchored v : still (set_anchored v).
Proof. apply still_modify. intros s. destruct (nanchor s); same. Qed.
Lemma still_set_result k v : still (modify (set_result k v)).
Proof. apply still_modify. intros s. same. Qed.
Hint Resolve still_store still_anchored still_set_result : still.

Lemma wp_still {A} (m : ST lstate A) s (Q : A -> lstate -> Prop) :
  still m -> (forall a s', same_place s s' -> Q a s') -> wp m s Q.
Proof. intros Hm HQ. eapply wp_mono; [apply Hm|]. intros a s' H. by apply HQ. Qed.

(** ** White space *)

Lemma good_skip s n : good s -> 0 < n -> position s + n <= last_char -> good (set_position (position s + n) s).
Proof. unfold good. cbn. lia. Qed.
Lemma further_skip s n : good s -> 0 < n -> position s + n <= last_char -> further s (set_position (position s + n) s).
Proof. intros. split; [by apply good_skip|]. cbn. lia. Qed.
Lemma onward_skip s n : good s -> 0 <= n -> position s + n <= last_char -> onward s (set_position (position s + n) s).
Proof.
  intros. destruct (decide (n = 0)) as [->|]; [|apply further_is_onward, further_skip; (done || lia)].
  rewrite Z.add_0_r. apply (onward_same s s); [by apply onward_refl|]. by destruct s.
Qed.

(** A line break, and the indentation set after it. *)
Lemma readLineBreak_wp s (Q : unit -> lstate -> Prop) : 0 <= position s <= last_char ->
  (forall s', position s < position s' <= last_char -> lineStart s' = position s' -> lineIndent s' = lineIndent s -> Q tt s') ->
  wp (readLineBreak input) s Q.
Proof.
  intros Hs HQ. unfold readLineBreak. apply wp_bind, wp_ch, wp_bind.
  assert (Hb : forall p, 0 <= p <= last_char -> code p <> 0 -> p + 1 <= last_char).
  { intros p Hp Hc. pose proof (before_end p Hp Hc). lia. }
  destruct (Z.eqb_spec (code (position s)) 10) as [E|].
  - apply wp_skip, wp_modify, HQ; cbn; [|done..]. pose proof (Hb (position s)). lia.
  - destruct (Z.eqb_spec (code (position s)) 13) as [E|]; [|apply wp_throwError].
    apply wp_bind, wp_skip, wp_bind, wp_ch. cbn [position set_position].
    pose proof (Hb (position s)). destruct (Z.eqb_spec (code (position s + 1)) 10) as [E1|].
    + apply wp_skip, wp_modify, HQ; cbn; [|done..]. pose proof (Hb (position s + 1)). lia.
    + apply wp_ret, wp_modify, HQ; cbn; [|done..]. lia.
Qed.

(** Skipping characters goes onward. *)
Lemma skip_while_onward p s (Q : Z -> lstate -> Prop) : p 0 = false -> good s ->
  (forall n s', 0 <= n -> onward s s' -> p (code (position s')) = false -> (p (code (position s)) = true -> further s s') -> Q n s') ->
  wp (skip_while input p) s Q.
Proof.
  intros Hp Hs HQ. apply skip_while_wp; [done|apply Hs|]. intros n Hn Hl Hc. apply HQ; [done|by apply onward_skip|done|].
  intros Ht. destruct (decide (n = 0)) as [->|]; [rewrite Z.add_0_r in Hc; congruence|]. apply further_skip; [done|lia|done].
Qed.

(** One character that is not the end. *)
Lemma skip_one_wp s (Q : unit -> lstate -> Prop) : good s -> code (position s) <> 0 ->
  (forall s', further s s' -> s' = set_position (position s + 1) s -> Q tt s') -> wp (skip 1) s Q.
Proof.
  intros Hs Hc HQ. apply wp_skip, HQ; [|done]. apply further_skip; [done|lia|].
  pose proof (before_end (position s) ltac:(apply Hs) Hc). lia.
Qed.

Lemma skip_comment_wp p s (Q : unit -> lstate -> Prop) : p 0 = false -> good s -> code (position s) <> 0 ->
  (forall s', further s s' -> Q tt s') -> wp (skip_comment input p) s Q.
Proof.
  intros Hp Hs Hc HQ. unfold skip_comment. apply wp_bind, skip_one_wp; [done..|]. intros s1 H1 _.
  apply wp_bind, skip_while_onward; [done|apply H1|]. intros n s2 _ H2 _ _. apply wp_ret, HQ. exact (further_onward _ _ _ H1 H2).
Qed.

(** The line break with the indentation of the next line. *)
Lemma next_line_wp {A} (f : Z -> ST lstate A) s (Q : A -> lstate -> Prop) : good s ->
  (forall n s', further s s' -> is_EOL 0 = false -> wp (f n) s' Q) ->
  wp (_ ← readLineBreak input; _ ← modify (set_lineIndent 0); n ← skip_while input (fun c => c =? SPACE);
      _ ← modify (set_lineIndent n); f n) s Q.
Proof.
  intros Hs HQ. apply wp_bind, readLineBreak_wp; [apply Hs|]. intros s1 P1 L1 I1. destruct Hs as ((G1 & G2) & _). apply wp_bind, wp_modify.
  apply wp_bind, skip_while_wp; [done|cbn; lia|]. intros n Hn Hl _. cbn [position set_lineIndent] in *.
  apply wp_bind, wp_modify. apply HQ; [|done]. unfold further, good. cbn. lia.
Qed.

Lemma skip_round_wp a n s (Q : Z + Z -> lstate -> Prop) : good s -> 0 <= n ->
  (forall n' s', 0 <= n' -> further s s' -> Q (inl n') s') ->
  (forall s', onward s s' -> is_EOL (code (position s')) = false -> Q (inr n) s') ->
  wp (skip_round input a n) s Q.
Proof.
  intros G Hn Hl Hr. unfold skip_round. apply wp_bind, wp_ch. destruct (Z.eqb_spec (code (position s)) 0) as [E0|E0].
  { apply wp_ret, Hr; [by apply onward_refl|]. by rewrite E0. }
  apply wp_bind, skip_while_onward; [done..|]. intros _ s1 _ H1 _ _. apply wp_bind, wp_ch, wp_bind.
  assert (Hc : forall Q' : unit -> lstate -> Prop, (forall s2, onward s s2 -> Q' tt s2) ->
    wp (if a && (code (position s1) =? chr "#") then skip_comment input in_line else mret tt) s1 Q').
  { intros Q' HQ'. destruct (a && _) eqn:Ea; [|by apply wp_ret, HQ'].
    apply andb_true_iff in Ea as [_ Ec%Z.eqb_eq]. apply skip_comment_wp; [done|by eapply onward_good|by rewrite Ec|].
    intros s2 H2. apply HQ'. eapply onward_trans; [exact H1|by apply further_is_onward]. }
  apply Hc. intros s2 H2. apply wp_bind, wp_ch. destruct (is_EOL (code (position s2))) eqn:E2.
  - apply next_line_wp; [by eapply onward_good|]. intros m s3 H3 _. apply wp_ret, Hl; [lia|]. exact (onward_further _ _ _ H2 H3).
  - by apply wp_ret, Hr.
Qed.

Lemma skip_separation_wp a k s (Q : Z -> lstate -> Prop) : good s ->
  (forall n s', 0 <= n -> onward s s' -> is_EOL (code (position s')) = false -> Q n s') ->
  wp (skipSeparationSpace input state a k) s Q.
Proof.
  intros Hs HQ. unfold skipSeparationSpace. apply wp_bind.
  apply (wp_while input _ (fun n s' => 0 <= n /\ onward s s') (fun _ s' => last_char - position s')).
  - split; [lia|by apply onward_refl].
  - intros n s' [_ ((H & _) & _)]. lia.
  - intros n s1 [Hn H1]. pose proof (onward_good _ _ H1) as G1. apply skip_round_wp; [done..| |].
    + intros n' s2 Hn' H2. split; [split; [done|]|destruct H2; lia].
      eapply onward_trans; [exact H1|by apply further_is_onward].
    + intros s2 H2 E2. apply wp_bind, wp_gets, wp_bind, wp_still; [still|]. intros _ s3 H3. apply wp_ret.
      apply HQ; [done| |by rewrite (same_at _ _ H3)]. eapply onward_same; [|exact H3]. exact (onward_trans _ _ _ H1 H2).
Qed.

(** A step that goes onward, or further. *)
Definition goes {A} (m : ST lstate A) : Prop := forall s, good s -> wp m s (fun _ s' => onward s s').
Lemma still_goes {A} (m : ST lstate A) : still m -> goes m.
Proof.
  intros Hm s Hs. apply wp_still; [done|]. intros a s' H. eapply onward_same; [by apply onward_refl|done].
Qed.
Lemma goes_bind {A B} (m : ST lstate A) (f : A -> ST lstate B) : goes m -> (forall a, goes (f a)) -> goes (m ≫= f).
Proof.
  intros Hm Hf s Hs. apply wp_bind. eapply wp_mono; [by apply Hm|]. intros a s1 H1.
  eapply wp_mono; [exact (Hf a s1 (onward_good _ _ H1))|]. intros b s2 H2. exact (onward_trans _ _ _ H1 H2).
Qed.
Lemma goes_if {A} (b : bool) (m n : ST lstate A) : goes m -> goes n -> goes (if b then m else n).
Proof. by destruct b. Qed.
Lemma goes_separation a k : goes (skipSeparationSpace input state a k).
Proof. intros s Hs. apply skip_separation_wp; [done|]. by intros. Qed.
Lemma wp_goes {A} (m : ST lstate A) s (Q : A -> lstate -> Prop) :
  goes m -> good s -> (forall a s', onward s s' -> Q a s') -> wp m s Q.
Proof. intros Hm Hs HQ. eapply wp_mono; [by apply Hm|]. intros a s' H. by apply HQ. Qed.

(** A reader: it says whether there was something, and then it took it. *)
Definition reads (m : ST lstate bool) : Prop :=
  forall s, good s -> wp m s (fun b s' => onward s s' /\ (b = true -> further s s')).

Lemma reads_false : reads (mret false).
Proof. intros s Hs. apply wp_ret. split; [by apply onward_refl|done]. Qed.
Lemma reads_or (a b : ST lstate bool) : reads a -> reads b -> reads (or_else a b).
Proof.
  intros Ha Hb s Hs. apply wp_bind. eapply wp_mono; [by apply Ha|]. intros [|] s1 [H1 H2]; [apply wp_ret; auto|].
  eapply wp_mono; [exact (Hb s1 (onward_good _ _ H1))|]. intros b' s2 [H3 H4].
  split; [exact (onward_trans _ _ _ H1 H3)|]. intros E. exact (onward_further _ _ _ H1 (H4 E)).
Qed.
Lemma further_same a b c : further a b -> same_place b c -> further a c.
Proof. intros H [Hs _]. exact (further_pos _ _ _ H Hs). Qed.

Lemma still_separator : still (at_document_separator input).
Proof. unfold at_document_separator, testDocumentSeparator. still. Qed.

(** ** Plain scalars *)

Definition text_left (s s' : lstate) : Prop := same_place s s' /\ result_text s' = result_text s.
Definition plain_inv (s0 : lstate) (k : capture) (s : lstate) : Prop :=
  onward s0 s /\ captureEnd k <= position s /\
  (pending k = None -> lineStart s <= captureEnd k /\ (captureEnd k = lineStart s -> lineIndent s = 0)) /\
  (pending k <> None -> is_EOL (code (position s)) = false) /\
  (position s0 < captureEnd k \/
   (k = Capture (position s0) (position s0) None /\ position s = position s0 /\ result_text s = [])).
Definition plain_done (s0 : lstate) (k : capture) (s : lstate) : Prop :=
  onward s0 s /\
  (position s0 < position s \/ (captureStart k = captureEnd k /\ result_text s = [])).

Lemma plain_inv_done s0 k s : plain_inv s0 k s -> plain_done s0 k s.
Proof. intros (H1 & H2 & _ & _ & H3). split; [done|]. destruct H3 as [H3|(-> & _ & H3)]; [left; lia|by right]. Qed.

Lemma flush_wp s0 k s (Q : capture -> lstate -> Prop) : plain_inv s0 k s ->
  (forall k' s', plain_inv s0 k' s' -> same_place s s' -> pending k' = None -> Q k' s') -> wp (flush input k) s Q.
Proof.
  intros HI HQ. unfold flush. destruct (pending k) as [l|] eqn:E.
  - apply wp_bind, wp_still; [still|]. intros _ s1 H1. apply wp_bind, wp_gets, wp_bind, wp_still; [still|].
    intros _ s2 H2. apply wp_bind, wp_gets, wp_ret. pose proof (same_trans _ _ _ H1 H2) as H.
    apply HQ; [|done..]. destruct HI as (I1 & I2 & _ & _ & I5). pose proof (onward_same _ _ _ I1 H) as Ho.
    split; [done|]. cbn. pose proof (onward_good _ _ Ho) as (G1 & G2 & G3 & G4). split; [lia|]. split; [auto|]. split; [done|].
    left. rewrite (same_at _ _ H). destruct I5 as [I5|(-> & _)]; [lia|done].
  - apply wp_ret, HQ; [done|same|done].
Qed.

Lemma plain_char_wp s0 k s : is_WS_OR_EOL (code (position s0)) = false ->
  plain_inv s0 k s -> code (position s) <> 0 ->
  wp (plain_char input (code (position s)) k) s
    (fun r s' => match r with inl k' => plain_inv s0 k' s' /\ position s < position s' | inr _ => False end).
Proof.
  intros Hws HI Hc. unfold plain_char. apply wp_bind, (flush_wp s0); [done|]. intros k1 s1 HI1 Hs1 Hp1.
  apply wp_bind, wp_gets, wp_bind. pose proof (same_at _ _ Hs1) as E1. destruct HI1 as (I1 & I2 & I3 & _ & I5).
  pose proof (onward_good _ _ I1) as G1. apply skip_one_wp; [done|by rewrite E1|].
  intros s2 H2 P2. apply wp_ret. split; [|destruct H2; lia]. destruct (I3 Hp1) as [I3a I3b].
  assert (Ho : onward s0 s2) by (eapply onward_trans; [exact I1|by apply further_is_onward]).
  assert (E4 : position s2 = position s1 + 1 /\ lineStart s2 = lineStart s1 /\ lineIndent s2 = lineIndent s1) by by subst s2.
  destruct E4 as (E4 & E5 & E6). destruct G1 as (G1 & G2 & G3 & G4). destruct I1 as (_ & I1 & _).
  split; [done|]. cbn [captureEnd pending captureStart]. destruct (is_WHITE_SPACE (code (position s))) eqn:Ew.
  - split; [lia|]. split; [intros _; by rewrite E5, E6|]. split; [done|]. left.
    destruct I5 as [I5|(-> & E7 & _)]; [done|]. rewrite <- E1, E7 in Ew. unfold is_WS_OR_EOL, is_WHITE_SPACE in *.
    by rewrite Ew in Hws.
  - split; [lia|]. split; [intros _; lia|]. split; [done|]. left. lia.
Qed.

Lemma plain_round_wp s0 n w k s : is_WS_OR_EOL (code (position s0)) = false -> 0 <= position s0 -> plain_inv s0 k s ->
  wp (plain_round input state n w k) s
    (fun r s' => match r with inl k' => plain_inv s0 k' s' /\ position s < position s' | inr k' => plain_done s0 k' s' end).
Proof.
  intros Hws G0 HI. unfold plain_round. apply wp_bind, wp_ch, wp_bind, wp_peek, wp_bind, wp_peek, wp_bind.
  assert (Hsep : forall Q : bool -> lstate -> Prop, (forall b, Q b s) -> wp (at_document_separator input) s Q) by (intros Q HQ; apply HQ).
  apply Hsep. intros sep. pose proof (plain_inv_done _ _ _ HI) as HD.
  assert (Hc : code (position s) <> 0 -> wp (plain_char input (code (position s)) k) s (fun r s' =>
    match r with inl k' => plain_inv s0 k' s' /\ position s < position s' | inr k' => plain_done s0 k' s' end)).
  { intros Hc. eapply wp_mono; [by apply (plain_char_wp s0)|]. by intros [k'|k'] s'. }
  destruct (Z.eqb_spec (code (position s)) 0) as [E0|E0]; [by apply wp_ret|]. specialize (Hc E0).
  branch; [branch; [by apply wp_ret|done]|]. branch; [branch; [by apply wp_ret|done]|].
  branch; [by apply wp_ret|]. destruct (is_EOL (code (position s))) eqn:Ee; [|done].
  apply wp_bind, wp_gets, wp_bind.
  assert (Hp : pending k = None).
  { destruct HI as (_ & _ & _ & I4 & _). destruct (pending k); [|done]. rewrite I4 in Ee; done. }
  pose proof HI as (I1 & I2 & I3 & _ & I5). pose proof (onward_good _ _ I1) as G. destruct (I3 Hp) as [I3a I3b].
  assert (I6 : position s0 < captureEnd k).
  { destruct I5 as [|(-> & E & _)]; [done|]. rewrite E in Ee. unfold is_WS_OR_EOL, is_EOL in *.
    rewrite !orb_false_iff in Hws. destruct Hws as [[_ H1] H2]. by rewrite H1, H2 in Ee. }
  apply skip_separation_wp; [done|]. intros m s1 _ H1 E1.
  apply wp_bind, wp_gets. destruct (n <=? lineIndent s1).
  - apply wp_ret. split.
    + split; [exact (onward_trans _ _ _ I1 H1)|]. cbn. destruct H1 as (_ & H1 & _). split; [lia|]. split; [done|]. split; [done|]. by left.
    + destruct H1 as ((G1 & _) & H1 & H2). destruct (decide (position s1 = position s)) as [E|]; [|lia].
      rewrite E in E1. congruence.
  - apply wp_bind, wp_modify, wp_ret. split; [|left; cbn; lia]. apply further_is_onward. unfold further, good in *. cbn. lia.
Qed.

Lemma plain_loop_wp s0 n w (Q : capture -> lstate -> Prop) : is_WS_OR_EOL (code (position s0)) = false -> good s0 ->
  result_text s0 = [] -> (forall k s, plain_done s0 k s -> Q k s) ->
  wp (while_ input (plain_round input state n w) (Capture (position s0) (position s0) None)) s0 Q.
Proof.
  intros Hws G Ht HQ. apply (wp_while input _ (plain_inv s0) (fun _ s => last_char - position s)).
  - split; [by apply onward_refl|]. cbn. split; [lia|]. split; [intros _; split; [apply G|intros E; by apply G]|]. split; [done|].
    by right.
  - intros k s (((H & _) & _) & _). lia.
  - intros k s HI. eapply wp_mono; [apply (plain_round_wp s0); [done|apply G|done]|]. intros [k'|k'] s' H; [|by apply HQ].
    destruct H as [H1 H2]. split; [done|lia].
Qed.

Lemma plain_reads n w : reads (readPlainScalar input state n w).
Proof.
  intros s0 G. unfold readPlainScalar, plain_start. apply wp_bind, wp_bind, wp_ch, wp_bind, wp_peek, wp_ret.
  destruct (negb (_ && _)) eqn:E; [apply wp_ret; split; [by apply onward_refl|done]|].
  apply negb_false_iff, andb_true_iff in E as [E _]. rewrite negb_true_iff, !orb_false_iff in E. destruct E as [[Hws _] _].
  apply wp_bind, wp_gets, wp_bind, wp_modify, wp_bind.
  set (s1 := set_result (Some scalar) (DPrim (VStr [])) s0). change (position s0) with (position s1) in *.
  apply (plain_loop_wp s1); [done|done|done|]. intros k s [H1 H2]. apply wp_bind.
  assert (Ho : forall s', same_place s s' -> onward s0 s') by (intros s' Hs'; apply (same_onward s0 s1); [same|by eapply onward_same]).
  assert (Hf : forall s', position s1 < position s -> same_place s s' -> further s0 s').
  { intros s' Hl Hs'. split; [by eapply onward_good, Ho|]. rewrite (same_at _ _ Hs'). done. }
  assert (Hcap : forall Q : unit -> lstate -> Prop, (forall s', same_place s s' -> (position s1 < position s \/ result_text s' = []) -> Q tt s') ->
    wp (captureSegment input (captureStart k) (captureEnd k) false) s Q).
  { intros Q HQ. destruct H2 as [H2|[E H2]].
    - apply wp_still; [still|]. intros [] s' Hs'. by apply HQ; [|left].
    - unfold captureSegment. rewrite E, Z.ltb_irrefl. apply wp_ret, HQ; [same|by right]. }
  apply Hcap. intros s2 Hs2 Hr. apply wp_bind, wp_gets. destruct (result_text s2) as [|c t] eqn:Et.
  - apply wp_bind, wp_modify, wp_ret. split; [|done]. apply Ho. apply (same_trans _ s2); [done|same].
  - apply wp_ret. split; [by apply Ho|]. intros _. destruct Hr as [Hr|]; [by apply Hf|done].
Qed.

(** ** Quoted scalars *)

Lemma wp_separator s (Q : bool -> lstate -> Prop) : (forall b, Q b s) -> wp (at_document_separator input) s Q.
Proof. intros HQ. apply HQ. Qed.
Lemma separation_further a k s (Q : Z -> lstate -> Prop) : good s -> is_EOL (code (position s)) = true ->
  (forall n s', further s s' -> Q n s') -> wp (skipSeparationSpace input state a k) s Q.
Proof.
  intros G E HQ. apply skip_separation_wp; [done|]. intros n s' _ (G' & Hp & _) E'. apply HQ. split; [done|].
  destruct (decide (position s' = position s)) as [Ep|]; [rewrite Ep in E'; congruence|lia].
Qed.

(** A round of a loop over characters. *)
Definition round_ok {A B} (m : ST lstate (A + B)) : Prop :=
  forall s, good s -> wp m s (fun r s' => match r with inl _ => further s s' | inr _ => onward s s' end).
Lemma while_goes {A B} (body : A -> ST lstate (A + B)) a : (forall a, round_ok (body a)) -> goes (while_ input body a).
Proof.
  intros Hb s Hs. apply (wp_while input _ (fun _ s' => onward s s') (fun _ s' => last_char - position s')).
  - by apply onward_refl.
  - intros _ s' ((H & _) & _). lia.
  - intros a' s1 H1. eapply wp_mono; [exact (Hb a' s1 (onward_good _ _ H1))|]. intros [a2|b] s2 H2.
    + split; [exact (onward_trans _ _ _ H1 (further_is_onward _ _ H2))|destruct H2; lia].
    + exact (onward_trans _ _ _ H1 H2).
Qed.

Lemma quoted_break_wp n k s : good s -> is_EOL (code (position s)) = true ->
  wp (quoted_break input state n k) s (fun r s' => match r with inl _ => further s s' | inr _ => onward s s' end).
Proof.
  intros G E. unfold quoted_break. apply wp_bind, wp_still; [still|]. intros _ s1 H1. apply wp_bind.
  assert (G1 : good s1) by by eapply same_good. assert (E1 : is_EOL (code (position s1)) = true) by by rewrite (same_at _ _ H1).
  apply separation_further; [done..|]. intros m s2 H2. apply wp_bind, wp_still; [still|]. intros _ s3 H3.
  apply wp_bind, wp_gets, wp_ret. eapply further_same; [|exact H3]. eapply onward_further; [|exact H2].
  eapply onward_same; [by apply onward_refl|done].
Qed.
Lemma quoted_char_wp k s : good s -> code (position s) <> 0 ->
  wp (quoted_char k) s (fun r s' => match r with inl _ => further s s' | inr _ => onward s s' end).
Proof. intros G E. apply wp_bind, skip_one_wp; [done..|]. intros s1 H1 _. by apply wp_bind, wp_gets, wp_ret. Qed.

Lemma skip_after_still {A} (m : ST lstate A) (f : ST lstate (Z * Z + bool)) s Q : still m -> good s -> code (position s) <> 0 ->
  (forall s', further s s' -> wp f s' Q) -> wp (_ ← m; _ ← skip 1; f) s Q.
Proof.
  intros Hm G Hc HQ. apply wp_bind, wp_still; [done|]. intros _ s1 H1. apply wp_bind, skip_one_wp; [by eapply same_good|by rewrite (same_at _ _ H1)|].
  intros s2 [G2 H2] _. apply HQ. split; [done|]. pose proof (same_at _ _ H1). lia.
Qed.

Lemma single_round_ok n k : round_ok (single_round input state n k).
Proof.
  intros s G. unfold single_round. apply wp_bind, wp_ch, wp_bind, wp_separator. intros sep. apply wp_bind, wp_gets.
  destruct (Z.eqb_spec (code (position s)) 0) as [E0|E0]; [apply wp_throwError|]. branch.
  - apply skip_after_still; [still|done..|]. intros s1 H1. apply wp_bind, wp_ch. branch.
    + apply wp_bind, skip_one_wp; [apply H1|by btrue; intros Ez; rewrite Ez in *|]. intros s2 H2 _. apply wp_ret.
      eapply onward_further; [apply further_is_onward, H1|done].
    + by apply wp_ret, further_is_onward.
  - branch; [by apply quoted_break_wp|]. branch; [apply wp_throwError|by apply quoted_char_wp].
Qed.

Lemma hex_digits_wp n : forall acc s, good s -> code (position s) <> 0 ->
  wp (hex_digits input n acc) s (fun _ s' => onward s s' /\ code (position s') <> 0).
Proof.
  induction n as [|n IH]; intros acc s G Hc; cbn [hex_digits]; [apply wp_ret; split; [by apply onward_refl|done]|].
  apply wp_bind, skip_one_wp; [done..|]. intros s1 H1 _. apply wp_bind, wp_ch. branch; [|apply wp_throwError].
  eapply wp_mono; [apply IH; [apply H1|]|].
  - intros E. by rewrite E in Heqb.
  - intros a s2 [H2 H3]. split; [|done]. exact (onward_trans _ _ _ (further_is_onward _ _ H1) H2).
Qed.

Lemma read_escape_wp n s (Q : unit -> lstate -> Prop) : good s -> code (position s) <> 0 ->
  (forall s', further s s' -> Q tt s') -> wp (read_escape input state n) s Q.
Proof.
  intros G Hc HQ. unfold read_escape. apply wp_bind, skip_one_wp; [done..|]. intros s1 H1 _. pose proof (proj1 H1) as G1.
  apply wp_bind, wp_ch. branch.
  { apply wp_bind, (wp_goes _ s1); [apply goes_separation|done|]. intros m s2 H2. apply wp_ret, HQ. exact (further_onward _ _ _ H1 H2). }
  assert (Hskip : forall (m : ST lstate unit) s2, still m -> onward s1 s2 -> code (position s2) <> 0 -> wp (_ ← m; skip 1) s2 Q).
  { intros m s2 Hm H2 E2. apply wp_bind, wp_still; [done|]. intros _ s3 H3. pose proof (onward_same _ _ _ H2 H3) as Ho.
    apply skip_one_wp; [by eapply onward_good|by rewrite (same_at _ _ H3)|]. intros s4 H4 _. apply HQ.
    eapply onward_further; [|exact H4]. apply further_is_onward. exact (further_onward _ _ _ H1 Ho). }
  destruct (simpleEscapeSequence (code (position s1))) as [x|] eqn:Es.
  - apply Hskip; [still|by apply onward_refl|]. intros E. by rewrite E in Es.
  - destruct (escapedHexLen (code (position s1))) as [|d] eqn:Ed; [apply wp_throwError|]. apply wp_bind.
    eapply wp_mono; [apply hex_digits_wp; [done|intros E; by rewrite E in Ed]|]. intros r s2 [H2 E2]. by apply Hskip; [still| |].
Qed.

Lemma double_round_ok n k : round_ok (double_round input state n k).
Proof.
  intros s G. unfold double_round. apply wp_bind, wp_ch, wp_bind, wp_separator. intros sep. apply wp_bind, wp_gets.
  destruct (Z.eqb_spec (code (position s)) 0) as [E0|E0]; [apply wp_throwError|]. branch.
  - apply skip_after_still; [still|done..|]. intros s1 H1. by apply wp_ret, further_is_onward.
  - branch.
    + apply wp_bind, wp_still; [still|]. intros _ s1 H1. assert (G1 : good s1) by by eapply same_good.
      apply wp_bind, read_escape_wp; [done|by rewrite (same_at _ _ H1)|]. intros s2 [G2 H2]. apply wp_bind, wp_gets, wp_ret.
      split; [done|]. pose proof (same_at _ _ H1). lia.
    + branch; [by apply quoted_break_wp|]. branch; [apply wp_throwError|by apply quoted_char_wp].
Qed.

(** A reader that starts with a character of its own. *)
Lemma reads_from {B} (m : ST lstate B) (after : B -> ST lstate bool) s : good s -> code (position s) <> 0 -> goes m -> (forall b, goes (after b)) ->
  wp (_ ← modify (set_result (Some scalar) (DPrim (VStr []))); _ ← skip 1; b ← m; after b) s
     (fun b s' => onward s s' /\ (b = true -> further s s')).
Proof.
  intros G Hc Hm Ha. apply wp_bind, wp_modify, wp_bind.
  set (s1 := set_result (Some scalar) (DPrim (VStr [])) s). assert (H1 : same_place s s1) by same.
  apply (skip_one_wp s1); [by eapply same_good|done|]. intros s2 H2 _. apply wp_bind, wp_goes; [done|apply H2|]. intros b s3 H3.
  apply wp_goes; [apply Ha|by eapply onward_good|]. intros b' s4 H4.
  assert (further s s4); [|split; [by apply further_is_onward|done]].
  exact (further_onward _ _ _ H2 (onward_trans _ _ _ H3 H4)).
Qed.

Lemma single_reads n : reads (readSingleQuotedScalar input state n).
Proof.
  intros s G. unfold readSingleQuotedScalar. apply wp_bind, wp_ch. branch; [by apply reads_false|]. btrue.
  apply (reads_from (gets position) (fun p => while_ input (single_round input state n) (p, p))); [done| |apply still_goes; still|].
  - intros E. by rewrite E in *.
  - intros p. apply while_goes. intros k. apply single_round_ok.
Qed.
Lemma double_reads n : reads (readDoubleQuotedScalar input state n).
Proof.
  intros s G. unfold readDoubleQuotedScalar. apply wp_bind, wp_ch. branch; [by apply reads_false|]. btrue.
  apply (reads_from (gets position) (fun p => while_ input (double_round input state n) (p, p))); [done| |apply still_goes; still|].
  - intros E. by rewrite E in *.
  - intros p. apply while_goes. intros k. apply double_round_ok.
Qed.

(** ** Block scalars *)

(** Where another character is, the position has moved. *)
Lemma moved s s' : onward s s' -> code (position s') <> code (position s) -> further s s'.
Proof.
  intros (G & H & _) Hc. split; [done|]. destruct (decide (position s' = position s)) as [E|]; [congruence|lia].
Qed.

Lemma header_round_ok n b : round_ok (header_round input n b).
Proof.
  intros s G. unfold header_round. apply wp_bind, wp_ch.
  destruct (Z.eqb_spec (code (position s)) 0) as [E0|E0]; [by apply wp_ret, onward_refl|].
  apply wp_bind, skip_one_wp; [done..|]. intros s1 H1 _. apply wp_bind, wp_ch.
  repeat (branch; try apply wp_throwError); apply wp_ret; by try apply further_is_onward.
Qed.
Lemma header_further n b s (Q : block_header -> lstate -> Prop) : good s -> code (position s) <> 0 ->
  (forall h s', further s s' -> Q h s') -> wp (while_ input (header_round input n) b) s Q.
Proof.
  intros G Hc HQ. apply (wp_while input _ (fun _ s' => onward s s') (fun _ s' => last_char - position s')).
  - by apply onward_refl.
  - intros _ s' ((H & _) & _). lia.
  - intros a s1 H1. pose proof (onward_good _ _ H1) as G1. unfold header_round. apply wp_bind, wp_ch.
    destruct (Z.eqb_spec (code (position s1)) 0) as [E0|E0].
    { apply wp_ret, HQ, moved; [done|]. by rewrite E0. }
    apply wp_bind, skip_one_wp; [done..|]. intros s2 H2 _. pose proof (onward_further _ _ _ H1 H2) as H.
    assert (Hd : onward s s2 /\ last_char - position s2 < last_char - position s1).
    { split; [by apply further_is_onward|destruct H2; lia]. }
    apply wp_bind, wp_ch. repeat (branch; try apply wp_throwError); apply wp_ret; by try apply HQ.
Qed.

Lemma skip_indent_wp fuel b : forall s, good s -> last_char - position s < Z.of_nat fuel ->
  wp (skip_indent input fuel b) s (fun _ s' => onward s s').
Proof.
  induction fuel as [|f IH]; intros s G Hf; [destruct G; lia|]. cbn [skip_indent].
  apply wp_bind, wp_ch, wp_bind, wp_gets. branch; [|by apply wp_ret, onward_refl]. apply andb_true_iff in Heqb0 as [_ Ec].
  btrue. pose proof (before_end (position s) ltac:(apply G) ltac:(by rewrite Ec)) as Hl.
  apply wp_bind, wp_modify, wp_bind, wp_skip.
  set (s1 := set_position (position (set_lineIndent (lineIndent s + 1) s) + 1) (set_lineIndent (lineIndent s + 1) s)).
  assert (H1 : further s s1) by (unfold further, good, s1 in *; cbn; lia).
  eapply wp_mono; [apply IH; [apply H1|unfold s1; cbn; lia]|]. intros u2 s2 H2.
  exact (onward_trans _ _ _ (further_is_onward _ _ H1) H2).
Qed.

Lemma still_chomp b : still (chomp b).
Proof. unfold chomp. still. Qed.
Hint Resolve still_chomp : still.

Lemma goes_skip_while p : p 0 = false -> goes (skip_while input p).
Proof. intros Hp s G. by apply skip_while_onward; [| |intros]. Qed.
Lemma goes_ret {A} (a : A) : goes (mret a).
Proof. apply still_goes, still_ret. Qed.

Lemma block_line_goes {A} (l : ST lstate A) : still l ->
  goes (_ ← l; start ← gets position; _ ← skip_while input in_line; fin ← gets position; captureSegment input start fin false).
Proof.
  intros Hl. apply goes_bind; [by apply still_goes|]. intros _. apply goes_bind; [apply still_goes, still_gets|]. intros start.
  apply goes_bind; [by apply goes_skip_while|]. intros _. apply goes_bind; [apply still_goes, still_gets|]. intros fin.
  apply still_goes. still.
Qed.

Lemma block_round_ok folding b : round_ok (block_round input folding b).
Proof.
  intros s G. unfold block_round. apply wp_bind, wp_ch.
  destruct (Z.eqb_spec (code (position s)) 0) as [E0|E0]; [by apply wp_ret, onward_refl|].
  apply wp_bind, readLineBreak_wp; [apply G|]. intros s1 P1 L1 I1. apply wp_bind, wp_modify.
  assert (H1 : further s (set_lineIndent 0 s1)) by (destruct G as ((G1 & G2) & _); unfold further, good; cbn; lia).
  apply wp_bind. eapply wp_mono; [apply skip_indent_wp; [apply H1|cbn; unfold last_char; pose proof (proj1 (proj1 G)); lia]|]. intros u2 s2 H2.
  pose proof (further_onward _ _ _ H1 H2) as H. apply wp_bind, wp_ch, wp_bind, wp_gets.
  set (h := if _ && _ then _ else _). cbv zeta. branch; [by apply wp_ret|]. branch.
  - apply wp_bind, wp_still; [still|]. intros _ s3 H3. apply wp_ret, further_is_onward. by eapply further_same.
  - destruct (block_break _ _ _) as [t more]. apply wp_bind, wp_still; [still|]. intros _ s3 H3.
    apply wp_bind, wp_gets, wp_bind, wp_goes; [by apply goes_skip_while|exact (same_good _ _ H3 (proj1 H))|]. intros u4 s4 H4.
    apply wp_bind, wp_gets, wp_bind, wp_still; [still|]. intros _ s5 H5. apply wp_ret. eapply further_same; [|exact H5].
    eapply further_onward; [|exact H4]. exact (further_same _ _ _ H H3).
Qed.

Lemma goes_comment p : p 0 = false -> forall s, good s -> code (position s) <> 0 -> wp (skip_comment input p) s (fun _ s' => onward s s').
Proof. intros Hp s G Hc. apply skip_comment_wp; [done..|]. intros s' H. by apply further_is_onward. Qed.

Lemma block_reads n : reads (readBlockScalar input n).
Proof.
  intros s G. unfold readBlockScalar. apply wp_bind, wp_ch. branch; [by apply reads_false|].
  apply wp_bind, wp_modify, wp_bind. set (s1 := set_result (Some scalar) (DPrim (VStr [])) s).
  assert (Hs : same_place s s1) by same. apply (header_further n _ s1); [by eapply same_good| |].
  { intros E. change (position s1) with (position s) in E. by rewrite E in Heqb. }
  intros h s2 H2. apply wp_bind, wp_ch, wp_bind.
  assert (Hspace : goes (if is_WHITE_SPACE (code (position s2))
    then _ ← skip_while input is_WHITE_SPACE; d ← ch input; if d =? chr "#" then skip_comment input in_line else mret tt
    else mret tt)).
  { apply goes_if; [|apply goes_ret]. apply goes_bind; [by apply goes_skip_while|]. intros _ s' G'. apply wp_bind, wp_ch.
    branch; [|by apply wp_ret, onward_refl]. btrue. apply goes_comment; [done..|]. by rewrite Heqb0. }
  apply (wp_goes _ s2 _ Hspace); [apply H2|]. intros _ s3 H3. apply wp_bind.
  eapply wp_mono; [apply (while_goes (block_round input (code (position s) =? chr ">"))); [intros; apply block_round_ok|by eapply onward_good]|].
  intros [] s4 H4. apply wp_ret.
  assert (further s s4); [|split; [by apply further_is_onward|done]].
  exact (further_onward _ _ _ H2 (onward_trans _ _ _ H3 H4)).
Qed.

(** ** Tags, anchors and aliases *)

Lemma tag_round_ok k : round_ok (tag_round input k).
Proof.
  intros s G. unfold tag_round. destruct k as [[start isNamed] handle]. apply wp_bind, wp_ch, wp_bind, wp_gets.
  branch; [by apply wp_ret, onward_refl|]. apply negb_false_iff, andb_true_iff in Heqb as [E _].
  assert (Hc : code (position s) <> 0) by (intros Ez; by rewrite Ez in E).
  branch.
  - branch; [apply wp_throwError|]. apply wp_bind, wp_unless. intros _. apply wp_bind, skip_one_wp; [done..|].
    intros s1 H1 _. by apply wp_ret.
  - apply wp_bind, skip_one_wp; [done..|]. intros s1 H1 _. by apply wp_ret.
Qed.

Lemma still_resolve_tag h n : still (resolve_tag h n).
Proof. unfold resolve_tag. still. Qed.
Lemma still_check n : still (check_tag_name n).
Proof. unfold check_tag_name. still. Qed.
Hint Resolve still_resolve_tag still_check : still.

(** After a first character, anything that goes ahead. *)
Lemma first_then (m : ST lstate bool) s : good s -> code (position s) <> 0 ->
  (forall s1, good s1 -> wp m s1 (fun _ s' => ahead s1 s')) ->
  wp (_ ← skip 1; m) s (fun b s' => onward s s' /\ (b = true -> further s s')).
Proof.
  intros G Hc Hm. apply wp_bind, skip_one_wp; [done..|]. intros s1 H1 _. eapply wp_mono; [exact (Hm s1 (proj1 H1))|].
  intros b s2 H2. assert (further s s2) by exact (further_ahead _ _ _ H1 H2). split; [by apply further_is_onward|done].
Qed.

Lemma goes_skip_below n s : 0 <= n -> position s + n <= last_char -> good s -> wp (skip n) s (fun _ s' => onward s s').
Proof. intros Hn Hl G. by apply wp_skip, onward_skip. Qed.

Lemma verbatim_goes s : good s -> code (position s) = chr "<" ->
  wp (_ ← skip 1; start ← gets position;
      _ ← skip 1; _ ← skip_while input (fun c => not_end c && negb (c =? chr ">"));
      p ← gets position;
      _ ← unless (negb (p <? Z.of_nat (length input) - 1));
      let name := text_between input start p in
      _ ← skip 1; _ ← check_tag_name name; _ ← modify (set_tag (Some name)); mret true) s (fun _ s' => ahead s s').
Proof.
  intros G E. assert (Hl : position s + 1 < last_char) by (apply before_break; [apply G|by rewrite E|by rewrite E]).
  apply wp_bind, skip_one_wp; [done|by rewrite E|]. intros s1 H1 E1. apply wp_bind, wp_gets, wp_bind.
  assert (Hl1 : position s1 + 1 <= last_char) by (subst s1; cbn; lia).
  eapply wp_mono; [apply goes_skip_below; [lia|done|apply H1]|]. intros u2 s2 H2.
  apply wp_bind, wp_goes; [by apply goes_skip_while|exact (onward_good _ _ H2)|]. intros u3 s3 H3.
  apply wp_bind, wp_gets, wp_bind, wp_unless. intros Hp. btrue. cbv zeta. apply wp_bind.
  eapply wp_mono; [apply goes_skip_below; [lia|unfold last_char; lia|by eapply onward_good]|]. intros u4 s4 H4.
  assert (Ho : onward s s4).
  { eapply onward_trans; [apply further_is_onward, H1|]. eapply onward_trans; [exact H2|]. exact (onward_trans _ _ _ H3 H4). }
  apply wp_bind, wp_still; [still|]. intros u5 s5 H5. apply wp_bind, wp_modify, wp_ret.
  apply (ahead_pos _ s5); [apply onward_ahead; by eapply onward_same|same_pos].
Qed.

Lemma tag_reads : reads (readTagProperty input).
Proof.
  intros s G. unfold readTagProperty. apply wp_bind, wp_ch. branch; [by apply reads_false|]. btrue.
  apply wp_bind, wp_gets, wp_bind, wp_unless. intros _. apply first_then; [done|by rewrite Heqb|].
  intros s1 G1. apply wp_bind, wp_ch. branch; [apply verbatim_goes; [done|by btrue]|]. cbv zeta.
  apply wp_bind.
  assert (H2 : wp (if code (position s1) =? chr "!" then skip 1 else mret tt) s1 (fun _ s' => onward s1 s')).
  { branch; [|by apply wp_ret, onward_refl]. btrue. apply skip_one_wp; [done|by rewrite Heqb1|]. intros s2 H2 _. by apply further_is_onward. }
  eapply wp_mono; [exact H2|]. intros u2 s2 Ho. apply wp_bind, wp_gets, wp_bind.
  apply wp_goes; [apply while_goes; intros; apply tag_round_ok|exact (onward_good _ _ Ho)|]. intros [start handle] s3 H3.
  apply wp_bind, wp_gets. cbv zeta. apply wp_bind, wp_still; [still|]. intros u4 s4 H4.
  apply wp_bind, wp_still; [still|]. intros u5 s5 H5. apply wp_bind, wp_still; [still|]. intros t s6 H6.
  apply wp_bind, wp_modify, wp_ret. apply (ahead_pos _ s6); [|same_pos]. apply onward_ahead.
  eapply onward_same; [|exact (same_trans _ _ _ H4 (same_trans _ _ _ H5 H6))]. exact (onward_trans _ _ _ Ho H3).
Qed.

Lemma read_name_wp s (Q : jsstr -> lstate -> Prop) : good s -> code (position s) <> 0 ->
  (forall n s', further s s' -> Q n s') -> wp (read_name input) s Q.
Proof.
  intros G Hc HQ. unfold read_name. apply wp_bind, skip_one_wp; [done..|]. intros s1 H1 _. apply wp_bind, wp_gets, wp_bind.
  apply wp_goes; [by apply goes_skip_while|apply H1|]. intros u s2 H2. apply wp_bind, wp_gets, wp_bind, wp_unless. intros _.
  apply wp_ret, HQ. exact (further_onward _ _ _ H1 H2).
Qed.
Lemma anchor_reads : reads (readAnchorProperty input).
Proof.
  intros s G. unfold readAnchorProperty. apply wp_bind, wp_ch. branch; [by apply reads_false|]. btrue.
  apply wp_bind, wp_gets, wp_bind, wp_unless. intros _. apply wp_bind, read_name_wp; [done|by rewrite Heqb|].
  intros n s1 H1. apply wp_bind, wp_modify, wp_ret. assert (further s (set_anchor (Some n) s1)) by (eapply further_pos; [done|same_pos]).
  split; [by apply further_is_onward|done].
Qed.
Lemma alias_reads : reads (readAlias input state).
Proof.
  intros s G. unfold readAlias. apply wp_bind, wp_ch. branch; [by apply reads_false|]. btrue.
  apply wp_bind, read_name_wp; [done|by rewrite Heqb|]. intros n s1 H1. apply wp_bind, wp_gets.
  destruct (assoc n (anchorMap s1)) as [v|]; [|apply wp_throwError]. apply wp_bind, wp_modify, wp_bind.
  set (s2 := set_result (nkind s1) v s1). assert (H2 : further s s2) by (eapply further_same; [done|same]).
  apply wp_goes; [apply goes_separation|apply H2|]. intros u s3 H3. apply wp_ret.
  assert (further s s3) by exact (further_onward _ _ _ H2 H3). split; [by apply further_is_onward|done].
Qed.

Lemma read_plain_reads n w : reads (read_plain input state n w).
Proof.
  intros s G. unfold read_plain. apply wp_bind. eapply wp_mono; [by apply plain_reads|]. intros b s1 [H1 H2].
  branch; [by apply wp_ret|]. btrue. subst b. apply wp_bind, wp_modify, wp_ret.
  match goal with |- onward s ?s2 /\ _ => assert (F : further s s2) end.
  { eapply further_pos; [by apply H2|]. destruct (ntag s1); same_pos. }
  split; [by apply further_is_onward|done].
Qed.
Lemma read_alias_reads : reads (read_alias input state).
Proof.
  intros s G. unfold read_alias. apply wp_bind. eapply wp_mono; [by apply alias_reads|]. intros b s1 [H1 H2].
  branch; [by apply wp_ret|]. btrue. apply wp_bind, wp_gets, wp_bind, wp_unless. intros _. apply wp_ret. auto.
Qed.
Lemma scalar_reads n c b : reads (read_scalar input state n c b).
Proof.
  intros s G. unfold read_scalar. apply wp_bind.
  assert (Hr : reads (or_else (if b then readBlockScalar input n else mret false)
            (or_else (readSingleQuotedScalar input state n)
            (or_else (readDoubleQuotedScalar input state n)
            (or_else (read_alias input state) (read_plain input state n (bool_decide (c = FLOW_IN)))))))).
  { apply reads_or; [destruct b; [apply block_reads|apply reads_false]|]. apply reads_or; [apply single_reads|].
    apply reads_or; [apply double_reads|]. apply reads_or; [apply read_alias_reads|apply read_plain_reads]. }
  eapply wp_mono; [by apply Hr|]. intros found s1 [H1 H2]. apply wp_bind, wp_gets, wp_bind, wp_still; [still|].
  intros u s2 H3. apply wp_ret. split; [by eapply onward_same|]. intros E. eapply further_same; [by apply H2|done].
Qed.

(** ** Collections *)

(** Chains of steps from a base. *)
Lemma on_goes {A} (m : ST lstate A) b s (Q : A -> lstate -> Prop) : goes m -> onward b s ->
  (forall a s', onward b s' -> Q a s') -> wp m s Q.
Proof.
  intros Hm Hb HQ. apply wp_goes; [done|exact (onward_good _ _ Hb)|]. intros a s' H. apply HQ. exact (onward_trans _ _ _ Hb H).
Qed.
Lemma on_still {A} (m : ST lstate A) b s (Q : A -> lstate -> Prop) : still m -> onward b s ->
  (forall a s', onward b s' -> Q a s') -> wp m s Q.
Proof. intros Hm. by apply on_goes, still_goes. Qed.
Lemma on_skip b s (Q : unit -> lstate -> Prop) : onward b s -> code (position s) <> 0 ->
  (forall s', further b s' -> Q tt s') -> wp (skip 1) s Q.
Proof.
  intros Hb Hc HQ. apply skip_one_wp; [exact (onward_good _ _ Hb)|done|]. intros s' H _. apply HQ. exact (onward_further _ _ _ Hb H).
Qed.
Lemma far_goes {A} (m : ST lstate A) b s (Q : A -> lstate -> Prop) : goes m -> further b s ->
  (forall a s', further b s' -> Q a s') -> wp m s Q.
Proof.
  intros Hm Hb HQ. apply wp_goes; [done|exact (proj1 Hb)|]. intros a s' H. apply HQ. exact (further_onward _ _ _ Hb H).
Qed.
Lemma far_still {A} (m : ST lstate A) b s (Q : A -> lstate -> Prop) : still m -> further b s ->
  (forall a s', further b s' -> Q a s') -> wp m s Q.
Proof. intros Hm. by apply far_goes, still_goes. Qed.

Lemma far_finish t a k l b s (Q : unit -> lstate -> Prop) : further b s -> (forall s', further b s' -> Q tt s') ->
  wp (finish t a k l) s Q.
Proof. intros Hb HQ. apply wp_modify, HQ. eapply further_pos; [done|same_pos]. Qed.

Definition is_block (c : context) : bool := match c with BLOCK_IN | BLOCK_OUT => true | _ => false end.
(** The fuel a node needs at a position: two for each character left, and one
    more where block collections are allowed, which try a flow node first. *)
Definition need (p : Z) (c : context) : Z := 2 * (last_char - p) + (if is_block c then 2 else 1).

Section collections.
Context (composeNode : Z -> context -> bool -> bool -> ST lstate bool) (fuel : Z).
Definition reads_at (m : ST lstate bool) (s : lstate) : Prop :=
  wp m s (fun b s' => onward s s' /\ (b = true -> further s s')).
Hypothesis Hcompose : forall parent c seek compact s, good s -> need (position s) c <= fuel ->
  reads_at (composeNode parent c seek compact) s.

Lemma on_compose parent c seek compact b s (Q : bool -> lstate -> Prop) : onward b s -> need (position s) c <= fuel ->
  (forall x s', onward s s' -> onward b s' -> (x = true -> further s s') -> Q x s') -> wp (composeNode parent c seek compact) s Q.
Proof.
  intros Hb Hf HQ. eapply wp_mono; [apply Hcompose; [exact (onward_good _ _ Hb)|done]|]. intros x s' [H1 H2].
  apply HQ; [done|exact (onward_trans _ _ _ Hb H1)|done].
Qed.

Lemma flow_value_wp n b s (Q : dval -> lstate -> Prop) : onward b s -> code (position s) <> 0 -> need (position s) FLOW_IN <= fuel ->
  (forall v s', onward b s' -> Q v s') -> wp (flow_value input state composeNode n) s Q.
Proof.
  intros Hb Hc Hf HQ. unfold flow_value. apply wp_bind, (skip_one_wp s); [exact (onward_good _ _ Hb)|done|]. intros s1 H1 _.
  pose proof (onward_trans _ _ _ Hb (further_is_onward _ _ H1)) as Hb1.
  apply wp_bind, wp_goes; [apply goes_separation|apply H1|]. intros _ s2 H2.
  apply wp_bind, (on_compose n FLOW_IN false true b); [exact (onward_trans _ _ _ Hb1 H2)| |].
  - unfold need in *. cbn [is_block] in *. destruct H1 as [_ H1], H2 as (_ & H2 & _). lia.
  - intros x s3 _ H3 _. by apply wp_gets, HQ.
Qed.

Lemma flow_round_wp n l m t k s0 s : t <> 0 -> good s -> position s0 < position s -> 2 * (last_char - position s0) <= fuel ->
  wp (flow_round input state date_text composeNode n l m t k) s (fun r s' => match r with
    | inl k' => onward s s' /\ (last_char - position s') + (if k'.1 then 1 else 0) < (last_char - position s) + (if k.1 : bool then 1 else 0)
    | inr _ => onward s s' end).
Proof.
  intros Ht G Hp Hf. unfold flow_round. destruct k as [readNext keys]. apply wp_bind, wp_ch. branch; [apply wp_throwError|].
  assert (Hn : forall s', onward s s' -> need (position s') FLOW_IN <= fuel).
  { intros s' (_ & H & _). unfold need. cbn. lia. }
  apply wp_bind, (on_goes _ s); [apply goes_separation|by apply onward_refl|]. intros _ s1 H1. apply wp_bind, wp_ch. branch.
  { btrue. apply wp_bind, (on_skip s); [done|congruence|]. intros s2 H2. by apply wp_ret, further_is_onward. }
  apply wp_bind, wp_unless. intros Hr. btrue. subst readNext. apply wp_bind, wp_peek, wp_bind.
  assert (Hx : forall b : bool, (b = true -> code (position s1) <> 0) -> forall Q : unit -> lstate -> Prop, (forall s2, onward s s2 -> Q tt s2) ->
    wp (if b then _ ← skip 1; _ ← skipSeparationSpace input state true n; mret tt else mret tt) s1 Q).
  { intros [|] Hb Q HQ; [|by apply wp_ret, HQ]. apply wp_bind, (on_skip s); [done|by apply Hb|]. intros s2 H2.
    apply wp_bind, (on_goes _ s); [apply goes_separation|by apply further_is_onward|]. intros _ s3 H3. by apply wp_ret, HQ. }
  apply Hx. { intros E Ez. rewrite Ez in E. done. }
  intros s2 H2. apply wp_bind, wp_gets, wp_bind, (on_compose n FLOW_IN false true s); [done|by apply Hn|]. intros x s3 _ H3 _.
  apply wp_bind, wp_gets, wp_bind, wp_gets, wp_bind, (on_goes _ s); [apply goes_separation|done|]. intros _ s4 H4.
  apply wp_bind, wp_ch, wp_bind, wp_gets. cbv zeta. apply wp_bind.
  set (hasValue := _ && (code (position s4) =? chr ":")).
  assert (Hv : forall Q : dval -> lstate -> Prop, (forall v s5, onward s s5 -> Q v s5) ->
    wp (if hasValue then flow_value input state composeNode n else mret (DPrim VNull)) s4 Q).
  { intros Q HQ. destruct hasValue eqn:Eh; [|by apply wp_ret, HQ]. unfold hasValue in Eh. apply andb_true_iff in Eh as [_ Eh%Z.eqb_eq].
    apply (flow_value_wp n s); [done|by rewrite Eh|by apply Hn|done]. }
  apply Hv. intros v s5 H5. apply wp_bind, (on_still _ s); [still|done|]. intros keys' s6 H6.
  apply wp_bind, (on_goes _ s); [apply goes_separation|done|]. intros _ s7 H7. apply wp_bind, wp_ch. branch.
  - btrue. apply wp_bind, (on_skip s); [done|by rewrite Heqb1|]. intros s8 H8. apply wp_ret. split; [by apply further_is_onward|].
    cbn [fst]. destruct H8. lia.
  - apply wp_ret. split; [done|]. cbn [fst]. destruct H7 as (_ & H7 & _). lia.
Qed.

Lemma flow_reads n s : good s -> 2 * (last_char - position s) <= fuel -> reads_at (readFlowCollection input state date_text composeNode n) s.
Proof.
  intros G Hf. unfold reads_at, readFlowCollection. apply wp_bind, wp_ch. branch; [by apply reads_false|]. cbv zeta.
  assert (Hc : code (position s) <> 0) by (intros E; rewrite E in Heqb; done).
  apply wp_bind, wp_gets, wp_bind, (wp_still _ s); [still|]. intros l s1 H1.
  apply wp_bind, (wp_still _ s1); [still|]. intros _ s2 H2. pose proof (same_trans _ _ _ H1 H2) as Hs.
  apply wp_bind, (on_skip s); [eapply onward_same; [by apply onward_refl|done]|by rewrite (same_at _ _ Hs)|]. intros s3 H3.
  apply wp_bind, (wp_while input _ (fun _ s' => further s s') (fun k s' => (last_char - position s') + (if k.1 : bool then 1 else 0))).
  - done.
  - intros k s' [(G' & _) Hp]. destruct G. destruct (k.1); lia.
  - intros k s' H'. eapply wp_mono; [apply (flow_round_wp _ _ _ _ _ s); [|apply H'|apply H'|done]|].
    { by destruct (_ =? chr "{"). }
    intros [k'|b] s4 H4.
    + destruct H4 as [H4 H5]. split; [exact (further_onward _ _ _ H' H4)|done].
    + apply wp_bind, (far_finish _ _ _ _ s); [exact (further_onward _ _ _ H' H4)|]. intros s5 H5. apply wp_ret.
      split; [by apply further_is_onward|done].
Qed.

Lemma sequence_round_wp n l d s : good s -> 2 * (last_char - position s) <= fuel ->
  wp (sequence_round input state composeNode n l d) s
     (fun r s' => match r with inl _ => further s s' | inr d' => onward s s' /\ (d' = true -> d = true \/ further s s') end).
Proof.
  intros G Hf. unfold sequence_round. apply wp_bind, wp_ch, wp_bind, wp_peek. branch.
  { apply wp_ret. split; [by apply onward_refl|by left]. }
  rewrite !orb_false_iff in Heqb. destruct Heqb as [[E0 _] _]. btrue. apply wp_bind, skip_one_wp; [done..|]. intros s1 H1 _.
  apply wp_bind, (far_goes _ s); [apply goes_separation|done|]. intros m s2 H2. apply wp_bind, wp_gets. branch.
  { apply wp_bind, (far_still _ s); [still|done|]. intros _ s3 H3. by apply wp_ret. }
  apply wp_bind, wp_gets, wp_bind. apply (on_compose n BLOCK_IN false true s); [by apply further_is_onward| |].
  { unfold need. cbn. destruct H2. lia. }
  intros x s3 H3 _ _. pose proof (further_onward _ _ _ H2 H3) as F3. apply wp_bind, wp_gets.
  apply wp_bind, (far_still _ s); [still|done|]. intros _ s4 H4.
  apply wp_bind, (far_goes _ s); [apply goes_separation|done|]. intros _ s5 H5.
  apply wp_bind, wp_ch, wp_bind, wp_gets, wp_bind, wp_gets. branch; [apply wp_throwError|].
  branch; apply wp_ret; [|done]. split; [by apply further_is_onward|by right].
Qed.

Lemma sequence_reads n s : good s -> 2 * (last_char - position s) <= fuel -> reads_at (readBlockSequence input state composeNode n) s.
Proof.
  intros G Hf. unfold reads_at, readBlockSequence.
  apply wp_bind, wp_gets, wp_bind, (wp_still _ s); [still|]. intros l s1 H1.
  apply wp_bind, (wp_still _ s1); [still|]. intros _ s2 H2. pose proof (same_trans _ _ _ H1 H2) as Hs.
  assert (H0 : onward s s2) by (eapply onward_same; [by apply onward_refl|done]).
  apply wp_bind, (wp_while input _ (fun d s' => onward s s' /\ (d = true -> further s s')) (fun _ s' => last_char - position s')).
  - done.
  - intros d s' (((H & _) & _) & _). lia.
  - intros d s' [H3 H4]. eapply wp_mono; [apply sequence_round_wp; [exact (onward_good _ _ H3)|destruct H3 as (_ & H3 & _); lia]|].
    intros [d'|d'] s4 H5.
    + pose proof (onward_further _ _ _ H3 H5) as F. split; [|destruct H5; lia]. split; [by apply further_is_onward|done].
    + destruct H5 as [H5 H6]. pose proof (onward_trans _ _ _ H3 H5) as O.
      assert (F : d' = true -> further s s4).
      { intros E. destruct (H6 E) as [Ed|F]; [exact (further_onward _ _ _ (H4 Ed) H5)|exact (onward_further _ _ _ H3 F)]. }
      branch; [|apply wp_ret; by split]. apply wp_bind, (far_finish _ _ _ _ s); [auto|]. intros s5 H7. apply wp_ret.
      split; [by apply further_is_onward|done].
Qed.

Lemma still_store_key l k v : still (store_key state date_text l k v).
Proof. unfold store_key. still. Qed.
Hint Resolve still_store_key : still.
Lemma still_store_explicit l k : still (store_explicit state date_text l k).
Proof. unfold store_explicit. still. Qed.
Hint Resolve still_store_explicit : still.

(** What a round of a block mapping says. *)
Definition pair_post (s : lstate) (was : bool) (r : pair_state + bool * pair_state) (s' : lstate) : Prop :=
  match r with
  | inl _ => further s s'
  | inr (kept, k) => onward s s' /\ (kept = true -> further s s') /\ (detected k = true -> was = true \/ further s s')
  end.

Lemma mapping_value_wp n l ln ac k s s1 was : further s s1 -> 2 * (last_char - position s) <= fuel ->
  wp (mapping_value input state date_text composeNode n l ln ac k) s1 (pair_post s was).
Proof.
  intros F Hf. unfold mapping_value. apply wp_bind, wp_gets, wp_bind, wp_gets, wp_bind.
  assert (Hr : forall b : bool, forall Q : pair_state -> lstate -> Prop, (forall k' s', further s s' -> Q k' s') ->
    wp (if b then
          composed ← composeNode n BLOCK_OUT true ac;
          v ← gets result;
          k ← (if atExplicitKey k
               then mret (if composed : bool then PairState (keys k) (keyTag k) v (atExplicitKey k) (detected k) else k)
               else store_key state date_text l k (if composed : bool then v else DPrim VNull));
          _ ← skipSeparationSpace input state true (-1); mret k
        else mret k) s1 Q).
  { intros [|] Q HQ; [|by apply wp_ret, HQ]. apply wp_bind, (on_compose n BLOCK_OUT true ac s); [by apply further_is_onward| |].
    { unfold need. cbn. destruct F. lia. }
    intros x s2 H2 _ _. pose proof (further_onward _ _ _ F H2) as F2. apply wp_bind, wp_gets, wp_bind, (far_still _ s); [still|done|].
    intros k' s3 F3. apply wp_bind, (far_goes _ s); [apply goes_separation|done|]. intros _ s4 F4. by apply wp_ret, HQ. }
  apply Hr. intros k' s2 F2. apply wp_bind, wp_ch, wp_bind, wp_gets. branch; [apply wp_throwError|].
  branch; apply wp_ret; [|done]. cbn. split; [by apply further_is_onward|]. split; [done|by right].
Qed.

Lemma explicit_entry_wp n l k s : good s -> 2 * (last_char - position s) <= fuel -> code (position s) <> 0 ->
  wp (explicit_entry input state date_text composeNode n l (code (position s)) k) s (pair_post s (detected k)).
Proof.
  intros G Hf Hc. unfold explicit_entry. apply wp_bind, wp_gets, wp_bind. apply wp_still; [still|]. intros k' s1 H1.
  assert (O1 : onward s s1) by (eapply onward_same; [by apply onward_refl|done]).
  apply wp_bind, (on_skip s); [done|by rewrite (same_at _ _ H1)|]. intros s2 H2. by apply mapping_value_wp.
Qed.

Lemma implicit_entry_wp n fl l k s : good s -> 2 * (last_char - position s) + 1 <= fuel ->
  wp (implicit_entry input state date_text composeNode n fl l k) s (pair_post s (detected k)).
Proof.
  intros G Hf. unfold implicit_entry. apply wp_bind, wp_gets, wp_bind, (on_compose fl FLOW_OUT false true s); [by apply onward_refl|unfold need; cbn; lia|].
  intros x s1 O1 _ H1. branch; [apply wp_ret; cbn; split; [done|split; [done|by left]]|]. btrue. subst x. specialize (H1 eq_refl).
  assert (Hkeep : forall s', further s s' -> pair_post s (detected k) (inr (true, k)) s').
  { intros s' F. split; [by apply further_is_onward|]. split; [done|by left]. }
  apply wp_bind, wp_gets. branch.
  { branch; [apply wp_throwError|by apply wp_ret, Hkeep]. }
  apply wp_bind, (far_goes _ s); [by apply goes_skip_while|done|]. intros _ s2 F2. apply wp_bind, wp_ch. branch.
  - btrue. apply wp_bind, (on_skip s); [by apply further_is_onward|by rewrite Heqb0|]. intros s3 F3.
    apply wp_bind, wp_ch, wp_bind, wp_unless. intros _. apply wp_bind, wp_gets, wp_bind, wp_gets, wp_bind, (far_still _ s); [still|done|].
    intros k' s4 F4. apply mapping_value_wp; [done|lia].
  - branch; [apply wp_throwError|by apply wp_ret, Hkeep].
Qed.

Lemma mapping_round_wp n fl l k s : good s -> 2 * (last_char - position s) + 1 <= fuel ->
  wp (mapping_round input state date_text composeNode n fl l k) s (pair_post s (detected k)).
Proof.
  intros G Hf. unfold mapping_round. apply wp_bind, wp_ch, wp_bind, wp_peek. branch.
  { apply wp_ret. split; [by apply onward_refl|]. split; [done|by left]. }
  btrue. branch; [apply explicit_entry_wp; [done|lia|done]|by apply implicit_entry_wp].
Qed.

Lemma mapping_reads n fl s : good s -> 2 * (last_char - position s) + 1 <= fuel ->
  reads_at (readBlockMapping input state date_text composeNode n fl) s.
Proof.
  intros G Hf. unfold reads_at, readBlockMapping.
  apply wp_bind, wp_gets, wp_bind, (wp_still _ s); [still|]. intros l s1 H1.
  apply wp_bind, (wp_still _ s1); [still|]. intros _ s2 H2. pose proof (same_trans _ _ _ H1 H2) as Hs.
  assert (H0 : onward s s2) by (eapply onward_same; [by apply onward_refl|done]).
  apply wp_bind, (wp_while input _ (fun k s' => onward s s' /\ (detected k = true -> further s s')) (fun _ s' => last_char - position s')).
  - done.
  - intros k s' (((H & _) & _) & _). lia.
  - intros k s' [H3 H4]. eapply wp_mono; [apply mapping_round_wp; [exact (onward_good _ _ H3)|destruct H3 as (_ & H3 & _); lia]|].
    intros [k'|[kept k']] s4 H5; cbn [pair_post] in H5.
    + pose proof (onward_further _ _ _ H3 H5) as F. split; [|destruct H5; lia]. split; [by apply further_is_onward|done].
    + destruct H5 as (H5 & H6 & H7). pose proof (onward_trans _ _ _ H3 H5) as O.
      assert (F : detected k' = true -> further s s4).
      { intros E. destruct (H7 E) as [Ed|F]; [exact (further_onward _ _ _ (H4 Ed) H5)|exact (onward_further _ _ _ H3 F)]. }
      branch.
      * pose proof (onward_further _ _ _ H3 (H6 eq_refl)) as F'. apply wp_bind, wp_modify.
        assert (F5 : further s (set_anchor (nanchor s) (set_tag (ntag s) s4))) by (eapply further_pos; [exact F'|same_pos]).
        apply wp_ret. split; [by apply further_is_onward|done].
      * apply wp_bind.
        assert (Hd : forall Q : pair_state -> lstate -> Prop, (forall k'' s5, detected k'' = detected k' -> same_place s4 s5 -> Q k'' s5) ->
          wp (store_explicit state date_text l k') s4 Q).
        { intros Q HQ. unfold store_explicit. branch; [|apply wp_ret, HQ; [done|same]]. unfold store_key.
          apply wp_bind, wp_still; [still|]. intros keys' s5 Hs5. by apply wp_ret, HQ. }
        apply Hd. intros k'' s5 Ek Hs5. branch; [|apply wp_ret; split; [by eapply onward_same|done]].
        assert (F5 : further s s5) by (eapply further_same; [apply F; congruence|done]).
        apply wp_bind, (far_finish _ _ _ _ s); [done|]. intros s6 F6. apply wp_ret. split; [by apply further_is_onward|done].
Qed.
End collections.

(** ** Nodes *)

(** Constructing a value is no loop. *)
Hypothesis Htypes : forall t, t ∈ implicit_types state \/ (exists k, assoc k (typeMap state) = Some t) ->
  forall h v, not_fuel (construct t h v).

Lemma still_construct t : t ∈ implicit_types state \/ (exists k, assoc k (typeMap state) = Some t) -> still (construct_as t).
Proof.
  intros Ht. unfold construct_as. apply still_bind; [still|]. intros s. apply still_bind; [by apply still_lift, Htypes|].
  intros [h v]. still.
Qed.
Lemma resolve_implicit_wp types : types ⊆ implicit_types state -> forall s, tagged s ->
  wp (resolve_implicit types) s (fun _ s' => same_place s s').
Proof.
  induction types as [|t types IH]; intros Hs s Ht; cbn [resolve_implicit]; [apply wp_ret, same_refl|].
  apply wp_bind, wp_gets. branch.
  - apply wp_bind, wp_still; [apply still_construct; left; apply Hs; by left|]. intros _ s1 H1. apply wp_modify.
    split; [apply H1|done].
  - apply IH; [|done]. intros x Hx. apply Hs. by right.
Qed.
Lemma still_resolve_node : still (resolve_node state).
Proof.
  intros s. unfold resolve_node. apply wp_bind, wp_gets. destruct (ntag s) as [t|] eqn:Et; [|apply wp_ret, same_refl].
  branch; [apply wp_ret, same_refl|]. branch; [apply resolve_implicit_wp; [done|left; congruence]|].
  destruct (assoc t (typeMap state)) as [ty|] eqn:Ea; [|apply wp_throwError].
  apply wp_bind, wp_unless. intros _. apply wp_bind, wp_unless. intros _. apply still_construct. right. by exists t.
Qed.
Hint Resolve still_resolve_node : still.

Lemma property_round_wp pi allow k s : good s -> (k.2 = true -> allow = true) ->
  wp (property_round input state pi allow k) s (fun r s' => match r with
    | inl k' => further s s' /\ (k'.2 = true -> allow = true)
    | inr k' => onward s s' /\ (k'.2 = true -> allow = true) end).
Proof.
  intros G Hk. unfold property_round. destruct k as [[st nl] al]. apply wp_bind.
  eapply wp_mono; [by apply tag_reads|]. intros t s1 [H1 H2]. apply wp_bind.
  assert (Ha : forall Q : bool -> lstate -> Prop, (forall b s2, onward s s2 -> (b = true -> further s s2) -> Q b s2) ->
    wp (if t then mret true else readAnchorProperty input) s1 Q).
  { intros Q HQ. destruct t; [apply wp_ret, HQ; auto|]. eapply wp_mono; [apply anchor_reads; exact (onward_good _ _ H1)|].
    intros b s2 [H3 H4]. apply HQ; [exact (onward_trans _ _ _ H1 H3)|]. intros E. exact (onward_further _ _ _ H1 (H4 E)). }
  apply Ha. intros a s2 O2 F2. branch; [by apply wp_ret|]. btrue. subst a. specialize (F2 eq_refl).
  apply wp_bind, (far_goes _ s); [apply goes_separation|done|]. intros n s3 F3. apply wp_bind, wp_gets.
  branch; apply wp_ret; done.
Qed.

Section node.
Context (compose : Z -> context -> bool -> bool -> ST lstate bool) (fuel : Z).
Hypothesis Hcompose : forall parent c seek compact s, good s -> need (position s) c <= fuel ->
  reads_at (compose parent c seek compact) s.

Lemma node_content_wp pi c allow alc st s : good s -> need (position s) c <= fuel + 1 -> (alc = true -> is_block c = true) ->
  reads_at (node_content input state date_text compose pi c allow alc st) s.
Proof.
  intros G Hf Hal. unfold reads_at, node_content. apply wp_bind, wp_gets. cbv zeta.
  set (fi := if _ || _ then pi else _). set (bi := position s - lineStart s).
  assert (Hroom : 2 * (last_char - position s) <= fuel) by (unfold need in Hf; destruct (is_block c); lia).
  assert (Hor : forall a b : ST lstate bool, reads_at a s -> (forall s', onward s s' -> reads_at b s') -> reads_at (or_else a b) s).
  { intros a b Ha Hb. apply wp_bind. eapply wp_mono; [exact Ha|]. intros [|] s1 [H1 H2]; [apply wp_ret; auto|].
    eapply wp_mono; [exact (Hb s1 H1)|]. intros b' s2 [H3 H4].
    split; [exact (onward_trans _ _ _ H1 H3)|]. intros E. exact (onward_further _ _ _ H1 (H4 E)). }
  assert (Hfalse : reads_at (mret false) s) by by apply reads_false.
  branch.
  - apply Hor; [apply Hor|].
    + destruct alc; [|done]. specialize (Hal eq_refl). unfold need in Hf. rewrite Hal in Hf.
      apply Hor; [by apply (sequence_reads _ fuel Hcompose)|].
      intros s' H. apply (mapping_reads _ fuel Hcompose); [exact (onward_good _ _ H)|]. destruct H as (_ & H & _). lia.
    + intros s' H. apply (flow_reads _ fuel Hcompose); [exact (onward_good _ _ H)|]. destruct H as (_ & H & _). lia.
    + intros s' H. apply scalar_reads. exact (onward_good _ _ H).
  - branch; [|done]. by apply (sequence_reads _ fuel Hcompose).
Qed.
End node.

Lemma compose_reads f : forall parent c seek compact s, good s -> need (position s) c <= Z.of_nat f ->
  reads_at (composeNode input state date_text f parent c seek compact) s.
Proof.
  induction f as [|f IH]; intros parent c seek compact s G Hf.
  { unfold need in Hf. destruct G as ((G1 & G2) & _), (is_block c); lia. }
  unfold reads_at. cbn [composeNode]. apply wp_bind, wp_modify.
  set (s0 := set_result None (DPrim VNull) (set_anchor None (set_tag None s))).
  assert (H0 : same_pos s s0) by same_pos. assert (G0 : good s0) by by eapply pos_good.
  assert (Hnot : ~ tagged s0) by (intros [?|?]; done).
  change (position s) with (position s0) in Hf.
  assert (Hback : forall b s', onward s0 s' -> (b = true -> further s0 s') -> onward s s' /\ (b = true -> further s s')).
  { intros b s' (O1 & O2 & O3) F. split; [|intros E; destruct (F E); by split]. split; [done|]. split; [done|]. intros E.
    destruct (O3 E) as [P1 P2]. split; [done|]. intros Ht. by destruct (Hnot (P2 Ht)). }
  apply wp_bind. assert (Hseek : goes (if seek then skipSeparationSpace input state true (-1) else mret 0)).
  { apply goes_if; [apply goes_separation|apply goes_ret]. }
  apply wp_goes; [done..|]. intros n s1 O1. apply wp_bind, wp_gets. cbv zeta.
  set (allow := bool_decide (c = BLOCK_OUT) || bool_decide (c = BLOCK_IN)).
  assert (Hallow : allow = is_block c) by by destruct c.
  set (st := if negb (n =? 0) then _ else 1). apply wp_bind.
  assert (Hprops : forall Q : Z * bool * bool -> lstate -> Prop, (forall k s2, onward s0 s2 -> (k.2 = true -> allow = true) -> Q k s2) ->
    wp (if st =? 1 then while_ input (property_round input state parent allow) (st, negb (n =? 0), allow)
        else mret (st, negb (n =? 0), allow)) s1 Q).
  { intros Q HQ. branch; [|by apply wp_ret, HQ].
    apply (wp_while input _ (fun k s' => onward s0 s' /\ (k.2 = true -> allow = true)) (fun _ s' => last_char - position s')).
    - done.
    - intros k s' [((H & _) & _) _]. lia.
    - intros k s' [H1 H2]. eapply wp_mono; [apply property_round_wp; [exact (onward_good _ _ H1)|exact H2]|].
      intros [k'|k'] s2 [H3 H4].
      + split; [|destruct H3; lia]. split; [|done]. exact (onward_trans _ _ _ H1 (further_is_onward _ _ H3)).
      + apply HQ; [exact (onward_trans _ _ _ H1 H3)|done]. }
  apply Hprops. intros [[st' nl] al] s2 O2 Hal. apply wp_bind.
  assert (Hcontent : reads_at (if (st' =? 1) || bool_decide (c = BLOCK_OUT)
      then node_content input state date_text (composeNode input state date_text f) parent c allow (al && (nl || compact)) st'
      else mret false) s2).
  { unfold reads_at. branch; [|apply reads_false; exact (onward_good _ _ O2)].
    apply (node_content_wp _ (Z.of_nat f) IH); [exact (onward_good _ _ O2)| |].
    - destruct O2 as (_ & O2 & _). unfold need in *. lia.
    - intros [Ha _]%andb_true_iff. rewrite <- Hallow. by apply Hal. }
  eapply wp_mono; [exact Hcontent|]. intros found s3 [O3 F3]. apply wp_bind, (wp_still _ s3); [apply still_resolve_node|]. intros u s4 H4.
  apply wp_bind, wp_gets, wp_ret. pose proof (onward_same _ _ _ (onward_trans _ _ _ O2 O3) H4) as O4. apply Hback; [done|].
  intros E. destruct (decide (position s4 = position s0)) as [Ep|Ep]; [|destruct O4 as (? & ? & _); split; [done|lia]].
  exfalso. destruct O4 as (_ & _ & O4). destruct (O4 Ep) as [_ Ht]. apply orb_true_iff in E as [E|E].
  - apply orb_true_iff in E as [E|E].
    + destruct (F3 E) as [_ Hl]. pose proof (same_at _ _ H4). destruct O2 as (_ & O2 & _). lia.
    + apply Hnot, Ht. left. by destruct (ntag s4).
  - apply Hnot, Ht. right. by destruct (nanchor s4).
Qed.

(** ** Directives *)

(** A step along the line: only the position moves. *)
Definition along (s s' : lstate) : Prop := exists p, position s <= p <= last_char /\ s' = set_position p s.
Lemma along_refl s : good s -> along s s.
Proof. intros G. exists (position s). split; [destruct G; lia|by destruct s]. Qed.
Lemma along_trans a b c : along a b -> along b c -> along a c.
Proof. intros (p & H1 & ->) (q & H2 & ->). exists q. cbn in *. split; [lia|done]. Qed.
Lemma along_indent a b : along a b -> lineIndent b = lineIndent a.
Proof. by intros (p & _ & ->). Qed.
Lemma along_onward a b : good a -> along a b -> onward a b.
Proof.
  intros G (p & H & ->). replace p with (position a + (p - position a)) in * by lia. apply onward_skip; [done|lia|lia].
Qed.
Lemma along_good a b : good a -> along a b -> good b.
Proof. intros G H. exact (onward_good _ _ (along_onward _ _ G H)). Qed.

Lemma skip_while_along p s (Q : Z -> lstate -> Prop) : p 0 = false -> good s ->
  (forall n s', along s s' -> p (code (position s')) = false -> (p (code (position s)) = true -> position s < position s') -> Q n s') ->
  wp (skip_while input p) s Q.
Proof.
  intros Hp Hs HQ. apply skip_while_wp; [done|apply Hs|]. intros n Hn Hl Hc.
  apply HQ; [eexists; split; [|reflexivity]; lia|done|]. intros Ht. cbn.
  destruct (decide (n = 0)) as [->|]; [rewrite Z.add_0_r in Hc; congruence|lia].
Qed.
Lemma skip_one_along s (Q : unit -> lstate -> Prop) : good s -> code (position s) <> 0 ->
  (forall s', along s s' -> position s < position s' -> Q tt s') -> wp (skip 1) s Q.
Proof.
  intros Hs Hc HQ. apply skip_one_wp; [done..|]. intros s' [G H] ->. apply HQ; [|done]. eexists. split; [|reflexivity].
  destruct G as (G & _). cbn in *. lia.
Qed.

(** The words of a directive: each round takes something of the line. *)
Lemma argument_round_wp args s : good s ->
  wp (argument_round input args) s (fun r s' => along s s' /\ match r with inl _ => position s < position s' | inr _ => True end).
Proof.
  intros G. unfold argument_round. apply wp_bind, wp_ch. branch; [apply wp_ret; split; [by apply along_refl|done]|].
  apply wp_bind, skip_while_along; [done..|]. intros _ s1 H1 Hw1 Hm1. pose proof (along_good _ _ G H1) as G1.
  apply wp_bind, wp_ch. branch.
  { apply Z.eqb_eq in Heqb0. apply wp_bind. unfold skip_comment. apply wp_bind, skip_one_along; [done|by rewrite Heqb0|].
    intros s2 H2 _. apply wp_bind, skip_while_along; [done|by eapply along_good|]. intros _ s3 H3 _ _. apply wp_ret, wp_ret.
    split; [|done]. exact (along_trans _ _ _ H1 (along_trans _ _ _ H2 H3)). }
  branch; [by apply wp_ret|]. apply wp_bind, wp_gets, wp_bind, skip_while_along; [done..|]. intros _ s2 H2 _ Hm2.
  apply wp_bind, wp_gets, wp_ret. split; [exact (along_trans _ _ _ H1 H2)|].
  destruct H1 as (p & P1 & ->), H2 as (q & P2 & ->). cbn in *.
  destruct (is_WHITE_SPACE (code (position s))) eqn:Ew; [specialize (Hm1 eq_refl); lia|].
  destruct (decide (p = position s)) as [->|]; [|lia]. apply Hm2. apply Z.eqb_neq in Heqb.
  unfold in_word, is_WS_OR_EOL, not_end. unfold is_WHITE_SPACE in Ew. unfold is_EOL in Heqb1. rewrite Ew.
  destruct (Z.eqb_spec (code (position s)) 0); [done|]. cbn. unfold is_WHITE_SPACE in *. by rewrite Heqb1.
Qed.
Lemma arguments_wp s (Q : list jsstr -> lstate -> Prop) : good s -> (forall args s', along s s' -> Q args s') ->
  wp (while_ input (argument_round input) []) s Q.
Proof.
  intros G HQ. apply (wp_while input _ (fun _ s' => along s s') (fun _ s' => last_char - position s')).
  - by apply along_refl.
  - intros _ s' (p & H & ->). destruct G as (G & _). cbn. lia.
  - intros args s1 H1. eapply wp_mono; [apply argument_round_wp; by eapply along_good|]. intros [a|a] s2 [H2 H3].
    + split; [exact (along_trans _ _ _ H1 H2)|]. lia.
    + apply HQ. exact (along_trans _ _ _ H1 H2).
Qed.

Lemma still_handle_yaml args : still (handleYamlDirective state args).
Proof. unfold handleYamlDirective. still; apply still_warning. Qed.
Lemma still_handle_tag args : still (handleTagDirective args).
Proof. unfold handleTagDirective. still. Qed.

(** The line break that ends a directive, whose line is not indented. *)
Lemma directive_break_wp s (Q : unit -> lstate -> Prop) : good s -> lineIndent s = 0 -> (forall s', onward s s' -> Q tt s') ->
  wp (if code (position s) =? 0 then mret tt else readLineBreak input) s Q.
Proof.
  intros G Hi HQ. branch; [by apply wp_ret, HQ, onward_refl|].
  apply readLineBreak_wp; [apply G|]. intros s' H1 H2 H3. destruct G as (G & _). apply HQ, further_is_onward.
  unfold further, good. rewrite H2, H3, Hi. lia.
Qed.

Lemma directive_round_ok b : round_ok (directive_round input state b).
Proof.
  intros s G. unfold directive_round. apply wp_bind, wp_ch. branch; [by apply wp_ret, onward_refl|].
  apply wp_bind, (on_goes _ s); [apply goes_separation|by apply onward_refl|]. intros _ s1 O1.
  apply wp_bind, wp_ch, wp_bind, wp_gets. branch; [by apply wp_ret|]. apply orb_false_iff in Heqb1 as [Hi Hc].
  apply negb_false_iff, Z.eqb_eq in Hc. pose proof (onward_good _ _ O1) as G1.
  assert (I1 : lineIndent s1 = 0) by (destruct G1 as (_ & _ & ? & _); lia).
  apply wp_bind, skip_one_along; [done|by rewrite Hc|]. intros s2 A2 P2. apply wp_bind, wp_gets.
  apply wp_bind, skip_while_along; [done|exact (along_good _ _ G1 A2)|]. intros _ s3 A3 _ _.
  pose proof (along_trans _ _ _ A2 A3) as A13. apply wp_bind, wp_gets. cbv zeta. apply wp_bind, wp_unless. intros _.
  apply wp_bind, arguments_wp; [exact (along_good _ _ G1 A13)|]. intros args s4 A4.
  pose proof (along_trans _ _ _ A13 A4) as A14. pose proof (along_good _ _ G1 A14) as G4.
  assert (F4 : further s s4).
  { apply (onward_further _ _ _ O1). split; [done|]. destruct A3 as (? & ? & ->), A4 as (? & ? & ->). cbn in *. lia. }
  apply wp_bind, wp_ch, wp_bind, directive_break_wp; [done|by rewrite (along_indent _ _ A14)|]. intros s5 O5.
  pose proof (further_onward _ _ _ F4 O5) as F5.
  apply wp_bind, (far_still _ s); [|done|intros; by apply wp_ret].
  repeat apply still_if; [apply still_handle_yaml|apply still_handle_tag|apply still_warning].
Qed.

(** ** Documents *)

(** Three dashes or dots are taken as a whole. *)
Lemma skip_three_wp b s (Q : unit -> lstate -> Prop) c : onward b s -> c <> 0 -> code (position s) = c ->
  code (position s + 1) = c -> code (position s + 2) = c -> (forall s', further b s' -> Q tt s') -> wp (skip 3) s Q.
Proof.
  intros O Hc E0 E1 E2 HQ. pose proof (onward_good _ _ O) as G. assert (Gp : 0 <= position s <= last_char) by apply G.
  pose proof (before_end (position s) Gp ltac:(congruence)). pose proof (before_end (position s + 1) ltac:(lia) ltac:(congruence)).
  pose proof (before_end (position s + 2) ltac:(lia) ltac:(congruence)).
  apply wp_skip, HQ. apply (onward_further _ _ _ O), further_skip; [done|lia|lia].
Qed.

Lemma separator_wp s (Q : bool -> lstate -> Prop) :
  (forall b, (b = true -> position s = lineStart s /\ (code (position s) = chr "-" \/ code (position s) = chr ".") /\
                code (position s + 1) = code (position s) /\ code (position s + 2) = code (position s)) -> Q b s) ->
  wp (at_document_separator input) s Q.
Proof.
  intros HQ. apply HQ. intros [Hl Hs]%andb_true_iff. apply Z.eqb_eq in Hl. apply andb_true_iff in Hs as [Hs _].
  apply andb_true_iff in Hs as [Hs H2]. apply andb_true_iff in Hs as [H0 H1]. apply Z.eqb_eq in H1, H2.
  apply orb_true_iff in H0 as [H0|H0]; apply Z.eqb_eq in H0; auto.
Qed.

Lemma readDocument_wp s : good s -> position s < last_position input ->
  wp (readDocument input state date_text) s (fun _ s' => further s s').
Proof.
  intros G Hp. unfold readDocument. apply wp_bind, wp_gets, wp_bind, wp_modify.
  set (s0 := set_anchorMap [] _).
  assert (O0 : onward s s0) by (apply (onward_same s s); [by apply onward_refl|same]).
  apply wp_bind, (on_goes _ s); [apply while_goes; intros; apply directive_round_ok|done|]. intros dirs s1 O1.
  apply wp_bind, (on_goes _ s); [apply goes_separation|done|]. intros _ s2 O2.
  apply wp_bind, wp_ch, wp_bind, wp_peek, wp_bind, wp_peek, wp_bind, wp_gets, wp_bind.
  set (dashes := (lineIndent s2 =? 0) && _ && _ && _).
  apply (wp_mono _ _ (fun _ s3 => onward s s3 /\ (position s3 = position s -> dashes = false /\ same_place s2 s3))).
  { branch.
    - unfold dashes in Heqb. btrue. apply wp_bind, (skip_three_wp s _ _ (chr "-")); [done..|]. intros s3 F3.
      apply wp_bind, (far_goes _ s); [apply goes_separation|done|]. intros _ s4 F4. apply wp_ret.
      split; [by apply further_is_onward|]. destruct F4. lia.
    - apply wp_unless. intros _. split; [done|]. intros _. split; [done|apply same_refl]. }
  intros _ s3 [O3 Hs3]. apply wp_bind, wp_gets, wp_bind.
  eapply wp_mono; [apply compose_reads; [exact (onward_good _ _ O3)|]|].
  { unfold need, node_fuel, last_char. pose proof (onward_good _ _ O3) as ((? & ?) & _). cbn. unfold last_char in *. lia. }
  intros found s4 [O4 _]. apply wp_bind, wp_goes; [apply goes_separation|exact (onward_good _ _ O4)|]. intros _ s5 O5.
  pose proof (onward_trans _ _ _ O4 O5) as O35. pose proof (onward_trans _ _ _ O3 O35) as Os.
  apply wp_bind, wp_gets, wp_bind, wp_still; [apply still_if; [apply still_warning|apply still_ret]|]. intros _ s6 H6.
  apply wp_bind, wp_modify. set (s7 := set_documents _ s6).
  assert (H7 : same_place s5 s7) by (apply (same_trans _ s6); [done|same]).
  pose proof (onward_same _ _ _ Os H7) as O7. apply wp_bind.
  assert (Hmoved : position s < position s7 \/ position s7 = position s) by (destruct O7 as (_ & ? & _); lia).
  apply separator_wp. intros sep Hsep. branch.
  - destruct (Hsep eq_refl) as (Hl & Hc & E1 & E2). apply wp_bind, wp_ch. branch.
    + btrue. apply wp_bind, (skip_three_wp s _ _ (chr ".")); [done|done|done|congruence|congruence|]. intros s8 F8.
      apply wp_bind, (far_goes _ s); [apply goes_separation|done|]. intros. by apply wp_ret.
    + apply wp_ret. destruct Hmoved as [|E7]; [split; [exact (onward_good _ _ O7)|done]|]. exfalso.
      apply Z.eqb_neq in Heqb0. destruct Hc as [Hc|]; [|done].
      assert (P3 : position s3 = position s).
      { destruct O3 as (_ & ? & _), O35 as (_ & ? & _). pose proof (same_at _ _ H7) as Ex. rewrite E7 in Ex. lia. }
      destruct (Hs3 P3) as [Hd H23]. assert (H27 : same_place s2 s7).
      { apply (same_trans _ s3); [done|]. apply (same_trans _ s5); [|done]. apply O35. pose proof (same_at _ _ H7) as Ex. rewrite E7 in Ex. congruence. }
      assert (I2 : lineIndent s2 = 0).
      { pose proof (onward_good _ _ O2) as (_ & _ & _ & G2). apply G2. destruct H27 as [(Ha & Hb & _) _]. congruence. }
      pose proof (same_at _ _ H27) as P27. unfold dashes in Hd. rewrite I2, <- P27, E1, E2, Hc in Hd. done.
  - apply wp_unless. intros Hx. apply Z.ltb_ge in Hx. split; [exact (onward_good _ _ O7)|rewrite (same_at _ _ H7); exact (Z.lt_le_trans _ _ _ Hp Hx)].
Qed.

Lemma read_documents_wp s : good s -> position s = 0 -> lineStart s = 0 ->
  wp (read_documents input state date_text) s (fun _ _ => True).
Proof.
  intros G P L. unfold read_documents. apply wp_bind, skip_while_wp; [done|apply G|]. intros n Hn Hl _.
  apply wp_bind, wp_modify. apply (wp_while input _ (fun _ => good) (fun _ s' => last_char - position s')).
  - unfold good. cbn. rewrite P, L in *. lia.
  - intros _ s' ((? & ?) & _). lia.
  - intros u s1 G1. unfold document_round. apply wp_bind, wp_gets. branch; [|by apply wp_ret].
    apply Z.ltb_lt in Heqb. apply wp_bind. eapply wp_mono; [by apply readDocument_wp|]. intros u2 s2 [G2 H2]. apply wp_ret.
    split; [done|lia].
Qed.
End ends.

(** ** Loading *)

Lemma prepare_ends input : 0 <= last_char (prepare input) /\ code (prepare input) (last_char (prepare input)) = 0 /\
  (0 < last_char (prepare input) -> is_EOL (code (prepare input) (last_char (prepare input) - 1)) = true).
Proof.
  unfold prepare. set (t := match last input with Some _ => _ | None => _ end).
  assert (Ht : t = [] \/ exists l c, t = l ++ [c] /\ is_EOL c = true).
  { subst t. destruct input as [|x l _] using rev_ind; [by left|]. right. rewrite last_snoc.
    destruct ((x =? 10) || (x =? 13)) eqn:E.
    - exists l, x. split; [|done]. by destruct (x =? 10), (x =? 13).
    - exists (l ++ [x]), NL. split; [|done]. apply orb_false_iff in E as [-> ->]. done. }
  clearbody t. set (u := match t with _ :: _ => _ | [] => _ end).
  assert (Hu : u = [] \/ exists l c, u = l ++ [c] /\ is_EOL c = true).
  { subst u. destruct Ht as [->|(l & c & -> & Hc)]; [by left|]. destruct l as [|x l]; cbn.
    - destruct (c =? 65279); [by left|]. right. by exists [], c.
    - destruct (x =? 65279); right; [by exists l, c|by exists (x :: l), c]. }
  clearbody u. unfold last_char. rewrite length_app. cbn [length]. split; [lia|]. unfold code.
  replace (Z.of_nat (length u + 1) - 1) with (Z.of_nat (length u)) by lia. split.
  - destruct (Z.ltb_spec (Z.of_nat (length u)) 0); [lia|]. by rewrite Nat2Z.id, list_lookup_middle.
  - intros Hl. destruct Hu as [->|(l & c & -> & Hc)]; [done|]. rewrite length_app in *. cbn [length] in *.
    destruct (Z.ltb_spec (Z.of_nat (length l + 1) - 1) 0); [lia|].
    replace (Z.to_nat (Z.of_nat (length l + 1) - 1)) with (length l) by lia. rewrite <- app_assoc. cbn.
    by rewrite list_lookup_middle.
Qed.

Lemma documents_end date_text s input options :
  (forall t, t ∈ declared false s ++ declared true s -> forall h v, not_fuel (construct t h v)) ->
  not_fuel (loadDocuments date_text s input options).
Proof.
  intros Ht. unfold loadDocuments.
  pose proof (read_documents_wp (prepare input) (options_of s options) date_text (prepare_ends input)) as H.
  specialize (H ltac:(intros t [Hi|[k Hk]]; apply Ht; [apply elem_of_app; left; by apply compiled_in|by eapply type_map_in])).
  specialize (H start_state). unfold wpe in H. destruct (read_documents _ _ _ _) as [st [u|e]]; [done|].
  cbn. intros E. injection E as ->. apply H; try done. unfold good, start_state. cbn.
  pose proof (prepare_ends input). lia.
Qed.

(** The types that are always there construct a value or throw. *)
Lemma default_types parseFloat negate sum60 t :
  t ∈ declared false (DEFAULT_SAFE parseFloat negate sum60) ++ declared true (DEFAULT_SAFE parseFloat negate sum60) ->
  forall h v, not_fuel (construct t h v).
Proof.
  intros Ht h v. cbn in Ht. rewrite !elem_of_cons in Ht. decompose [or] Ht; subst; try (by apply not_elem_of_nil in H);
    try done; try (by destruct v); unfold not_fuel; cbn; destruct v as [x|l]; try done.
  - destruct x; try done. cbn. repeat case_match; done.
  - destruct x; done.
Qed.

(** C35. Loading YAML comes to an end: on every input the loops and the
    recursion of the parser stop, within one round for each character left, and
    the result is the documents, or an error. *)
Theorem load_ends date_text parseFloat negate sum60 input options :
  not_fuel (loadDocuments date_text (DEFAULT_SAFE parseFloat negate sum60) input options) /\
  not_fuel (safeLoad date_text parseFloat negate sum60 input options).
Proof.
  assert (H : not_fuel (loadDocuments date_text (DEFAULT_SAFE parseFloat negate sum60) input options)).
  { apply documents_end, default_types. }
  split; [done|]. unfold safeLoad, load. apply not_fuel_bind; [done|]. intros [h docs] _. by destruct docs as [|d [|]].
Qed.
