(* ===== verification/YamlRound.v ===== *)
(** * Scalars are read as they were written

    The text that is written for a string, in plain, single-quoted or
    double-quoted style, is read back as that string: by the readers of the
    parser, and by loading the document that was dumped. *)

From Stdlib Require Import String.
From S2P Require Import Prelude JsNumber JsString JsValue Regex YamlTypes YamlText YamlDump YamlLoad YamlHoare.

(** The readers neither throw nor run out of fuel. *)
#[local] Abbreviation wp := (wpe (fun _ => False)).
Lemma wp_pass b s (Q : unit -> lstate -> Prop) : b = false -> Q tt s -> wp (unless b) s Q.
Proof. intros Hb HQ. by apply wpe_unless; [rewrite Hb|]. Qed.

(** ** Escapes *)

(** Digits below a power of the base. *)
Lemma fold_digits_bound r (l : list Z) acc : 2 <= r -> Forall (fun d => 0 <= d < r) l -> 0 <= acc ->
  acc * r ^ zlength l <= foldl (fun a d => a * r + d) acc l.
Proof.
  intros Hr H. revert acc. induction H as [|d l Hd _ IH]; intros acc Ha; [change (zlength []) with 0; rewrite Z.pow_0_r; cbn; lia|]. cbn [foldl].
  unfold zlength in *. cbn [length]. rewrite Nat2Z.inj_succ, Z.pow_succ_r by lia. 
  pose proof (Z.mul_nonneg_nonneg acc r Ha ltac:(lia)). etransitivity; [|apply IH; lia].
  pose proof (Z.pow_pos_nonneg r (Z.of_nat (length l)) ltac:(lia) ltac:(lia)) as Hp.
  pose proof (Z.mul_nonneg_nonneg d _ (proj1 Hd) (Z.lt_le_incl _ _ Hp)). lia.
Qed.
Lemma digits_length r n k : 2 <= r -> 0 <= n < r ^ Z.of_nat k -> (0 < k)%nat -> (length (digits r n) <= k)%nat.
Proof.
  intros Hr Hn Hk. destruct (digits_ok r n Hr (proj1 Hn)) as (Hd & Hf & Hp & H0).
  destruct (decide (n = 0)) as [->|]; [by rewrite H0|]. destruct (Hp ltac:(lia)) as (d & l & E & Hpos). rewrite E in *.
  apply Forall_cons in Hd as [Hd Hl]. cbn [foldl] in Hf. pose proof (fold_digits_bound r l (0 * r + d) Hr Hl ltac:(lia)) as Hb.
  rewrite Hf in Hb. destruct (decide (k <= length l)%nat); [|cbn; lia]. exfalso.
  assert (r ^ Z.of_nat k <= r ^ zlength l) by (apply Z.pow_le_mono_r; unfold zlength; lia).
  pose proof (Z.pow_pos_nonneg r (zlength l) ltac:(lia) ltac:(unfold zlength; lia)). nia.
Qed.

(** The digits of an escape: [k] of them, whose value is the character. *)
Lemma hex_text k c : 0 <= c < 16 ^ Z.of_nat k -> (0 < k)%nat -> exists ds, length ds = k /\
  repeat_str (js "0") (k - length (toUpperCase (radix_string 16 c))) ++ toUpperCase (radix_string 16 c) =
    (fun d => upper_unit (digit_unit d)) <$> ds /\
  Forall (fun d => 0 <= d < 16) ds /\ foldl (fun a d => a * 16 + d) 0 ds = c.
Proof.
  intros Hc Hk. pose proof (digits_length 16 c k ltac:(lia) Hc Hk) as Hl. destruct (digits_ok 16 c ltac:(lia) (proj1 Hc)) as (Hd & Hf & _).
  rewrite radix_string_nonneg by lia. unfold toUpperCase. rewrite <- list_fmap_compose, length_fmap.
  exists (repeat 0 (k - length (digits 16 c)) ++ digits 16 c). rewrite length_app, repeat_length. split; [lia|]. split.
  - rewrite fmap_app. f_equal. generalize (k - length (digits 16 c))%nat. intros n.
    induction n as [|n IH]; [done|]. cbn. f_equal. exact IH.
  - split.
    + apply Forall_app. split; [|done]. apply Forall_forall. intros d Hin.
      apply list_elem_of_In, repeat_spec in Hin. lia.
    + rewrite foldl_app. replace (foldl _ 0 (repeat 0 _)) with 0; [done|].
      generalize (k - length (digits 16 c))%nat. intros n. induction n as [|n IH]; [done|]. exact IH.
Qed.
Lemma fromHexCode_digit d : 0 <= d < 16 -> fromHexCode (upper_unit (digit_unit d)) = d.
Proof.
  intros Hd. pose proof (all_below (fun d => fromHexCode (upper_unit (digit_unit d)) =? d) 16 eq_refl d Hd) as H.
  by apply Z.eqb_eq.
Qed.

(** ** Text at a position *)

Section reading.
Context (input : jsstr) (state : loader).
Abbreviation code := (code input).

Definition text_at (p : Z) (t : jsstr) : Prop := exists pre post, input = pre ++ t ++ post /\ p = Z.of_nat (length pre).

Lemma text_at_bounds p t : text_at p t -> 0 <= p /\ p + zlength t <= Z.of_nat (length input).
Proof. intros (pre & post & -> & ->). unfold zlength. rewrite !length_app. lia. Qed.
Lemma text_at_code p c t : text_at p (c :: t) -> code p = c.
Proof.
  intros (pre & post & -> & ->). unfold YamlLoad.code. destruct (Z.ltb_spec (Z.of_nat (length pre)) 0); [lia|].
  rewrite Nat2Z.id. pose proof (list_lookup_middle pre (t ++ post) c (length pre) eq_refl) as E. cbn [app]. by rewrite E.
Qed.
Lemma text_at_app p t u : text_at p (t ++ u) -> text_at (p + zlength t) u.
Proof.
  intros (pre & post & -> & ->). exists (pre ++ t), post. split; [by rewrite H, !app_assoc|]. unfold zlength. rewrite length_app. lia.
Qed.
Lemma text_at_next p c t : text_at p (c :: t) -> text_at (p + 1) t.
Proof. exact (text_at_app p [c] t). Qed.
Lemma text_at_prefix p t u : text_at p (t ++ u) -> text_at p t.
Proof. intros (pre & post & -> & ->). exists pre, (u ++ post). by rewrite H, !app_assoc. Qed.

Lemma text_between_nil a : text_between input a a = [].
Proof.
  unfold text_between, slice_list. cbv zeta. by rewrite Z.sub_diag.
Qed.
Lemma text_between_snoc a p c t : 0 <= a <= p -> text_at p (c :: t) -> text_between input a (p + 1) = text_between input a p ++ [c].
Proof.
  intros Ha Ht. pose proof (text_at_bounds _ _ Ht) as [_ Hl]. unfold zlength in Hl. cbn [length] in Hl.
  destruct Ht as (pre & post & E & ->). unfold text_between, slice_list, rel_index. cbv zeta.
  destruct (Z.ltb_spec a 0); [lia|]. destruct (Z.ltb_spec (Z.of_nat (length pre)) 0); [lia|].
  destruct (Z.ltb_spec (Z.of_nat (length pre) + 1) 0); [lia|]. rewrite !Z.min_l by lia.
  replace (Z.to_nat (Z.of_nat (length pre) + 1 - a)) with (S (Z.to_nat (Z.of_nat (length pre) - a))) by lia.
  rewrite (take_S_r _ _ c); [done|]. rewrite lookup_drop, E.
  replace (Z.to_nat a + Z.to_nat (Z.of_nat (length pre) - a))%nat with (length pre) by lia. by apply list_lookup_middle.
Qed.

(** A state within a scalar: what was read, and how far. *)
Definition within (s : lstate) (r : jsstr) (p : Z) : lstate := set_result (Some scalar) (DPrim (VStr r)) (set_position p s).

Lemma capture_wp s r p a b (Q : unit -> lstate -> Prop) : a <= b -> forallb valid_json_char (text_between input a b) = true ->
  Q tt (within s (r ++ text_between input a b) p) -> wp (captureSegment input a b true) (within s r p) Q.
Proof.
  intros Hab Hv HQ. unfold captureSegment. destruct (Z.ltb_spec a b).
  - cbv zeta. apply wp_bind, wp_pass; [by rewrite Hv|]. apply wp_modify. exact HQ.
  - apply wp_ret. replace b with a in HQ by lia. by rewrite text_between_nil, app_nil_r in HQ.
Qed.
(** Away from the beginning of a line there is no document separator. *)
Lemma no_separator_wp s (Q : bool -> lstate -> Prop) : position s <> lineStart s -> Q false s -> wp (at_document_separator input) s Q.
Proof.
  intros H HQ. unfold at_document_separator, testDocumentSeparator. unfold wpe, mbind, st_bind. cbn.
  by rewrite (proj2 (Z.eqb_neq _ _) H).
Qed.
End reading.

Section quoted.
Context (input : jsstr) (state : loader).
Abbreviation code := (code input).
Abbreviation text_at := (text_at input).

Lemma hex_text_wp s r (Q : Z -> lstate -> Prop) : forall ds t j acc p, Forall (fun d => 0 <= d < 16) ds ->
  text_at (p + 1) (((fun d => upper_unit (digit_unit d)) <$> ds) ++ t) -> 0 <= acc < 16 ^ j -> 0 <= j -> j + zlength ds <= 4 ->
  Q (foldl (fun a d => a * 16 + d) acc ds) (within s r (p + zlength ds)) ->
  wp (hex_digits input (length ds) acc) (within s r p) Q.
Proof.
  induction ds as [|d ds IH]; intros t j acc p Hd Ht Ha Hj Hl HQ; cbn [length hex_digits].
  - apply wp_ret. by replace (p + zlength []) with p in HQ by (change (zlength []) with 0; lia).
  - apply Forall_cons in Hd as [Hd Hds]. unfold zlength in Hl, HQ. cbn [length] in Hl, HQ.
    apply wp_bind, wp_skip, wp_bind, wp_ch. change (set_position _ _) with (within s r (p + 1)). cbn [position within set_result set_position].
    rewrite (text_at_code _ _ _ _ Ht), fromHexCode_digit by done. rewrite (proj2 (Z.leb_le 0 d)) by lia.
    assert (Hb : acc < 16 ^ 3) by (pose proof (Z.pow_le_mono_r 16 j 3); lia).
    rewrite js_shl_mul by (unfold is_int32; lia). change (2 ^ 4) with 16.
    apply (IH t (j + 1)); [done|exact (text_at_next _ _ _ _ Ht)| |lia|unfold zlength; lia|].
    + rewrite Z.pow_add_r by lia. lia.
    + unfold zlength. by replace (p + 1 + Z.of_nat (length ds)) with (p + Z.of_nat (S (length ds))) by lia.
Qed.

Lemma escapes_read : forallb (fun p => bool_decide (simpleEscapeSequence p.2 = Some p.1) && negb (is_EOL p.2)) ESCAPE_SEQUENCES = true.
Proof. done. Qed.
(** What an escape is, read or not. *)
Lemma escape_of_spec c e : escape_of c = Some e -> exists x, e = [92; x] /\ simpleEscapeSequence x = Some c /\ is_EOL x = false.
Proof.
  unfold escape_of. destruct (List.find _ _) as [[c' x]|] eqn:E; [|done]. intros [= <-]. apply List.find_some in E as [Hin Hc].
  apply Z.eqb_eq in Hc. cbn in Hc. subst c'. pose proof escapes_read as H. rewrite forallb_forall in H. specialize (H _ Hin).
  apply andb_true_iff in H as [H1 H2]. apply bool_decide_eq_true in H1. exists x. split; [done|]. split; [done|]. by apply negb_true_iff.
Qed.
Lemma plain_char_spec c : escape_of c = None -> isPrintable c = true ->
  c <> 34 /\ c <> 92 /\ c <> 0 /\ is_EOL c = false /\ valid_json_char c = true.
Proof.
  intros He Hp. assert (H : forall x, escape_of x <> None -> c <> x) by (by intros x Hx ->).
  repeat split; try (by apply H).
  - unfold is_EOL. by rewrite !(proj2 (Z.eqb_neq _ _)) by by apply H.
  - unfold isPrintable in Hp. unfold valid_json_char. rewrite !orb_true_iff, !andb_true_iff, !Z.leb_le in Hp.
    apply orb_true_iff. right. apply andb_true_iff. rewrite !Z.leb_le. lia.
Qed.

Lemma encodeHex_spec c : is_unit c -> exists h ds, encodeHex c = 92 :: h :: ((fun d => upper_unit (digit_unit d)) <$> ds) /\
  escapedHexLen h = length ds /\ simpleEscapeSequence h = None /\ is_EOL h = false /\ (0 < length ds <= 4)%nat /\
  Forall (fun d => 0 <= d < 16) ds /\ foldl (fun a d => a * 16 + d) 0 ds = c.
Proof.
  intros [H0 H1]. unfold encodeHex. destruct (Z.leb_spec c 255).
  - destruct (hex_text 2 c) as (ds & Hl & E & Hd & Hf); [lia|lia|]. exists (chr "x"), ds. cbv zeta. rewrite E, Hl. repeat split; done || lia.
  - destruct (Z.leb_spec c 65535); [|lia].
    destruct (hex_text 4 c) as (ds & Hl & E & Hd & Hf); [lia|lia|]. exists (chr "u"), ds. cbv zeta. rewrite E, Hl. repeat split; done || lia.
Qed.

(** Reading an escape gives the character. *)
Lemma escape_back_wp n s r p c t (Q : unit -> lstate -> Prop) : is_unit c -> escape_of c <> None \/ isPrintable c = false ->
  text_at p (escape_char c ++ t) -> Q tt (within s (r ++ [c]) (p + zlength (escape_char c))) ->
  wp (read_escape input state n) (within s r p) Q.
Proof.
  intros Hc He Ht HQ. unfold escape_char in *. unfold read_escape.
  apply wp_bind, wp_skip, wp_bind, wp_ch. change (set_position _ _) with (within s r (p + 1)). cbn [position within set_result set_position].
  change (set_result (Some scalar) (DPrim (VStr r)) (set_position (p + 1) s)) with (within s r (p + 1)).
  destruct (escape_of c) as [e|] eqn:Ee.
  - destruct (escape_of_spec c e Ee) as (x & -> & Hx & Hl). apply text_at_next in Ht. rewrite (text_at_code _ _ _ _ Ht), Hl, Hx.
    apply wp_bind, wp_modify, wp_skip. cbn. replace (p + 1 + 1) with (p + 2) by lia. exact HQ.
  - destruct He as [He|He]; [done|]. rewrite He in *.
    destruct (encodeHex_spec c Hc) as (h & ds & E & Hl & Hs & Heol & Hn & Hd & Hf). rewrite E in *. apply text_at_next in Ht.
    rewrite (text_at_code _ _ _ _ Ht), Heol, Hs, Hl. unfold zlength in HQ. cbn [length] in HQ. rewrite length_fmap in HQ.
    destruct (length ds) as [|k] eqn:Ek; [lia|]. rewrite <- Ek. apply wp_bind.
    apply (hex_text_wp s r _ ds t 0); [done|exact (text_at_next _ _ _ _ Ht)|done|done|unfold zlength; lia|].
    rewrite Hf. apply wp_bind, wp_modify, wp_skip. unfold charFromCodepoint. destruct Hc as [H0 H1].
    destruct (Z.leb_spec c 65535); [|lia]. rewrite Z.mod_small by lia. unfold zlength. rewrite Ek.
    replace (p + Z.of_nat (S (S (S k)))) with (p + 1 + Z.of_nat (S k) + 1) in HQ by lia. exact HQ.
Qed.

(** ** Double quotes *)

(** In the loop: the text up to [done] was read, the part from [k] on is
    still to be captured. *)
Definition captured (k p : Z) (r done : jsstr) : Prop :=
  done = r ++ text_between input k p /\ forallb valid_json_char (text_between input k p) = true.
Lemma captured_start r p : captured p p r r.
Proof. split; rewrite text_between_nil; [by rewrite app_nil_r|done]. Qed.
Lemma captured_snoc k p c t r done : 0 <= k <= p -> text_at p (c :: t) -> valid_json_char c = true ->
  captured k p r done -> captured k (p + 1) r (done ++ [c]).
Proof.
  intros Hk Ht Hc [-> Hv]. unfold captured. rewrite (text_between_snoc _ _ _ _ _ Hk Ht), forallb_app, Hv. cbn.
  by rewrite Hc, app_assoc.
Qed.
Lemma captured_wp s k p r done (Q : unit -> lstate -> Prop) : k <= p -> captured k p r done ->
  Q tt (within s done p) -> wp (captureSegment input k p true) (within s r p) Q.
Proof. intros Hk [-> Hv] HQ. by apply capture_wp. Qed.

#[local] Opaque captured.

Lemma double_round_wp n s k p r don rest : 0 <= k <= p -> lineStart s < p -> Forall is_unit rest ->
  text_at p (escapeString rest ++ [34]) -> captured k p r don ->
  wp (double_round input state n (k, p)) (within s r p) (fun x s' => match x with
    | inl (k', p') => exists c rest' r', rest = c :: rest' /\ s' = within s r' p' /\ p < p' /\ 0 <= k' <= p' /\
                        text_at p' (escapeString rest' ++ [34]) /\ captured k' p' r' (don ++ [c]) /\
                        p' = p + zlength (escape_char c)
    | inr b => b = true /\ rest = [] /\ s' = within s don (p + 1) end).
Proof.
  intros Hk Hl Hu Ht Hc. unfold double_round. apply wp_bind, wp_ch, wp_bind, no_separator_wp; [cbn; lia|].
  apply wp_bind, wp_gets. cbn [position within set_result set_position fst snd].
  change (set_result (Some scalar) (DPrim (VStr r)) (set_position p s)) with (within s r p).
  destruct rest as [|c rest].
  - rewrite (text_at_code _ _ _ _ Ht). cbn [Z.eqb Pos.eqb]. apply wp_bind, (captured_wp _ _ _ _ don); [lia|done|].
    apply wp_bind, wp_skip, wp_ret. done.
  - apply Forall_cons in Hu as [Hc0 Hu]. unfold escapeString in Ht. cbn [fmap list_fmap List.concat] in Ht.
    rewrite <- app_assoc in Ht. change (List.concat (escape_char <$> rest)) with (escapeString rest) in Ht.
    pose proof (text_at_app _ _ _ _ Ht) as Ht'.
    destruct (decide (escape_of c <> None \/ isPrintable c = false)) as [He|He].
    + assert (E : exists t, escape_char c = 92 :: t).
      { unfold escape_char. destruct (escape_of c) as [e|] eqn:Ee; [destruct (escape_of_spec _ _ Ee) as (x & -> & _); by exists [x]|].
        destruct He as [He|He]; [done|]. rewrite He. destruct (encodeHex_spec c Hc0) as (h & ds & -> & _). by eexists. }
      destruct E as [t E]. pose proof Ht as Ht2. rewrite E in Ht2. rewrite (text_at_code _ _ _ _ Ht2). cbn [Z.eqb Pos.eqb].
      apply wp_bind, (captured_wp _ _ _ _ don); [lia|done|].
      apply wp_bind, (escape_back_wp n s don p c (escapeString rest ++ [34])); [done..|].
      apply wp_bind, wp_gets, wp_ret. cbn [position within set_result set_position].
      assert (0 < zlength (escape_char c)) by (rewrite E; unfold zlength; cbn [length]; lia).
      exists c, rest, (don ++ [c]). split_and!; try done; try lia. apply captured_start.
    + assert (He1 : escape_of c = None) by (destruct (escape_of c); [exfalso; apply He; by left|done]).
      assert (He2 : isPrintable c = true) by (destruct (isPrintable c); [done|exfalso; apply He; by right]).
      assert (E : escape_char c = [c]) by (unfold escape_char; by rewrite He1, He2). rewrite E in Ht, Ht'.
      destruct (plain_char_spec c He1 He2) as (N1 & N2 & N3 & N4 & N5).
      rewrite (text_at_code _ _ _ _ Ht), (proj2 (Z.eqb_neq _ _) N1), (proj2 (Z.eqb_neq _ _) N2), (proj2 (Z.eqb_neq _ _) N3), N4.
      apply wp_bind, wp_skip, wp_bind, wp_gets, wp_ret. cbn [position within set_result set_position].
      cbn [fst snd]. exists c, rest, r. rewrite E. split_and!; try done; try lia. apply (captured_snoc _ _ _ (escapeString rest ++ [34])); done.
Qed.

(** A double-quoted text is read as the string it was written for. *)
Lemma double_quoted_wp n s str (Q : bool -> lstate -> Prop) : Forall is_unit str -> text_at (position s) (quote_double str) ->
  lineStart s <= position s -> Q true (within s str (position s + zlength (quote_double str))) ->
  wp (readDoubleQuotedScalar input state n) s Q.
Proof.
  intros Hu Ht Hl HQ. unfold readDoubleQuotedScalar. apply wp_bind, wp_ch. unfold quote_double in *.
  change ([34] ++ escapeString str ++ [34]) with (34 :: escapeString str ++ [34]) in *.
  rewrite (text_at_code _ _ _ _ Ht). cbn [Z.eqb Pos.eqb negb]. apply wp_bind, wp_modify, wp_bind, wp_skip, wp_bind, wp_gets.
  set (p0 := position s + 1). pose proof (text_at_bounds _ _ _ Ht) as [B0 B1].
  set (fin := position s + zlength (34 :: escapeString str ++ [34])).
  change (position (set_position _ _)) with p0. change (set_position (position _ + 1) _) with (within s [] p0).
  apply (wp_while _ _ (fun k s' => exists don rest r, str = don ++ rest /\ s' = within s r k.2 /\ 0 <= k.1 <= k.2 /\ p0 <= k.2 /\
    text_at k.2 (escapeString rest ++ [34]) /\ captured k.1 k.2 r don /\ k.2 + zlength (escapeString rest ++ [34]) = fin)
    (fun k _ => last_char input - k.2)).
  - exists [], str, []. cbn [fst snd]. split_and!; try done; try (unfold p0; lia).
    + exact (text_at_next _ _ _ _ Ht).
    + apply captured_start.
    + unfold fin, p0, zlength. cbn [length]. lia.
  - intros [k p] s' (don & rest & r & _ & _ & _ & Hp & Ht' & _). cbn [snd] in *. apply text_at_bounds in Ht' as [C0 C1].
    unfold last_char. revert C1. unfold zlength. rewrite length_app. cbn [length]. lia.
  - intros [k p] s' (don & rest & r & E & -> & Hk & Hp & Ht' & Hc & Hf). cbn [fst snd] in *.
    eapply wp_mono; [apply (double_round_wp n s k p r don rest); try done|].
    + unfold p0 in Hp. lia.
    + rewrite E in Hu. by apply Forall_app in Hu as [_ ?].
    + intros [[k' p']|b] s''.
      * intros (c & rest' & r' & -> & -> & P1 & P2 & P3 & P4 & P5). split; [|cbn; lia].
        exists (don ++ [c]), rest', r'. cbn [fst snd]. split_and!; try done; try lia.
        { by rewrite E, <- app_assoc. }
        rewrite <- Hf, P5. unfold escapeString. cbn [fmap list_fmap List.concat]. unfold zlength. rewrite !length_app. lia.
      * intros (-> & -> & ->). rewrite app_nil_r in E. subst don. unfold zlength in Hf. cbn in Hf.
        change (length [34]) with 1%nat in Hf. by replace (p + 1) with fin by lia.
Qed.

(** ** Single quotes *)

Definition double_quote (c : Z) : jsstr := if c =? 39 then [39; 39] else [c].
Lemma quote_single_chars str : quote_single str = 39 :: List.concat (double_quote <$> str) ++ [39].
Proof.
  assert (H : forall l cur, join (js "''") (split_go (js "'") l O cur) = rev cur ++ List.concat (double_quote <$> l)).
  { induction l as [|c l IH]; intros cur; [by rewrite app_nil_r|]. cbn [split_go]. change (js "'") with [39] in *.
    cbn [prefixb length Nat.sub fmap list_fmap List.concat]. unfold double_quote at 1. rewrite Z.eqb_sym, andb_true_r.
    destruct (Z.eqb_spec c 39) as [->|]; rewrite ?join_cons by apply split_go_nonempty; rewrite IH; cbn [rev]; [done|].
    by rewrite <- app_assoc. }
  unfold quote_single, replace_all, split. by rewrite H.
Qed.

Lemma printable_spec c : isPrintable c = true -> c <> 0 /\ is_EOL c = false /\ valid_json_char c = true.
Proof.
  intros Hp. unfold isPrintable in Hp. rewrite !orb_true_iff, !andb_true_iff, !Z.leb_le in Hp. split; [lia|]. split.
  - unfold is_EOL. by rewrite !(proj2 (Z.eqb_neq _ _)) by lia.
  - unfold valid_json_char. apply orb_true_iff. right. apply andb_true_iff. rewrite !Z.leb_le. lia.
Qed.

Lemma single_round_wp n s k q p r don rest : 0 <= k <= p -> lineStart s < p -> Forall (fun c => isPrintable c = true) rest ->
  text_at p (List.concat (double_quote <$> rest) ++ [39]) -> captured k p r don ->
  (rest = [] -> code (p + 1) <> 39) ->
  wp (single_round input state n (k, q)) (within s r p) (fun x s' => match x with
    | inl (k', p0) => exists c rest' r' p', rest = c :: rest' /\ s' = within s r' p' /\ p < p' /\ 0 <= k' <= p' /\
                        text_at p' (List.concat (double_quote <$> rest') ++ [39]) /\ captured k' p' r' (don ++ [c]) /\
                        p' = p + zlength (double_quote c)
    | inr b => b = true /\ rest = [] /\ s' = within s don (p + 1) end).
Proof.
  intros Hk Hl Hu Ht Hc Hend. unfold single_round. apply wp_bind, wp_ch, wp_bind, no_separator_wp; [cbn; lia|].
  apply wp_bind, wp_gets. change (chr "'") with 39.
  change (position (within s r p)) with p.
  destruct rest as [|c rest].
  - rewrite (text_at_code _ _ _ _ Ht). cbn [Z.eqb Pos.eqb]. apply wp_bind, (captured_wp _ _ _ _ don); [cbn; lia|done|].
    apply wp_bind, wp_skip, wp_bind, wp_ch. change (position (set_position _ _)) with (p + 1).
    rewrite (proj2 (Z.eqb_neq _ _) (Hend eq_refl)). by apply wp_ret.
  - apply Forall_cons in Hu as [Hc0 Hu]. destruct (printable_spec c Hc0) as (N1 & N2 & N3).
    cbn [fmap list_fmap List.concat] in Ht. rewrite <- app_assoc in Ht.
    change (List.concat (list_fmap _ _ double_quote rest)) with (List.concat (double_quote <$> rest)) in Ht.
    pose proof (text_at_app _ _ _ _ Ht) as Ht'. unfold double_quote at 1 in Ht.
    destruct (Z.eqb_spec c 39) as [->|Hc9].
    + rewrite (text_at_code _ _ _ _ Ht). cbn [Z.eqb Pos.eqb]. apply wp_bind, (captured_wp _ _ _ _ don); [cbn; lia|done|].
      pose proof (text_at_next _ _ _ _ Ht) as Ht1. apply wp_bind, wp_skip, wp_bind, wp_ch.
      change (position (set_position _ _)) with (p + 1).
      rewrite (text_at_code _ _ _ _ Ht1). cbn [Z.eqb Pos.eqb]. apply wp_bind, wp_skip, wp_ret.
      change (double_quote 39) with [39; 39] in *. change (zlength [39; 39]) with 2 in *.
      exists 39, rest, don, (p + 2). split_and!; try done; try lia.
      * by replace (p + 2) with (p + 1 + 1) by lia.
      * replace (p + 2) with (p + 1 + 1) by lia. apply (captured_snoc _ _ _ (List.concat (double_quote <$> rest) ++ [39])); [lia|exact Ht1|done|].
        apply captured_start.
    + rewrite (text_at_code _ _ _ _ Ht), (proj2 (Z.eqb_neq _ _) Hc9), (proj2 (Z.eqb_neq _ _) N1), N2.
      apply wp_bind, wp_skip, wp_bind, wp_gets, wp_ret. cbn [fst snd].
      assert (Ed : double_quote c = [c]) by (unfold double_quote; by rewrite (proj2 (Z.eqb_neq _ _) Hc9)).
      rewrite Ed in *. change (zlength [c]) with 1 in *.
      exists c, rest, r, (p + 1). rewrite Ed. split_and!; try done; try lia. by apply (captured_snoc _ _ _ (List.concat (double_quote <$> rest) ++ [39])).
Qed.

Lemma single_quoted_wp n s str (Q : bool -> lstate -> Prop) : Forall (fun c => isPrintable c = true) str ->
  text_at (position s) (quote_single str) -> code (position s + zlength (quote_single str)) <> 39 ->
  lineStart s <= position s -> Q true (within s str (position s + zlength (quote_single str))) ->
  wp (readSingleQuotedScalar input state n) s Q.
Proof.
  rewrite quote_single_chars. intros Hu Ht Hne Hl HQ. unfold readSingleQuotedScalar. apply wp_bind, wp_ch.
  change (chr "'") with 39. rewrite (text_at_code _ _ _ _ Ht). cbn [Z.eqb Pos.eqb negb].
  apply wp_bind, wp_modify, wp_bind, wp_skip, wp_bind, wp_gets.
  set (p0 := position s + 1). pose proof (text_at_bounds _ _ _ Ht) as [B0 B1].
  set (fin := position s + zlength (39 :: List.concat (double_quote <$> str) ++ [39])) in *.
  change (position (set_position _ _)) with p0. change (set_position (position _ + 1) _) with (within s [] p0).
  apply (wp_while _ _ (fun k s' => exists don rest r p, str = don ++ rest /\ s' = within s r p /\ 0 <= k.1 <= p /\ p0 <= p /\
    text_at p (List.concat (double_quote <$> rest) ++ [39]) /\ captured k.1 p r don /\
    p + zlength (List.concat (double_quote <$> rest) ++ [39]) = fin)
    (fun _ s' => last_char input - position s')).
  - exists [], str, [], p0. cbn [fst snd]. split_and!; try done; try (unfold p0; lia).
    + exact (text_at_next _ _ _ _ Ht).
    + apply captured_start.
    + unfold fin, p0, zlength. cbn [length]. lia.
  - intros k s' (don & rest & r & p & _ & -> & _ & Hp & Ht' & _). apply text_at_bounds in Ht' as [C0 C1].
    change (position (within s r p)) with p. unfold last_char. revert C1. unfold zlength. rewrite length_app. cbn [length]. lia.
  - intros [k q] s' (don & rest & r & p & E & -> & Hk & Hp & Ht' & Hc & Hf). cbn [fst snd] in *.
    eapply wp_mono; [apply (single_round_wp n s k q p r don rest); try done|].
    + unfold p0 in Hp. lia.
    + rewrite E in Hu. by apply Forall_app in Hu as [_ ?].
    + intros ->. change (zlength _) with 1 in Hf. by rewrite Hf.
    + intros [[k' q']|b] s''.
      * intros (c & rest' & r' & p' & -> & -> & P1 & P2 & P3 & P4 & P5). split; [|change (position (within s r' p')) with p'; change (position (within s r p)) with p; lia].
        exists (don ++ [c]), rest', r', p'. cbn [fst snd]. split_and!; try done; try lia.
        { by rewrite E, <- app_assoc. }
        rewrite <- Hf, P5. cbn [fmap list_fmap List.concat]. unfold zlength. rewrite !length_app. lia.
      * intros (-> & -> & ->). rewrite app_nil_r in E. subst don. change (zlength _) with 1 in Hf. by rewrite Hf.
Qed.

(** ** Short loops *)

Lemma while_once {A B} (body : A -> ST lstate (A + B)) a s (Q : B -> lstate -> Prop) :
  wp (body a) s (fun x s' => exists b, x = inr b /\ Q b s') -> wp (while_ input body a) s Q.
Proof.
  intros H. unfold while_. cbn [loop]. apply wp_bind. eapply wp_mono; [exact H|]. intros x s' (b & -> & HQ). by apply wp_ret.
Qed.
Lemma while_twice {A B} (body : A -> ST lstate (A + B)) a s (Q : B -> lstate -> Prop) :
  wp (body a) s (fun x s' => exists a', x = inl a' /\ wp (body a') s' (fun y s2 => exists b, y = inr b /\ Q b s2)) ->
  wp (while_ input body a) s Q.
Proof.
  intros H. unfold while_. cbn [loop]. apply wp_bind. eapply wp_mono; [exact H|]. intros x s' (a' & -> & H').
  apply wp_bind. eapply wp_mono; [exact H'|]. intros y s2 (b & -> & HQ). by apply wp_ret.
Qed.
Lemma skip_none_wp p s (Q : Z -> lstate -> Prop) : p (code (position s)) = false -> Q 0 s -> wp (skip_while input p) s Q.
Proof.
  intros Hp HQ. apply while_once, wp_bind, wp_ch. rewrite Hp. apply wp_ret. by exists 0.
Qed.

(** Nothing is skipped before a character that is not white. *)
Definition not_skipped (c : Z) : Prop := is_WHITE_SPACE c = false /\ is_EOL c = false /\ c <> 35.
Lemma separation_none_wp a k s (Q : Z -> lstate -> Prop) : not_skipped (code (position s)) -> Q 0 s ->
  wp (skipSeparationSpace input state a k) s Q.
Proof.
  intros (H1 & H2 & H3) HQ. unfold skipSeparationSpace. apply wp_bind, while_once. unfold skip_round. apply wp_bind, wp_ch.
  assert (Hr : wp (i ← gets lineIndent; _ ← (if negb (k =? -1) && negb (0 =? 0) && (i <? k)
                      then throwWarning state (js "deficient indentation") else mret tt); mret 0) s Q).
  { apply wp_bind, wp_gets. rewrite andb_false_r. apply wp_bind, wp_ret. by apply wp_ret. }
  destruct (code (position s) =? 0) eqn:E0; [apply wp_ret; by exists 0|].
  apply wp_bind, skip_none_wp; [done|]. apply wp_bind, wp_ch.
  change (chr "#") with 35. rewrite (proj2 (Z.eqb_neq _ _) H3), andb_false_r.
  apply wp_bind, wp_ret, wp_bind, wp_ch. rewrite H2. apply wp_ret. by exists 0.
Qed.
(** The last line break of a text. *)
Definition next_line (s : lstate) : lstate :=
  set_lineIndent 0 (set_lineIndent 0 (set_line (line s + 1) (position s + 1) (set_position (position s + 1) s))).
Lemma separation_end_wp a k s (Q : Z -> lstate -> Prop) : k <= 0 -> text_at (position s) [10; 0] ->
  Q 1 (next_line s) -> wp (skipSeparationSpace input state a k) s Q.
Proof.
  intros Hk Ht HQ. pose proof (text_at_code _ _ _ _ (text_at_next _ _ _ _ Ht)) as E1. apply text_at_code in Ht.
  unfold skipSeparationSpace. apply wp_bind, while_twice. unfold skip_round at 1. apply wp_bind, wp_ch. rewrite Ht. cbn [Z.eqb Pos.eqb].
  apply wp_bind, skip_none_wp; [by rewrite Ht|]. apply wp_bind, wp_ch. rewrite Ht, andb_false_r.
  apply wp_bind, wp_ret, wp_bind, wp_ch. rewrite Ht. change (is_EOL 10) with true. cbv iota. apply wp_bind.
  unfold readLineBreak. apply wp_bind, wp_ch. rewrite Ht. cbn [Z.eqb Pos.eqb]. apply wp_bind, wp_skip, wp_modify.
  apply wp_bind, wp_modify, wp_bind, skip_none_wp; [cbn; by rewrite E1|]. apply wp_bind, wp_modify, wp_ret. eexists. split; [done|].
  unfold skip_round. apply wp_bind, wp_ch. cbn [position set_lineIndent set_line set_position]. rewrite E1. cbn [Z.eqb].
  apply wp_ret. eexists. split; [done|]. apply wp_bind, wp_gets. cbn [lineIndent set_lineIndent].
  rewrite (proj2 (Z.ltb_ge 0 k)) by lia. rewrite andb_false_r. apply wp_bind, wp_ret, wp_ret. exact HQ.
Qed.

(** ** Plain text *)

Lemma plain_safe_spec c : isPlainSafe c = true ->
  isPrintable c = true /\ is_FLOW_INDICATOR c = false /\ c <> 58 /\ c <> 35 /\ is_WHITE_SPACE c = isWhitespace c.
Proof.
  unfold isPlainSafe. rewrite !andb_true_iff, !negb_true_iff. intros [[H1 _] H2]. split; [done|].
  unfold char_in in H2. apply bool_decide_eq_false in H2.
  change (js ",[]{}:#") with [44; 91; 93; 123; 125; 58; 35] in H2. rewrite !not_elem_of_cons in H2. destruct H2 as (? & ? & ? & ? & ? & ? & ? & _).
  split; [|split; [done|split; [done|]]].
  - unfold is_FLOW_INDICATOR, char_in. apply bool_decide_eq_false. change (js ",[]{}") with [44; 91; 93; 123; 125].
    rewrite !not_elem_of_cons. repeat split; try done. apply not_elem_of_nil.
  - unfold is_WHITE_SPACE, isWhitespace. by rewrite orb_comm.
Qed.

Lemma plain_first_spec c : isPlainSafeFirst c = true ->
  isPrintable c = true /\ isWhitespace c = false /\ Forall (fun x => c <> x) (js "-?:,[]{}#&*!|>'%@`" ++ [34]).
Proof.
  unfold isPlainSafeFirst. rewrite !andb_true_iff, !negb_true_iff. intros [[[H1 _] H2] H3]. split; [done|]. split; [done|].
  apply bool_decide_eq_false in H3. apply Forall_forall. by intros x Hx ->.
Qed.

(** A plain text: its characters, the ones at its ends. *)
Definition plain_text (str : jsstr) : Prop := first_plain str = true /\ Forall (fun c => isPlainSafe c = true) str.

Definition plain_seg (e p : Z) (don : jsstr) : Prop :=
  e <= p /\ match last don with Some c => isWhitespace c = false -> e = p | None => e = p end.

(** Three dashes or dots, and white space or the end. *)
Definition separates (p : Z) : bool :=
  ((code p =? chr "-") || (code p =? chr ".")) && (code p =? code (p + 1)) && (code p =? code (p + 2)) &&
  ((code (p + 3) =? 0) || is_WS_OR_EOL (code (p + 3))).
Lemma separator_at_wp s (Q : bool -> lstate -> Prop) :
  Q ((position s =? lineStart s) && separates (position s)) s -> wp (at_document_separator input) s Q.
Proof. done. Qed.

Lemma plain_char_step n w s p0 e p don c t : plain_seg e p don -> (p =? lineStart s) && separates p = false ->
  text_at p (c :: t) -> isPlainSafe c = true ->
  wp (plain_round input state n w (Capture p0 e None)) (within s [] p) (fun x s' => exists e',
     x = inl (Capture p0 e' None) /\ s' = within s [] (p + 1) /\ plain_seg e' (p + 1) (don ++ [c])).
Proof.
  intros [He1 He2] Hsep Ht Hc. destruct (plain_safe_spec c Hc) as (Hp & Hf & N1 & N2 & Hw). destruct (printable_spec c Hp) as (N0 & Heol & _).
  unfold plain_round. apply wp_bind, wp_ch, wp_bind, wp_peek, wp_bind, wp_peek, wp_bind.
  apply separator_at_wp. change (position (within s [] p)) with p. change (lineStart (within s [] p)) with (lineStart s). rewrite Hsep, (text_at_code _ _ _ _ Ht).
  rewrite (proj2 (Z.eqb_neq _ _) N0). change (chr ":") with 58. change (chr "#") with 35.
  rewrite (proj2 (Z.eqb_neq _ _) N1), (proj2 (Z.eqb_neq _ _) N2), Hf, andb_false_r, Heol. cbn [orb].
  unfold plain_char, flush. cbn [pending]. apply wp_bind, wp_ret, wp_bind, wp_gets, wp_bind, wp_skip, wp_ret.
  eexists. split; [reflexivity|]. split; [done|]. cbn [captureEnd]. change (position (within s [] p)) with p.
  unfold plain_seg. rewrite last_snoc, Hw. destruct (isWhitespace c); split; try lia; done.
Qed.

Lemma text_between_at t : forall p u, text_at p (t ++ u) -> text_between input p (p + zlength t) = t.
Proof.
  induction t as [|c t IH] using rev_ind; intros p u Ht.
  - change (zlength []) with 0. by rewrite Z.add_0_r, text_between_nil.
  - rewrite <- app_assoc in Ht. pose proof (text_at_app _ _ _ _ Ht) as Hc. pose proof (text_at_bounds _ _ _ Ht).
    assert (E : zlength (t ++ [c]) = zlength t + 1) by (unfold zlength; rewrite length_app; cbn; lia).
    rewrite E, Z.add_assoc, (text_between_snoc _ _ _ c u); [|unfold zlength in *; lia|done]. by rewrite (IH _ _ Ht).
Qed.
Lemma printable_text str : Forall (fun c => isPrintable c = true) str -> PATTERN_NON_PRINTABLE str = false.
Proof.
  intros H. unfold PATTERN_NON_PRINTABLE. induction H as [|c str Hc _ IH]; [done|]. cbn [non_printable].
  unfold isPrintable in Hc. rewrite !orb_true_iff, !andb_true_iff, !Z.leb_le in Hc.
  assert (Hh : is_high c = false) by (apply andb_false_iff; rewrite !Z.leb_gt; lia).
  assert (Hl : is_low c = false) by (apply andb_false_iff; rewrite !Z.leb_gt; lia).
  assert (Hn : never_printed c = false).
  { unfold never_printed, in_ranges. cbn. rewrite !orb_false_iff, !andb_false_iff, !Z.leb_gt. lia. }
  by rewrite Hh, Hl, Hn, IH.
Qed.

(** A character that starts a plain text starts nothing else. *)
Definition starts_plain (c : Z) : Prop :=
  not_skipped c /\ c <> 0 /\ Forall (fun x => c <> x) (js "-?:,[]{}#&*!|>'%@`" ++ [34]).
Lemma starts_plain_spec c : isPlainSafeFirst c = true -> starts_plain c.
Proof.
  intros Hf. destruct (plain_first_spec c Hf) as (Hp & Hw & Hc). destruct (printable_spec c Hp) as (H0 & Heol & _).
  split; [|done]. split; [unfold is_WHITE_SPACE; rewrite orb_comm; exact Hw|]. split; [done|].
  rewrite Forall_forall in Hc. apply Hc. change (js "-?:,[]{}#&*!|>'%@`") with [45; 63; 58; 44; 91; 93; 123; 125; 35; 38; 42; 33; 124; 62; 39; 37; 64; 96].
  cbn. rewrite !elem_of_cons. tauto.
Qed.
Lemma plain_start_wp w s (Q : bool -> lstate -> Prop) : starts_plain (code (position s)) -> Q true s -> wp (plain_start input w) s Q.
Proof.
  intros ((Hw & He & _) & _ & Hc) HQ. unfold plain_start. apply wp_bind, wp_ch, wp_bind, wp_peek, wp_ret.
  set (c := code (position s)) in *. clearbody c. rewrite Forall_forall in Hc.
  change (js "-?:,[]{}#&*!|>'%@`" ++ [34]) with [45; 63; 58; 44; 91; 93; 123; 125; 35; 38; 42; 33; 124; 62; 39; 37; 64; 96; 34] in Hc.
  assert (H1 : is_WS_OR_EOL c = false) by (unfold is_WS_OR_EOL; unfold is_WHITE_SPACE in Hw; unfold is_EOL in He; by rewrite Hw, <- orb_assoc, He).
  assert (Hn : forall l, l ⊆ [45; 63; 58; 44; 91; 93; 123; 125; 35; 38; 42; 33; 124; 62; 39; 37; 64; 96; 34] -> char_in l c = false).
  { intros l Hl. apply bool_decide_eq_false. intros Hin. exact (Hc c (Hl c Hin) eq_refl). }
  assert (H2 : is_FLOW_INDICATOR c = false).
  { apply Hn. change (js ",[]{}") with [44; 91; 93; 123; 125]. intros x. rewrite !elem_of_cons. tauto. }
  assert (H3 : char_in (js "#&*!|>'%@`" ++ [34]) c = false).
  { apply Hn. change (js "#&*!|>'%@`" ++ [34]) with [35; 38; 42; 33; 124; 62; 39; 37; 64; 96; 34]. intros x. rewrite !elem_of_cons. tauto. }
  assert (H4 : c =? chr "?" = false) by (apply Z.eqb_neq, Hc; change (chr "?") with 63; rewrite !elem_of_cons; tauto).
  assert (H5 : c =? chr "-" = false) by (apply Z.eqb_neq, Hc; change (chr "-") with 45; rewrite !elem_of_cons; tauto).
  by rewrite H1, H2, H3, H4, H5.
Qed.

Lemma plain_scalar_wp w s str (Q : bool -> lstate -> Prop) : plain_text str -> str <> [] ->
  text_at (position s) (str ++ [10; 0]) -> lineStart s <= position s ->
  (position s =? lineStart s) && separates (position s) = false ->
  Q true (set_result (Some scalar) (DPrim (VStr str)) (next_line (within s [] (position s + zlength str)))) ->
  wp (readPlainScalar input state 0 w) s Q.
Proof.
  intros [Hfirst Hsafe] Hne Ht Hl Hsep HQ. set (p0 := position s) in *. set (fin := p0 + zlength str) in *.
  pose proof (text_at_bounds _ _ _ Ht) as [B0 B1]. pose proof (text_at_app _ _ _ _ Ht) as Hend. fold fin in Hend.
  assert (Hs : starts_plain (code p0)).
  { destruct str as [|c str]; [done|]. rewrite (text_at_code _ _ _ _ Ht). apply starts_plain_spec.
    by apply andb_true_iff in Hfirst as [Hf _]. }
  unfold readPlainScalar. apply wp_bind, plain_start_wp; [exact Hs|]. cbn [negb]. apply wp_bind, wp_gets, wp_bind, wp_modify.
  change (set_result (Some scalar) (DPrim (VStr [])) s) with (within s [] (position s)). fold p0.
  apply wp_bind.
  apply (wp_while _ _ (fun k s' =>
    (exists don rest e, str = don ++ rest /\ s' = within s [] (p0 + zlength don) /\ k = Capture p0 e None /\ plain_seg e (p0 + zlength don) don) \/
    (k = Capture p0 fin (Some (line s)) /\ s' = next_line (within s [] fin)))
    (fun _ s' => last_char input - position s')).
  - left. exists [], str, p0. change (zlength []) with 0. rewrite Z.add_0_r. by repeat split.
  - intros k s' [(don & rest & e & E & -> & _)|[_ ->]].
    + change (position (within s [] (p0 + zlength don))) with (p0 + zlength don). unfold last_char. rewrite E in B1.
      revert B1. unfold zlength. rewrite !length_app. cbn [length]. lia.
    + change (position (next_line (within s [] fin))) with (fin + 1). apply text_at_bounds in Hend as [? H2].
      unfold last_char. unfold zlength in H2. cbn [length] in H2. lia.
  - intros k s' [(don & rest & e & E & -> & -> & Hseg)|[-> ->]].
    + assert (Hcur : text_at (p0 + zlength don) (rest ++ [10; 0])) by (rewrite E, <- app_assoc in Ht; exact (text_at_app _ _ _ _ Ht)).
      assert (Hsp : (p0 + zlength don =? lineStart s) && separates (p0 + zlength don) = false).
      { destruct don as [|d don]; [change (zlength []) with 0; by rewrite Z.add_0_r|].
        rewrite (proj2 (Z.eqb_neq _ _)); [done|]. unfold zlength. cbn [length]. lia. }
      destruct rest as [|c rest].
      * rewrite app_nil_r in E. subst don. fold fin in Hsp, Hcur, Hseg |- *. unfold plain_round.
        apply wp_bind, wp_ch, wp_bind, wp_peek, wp_bind, wp_peek, wp_bind, separator_at_wp.
        change (position (within s [] fin)) with fin. change (lineStart (within s [] fin)) with (lineStart s).
        rewrite Hsp, (text_at_code _ _ _ _ Hcur). change (is_FLOW_INDICATOR 10) with false. rewrite andb_false_r. cbn [Z.eqb Pos.eqb orb].
        change (10 =? chr ":") with false. change (10 =? chr "#") with false. cbv iota. change (is_EOL 10) with true. cbv iota.
        apply wp_bind, wp_gets, wp_bind, separation_end_wp; [lia|exact Hcur|]. apply wp_bind, wp_gets, wp_ret. split.
        -- right. split; [|done]. cbn [captureStart captureEnd]. destruct Hseg as [_ Hseg].
           apply andb_true_iff in Hfirst as [_ Hlast]. destruct (last str) as [c|]; [|by rewrite Hseg].
           apply negb_true_iff in Hlast. by rewrite Hseg.
        -- change (position (next_line (within s [] fin))) with (fin + 1). change (position (within s [] fin)) with fin. lia.
      * eapply wp_mono; [apply (plain_char_step 0 w s p0 e _ don c (rest ++ [10; 0])); [done|done|done|]|].
        { rewrite E in Hsafe. apply Forall_app in Hsafe as [_ Hx]. by apply Forall_cons in Hx as [? _]. }
        intros x s' (e' & -> & -> & Hseg'). split; [|cbn; lia]. left. exists (don ++ [c]), rest, e'.
        assert (El : p0 + zlength (don ++ [c]) = p0 + zlength don + 1) by (unfold zlength; rewrite length_app; cbn; lia).
        rewrite El. split; [by rewrite E, <- app_assoc|]. done.
    + unfold plain_round. apply wp_bind, wp_ch, wp_bind, wp_peek, wp_bind, wp_peek, wp_bind, separator_at_wp.
      change (position (next_line (within s [] fin))) with (fin + 1).
      rewrite (text_at_code _ _ _ _ (text_at_next _ _ _ _ Hend)). cbn [Z.eqb]. apply wp_ret.
      apply wp_bind. unfold captureSegment. cbn [captureStart captureEnd].
      assert (Hlt : p0 < fin) by (unfold fin, zlength; destruct str; [done|cbn [length]; lia]).
      rewrite (proj2 (Z.ltb_lt _ _) Hlt). cbv zeta. unfold fin. rewrite (text_between_at _ _ _ Ht).
      assert (Hpr : Forall (fun c => isPrintable c = true) str) by (eapply Forall_impl; [exact Hsafe|]; intros c Hc; by apply plain_safe_spec).
      rewrite (printable_text _ Hpr). apply wp_bind, wp_pass; [done|]. apply wp_modify, wp_bind, wp_gets.
      destruct str as [|c str]; [done|]. by apply wp_ret.
Qed.
End quoted.

(** ** Alternatives *)

Section alternatives.
Context (input : jsstr) (state : loader).

Lemma or_no (a b : ST lstate bool) s (Q : bool -> lstate -> Prop) : wp a s (fun x s' => x = false /\ s' = s) -> wp b s Q -> wp (or_else a b) s Q.
Proof. intros H1 H2. apply wp_bind. eapply wp_mono; [exact H1|]. intros x s' [-> ->]. exact H2. Qed.
Lemma or_yes (a b : ST lstate bool) s (Q : bool -> lstate -> Prop) : wp a s (fun x s' => x = true /\ Q true s') -> wp (or_else a b) s Q.
Proof. intros H1. apply wp_bind. eapply wp_mono; [exact H1|]. intros x s' [-> HQ]. by apply wp_ret. Qed.

(** A reader that begins with another character. *)
Lemma not_here (p : Z -> bool) (m : ST lstate bool) s : p (code input (position s)) = false ->
  wp (c ← ch input; if negb (p c) then mret false else m) s (fun x s' => x = false /\ s' = s).
Proof. intros H. apply wp_bind, wp_ch. rewrite H. by apply wp_ret. Qed.
Lemma not_single n s : code input (position s) =? 39 = false -> wp (readSingleQuotedScalar input state n) s (fun x s' => x = false /\ s' = s).
Proof. apply (not_here (fun c => c =? 39)). Qed.
Lemma not_double n s : code input (position s) =? 34 = false -> wp (readDoubleQuotedScalar input state n) s (fun x s' => x = false /\ s' = s).
Proof. apply (not_here (fun c => c =? 34)). Qed.
Lemma not_alias s : code input (position s) =? 42 = false -> wp (readAlias input state) s (fun x s' => x = false /\ s' = s).
Proof. apply (not_here (fun c => c =? 42)). Qed.
Lemma not_tag s : code input (position s) =? 33 = false -> wp (readTagProperty input) s (fun x s' => x = false /\ s' = s).
Proof. apply (not_here (fun c => c =? 33)). Qed.
Lemma not_anchor s : code input (position s) =? 38 = false -> wp (readAnchorProperty input) s (fun x s' => x = false /\ s' = s).
Proof. apply (not_here (fun c => c =? 38)). Qed.
Lemma not_flow date_text compose n s : code input (position s) =? 91 = false -> code input (position s) =? 123 = false ->
  wp (readFlowCollection input state date_text compose n) s (fun x s' => x = false /\ s' = s).
Proof. intros H1 H2. apply (not_here (fun c => (c =? 91) || (c =? 123))). by rewrite H1, H2. Qed.
End alternatives.

(** ** Documents of one scalar *)

Section document.
Context (state : loader) (date_text : jsstr -> jsstr) (str body : jsstr).
Abbreviation input := (body ++ [10; 0]).
Abbreviation len := (zlength body).

(** The text of a scalar, and whether it is plain. *)
Inductive scalar_text : bool -> Prop :=
| DoubleText : Forall is_unit str -> body = quote_double str -> scalar_text false
| SingleText : Forall (fun c => isPrintable c = true) str -> body = quote_single str -> scalar_text false
| PlainText : plain_text str -> str <> [] -> separates input 0 = false -> body = str ->
    (forall ty h, ty ∈ implicit_types state -> resolve ty h (DPrim (VStr str)) = false) -> scalar_text true.
Context (plain : bool) (Htext : scalar_text plain).

(** The first character begins a scalar. *)
Definition starts_scalar (c : Z) : Prop := not_skipped c /\ c <> 0 /\ Forall (fun x => c <> x) (js "-?:,[]{}&*!|>%").
Lemma body_start : exists c t, body = c :: t /\ starts_scalar c.
Proof.
  assert (Hq : starts_scalar 34 /\ starts_scalar 39).
  { split; (split; [done|split; [done|]]); repeat (apply Forall_cons; split; [done|]); apply Forall_nil; done. }
  destruct Htext as [_ E|_ E|[Hf _] Hne _ E _].
  - exists 34, (escapeString str ++ [34]). split; [exact E|apply Hq].
  - rewrite quote_single_chars in E. eexists _, _. split; [exact E|apply Hq].
  - rewrite E. destruct str as [|c t]; [done|]. exists c, t. split; [done|]. apply andb_true_iff in Hf as [Hf _].
    destruct (starts_plain_spec c Hf) as (H1 & H2 & H3). split; [done|]. split; [done|]. rewrite Forall_forall in H3 |- *.
    intros x Hx. apply H3.
    change (js "-?:,[]{}#&*!|>'%@`" ++ [34]) with [45; 63; 58; 44; 91; 93; 123; 125; 35; 38; 42; 33; 124; 62; 39; 37; 64; 96; 34].
    change (js "-?:,[]{}&*!|>%") with [45; 63; 58; 44; 91; 93; 123; 125; 38; 42; 33; 124; 62; 37] in Hx.
    revert Hx. rewrite !elem_of_cons. tauto.
Qed.
Lemma start_code : starts_scalar (code input 0).
Proof. destruct body_start as (c & t & -> & H). exact H. Qed.
(** It is none of the characters that begin something else. *)
Lemma start_not x : char_in (js "-?:,[]{}&*!|>%") x = true -> code input 0 =? x = false.
Proof. intros Hx%bool_decide_eq_true. destruct start_code as (_ & _ & H). rewrite Forall_forall in H. apply Z.eqb_neq. by apply H. Qed.
Ltac not_start := rewrite ?start_not by reflexivity.

(** The state after the scalar. *)
Definition after_scalar (s : lstate) : lstate :=
  if plain then set_tag (Some (js "?")) (set_result (Some scalar) (DPrim (VStr str)) (next_line (within s [] len)))
  else within s str len.

Lemma read_scalar_wp s (Q : bool -> lstate -> Prop) : position s = 0 -> lineStart s = 0 -> ntag s = None -> nanchor s = None ->
  Q true (after_scalar s) -> wp (read_scalar input state 0 FLOW_OUT false) s Q.
Proof.
  intros Hp Hl Ht Ha HQ. unfold read_scalar.
  assert (Hnq : code input (0 + len) <> 39).
  { unfold YamlLoad.code. rewrite (proj2 (Z.ltb_ge (0 + len) 0)) by (unfold zlength; lia). unfold zlength.
    rewrite Z.add_0_l, Nat2Z.id, list_lookup_middle by done. done. }
  assert (Hfin : forall b s', nanchor s' = None -> Q b s' -> wp (r ← gets result; _ ← set_anchored r; mret b) s' Q).
  { intros b s' H1 H2. apply wp_bind, wp_gets, wp_bind, wp_modify, wp_ret. by rewrite H1. }
  assert (Hat : text_at input (position s) (body ++ [10; 0])) by (exists [], []; by rewrite app_nil_r, Hp).
  apply wp_bind, or_no; [by apply wp_ret|]. unfold after_scalar in HQ.
  destruct Htext as [Hu E|Hu E|Hpt Hne Hsep E Hres].
  - assert (Hq : text_at input (position s) (quote_double str ++ [10; 0])) by (rewrite <- E; exact Hat).
    pose proof (text_at_code _ _ 34 _ Hq) as Hc. apply or_no; [apply not_single; by rewrite Hc|]. apply or_yes.
    apply (double_quoted_wp _ _ _ _ str); [done|exact (text_at_prefix _ _ _ _ Hq)|lia|]. split; [done|]. apply Hfin; [done|]. by rewrite Hp, <- E.
  - assert (Hq : text_at input (position s) (quote_single str ++ [10; 0])) by (rewrite <- E; exact Hat).
    apply or_yes. apply (single_quoted_wp _ _ _ _ str); [done|exact (text_at_prefix _ _ _ _ Hq)|by rewrite <- E, Hp|lia|]. split; [done|].
    apply Hfin; [done|]. by rewrite Hp, <- E.
  - assert (Hq : text_at input (position s) (str ++ [10; 0])) by (rewrite <- E; exact Hat).
    assert (Hs : starts_plain (code input (position s))).
    { destruct str as [|c t]; [done|]. rewrite (text_at_code _ _ _ _ Hq). apply starts_plain_spec.
      destruct Hpt as [Hf _]. by apply andb_true_iff in Hf as [Hf _]. }
    destruct Hs as (_ & _ & Hs). rewrite Forall_forall in Hs.
    apply or_no; [apply not_single, Z.eqb_neq, Hs, (bool_decide_eq_true_1 _); reflexivity|].
    apply or_no; [apply not_double, Z.eqb_neq, Hs, (bool_decide_eq_true_1 _); reflexivity|].
    apply or_no; [apply wp_bind; eapply wp_mono; [apply not_alias, Z.eqb_neq, Hs, (bool_decide_eq_true_1 _); reflexivity|]; intros x s' [-> ->]; by apply wp_ret|].
    unfold read_plain. apply wp_bind, (plain_scalar_wp _ _ _ _ str); [done|done|done|lia|by rewrite Hp, Hl|]. cbn [negb].
    apply wp_bind, wp_modify. apply wp_ret. assert (El : position s + zlength str = len) by (rewrite Hp, E; lia). rewrite El.
    cbn [ntag set_result next_line set_lineIndent set_line set_position within]. rewrite Ht. by apply Hfin.
Qed.

(** A plain text is no value of an implicit type. *)
Lemma resolve_none types : (forall ty h, ty ∈ types -> resolve ty h (DPrim (VStr str)) = false) -> forall s (Q : unit -> lstate -> Prop),
  result s = DPrim (VStr str) -> Q tt s -> wp (resolve_implicit types) s Q.
Proof.
  intros H s Q Hr HQ. revert H. induction types as [|ty types IH]; intros H; cbn [resolve_implicit]; [by apply wp_ret|].
  apply wp_bind, wp_gets. rewrite Hr, H by by left. apply IH. intros ty' h Hin. apply H. by right.
Qed.
Lemma resolve_scalar_wp s (Q : unit -> lstate -> Prop) : ntag s = None -> Q tt (after_scalar s) -> wp (resolve_node state) (after_scalar s) Q.
Proof.
  intros Ht HQ. unfold resolve_node. apply wp_bind, wp_gets. unfold after_scalar in *.
  destruct Htext as [Hu E|Hu E|Hpt Hne Hsep E Hres]; [cbn [ntag within set_result set_position]; rewrite Ht; by apply wp_ret..|].
  cbn [ntag set_tag]. rewrite bool_decide_eq_false_2 by done. rewrite bool_decide_eq_true_2 by done.
  apply resolve_none; [done|done|done].
Qed.

Definition fresh (s : lstate) : lstate := set_result None (DPrim VNull) (set_anchor None (set_tag None s)).
Lemma no_properties parent k s (Q : Z * bool * bool -> lstate -> Prop) : position s = 0 -> Q k s ->
  wp (while_ input (property_round input state parent false) k) s Q /\ wp (while_ input (property_round input state parent true) k) s Q.
Proof.
  intros Hp HQ. assert (H : forall allow, wp (property_round input state parent allow k) s (fun x s' => exists b, x = inr b /\ Q b s')).
  { intros allow. unfold property_round. destruct k as [[st nl] al]. apply wp_bind. eapply wp_mono; [apply not_tag; rewrite Hp; by not_start|].
    intros x s' [-> ->]. apply wp_bind. eapply wp_mono; [apply not_anchor; rewrite Hp; by not_start|]. intros x s' [-> ->].
    cbn [negb]. apply wp_ret. by eexists. }
  split; by apply while_once.
Qed.

Lemma compose_scalar_wp f s (Q : bool -> lstate -> Prop) : position s = 0 -> lineStart s = 0 -> Q true (after_scalar (fresh s)) ->
  wp (composeNode input state date_text (S f) 0 FLOW_OUT false true) s Q.
Proof.
  intros Hp Hl HQ. cbn [composeNode]. apply wp_bind, wp_modify. fold (fresh s).
  apply wp_bind, wp_ret, wp_bind, wp_gets. cbv zeta. cbn [negb Z.eqb Pos.eqb]. apply wp_bind.
  apply (no_properties 0 _ (fresh s)); [done|]. cbn [orb]. apply wp_bind. rewrite andb_false_l.
  unfold node_content. apply wp_bind, wp_gets. cbn [Z.eqb Pos.eqb].
  apply or_no.
  { apply or_no; [by apply wp_ret|]. apply not_flow; change (position (fresh s)) with (position s); rewrite Hp; by not_start. }
  apply read_scalar_wp; [done|done|done|done|]. apply wp_bind, resolve_scalar_wp; [done|].
  apply wp_bind, wp_gets, wp_ret. exact HQ.
Qed.

(** After the node: its value, and the end of its text. *)
Definition read_to_end (s s' : lstate) : Prop :=
  result s' = DPrim (VStr str) /\ ntag s' = None /\ nanchor s' = None /\ documents s' = documents s /\
  position s' = (if plain then len + 1 else len).

Lemma no_sequence compose n s (Q : bool -> lstate -> Prop) : position s = 0 -> nanchor s = None ->
  (forall h, Q false (set_objects h s)) -> wp (readBlockSequence input state compose n) s Q.
Proof.
  intros Hp Ha HQ. unfold readBlockSequence. apply wp_bind, wp_gets, wp_bind. unfold alloc, wp at 1.
  apply wp_bind, wp_modify. cbn [nanchor set_objects]. rewrite Ha. apply wp_bind, while_once.
  unfold sequence_round. apply wp_bind, wp_ch, wp_bind, wp_peek. cbn [position set_objects]. rewrite Hp.
  change (chr "-") with 45. rewrite (start_not 45) by reflexivity. rewrite orb_true_r. apply wp_ret. eexists. split; [done|].
  apply wp_ret, HQ.
Qed.

Lemma key_scalar_wp f s (Q : bool -> lstate -> Prop) : position s = 0 -> lineStart s = 0 -> ntag s = None -> nanchor s = None ->
  (forall s', read_to_end s s' -> Q true s') ->
  wp (readBlockMapping input state date_text (composeNode input state date_text (S f)) 0 0) s Q.
Proof.
  intros Hp Hl Ht Ha HQ. unfold readBlockMapping. apply wp_bind, wp_gets, wp_bind. unfold alloc, wp at 1.
  apply wp_bind, wp_modify. cbn [nanchor set_objects]. rewrite Ha. apply wp_bind, while_once.
  set (s1 := set_objects _ s). unfold mapping_round. apply wp_bind, wp_ch, wp_bind, wp_peek. change (position s1) with (position s). rewrite Hp.
  destruct start_code as (_ & H0 & _). rewrite (proj2 (Z.eqb_neq _ _) H0). change (chr "?") with 63. change (chr ":") with 58.
  rewrite (start_not 63), (start_not 58) by reflexivity. cbn [orb andb].
  unfold implicit_entry. apply wp_bind, wp_gets, wp_bind, compose_scalar_wp; [exact Hp|exact Hl|]. cbn [negb].
  apply wp_bind, wp_gets. set (s2 := after_scalar (fresh s1)).
  assert (Hlast : read_to_end s (set_anchor None (set_tag (ntag s) s2))).
  { unfold read_to_end, s2, after_scalar. rewrite Ht. by destruct plain. }
  assert (Hkeep : forall k, exists b : bool * pair_state, inr (A := pair_state) (true, k) = inr b /\ wp (let '(kept, k) := b in
      if kept : bool then _ ← modify (fun s' => set_anchor None (set_tag (ntag s) s')); mret true
      else k ← store_explicit state date_text (length (objects s)) k;
        if detected k then _ ← finish (ntag s) None mapping (length (objects s)); mret true else mret false) s2 Q).
  { intros k. eexists. split; [reflexivity|]. apply wp_bind, wp_modify, wp_ret. by apply HQ. }
  branch; [apply wp_ret, Hkeep|].
  assert (Hline : plain = false /\ position s2 = len).
  { revert Heqb. unfold s2, after_scalar. destruct plain; [|done]. cbn. intros Hx%negb_false_iff%Z.eqb_eq. lia. }
  assert (Hc : code input len = 10).
  { assert (Hat : text_at input (0 + len) [10; 0]) by (apply (text_at_app input 0 body); exists [], []; by rewrite app_nil_r).
    by apply text_at_code in Hat. }
  destruct Hline as [Hpl P2]. apply wp_bind, skip_none_wp; [by rewrite P2, Hc|]. apply wp_bind, wp_ch. rewrite P2, Hc.
  cbn [Z.eqb detected]. apply wp_ret, Hkeep.
Qed.

Lemma compose_document_wp f s (Q : bool -> lstate -> Prop) : position s = 0 -> lineStart s = 0 ->
  (forall b s', read_to_end s s' -> Q b s') -> wp (composeNode input state date_text (S (S f)) (-1) BLOCK_OUT false true) s Q.
Proof.
  intros Hp Hl HQ. change (composeNode input state date_text (S (S f))) with
    (fun p c a b => composeNode input state date_text (S (S f)) p c a b). cbv beta.
  remember (S f) as g eqn:Eg. cbn [composeNode]. apply wp_bind, wp_modify. fold (fresh s).
  apply wp_bind, wp_ret, wp_bind, wp_gets. cbv zeta. cbn [negb Z.eqb Pos.eqb]. apply wp_bind.
  apply (no_properties (-1) _ (fresh s)); [done|]. cbn [orb andb negb]. apply wp_bind.
  unfold node_content. apply wp_bind, wp_gets. cbn [Z.eqb Pos.eqb orb andb]. change (position (fresh s) - lineStart (fresh s)) with (position s - lineStart s).
  rewrite Hp, Hl. change (0 - 0) with 0. change (-1 + 1) with 0.
  apply or_yes, or_yes, wp_bind, no_sequence; [done|done|]. intros h.
  rewrite Eg. apply key_scalar_wp; [exact Hp|exact Hl|done|done|]. intros s' Hend. split; [done|]. split; [done|].
  destruct Hend as (H1 & H2 & H3 & H4 & H5). apply wp_bind. unfold resolve_node. apply wp_bind, wp_gets. rewrite H2. apply wp_ret.
  apply wp_bind, wp_gets, wp_ret, HQ. by repeat split.
Qed.

Lemma warn_wp (b : bool) w s (Q : unit -> lstate -> Prop) : (forall ws, Q tt (set_warnings ws s)) -> Q tt s ->
  wp (if b then throwWarning state w else mret tt) s Q.
Proof. intros H1 H2. destruct b; [|by apply wp_ret]. apply wp_modify. by destruct (onWarning state). Qed.

(** The whole text is one document. *)
Lemma readDocument_scalar_wp s (Q : unit -> lstate -> Prop) : position s = 0 -> lineStart s = 0 -> lineIndent s = 0 ->
  (forall s', documents s' = documents s ++ [DPrim (VStr str)] -> position s' = len + 1 -> Q tt s') ->
  wp (readDocument input state date_text) s Q.
Proof.
  intros Hp Hl Hi HQ. assert (Hns : not_skipped (code input 0)) by apply start_code.
  unfold readDocument. apply wp_bind, wp_gets, wp_bind, wp_modify. set (s0 := set_anchorMap [] _).
  assert (P0 : position s0 = 0 /\ lineStart s0 = 0 /\ lineIndent s0 = 0) by done. destruct P0 as (P0 & L0 & I0).
  apply wp_bind, while_once. unfold directive_round. apply wp_bind, wp_ch. rewrite P0.
  destruct start_code as (_ & N0 & _). rewrite (proj2 (Z.eqb_neq _ _) N0). apply wp_bind, separation_none_wp; [by rewrite P0|].
  apply wp_bind, wp_ch, wp_bind, wp_gets. rewrite P0, I0. change (chr "%") with 37. rewrite (start_not 37) by reflexivity. cbn [negb orb Z.ltb].
  rewrite orb_true_r. apply wp_ret. eexists. split; [done|]. apply wp_bind, separation_none_wp; [by rewrite P0|].
  apply wp_bind, wp_ch, wp_bind, wp_peek, wp_bind, wp_peek, wp_bind, wp_gets. rewrite P0, I0.
  change (chr "-") with 45. rewrite (start_not 45) by reflexivity. cbn [Z.eqb andb]. apply wp_bind, wp_pass; [done|].
  apply wp_bind, wp_gets, wp_bind. rewrite I0. change (0 - 1) with (-1). unfold node_fuel.
  apply compose_document_wp; [done|done|]. intros b s' (H1 & H2 & H3 & H4 & H5).
  assert (Hat : text_at input (0 + len) [10; 0]) by (apply (text_at_app input 0 body); exists [], []; by rewrite app_nil_r).
  assert (Hsep : forall Q' : Z -> lstate -> Prop, (forall n s2, result s2 = DPrim (VStr str) -> documents s2 = documents s -> position s2 = len + 1 -> Q' n s2) ->
    wp (skipSeparationSpace input state true (-1)) s' Q').
  { intros Q' HQ'. destruct plain.
    - apply separation_none_wp; [|by apply HQ']. rewrite H5. apply text_at_next, text_at_code in Hat. rewrite Z.add_0_l in Hat. by rewrite Hat.
    - apply separation_end_wp; [lia|by rewrite H5|]. apply HQ'; [done|done|]. by rewrite <- H5. }
  apply wp_bind, Hsep. intros n s2 R2 D2 P2. apply wp_bind, wp_gets, wp_bind.
  assert (Hrest : forall s3, result s3 = DPrim (VStr str) -> documents s3 = documents s -> position s3 = len + 1 ->
    wp (_ ← modify (fun s => set_documents (documents s ++ [result s]) s); sep ← at_document_separator input;
        if sep : bool then c ← ch input;
          if c =? chr "." then _ ← skip 3; _ ← skipSeparationSpace input state true (-1); mret tt else mret tt
        else unless (position s2 <? last_position input)) s3 Q).
  { intros s3 R3 D3 P3. apply wp_bind, wp_modify, wp_bind, separator_at_wp. cbn [position set_documents].
    assert (Hsp : separates input (position s3) = false).
    { rewrite P3. unfold separates. apply text_at_next, text_at_code in Hat. rewrite Z.add_0_l in Hat. by rewrite Hat. }
    rewrite Hsp, andb_false_r, P2. apply wp_pass; [apply Z.ltb_ge; unfold last_position; unfold zlength; rewrite length_app; cbn [length]; lia|]. apply HQ; [|exact P3]. cbn. by rewrite R3, D3. }
  apply warn_wp; [intros ws|]; by apply Hrest.
Qed.

Lemma read_documents_scalar : let r := read_documents input state date_text start_state in
  r.2 = Ok tt /\ documents r.1 = [DPrim (VStr str)].
Proof.
  assert (H : wp (read_documents input state date_text) start_state (fun _ s' => documents s' = [DPrim (VStr str)])).
  { unfold read_documents. apply wp_bind, skip_none_wp.
    { destruct start_code as ((H & _) & _). cbn. unfold is_WHITE_SPACE in H. by apply orb_false_iff in H as [_ ?]. }
    apply wp_bind, wp_modify. apply while_twice. unfold document_round. apply wp_bind, wp_gets. cbn [position set_lineIndent start_state].
    assert (Hl : last_position input = len) by (unfold last_position, zlength; rewrite length_app; cbn [length]; lia).
    assert (0 < len) by (destruct body_start as (c & t & -> & _); unfold zlength; cbn [length]; lia).
    rewrite Hl, (proj2 (Z.ltb_lt _ _)) by done. apply wp_bind, readDocument_scalar_wp; [done..|]. intros s' D P. apply wp_ret.
    eexists. split; [done|]. apply wp_bind, wp_gets. rewrite P, (proj2 (Z.ltb_ge _ _)) by lia. apply wp_ret. eexists. split; [done|].
    exact D. }
  unfold wpe in H. cbv zeta. by destruct (read_documents _ _ _ _) as [s' [[]|e]].
Qed.
End document.

(** ** What the dumper writes for a string *)

(** One line: lines cannot be broken at the outermost level, or the text is
    one line that needs no folding. *)
Definition one_line (st : dumper) (string : jsstr) : Prop :=
  flowLevel st = 0 \/ (NL ∉ string /\ (lineWidth st = -1 \/ zlength string <= scalar_width st 0)).

Lemma scan_chars_spec string w rest : NL ∉ rest -> forall i st st', scan_chars string w i st rest = Some st' ->
  Forall (fun c => isPrintable c = true) rest /\ hasLineBreak st' = hasLineBreak st /\ hasFoldableLine st' = hasFoldableLine st /\
  previousLineBreak st' = previousLineBreak st /\ plain st' = plain st && forallb isPlainSafe rest.
Proof.
  intros Hn. induction rest as [|c rest IH]; intros i st st' H; cbn [scan_chars] in H.
  - injection H as <-. repeat split; [done|]. cbn. by rewrite andb_true_r.
  - apply not_elem_of_cons in Hn as [Hc Hn]. rewrite (proj2 (Z.eqb_neq _ _)) in H by done.
    destruct (isPrintable c) eqn:Ep; [|done]. destruct (IH Hn _ _ _ H) as (H1 & H2 & H3 & H4 & H5). split; [by constructor|].
    rewrite H5. cbn. by rewrite andb_assoc.
Qed.

(** The style of a text of one line. *)
Lemma one_line_style st string : one_line st string ->
  let single := (-1 <? flowLevel st) && (flowLevel st <=? 0) in
  match chooseScalarStyle string single (indent st) (scalar_width st 0) (testImplicitResolving st) with
  | STYLE_DOUBLE => True
  | STYLE_SINGLE => Forall (fun c => isPrintable c = true) string
  | STYLE_PLAIN => plain_text string /\ testImplicitResolving st string = false
  | STYLE_LITERAL | STYLE_FOLDED => False
  end.
Proof.
  intros H single. unfold chooseScalarStyle.
  assert (Hs : match scan_string string single (scalar_width st 0) with
    | None => True
    | Some sc => hasLineBreak sc = false /\ hasFoldableLine sc = false /\ Forall (fun c => isPrintable c = true) string /\
                 plain sc = first_plain string && forallb isPlainSafe string end).
  { unfold scan_string. destruct single eqn:Es.
    - destruct (forallb isPrintable string) eqn:Ep; [|done]. split; [done|]. split; [done|]. split; [|done].
      apply Forall_forall. intros c Hc. rewrite forallb_forall in Ep. apply Ep. by apply list_elem_of_In.
    - destruct H as [H|[Hn Hw]]; [unfold single in Es; rewrite H in Es; done|].
      destruct (scan_chars _ _ _ _ _) as [sc|] eqn:E; [|done]. destruct (scan_chars_spec _ _ _ Hn _ _ _ E) as (H1 & H2 & H3 & H4 & H5).
      cbn in H2, H3, H4, H5. cbn. rewrite H2, H3, H4. repeat split; [|done|done]. cbn [orb].
      destruct (Z.eqb_spec (scalar_width st 0) (-1)); [done|]. cbn [negb andb]. unfold foldable.
      destruct Hw as [Hw|Hw]; [unfold scalar_width in *; rewrite Hw in *; done|].
      by rewrite (proj2 (Z.ltb_ge _ _)) by lia. }
  destruct (scan_string _ _ _) as [sc|]; [|done]. destruct Hs as (-> & -> & Hp & Hpl). cbn [negb andb].
  destruct (plain sc && negb (testImplicitResolving st string)) eqn:E; [|done].
  rewrite Hpl in E. apply andb_true_iff in E as [E Hr]. apply andb_true_iff in E as [E1 E2]. split; [|by apply negb_true_iff].
  split; [done|]. apply Forall_forall. intros c Hc. rewrite forallb_forall in E2. apply E2. by apply list_elem_of_In.
Qed.

(** The line of three dots that ends a document. *)
Definition end_marker (string : jsstr) : bool :=
  bool_decide (take 3 string = js "...") && match drop 3 string with [] => true | c :: _ => is_WS_OR_EOL c end.
Lemma end_marker_separates string : string <> [] -> plain_text string -> end_marker string = false -> separates (string ++ [10; 0]) 0 = false.
Proof.
  intros Hne [Hf Hsafe] He. destruct (separates _ _) eqn:Es; [|done]. exfalso. unfold separates in Es.
  change (chr "-") with 45 in Es. change (chr ".") with 46 in Es. rewrite !andb_true_iff, orb_true_iff in Es.
  destruct Es as [[[E0 E1] E2] E3]. destruct string as [|a l]; [done|]. change (code ((a :: l) ++ [10; 0]) 0) with a in *.
  apply andb_true_iff in Hf as [Hf _]. destruct (plain_first_spec a Hf) as (_ & _ & Hx). apply Forall_cons in Hx as [Hx _].
  destruct E0 as [E0|E0]; apply Z.eqb_eq in E0; [done|]. subst a. apply Z.eqb_eq in E1, E2.
  destruct l as [|b [|c l]]; [done| |].
  - change (46 = b) in E1. subst b. done.
  - change (46 = b) in E1. change (46 = c) in E2. subst b c. unfold end_marker in He. cbn [take drop] in He.
    rewrite bool_decide_eq_true_2 in He by done. destruct l as [|d l]; [done|]. change (is_WS_OR_EOL d = false) in He.
    change (code ((46 :: 46 :: 46 :: d :: l) ++ [10; 0]) (0 + 3)) with d in E3. rewrite He, orb_false_r in E3.
    apply Z.eqb_eq in E3. subst d. do 3 apply Forall_cons in Hsafe as [_ Hsafe]. by apply Forall_cons in Hsafe as [Hs _].
Qed.

Lemma deprecated_words string : string ∈ DEPRECATED_BOOLEANS_SYNTAX ->
  Forall (fun c => isPrintable c = true) string /\ quote_single string = js "'" ++ string ++ js "'".
Proof.
  assert (H : forallb (fun w => forallb isPrintable w && bool_decide (quote_single w = js "'" ++ w ++ js "'")) DEPRECATED_BOOLEANS_SYNTAX = true) by done.
  intros Hin. rewrite forallb_forall in H. specialize (H string ltac:(by apply list_elem_of_In)).
  apply andb_true_iff in H as [H1 H2]. apply bool_decide_eq_true in H2. split; [|done].
  apply Forall_forall. intros c Hc. rewrite forallb_forall in H1. apply H1. by apply list_elem_of_In.
Qed.

(** What is written is a text that is read as a scalar. *)
Lemma written_scalar st l string : Forall is_unit string -> one_line st string -> end_marker string = false ->
  implicit_types l = implicitTypes st ->
  (forall ty h v, ty ∈ implicitTypes st -> resolve ty h (DPrim v) = resolve ty [] (DPrim v)) ->
  exists plain, scalar_text l string (writeScalar st string 0 false) plain.
Proof.
  intros Hu Ho He Hi Hr. unfold writeScalar. destruct string as [|c0 t] eqn:Estr.
  { exists false. by apply SingleText. }
  rewrite <- Estr in *. destruct (negb (noCompatMode st) && _) eqn:Ed.
  { apply andb_true_iff in Ed as [_ Ed%bool_decide_eq_true]. destruct (deprecated_words _ Ed) as [H1 H2]. exists false.
    by apply SingleText. }
  pose proof (one_line_style st string Ho) as Hs. cbv zeta in Hs |- *. cbn [orb].
  destruct (chooseScalarStyle _ _ _ _ _) eqn:Ec; try done.
  - destruct Hs as [Hp Ht]. exists true. assert (Hne : string <> []) by by rewrite Estr.
    apply PlainText; [done|done|by apply end_marker_separates|done|]. intros ty h Hin. rewrite Hi in Hin. rewrite Hr by done.
    unfold testImplicitResolving in Ht. apply not_true_is_false. intros E. rewrite <- not_true_iff_false in Ht. apply Ht.
    apply existsb_exists. exists ty. split; [by apply list_elem_of_In|done].
  - exists false. by apply SingleText.
  - exists false. by apply DoubleText.
Qed.

(** ** From the dump back to the string *)

Section roundtrip.
Context (date_text : jsstr -> jsstr) (parseFloat : jsstr -> jsnum) (negate : jsnum -> jsnum) (sum60 : list jsnum -> jsnum)
  (sortWith : list jsstr -> list jsstr).
Abbreviation SAFE := (DEFAULT_SAFE parseFloat negate sum60).

Lemma implicit_of_prim ty h v : ty ∈ compiledImplicit SAFE -> resolve ty h (DPrim v) = resolve ty [] (DPrim v).
Proof.
  intros Hd%compiled_in. cbn in Hd. rewrite !elem_of_cons in Hd. decompose [or] Hd; subst; try done. match goal with H : _ ∈ [] |- _ => by apply not_elem_of_nil in H end.
Qed.
Lemma detect_string h st string : implicitTypes st = compiledImplicit SAFE -> explicitTypes st = compiledExplicit SAFE ->
  detect h st (DPrim (VStr string)) = Ok None.
Proof. intros H1 H2. unfold detect. rewrite H1, H2. reflexivity. Qed.

Lemma dump_string h string options : safeDump sortWith parseFloat negate sum60 h (DPrim (VStr string)) options =
  Ok (writeScalar (State SAFE options) string 0 false ++ [NL]).
Proof.
  unfold safeDump, dump. cbv zeta.
  assert (Hd : exists d, (if noRefs (State SAFE options) then Ok [] else getDuplicateReferences h (DPrim (VStr string))) = Ok d).
  { destruct (noRefs _); by eexists. }
  destruct Hd as [d ->]. unfold mbind, res_bind. cbn [writeNode]. unfold lift at 1, mbind at 1, st_bind at 1.
  rewrite (detect_string h (State SAFE options)) by done. reflexivity.
Qed.

Lemma prepare_text l string body pl : scalar_text l string body pl -> prepare (body ++ [NL]) = body ++ [10; 0].
Proof.
  intros Ht. assert (Hb : exists c t, body = c :: t /\ c <> 65279).
  { destruct Ht as [_ ->|_ ->|[Hf _] Hne _ -> _]; [by eexists _, _|rewrite quote_single_chars; by eexists _, _|].
    destruct string as [|c t]; [done|]. exists c, t. split; [done|]. apply andb_true_iff in Hf as [Hf _].
    destruct (plain_first_spec c Hf) as (Hp & _). by intros ->. }
  destruct Hb as (c & t & -> & Hc). unfold prepare. rewrite last_snoc. cbn [Z.eqb Pos.eqb negb andb NL app].
  rewrite (proj2 (Z.eqb_neq _ _) Hc). cbn [app]. f_equal. by rewrite <- app_assoc.
Qed.

(** C36. A string that is dumped as YAML is loaded back as the same string,
    whichever of the plain, single-quoted and double-quoted styles it gets: for
    every string of 16-bit units written on one line, except one that starts as
    a document end marker (three dots and white space, or nothing). *)
Theorem string_roundtrip h string options loptions : Forall is_unit string ->
  one_line (State SAFE options) string -> end_marker string = false ->
  exists text h', safeDump sortWith parseFloat negate sum60 h (DPrim (VStr string)) options = Ok text /\
    safeLoad date_text parseFloat negate sum60 text loptions = Ok (h', DPrim (VStr string)).
Proof.
  intros Hu Ho He. rewrite dump_string. eexists. set (body := writeScalar _ _ _ _).
  destruct (written_scalar (State SAFE options) (options_of SAFE loptions) string Hu Ho He eq_refl) as [pl Ht].
  { intros ty h' v Hin. by apply implicit_of_prim. }
  fold body in Ht. destruct (read_documents_scalar _ date_text _ _ _ Ht) as [H1 H2].
  unfold safeLoad, load, loadDocuments. rewrite (prepare_text _ _ _ _ Ht).
  destruct (read_documents _ _ _ _) as [st r]. cbn [fst snd] in H1, H2. subst r. eexists. split; [reflexivity|].
  cbn. by rewrite H2.
Qed.
End roundtrip.

Lemma string_roundtrip_witness :
  exists text h', safeDump (fun l => l) (fun _ => NNaN) (fun n => n) (fun _ => NNaN) [] (DPrim (VStr (js "it's a 'key': " ++ [55357; 10; 9]))) [(js "flowLevel", vint 0)] = Ok text /\
    safeLoad (fun t => t) (fun _ => NNaN) (fun n => n) (fun _ => NNaN) text [] = Ok (h', DPrim (VStr (js "it's a 'key': " ++ [55357; 10; 9]))).
Proof.
  apply (string_roundtrip (fun t => t) (fun _ => NNaN) (fun n => n) (fun _ => NNaN) (fun l => l) []).
  - repeat (apply Forall_cons; split; [unfold is_unit; cbn; lia|]). by apply Forall_nil.
  - by left.
  - done.
Defined.

(** The string of three dots is written plain, and read as the end of an empty
    document. *)
Example dots_lost :
  safeDump (fun l => l) (fun _ => NNaN) (fun n => n) (fun _ => NNaN) [] (DPrim (VStr (js "..."))) [] = Ok (js "..." ++ [10]) /\
  snd <$> safeLoad (fun t => t) (fun _ => NNaN) (fun n => n) (fun _ => NNaN) (js "..." ++ [10]) [] = Ok (DPrim VNull).
Proof. vm_compute. done. Qed.
