(* ===== verification/YamlApi.v ===== *)
(** * The interface of js-yaml

    What a caller of js-yaml sees besides [load] and [dump]: the exceptions
    and the position they point at (the mark and its snippet of the text),
    the loading of every document of a stream, the schemas a caller creates
    and the types of JavaScript that the full schema adds.

    The parser esprima is not under src/: it is a parameter of the type of
    functions, as are the environment's [RegExp] and [Function]. *)

From Stdlib Require Import String.
From S2P Require Import Prelude JsNumber JsString JsValue YamlTypes YamlText YamlLoad.

(** ** Marks *)

Record mark := Mark { mname : option jsstr; buffer : jsstr; mposition : Z; mline : Z; mcolumn : Z }.

(** [a || b] for a number that may be missing. *)
Definition or_number (a : option Z) (b : Z) : Z := match a with Some n => if n =? 0 then b else n | None => b end.

(** The characters at which a snippet stops; outside of the text [charAt] is
    the empty string, which [indexOf] finds. *)
Definition snippet_end (c : option Z) : bool :=
  match c with Some c => bool_decide (c ∈ [0; 13; 10; 133; 8232; 8233]) | None => true end.
Definition char_code (s : jsstr) (i : Z) : option Z := if i <? 0 then None else s !! Z.to_nat i.

(** The start of the snippet, from [start] backwards: at most half of the
    width, and then five characters give way to the dots.  [n] bounds the
    steps: the position is enough. *)
Definition too_far (distance maxLength : Z) : bool := maxLength <? 2 * distance + 2.
Definition dots : jsstr := js " ... ".
Fixpoint snippet_head (n : nat) (buffer : jsstr) (position maxLength start : Z) : Z * jsstr :=
  match n with
  | O => (start, [])
  | S n =>
      if (0 <? start) && negb (snippet_end (char_code buffer (start - 1))) then
        let start := start - 1 in
        if too_far (position - start) maxLength then (start + 5, dots)
        else snippet_head n buffer position maxLength start
      else (start, [])
  end.
Fixpoint snippet_tail (n : nat) (buffer : jsstr) (position maxLength fin : Z) : Z * jsstr :=
  match n with
  | O => (fin, [])
  | S n =>
      if (fin <? zlength buffer) && negb (snippet_end (char_code buffer fin)) then
        let fin := fin + 1 in
        if too_far (fin - position) maxLength then (fin - 5, dots)
        else snippet_tail n buffer position maxLength fin
      else (fin, [])
  end.

Definition spaces (n : Z) : jsstr := repeat_str (js " ") (Z.to_nat n).
Definition getSnippet (m : mark) (indent maxLength : option Z) : option jsstr :=
  match buffer m with
  | [] => None
  | _ =>
      let indent := or_number indent 4 in
      let maxLength := or_number maxLength 75 in
      let position := mposition m in
      let '(start, head) := snippet_head (Z.to_nat position) (buffer m) position maxLength position in
      let '(fin, tail) := snippet_tail (length (buffer m)) (buffer m) position maxLength position in
      let snippet := slice_list (buffer m) start fin in
      Some (spaces indent ++ head ++ snippet ++ tail ++ [NL] ++
            spaces (indent + position - start + zlength head) ++ js "^")
  end.

Definition mark_to_string (m : mark) (compact : bool) : jsstr :=
  let where_ := match mname m with
                | Some (c :: n) => js "in " ++ [34] ++ (c :: n) ++ [34] ++ js " "
                | _ => []
                end in
  let where_ := where_ ++ js "at line " ++ radix_string 10 (mline m + 1) ++ js ", column " ++ radix_string 10 (mcolumn m + 1) in
  if compact then where_
  else match getSnippet m None None with
       | Some (c :: s) => where_ ++ js ":" ++ [NL] ++ (c :: s)
       | _ => where_
       end.

(** ** Exceptions *)

Record YAMLException := Exception { reason : jsstr; emark : option mark }.
Definition or_unknown (reason : jsstr) : jsstr := match reason with [] => js "(unknown reason)" | _ => reason end.
Definition message (e : YAMLException) : jsstr :=
  or_unknown (reason e) ++ match emark e with Some m => js " " ++ mark_to_string m false | None => [] end.
Definition exception_to_string (e : YAMLException) (compact : bool) : jsstr :=
  js "YAMLException: " ++ or_unknown (reason e) ++
  match emark e with Some m => if compact then [] else js " " ++ mark_to_string m false | None => [] end.

(** The exception for a state of the loader. *)
Definition generateError (filename : option jsstr) (input : jsstr) (s : lstate) (message : jsstr) : YAMLException :=
  Exception message (Some (Mark filename input (position s) (line s) (position s - lineStart s))).

(** ** Every document of a stream *)

Section streams.
Context (date_text : jsstr -> jsstr).
Context {W : Type} (iterator : heap * dval -> ST W unit).

(** The documents share the heap of the run. *)
Definition loadAll (s : schema) (input : jsstr) (options : obj) : ST W unit :=
  documents ← lift (loadDocuments date_text s input options);
  iterM (fun d => iterator (documents.1, d)) documents.2.

Context (parseFloat : jsstr -> jsnum) (negate : jsnum -> jsnum) (sum60 : list jsnum -> jsnum).
Definition safeLoadAll (input : jsstr) (options : obj) : ST W unit :=
  loadAll (DEFAULT_SAFE parseFloat negate sum60) input options.
End streams.

(** ** Schemas of a caller *)

(** What may be given to [Schema.create]. *)
#[warnings="-register-all"]
Inductive schema_arg :=
| ASchema (s : schema)
| AType (t : ytype)
| AList (l : list schema_arg)
| ANothing
| AOther.
Definition arg_list (a : schema_arg) : list schema_arg :=
  match a with AList l => l | ANothing => [] | _ => [a] end.
Definition as_schema (a : schema_arg) : res schema := match a with ASchema s => Ok s | _ => Throw ErrorMsg end.
Definition as_type (a : schema_arg) : res ytype := match a with AType t => Ok t | _ => Throw ErrorMsg end.
Definition createSchema (DEFAULT : schema) (args : list schema_arg) : res schema :=
  '(schemas, types) ← match args with
                      | [types] => Ok (ASchema DEFAULT, types)
                      | [schemas; types] => Ok (schemas, types)
                      | _ => Throw ErrorMsg
                      end;
  schemas ← mapM_res as_schema (arg_list schemas);
  types ← mapM_res as_type (arg_list types);
  Ok (Schema schemas [] types).

(** ** The types of JavaScript *)

(** What is read of a program that esprima has parsed: its statements, with
    the expression of an expression statement. *)
Record statement := Statement {
  statement_type : jsstr; expression_type : jsstr; param_names : list jsstr; body_range : Z * Z
}.
Record program := Program { program_type : jsstr; statements : list statement }.

Section javascript.
(** [esprima.parse], unless there is no esprima. *)
Context (esprima : option (jsstr -> res program)).
(** The environment's constructors of regular expressions (from a pattern
    and modifiers) and functions (from names and a body). *)
Context (new_RegExp : jsstr -> jsstr -> res jsval) (new_Function : list jsstr -> jsstr -> res jsval).

Definition parse_function (source : jsstr) : res program :=
  match esprima with Some parse => parse source | None => Throw TypeError end.
Definition is_function (ast : program) : option statement :=
  if bool_decide (program_type ast = js "Program") then
    match statements ast with
    | [st] => if bool_decide (statement_type st = js "ExpressionStatement") &&
                 bool_decide (expression_type st = js "FunctionExpression") then Some st else None
    | _ => None
    end
  else None.
Definition function_source (data : jsstr) : jsstr := js "(" ++ data ++ js ")".
Definition resolveJavascriptFunction (data : jsval) : bool :=
  match data with
  | VStr data => match parse_function (function_source data) with
                 | Ok ast => match is_function ast with Some _ => true | None => false end
                 | Throw _ => false
                 end
  | _ => false
  end.
Definition constructJavascriptFunction (data : jsval) : res jsval :=
  match data with
  | VStr data =>
      let source := function_source data in
      ast ← parse_function source;
      match is_function ast with
      | Some st => new_Function (param_names st) (slice_list source ((body_range st).1 + 1) ((body_range st).2 - 1))
      | None => Throw ErrorMsg
      end
  | _ => Throw TypeError
  end.
Definition is_host (class : jsstr) (object : jsval) : bool :=
  match object with VHost c _ => bool_decide (c = class) | _ => false end.
Definition isFunction (object : jsval) : bool := is_host (js "Function") object.
Definition isRegExp (object : jsval) : bool := is_host (js "RegExp") object.
(** A host value has its text: [toString] of a function, and of a regular
    expression its source between slashes and its flags. *)
Definition host_text (object : jsval) : jsstr := match object with VHost _ t => t | _ => [] end.
Definition represent_regexp (object : jsval) : jsstr :=
  let text := host_text object in
  let flags := substring_from text (lastIndexOf text (js "/") + 1) in
  let has c := bool_decide (c ∈ flags) in
  representJavascriptRegExp (slice_list text 1 (lastIndexOf text (js "/"))) (has (chr "g")) (has (chr "m")) (has (chr "i")).

Definition scalar_construct (f : jsval -> res jsval) (h : heap) (d : dval) : res (heap * dval) :=
  match d with DPrim v => v ← f v; Ok (h, DPrim v) | DRef _ => Throw TypeError end.
Definition js_tag (name : jsstr) : jsstr := yaml_tag "js/" ++ name.
Definition function_type := YType (js_tag (js "function")) scalar (of_prim resolveJavascriptFunction)
  (scalar_construct constructJavascriptFunction) (Some isFunction) (RepresentFun (fun v _ => VStr (host_text v))) [] [].
Definition regexp_type := YType (js_tag (js "regexp")) scalar (of_prim resolveJavascriptRegExp)
  (scalar_construct (fun v => match v with
                              | VStr s => let '(pattern, modifiers) := constructJavascriptRegExp s in new_RegExp pattern modifiers
                              | _ => Throw TypeError
                              end))
  (Some isRegExp) (RepresentFun (fun v _ => VStr (represent_regexp v))) [] [].
Definition undefined_type := YType (js_tag (js "undefined")) scalar (of_prim resolveJavascriptUndefined)
  (to_prim constructJavascriptUndefined) (Some isUndefined) (RepresentFun (fun v _ => VStr (representJavascriptUndefined v))) [] [].

Context (parseFloat : jsstr -> jsnum) (negate : jsnum -> jsnum) (sum60 : list jsnum -> jsnum).
Definition DEFAULT_FULL : schema :=
  Schema [DEFAULT_SAFE parseFloat negate sum60] [] [undefined_type; regexp_type; function_type].
End javascript.

(** ** The snippet of a mark *)

Lemma spaces_length n : 0 <= n -> length (spaces n) = Z.to_nat n.
Proof. intros _. unfold spaces. induction (Z.to_nat n) as [|k IH]; [done|]. cbn [repeat_str]. rewrite length_app, IH. done. Qed.

Lemma in_spaces c n : c ∈ spaces n -> c = SPACE.
Proof.
  unfold spaces. induction (Z.to_nat n) as [|k IH]; cbn [repeat_str]; [by intros ?%not_elem_of_nil|].
  rewrite elem_of_app. intros [H|H]; [by apply list_elem_of_singleton in H|by apply IH].
Qed.

(** No character from [a] to [b] ends the line. *)
Definition one_line (buffer : jsstr) (a b : Z) : Prop := forall i, a <= i < b -> snippet_end (char_code buffer i) = false.

(** What is known of a start found backwards from the position: the start of
    the line, or the dots stand for at least five characters more of it. *)
Record head_found (buffer : jsstr) (position maxLength start : Z) (head : jsstr) : Prop := {
  head_bounds : 0 <= start <= position;
  head_line : one_line buffer start position;
  head_width : 2 * (position - start + zlength head) <= maxLength;
  head_dots : (head = [] /\ (start = 0 \/ snippet_end (char_code buffer (start - 1)) = true)) \/
    (head = dots /\ 5 <= start /\ one_line buffer (start - 5) start /\ maxLength < 2 * (position - start + 5) + 2)
}.

Lemma snippet_head_found buffer position M : 12 <= M -> forall n start,
  0 <= start <= position -> start <= Z.of_nat n -> one_line buffer start position -> 2 * (position - start) + 2 <= M ->
  let '(start', head) := snippet_head n buffer position M start in head_found buffer position M start' head.
Proof.
  intros HM. induction n as [|n IH]; intros start Hs Hn Hl Hw; cbn [snippet_head].
  { split; [lia|done|change (zlength []) with 0; lia|left; split; [done|left; lia]]. }
  destruct (Z.ltb_spec 0 start) as [H0|H0]; cbn [andb]; [|split; [lia|done|change (zlength []) with 0; lia|left; split; [done|left; lia]]].
  destruct (snippet_end (char_code buffer (start - 1))) eqn:E; cbn [negb]; [split; [lia|done|change (zlength []) with 0; lia|by left; split; [|right]]|].
  assert (Hl' : one_line buffer (start - 1) position).
  { intros i Hi. destruct (decide (i = start - 1)) as [->|]; [done|apply Hl; lia]. }
  unfold too_far. destruct (Z.ltb_spec M (2 * (position - (start - 1)) + 2)).
  - split; [lia| |change (zlength dots) with 5; lia|right]; [intros i Hi; apply Hl'; lia|].
    split; [done|]. split; [lia|]. split; [intros i Hi; apply Hl'; lia|lia].
  - apply IH; [lia|lia|done|lia].
Qed.

Record tail_found (buffer : jsstr) (position maxLength fin : Z) (tail : jsstr) : Prop := {
  tail_bounds : position <= fin <= zlength buffer;
  tail_line : one_line buffer position fin;
  tail_width : 2 * (fin - position + zlength tail) <= maxLength;
  tail_dots : (tail = [] /\ (fin = zlength buffer \/ snippet_end (char_code buffer fin) = true)) \/
    (tail = dots /\ fin + 5 <= zlength buffer /\ one_line buffer fin (fin + 5) /\ maxLength < 2 * (fin + 5 - position) + 2)
}.

Lemma snippet_tail_found buffer position M : 12 <= M -> forall n fin,
  position <= fin <= zlength buffer -> zlength buffer <= fin + Z.of_nat n -> one_line buffer position fin -> 2 * (fin - position) + 2 <= M ->
  let '(fin', tail) := snippet_tail n buffer position M fin in
  tail_found buffer position M fin' tail /\
  (position < fin \/ (n <> O /\ fin < zlength buffer /\ snippet_end (char_code buffer fin) = false) -> position < fin').
Proof.
  intros HM. induction n as [|n IH]; intros fin Hf Hn Hl Hw; cbn [snippet_tail].
  { split; [split; [lia|done|change (zlength []) with 0; lia|left; split; [done|left; lia]]|]. intros [?|[? _]]; done. }
  destruct (Z.ltb_spec fin (zlength buffer)) as [H0|H0]; cbn [andb];
    [|split; [split; [lia|done|change (zlength []) with 0; lia|left; split; [done|left; lia]]|lia]].
  destruct (snippet_end (char_code buffer fin)) eqn:E; cbn [negb];
    [split; [split; [lia|done|change (zlength []) with 0; lia|by left; split; [|right]]|by intros [?|(_&_&?)]]|].
  assert (Hl' : one_line buffer position (fin + 1)).
  { intros i Hi. destruct (decide (i = fin)) as [->|]; [done|apply Hl; lia]. }
  unfold too_far. destruct (Z.ltb_spec M (2 * (fin + 1 - position) + 2)).
  - split; [|lia]. split; [lia| |change (zlength dots) with 5; lia|right]; [intros i Hi; apply Hl'; lia|].
    split; [done|]. split; [lia|]. split; [intros i Hi; apply Hl'; lia|lia].
  - pose proof (IH (fin + 1) ltac:(lia) ltac:(lia) Hl' ltac:(lia)) as IH'. destruct (snippet_tail n buffer position M (fin + 1)) as [f t].
    destruct IH' as [? IH']. split; [done|intros _; apply IH'; lia].
Qed.

Lemma snippet_slice (buffer : jsstr) a b : 0 <= a <= b -> b <= zlength buffer ->
  slice_list buffer a b = take (Z.to_nat (b - a)) (drop (Z.to_nat a) buffer).
Proof.
  intros Ha Hb. unfold slice_list, rel_index. cbv zeta. fold (zlength buffer).
  destruct (Z.ltb_spec a 0); [lia|]. destruct (Z.ltb_spec b 0); [lia|]. by rewrite !Z.min_l by lia.
Qed.

Lemma one_line_slice buffer a b : 0 <= a <= b -> b <= zlength buffer -> one_line buffer a b ->
  Forall (fun c => snippet_end (Some c) = false) (slice_list buffer a b).
Proof.
  intros Ha Hb Hl. rewrite snippet_slice by done. apply Forall_lookup_2. intros i c Hc.
  apply lookup_take_Some in Hc as [Hc Hi]. rewrite lookup_drop in Hc.
  specialize (Hl (a + Z.of_nat i) ltac:(lia)). unfold char_code in Hl. destruct (Z.ltb_spec (a + Z.of_nat i) 0); [lia|].
  rewrite Z2Nat.inj_add, Nat2Z.id in Hl by lia. by rewrite Hc in Hl.
Qed.

(** What [getSnippet] shows of the text of a mark: the piece from [start] to
    [fin] of the line of the position, with dots where the line goes on for
    more than half the width. *)
Record shown_piece (m : mark) (width start fin : Z) (head tail : jsstr) : Prop := {
  piece_head : head_found (buffer m) (mposition m) width start head;
  piece_tail : tail_found (buffer m) (mposition m) width fin tail
}.
Definition snippet_line (m : mark) (indent start fin : Z) (head tail : jsstr) : jsstr :=
  spaces indent ++ head ++ take (Z.to_nat (fin - start)) (drop (Z.to_nat start) (buffer m)) ++ tail.

(** C37. The message of an exception points at the character. For a width of
    12 or more the first line of the snippet is the indentation and the piece
    of the text around the position, of at most that width: the line the
    position is on, with dots on a side where more than half the width is
    left of it. The caret on the line under it is as far behind the start of
    the piece as the position is, which is the column of the character there,
    unless that ends the line. *)
Theorem snippet_caret m indent maxLength :
  buffer m <> [] -> 0 <= mposition m <= zlength (buffer m) ->
  let i := or_number indent 4 in let w := or_number maxLength 75 in
  0 <= i -> 12 <= w ->
  exists start fin head tail, shown_piece m w start fin head tail /\
    let text := snippet_line m i start fin head tail in
    let column := i + zlength head + (mposition m - start) in
    getSnippet m indent maxLength = Some (text ++ [NL] ++ spaces column ++ js "^") /\
    NL ∉ text /\ zlength text <= i + w /\ 0 <= column <= zlength text /\
    (snippet_end (char_code (buffer m) (mposition m)) = false ->
     text !! Z.to_nat column = char_code (buffer m) (mposition m)).
Proof.
  intros Hb Hp i w Hi Hw. destruct m as [n b p l c]; cbn [buffer mposition] in *.
  assert (Hh := snippet_head_found b p w Hw (Z.to_nat p) p ltac:(lia) ltac:(lia) ltac:(intros ? ?; lia) ltac:(lia)).
  assert (Ht := snippet_tail_found b p w Hw (length b) p ltac:(lia) ltac:(unfold zlength; lia) ltac:(intros ? ?; lia) ltac:(lia)).
  unfold getSnippet; cbn [buffer mposition]. fold i w.
  destruct (snippet_head (Z.to_nat p) b p w p) as [s h] eqn:Eh.
  destruct (snippet_tail (length b) b p w p) as [e t] eqn:Et.
  destruct Ht as [Ht' Hnext]. exists s, e, h, t. split; [by split|].
  destruct Hh as [Hs Hl Hwh Hd], Ht' as [Ht Hlt Hwt Hdt].
  cbv zeta. unfold snippet_line. cbn [buffer]. rewrite <- snippet_slice by lia.
  assert (Hlen : length (slice_list b s e) = Z.to_nat (e - s)).
  { rewrite snippet_slice by lia. rewrite length_take, length_drop. unfold zlength in *. lia. }
  repeat split.
  - replace (i + zlength h + (p - s)) with (i + p - s + zlength h) by lia. destruct b; [done|]. by rewrite <- !(assoc_L (++)).
  - assert (HL : Forall (fun c => snippet_end (Some c) = false) (slice_list b s e)).
    { apply one_line_slice; [lia|lia|]. intros j Hj. destruct (decide (j < p)); [apply Hl; lia|apply Hlt; lia]. }
    rewrite !elem_of_app. intros [Hin|[Hin|[Hin|Hin]]].
    + by apply in_spaces in Hin.
    + destruct Hd as [[-> _]|[-> _]]; by apply (bool_decide_eq_true _) in Hin.
    + rewrite Forall_forall in HL. by apply HL in Hin.
    + destruct Hdt as [[-> _]|[-> _]]; by apply (bool_decide_eq_true _) in Hin.
  - unfold zlength in *. rewrite !length_app, Hlen, spaces_length by lia. lia.
  - unfold zlength in *. lia.
  - unfold zlength in *. rewrite !length_app, Hlen, spaces_length by lia. lia.
  - intros Hc. assert (p < zlength b).
    { destruct (decide (p < zlength b)); [done|]. unfold char_code in Hc. destruct (p <? 0); [done|].
      rewrite lookup_ge_None_2 in Hc; [done|unfold zlength in *; lia]. }
    assert (p < e). { apply Hnext. right. repeat split; [by destruct b|done|done]. }
    assert (Hsp : length (spaces i) = Z.to_nat i) by (apply spaces_length; lia).
    rewrite lookup_app_r by (rewrite Hsp; unfold zlength; lia).
    rewrite lookup_app_r by (rewrite Hsp; unfold zlength; lia). rewrite lookup_app_l by (rewrite Hsp, Hlen; unfold zlength; lia).
    rewrite snippet_slice by lia. rewrite lookup_take_lt by (rewrite Hsp; unfold zlength; lia). rewrite lookup_drop.
    unfold char_code. destruct (Z.ltb_spec p 0); [lia|]. f_equal. rewrite Hsp. unfold zlength. lia.
Qed.
Definition second_line : mark := Mark None (js "a: b" ++ [10] ++ js "c: [d" ++ [10; 0]) 8 1 3.
Lemma snippet_caret_witness :
  exists start fin head tail, shown_piece second_line 75 start fin head tail /\
    let text := snippet_line second_line 4 start fin head tail in
    let column := 4 + zlength head + (8 - start) in
    getSnippet second_line None None = Some (text ++ [NL] ++ spaces column ++ js "^") /\
    NL ∉ text /\ zlength text <= 79 /\ 0 <= column <= zlength text /\
    (snippet_end (char_code (buffer second_line) 8) = false ->
     text !! Z.to_nat column = char_code (buffer second_line) 8).
Proof. apply (snippet_caret second_line None None); [done|split; by vm_compute|done|done]. Defined.
(** A width below 12 does not hold the dots: the snippet is two times the
    dots, and the caret points at them. *)
Example narrow_snippet :
  getSnippet (Mark None (js "abcdefghijklmnopqrstuvwxyz") 8 0 8) (Some 1) (Some 4) =
    Some (js "  ...  ... " ++ [NL] ++ js "   ^").
Proof. by vm_compute. Qed.

(** ** Created schemas *)

Lemma find_type_some t l y : find_type t l = Some y -> y ∈ l /\ tag y = t.
Proof.
  unfold find_type. intros H. apply List.find_some in H as [H E]. apply bool_decide_eq_true_1 in E.
  split; [by apply list_elem_of_In|done].
Qed.
Lemma find_type_in t l y : NoDup (tag <$> l) -> y ∈ l -> tag y = t -> find_type t l = Some y.
Proof.
  intros Hl Hy <-. unfold find_type. destruct (List.find _ l) as [z|] eqn:E.
  - apply (find_type_some (tag y)) in E as [Hz E]. f_equal.
    apply list_elem_of_lookup in Hy as [i Hi]. apply list_elem_of_lookup in Hz as [j Hj].
    assert (i = j) as ->; [|by simplify_eq]. eapply NoDup_lookup; [exact Hl|rewrite list_lookup_fmap, Hi|rewrite list_lookup_fmap, Hj].
    + reflexivity.
    + cbn. by rewrite E.
  - exfalso. apply list_elem_of_In in Hy. pose proof (List.find_none _ _ E y Hy) as H. cbn in H.
    by apply bool_decide_eq_false_1 in H.
Qed.
Lemma elem_of_list_rev {A} (x : A) l : x ∈ rev l <-> x ∈ l.
Proof. by rewrite !list_elem_of_In, <- List.in_rev. Qed.
Lemma find_type_rev t l : NoDup (tag <$> l) -> find_type t (rev l) = find_type t l.
Proof.
  intros Hl. destruct (find_type t l) as [y|] eqn:E.
  - apply find_type_some in E as [Hy Ht]. apply find_type_in; [|by rewrite elem_of_list_rev|done].
    rewrite map_rev. by apply NoDup_ListNoDup, List.NoDup_rev, NoDup_ListNoDup.
  - destruct (find_type t (rev l)) as [y|] eqn:E'; [|done]. apply find_type_some in E' as [Hy Ht].
    rewrite elem_of_list_rev in Hy. by rewrite (find_type_in t l y Hl Hy Ht) in E.
Qed.

Lemma fold_put_lookup (l : list ytype) t : forall m,
  assoc t (foldl (fun m t => put (tag t) t m) m l) = match find_type t (rev l) with Some y => Some y | None => assoc t m end.
Proof.
  induction l as [|y l IH]; intros m; [done|]. cbn [foldl rev]. rewrite IH, find_app, find_single.
  destruct (find_type t (rev l)); [done|]. case_bool_decide as H; [by rewrite H, assoc_put_eq|by rewrite assoc_put_ne].
Qed.
(** The map of a schema: its explicit types before its implicit ones. *)
Lemma type_map_lookup s t :
  assoc t (compiledTypeMap s) =
    match find_type t (rev (declared true s)) with Some y => Some y | None => find_type t (rev (declared false s)) end.
Proof.
  unfold compiledTypeMap, compileMap. cbn [List.concat]. rewrite app_nil_r, fold_put_lookup, rev_app_distr, find_app.
  destruct (compile_last_wins true s t) as [H1 E1], (compile_last_wins false s t) as [H2 E2].
  unfold compiledExplicit, compiledImplicit. rewrite !find_type_rev by done. rewrite E1, E2.
  destruct (find_type t (rev (declared true s))); [done|]. by destruct (find_type t (rev (declared false s))).

Qed.

Lemma as_schemas ss : mapM_res as_schema (ASchema <$> ss) = Ok ss.
Proof. induction ss as [|s ss IH]; [done|]. cbn. fold (mapM_res as_schema). by rewrite IH. Qed.
Lemma as_types ts : mapM_res as_type (AType <$> ts) = Ok ts.
Proof. induction ts as [|t ts IH]; [done|]. cbn. fold (mapM_res as_type). by rewrite IH. Qed.

(** A schema created from another and types of its own resolves the
    tags of its types to them, even where the other schema has a type for
    the tag, and every other tag as the other schema does. *)
Theorem created_extends DEFAULT s ts : NoDup (tag <$> ts) ->
  exists s', createSchema DEFAULT [ASchema s; AList (AType <$> ts)] = Ok s' /\
    (forall t, t ∈ ts -> assoc (tag t) (compiledTypeMap s') = Some t) /\
    (forall k, k ∉ tag <$> ts -> assoc k (compiledTypeMap s') = assoc k (compiledTypeMap s)).
Proof.
  intros Hts. exists (Schema [s] [] ts). split; [|split].
  - unfold createSchema. cbn [arg_list mbind res_bind]. rewrite as_types. done.
  - intros t Ht. rewrite type_map_lookup. cbn [declared List.flat_map]. rewrite app_nil_r, rev_app_distr, find_app.
    by rewrite find_type_rev, (find_type_in (tag t) ts t).
  - intros k Hk. rewrite !type_map_lookup. cbn [declared List.flat_map]. rewrite !app_nil_r, rev_app_distr, find_app.
    destruct (find_type k (rev ts)) as [y|] eqn:E; [|done]. apply find_type_some in E as [Hy <-]. rewrite elem_of_list_rev in Hy.
    destruct Hk. by apply list_elem_of_fmap_2.
Qed.
Lemma created_extends_witness :
  exists s', createSchema FAILSAFE [ASchema FAILSAFE; AList (AType <$> [merge_type])] = Ok s' /\
    (forall t, t ∈ [merge_type] -> assoc (tag t) (compiledTypeMap s') = Some t) /\
    (forall k, k ∉ tag <$> [merge_type] -> assoc k (compiledTypeMap s') = assoc k (compiledTypeMap FAILSAFE)).
Proof. apply created_extends. apply NoDup_singleton. Defined.

(** ** Every document

    An iterator that keeps what it is given. *)
Definition keep (d : heap * dval) : ST (list (heap * dval)) unit := modify (fun l => l ++ [d]).
Lemma keep_all l : forall kept, iterM keep l kept = (kept ++ l, Ok tt).
Proof.
  induction l as [|d l IH]; intros kept; cbn [iterM]; [by rewrite app_nil_r|]. unfold keep at 1, modify.
  by rewrite IH, <- (assoc_L (++)).
Qed.
(** [loadAll] hands on the one document [load] returns; an empty stream has
    none, for which [load] returns the undefined value. *)
Theorem loadAll_load date_text s input options h d : load date_text s input options = Ok (h, d) ->
  loadAll date_text keep s input options [] = ([(h, d)], Ok tt) \/
  d = DPrim VUndef /\ loadAll date_text keep s input options [] = ([], Ok tt).
Proof.
  unfold load, loadAll, lift, mbind, st_bind, res_bind.
  destruct (loadDocuments date_text s input options) as [[h' docs]|]; [|done].
  destruct docs as [|x [|y docs]]; intros H; simplify_eq.
  - right. by split.
  - left. cbn [fst snd]. done.
Qed.

(** Two documents: [load] refuses, [loadAll] hands on both. *)
Example two_documents :
  let input := js "--- a" ++ [10] ++ js "--- b" in
  load (fun t => t) FAILSAFE input [] = Throw ErrorMsg /\
  (loadAll (fun t => t) keep FAILSAFE input [] []).1.*2 = [DPrim (VStr (js "a")); DPrim (VStr (js "b"))].
Proof. by vm_compute. Qed.
