(* ===== verification/Decimal.v ===== *)
(** * Decimal digits

    Facts about the text of an integer ([Z_to_str]) and about a number
    written with a fixed count of digits ([pad]), which the printing of numbers
    and of dates shares: digits can be cut at any place. *)

From Stdlib Require Import String.
From S2P Require Import Prelude JsNumber JsString YamlTypes.

Lemma pow2_nat_fuel n : 0 <= n -> n < 2 ^ Z.of_nat (nat_fuel n).
Proof.
  intros Hn. unfold nat_fuel. rewrite Nat2Z.inj_succ, Z2Nat.id by apply Z.log2_nonneg.
  destruct (decide (n = 0)) as [->|]; [done|]. apply Z.log2_spec. lia.
Qed.
(** The fuel of [radix_digits] does not matter once it is enough. *)
Lemma radix_digits_more r f g n : 2 <= r -> 0 <= n < 2 ^ Z.of_nat f -> n < 2 ^ Z.of_nat g -> (0 < f)%nat -> (0 < g)%nat ->
  radix_digits f r n = radix_digits g r n.
Proof.
  intros Hr. revert g n. induction f as [|f IH]; intros [|g] n Hf Hg Pf Pg; try lia.
  cbn [radix_digits]. destruct (Z.ltb_spec n r) as [|H]; [done|]. f_equal.
  rewrite !Nat2Z.inj_succ, !Z.pow_succ_r in * by lia.
  assert (0 < n / r) by (apply Z.div_str_pos; lia). assert (n / r <= n / 2) by (apply Z.div_le_compat_l; lia).
  assert (n / 2 < 2 ^ Z.of_nat f) by (apply Z.div_lt_upper_bound; lia).
  assert (n / 2 < 2 ^ Z.of_nat g) by (apply Z.div_lt_upper_bound; lia).
  apply IH; [lia..| |]; [destruct f|destruct g]; try lia; cbn in *; lia.
Qed.

Lemma Z_to_str_snoc a d : 0 < a -> 0 <= d < 10 -> Z_to_str (10 * a + d) = Z_to_str a ++ [48 + d].
Proof.
  intros Ha Hd. unfold Z_to_str. rewrite !radix_string_nonneg by lia. unfold digits.
  assert (Hq : (10 * a + d) / 10 = a) by (symmetry; apply (Z.div_unique_pos _ 10 a d); lia).
  assert (Hm : (10 * a + d) mod 10 = d) by (symmetry; apply (Z.mod_unique_pos _ 10 a d); lia).
  rewrite (radix_digits_more 10 (nat_fuel (10 * a + d)) (S (nat_fuel (10 * a + d)))); [|lia|split; [lia|apply pow2_nat_fuel; lia]| | |]; try (unfold nat_fuel; lia).
  2: { rewrite Nat2Z.inj_succ, Z.pow_succ_r by lia. pose proof (pow2_nat_fuel (10 * a + d) ltac:(lia)). lia. }
  cbn [radix_digits]. destruct (Z.ltb_spec (10 * a + d) 10); [lia|]. rewrite Hq, Hm, fmap_app. f_equal.
  - f_equal. apply radix_digits_more; [lia| |apply pow2_nat_fuel; lia|unfold nat_fuel; lia..].
    pose proof (pow2_nat_fuel (10 * a + d) ltac:(lia)). lia.
  - cbn. unfold digit_unit. destruct (Z.ltb_spec d 10); [done|lia].
Qed.
Lemma Z_to_str_digit d : 0 <= d < 10 -> Z_to_str d = [48 + d].
Proof. intros Hd. apply (all_below (fun d => bool_decide (Z_to_str d = [48 + d])) 10) in Hd; [|done]. by apply bool_decide_eq_true in Hd. Qed.
Lemma length_Z_to_str n w : 0 <= n < 10 ^ Z.of_nat w -> (0 < w)%nat -> (length (Z_to_str n) <= w)%nat.
Proof.
  intros Hn Hw. unfold Z_to_str. rewrite radix_string_nonneg, length_fmap by lia. apply length_radix_digits; lia.
Qed.
Lemma Z_to_str_nonempty n : 0 <= n -> Z_to_str n <> [].
Proof.
  intros Hn H. unfold Z_to_str in H. rewrite radix_string_nonneg in H by lia. apply fmap_nil_inv in H.
  revert H. apply digits_nonempty; lia.
Qed.

(** ** A fixed count of digits *)

Lemma pad_nil n : pad 0 n = Z_to_str n.
Proof. done. Qed.
Lemma length_pad w n : (0 < w)%nat -> 0 <= n < 10 ^ Z.of_nat w -> length (pad w n) = w.
Proof. intros Hw Hn. by apply pad_spec. Qed.
Lemma repeat_snoc {A} (x : A) k : repeat x k ++ [x] = repeat x (S k).
Proof. induction k as [|k IH]; [done|]. cbn [repeat app]. f_equal. exact IH. Qed.
Lemma pad_snoc w n d : 0 <= n < 10 ^ Z.of_nat w -> (0 < w)%nat -> 0 <= d < 10 -> pad (S w) (10 * n + d) = pad w n ++ [48 + d].
Proof.
  intros Hn Hw Hd. destruct (decide (n = 0)) as [->|Hn0].
  - unfold pad. change (10 * 0 + d) with d. rewrite (Z_to_str_digit d) by done. change (length [48 + d]) with 1%nat.
    change (Z_to_str 0) with [48]. change (length [48]) with 1%nat. rewrite Nat.sub_succ, Nat.sub_0_r.
    f_equal. destruct w as [|w]; [lia|]. rewrite Nat.sub_succ, Nat.sub_0_r. by rewrite repeat_snoc.
  - unfold pad. rewrite Z_to_str_snoc by lia. rewrite length_app. change (length [48 + d]) with 1%nat.
    replace (S w - (length (Z_to_str n) + 1))%nat with (w - length (Z_to_str n))%nat by lia. by rewrite app_assoc.
Qed.
Lemma pad_one d : 0 <= d < 10 -> pad 1 d = [48 + d].
Proof. intros Hd. unfold pad. by rewrite Z_to_str_digit. Qed.

Lemma cut_digits k n : (0 < k)%nat -> 0 <= n -> exists q d, n = 10 * q + d /\ 0 <= d < 10 /\ 0 <= q /\
  n / 10 ^ Z.of_nat (S k) = q / 10 ^ Z.of_nat k /\ n mod 10 ^ Z.of_nat (S k) = 10 * (q mod 10 ^ Z.of_nat k) + d.
Proof.
  intros Hk Hn. exists (n / 10), (n mod 10). pose proof (Z.div_mod n 10 ltac:(lia)). pose proof (Z.mod_pos_bound n 10 ltac:(lia)).
  assert (0 <= n / 10) by (apply Z.div_pos; lia). split; [lia|]. split; [lia|]. split; [done|].
  rewrite Nat2Z.inj_succ, Z.pow_succ_r by lia. split; [by rewrite Z.div_div by lia|].
  rewrite Z.mul_comm. rewrite (Z.mul_comm _ 10), Z.rem_mul_r by lia. lia.
Qed.
(** Digits can be cut anywhere. *)
Lemma Z_to_str_cut k n : (0 < k)%nat -> 10 ^ Z.of_nat k <= n ->
  Z_to_str n = Z_to_str (n / 10 ^ Z.of_nat k) ++ pad k (n mod 10 ^ Z.of_nat k).
Proof.
  revert n. induction k as [|k IH]; intros n Hk Hn; [lia|]. assert (0 <= n) by (assert (0 < 10 ^ Z.of_nat (S k)) by lia; lia).
  destruct k as [|k].
  - change (10 ^ Z.of_nat 1) with 10 in *. pose proof (Z.div_mod n 10 ltac:(lia)). pose proof (Z.mod_pos_bound n 10 ltac:(lia)).
    rewrite (pad_one (n mod 10)) by lia. rewrite <- Z_to_str_snoc; [by f_equal|apply Z.div_str_pos; lia|lia].
  - destruct (cut_digits (S k) n ltac:(lia) ltac:(lia)) as (q & d & -> & Hd & Hq & Eq & Em). rewrite Eq, Em.
    assert (10 ^ Z.of_nat (S k) <= q) by (rewrite (Nat2Z.inj_succ (S k)), Z.pow_succ_r in Hn by lia; lia).
    assert (0 < 10 ^ Z.of_nat (S k)) by lia.
    rewrite Z_to_str_snoc, (IH q) by lia. rewrite pad_snoc; [by rewrite app_assoc| |lia|done]. apply Z.mod_pos_bound. lia.
Qed.
Lemma pad_cut k w n : (0 < k)%nat -> (0 < w)%nat -> 0 <= n < 10 ^ Z.of_nat (w + k) ->
  pad (w + k) n = pad w (n / 10 ^ Z.of_nat k) ++ pad k (n mod 10 ^ Z.of_nat k).
Proof.
  revert n. induction k as [|k IH]; intros n Hk Hw Hn; [lia|]. replace (w + S k)%nat with (S (w + k)) in * by lia.
  rewrite Nat2Z.inj_succ, Z.pow_succ_r in Hn by lia. destruct k as [|k].
  - change (10 ^ Z.of_nat 1) with 10 in *. rewrite Nat.add_0_r in *. pose proof (Z.div_mod n 10 ltac:(lia)) as E.
    pose proof (Z.mod_pos_bound n 10 ltac:(lia)). rewrite (pad_one (n mod 10)) by lia. rewrite E at 1. apply pad_snoc; [|done..].
    split; [apply Z.div_pos; lia|apply Z.div_lt_upper_bound; lia].
  - destruct (cut_digits (S k) n ltac:(lia) ltac:(lia)) as (q & d & -> & Hd & Hq & Eq & Em). rewrite Eq, Em.
    assert (0 < 10 ^ Z.of_nat (S k)) by lia.
    rewrite pad_snoc by lia. rewrite (IH q) by lia. rewrite pad_snoc; [by rewrite app_assoc| |lia|done]. apply Z.mod_pos_bound. lia.
Qed.
Lemma pad_zeros k : (0 < k)%nat -> pad k 0 = repeat 48 k.
Proof.
  intros Hk. unfold pad. change (Z_to_str 0) with [48]. cbn [length]. destruct k as [|k]; [lia|].
  rewrite Nat.sub_succ, Nat.sub_0_r. apply repeat_snoc.
Qed.
