(* ===== verification/ToFixed.v ===== *)
(** * Numbers in decimal: [toFixed]

    The [Number.prototype.toFixed] of es5-shim inside swagger-ui.js: the
    mantissa of the number, an integer of 53 bits, is multiplied by a power of
    ten and divided by a power of two in six digits of base [1e7].

    [x] and what is computed from it before the digits are doubles
    ([Binary64]).  Between [1e-21] and 2^-69 the mantissa has one bit too few
    before the point, so that the digits are multiples of one half: they are
    stored doubled here.  Every one that is stored is checked to be a double
    ([safe]), where sums and products are exact, and so is the remainder and
    the quotient rounded down of two of them.  A result outside of it, and a
    loop that runs on, would be [Throw Unsupported]; [toFixed_rounds] shows
    that neither happens. *)

From Stdlib Require Import Floats.SpecFloat String.
From S2P Require Import Prelude JsNumber JsString YamlTypes Binary64 Decimal.

Definition base : Z := 10000000.
Definition size : nat := 6.

(** The half of [h] is a double, an integer when it is large. *)
Definition safe (h : Z) : res Z :=
  if (0 <=? h) && ((h <? 2 ^ 53) || (Z.even h && (h <? 2 ^ 54))) then Ok h else Throw Unsupported.
(** A double that is an integer, and one that is a multiple of one half, twice. *)
Definition as_int (x : double) : res Z :=
  _ ← guard_or (SFeqb (of_int (truncate x)) x) Unsupported; Ok (truncate x).
Definition halves (x : double) : res Z :=
  match x with
  | S754_zero _ => Ok 0
  | S754_finite false m e =>
      if -1 <=? e then Ok (Z.pos m * 2 ^ (e + 1))
      else if Z.pos m mod 2 ^ (-1 - e) =? 0 then Ok (Z.pos m / 2 ^ (-1 - e)) else Throw Unsupported
  | _ => Throw Unsupported
  end.

(** ** The digits

    [toFixedHelpers.data], the lowest digit first, each of them doubled; so is
    [c]. *)
Fixpoint multiply_digits (n c2 : Z) (data : list Z) : res (list Z) :=
  match data with
  | [] => Ok []
  | d :: data =>
      p ← safe (n * d); c2 ← safe (c2 + p);
      data ← multiply_digits n (2 * (c2 / (2 * base))) data; Ok (c2 mod (2 * base) :: data)
  end.
Definition multiply (n c : Z) (data : list Z) : res (list Z) := multiply_digits n c data.
(** From the highest digit down. *)
Fixpoint divide_digits (n c : Z) (data : list Z) : res (list Z) :=
  match data with
  | [] => Ok []
  | d :: data =>
      c ← safe (c + d); r ← safe (c mod (2 * n) * base);
      data ← divide_digits n r data; Ok (2 * (c / (2 * n)) :: data)
  end.
Definition divide (n : Z) (data : list Z) : res (list Z) := data ← divide_digits n 0 (rev data); Ok (rev data).

(** [$String(data[i])] of an integer. *)
Definition digit_string (d : Z) : res jsstr := if Z.even d then Ok (Z_to_str (d / 2)) else Throw Unsupported.
Fixpoint numToString_from (data : list Z) (s : jsstr) : res jsstr :=
  match data with
  | [] => Ok s
  | d :: data =>
      let i := length data in
      if negb (bool_decide (s = [])) || bool_decide (i = O) || negb (d =? 0) then
        t ← digit_string d;
        if bool_decide (s = []) then numToString_from data t
        else numToString_from data (s ++ slice_list (js "0000000") 0 (7 - zlength t) ++ t)
      else numToString_from data s
  end.
Definition numToString (data : list Z) : res jsstr := numToString_from (rev data) [].

(** [pow(x, n, acc)]; [n] halves or goes down. *)
Fixpoint pow_loop (fuel : nat) (x : double) (n : Z) (acc : double) : res double :=
  match fuel with
  | O => Throw Unsupported
  | S fuel =>
      if n =? 0 then Ok acc
      else if n mod 2 =? 1 then pow_loop fuel x (n - 1) (dmul acc x)
      else pow_loop fuel (dmul x x) (n / 2) acc
  end.
Definition pow (x n : Z) : res double := pow_loop (S (Z.to_nat n)) (of_int x) n (of_int 1).

(** [log(x)]: the loops leave [n] and the rest of [x]. *)
Fixpoint log_loop (fuel : nat) (bound step : Z) (n : Z) (x2 : double) : res (Z * double) :=
  match fuel with
  | O => Throw Unsupported
  | S fuel =>
      if SFleb (of_int bound) x2 then log_loop fuel bound step (n + step) (ddiv x2 (of_int bound)) else Ok (n, x2)
  end.
Definition log (x : double) : res Z :=
  '(n, x2) ← log_loop 1100 4096 12 0 x; '(n, x2) ← log_loop 1100 2 1 n x2; Ok n.

(** ** The function *)

(** [1e21] and [1e-21]. *)
Definition BIG : double := of_int (10 ^ 21).
Definition SMALL : double := ddiv (of_int 1) (of_int (10 ^ 21)).

(** [Math.floor(f)] of the number of digits that is asked for, from 0 to 20. *)
Definition fraction_digits (f : double) : res Z :=
  match f with
  | S754_nan | S754_zero _ => Ok 0
  | S754_infinity _ => Throw RangeError
  | S754_finite s m e =>
      let f := if s then - ((Z.pos m * 2 ^ Z.max e 0 + 2 ^ Z.max (- e) 0 - 1) / 2 ^ Z.max (- e) 0) else truncate f in
      if (f <? 0) || (20 <? f) then Throw RangeError else Ok f
  end.

(** [while (j >= 7)] and [while (j >= 23)]. *)
Fixpoint times_base (fuel : nat) (j : Z) (data : list Z) : res (Z * list Z) :=
  match fuel with
  | O => Throw Unsupported
  | S fuel => if 7 <=? j then data ← multiply base 0 data; times_base fuel (j - 7) data else Ok (j, data)
  end.
Fixpoint halve (fuel : nat) (j : Z) (data : list Z) : res (Z * list Z) :=
  match fuel with
  | O => Throw Unsupported
  | S fuel => if 23 <=? j then data ← divide (js_shl 1 23) data; halve fuel (j - 23) data else Ok (j, data)
  end.

(** [x > 1e-21]: the digits of [x * 10 ^ f], rounded, with the fraction [e <=
    0] does not have. *)
Definition digits_of (x : double) (f : Z) (data : list Z) : res jsstr :=
  p ← pow 2 69; l ← log (dmul x p);
  let e := l - 69 in
  z ← (if e <? 0 then q ← pow 2 (- e); Ok (dmul x q) else q ← pow 2 e; Ok (ddiv x q));
  z ← halves (dmul z (pow2 52));
  let e := 52 - e in
  if 0 <? e then
    data ← multiply 0 z data;
    '(j, data) ← times_base (S (Z.to_nat f)) f data;
    p ← pow 10 j; p ← as_int p; data ← multiply p 0 data;
    '(j, data) ← halve (S (Z.to_nat e)) (e - 1) data;
    data ← divide (js_shl 1 j) data;
    data ← multiply 1 2 data;
    data ← divide 2 data;
    numToString data
  else
    data ← multiply 0 z data;
    data ← multiply (js_shl 1 (- e)) 0 data;
    m ← numToString data; Ok (m ++ slice_list (js "0.00000000000000000000") 2 (2 + f)).

Definition place_point (s m : jsstr) (f : Z) : jsstr :=
  if 0 <? f then
    let k := zlength m in
    if k <=? f then s ++ slice_list (js "0.0000000000000000000") 0 (f - k + 2) ++ m
    else s ++ slice_list m 0 (k - f) ++ js "." ++ slice_from m (k - f)
  else s ++ m.

Section toFixed.
(** [String(x)] of a number, and the digits the last call left in [data]. *)
Context (String_of : double -> jsstr) (data : list Z).

Definition toFixed (x : double) (fractionDigits : double) : res jsstr :=
  f ← fraction_digits fractionDigits;
  match x with
  | S754_nan => Ok (js "NaN")
  | _ =>
      if SFleb x (SFopp BIG) || SFleb BIG x then Ok (String_of x)
      else
        let '(s, x) := if SFltb x (S754_zero false) then (js "-", SFopp x) else ([], x) in
        m ← (if SFltb SMALL x then digits_of x f data else Ok (js "0"));
        Ok (place_point s m f)
  end.
End toFixed.

Example toFixed_half : 
  toFixed (fun _ => []) [0; 0; 0; 0; 0; 0] (ddiv (of_int 1255) (of_int 1000)) (of_int 2) = Ok (js "1.25") /\
  toFixed (fun _ => []) [1; 2; 3; 4; 5; 6] (SFopp (ddiv (of_int 5) (of_int 2))) S754_nan = Ok (js "-3") /\
  toFixed (fun _ => []) [1; 2; 3; 4; 5; 6] (of_int 1000000000000000128) (of_int 3) = Ok (js "1000000000000000128.000") /\
  toFixed (fun _ => []) [1; 2; 3; 4; 5; 6] (ddiv (of_int 8) (of_int 100000)) (of_int 3) = Ok (js "0.000") /\
  toFixed (fun _ => []) [1; 2; 3; 4; 5; 6] (ddiv (of_int 13) (of_int (10 ^ 22))) (of_int 20) = Ok (js "0.00000000000000000000").
Proof. by vm_compute. Qed.

(** ** What the digits denote, doubled *)

Definition value (data : list Z) : Z := foldr (fun d v => d + base * v) 0 data.
Definition digit (d : Z) : Prop := 0 <= d < 2 * base.
Definition push (a d : Z) : Z := a * base + d.

Lemma safe_ok n : 0 <= n < 2 ^ 53 -> safe n = Ok n.
Proof. intros H. unfold safe. by rewrite (proj2 (Z.leb_le _ _)), (proj2 (Z.ltb_lt _ _)) by lia. Qed.
Lemma safe_even n : 0 <= n < 2 ^ 53 -> safe (2 * n) = Ok (2 * n).
Proof.
  intros H. unfold safe. rewrite (proj2 (Z.leb_le _ _)), (proj2 (Z.ltb_lt (2 * n) (2 ^ 54))) by lia.
  by rewrite Z.even_mul, orb_true_r.
Qed.

Lemma value_nonneg data : Forall digit data -> 0 <= value data.
Proof. induction 1 as [|d data Hd _ IH]; [done|]. cbn [value foldr]. fold (value data). unfold digit, base in *. lia. Qed.
Lemma value_rev data : value (rev data) = foldl push 0 data.
Proof.
  assert (G : forall data v, foldl push v data = v * base ^ Z.of_nat (length data) + value (rev data)).
  { clear data. induction data as [|d data IH]; intros v; [cbn; lia|]. cbn [foldl rev length]. rewrite IH.
    unfold value. rewrite foldr_app. cbn [foldr]. unfold push at 1.
    assert (E : forall l z, foldr (fun d v => d + base * v) z l = value l + z * base ^ Z.of_nat (length l)).
    { clear. induction l as [|x l IH]; intros z; [cbn; lia|]. cbn [foldr length]. rewrite IH. cbn [value foldr]. fold (value l).
      rewrite Nat2Z.inj_succ, Z.pow_succ_r by lia. lia. }
    rewrite (E (rev data) (d + base * 0)), length_rev, Nat2Z.inj_succ, Z.pow_succ_r by lia. fold (value (rev data)). ring. }
  rewrite G. lia.
Qed.
Lemma foldl_push data : forall v, foldl push v data = v * base ^ Z.of_nat (length data) + foldl push 0 data.
Proof.
  induction data as [|d data IH]; intros v; [cbn; lia|]. cbn [foldl length]. rewrite (IH (push v d)), (IH (push 0 d)).
  unfold push. rewrite Nat2Z.inj_succ, Z.pow_succ_r by lia. lia.
Qed.

(** Only the lowest digit may hold a half. *)
Definition whole (d : Z) : Prop := digit d /\ Z.even d = true.
Definition good (data : list Z) : Prop := match data with [] => True | d :: data => digit d /\ Forall whole data end.
Fixpoint good_rev (data : list Z) : Prop :=
  match data with [] => True | [d] => digit d | d :: data => whole d /\ good_rev data end.
Lemma whole_digits data : Forall whole data -> Forall digit data.
Proof. intros H. eapply Forall_impl; [exact H|]. by intros d []. Qed.
Lemma good_digits data : good data -> Forall digit data.
Proof. destruct data as [|d data]; [done|]. intros [H1 H2]. constructor; [done|by apply whole_digits]. Qed.
Lemma whole_good data : Forall whole data -> good data.
Proof. destruct 1 as [|d data [Hd _] Hw]; [done|by split]. Qed.
Lemma good_reverse data : good data -> good_rev (rev data).
Proof.
  destruct data as [|d data]; [done|]. intros [Hd Hw]. cbn [rev]. apply Forall_rev in Hw. induction Hw as [|x l Hx Hl IH]; [done|].
  cbn [app good_rev]. destruct (l ++ [d]) eqn:E; [by destruct l|]. done.
Qed.
(** A product is exact while it has room. *)
Lemma multiply_value n c data : 0 <= n <= base -> 0 <= c -> (c + n * (2 * base - 1) < 2 ^ 53 \/ n = 0 /\ safe c = Ok c) ->
  (data = [] -> Z.even c = true) -> Forall (fun d => 0 <= n * d <= n * (2 * base - 1)) data ->
  n * value data + c < 2 * base ^ Z.of_nat (length data) ->
  exists data', multiply n c data = Ok data' /\ Forall digit data' /\ length data' = length data /\
    value data' = n * value data + c /\ (Z.even c = true -> Forall (fun d => Z.even (n * d) = true) data -> Forall whole data') /\
    (Forall (fun d => Z.even (n * d) = true) (tail data) -> good data').
Proof.
  unfold multiply. intros Hn. revert c. induction data as [|d data IH]; intros c Hc Hs He Hd Hr.
  { exists []. split; [done|]. split; [done|]. split; [done|]. split; [|by split]. cbn [value foldr length] in *. specialize (He eq_refl).
    change (base ^ Z.of_nat 0) with 1 in Hr. apply Z.even_spec in He as [k ->]. lia. }
  apply Forall_cons in Hd as [Hd Hds]. cbn [multiply_digits]. rewrite safe_ok by (unfold base in *; lia). cbn [mbind res_bind].
  set (x := c + n * d). assert (Hx : safe x = Ok x /\ 0 <= x < 2 ^ 54).
  { destruct Hs as [Hs|[-> Hs]]; [split; [apply safe_ok|]; unfold x; lia|]. unfold x. rewrite Z.mul_0_l, Z.add_0_r. split; [done|].
    unfold safe in Hs. destruct ((0 <=? c) && _) eqn:E; [|done]. apply andb_true_iff in E as [_ E]. apply orb_true_iff in E as [E|E]; [lia|].
    apply andb_true_iff in E as [_ E]. lia. }
  destruct Hx as [-> Hx]. cbn [mbind res_bind]. cbn [value foldr length] in *. fold (value data) in *.
  pose proof (Z.div_mod x (2 * base) ltac:(unfold base; lia)) as Ex. pose proof (Z.mod_pos_bound x (2 * base) ltac:(unfold base; lia)) as Hm.
  assert (Hq : 0 <= x / (2 * base) < 10 ^ 10) by (split; [apply Z.div_pos|apply Z.div_lt_upper_bound]; unfold base; lia).
  rewrite Nat2Z.inj_succ, Z.pow_succ_r in Hr by lia.
  destruct (IH (2 * (x / (2 * base)))) as (data' & E & Hg & Hl & Hv & Hw & _); [lia| |by rewrite Z.even_mul|done| |].
  { left. assert (n * (2 * base - 1) <= base * (2 * base)) by (unfold base in *; nia). unfold base in *. lia. }
  { unfold x in *; unfold base in *; lia. }
  rewrite E. cbn [mbind res_bind]. exists (x mod (2 * base) :: data'). split; [done|]. split; [by constructor|]. split; [by cbn; rewrite Hl|].
  split; [cbn [value foldr]; fold (value data'); rewrite Hv; unfold x in *; lia|].
  split; [|cbn [tail]; intros Hw2; split; [done|apply Hw; [by rewrite Z.even_mul|done]]]. intros Hc2 [Hd2 Hds2]%Forall_cons.
  constructor; [|apply Hw; [by rewrite Z.even_mul|done]]. split; [done|].
  apply Z.even_spec in Hc2 as [u Eu]. apply Z.even_spec in Hd2 as [v Ev]. apply Z.even_spec. exists (u + v - base * (x / (2 * base))). unfold x in *. lia.
Qed.
(** Digits are multiplied when the product has room. *)
Lemma multiply_room n c data : data <> [] -> good data -> 0 <= n <= base -> 0 <= c < base -> n * value data + c < 2 * base ^ Z.of_nat (length data) ->
  exists data', multiply n c data = Ok data' /\ good data' /\ length data' = length data /\ value data' = n * value data + c.
Proof.
  intros Hne Hd Hn Hc Hr. destruct (multiply_value n c data) as (data' & E & Hd' & Hl & Hv & _ & Hg); [done|lia| |done| |done|exists data'; split_and!; try done].
  - left. assert (n * (2 * base - 1) <= base * (2 * base)) by (unfold base in *; nia). unfold base in *. lia.
  - eapply Forall_impl; [by apply good_digits|]. unfold digit. intros d Hd2. nia.
  - apply Hg. destruct data as [|d data]; [done|]. destruct Hd as [_ Hw]. eapply Forall_impl; [exact Hw|].
    intros x [_ Hx]. by rewrite Z.even_mul, Hx, orb_true_r.
Qed.

Lemma divide_digits_value n data : 0 < n <= 2 ^ 23 -> good_rev data -> forall r, 0 <= r < 2 * n -> Z.even r = true ->
  exists data', divide_digits n (r * base) data = Ok data' /\ Forall whole data' /\ length data' = length data /\
    foldl push 0 data' = 2 * (foldl push r data / (2 * n)).
Proof.
  intros Hn. induction data as [|d data IH]; intros Hd r Hr He.
  { exists []. cbn [foldl]. by rewrite Z.div_small. }
  assert (Hdd : 0 <= d < 2 * base) by (destruct data; [exact Hd|apply Hd]). apply Z.even_spec in He as [k Ek].
  cbn [divide_digits]. assert (r * base + d < 2 * n * base) by (unfold base in *; nia).
  assert (2 * n * base < 2 ^ 50) by (unfold base; lia). rewrite safe_ok by (unfold base in *; lia). cbn [mbind res_bind].
  set (c := r * base + d). pose proof (Z.mod_pos_bound c (2 * n) ltac:(lia)). pose proof (Z.div_mod c (2 * n) ltac:(lia)) as Ec.
  rewrite safe_ok by (unfold base in *; nia). cbn [mbind res_bind].
  assert (Hq : 0 <= c / (2 * n) < base) by (split; [apply Z.div_pos|apply Z.div_lt_upper_bound]; unfold c, base in *; lia).
  assert (Hw : whole (2 * (c / (2 * n)))) by (split; [unfold digit; lia|by rewrite Z.even_mul]).
  assert (exists data', divide_digits n (c mod (2 * n) * base) data = Ok data' /\ Forall whole data' /\ length data' = length data /\
    foldl push 0 data' = 2 * (foldl push (c mod (2 * n)) data / (2 * n))) as (data' & -> & Hd' & Hl & Hv).
  { destruct data as [|d2 data]; [exists []; cbn [foldl]; by rewrite Z.div_small|]. destruct Hd as [[_ Hd] Hg]. apply IH; [done|done|].
    apply Z.even_spec in Hd as [v Ev]. apply Z.even_spec. exists (k * base + v - n * (c / (2 * n))). unfold c in *. lia. }
  cbn [mbind res_bind]. exists (2 * (c / (2 * n)) :: data'). split; [done|]. split; [by constructor|].
  split; [by cbn; rewrite Hl|]. cbn [foldl]. rewrite foldl_push, Hv, Hl, (foldl_push data (push r d)), (foldl_push data (c mod (2 * n))).
  change (push r d) with c. change (push 0 (2 * (c / (2 * n)))) with (0 * base + 2 * (c / (2 * n))). rewrite Ec at 3.
  set (q := c / (2 * n)). set (M := base ^ Z.of_nat (length data)). set (F := foldl push 0 data).
  replace ((2 * n * q + c mod (2 * n)) * M + F) with (q * M * (2 * n) + (c mod (2 * n) * M + F)) by ring.
  rewrite Z.div_add_l by lia. ring.
Qed.
Lemma divide_value n data : 0 < n <= 2 ^ 23 -> good data ->
  exists data', divide n data = Ok data' /\ Forall whole data' /\ length data' = length data /\ value data' = 2 * (value data / (2 * n)).
Proof.
  intros Hn Hd. destruct (divide_digits_value n (rev data) Hn) with (r := 0) as (data' & E & Hd' & Hl & Hv); [by apply good_reverse|lia|done|].
  rewrite Z.mul_0_l in E. exists (rev data'). unfold divide. rewrite E. split; [done|]. split; [by apply Forall_rev|].
  split; [by rewrite !length_rev in *|]. rewrite value_rev, Hv, <- value_rev, rev_involutive. done.
Qed.

(** ** The text of the digits *)

Lemma base_pow : base = 10 ^ Z.of_nat 7.
Proof. done. Qed.
Lemma padding k : (k <= 7)%nat -> slice_list (js "0000000") 0 (7 - Z.of_nat k) = repeat 48 (7 - k).
Proof. intros H. do 8 (destruct k as [|k]; [done|]). lia. Qed.
Lemma even_double n : Z.even (2 * n) = true.
Proof. by rewrite Z.even_mul. Qed.
(** The digits as they are, not doubled. *)
Definition small (d : Z) : Prop := 0 <= d < base.
Lemma whole_small data : Forall whole data -> exists l, data = Z.mul 2 <$> l /\ Forall small l.
Proof.
  induction 1 as [|d data [Hd He] _ (l & -> & Hl)]; [by exists []|]. apply Z.even_spec in He as [k ->].
  exists (k :: l). split; [done|]. constructor; [|done]. unfold digit, small in *. lia.
Qed.
Lemma digit_string_double d : digit_string (2 * d) = Ok (Z_to_str d).
Proof. unfold digit_string. rewrite even_double, Z.mul_comm, Z.div_mul by done. done. Qed.
Lemma digit_text d : small d -> slice_list (js "0000000") 0 (7 - zlength (Z_to_str d)) ++ Z_to_str d = pad 7 d.
Proof.
  intros Hd. unfold small in Hd. pose proof (length_Z_to_str d 7 ltac:(rewrite <- base_pow; lia) ltac:(lia)).
  unfold zlength. by rewrite padding.
Qed.
Lemma foldl_push_double l : forall v, foldl push (2 * v) (Z.mul 2 <$> l) = 2 * foldl push v l.
Proof.
  induction l as [|d l IH]; intros v; [done|]. cbn [fmap list_fmap foldl]. rewrite <- IH. f_equal. unfold push. lia.
Qed.
Lemma numToString_more l : Forall small l -> forall v, 0 < v ->
  numToString_from (Z.mul 2 <$> l) (Z_to_str v) = Ok (Z_to_str (foldl push v l)).
Proof.
  induction 1 as [|d data Hd _ IH]; intros v Hv; [done|]. cbn [fmap list_fmap numToString_from foldl].
  pose proof (Z_to_str_nonempty v ltac:(lia)). rewrite bool_decide_eq_false_2 by done. cbn [negb orb].
  rewrite digit_string_double. cbn [mbind res_bind]. rewrite digit_text by done. unfold small in Hd.
  change (list_fmap Z Z (Z.mul 2) data) with (Z.mul 2 <$> data).
  rewrite <- IH by (unfold push, base in *; nia). f_equal.
  rewrite (Z_to_str_cut 7 (push v d)), <- base_pow; [|lia|unfold push, base in *; nia]. unfold push.
  rewrite Z.div_add_l, (Z.div_small d) by (unfold base in *; lia). rewrite Z.add_0_r.
  by rewrite Z.add_comm, Z.mod_add, Z.mod_small by (unfold base in *; lia).
Qed.
Lemma numToString_first l : Forall small l -> l <> [] -> numToString_from (Z.mul 2 <$> l) [] = Ok (Z_to_str (foldl push 0 l)).
Proof.
  induction 1 as [|d data Hd Hds IH]; intros Hne; [done|]. cbn [fmap list_fmap numToString_from foldl].
  change (list_fmap Z Z (Z.mul 2) data) with (Z.mul 2 <$> data). rewrite bool_decide_eq_true_2 by done. cbn [negb orb].
  rewrite length_fmap. unfold push at 2. rewrite Z.mul_0_l, Z.add_0_l. unfold small in Hd.
  destruct (Z.eqb_spec (2 * d) 0) as [Hz|Hn]; cbn [negb]; rewrite ?orb_false_r, ?orb_true_r.
  - assert (d = 0) as -> by lia. destruct data as [|d' data]; [done|]. rewrite bool_decide_eq_false_2 by done. by apply IH.
  - rewrite digit_string_double. cbn [mbind res_bind]. apply numToString_more; [done|lia].
Qed.
Lemma numToString_value data n : Forall whole data -> data <> [] -> value data = 2 * n -> numToString data = Ok (Z_to_str n).
Proof.
  intros Hd Hn Hv. unfold numToString. rewrite <- (rev_involutive data), value_rev in Hv. apply Forall_rev in Hd.
  assert (Hr : rev data <> []) by (intros H; apply (f_equal (@rev Z)) in H; by rewrite rev_involutive in H).
  destruct (whole_small (rev data) Hd) as (l & El & Hl). rewrite El in *. rewrite numToString_first; [|done|by destruct l].
  do 2 f_equal. change 0 with (2 * 0) in Hv at 1. rewrite foldl_push_double in Hv. lia.
Qed.

(** ** The doubles *)

Lemma of_int_4096 : of_int 4096 = pow2 12. Proof. by vm_compute. Qed.
Lemma of_int_2 : of_int 2 = pow2 1. Proof. by vm_compute. Qed.

(** A number of 53 bits and its magnitude. *)
Lemma log_loop_value fuel k step n m e : bits m = 53 -> 0 < k <= 100 -> -52 <= e <= 900 -> (Z.to_nat (e + 53) < fuel)%nat ->
  of_int (2 ^ k) = pow2 k ->
  exists i, 0 <= i /\ e + 52 - k * i < k /\ 0 <= e + 52 - k * i /\
    log_loop fuel (2 ^ k) step n (S754_finite false m e) = Ok (n + step * i, S754_finite false m (e - k * i)).
Proof.
  intros Hm Hk. revert n e. induction fuel as [|fuel IH]; intros n e He Hf Ek; [lia|]. cbn [log_loop]. rewrite Ek, pow2_le by (done || lia).
  destruct (Z.leb_spec k (e + 52)) as [H|H].
  - rewrite ddiv_pow2 by lia. rewrite Hm, (wide_full m Hm). replace (53 + e - k - 53) with (e - k) by lia.
    destruct (IH (n + step) (e - k)) as (i & Hi & H1 & H2 & E); [lia|lia|done|]. exists (i + 1).
    rewrite E. split; [lia|]. split; [lia|]. split; [lia|]. do 2 f_equal; [lia|]. f_equal. lia.
  - exists 0. split; [lia|]. split; [lia|]. split; [lia|]. do 2 f_equal; [lia|]. f_equal. lia.
Qed.
Lemma log_loop_stops fuel k step m : bits m = 53 -> 0 < k <= 12 -> of_int (2 ^ k) = pow2 k ->
  log_loop (S fuel) (2 ^ k) step 0 (S754_finite false m (-53)) = Ok (0, S754_finite false m (-53)).
Proof.
  intros Hm Hk Ek. cbn [log_loop]. rewrite Ek, pow2_le by (done || lia). destruct (Z.leb_spec k (-53 + 52)); [lia|reflexivity].
Qed.
Lemma log_value m e : bits m = 53 -> -53 <= e <= 900 -> log (S754_finite false m e) = Ok (Z.max 0 (e + 52)).
Proof.
  intros Hm He. destruct (decide (e = -53)) as [->|Hn].
  { unfold log. change 4096 with (2 ^ 12). change 1100%nat with (S 1099). rewrite log_loop_stops by (lia || by vm_compute).
    cbn [mbind res_bind]. change 2 with (2 ^ 1) at 1. rewrite log_loop_stops by (lia || by vm_compute). reflexivity. }
  unfold log. destruct (log_loop_value 1100 12 12 0 m e) as (i & Hi & H1 & H2 & E); [done|lia|lia|lia|by vm_compute|].
  change (2 ^ 12) with 4096 in E. rewrite E. cbn [mbind res_bind].
  destruct (log_loop_value 1100 1 1 (0 + 12 * i) m (e - 12 * i)) as (j & Hj & H3 & H4 & E'); [done|lia|lia|lia|by vm_compute|].
  change (2 ^ 1) with 2 in E'. rewrite E'. cbn [mbind res_bind]. f_equal. lia.
Qed.

Lemma pow_2_value k : 0 <= k <= 70 -> pow 2 k = Ok (pow2 k).
Proof. intros Hk. by_range_check (fun k => bool_decide (pow 2 k = Ok (pow2 k))) (0) 71. Qed.
Lemma pow_10_value k : 0 <= k < 7 -> (p ← pow 10 k; as_int p) = Ok (10 ^ k).
Proof. intros Hk. by_range_check (fun k => bool_decide ((p ← pow 10 k; as_int p) = Ok (10 ^ k))) (0) 7. Qed.

Lemma halves_value m e : bits m = 53 -> e = 0 \/ e = -1 -> halves (S754_finite false m e) = Ok (Z.pos m * 2 ^ (e + 1)).
Proof. intros Hm [->| ->]; done. Qed.

(** ** The loops *)

Lemma times_base_value fuel j data : data <> [] -> good data -> 0 <= j -> (Z.to_nat j < fuel)%nat ->
  value data * 10 ^ j < 2 * base ^ Z.of_nat (length data) ->
  exists j' data', times_base fuel j data = Ok (j', data') /\ 0 <= j' < 7 /\ j' <= j /\ good data' /\ length data' = length data /\
    value data' * 10 ^ j' = value data * 10 ^ j.
Proof.
  revert j data. induction fuel as [|fuel IH]; intros j data Hne Hd Hj Hf Hr; [lia|]. cbn [times_base].
  destruct (Z.leb_spec 7 j) as [H|H]; [|by exists j, data].
  pose proof (value_nonneg data (good_digits _ Hd)). assert (Ej : 10 ^ j = base * 10 ^ (j - 7)).
  { change base with (10 ^ 7). rewrite <- Z.pow_add_r by lia. f_equal. lia. }
  rewrite Ej in Hr. assert (0 < 10 ^ (j - 7)) by lia.
  destruct (multiply_room base 0 data Hne Hd) as (data' & E & Hd' & Hl & Hv); [unfold base; lia|unfold base; lia|unfold base in *; nia|].
  rewrite E. cbn [mbind res_bind]. rewrite Z.add_0_r in Hv.
  destruct (IH (j - 7) data') as (j' & data2 & E' & Hj' & Hjj & Hd2 & Hl2 & Hv2); [by intros ->; destruct data|done|lia|lia|rewrite Hl, Hv; lia|].
  exists j', data2. split; [done|]. split; [done|]. split; [lia|]. split; [done|]. split; [lia|]. rewrite Hv2, Hv, Ej. lia.
Qed.

Lemma halve_value fuel j data : good data -> 0 <= j -> (Z.to_nat j < fuel)%nat ->
  exists j' data', halve fuel j data = Ok (j', data') /\ 0 <= j' < 23 /\ good data' /\ length data' = length data /\
    value data' / (2 * 2 ^ j') = value data / (2 * 2 ^ j).
Proof.
  revert j data. induction fuel as [|fuel IH]; intros j data Hd Hj Hf; [lia|]. cbn [halve].
  destruct (Z.leb_spec 23 j) as [H|H]; [|by exists j, data].
  change (js_shl 1 23) with (2 ^ 23). destruct (divide_value (2 ^ 23) data ltac:(lia) Hd) as (data' & E & Hd' & Hl & Hv).
  rewrite E. cbn [mbind res_bind]. destruct (IH (j - 23) data') as (j' & data2 & E' & Hj' & Hd2 & Hl2 & Hv2); [by apply whole_good|lia|lia|].
  exists j', data2. split; [done|]. split; [done|]. split; [done|]. split; [lia|]. rewrite Hv2, Hv.
  rewrite Z.div_mul_cancel_l, Z.div_div by lia. f_equal. rewrite <- Z.mul_assoc, <- Z.pow_add_r by lia. do 2 f_equal. lia.
Qed.
Lemma js_shl_pow j : 0 <= j < 31 -> js_shl 1 j = 2 ^ j.
Proof. intros Hj. by_range_check (fun j => bool_decide (js_shl 1 j = 2 ^ j)) (0) 31. Qed.

(** ** The result

    The number [m * 2 ^ e * 10 ^ f], rounded to the nearest integer, up in the
    middle, and an integer as a decimal with [f] digits after the point. *)
Definition rounded (m : positive) (e f : Z) : Z :=
  if 0 <=? e then Z.pos m * 2 ^ e * 10 ^ f else (2 * (Z.pos m * 10 ^ f) + 2 ^ (- e)) / 2 ^ (1 - e).
Definition decimal (n f : Z) : jsstr :=
  if f =? 0 then Z_to_str n else Z_to_str (n / 10 ^ f) ++ js "." ++ pad (Z.to_nat f) (n mod 10 ^ f).

Lemma store_value c data : 0 <= c < 2 ^ 54 -> safe c = Ok c -> length data = size ->
  exists data', multiply 0 c data = Ok data' /\ good data' /\ length data' = size /\ value data' = c /\ (Z.even c = true -> Forall whole data').
Proof.
  intros Hc Hs Hl. destruct (multiply_value 0 c data) as (data' & E & Hd & Hl' & Hv & Hw & Hg);
    [unfold base; lia|lia|by right|by intros ->|apply Forall_forall; lia| |].
  { rewrite Hl. change (base ^ Z.of_nat size) with (10 ^ 42). lia. }
  exists data'. split; [done|]. split; [apply Hg, Forall_forall; done|]. split; [by rewrite Hl'|]. split; [by rewrite Hv|].
  intros He. apply Hw; [done|]. by apply Forall_forall.
Qed.
Lemma pow10_le f : 0 <= f <= 20 -> 0 < 10 ^ f <= 10 ^ 20.
Proof. intros Hf. split; [lia|]. apply Z.pow_le_mono_r; lia. Qed.

(** The part of the function behind the mantissa [c / 2]. *)
Definition fraction (c e f : Z) (data : list Z) : res jsstr :=
  data ← multiply 0 c data;
  '(j, data) ← times_base (S (Z.to_nat f)) f data;
  p ← pow 10 j; p ← as_int p; data ← multiply p 0 data;
  '(j, data) ← halve (S (Z.to_nat e)) (e - 1) data;
  data ← divide (js_shl 1 j) data;
  data ← multiply 1 2 data;
  data ← divide 2 data;
  numToString data.
Lemma fraction_value c e f data : 0 <= c < 2 ^ 54 -> safe c = Ok c -> 0 < e -> 0 <= f <= 20 -> length data = size ->
  fraction c e f data = Ok (Z_to_str ((c * 10 ^ f / 2 ^ e + 1) / 2)).
Proof.
  intros Hc Hs He Hf Hl. pose proof (pow10_le f Hf). unfold fraction.
  destruct (store_value c data Hc Hs Hl) as (d1 & -> & Hd1 & Hl1 & Hv1 & _). cbn [mbind res_bind].
  assert (Hroom : 0 <= c * 10 ^ f < 10 ^ 42 - 2) by nia.
  assert (Hsize : base ^ Z.of_nat size = 10 ^ 42) by done.
  assert (Hne : forall d : list Z, length d = size -> d <> []) by (by intros d Hd ->).
  destruct (times_base_value (S (Z.to_nat f)) f d1) as (j & d2 & -> & Hj & Hjf & Hd2 & Hl2 & Hv2);
    [by apply Hne|done|lia|lia|rewrite Hv1, Hl1, Hsize; lia|]. cbn [mbind res_bind]. rewrite Hl1 in Hl2.
  pose proof (pow_10_value j Hj) as Ep. destruct (pow 10 j) as [p|]; [|done]. cbn [mbind res_bind] in *. rewrite Ep. cbn [mbind res_bind].
  assert (0 < 10 ^ j <= base) by (split; [lia|change base with (10 ^ 7); apply Z.pow_le_mono_r; lia]).
  destruct (multiply_room (10 ^ j) 0 d2) as (d3 & -> & Hd3 & Hl3 & Hv3);
    [by apply Hne|exact Hd2|lia|unfold base; lia|rewrite Hl2, Hsize, Z.add_0_r, Z.mul_comm, Hv2, Hv1; lia|]. cbn [mbind res_bind].
  rewrite Z.add_0_r, Z.mul_comm, Hv2, Hv1 in Hv3. rewrite Hl2 in Hl3.
  destruct (halve_value (S (Z.to_nat e)) (e - 1) d3) as (k & d4 & -> & Hk & Hd4 & Hl4 & Hv4); [done|lia|lia|]. cbn [mbind res_bind].
  rewrite js_shl_pow by lia. assert (0 < 2 ^ k <= 2 ^ 23) by (split; [lia|apply Z.pow_le_mono_r; lia]). rewrite Hl3 in Hl4.
  destruct (divide_value (2 ^ k) d4) as (d5 & -> & Hd5 & Hl5 & Hv5); [done|done|]. cbn [mbind res_bind]. rewrite Hl4 in Hl5.
  rewrite Hv4, Hv3 in Hv5. replace (2 * 2 ^ (e - 1)) with (2 ^ e) in Hv5 by (rewrite <- Z.pow_succ_r by lia; f_equal; lia).
  set (q := c * 10 ^ f / 2 ^ e) in *. assert (Hq : 0 <= q /\ 2 * q <= c * 10 ^ f).
  { split; [apply Z.div_pos; lia|]. pose proof (Z.mul_div_le (c * 10 ^ f) (2 ^ e) ltac:(lia)) as Hm. fold q in Hm.
    assert (2 <= 2 ^ e) by (rewrite <- (Z.pow_1_r 2) at 1; apply Z.pow_le_mono_r; lia). assert (0 <= q) by (apply Z.div_pos; lia). nia. }
  destruct (multiply_room 1 2 d5) as (d6 & -> & Hd6 & Hl6 & Hv6);
    [by apply Hne|by apply whole_good|unfold base; lia|unfold base; lia|rewrite Hl5, Hsize; lia|]. cbn [mbind res_bind]. rewrite Hl5 in Hl6.
  destruct (divide_value 2 d6) as (d7 & -> & Hd7 & Hl7 & Hv7); [lia|done|]. cbn [mbind res_bind]. rewrite Hl6 in Hl7.
  apply numToString_value; [done|by apply Hne|]. rewrite Hv7, Hv6, Hv5. f_equal.
  replace (1 * (2 * q) + 2) with (2 * (q + 1)) by lia. by rewrite Z.div_mul_cancel_l.
Qed.
Lemma round_half n k : 0 < k -> (2 * n + 2 ^ k) / 2 ^ (1 + k) = (2 * n / 2 ^ k + 1) / 2.
Proof.
  intros Hk. rewrite (Z.add_comm 1 k), Z.pow_add_r by lia. change (2 ^ 1) with 2. rewrite <- Z.div_div by lia. f_equal.
  rewrite <- (Z.mul_1_l (2 ^ k)) at 1. by rewrite Z.div_add by lia.
Qed.

Lemma digits_of_value m e f data : bits m = 53 -> -122 <= e <= 17 -> 0 <= f <= 20 -> length data = size ->
  digits_of (S754_finite false m e) f data =
    Ok (if e <? 0 then Z_to_str (rounded m e f) else Z_to_str (Z.pos m * 2 ^ e) ++ repeat 48 (Z.to_nat f)).
Proof.
  intros Hm He Hf Hl. pose proof (bits_bounds m) as Hb. rewrite Hm in Hb. unfold digits_of. rewrite pow_2_value by lia. cbn [mbind res_bind].
  rewrite dmul_pow2 by lia. rewrite (wide_full m Hm), Hm, log_value by (done || lia). cbn [mbind res_bind].
  set (E := Z.max 0 (53 + e + 69 - 53 + 52) - 69). set (h := e - E + 52).
  assert (HE : -69 <= E <= 69 /\ (h = 0 \/ h = -1 /\ e = -122) /\ 52 - E = h - e) by (unfold h, E; lia).
  destruct HE as (HE & Hh & E'). rewrite E'.
  assert (Ez : (z ← (if E <? 0 then q ← pow 2 (- E); Ok (dmul (S754_finite false m e) q)
                    else q ← pow 2 E; Ok (ddiv (S754_finite false m e) q)); halves (dmul z (pow2 52))) = Ok (Z.pos m * 2 ^ (h + 1))).
  { transitivity (halves (dmul (S754_finite false m (h - 52)) (pow2 52))).
    - destruct (Z.ltb_spec E 0).
      + rewrite pow_2_value by lia. cbn [mbind res_bind]. rewrite dmul_pow2 by lia. rewrite (wide_full m Hm), Hm. do 3 f_equal. lia.
      + rewrite pow_2_value by lia. cbn [mbind res_bind]. rewrite ddiv_pow2 by lia. rewrite (wide_full m Hm), Hm. do 3 f_equal. lia.
    - rewrite dmul_pow2 by lia. rewrite (wide_full m Hm), Hm. replace (53 + (h - 52) + 52 - 53) with h by lia. apply halves_value; [done|lia]. }
  destruct (if E <? 0 then _ else _) as [z|]; [|done]. cbn [mbind res_bind] in *. rewrite Ez. cbn [mbind res_bind].
  assert (Hs : safe (Z.pos m * 2 ^ (h + 1)) = Ok (Z.pos m * 2 ^ (h + 1)) /\ 0 <= Z.pos m * 2 ^ (h + 1) < 2 ^ 54).
  { destruct Hh as [->|[-> _]]; [rewrite Z.mul_comm; change (2 ^ (0 + 1)) with 2; rewrite safe_even by lia; split; [done|lia]|].
    change (2 ^ (-1 + 1)) with 1. rewrite Z.mul_1_r, safe_ok by lia. split; [done|lia]. }
  destruct Hs as [Hs Hc]. destruct (Z.ltb_spec e 0) as [Hn|Hn].
  - rewrite (proj2 (Z.ltb_lt 0 (h - e))) by lia. fold (fraction (Z.pos m * 2 ^ (h + 1)) (h - e) f data).
    rewrite fraction_value by (done || lia). unfold rounded. rewrite (proj2 (Z.leb_gt 0 e)) by lia.
    do 2 f_equal. replace (1 - e) with (1 + - e) by lia. rewrite round_half by lia. do 2 f_equal.
    destruct Hh as [->|[-> ->]]; [change (2 ^ (0 + 1)) with 2; f_equal; lia|]. change (2 ^ (-1 + 1)) with 1. change (-1 - -122) with 121. change (- -122) with (1 + 121).
    rewrite Z.pow_add_r, Z.div_mul_cancel_l by lia. f_equal. lia.
  - assert (h = 0) as -> by lia. change (2 ^ (0 + 1)) with 2 in *. replace (0 - e) with (- e) by lia.
    rewrite (proj2 (Z.ltb_ge 0 (- e))) by lia. rewrite Z.opp_involutive, js_shl_pow by lia.
    destruct (store_value (Z.pos m * 2) data Hc Hs Hl) as (d1 & -> & Hd1 & Hl1 & Hv1 & Hw1). cbn [mbind res_bind].
    assert (0 < 2 ^ e <= 2 ^ 17) by (split; [lia|apply Z.pow_le_mono_r; lia]).
    assert (Hew : Z.even (Z.pos m * 2) = true) by (by rewrite Z.even_mul, orb_true_r). specialize (Hw1 Hew).
    assert (Hsize : base ^ Z.of_nat size = 10 ^ 42) by done.
    destruct (multiply_value (2 ^ e) 0 d1) as (d2 & -> & Hd2 & Hl2 & Hv2 & Hw2 & _);
      [unfold base; lia|done|left; unfold base; lia|done| |rewrite Hv1, Hl1, Hsize; nia|].
    { eapply Forall_impl; [by apply whole_digits|]. unfold digit. intros d Hd. nia. }
    cbn [mbind res_bind]. rewrite (numToString_value d2 (Z.pos m * 2 ^ e)).
    + cbn [mbind res_bind]. do 2 f_equal. clear -Hf.
      by_range_check (fun f => bool_decide (slice_list (js "0.00000000000000000000") 2 (2 + f) = repeat 48 (Z.to_nat f))) (0) 21.
    + apply Hw2; [done|]. eapply Forall_impl; [exact Hw1|]. intros d [_ Hd]. by rewrite Z.even_mul, Hd, orb_true_r.
    + intros ->. by rewrite Hl1 in Hl2.
    + rewrite Hv2, Hv1. lia.
Qed.

Lemma digits_of_text m e f data : bits m = 53 -> -122 <= e <= 17 -> 0 <= f <= 20 -> length data = size ->
  digits_of (S754_finite false m e) f data = Ok (Z_to_str (rounded m e f)).
Proof.
  intros Hm He Hf Hl. rewrite digits_of_value by done. destruct (Z.ltb_spec e 0) as [Hn|Hn]; [done|]. f_equal.
  unfold rounded. rewrite (proj2 (Z.leb_le 0 e)) by done. set (N := Z.pos m * 2 ^ e).
  assert (0 < N) by (unfold N; assert (0 < 2 ^ e) by lia; nia). destruct (decide (f = 0)) as [->|Hf0].
  - change (10 ^ 0) with 1. rewrite Z.mul_1_r. by rewrite app_nil_r.
  - assert (Ef : f = Z.of_nat (Z.to_nat f)) by lia. assert (0 < 10 ^ f) by lia.
    rewrite (Z_to_str_cut (Z.to_nat f) (N * 10 ^ f)), <- Ef; [|lia|rewrite <- Ef; nia]. rewrite Z.div_mul, Z.mod_mul by lia. by rewrite pad_zeros by lia.
Qed.

(** ** The point *)

Lemma pow10_nat f : 0 <= f -> 10 ^ f = 10 ^ Z.of_nat (Z.to_nat f).
Proof. intros Hf. by rewrite Z2Nat.id. Qed.
Lemma zeros_before k : 0 <= k <= 19 -> slice_list (js "0.0000000000000000000") 0 (k + 2) = js "0." ++ repeat 48 (Z.to_nat k).
Proof.
  intros Hk. by_range_check (fun k => bool_decide (slice_list (js "0.0000000000000000000") 0 (k + 2) = js "0." ++ repeat 48 (Z.to_nat k))) (0) 20.
Qed.
Lemma place_point_decimal s n f : 0 <= n -> 0 <= f <= 20 -> place_point s (Z_to_str n) f = s ++ decimal n f.
Proof.
  intros Hn Hf. unfold place_point, decimal. destruct (Z.eqb_spec f 0) as [->|Hf0]; [done|]. rewrite (proj2 (Z.ltb_lt 0 f)) by lia.
  set (k := Z.to_nat f). assert (Hk : f = Z.of_nat k) by (unfold k; lia). assert (0 < 10 ^ f) by lia.
  destruct (decide (10 ^ f <= n)) as [Hlarge|Hsmall].
  - rewrite (Z_to_str_cut k n), <- Hk by (rewrite <- ?Hk; lia). set (w := Z_to_str (n / 10 ^ f)).
    assert (Hp : length (pad k (n mod 10 ^ f)) = k).
    { apply length_pad; [lia|]. rewrite Hk. apply Z.mod_pos_bound. lia. }
    assert (Hz : zlength (w ++ pad k (n mod 10 ^ f)) = zlength w + f) by (unfold zlength; rewrite length_app, Hp; lia).
    rewrite Hz. pose proof (Z_to_str_nonempty (n / 10 ^ f) ltac:(apply Z.div_pos; lia)) as Hw. fold w in Hw.
    assert (0 < zlength w) by (unfold zlength; destruct w; [done|cbn; lia]). rewrite (proj2 (Z.leb_gt _ _)) by lia.
    replace (zlength w + f - f) with (Z.of_nat (length w)) by (unfold zlength; lia). rewrite slice_take, slice_drop by (rewrite length_app; lia).
    by rewrite take_app_length, drop_app_length.
  - assert (Hlen : (length (Z_to_str n) <= k)%nat) by (apply length_Z_to_str; [rewrite <- Hk|]; lia).
    pose proof (Z_to_str_nonempty n Hn) as Hw. assert (0 < length (Z_to_str n))%nat by (destruct (Z_to_str n); [done|cbn; lia]).
    unfold zlength. rewrite (proj2 (Z.leb_le _ _)) by lia. rewrite zeros_before by lia. rewrite Z.div_small, Z.mod_small by lia.
    change (Z_to_str 0) with (js "0"). unfold pad. replace (Z.to_nat (f - Z.of_nat (length (Z_to_str n)))) with (k - length (Z_to_str n))%nat by lia.
    by rewrite <- !app_assoc.
Qed.

(** ** [toFixed] *)

Lemma SMALL_value : exists m, SMALL = S754_finite false m (-122).
Proof. eexists. by vm_compute. Qed.
Lemma BIG_value : exists m, BIG = S754_finite false m 17.
Proof. eexists. by vm_compute. Qed.
Lemma less_not_least s m e m' e' : SFltb (S754_finite false m e) (S754_finite false m' e') = true ->
  SFleb (S754_finite s m e) (SFopp (S754_finite false m' e')) || SFleb (S754_finite false m' e') (S754_finite s m e) = false.
Proof.
  unfold SFltb, SFleb, SFcompare, SFopp. cbn [negb]. rewrite (Z.compare_antisym e e'). change (Pos.compare_cont Eq) with Pos.compare.
  rewrite (Pos.compare_antisym m m'). destruct s, (e ?= e'), (m ?= m')%positive; done.
Qed.
Lemma fraction_digits_range fd f : fraction_digits fd = Ok f -> 0 <= f <= 20.
Proof.
  destruct fd as [s|s| |s m e]; cbn [fraction_digits]; try (intros [= <-]; lia); try done. cbv zeta.
  destruct (_ || _) eqn:E; [done|]. intros [= <-]. apply orb_false_iff in E as [E1 E2]. by apply Z.ltb_ge in E1, E2.
Qed.
(** What is not above [1e-21] is zero in twenty digits. *)
Lemma rounded_small m e f : bits m <= 53 -> e <= -122 -> 0 <= f <= 20 -> rounded m e f = 0 \/ e = -122.
Proof.
  intros Hm He Hf. destruct (decide (e = -122)); [by right|left]. unfold rounded. rewrite (proj2 (Z.leb_gt 0 e)) by lia.
  apply Z.div_small. pose proof (bits_bounds m) as Hb. pose proof (pow10_le f Hf).
  assert (2 ^ bits m <= 2 ^ 53) by (apply Z.pow_le_mono_r; lia). assert (2 ^ 123 <= 2 ^ (- e)) by (apply Z.pow_le_mono_r; lia).
  replace (1 - e) with (Z.succ (- e)) by lia. rewrite Z.pow_succ_r by lia. nia.
Qed.
Definition scaled (x : double) (f : Z) : Z := match x with S754_finite _ m e => rounded m e f | _ => 0 end.
Lemma rounded_nonneg m e f : 0 <= f -> 0 <= rounded m e f.
Proof.
  intros Hf. unfold rounded. assert (0 < 10 ^ f) by lia. destruct (Z.leb_spec 0 e).
  - assert (0 < 2 ^ e) by lia. nia.
  - apply Z.div_pos; [|lia]. assert (0 < 2 ^ (- e)) by lia. nia.
Qed.
Lemma digits_or_zero m e f data : canonical m e -> e <= 17 -> 0 <= f <= 20 -> length data = size ->
  (if SFltb SMALL (S754_finite false m e) then digits_of (S754_finite false m e) f data else Ok (js "0")) = Ok (Z_to_str (rounded m e f)).
Proof.
  intros Hc He Hf Hl. destruct (canonical_range m e Hc) as (Hb & _ & Hbits). destruct SMALL_value as [ms Es]. rewrite Es.
  destruct (SFltb _ _) eqn:E.
  - apply greater in E. apply digits_of_text; [lia|lia|done|done].
  - destruct (rounded_small m e f) as [->| ->]; [lia|by eapply greater_not|done|done|]. f_equal.
    assert (Hz : rounded m (-122) f = 0); [|by rewrite Hz]. unfold rounded. cbn [Z.leb Z.compare Z.opp].
    apply Z.div_small. pose proof (bits_bounds m). pose proof (pow10_le f Hf). assert (2 ^ bits m <= 2 ^ 53) by (apply Z.pow_le_mono_r; lia).
    change (2 ^ (1 - -122)) with (2 * 2 ^ 122). nia.
Qed.

(** C14. A number of less than [1e21] is written with as many digits after the
    point as were asked for, rounded to the nearest such decimal, away from
    zero in the middle: the digits stay within what a number can hold exactly,
    and the loops end, for every double. *)
Theorem toFixed_rounds String_of data x fd f : valid x -> SFltb (SFabs x) BIG = true -> fraction_digits fd = Ok f -> length data = size ->
  toFixed String_of data x fd = Ok ((if SFltb x (S754_zero false) then js "-" else []) ++ decimal (scaled x f) f).
Proof.
  intros Hv Hx Hf Hl. pose proof (fraction_digits_range fd f Hf) as Hr. unfold toFixed. rewrite Hf. cbn [mbind res_bind].
  destruct BIG_value as [mb Eb]. rewrite Eb in *. destruct x as [s|s| |s m e].
  - cbn [SFltb SFcompare SFopp SFleb orb scaled]. destruct SMALL_value as [ms ->]. cbn [SFltb SFcompare mbind res_bind].
    rewrite <- place_point_decimal by lia. by destruct s.
  - discriminate Hx.
  - discriminate Hx.
  - cbn [SFabs] in Hx. rewrite less_not_least by done. pose proof (greater _ _ _ _ Hx). apply valid_canonical in Hv.
    destruct s; cbn [SFltb SFcompare SFopp negb scaled]; rewrite digits_or_zero by assumption; cbn [mbind res_bind];
      (rewrite place_point_decimal; [reflexivity|apply rounded_nonneg; lia|assumption]).
Qed.
Lemma toFixed_rounds_witness :
  toFixed (fun _ => []) [1; 2; 3; 4; 5; 6] (ddiv (of_int (-1005)) (of_int 1000)) (of_int 2) = Ok (js "-1.00").
Proof. by rewrite (toFixed_rounds (fun _ => []) [1; 2; 3; 4; 5; 6] (ddiv (of_int (-1005)) (of_int 1000)) (of_int 2) 2). Defined.
