(* ===== verification/ShimDate.v ===== *)
(** * Dates

    The Date of es5-shim inside swagger-ui.js: the fields of dates before year
    0, the texts of a date, [Date.parse] of ISO 8601 texts, and the
    constructor.

    A time is a number of milliseconds, [None] for an invalid one.  The
    calendar of the language (the proleptic Gregorian one) is that of
    [YamlTypes]; the time zone of the environment, what its own [Date.parse]
    makes of other texts, and its [Date] of separate fields are parameters.
    The expression of [Date.parse] is run by the matcher of [Captures]; the
    fraction of a second is a double ([Binary64]), the other numbers are
    integers (beyond 2^53 they are invalid times). *)

From Stdlib Require Import Floats.SpecFloat String.
From S2P Require Import Prelude JsNumber JsString Regex Captures YamlTypes Decimal Binary64.

(** ** Fields *)

(** What the methods of the environment's own dates return. *)
Record fields := Fields {
  f_year : Z; f_month : Z; f_date : Z; f_day : Z; f_hours : Z; f_minutes : Z; f_seconds : Z; f_millis : Z
}.
(** The fields of a time in the language, in UTC. *)
Definition utc_fields (t : Z) : fields :=
  let d := t / 86400000 in
  let ms := t mod 86400000 in
  let y := year_of_day d in
  let doy := d - day_from_year y in
  let m := month_of 12 0 doy (is_leap y) in
  Fields y m (doy - month_start m (is_leap y) + 1) ((d + 4) mod 7)
    (ms / 3600000) (ms / 60000 mod 60) (ms / 1000 mod 60) (ms mod 1000).

Section fixed.
(** [daysInMonth(0, year)]: the last day of December of the year before. *)
Context (daysInMonth : Z -> Z -> Z).

Definition getFullYear (f : fields) : Z := if (f_year f <? 0) && (11 <? f_month f) then f_year f + 1 else f_year f.
Definition getMonth (f : fields) : Z := if (f_year f <? 0) && (11 <? f_month f) then 0 else f_month f.
Definition getDate (f : fields) : Z :=
  if (f_year f <? 0) && (11 <? f_month f) then
    if f_month f =? 12 then f_date f
    else let days := daysInMonth 0 (f_year f + 1) in (days - f_date f) + 1
  else f_date f.
Definition getUTCFullYear : fields -> Z := getFullYear.
Definition getUTCMonth : fields -> Z := getMonth.
Definition getUTCDate : fields -> Z := getDate.

Definition dayName : list jsstr := js <$> ["Sun"; "Mon"; "Tue"; "Wed"; "Thu"; "Fri"; "Sat"]%string.
Definition monthName : list jsstr :=
  js <$> ["Jan"; "Feb"; "Mar"; "Apr"; "May"; "Jun"; "Jul"; "Aug"; "Sep"; "Oct"; "Nov"; "Dec"]%string.
Definition name_of (l : list jsstr) (i : Z) : jsstr := default (js "undefined") (if i <? 0 then None else l !! Z.to_nat i).
(** [(n < 10 ? '0' + n : n)]. *)
Definition two (n : Z) : jsstr := if n <? 10 then js "0" ++ Z_to_str n else Z_to_str n.

Definition toUTCString (f : fields) : jsstr :=
  name_of dayName (f_day f) ++ js ", " ++ two (f_date f) ++ js " " ++ name_of monthName (f_month f) ++ js " " ++
  Z_to_str (f_year f) ++ js " " ++ two (f_hours f) ++ js ":" ++ two (f_minutes f) ++ js ":" ++ two (f_seconds f) ++ js " GMT".
Definition toDateString (f : fields) : jsstr :=
  name_of dayName (f_day f) ++ js " " ++ name_of monthName (getMonth f) ++ js " " ++ two (getDate f) ++ js " " ++
  Z_to_str (getFullYear f).
(** [timezoneOffset]: minutes, positive west of Greenwich. *)
Definition date_toString (f : fields) (timezoneOffset : Z) : jsstr :=
  let hoursOffset := Z.abs timezoneOffset / 60 in
  let minutesOffset := Z.abs timezoneOffset mod 60 in
  name_of dayName (f_day f) ++ js " " ++ name_of monthName (getMonth f) ++ js " " ++ two (getDate f) ++ js " " ++
  Z_to_str (getFullYear f) ++ js " " ++ two (f_hours f) ++ js ":" ++ two (f_minutes f) ++ js ":" ++ two (f_seconds f) ++
  js " GMT" ++ (if 0 <? timezoneOffset then js "-" else js "+") ++ two hoursOffset ++ two minutesOffset.
End fixed.

(** ** [toISOString] *)

Definition last_digits (k : Z) (s : jsstr) : jsstr := slice_from s (- k).
Definition iso_year (year : Z) : jsstr :=
  (if year <? 0 then js "-" else if 9999 <? year then js "+" else []) ++
  last_digits (if (0 <=? year) && (year <=? 9999) then 4 else 6) (js "00000" ++ Z_to_str (Z.abs year)).
(** The month of an early date may lie outside of the year. *)
Definition iso_text (f : fields) : jsstr :=
  let year := f_year f + f_month f / 12 in
  let month := Z.rem (Z.rem (f_month f) 12 + 12) 12 in
  let result := (fun n => last_digits 2 (js "00" ++ Z_to_str n)) <$>
                [month + 1; f_date f; f_hours f; f_minutes f; f_seconds f] in
  iso_year year ++ js "-" ++ join (js "-") (slice_list result 0 2) ++ js "T" ++ join (js ":") (slice_from result 2) ++
  js "." ++ last_digits 3 (js "000" ++ Z_to_str (f_millis f)) ++ js "Z".
Definition toISOString (t : option Z) : res jsstr :=
  match t with Some t => Ok (iso_text (utc_fields t)) | None => Throw RangeError end.
(** [toJSON] of a date: [None] is [null]. *)
Definition toJSON (t : option Z) : res (option jsstr) :=
  match t with Some _ => s ← toISOString t; Ok (Some s) | None => Ok None end.

(** ** [Date.parse] *)

Definition cdigit : cre := CClass isDecCode.
Definition cdigits (n : nat) : cre := cseqs (repeat cdigit n).
Definition group2 (i : nat) : cre := CGroup i (cdigits 2).
Definition sign_class : Z -> bool := fun c => (c =? chr "+") || (c =? chr "-").
Definition year_re : cre := CGroup 1 (CAlt (cdigits 4) (CSeq (CClass sign_class) (cdigits 6))).
Definition offset_re : cre :=
  CGroup 8 (CAlt (CLit (js "Z")) (CSeq (CGroup 9 (CClass sign_class)) (CSeq (group2 10) (CSeq (CLit (js ":")) (group2 11))))).
Definition seconds_re : cre :=
  CSeq (CLit (js ":")) (CSeq (group2 6) (COpt (CGroup 7 (CSeq (CLit (js ".")) (CPlus cdigit))))).
Definition time_re : cre :=
  CSeq (CLit (js "T")) (CSeq (group2 4) (CSeq (CLit (js ":")) (CSeq (group2 5) (CSeq (COpt seconds_re) (COpt offset_re))))).
Definition isoDateExpression : cre :=
  CSeq year_re (COpt (CSeq (CLit (js "-")) (CSeq (group2 2)
    (COpt (CSeq (CLit (js "-")) (CSeq (group2 3) (COpt time_re))))))).
(** [$] at the end of the expression. *)
Definition at_end (s : jsstr) (c : caps) : option caps := match s with [] => Some c | _ => None end.
Definition exec_iso (s : jsstr) : option caps := cmatch isoDateExpression s [] at_end.

Definition months : list Z := [0; 31; 59; 90; 120; 151; 181; 212; 243; 273; 304; 334; 365].
Definition dayFromMonth (year month : Z) : Z :=
  let t := if 1 <? month then 1 else 0 in
  List.nth (Z.to_nat month) months 0 + (year - 1969 + t) / 4 - (year - 1901 + t) / 100 + (year - 1601 + t) / 400 +
  365 * (year - 1970).

(** [$Number] of digits, with a sign for a year, and of a point with digits:
    the double nearest to it. *)
Definition number_or (d : Z) (s : option jsstr) : Z := match s with Some ((_ :: _) as s) => number s | _ => d end.
Definition signed_number (s : jsstr) : Z :=
  match s with c :: d => if c =? chr "-" then - number d else if c =? chr "+" then number d else number s | [] => 0 end.
Definition fraction (s : jsstr) : double :=
  match number (drop 1 s) with
  | Z.pos m => SFdiv 53 1024 (S754_finite false m 0) (S754_finite false (Z.to_pos (10 ^ Z.of_nat (length s - 1))) 0)
  | _ => S754_zero false
  end.
Definition millisecond_of (s : option jsstr) : Z :=
  match s with Some s => truncate (dmul (fraction s) (of_int 1000)) | None => 0 end.

Section parse.
Context (signed_int_bug : bool).
(** [new NativeDate(...)] of separate fields, in the local time zone, and
    [NativeDate.parse]. *)
Context (native_date : list Z -> option Z) (native_parse : jsstr -> option Z).

Definition maxSafeUnsigned32Bit : Z := 2 ^ 31 - 1.
(** The seconds taken out of too many milliseconds. *)
Definition shift_seconds (ms : Z) : Z :=
  if signed_int_bug && (maxSafeUnsigned32Bit <? ms) then
    (ms / maxSafeUnsigned32Bit * maxSafeUnsigned32Bit) / 1000
  else 0.
Definition toUTC (t : Z) : option Z :=
  let s := shift_seconds t in native_date [1970; 0; 1; 0; 0; s; t - s * 1000].

Definition parse (string : jsstr) : option Z :=
  match exec_iso string with
  | Some c =>
      let year := signed_number (default [] (part 1 c)) in
      let month := number_or 1 (part 2 c) - 1 in
      let day := number_or 1 (part 3 c) - 1 in
      let hour := number_or 0 (part 4 c) in
      let minute := number_or 0 (part 5 c) in
      let second := number_or 0 (part 6 c) in
      let millisecond := millisecond_of (part 7 c) in
      let isLocalTime := bool_decide (is_Some (part 4 c)) && bool_decide (part 8 c = None) in
      let signOffset := if bool_decide (part 9 c = Some (js "-")) then 1 else -1 in
      let hourOffset := number_or 0 (part 10 c) in
      let minuteOffset := number_or 0 (part 11 c) in
      let hasMinutesOrSecondsOrMilliseconds := (0 <? minute) || (0 <? second) || (0 <? millisecond) in
      if (hour <? (if hasMinutesOrSecondsOrMilliseconds then 24 else 25)) && (minute <? 60) && (second <? 60) &&
         (millisecond <? 1000) && (-1 <? month) && (month <? 12) && (hourOffset <? 24) && (minuteOffset <? 60) &&
         (-1 <? day) && (day <? dayFromMonth year (month + 1) - dayFromMonth year month)
      then
        let result := ((dayFromMonth year month + day) * 24 + hour + hourOffset * signOffset) * 60 in
        let result := ((result + minute + minuteOffset * signOffset) * 60 + second) * 1000 + millisecond in
        result ← (if isLocalTime then toUTC result else Some result);
        if (- 8640000000000000 <=? result) && (result <=? 8640000000000000) then Some result else None
      else None
  | None => native_parse string
  end.

(** [new Date(...)]: a text, a date or a number alone, or separate fields. *)
Inductive date_args := NoArgs | AText (s : jsstr) | ATime (t : option Z) | AFields (l : list Z).
Context (now : Z) (time_clip : option Z -> option Z).
Definition DateShim (args : date_args) : option Z :=
  match args with
  | NoArgs => Some now
  | AText s => time_clip (parse s)
  | ATime t => time_clip t
  | AFields (Y :: M :: D :: h :: m :: s :: ms :: _) =>
      let sToShift := shift_seconds ms in native_date [Y; M; D; h; m; s + sToShift; ms - sToShift * 1000]
  | AFields l => native_date l
  end.
End parse.

(** A fraction that rounds up to a whole second makes the time invalid. *)
Example fraction_rounds_up :
  parse false (fun _ => None) (fun _ => None) (js "2015-12-09T12:00:00.9999999999999999Z") = Some 1449662400999 /\
  parse false (fun _ => None) (fun _ => None) (js "2015-12-09T12:00:00.99999999999999999Z") = None.
Proof. by vm_compute. Qed.
Example parse_dates :
  let p := parse false (fun _ => None) (fun _ => None) in
  p (js "2015-12-09T12:00:00.000Z") = Some 1449662400000 /\ p (js "+033658-09-27T01:46:40.000Z") = Some (10 ^ 15) /\
  p (js "2012-04-04T24:00:00.500Z") = None /\ p (js "2012-11-31T23:59:59.000Z") = None /\ p (js "2015") = Some 1420070400000 /\
  p (js "2015-12-09T12:00-08:00") = Some 1449691200000 /\ toISOString (Some (-62198755200000)) = Ok (js "-000001-01-01T00:00:00.000Z").
Proof. by vm_compute. Qed.

(** ** The text of a time *)

Lemma last_pad k j n : (0 < k)%nat -> (k <= j + 1)%nat -> 0 <= n < 10 ^ Z.of_nat k ->
  last_digits (Z.of_nat k) (repeat 48 j ++ Z_to_str n) = pad k n.
Proof.
  intros Hk Hj Hn. pose proof (length_Z_to_str n k Hn Hk) as Hl. pose proof (Z_to_str_nonempty n ltac:(lia)) as Hne.
  assert (1 <= length (Z_to_str n))%nat by (destruct (Z_to_str n); [done|cbn; lia]).
  unfold last_digits, slice_from, slice_list, rel_index. cbv zeta. set (s := repeat 48 j ++ Z_to_str n).
  assert (Hs : length s = (j + length (Z_to_str n))%nat) by (unfold s; by rewrite length_app, repeat_length).
  rewrite (proj2 (Z.ltb_lt (- Z.of_nat k) 0)) by lia. rewrite (proj2 (Z.ltb_ge (Z.of_nat (length s)) 0)) by lia.
  rewrite Z.max_l, Z.min_l by lia. rewrite take_ge by (rewrite length_drop; lia).
  replace (Z.to_nat (Z.of_nat (length s) + - Z.of_nat k)) with (j - (k - length (Z_to_str n)))%nat by lia. unfold s, pad.
  rewrite drop_app_le by (rewrite repeat_length; lia). f_equal.
  replace j with ((j - (k - length (Z_to_str n))) + (k - length (Z_to_str n)))%nat at 2 by lia. rewrite repeat_app.
  by rewrite drop_app_length' by (by rewrite repeat_length).
Qed.

(** The parts a text is made of. *)
Definition text_of (Y M D h mi s ms : jsstr) : jsstr :=
  Y ++ js "-" ++ M ++ js "-" ++ D ++ js "T" ++ h ++ js ":" ++ mi ++ js ":" ++ s ++ js "." ++ ms ++ js "Z".
Definition year_text (y : Z) : jsstr :=
  if (0 <=? y) && (y <=? 9999) then pad 4 y else (if y <? 0 then js "-" else js "+") ++ pad 6 (Z.abs y).
Lemma iso_year_text y : -999999 <= y <= 999999 -> iso_year y = year_text y.
Proof.
  intros Hy. unfold iso_year, year_text. change (js "00000") with (repeat 48 5).
  destruct (Z.ltb_spec y 0), (Z.leb_spec 0 y), (Z.leb_spec y 9999), (Z.ltb_spec 9999 y); try lia; cbn [andb app].
  - f_equal. apply (last_pad 6); lia.
  - rewrite Z.abs_eq by lia. apply (last_pad 4); lia.
  - f_equal. apply (last_pad 6); lia.
Qed.
Lemma two_digits n : 0 <= n < 100 -> last_digits 2 (js "00" ++ Z_to_str n) = pad 2 n.
Proof. intros Hn. apply (last_pad 2 2); lia. Qed.
Lemma date_part a b c d e : join (js "-") (slice_list [a; b; c; d; e] 0 2) = a ++ js "-" ++ b.
Proof. reflexivity. Qed.
Lemma time_part a b c d e : join (js ":") (slice_from [a; b; c; d; e] 2) = c ++ js ":" ++ d ++ js ":" ++ e.
Proof. reflexivity. Qed.
Definition usual (f : fields) : Prop :=
  -999999 <= f_year f <= 999999 /\ 0 <= f_month f <= 11 /\ 1 <= f_date f <= 32 /\ 0 <= f_hours f < 24 /\ 0 <= f_minutes f < 60 /\
  0 <= f_seconds f < 60 /\ 0 <= f_millis f < 1000.
Lemma iso_text_parts f : usual f ->
  iso_text f = text_of (year_text (f_year f)) (pad 2 (f_month f + 1)) (pad 2 (f_date f)) (pad 2 (f_hours f)) (pad 2 (f_minutes f))
    (pad 2 (f_seconds f)) (pad 3 (f_millis f)).
Proof.
  intros (Hy & Hm & Hd & Hh & Hmi & Hs & Hms). unfold iso_text. rewrite (Z.div_small (f_month f)), Z.add_0_r by lia.
  rewrite (Z.rem_small (f_month f)) by lia. replace (Z.rem (f_month f + 12) 12) with (f_month f).
  2: { rewrite Z.rem_mod_nonneg by lia. rewrite <- (Z.mul_1_l 12) at 1. rewrite Z.mod_add, Z.mod_small by lia. done. }
  rewrite iso_year_text by done. cbn [fmap list_fmap]. rewrite !two_digits by lia.
  replace (last_digits 3 (js "000" ++ Z_to_str (f_millis f))) with (pad 3 (f_millis f)) by (symmetry; apply (last_pad 3 3); lia).
  rewrite date_part, time_part. unfold text_of. by rewrite <- !app_assoc.
Qed.

Lemma utc_usual t : Z.abs t <= 8640000000000000 -> usual (utc_fields t).
Proof.
  intros Ht. unfold usual, utc_fields. cbn [f_year f_month f_date f_hours f_minutes f_seconds f_millis].
  set (d := t / 86400000). assert (Hd : -100000000 <= d <= 100000000) by (unfold d; Z.div_mod_to_equations; lia).
  pose proof (Z.mod_pos_bound t 86400000 ltac:(lia)) as Hms. pose proof (year_of_day_spec d) as Hy.
  pose proof (year_length (year_of_day d)) as Hl. set (y := year_of_day d) in *.
  destruct (month_of_spec (is_leap y) (d - day_from_year y)) as [Hm Hd']; [lia|]. cbn zeta in *.
  split; [unfold day_from_year in Hy; Z.div_mod_to_equations; lia|]. split; [done|]. split; [lia|].
  repeat split; Z.div_mod_to_equations; lia.
Qed.

(** ** Reading it *)

Lemma finds_digits {R} d : is_digits d -> forall n g c (k : jsstr -> caps -> option R) Q, length d = n ->
  finds (k g c) Q -> finds (cmatch (cdigits n) (d ++ g) c k) Q.
Proof.
  induction 1 as [|x d Hx _ IH]; intros n g c k Q Hn Hk; cbn in Hn; subst n; [done|].
  unfold cdigits. cbn [repeat cseqs foldr]. unfold cdigit at 1. cbn [cmatch app]. rewrite Hx. by apply IH.
Qed.
Lemma finds_group2 {R} i d g c (k : jsstr -> caps -> option R) Q : is_digits d -> length d = 2%nat ->
  finds (k g ((i, d) :: c)) Q -> finds (cmatch (group2 i) (d ++ g) c k) Q.
Proof. intros Hd Hl Hk. apply finds_group, finds_digits; [done..|]. by rewrite take_before. Qed.
Lemma finds_text {R} l s c (k : jsstr -> caps -> option R) Q : finds (k s c) Q -> finds (cmatch (CLit l) (l ++ s) c k) Q.
Proof. by rewrite lit_skip. Qed.

Lemma finds_last {R} l c (k : jsstr -> caps -> option R) Q : finds (k [] c) Q -> finds (cmatch (CLit l) l c k) Q.
Proof. intros Hk. rewrite <- (app_nil_r l) at 2. by apply finds_text. Qed.
Definition year_ok (Y : jsstr) : Prop :=
  (is_digits Y /\ length Y = 4%nat) \/ exists u d, Y = u :: d /\ sign_class u = true /\ is_digits d /\ length d = 6%nat.
Lemma sign_not_digit u : sign_class u = true -> isDecCode u = false.
Proof. unfold sign_class. intros [E|E]%orb_true_iff; by apply Z.eqb_eq in E as ->. Qed.
Lemma finds_year {R} Y g c (k : jsstr -> caps -> option R) Q : year_ok Y -> finds (k g ((1%nat, Y) :: c)) Q -> finds (cmatch year_re (Y ++ g) c k) Q.
Proof.
  intros [[Hd Hl]|(u & d & -> & Hu & Hd & Hl)] Hk; apply finds_group.
  - apply finds_alt, finds_digits; [done..|]. by rewrite take_before.
  - destruct (finds_digits d Hd 6 g c (fun s' c' => k s' ((1%nat, take (length ((u :: d) ++ g) - length s') ((u :: d) ++ g)) :: c')) Q Hl)
      as (x & Hx & HQ); [by rewrite take_before|]. exists x. split; [|done]. cbn [cmatch app]. rewrite Hu.
    change (cmatch (cdigits 4) (u :: d ++ g) c ?k) with (if isDecCode u then cmatch (cdigits 3) (d ++ g) c k else None).
    rewrite sign_not_digit by done. exact Hx.
Qed.

#[local] Ltac lengths := rewrite ?length_app;
  repeat match goal with |- context [length (js ?s)] => let v := eval vm_compute in (length (js s)) in change (length (js s)) with v end;
  cbn [length]; lia.
#[local] Ltac longer := rewrite bool_decide_eq_false_2 by lengths.
Lemma exec_text Y M D h mi s ms : year_ok Y -> is_digits M -> length M = 2%nat -> is_digits D -> length D = 2%nat ->
  is_digits h -> length h = 2%nat -> is_digits mi -> length mi = 2%nat -> is_digits s -> length s = 2%nat -> is_digits ms -> ms <> [] ->
  exec_iso (text_of Y M D h mi s ms) =
    Some [(8%nat, js "Z"); (7%nat, js "." ++ ms); (6%nat, s); (5%nat, mi); (4%nat, h); (3%nat, D); (2%nat, M); (1%nat, Y)].
Proof.
  intros HY HM lM HD lD Hh lh Hmi lmi Hs ls Hms Hne.
  match goal with |- exec_iso ?t = Some ?x => assert (H : finds (exec_iso t) (fun y => y = x)) end;
    [|by destruct H as (y & -> & ->)].
  unfold exec_iso, isoDateExpression, text_of.
  apply finds_seq, finds_year; [done|]. apply finds_opt, finds_seq, finds_text, finds_seq, finds_group2; [done..|].
  apply finds_opt, finds_seq, finds_text, finds_seq, finds_group2; [done..|]. apply finds_opt.
  apply finds_seq, finds_text, finds_seq, finds_group2; [done..|]. apply finds_seq, finds_text, finds_seq, finds_group2; [done..|].
  apply finds_seq, finds_opt, finds_seq, finds_text, finds_seq, finds_group2; [done..|].
  apply finds_opt, finds_group, finds_seq, finds_text. apply finds_plus; [done|exact Hms|done|].
  rewrite (app_assoc (js ".")), take_before. longer. longer.
  apply finds_opt, finds_group, finds_alt. apply finds_last.
  do 4 longer. exists [(8%nat, js "Z"); (7%nat, js "." ++ ms); (6%nat, s); (5%nat, mi); (4%nat, h); (3%nat, D); (2%nat, M); (1%nat, Y)].
  split; [|done]. done.
Qed.

Lemma pad_digits w n : (0 < w)%nat -> 0 <= n < 10 ^ Z.of_nat w -> is_digits (pad w n) /\ pad w n <> [].
Proof. intros Hw Hn. destruct (pad_spec w n Hw Hn) as (Hd & Hl & _). split; [done|]. intros E. rewrite E in Hl. cbn in Hl. lia. Qed.
Lemma number_or_pad d w n : (0 < w)%nat -> 0 <= n < 10 ^ Z.of_nat w -> number_or d (Some (pad w n)) = n.
Proof.
  intros Hw Hn. destruct (pad_spec w n Hw Hn) as (_ & Hl & Hv). unfold number_or.
  destruct (pad w n) as [|c s] eqn:E; [cbn in Hl; lia|]. done.
Qed.
Lemma year_text_ok y : -999999 <= y <= 999999 -> year_ok (year_text y) /\ signed_number (year_text y) = y.
Proof.
  intros Hy. unfold year_text. destruct ((0 <=? y) && (y <=? 9999)) eqn:E.
  - apply andb_true_iff in E as [E1 E2]. destruct (pad_spec 4 y) as (Hd & Hl & Hv); [lia|lia|]. split; [by left|].
    unfold signed_number. destruct (pad 4 y) as [|c s]; [done|]. apply Forall_cons in Hd as [Hc Hd].
    destruct (Z.eqb_spec c (chr "-")) as [->|_]; [done|]. destruct (Z.eqb_spec c (chr "+")) as [->|_]; [done|]. done.
  - destruct (pad_spec 6 (Z.abs y)) as (Hd & Hl & Hv); [lia|lia|]. destruct (Z.ltb_spec y 0).
    + split; [right; by eexists _, _|]. change (signed_number (js "-" ++ pad 6 (Z.abs y))) with (- number (pad 6 (Z.abs y))). lia.
    + split; [right; by eexists _, _|]. change (signed_number (js "+" ++ pad 6 (Z.abs y))) with (number (pad 6 (Z.abs y))). lia.
Qed.
Lemma millisecond_pad n : 0 <= n < 1000 -> millisecond_of (Some (js "." ++ pad 3 n)) = n.
Proof. intros Hn. by_range_check (fun n => bool_decide (millisecond_of (Some (js "." ++ pad 3 n)) = n)) (0) 1000. Qed.

(** ** The calendar *)

Lemma leap_days y : is_leap y = true /\ day_from_year (y + 1) - day_from_year y = 366 \/ is_leap y = false /\ day_from_year (y + 1) - day_from_year y = 365.
Proof. pose proof (year_length y). unfold is_leap. destruct (Z.eqb_spec (day_from_year (y + 1) - day_from_year y) 366); [by left|right; lia]. Qed.
Lemma dayFromMonth_start y m : 0 <= m <= 11 -> dayFromMonth y m = day_from_year y + month_start m (is_leap y).
Proof.
  intros Hm. assert (Hn : List.nth (Z.to_nat m) months 0 = List.nth (Z.to_nat m) [0; 31; 59; 90; 120; 151; 181; 212; 243; 273; 304; 334] 0).
  { by_range_check (fun m => bool_decide (List.nth (Z.to_nat m) months 0 = List.nth (Z.to_nat m) [0; 31; 59; 90; 120; 151; 181; 212; 243; 273; 304; 334] 0)) (0) 12. }
  unfold dayFromMonth, month_start. rewrite Hn. set (n := List.nth _ _ _). pose proof (leap_days y) as Hl. unfold day_from_year in *.
  destruct (Z.ltb_spec 1 m).
  - rewrite (proj2 (Z.leb_le 2 m)) by lia. rewrite andb_true_r.
    replace (y - 1969 + 1) with (y + 1 - 1969) by lia. replace (y - 1901 + 1) with (y + 1 - 1901) by lia. replace (y - 1601 + 1) with (y + 1 - 1601) by lia.
    destruct Hl as [[-> Hl]|[-> Hl]]; lia.
  - rewrite (proj2 (Z.leb_gt 2 m)) by lia. rewrite andb_false_r. rewrite !Z.add_0_r. lia.
Qed.
Lemma dayFromMonth_12 y : dayFromMonth y 12 = day_from_year (y + 1).
Proof.
  unfold dayFromMonth, day_from_year. cbn [Z.ltb Z.compare Pos.compare Pos.compare_cont]. change (List.nth (Z.to_nat 12) months 0) with 365.
  change (if true then 1 else 0) with 1.
  replace (y - 1969 + 1) with (y + 1 - 1969) by lia. replace (y - 1901 + 1) with (y + 1 - 1901) by lia. replace (y - 1601 + 1) with (y + 1 - 1601) by lia. lia.
Qed.
Lemma month_end leap doy : 0 <= doy < 366 -> let m := month_of 12 0 doy leap in m < 11 -> doy < month_start (m + 1) leap.
Proof.
  intros H m Hm. subst m. revert Hm. assert (E : (month_of 12 0 doy leap <? 11) && (month_start (month_of 12 0 doy leap + 1) leap <=? doy) = false); [|intros Hm; rewrite (proj2 (Z.ltb_lt _ _)) in E by done; cbn in E; by apply Z.leb_gt in E].
  destruct leap.
  - by_range_check (fun doy => bool_decide ((month_of 12 0 doy true <? 11) && (month_start (month_of 12 0 doy true + 1) true <=? doy) = false)) (0) 366.
  - by_range_check (fun doy => bool_decide ((month_of 12 0 doy false <? 11) && (month_start (month_of 12 0 doy false + 1) false <=? doy) = false)) (0) 366.
Qed.
Lemma fields_day t : let f := utc_fields t in
  dayFromMonth (f_year f) (f_month f) + (f_date f - 1) = t / 86400000 /\
  f_date f - 1 < dayFromMonth (f_year f) (f_month f + 1) - dayFromMonth (f_year f) (f_month f).
Proof.
  cbn zeta. unfold utc_fields. cbn [f_year f_month f_date]. set (d := t / 86400000). pose proof (year_of_day_spec d) as Hy.
  set (y := year_of_day d) in *. pose proof (year_length y). pose proof (leap_days y) as Hleap. set (doy := d - day_from_year y) in *.
  destruct (month_of_spec (is_leap y) doy) as [Hm Hd']; [lia|]. pose proof (month_end (is_leap y) doy ltac:(lia)) as He. cbn zeta in *.
  set (m := month_of 12 0 doy (is_leap y)) in *. rewrite dayFromMonth_start by lia. split; [lia|].
  destruct (decide (m = 11)) as [E|Hn].
  - rewrite E. change (11 + 1) with 12. rewrite dayFromMonth_12. lia.
  - rewrite dayFromMonth_start by lia. specialize (He ltac:(lia)). lia.
Qed.
Lemma fields_time t : let f := utc_fields t in
  ((f_hours f * 60 + f_minutes f) * 60 + f_seconds f) * 1000 + f_millis f = t mod 86400000.
Proof. cbn zeta. unfold utc_fields. cbn [f_hours f_minutes f_seconds f_millis]. pose proof (Z.mod_pos_bound t 86400000). Z.div_mod_to_equations; lia. Qed.

(** C15. A time that a date can have is read as it was written: for every
    millisecond from the year -271821 to 275760, [Date.parse] of its
    [toISOString] is the time again. *)
Theorem iso_roundtrip bug native_date native_parse t : Z.abs t <= 8640000000000000 ->
  exists s, toISOString (Some t) = Ok s /\ parse bug native_date native_parse s = Some t.
Proof.
  intros Ht. pose proof (utc_usual t Ht) as Hu. eexists. split; [reflexivity|]. rewrite iso_text_parts by done.
  destruct Hu as (Hy & Hm & Hd & Hh & Hmi & Hs & Hms). pose proof (fields_day t) as [Eday Hday]. pose proof (fields_time t) as Etime.
  set (f := utc_fields t) in *. cbn zeta in *. destruct (year_text_ok (f_year f) Hy) as [Yok Yv].
  unfold parse. rewrite exec_text; [|done|apply pad_spec; lia..|apply (pad_digits 3); lia].
  cbn [part Nat.eqb default from_option id]. unfold id.
  rewrite Yv, !number_or_pad by lia. rewrite millisecond_pad by done. cbn [number_or]. replace (f_month f + 1 - 1) with (f_month f) by lia.
  rewrite (bool_decide_eq_false_2 (@None jsstr = Some (js "-"))) by done. rewrite (bool_decide_eq_false_2 (Some (js "Z") = None)) by done. rewrite andb_false_r. cbn [andb].
  rewrite (proj2 (Z.ltb_lt (f_hours f) _)) by (destruct (_ || _); lia).
  rewrite !(proj2 (Z.ltb_lt _ _)) by lia. cbn [andb Z.ltb Z.compare mbind option_bind]. rewrite !Z.mul_0_l, !Z.add_0_r.
  assert (E : ((((dayFromMonth (f_year f) (f_month f) + (f_date f - 1)) * 24 + f_hours f) * 60 + f_minutes f) * 60 + f_seconds f) * 1000 + f_millis f = t).
  { rewrite Eday. pose proof (Z.div_mod t 86400000 ltac:(lia)). lia. }
  rewrite E. rewrite !(proj2 (Z.leb_le _ _)) by lia. done.
Qed.
Lemma iso_roundtrip_witness : exists s, toISOString (Some (-62198755200001)) = Ok s /\
  parse false (fun _ => None) (fun _ => None) s = Some (-62198755200001).
Proof. apply iso_roundtrip. lia. Defined.
