(* ===== verification/ShimArray.v ===== *)
(** * Arrays

    The Array methods of es5-shim inside swagger-ui.js, on any object with a
    length and elements at some of its indices (a hole is an index without
    one).  A method that calls a function reads the length once and the
    elements as they are when it comes to them: the function may change the
    object.  Texts as arrays of their characters, and the length of the array
    that an assignment beyond its end changes (every method here sets it at the
    end), are not modelled; a start that is not finite neither. *)

From stdpp Require Import gmap.
From S2P Require Import Prelude JsNumber.

Record array (A : Type) := Arr { len : Z; elems : gmap Z A }.
Arguments Arr {A}. Arguments len {A}. Arguments elems {A}.

Definition set_at {A} (i : Z) (x : A) (O : array A) : array A := Arr (len O) (<[i := x]> (elems O)).
Definition delete_at {A} (i : Z) (O : array A) : array A := Arr (len O) (delete i (elems O)).
Definition set_len {A} (n : Z) (O : array A) : array A := Arr n (elems O).
Definition length_of {A} (O : array A) : Z := to_uint32 (len O).

(** ** Methods that call a function *)

Section calls.
Context {A B W : Type}.
Abbreviation state := (array A * W)%type.
Definition self_at (i : Z) : ST state (option A) := gets (fun s => elems s.1 !! i).

(** [for (i = 0; i < length; i++) if (i in self) ...]. *)
Definition visit (callbackfn : A -> Z -> ST state unit) (i : Z) : ST state unit :=
  v ← self_at i; match v with Some x => callbackfn x i | None => mret tt end.
Definition forEach (callbackfn : A -> Z -> ST state unit) : ST state unit :=
  n ← gets (fun s => length_of s.1); iterM (visit callbackfn) (seqZ 0 n).

Fixpoint map_loop (callbackfn : A -> Z -> ST state B) (is_ : list Z) (result : array B) : ST state (array B) :=
  match is_ with
  | [] => mret result
  | i :: is_ =>
      v ← self_at i;
      match v with
      | Some x => y ← callbackfn x i; map_loop callbackfn is_ (set_at i y result)
      | None => map_loop callbackfn is_ result
      end
  end.
Definition map (callbackfn : A -> Z -> ST state B) : ST state (array B) :=
  n ← gets (fun s => length_of s.1); map_loop callbackfn (seqZ 0 n) (Arr n ∅).

Fixpoint filter_loop (callbackfn : A -> Z -> ST state bool) (is_ : list Z) (result : list A) : ST state (list A) :=
  match is_ with
  | [] => mret result
  | i :: is_ =>
      v ← self_at i;
      match v with
      | Some x => b ← callbackfn x i; filter_loop callbackfn is_ (if b : bool then result ++ [x] else result)
      | None => filter_loop callbackfn is_ result
      end
  end.
Definition filter (callbackfn : A -> Z -> ST state bool) : ST state (list A) :=
  n ← gets (fun s => length_of s.1); filter_loop callbackfn (seqZ 0 n) [].

(** [stop]: the result that ends the loop. *)
Fixpoint test_loop (stop : bool) (callbackfn : A -> Z -> ST state bool) (is_ : list Z) : ST state bool :=
  match is_ with
  | [] => mret (negb stop)
  | i :: is_ =>
      v ← self_at i;
      match v with
      | Some x => b ← callbackfn x i; if Bool.eqb b stop then mret stop else test_loop stop callbackfn is_
      | None => test_loop stop callbackfn is_
      end
  end.
Definition every (callbackfn : A -> Z -> ST state bool) : ST state bool :=
  n ← gets (fun s => length_of s.1); test_loop false callbackfn (seqZ 0 n).
Definition some (callbackfn : A -> Z -> ST state bool) : ST state bool :=
  n ← gets (fun s => length_of s.1); test_loop true callbackfn (seqZ 0 n).

(** [reduce] and [reduceRight]: the indices upwards, and downwards. *)
Fixpoint fold_loop (callbackfn : A -> A -> Z -> ST state A) (is_ : list Z) (result : A) : ST state A :=
  match is_ with
  | [] => mret result
  | i :: is_ =>
      v ← self_at i;
      match v with
      | Some x => result ← callbackfn result x i; fold_loop callbackfn is_ result
      | None => fold_loop callbackfn is_ result
      end
  end.
(** The first element there is. *)
Fixpoint first_value (is_ : list Z) : ST state (A * list Z) :=
  match is_ with
  | [] => lift (Throw TypeError)
  | i :: is_ => v ← self_at i; match v with Some x => mret (x, is_) | None => first_value is_ end
  end.
Definition reduce_over (is_ : list Z) (callbackfn : A -> A -> Z -> ST state A) (initial : option A) : ST state A :=
  match initial with
  | Some result => fold_loop callbackfn is_ result
  | None => '(result, is_) ← first_value is_; fold_loop callbackfn is_ result
  end.
Definition reduce (callbackfn : A -> A -> Z -> ST state A) (initial : option A) : ST state A :=
  n ← gets (fun s => length_of s.1); reduce_over (seqZ 0 n) callbackfn initial.
Definition reduceRight (callbackfn : A -> A -> Z -> ST state A) (initial : option A) : ST state A :=
  n ← gets (fun s => length_of s.1); reduce_over (rev (seqZ 0 n)) callbackfn initial.
End calls.

(** ** Searching *)

Section search.
Context {A : Type} (same : A -> A -> bool).

(** The first of the indices whose element is [===]. *)
Fixpoint search (O : array A) (x : A) (is_ : list Z) : Z :=
  match is_ with
  | [] => -1
  | i :: is_ => if match elems O !! i with Some y => same y x | None => false end then i else search O x is_
  end.
Definition indexOf (O : array A) (searchElement : A) (fromIndex : option Z) : Z :=
  let n := length_of O in
  if n =? 0 then -1
  else
    let i := default 0 fromIndex in
    let i := if 0 <=? i then i else Z.max 0 (n + i) in
    search O searchElement (seqZ i (n - i)).
Definition lastIndexOf (O : array A) (searchElement : A) (fromIndex : option Z) : Z :=
  let n := length_of O in
  if n =? 0 then -1
  else
    let i := match fromIndex with Some f => Z.min (n - 1) f | None => n - 1 end in
    let i := if 0 <=? i then i else n - Z.abs i in
    search O searchElement (rev (seqZ 0 (i + 1))).
End search.

(** ** Changing *)

Section change.
Context {A : Type}.

(** [if (owns(O, from)) O[to] = O[from]; else delete O[to];] *)
Definition move (from to : Z) (O : array A) : array A :=
  match elems O !! from with Some x => set_at to x O | None => delete_at to O end.
Fixpoint put_items (k : Z) (items : list A) (O : array A) : array A :=
  match items with [] => O | x :: items => put_items (k + 1) items (set_at k x O) end.

(** The elements from [start] on that are removed. *)
Definition removed (O : array A) (start count : Z) : array A :=
  foldl (fun R k => match elems O !! (start + k) with
                    | Some x => set_len (Z.max (len R) (k + 1)) (set_at k x R)
                    | None => R
                    end) (Arr 0 ∅) (seqZ 0 count).
(** Closing the gap, and making room. *)
Definition close_gap (len start deleteCount itemCount : Z) (O : array A) : array A :=
  let maxK := len - deleteCount in
  let minK := len - deleteCount + itemCount in
  let O := foldl (fun O k => move (k + deleteCount) (k + itemCount) O) O (seqZ start (maxK - start)) in
  foldl (fun O k => delete_at (k - 1) O) O (rev (seqZ (minK + 1) (len - minK))).
Definition make_room (len start deleteCount itemCount : Z) (O : array A) : array A :=
  foldl (fun O k => move (k + deleteCount - 1) (k + itemCount - 1) O) O
    (rev (seqZ (start + 1) (len - deleteCount - start))).

Definition actual_start (n relativeStart : Z) : Z := if relativeStart <? 0 then Z.max (n + relativeStart) 0 else Z.min relativeStart n.
Definition actual_count (n start deleteCount : Z) : Z := Z.min (Z.max deleteCount 0) (n - start).
(** [splice(start, deleteCount, ...items)]; an argument that is missing is 0. *)
Definition splice (start deleteCount : option Z) (items : list A) (O : array A) : array A * array A :=
  let n := length_of O in
  let actualStart := actual_start n (default 0 start) in
  let actualDeleteCount := actual_count n actualStart (default 0 deleteCount) in
  let R := removed O actualStart actualDeleteCount in
  let itemCount := Z.of_nat (length items) in
  let O :=
    if itemCount <? actualDeleteCount then close_gap n actualStart actualDeleteCount itemCount O
    else if actualDeleteCount <? itemCount then make_room n actualStart actualDeleteCount itemCount O
    else O in
  (set_len (n - actualDeleteCount + itemCount) (put_items actualStart items O), R).

(** The shim of [splice] around the native one: the arguments it is given. *)
Definition splice_arguments (n : Z) (start : Z) (deleteCount : option Z) : Z * Z :=
  match deleteCount with None => (start, n - start) | Some d => (start, d) end.

Definition push (items : list A) (O : array A) : array A * Z :=
  let n := length_of O in
  let i := Z.of_nat (length items) in
  (set_len (n + i) (put_items n items O), n + i).
End change.

(** An array without holes. *)
Definition of_list {A} (l : list A) : array A := Arr (Z.of_nat (length l)) (list_to_map (imap (fun i x => (Z.of_nat i, x)) l)).
(** One argument: nothing is removed here; the other shim of [splice] removes
    the rest. *)
Example splice_rest :
  (splice (Some 1) None [] (of_list [5; 6; 7])).1 = of_list [5; 6; 7] /\ splice_arguments 3 1 None = (1, 2).
Proof. done. Qed.

(** ** What [splice] does *)

(** The elements in order, [None] for a hole. *)
Definition view {A} (O : array A) : list (option A) := (fun i => elems O !! i) <$> seqZ 0 (len O).
Definition wf {A} (O : array A) : Prop := 0 <= len O < 2 ^ 32 /\ forall i, is_Some (elems O !! i) -> 0 <= i < len O.

Section splice.
Context {A : Type}.
Implicit Types O : array A.

Lemma length_of_wf O : wf O -> length_of O = len O.
Proof. intros [H _]. by apply to_uint32_id. Qed.
Lemma view_lookup O i : view O !! i = if decide (Z.of_nat i < len O) then Some (elems O !! Z.of_nat i) else None.
Proof.
  unfold view. rewrite list_lookup_fmap. destruct (decide (Z.of_nat i < len O)).
  - rewrite lookup_seqZ_lt by lia. cbn [fmap option_fmap option_map]. by rewrite Z.add_0_l.
  - by rewrite lookup_seqZ_ge by lia.
Qed.
Lemma length_view O : 0 <= len O -> length (view O) = Z.to_nat (len O).
Proof. intros H. unfold view. by rewrite length_fmap, length_seqZ. Qed.

Lemma move_lookup from to O j : elems (move from to O) !! j = if decide (j = to) then elems O !! from else elems O !! j.
Proof.
  unfold move. destruct (decide (j = to)) as [->|Hn]; destruct (elems O !! from) eqn:E; cbn [elems set_at delete_at].
  - apply lookup_insert_eq.
  - apply lookup_delete_eq.
  - by apply lookup_insert_ne.
  - by apply lookup_delete_ne.
Qed.
Lemma move_len from to O : len (move from to O) = len O.
Proof. unfold move. by destruct (elems O !! from). Qed.

Lemma close_moves start d c n O j : c < d ->
  elems (foldl (fun O k => move (k + d) (k + c) O) O (seqZ start (Z.of_nat n))) !! j =
    if decide (start + c <= j < start + c + Z.of_nat n) then elems O !! (j + d - c) else elems O !! j.
Proof.
  intros Hc. revert j. induction n as [|n IH]; intros j; [cbn; destruct (decide _); [lia|done]|].
  rewrite Nat2Z.inj_succ, <- Z.add_1_r, seqZ_app by lia. rewrite foldl_app. cbn [foldl seqZ seq Z.to_nat fmap list_fmap].
  change (seqZ (start + Z.of_nat n) 1) with [0 + (start + Z.of_nat n)]. cbn [foldl]. rewrite move_lookup, !IH.
  repeat destruct (decide _); try lia; try done; f_equal; lia.
Qed.
Lemma fold_deletes n l O j : elems (foldl (fun O k => delete_at (k - 1) O) O (rev (seqZ l (Z.of_nat n)))) !! j =
  if decide (l - 1 <= j < l - 1 + Z.of_nat n) then None else elems O !! j.
Proof.
  revert O. induction n as [|n IH]; intros O; [cbn; destruct (decide _); [lia|done]|].
  rewrite Nat2Z.inj_succ, <- Z.add_1_r, seqZ_app, rev_app_distr by lia.
  change (seqZ (l + Z.of_nat n) 1) with [0 + (l + Z.of_nat n)]. cbn [rev app foldl]. rewrite IH. cbn [delete_at elems].
  destruct (decide (j = l + Z.of_nat n - 1)) as [->|Hn].
  - rewrite Z.add_0_l, lookup_delete_eq. repeat destruct (decide _); done || lia.
  - rewrite lookup_delete_ne by lia. repeat destruct (decide _); lia || done.
Qed.
Lemma room_moves start d c n O j : d < c ->
  elems (foldl (fun O k => move (k + d - 1) (k + c - 1) O) O (rev (seqZ (start + 1) (Z.of_nat n)))) !! j =
    if decide (start + c <= j < start + c + Z.of_nat n) then elems O !! (j + d - c) else elems O !! j.
Proof.
  intros Hc. revert O. induction n as [|n IH]; intros O; [cbn; destruct (decide _); [lia|done]|].
  rewrite Nat2Z.inj_succ, <- Z.add_1_r, seqZ_app, rev_app_distr by lia.
  change (seqZ (start + 1 + Z.of_nat n) 1) with [0 + (start + 1 + Z.of_nat n)]. cbn [rev app foldl]. rewrite IH, !move_lookup.
  repeat destruct (decide _); try lia; try done; f_equal; lia.
Qed.
Lemma put_items_lookup items : forall k O j,
  elems (put_items k items O) !! j =
    if decide (k <= j < k + Z.of_nat (length items)) then items !! Z.to_nat (j - k) else elems O !! j.
Proof.
  induction items as [|x items IH]; intros k O j; cbn [put_items length]; [destruct (decide _); [lia|done]|].
  rewrite IH. cbn [set_at elems]. destruct (decide (j = k)) as [->|Hn].
  - rewrite lookup_insert_eq. repeat destruct (decide _); try lia. by rewrite Z.sub_diag.
  - rewrite lookup_insert_ne by done. repeat destruct (decide _); try lia; [|done].
    replace (Z.to_nat (j - k)) with (S (Z.to_nat (j - (k + 1)))) by lia. done.
Qed.
Lemma removed_lookup O start n j :
  elems (removed O start (Z.of_nat n)) !! j = if decide (0 <= j < Z.of_nat n) then elems O !! (start + j) else None.
Proof.
  unfold removed. induction n as [|n IH]; [cbn; destruct (decide _); [lia|apply lookup_empty]|].
  rewrite Nat2Z.inj_succ, <- Z.add_1_r, seqZ_app, foldl_app by lia.
  change (seqZ (0 + Z.of_nat n) 1) with [0 + (0 + Z.of_nat n)]. cbn [foldl]. rewrite !Z.add_0_l.
  destruct (elems O !! (start + Z.of_nat n)) as [x|] eqn:E; cbn [elems set_len set_at].
  - destruct (decide (j = Z.of_nat n)) as [->|Hn]; [rewrite lookup_insert_eq|rewrite lookup_insert_ne, IH by done];
      repeat destruct (decide _); try lia; done.
  - rewrite IH. repeat destruct (decide _); try lia; try done. by replace j with (Z.of_nat n) by lia.
Qed.

(** The clamped arguments. *)
Definition from_arg O (start : option Z) : Z := actual_start (len O) (default 0 start).
Definition count_arg O (start deleteCount : option Z) : Z := actual_count (len O) (from_arg O start) (default 0 deleteCount).
Lemma args_range O start deleteCount : 0 <= len O ->
  0 <= from_arg O start <= len O /\ 0 <= count_arg O start deleteCount <= len O - from_arg O start.
Proof. intros H. unfold count_arg, actual_count, from_arg, actual_start. destruct (Z.ltb_spec (default 0 start) 0); lia. Qed.

Lemma splice_lookup O start deleteCount items j : wf O ->
  let s := from_arg O start in let d := count_arg O start deleteCount in let c := Z.of_nat (length items) in
  elems (splice start deleteCount items O).1 !! j =
    if decide (j < s) then elems O !! j
    else if decide (j < s + c) then items !! Z.to_nat (j - s)
    else elems O !! (j + d - c).
Proof.
  intros Hw s d c. destruct (args_range O start deleteCount) as [Hs Hd]; [apply (proj1 Hw)|]. fold s d in Hs, Hd.
  assert (Hout : forall i, i < 0 \/ len O <= i -> elems O !! i = None).
  { intros i Hi. destruct (elems O !! i) eqn:E; [|done]. destruct Hw as [_ Hw]. specialize (Hw i ltac:(by rewrite E)). lia. }
  unfold splice. rewrite length_of_wf by done. cbn [fst set_len elems]. change (actual_start (len O) (default 0 start)) with s.
  change (actual_count (len O) s (default 0 deleteCount)) with d. fold c. rewrite put_items_lookup. fold c.
  destruct (decide (s <= j < s + c)) as [Hi|Hi].
  { repeat destruct (decide _); try lia. done. }
  destruct (Z.ltb_spec c d) as [H1|H1].
  - unfold close_gap. rewrite <- (Z2Nat.id (len O - (len O - d + c))) by lia. rewrite fold_deletes.
    rewrite <- (Z2Nat.id (len O - d - s)) by lia. rewrite close_moves by done. rewrite !Z2Nat.id by lia.
    repeat destruct (decide _); try lia; try done; try (symmetry; apply Hout; lia). rewrite !Hout by lia. done.
  - destruct (Z.ltb_spec d c) as [H2|H2].
    + unfold make_room. rewrite <- (Z2Nat.id (len O - d - s)) by lia. rewrite room_moves by done. rewrite !Z2Nat.id by lia.
      repeat destruct (decide _); try lia; try done. rewrite !Hout by lia. done.
    + assert (d = c) as -> by lia. repeat destruct (decide _); try lia; try done. f_equal. lia.
Qed.
Lemma splice_len O start deleteCount items : wf O ->
  len (splice start deleteCount items O).1 = len O - count_arg O start deleteCount + Z.of_nat (length items).
Proof. intros Hw. unfold splice. by rewrite length_of_wf. Qed.

(** C16. [splice] of any array, with holes or without, is what it is on lists:
    the elements from [start] on are taken out and returned at the same
    distance from it, the items are in their place, and what was behind is
    moved. *)
Theorem splice_lists O start deleteCount items : wf O ->
  let s := Z.to_nat (from_arg O start) in let d := Z.to_nat (count_arg O start deleteCount) in
  view (splice start deleteCount items O).1 = take s (view O) ++ (Some <$> items) ++ drop (s + d) (view O) /\
  (len O + Z.of_nat (length items) < 2 ^ 32 -> wf (splice start deleteCount items O).1) /\
  forall k, elems (splice start deleteCount items O).2 !! Z.of_nat k = default None (take d (drop s (view O)) !! k).
Proof.
  intros Hw s d. destruct (args_range O start deleteCount) as [Hs Hd]; [apply (proj1 Hw)|].
  assert (Hv : length (view O) = Z.to_nat (len O)) by (apply length_view, (proj1 Hw)). split; [|split].
  - apply list_eq. intros i. rewrite view_lookup, splice_len, splice_lookup by done. cbn zeta. rewrite !lookup_app, lookup_take, list_lookup_fmap, lookup_drop, !view_lookup, length_take, length_fmap, Hv.
    assert (Es : Z.of_nat s = from_arg O start) by (unfold s; lia). assert (Ed : Z.of_nat d = count_arg O start deleteCount) by (unfold d; lia).
    rewrite <- Es, <- Ed in *. rewrite Nat.min_l by lia. destruct (decide (i < s)%nat) as [Hi|Hi].
    + repeat destruct (decide _); try lia; done.
    + rewrite (decide_False _ _ (P := Z.of_nat i < Z.of_nat s)) by lia. replace (Z.to_nat (Z.of_nat i - Z.of_nat s)) with (i - s)%nat by lia.
      destruct (decide (Z.of_nat i < Z.of_nat s + Z.of_nat (length items))) as [H1|H1].
      * destruct (items !! (i - s)%nat) as [x|] eqn:E; [|apply lookup_ge_None in E; lia]. cbn [fmap option_fmap option_map].
        repeat destruct (decide _); try lia. done.
      * rewrite (proj2 (lookup_ge_None items (i - s)%nat)) by lia. cbn [fmap option_fmap option_map].
        replace (s + d + (i - s - length items))%nat with (i + d - length items)%nat by lia.
        repeat destruct (decide _); try lia; try done. do 2 f_equal. lia.
  - intros Hsmall. split; [rewrite splice_len by done; destruct Hw; lia|]. intros i Hi. rewrite splice_len by done. rewrite splice_lookup in Hi by done. cbn zeta in Hi.
    destruct Hw as [Hl Hw]. repeat destruct (decide _); [apply Hw in Hi; lia| |apply Hw in Hi; lia].
    lia.
  - intros k. unfold splice. rewrite length_of_wf by done. cbn [snd]. change (actual_start (len O) (default 0 start)) with (from_arg O start).
    change (actual_count (len O) (from_arg O start) (default 0 deleteCount)) with (count_arg O start deleteCount).
    rewrite <- (Z2Nat.id (count_arg O start deleteCount)) by lia. rewrite removed_lookup. fold d. rewrite lookup_take, lookup_drop, view_lookup.
    assert (Es : Z.of_nat s = from_arg O start) by (unfold s; lia). repeat destruct (decide _); try lia; try done. cbn [default from_option id]. f_equal. lia.
Qed.
End splice.
Lemma splice_lists_witness :
  let O := Arr 5 (<[0 := 10]> (<[3 := 13]> (<[4 := 14]> ∅))) in
  view (splice (Some (-3)) (Some 2) [7; 8; 9] O).1 = [Some 10; None; Some 7; Some 8; Some 9; Some 14].
Proof.
  intros O. destruct (splice_lists O (Some (-3)) (Some 2) [7; 8; 9]) as [H _]; [|exact H]. split; [unfold O; cbn; lia|].
  intros i (x & Hi). unfold O in *. cbn [elems len] in *. repeat (apply lookup_insert_Some in Hi as [[<- _]|[_ Hi]]; [lia|]). by rewrite lookup_empty in Hi.
Defined.

(** ** What the others do *)

(** The elements there are. *)
Definition present {A} (O : array A) (is_ : list Z) : list A := omap (fun i => elems O !! i) is_.

Section pure.
Context {A W : Type} (O : array A) (w : W).

(** With a function that changes nothing these are the functions on lists, of
    the elements there are. *)
Lemma filter_loop_pure p is_ : forall result,
  filter_loop (fun x _ => mret (p x)) is_ result (O, w) = ((O, w), Ok (result ++ List.filter p (present O is_))).
Proof.
  induction is_ as [|i is_ IH]; intros result; [cbn; by rewrite app_nil_r|]. cbn [filter_loop present omap list_omap].
  unfold self_at, mbind, st_bind, gets. cbn [fst]. destruct (elems O !! i) as [x|]; [|apply IH].
  cbn. rewrite IH. destruct (p x); [by rewrite <- app_assoc|done].
Qed.
Theorem filter_pure p : filter (fun x _ => mret (p x)) (O, w) = ((O, w), Ok (List.filter p (present O (seqZ 0 (length_of O))))).
Proof. unfold filter, mbind, st_bind, gets. cbn [fst]. by rewrite filter_loop_pure. Qed.

Lemma fold_loop_pure f is_ : forall result,
  fold_loop (fun a x _ => mret (f a x)) is_ result (O, w) = ((O, w), Ok (foldl f result (present O is_))).
Proof.
  induction is_ as [|i is_ IH]; intros result; [done|]. cbn [fold_loop present omap list_omap].
  unfold self_at, mbind, st_bind, gets. cbn [fst]. destruct (elems O !! i) as [x|]; [|apply IH]. cbn. by rewrite IH.
Qed.
Lemma reduce_over_pure f is_ initial : reduce_over is_ (fun a x _ => mret (f a x)) initial (O, w) = ((O, w),
  match initial, present O is_ with
  | Some r, l => Ok (foldl f r l)
  | None, x :: l => Ok (foldl f x l)
  | None, [] => Throw TypeError
  end).
Proof.
  destruct initial as [r|]; cbn [reduce_over]; [apply fold_loop_pure|].
  induction is_ as [|i is_ IH]; [done|]. cbn [first_value present omap list_omap].
  unfold self_at, mbind, st_bind, gets in *. cbn [fst] in *. destruct (elems O !! i) as [x|]; [cbn; apply fold_loop_pure|exact IH].
Qed.
(** Without a value to start from, the first element there is; of none, a
    TypeError. *)
Theorem reduceRight_pure f initial : reduceRight (fun a x _ => mret (f a x)) initial (O, w) = ((O, w),
  match initial, rev (present O (seqZ 0 (length_of O))) with
  | Some r, l => Ok (foldl f r l)
  | None, x :: l => Ok (foldl f x l)
  | None, [] => Throw TypeError
  end).
Proof.
  unfold reduceRight, mbind, st_bind, gets. cbn [fst]. rewrite reduce_over_pure. unfold present.
  assert (E : forall l, omap (fun i => elems O !! i) (rev l) = rev (omap (fun i => elems O !! i) l)); [|by rewrite E].
  induction l as [|i l IH]; [done|]. cbn [rev]. rewrite omap_app, IH. cbn. by destruct (elems O !! i); rewrite ?app_nil_r.
Qed.
End pure.

(** ** Searching *)

Section found.
Context {A : Type} (same : A -> A -> bool).
Definition matches (O : array A) (x : A) (i : Z) : Prop := exists y, elems O !! i = Some y /\ same y x = true.
Lemma search_first O x is_ :
  (search same O x is_ = -1 /\ forall i, i ∈ is_ -> ~ matches O x i) \/
  (exists l i r, is_ = l ++ i :: r /\ search same O x is_ = i /\ matches O x i /\ forall j, j ∈ l -> ~ matches O x j).
Proof.
  induction is_ as [|i is_ IH]; cbn [search]; [left; split; [done|]; by intros i ?%not_elem_of_nil|].
  destruct (match elems O !! i with Some y => same y x | None => false end) eqn:E.
  - right. exists [], i, is_. split; [done|]. split; [done|]. split; [|by intros j ?%not_elem_of_nil].
    destruct (elems O !! i) as [y|] eqn:E2; [by exists y|done].
  - assert (Hn : ~ matches O x i) by (intros (y & E2 & E3); by rewrite E2, E3 in E).
    destruct IH as [[-> H]|(l & k & r & -> & -> & Hk & H)]; [left; split; [done|]|right; exists (i :: l), k, r; split_and!; try done];
      intros j [->|Hj]%elem_of_cons; auto.
Qed.
Lemma elem_of_downwards {B} (j : B) l : j ∈ rev l <-> j ∈ l.
Proof. by rewrite !list_elem_of_In, <- in_rev. Qed.
Lemma seqZ_split a n l i r : seqZ a n = l ++ i :: r -> a <= i < a + n /\ (forall j, j ∈ l <-> a <= j < i) /\ forall j, j ∈ r <-> i < j < a + n.
Proof.
  intros E. assert (Hl : (seqZ a n) !! length l = Some i) by (rewrite E; apply list_lookup_middle; done).
  apply lookup_seqZ in Hl as [-> Hn]. split; [lia|].
  assert (El : l = seqZ a (Z.of_nat (length l))).
  { transitivity (take (length l) (seqZ a n)); [by rewrite E, take_app_length|].
    apply list_eq. intros k. destruct (decide (k < length l)%nat).
    - rewrite lookup_take_lt by lia. by rewrite !lookup_seqZ_lt by lia.
    - rewrite lookup_take_ge by lia. by rewrite lookup_seqZ_ge by lia. }
  split; intros j.
  - assert (Hm : j ∈ l <-> j ∈ seqZ a (Z.of_nat (length l))) by (by rewrite <- El). rewrite Hm, elem_of_seqZ. lia.
  - assert (Er : r = seqZ (a + Z.of_nat (length l) + 1) (n - Z.of_nat (length l) - 1)).
    { apply list_eq. intros k. assert (Ek : r !! k = seqZ a n !! (length l + S k)%nat).
      { rewrite E, lookup_app_r by lia. replace (length l + S k - length l)%nat with (S k) by lia. done. }
      rewrite Ek. destruct (decide (Z.of_nat (length l + S k) < n)).
      - rewrite !lookup_seqZ_lt by lia. f_equal. lia.
      - by rewrite !lookup_seqZ_ge by lia. }
    rewrite Er, elem_of_seqZ. lia.
Qed.
(** [indexOf] is the first match from the index on, [lastIndexOf] the last up
    to it, and -1 is no match. *)
Theorem indexOf_first O x from : wf O ->
  let a := match from with Some f => if 0 <=? f then f else Z.max 0 (len O + f) | None => 0 end in
  let i := indexOf same O x from in
  (i = -1 /\ forall j, a <= j < len O -> ~ matches O x j) \/
  (a <= i < len O /\ matches O x i /\ forall j, a <= j < i -> ~ matches O x j).
Proof.
  intros Hw a i. subst i. unfold indexOf. rewrite length_of_wf by done. destruct (Z.eqb_spec (len O) 0) as [H0|H0].
  { left. split; [done|]. intros j Hj. exfalso. assert (0 <= a) by (unfold a; destruct from as [f|]; [destruct (Z.leb_spec 0 f)|]; lia). lia. }
  replace (if 0 <=? default 0 from then default 0 from else Z.max 0 (len O + default 0 from)) with a by (by destruct from).
  destruct (search_first O x (seqZ a (len O - a))) as [[-> H]|(l & i & r & E & -> & Hi & H)].
  - left. split; [done|]. intros j Hj. apply H, elem_of_seqZ. lia.
  - right. apply seqZ_split in E as (Hr & Hl & _). split; [lia|]. split; [done|]. intros j Hj. apply H, Hl. lia.
Qed.
Theorem lastIndexOf_last O x from : wf O ->
  let b := match from with Some f => if 0 <=? Z.min (len O - 1) f then Z.min (len O - 1) f else len O + f | None => len O - 1 end in
  let i := lastIndexOf same O x from in
  (i = -1 /\ forall j, 0 <= j <= b -> ~ matches O x j) \/
  (0 <= i <= b /\ matches O x i /\ forall j, i < j <= b -> ~ matches O x j).
Proof.
  intros Hw b i. subst i. unfold lastIndexOf. rewrite length_of_wf by done. assert (0 <= len O) by apply (proj1 Hw).
  destruct (Z.eqb_spec (len O) 0) as [H0|H0].
  { left. split; [done|]. intros j Hj (y & Hy & _). destruct Hw as [_ Hw]. specialize (Hw j ltac:(by rewrite Hy)). lia. }
  match goal with |- context [search same O x ?l] => replace l with (rev (seqZ 0 (b + 1))) end.
  2: { do 2 f_equal. unfold b. destruct from as [f|]; [|destruct (Z.leb_spec 0 (len O - 1)); lia].
       destruct (Z.leb_spec 0 (Z.min (len O - 1) f)); lia. }
  destruct (search_first O x (rev (seqZ 0 (b + 1)))) as [[-> Hno]|(l & i & r & E & -> & Hi & H')].
  - left. split; [done|]. intros j Hj. apply Hno, elem_of_downwards, elem_of_seqZ. lia.
  - right. apply (f_equal (@rev Z)) in E. rewrite rev_involutive, rev_app_distr in E. cbn [rev] in E. rewrite <- app_assoc in E. cbn [app] in E.
    apply seqZ_split in E as (Hr & _ & Hl). split; [lia|]. split; [done|]. intros j Hj. apply H', elem_of_downwards, Hl. lia.
Qed.
End found.
Lemma indexOf_first_witness :
  let O := Arr 4 (<[1 := 7]> (<[3 := 7]> ∅)) in
  (indexOf Z.eqb O 7 (Some (-2)) = -1 /\ forall j, 2 <= j < 4 -> ~ matches Z.eqb O 7 j) \/
  (2 <= indexOf Z.eqb O 7 (Some (-2)) < 4 /\ matches Z.eqb O 7 (indexOf Z.eqb O 7 (Some (-2))) /\
   forall j, 2 <= j < indexOf Z.eqb O 7 (Some (-2)) -> ~ matches Z.eqb O 7 j).
Proof.
  intros O. apply (indexOf_first Z.eqb O 7 (Some (-2))). split; [unfold O; cbn; lia|].
  intros i (x & Hi). unfold O in *. cbn [elems len] in *. repeat (apply lookup_insert_Some in Hi as [[<- _]|[_ Hi]]; [lia|]). by rewrite lookup_empty in Hi.
Defined.
