(* ===== verification/ShimString.v ===== *)
(** * Strings

    The String methods of es5-shim inside swagger-ui.js, with [parseInt],
    [parseFloat] and the texts of errors and regular expressions.

    A regular expression is its [exec] from an index, a parameter; the
    functions of the environment that a shim calls ([parseInt], [parseFloat])
    are parameters too. *)

From Stdlib Require Import Floats.SpecFloat String.
From S2P Require Import Prelude JsNumber JsString Binary64.

(** ** [split] by a regular expression *)

Record match_ := Match { m_index : Z; m_text : jsstr; m_groups : list (option jsstr) }.
(** [output], [lastLastIndex], [lastLength] (0 while it is undefined), and the
    [lastIndex] of the expression. *)
Record sstate := SState { output : list (option jsstr); lastLastIndex : Z; lastLength : Z; lastIndex : Z }.

Section split.
Context (exec : jsstr -> Z -> option match_) (string : jsstr) (splitLimit : Z).

Definition found_match (m : match_) (st : sstate) : sstate :=
  let li := m_index m + zlength (m_text m) in
  if lastLastIndex st <? li then
    SState (output st ++ [Some (slice_list string (lastLastIndex st) (m_index m))] ++
            (if negb (bool_decide (m_groups m = [])) && (m_index m <? zlength string) then m_groups m else []))
      li (zlength (m_text m)) li
  else SState (output st) (lastLastIndex st) (lastLength st) li.
Definition advance (m : match_) (st : sstate) : sstate :=
  SState (output st) (lastLastIndex st) (lastLength st) (if lastIndex st =? m_index m then lastIndex st + 1 else lastIndex st).
(** [while (match)]: an expression that finds nothing starts at 0 again. *)
Fixpoint split_loop (fuel : nat) (st : sstate) : res sstate :=
  match fuel with
  | O => Throw Unsupported
  | S fuel =>
      match exec string (lastIndex st) with
      | None => Ok (SState (output st) (lastLastIndex st) (lastLength st) 0)
      | Some m =>
          let st' := found_match m st in
          if (lastLastIndex st <? lastLastIndex st') && (splitLimit <=? Z.of_nat (length (output st'))) then Ok st'
          else split_loop fuel (advance m st')
      end
  end.
Definition split_end (st : sstate) : list (option jsstr) :=
  let out :=
    if lastLastIndex st =? zlength string then
      if negb (lastLength st =? 0) || bool_decide (exec [] (lastIndex st) = None) then output st ++ [Some []] else output st
    else output st ++ [Some (slice_from string (lastLastIndex st))] in
  if splitLimit <? Z.of_nat (length out) then take (Z.to_nat splitLimit) out else out.
End split.
Definition split_regex (exec : jsstr -> Z -> option match_) (string : jsstr) (limit : option Z) : res (list (option jsstr)) :=
  let splitLimit := match limit with Some l => to_uint32 l | None => 2 ^ 32 - 1 end in
  st ← split_loop exec string splitLimit (S (S (length string))) (SState [] 0 0 0);
  Ok (split_end exec string splitLimit st).

(** ** [trim], [substr], [lastIndexOf] *)

Definition ws : list Z :=
  [9; 10; 11; 12; 13; 32; 160; 5760; 6158; 8192; 8193; 8194; 8195; 8196; 8197; 8198; 8199; 8200; 8201; 8202; 8239; 8287; 12288; 8232; 8233; 65279].
Definition is_ws (c : Z) : bool := bool_decide (c ∈ ws).
Fixpoint trimBegin (s : jsstr) : jsstr := match s with c :: s' => if is_ws c then trimBegin s' else s | [] => [] end.
Definition shim_trim (s : jsstr) : jsstr := rev (trimBegin (rev (trimBegin s))).

(** The start that the environment's [substr] is given. *)
Definition normalizedStart (s : jsstr) (start : Z) : Z := if start <? 0 then Z.max (zlength s + start) 0 else start.

Fixpoint lastIndexOf_loop (fuel : nat) (S_ searchStr : jsstr) (start k : Z) : res Z :=
  match fuel with
  | O => Throw Unsupported
  | S fuel =>
      if 0 <? k then
        let k := Z.max 0 (k - zlength searchStr) in
        let index := indexOf (slice_list S_ k (start + zlength searchStr)) searchStr in
        if negb (index =? -1) then Ok (k + index) else lastIndexOf_loop fuel S_ searchStr start k
      else Ok (-1)
  end.
(** [pos]: the number given, if it is one. *)
Definition shim_lastIndexOf (S_ searchStr : jsstr) (pos : option Z) : res Z :=
  let start := match pos with Some p => Z.min (Z.max p 0) (zlength S_) | None => zlength S_ end in
  lastIndexOf_loop (2 + length S_ + length searchStr) S_ searchStr start (start + zlength searchStr).

(** ** Numbers and texts *)

(** [/^[\-+]?0[xX]/]. *)
Definition hexRegex (s : jsstr) : bool :=
  let s := match s with c :: s' => if (c =? chr "-") || (c =? chr "+") then s' else s | [] => s end in
  match s with c :: x :: _ => (c =? chr "0") && ((x =? chr "x") || (x =? chr "X")) | _ => false end.
(** [radix]: 0 when it is missing or no number. *)
Definition shim_parseInt {N} (origParseInt : jsstr -> Z -> N) (str : jsstr) (radix : Z) : N :=
  let string := shim_trim str in
  origParseInt string (if radix =? 0 then (if hexRegex string then 16 else 10) else radix).
Definition shim_parseFloat (origParseFloat : jsstr -> double) (string : jsstr) : double :=
  let inputString := shim_trim string in
  let result := origParseFloat inputString in
  if SFeqb result (S754_zero false) && bool_decide (slice_list inputString 0 1 = js "-") then S754_zero true else result.

(** [name] and [message] of an error, if it has them. *)
Definition errorToString (name message : option jsstr) : jsstr :=
  let name := default (js "Error") name in
  let msg := default [] message in
  if bool_decide (name = []) then msg else if bool_decide (msg = []) then name else name ++ js ": " ++ msg.
Definition regexToString (source : jsstr) (global ignoreCase multiline : bool) : jsstr :=
  let str := js "/" ++ source ++ js "/" in
  let str := if global then str ++ js "g" else str in
  let str := if ignoreCase then str ++ js "i" else str in
  if multiline then str ++ js "m" else str.

(** Of two overlapping occurrences the first is found, and the empty text not
    at the beginning. *)
Example last_overlapping :
  shim_lastIndexOf (js "aaab") (js "aa") None = Ok 0 /\ lastIndexOf (js "aaab") (js "aa") = 1 /\
  shim_lastIndexOf (js "abc") [] (Some 0) = Ok (-1) /\ shim_lastIndexOf (js "canal") (js "a") None = Ok 3.
Proof. by vm_compute. Qed.

(** ** [trim] is that of the language, but for one character *)

Lemma is_ws_space c : is_ws c = is_space c || (c =? 6158).
Proof.
  unfold is_ws. apply eq_bool_prop_intro. unfold ws. rewrite bool_decide_spec, !elem_of_cons, elem_of_nil. unfold is_space.
  rewrite Is_true_true, !orb_true_iff, !andb_true_iff, !Z.leb_le, !Z.eqb_eq. lia.
Qed.
Lemma trimBegin_left s : 6158 ∉ s -> trimBegin s = trim_left s.
Proof.
  induction s as [|c s IH]; [done|]. rewrite not_elem_of_cons. intros [Hc Hs]. cbn [trimBegin trim_left].
  rewrite is_ws_space, (proj2 (Z.eqb_neq c 6158)), orb_false_r, IH by done. done.
Qed.
Lemma trim_left_sub s c : c ∈ trim_left s -> c ∈ s.
Proof. induction s as [|x s IH]; [done|]. cbn [trim_left]. destruct (is_space x); [|done]. intros H. right. auto. Qed.
Theorem shim_trim_agrees s : 6158 ∉ s -> shim_trim s = trim s.
Proof.
  intros H. unfold shim_trim, trim. rewrite (trimBegin_left s H), (trimBegin_left (rev (trim_left s))); [reflexivity|].
  rewrite list_elem_of_In, <- in_rev, <- list_elem_of_In. intros Hin. by apply H, trim_left_sub.
Qed.
Lemma shim_trim_agrees_witness : shim_trim (js " a b ") = js "a b".
Proof. rewrite shim_trim_agrees; [reflexivity|]. apply (bool_decide_unpack _). exact I. Defined.

(** ** [lastIndexOf] *)

Definition occurs (s p : jsstr) (i : Z) : Prop := 0 <= i /\ exists a b, s = a ++ p ++ b /\ i = zlength a.

Lemma find_first s p : match find_str p s with
  | Some n => occurs s p (Z.of_nat n) /\ forall j, occurs s p j -> Z.of_nat n <= j
  | None => forall j, ~ occurs s p j
  end.
Proof.
  induction s as [|c s IH]; cbn [find_str]; destruct (prefixb p _) eqn:E.
  - apply prefixb_spec in E as [b Eb]. split; [split; [lia|by exists [], b]|]. intros j [Hj _]. lia.
  - intros j [_ (a & b & Es & _)]. symmetry in Es. apply app_eq_nil in Es as [_ [-> ->]%app_eq_nil]. done.
  - apply prefixb_spec in E as [b Eb]. split; [split; [lia|by exists [], b]|]. intros j [Hj _]. lia.
  - assert (Hshift : forall j, occurs (c :: s) p j -> 0 < j /\ occurs s p (j - 1)).
    { intros j [Hj (a & b & Es & ->)]. destruct a as [|x a].
      - exfalso. enough (prefixb p (c :: s) = true) by congruence. apply prefixb_spec. by exists b.
      - injection Es as -> Es. unfold zlength in *. cbn [length] in *. split; [lia|]. split; [lia|]. exists a, b. split; [done|]. unfold zlength. lia. }
    destruct (find_str p s) as [n|]; cbn [fmap option_fmap option_map].
    + destruct IH as [[_ (a & b & Es & Ha)] Hmin]. split.
      * split; [lia|]. exists (c :: a), b. split; [by rewrite Es|]. unfold zlength in *. cbn [length]. lia.
      * intros j [Hj Ho]%Hshift. specialize (Hmin _ Ho). lia.
    + intros j [_ Ho]%Hshift. by apply (IH (j - 1)).
Qed.
Lemma slice_parts {A} (s : list A) a b : 0 <= a <= b -> b <= Z.of_nat (length s) ->
  slice_list s a b = take (Z.to_nat (b - a)) (drop (Z.to_nat a) s).
Proof.
  intros Ha Hb. unfold slice_list, rel_index. cbv zeta. rewrite !(proj2 (Z.ltb_ge _ 0)) by lia. by rewrite !Z.min_l by lia.
Qed.
(** Where the text is short the window ends with it. *)
Lemma slice_window {A} (s : list A) a w : 0 <= a <= Z.of_nat (length s) -> 0 <= w ->
  slice_list s a (a + w) = take (Z.to_nat w) (drop (Z.to_nat a) s).
Proof.
  intros Ha Hw. unfold slice_list, rel_index. cbv zeta. rewrite !(proj2 (Z.ltb_ge _ 0)) by lia. rewrite (Z.min_l a) by lia.
  destruct (Z.le_gt_cases (a + w) (Z.of_nat (length s))); [rewrite Z.min_l by lia; f_equal; lia|].
  rewrite Z.min_r by lia. rewrite !take_ge by (rewrite length_drop; lia). done.
Qed.
Lemma occurs_window s p k w j : 0 <= k <= zlength s -> 0 <= w -> p <> [] ->
  occurs (take (Z.to_nat w) (drop (Z.to_nat k) s)) p j <-> (0 <= j /\ j + zlength p <= w /\ occurs s p (k + j)).
Proof.
  intros Hk Hw Hp. unfold zlength in *. split.
  - intros [Hj (a & b & E & ->)]. unfold zlength in *. split; [lia|].
    assert (Hlen : (length (a ++ p ++ b) <= Z.to_nat w)%nat) by (rewrite <- E, length_take; lia). rewrite !length_app in Hlen. split; [lia|]. split; [lia|].
    exists (take (Z.to_nat k) s ++ a), (b ++ drop (Z.to_nat w) (drop (Z.to_nat k) s)). split.
    + rewrite <- (take_drop (Z.to_nat k) s) at 1. rewrite <- (take_drop (Z.to_nat w) (drop (Z.to_nat k) s)) at 1. rewrite E. by rewrite <- !app_assoc.
    + unfold zlength. rewrite length_app, length_take. lia.
  - intros (Hj & Hw' & [_ (a & b & E & Ha)]). unfold zlength in *. split; [lia|].
    exists (drop (Z.to_nat k) a), (take (Z.to_nat (w - j) - length p) b). split; [|unfold zlength; rewrite length_drop; lia].
    rewrite E, drop_app_le by lia. rewrite take_app_ge by (rewrite length_drop; lia). f_equal.
    rewrite take_app_ge by (rewrite length_drop; lia). rewrite length_drop. do 2 f_equal. lia.
Qed.

Lemma indexOf_window s p k w : 0 <= k <= zlength s -> 0 <= w -> p <> [] ->
  let i := indexOf (slice_list s k (k + w)) p in
  (i = -1 /\ forall j, k <= j -> j + zlength p <= k + w -> ~ occurs s p j) \/
  (0 <= i /\ i + zlength p <= w /\ occurs s p (k + i)).
Proof.
  intros Hk Hw Hp i. subst i. unfold indexOf. rewrite slice_window by done. set (u := take _ _). pose proof (find_first u p) as H. destruct (find_str p u) as [n|].
  - right. destruct H as [H _]. apply occurs_window in H; [|done..]. split_and!; [lia|lia|apply H].
  - left. split; [done|]. intros j Hj Hjw Ho. apply (H (j - k)). apply occurs_window; [done..|]. split; [lia|]. split; [lia|]. by replace (k + (j - k)) with j by lia.
Qed.

Lemma lastIndexOf_loop_ends s p start fuel k : p <> [] -> 0 <= start <= zlength s ->
  0 <= k <= start + zlength p -> k < Z.of_nat fuel -> (0 < k \/ forall j, j <= start -> ~ occurs s p j) ->
  (forall j, k <= j <= start -> ~ occurs s p j) ->
  exists r, lastIndexOf_loop fuel s p start k = Ok r /\
    ((r = -1 /\ forall j, j <= start -> ~ occurs s p j) \/
     (0 <= r <= start /\ occurs s p r /\ forall j, j <= start -> occurs s p j -> j < r + zlength p)).
Proof.
  intros Hp Hs Hk Hf Hpos Hno. assert (Hl : 0 < zlength p) by (unfold zlength; destruct p; [done|cbn; lia]).
  revert k Hk Hf Hpos Hno. induction fuel as [|fuel IH]; intros k Hk Hf Hpos Hno; [lia|]. cbn [lastIndexOf_loop].
  destruct (Z.ltb_spec 0 k) as [H0|H0].
  2: { exists (-1). split; [done|]. left. split; [done|]. destruct Hpos as [?|Hpos]; [lia|done]. }
  set (k' := Z.max 0 (k - zlength p)).
  replace (start + zlength p) with (k' + (start + zlength p - k')) by lia.
  destruct (indexOf_window s p k' (start + zlength p - k')) as [[-> Hnone]|(Hi & Hw & Ho)]; [unfold k'; lia|unfold k'; lia|done| |].
  - cbn [negb Z.eqb Z.opp]. replace (k' + (start + zlength p - k')) with (start + zlength p) by lia.
    assert (Hall : forall j, k' <= j <= start -> ~ occurs s p j) by (intros j Hj; apply Hnone; lia).
    change (negb (-1 =? -1)) with false. cbv iota. apply IH; [unfold k'; lia|unfold k'; lia| |done].
    destruct (decide (k' = 0)) as [E|E]; [|left; unfold k' in *; lia]. right. intros j Hj Ho. destruct Ho as [Hj0 Ho].
    apply (Hall j); [lia|by split].
  - rewrite (proj2 (Z.eqb_neq _ (-1))) by lia. cbn [negb]. eexists. split; [reflexivity|]. right. split; [unfold k' in *; lia|]. split; [done|].
    intros j Hj Hoj. assert (j < k) by (destruct (decide (j < k)); [done|]; exfalso; by apply (Hno j); [lia|]). unfold k' in *. lia.
Qed.

(** [lastIndexOf] of a text that is not empty ends, with -1 when it does
    not occur up to the position, and otherwise with an occurrence; what it may
    miss is only an occurrence that overlaps the one it found. *)
Theorem lastIndexOf_found s p pos : p <> [] ->
  let start := match pos with Some x => Z.min (Z.max x 0) (zlength s) | None => zlength s end in
  exists r, shim_lastIndexOf s p pos = Ok r /\
    ((r = -1 /\ forall j, j <= start -> ~ occurs s p j) \/
     (0 <= r <= start /\ occurs s p r /\ forall j, j <= start -> occurs s p j -> j < r + zlength p)).
Proof.
  intros Hp start. unfold shim_lastIndexOf. fold start. assert (Hs : 0 <= start <= zlength s) by (unfold start, zlength; destruct pos; lia).
  assert (Hl : 0 < zlength p) by (unfold zlength; destruct p; [done|cbn; lia]).
  apply lastIndexOf_loop_ends; [done|done|lia|unfold zlength in *; lia|left; lia|].
  intros j Hj. lia.
Qed.
Lemma lastIndexOf_found_witness : exists r, shim_lastIndexOf (js "canal") (js "a") (Some 2) = Ok r /\
    ((r = -1 /\ forall j, j <= 2 -> ~ occurs (js "canal") (js "a") j) \/
     (0 <= r <= 2 /\ occurs (js "canal") (js "a") r /\ forall j, j <= 2 -> occurs (js "canal") (js "a") j -> j < r + 1)).
Proof. by apply (lastIndexOf_found (js "canal") (js "a") (Some 2)). Defined.

(** ** The pieces of [split] *)

(** The pieces with what was matched between them. *)
Fixpoint weave (pieces seps : list jsstr) : jsstr :=
  match pieces, seps with
  | p :: pieces, s :: seps => p ++ s ++ weave pieces seps
  | p :: _, [] => p
  | [], _ => []
  end.
Lemma weave_snoc pieces seps p s : length pieces = length seps ->
  weave (pieces ++ [p]) (seps ++ [s]) = weave pieces seps ++ p ++ s.
Proof.
  revert seps. induction pieces as [|q pieces IH]; intros [|t seps]; cbn [length app weave]; try discriminate; [by rewrite app_nil_r|].
  intros [= H]. by rewrite IH, <- !app_assoc.
Qed.
Lemma weave_last pieces seps p : length pieces = length seps -> weave (pieces ++ [p]) seps = weave pieces seps ++ p.
Proof.
  revert seps. induction pieces as [|q pieces IH]; intros [|t seps]; cbn [length app weave]; try discriminate; [done|].
  intros [= H]. by rewrite IH, <- !app_assoc.
Qed.

(** What [exec] promises: a match at or after the index, within the string; and
    here of an expression without groups. *)
Definition exec_ok (exec : jsstr -> Z -> option match_) : Prop := forall s i m, 0 <= i -> exec s i = Some m ->
  i <= m_index m /\ m_index m + zlength (m_text m) <= zlength s /\
  m_text m = slice_list s (m_index m) (m_index m + zlength (m_text m)) /\ m_groups m = [].

Section split_facts.
Context (exec : jsstr -> Z -> option match_) (exec_good : exec_ok exec) (string : jsstr).

Definition matched (t : jsstr) : Prop := exists i m, exec string i = Some m /\ m_text m = t.
Definition split_inv (st : sstate) : Prop := exists pieces seps,
  output st = map Some pieces /\ length pieces = length seps /\ Forall matched seps /\
  weave pieces seps = take (Z.to_nat (lastLastIndex st)) string /\
  0 <= lastLastIndex st <= zlength string /\ Z.of_nat (length pieces) <= lastLastIndex st.

Lemma take_slices a b c : 0 <= a <= b -> b <= c -> c <= zlength string ->
  take (Z.to_nat c) string = take (Z.to_nat a) string ++ slice_list string a b ++ slice_list string b c.
Proof.
  unfold zlength. intros Ha Hb Hc. rewrite !slice_parts by lia.
  rewrite <- (take_drop (Z.to_nat a) (take (Z.to_nat c) string)) at 1. rewrite take_take, Nat.min_l by lia. f_equal.
  rewrite skipn_firstn_comm. rewrite <- (take_drop (Z.to_nat (b - a)) (take _ _)) at 1. rewrite take_take, Nat.min_l by lia. f_equal.
  rewrite skipn_firstn_comm, drop_drop. f_equal; [lia|]. f_equal. lia.
Qed.

Lemma found_match_inv m st : exec string (lastIndex st) = Some m -> lastLastIndex st <= lastIndex st -> split_inv st ->
  let st' := advance m (found_match string m st) in
  split_inv (found_match string m st) /\ split_inv st' /\ lastLastIndex st' <= lastIndex st' /\
  lastIndex st < lastIndex st' <= zlength string + 1.
Proof.
  intros He Hl (pieces & seps & Ho & Hlen & Hm & Hw & Hb & Hc).
  destruct (exec_good string (lastIndex st) m ltac:(lia) He) as (Hi & Hend & Ht & Hg). assert (H0 : 0 <= zlength (m_text m)) by (unfold zlength; lia).
  assert (Hinv : split_inv (found_match string m st)).
  { unfold found_match. cbv zeta. destruct (Z.ltb_spec (lastLastIndex st) (m_index m + zlength (m_text m))) as [H|H]; [|by exists pieces, seps].
    rewrite Hg. rewrite bool_decide_eq_true_2 by done. cbn [negb andb]. rewrite app_nil_r.
    exists (pieces ++ [slice_list string (lastLastIndex st) (m_index m)]), (seps ++ [m_text m]). cbn [output lastLastIndex].
    rewrite Ho, map_app, !length_app, weave_snoc, Hw by done. cbn [length map]. split_and!; [done|lia| | |lia|lia|lia].
    - apply Forall_app. split; [done|]. constructor; [|constructor]. by exists (lastIndex st), m.
    - rewrite (take_slices (lastLastIndex st) (m_index m) (m_index m + zlength (m_text m))) by lia. by rewrite <- Ht. }
  assert (Hl' : lastIndex (found_match string m st) = m_index m + zlength (m_text m) /\
    lastLastIndex (found_match string m st) <= Z.max (lastIndex st) (m_index m + zlength (m_text m))).
  { unfold found_match. cbv zeta. destruct (Z.ltb_spec (lastLastIndex st) (m_index m + zlength (m_text m))); cbn; lia. }
  destruct Hl' as [Hl1 Hl2]. intros st'. split; [done|]. split; [exact Hinv|]. unfold st', advance. cbn [lastIndex lastLastIndex].
  rewrite Hl1. destruct (Z.eqb_spec (m_index m + zlength (m_text m)) (m_index m)); lia.
Qed.

Lemma split_loop_ends fuel st limit : zlength string < limit -> split_inv st -> lastLastIndex st <= lastIndex st ->
  lastIndex st <= zlength string + 1 -> zlength string + 1 - lastIndex st < Z.of_nat fuel ->
  exists st', split_loop exec string limit fuel st = Ok st' /\ split_inv st'.
Proof.
  intros Hlim. revert st. induction fuel as [|fuel IH]; intros st Hinv Hl Hs Hf; [lia|]. cbn [split_loop].
  destruct (exec string (lastIndex st)) as [m|] eqn:He; [|eexists; split; [reflexivity|exact Hinv]]. cbv zeta.
  destruct (found_match_inv m st He Hl Hinv) as (Hinv1 & Hinv2 & Hl2 & Hp).
  rewrite (proj2 (Z.leb_gt limit _)), andb_false_r.
  - apply IH; [done..|lia|lia].
  - destruct Hinv1 as (pieces & seps & Ho & _ & _ & _ & Hb & Hc). rewrite Ho, length_map. lia.
Qed.
End split_facts.

(** C17. Splitting a string by an expression without groups ends, and the
    pieces, with the texts the expression matched between them, are the
    string. *)
Theorem split_pieces exec string : exec_ok exec -> zlength string < 2 ^ 32 - 1 ->
  exists pieces seps, split_regex exec string None = Ok (map Some pieces) /\ weave pieces seps = string /\
    (length pieces = length seps \/ length pieces = S (length seps)) /\ Forall (matched exec string) seps.
Proof.
  intros He Hs. unfold split_regex. cbv zeta. assert (H0 : 0 <= zlength string) by (unfold zlength; lia).
  destruct (split_loop_ends exec He string (S (S (length string))) (SState [] 0 0 0) (2 ^ 32 - 1) Hs) as (st & -> & Hinv).
  - exists [], []. cbn [output lastLastIndex]. split_and!; done.
  - cbn. lia.
  - cbn [lastIndex]. lia.
  - cbn [lastIndex]. unfold zlength. lia.
  - cbn [res_bind mbind]. destruct Hinv as (pieces & seps & Ho & Hlen & Hm & Hw & Hb & Hc). unfold split_end. cbv zeta.
    set (out := if _ =? _ then _ else _).
    assert (Hout : exists pieces', out = map Some pieces' /\ weave pieces' seps = string /\
      (pieces' = pieces \/ length pieces' = S (length pieces) /\ (Z.of_nat (length pieces) <= zlength string))).
    { unfold out. rewrite Ho. destruct (Z.eqb_spec (lastLastIndex st) (zlength string)) as [E|E].
      - assert (Hw' : weave pieces seps = string) by (rewrite Hw, E; unfold zlength; by rewrite Nat2Z.id, firstn_all).
        destruct (_ || _); [|by exists pieces; auto].
        exists (pieces ++ [[]]). rewrite map_app, weave_last, app_nil_r, length_app by done. cbn [length map]. split_and!; [done|done|right; lia].
      - exists (pieces ++ [slice_from string (lastLastIndex st)]). rewrite map_app, weave_last, length_app, Hw by done. cbn [length map].
        split_and!; [done| |right; lia]. unfold slice_from. rewrite slice_parts by (unfold zlength in *; lia).
        rewrite (take_ge (drop _ _)) by (rewrite length_drop; lia). apply take_drop. }
    destruct Hout as (pieces' & -> & Hw' & Hlen'). rewrite (proj2 (Z.ltb_ge _ _)).
    + exists pieces', seps. split_and!; [done|done| |done]. destruct Hlen' as [->|[-> _]]; [by left|right; lia].
    + rewrite length_map. destruct Hlen' as [->|[-> ?]]; lia.
Qed.

(** The commas of a string. *)
Definition comma_exec (s : jsstr) (i : Z) : option match_ :=
  if 0 <=? i then
    (fun n => Match (i + Z.of_nat n) [chr ","] []) <$> find_str [chr ","] (drop (Z.to_nat i) s)
  else None.
Lemma comma_exec_ok : exec_ok comma_exec.
Proof.
  intros s i m Hi. unfold comma_exec. rewrite (proj2 (Z.leb_le 0 i)) by done. pose proof (find_first (drop (Z.to_nat i) s) [chr ","]) as H.
  destruct (find_str _ _) as [n|]; [|discriminate]. intros [= <-]. cbn [m_index m_text m_groups]. destruct H as [[_ (a & b & E & Ha)] _].
  assert (Hn : drop (Z.to_nat i + n) s = chr "," :: b).
  { rewrite <- drop_drop, E. unfold zlength in Ha. rewrite drop_app_length' by lia. done. }
  assert (Hle : (Z.to_nat i + n < length s)%nat).
  { apply Nat.nle_gt. intros H. by rewrite drop_ge in Hn. }
  unfold zlength. cbn [length]. split_and!; [lia|lia| |done]. rewrite slice_parts by lia.
  replace (Z.to_nat (i + Z.of_nat n)) with (Z.to_nat i + n)%nat by lia. rewrite Hn.
  replace (Z.to_nat _) with 1%nat by lia. done.
Qed.
Lemma split_pieces_witness : exec_ok comma_exec /\ split_regex comma_exec (js "a,,b") None = Ok [Some (js "a"); Some []; Some (js "b")] /\
  exists pieces seps, split_regex comma_exec (js "a,,b") None = Ok (map Some pieces) /\ weave pieces seps = js "a,,b" /\
    (length pieces = length seps \/ length pieces = S (length seps)) /\ Forall (matched comma_exec (js "a,,b")) seps.
Proof.
  split; [exact comma_exec_ok|]. split; [vm_compute; reflexivity|]. apply (split_pieces comma_exec (js "a,,b") comma_exec_ok). vm_compute. reflexivity.
Defined.
