(* ===== verification/Lodash.v ===== *)
(** * Values and collections as lodash sees them

    The modules lang/, object/, collection/ and internal/ of lodash inside
    swagger-ui.js that test values, list keys and go through collections, on
    objects with identity ([Heap]).

    Of the variants chosen for an environment ([support]) the ones of a current
    one are modelled: strings have characters at indices, properties of
    prototypes are not enumerable where they should not be.  An object has its
    own properties only, all of them enumerable, and is not an [arguments]
    object, an error or the prototype of a function; a function is a host value
    with the tag [Function]. *)

From Stdlib Require Import String.
From S2P Require Import Prelude JsNumber JsString JsValue Heap.

(** ** Tests *)

Definition MAX_SAFE_INTEGER : Z := 9007199254740991.

(** [Object.prototype.toString.call(v)], without [[object ...]]. *)
Definition prim_tag (p : jsval) : jsstr :=
  match p with
  | VUndef => js "Undefined"
  | VNull => js "Null"
  | VBool _ => js "Boolean"
  | VNum _ => js "Number"
  | VStr _ => js "String"
  | VArr _ => js "Array"
  | VObj _ => js "Object"
  | VHost tag _ => tag
  end.
Definition objToString (h : heap) (v : hval) : jsstr :=
  match v with
  | HPrim p => prim_tag p
  | HRef a => match h !! a with Some (CArr _) => js "Array" | _ => js "Object" end
  end.
Definition is_function (v : hval) : bool :=
  match v with HPrim (VHost tag _) => bool_decide (tag = js "Function") | _ => false end.

Definition isObject (v : hval) : bool := match v with HRef _ => true | HPrim p => is_object p end.
Definition isObjectLike (v : hval) : bool := isObject v && negb (is_function v).
Definition isFunction (h : heap) (v : hval) : bool := isObject v && bool_decide (objToString h v = js "Function").
Definition isArray (h : heap) (v : hval) : bool := match harray h v with Some _ => true | None => false end.
Definition isString (h : heap) (v : hval) : bool :=
  match v with HPrim (VStr _) => true | _ => isObjectLike v && bool_decide (objToString h v = js "String") end.
Definition isUndefined (v : hval) : bool := h_undef v.
Definition isLength (v : hval) : bool :=
  match v with HPrim (VNum (NInt n)) => (-1 <? n) && (n <=? MAX_SAFE_INTEGER) | _ => false end.
(** [/^\d+$/], and [isIndex] of a key. *)
Definition reIsUint (s : jsstr) : bool :=
  negb (bool_decide (s = [])) && forallb (fun c => (48 <=? c) && (c <=? 57)) s.
Definition isIndex (value : jsval) (length : option Z) : bool :=
  let length := default MAX_SAFE_INTEGER length in
  match value with
  | VNum (NInt n) => (-1 <? n) && (n <? length)
  | VStr s => if reIsUint s then match dec_value 0 s with Some n => (-1 <? n) && (n <? length) | None => false end else false
  | _ => false
  end.

(** [v === w]. *)
Definition same_value (v w : hval) : bool :=
  match v, w with
  | HPrim p, HPrim q => strict_eq p q
  | HRef a, HRef b => Nat.eqb a b
  | _, _ => false
  end.
(** [v !== v]. *)
Definition is_nan (v : hval) : bool := match v with HPrim (VNum NNaN) => true | _ => false end.

(** ** Properties and keys *)

(** [toObject(v)[k]]: strings have a length and their characters. *)
Definition get_prop (h : heap) (v : hval) (k : jsstr) : res hval :=
  match v with
  | HPrim (VStr s) =>
      Ok (if bool_decide (k = js "length") then HPrim (vint (zlength s))
          else match array_index k with Some n => default hundef ((fun c => hstr [c]) <$> s !! Z.to_nat n) | None => hundef end)
  | _ => hget h v k
  end.
Definition baseProperty (key : jsstr) (h : heap) (object : hval) : res hval :=
  if h_nullish object then Ok hundef else get_prop h object key.
Definition getLength : heap -> hval -> res hval := baseProperty (js "length").
Definition isArrayLike (h : heap) (v : hval) : res bool :=
  if h_nullish v then Ok false else n ← getLength h v; Ok (isLength n).

(** [hasOwnProperty.call(v, k)]. *)
Definition has_own (h : heap) (v : hval) (k : jsstr) : bool := bool_decide (k ∈ hkeys h v).
Definition keysIn (h : heap) (object : hval) : res (list jsstr) :=
  if h_nullish object then Ok []
  else
    n ← get_prop h object (js "length");
    let length := match n with
                  | HPrim (VNum (NInt n)) => if negb (n =? 0) && isLength (HPrim (VNum (NInt n))) && (isArray h object || isString h object) then n else 0
                  | _ => 0
                  end in
    let skipIndexes := 0 <? length in
    Ok ((Z_to_str <$> seqZ 0 length) ++
        List.filter (fun key => negb (skipIndexes && isIndex (VStr key) (Some length))) (hkeys h object)).
Definition shimKeys (h : heap) (object : hval) : res (list jsstr) :=
  props ← keysIn h object;
  n ← (match props with [] => Ok hundef | _ => get_prop h object (js "length") end);
  let allowIndexes := htruthy n && isLength n && (isArray h object || isString h object) in
  let length := match n with HPrim (VNum (NInt n)) => n | _ => 0 end in
  Ok (List.filter (fun key => (allowIndexes && isIndex (VStr key) (Some length)) || has_own h object key) props).
Definition keys (h : heap) (object : hval) : res (list jsstr) :=
  b ← (if is_function object then Ok false else isArrayLike h object);
  if b : bool then shimKeys h object else Ok (if isObject object then hkeys h object else []).

Definition baseValues (h : heap) (object : hval) (props : list jsstr) : res (list hval) := mapM_res (get_prop h object) props.
Definition values (h : heap) (object : hval) : res (list hval) := props ← keys h object; baseValues h object props.
Definition pairs (h : heap) (object : hval) : res (list (jsstr * hval)) :=
  props ← keys h object; mapM_res (fun key => x ← get_prop h object key; Ok (key, x)) props.
Definition isEmpty (h : heap) (v : hval) : res bool :=
  if h_nullish v then Ok true
  else
    b ← isArrayLike h v;
    if (b : bool) && (isArray h v || isString h v) then n ← getLength h v; Ok (negb (htruthy n))
    else ks ← keys h v; Ok (bool_decide (ks = [])).
(** No object has inherited properties, or a class of its own. *)
Definition isPlainObject (h : heap) (v : hval) : bool :=
  match v with HRef _ => bool_decide (objToString h v = js "Object") | HPrim _ => false end.

(** [isStrictComparable]. *)
Definition isStrictComparable (v : hval) : bool := negb (is_nan v) && negb (isObject v).

(** ** Loops

    An iteratee is given the value and its key and may change the heap and the
    rest of the state; it answers [false] to end a loop. *)

Section loops.
Context {W : Type}.
Abbreviation state := (heap * W)%type.

(** [v[index]]. *)
Definition elem (h : heap) (v : hval) (index : Z) : res hval :=
  match harray h v with Some l => Ok (default hundef (l !! Z.to_nat index)) | None => get_prop h v (Z_to_str index) end.
Definition read {A} (f : heap -> res A) : ST state A := fun s => (s, f s.1).

Fixpoint each {K} (get : heap -> K -> res hval) (key : K -> jsval) (iteratee : hval -> jsval -> ST state bool) (l : list K) : ST state unit :=
  match l with
  | [] => mret tt
  | k :: l =>
      x ← read (fun h => get h k); b ← iteratee x (key k);
      if (b : bool) then each get key iteratee l else mret tt
  end.
Definition each_index (iteratee : hval -> jsval -> ST state bool) (v : hval) : list Z -> ST state unit :=
  each (fun h i => elem h v i) vint iteratee.
Definition each_key (iteratee : hval -> jsval -> ST state bool) (v : hval) : list jsstr -> ST state unit :=
  each (fun h k => get_prop h v k) VStr iteratee.
(** The indices of a loop, from the left or from the right. *)
Definition indices (fromRight : bool) (length : Z) : list Z := if fromRight then rev (seqZ 0 length) else seqZ 0 length.
Definition length_of (h : heap) (v : hval) : res Z :=
  n ← get_prop h v (js "length"); Ok (match n with HPrim (VNum (NInt n)) => n | _ => 0 end).

Definition arrayEach (array : hval) (iteratee : hval -> jsval -> ST state bool) : ST state unit :=
  n ← read (fun h => length_of h array); each_index iteratee array (seqZ 0 n).
Fixpoint map_index (iteratee : hval -> jsval -> ST state hval) (v : hval) (is_ : list Z) (result : list hval) : ST state (list hval) :=
  match is_ with
  | [] => mret result
  | i :: is_ => x ← read (fun h => elem h v i); y ← iteratee x (vint i); map_index iteratee v is_ (result ++ [y])
  end.
Definition arrayMap (array : hval) (iteratee : hval -> jsval -> ST state hval) : ST state (list hval) :=
  n ← read (fun h => length_of h array); map_index iteratee array (seqZ 0 n) [].
(** The first index whose element passes. *)
Fixpoint first_index (predicate : hval -> jsval -> ST state bool) (v : hval) (is_ : list Z) : ST state Z :=
  match is_ with
  | [] => mret (-1)
  | i :: is_ => x ← read (fun h => elem h v i); b ← predicate x (vint i); if (b : bool) then mret i else first_index predicate v is_
  end.
Definition arraySome (array : hval) (predicate : hval -> jsval -> ST state bool) : ST state bool :=
  n ← read (fun h => length_of h array); i ← first_index predicate array (seqZ 0 n); mret (negb (i =? -1)).
Definition baseFindIndex (array : hval) (predicate : hval -> jsval -> ST state bool) (fromRight : bool) : ST state Z :=
  n ← read (fun h => length_of h array); first_index predicate array (indices fromRight n).

(** [createBaseFor] with [keys] or [keysIn], and [createBaseEach]. *)
Definition createBaseFor (fromRight : bool) (object : hval) (iteratee : hval -> jsval -> ST state bool)
    (keysFunc : heap -> hval -> res (list jsstr)) : ST state unit :=
  props ← read (fun h => keysFunc h object); each_key iteratee object (if fromRight then rev props else props).
Definition baseFor := createBaseFor false.
Definition baseForIn (object : hval) (iteratee : hval -> jsval -> ST state bool) : ST state unit := baseFor object iteratee keysIn.
Definition baseForOwn (object : hval) (iteratee : hval -> jsval -> ST state bool) : ST state unit := baseFor object iteratee keys.
Definition createBaseEach (eachFunc : hval -> (hval -> jsval -> ST state bool) -> ST state unit) (fromRight : bool)
    (collection : hval) (iteratee : hval -> jsval -> ST state bool) : ST state unit :=
  n ← read (fun h => if htruthy collection then getLength h collection else Ok (HPrim (vint 0)));
  match n with
  | HPrim (VNum (NInt n)) =>
      if isLength (HPrim (vint n)) then each_index iteratee collection (indices fromRight n) else eachFunc collection iteratee
  | _ => eachFunc collection iteratee
  end.
Definition baseEach := createBaseEach baseForOwn false.
Definition createForEach (arrayFunc eachFunc : hval -> (hval -> jsval -> ST state bool) -> ST state unit)
    (collection : hval) (iteratee : hval -> jsval -> ST state bool) : ST state unit :=
  b ← gets (fun s => isArray s.1 collection);
  if (b : bool) then arrayFunc collection iteratee else eachFunc collection iteratee.
Definition forEach := createForEach arrayEach baseEach.
End loops.

(** [baseFind]: the variable [result] is part of the state of the loop. *)
Section find.
Context {W : Type}.
Definition on_heap {A} (m : ST (heap * W) A) : ST (heap * (W * hval)) A := fun s =>
  let '((h, w), r) := m (s.1, s.2.1) in ((h, (w, s.2.2)), r).
Definition baseFind (collection : hval) (predicate : hval -> jsval -> ST (heap * W) bool)
    (eachFunc : hval -> (hval -> jsval -> ST (heap * (W * hval)) bool) -> ST (heap * (W * hval)) unit) : ST (heap * W) hval := fun s =>
  let iteratee x k :=
    b ← on_heap (predicate x k);
    if (b : bool) then _ ← modify (fun s => (s.1, (s.2.1, x))); mret false else mret true in
  let '((h, (w, result)), r) := eachFunc collection iteratee (s.1, (s.2, hundef)) in
  ((h, w), _ ← r; Ok result).
Definition createFind (eachFunc : hval -> (hval -> jsval -> ST (heap * (W * hval)) bool) -> ST (heap * (W * hval)) unit)
    (fromRight : bool) (collection : hval) (predicate : hval -> jsval -> ST (heap * W) bool) : ST (heap * W) hval :=
  b ← gets (fun s => isArray s.1 collection);
  if (b : bool) then
    index ← baseFindIndex collection predicate fromRight;
    if -1 <? index then read (fun h => elem h collection index) else mret hundef
  else baseFind collection predicate eachFunc.
Definition find := createFind baseEach false.

(** [baseMap] and [map]. *)
Definition baseMap (collection : hval) (iteratee : hval -> jsval -> ST (heap * W) hval) : ST (heap * W) (list hval) := fun s =>
  let push x k : ST (heap * (W * list hval)) bool := fun s =>
    let '((h, w), r) := iteratee x k (s.1, s.2.1) in
    match r with Ok y => ((h, (w, s.2.2 ++ [y])), Ok true) | Throw e => ((h, (w, s.2.2)), Throw e) end in
  let '((h, (w, result)), r) := baseEach collection push (s.1, (s.2, [])) in
  ((h, w), _ ← r; Ok result).
Definition map (collection : hval) (iteratee : hval -> jsval -> ST (heap * W) hval) : ST (heap * W) (list hval) :=
  b ← gets (fun s => isArray s.1 collection);
  if (b : bool) then arrayMap collection iteratee else baseMap collection iteratee.
End find.

(** ** Searching an array *)

Fixpoint search_from (test : hval -> bool) (array : list hval) (is_ : list Z) : Z :=
  match is_ with
  | [] => -1
  | i :: is_ => if test (default hundef (array !! Z.to_nat i)) then i else search_from test array is_
  end.
Definition indexOfNaN (array : list hval) (fromIndex : Z) (fromRight : bool) : Z :=
  let length := Z.of_nat (length array) in
  search_from is_nan array (if fromRight then rev (seqZ 0 fromIndex) else seqZ fromIndex (length - fromIndex)).
Definition baseIndexOf (array : list hval) (value : hval) (fromIndex : Z) : Z :=
  if is_nan value then indexOfNaN array fromIndex false
  else search_from (fun x => same_value x value) array (seqZ fromIndex (Z.of_nat (length array) - fromIndex)).
Definition last (array : list hval) : hval :=
  let length := Z.of_nat (length array) in
  if negb (length =? 0) then default hundef (array !! Z.to_nat (length - 1)) else hundef.
(** [baseSlice(array, start, end)] with numbers. *)
Definition baseSlice {A} (array : list A) (start : Z) (end_ : option Z) : list A :=
  let length := Z.of_nat (length array) in
  let start := if start <? 0 then (if length <? - start then 0 else length + start) else start in
  let end_ := match end_ with Some e => if length <? e then length else e | None => length end in
  let end_ := if end_ <? 0 then end_ + length else end_ in
  let n := if end_ <? start then 0 else to_uint32 (end_ - start) in
  let start := to_uint32 start in
  take (Z.to_nat n) (drop (Z.to_nat start) array).

Definition isIterateeCall (h : heap) (value : hval) (index : jsval) (object : hval) : res bool :=
  if negb (isObject object) then Ok false
  else
    here ← (match index with
            | VNum _ => b ← isArrayLike h object; n ← length_of h object; Ok (b && isIndex index (Some n))
            | VStr k => Ok (has_own h object k)
            | _ => Ok false
            end);
    if here : bool then
      other ← (match index with VNum (NInt i) => elem h object i | VStr k => get_prop h object k | _ => Ok hundef end);
      Ok (if is_nan value then is_nan other else same_value value other)
    else Ok false.

(** [includes(collection, target, fromIndex, guard)]. *)
Definition includes (h : heap) (collection target : hval) (fromIndex : option Z) (guard : option hval) : res bool :=
  length ← (if htruthy collection then getLength h collection else Ok (HPrim (vint 0)));
  '(collection, length) ← (match length with
    | HPrim (VNum (NInt n)) => if isLength (HPrim (vint n)) then Ok (inl collection, n) else vs ← values h collection; Ok (inr vs, Z.of_nat (List.length vs))
    | _ => vs ← values h collection; Ok (inr vs, Z.of_nat (List.length vs))
    end);
  called ← (match fromIndex, guard with Some i, Some g => isIterateeCall h target (vint i) g | _, _ => Ok false end);
  let fromIndex := match fromIndex with
                   | Some i => if (called : bool) then 0 else if i <? 0 then Z.max (length + i) 0 else i
                   | None => 0
                   end in
  match collection with
  | inl (HPrim (VStr s)) => Ok ((fromIndex <=? length) && (-1 <? indexOf_from s (to_str (prim target)) fromIndex))
  | inl v =>
      match harray h v with
      | Some l => Ok (negb (length =? 0) && (-1 <? baseIndexOf l target fromIndex))
      | None => l ← mapM_res (elem h v) (seqZ 0 length); Ok (negb (length =? 0) && (-1 <? baseIndexOf l target fromIndex))
      end
  | inr l => Ok (negb (length =? 0) && (-1 <? baseIndexOf l target fromIndex))
  end.

(** ** The keys of an object are its own *)

Lemma filter_all {A} (p : A -> bool) l : (forall x, x ∈ l -> p x = true) -> List.filter p l = l.
Proof.
  induction l as [|x l IH]; intros H; [done|]. cbn [List.filter]. rewrite (H x) by (by left). rewrite IH; [done|]. intros y Hy. apply H. by right.
Qed.
Lemma not_array_string h a o : h !! a = Some (CObj o) -> isArray h (HRef a) || isString h (HRef a) = false.
Proof. intros Ha. unfold isArray, harray, isString, objToString. rewrite Ha. reflexivity. Qed.
Lemma keysIn_object h a o : h !! a = Some (CObj o) -> keysIn h (HRef a) = Ok (for_in o).*1.
Proof.
  intros Ha. unfold keysIn. cbn [h_nullish get_prop hget]. rewrite Ha. cbn [mbind res_bind]. rewrite (not_array_string h a o Ha).
  assert (Hk : hkeys h (HRef a) = (for_in o).*1) by (cbn [hkeys]; by rewrite Ha).
  destruct (default hundef (assoc _ o)) as [[]|]; try (by rewrite filter_all by done; rewrite Hk).
  destruct n as [z| |]; rewrite ?andb_false_r; by rewrite filter_all by done; rewrite Hk.
Qed.
Lemma keys_object h a o : h !! a = Some (CObj o) -> keys h (HRef a) = Ok (for_in o).*1.
Proof.
  intros Ha. assert (Hk : hkeys h (HRef a) = (for_in o).*1) by (cbn [hkeys]; by rewrite Ha).
  unfold keys, isArrayLike, getLength, baseProperty. cbn [is_function h_nullish get_prop hget isObject]. rewrite Ha. cbn [mbind res_bind].
  destruct (isLength _); [|by rewrite Hk]. unfold shimKeys. rewrite (keysIn_object h a o Ha). cbn [mbind res_bind get_prop hget]. rewrite Ha, (not_array_string h a o Ha).
  destruct ((for_in o).*1) as [|k l] eqn:E; [done|]. rewrite <- E in *. cbn [mbind res_bind]. rewrite filter_all; [done|].
  intros x Hx. rewrite andb_false_r. unfold has_own. rewrite Hk. by apply bool_decide_eq_true_2.
Qed.
Lemma elem_array h a l i : h !! a = Some (CArr l) -> elem h (HRef a) i = Ok (default hundef (l !! Z.to_nat i)).
Proof. intros Ha. unfold elem, harray. by rewrite Ha. Qed.
Lemma length_array h a l : h !! a = Some (CArr l) -> length_of h (HRef a) = Ok (Z.of_nat (length l)).
Proof. intros Ha. unfold length_of. cbn [get_prop hget]. by rewrite Ha. Qed.
