(* ===== verification/LodashPath.v ===== *)
(** * Property paths

    internal/toPath, internal/isKey, internal/baseGet and utility/property of
    lodash inside swagger-ui.js: the path [a[0].b] of a property below a
    property, or [["a key"]] with the key as a text. *)

From Stdlib Require Import String.
From S2P Require Import Prelude JsNumber JsString JsValue Heap Lodash.

(** ** The regular expressions *)

Definition QUOTE : Z := 34. (* a double quote *)
Definition APOS : Z := 39.
Definition BACKSLASH : Z := 92.
Definition is_quote (c : Z) : bool := (c =? QUOTE) || (c =? APOS).
(** What [.] does not match. *)
Definition line_end (c : Z) : bool := (c =? 10) || (c =? 13) || (c =? 8232) || (c =? 8233).
(** [/[^.[\]]/]. *)
Definition plain_unit (c : Z) : bool := negb ((c =? chr ".") || (c =? chr "[") || (c =? chr "]")).
Definition is_digit (c : Z) : bool := (48 <=? c) && (c <=? 57).
Fixpoint span (p : Z -> bool) (s : jsstr) : jsstr * jsstr :=
  match s with
  | c :: s' => if p c then let '(a, b) := span p s' in (c :: a, b) else ([], s)
  | [] => ([], [])
  end.
(** Digits with a sign and a fraction, and what is behind them. *)
Definition match_number (s : jsstr) : option (jsstr * jsstr) :=
  let '(sign, s) := match s with c :: s' => if c =? chr "-" then ([c], s') else ([], s) | [] => ([], s) end in
  match span is_digit s with
  | ([], _) => None
  | (whole, rest) =>
      match rest with
      | c :: rest' =>
          if c =? chr "." then
            match span is_digit rest' with
            | ([], _) => Some (sign ++ whole, rest)
            | (fraction, rest'') => Some (sign ++ whole ++ c :: fraction, rest'')
            end
          else Some (sign ++ whole, rest)
      | [] => Some (sign ++ whole, rest)
      end
  end.
(** The units up to the closing quote, an escaped one with its backslash. *)
Fixpoint match_quoted (q : Z) (s : jsstr) : option (jsstr * jsstr) :=
  match s with
  | [] => None
  | c :: s' =>
      if c =? q then Some ([], s')
      else if c =? BACKSLASH then
        match s' with
        | d :: s'' => if line_end d then None else (fun r => (c :: d :: r.1, r.2)) <$> match_quoted q s''
        | [] => None
        end
      else if c =? 10 then None
      else (fun r => (c :: r.1, r.2)) <$> match_quoted q s'
  end.
(** [/\\(\\)?/g] by its group. *)
Fixpoint unescape (s : jsstr) : jsstr :=
  match s with
  | [] => []
  | c :: s' =>
      if c =? BACKSLASH then
        match s' with
        | d :: s'' => if d =? BACKSLASH then d :: unescape s'' else unescape s'
        | [] => []
        end
      else c :: unescape s'
  end.
(** A closing bracket. *)
Definition closed (s : jsstr) : option jsstr := match s with c :: s' => if c =? chr "]" then Some s' else None | [] => None end.
(** A key in brackets, behind the opening one: its text and what follows. *)
Definition match_bracket (s : jsstr) : option (jsstr * jsstr) :=
  match match_number s with
  | Some (n, rest) => rest ← closed rest; Some (n, rest)
  | None =>
      match s with
      | q :: s' => if is_quote q then '(t, rest) ← match_quoted q s'; rest ← closed rest; Some (unescape t, rest) else None
      | [] => None
      end
  end.
(** [rePropName] at the beginning: the key it adds to the path. *)
Definition rePropName (s : jsstr) : option (jsstr * jsstr) :=
  match s with
  | [] => None
  | c :: s' => if plain_unit c then Some (span plain_unit s) else if c =? chr "[" then match_bracket s' else None
  end.
(** Every turn takes a unit at least, so that the length is enough. *)
Fixpoint path_loop (fuel : nat) (s : jsstr) : list jsstr :=
  match fuel, s with
  | S fuel, c :: s' => match rePropName s with Some (key, rest) => key :: path_loop fuel rest | None => path_loop fuel s' end
  | _, _ => []
  end.

Definition baseToString (value : jsval) : jsstr := if is_nullish value then [] else to_str value.
Definition toPath (value : jsval) : list jsstr :=
  match value with VArr l => to_str <$> l | _ => let s := baseToString value in path_loop (length s) s end.

(** [reIsDeepProp.test]: a point, or a key in brackets. *)
Definition deep_bracket (s : jsstr) : bool :=
  match (span (fun c => negb ((c =? chr "[") || (c =? chr "]"))) s).2 with
  | c :: _ => c =? chr "]"
  | [] => false
  end ||
  match s with
  | q :: s' => is_quote q && match match_quoted q s' with Some (_, rest) => bool_decide (is_Some (closed rest)) | None => false end
  | [] => false
  end.
Fixpoint reIsDeepProp (s : jsstr) : bool :=
  match s with
  | [] => false
  | c :: s' => (c =? chr ".") || ((c =? chr "[") && deep_bracket s') || reIsDeepProp s'
  end.
(** [/^\w*$/]. *)
Definition word_unit (c : Z) : bool :=
  is_digit c || ((65 <=? c) && (c <=? 90)) || ((97 <=? c) && (c <=? 122)) || (c =? chr "_").

(** [k in toObject(v)]. *)
Definition has_prop (h : heap) (v : hval) (k : jsstr) : bool :=
  has_own h v k || ((isArray h v || isString h v) && bool_decide (k = js "length")).
Definition isKey (h : heap) (value : jsval) (object : option hval) : bool :=
  match value with
  | VNum _ => true
  | VArr _ => false
  | _ =>
      let s := to_str value in
      if is_string value && forallb word_unit s then true
      else negb (reIsDeepProp s) ||
           match object with Some o => negb (h_nullish o) && has_prop h o s | None => false end
  end.

(** ** Following a path *)

(** The object in the end, and how many keys were left. *)
Fixpoint get_loop (h : heap) (object : hval) (path : list jsstr) : res (hval * nat) :=
  match path with
  | [] => Ok (object, O)
  | k :: path' => if h_nullish object then Ok (object, length path) else x ← get_prop h object k; get_loop h x path'
  end.
Definition baseGet (h : heap) (object : hval) (path : list jsstr) (pathKey : option jsstr) : res hval :=
  if h_nullish object then Ok hundef
  else
    let path := match pathKey with Some k => if has_prop h object k then [k] else path | None => path end in
    '(x, more) ← get_loop h object path;
    Ok (if negb (bool_decide (path = [])) && Nat.eqb more 0 then x else hundef).
Definition basePropertyDeep (path : jsval) (h : heap) (object : hval) : res hval :=
  baseGet h object (toPath path) (Some (to_str path)).
Definition property (path : jsval) (h : heap) (object : hval) : res hval :=
  if isKey h path None then baseProperty (to_str path) h object else basePropertyDeep path h object.

Example paths :
  toPath (VStr (js "a[0].b")) = [js "a"; js "0"; js "b"] /\ toPath (VStr (js "a['x.y'][-1.5]")) = [js "a"; js "x.y"; js "-1.5"] /\
  toPath (VStr (js "a['b\'c']")) = [js "a"; js "b'c"] /\ isKey [] (VStr (js "a-b")) None = true /\ isKey [] (VStr (js "a.b")) None = false /\
  toPath (VStr (js "a[b")) = [js "a"; js "b"].
Proof. by vm_compute. Qed.

(** ** A path that is written is read back *)

Definition escape (s : jsstr) : jsstr :=
  List.flat_map (fun c => if (c =? QUOTE) || (c =? BACKSLASH) then [BACKSLASH; c] else [c]) s.
Definition key_text (k : jsstr) : jsstr := chr "[" :: QUOTE :: escape k ++ [QUOTE; chr "]"].
Definition path_text (ks : list jsstr) : jsstr := List.flat_map key_text ks.
Definition one_line (k : jsstr) : Prop := Forall (fun c => c <> 10) k.

Lemma escaped_quoted k rest : one_line k -> match_quoted QUOTE (escape k ++ QUOTE :: rest) = Some (escape k, rest).
Proof.
  induction 1 as [|c k Hc _ IH]; [done|]. cbn [escape flat_map]. fold (escape k). destruct (Z.eqb_spec c QUOTE) as [->|Hq]; cbn [orb].
  - cbn [app match_quoted]. change (BACKSLASH =? QUOTE) with false. rewrite Z.eqb_refl. change (line_end QUOTE) with false. by rewrite IH.
  - destruct (Z.eqb_spec c BACKSLASH) as [->|Hb]; cbn [app match_quoted].
    + change (BACKSLASH =? QUOTE) with false. rewrite Z.eqb_refl. change (line_end BACKSLASH) with false. by rewrite IH.
    + rewrite !(proj2 (Z.eqb_neq _ _)) by done. by rewrite IH.
Qed.
Lemma unescape_quoted k : unescape (escape k) = k.
Proof.
  induction k as [|c k IH]; [done|]. cbn [escape flat_map]. fold (escape k). destruct (Z.eqb_spec c QUOTE) as [->|Hq]; cbn [orb app unescape].
  - rewrite Z.eqb_refl. change (QUOTE =? BACKSLASH) with false. by rewrite IH.
  - destruct (Z.eqb_spec c BACKSLASH) as [->|Hb]; cbn [app unescape].
    + rewrite !Z.eqb_refl. by rewrite IH.
    + rewrite (proj2 (Z.eqb_neq _ _)) by done. by rewrite IH.
Qed.
Lemma key_read k rest : one_line k -> rePropName (key_text k ++ rest) = Some (k, rest).
Proof.
  intros Hk. unfold key_text. cbn [rePropName app]. change (plain_unit (chr "[")) with false. rewrite Z.eqb_refl. cbv iota.
  unfold match_bracket. change (match_number (QUOTE :: _)) with (@None (jsstr * jsstr)). change (is_quote QUOTE) with true. cbv iota.
  rewrite <- app_assoc. change (escape k ++ [QUOTE; chr "]"] ++ rest) with (escape k ++ QUOTE :: chr "]" :: rest).
  rewrite escaped_quoted by done. cbn [mbind option_bind closed].
  rewrite Z.eqb_refl. cbn [mbind option_bind]. by rewrite unescape_quoted.
Qed.
Lemma path_loop_read ks fuel : Forall one_line ks -> (length (path_text ks) <= fuel)%nat -> path_loop fuel (path_text ks) = ks.
Proof.
  intros Hks. revert fuel. induction Hks as [|k ks Hk _ IH]; intros fuel Hf; [by destruct fuel|].
  change (path_text (k :: ks)) with (key_text k ++ path_text ks) in *. rewrite length_app in Hf.
  destruct fuel as [|fuel]; [cbn in Hf; lia|]. cbn [path_loop].
  destruct (key_text k ++ path_text ks) as [|c s] eqn:E; [by cbn in E|]. rewrite <- E, key_read by done.
  rewrite IH; [done|]. cbn [key_text length] in Hf. lia.
Qed.
Lemma toPath_text ks : Forall one_line ks -> toPath (VStr (path_text ks)) = ks.
Proof. intros H. cbn [toPath baseToString is_nullish to_str]. by apply path_loop_read. Qed.

Lemma deep_text k rest : one_line k -> deep_bracket (QUOTE :: escape k ++ QUOTE :: chr "]" :: rest) = true.
Proof.
  intros Hk. unfold deep_bracket. apply orb_true_iff. right. change (is_quote QUOTE) with true. rewrite escaped_quoted by done.
  cbn [closed]. rewrite Z.eqb_refl. by apply bool_decide_eq_true_2.
Qed.
Lemma path_deep ks h : Forall one_line ks -> ks <> [] -> isKey h (VStr (path_text ks)) None = false.
Proof.
  intros Hks Hne. destruct Hks as [|k ks Hk _]; [done|]. cbn [isKey to_str is_string andb]. change (path_text (k :: ks)) with (key_text k ++ path_text ks).
  unfold key_text. cbn [app forallb]. change (word_unit (chr "[")) with false. cbn [andb]. rewrite orb_false_r. apply negb_false_iff. cbn [reIsDeepProp].
  rewrite Z.eqb_refl. rewrite <- app_assoc. cbn [app andb]. rewrite deep_text by done. by rewrite orb_true_r.
Qed.

(** The properties one below the other, [undefined] below nothing. *)
Fixpoint nested (h : heap) (v : hval) (ks : list jsstr) : res hval :=
  match ks with
  | [] => Ok v
  | k :: ks => if h_nullish v then Ok hundef else x ← get_prop h v k; nested h x ks
  end.
Lemma get_loop_nested h ks : forall v, (r ← get_loop h v ks; Ok (if Nat.eqb r.2 0 then r.1 else hundef)) = nested h v ks.
Proof.
  induction ks as [|k ks IH]; intros v; [done|]. cbn [get_loop nested]. destruct (h_nullish v); [done|].
  destruct (get_prop h v k) as [x|]; [|done]. apply IH.
Qed.

(** C22. The property of a path that is written with keys in quotes and
    brackets, whatever is in the keys but a line feed, is the property that
    many levels below, [undefined] where a level is missing; but an object
    that has a property of the whole path as its name gives that one. *)
Theorem property_nested h v ks : Forall one_line ks -> ks <> [] ->
  property (VStr (path_text ks)) h v =
    if negb (h_nullish v) && has_prop h v (path_text ks) then get_prop h v (path_text ks) else nested h v ks.
Proof.
  intros Hks Hne. unfold property. rewrite path_deep by done. unfold basePropertyDeep. rewrite toPath_text by done. unfold baseGet. cbn [to_str].
  rewrite <- get_loop_nested. destruct (h_nullish v) eqn:Hv; cbn [negb andb].
  - destruct ks; [done|]. cbn [get_loop]. by rewrite Hv.
  - destruct (has_prop h v (path_text ks)).
    + rewrite bool_decide_eq_false_2 by done. cbn [get_loop]. rewrite Hv. cbn [negb andb]. by destruct (get_prop h v (path_text ks)).
    + rewrite bool_decide_eq_false_2 by done. cbn [negb andb]. by destruct (get_loop h v ks) as [[x n]|].
Qed.
Definition sample_heap : heap := [CObj [(js "x.y", HRef 1)]; CArr [hstr (js "no"); HRef 2]; CObj [(chr "]" :: [QUOTE; BACKSLASH], hstr (js "yes"))]].
Lemma property_nested_witness :
  property (VStr (path_text [js "x.y"; js "1"; [chr "]"; QUOTE; BACKSLASH]])) sample_heap (HRef 0) = Ok (hstr (js "yes")).
Proof. rewrite (property_nested sample_heap (HRef 0)); [reflexivity| |discriminate]. repeat constructor; discriminate. Defined.
(** A key with a line feed is not read back. *)
Example line_feed_key : toPath (VStr (path_text [[chr "a"; 10; chr "b"]])) = [QUOTE :: [chr "a"; 10; chr "b"; QUOTE]].
Proof. vm_compute. reflexivity. Qed.
