(* ===== verification/LodashClone.v ===== *)
(** * Copies of values

    lang/cloneDeep and internal/baseClone of lodash inside swagger-ui.js: a
    copy of a value and of everything below it, which follows shared parts and
    cycles with two stacks.

    Every object gets an address ([Heap]); a host value (a function, a date, a
    regular expression) has none, so that the copy of one is equal to it.  The
    object made for a value of a class of its own is a plain one, as in the
    code ([initCloneObject]); an array's named properties are not
    represented. *)

From Stdlib Require Import String.
From S2P Require Import Prelude JsNumber JsString JsValue Heap Lodash.

(** [stackA] and [stackB], the last pair first. *)
Abbreviation cstate := (heap * list (nat * nat))%type.
(** [customizer(value)], or [customizer(value, key, object)]. *)
Abbreviation customizer_t := (hval -> option (jsval * hval) -> ST heap hval).

Definition cloneableTags : list jsstr :=
  js <$> ["Arguments"; "Array"; "ArrayBuffer"; "Boolean"; "Date"; "Float32Array"; "Float64Array"; "Int8Array"; "Int16Array";
          "Int32Array"; "Number"; "Object"; "RegExp"; "String"; "Uint8Array"; "Uint8ClampedArray"; "Uint16Array"; "Uint32Array"]%string.

Definition new_cell (c : cell) : ST cstate nat := fun s => ((s.1 ++ [c], s.2), Ok (length s.1)).
(** [new array.constructor(length)], and [new Object]. *)
Definition initCloneArray (length : Z) : ST cstate nat := new_cell (CArr (replicate (Z.to_nat length) hundef)).
Definition initCloneObject : ST cstate nat := new_cell (CObj []).
(** [result[key] = x]. *)
Definition store_cell (key : jsval) (x : hval) (c : cell) : cell :=
  match c, key with
  | CArr l, VNum (NInt i) => CArr (<[Z.to_nat i := x]> l)
  | CObj o, VStr k => CObj (put k x o)
  | _, _ => c
  end.
Definition set_key (b : nat) (key : jsval) (x : hval) : ST cstate unit := modify (fun s => (alter (store_cell key x) b s.1, s.2)).

(** [arrayCopy(value, result)] and [baseAssign(result, value)]: the elements
    and properties themselves. *)
Definition keep (b : nat) (x : hval) (key : jsval) : ST cstate bool := _ ← set_key b key x; mret true.
Definition arrayCopy (value : hval) (b : nat) : ST cstate unit := arrayEach value (keep b).
Definition baseAssign (b : nat) (value : hval) : ST cstate unit := baseForOwn value (keep b).

(** [stackA[length] == value]. *)
Definition on_stack (a : nat) (stack : list (nat * nat)) : option nat :=
  snd <$> List.find (fun p => Nat.eqb p.1 a) stack.
Definition run_customizer (customizer : option customizer_t) (value : hval) (ko : option (jsval * hval)) : ST cstate hval :=
  match customizer with
  | Some f => fun s => let '(h, r) := f value ko s.1 in ((h, s.2), r)
  | None => mret hundef
  end.

(** [ko]: [key] and [object], when there is one. *)
Fixpoint baseClone (fuel : nat) (isDeep : bool) (customizer : option customizer_t) (value : hval) (ko : option (jsval * hval)) : ST cstate hval :=
  match fuel with
  | O => lift (Throw Unsupported)
  | S fuel =>
      result ← run_customizer customizer value ko;
      if negb (h_undef result) then mret result
      else if negb (isObject value) then mret value
      else
        tag ← gets (fun s => objToString s.1 value);
        match value with
        | HRef a =>
            isArr ← gets (fun s => isArray s.1 value);
            n ← (if (isArr : bool) then read (fun h => length_of h value) else mret 0);
            b ← (if (isArr : bool) then initCloneArray n else initCloneObject);
            if negb isDeep then _ ← (if (isArr : bool) then arrayCopy value b else baseAssign b value); mret (HRef b)
            else
              found ← gets (fun s => on_stack a s.2);
              match found with
              | Some b => mret (HRef b)
              | None =>
                  _ ← modify (fun s => (s.1, (a, b) :: s.2));
                  let each_value x k :=
                    r ← baseClone fuel isDeep customizer x (Some (k, value)); _ ← set_key b k r; mret true in
                  _ ← (if (isArr : bool) then arrayEach value each_value else baseForOwn value each_value);
                  mret (HRef b)
              end
        | HPrim _ =>
            if is_function value && bool_decide (ko = None) then b ← initCloneObject; mret (HRef b)
            else if bool_decide (tag ∈ cloneableTags) then mret value
            else match ko with Some _ => mret value | None => b ← initCloneObject; mret (HRef b) end
        end
  end.
(** A value has no more levels than objects, and a stack keeps the recursion
    out of the cycles. *)
Definition cloneDeep (value : hval) (customizer : option customizer_t) : ST heap hval := fun h =>
  let '((h', _), r) := baseClone (S (S (length h))) true customizer value None (h, []) in (h', r).

(** ** What the copy is *)

(** The reference of a copy, the copies of the elements and properties. *)
Definition image (m : list (nat * nat)) (v w : hval) : Prop :=
  match v with HRef a => exists b, (a, b) ∈ m /\ w = HRef b | HPrim _ => w = v end.
Definition cell_image (m : list (nat * nat)) (c d : cell) : Prop :=
  match c, d with
  | CArr l, CArr l' => Forall2 (image m) l l'
  | CObj o, CObj o' => Forall2 (fun kv kv' => kv'.1 = kv.1 /\ image m kv.2 kv'.2) (for_in o) o'
  | _, _ => False
  end.
(** A heap whose objects have their keys once, and refer to objects in it. *)
Definition ref_in (n : nat) (v : hval) : Prop := match v with HRef a => (a < n)%nat | HPrim _ => True end.
Definition closed_cell (n : nat) (c : cell) : Prop :=
  Forall (ref_in n) (cell_refs c) /\ match c with CObj o => NoDup o.*1 | CArr _ => True end.
Definition closed_heap (h : heap) : Prop := Forall (closed_cell (length h)) h.

Lemma stack_grows (new m : list (nat * nat)) : m ⊆ new ++ m.
Proof. intros x Hx. apply elem_of_app. by right. Qed.
Lemma image_mono m m' v w : m ⊆ m' -> image m v w -> image m' v w.
Proof. intros Hm. destruct v; cbn; [done|]. intros (b & Hb & ->). exists b. split; [by apply Hm|done]. Qed.
Lemma cell_image_mono m m' c d : m ⊆ m' -> cell_image m c d -> cell_image m' c d.
Proof.
  intros Hm. destruct c, d; cbn; try done; intros H; (eapply Forall2_impl; [exact H|]).
  - intros x y [? ?]. split; [done|]. by eapply image_mono.
  - intros x y ?. by eapply image_mono.
Qed.

Section copies.
Context (h0 : heap) (h0_closed : closed_heap h0).

(** The stacks pair objects of the heap, each with a copy of its own. *)
Definition inv (s : cstate) : Prop :=
  (exists ext, s.1 = h0 ++ ext) /\ NoDup s.2.*1 /\ NoDup s.2.*2 /\
  Forall (fun p => (p.1 < length h0)%nat /\ (length h0 <= p.2 < length s.1)%nat) s.2.
(** The copies of [new] are done. *)
Definition done_copies (h : heap) (m new : list (nat * nat)) (from : nat) : Prop :=
  Forall (fun p => (from <= p.2)%nat /\ exists c d, h0 !! p.1 = Some c /\ h !! p.2 = Some d /\ cell_image m c d) new.
(** The cells of [h] but one are as they were. *)
Definition others_kept (b : option nat) (h h' : heap) : Prop := forall i c, b <> Some i -> h !! i = Some c -> h' !! i = Some c.

Lemma others_length b h h' : others_kept b h h' -> (forall i, b = Some i -> (i < length h)%nat -> (i < length h')%nat) -> (length h <= length h')%nat.
Proof.
  intros Hk Hb. destruct (decide (length h = O)) as [E|E]; [lia|].
  destruct (lookup_lt_is_Some_2 h (length h - 1)) as [c Hc]; [lia|].
  destruct (decide (b = Some (length h - 1)%nat)) as [E1|E1].
  - specialize (Hb _ E1 ltac:(lia)). lia.
  - specialize (Hk _ _ E1 Hc). apply lookup_lt_Some in Hk. lia.
Qed.
Lemma done_mono h h' m m' new b from : m ⊆ m' -> others_kept b h h' -> (forall i, b = Some i -> (i < from)%nat) ->
  done_copies h m new from -> done_copies h' m' new from.
Proof.
  intros Hm Hk Hb Hd. eapply Forall_impl; [exact Hd|]. intros p (Hp & c & d & Hc & Hdd & Hi). split; [done|].
  exists c, d. split; [done|]. split; [|by eapply cell_image_mono]. apply Hk; [|done]. intros E. specialize (Hb _ E). lia.
Qed.
Lemma done_app h m new new' from : done_copies h m (new ++ new') from <-> done_copies h m new from /\ done_copies h m new' from.
Proof. apply Forall_app. Qed.
Lemma done_from h m new n n' : (n <= n')%nat -> done_copies h m new n' -> done_copies h m new n.
Proof. intros Hn Hd. eapply Forall_impl; [exact Hd|]. intros p (Hp & ?). split; [lia|done]. Qed.

Lemma stack_found a (m : list (nat * nat)) : match on_stack a m with Some b => (a, b) ∈ m | None => a ∉ m.*1 end.
Proof.
  unfold on_stack. induction m as [|[x y] m IH]; cbn [List.find fmap list_fmap fst]; [apply not_elem_of_nil|].
  destruct (Nat.eqb_spec x a) as [->|Hx]; [by left|]. destruct (List.find _ m) as [[a' b']|]; cbn in *; [by right|].
  rewrite not_elem_of_cons. split; [congruence|done].
Qed.
Lemma stack_small s : inv s -> (length s.2 <= length h0)%nat.
Proof.
  intros (_ & Hn & _ & Hf). rewrite <- (length_fmap fst s.2). rewrite <- (length_seq (length h0) 0). apply submseteq_length, NoDup_submseteq; [done|].
  intros a Ha. apply list_elem_of_fmap in Ha as (p & -> & Hp). rewrite Forall_forall in Hf. specialize (Hf _ Hp). apply elem_of_seq. lia.
Qed.

(** What a copy of a value does: [clone] on any state. *)
Definition copies_value (clone : ST cstate hval) (v : hval) (s : cstate) : Prop :=
  exists h' new r, clone s = ((h', new ++ s.2), Ok r) /\ inv (h', new ++ s.2) /\ others_kept None s.1 h' /\
    image (new ++ s.2) v r /\ done_copies h' (new ++ s.2) new (length s.1).

(** ** The loop over the elements or properties *)

Section loop.
Context {K : Type} (get : heap -> K -> res hval) (key : K -> jsval) (clone : hval -> jsval -> ST cstate hval) (b : nat) (cell_of : list hval -> cell) (bound : nat).
Context (ks : list K) (vs : list hval).
Context (get_spec : forall i k h, ks !! i = Some k -> (exists ext, h = h0 ++ ext) -> exists v, vs !! i = Some v /\ get h k = Ok v).
Context (store_spec : forall i k r rs, ks !! i = Some k -> length rs = i -> store_cell (key k) r (cell_of rs) = cell_of (rs ++ [r])).
Context (clone_spec : forall v k s, v ∈ vs -> inv s -> (bound <= length s.2)%nat -> copies_value (clone v k) v s).

Definition each_value (x : hval) (k : jsval) : ST cstate bool := r ← clone x k; _ ← set_key b k r; mret true.

Lemma set_key_run k r h m rs i : ks !! i = Some k -> length rs = i -> h !! b = Some (cell_of rs) ->
  set_key b (key k) r (h, m) = ((<[b := cell_of (rs ++ [r])]> h, m), Ok tt).
Proof.
  intros Hk Hl Hb. unfold set_key, modify. cbn [fst snd]. do 3 f_equal. apply list_eq. intros j. destruct (decide (b = j)) as [<-|Hj].
  - rewrite list_lookup_alter, Hb, list_lookup_insert_eq by (by eapply lookup_lt_Some). cbn [fmap option_fmap option_map]. rewrite decide_True by done. by rewrite (store_spec i k r rs Hk Hl).
  - by rewrite list_lookup_alter_ne, list_lookup_insert_ne by done.
Qed.

Lemma loop_copies l rs h m : ks = take (length rs) ks ++ l -> (length rs <= length ks)%nat -> length vs = length ks ->
  (length h0 <= b)%nat -> h !! b = Some (cell_of rs) -> inv (h, m) -> (bound <= length m)%nat -> 
  exists h' new rs', each get key each_value l (h, m) = ((h', new ++ m), Ok tt) /\ inv (h', new ++ m) /\
    others_kept (Some b) h h' /\ h' !! b = Some (cell_of (rs ++ rs')) /\
    Forall2 (image (new ++ m)) (drop (length rs) vs) rs' /\ done_copies h' (new ++ m) new (length h).
Proof.
  revert rs h m. induction l as [|k l IH]; intros rs h m Hks Hle Hlen Hb0 Hb Hinv Hbound.
  - exists h, [], []. rewrite !app_nil_r. split_and!; try done; [by intros ? ? ?| |constructor].
    rewrite drop_ge; [constructor|]. rewrite app_nil_r in Hks. apply (f_equal length) in Hks. rewrite length_take in Hks. lia.
  - assert (Hk : ks !! length rs = Some k).
    { rewrite Hks, lookup_app_r by (rewrite length_take; lia). rewrite length_take, Nat.min_l, Nat.sub_diag by lia. done. }
    cbn [each]. unfold read at 1. unfold mbind at 1, st_bind at 1. cbn [fst].
    destruct (get_spec _ _ h Hk (proj1 Hinv)) as (v & Hv & ->). unfold mbind at 1, st_bind at 1. unfold each_value at 1. unfold mbind at 1, st_bind at 1.
    destruct (clone_spec v (key k) (h, m)) as (h1 & n1 & r & Hrun & Hinv1 & Hk1 & Hi1 & Hd1); [by eapply list_elem_of_lookup_2|done|done|].
    rewrite Hrun. unfold mbind, st_bind. cbn [fst snd] in *.
    assert (Hb1 : h1 !! b = Some (cell_of rs)) by (by apply Hk1).
    rewrite (set_key_run k r h1 (n1 ++ m) rs (length rs)) by done. unfold mret, st_ret. cbv iota.
    assert (Hlt : (b < length h1)%nat) by (by eapply lookup_lt_Some).
    assert (Hh1 : (length h <= length h1)%nat) by (apply (others_length None); done).
    destruct (IH (rs ++ [r]) (<[b := cell_of (rs ++ [r])]> h1) (n1 ++ m)) as (h' & n2 & rs' & Hrun2 & Hinv2 & Hk2 & Hb2 & Hf2 & Hd2).
    + rewrite length_app, Nat.add_1_r. rewrite (take_S_r _ _ _ Hk), <- app_assoc. exact Hks.
    + apply lookup_lt_Some in Hk. rewrite length_app. cbn. lia.
    + done.
    + done.
    + by rewrite list_lookup_insert_eq.
    + destruct Hinv1 as ((ext & E) & Hn1 & Hn2 & Hf). cbn [fst snd] in *. split_and!; cbn [fst snd]; [|done|done|].
      * exists (<[(b - length h0)%nat := cell_of (rs ++ [r])]> ext). rewrite E, insert_app_r_alt by done. done.
      * eapply Forall_impl; [exact Hf|]. intros p. by rewrite length_insert.
    + rewrite length_app. lia.
    + exists h', (n2 ++ n1), (r :: rs'). rewrite <- !app_assoc in *. rewrite length_insert in *. split; [exact Hrun2|]. split; [done|]. split.
      { intros i c Hi Hc. apply Hk2; [done|]. rewrite list_lookup_insert_ne by congruence. by apply Hk1. }
      split; [exact Hb2|]. split.
      * rewrite (drop_S _ _ _ Hv). rewrite length_app, Nat.add_1_r in Hf2. constructor; [|done]. eapply image_mono; [|exact Hi1]. apply stack_grows.
      * apply done_app. split; [by apply (done_from _ _ _ _ _ Hh1)|].
        apply (done_mono h1 h' (n1 ++ m) (n2 ++ n1 ++ m) n1 (Some b) (length h)); [apply stack_grows| | |done].
        -- intros i c Hi Hc. apply Hk2; [done|]. by rewrite list_lookup_insert_ne by congruence.
        -- intros i [= <-]. by eapply lookup_lt_Some.
Qed.
End loop.

(** ** One object *)

Lemma clone_object fuel a ko h m o : h !! a = Some (CObj o) ->
  baseClone (S fuel) true None (HRef a) ko (h, m) =
  match on_stack a m with
  | Some b => ((h ++ [CObj []], m), Ok (HRef b))
  | None => (_ ← each (fun h k => get_prop h (HRef a) k) VStr (each_value (fun x k => baseClone fuel true None x (Some (k, HRef a))) (length h)) (for_in o).*1;
             mret (HRef (length h))) (h ++ [CObj []], (a, length h) :: m)
  end.
Proof.
  intros Ha. cbn [baseClone run_customizer]. unfold mbind, st_bind, mret, st_ret, gets, modify, read, lift. cbn [fst snd h_undef hundef is_undef negb isObject].
  assert (Harr : isArray h (HRef a) = false) by (unfold isArray, harray; by rewrite Ha). rewrite Harr. cbv iota. unfold initCloneObject, new_cell. cbn [fst snd].
  destruct (on_stack a m) as [b|]; [done|]. unfold baseForOwn, baseFor, createBaseFor, mbind, st_bind, read. cbn [fst snd].
  by rewrite (keys_object _ a o) by (by apply lookup_app_l_Some).
Qed.
Lemma clone_array fuel a ko h m l : h !! a = Some (CArr l) ->
  baseClone (S fuel) true None (HRef a) ko (h, m) =
  match on_stack a m with
  | Some b => ((h ++ [CArr (replicate (length l) hundef)], m), Ok (HRef b))
  | None => (_ ← each (fun h i => elem h (HRef a) i) vint (each_value (fun x k => baseClone fuel true None x (Some (k, HRef a))) (length h)) (seqZ 0 (Z.of_nat (length l)));
             mret (HRef (length h))) (h ++ [CArr (replicate (length l) hundef)], (a, length h) :: m)
  end.
Proof.
  intros Ha. cbn [baseClone run_customizer]. unfold mbind, st_bind, mret, st_ret, gets, modify, read, lift. cbn [fst snd h_undef hundef is_undef negb isObject].
  assert (Harr : isArray h (HRef a) = true) by (unfold isArray, harray; by rewrite Ha). rewrite Harr. cbv beta iota. cbn [fst snd].
  rewrite (length_array h a l Ha). cbv beta iota. unfold initCloneArray, new_cell. cbn [fst snd]. rewrite Nat2Z.id.
  destruct (on_stack a m) as [b|]; [done|]. unfold arrayEach, mbind, st_bind, read. cbn [fst snd].
  by rewrite (length_array _ a l) by (by apply lookup_app_l_Some).
Qed.

(** What the loop leaves is the copy. *)
Lemma copied fuel a h m c init {K} (get : heap -> K -> res hval) key (ks : list K) vs (cell_of : list hval -> cell) :
  let clone := fun x k => baseClone fuel true None x (Some (k, HRef a)) in
  h0 !! a = Some c -> inv (h, m) -> a ∉ m.*1 -> cell_of [] = init ->
  (forall i k h, ks !! i = Some k -> (exists ext, h = h0 ++ ext) -> exists v, vs !! i = Some v /\ get h k = Ok v) ->
  (forall i k r rs, ks !! i = Some k -> length rs = i -> store_cell (key k) r (cell_of rs) = cell_of (rs ++ [r])) ->
  (forall v k s, v ∈ vs -> inv s -> (S (length m) <= length s.2)%nat -> copies_value (clone v k) v s) ->
  length vs = length ks -> (forall m rs, Forall2 (image m) vs rs -> cell_image m c (cell_of rs)) ->
  copies_value (fun _ => (_ ← each get key (each_value clone (length h)) ks; mret (HRef (length h))) (h ++ [init], (a, length h) :: m)) (HRef a) (h, m).
Proof.
  intros clone Hc Hinv Hnot Hinit Hget Hstore Hclone Hlen Himg. destruct Hinv as ((ext & E) & Hn1 & Hn2 & Hf). cbn [fst snd] in *.
  assert (Hlt : (a < length h0)%nat) by (by eapply lookup_lt_Some). assert (Hle : (length h0 <= length h)%nat) by (rewrite E, length_app; lia).
  destruct (loop_copies get key clone (length h) cell_of (S (length m)) ks vs Hget Hstore Hclone ks [] (h ++ [init]) ((a, length h) :: m))
    as (h' & new & rs & Hrun & Hinv & Hk & Hb & Hi & Hd); [done|cbn; lia|done|lia| | |cbn; lia|].
  - rewrite lookup_app_r by lia. by rewrite Nat.sub_diag, Hinit.
  - split_and!; cbn [fst snd].
    + exists (ext ++ [init]). by rewrite E, app_assoc.
    + cbn. by constructor.
    + cbn. constructor; [|done]. intros Hin. apply list_elem_of_fmap in Hin as (p & Ep & Hp). rewrite Forall_forall in Hf. specialize (Hf _ Hp). lia.
    + rewrite length_app. constructor; [cbn; lia|]. eapply Forall_impl; [exact Hf|]. intros p. cbn. lia.
  - exists h', (new ++ [(a, length h)]), (HRef (length h)). rewrite <- app_assoc. cbn [app fst snd]. split; [|split; [done|split; [|split]]].
    + unfold mbind, st_bind. by rewrite Hrun.
    + intros i x _ Hx. apply Hk; [|by apply lookup_app_l_Some]. intros [= E1]. apply lookup_lt_Some in Hx. lia.
    + exists (length h). split; [|done]. apply elem_of_app. right. by left.
    + apply done_app. split; [apply (done_from _ _ _ _ (length (h ++ [init]))); [rewrite length_app; lia|done]|].
      constructor; [|constructor]. cbn [fst snd]. split; [lia|]. exists c, (cell_of rs). split; [done|]. split; [exact Hb|]. by apply Himg.
Qed.

Lemma found_copy h m a b init : inv (h, m) -> (a, b) ∈ m ->
  copies_value (fun _ => ((h ++ [init], m), Ok (HRef b))) (HRef a) (h, m).
Proof.
  intros ((ext & E) & Hn1 & Hn2 & Hf) Hin. cbn [fst snd] in *. exists (h ++ [init]), [], (HRef b). cbn [app fst snd]. split; [done|]. split_and!.
  - split_and!; [|done|done|]; cbn [fst snd].
    + exists (ext ++ [init]). by rewrite E, app_assoc.
    + eapply Forall_impl; [exact Hf|]. intros p. rewrite length_app. lia.
  - intros i c _ Hc. by apply lookup_app_l_Some.
  - by exists b.
  - constructor.
Qed.
Lemma stays v s : inv s -> (forall m, image m v v) -> copies_value (mret v) v s.
Proof. intros Hi Hv. exists s.1, [], v. destruct s as [h m]. cbn [app fst snd] in *. split_and!; [done|done|by intros ???|by apply Hv|constructor]. Qed.

Lemma cell_closed a c : h0 !! a = Some c -> closed_cell (length h0) c.
Proof. intros Hc. unfold closed_heap in h0_closed. rewrite Forall_forall in h0_closed. apply h0_closed. by eapply list_elem_of_lookup_2. Qed.
Lemma lookup_h0 h a c : (exists ext, h = h0 ++ ext) -> h0 !! a = Some c -> h !! a = Some c.
Proof. intros (ext & ->) Hc. by apply lookup_app_l_Some. Qed.
(** What a copy starts as, and its properties so far. *)
Lemma array_store (l rs : list hval) r : (length rs < length l)%nat ->
  <[length rs := r]> (rs ++ replicate (length l - length rs) hundef) = (rs ++ [r]) ++ replicate (length l - length (rs ++ [r])) hundef.
Proof.
  intros Hl. rewrite insert_app_r_alt, Nat.sub_diag, length_app by lia. cbn [length]. rewrite <- app_assoc. f_equal.
  replace (length l - length rs)%nat with (S (length l - (length rs + 1))) by lia. done.
Qed.
Lemma put_new {A} k (x : A) o : k ∉ o.*1 -> put k x o = o ++ [(k, x)].
Proof.
  induction o as [|[k' y] o IH]; [done|]. cbn [fmap list_fmap fst]. rewrite not_elem_of_cons. intros [Hk Hin]. cbn [put].
  rewrite bool_decide_eq_false_2 by congruence. by rewrite IH.
Qed.
Lemma object_store (ks : list jsstr) k r (rs : list hval) : NoDup ks -> ks !! length rs = Some k ->
  put k r (zip (take (length rs) ks) rs) = zip (take (length (rs ++ [r])) ks) (rs ++ [r]).
Proof.
  intros Hn Hk. assert (Hl : (length rs < length ks)%nat) by (by eapply lookup_lt_Some). rewrite put_new.
  - rewrite length_app, Nat.add_1_r, (take_S_r _ _ _ Hk). rewrite zip_with_app; [done|]. rewrite length_take. lia.
  - rewrite fst_zip by (rewrite length_take; lia). rewrite <- (take_drop (length rs) ks), (drop_S _ _ _ Hk) in Hn.
    apply NoDup_app in Hn as (_ & Hn & _). intros Hin. apply (Hn k Hin). by left.
Qed.
Lemma object_image m (ks : list jsstr) vs rs o : for_in o = zip ks vs -> length ks = length vs -> Forall2 (image m) vs rs ->
  cell_image m (CObj o) (CObj (zip (take (length rs) ks) rs)).
Proof.
  intros E Hl Hf. cbn [cell_image]. rewrite E. assert (length vs = length rs) as Hr by (by eapply Forall2_length). rewrite take_ge by lia. clear E.
  revert vs rs Hl Hr Hf. induction ks as [|k ks IH]; intros [|v vs] [|r rs]; cbn [length]; intros; try lia; [constructor|].
  inversion Hf; subst. constructor; [done|]. apply IH; [lia|lia|done].
Qed.

Lemma baseClone_copies fuel : forall v ko s, inv s -> ref_in (length h0) v -> (length h0 < fuel + length s.2)%nat ->
  (ko = None -> match v with HPrim p => is_object p = false | HRef _ => True end) ->
  copies_value (baseClone fuel true None v ko) v s.
Proof.
  induction fuel as [|fuel IH]; intros v ko s Hinv Hv Hf Hko; [pose proof (stack_small s Hinv); lia|].
  destruct v as [p|a].
  - assert (Hrun : baseClone (S fuel) true None (HPrim p) ko s = (s, Ok (HPrim p))).
    { cbn [baseClone run_customizer]. unfold mbind, st_bind, mret, st_ret, gets. cbn [h_undef hundef is_undef negb isObject].
      destruct (is_object p) eqn:Ho; [|done]. cbn [negb]. destruct ko as [[k x]|]; [|by specialize (Hko eq_refl)].
      rewrite bool_decide_eq_false_2, andb_false_r by done. by destruct (bool_decide _). }
    destruct (stays (HPrim p) s Hinv) as (h' & new & r & E & H); [done|]. exists h', new, r. by rewrite Hrun.
  - cbn [ref_in] in Hv. destruct (lookup_lt_is_Some_2 _ _ Hv) as [c Hc]. pose proof (cell_closed a c Hc) as [Hrefs Hkeys]. destruct s as [h m].
    assert (Hsub : forall x, x ∈ cell_refs c -> ref_in (length h0) x) by (by apply Forall_forall). pose proof (stack_found a m) as Hs.
    destruct c as [o|l].
    + unfold copies_value. rewrite (clone_object fuel a ko h m o) by (eapply lookup_h0; [apply Hinv|done]). destruct (on_stack a m) as [b|]; [by apply (found_copy h m a b)|].
      apply (copied fuel a h m (CObj o) (CObj []) _ VStr (for_in o).*1 (for_in o).*2 (fun rs => CObj (zip (take (length rs) (for_in o).*1) rs))); try done.
      * intros i k h' Hk Hh. apply list_lookup_fmap_Some in Hk as ([k' x] & -> & Hk). exists x. split; [by rewrite list_lookup_fmap, Hk|].
        cbn [get_prop hget fst]. rewrite (lookup_h0 h' a (CObj o)) by done. cbn [default]. do 2 f_equal.
        rewrite (assoc_in_nodup k' x o); [done|done|]. apply for_in_elem. by eapply list_elem_of_lookup_2.
      * intros i k r rs Hk <-. cbn [store_cell]. f_equal. apply object_store; [|done]. by rewrite for_in_perm.
      * intros x k s Hx Hs' Hl. apply IH; [done| |cbn [snd] in *; lia|done]. apply Hsub. cbn [cell_refs].
        apply list_elem_of_fmap in Hx as (kv & -> & Hx). apply list_elem_of_fmap. exists kv. split; [done|]. by apply for_in_elem.
      * by rewrite !length_fmap.
      * intros m' rs Hi. apply (object_image m' _ (for_in o).*2); [|by rewrite !length_fmap|done]. by rewrite zip_fst_snd.
    + unfold copies_value. rewrite (clone_array fuel a ko h m l) by (eapply lookup_h0; [apply Hinv|done]). destruct (on_stack a m) as [b|]; [by apply (found_copy h m a b)|].
      apply (copied fuel a h m (CArr l) _ _ vint (seqZ 0 (Z.of_nat (length l))) l (fun rs => CArr (rs ++ replicate (length l - length rs) hundef))); try done.
      * cbn [app length]. by rewrite Nat.sub_0_r.
      * intros i k h' Hk Hh. apply lookup_seqZ in Hk as [-> Hk]. destruct (lookup_lt_is_Some_2 l i) as [x Hx]; [lia|]. exists x. split; [done|].
        rewrite (elem_array h' a l) by (by apply lookup_h0). replace (Z.to_nat (0 + Z.of_nat i)) with i by lia. by rewrite Hx.
      * intros i k r rs Hk <-. apply lookup_seqZ in Hk as [-> Hk]. cbn [store_cell vint]. f_equal. replace (Z.to_nat (0 + _)) with (length rs) by lia.
        apply array_store. lia.
      * intros x k s Hx Hs' Hl. apply IH; [done| |cbn [snd] in *; lia|done]. by apply Hsub.
      * rewrite length_seqZ. lia.
      * intros m' rs Hi. cbn [cell_image]. rewrite (Forall2_length _ _ _ Hi), Nat.sub_diag. cbn [replicate]. by rewrite app_nil_r.
Qed.
End copies.

(** C18. [cloneDeep] of a value that is a primitive, an array or an object ends,
    whatever cycles and shared parts are below it, and changes no object there
    was: it returns a copy, in which every object reached from the value has
    one new object in its place (two places that held the same object hold the
    same copy), with the copies of its elements or properties in order. *)
Theorem cloneDeep_copies h v : closed_heap h -> ref_in (length h) v -> (forall p, v = HPrim p -> is_object p = false) ->
  exists ext m r, cloneDeep v None h = (h ++ ext, Ok r) /\ image m v r /\ NoDup m.*1 /\ NoDup m.*2 /\
    Forall (fun p => (length h <= p.2)%nat /\ exists c d, h !! p.1 = Some c /\ (h ++ ext) !! p.2 = Some d /\ cell_image m c d) m.
Proof.
  intros Hh Hv Hp. destruct (baseClone_copies h Hh (S (S (length h))) v None (h, [])) as (h' & new & r & Hrun & Hinv & _ & Hi & Hd).
  - split_and!; [by exists []; rewrite app_nil_r|constructor|constructor|constructor].
  - done.
  - cbn [snd length]. lia.
  - intros _. destruct v; [by apply Hp|done].
  - cbn [snd] in *. rewrite app_nil_r in *. destruct Hinv as ((ext & E) & Hn1 & Hn2 & _). cbn [fst snd] in *. subst h'.
    exists ext, new, r. unfold cloneDeep. by rewrite Hrun.
Qed.
(** A cycle, and an object in two places. *)
Definition cyclic_heap : heap :=
  [CObj [(js "self", HRef 0); (js "list", HRef 1); (js "again", HRef 2)]; CArr [HRef 2; HPrim (vint 1); HRef 2]; CObj []].
Lemma cyclic_closed : closed_heap cyclic_heap.
Proof.
  unfold closed_heap, closed_cell, cyclic_heap. apply Forall_cons; split; [|apply Forall_cons; split; [|apply Forall_singleton]];
    (split; [repeat constructor; cbn; lia|]); try exact I; apply (bool_decide_unpack _); vm_compute; exact I.
Qed.
Lemma cloneDeep_copies_witness : closed_heap cyclic_heap /\
  exists ext m r, cloneDeep (HRef 0) None cyclic_heap = (cyclic_heap ++ ext, Ok r) /\ image m (HRef 0) r /\ NoDup m.*1 /\ NoDup m.*2 /\
    Forall (fun p => (length cyclic_heap <= p.2)%nat /\ exists c d, cyclic_heap !! p.1 = Some c /\ (cyclic_heap ++ ext) !! p.2 = Some d /\ cell_image m c d) m.
Proof. split; [exact cyclic_closed|]. apply cloneDeep_copies; [exact cyclic_closed|cbn; lia|intros p H; discriminate]. Defined.
Example clone_of_cycle : cloneDeep (HRef 0) None cyclic_heap =
  (cyclic_heap ++ [CObj [(js "self", HRef 3); (js "list", HRef 5); (js "again", HRef 6)]; CObj [];
                   CArr [HRef 6; HPrim (vint 1); HRef 6]; CObj []; CObj []; CObj []], Ok (HRef 3)).
Proof. by vm_compute. Qed.
