(* ===== verification/LodashEqual.v ===== *)
(** * Comparing values

    internal/baseIsEqual and what it calls, and the predicates made of an
    object or of a path ([baseMatches], [baseMatchesProperty]), of lodash inside
    swagger-ui.js.

    [isLoose] is the comparison of these predicates: the other value may have
    more.  A customizer is a function without effects.  What the code asks of
    host values (dates, errors, regular expressions, wrappers) is a parameter;
    typed arrays have no elements here. *)

From Stdlib Require Import String.
From S2P Require Import Prelude JsNumber JsString JsValue Heap Lodash LodashPath.
#[local] Set Warnings "-register-all".

Section equal.
Context (h : heap).
(** [+v] and [v + ''] of a host value, [name] and [message] of an error, and
    [v.value()] of a wrapped value. *)
Context (host_number : jsval -> jsnum) (host_text : jsval -> jsstr) (error_parts : jsval -> jsstr * jsstr) (unwrap : hval -> res hval).
Context (customizer : option (hval -> hval -> jsval -> jsval)) (isLoose : bool).

Definition to_number (v : jsval) : jsnum :=
  match v with VNum n => n | VBool b => NInt (if b then 1 else 0) | _ => host_number v end.
Definition to_text (v : jsval) : jsstr := match v with VHost _ _ => host_text v | _ => to_str v end.
Definition num_eq (m n : jsnum) : bool := strict_eq (VNum m) (VNum n).
Definition equalByTag (object other : jsval) (tag : jsstr) : bool :=
  if bool_decide (tag ∈ js <$> ["Boolean"; "Date"]%string) then num_eq (to_number object) (to_number other)
  else if bool_decide (tag = js "Error") then bool_decide (error_parts object = error_parts other)
  else if bool_decide (tag = js "Number") then
    match to_number object with NNaN => bool_decide (to_number other = NNaN) | n => num_eq n (to_number other) end
  else if bool_decide (tag ∈ js <$> ["RegExp"; "String"]%string) then bool_decide (to_text object = to_text other)
  else false.

Definition typedArrayTags : list jsstr :=
  js <$> ["Float32Array"; "Float64Array"; "Int8Array"; "Int16Array"; "Int32Array"; "Uint8Array"; "Uint8ClampedArray"; "Uint16Array"; "Uint32Array"]%string.
Definition isTypedArray (v : hval) : bool :=
  isObjectLike v && match get_prop h v (js "length") with Ok n => isLength n | Throw _ => false end &&
  bool_decide (objToString h v ∈ typedArrayTags).
(** The tag that is compared, and whether the value has elements. *)
Definition kind_of_value (v : hval) : jsstr * bool :=
  if isArray h v then (js "Array", true)
  else
    let tag := objToString h v in
    if bool_decide (tag = js "Arguments") then (js "Object", false)
    else if bool_decide (tag = js "Object") then (tag, false)
    else (tag, isTypedArray v).

(** [customizer(isLoose ? othValue : objValue, isLoose ? objValue : othValue, key)]. *)
Definition customized (objValue othValue : hval) (key : jsval) : jsval :=
  match customizer with
  | Some f => if isLoose then f othValue objValue key else f objValue othValue key
  | None => VUndef
  end.
(** The answer of the customizer, or else the comparison. *)
Definition answer (result : jsval) (compare : res bool) : res bool := if is_undef result then compare else Ok (truthy result).

(** Until a test fails, or passes. *)
Fixpoint all_res {A} (test : A -> res bool) (l : list A) : res bool :=
  match l with [] => Ok true | x :: l => b ← test x; if (b : bool) then all_res test l else Ok false end.
Fixpoint some_res {A} (test : A -> res bool) (l : list A) : res bool :=
  match l with [] => Ok false | x :: l => b ← test x; if (b : bool) then Ok true else some_res test l end.

Section deep.
(** [equalFunc] with the stacks as they are. *)
Context (equalFunc : hval -> hval -> res bool).

Definition equal_or (x y : hval) : res bool := if same_value x y then Ok true else equalFunc x y.
Definition equalArrays (array other : list hval) : res bool :=
  let arrLength := length array in let othLength := length other in
  if negb (Nat.eqb arrLength othLength) && negb (isLoose && (arrLength <? othLength)%nat) then Ok false
  else
    all_res (fun ix =>
      let othValue := default hundef (other !! ix.1) in
      answer (customized ix.2 othValue (vint (Z.of_nat ix.1)))
        (if isLoose then some_res (equal_or ix.2) other else equal_or ix.2 othValue)) (imap pair array).

(** [v.constructor], inherited from [Object] when it is not the object's own,
    and the functions that are instances of themselves. *)
Definition constructor_of (v : hval) : res hval :=
  if has_own h v (js "constructor") then get_prop h v (js "constructor") else Ok (HPrim (VHost (js "Function") (js "Object"))).
Definition own_instance (v : hval) : bool :=
  match v with HPrim (VHost tag name) => bool_decide (tag = js "Function") && bool_decide (name ∈ js <$> ["Object"; "Function"]%string) | _ => false end.
Definition same_constructor (v w : hval) : bool :=
  match v, w with HPrim (VHost t n), HPrim (VHost t' n') => bool_decide (t = t' /\ n = n') | _, _ => same_value v w end.
Definition equalObjects (object other : hval) : res bool :=
  objProps ← keys h object; othProps ← keys h other;
  if negb (Nat.eqb (length objProps) (length othProps)) && negb isLoose then Ok false
  else if negb (forallb (fun key => if isLoose then has_prop h other key else has_own h other key) (rev objProps)) then Ok false
  else
    same ← all_res (fun key =>
      objValue ← get_prop h object key; othValue ← get_prop h other key;
      answer (customized objValue othValue (VStr key)) (equalFunc objValue othValue)) objProps;
    if negb same then Ok false
    else if isLoose || bool_decide (js "constructor" ∈ objProps) then Ok true
    else objCtor ← constructor_of object; othCtor ← constructor_of other;
         Ok (same_constructor objCtor othCtor || (own_instance objCtor && own_instance othCtor)).
End deep.

(** The stacks are a list of pairs, the last first. *)
Definition baseIsEqualDeep (equalFunc : list (nat * nat) -> hval -> hval -> res bool) (stack : list (nat * nat)) (object other : hval) : res bool :=
  let '(objTag, objIsArr) := kind_of_value object in
  let '(othTag, othIsArr) := kind_of_value other in
  let objIsObj := bool_decide (objTag = js "Object") in
  let othIsObj := bool_decide (othTag = js "Object") in
  let isSameTag := bool_decide (objTag = othTag) in
  if isSameTag && negb (objIsArr || objIsObj) then Ok (equalByTag (prim object) (prim other) objTag)
  else
    let objIsWrapped := negb isLoose && objIsObj && has_own h object (js "__wrapped__") in
    let othIsWrapped := negb isLoose && othIsObj && has_own h other (js "__wrapped__") in
    if objIsWrapped || othIsWrapped then
      v ← (if objIsWrapped then unwrap object else Ok object);
      w ← (if othIsWrapped then unwrap other else Ok other);
      equalFunc stack v w
    else if negb isSameTag then Ok false
    else
      match object, other with
      | HRef a, HRef b =>
          match List.find (fun p => Nat.eqb p.1 a) stack with
          | Some p => Ok (Nat.eqb p.2 b)
          | None =>
              let equalFunc := equalFunc ((a, b) :: stack) in
              match harray h object, harray h other with
              | Some l, Some l' => equalArrays equalFunc l l'
              | _, _ => equalObjects equalFunc object other
              end
          end
      | _, _ => Throw Unsupported
      end.
Fixpoint baseIsEqual (fuel : nat) (stack : list (nat * nat)) (value other : hval) : res bool :=
  match fuel with
  | O => Throw Unsupported
  | S fuel =>
      if same_value value other then Ok true
      else if h_nullish value || h_nullish other || (negb (isObject value) && negb (isObjectLike other)) then
        Ok (is_nan value && is_nan other)
      else baseIsEqualDeep (baseIsEqual fuel) stack value other
  end.
End equal.

(** ** Predicates made of values *)

Section matches.
Context (host_number : jsval -> jsnum) (host_text : jsval -> jsstr) (error_parts : jsval -> jsstr * jsstr) (unwrap : heap -> hval -> res hval).
Abbreviation is_equal h customizer fuel := (baseIsEqual h host_number host_text error_parts (unwrap h) customizer true fuel []).

(** A key, its value, and whether [===] is enough. *)
Definition match_data := (jsstr * hval * bool)%type.
Definition getMatchData (h : heap) (object : hval) : res (list match_data) :=
  ps ← pairs h object; Ok ((fun kv : jsstr * hval => (kv, isStrictComparable kv.2)) <$> (ps : list (jsstr * hval))).

(** The values compared deeply are at most as deep as the heap is large. *)
Definition deep_fuel (h : heap) : nat := S (S (length h)).
Definition baseIsMatch (h : heap) (object : hval) (matchData : list match_data) (customizer : option (hval -> hval -> jsval -> jsval)) : res bool :=
  let noCustomizer := bool_decide (customizer = None) in
  if h_nullish object then Ok (bool_decide (length matchData = O))
  else
    first ← all_res (fun '(key, value, strict) =>
      if noCustomizer && strict then x ← get_prop h object key; Ok (same_value value x) else Ok (has_prop h object key)) (rev matchData);
    if negb first then Ok false
    else
      all_res (fun '(key, srcValue, strict) =>
        objValue ← get_prop h object key;
        if noCustomizer && strict then Ok (negb (h_undef objValue) || has_prop h object key)
        else
          let result := match customizer with Some f => f objValue srcValue (VStr key) | None => VUndef end in
          if is_undef result then is_equal h customizer (deep_fuel h) srcValue objValue else Ok (truthy result)) matchData.
(** The predicate of an object: its keys and values are read now, in the heap
    [h0], the objects in them when the predicate is called. *)
Definition baseMatches (h0 : heap) (source : hval) : res (heap -> hval -> res bool) :=
  matchData ← getMatchData h0 source;
  Ok (fun h object =>
    match matchData with
    | [(key, value, true)] =>
        if h_nullish object then Ok false
        else x ← get_prop h object key; Ok (same_value x value && (negb (h_undef value) || has_prop h object key))
    | _ => baseIsMatch h object matchData None
    end).
Definition baseMatchesProperty (path : jsval) (srcValue : hval) (h : heap) (object : hval) : res bool :=
  let isArr := is_array path in
  let isCommon := isKey h path None && isStrictComparable srcValue in
  let keys := toPath path in
  let compare object key :=
    x ← get_prop h object key;
    if same_value x srcValue then Ok (negb (h_undef srcValue) || has_prop h object key)
    else is_equal h None (deep_fuel h) srcValue x in
  if h_nullish object then Ok false
  else if (isArr || negb isCommon) && negb (has_prop h object (to_str path)) then
    object ← (if Nat.eqb (length keys) 1 then Ok object else baseGet h object (baseSlice keys 0 (Some (-1))) None);
    if h_nullish object then Ok false else compare object (to_str (prim (last (hstr <$> keys))))
  else compare object (to_str path).

(** What an iteratee is made of, and calling it. *)
Inductive iteratee :=
| Called (func thisArg : hval)
| Identity
| Matches (predicate : heap -> hval -> res bool)
| Property (path : jsval)
| MatchesProperty (path : jsval) (srcValue : hval).
Definition baseCallback (h0 : heap) (func thisArg : hval) : res iteratee :=
  if is_function func then Ok (Called func thisArg)
  else if h_nullish func then Ok Identity
  else if isObject func then predicate ← baseMatches h0 func; Ok (Matches predicate)
  else if h_undef thisArg then Ok (Property (prim func))
  else Ok (MatchesProperty (prim func) thisArg).
Definition call_iteratee (call : hval -> hval -> heap -> hval -> res hval) (i : iteratee) (h : heap) (value : hval) : res hval :=
  match i with
  | Called func thisArg => call func thisArg h value
  | Identity => Ok value
  | Matches predicate => b ← predicate h value; Ok (HPrim (VBool b))
  | Property path => property path h value
  | MatchesProperty path srcValue => b ← baseMatchesProperty path srcValue h value; Ok (HPrim (VBool b))
  end.
End matches.

(** A cycle in one place is not the same as one in another, even where
    everything that can be read from the two is. *)
Example unrolled_cycle :
  let h := [CObj [(js "x", HRef 0)]; CObj [(js "x", HRef 2)]; CObj [(js "x", HRef 1)]] in
  let equal a b := baseIsEqual h (fun _ => NNaN) (fun _ => []) (fun _ => ([], [])) (fun v => Ok v) None false 10 [] (HRef a) (HRef b) in
  equal 0%nat 1%nat = Ok false /\ equal 1%nat 2%nat = Ok true.
Proof. by vm_compute. Qed.

(** ** On documents *)

(** The comparison of trees: all elements and keys, or those of the first
    value, in whatever order the keys are. *)
Fixpoint tree_eq (loose : bool) (t u : jsval) : bool :=
  match t, u with
  | VArr l, VArr m =>
      if loose then (length l <=? length m)%nat && forallb (fun x => existsb (tree_eq loose x) m) l
      else (fix go l m := match l, m with
                          | [], [] => true
                          | x :: l, y :: m => tree_eq loose x y && go l m
                          | _, _ => false
                          end) l m
  | VObj o, VObj p =>
      (loose || Nat.eqb (length o) (length p)) &&
      forallb (fun kv => match assoc kv.1 p with Some y => tree_eq loose kv.2 y | None => false end) o
  | VArr _, _ | _, VArr _ | VObj _, _ | _, VObj _ => false
  | VNum NNaN, VNum NNaN => true
  | _, _ => strict_eq t u
  end.
(** No host values, the keys of an object once, and no wrapped value. *)
Fixpoint plain_tree (t : jsval) : Prop :=
  match t with
  | VHost _ _ => False
  | VArr l => foldr (fun x P => plain_tree x /\ P) True l
  | VObj o => NoDup o.*1 /\ js "__wrapped__" ∉ o.*1 /\ foldr (fun kv P => plain_tree kv.2 /\ P) True o
  | _ => True
  end.

Lemma foldr_and {A} (P : A -> Prop) l : foldr (fun x Q => P x /\ Q) True l <-> Forall P l.
Proof. induction l as [|x l IH]; cbn; [by rewrite Forall_nil|]. by rewrite Forall_cons, IH. Qed.
Lemma plain_array l : plain_tree (VArr l) <-> Forall plain_tree l.
Proof. cbn [plain_tree]. apply foldr_and. Qed.
Lemma plain_object o : plain_tree (VObj o) <-> NoDup o.*1 /\ js "__wrapped__" ∉ o.*1 /\ Forall (fun kv => plain_tree kv.2) o.
Proof. cbn [plain_tree]. by rewrite (foldr_and (fun kv : jsstr * jsval => plain_tree kv.2)). Qed.

Lemma all_res_forallb {A} (test : A -> res bool) (f : A -> bool) l :
  (forall x, x ∈ l -> test x = Ok (f x)) -> all_res test l = Ok (forallb f l).
Proof.
  induction l as [|x l IH]; intros H; [done|]. cbn [all_res forallb]. rewrite (H x) by (by left). cbn [mbind res_bind].
  destruct (f x); [|done]. apply IH. intros y Hy. apply H. by right.
Qed.
Lemma some_res_existsb {A} (test : A -> res bool) (f : A -> bool) l :
  (forall x, x ∈ l -> test x = Ok (f x)) -> some_res test l = Ok (existsb f l).
Proof.
  induction l as [|x l IH]; intros H; [done|]. cbn [some_res existsb]. rewrite (H x) by (by left). cbn [mbind res_bind].
  destruct (f x); [done|]. apply IH. intros y Hy. apply H. by right.
Qed.
Lemma forallb_perm {A} (f : A -> bool) l m : l ≡ₚ m -> forallb f l = forallb f m.
Proof. induction 1; cbn; try congruence. by rewrite !andb_assoc, (andb_comm (f x)). Qed.

(** ** The tree below a value *)

Section trees.
Context (h : heap).
Fixpoint tree_of (t : jsval) (v : hval) : Prop :=
  match t with
  | VArr l' => exists a l, v = HRef a /\ h !! a = Some (CArr l) /\
      (fix go l' l := match l', l with [], [] => True | t :: l', x :: l => tree_of t x /\ go l' l | _, _ => False end) l' l
  | VObj o' => exists a o, v = HRef a /\ h !! a = Some (CObj o) /\
      (fix go o' o := match o', o with
                      | [], [] => True
                      | (k, t) :: o', (k', x) :: o => k' = k /\ tree_of t x /\ go o' o
                      | _, _ => False
                      end) o' o
  | _ => v = HPrim t
  end.
Lemma tree_array l' v : tree_of (VArr l') v <-> exists a l, v = HRef a /\ h !! a = Some (CArr l) /\ Forall2 tree_of l' l.
Proof.
  cbn [tree_of]. assert (E : forall l' l, (fix go l' l := match l', l with [], [] => True | t :: l', x :: l => tree_of t x /\ go l' l | _, _ => False end) l' l <->
    Forall2 tree_of l' l).
  { clear l'. induction l' as [|t l' IH]; intros [|x l]; try (split; [done|]; intros H; by inversion H).
    rewrite IH. split; [intros [? ?]; by constructor|intros H; by inversion H]. }
  by setoid_rewrite E.
Qed.
Lemma tree_object o' v : tree_of (VObj o') v <->
  exists a o, v = HRef a /\ h !! a = Some (CObj o) /\ Forall2 (fun kv' kv => kv.1 = kv'.1 /\ tree_of kv'.2 kv.2) o' o.
Proof.
  cbn [tree_of]. assert (E : forall o' o, (fix go o' o := match o', o with
                      | [], [] => True
                      | (k, t) :: o', (k', x) :: o => k' = k /\ tree_of t x /\ go o' o
                      | _, _ => False
                      end) o' o <-> Forall2 (fun kv' kv : jsstr * _ => kv.1 = kv'.1 /\ tree_of kv'.2 kv.2) o' o).
  { clear o'. induction o' as [|[k t] o' IH]; intros [|[k' x] o]; try (split; [done|]; intros H; by inversion H).
    rewrite IH. split; [intros (? & ? & ?); by constructor|intros H; inversion H; tauto]. }
  by setoid_rewrite E.
Qed.
Lemma tree_unique t : forall u v, tree_of t v -> tree_of u v -> t = u.
Proof.
  induction t as [| | | | |l IH|o IH|] using jsval_nested_ind; intros u v Ht Hu; try (cbn in Ht; subst v; destruct u; cbn in Hu; try congruence;
    destruct Hu as (? & ? & ? & _); congruence).
  - apply tree_array in Ht as (a & x & -> & Ha & Hx). destruct u as [| | | | |l'|o'|]; cbn in Hu; try congruence.
    + fold (tree_of (VArr l') (HRef a)) in Hu. apply tree_array in Hu as (a' & x' & [= <-] & Ha' & Hx'). rewrite Ha in Ha'. injection Ha' as <-. f_equal.
      clear Ha. revert l' x Hx Hx'. induction IH as [|t l Ht _ IHl]; intros l' x Hx Hx'; inversion Hx; subst; inversion Hx'; subst; [done|].
      f_equal; [by eapply Ht|by eapply IHl].
    + destruct Hu as (? & ? & [= <-] & ? & _). congruence.
  - apply tree_object in Ht as (a & x & -> & Ha & Hx). destruct u as [| | | | |l'|o'|]; cbn in Hu; try congruence.
    + destruct Hu as (? & ? & [= <-] & ? & _). congruence.
    + fold (tree_of (VObj o') (HRef a)) in Hu. apply tree_object in Hu as (a' & x' & [= <-] & Ha' & Hx'). rewrite Ha in Ha'. injection Ha' as <-. f_equal.
      clear Ha. revert o' x Hx Hx'. induction IH as [|[k t] o Ht _ IHl]; intros o' x Hx Hx'; inversion Hx as [|? [k1 x1] ? ? [E1 T1]]; subst; inversion Hx' as [|[k2 t2] ? ? ? [E2 T2]]; subst; [done|].
      cbn in *. subst. f_equal; [f_equal; by eapply Ht|by eapply IHl].
Qed.
Lemma depth_array l x : x ∈ l -> (vdepth x < vdepth (VArr l))%nat.
Proof.
  cbn [vdepth]. induction l as [|y l IH]; intros Hx; [by apply not_elem_of_nil in Hx|]. cbn [foldr]. apply elem_of_cons in Hx as [->|Hx]; [lia|].
  specialize (IH Hx). lia.
Qed.
Lemma depth_object (o : obj) kv : kv ∈ o -> (vdepth kv.2 < vdepth (VObj o))%nat.
Proof.
  cbn [vdepth]. induction o as [|y o IH]; intros Hx; [by apply not_elem_of_nil in Hx|]. cbn [foldr]. apply elem_of_cons in Hx as [->|Hx]; [lia|].
  specialize (IH Hx). lia.
Qed.
End trees.

(** ** The comparison is that of the trees *)

Lemma kind_array h a l : h !! a = Some (CArr l) -> kind_of_value h (HRef a) = (js "Array", true).
Proof. intros Ha. unfold kind_of_value, isArray, harray. by rewrite Ha. Qed.
Lemma kind_object h a o : h !! a = Some (CObj o) -> kind_of_value h (HRef a) = (js "Object", false).
Proof. intros Ha. unfold kind_of_value, isArray, harray, objToString. rewrite Ha. reflexivity. Qed.
Lemma own_object h a o k : h !! a = Some (CObj o) -> has_own h (HRef a) k = bool_decide (k ∈ o.*1).
Proof. intros Ha. unfold has_own. cbn [hkeys]. rewrite Ha. apply bool_decide_ext. by rewrite for_in_perm. Qed.
Lemma prop_object h a o k : h !! a = Some (CObj o) -> get_prop h (HRef a) k = Ok (default hundef (assoc k o)).
Proof. intros Ha. cbn [get_prop hget]. by rewrite Ha. Qed.
Lemma has_prop_object h a o k : h !! a = Some (CObj o) -> has_prop h (HRef a) k = bool_decide (k ∈ o.*1).
Proof. intros Ha. unfold has_prop. rewrite (not_array_string h a o Ha). cbn [andb]. by rewrite orb_false_r, (own_object h a o). Qed.

Lemma forallb_ext_in {A} (f g : A -> bool) l : (forall x, x ∈ l -> f x = g x) -> forallb f l = forallb g l.
Proof.
  induction l as [|x l IH]; intros H; [done|]. cbn [forallb]. rewrite (H x) by (by left). f_equal. apply IH. intros y Hy. apply H. by right.
Qed.
Lemma tree_eq_refl loose t : plain_tree t -> tree_eq loose t t = true.
Proof.
  induction t as [| |[]|[]| |l IH|o IH|] using jsval_nested_ind; intros Ht; try done.
  - apply Z.eqb_refl.
  - cbn. by apply bool_decide_eq_true_2.
  - cbn. by apply bool_decide_eq_true_2.
  - apply plain_array in Ht. assert (Hall : Forall (fun x => tree_eq loose x x = true) l).
    { apply Forall_forall. intros x Hx. rewrite Forall_forall in IH, Ht. by apply IH, Ht. } clear IH Ht. cbn [tree_eq]. destruct loose.
    + rewrite (proj2 (Nat.leb_le _ _)) by done. apply forallb_forall. intros x Hx. apply existsb_exists. exists x. split; [done|].
      rewrite Forall_forall in Hall. by apply Hall, list_elem_of_In.
    + induction Hall as [|x l Hx _ IHl]; [done|]. by rewrite Hx, IHl.
  - apply plain_object in Ht as (Hn & _ & Ht). cbn [tree_eq]. rewrite Nat.eqb_refl, orb_true_r. apply forallb_forall. intros [k x] Hx. apply list_elem_of_In in Hx.
    cbn [fst snd]. rewrite (assoc_in_nodup k x o Hn Hx). rewrite Forall_forall in IH, Ht. by apply (IH _ Hx), (Ht _ Hx).
Qed.

Lemma all_res_index {A B} (test : A -> res bool) (f : nat -> A -> B) l (snd_ : B -> A) : (forall i x, snd_ (f i x) = x) ->
  all_res (fun ix => test (snd_ ix)) (imap f l) = all_res test l.
Proof.
  revert f. induction l as [|x l IH]; intros f Hf; [done|]. cbn [imap all_res]. rewrite Hf. destruct (test x) as [[]|]; cbn [mbind res_bind]; [|done..].
  apply (IH (f ∘ S)). intros i y. apply Hf.
Qed.
Lemma all_res_trees {A B} (R : B -> A -> Prop) (test : A -> res bool) (f : B -> bool) l' l : Forall2 R l' l ->
  (forall t x, t ∈ l' -> R t x -> test x = Ok (f t)) -> all_res test l = Ok (forallb f l').
Proof.
  induction 1 as [|t x l' l Hr _ IH]; intros H; [done|]. cbn [all_res forallb]. rewrite (H t x) by (done || by left). cbn [mbind res_bind].
  destruct (f t); [|done]. apply IH. intros y z Hy. apply H. by right.
Qed.
Lemma some_res_trees {A B} (R : B -> A -> Prop) (test : A -> res bool) (f : B -> bool) l' l : Forall2 R l' l ->
  (forall t x, t ∈ l' -> R t x -> test x = Ok (f t)) -> some_res test l = Ok (existsb f l').
Proof.
  induction 1 as [|t x l' l Hr _ IH]; intros H; [done|]. cbn [some_res existsb]. rewrite (H t x) by (done || by left). cbn [mbind res_bind].
  destruct (f t); [done|]. apply IH. intros y z Hy. apply H. by right.
Qed.
Lemma all_res_zip {A B} (R : B -> A -> Prop) (d : A) (test : A -> A -> res bool) (f : B -> B -> bool) l' l m' m (n : nat) (pre : list A) :
  Forall2 R l' l -> Forall2 R m' m -> length l = length m -> n = length pre ->
  (forall t x u y, t ∈ l' -> u ∈ m' -> R t x -> R u y -> test x y = Ok (f t u)) ->
  all_res (fun ix => test ix.2 (default d ((pre ++ m) !! ix.1))) (imap (fun i x => (n + i, x)%nat) l) =
  Ok ((fix go l m := match l, m with [], [] => true | x :: l, y :: m => f x y && go l m | _, _ => false end) l' m').
Proof.
  intros Hl. revert m' m n pre. induction Hl as [|t x l' l Ht _ IH]; intros m' m n pre Hm Hlen -> H.
  - destruct Hm; [done|]. discriminate Hlen.
  - destruct Hm as [|u y m' m Hu Hm]; [discriminate Hlen|]. cbn [imap all_res fst snd]. rewrite Nat.add_0_r, lookup_app_r, Nat.sub_diag by done. cbn [lookup list_lookup default from_option].
    change (id y) with y. rewrite (H t x u y) by (done || by left). cbn [mbind res_bind]. destruct (f t u); [|done]. cbn [andb].
    rewrite <- (IH m' m (S (length pre)) (pre ++ [y])); [|done|by injection Hlen|by rewrite length_app, Nat.add_1_r|].
    + rewrite <- app_assoc. cbn [app]. f_equal. apply imap_ext. intros i z _. cbn. f_equal. lia.
    + intros t0 x0 u0 y0 H1 H2. apply H; by right.
Qed.

Section compared.
Context (h : heap) (host_number : jsval -> jsnum) (host_text : jsval -> jsstr) (error_parts : jsval -> jsstr * jsstr) (unwrap : hval -> res hval) (loose : bool).
Abbreviation equal := (baseIsEqual h host_number host_text error_parts unwrap None loose).
Abbreviation equal_deep := (baseIsEqualDeep h host_number host_text error_parts unwrap None loose).

(** The objects that are being compared are above the value. *)
Definition above (t : jsval) (stack : list (nat * nat)) : Prop :=
  forall p, p ∈ stack -> exists t', tree_of h t' (HRef p.1) /\ (vdepth t < vdepth t')%nat.
Lemma not_above t a stack : tree_of h t (HRef a) -> above t stack -> List.find (fun p => Nat.eqb p.1 a) stack = None.
Proof.
  intros Ht. induction stack as [|p stack IH]; intros Ha; [done|]. cbn [List.find]. destruct (Nat.eqb_spec p.1 a) as [E|_].
  - destruct (Ha p) as (t' & Ht' & Hd); [by left|]. rewrite E in Ht'. pose proof (tree_unique h t t' _ Ht Ht'). subst. lia.
  - apply IH. intros q Hq. apply Ha. by right.
Qed.
Lemma above_push t t' a b stack : tree_of h t' (HRef a) -> (vdepth t < vdepth t')%nat -> above t' stack -> above t ((a, b) :: stack).
Proof.
  intros Ht Hd Ha p [->|Hp]%elem_of_cons; [by exists t'|]. destruct (Ha p Hp) as (t2 & H2 & Hd2). exists t2. split; [done|lia].
Qed.

Definition props_of (o' : obj) (o : list (jsstr * hval)) : Prop := Forall2 (fun kv' kv => kv.1 = kv'.1 /\ tree_of h kv'.2 kv.2) o' o.
Lemma props_keys o' o : props_of o' o -> o.*1 = o'.*1.
Proof. induction 1 as [|x y l' l [E _] _ IH]; [done|]. cbn. by rewrite E, IH. Qed.
Lemma props_assoc o' o k t : props_of o' o -> assoc k o' = Some t -> exists x, assoc k o = Some x /\ tree_of h t x.
Proof.
  induction 1 as [|[k1 t1] [k2 x2] l' l [E Ht] _ IH]; [done|]. cbn [fst snd assoc] in *. subst k2. case_bool_decide; [|done]. intros [= <-]. by exists x2.
Qed.
Lemma equal_or_same fuel stack x y : equal_or (equal (S fuel) stack) x y = equal (S fuel) stack x y.
Proof. unfold equal_or. destruct (same_value x y) eqn:E; [|done]. cbn [baseIsEqual]. by rewrite E. Qed.

Section one_level.
Context (equalFunc : hval -> hval -> res bool) (elements : list jsval).
Context (equalFunc_trees : forall t u x y, t ∈ elements -> plain_tree u -> tree_of h t x -> tree_of h u y -> equalFunc x y = Ok (tree_eq loose t u)).
Context (equalFunc_same : forall x y, equal_or equalFunc x y = equalFunc x y).

Lemma equalArrays_trees l' l m' m : Forall2 (tree_of h) l' l -> Forall2 (tree_of h) m' m -> Forall plain_tree m' -> elements = l' ->
  equalArrays None loose equalFunc l m = Ok (tree_eq loose (VArr l') (VArr m')).
Proof.
  intros Hl Hm Hp ->. rewrite Forall_forall in Hp. unfold equalArrays, answer, customized. cbn [is_undef]. pose proof (Forall2_length _ _ _ Hl) as El. pose proof (Forall2_length _ _ _ Hm) as Em.
  rewrite <- El, <- Em. cbn [tree_eq]. destruct loose eqn:Eloose; cbn [andb negb].
  - destruct (Nat.leb_spec (length l') (length m')) as [Hle|Hgt].
    + replace (negb (Nat.eqb (length l') (length m')) && negb (length l' <? length m')%nat) with false
        by (symmetry; apply andb_false_iff; rewrite !negb_false_iff, Nat.eqb_eq, Nat.ltb_lt; lia). cbn [andb].
      rewrite (all_res_index (fun x => some_res (equal_or equalFunc x) m) pair l snd) by done. apply (all_res_trees (tree_of h)); [done|].
      intros t x Ht Hx. apply (some_res_trees (tree_of h)); [done|]. intros u y Hu Hy. rewrite equalFunc_same. apply equalFunc_trees; [done|by apply Hp|done|done].
    + rewrite (proj2 (Nat.eqb_neq _ _)), (proj2 (Nat.ltb_ge _ _)) by lia. done.
  - rewrite andb_true_r. destruct (Nat.eqb_spec (length l') (length m')) as [E|E]; cbn [negb].
    + apply (all_res_zip (tree_of h) hundef (equal_or equalFunc) (tree_eq false) l' l m' m 0 []); [done|done|congruence|done|].
      intros t x u y Ht Hu Hx Hy. rewrite equalFunc_same. apply equalFunc_trees; [done|by apply Hp|done|done].
    + f_equal. clear -E. revert m' E. induction l' as [|t l' IH]; intros [|u m'] E; [done|done|done|]. rewrite <- IH; [by rewrite andb_false_r|]. cbn in E. congruence.
Qed.

Lemma equalObjects_trees o' o p' p a b : h !! a = Some (CObj o) -> h !! b = Some (CObj p) -> props_of o' o -> props_of p' p ->
  plain_tree (VObj o') -> plain_tree (VObj p') -> elements = o'.*2 ->
  equalObjects h None loose equalFunc (HRef a) (HRef b) = Ok (tree_eq loose (VObj o') (VObj p')).
Proof.
  intros Ha Hb Ho Hp Po Pp ->. apply plain_object in Po as (No & _ & Po). apply plain_object in Pp as (Np & _ & Pp).
  pose proof (props_keys _ _ Ho) as Ko. pose proof (props_keys _ _ Hp) as Kp. rewrite <- Ko in No. rewrite <- Kp in Np. unfold equalObjects.
  rewrite (keys_object h a o Ha), (keys_object h b p Hb). cbn [mbind res_bind]. rewrite !length_fmap, !for_in_perm.
  assert (Eo : length o = length o') by (symmetry; by eapply Forall2_length). assert (Ep : length p = length p') by (symmetry; by eapply Forall2_length).
  rewrite Eo, Ep. cbn [tree_eq]. destruct (negb (Nat.eqb _ _) && negb loose) eqn:Elen.
  { apply andb_true_iff in Elen as [E1%negb_true_iff E2%negb_true_iff]. by rewrite E1, E2. }
  assert (Elen' : loose || Nat.eqb (length o') (length p') = true) by (destruct loose, (Nat.eqb (length o') (length p')); done). rewrite Elen'. cbn [andb].
  set (f := fun k => match assoc k o', assoc k p' with Some t, Some u => tree_eq loose t u | _, _ => false end).
  assert (Htree : forallb (fun kv => match assoc kv.1 p' with Some y => tree_eq loose kv.2 y | None => false end) o' = forallb f (for_in o).*1).
  { transitivity (forallb f o'.*1); [|apply forallb_perm; by rewrite <- Ko, for_in_perm].
    rewrite (forallb_ext_in _ (f ∘ fst)); [|intros [k x] Hx; cbn; unfold f; rewrite (assoc_in_nodup k x o'); [done|by rewrite <- Ko|done]].
    generalize f as g. clear. intros g. induction o' as [|x o' IH]; [done|]. cbn. by rewrite IH. }
  rewrite Htree. assert (Hhas : forall key, (if loose then has_prop h (HRef b) key else has_own h (HRef b) key) = bool_decide (key ∈ p.*1)).
  { intros key. rewrite (has_prop_object h b p), (own_object h b p) by done. by destruct loose. }
  destruct (forallb _ (rev (for_in o).*1)) eqn:Ehas.
  2: { cbn [negb]. f_equal. symmetry. apply not_true_iff_false. intros E. apply not_true_iff_false in Ehas. apply Ehas. apply forallb_forall. intros k Hk.
       rewrite Hhas. apply bool_decide_eq_true_2. rewrite forallb_forall in E. specialize (E k). rewrite <- in_rev in Hk. specialize (E Hk). unfold f in E.
       rewrite Kp. destruct (assoc k o'); [|done]. destruct (assoc k p') as [u|] eqn:Eu; [|done]. apply fst_in_lookup. exists u. by apply assoc_some_in. }
  cbn [negb]. rewrite (all_res_forallb _ f).
  2: { intros k Hk. rewrite for_in_perm in Hk. rewrite (prop_object h a o), (prop_object h b p) by done. cbn [mbind res_bind].
       assert (Hk2 : k ∈ p.*1). { rewrite forallb_forall in Ehas. specialize (Ehas k). rewrite <- in_rev, <- list_elem_of_In, for_in_perm in Ehas. specialize (Ehas Hk). rewrite Hhas in Ehas. by apply bool_decide_eq_true in Ehas. }
       rewrite Ko in Hk. rewrite Kp in Hk2. apply fst_in_lookup in Hk as [t Ht], Hk2 as [u Hu].
       assert (At : assoc k o' = Some t) by (apply assoc_in_nodup; [by rewrite <- Ko|done]). assert (Au : assoc k p' = Some u) by (apply assoc_in_nodup; [by rewrite <- Kp|done]).
       destruct (props_assoc _ _ _ _ Ho At) as (x & Ex & Tx), (props_assoc _ _ _ _ Hp Au) as (y & Ey & Ty). rewrite Ex, Ey. unfold answer, customized, f. cbn [default is_undef].
       rewrite At, Au. apply equalFunc_trees; [| |done|done].
       - apply list_elem_of_fmap. by exists (k, t).
       - rewrite Forall_forall in Pp. by apply (Pp (k, u)). }
  cbn [mbind res_bind]. destruct (forallb f _); [|done]. cbn [negb]. match goal with |- (if ?c then _ else _) = _ => destruct c eqn:Ector end; [done|]. apply orb_false_iff in Ector as [El Ector%bool_decide_eq_false].
  rewrite for_in_perm in Ector. rewrite El in Elen'. cbn [orb] in Elen'. apply Nat.eqb_eq in Elen'.
  assert (Hperm : o.*1 ≡ₚ p.*1).
  { apply submseteq_length_Permutation; [|rewrite !length_fmap; lia]. apply NoDup_submseteq; [done|]. intros k Hk. rewrite forallb_forall in Ehas. specialize (Ehas k).
    rewrite <- in_rev, <- list_elem_of_In, for_in_perm, Hhas in Ehas. by apply bool_decide_eq_true in Ehas; [|done]. }
  unfold constructor_of. rewrite (own_object h a o), (own_object h b p), !bool_decide_eq_false_2 by (done || by rewrite <- Hperm). reflexivity.
Qed.
End one_level.

(** Two objects that have no wrapped value. *)
Lemma deep_kinds fuel stack v w v_tag v_arr w_tag w_arr : kind_of_value h v = (v_tag, v_arr) -> kind_of_value h w = (w_tag, w_arr) ->
  bool_decide (v_tag = w_tag) && negb (v_arr || bool_decide (v_tag = js "Object")) = false ->
  (v_tag = js "Object" -> has_own h v (js "__wrapped__") = false) -> (w_tag = js "Object" -> has_own h w (js "__wrapped__") = false) ->
  equal_deep (equal fuel) stack v w =
  if bool_decide (v_tag = w_tag) then
    match v, w with
    | HRef a, HRef b =>
        match List.find (fun p => Nat.eqb p.1 a) stack with
        | Some p => Ok (Nat.eqb p.2 b)
        | None => match harray h v, harray h w with
                  | Some l, Some l' => equalArrays None loose (equal fuel ((a, b) :: stack)) l l'
                  | _, _ => equalObjects h None loose (equal fuel ((a, b) :: stack)) v w
                  end
        end
    | _, _ => Throw Unsupported
    end
  else Ok false.
Proof.
  intros Hv Hw Htag Wv Ww. unfold baseIsEqualDeep. rewrite Hv, Hw. cbv zeta. rewrite Htag.
  assert (E : forall tag x, (tag = js "Object" -> has_own h x (js "__wrapped__") = false) ->
    negb loose && bool_decide (tag = js "Object") && has_own h x (js "__wrapped__") = false).
  { intros tag x H. destruct (decide (tag = js "Object")) as [Et|Et]; [rewrite (H Et); apply andb_false_r|]. rewrite (bool_decide_eq_false_2 _ Et). by rewrite andb_false_r. }
  rewrite (E _ _ Wv), (E _ _ Ww). cbn [orb]. by destruct (bool_decide (v_tag = w_tag)).
Qed.
(** A primitive: its tag is that of no object. *)
Definition leaf (t : jsval) : bool := match t with VArr _ | VObj _ | VHost _ _ => false | _ => true end.
Lemma tree_leaf t v : leaf t = true -> tree_of h t v -> v = HPrim t.
Proof. by destruct t. Qed.
Lemma kind_leaf t : leaf t = true -> exists tag, kind_of_value h (HPrim t) = (tag, false) /\ tag <> js "Object" /\ tag <> js "Array".
Proof. intros Ht. destruct t; try discriminate Ht; (eexists; split; [vm_compute; reflexivity|split; vm_compute; discriminate]). Qed.
Lemma plain_cases t v : plain_tree t -> tree_of h t v ->
  (leaf t = true /\ v = HPrim t) \/
  (exists a l' l, t = VArr l' /\ v = HRef a /\ h !! a = Some (CArr l) /\ Forall2 (tree_of h) l' l) \/
  (exists a o' o, t = VObj o' /\ v = HRef a /\ h !! a = Some (CObj o) /\ props_of o' o).
Proof.
  intros Hp Ht. destruct t as [| | | | |l'|o'|]; try (by left; split).
  - right. left. apply tree_array in Ht as (a & l & ? & ? & ?). by exists a, l', l.
  - right. right. apply tree_object in Ht as (a & o & ? & ? & ?). by exists a, o', o.
Qed.
Lemma not_wrapped a o' o : h !! a = Some (CObj o) -> props_of o' o -> plain_tree (VObj o') -> has_own h (HRef a) (js "__wrapped__") = false.
Proof. intros Ha Ho (_ & Hw & _)%plain_object. rewrite (own_object h a o) by done. apply bool_decide_eq_false_2. by rewrite (props_keys _ _ Ho). Qed.
Lemma leaf_equal fuel stack t u : leaf t = true -> leaf u = true -> equal (S fuel) stack (HPrim t) (HPrim u) = Ok (tree_eq loose t u).
Proof.
  intros Ht Hu. cbn [baseIsEqual same_value]. destruct (strict_eq t u) eqn:E.
  - destruct t as [| | |[]| | | |], u as [| | |[]| | | |]; try discriminate; cbn [tree_eq]; by rewrite ?E.
  - destruct t as [| | |[]| | | |], u as [| | |[]| | | |]; try discriminate; try reflexivity; cbn [tree_eq]; rewrite ?E; reflexivity.
Qed.

Lemma baseIsEqual_trees fuel : forall stack v w t u, tree_of h t v -> tree_of h u w -> plain_tree t -> plain_tree u ->
  (vdepth t < fuel)%nat -> above t stack -> equal fuel stack v w = Ok (tree_eq loose t u).
Proof.
  induction fuel as [|fuel IH]; intros stack v w t u Tt Tu Pt Pu Hd Hab; [lia|].
  assert (Hlevel : forall a b (elements : list jsval), v = HRef a -> (forall x, x ∈ elements -> (vdepth x < vdepth t)%nat /\ plain_tree x) ->
    forall t0 u0 x y, t0 ∈ elements -> plain_tree u0 -> tree_of h t0 x -> tree_of h u0 y -> equal fuel ((a, b) :: stack) x y = Ok (tree_eq loose t0 u0)).
  { intros a b elements -> He t0 u0 x y Ht0 Hu0 Tx Ty. destruct (He t0 Ht0) as [Hd0 Hp0]. apply IH; try done; [lia|]. by apply (above_push t0 t). }
  assert (Hsame : forall st x y, (0 < fuel)%nat -> equal_or (equal fuel st) x y = equal fuel st x y) by (intros st x y Hf; destruct fuel; [lia|apply equal_or_same]).
  destruct (plain_cases t v Pt Tt) as [[Lt ->]|[(a & l' & l & -> & -> & Ha & Hl)|(a & o' & o & -> & -> & Ha & Ho)]],
           (plain_cases u w Pu Tu) as [[Lu ->]|[(b & m' & m & -> & -> & Hb & Hm)|(b & p' & p & -> & -> & Hb & Hp)]].
  - by apply leaf_equal.
  - destruct (kind_leaf t Lt) as (tag & Hk & Ho & Harr). cbn [baseIsEqual same_value isObject isObjectLike is_function andb negb h_nullish orb]. rewrite andb_false_r, orb_false_r.
    rewrite (deep_kinds fuel stack _ _ _ _ _ _ Hk (kind_array h b m Hb)); [|by rewrite bool_decide_eq_false_2|done|done]. rewrite bool_decide_eq_false_2 by done.
    destruct t; try discriminate Lt; try reflexivity. by destruct n.
  - destruct (kind_leaf t Lt) as (tag & Hk & Hobj & Harr). cbn [baseIsEqual same_value isObject isObjectLike is_function andb negb h_nullish orb]. rewrite andb_false_r, orb_false_r.
    rewrite (deep_kinds fuel stack _ _ _ _ _ _ Hk (kind_object h b p Hb)); [|by rewrite bool_decide_eq_false_2|done|intros _; by eapply not_wrapped]. rewrite bool_decide_eq_false_2 by done.
    destruct t; try discriminate Lt; try reflexivity. by destruct n.
  - destruct (kind_leaf u Lu) as (tag & Hk & Hobj & Harr). cbn [baseIsEqual same_value isObject isObjectLike is_function andb negb h_nullish orb].
    rewrite (deep_kinds fuel stack _ _ _ _ _ _ (kind_array h a l Ha) Hk); [|by rewrite bool_decide_eq_false_2 by congruence|done|done]. rewrite bool_decide_eq_false_2 by congruence.
    destruct u; try discriminate Lu; try reflexivity; by destruct (is_nullish _).
  - cbn [baseIsEqual same_value]. destruct (Nat.eqb_spec a b) as [<-|Hab'].
    { rewrite (tree_unique h _ _ _ Tt Tu), tree_eq_refl by done. done. }
    cbn [h_nullish isObject negb andb orb].
    rewrite (deep_kinds fuel stack _ _ _ _ _ _ (kind_array h a l Ha) (kind_array h b m Hb)) by done. rewrite bool_decide_eq_true_2 by done.
    rewrite (not_above _ _ _ Tt Hab). unfold harray. rewrite Ha, Hb. rewrite plain_array in Pt. pose proof (depth_array l') as Hda. apply plain_array in Pu.
    apply (equalArrays_trees _ l'); try done; [apply (Hlevel a b l'); [done|]|intros; apply Hsame; cbn [vdepth] in Hd; lia].
    intros x Hx. split; [by apply Hda|]. rewrite Forall_forall in Pt. by apply Pt.
  - cbn [baseIsEqual same_value]. destruct (Nat.eqb_spec a b) as [<-|Hab']; [congruence|]. cbn [h_nullish isObject negb andb orb].
    rewrite (deep_kinds fuel stack _ _ _ _ _ _ (kind_array h a l Ha) (kind_object h b p Hb)) by (done || intros _; by eapply not_wrapped). done.
  - destruct (kind_leaf u Lu) as (tag & Hk & Hobj & Harr). cbn [baseIsEqual same_value isObject isObjectLike is_function andb negb h_nullish orb].
    rewrite (deep_kinds fuel stack _ _ _ _ _ _ (kind_object h a o Ha) Hk); [|by rewrite bool_decide_eq_false_2 by congruence|intros _; by eapply not_wrapped|done]. rewrite bool_decide_eq_false_2 by congruence.
    destruct u; try discriminate Lu; try reflexivity; by destruct (is_nullish _).
  - cbn [baseIsEqual same_value]. destruct (Nat.eqb_spec a b) as [<-|Hab']; [congruence|]. cbn [h_nullish isObject negb andb orb].
    rewrite (deep_kinds fuel stack _ _ _ _ _ _ (kind_object h a o Ha) (kind_array h b m Hb)) by (done || intros _; by eapply not_wrapped). done.
  - cbn [baseIsEqual same_value]. destruct (Nat.eqb_spec a b) as [<-|Hab'].
    { rewrite (tree_unique h _ _ _ Tt Tu), tree_eq_refl by done. done. }
    cbn [h_nullish isObject negb andb orb].
    rewrite (deep_kinds fuel stack _ _ _ _ _ _ (kind_object h a o Ha) (kind_object h b p Hb)) by (done || intros _; by eapply not_wrapped). rewrite bool_decide_eq_true_2 by done.
    rewrite (not_above _ _ _ Tt Hab). unfold harray. rewrite Ha. pose proof (depth_object o') as Hdo.
    apply (equalObjects_trees _ (o'.*2) ) with (o := o) (p := p); try done. apply (Hlevel a b (o'.*2)); [done|].
    intros x Hx. apply list_elem_of_fmap in Hx as (kv & -> & Hx). split; [by apply Hdo|]. apply plain_object in Pt as (_ & _ & Pt). rewrite Forall_forall in Pt. by apply Pt.
Qed.
End compared.

(** ** Equal up to the order of keys *)

Inductive same_tree : jsval -> jsval -> Prop :=
| same_leaf t : leaf t = true -> same_tree t t
| same_array l m : Forall2 same_tree l m -> same_tree (VArr l) (VArr m)
| same_object o p p' : p' ≡ₚ p -> Forall2 (fun kv kv' => kv.1 = kv'.1 /\ same_tree kv.2 kv'.2) o p' -> same_tree (VObj o) (VObj p).

Lemma leaf_same t u : leaf t = true -> leaf u = true -> tree_eq false t u = true -> t = u.
Proof.
  destruct t as [| |[]|[x|x|]|x| | |], u as [| |[]|[y|y|]|y| | |]; cbn; try discriminate; intros _ _ H; try done.
  - by apply Z.eqb_eq in H as ->.
  - by apply bool_decide_eq_true in H as ->.
  - by apply bool_decide_eq_true in H as ->.
Qed.
(** The properties of the second object in the order of the first. *)
Lemma reordered (o p : obj) : NoDup o.*1 -> NoDup p.*1 -> length o = length p -> (forall k, k ∈ o.*1 -> k ∈ p.*1) ->
  (fun kv : jsstr * jsval => (kv.1, get p kv.1)) <$> o ≡ₚ p.
Proof.
  intros No Np Hl Hk. apply submseteq_length_Permutation; [|by rewrite length_fmap, Hl]. apply NoDup_submseteq.
  - apply (NoDup_fmap_1 fst). rewrite <- list_fmap_compose. exact No.
  - intros kv Hx. apply list_elem_of_fmap in Hx as ([k x] & -> & Hx). cbn [fst].
    destruct (proj1 (fst_in_lookup p k)) as [y Hy]; [apply Hk, fst_in_lookup; by exists x|]. unfold get. by rewrite (assoc_in_nodup k y p Np Hy).
Qed.
Lemma tree_eq_same t : forall u, plain_tree t -> plain_tree u -> tree_eq false t u = true <-> same_tree t u.
Proof.
  assert (Hleaf : forall t u, leaf t = true -> plain_tree u -> tree_eq false t u = true <-> same_tree t u).
  { intros t0 u Lt Pu. destruct (leaf u) eqn:Lu.
    - split; [intros H; apply leaf_same in H as <-; [by constructor|done|done]|]. intros H. inversion H; subst; try discriminate. apply tree_eq_refl. by destruct u.
    - split; [destruct t0, u; try discriminate; try done; by destruct n|]. intros H. inversion H; subst; try discriminate; congruence. }
  induction t as [| | | | |l IH|o IH|] using jsval_nested_ind; intros u Pt Pu; try (by apply Hleaf).
  - destruct u as [| | | | |m|p|]; try (split; [done|]; intros H; inversion H; subst; discriminate). apply plain_array in Pt, Pu. cbn [tree_eq].
    transitivity (Forall2 same_tree l m); [|split; [by constructor|intros H; inversion H; subst; [discriminate|done]]].
    revert m Pu. induction IH as [|x l Hx _ IHl]; intros [|y m] Pu; try (split; [done|]; intros H; by inversion H).
    apply Forall_cons in Pt as [Px Pt], Pu as [Py Pu]. rewrite andb_true_iff, Hx, IHl by done. split; [intros [? ?]; by constructor|intros H; by inversion H].
  - destruct u as [| | | | |m|p|]; try (split; [done|]; intros H; inversion H; subst; discriminate). apply plain_object in Pt as (No & _ & Pt), Pu as (Np & _ & Pu).
    cbn [tree_eq orb]. rewrite andb_true_iff, Nat.eqb_eq, forallb_forall. setoid_rewrite <- list_elem_of_In. rewrite Forall_forall in IH, Pt, Pu. split.
    + intros [Hl Hall]. assert (Hget : forall kv, kv ∈ o -> exists y, assoc kv.1 p = Some y /\ tree_eq false kv.2 y = true).
      { intros kv Hkv. specialize (Hall kv Hkv). destruct (assoc kv.1 p) as [y|]; [by exists y|done]. }
      apply (same_object _ _ ((fun kv => (kv.1, get p kv.1)) <$> o)).
      * apply reordered; [done..|]. intros k Hk. apply fst_in_lookup in Hk as [x Hx]. destruct (Hget _ Hx) as (y & Hy & _). apply fst_in_lookup. exists y. by apply assoc_some_in.
      * apply Forall2_fmap_r, Forall_Forall2_diag, Forall_forall. intros kv Hkv. cbn [fst snd]. split; [done|]. destruct (Hget _ Hkv) as (y & Hy & He). unfold get. rewrite Hy.
        apply (IH kv Hkv); [by apply Pt| |done]. apply (Pu (kv.1, y)). by apply assoc_some_in.
    + intros H. inversion H as [| |? ? p' Hp Hf]; subst; [discriminate|]. split; [rewrite <- Hp; by eapply Forall2_length|]. intros kv Hkv.
      apply list_elem_of_lookup in Hkv as [i Hi]. destruct (Forall2_lookup_l _ _ _ _ _ Hf Hi) as ([k y] & Hy & E & Hs). cbn [fst snd] in *. apply list_elem_of_lookup_2 in Hy. rewrite Hp in Hy.
      rewrite E, (assoc_in_nodup k y p Np Hy). apply list_elem_of_lookup_2 in Hi. apply (IH kv Hi); [by apply Pt|by apply (Pu (k, y))|done].
Qed.

(** A tree is not deeper than the heap is large. *)
Lemma tree_depth h t : forall v path, tree_of h t v -> NoDup path ->
  (forall a, a ∈ path -> (a < length h)%nat /\ exists t', tree_of h t' (HRef a) /\ (vdepth t < vdepth t')%nat) -> (vdepth t + length path <= length h)%nat.
Proof.
  assert (Hlen : forall path, NoDup path -> (forall a, a ∈ path -> (a < length h)%nat) -> (length path <= length h)%nat).
  { intros path Hn Ha. rewrite <- (length_seq (length h) 0). apply submseteq_length, NoDup_submseteq; [done|]. intros a Hin. apply elem_of_seq. specialize (Ha a Hin). lia. }
  assert (Hnode : forall (xs : list jsval) t a path, tree_of h t (HRef a) -> (a < length h)%nat -> NoDup path ->
    (forall b, b ∈ path -> (b < length h)%nat /\ exists t', tree_of h t' (HRef b) /\ (vdepth t < vdepth t')%nat) ->
    (forall x, x ∈ xs -> (vdepth x < vdepth t)%nat /\ exists v, tree_of h x v) ->
    Forall (fun x => forall v path, tree_of h x v -> NoDup path -> (forall a, a ∈ path -> (a < length h)%nat /\ exists t', tree_of h t' (HRef a) /\ (vdepth x < vdepth t')%nat) -> (vdepth x + length path <= length h)%nat) xs ->
    (length path < length h)%nat /\ forall x, x ∈ xs -> (S (vdepth x) + length path <= length h)%nat).
  { intros xs t0 a path Ht Ha Hn Hp Hx IH. assert (Hna : a ∉ path). { intros Hin. destruct (Hp a Hin) as (_ & t' & Ht' & Hd). rewrite (tree_unique h _ _ _ Ht Ht') in Hd. lia. }
    assert (Hn' : NoDup (a :: path)) by (by constructor). split.
    - apply (Hlen (a :: path)); [done|]. intros b [->|Hb]%elem_of_cons; [done|]. by apply Hp.
    - intros x Hin. destruct (Hx x Hin) as (Hd & v & Hv). rewrite Forall_forall in IH. specialize (IH x Hin v (a :: path) Hv Hn'). cbn [length] in IH. enough (vdepth x + S (length path) <= length h)%nat by lia. apply IH.
      intros b [->|Hb]%elem_of_cons; [split; [done|by exists t0]|]. destruct (Hp b Hb) as (Hl & t' & Ht' & Hd'). split; [done|]. exists t'. split; [done|lia]. }
  induction t as [| | | | |l IH|o IH|] using jsval_nested_ind; intros v path Ht Hn Hp; try (cbn [vdepth]; apply Hlen; [done|]; intros a Ha; by apply Hp).
  - pose proof Ht as Ht'. apply tree_array in Ht' as (a & l0 & -> & Ha & Hl). destruct (Hnode l (VArr l) a path Ht) as [H1 H2]; [by eapply lookup_lt_Some|done|done| |done|].
    { intros x Hx. split; [by apply depth_array|]. apply list_elem_of_lookup in Hx as [i Hi]. destruct (Forall2_lookup_l _ _ _ _ _ Hl Hi) as (y & _ & Hy). by exists y. }
    cbn [vdepth]. clear -H1 H2. induction l as [|x l IH]; cbn [foldr] in *; [lia|]. pose proof (H2 x ltac:(by left)). specialize (IH ltac:(intros y Hy; apply H2; by right)). lia.
  - pose proof Ht as Ht'. apply tree_object in Ht' as (a & o0 & -> & Ha & Ho). destruct (Hnode o.*2 (VObj o) a path Ht) as [H1 H2]; [by eapply lookup_lt_Some|done|done| |by apply Forall_fmap|].
    { intros x Hx. apply list_elem_of_fmap in Hx as (kv & -> & Hx). split; [by apply depth_object|]. apply list_elem_of_lookup in Hx as [i Hi]. destruct (Forall2_lookup_l _ _ _ _ _ Ho Hi) as (y & _ & _ & Hy). by exists y.2. }
    cbn [vdepth]. clear -H1 H2. induction o as [|[k x] o IH]; cbn [foldr fmap list_fmap snd] in *; [lia|]. pose proof (H2 x ltac:(by left)). specialize (IH ltac:(intros y Hy; apply H2; by right)). lia.
Qed.
Lemma tree_fuel h t v : tree_of h t v -> (vdepth t < deep_fuel h)%nat.
Proof. intros Ht. pose proof (tree_depth h t v [] Ht (NoDup_nil_2)) as H. unfold deep_fuel. cbn [length] in H. enough (vdepth t + 0 <= length h)%nat by lia. apply H. intros a Ha. by apply not_elem_of_nil in Ha. Qed.

(** Two values without cycles are equal when they are the same document, up to
    the order of keys. *)
Theorem isEqual_same h host_number host_text error_parts unwrap v w t u : tree_of h t v -> tree_of h u w -> plain_tree t -> plain_tree u ->
  exists b, baseIsEqual h host_number host_text error_parts unwrap None false (deep_fuel h) [] v w = Ok b /\ (b = true <-> same_tree t u).
Proof.
  intros Tt Tu Pt Pu. exists (tree_eq false t u). split; [|by apply tree_eq_same]. apply baseIsEqual_trees; try done; [by eapply tree_fuel|].
  intros p Hp. by apply not_elem_of_nil in Hp.
Qed.

(** ** The predicate of an object *)

Section predicate.
Context (h : heap) (host_number : jsval -> jsnum) (host_text : jsval -> jsstr) (error_parts : jsval -> jsstr * jsstr) (unwrap : heap -> hval -> res hval).

Lemma pairs_object a o : h !! a = Some (CObj o) -> NoDup o.*1 -> pairs h (HRef a) = Ok (for_in o).
Proof.
  intros Ha Hn. unfold pairs. rewrite (keys_object h a o Ha). cbn [mbind res_bind].
  assert (Hsub : forall l, (forall kv, kv ∈ l -> kv ∈ o) -> mapM_res (fun key => x ← get_prop h (HRef a) key; Ok (key, x)) l.*1 = Ok l).
  { induction l as [|[k x] l IH]; intros Hl; [done|]. cbn [fmap list_fmap fst mapM_res]. rewrite (prop_object h a o k Ha). cbn [mbind res_bind].
    rewrite IH by (intros kv Hkv; apply Hl; by right). cbn [mbind res_bind]. rewrite (assoc_in_nodup k x o Hn) by (apply Hl; by left). done. }
  apply Hsub. intros kv. apply for_in_elem.
Qed.
(** A value that [===] compares: a primitive that is a number. *)
Lemma strict_leaf t v : tree_of h t v -> plain_tree t -> isStrictComparable v = leaf t && negb (is_nan v).
Proof.
  intros Ht Hp. unfold isStrictComparable. rewrite andb_comm. f_equal. destruct (plain_cases h t v Hp Ht) as [[Lt ->]|[(a & l' & l & -> & -> & _)|(a & o' & o & -> & -> & _)]]; [|done..].
  by destruct t.
Qed.
Lemma same_leaf_value t v u x : tree_of h t v -> tree_of h u x -> plain_tree u -> leaf t = true -> is_nan v = false ->
  same_value v x = tree_eq true t u /\ same_value x v = tree_eq true t u.
Proof.
  intros Ht Hu Pu Lt Hn. apply (tree_leaf h) in Ht as ->; [|done]. destruct (plain_cases h u x Pu Hu) as [[Lu ->]|[(a & l' & l & -> & -> & _)|(a & o' & o & -> & -> & _)]].
  - destruct t as [| |[]|[y|y|]|y| | |], u as [| |[]|[z|z|]|z| | |]; try discriminate; try (by split); cbn.
    + split; [done|apply Z.eqb_sym].
    + split; [done|]. apply bool_decide_ext. split; congruence.
    + split; [done|]. apply bool_decide_ext. split; congruence.
  - destruct t as [| |[]|[]| | | |]; try discriminate; by split.
  - destruct t as [| |[]|[]| | | |]; try discriminate; by split.
Qed.

Context (a b : nat) (o' p' : obj) (o p : list (jsstr * hval)).
Context (Ha : h !! a = Some (CObj o)) (Hb : h !! b = Some (CObj p)) (Ho : props_of h o' o) (Hp : props_of h p' p).
Context (Po : plain_tree (VObj o')) (Pp : plain_tree (VObj p')).

(** The values of one key. *)
Lemma key_values k v : (k, v) ∈ for_in o -> exists t x, assoc k o' = Some t /\ tree_of h t v /\ plain_tree t /\ (vdepth t < deep_fuel h)%nat /\
  get_prop h (HRef b) k = Ok x /\ tree_of h (get p' k) x /\ plain_tree (get p' k) /\ has_prop h (HRef b) k = has_key k p' /\ (has_key k p' = false -> x = hundef).
Proof.
  intros Hk. rewrite for_in_elem in Hk. pose proof Po as (No & _ & Fo)%plain_object. pose proof Pp as (Np & _ & Fp)%plain_object.
  pose proof (props_keys h _ _ Ho) as Ko. pose proof (props_keys h _ _ Hp) as Kp.
  assert (Hk' : k ∈ o'.*1) by (rewrite <- Ko; apply fst_in_lookup; by exists v). apply fst_in_lookup in Hk' as [t Ht]. pose proof (assoc_in_nodup k t o' No Ht) as At.
  destruct (props_assoc h _ _ _ _ Ho At) as (v' & Ev & Tv). rewrite (assoc_in_nodup k v o) in Ev by (done || by rewrite Ko). injection Ev as <-.
  exists t, (default hundef (assoc k p)). split; [done|]. split; [done|]. split; [rewrite Forall_forall in Fo; by apply (Fo (k, t))|]. split; [by eapply tree_fuel|].
  split; [by apply (prop_object h b p)|]. rewrite (has_prop_object h b p k Hb), Kp. unfold get, has_key. destruct (assoc k p') as [u|] eqn:Au.
  - destruct (props_assoc h _ _ _ _ Hp Au) as (x & Ex & Tx). rewrite Ex. split; [done|]. apply assoc_some_in in Au. split; [rewrite Forall_forall in Fp; by apply (Fp (k, u))|].
    split; [|done]. apply bool_decide_eq_true_2, fst_in_lookup. by exists u.
  - apply assoc_none in Au. assert (assoc k p = None) as -> by (apply assoc_none; by rewrite Kp). split; [done|]. split; [done|]. split; [by apply bool_decide_eq_false_2|done].
Qed.
(** What is asked of one key. *)
Definition key_matches (k : jsstr) : bool :=
  match assoc k o', assoc k p' with Some t, Some u => tree_eq true t u | _, _ => false end.
Lemma all_keys_match : forallb (fun kv => key_matches kv.1) (for_in o) = tree_eq true (VObj o') (VObj p').
Proof.
  pose proof Po as (No & _ & _)%plain_object. pose proof (props_keys h _ _ Ho) as Ko. cbn [tree_eq orb andb].
  transitivity (forallb key_matches (for_in o).*1); [clear; induction (for_in o) as [|x l IH]; [done|]; cbn; by rewrite IH|].
  rewrite (forallb_perm _ _ o'.*1) by (by rewrite for_in_perm, Ko).
  assert (E : forall l, (forall kv, kv ∈ l -> kv ∈ o') -> forallb key_matches l.*1 = forallb (fun kv => match assoc kv.1 p' with Some y => tree_eq true kv.2 y | None => false end) l).
  { induction l as [|[k t] l IH]; intros Hl; [done|]. cbn [fmap list_fmap forallb fst snd]. rewrite IH by (intros kv Hkv; apply Hl; by right).
    unfold key_matches at 1. rewrite (assoc_in_nodup k t o' No) by (apply Hl; by left). done. }
  by apply E.
Qed.
Lemma forallb_and {A} (f g : A -> bool) l : forallb (fun x => f x && g x) l = forallb f l && forallb g l.
Proof. induction l as [|x l IH]; cbn; [done|]. rewrite IH. destruct (f x), (g x); cbn; by rewrite ?andb_false_r. Qed.
Lemma all_res_data {A B} (test : A -> res bool) (f : B -> A) (g : B -> bool) l : (forall x, x ∈ l -> test (f x) = Ok (g x)) -> all_res test (f <$> l) = Ok (forallb g l).
Proof.
  induction l as [|x l IH]; intros H; [done|]. cbn [fmap list_fmap all_res forallb]. rewrite (H x) by (by left). cbn [mbind res_bind]. destruct (g x); [|done].
  apply IH. intros y Hy. apply H. by right.
Qed.


(** The value is the same as the other's, or [undefined], and the other has
    the key. *)
Definition key_same (k : jsstr) : bool := match assoc k o' with Some t => tree_eq true t (get p' k) | None => false end.
Lemma key_matches_same k : key_matches k = key_same k && has_key k p'.
Proof. unfold key_matches, key_same, has_key, get. destruct (assoc k o') as [t|]; [|done]. destruct (assoc k p') as [u|]; cbn [default]; by rewrite ?andb_true_r, ?andb_false_r. Qed.
Lemma key_compared k v x : (k, v) ∈ for_in o -> get_prop h (HRef b) k = Ok x ->
  (isStrictComparable v = true -> same_value v x = key_same k /\ same_value x v = key_same k) /\
  (forall host_number host_text error_parts unwrap, baseIsEqual h host_number host_text error_parts unwrap None true (deep_fuel h) [] v x = Ok (key_same k)) /\
  (key_same k && (negb (h_undef x) || has_prop h (HRef b) k) = key_matches k) /\ (has_prop h (HRef b) k && key_same k = key_matches k).
Proof.
  intros Hk Hx. destruct (key_values k v Hk) as (t & x' & At & Tv & Pt & Hd & Hx' & Tx & Pu & Hhas & Hund). rewrite Hx in Hx'. injection Hx' as <-.
  assert (Es : key_same k = tree_eq true t (get p' k)) by (unfold key_same; by rewrite At). rewrite key_matches_same, Hhas. split; [|split; [|split]].
  - intros Hs. rewrite (strict_leaf t v Tv Pt) in Hs. apply andb_true_iff in Hs as [Lt Hn%negb_true_iff]. rewrite Es. by apply same_leaf_value.
  - intros. rewrite Es. apply baseIsEqual_trees; try done. intros q Hq. by apply not_elem_of_nil in Hq.
  - destruct (has_key k p') eqn:E; [by rewrite orb_true_r|]. rewrite (Hund eq_refl). cbn [h_undef hundef is_undef negb orb]. done.
  - apply andb_comm.
Qed.
Abbreviation is_match := (baseIsMatch host_number host_text error_parts unwrap h (HRef b)).

Lemma baseIsMatch_trees : is_match ((fun kv : jsstr * hval => (kv, isStrictComparable kv.2)) <$> for_in o) None = Ok (tree_eq true (VObj o') (VObj p')).
Proof.
  set (f1 := fun kv : jsstr * hval => if isStrictComparable kv.2 then key_same kv.1 else has_prop h (HRef b) kv.1).
  set (f2 := fun kv : jsstr * hval => if isStrictComparable kv.2 then match get_prop h (HRef b) kv.1 with Ok x => negb (h_undef x) || has_prop h (HRef b) kv.1 | Throw _ => false end else key_same kv.1).
  rewrite <- all_keys_match. rewrite (forallb_ext_in _ (fun kv => f1 kv && f2 kv)).
  2: { intros [k v] Hk. destruct (key_values k v Hk) as (t & x & _ & _ & _ & _ & Hx & _). destruct (key_compared k v x Hk Hx) as (_ & _ & H1 & H2).
       unfold f1, f2. cbn [fst snd]. rewrite Hx. destruct (isStrictComparable v); by symmetry. }
  rewrite forallb_and. unfold baseIsMatch. cbn [h_nullish]. rewrite (bool_decide_eq_true_2 (@None (hval -> hval -> jsval -> jsval) = None)) by done. cbv zeta.
  rewrite <- (map_rev _ (for_in o)). rewrite (all_res_data _ (fun kv : jsstr * hval => (kv, isStrictComparable kv.2)) f1 (rev (for_in o))).
  2: { intros [k v] Hk. apply list_elem_of_In in Hk; rewrite <- in_rev in Hk; apply list_elem_of_In in Hk. destruct (key_values k v Hk) as (t & x & _ & _ & _ & _ & Hx & _). destruct (key_compared k v x Hk Hx) as (H1 & _).
       unfold f1. cbn [fst snd]. rewrite Hx. destruct (isStrictComparable v); [|done]. cbn [mbind res_bind andb]. by rewrite (proj1 (H1 eq_refl)). }
  rewrite (forallb_perm f1 (rev (for_in o)) (for_in o)) by (symmetry; apply Permutation_rev). cbn [mbind res_bind]. destruct (forallb f1 _); [|done]. cbn [negb andb].
  apply all_res_data. intros [k v] Hk. destruct (key_values k v Hk) as (t & x & _ & _ & _ & _ & Hx & _). destruct (key_compared k v x Hk Hx) as (_ & H2 & _).
  unfold f2. cbn [fst snd]. rewrite Hx. cbn [mbind res_bind]. destruct (isStrictComparable v); [done|]. cbn [andb is_undef]. apply H2.
Qed.

Lemma matches_object : exists predicate, baseMatches host_number host_text error_parts unwrap h (HRef a) = Ok predicate /\
  predicate h (HRef b) = Ok (tree_eq true (VObj o') (VObj p')).
Proof.
  unfold baseMatches, getMatchData. pose proof Po as (No & _ & _)%plain_object. rewrite (pairs_object a o Ha) by (by rewrite (props_keys h _ _ Ho)).
  cbn [mbind res_bind]. eexists. split; [reflexivity|]. cbv beta. pose proof baseIsMatch_trees as Hgeneral. pose proof all_keys_match as Hall.
  assert (Hkey : forall kv, kv ∈ for_in o -> exists x, get_prop h (HRef b) kv.1 = Ok x) by (intros [k v] Hk; destruct (key_values k v Hk) as (t & x & _ & _ & _ & _ & Hx & _); by exists x).
  assert (Hcmp : forall kv x, kv ∈ for_in o -> get_prop h (HRef b) kv.1 = Ok x -> isStrictComparable kv.2 = true -> same_value x kv.2 = key_same kv.1 /\
    (key_same kv.1 && (negb (h_undef x) || has_prop h (HRef b) kv.1) = key_matches kv.1)) by (intros [k v] x Hk Hx Hs; destruct (key_compared k v x Hk Hx) as (H1 & _ & H3 & _); split; [by apply H1|done]).
  destruct (for_in o) as [|kv [|kv2 l]] eqn:E; cbn [fmap list_fmap] in *; [exact Hgeneral| |by destruct kv as [? ?], (isStrictComparable _)].
  destruct (isStrictComparable kv.2) eqn:Es; [|by destruct kv]. destruct (Hkey kv) as [x Hx]; [by left|]. destruct (Hcmp kv x) as [H1 H2]; [by left|done|done|].
  destruct kv as [k v]. cbn [fst snd h_nullish] in *. rewrite Hx. cbn [mbind res_bind]. assert (Hu : key_same k = true -> h_undef v = h_undef x).
  { rewrite <- H1. destruct x as [[| | |[]| | | |]|], v as [[| | |[]| | | |]|]; done. }
  rewrite H1, <- Hall. cbn [forallb fst]. rewrite andb_true_r, <- H2. f_equal. destruct (key_same k); [|done]. by rewrite Hu.
Qed.
End predicate.

(** ** The part of a document that a pattern asks for

    A pattern matches loosely: an array is matched by one that is at least as
    long and has a match for each of its elements, in any place; an object by
    one that has its keys with matches for its values. *)
Inductive covers : jsval -> jsval -> Prop :=
| covers_leaf t : leaf t = true -> covers t t
| covers_array l m : (length l <= length m)%nat -> (forall x, x ∈ l -> exists y, y ∈ m /\ covers x y) -> covers (VArr l) (VArr m)
| covers_object o p : (forall k x, (k, x) ∈ o -> exists y, assoc k p = Some y /\ covers x y) -> covers (VObj o) (VObj p).

Lemma tree_eq_covers t : forall u, plain_tree t -> plain_tree u -> tree_eq true t u = true <-> covers t u.
Proof.
  assert (Hleaf : forall t u, leaf t = true -> plain_tree u -> tree_eq true t u = true <-> covers t u).
  { intros t0 u Lt Pu. destruct (leaf u) eqn:Lu.
    - assert (E : tree_eq true t0 u = tree_eq false t0 u) by (by destruct t0, u). rewrite E.
      split; [intros H; apply leaf_same in H as <-; [by constructor|done|done]|]. intros H. inversion H; subst; try discriminate. apply tree_eq_refl. by destruct u.
    - split; [destruct t0, u; try discriminate; try done; by destruct n|]. intros H. inversion H; subst; try discriminate; congruence. }
  induction t as [| | | | |l IH|o IH|] using jsval_nested_ind; intros u Pt Pu; try (by apply Hleaf).
  - destruct u as [| | | | |m|p|]; try (split; [done|]; intros H; inversion H; subst; discriminate). apply plain_array in Pt, Pu. cbn [tree_eq].
    rewrite andb_true_iff, Nat.leb_le, forallb_forall. setoid_rewrite <- list_elem_of_In. setoid_rewrite existsb_exists. setoid_rewrite <- list_elem_of_In.
    rewrite Forall_forall in IH, Pt, Pu. split.
    + intros [Hl Hall]. constructor; [done|]. intros x Hx. destruct (Hall x Hx) as (y & Hy & E). exists y. split; [done|]. by apply (IH x Hx); [apply Pt|apply Pu|].
    + intros H. inversion H as [|? ? Hl Hall|]; subst; [discriminate|]. split; [done|]. intros x Hx. destruct (Hall x Hx) as (y & Hy & E). exists y. split; [done|].
      by apply (IH x Hx); [apply Pt|apply Pu|].
  - destruct u as [| | | | |m|p|]; try (split; [done|]; intros H; inversion H; subst; discriminate). apply plain_object in Pt as (No & _ & Pt), Pu as (Np & _ & Pu).
    cbn [tree_eq orb andb]. rewrite forallb_forall. setoid_rewrite <- list_elem_of_In. rewrite Forall_forall in IH, Pt, Pu. split.
    + intros Hall. constructor. intros k x Hx. specialize (Hall (k, x) Hx). cbn [fst snd] in Hall. destruct (assoc k p) as [y|] eqn:Ey; [|done]. exists y. split; [done|].
      apply (IH (k, x) Hx); [by apply (Pt (k, x))| |done]. apply (Pu (k, y)). by apply assoc_some_in.
    + intros H [k x] Hx. inversion H as [| |? ? Hall]; subst; [discriminate|]. destruct (Hall k x Hx) as (y & Ey & E). cbn [fst snd]. rewrite Ey.
      apply (IH (k, x) Hx); [by apply (Pt (k, x))| |done]. apply (Pu (k, y)). by apply assoc_some_in.
Qed.

(** C19. The predicate made of an object (for [find], [map] and the others)
    holds just of the objects that [cover] it: they have its keys, with values
    that match, which are the same primitive, an array at least as long in
    which every element of the pattern has a match somewhere, or an object
    that covers the one of the pattern in turn; and the comparison ends,
    however the two are shared in memory.  The two are documents: without
    cycles, host values and the key [__wrapped__]. *)
Theorem matches_trees h host_number host_text error_parts unwrap a b o p : tree_of h (VObj o) (HRef a) -> tree_of h (VObj p) (HRef b) ->
  plain_tree (VObj o) -> plain_tree (VObj p) ->
  exists predicate matched, baseMatches host_number host_text error_parts unwrap h (HRef a) = Ok predicate /\
    predicate h (HRef b) = Ok matched /\ (matched = true <-> covers (VObj o) (VObj p)).
Proof.
  intros Ta Tb Po Pp. destruct (proj1 (tree_object h o (HRef a)) Ta) as (a' & o0 & [= <-] & Ha & Ho).
  destruct (proj1 (tree_object h p (HRef b)) Tb) as (b' & p0 & [= <-] & Hb & Hp).
  destruct (matches_object h host_number host_text error_parts unwrap a b o p o0 p0) as (predicate & E1 & E2); [done..|].
  exists predicate, (tree_eq true (VObj o) (VObj p)). split; [done|]. split; [done|]. by apply tree_eq_covers.
Qed.
Definition two_objects : heap :=
  [CObj [(js "id", HPrim (vint 1)); (js "tags", HRef 2)]; CObj [(js "tags", HRef 3); (js "name", hstr (js "pet")); (js "id", HPrim (vint 1))];
   CArr [hstr (js "b")]; CArr [hstr (js "a"); hstr (js "b")]].
Lemma matches_trees_witness :
  exists predicate matched, baseMatches (fun _ => NNaN) (fun _ => []) (fun _ => ([], [])) (fun _ v => Ok v) two_objects (HRef 0) = Ok predicate /\
    predicate two_objects (HRef 1) = Ok matched /\
    (matched = true <-> covers (VObj [(js "id", vint 1); (js "tags", VArr [vstr "b"])])
                               (VObj [(js "tags", VArr [vstr "a"; vstr "b"]); (js "name", vstr "pet"); (js "id", vint 1)])).
Proof.
  apply (matches_trees two_objects (fun _ => NNaN) (fun _ => []) (fun _ => ([], [])) (fun _ v => Ok v) 0 1
    [(js "id", vint 1); (js "tags", VArr [vstr "b"])] [(js "tags", VArr [vstr "a"; vstr "b"]); (js "name", vstr "pet"); (js "id", vint 1)]).
  - apply tree_object. eexists _, _. split; [reflexivity|]. split; [reflexivity|]. repeat constructor. apply tree_array. eexists _, _. split; [reflexivity|]. split; [reflexivity|]. repeat constructor.
  - apply tree_object. eexists _, _. split; [reflexivity|]. split; [reflexivity|]. repeat constructor. apply tree_array. eexists _, _. split; [reflexivity|]. split; [reflexivity|]. repeat constructor.
  - cbn [plain_tree foldr snd]. split; [|split; [|vm_compute; tauto]]; apply (bool_decide_unpack _); vm_compute; exact I.
  - cbn [plain_tree foldr snd]. split; [|split; [|vm_compute; tauto]]; apply (bool_decide_unpack _); vm_compute; exact I.
Defined.
