(* ===== verification/LodashSearch.v ===== *)
(** * Searching arrays

    array/indexOf, internal/binaryIndex and internal/binaryIndexBy of lodash
    inside swagger-ui.js.  [<] and [<=] of the language are those of integers
    and a parameter elsewhere; an iteratee has no effects. *)

From Stdlib Require Import String Sorted.
From S2P Require Import Prelude JsNumber JsString JsValue Heap Lodash.

Section binary.
Context (lt le : hval -> hval -> bool).

Definition MAX_ARRAY_LENGTH : Z := 4294967295.
Definition HALF_MAX_ARRAY_LENGTH : Z := js_shr MAX_ARRAY_LENGTH 1.
Definition MAX_ARRAY_INDEX : Z := MAX_ARRAY_LENGTH - 1.

(** [while (low < high)], with the middle as the code computes it. *)
Fixpoint halving (fuel : nat) (middle : Z -> Z) (setLow : hval -> bool) (array : list hval) (low high : Z) : res Z :=
  match fuel with
  | O => Throw Unsupported
  | S fuel =>
      if low <? high then
        let mid := middle (low + high) in
        if setLow (default hundef (array !! Z.to_nat mid)) then halving fuel middle setLow array (mid + 1) high
        else halving fuel middle setLow array low mid
      else Ok high
  end.
Definition is_null (v : hval) : bool := match v with HPrim VNull => true | _ => false end.
Definition set_low_number (value : hval) (retHighest : bool) (computed : hval) : bool :=
  (if retHighest then le computed value else lt computed value) && negb (is_null computed).
Definition set_low (value : hval) (retHighest : bool) (computed : hval) : bool :=
  let isDef := negb (h_undef computed) in
  let isReflexive := negb (is_nan computed) in
  if is_nan value then isReflexive || retHighest
  else if is_null value then isReflexive && isDef && (retHighest || negb (h_nullish computed))
  else if h_undef value then isReflexive && (retHighest || isDef)
  else if h_nullish computed then false
  else if retHighest then le computed value else lt computed value.
Definition binaryIndexBy (array : list hval) (value : hval) (iteratee : hval -> hval) (retHighest : bool) : res Z :=
  let value := iteratee value in
  high ← halving (S (length array)) (fun s => s / 2) (fun x => set_low value retHighest (iteratee x)) array 0 (Z.of_nat (length array));
  Ok (Z.min high MAX_ARRAY_INDEX).
Definition is_number (v : hval) : bool := match v with HPrim (VNum _) => true | _ => false end.
Definition binaryIndex (array : list hval) (value : hval) (retHighest : bool) : res Z :=
  let high := Z.of_nat (length array) in
  if is_number value && negb (is_nan value) && (high <=? HALF_MAX_ARRAY_LENGTH) then
    halving (S (length array)) (fun s => js_shr s 1) (set_low_number value retHighest) array 0 high
  else binaryIndexBy array value id retHighest.

(** [fromIndex]: a number, or whether it is true. *)
Definition indexOf (array : list hval) (value : hval) (fromIndex : Z + bool) : res Z :=
  let length := Z.of_nat (length array) in
  if length =? 0 then Ok (-1)
  else
    match fromIndex with
    | inl f => Ok (baseIndexOf array value (if f <? 0 then Z.max (length + f) 0 else f))
    | inr true =>
        index ← binaryIndex array value false;
        Ok (if (index <? length) && (if is_nan value then is_nan (default hundef (array !! Z.to_nat index)) else same_value value (default hundef (array !! Z.to_nat index)))
            then index else -1)
    | inr false => Ok (baseIndexOf array value 0)
    end.
End binary.

(** ** Halving finds where a test stops to hold *)

(** The test holds of the elements before [k] and of none from there on. *)
Definition parted (test : hval -> bool) (array : list hval) (k : Z) : Prop :=
  0 <= k <= Z.of_nat (length array) /\ forall i x, array !! i = Some x -> test x = (Z.of_nat i <? k).

Lemma halving_parted fuel middle test array low high k : (forall s, 0 <= s <= 2 * Z.of_nat (length array) -> middle s = s / 2) -> parted test array k ->
  0 <= low <= k -> k <= high <= Z.of_nat (length array) -> high - low < Z.of_nat fuel -> halving fuel middle test array low high = Ok k.
Proof.
  intros Hm [Hk Ht]. revert low high. induction fuel as [|fuel IH]; intros low high Hl Hh Hf; [lia|]. cbn [halving].
  destruct (Z.ltb_spec low high) as [H|H]; [|f_equal; lia]. rewrite Hm by lia. pose proof (Z.div_mod (low + high) 2 ltac:(lia)). pose proof (Z.mod_pos_bound (low + high) 2 ltac:(lia)).
  set (mid := (low + high) / 2) in *. destruct (lookup_lt_is_Some_2 array (Z.to_nat mid)) as [x Hx]; [lia|]. rewrite Hx. cbn [default]. change (id x) with x. rewrite (Ht _ _ Hx), Z2Nat.id by lia.
  destruct (Z.ltb_spec mid k); apply IH; lia.
Qed.
(** On any array the search ends within it. *)
Lemma halving_ends fuel middle test array low high : (forall s, 0 <= s <= 2 * Z.of_nat (length array) -> middle s = s / 2) ->
  0 <= low <= high -> high <= Z.of_nat (length array) -> high - low < Z.of_nat fuel ->
  exists k, halving fuel middle test array low high = Ok k /\ low <= k <= high.
Proof.
  intros Hm. revert low high. induction fuel as [|fuel IH]; intros low high Hl Hh Hf; [lia|]. cbn [halving].
  destruct (Z.ltb_spec low high) as [H|H]; [|exists high; split; [done|lia]]. rewrite Hm by lia. pose proof (Z.div_mod (low + high) 2 ltac:(lia)). pose proof (Z.mod_pos_bound (low + high) 2 ltac:(lia)).
  set (mid := (low + high) / 2) in *. destruct (test _).
  - destruct (IH (mid + 1) high) as (k & E & Hk); [lia..|]. exists k. split; [done|lia].
  - destruct (IH low mid) as (k & E & Hk); [lia..|]. exists k. split; [done|lia].
Qed.
Lemma middle_shr (array : list hval) s : Z.of_nat (length array) <= HALF_MAX_ARRAY_LENGTH -> 0 <= s <= 2 * Z.of_nat (length array) -> js_shr s 1 = s / 2.
Proof.
  intros Hl Hs. change HALF_MAX_ARRAY_LENGTH with 2147483647 in Hl. unfold js_shr, to_uint32. rewrite Z.mod_small by lia. change (1 mod 32) with 1. by rewrite Z.shiftr_div_pow2.
Qed.

(** ** Sorted arrays *)

(** The order of text: by code units. *)
Fixpoint text_lt (s t : jsstr) : bool :=
  match s, t with
  | _, [] => false
  | [], _ :: _ => true
  | c :: s, d :: t => (c <? d) || (c =? d) && text_lt s t
  end.
Lemma text_lt_trans s : forall t u, text_lt s t = true -> text_lt t u = true -> text_lt s u = true.
Proof.
  induction s as [|c s IH]; intros [|d t] [|e u] H1 H2; try done. cbn in *.
  apply orb_true_iff in H1 as [H1|[H1 H1']%andb_true_iff], H2 as [H2|[H2 H2']%andb_true_iff]; apply orb_true_iff; btrue.
  1-3: left; lia. right. apply andb_true_iff. split; [lia|]. by apply (IH t).
Qed.
Lemma text_lt_cases s : forall t, text_lt s t = false -> text_lt t s = false -> s = t.
Proof.
  induction s as [|c s IH]; intros [|d t] H1 H2; try done. cbn in *.
  apply orb_false_iff in H1 as [H1 H1'], H2 as [H2 H2']. btrue. assert (c = d) as -> by lia. rewrite Z.eqb_refl in *. f_equal. by apply IH.
Qed.
Lemma text_lt_irrefl s : text_lt s s = false.
Proof. induction s as [|c s IH]; [done|]. cbn. by rewrite Z.ltb_irrefl, Z.eqb_refl, IH. Qed.

Section order.
Context (other le : hval -> hval -> bool).

(** [<]: integers, texts, and what is no number; of other operands a parameter. *)
Definition js_lt (v w : hval) : bool :=
  match v, w with
  | HPrim (VNum (NInt x)), HPrim (VNum (NInt y)) => x <? y
  | HPrim (VStr s), HPrim (VStr t) => text_lt s t
  | HPrim VUndef, _ | _, HPrim VUndef | HPrim (VNum NNaN), _ | _, HPrim (VNum NNaN) => false
  | _, _ => other v w
  end.

(** Behind the comparable values come [null], [undefined] and NaN. *)
Definition rank (v : hval) : Z :=
  match v with HPrim (VNum NNaN) => 3 | HPrim VUndef => 2 | HPrim VNull => 1 | _ => 0 end.
(** The comparable values of an array: all texts, or all integers. *)
Definition sortable (texts : bool) (v : hval) : Prop :=
  rank v <> 0 \/ match v with HPrim (VStr _) => texts = true | HPrim (VNum (NInt _)) => texts = false | _ => False end.
Definition ascending (v w : hval) : Prop := rank v < rank w \/ rank v = rank w /\ js_lt w v = false.

(** Being less than a value, and being it. *)
Definition less (v x : hval) : bool := set_low js_lt le v false x.
Definition found (v x : hval) : bool := if is_nan v then is_nan x else same_value v x.

Lemma less_spec texts v x : sortable texts v -> sortable texts x ->
  less v x = true <-> rank x < rank v \/ rank x = 0 /\ rank v = 0 /\ js_lt x v = true.
Proof.
  intros [Hv|Hv] [Hx|Hx]; unfold less, set_low, rank, is_nan, is_null in *;
    destruct v as [[| |?|[?|?|]|?| | |]|?], x as [[| |?|[?|?|]|?| | |]|?]; try done; cbn in *; lia || (split; [auto|]; intros [?|(_ & _ & ?)]; done || lia).
Qed.
Lemma found_spec texts v x : sortable texts v -> sortable texts x ->
  found v x = true <-> rank x = rank v /\ (rank v = 0 -> x = v).
Proof.
  intros Hv Hx. unfold found, sortable, rank, is_nan in *.
  destruct v as [[| |?|[?|?|]|?| | |]|?], x as [[| |?|[?|?|]|?| | |]|?]; cbn in *; try lia; try (destruct Hv as [[]|[]]; done); try (destruct Hx as [[]|[]]; done);
    rewrite ?Z.eqb_eq, ?bool_decide_eq_true; split; try done; try (intros ->; done); try (intros [_ H]; by injection (H eq_refl)).
Qed.

(** The order of values of one kind is total. *)
Lemma same_kind texts v w : sortable texts v -> sortable texts w -> rank v = 0 -> rank w = 0 ->
  (exists x y, v = HPrim (vint x) /\ w = HPrim (vint y)) \/ (exists s t, v = HPrim (VStr s) /\ w = HPrim (VStr t)).
Proof.
  unfold sortable, rank. destruct v as [[| |?|[?|?|]|?| | |]|?], w as [[| |?|[?|?|]|?| | |]|?]; intros [?|Hv] [?|Hw] Ev Ew; try done; try congruence; eauto 10.
Qed.
Lemma lt_cases texts v w : sortable texts v -> sortable texts w -> rank v = 0 -> rank w = 0 -> js_lt v w = false -> js_lt w v = false -> v = w.
Proof.
  intros Hv Hw Ev Ew. destruct (same_kind texts v w Hv Hw Ev Ew) as [(x & y & -> & ->)|(x & y & -> & ->)]; cbn; intros H1 H2.
  - btrue. do 3 f_equal. lia.
  - do 2 f_equal. by apply text_lt_cases.
Qed.
Lemma lt_trans texts u v w : sortable texts u -> sortable texts v -> sortable texts w -> rank u = 0 -> rank v = 0 -> rank w = 0 ->
  js_lt u v = true -> js_lt v w = true -> js_lt u w = true.
Proof.
  intros Hu Hv Hw Eu Ev Ew. destruct (same_kind texts u v Hu Hv Eu Ev) as [(x & y & -> & ->)|(x & y & -> & ->)],
    (same_kind texts _ w Hv Hw Ev Ew) as [(y' & z & [= <-] & ->)|(y' & z & [= <-] & ->)]; cbn; intros H1 H2.
  - btrue. apply Z.ltb_lt. lia.
  - by apply (text_lt_trans x y).
Qed.

Section searched.
Context (texts : bool) (v : hval) (Hv : sortable texts v).

Lemma less_down x y : sortable texts x -> sortable texts y -> ascending x y -> less v y = true -> less v x = true.
Proof using Hv.
  intros Hx Hy [Ha|[Ha Hl]] H; apply (less_spec texts) in H; try done; apply (less_spec texts); try done.
  - destruct H as [|(E & _)]; [lia|]. unfold rank in *. repeat case_match; lia.
  - destruct H as [|(E & Ev & H)]; [lia|]. right. split; [lia|]. split; [done|].
    destruct (js_lt x y) eqn:Exy; [by apply (lt_trans texts x y v); try done; lia|]. by rewrite (lt_cases texts x y) by (done || lia).
Qed.
Lemma found_up x y : sortable texts x -> sortable texts y -> ascending x y -> less v x = false -> found v y = true -> found v x = true.
Proof using Hv.
  intros Hx Hy Ha Hl H. apply (found_spec texts) in H as [E H]; [|done..]. apply (found_spec texts); [done..|].
  assert (Hn : ~ (rank x < rank v \/ rank x = 0 /\ rank v = 0 /\ js_lt x v = true)) by (rewrite <- less_spec by done; congruence).
  assert (Ex : rank x = rank v) by (destruct Ha as [?|[? _]]; lia). split; [done|]. intros Ev. specialize (H Ev). subst y.
  destruct Ha as [?|[_ Ha]]; [lia|]. apply (lt_cases texts); try done; [lia|]. destruct (js_lt x v); [|done]. destruct Hn. right. lia || (split; [lia|by split]).
Qed.
Lemma less_not_found x : sortable texts x -> less v x = true -> found v x = false.
Proof using Hv.
  intros Hx H. apply (less_spec texts) in H; [|done..]. destruct (found v x) eqn:E; [|done]. apply (found_spec texts) in E as [E1 E2]; [|done..].
  destruct H as [?|(_ & Ev & H)]; [lia|]. rewrite (E2 Ev) in H. destruct (same_kind texts v v Hv Hv Ev Ev) as [(a & b & -> & [= <-])|(a & b & -> & [= <-])]; cbn in H.
  - by rewrite Z.ltb_irrefl in H.
  - by rewrite text_lt_irrefl in H.
Qed.

(** How many elements, from the first on, are less. *)
Fixpoint count_less (l : list hval) : Z := match l with x :: l => if less v x then 1 + count_less l else 0 | [] => 0 end.
Lemma count_less_bound l : 0 <= count_less l <= Z.of_nat (length l).
Proof using. clear Hv. induction l as [|x l IH]; cbn [count_less length]; [done|]. destruct (less v x); lia. Qed.

Lemma count_less_parted array : Forall (sortable texts) array -> StronglySorted ascending array -> parted (less v) array (count_less array).
Proof using Hv.
  intros Hs Ha. split; [apply count_less_bound|]. revert Hs. induction Ha as [|y l Hl IH Hy]; intros Hs i x Hx; [done|]. apply Forall_cons in Hs as [Sy Sl]. cbn [count_less].
  destruct (less v y) eqn:E.
  - pose proof (count_less_bound l). destruct i as [|i]; cbn in Hx; [injection Hx as <-; rewrite E; symmetry; apply Z.ltb_lt; lia|].
    rewrite (IH Sl i x Hx). apply Bool.eq_iff_eq_true. rewrite !Z.ltb_lt. lia.
  - rewrite (proj2 (Z.ltb_ge _ _)) by lia. apply list_elem_of_lookup_2, elem_of_cons in Hx as [->|Hx]; [done|].
    rewrite Forall_forall in Hy, Sl. destruct (less v x) eqn:Ex; [|done]. by rewrite (less_down y x) in E by auto.
Qed.
Lemma ascending_lookup array i j x y : StronglySorted ascending array -> (i < j)%nat -> array !! i = Some x -> array !! j = Some y -> ascending x y.
Proof using.
  clear Hv. intros Ha. revert i j. induction Ha as [|a l _ IH Hl]; intros i j Hij Hx Hy; [done|]. destruct j as [|j]; [lia|]. cbn in Hy. destruct i as [|i]; cbn in Hx.
  - injection Hx as ->. rewrite Forall_forall in Hl. apply Hl. by eapply list_elem_of_lookup_2.
  - apply (IH i j); [lia|done|done].
Qed.
Lemma found_first array i j x y : Forall (sortable texts) array -> StronglySorted ascending array ->
  array !! i = Some x -> array !! j = Some y -> (i <= j)%nat -> less v x = false -> found v y = true -> found v x = true.
Proof using Hv.
  intros Hs Ha Hx Hy Hij. destruct (decide (i = j)) as [->|Hne]; [congruence|]. apply found_up.
  - by eapply Forall_lookup_1.
  - by eapply Forall_lookup_1.
  - by eapply (ascending_lookup array i j); [| lia|..].
Qed.
End searched.
End order.

Lemma search_from_prefix test array n m : (forall i, n <= i < n + Z.of_nat m -> test (default hundef (array !! Z.to_nat i)) = false) ->
  forall rest, search_from test array (seqZ n (Z.of_nat m) ++ rest) = search_from test array rest.
Proof.
  revert n. induction m as [|m IH]; intros n H rest; [done|]. rewrite seqZ_cons by lia. cbn [app search_from]. rewrite H by lia.
  replace (Z.pred (Z.of_nat (S m))) with (Z.of_nat m) by lia. apply IH. intros i Hi. apply H. lia.
Qed.
(** A search from left to right, when nothing before [k] is found, and nothing
    behind it unless the one at [k] is. *)
Lemma search_at test array k : 0 <= k <= Z.of_nat (length array) ->
  (forall i x, array !! i = Some x -> Z.of_nat i < k -> test x = false) ->
  (forall i x y, array !! i = Some x -> Z.of_nat i = k -> forall j, (i <= j)%nat -> array !! j = Some y -> test y = true -> test x = true) ->
  search_from test array (seqZ 0 (Z.of_nat (length array))) =
  if (k <? Z.of_nat (length array)) && test (default hundef (array !! Z.to_nat k)) then k else -1.
Proof.
  intros Hk Hlow Hup. replace (Z.of_nat (length array)) with (Z.of_nat (Z.to_nat k) + (Z.of_nat (length array) - k)) at 1 by lia.
  rewrite seqZ_app by lia. rewrite search_from_prefix.
  2: { intros i Hi. destruct (lookup_lt_is_Some_2 array (Z.to_nat i)) as [x Hx]; [lia|]. rewrite Hx. apply (Hlow _ _ Hx). lia. }
  destruct (Z.ltb_spec k (Z.of_nat (length array))) as [H|H]; cbn [andb]; [|by replace (Z.of_nat (length array) - k) with 0 by lia].
  rewrite seqZ_cons by lia. cbn [search_from]. replace (0 + Z.of_nat (Z.to_nat k)) with k by lia.
  destruct (lookup_lt_is_Some_2 array (Z.to_nat k)) as [x Hx]; [lia|]. rewrite Hx. cbn [default]. change (id x) with x. destruct (test x) eqn:E; [done|].
  rewrite <- (app_nil_r (seqZ _ _)). replace (Z.pred (Z.of_nat (length array) - k)) with (Z.of_nat (Z.to_nat (Z.pred (Z.of_nat (length array) - k)))) by lia.
  rewrite search_from_prefix; [done|]. intros i Hi. destruct (lookup_lt_is_Some_2 array (Z.to_nat i)) as [y Hy]; [lia|]. rewrite Hy. cbn [default]. change (id y) with y.
  destruct (test y) eqn:Ey; [|done]. rewrite (Hup (Z.to_nat k) x y Hx ltac:(lia) (Z.to_nat i) ltac:(lia) Hy Ey) in E. done.
Qed.

Lemma same_value_sym v w : same_value v w = same_value w v.
Proof.
  destruct v as [[| |[]|[x|x|]|x| | |]|x], w as [[| |[]|[y|y|]|y| | |]|y]; cbn; try done; apply Z.eqb_sym || apply Nat.eqb_sym || by apply bool_decide_ext.
Qed.

Section indexOf.
Context (other le : hval -> hval -> bool) (texts : bool) (array : list hval) (v : hval).
Context (Hs : Forall (sortable texts) (v :: array)) (Ha : StronglySorted (ascending other) array).
Local Abbreviation lt := (js_lt other).
Local Abbreviation k := (count_less other le v array).

Lemma binaryIndex_sorted : Z.of_nat (length array) <= MAX_ARRAY_LENGTH -> binaryIndex lt le array v false = Ok (Z.min k MAX_ARRAY_INDEX).
Proof using Hs Ha.
  intros Hmax. apply Forall_cons in Hs as [Hv Hs']. pose proof (count_less_bound other le v array) as Hb.
  pose proof (count_less_parted other le texts v Hv array Hs' Ha) as Hp.
  assert (Hby : binaryIndexBy lt le array v id false = Ok (Z.min k MAX_ARRAY_INDEX)).
  { unfold binaryIndexBy. change (id v) with v. rewrite (halving_parted _ _ _ _ _ _ k); [done|done|exact Hp|lia|lia|lia]. }
  unfold binaryIndex. destruct (is_number v && negb (is_nan v) && _) eqn:En; [|exact Hby].
  apply andb_true_iff in En as [[En Er%negb_true_iff]%andb_true_iff Hh%Z.leb_le].
  rewrite (halving_parted _ _ _ _ _ _ k); [|intros s Hsum; by apply (middle_shr array)| |lia|lia|lia].
  - rewrite Z.min_l; [done|]. change HALF_MAX_ARRAY_LENGTH with 2147483647 in Hh. unfold MAX_ARRAY_INDEX, MAX_ARRAY_LENGTH. lia.
  - destruct Hp as [Hk Hp]. split; [done|]. intros i x Hx. rewrite <- (Hp i x Hx). rewrite Forall_forall in Hs'. pose proof (Hs' x ltac:(by eapply list_elem_of_lookup_2)) as Sx.
    destruct v as [[| |?|[?|?|]|?| | |]|?]; try done; [|by destruct Hv]. unfold sortable, rank in *. destruct x as [[| |?|[?|?|]|?| | |]|?]; cbn; try apply andb_true_r; try apply andb_false_r; by destruct Sx.
Qed.

(** C20. In an array that is sorted, all integers or all texts and behind
    them any [null], [undefined] and NaN, the binary search of [indexOf] for a
    value of these finds the index that the search from left to right finds:
    the first, or -1. *)
Theorem indexOf_sorted : Z.of_nat (length array) <= MAX_ARRAY_LENGTH -> indexOf lt le array v (inr true) = Ok (baseIndexOf array v 0).
Proof using Hs Ha.
  intros Hmax. pose proof Hs as [Hv Hs']%Forall_cons. pose proof (count_less_bound other le v array) as Hb.
  destruct (count_less_parted other le texts v Hv array Hs' Ha) as [_ Hp].
  assert (Hsearch : search_from (found v) array (seqZ 0 (Z.of_nat (length array))) =
    if (k <? Z.of_nat (length array)) && found v (default hundef (array !! Z.to_nat k)) then k else -1).
  { apply search_at; [done| |].
    - intros i x Hx Hi. apply (less_not_found other le texts v Hv); [by eapply Forall_lookup_1|]. rewrite (Hp i x Hx). by apply Z.ltb_lt.
    - intros i x y Hx Hi j Hij Hy. apply (found_first other le texts v Hv array i j x y Hs' Ha); try done. rewrite (Hp i x Hx). apply Z.ltb_ge. lia. }
  assert (Hbase : baseIndexOf array v 0 = search_from (found v) array (seqZ 0 (Z.of_nat (length array)))).
  { unfold baseIndexOf, indexOfNaN, found. rewrite Z.sub_0_r. destruct (is_nan v); [done|]. generalize (seqZ 0 (Z.of_nat (length array))). intros l.
    induction l as [|i l IH]; [done|]. cbn [search_from]. by rewrite IH, same_value_sym. }
  rewrite Hbase, Hsearch. unfold indexOf. rewrite binaryIndex_sorted by done. cbn [mbind res_bind].
  assert (Hfound : forall x, (if is_nan v then is_nan x else same_value v x) = found v x) by done.
  destruct (Z.eqb_spec (Z.of_nat (length array)) 0) as [E|E]; [by rewrite (proj2 (Z.ltb_ge k _)) by lia|]. f_equal. rewrite Hfound.
  destruct (Z.le_gt_cases k MAX_ARRAY_INDEX) as [H|H]; [by rewrite Z.min_l by done|]. rewrite Z.min_r by lia. unfold MAX_ARRAY_INDEX in *.
  rewrite (proj2 (Z.ltb_ge k _)) by lia. cbn [andb]. destruct (Z.ltb_spec (MAX_ARRAY_LENGTH - 1) (Z.of_nat (length array))) as [Hl|Hl]; [|done]. cbn [andb].
  destruct (lookup_lt_is_Some_2 array (Z.to_nat (MAX_ARRAY_LENGTH - 1))) as [x Hx]; [unfold MAX_ARRAY_LENGTH in *; lia|]. rewrite Hx. cbn [default]. change (id x) with x.
  rewrite (less_not_found other le texts v Hv x); [done|by eapply Forall_lookup_1|]. rewrite (Hp _ x Hx). apply Z.ltb_lt. unfold MAX_ARRAY_LENGTH in *. lia.
Qed.
End indexOf.

Definition some_names : list hval := [hstr (js "1"); hstr (js "10"); hstr (js "2"); HPrim VNull; HPrim VUndef; HPrim (VNum NNaN)].
Lemma indexOf_sorted_witness :
  indexOf (js_lt (fun _ _ => false)) (fun _ _ => false) some_names (hstr (js "10")) (inr true) = Ok (baseIndexOf some_names (hstr (js "10")) 0) /\
  indexOf (js_lt (fun _ _ => false)) (fun _ _ => false) some_names (HPrim VNull) (inr true) = Ok (baseIndexOf some_names (HPrim VNull) 0).
Proof.
  assert (Hs : Forall (sortable true) some_names) by (unfold some_names; repeat (apply Forall_cons; split; [(by left) + (by right)|]); apply Forall_nil_2).
  assert (Ha : StronglySorted (ascending (fun _ _ => false)) some_names).
  { unfold some_names. repeat (apply SSorted_cons; [|repeat (apply Forall_cons; split; [(by left) + (by right)|]); apply Forall_nil_2]). apply SSorted_nil. }
  split; apply (indexOf_sorted (fun _ _ => false) (fun _ _ => false) true some_names); try done; try (vm_compute; discriminate).
  - constructor; [by right|exact Hs].
  - constructor; [by left|exact Hs].
Defined.
(** In the order of [sort], which is that of the texts, numbers are not found. *)
Example sorted_as_text : indexOf (js_lt (fun _ _ => false)) (fun _ _ => false) (HPrim <$> [vint 1; vint 10; vint 2]) (HPrim (vint 2)) (inr true) = Ok (-1).
Proof. reflexivity. Qed.
