(* ===== verification/LodashBind.v ===== *)
(** * Bound and partially applied functions

    function/bind, function/restParam and the wrappers of internal/ of lodash
    inside swagger-ui.js: composing arguments with placeholders, merging the
    data of a wrapper with that of the wrapped function, and calling.

    A function has a number; [functions] holds what it closes over, [meta] is
    the WeakMap of data.  What the functions of the program do when they are
    called is a parameter.  Wrappers of methods ([bindKey]) and the lazy
    functions of lodash are not in the bundle. *)

From S2P Require Import Prelude.

Section wrappers.
Context {V : Type} `{EqDecision V}.
(** [undefined], [bind.placeholder], and the text that stands for it. *)
Context (undef placeholder PLACEHOLDER : V).

Definition BIND_FLAG : Z := 1.
Definition BIND_KEY_FLAG : Z := 2.
Definition CURRY_BOUND_FLAG : Z := 4.
Definition CURRY_FLAG : Z := 8.
Definition CURRY_RIGHT_FLAG : Z := 16.
Definition PARTIAL_FLAG : Z := 32.
Definition PARTIAL_RIGHT_FLAG : Z := 64.
Definition ARY_FLAG : Z := 128.
Definition REARG_FLAG : Z := 256.
(** [bitmask & flag], and [bitmask & ~flag]. *)
Definition has (bitmask flag : Z) : bool := negb (Z.land bitmask flag =? 0).
Definition without (bitmask flag : Z) : Z := Z.ldiff bitmask flag.

(** ** Arguments *)

Definition arg (args : list V) (i : nat) : V := default undef (args !! i).
(** [restParam]: the arguments before [start] and the rest. *)
Definition restParam (start : nat) (args : list V) : list V * list V := (arg args <$> seq 0 start, drop start args).

(** The indices of the placeholders, which are replaced in the array. *)
Definition holders_of (p : V) (array : list V) : list nat := (filter (fun ix : nat * V => ix.2 = p) (imap pair array)).*1.
Definition replaceHolders (array : list V) (p : V) : list V * list nat :=
  ((fun x => if bool_decide (x = p) then PLACEHOLDER else x) <$> array, holders_of p array).

Definition composeArgs (args partials : list V) (holders : list nat) : list V :=
  let holdersLength := length holders in
  let argsLength := (length args - holdersLength)%nat in
  let filled := foldl (fun result ih => <[ih.2 := arg args ih.1]> result) partials (imap pair holders) in
  filled ++ (arg args <$> seq holdersLength argsLength).
Definition composeArgsRight (args partials : list V) (holders : list nat) : list V :=
  let holdersLength := length holders in
  let argsLength := (length args - holdersLength)%nat in
  let result := (arg args <$> seq 0 argsLength) ++ partials in
  foldl (fun result ih => <[(argsLength + ih.2)%nat := arg args (argsLength + ih.1)%nat]> result) result (imap pair holders).
Definition reorder (array : list V) (indexes : list Z) : list V :=
  let arrLength := length array in
  imap (fun i x => match indexes !! i with
                   | Some index => if (-1 <? index) && (index <? Z.of_nat arrLength) then arg array (Z.to_nat index) else undef
                   | None => x
                   end) array.

(** ** Data of a wrapper *)

Record func_data := Data {
  d_func : nat; d_bitmask : Z; d_thisArg : V; d_partials : option (list V); d_holders : option (list nat);
  d_partialsRight : option (list V); d_holdersRight : option (list nat); d_argPos : option (list Z);
  d_ary : option Z; d_arity : option Z
}.
(** One side of [mergeData]: the partials of the new wrapper and of the wrapped
    function. *)
Definition merge_partials (compose : list V -> list V -> list nat -> list V) (partials : option (list V)) (holders : option (list nat))
    (value : option (list V)) (valueHolders : option (list nat)) : option (list V) * option (list nat) :=
  match value with
  | Some value =>
      match partials with
      | Some partials =>
          let '(l, hs) := replaceHolders (compose partials value (default [] valueHolders)) PLACEHOLDER in (Some l, Some hs)
      | None => (Some value, Some (default [] valueHolders))
      end
  | None => (partials, holders)
  end.
Definition mergeData (data source : func_data) : func_data :=
  let bitmask := d_bitmask data in
  let srcBitmask := d_bitmask source in
  let newBitmask := Z.lor bitmask srcBitmask in
  let isCommon := newBitmask <? ARY_FLAG in
  let isCombo :=
    ((srcBitmask =? ARY_FLAG) && (bitmask =? CURRY_FLAG)) ||
    ((srcBitmask =? ARY_FLAG) && (bitmask =? REARG_FLAG) && (Z.of_nat (length (default [] (d_argPos data))) <=? default 0 (d_ary source))) ||
    ((srcBitmask =? Z.lor ARY_FLAG REARG_FLAG) && (bitmask =? CURRY_FLAG)) in
  if negb (isCommon || isCombo) then data
  else
    let isBind := has srcBitmask BIND_FLAG in
    let thisArg := if isBind then d_thisArg source else d_thisArg data in
    let newBitmask := if isBind then Z.lor newBitmask (if has bitmask BIND_FLAG then 0 else CURRY_BOUND_FLAG) else newBitmask in
    let '(partials, holders) := merge_partials composeArgs (d_partials data) (d_holders data) (d_partials source) (d_holders source) in
    let '(partialsRight, holdersRight) := merge_partials composeArgsRight (d_partialsRight data) (d_holdersRight data) (d_partialsRight source) (d_holdersRight source) in
    let argPos := match d_argPos source with Some l => Some l | None => d_argPos data end in
    let ary := if has srcBitmask ARY_FLAG then match d_ary data with None => d_ary source | Some a => Some (Z.min a (default 0 (d_ary source))) end else d_ary data in
    let arity := match d_arity data with None => d_arity source | a => a end in
    Data (d_func source) newBitmask thisArg partials holders partialsRight holdersRight argPos ary arity.

(** ** Functions *)

Inductive closure :=
| Native (arity : Z)
| BindWrapper (func : nat) (thisArg : V)
| PartialWrapper (d : func_data)
| HybridWrapper (d : func_data).
(** [meta]: the data of a function, the last one set first.  [count] and
    [lastCalled] are those of [setData]. *)
Record fstate := FState { functions : list closure; meta : list (nat * func_data); count : Z; lastCalled : Z }.

Definition new_function (c : closure) : ST fstate nat := fun s =>
  (FState (functions s ++ [c]) (meta s) (count s) (lastCalled s), Ok (length (functions s))).
Definition getData (weakMap : bool) (func : nat) : ST fstate (option func_data) :=
  gets (fun s => if weakMap then snd <$> List.find (fun p => Nat.eqb p.1 func) (meta s) else None).
Definition baseSetData (weakMap : bool) (func : nat) (d : func_data) : ST fstate nat :=
  _ ← modify (fun s => if weakMap then FState (functions s) ((func, d) :: meta s) (count s) (lastCalled s) else s); mret func.
Definition HOT_COUNT : Z := 150.
Definition HOT_SPAN : Z := 16.
(** No data are kept of functions that are made in a hot loop. *)
Definition setData (weakMap : bool) (now : Z) (key : nat) (value : func_data) : ST fstate nat :=
  hot ← (fun s =>
    let remaining := HOT_SPAN - (now - lastCalled s) in
    let count := if 0 <? remaining then count s + 1 else 0 in
    (FState (functions s) (meta s) count now, Ok ((0 <? remaining) && (HOT_COUNT <=? count))));
  if (hot : bool) then mret key else baseSetData weakMap key value.
(** [func.length]: a wrapper takes its arguments from [arguments]. *)
Definition arity_of (func : nat) : ST fstate Z :=
  gets (fun s => match functions s !! func with Some (Native n) => n | _ => 0 end).

Definition createWrapper (weakMap : bool) (now : Z) (func : nat) (bitmask : Z) (thisArg : V) (partials : option (list V)) (holders : option (list nat))
    (argPos : option (list Z)) (ary arity : option Z) : ST fstate nat :=
  let n := length (default [] partials) in
  let '(bitmask, partials, holders) :=
    if Nat.eqb n 0 then (without bitmask (Z.lor PARTIAL_FLAG PARTIAL_RIGHT_FLAG), None, None) else (bitmask, partials, holders) in
  let length := Z.of_nat n - Z.of_nat (List.length (default [] holders)) in
  let '(partials, holders, partialsRight, holdersRight) :=
    if has bitmask PARTIAL_RIGHT_FLAG then (None, None, partials, holders) else (partials, holders, None, None) in
  source ← getData weakMap func;
  let newData := Data func bitmask thisArg partials holders partialsRight holdersRight argPos ary arity in
  let newData := match source with Some source => mergeData newData source | None => newData end in
  let bitmask := d_bitmask newData in
  arity ← (match d_arity newData with None => arity_of func | Some a => mret (Z.max (a - length) 0) end);
  let newData := Data (d_func newData) bitmask (d_thisArg newData) (d_partials newData) (d_holders newData)
                   (d_partialsRight newData) (d_holdersRight newData) (d_argPos newData) (d_ary newData) (Some arity) in
  result ← new_function
    (if bitmask =? BIND_FLAG then BindWrapper (d_func newData) (d_thisArg newData)
     else if ((bitmask =? PARTIAL_FLAG) || (bitmask =? Z.lor BIND_FLAG PARTIAL_FLAG)) && Nat.eqb (List.length (default [] (d_holders newData))) 0
     then PartialWrapper newData
     else HybridWrapper newData);
  match source with Some _ => baseSetData weakMap result newData | None => setData weakMap now result newData end.

(** [bind(func, thisArg, ...partials)]. *)
Definition bind (weakMap : bool) (now : Z) (func : nat) (thisArg : V) (partials : list V) : ST fstate nat :=
  match partials with
  | [] => createWrapper weakMap now func BIND_FLAG thisArg (Some []) None None None None
  | _ =>
      let '(partials, holders) := replaceHolders partials placeholder in
      createWrapper weakMap now func (Z.lor BIND_FLAG PARTIAL_FLAG) thisArg (Some partials) (Some holders) None None None
  end.

(** ** Calls *)

(** [this] of a call, or [new]. *)
Inductive mode := Called (this : V) | Constructed.
Context {R : Type} (native : nat -> mode -> list V -> R).
(** What a call returns: the result of a function of the program, or the
    function that waits for more arguments. *)
Inductive outcome := Returned (r : R) | Waits (func : nat).

(** The arguments of a hybrid wrapper and, when it is curried and has too few,
    the data of the next one. *)
Definition hybrid_args (d : func_data) (args : list V) : list V :=
  let args := match d_partials d with Some partials => composeArgs args partials (default [] (d_holders d)) | None => args end in
  match d_partialsRight d with Some partials => composeArgsRight args partials (default [] (d_holdersRight d)) | None => args end.
Definition curried (d : func_data) (length : Z) (args : list V) : option func_data :=
  let isCurry := has (d_bitmask d) CURRY_FLAG in
  if isCurry || has (d_bitmask d) CURRY_RIGHT_FLAG then
    let '(args, argsHolders) := replaceHolders args placeholder in
    let length := length - Z.of_nat (List.length argsHolders) in
    let arity := default 0 (d_arity d) in
    if length <? arity then
      let bitmask := Z.lor (d_bitmask d) (if isCurry then PARTIAL_FLAG else PARTIAL_RIGHT_FLAG) in
      let bitmask := without bitmask (if isCurry then PARTIAL_RIGHT_FLAG else PARTIAL_FLAG) in
      let bitmask := if has (d_bitmask d) CURRY_BOUND_FLAG then bitmask else without bitmask (Z.lor BIND_FLAG BIND_KEY_FLAG) in
      Some (Data (d_func d) bitmask (d_thisArg d) (if isCurry then Some args else None) (if isCurry then Some argsHolders else None)
              (if isCurry then None else Some args) (if isCurry then None else Some argsHolders) (d_argPos d) (d_ary d) (Some (Z.max (arity - length) 0)))
    else None
  else None.
Definition placed (d : func_data) (args : list V) : list V :=
  let args := if has (d_bitmask d) CURRY_FLAG || has (d_bitmask d) CURRY_RIGHT_FLAG then (replaceHolders args placeholder).1 else args in
  let args := match d_argPos d with Some indexes => reorder args indexes | None => args end in
  match d_ary d with
  | Some ary => if has (d_bitmask d) ARY_FLAG && (ary <? Z.of_nat (length args)) then take (Z.to_nat ary) args else args
  | None => args
  end.
Definition bound_mode (isBind : bool) (thisArg : V) (m : mode) : mode :=
  match m with Constructed => Constructed | Called this => Called (if isBind then thisArg else this) end.

(** What a wrapper does when it is called: the function it calls with [this]
    and the arguments, or the data of the function it returns. *)
Definition bind_call (func : nat) (thisArg : V) (m : mode) (args : list V) : nat * mode * list V := (func, bound_mode true thisArg m, args).
Definition partial_call (d : func_data) (m : mode) (args : list V) : nat * mode * list V :=
  (d_func d, bound_mode (has (d_bitmask d) BIND_FLAG) (d_thisArg d) m, default [] (d_partials d) ++ args).
Definition hybrid_call (d : func_data) (m : mode) (arguments : list V) : func_data + nat * mode * list V :=
  let args := hybrid_args d arguments in
  match curried d (Z.of_nat (length arguments)) args with
  | Some newData => inl newData
  | None => inr (d_func d, bound_mode (has (d_bitmask d) BIND_FLAG) (d_thisArg d) m, placed d args)
  end.
(** A wrapper calls a function that was there before it. *)
Fixpoint apply (fuel : nat) (func : nat) (m : mode) (args : list V) : ST fstate outcome :=
  match fuel with
  | O => lift (Throw Unsupported)
  | S fuel =>
      let next c := let '(f, m, args) := c in apply fuel f m args in
      c ← gets (fun s => functions s !! func);
      match c with
      | None => lift (Throw TypeError)
      | Some (Native _) => mret (Returned (native func m args))
      | Some (BindWrapper f thisArg) => next (bind_call f thisArg m args)
      | Some (PartialWrapper d) => next (partial_call d m args)
      | Some (HybridWrapper d) =>
          match hybrid_call d m args with
          | inl newData => result ← new_function (HybridWrapper newData); mret (Waits result)
          | inr c => next c
          end
      end
  end.
Definition call (func : nat) (m : mode) (args : list V) : ST fstate outcome := apply (S func) func m args.
End wrappers.
Arguments func_data : clear implicits.
Arguments fstate : clear implicits.
Arguments closure : clear implicits.
Arguments mode : clear implicits.
Arguments outcome : clear implicits.

(** ** Placeholders are filled from the left *)

Section facts.
Context {V : Type} `{EqDecision V} (undef placeholder PLACEHOLDER : V).

(** The arguments in place of the holes, the rest behind; [undefined] where
    there are too few. *)
Fixpoint fill (hole : V) (partials args : list V) : list V :=
  match partials with
  | [] => args
  | p :: partials =>
      if bool_decide (p = hole) then default undef (head args) :: fill hole partials (tail args) else p :: fill hole partials args
  end.
Fixpoint holes (hole : V) (k : nat) (l : list V) : list nat :=
  match l with x :: l => if bool_decide (x = hole) then k :: holes hole (S k) l else holes hole (S k) l | [] => [] end.

Lemma holders_holes hole l : holders_of hole l = holes hole 0 l.
Proof.
  unfold holders_of. assert (E : forall f k, (forall i x, f i x = ((k + i)%nat, x)) -> (filter (fun ix : nat * V => ix.2 = hole) (imap f l)).*1 = holes hole k l).
  { induction l as [|x l IH]; intros f k Hf; [done|]. cbn [imap holes]. rewrite Hf, Nat.add_0_r. assert (Hs : forall i y, (f ∘ S) i y = ((S k + i)%nat, y)) by (intros i y; cbn; rewrite Hf; f_equal; lia).
    case_bool_decide as Hx.
    - rewrite filter_cons_True by done. cbn [fmap list_fmap fst]. by rewrite (IH _ _ Hs).
    - rewrite filter_cons_False by done. by apply IH. }
  by apply E.
Qed.
Lemma drop_args (args : list V) n : drop n args = arg undef args <$> seq n (length args - n).
Proof.
  apply list_eq. intros i. rewrite lookup_drop, list_lookup_fmap. destruct (decide (n + i < length args)%nat) as [H|H].
  - rewrite lookup_seq_lt by lia. unfold arg. cbn. by destruct (lookup_lt_is_Some_2 args (n + i) H) as [x ->].
  - rewrite lookup_seq_ge by lia. by apply lookup_ge_None; lia.
Qed.
Lemma head_drop_arg (args : list V) n : default undef (head (drop n args)) = arg undef args n.
Proof. unfold arg. by rewrite head_lookup, lookup_drop, Nat.add_0_r. Qed.
Lemma tail_drop (args : list V) n : tail (drop n args) = drop (S n) args.
Proof. revert n. induction args as [|x args IH]; intros [|n]; try done. apply (IH n). Qed.

Lemma fill_loop hole args partials : forall pre n,
  foldl (fun result ih => <[ih.2 := arg undef args ih.1]> result) (pre ++ partials) (imap (fun i h => ((n + i)%nat, h)) (holes hole (length pre) partials)) ++
    drop (n + length (holes hole (length pre) partials)) args =
  pre ++ fill hole partials (drop n args).
Proof.
  induction partials as [|p partials IH]; intros pre n; cbn [holes fill].
  - cbn [imap foldl length]. by rewrite app_nil_r, Nat.add_0_r.
  - case_bool_decide as Hp.
    + cbn [imap foldl length fst snd]. rewrite insert_app_r_alt, Nat.sub_diag by lia. cbn [insert list_insert].
      rewrite head_drop_arg, tail_drop, Nat.add_0_r. specialize (IH (pre ++ [arg undef args n]) (S n)). rewrite length_app, Nat.add_1_r in IH. rewrite <- !app_assoc in IH. cbn [app] in IH.
      rewrite <- IH. f_equal; [|f_equal; lia]. f_equal. apply imap_ext. intros i x _. cbn. f_equal. lia.
    + specialize (IH (pre ++ [p]) n). rewrite length_app, Nat.add_1_r in IH. by rewrite <- !app_assoc in IH.
Qed.
Lemma composeArgs_fill hole args partials : composeArgs undef args partials (holders_of hole partials) = fill hole partials args.
Proof.
  rewrite holders_holes. unfold composeArgs. rewrite <- drop_args. pose proof (fill_loop hole args partials [] 0) as H. cbn [app length Nat.add] in H. rewrite drop_0 in H. exact H.
Qed.
(** Marking the placeholders changes nothing. *)
Lemma fill_marked partials args : PLACEHOLDER ∉ partials ->
  fill PLACEHOLDER ((fun x => if bool_decide (x = placeholder) then PLACEHOLDER else x) <$> partials) args = fill placeholder partials args.
Proof.
  revert args. induction partials as [|p partials IH]; intros args Hn; [done|]. apply not_elem_of_cons in Hn as [Hp Hn]. cbn [fmap list_fmap fill].
  destruct (decide (p = placeholder)) as [E|E].
  - rewrite (bool_decide_eq_true_2 (p = placeholder)) by done. rewrite bool_decide_eq_true_2 by done. by rewrite IH.
  - rewrite (bool_decide_eq_false_2 (p = placeholder)) by done. rewrite bool_decide_eq_false_2 by congruence. by rewrite IH.
Qed.
Lemma holes_marked partials k : PLACEHOLDER ∉ partials ->
  holes PLACEHOLDER k ((fun x => if bool_decide (x = placeholder) then PLACEHOLDER else x) <$> partials) = holes placeholder k partials.
Proof.
  revert k. induction partials as [|p partials IH]; intros k Hn; [done|]. apply not_elem_of_cons in Hn as [Hp Hn]. cbn [fmap list_fmap holes].
  destruct (decide (p = placeholder)) as [E|E].
  - rewrite (bool_decide_eq_true_2 (p = placeholder)) by done. rewrite bool_decide_eq_true_2 by done. by rewrite IH.
  - rewrite (bool_decide_eq_false_2 (p = placeholder)) by done. rewrite bool_decide_eq_false_2 by congruence. by rewrite IH.
Qed.
Lemma mark_same (l : list V) : (fun x => if bool_decide (x = PLACEHOLDER) then PLACEHOLDER else x) <$> l = l.
Proof. induction l as [|x l IH]; [done|]. cbn. rewrite IH. f_equal. by case_bool_decide. Qed.
(** Filling what is filled: enough arguments have to be there for the holes. *)
Lemma fill_fill hole p q args : (length (holes hole 0 p) <= length q)%nat -> fill hole (fill hole p q) args = fill hole p (fill hole q args).
Proof.
  assert (Hk : forall l k k', length (holes hole k l) = length (holes hole k' l)).
  { induction l as [|x l IH]; intros k k'; [done|]. cbn [holes]. case_bool_decide; cbn [length]; by rewrite (IH _ (S k')). }
  revert q args. induction p as [|x p IH]; intros q args Hl; [done|]. cbn [holes fill] in *. case_bool_decide as Hx.
  - cbn [length] in Hl. rewrite (Hk p 1%nat 0%nat) in Hl. destruct q as [|y q]; [cbn in Hl; lia|]. cbn [head tail default from_option length fill] in *. change (id y) with y.
    case_bool_decide; cbn [head tail default from_option]; by rewrite IH by lia.
  - rewrite (Hk p 1%nat 0%nat) in Hl. cbn [fill]. rewrite bool_decide_eq_false_2 by done. by rewrite IH.
Qed.
End facts.

(** ** What a bound function does *)

Section binding.
Context {V : Type} `{EqDecision V} (undef placeholder PLACEHOLDER : V) {R : Type} (native : nat -> mode V -> list V -> R).
Abbreviation run := (apply undef placeholder PLACEHOLDER native).
Abbreviation filled := (fill undef PLACEHOLDER).

(** Data of functions bound once or more, and the wrapper made of them. *)
Definition good_data (g : nat) (d : func_data V) : Prop :=
  (d_func d < g)%nat /\ d_partialsRight d = None /\ d_holdersRight d = None /\ d_argPos d = None /\ d_ary d = None /\
  ((d_bitmask d = 1 /\ d_partials d = None /\ d_holders d = None) \/
   (d_bitmask d = 33 /\ exists ps, d_partials d = Some ps /\ d_holders d = Some (holders_of PLACEHOLDER ps))).
Definition closure_of (d : func_data V) : closure V :=
  if d_bitmask d =? BIND_FLAG then BindWrapper (d_func d) (d_thisArg d)
  else if ((d_bitmask d =? PARTIAL_FLAG) || (d_bitmask d =? Z.lor BIND_FLAG PARTIAL_FLAG)) && Nat.eqb (length (default [] (d_holders d))) 0
  then PartialWrapper d else HybridWrapper d.
(** Functions are native or bound ones, and the data kept are those of the
    wrapper. *)
Definition wf_functions (s : fstate V) : Prop :=
  (forall g c, functions s !! g = Some c -> (exists n, c = Native n) \/ exists d, good_data g d /\ c = closure_of d) /\
  (forall g d, (g, d) ∈ meta s -> good_data g d /\ functions s !! g = Some (closure_of d)).

Lemma fill_no_holes hole (ps args : list V) : holders_of hole ps = [] -> fill undef hole ps args = ps ++ args.
Proof.
  rewrite holders_holes. generalize 0%nat. induction ps as [|p ps IH]; intros k; cbn [holes fill app]; [done|]. case_bool_decide; [done|]. intros Hh. by rewrite (IH _ Hh).
Qed.
Lemma apply_data s g d fuel m args : functions s !! g = Some (closure_of d) -> good_data g d ->
  run (S fuel) g m args s = run fuel (d_func d) (bound_mode true (d_thisArg d) m) (filled (default [] (d_partials d)) args) s.
Proof.
  intros Hg (_ & Hr & Hhr & Hpos & Hary & Hd). cbn [apply]. unfold mbind at 1, st_bind at 1, gets. cbv beta. rewrite Hg. clear Hg.
  destruct Hd as [(Hb & Hp & Hh)|(Hb & ps & Hp & Hh)].
  - assert (closure_of d = BindWrapper (d_func d) (d_thisArg d)) as -> by (unfold closure_of; by rewrite Hb). by rewrite Hp.
  - assert (closure_of d = if Nat.eqb (length (holders_of PLACEHOLDER ps)) 0 then PartialWrapper d else HybridWrapper d) as -> by (unfold closure_of; by rewrite Hb, Hh).
    destruct (Nat.eqb_spec (length (holders_of PLACEHOLDER ps)) 0) as [E|E].
    + apply nil_length_inv in E. unfold partial_call. rewrite Hb, Hp. change (has 33 BIND_FLAG) with true. cbn [default]. change (id ps) with ps. by rewrite fill_no_holes.
    + unfold hybrid_call, hybrid_args, curried, placed. rewrite Hb, Hp, Hh, Hr, Hpos, Hary. change (has 33 CURRY_FLAG) with false. change (has 33 CURRY_RIGHT_FLAG) with false. change (has 33 BIND_FLAG) with true.
      cbn [orb default]. change (id (holders_of PLACEHOLDER ps)) with (holders_of PLACEHOLDER ps). by rewrite composeArgs_fill.
Qed.
Lemma good_more g g' d : (g <= g')%nat -> good_data g d -> good_data g' d.
Proof. intros Hg (Hd & H). split; [lia|exact H]. Qed.
(** A call changes nothing, and does not depend on functions made later. *)
Lemma apply_same s s' : wf_functions s -> (exists new, functions s' = functions s ++ new) -> forall f, (f < length (functions s))%nat ->
  forall fuel fuel' m args, (f < fuel)%nat -> (f < fuel')%nat -> exists r, run fuel f m args s = (s, Ok r) /\ run fuel' f m args s' = (s', Ok r).
Proof.
  intros Hs [new Hnew] f. induction f as [f IH] using lt_wf_ind. intros Hf fuel fuel' m args Hfuel Hfuel'. destruct fuel as [|fuel]; [lia|]. destruct fuel' as [|fuel']; [lia|].
  destruct (lookup_lt_is_Some_2 (functions s) f Hf) as [c Hc]. assert (Hc' : functions s' !! f = Some c) by (rewrite Hnew; by apply lookup_app_l_Some).
  destruct (proj1 Hs f c Hc) as [[n ->]|(d & Hd & ->)].
  - cbn [apply]. unfold mbind, st_bind, gets. rewrite Hc, Hc'. by eexists.
  - pose proof Hd as (Hlt & _). rewrite (apply_data s f d), (apply_data s' f d) by done. apply IH; lia.
Qed.

(** ** What [bind] makes *)

Lemma find_meta (m : list (nat * func_data V)) f : match snd <$> List.find (fun p => Nat.eqb p.1 f) m with Some d => (f, d) ∈ m | None => True end.
Proof.
  induction m as [|[g d] m IH]; [done|]. cbn [List.find fst]. destruct (Nat.eqb_spec g f) as [->|]; [by left|].
  destruct (List.find _ m) as [[]|]; cbn in *; [by right|done].
Qed.
(** The data of [bind(f, thisArg, ...partials)]: merged with those of [f]. *)
Definition marked (ps : list V) : list V := (fun x => if bool_decide (x = placeholder) then PLACEHOLDER else x) <$> ps.
Definition is_bound (D : func_data V) (source : option (func_data V)) (f : nat) (thisArg : V) (ps : list V) : Prop :=
  match source with
  | None => d_func D = f /\ d_thisArg D = thisArg /\ default [] (d_partials D) = marked ps
  | Some d => d_func D = d_func d /\ d_thisArg D = d_thisArg d /\
      default [] (d_partials D) = (match ps, d_partials d with
        | [], p => default [] p
        | _, None => marked ps
        | _, Some p => filled p (marked ps)
        end)
  end.

(** The data of the wrapper but for its arity. *)
Definition new_data (f : nat) (bitmask : Z) (thisArg : V) (partials : option (list V)) (holders : option (list nat)) (source : option (func_data V)) : func_data V :=
  let newData := Data f bitmask thisArg partials holders None None None None None in
  match source with Some source => mergeData undef PLACEHOLDER newData source | None => newData end.
Definition set_arity (d : func_data V) (arity : Z) : func_data V :=
  Data (d_func d) (d_bitmask d) (d_thisArg d) (d_partials d) (d_holders d) (d_partialsRight d) (d_holdersRight d) (d_argPos d) (d_ary d) (Some arity).
Definition source_of (s : fstate V) (f : nat) : option (func_data V) := snd <$> List.find (fun p => Nat.eqb p.1 f) (meta s).

Lemma createWrapper_run now f bitmask thisArg ps holders s : (bitmask = 1 /\ ps = []) \/ (bitmask = 33 /\ ps <> []) ->
  let partials := match ps with [] => None | _ => Some ps end in
  let hs := match ps with [] => None | _ => holders end in
  exists s' arity, let D := set_arity (new_data f bitmask thisArg partials hs (source_of s f)) arity in
    createWrapper undef PLACEHOLDER true now f bitmask thisArg (Some ps) holders None None None s = (s', Ok (length (functions s))) /\
    functions s' = functions s ++ [closure_of D] /\ (meta s' = meta s \/ meta s' = (length (functions s), D) :: meta s).
Proof.
  intros Hb partials hs. unfold createWrapper.
  assert (E : (if Nat.eqb (length (default [] (Some ps))) 0 then (without bitmask (Z.lor PARTIAL_FLAG PARTIAL_RIGHT_FLAG), None, None) else (bitmask, Some ps, holders)) = (bitmask, partials, hs)).
  { destruct Hb as [[-> ->]|[-> Hps]]; [done|]. by destruct ps. }
  rewrite E. assert (Hr : has bitmask PARTIAL_RIGHT_FLAG = false) by (by destruct Hb as [[-> _]|[-> _]]). rewrite Hr. clear E Hr.
  unfold mbind, st_bind, getData, gets. fold (source_of s f). cbv beta iota. unfold new_data. destruct (source_of s f) as [d|] eqn:Es; cbv beta iota zeta.
  - set (D0 := mergeData _ _ _ _). destruct (d_arity D0) as [a|] eqn:Ea; unfold arity_of, gets, mret, st_ret, new_function, baseSetData, modify, mbind, st_bind; cbn [functions meta fst snd];
      (eexists _, _; split; [reflexivity|split; [reflexivity|by right]]).
  - cbn [d_arity]. unfold arity_of, gets, mret, st_ret, new_function, setData, mbind, st_bind. cbn [functions meta count lastCalled fst snd].
    destruct (_ && _); unfold baseSetData, modify, mret, st_ret, mbind, st_bind; cbn [functions meta]; (eexists _, _; split; [reflexivity|split; [reflexivity|auto]]).
Qed.
Lemma good_arity g d a : good_data g d -> good_data g (set_arity d a).
Proof. done. Qed.

Lemma holders_marked ps : PLACEHOLDER ∉ ps -> holders_of placeholder ps = holders_of PLACEHOLDER (marked ps).
Proof. intros Hps. rewrite !holders_holes. symmetry. by apply holes_marked. Qed.
Lemma merge_unbound g f ps bitmask thisArg d : ((bitmask = 1 /\ ps = []) \/ (bitmask = 33 /\ ps <> [])) -> PLACEHOLDER ∉ ps -> good_data f d -> (f < g)%nat ->
  let D := new_data f bitmask thisArg (match ps with [] => None | _ => Some (marked ps) end) (match ps with [] => None | _ => Some (holders_of PLACEHOLDER (marked ps)) end) (Some d) in
  good_data g D /\ is_bound D (Some d) f thisArg ps.
Proof.
  intros Hb Hps (Hf & Hr & Hhr & Hpos & Hary & Hd) Hfg D. unfold D, new_data, mergeData. cbn [d_func d_bitmask d_thisArg d_partials d_holders d_partialsRight d_holdersRight d_argPos d_ary d_arity].
  rewrite Hr, Hhr, Hpos, Hary. unfold merge_partials.
  destruct Hd as [(Eb & Ep & Eh)|(Eb & p & Ep & Eh)], Hb as [[-> ->]|[-> Hne]]; rewrite Eb, Ep, ?Eh;
    match goal with |- context [Z.lor ?a ?b <? ARY_FLAG] => change (Z.lor a b <? ARY_FLAG) with true end; cbn [orb negb].
  - split; [|unfold is_bound; cbn; by rewrite Ep]. split; [cbn; lia|]. repeat split. by left.
  - destruct ps as [|x ps]; [done|]. split; [|unfold is_bound; cbn; by rewrite Ep]. split; [cbn; lia|]. repeat split. right. split; [done|]. by eexists.
  - split; [|unfold is_bound; cbn; by rewrite Ep]. split; [cbn; lia|]. repeat split. right. split; [done|]. exists p. by split.
  - destruct ps as [|x ps]; [done|]. cbn [default]. change (id (holders_of PLACEHOLDER p)) with (holders_of PLACEHOLDER p). unfold replaceHolders. rewrite mark_same, composeArgs_fill.
    split; [|unfold is_bound; cbn; by rewrite Ep]. split; [cbn; lia|]. repeat split. right. split; [done|]. by eexists.
Qed.

Lemma bind_makes now s f thisArg ps : wf_functions s -> (f < length (functions s))%nat -> PLACEHOLDER ∉ ps -> exists s' D,
  bind undef placeholder PLACEHOLDER true now f thisArg ps s = (s', Ok (length (functions s))) /\ functions s' = functions s ++ [closure_of D] /\
  good_data (length (functions s)) D /\ is_bound D (source_of s f) f thisArg ps /\ wf_functions s'.
Proof.
  intros Hs Hf Hps. set (n := length (functions s)) in *.
  assert (Hmake : exists bitmask, ((bitmask = 1 /\ marked ps = []) \/ (bitmask = 33 /\ marked ps <> [])) /\ ((bitmask = 1 /\ ps = []) \/ (bitmask = 33 /\ ps <> [])) /\
    exists holders, (ps <> [] -> holders = Some (holders_of PLACEHOLDER (marked ps))) /\
    bind undef placeholder PLACEHOLDER true now f thisArg ps = createWrapper undef PLACEHOLDER true now f bitmask thisArg (Some (marked ps)) holders None None None).
  { destruct ps as [|p ps].
    - exists 1. split; [by left|]. split; [by left|]. by exists None.
    - exists 33. split; [by right|]. split; [by right|]. eexists. split; [intros _; reflexivity|]. unfold bind. rewrite <- holders_marked by done. done. }
  destruct Hmake as (bitmask & Hb' & Hb & holders & Hh & ->). destruct (createWrapper_run now f bitmask thisArg (marked ps) holders s Hb') as (s' & arity & Hrun & Hfun & Hmeta).
  set (D := set_arity _ arity) in *. exists s', D. rewrite Hrun. fold n. split; [done|]. split; [done|].
  assert (HD : good_data n D /\ is_bound D (source_of s f) f thisArg ps).
  { destruct (source_of s f) as [d|] eqn:Es.
    - pose proof (find_meta (meta s) f) as Hm. fold (source_of s f) in Hm. rewrite Es in Hm. destruct (proj2 Hs f d Hm) as [Hd _].
      destruct (merge_unbound n f ps bitmask thisArg d Hb Hps Hd Hf) as [H1 H2]. unfold D. destruct ps as [|p ps]; [by split|]. cbn [marked fmap list_fmap]. rewrite (Hh ltac:(done)). by split.
    - unfold D. destruct Hb as [[-> ->]|[-> Hne]].
      + split; [|done]. split; [cbn; lia|]. repeat split. by left.
      + destruct ps as [|p ps]; [done|]. split; [|done]. split; [cbn; lia|]. repeat split. right. split; [done|]. eexists. split; [reflexivity|]. cbn. by rewrite (Hh ltac:(done)). }
  destruct HD as [HD1 HD2]. split; [done|]. split; [done|]. split.
  - intros g c Hg. rewrite Hfun in Hg. apply lookup_app_Some in Hg as [Hg|[Hg1 Hg2]].
    + destruct (proj1 Hs g c Hg) as [?|(d & Hd & ->)]; [by left|right; by exists d].
    + apply list_lookup_singleton_Some in Hg2 as [Hg2 <-]. right. exists D. split; [|done]. by apply (good_more n); [lia|].
  - intros g d Hg. rewrite Hfun. assert (Hold : (g, d) ∈ meta s -> good_data g d /\ (functions s ++ [closure_of D]) !! g = Some (closure_of d)).
    { intros Hin. destruct (proj2 Hs g d Hin) as [H1 H2]. split; [done|]. by apply lookup_app_l_Some. }
    destruct Hmeta as [E|E]; rewrite E in Hg; [by apply Hold|]. apply elem_of_cons in Hg as [[= -> ->]|Hg]; [|by apply Hold]. split; [done|].
    rewrite lookup_app_r by lia. by rewrite Nat.sub_diag.
Qed.

(** The partial arguments of a bound function that is bound again. *)
Definition enough_partials (s : fstate V) (f : nat) (ps : list V) : Prop :=
  match source_of s f with
  | Some d => ps = [] \/ (length (default [] (d_holders d)) <= length ps)%nat
  | None => True
  end.
End binding.

(** C21. A bound function calls the function it was made of with the object it
    was bound to (or makes an object with it, after [new]) and with the bound
    arguments, the placeholders in them filled from the left: also when it is
    merged with the data of a function that was bound before, as long as no
    arguments are bound now or enough for the placeholders there (with fewer,
    a placeholder is lost, [placeholder_lost]). *)
Theorem bind_calls {V R : Type} `{EqDecision V} (undef placeholder PLACEHOLDER : V) (native : nat -> mode V -> list V -> R) now s f thisArg ps :
  wf_functions PLACEHOLDER s -> (f < length (functions s))%nat -> PLACEHOLDER ∉ ps -> enough_partials s f ps ->
  exists s' g, bind undef placeholder PLACEHOLDER true now f thisArg ps s = (s', Ok g) /\ wf_functions PLACEHOLDER s' /\
    forall m args, exists r, call undef placeholder PLACEHOLDER native g m args s' = (s', Ok r) /\
      call undef placeholder PLACEHOLDER native f (bound_mode true thisArg m) (fill undef placeholder ps args) s = (s, Ok r).
Proof.
  intros Hs Hf Hps Henough. destruct (bind_makes undef placeholder PLACEHOLDER now s f thisArg ps Hs Hf Hps) as (s' & D & Hrun & Hfun & HD & Hbound & Hs').
  exists s', (length (functions s)). split; [done|]. split; [done|]. intros m args. unfold call.
  assert (Hg : functions s' !! length (functions s) = Some (closure_of D)) by (rewrite Hfun, lookup_app_r by lia; by rewrite Nat.sub_diag).
  rewrite (apply_data undef placeholder PLACEHOLDER native s' _ D) by done. pose proof HD as (Hlt & _).
  assert (Hnew : exists new, functions s' = functions s ++ new) by (by eexists). unfold is_bound, enough_partials in *. pose proof (find_meta (meta s) f) as Hm. fold (source_of s f) in Hm.
  destruct (source_of s f) as [d|] eqn:Es.
  - destruct Hbound as (EF & ET & EP). destruct (proj2 Hs f d Hm) as [Hd Hc]. rewrite (apply_data undef placeholder PLACEHOLDER native s f d) by done.
    rewrite EF, ET, EP in *. pose proof Hd as (Hlt' & _).
    assert (Hargs : fill undef PLACEHOLDER (match ps, d_partials d with [], p => default [] p | _, None => marked placeholder PLACEHOLDER ps | _, Some p => fill undef PLACEHOLDER p (marked placeholder PLACEHOLDER ps) end) args =
      fill undef PLACEHOLDER (default [] (d_partials d)) (fill undef placeholder ps args)).
    { destruct ps as [|x ps]; [done|]. rewrite <- (fill_marked undef placeholder PLACEHOLDER (x :: ps)) by done. destruct (d_partials d) as [p|] eqn:Ep; [|done]. cbn [default]. change (id p) with p.
      apply fill_fill. rewrite <- holders_holes. unfold marked. rewrite length_fmap. destruct Henough as [|Hh]; [done|]. destruct Hd as (_ & _ & _ & _ & _ & [(_ & E & _)|(_ & p' & E & Eh)]); [congruence|].
      rewrite Ep in E. injection E as <-. by rewrite Eh in Hh. }
    rewrite Hargs. assert (Emode : bound_mode true (d_thisArg d) m = bound_mode true (d_thisArg d) (bound_mode true thisArg m)) by (by destruct m). rewrite Emode.
    destruct (apply_same undef placeholder PLACEHOLDER native s s' Hs Hnew (d_func d) ltac:(lia) f (length (functions s)) (bound_mode true (d_thisArg d) (bound_mode true thisArg m))
      (fill undef PLACEHOLDER (default [] (d_partials d)) (fill undef placeholder ps args)) Hlt' Hlt) as (r & H1 & H2). by exists r.
  - destruct Hbound as (EF & ET & EP). rewrite EF, ET, EP in *. unfold marked. rewrite fill_marked by done.
    destruct (apply_same undef placeholder PLACEHOLDER native s s' Hs Hnew f Hf (S f) (length (functions s)) (bound_mode true thisArg m) (fill undef placeholder ps args) ltac:(lia) Hlt) as (r & H1 & H2). by exists r.
Qed.
(** Values are numbers: 0 is [undefined], -1 the placeholder, -2 its mark. *)
Definition one_native : fstate Z := FState [Native 3] [] 0 0.
Definition show_call : nat -> mode Z -> list Z -> list Z := fun _ m args => match m with Called this => this :: args | Constructed => args end.
Definition bind_ := bind 0 (-1) (-2) true 100.
Definition call_ := call 0 (-1) (-2) show_call.
Lemma bind_calls_witness : exists s' g, bind_ 0%nat 7 [-1; 5] one_native = (s', Ok g) /\ wf_functions (-2) s' /\
  forall m args, exists r, call_ g m args s' = (s', Ok r) /\
    call_ 0%nat (bound_mode true 7 m) (fill 0 (-1) [-1; 5] args) one_native = (one_native, Ok r).
Proof.
  apply bind_calls.
  - split; [|by intros g d []%not_elem_of_nil]. intros g c Hg. left. destruct g as [|[|g]]; cbn in Hg; try discriminate. exists 3. congruence.
  - cbn. lia.
  - apply (bool_decide_unpack _). vm_compute. exact I.
  - exact I.
Defined.
(** Bound twice with too few arguments for the placeholders of the first time:
    the second placeholder is not kept, and its argument comes too late. *)
Example placeholder_lost :
  let '(s, g) := bind_ 0%nat 7 [-1; -1; 2] one_native in
  match g with
  | Ok g => let '(s', g') := bind_ g 8 [5] s in
            match g' with
            | Ok g' => (call_ g' (Called 9) [6] s').2 = Ok (Returned [7; 5; 0; 2; 6]) /\ (call_ g (Called 9) [5; 6] s).2 = Ok (Returned [7; 5; 6; 2])
            | Throw _ => False
            end
  | Throw _ => False
  end.
Proof. by vm_compute. Qed.
